(* ===== verification/_CoqProject ===== *)
-Q . S2P
Prelude.v
GoStrings.v
DN.v
DNFacts.v
Message.v
Ber.v
Decode.v
Encode.v
WireFacts.v
CodecFacts.v
CodecWf.v
Framing.v
FramingFacts.v
StoreCodec.v
Attr.v
Schema.v
Matching.v
FilterEval.v
RenameFacts.v
StoreIface.v
Aci.v
Server.v
Base64.v
Paging.v
PagingFacts.v
Synthetic.v
Search.v
SearchFacts.v
Write.v
FakeStore.v
WriteOps.v
WriteFacts.v
TreeFacts.v
GoTime.v
PwHash.v
Password.v
PasswordFacts.v
Credentials.v
GoText.v
Bolt.v
Store.v
StoreWrite.v
StoreFacts.v
StoreWalk.v
StoreRename.v
StoreRefine.v
StoreOpen.v
StoreEqual.v
StoreSystem.v
Bind.v
Dispatch.v
Conn.v
ConnFacts.v
MemberOf.v
MemberOfSpec.v
MemberOfWrites.v
RefInt.v
PluginFacts.v
PluginWrites.v
PluginSystem.v
Gate.v
ResetPlan.v
ResetRun.v
Vocab389.v
AciText.v
AciCompile.v
AciAttrs.v
Vocab389Data.v
AciRule.v
Ring.v
Auth.v
HttpAuth.v
Ldif.v
Scenario.v
GroupGraph.v
Baseline.v
CompileFacts.v
