(* ===== verification/Prelude.v ===== *)
(** * A verification of an LDAP lab: its native engine and its control plane

    The repository is an LDAP lab.  [labldapd] is a directory server of its own, the
    engine under [src/internal/ldapserver]; around it stands a control plane (commands,
    HTTP API, MCP server) that compiles a configuration, resets the directory to it, keeps
    sessions and an audit trail, and exports entries.  This library models the engine, from the octets
    of a connection to the buckets of its store, and the parts of the control plane that
    decide what happens to the directory, and proves what makes each part correct.

    ** The program and its model

    An LDAP message arrives as one BER element.  [codec_ber.go] takes it off the stream
    within a size limit and walks its structure within a depth and an element budget; the
    BER library (third party) builds a packet tree; [codec_ber_decode.go] turns the tree
    into a message.  The read loop of [conn.go] answers binds, abandons and StartTLS itself
    and gives other requests to workers; a handler of [op_search.go] or [op_write.go]
    runs inside one store transaction, asks the access-control engine about every
    attribute it touches, evaluates filters through the schema's matching rules, lets the
    plugins repair groups and credentials, and sends responses through
    [codec_ber_encode.go].  The files below are in the order they build on each other.

    - Foundations.  [Prelude]: the result type of fallible code with its monad, traversals
      and lemmas, octets and their values.  [GoStrings], [GoText], [GoTime],
      [Base64]: the parts of the Go packages [strings], [unicode], [time] and
      [encoding/base64] the program calls.
    - Names.  [DN] ([config/dn.go], [parentDN] and [joinDN] of [op_write.go]): parser,
      escaping printer, folded keys, comparisons.  [DNFacts]: printing then parsing is the
      identity on parsed names, a folded key identifies a name up to lower-casing, the
      string-level parent is the structural one.  [RenameFacts]: names below names, and
      what a rename does to them.
    - The wire.  [Message] ([message.go], [filter.go], [Entry] of [store.go]): the data.
      [Ber]: the interface of the BER library and its laws.  [Decode], [Encode]
      ([codec_ber_decode.go], [codec_ber_encode.go]): one function per function of the
      source.  [WireFacts], [CodecFacts], [CodecWf]: the decoder reads only what the wire
      preserves, inverts the encoder, yields well-formed messages.  [Framing]
      ([codec_ber.go]) and [FramingFacts]: the explicit-stack scanner accepts exactly the
      one-element buffers of a recursive grammar within the budgets; what a read consumes;
      where the length arithmetic wraps.  [StoreCodec] ([store/codec.go]): the stored form
      of an entry and its round trip.
    - Schema and filters.  [Attr] ([config/attr.go]), [Schema] ([schema.go],
      [schema_registry.go]), [Matching] ([matching.go]), [FilterEval] ([attrdesc.go],
      [filter_eval.go], the evaluator of [op_search.go]): the entry check decides the declarative schema rules, equality rules
      are partial equivalences, the greedy substring matcher is complete, the three-valued
      evaluator is Kleene's logic and independent of what may not be searched, the index
      planner only narrows.
    - Access control.  [StoreIface] ([store.go]): the seam of the store.  [Aci] ([aci.go],
      [aci_eval.go], the wrappers of [dispatch.go]): the evaluator implements a declarative
      decision in which denials win and errors deny.  [Vocab389] ([schema389.go]) and
      [Vocab389Data] (its embedded file), [AciText] ([aci_parse_a.go]):
      the parser accepts exactly a grammar.  [AciCompile] ([config/acl.go]),
      [AciAttrs], [AciRule]: the text compiled from an ACL of
      the configuration is read by the engine as the rule the ACL asks for.
    - Searching.  [Server] ([server.go], [dispatch.go], [conn.go]): limits, suffixes,
      controls, the environment of a handler.  [Paging] ([ctrl_paged.go]) and
      [PagingFacts]: signed cookies and the pages they select.  [Synthetic] (Root DSE,
      subschema), [Search] ([op_search.go]) and [SearchFacts]: what a search may send, what
      it must send, and that it keeps secrets.
    - Writing.  [Write] ([applyChange] and the helpers of [op_write.go], [op_attrs.go],
      [ctrl_assert.go], [plugin.go]), [FakeStore] ([fakes.go]), [WriteOps] (the handlers of
      [op_write.go]), [WriteFacts] (what a modification does and when it is refused, exactly
      when a write succeeds and what it leaves, authorisation) and
      [TreeFacts] (writes keep every entry below its parent).
    - The persistent store.  [Bolt]: the interface of the key-value library and its laws.
      [Store], [StoreWrite] ([store/store.go], [index.go], [index_store.go],
      [search_walk.go]): transactions over buckets.  [StoreFacts], [StoreWalk],
      [StoreRename]: the invariant that ties the buckets together, the walks, renames.
      [StoreRefine]: the buckets refine a directory, in successes and in errors.  [StoreOpen], [StoreEqual]: opening,
      migration and verification; equality searches through the postings.  [StoreSystem]:
      searches, walks, opening and the index check over the store.
    - Credentials.  [PwHash] ([pwhash.go]), [Password] ([password.go]), [PasswordFacts];
      [Bind] ([op_bind.go]): identities and lockout; [Credentials]: no
      request leaves a password in the clear.
    - Connections.  [Dispatch] ([dispatch.go], [ext_whoami.go]): every
      operation gets one final response.  [Conn] ([conn.go], [starttls.go]) and
      [ConnFacts]: the read loop, the workers and the table of operations in flight as a
      step relation, with what holds in every reachable state.
    - Plugins.  [MemberOf] ([memberof.go]), [MemberOfSpec],
      [MemberOfWrites]: [memberOf] is derived from the groups after every write.  [RefInt]
      ([refint.go]), [PluginFacts], [PluginWrites], [PluginSystem]:
      references follow deletes and renames, all plugins together over the persistent
      store, and any history of requests from an empty file on.
    - Soft reset.  [Gate] ([reset/gate.go]): operations and resets in any
      interleaving.  [ResetPlan] ([reset/plan.go], [reset/verify.go]):
      what is deleted and in which order.  [ResetRun] ([app/reset.go], [reset/inject.go]):
      what a reset leaves, whatever fails, and call by call what a successful one did.
    - The configuration.  [Scenario] ([config/v1alpha1/file.go], [settings.go], [hosts.go]):
      the document, its defaults and checks.  [GroupGraph] ([group.go]):
      groups are accepted exactly if their members exist and none contains itself.
      [Baseline] ([user.go], [policy.go], [token.go], [compile.go], [plan.go]),
      [CompileFacts]: what is compiled hangs together.
    - The control plane.  [Ring] ([audit/ring.go]): the audit trail and
      its pages.  [Auth] ([internal/auth]), [HttpAuth] ([api/middleware.go],
      [api/session.go]): tokens, sessions, and the check of requests that
      come with a cookie.  [Ldif] ([directory/ldif.go]): an export is read
      back as the entries it was made of.

    Components meet at interfaces, which are type classes: [BerLib] with [BerLaws],
    [Unicode] with [UnicodeLaws], [UnicodeSpaces] and [UnicodeUpper], [Schema] with
    [SchemaLaws], the transactions [ReadTx], [SearchTx], [UpdateTx] with their laws,
    [BoltLib] with [BoltLaws], [Crypto] with [CryptoLaws], [ResetEnv], [Vocabulary] with
    [VocabularyLaws], [ConfigLib], [AuthLib], [IoWriter].  Clients are proved against the laws.  Each
    class has an instance of the repository (the schema registry, the in-memory and the
    persistent store, the embedded vocabulary) or, for code outside it, a small concrete one
    that shows the laws can hold.

    ** How the code is represented

    Strings and byte slices are lists of octets; a slice the program compares with
    [nil] is an option.  Integers are [Z], with the wrap-around of [uint64] written
    out where it matters ([Framing.u64], [Ring.succ64]); times are nanoseconds since the
    epoch.  Fallible functions return [res E A], with what the callers distinguish of an
    error and no error texts.  A store transaction is a function on the state of the store;
    a write handler returns the store it leaves with the responses it sends.  A Go map that
    is only looked up is an association list, one that is updated a [gmap]; where the order
    of a walk over a map could matter it is an argument, or no statement depends on it.
    Entries are copied on their way in and out of the store by the source ([cloneEntry]), so
    values need no sharing.  Time, cancellation, randomness and writers are arguments: an
    [OpEnv] holds the answer to the n-th question asked.  What a mutex makes one critical
    section is one step; concurrency is the interleaving of steps ([Conn], [Gate], the
    [others] of [HttpAuth]).

    Recursion that is not structural carries fuel.  The octet scanners of [Framing], the
    lexer of [AciText] and the line folding of [Ldif] take one unit per octet, [runes] one
    per octet, [digits] twenty (every 64-bit integer has at most nineteen digits), the
    parent walk of an access-control target one more than the depth of the name, the SUP
    walk of the schema one per class, the clause loop of the ACI parser three and a
    permission list sixteen (the source refuses a repeated clause and a longer list), the walks of the store one per node ([StoreWalk]), the work
    lists of the plugins one per key that can enter them ([MemberOf]), the cycle check
    of [GroupGraph] one per node of the graph.  Each bound is
    proved sufficient where a theorem depends on it.

    ** What is not modelled

    TLS, sockets, files, logging, metrics and the lifecycle of the listener: they have no
    result a theorem could speak of.  The BER and key-value libraries, the Unicode case
    tables, [url.Parse], [time.ParseDuration], HMAC and hashes are third-party or standard code, given by
    interfaces.  Of the control plane: HTTP handlers other than those of sessions, the
    generated API code, the MCP server and the application services (arguments are moved
    between interfaces), the bootstrap, the commands, the client of an external 389 server and
    the LDAP client (their behaviour is that of other processes), the decoding of YAML and
    the files of secrets, revisions, list cursors and the text of filters.

    ** What the theorems assume

    A theorem about names says in its comment which names it is about.  The conditions that
    come back are: a name comes from the parser ([wf_dn]); no value ends in a tab
    ([no_tab_end], part of [plain_request] and [tidy]), which printing loses; the two
    comparisons of names, [EqualFold] and the folded key, agree about the names concerned
    ([agree], [agrees_on], part of [plain_request]); managed suffixes are not nested
    ([flat_suffixes]); and a directory with groups is one the plugins have kept ([kept]).
    What the code does outside of them is recorded by the lemmas of the next section.

    ** Where the code and its documentation part

    Some lemmas record behaviour that differs from what the code or a comment intends.
    Wire and names: [FramingFacts.readFrame_overflow], [CodecWf.compare_ava_context_class],
    [DNFacts.tab_value_not_stable].  Filters and access: [FilterEval.not_of_undefined_matches],
    [WriteFacts.denial_evaded], [WriteFacts.operational_forged],
    [WriteFacts.forbidden_long_s], [WriteFacts.operational_with_option],
    [AciRule.seventeen_permissions], [AciRule.carriage_return_retargeted].  Tree and
    plugins: [TreeFacts.move_into_subtree], [PluginSystem.respelled_member_missed],
    [PluginSystem.hash_renamed_lost], [PluginSystem.dotted_left_dangling],
    [PluginSystem.listed_before_added].  Credentials and
    connections: [Credentials.password_escapes], [Bind.lost_lock_forgets],
    [Bind.refused_bind_keeps_identity], [ConnFacts.answered_but_in_flight],
    [ConnFacts.fresh_handshake].  Control plane: [ResetPlan.respelled_survives],
    [ResetPlan.tab_deletes_another],
    [CompileFacts.one_name_twice], [CompileFacts.nested_suffix_respelled],
    [CompileFacts.people_outside], [CompileFacts.hidden_alias],
    [HttpAuth.expiry_skips_csrf], [Ldif.colon_pair_lost]. *)

From Stdlib Require Export Strings.Byte.
From stdpp Require Export base decidable gmap list strings.

(** * Notations and vocabulary *)

Declare Scope ldap_scope.
Delimit Scope ldap_scope with ldap.

(** A Go [string] and a Go [[]byte] are both lists of octets. *)
Abbreviation bytes := (list byte).

(** [B "uid"] is the Go string literal of that spelling. *)
Definition B (s : string) : bytes := String.list_byte_of_string s.

#[global] Instance byte_eq_dec : EqDecision byte := Byte.byte_eq_dec.

#[global] Instance byte_countable : Countable byte :=
  inj_countable Byte.to_N Byte.of_N Byte.of_to_N.

(** The unsigned value of an octet and the octet of a value ([byte(x)] in Go,
    which keeps the low eight bits). *)
Definition bz (b : byte) : Z := Z.of_N (Byte.to_N b).

Definition zb (z : Z) : byte :=
  match Byte.of_N (Z.to_N (z `mod` 256)) with
  | Some b => b
  | None => x00
  end.

(** String equality, Go's [==] on strings and [bytes.Equal]. *)
Definition beq (a b : bytes) : bool := bool_decide (a = b).

Notation "a =b? b" := (beq a b) (at level 70, no associativity) : ldap_scope.

(** Length in octets, Go's [len]. *)
Definition blen (s : bytes) : Z := Z.of_nat (length s).

(** * Results: a Go function that returns a value or an error *)

Inductive res (E A : Type) : Type :=
| Ok (a : A)
| Err (e : E).
Arguments Ok {E A} a.
Arguments Err {E A} e.

#[global] Instance res_ret {E} : MRet (res E) := λ A a, Ok a.

#[global] Instance res_bind {E} : MBind (res E) := λ A B f m,
  match m with
  | Ok a => f a
  | Err e => Err e
  end.

#[global] Instance res_fmap {E} : FMap (res E) := λ A B f m,
  match m with
  | Ok a => Ok (f a)
  | Err e => Err e
  end.

Definition is_ok {E A} (m : res E A) : bool :=
  match m with
  | Ok _ => true
  | Err _ => false
  end.

Definition res_opt {E A} (m : res E A) : option A :=
  match m with
  | Ok a => Some a
  | Err _ => None
  end.

(** [ensure b e] is the Go fragment [if !b { return e }]. *)
Definition ensure {E} (b : bool) (e : E) : res E unit :=
  if b then Ok () else Err e.

(** Forward iteration with an error exit, a Go [for _, x := range l] whose body
    may return an error; the results are appended in order. *)
Section loops.
Context {E A C S : Type}.

Section rmap.
Variable f : A → res E C.

Fixpoint rmap (l : list A) : res E (list C) :=
  match l with
  | [] => Ok []
  | x :: l' => y ← f x; ys ← rmap l'; Ok (y :: ys)
  end.
End rmap.

(** Iteration over a state with an error exit. *)
Section rfold.
Variable f : S → A → res E S.

Fixpoint rfold (s : S) (l : list A) : res E S :=
  match l with
  | [] => Ok s
  | x :: l' => s' ← f s x; rfold s' l'
  end.
End rfold.

End loops.

(** Big-endian value of octets, Go's [v<<8 | uint64(b)] loop. *)
Fixpoint be_acc (v : Z) (l : bytes) : Z :=
  match l with
  | [] => v
  | b :: l' => be_acc (Z.lor (Z.shiftl v 8) (bz b)) l'
  end.

(** * Hint databases *)

Create HintDb ldap discriminated.
Create Rewrite HintDb ldap_rw.

(** * Octets *)

Lemma bz_range (b : byte) : (0 ≤ bz b < 256)%Z.
Proof. unfold bz. pose proof (Byte.to_N_bounded b). lia. Qed.

Lemma bz_inj (a b : byte) : bz a = bz b → a = b.
Proof.
  unfold bz. intros H%N2Z.inj.
  pose proof (Byte.of_to_N a) as Ha. pose proof (Byte.of_to_N b) as Hb. congruence.
Qed.

Lemma zb_bz (b : byte) : zb (bz b) = b.
Proof.
  unfold zb. pose proof (bz_range b).
  rewrite Z.mod_small by lia. unfold bz. by rewrite N2Z.id, Byte.of_to_N.
Qed.

Lemma bz_zb (z : Z) : bz (zb z) = (z `mod` 256)%Z.
Proof.
  unfold zb, bz. pose proof (Z.mod_pos_bound z 256 ltac:(lia)) as Hm.
  destruct (Byte.of_N _) as [b|] eqn:E.
  - apply Byte.to_of_N in E. rewrite E. lia.
  - apply Byte.of_N_None_iff in E. lia.
Qed.

Lemma bz_zb_small (z : Z) : (0 ≤ z < 256)%Z → bz (zb z) = z.
Proof. intros. rewrite bz_zb. by apply Z.mod_small. Qed.

Lemma beq_true (a b : bytes) : beq a b = true ↔ a = b.
Proof. unfold beq. apply bool_decide_eq_true. Qed.

Lemma beq_false (a b : bytes) : beq a b = false ↔ a ≠ b.
Proof. unfold beq. apply bool_decide_eq_false. Qed.

Lemma beq_refl (a : bytes) : beq a a = true.
Proof. by apply beq_true. Qed.

#[export] Hint Rewrite beq_refl zb_bz : ldap_rw.

(** * Results *)

Lemma bind_ok {E A C} (m : res E A) (f : A → res E C) (c : C) :
  m ≫= f = Ok c ↔ ∃ a, m = Ok a ∧ f a = Ok c.
Proof. destruct m; cbn; [naive_solver | split; [done | intros (? & ? & ?); done]]. Qed.

Lemma bind_err {E A C} (m : res E A) (f : A → res E C) (e : E) :
  m ≫= f = Err e ↔ m = Err e ∨ ∃ a, m = Ok a ∧ f a = Err e.
Proof.
  destruct m as [a|e']; cbn; split.
  - intros H. right. exists a. eauto.
  - intros [?|(a' & [= <-] & ?)]; done.
  - intros [= ->]. by left.
  - intros [[= ->]|(x & Hx & _)]; [done | discriminate Hx].
Qed.

Lemma fmap_ok {E A C} (m : res E A) (f : A → C) (c : C) :
  f <$> m = Ok c ↔ ∃ a, m = Ok a ∧ c = f a.
Proof. destruct m; cbn; naive_solver. Qed.

Lemma ensure_ok {E} (b : bool) (e : E) (u : unit) :
  ensure b e = Ok u ↔ b = true.
Proof. destruct b, u; cbn; naive_solver. Qed.

Lemma ensure_err {E} (b : bool) (e e' : E) :
  ensure b e = Err e' ↔ b = false ∧ e' = e.
Proof. destruct b; cbn; naive_solver. Qed.

Lemma is_ok_true {E A} (m : res E A) : is_ok m = true ↔ ∃ a, m = Ok a.
Proof. destruct m; cbn; naive_solver. Qed.

Lemma rmap_ok {E A C} (f : A → res E C) (l : list A) (r : list C) :
  rmap f l = Ok r ↔ Forall2 (λ x y, f x = Ok y) l r.
Proof.
  revert r. induction l as [|x l IH]; intros r; cbn.
  - split; [intros [= <-]; constructor | intros H; by inversion H].
  - rewrite bind_ok. split.
    + intros (y & Hy & H). apply bind_ok in H as (ys & Hys & [= <-]).
      constructor; [done | by apply IH].
    + inversion 1 as [|? y ? ys Hy Hys]; subst. exists y. split; [done|].
      apply bind_ok. exists ys. split; [by apply IH | done].
Qed.

Lemma rmap_app {E A C} (f : A → res E C) (l1 l2 : list A) :
  rmap f (l1 ++ l2) = (r1 ← rmap f l1; r2 ← rmap f l2; Ok (r1 ++ r2)).
Proof.
  induction l1 as [|x l1 IH]; cbn.
  - by destruct (rmap f l2).
  - destruct (f x); cbn; [|done]. rewrite IH.
    destruct (rmap f l1); cbn; [|done]. by destruct (rmap f l2).
Qed.

Lemma rmap_length {E A C} (f : A → res E C) (l : list A) (r : list C) :
  rmap f l = Ok r → length r = length l.
Proof. rewrite rmap_ok. intros H. symmetry. by eapply Forall2_length. Qed.

(** [rmap] of a function that succeeds on every element. *)
Lemma rmap_total {E A C} (f : A → res E C) (l : list A) : (∀ x, x ∈ l → ∃ y, f x = Ok y) → ∃ r, rmap f l = Ok r.
Proof.
  induction l as [|x l IH]; intros H; [by exists []|]. destruct (H x ltac:(left)) as [y Hy], IH as [r Hr]; [intros; apply H; by right|].
  exists (y :: r). cbn. by rewrite Hy; cbn; rewrite Hr.
Qed.

(** [rmap] of a function that always succeeds is [map]. *)
Lemma rmap_pure {E A C} (f : A → res E C) (g : A → C) (l : list A) :
  Forall (λ x, f x = Ok (g x)) l → rmap f l = Ok (g <$> l).
Proof. induction 1 as [|x l Hx _ IH]; cbn; [done|]. by rewrite Hx; cbn; rewrite IH. Qed.

(** A filter that keeps everything. *)
Lemma filter_keep {A} (P : A → Prop) `{∀ x, Decision (P x)} (l : list A) :
  Forall P l → filter P l = l.
Proof. induction 1 as [|x l Hx _ IH]; [done|]. by rewrite filter_cons, decide_True, IH. Qed.

Lemma elem_of_concat {A} (x : A) (ls : list (list A)) : x ∈ concat ls ↔ ∃ l, x ∈ l ∧ l ∈ ls.
Proof.
  rewrite list_elem_of_In, in_concat. split; intros (l & H1 & H2); exists l; rewrite !list_elem_of_In in *; done.
Qed.

(** Inverts every monadic equation [m ≫= f = Ok c] of the context. *)
Ltac inv_ok :=
  repeat match goal with
  | H : _ ≫= _ = Ok _ |- _ =>
      apply bind_ok in H; let a := fresh "v" in let Ha := fresh "Hv" in
      destruct H as (a & Ha & H)
  | H : _ <$> _ = Ok _ |- _ =>
      apply fmap_ok in H; let a := fresh "v" in let Ha := fresh "Hv" in
      destruct H as (a & Ha & H)
  | H : ensure _ _ = Ok _ |- _ => apply ensure_ok in H
  | H : Ok _ = Ok _ |- _ => injection H as H
  | H : Err _ = Ok _ |- _ => discriminate H
  end.

(** Boolean hypotheses to propositions. *)
Ltac bprop :=
  repeat match goal with
  | H : _ && _ = true |- _ => apply andb_true_iff in H; destruct H
  | H : _ || _ = false |- _ => apply orb_false_iff in H; destruct H
  | H : negb _ = true |- _ => apply negb_true_iff in H
  | H : negb _ = false |- _ => apply negb_false_iff in H
  | H : beq _ _ = true |- _ => apply beq_true in H
  | H : beq _ _ = false |- _ => apply beq_false in H
  | H : (_ =? _)%Z = true |- _ => apply Z.eqb_eq in H
  | H : (_ =? _)%Z = false |- _ => apply Z.eqb_neq in H
  | H : (_ <? _)%Z = true |- _ => apply Z.ltb_lt in H
  | H : (_ <? _)%Z = false |- _ => apply Z.ltb_ge in H
  | H : (_ <=? _)%Z = true |- _ => apply Z.leb_le in H
  | H : (_ <=? _)%Z = false |- _ => apply Z.leb_gt in H
  | H : bool_decide _ = true |- _ => apply bool_decide_eq_true in H
  | H : bool_decide _ = false |- _ => apply bool_decide_eq_false in H
  end.

(** * Big-endian octets *)

Lemma be_acc_app (v : Z) (l1 l2 : bytes) : be_acc v (l1 ++ l2) = be_acc (be_acc v l1) l2.
Proof. revert v. induction l1; intros; cbn; auto. Qed.

Lemma land_shift8 (v : Z) (b : byte) : Z.land (Z.shiftl v 8) (bz b) = 0%Z.
Proof.
  pose proof (bz_range b). apply Z.bits_inj'. intros n Hn.
  rewrite Z.land_spec, Z.bits_0.
  destruct (Z.ltb_spec n 8).
  - rewrite Z.shiftl_spec_low by lia. done.
  - rewrite <- (Z.mod_small (bz b) (2^8)) by (change (2^8)%Z with 256%Z; lia).
    rewrite Z.mod_pow2_bits_high by lia. apply andb_false_r.
Qed.

Lemma lor_shift8 (v : Z) (b : byte) : Z.lor (Z.shiftl v 8) (bz b) = (v * 256 + bz b)%Z.
Proof.
  pose proof (Z.add_lor_land (Z.shiftl v 8) (bz b)) as H.
  rewrite land_shift8, Z.shiftl_mul_pow2 in H by lia.
  rewrite Z.shiftl_mul_pow2 by lia. change (2^8)%Z with 256%Z in *. lia.
Qed.

Lemma be_acc_nonneg (v : Z) (l : bytes) : (0 ≤ v → 0 ≤ be_acc v l)%Z.
Proof.
  revert v. induction l as [|b l IH]; intros v Hv; cbn; [done|].
  apply IH. rewrite lor_shift8. pose proof (bz_range b). lia.
Qed.
