(* ===== verification/GoStrings.v ===== *)
(** The parts of Go's [strings], [unicode/utf8] and [unicode] packages the
    program uses, on octet lists.

    A Go string is any sequence of octets; [for i, r := range s] decodes it as
    UTF-8, yielding U+FFFD with width one for an octet that starts no valid
    encoding.  [runes s] is that sequence, each rune with the octets it was
    decoded from.  The Unicode case tables are data of the Go distribution and
    not of the program: [Unicode] abstracts the two functions the program reads
    them through, [UnicodeLaws] states what it relies on, and [ascii_unicode] is
    the instance whose tables stop at U+007F. *)

From S2P Require Import Prelude.
Local Open Scope Z_scope.

(** * UTF-8 *)

Definition rune_error : Z := 65533.

Definition max_rune : Z := 1114111.

Definition is_ascii (b : byte) : bool := bz b <? 128.

Definition in_range (lo hi z : Z) : bool := (lo <=? z) && (z <=? hi).

(** [utf8.DecodeRuneInString]: the first rune of [s] and its width. *)
Definition decode_rune (s : bytes) : Z * nat :=
  match s with
  | [] => (rune_error, 0%nat)
  | c0 :: t0 =>
    let s0 := bz c0 in
    if s0 <? 128 then (s0, 1%nat)
    else if (s0 <? 194) || (245 <=? s0) then (rune_error, 1%nat)
    else
      let lo := if s0 =? 224 then 160 else if s0 =? 240 then 144 else 128 in
      let hi := if s0 =? 237 then 159 else if s0 =? 244 then 143 else 191 in
      match t0 with
      | [] => (rune_error, 1%nat)
      | c1 :: t1 =>
        let s1 := bz c1 in
        if negb (in_range lo hi s1) then (rune_error, 1%nat)
        else if s0 <? 224 then ((s0 - 192) * 64 + (s1 - 128), 2%nat)
        else match t1 with
        | [] => (rune_error, 1%nat)
        | c2 :: t2 =>
          let s2 := bz c2 in
          if negb (in_range 128 191 s2) then (rune_error, 1%nat)
          else if s0 <? 240 then
            ((s0 - 224) * 4096 + (s1 - 128) * 64 + (s2 - 128), 3%nat)
          else match t2 with
          | [] => (rune_error, 1%nat)
          | c3 :: _ =>
            let s3 := bz c3 in
            if negb (in_range 128 191 s3) then (rune_error, 1%nat)
            else ((s0 - 240) * 262144 + (s1 - 128) * 4096 + (s2 - 128) * 64 + (s3 - 128), 4%nat)
          end
        end
      end
  end.

(** [utf8.AppendRune]: surrogates and values outside Unicode encode as U+FFFD. *)
Definition encode_rune (r : Z) : bytes :=
  if in_range 0 127 r then [zb r]
  else if in_range 128 2047 r then [zb (192 + r / 64); zb (128 + r mod 64)]
  else if negb (in_range 0 max_rune r) || in_range 55296 57343 r then [xef; xbf; xbd]
  else if r <=? 65535 then
    [zb (224 + r / 4096); zb (128 + (r / 64) mod 64); zb (128 + r mod 64)]
  else
    [zb (240 + r / 262144); zb (128 + (r / 4096) mod 64);
     zb (128 + (r / 64) mod 64); zb (128 + r mod 64)].

(** [for _, r := range s]: the runes of [s], each with its octets.  The fuel is
    the length of [s]: every step consumes at least one octet. *)
Fixpoint runes_fuel (n : nat) (s : bytes) : list (Z * bytes) :=
  match n, s with
  | S n', _ :: _ =>
    let '(r, w) := decode_rune s in
    (r, take w s) :: runes_fuel n' (drop w s)
  | _, _ => []
  end.

Definition runes (s : bytes) : list (Z * bytes) := runes_fuel (length s) s.

(** [utf8.ValidString]. *)
Definition valid_chunk (p : Z * bytes) : bool :=
  negb ((p.1 =? rune_error) && (length p.2 =? 1)%nat).

Definition valid_utf8 (s : bytes) : bool := forallb valid_chunk (runes s).

(** * The Unicode tables *)

Class Unicode := {
  (** [unicode.ToLower] *)
  rune_lower : Z → Z;
  (** equality under simple case folding, the orbit walk of [strings.EqualFold] *)
  rune_fold : Z → Z → bool;
}.

Definition ascii_lower (r : Z) : Z := if in_range 65 90 r then r + 32 else r.

Class UnicodeLaws (U : Unicode) : Prop := {
  rune_lower_ascii : ∀ r, 0 ≤ r < 128 → rune_lower r = ascii_lower r;
  rune_lower_pos : ∀ r, 0 < r → 0 < rune_lower r;
  rune_lower_idem : ∀ r, rune_lower (rune_lower r) = rune_lower r;
  rune_lower_valid : ∀ r, 0 ≤ r ≤ max_rune → in_range 55296 57343 r = false →
    0 ≤ rune_lower r ≤ max_rune ∧ in_range 55296 57343 (rune_lower r) = false;
  rune_fold_refl : ∀ r, rune_fold r r = true;
  rune_fold_sym : ∀ r r', rune_fold r r' = true → rune_fold r' r = true;
  rune_fold_trans : ∀ a b c, rune_fold a b = true → rune_fold b c = true → rune_fold a c = true;
  rune_fold_ascii : ∀ a b, 0 ≤ a < 128 → 0 ≤ b < 128 →
    rune_fold a b = (ascii_lower a =? ascii_lower b);
}.

Definition ascii_unicode : Unicode := {|
  rune_lower := ascii_lower;
  rune_fold := λ a b, ascii_lower a =? ascii_lower b;
|}.

(** [unicode.IsSpace]. *)
Definition is_space (r : Z) : bool :=
  in_range 9 13 r || (r =? 32) || (r =? 133) || (r =? 160) || (r =? 5760) ||
  in_range 8192 8202 r || (r =? 8232) || (r =? 8233) || (r =? 8239) ||
  (r =? 8287) || (r =? 12288).

(** * package strings *)

Section strings.
Context {U : Unicode}.

Definition byte_lower (b : byte) : byte := zb (ascii_lower (bz b)).

(** [strings.ToLower]: the ASCII fast path, else [strings.Map]. *)
Definition to_lower (s : bytes) : bytes :=
  if forallb is_ascii s then byte_lower <$> s
  else concat ((λ p, encode_rune (rune_lower p.1)) <$> runes s).

(** [strings.EqualFold]. *)
Fixpoint fold_eq (a b : list (Z * bytes)) : bool :=
  match a, b with
  | [], [] => true
  | p :: a', q :: b' => rune_fold p.1 q.1 && fold_eq a' b'
  | _, _ => false
  end.

Definition equal_fold (s t : bytes) : bool := fold_eq (runes s) (runes t).

End strings.

Fixpoint drop_spaces (l : list (Z * bytes)) : list (Z * bytes) :=
  match l with
  | p :: l' => if is_space p.1 then drop_spaces l' else l
  | [] => []
  end.

(** [strings.TrimSpace]. *)
Definition trim_space (s : bytes) : bytes :=
  concat (snd <$> reverse (drop_spaces (reverse (drop_spaces (runes s))))).

(** [strings.TrimLeft(s, set)] for an ASCII cutset. *)
Fixpoint trim_left (set : bytes) (s : bytes) : bytes :=
  match s with
  | b :: s' => if bool_decide (b ∈ set) then trim_left set s' else s
  | [] => []
  end.

(** [strings.TrimRight] and [strings.Trim] for an ASCII cutset. *)
Definition trim_right (set : bytes) (s : bytes) : bytes := reverse (trim_left set (reverse s)).

Definition trim (set : bytes) (s : bytes) : bytes := trim_right set (trim_left set s).

(** [strings.Split(s, sep)] for a one-octet separator. *)
Fixpoint split_byte (sep : byte) (s : bytes) : list bytes :=
  match s with
  | [] => [[]]
  | b :: s' =>
    if bool_decide (b = sep) then [] :: split_byte sep s'
    else match split_byte sep s' with
         | p :: ps => (b :: p) :: ps
         | [] => [[b]]
         end
  end.

(** [strings.Cut(s, sep)] for a one-octet separator. *)
Fixpoint cut_byte (sep : byte) (s : bytes) : bytes * bytes * bool :=
  match s with
  | [] => ([], [], false)
  | b :: s' =>
    if bool_decide (b = sep) then ([], s', true)
    else let '(before, after, found) := cut_byte sep s' in (b :: before, after, found)
  end.

(** [strings.Join(parts, sep)]. *)
Fixpoint join (sep : bytes) (parts : list bytes) : bytes :=
  match parts with
  | [] => []
  | [p] => p
  | p :: ps => p ++ sep ++ join sep ps
  end.

Fixpoint has_prefix (s p : bytes) : bool :=
  match p, s with
  | [], _ => true
  | b :: p', c :: s' => bool_decide (b = c) && has_prefix s' p'
  | _ :: _, [] => false
  end.

(** [strings.HasSuffix]. *)
Definition has_suffix (s p : bytes) : bool := has_prefix (reverse s) (reverse p).

(** [strings.CutPrefix(s, p)]. *)
Definition cut_prefix (s p : bytes) : option bytes :=
  if has_prefix s p then Some (drop (length p) s) else None.

(** [strings.Index(s, needle)]: [None] is Go's [-1]. *)
Fixpoint index (s needle : bytes) : option nat :=
  if has_prefix s needle then Some 0%nat
  else match s with
       | [] => None
       | _ :: s' => S <$> index s' needle
       end.

(** [strings.Contains]. *)
Definition contains (s needle : bytes) : bool := bool_decide (is_Some (index s needle)).

(** [strings.Compare]: octet-lexicographic order. *)
Fixpoint compare (a b : bytes) : Z :=
  match a, b with
  | [], [] => 0
  | [], _ => -1
  | _, [] => 1
  | x :: a', y :: b' =>
    if bz x <? bz y then -1 else if bz y <? bz x then 1 else compare a' b'
  end.

(** * Facts about UTF-8 *)

Ltac rng :=
  unfold in_range in *;
  repeat match goal with
  | H : negb _ = true |- _ => apply negb_true_iff in H
  | H : negb _ = false |- _ => apply negb_false_iff in H
  end;
  rewrite ?andb_true_iff, ?andb_false_iff, ?orb_true_iff, ?orb_false_iff,
    ?Z.leb_le, ?Z.leb_gt, ?Z.ltb_lt, ?Z.ltb_ge, ?Z.eqb_eq, ?Z.eqb_neq in *.

Lemma in_range_true (lo hi z : Z) : in_range lo hi z = true ↔ lo ≤ z ≤ hi.
Proof. rng. done. Qed.

Lemma in_range_false (lo hi z : Z) : in_range lo hi z = false ↔ z < lo ∨ hi < z.
Proof. rng. done. Qed.

Lemma is_ascii_true (b : byte) : is_ascii b = true ↔ bz b < 128.
Proof. unfold is_ascii. by rewrite Z.ltb_lt. Qed.

(** What decoding the head of a non-empty string gives: an ASCII octet is its
    own rune; any other octet starts a chunk of octets all above 127 and, when
    the chunk is a valid encoding, [encode_rune] gives the chunk back. *)
Definition decoded (s : bytes) (r : Z) (w : nat) : Prop :=
  (∃ c t, s = c :: t ∧ bz c < 128 ∧ r = bz c ∧ w = 1%nat) ∨
  (128 ≤ r ≤ max_rune ∧ in_range 55296 57343 r = false ∧ (1 ≤ w ≤ length s)%nat ∧
   Forall (λ b, 128 ≤ bz b) (take w s) ∧
   (valid_chunk (r, take w s) = true → encode_rune r = take w s)).

Ltac bytes_eq :=
  repeat match goal with |- _ :: _ = _ :: _ => f_equal end; try done;
  apply bz_inj; rewrite bz_zb_small; repeat match goal with b : byte |- _ => pose proof (bz_range b); revert b end;
  intros; Z.div_mod_to_equations; lia.

Lemma encode_rune_2 (c0 c1 : byte) :
  194 ≤ bz c0 < 224 → 128 ≤ bz c1 ≤ 191 →
  encode_rune ((bz c0 - 192) * 64 + (bz c1 - 128)) = [c0; c1].
Proof.
  intros H0 H1. unfold encode_rune.
  rewrite (proj2 (in_range_false _ _ _)) by lia.
  rewrite (proj2 (in_range_true _ _ _)) by lia. bytes_eq.
Qed.

Lemma encode_rune_3 (c0 c1 c2 : byte) :
  224 ≤ bz c0 < 240 → 128 ≤ bz c1 ≤ 191 → (bz c0 = 224 → 160 ≤ bz c1) →
  (bz c0 = 237 → bz c1 ≤ 159) → 128 ≤ bz c2 ≤ 191 →
  encode_rune ((bz c0 - 224) * 4096 + (bz c1 - 128) * 64 + (bz c2 - 128)) = [c0; c1; c2].
Proof.
  intros H0 H1 Ha Hb H2. unfold encode_rune, max_rune.
  rewrite (proj2 (in_range_false 0 127 _)) by lia.
  rewrite (proj2 (in_range_false 128 2047 _)) by lia.
  rewrite (proj2 (in_range_true 0 _ _)) by lia.
  rewrite (proj2 (in_range_false 55296 _ _)) by lia. cbn [negb orb].
  rewrite (proj2 (Z.leb_le _ _)) by lia. bytes_eq.
Qed.

Lemma encode_rune_4 (c0 c1 c2 c3 : byte) :
  240 ≤ bz c0 < 245 → 128 ≤ bz c1 ≤ 191 → (bz c0 = 240 → 144 ≤ bz c1) →
  (bz c0 = 244 → bz c1 ≤ 143) → 128 ≤ bz c2 ≤ 191 → 128 ≤ bz c3 ≤ 191 →
  encode_rune ((bz c0 - 240) * 262144 + (bz c1 - 128) * 4096 + (bz c2 - 128) * 64 + (bz c3 - 128))
    = [c0; c1; c2; c3].
Proof.
  intros H0 H1 Ha Hb H2 H3. unfold encode_rune, max_rune.
  rewrite (proj2 (in_range_false 0 127 _)) by lia.
  rewrite (proj2 (in_range_false 128 2047 _)) by lia.
  rewrite (proj2 (in_range_true 0 _ _)) by lia.
  rewrite (proj2 (in_range_false 55296 _ _)) by lia. cbn [negb orb].
  rewrite (proj2 (Z.leb_gt _ _)) by lia. bytes_eq.
Qed.

Lemma decoded_error (c : byte) (t : bytes) : 128 ≤ bz c → decoded (c :: t) rune_error 1.
Proof.
  intros Hc. right. repeat split; cbn; try (unfold rune_error, max_rune; lia).
  - by constructor.
  - done.
Qed.

Lemma decode_rune_spec (c : byte) (t : bytes) :
  decoded (c :: t) (decode_rune (c :: t)).1 (decode_rune (c :: t)).2.
Proof.
  unfold decode_rune. pose proof (bz_range c).
  destruct (bz c <? 128) eqn:E0; [left; rng; by exists c, t|].
  assert (128 ≤ bz c) by (rng; lia).
  destruct ((bz c <? 194) || (245 <=? bz c)) eqn:E1; [by apply decoded_error|].
  destruct t as [|c1 t1]; [by apply decoded_error|].
  destruct (negb (in_range _ _ _)) eqn:R1; [by apply decoded_error|].
  assert (H1 : 128 ≤ bz c1 ≤ 191 ∧ (bz c = 224 → 160 ≤ bz c1) ∧ (bz c = 240 → 144 ≤ bz c1) ∧
    (bz c = 237 → bz c1 ≤ 159) ∧ (bz c = 244 → bz c1 ≤ 143)).
  { revert R1. repeat case_match; intros R1; rng; lia. }
  destruct H1 as (H1 & ? & ? & ? & ?). clear R1.
  destruct (bz c <? 224) eqn:E2.
  { right. rng. unfold max_rune. split_and!; cbn; try lia.
    - repeat constructor; lia.
    - intros _. apply encode_rune_2; lia. }
  destruct t1 as [|c2 t2]; [by apply decoded_error|].
  destruct (negb (in_range _ _ (bz c2))) eqn:R2; [by apply decoded_error|].
  destruct (bz c <? 240) eqn:E3.
  { right. rng. unfold max_rune. split_and!; cbn; try lia.
    - repeat constructor; lia.
    - intros _. apply encode_rune_3; lia. }
  destruct t2 as [|c3 t3]; [by apply decoded_error|].
  destruct (negb (in_range _ _ (bz c3))) eqn:R3; [by apply decoded_error|].
  right. rng. unfold max_rune. split_and!; cbn; try lia.
  - repeat constructor; lia.
  - intros _. apply encode_rune_4; lia.
Qed.

Lemma decode_rune_width (c : byte) (t : bytes) :
  (1 ≤ (decode_rune (c :: t)).2 ≤ length (c :: t))%nat.
Proof.
  destruct (decode_rune_spec c t) as [(c' & t' & [= <- <-] & _ & _ & ->)|(_ & _ & ? & _)];
    cbn in *; lia.
Qed.

Lemma runes_fuel_enough (n m : nat) (s : bytes) :
  (length s ≤ n)%nat → (length s ≤ m)%nat → runes_fuel n s = runes_fuel m s.
Proof.
  revert m s. induction n as [|n IH]; intros m [|c t] Hn Hm; cbn in Hn, Hm; try lia.
  - by destruct m.
  - by destruct m.
  - destruct m as [|m]; [lia|]. cbn [runes_fuel].
    pose proof (decode_rune_width c t) as Hw.
    destruct (decode_rune (c :: t)) as [r w]; cbn [snd] in Hw. f_equal.
    apply IH; rewrite length_drop; cbn [length] in *; lia.
Qed.

Lemma runes_nil : runes [] = [].
Proof. done. Qed.

Lemma runes_cons (c : byte) (t : bytes) :
  runes (c :: t) =
    ((decode_rune (c :: t)).1, take (decode_rune (c :: t)).2 (c :: t))
      :: runes (drop (decode_rune (c :: t)).2 (c :: t)).
Proof.
  unfold runes. pose proof (decode_rune_width c t) as Hw. cbn [length runes_fuel].
  destruct (decode_rune (c :: t)) as [r w]; cbn [fst snd] in *. f_equal.
  apply runes_fuel_enough; rewrite ?length_drop; cbn [length] in *; lia.
Qed.

(** Induction along the decoding of a string. *)
Lemma runes_ind (P : bytes → Prop) :
  P [] →
  (∀ c t, P (drop (decode_rune (c :: t)).2 (c :: t)) → P (c :: t)) →
  ∀ s, P s.
Proof.
  intros H0 H1 s. remember (length s) as n eqn:E. revert s E.
  induction (lt_wf n) as [n _ IH]. intros [|c t] ->; [done|].
  apply H1. eapply IH; [|done].
  pose proof (decode_rune_width c t). rewrite length_drop. cbn [length] in *. lia.
Qed.

Lemma runes_concat (s : bytes) : concat (snd <$> runes s) = s.
Proof.
  induction s as [|c t IH] using runes_ind; [done|].
  rewrite runes_cons. cbn [fmap list_fmap concat snd].
  rewrite IH. apply take_drop.
Qed.

(** A chunk of the decoding is an ASCII octet or consists of octets above 127. *)
Definition chunk_ok (p : Z * bytes) : Prop :=
  (∃ c, bz c < 128 ∧ p = (bz c, [c])) ∨
  (128 ≤ p.1 ≤ max_rune ∧ in_range 55296 57343 p.1 = false ∧ p.2 ≠ [] ∧
   Forall (λ b, 128 ≤ bz b) p.2 ∧ (valid_chunk p = true → encode_rune p.1 = p.2)).

Lemma runes_chunks (s : bytes) : Forall chunk_ok (runes s).
Proof.
  induction s as [|c t IH] using runes_ind; [constructor|].
  rewrite runes_cons. constructor; [|done].
  destruct (decode_rune_spec c t) as [(c' & t' & [= <- <-] & ? & -> & ->)|(Hr & Hs & Hw & Hf & He)].
  - left. by exists c.
  - right. cbn [fst snd]. refine (conj Hr (conj Hs (conj _ (conj Hf He)))). intros E.
    apply (f_equal length) in E. rewrite length_take in E. cbn [length] in *. lia.
Qed.

Lemma runes_ascii_cons (c : byte) (t : bytes) : bz c < 128 → runes (c :: t) = (bz c, [c]) :: runes t.
Proof.
  intros Hc. rewrite runes_cons. unfold decode_rune.
  rewrite (proj2 (Z.ltb_lt _ _)) by lia. done.
Qed.

Ltac decode_bytes :=
  cbn -[zb Z.div Z.modulo];
  rewrite ?bz_zb_small by (Z.div_mod_to_equations; lia);
  repeat match goal with
  | |- context [if ?a =? ?b then _ else _] =>
      let E := fresh in destruct (a =? b) eqn:E; rng; try (exfalso; Z.div_mod_to_equations; lia)
  end;
  repeat match goal with
  | |- context [if ?b then _ else _] =>
      let E := fresh in destruct b eqn:E; rng; try (exfalso; Z.div_mod_to_equations; lia)
  end;
  f_equal; Z.div_mod_to_equations; lia.

(** Decoding inverts encoding for the Unicode scalar values. *)
Lemma decode_encode_rune (r : Z) (s : bytes) :
  0 ≤ r ≤ max_rune → in_range 55296 57343 r = false →
  decode_rune (encode_rune r ++ s) = (r, length (encode_rune r)).
Proof.
  unfold max_rune. intros Hr Hs. apply in_range_false in Hs. unfold encode_rune, max_rune.
  destruct (Z_lt_le_dec r 128).
  { rewrite (proj2 (in_range_true 0 127 r)) by lia. cbn -[zb Z.div Z.modulo].
    rewrite bz_zb_small by lia. by rewrite (proj2 (Z.ltb_lt _ _)) by lia. }
  rewrite (proj2 (in_range_false 0 127 r)) by lia.
  destruct (Z_lt_le_dec r 2048).
  { rewrite (proj2 (in_range_true 128 2047 r)) by lia. decode_bytes. }
  rewrite (proj2 (in_range_false 128 2047 r)) by lia.
  rewrite (proj2 (in_range_true 0 1114111 r)) by lia.
  rewrite (proj2 (in_range_false 55296 57343 r)) by lia. cbn [negb orb].
  destruct (Z_lt_le_dec r 65536).
  - rewrite (proj2 (Z.leb_le r 65535)) by lia. decode_bytes.
  - rewrite (proj2 (Z.leb_gt r 65535)) by lia. decode_bytes.
Qed.

(** * Valid strings *)

(** A Unicode scalar value. *)
Definition scalar (r : Z) : Prop := 0 ≤ r ≤ max_rune ∧ in_range 55296 57343 r = false.

Lemma chunk_scalar (p : Z * bytes) : chunk_ok p → scalar p.1.
Proof.
  intros [(c & Hc & ->)|(? & ? & _)]; split; cbn; try done.
  - pose proof (bz_range c). unfold max_rune. lia.
  - apply in_range_false. lia.
  - lia.
Qed.

Lemma runes_scalar (s : bytes) : Forall (λ p, scalar p.1) (runes s).
Proof. eapply Forall_impl; [apply runes_chunks | apply chunk_scalar]. Qed.

Lemma encode_rune_ascii (r : Z) : 0 ≤ r < 128 → encode_rune r = [zb r].
Proof. intros. unfold encode_rune. by rewrite (proj2 (in_range_true 0 127 r)) by lia. Qed.

Lemma encode_rune_nonempty (r : Z) : encode_rune r ≠ [].
Proof. unfold encode_rune. by repeat case_match. Qed.

Lemma chunk_encode (p : Z * bytes) : chunk_ok p → valid_chunk p = true → encode_rune p.1 = p.2.
Proof.
  intros [(c & Hc & ->)|(_ & _ & _ & _ & He)] Hv; [|by apply He].
  pose proof (bz_range c). cbn. rewrite encode_rune_ascii by lia. by rewrite zb_bz.
Qed.

Lemma runes_encode_cons (r : Z) (s : bytes) :
  scalar r → runes (encode_rune r ++ s) = (r, encode_rune r) :: runes s.
Proof.
  intros [Hr Hs]. pose proof (decode_encode_rune r s Hr Hs) as Hd.
  destruct (encode_rune r) as [|c t] eqn:E; [by apply encode_rune_nonempty in E|].
  cbn [app] in *. rewrite runes_cons, Hd. cbn [fst snd].
  change (c :: t ++ s) with ((c :: t) ++ s). by rewrite take_app_length, drop_app_length.
Qed.

Lemma runes_encode (rs : list Z) :
  Forall scalar rs → runes (concat (encode_rune <$> rs)) = (λ r, (r, encode_rune r)) <$> rs.
Proof.
  induction 1 as [|r rs Hr _ IH]; [done|].
  cbn [fmap list_fmap concat]. by rewrite runes_encode_cons, IH.
Qed.

Lemma valid_encode (rs : list Z) : Forall scalar rs → valid_utf8 (concat (encode_rune <$> rs)) = true.
Proof.
  intros H. unfold valid_utf8. rewrite runes_encode by done.
  apply forallb_forall. intros p (r & -> & Hr)%list_elem_of_In%list_elem_of_fmap.
  unfold valid_chunk. cbn. destruct (Z.eqb_spec r rune_error) as [->|]; done.
Qed.

Lemma valid_reencode (s : bytes) :
  valid_utf8 s = true → concat ((λ p, encode_rune p.1) <$> runes s) = s.
Proof.
  intros Hv. rewrite <- (runes_concat s) at 2. f_equal.
  unfold valid_utf8 in Hv. rewrite forallb_forall in Hv.
  pose proof (runes_chunks s) as Hc. rewrite Forall_forall in Hc.
  apply list_fmap_ext. intros i p Hp. apply list_elem_of_lookup_2 in Hp.
  apply chunk_encode; [by apply Hc | by apply Hv, list_elem_of_In].
Qed.

(** * Lower-casing and case folding *)

Section folding.
Context {U : Unicode} {UL : UnicodeLaws U}.

Lemma ascii_lower_range (r : Z) : 0 ≤ r < 128 → 0 ≤ ascii_lower r < 128.
Proof. unfold ascii_lower. case_match; rng; lia. Qed.

(** The ASCII fast path computes what [strings.Map] would. *)
Lemma to_lower_runes (s : bytes) :
  to_lower s = concat (encode_rune <$> ((λ p, rune_lower p.1) <$> runes s)).
Proof.
  unfold to_lower. rewrite <- list_fmap_compose.
  destruct (forallb is_ascii s) eqn:E; [|done].
  rewrite forallb_forall in E.
  induction s as [|c t IH]; [done|].
  assert (Hc : bz c < 128) by (apply is_ascii_true, E; by left).
  rewrite runes_ascii_cons by done. cbn [fmap list_fmap concat].
  rewrite IH by (intros b Hb; apply E; by right).
  pose proof (bz_range c). unfold compose. cbn [fst].
  rewrite rune_lower_ascii by lia.
  rewrite encode_rune_ascii by (apply ascii_lower_range; lia). done.
Qed.

Lemma runes_to_lower (s : bytes) :
  fst <$> runes (to_lower s) = (λ p, rune_lower p.1) <$> runes s.
Proof.
  rewrite to_lower_runes, runes_encode.
  - rewrite <- list_fmap_compose. unfold compose. cbn. by rewrite list_fmap_id.
  - apply Forall_fmap. eapply Forall_impl; [apply runes_scalar|].
    intros p [Hr Hs]. by apply rune_lower_valid.
Qed.

Lemma valid_to_lower (s : bytes) : valid_utf8 (to_lower s) = true.
Proof.
  rewrite to_lower_runes. apply valid_encode, Forall_fmap.
  eapply Forall_impl; [apply runes_scalar|]. intros p [Hr Hs]. by apply rune_lower_valid.
Qed.

(** Lower-casing is idempotent, so a folded key is its own folded key. *)
Lemma to_lower_idem (s : bytes) : to_lower (to_lower s) = to_lower s.
Proof.
  rewrite (to_lower_runes (to_lower s)), (to_lower_runes s). f_equal. f_equal.
  rewrite <- (to_lower_runes s).
  transitivity (rune_lower <$> (fst <$> runes (to_lower s))).
  - by rewrite <- list_fmap_compose.
  - rewrite runes_to_lower, <- list_fmap_compose.
    apply list_fmap_ext. intros i p _. unfold compose. by rewrite rune_lower_idem.
Qed.

Lemma encode_rune_no_nul (r : Z) : 0 < r → x00 ∉ encode_rune r.
Proof.
  intros Hr Hin. assert (Hz : bz x00 = 0) by done.
  assert (Hall : Forall (λ b, 0 < bz b) (encode_rune r)).
  { unfold encode_rune. repeat case_match; repeat constructor; try done;
      rng; rewrite bz_zb_small; Z.div_mod_to_equations; unfold max_rune in *; lia. }
  rewrite Forall_forall in Hall. specialize (Hall _ Hin). lia.
Qed.

Lemma runes_pos (s : bytes) : x00 ∉ s → Forall (λ p, 0 < p.1) (runes s).
Proof.
  intros Hn. apply Forall_forall. intros p Hp.
  pose proof (runes_chunks s) as Hc. rewrite Forall_forall in Hc.
  destruct (Hc p Hp) as [(c & Hc' & ->)|(? & _)]; [|lia]. cbn.
  pose proof (bz_range c). destruct (Z.eq_dec (bz c) 0) as [E|]; [|lia].
  exfalso. apply Hn. replace x00 with c by (by apply bz_inj).
  rewrite <- (runes_concat s). apply list_elem_of_In, in_concat.
  exists [c]. split; [|by left]. apply list_elem_of_In, list_elem_of_fmap. by exists (bz c, [c]).
Qed.

Lemma to_lower_no_nul (s : bytes) : x00 ∉ s → x00 ∉ to_lower s.
Proof.
  intros Hn%runes_pos Hin. rewrite to_lower_runes in Hin.
  apply list_elem_of_In, in_concat in Hin as (l & Hl & Hin).
  apply list_elem_of_In, list_elem_of_fmap in Hl as (r & -> & Hr).
  apply list_elem_of_fmap in Hr as (p & -> & Hp).
  rewrite Forall_forall in Hn. apply list_elem_of_In in Hin. revert Hin.
  apply encode_rune_no_nul, rune_lower_pos, Hn, Hp.
Qed.

(** [EqualFold] is an equivalence. *)
Lemma fold_eq_refl (a : list (Z * bytes)) : fold_eq a a = true.
Proof. induction a; cbn; [done|]. by rewrite rune_fold_refl. Qed.

Lemma fold_eq_sym (a b : list (Z * bytes)) : fold_eq a b = true → fold_eq b a = true.
Proof.
  revert b. induction a as [|p a IH]; intros [|q b]; cbn; try done.
  rewrite !andb_true_iff. intros [? ?]. split; [by apply rune_fold_sym | by apply IH].
Qed.

Lemma fold_eq_trans (a b c : list (Z * bytes)) :
  fold_eq a b = true → fold_eq b c = true → fold_eq a c = true.
Proof.
  revert b c. induction a as [|p a IH]; intros [|q b] [|r c]; cbn; try done.
  rewrite !andb_true_iff. intros [? ?] [? ?].
  split; [by eapply rune_fold_trans | by eapply IH].
Qed.

#[export] Instance equal_fold_equiv : Equivalence (λ s t, equal_fold s t = true).
Proof.
  split; red; unfold equal_fold.
  - intros. apply fold_eq_refl.
  - intros *. apply fold_eq_sym.
  - intros *. apply fold_eq_trans.
Qed.

End folding.

#[export] Instance ascii_unicode_laws : UnicodeLaws ascii_unicode.
Proof.
  assert (Hl : ∀ r, ascii_lower r = r ∨ 65 ≤ r ≤ 90 ∧ ascii_lower r = r + 32).
  { intros r. unfold ascii_lower. destruct (in_range 65 90 r) eqn:E; [right|by left].
    apply in_range_true in E. lia. }
  split; cbn; intros; rewrite ?Z.eqb_eq, ?in_range_false in *; unfold max_rune in *.
  - done.
  - destruct (Hl r); lia.
  - unfold ascii_lower. repeat case_match; rng; lia.
  - destruct (Hl r) as [E|[? E]]; rewrite E; lia.
  - done.
  - done.
  - congruence.
  - done.
Qed.
