(* ===== verification/DN.v ===== *)
(** Distinguished names: [src/internal/config/dn.go] and the string-level
    parent and join helpers of [src/internal/ldapserver/op_write.go].

    The parser, the escaping printer and the structural comparisons are
    translated operation by operation; the theorems say that parsing yields
    well-formed names, that printing and re-parsing is the identity (away from
    values ending in a tab), that the folded key identifies a name up to
    lower-casing, and that the string-level parent is the structural one. *)

From S2P Require Import Prelude GoStrings.

(** * Data *)

(** [fieldErr(path, code, message)]. *)
Inductive field_err : Type := FieldErr (path code message : string).

Record rdn : Type := Rdn { rdn_attr : bytes; rdn_value : bytes }.

Record DN : Type := MkDN { rdns : list rdn }.

#[export] Instance rdn_eq_dec : EqDecision rdn.
Proof. solve_decision. Defined.

#[export] Instance DN_eq_dec : EqDecision DN.
Proof. solve_decision. Defined.

Definition dn_err (msg : string) : field_err := FieldErr "dn" "invalid_dn" msg.

(** ASCII octets of the DN grammar. *)
Definition c_backslash : byte := x5c.
Definition c_comma : byte := x2c.
Definition c_plus : byte := x2b.
Definition c_equals : byte := x3d.
Definition c_space : byte := x20.
Definition c_tab : byte := x09.
Definition c_hash : byte := x23.

(** * Scanning *)

(** [splitUnescaped]: [cur] holds [s[start:i]]. *)
Fixpoint split_unescaped_go (sep : Z) (esc : bool) (cur : bytes) (rs : list (Z * bytes)) : list bytes :=
  match rs with
  | [] => [cur]
  | (r, ch) :: rs' =>
    if esc then split_unescaped_go sep false (cur ++ ch) rs'
    else if (r =? bz c_backslash)%Z then split_unescaped_go sep true (cur ++ ch) rs'
    else if (r =? sep)%Z then cur :: split_unescaped_go sep false [] rs'
    else split_unescaped_go sep false (cur ++ ch) rs'
  end.

Definition splitUnescaped (s : bytes) (sep : byte) : list bytes :=
  split_unescaped_go (bz sep) false [] (runes s).

(** [indexUnescaped]: [None] is Go's [-1]. *)
Fixpoint index_unescaped_go (sep : Z) (esc : bool) (i : nat) (rs : list (Z * bytes)) : option nat :=
  match rs with
  | [] => None
  | (r, ch) :: rs' =>
    if esc then index_unescaped_go sep false (i + length ch) rs'
    else if (r =? bz c_backslash)%Z then index_unescaped_go sep true (i + length ch) rs'
    else if (r =? sep)%Z then Some i
    else index_unescaped_go sep false (i + length ch) rs'
  end.

Definition indexUnescaped (s : bytes) (sep : byte) : option nat :=
  index_unescaped_go (bz sep) false 0 (runes s).

(** [trimRDNWhitespace]: the right side is walked on the reversed string. *)
Fixpoint count_backslashes (r : bytes) : nat :=
  match r with
  | b :: r' => if bool_decide (b = c_backslash) then S (count_backslashes r') else 0
  | [] => 0
  end.

Fixpoint trim_rdn_right (r : bytes) : bytes :=
  match r with
  | b :: r' =>
    if bool_decide (b = c_space ∨ b = c_tab) then
      if Nat.odd (count_backslashes r') then r else trim_rdn_right r'
    else r
  | [] => []
  end.

Definition trimRDNWhitespace (s : bytes) : bytes :=
  reverse (trim_rdn_right (reverse (trim_left (B " " ++ [c_tab]) s))).

Definition is_digit (r : Z) : bool := in_range 48 57 r.

Definition is_alpha (r : Z) : bool := in_range 97 122 r || in_range 65 90 r.

(** The descriptor branch of [validDNAttribute]: position 0 must be a letter. *)
Fixpoint valid_descr (first : bool) (rs : list (Z * bytes)) : bool :=
  match rs with
  | [] => true
  | (c, _) :: rs' =>
    (is_alpha c || (negb first && (is_digit c || (c =? 45)%Z))) && valid_descr false rs'
  end.

Definition validDNAttribute (s : bytes) : bool :=
  match s with
  | [] => false
  | b :: _ =>
    if is_digit (bz b) then
      let parts := split_byte x2e s in
      (2 <=? length parts)%nat &&
      forallb (λ p, negb (p =b? [])%ldap && forallb (λ q, is_digit q.1) (runes p)) parts
    else valid_descr true (runes s)
  end.

(** * Escaping *)

Definition hex_val (b : byte) : option Z :=
  let z := bz b in
  if in_range 48 57 z then Some (z - 48)%Z
  else if in_range 97 102 z then Some (z - 87)%Z
  else if in_range 65 70 z then Some (z - 55)%Z
  else None.

(** [hex.Decode] of two octets. *)
Definition hex_pair (a b : byte) : option byte :=
  match hex_val a, hex_val b with
  | Some x, Some y => Some (zb (x * 16 + y))
  | _, _ => None
  end.

(** The literal characters an escape may name: space, comma, plus, quote,
    backslash, angle brackets, semicolon, equals and hash. *)
Definition escapable : bytes :=
  [c_space; c_comma; c_plus; x22; c_backslash; x3c; x3e; x3b; c_equals; c_hash].

Fixpoint unescape_go (s : bytes) : res field_err bytes :=
  match s with
  | [] => Ok []
  | c :: t =>
    if negb (bool_decide (c = c_backslash)) then v ← unescape_go t; Ok (c :: v)
    else match t with
    | [] => Err (dn_err "dangling escape")
    | a :: t1 =>
      let literal :=
        if negb (bool_decide (a ∈ escapable)) then Err (dn_err "invalid DN escape")
        else v ← unescape_go t1; Ok (a :: v) in
      match t1 with
      | b :: t2 =>
        match hex_pair a b with
        | Some d =>
          if bool_decide (d = x00) then Err (dn_err "DN contains NUL")
          else v ← unescape_go t2; Ok (d :: v)
        | None => literal
        end
      | [] => literal
      end
    end
  end.

Definition unescapeValue (s : bytes) : res field_err bytes :=
  v ← unescape_go s;
  _ ← ensure (valid_utf8 v) (dn_err "DN contains invalid UTF-8");
  Ok v.

(** The characters [EscapeAttributeValue] always escapes. *)
Definition escaped_specials : bytes :=
  [c_backslash; c_comma; c_plus; x22; x3b; x3c; x3e].

Fixpoint escape_go (n i : nat) (rs : list (Z * bytes)) : bytes :=
  match rs with
  | [] => []
  | (r, ch) :: rs' =>
    (if (r =? 0)%Z then B "\00"
     else if existsb (λ b, (r =? bz b)%Z) escaped_specials then c_backslash :: encode_rune r
     else if (r =? 32)%Z && ((i =? 0)%nat || (i + length (encode_rune r) =? n)%nat) then B "\ "
     else if (r =? 35)%Z && (i =? 0)%nat then B "\#"
     else encode_rune r) ++ escape_go n (i + length ch) rs'
  end.

Definition EscapeAttributeValue (s : bytes) : bytes :=
  if (s =b? [])%ldap then s else escape_go (length s) 0 (runes s).

(** * Operations on names *)

Section dn.
Context {U : Unicode}.

Definition parse_rdn (p0 : bytes) : res field_err rdn :=
  let p := trimRDNWhitespace p0 in
  match indexUnescaped p c_equals with
  | None | Some O => Err (dn_err "RDN is missing '='")
  | Some eq =>
    let attr := to_lower (trim_space (take eq p)) in
    let rest := drop (S eq) p in
    if negb (validDNAttribute attr) then Err (dn_err "RDN attribute is invalid")
    else if bool_decide (is_Some (indexUnescaped rest c_plus)) then
      Err (dn_err "multi-valued RDN is not supported")
    else
      v ← unescapeValue rest;
      Ok (Rdn attr v)
  end.

Definition ParseDN (s : bytes) : res field_err DN :=
  if (s =b? [])%ldap then Err (dn_err "DN is empty")
  else if bool_decide (x00 ∈ s) then Err (dn_err "DN contains NUL")
  else rs ← rmap parse_rdn (splitUnescaped s c_comma); Ok (MkDN rs).

Definition BuildRDN (attr value : bytes) : res field_err bytes :=
  if negb (validDNAttribute attr) then Err (FieldErr "rdn" "invalid_rdn" "attribute is invalid")
  else if bool_decide (x00 ∈ value) then Err (FieldErr "rdn" "invalid_rdn" "value contains NUL")
  else Ok (to_lower attr ++ B "=" ++ EscapeAttributeValue value).

Definition Leaf (d : DN) : option (bytes * bytes) :=
  match rdns d with
  | [] => None
  | r :: _ => Some (rdn_attr r, rdn_value r)
  end.

Definition Depth (d : DN) : nat := length (rdns d).

Definition rdn_string (r : rdn) : bytes := rdn_attr r ++ B "=" ++ EscapeAttributeValue (rdn_value r).

Definition String (d : DN) : bytes := join (B ",") (rdn_string <$> rdns d).

Definition rdn_folded (r : rdn) : bytes :=
  rdn_attr r ++ B "=" ++ EscapeAttributeValue (to_lower (rdn_value r)).

Definition FoldedKey (d : DN) : bytes := join (B ",") (rdn_folded <$> rdns d).

(** Pointwise comparison of two lists already known to have one length. *)
Fixpoint all2 {A} (f : A → A → bool) (l m : list A) : bool :=
  match l, m with
  | x :: l', y :: m' => f x y && all2 f l' m'
  | _, _ => true
  end.

Definition rdn_eqb (a b : rdn) : bool :=
  ((rdn_attr a =b? rdn_attr b) && (rdn_value a =b? rdn_value b))%ldap.

Definition rdn_eqfold (a b : rdn) : bool :=
  ((rdn_attr a =b? rdn_attr b) && equal_fold (rdn_value a) (rdn_value b))%ldap.

Definition Equal (d o : DN) : bool :=
  (length (rdns d) =? length (rdns o))%nat && all2 rdn_eqb (rdns d) (rdns o).

Definition EqualFold (d o : DN) : bool :=
  (length (rdns d) =? length (rdns o))%nat && all2 rdn_eqfold (rdns d) (rdns o).

Definition Parent (d : DN) : option DN :=
  if (length (rdns d) <? 2)%nat then None else Some (MkDN (drop 1 (rdns d))).

Definition IsDescendantOf (d ancestor : DN) : bool :=
  if (length (rdns ancestor) =? 0)%nat || (length (rdns d) <=? length (rdns ancestor))%nat then false
  else all2 rdn_eqb (drop (length (rdns d) - length (rdns ancestor)) (rdns d)) (rdns ancestor).

Definition UnderAny (d : DN) (suffixes : list DN) : bool :=
  existsb (λ s, Equal d s || IsDescendantOf d s) suffixes.

Definition Rebase (d from to : DN) : option DN :=
  if (length (rdns from) =? 0)%nat || (length (rdns d) <? length (rdns from))%nat then None
  else
    let keep := (length (rdns d) - length (rdns from))%nat in
    if negb (FoldedKey (MkDN (drop keep (rdns d))) =b? FoldedKey from)%ldap then None
    else Some (MkDN (take keep (rdns d) ++ rdns to)).

(** [parentDN] of [op_write.go]: the canonical string is re-parsed after its
    first unescaped comma. *)
Definition parentDN (d : DN) : option DN :=
  let s := String d in
  match indexUnescaped s c_comma with
  | Some i => res_opt (ParseDN (drop (S i) s))
  | None => None
  end.

(** [joinDN] of [op_write.go]. *)
Definition joinDN (r parent : DN) : DN :=
  match ParseDN (String r ++ B "," ++ String parent) with
  | Ok d => d
  | Err _ => parent
  end.

End dn.
