(* ===== verification/DNFacts.v ===== *)
(** Theorems about distinguished names ([DN.v]).

    The rune-level scanners of the source are first shown to agree with plain
    octet scanners, whose behaviour on concatenations is then established by
    induction; the round trip, the injectivity of the folded key and the
    equivalence of the string-level parent with the structural one follow. *)

From S2P Require Import Prelude GoStrings DN.
Local Open Scope Z_scope.

(** * Octet-level scanners *)

Fixpoint bsplit (sep : byte) (esc : bool) (cur s : bytes) : list bytes :=
  match s with
  | [] => [cur]
  | b :: s' =>
    if esc then bsplit sep false (cur ++ [b]) s'
    else if bool_decide (b = c_backslash) then bsplit sep true (cur ++ [b]) s'
    else if bool_decide (b = sep) then cur :: bsplit sep false [] s'
    else bsplit sep false (cur ++ [b]) s'
  end.

Fixpoint bindex (sep : byte) (esc : bool) (i : nat) (s : bytes) : option nat :=
  match s with
  | [] => None
  | b :: s' =>
    if esc then bindex sep false (S i) s'
    else if bool_decide (b = c_backslash) then bindex sep true (S i) s'
    else if bool_decide (b = sep) then Some i
    else bindex sep false (S i) s'
  end.

(** Scanning [s] from state [esc]: [None] when an unescaped [sep] is met, else
    the final state. *)
Fixpoint scan (sep : byte) (esc : bool) (s : bytes) : option bool :=
  match s with
  | [] => Some esc
  | b :: s' =>
    if esc then scan sep false s'
    else if bool_decide (b = c_backslash) then scan sep true s'
    else if bool_decide (b = sep) then None
    else scan sep false s'
  end.

(** Byte-level escaping; [first] marks the first octet of the value. *)
Definition needs_escape (b : byte) : bool := bool_decide (b ∈ escaped_specials).

Definition besc1 (first : bool) (b : byte) (t : bytes) : bytes :=
  if bool_decide (b = x00) then B "\00"
  else if needs_escape b then [c_backslash; b]
  else if bool_decide (b = c_space) && (first || bool_decide (t = [])) then [c_backslash; b]
  else if bool_decide (b = c_hash) && first then [c_backslash; b]
  else [b].

Fixpoint besc (first : bool) (s : bytes) : bytes :=
  match s with
  | [] => []
  | b :: t => besc1 first b t ++ besc false t
  end.

(** * Agreement with the rune-level scanners *)

Lemma high_octet (b : byte) (sep : byte) :
  128 ≤ bz b → bz sep < 128 → b ≠ sep ∧ b ≠ c_backslash.
Proof. intros Hb Hs. split; intros ->; [lia | change (bz c_backslash) with 92 in Hb; lia]. Qed.

Lemma bsplit_high (sep : byte) (e : bool) (cur ch s : bytes) :
  bz sep < 128 → ch ≠ [] → Forall (λ b, 128 ≤ bz b) ch →
  bsplit sep e cur (ch ++ s) = bsplit sep false (cur ++ ch) s.
Proof.
  intros Hs Hne Hf. revert e cur Hne. induction Hf as [|b ch Hb Hf IH]; intros e cur Hne; [done|].
  destruct (high_octet b sep Hb Hs) as [H1 H2]. cbn.
  rewrite (bool_decide_eq_false_2 (b = c_backslash)), (bool_decide_eq_false_2 (b = sep)) by done.
  assert (Hgo : bsplit sep false (cur ++ [b]) (ch ++ s) = bsplit sep false (cur ++ b :: ch) s).
  { destruct ch; [done|]. rewrite IH by done. by rewrite <- app_assoc. }
  by destruct e.
Qed.

Lemma bindex_high (sep : byte) (e : bool) (i : nat) (ch s : bytes) :
  bz sep < 128 → ch ≠ [] → Forall (λ b, 128 ≤ bz b) ch →
  bindex sep e i (ch ++ s) = bindex sep false (i + length ch) s.
Proof.
  intros Hs Hne Hf. revert e i Hne. induction Hf as [|b ch Hb Hf IH]; intros e i Hne; [done|].
  destruct (high_octet b sep Hb Hs) as [H1 H2]. cbn.
  rewrite (bool_decide_eq_false_2 (b = c_backslash)), (bool_decide_eq_false_2 (b = sep)) by done.
  assert (Hgo : bindex sep false (S i) (ch ++ s) = bindex sep false (i + S (length ch)) s).
  { destruct ch; [cbn; f_equal; lia|]. rewrite IH by done. f_equal. cbn. lia. }
  by destruct e.
Qed.

Lemma bz_eqb (a b : byte) : (bz a =? bz b) = bool_decide (a = b).
Proof.
  case_bool_decide as E; [rewrite E; apply Z.eqb_refl|].
  apply Z.eqb_neq. intros H. by apply E, bz_inj.
Qed.

Ltac high_rune :=
  match goal with
  | H : 128 ≤ ?r ≤ _ |- context [?r =? bz ?c] =>
      rewrite (proj2 (Z.eqb_neq r (bz c))) by (first [lia | change (bz c) with 92; lia])
  end.

Lemma split_runes (sep : byte) (e : bool) (cur s : bytes) :
  bz sep < 128 → split_unescaped_go (bz sep) e cur (runes s) = bsplit sep e cur s.
Proof.
  intros Hs. revert e cur. induction s as [|c t IH] using runes_ind; intros e cur; [done|].
  destruct (decode_rune_spec c t) as [(c' & t' & [= <- <-] & Hc & _ & Hw)|(Hr & _ & Hw & Hf & _)].
  - rewrite Hw in IH. cbn [drop] in IH. rewrite drop_0 in IH.
    rewrite runes_ascii_cons by done. cbn -[bz]. rewrite !bz_eqb. by rewrite !IH.
  - rewrite runes_cons. replace (bsplit sep e cur (c :: t)) with
      (bsplit sep e cur (take (decode_rune (c :: t)).2 (c :: t) ++ drop (decode_rune (c :: t)).2 (c :: t))) by by rewrite take_drop.
    rewrite bsplit_high; [|done| |done].
    + cbn [split_unescaped_go]. repeat high_rune. destruct e; apply IH.
    + intros E. apply (f_equal length) in E. rewrite length_take in E. cbn [length] in *. lia.
Qed.

Lemma index_runes (sep : byte) (e : bool) (i : nat) (s : bytes) :
  bz sep < 128 → index_unescaped_go (bz sep) e i (runes s) = bindex sep e i s.
Proof.
  intros Hs. revert e i. induction s as [|c t IH] using runes_ind; intros e i; [done|].
  destruct (decode_rune_spec c t) as [(c' & t' & [= <- <-] & Hc & _ & Hw)|(Hr & _ & Hw & Hf & _)].
  - rewrite Hw in IH. cbn [drop] in IH. rewrite drop_0 in IH.
    rewrite runes_ascii_cons by done. cbn -[bz]. rewrite !bz_eqb, Nat.add_1_r. by rewrite !IH.
  - rewrite runes_cons. replace (bindex sep e i (c :: t)) with
      (bindex sep e i (take (decode_rune (c :: t)).2 (c :: t) ++ drop (decode_rune (c :: t)).2 (c :: t))) by by rewrite take_drop.
    rewrite bindex_high; [|done| |done].
    + cbn [index_unescaped_go]. repeat high_rune. destruct e; apply IH.
    + intros E. apply (f_equal length) in E. rewrite length_take in E. cbn [length] in *. lia.
Qed.

Lemma splitUnescaped_bytes (s : bytes) : splitUnescaped s c_comma = bsplit c_comma false [] s.
Proof. by apply split_runes. Qed.

Lemma indexUnescaped_bytes (s : bytes) (sep : byte) :
  bz sep < 128 → indexUnescaped s sep = bindex sep false 0 s.
Proof. apply index_runes. Qed.

(** * Scanners on concatenations *)

Lemma bsplit_scan (sep : byte) (e e' : bool) (cur p s : bytes) :
  scan sep e p = Some e' → bsplit sep e cur (p ++ s) = bsplit sep e' (cur ++ p) s.
Proof.
  revert e cur. induction p as [|b p IH]; intros e cur H; cbn in *.
  - injection H as ->. by rewrite app_nil_r.
  - replace (cur ++ b :: p) with ((cur ++ [b]) ++ p) by by rewrite <- app_assoc.
    destruct e; [by apply IH|]. case_bool_decide; [by apply IH|].
    case_bool_decide; [done|]. by apply IH.
Qed.

Lemma bindex_scan (sep : byte) (e e' : bool) (i : nat) (p s : bytes) :
  scan sep e p = Some e' → bindex sep e i (p ++ s) = bindex sep e' (i + length p) s.
Proof.
  revert e i. induction p as [|b p IH]; intros e i H; cbn in *.
  - injection H as ->. f_equal. lia.
  - replace (i + S (length p))%nat with (S i + length p)%nat by lia.
    destruct e; [by apply IH|]. case_bool_decide; [by apply IH|].
    case_bool_decide; [done|]. by apply IH.
Qed.

Lemma scan_app (sep : byte) (e : bool) (p q : bytes) :
  scan sep e (p ++ q) = (e' ← scan sep e p; scan sep e' q).
Proof.
  revert e. induction p as [|b p IH]; intros e; cbn; [done|].
  destruct e; [apply IH|]. case_bool_decide; [apply IH|]. case_bool_decide; [done|]. apply IH.
Qed.

(** An escape-balanced part is followed by its separator, or is the last. *)
Lemma bsplit_sep (sep : byte) (p s : bytes) :
  sep ≠ c_backslash → scan sep false p = Some false →
  bsplit sep false [] (p ++ sep :: s) = p :: bsplit sep false [] s.
Proof.
  intros Hs H. rewrite (bsplit_scan _ _ _ _ _ _ H). cbn.
  by rewrite (bool_decide_eq_false_2 (sep = c_backslash)), bool_decide_eq_true_2 by done.
Qed.

Lemma bsplit_join (sep : byte) (parts : list bytes) :
  sep ≠ c_backslash → parts ≠ [] → Forall (λ p, scan sep false p = Some false) parts →
  bsplit sep false [] (join [sep] parts) = parts.
Proof.
  intros Hs Hne Hf. induction Hf as [|p ps Hp Hf IH]; [done|].
  destruct ps as [|q ps].
  - cbn. rewrite <- (app_nil_r p) at 1. by rewrite (bsplit_scan _ _ _ _ _ _ Hp).
  - change (join [sep] (p :: q :: ps)) with (p ++ sep :: join [sep] (q :: ps)).
    rewrite bsplit_sep, IH; done.
Qed.

(** * Escaping *)

Lemma besc_high (f : bool) (ch s : bytes) :
  ch ≠ [] → Forall (λ b, 128 ≤ bz b) ch → besc f (ch ++ s) = ch ++ besc false s.
Proof.
  intros Hne Hf. revert f Hne. induction Hf as [|b ch Hb Hf IH]; intros f Hne; [done|].
  assert (Hn : ∀ c : byte, bz c < 128 → b ≠ c) by (intros c Hc ->; lia).
  cbn [app besc]. unfold besc1, needs_escape.
  rewrite (bool_decide_eq_false_2 (b = x00)) by (apply Hn; reflexivity).
  rewrite (bool_decide_eq_false_2 (b ∈ _)).
  2: { unfold escaped_specials. rewrite !elem_of_cons, elem_of_nil.
       intros HH. repeat (destruct HH as [HH|HH]; [revert HH; apply Hn; reflexivity|]). done. }
  rewrite (bool_decide_eq_false_2 (b = c_space)), (bool_decide_eq_false_2 (b = c_hash)) by (apply Hn; reflexivity).
  cbn. destruct ch; [done|]. by rewrite IH.
Qed.

Lemma existsb_specials (c : byte) : existsb (λ b, bz c =? bz b) escaped_specials = needs_escape c.
Proof. unfold needs_escape. destruct c; vm_compute; reflexivity. Qed.

Lemma escape_go_bytes (n i : nat) (s : bytes) :
  valid_utf8 s = true → n = (i + length s)%nat →
  escape_go n i (runes s) = besc (i =? 0)%nat s.
Proof.
  revert i. induction s as [|c t IH] using runes_ind; intros i Hv Hn; [done|].
  unfold valid_utf8 in Hv. rewrite runes_cons in Hv. cbn [forallb] in Hv.
  apply andb_true_iff in Hv as [Hv1 Hv2].
  destruct (decode_rune_spec c t) as [(c' & t' & [= <- <-] & Hc & Hr & Hw)|(Hr & _ & Hw & Hf & He)].
  - rewrite Hw in IH, Hv2. cbn [drop] in *. rewrite drop_0 in *.
    rewrite runes_ascii_cons by done. cbn [escape_go besc length] in *.
    pose proof (bz_range c). rewrite IH by (done || lia).
    rewrite encode_rune_ascii, zb_bz by lia. rewrite existsb_specials.
    change 0 with (bz x00). change 32 with (bz c_space). change 35 with (bz c_hash).
    rewrite !bz_eqb, Nat.add_1_r. f_equal. unfold besc1. cbn [length].
    replace (S i =? n)%nat with (bool_decide (t = [])).
    + destruct (bool_decide (c = x00)), (needs_escape c), (i =? 0)%nat, (bool_decide (t = []));
        try done; repeat case_bool_decide; subst; try done.
    + case_bool_decide as E; symmetry; [apply Nat.eqb_eq | apply Nat.eqb_neq];
        [rewrite Hn, E; cbn; lia|].
      destruct t; cbn in *; [done | lia].
    + by rewrite Nat.add_1_r.
  - rewrite runes_cons. set (w := (decode_rune (c :: t)).2) in *. set (r := (decode_rune (c :: t)).1) in *.
    assert (Hch : take w (c :: t) ≠ []).
    { intros E. apply (f_equal length) in E. rewrite length_take in E. cbn [length] in *. lia. }
    cbn [escape_go]. rewrite IH; [|done|].
    2: { rewrite length_take, length_drop. cbn [length] in *. lia. }
    replace (besc (i =? 0)%nat (c :: t)) with (besc (i =? 0)%nat (take w (c :: t) ++ drop w (c :: t)))
      by by rewrite take_drop.
    rewrite besc_high by done.
    rewrite (proj2 (Z.eqb_neq r 0)), (proj2 (Z.eqb_neq r 32)), (proj2 (Z.eqb_neq r 35)) by lia.
    replace (existsb _ _) with false.
    2: { symmetry. unfold escaped_specials. cbn. repeat (rewrite (proj2 (Z.eqb_neq r _)) by lia). done. }
    cbn [andb]. rewrite He by done. f_equal. f_equal.
    apply Nat.eqb_neq. destruct (take w (c :: t)); cbn; [done | lia].
Qed.

Lemma escape_bytes (s : bytes) : valid_utf8 s = true → EscapeAttributeValue s = besc true s.
Proof.
  intros Hv. unfold EscapeAttributeValue. destruct (beq s []) eqn:E; bprop; [by subst|].
  by apply escape_go_bytes.
Qed.

Lemma besc1_scan (sep : byte) (f : bool) (b : byte) (t : bytes) :
  needs_escape sep = true → scan sep false (besc1 f b t) = Some false.
Proof.
  intros Hs. assert (Hbs : ∀ x, scan sep false [c_backslash; x] = Some false) by (intros; reflexivity).
  unfold besc1. case_bool_decide; [|destruct (needs_escape b) eqn:E; [apply Hbs|]].
  - revert Hs. destruct sep; vm_compute; congruence.
  - case_bool_decide; cbn [andb]; [destruct (f || _); [apply Hbs|]|].
    all: case_bool_decide; cbn [andb]; [destruct f; [apply Hbs|]|].
    all: cbn; rewrite (bool_decide_eq_false_2 (b = c_backslash)), (bool_decide_eq_false_2 (b = sep));
      [done | intros ->; congruence | intros ->; vm_compute in E; congruence].
Qed.

Lemma besc_scan (sep : byte) (f : bool) (s : bytes) :
  needs_escape sep = true → scan sep false (besc f s) = Some false.
Proof.
  intros Hs. revert f. induction s as [|b t IH]; intros f; [done|].
  cbn. rewrite scan_app, besc1_scan by done. apply IH.
Qed.

Lemma besc_snoc (f : bool) (s : bytes) (b : byte) :
  ∃ X f', besc f (s ++ [b]) = X ++ besc1 f' b [] ∧ scan c_comma false X = Some false.
Proof.
  revert f. induction s as [|a s IH]; intros f.
  - exists [], f. cbn. by rewrite app_nil_r.
  - destruct (IH false) as (X & f' & E & Hs).
    exists (besc1 f a (s ++ [b]) ++ X), f'. cbn. rewrite E, app_assoc. split; [done|].
    rewrite scan_app, besc1_scan by done. apply Hs.
Qed.

Lemma hex_val_special (b x : byte) : b ∈ escapable → hex_pair b x = None.
Proof.
  intros Hb. assert (Hh : hex_val b = None); [|unfold hex_pair; by rewrite Hh].
  unfold escapable in Hb. rewrite !elem_of_cons, elem_of_nil in Hb. by intuition subst.
Qed.

Lemma unescape_escaped (b : byte) (s : bytes) :
  b ∈ escapable → unescape_go (c_backslash :: b :: s) = (v ← unescape_go s; Ok (b :: v)).
Proof.
  intros Hb. cbn [unescape_go]. rewrite bool_decide_eq_true_2 by done. cbn [negb].
  rewrite (bool_decide_eq_true_2 (b ∈ escapable)) by done. cbn [negb].
  destruct s as [|x s]; [done|]. by rewrite hex_val_special.
Qed.

Lemma specials_escapable (b : byte) : needs_escape b = true → b ∈ escapable.
Proof.
  unfold needs_escape, escaped_specials, escapable. rewrite bool_decide_eq_true.
  rewrite !elem_of_cons. intuition.
Qed.

(** Unescaping inverts escaping on strings without NUL. *)
Lemma unescape_besc (f : bool) (s : bytes) : x00 ∉ s → unescape_go (besc f s) = Ok s.
Proof.
  revert f. induction s as [|b t IH]; intros f Hn; [done|].
  rewrite not_elem_of_cons in Hn. destruct Hn as [Hb Ht].
  cbn [besc]. unfold besc1. rewrite (bool_decide_eq_false_2 (b = x00)) by congruence.
  destruct (needs_escape b) eqn:E.
  { cbn [app]. rewrite unescape_escaped by by apply specials_escapable. by rewrite IH. }
  assert (Hesc : b = c_space ∨ b = c_hash → b ∈ escapable).
  { intros [-> | ->]; unfold escapable; rewrite !elem_of_cons; intuition. }
  assert (Hplain : unescape_go (b :: besc false t) = Ok (b :: t)).
  { cbn [unescape_go]. rewrite bool_decide_eq_false_2; [by cbn; rewrite IH|].
    intros ->. vm_compute in E. congruence. }
  case_bool_decide; cbn [andb]; [destruct (f || _)|].
  all: try (cbn [app]; rewrite unescape_escaped by auto; by rewrite IH).
  all: case_bool_decide; cbn [andb]; [destruct f|]; try done.
  all: cbn [app]; rewrite unescape_escaped by auto; by rewrite IH.
Qed.

Lemma unescapeValue_escape (s : bytes) :
  valid_utf8 s = true → x00 ∉ s → unescapeValue (EscapeAttributeValue s) = Ok s.
Proof.
  intros Hv Hn. unfold unescapeValue. rewrite escape_bytes, unescape_besc by done.
  cbn. by rewrite Hv.
Qed.

(** * Attribute descriptors *)

(** Octets of a valid RDN attribute: letters, digits, hyphen, dot. *)
Definition attr_char (b : byte) : bool :=
  is_alpha (bz b) || is_digit (bz b) || bool_decide (b = x2d) || bool_decide (b = x2e).

Definition attr_head (b : byte) : bool := is_alpha (bz b) || is_digit (bz b).

(** A predicate on runes that only holds below 128 transfers to the octets. *)
Lemma runes_ascii_forall (P : Z → bool) (s : bytes) :
  (∀ r, P r = true → r < 128) → forallb (λ p, P p.1) (runes s) = true →
  Forall (λ b, P (bz b) = true) s.
Proof.
  intros HP. induction s as [|c t IH] using runes_ind; [by constructor|].
  rewrite runes_cons. cbn [forallb fst]. intros H. bprop.
  destruct (decode_rune_spec c t) as [(c' & t' & [= <- <-] & Hc & Hr & Hw)|(Hr & _)].
  - rewrite Hw in *. cbn [drop] in *. rewrite drop_0 in *. rewrite Hr in *. constructor; auto.
  - apply HP in H. lia.
Qed.

Lemma is_digit_lt (r : Z) : is_digit r = true → r < 128.
Proof. unfold is_digit. rewrite in_range_true. lia. Qed.

Lemma is_alpha_lt (r : Z) : is_alpha r = true → r < 128.
Proof. unfold is_alpha. rewrite orb_true_iff, !in_range_true. lia. Qed.

Lemma split_byte_forall (sep : byte) (P : byte → Prop) (s : bytes) :
  P sep → Forall (Forall P) (split_byte sep s) → Forall P s.
Proof.
  intros Hsep. induction s as [|b s IH]; [by constructor|]. cbn.
  case_bool_decide as E.
  - inversion 1; subst. constructor; auto.
  - destruct (split_byte sep s) as [|p ps]; inversion 1 as [|? ? Hp Hps]; subst;
      inversion Hp; subst; constructor; auto.
Qed.

Lemma valid_descr_chars (first : bool) (s : bytes) :
  valid_descr first (runes s) = true → Forall (λ b, attr_char b = true) s.
Proof.
  intros H. apply (Forall_impl (λ b, (is_alpha (bz b) || is_digit (bz b) || (bz b =? 45)) = true)).
  - apply (runes_ascii_forall (λ r, is_alpha r || is_digit r || (r =? 45))).
    + intros r. rewrite !orb_true_iff, Z.eqb_eq.
      intros [[?%is_alpha_lt|?%is_digit_lt]|?]; lia.
    + revert first H. induction (runes s) as [|[r ch] rs IH]; intros first; cbn; [done|].
      rewrite !andb_true_iff. intros [H1 H2]. split; [|by eapply IH].
      revert H1. destruct (is_alpha r), (is_digit r), (r =? 45), first; done.
  - intros b. unfold attr_char. change 45 with (bz x2d). rewrite bz_eqb.
    destruct (is_alpha _), (is_digit _), (bool_decide (b = x2d)); done.
Qed.

Lemma validDNAttribute_chars (s : bytes) :
  validDNAttribute s = true → s ≠ [] ∧ Forall (λ b, attr_char b = true) s.
Proof.
  unfold validDNAttribute. destruct s as [|b s]; [done|]. intros H. split; [done|].
  destruct (is_digit (bz b)); [|by eapply valid_descr_chars].
  bprop. eapply (split_byte_forall x2e); [done|].
  apply Forall_forall. intros p Hp. rewrite forallb_forall in H0.
  specialize (H0 p (proj1 (list_elem_of_In _ _) Hp)). bprop.
  eapply Forall_impl; [by apply (runes_ascii_forall is_digit), H1; apply is_digit_lt|].
  intros c Hc. unfold attr_char. rewrite Hc. by destruct (is_alpha _).
Qed.

Lemma validDNAttribute_head (b : byte) (s : bytes) :
  validDNAttribute (b :: s) = true → attr_head b = true.
Proof.
  intros Hv. unfold attr_head. cbn [validDNAttribute] in Hv.
  destruct (is_digit (bz b)) eqn:E; [apply orb_true_r|].
  rewrite runes_cons in Hv. cbn [valid_descr negb andb] in Hv. rewrite orb_false_r in Hv.
  bprop. rewrite orb_false_r.
  destruct (decode_rune_spec b s) as [(c' & t' & [= <- <-] & Hc & Hr & Hw)|(Hr & _)].
  - by rewrite Hr in H.
  - apply is_alpha_lt in H. lia.
Qed.

Lemma attr_char_plain (b : byte) :
  attr_char b = true →
  bz b < 128 ∧ is_space (bz b) = false ∧ b ≠ c_backslash ∧ b ≠ c_comma ∧ b ≠ c_equals ∧
  b ≠ c_space ∧ b ≠ c_tab ∧ b ≠ x00.
Proof. destruct b; vm_compute; first [discriminate | intros _; repeat split; discriminate]. Qed.

Lemma attr_scan (sep : byte) (s : bytes) :
  sep = c_comma ∨ sep = c_equals → Forall (λ b, attr_char b = true) s →
  scan sep false s = Some false.
Proof.
  intros Hs. induction 1 as [|b s Hb _ IH]; [done|].
  apply attr_char_plain in Hb as (_ & _ & H1 & H2 & H3 & _). cbn.
  rewrite (bool_decide_eq_false_2 (b = c_backslash)) by done.
  rewrite (bool_decide_eq_false_2 (b = sep)) by (by destruct Hs; subst). done.
Qed.

Lemma trim_space_plain (s : bytes) : Forall (λ b, attr_char b = true) s → trim_space s = s.
Proof.
  intros Hf. unfold trim_space.
  assert (Hr : Forall (λ p, is_space p.1 = false) (runes s)).
  { induction Hf as [|b s Hb _ IH]; [constructor|].
    apply attr_char_plain in Hb as (? & ? & _). rewrite runes_ascii_cons by done. by constructor. }
  assert (Hd : ∀ l, Forall (λ p : Z * bytes, is_space p.1 = false) l → drop_spaces l = l).
  { intros l [|p l' Hp _]; [done|]. cbn. by rewrite Hp. }
  rewrite (Hd (runes s)) by done. rewrite Hd by by apply Forall_reverse.
  rewrite reverse_involutive. apply runes_concat.
Qed.

(** * Trimming *)

Lemma count_backslashes_scan (sep : byte) (p : bytes) (e : bool) :
  scan sep false p = Some e → Nat.odd (count_backslashes (reverse p)) = e.
Proof.
  revert e. induction p as [|b p IH] using rev_ind; intros e; [by intros [= <-]|].
  rewrite scan_app, reverse_snoc. destruct (scan sep false p) as [e'|]; [|done].
  specialize (IH e' eq_refl). cbn. destruct e'.
  - intros [= <-]. case_bool_decide; [|done]. rewrite Nat.odd_succ, <- Nat.negb_odd, IH. done.
  - case_bool_decide; [intros [= <-]; rewrite Nat.odd_succ, <- Nat.negb_odd, IH; done|].
    case_bool_decide; [done|]. by intros [= <-].
Qed.

Lemma trim_rdn_right_keep (s : bytes) (b : byte) :
  b ≠ c_space → b ≠ c_tab → trim_rdn_right (reverse (s ++ [b])) = reverse (s ++ [b]).
Proof.
  intros. rewrite reverse_snoc. cbn. rewrite bool_decide_eq_false_2; [done|]. naive_solver.
Qed.

Lemma besc1_last (f : bool) (b : byte) (t : bytes) :
  b ≠ c_tab → (∃ X, besc1 f b [] = X ++ [b] ∧ b ≠ c_space) ∨ besc1 f b [] = B "\00" ∨
  (b = c_space ∧ besc1 f b [] = [c_backslash; c_space]).
Proof.
  intros Hb. unfold besc1. case_bool_decide; [by right; left|].
  destruct (needs_escape b) eqn:E.
  { left. exists [c_backslash]. split; [done|]. intros ->. by vm_compute in E. }
  case_bool_decide as Es; cbn [andb].
  - right. right. rewrite (bool_decide_eq_true_2 ([] = [])), orb_true_r by done. by subst.
  - left. case_bool_decide; cbn [andb]; [destruct f|]; first [by exists [c_backslash] | by exists []].
Qed.

(** A printed RDN whose value does not end in a tab survives the trimming. *)
Lemma trim_rdn_string (attr v : bytes) :
  validDNAttribute attr = true → valid_utf8 v = true → last v ≠ Some c_tab →
  trimRDNWhitespace (attr ++ B "=" ++ EscapeAttributeValue v) =
    attr ++ B "=" ++ EscapeAttributeValue v.
Proof.
  intros Ha Hv Hl. rewrite escape_bytes by done.
  destruct (validDNAttribute_chars attr Ha) as [Hne Hc].
  unfold trimRDNWhitespace.
  assert (Hleft : ∀ s, trim_left (B " " ++ [c_tab]) (attr ++ s) = attr ++ s).
  { intros s. destruct attr as [|b a]; [done|]. inversion Hc as [|? ? Hb _]; subst.
    apply attr_char_plain in Hb as (_ & _ & _ & _ & _ & ? & ? & _). cbn.
    rewrite bool_decide_eq_false_2; [done|].
    rewrite !elem_of_cons, elem_of_nil. naive_solver. }
  rewrite Hleft.
  enough (trim_rdn_right (reverse (attr ++ B "=" ++ besc true v)) =
    reverse (attr ++ B "=" ++ besc true v)) as -> by apply reverse_involutive.
  destruct (decide (v = [])) as [->|Hvne].
  { rewrite app_nil_r. by apply trim_rdn_right_keep. }
  destruct (exists_last Hvne) as (v' & b & ->). rewrite last_snoc in Hl.
  destruct (besc_snoc true v' b) as (X & f' & -> & HX).
  destruct (besc1_last f' b []) as [(Y & -> & Hb)|[->|[-> ->]]]; [congruence|..].
  - rewrite !app_assoc. by apply trim_rdn_right_keep; [|congruence].
  - change (B "\00") with (B "\0" ++ [x30]). rewrite !app_assoc. by apply trim_rdn_right_keep.
  - change [c_backslash; c_space] with ([c_backslash] ++ [c_space]).
    rewrite !app_assoc, reverse_snoc. cbn [trim_rdn_right].
    rewrite bool_decide_eq_true_2 by by left.
    rewrite (count_backslashes_scan c_comma _ true); [done|].
    rewrite !scan_app, (attr_scan c_comma) by (by left || done). cbn [mbind option_bind].
    change (scan c_comma false (B "=")) with (Some false). cbn [mbind option_bind].
    by rewrite HX.
Qed.

(** * Well-formed names *)

Section wf.
Context {U : Unicode} {UL : UnicodeLaws U}.

(** What [ParseDN] guarantees of one RDN. *)
Definition wf_rdn (r : rdn) : Prop :=
  validDNAttribute (rdn_attr r) = true ∧ to_lower (rdn_attr r) = rdn_attr r ∧
  valid_utf8 (rdn_value r) = true ∧ x00 ∉ rdn_value r.

Definition wf_dn (d : DN) : Prop := rdns d ≠ [] ∧ Forall wf_rdn (rdns d).

(** No value ends in a tab (the only octet the printer leaves bare and the
    parser trims). *)
Definition no_tab_end (d : DN) : Prop := Forall (λ r, last (rdn_value r) ≠ Some c_tab) (rdns d).

(** The lower-cased name a folded key stands for. *)
Definition fold_rdn (r : rdn) : rdn := Rdn (rdn_attr r) (to_lower (rdn_value r)).

Definition fold_dn (d : DN) : DN := MkDN (fold_rdn <$> rdns d).

Lemma rdn_string_scan (r : rdn) :
  wf_rdn r → scan c_comma false (rdn_string r) = Some false.
Proof.
  intros (Ha & _ & Hv & _). unfold rdn_string.
  destruct (validDNAttribute_chars _ Ha) as [_ Hc].
  rewrite scan_app, (attr_scan c_comma) by (by left || done). cbn [mbind option_bind].
  rewrite scan_app. change (scan c_comma false (B "=")) with (Some false). cbn [mbind option_bind].
  rewrite escape_bytes by done. by apply besc_scan.
Qed.

Lemma index_equals (attr rest : bytes) :
  Forall (λ b, attr_char b = true) attr →
  indexUnescaped (attr ++ c_equals :: rest) c_equals = Some (length attr).
Proof.
  intros Hc. rewrite indexUnescaped_bytes by done.
  rewrite (bindex_scan _ _ false) by (apply attr_scan; [by right|done]). done.
Qed.

Lemma index_none_scan (sep : byte) (e e' : bool) (i : nat) (s : bytes) :
  scan sep e s = Some e' → bindex sep e i s = None.
Proof.
  intros H. rewrite <- (app_nil_r s). by rewrite (bindex_scan _ _ _ _ _ _ H).
Qed.

Lemma parse_rdn_string (r : rdn) :
  wf_rdn r → last (rdn_value r) ≠ Some c_tab → parse_rdn (rdn_string r) = Ok r.
Proof.
  destruct r as [attr v]. intros (Ha & Hl & Hv & Hn) Ht. cbn [rdn_attr rdn_value] in *.
  destruct (validDNAttribute_chars _ Ha) as [Hne Hc].
  unfold parse_rdn, rdn_string. cbn [rdn_attr rdn_value]. rewrite trim_rdn_string by done.
  change (B "=" ++ EscapeAttributeValue v) with (c_equals :: EscapeAttributeValue v).
  rewrite index_equals by done.
  destruct (length attr) as [|n] eqn:E; [by destruct attr|]. rewrite <- E.
  rewrite take_app_length, trim_space_plain, Hl, Ha by done. cbn [negb].
  replace (S (length attr)) with (length attr + 1)%nat by lia.
  rewrite <- drop_drop, drop_app_length. cbn [drop]. rewrite drop_0.
  rewrite bool_decide_eq_false_2.
  - by rewrite unescapeValue_escape.
  - rewrite indexUnescaped_bytes, escape_bytes by done.
    rewrite (index_none_scan _ _ false) by by apply besc_scan. by intros [? ?].
Qed.

Lemma split_rdns (f : rdn → bytes) (l : list rdn) :
  l ≠ [] → Forall (λ r, scan c_comma false (f r) = Some false) l →
  splitUnescaped (join (B ",") (f <$> l)) c_comma = f <$> l.
Proof.
  intros Hne Hf. rewrite splitUnescaped_bytes. apply bsplit_join; [done| |].
  - by destruct l.
  - by apply Forall_fmap.
Qed.

Lemma no_nul_escape (f : bool) (s : bytes) : x00 ∉ besc f s.
Proof.
  revert f. induction s as [|b t IH]; intros f; cbn; [apply not_elem_of_nil|].
  rewrite elem_of_app. intros [H|H]; [|by eapply IH]. revert H. unfold besc1.
  assert (B "\00" = [c_backslash; x30; x30]) as -> by done.
  repeat case_match; rewrite !elem_of_cons, elem_of_nil; unfold c_backslash;
    repeat match goal with H : bool_decide (_ = _) = false |- _ => apply bool_decide_eq_false in H end;
    naive_solver.
Qed.

Lemma join_forall (P : byte → Prop) (sep : bytes) (ps : list bytes) :
  Forall P sep → Forall (Forall P) ps → Forall P (join sep ps).
Proof.
  intros Hs. induction 1 as [|p ps Hp Hps IH]; [constructor|].
  destruct ps as [|q ps]; [done|].
  change (join sep (p :: q :: ps)) with (p ++ sep ++ join sep (q :: ps)).
  rewrite !Forall_app. done.
Qed.

Lemma rdn_string_no_nul (r : rdn) : wf_rdn r → x00 ∉ rdn_string r.
Proof.
  intros (Ha & _ & Hv & _). unfold rdn_string. rewrite escape_bytes by done.
  rewrite !not_elem_of_app. split_and!.
  - intros Hin. destruct (validDNAttribute_chars _ Ha) as [_ Hc].
    rewrite Forall_forall in Hc. by apply Hc in Hin.
  - intros H%list_elem_of_In. by destruct H.
  - apply no_nul_escape.
Qed.

Lemma rdn_string_nonempty (r : rdn) : rdn_string r ≠ [].
Proof. unfold rdn_string. destruct (rdn_attr r); done. Qed.

Lemma String_nonempty (d : DN) : rdns d ≠ [] → String d ≠ [].
Proof.
  unfold String. destruct (rdns d) as [|r [|r' l]]; [done|..]; intros _; cbn.
  - apply rdn_string_nonempty.
  - destruct (rdn_string r) eqn:E; [by apply rdn_string_nonempty in E|done].
Qed.

Lemma String_no_nul (d : DN) : Forall wf_rdn (rdns d) → x00 ∉ String d.
Proof.
  intros Hf Hin. assert (H : Forall (λ b, b ≠ x00) (String d)).
  - unfold String. apply join_forall; [by repeat constructor|].
    apply Forall_fmap. eapply Forall_impl; [exact Hf|]. intros r Hr.
    apply Forall_forall. intros b Hb ->. by eapply rdn_string_no_nul.
  - rewrite Forall_forall in H. by apply H in Hin.
Qed.

Lemma ParseDN_String_aux (d : DN) :
  wf_dn d → no_tab_end d → ParseDN (String d) = Ok d.
Proof.
  intros [Hne Hf] Ht. unfold ParseDN.
  destruct (beq _ []) eqn:E; bprop; [by apply String_nonempty in E|].
  rewrite bool_decide_eq_false_2 by by apply String_no_nul.
  unfold String. rewrite split_rdns; [|done|].
  - rewrite (proj2 (rmap_ok _ _ (rdns d))); [by destruct d|].
    apply Forall2_fmap_l, Forall_Forall2_diag. apply Forall_forall. rewrite Forall_forall in Hf.
    unfold no_tab_end in Ht. rewrite Forall_forall in Ht.
    intros r Hr. apply parse_rdn_string; [by apply Hf | by apply Ht].
  - eapply Forall_impl; [exact Hf|]. apply rdn_string_scan.
Qed.

(** * Parsing yields well-formed names *)

Lemma bsplit_forall (P : byte → Prop) (sep : byte) (e : bool) (cur s : bytes) :
  Forall P cur → Forall P s → Forall (Forall P) (bsplit sep e cur s).
Proof.
  intros Hc Hs. revert e cur Hc. induction Hs as [|b s Hb Hs IH]; intros e cur Hc; cbn.
  - by repeat constructor.
  - assert (Forall P (cur ++ [b])) by (apply Forall_app; split; [done | by repeat constructor]).
    destruct e; [auto|]. case_bool_decide; [auto|]. case_bool_decide; [constructor|]; auto.
Qed.

Lemma trim_left_forall (P : byte → Prop) (set s : bytes) : Forall P s → Forall P (trim_left set s).
Proof. induction 1; cbn; [constructor|]. case_bool_decide; [done | by constructor]. Qed.

Lemma trim_rdn_right_forall (P : byte → Prop) (s : bytes) : Forall P s → Forall P (trim_rdn_right s).
Proof.
  induction 1; cbn; [constructor|]. case_bool_decide; [case_match|]; try done; by constructor.
Qed.

Lemma trimRDNWhitespace_forall (P : byte → Prop) (s : bytes) :
  Forall P s → Forall P (trimRDNWhitespace s).
Proof.
  intros. unfold trimRDNWhitespace.
  by apply Forall_reverse, trim_rdn_right_forall, Forall_reverse, trim_left_forall.
Qed.

Lemma unescape_go_no_nul (n : nat) (s v : bytes) :
  (length s ≤ n)%nat → Forall (λ b, b ≠ x00) s → unescape_go s = Ok v → Forall (λ b, b ≠ x00) v.
Proof.
  revert s v. induction n as [|n IH]; intros [|c t] v Hn Hf H; cbn [length] in Hn; try lia;
    try (injection H as <-; constructor).
  inversion Hf as [|? ? Hc Ht]; subst. cbn [unescape_go] in H.
  destruct (negb _).
  { inv_ok. subst. constructor; [done|]. eapply IH; [|exact Ht|done]. lia. }
  destruct t as [|a t1]; [done|]. inversion Ht as [|? ? Ha Ht1]; subst. cbn [length] in Hn.
  assert (Hlit : (if negb (bool_decide (a ∈ escapable)) then Err (dn_err "invalid DN escape")
                  else v ← unescape_go t1; Ok (a :: v)) = Ok v → Forall (λ b, b ≠ x00) v).
  { destruct (negb _); [done|]. intros H'. inv_ok. subst.
    constructor; [done|]. eapply IH; [|exact Ht1|done]. lia. }
  destruct t1 as [|b t2]; [by apply Hlit|]. destruct (hex_pair a b) as [d|]; [|by apply Hlit].
  destruct (bool_decide _) eqn:Hd; [discriminate H|]. bprop. inv_ok. subst.
  inversion Ht1 as [|? ? _ Ht2]; subst. constructor; [done|].
  eapply (IH t2); [cbn [length] in Hn; lia | exact Ht2 | done].
Qed.

Lemma no_nul_forall (s : bytes) : x00 ∉ s ↔ Forall (λ b, b ≠ x00) s.
Proof. rewrite Forall_forall. split; [intros H x Hx ->; done | intros H Hin; by apply H in Hin]. Qed.

Lemma parse_rdn_wf (p : bytes) (r : rdn) :
  Forall (λ b, b ≠ x00) p → parse_rdn p = Ok r → wf_rdn r.
Proof.
  intros Hp H. unfold parse_rdn in H.
  destruct (indexUnescaped _ _) as [[|n]|]; [done| |done].
  destruct (negb _) eqn:Ha; [done|]. bprop. case_bool_decide; [done|]. inv_ok. subst.
  unfold unescapeValue in Hv. inv_ok. subst. unfold wf_rdn. cbn [rdn_attr rdn_value]. split_and!; try done.
  - apply to_lower_idem.
  - apply no_nul_forall. eapply unescape_go_no_nul; [done| |done].
    by apply Forall_drop, trimRDNWhitespace_forall.
Qed.

Lemma bsplit_nonempty (sep : byte) (e : bool) (cur s : bytes) : bsplit sep e cur s ≠ [].
Proof. revert e cur. induction s; intros e cur; cbn; [done|]. repeat case_match; done. Qed.

Lemma ParseDN_wf_aux (s : bytes) (d : DN) : ParseDN s = Ok d → wf_dn d.
Proof.
  unfold ParseDN. destruct (beq s []); [done|]. case_bool_decide as Hn; [done|]. intros H.
  inv_ok. subst. rewrite rmap_ok, splitUnescaped_bytes in Hv. unfold wf_dn. cbn [rdns]. split.
  - intros ->. inversion Hv as [E|]. symmetry in E. by apply bsplit_nonempty in E.
  - assert (Hf : Forall (Forall (λ b, b ≠ x00)) (bsplit c_comma false [] s)).
    { apply bsplit_forall; [constructor | by apply no_nul_forall]. }
    induction Hv as [|p r ps rs Hp _ IH]; [constructor|].
    inversion Hf; subst. constructor; [by eapply parse_rdn_wf | auto].
Qed.

(** * The folded key *)

Lemma fold_rdn_wf (r : rdn) : wf_rdn r → wf_rdn (fold_rdn r).
Proof.
  intros (Ha & Hl & Hv & Hn). unfold wf_rdn. cbn. split_and!; try done.
  - apply valid_to_lower.
  - by apply to_lower_no_nul.
Qed.

Lemma FoldedKey_String (d : DN) : FoldedKey d = String (fold_dn d).
Proof. unfold FoldedKey, String, fold_dn. cbn. by rewrite <- list_fmap_compose. Qed.

Lemma fold_dn_wf (d : DN) : wf_dn d → wf_dn (fold_dn d).
Proof.
  intros [Hne Hf]. split; cbn.
  - by destruct (rdns d).
  - apply Forall_fmap. eapply Forall_impl; [exact Hf|]. apply fold_rdn_wf.
Qed.

Lemma rdn_string_inj (a b : rdn) : wf_rdn a → wf_rdn b → rdn_string a = rdn_string b → a = b.
Proof.
  destruct a as [a v], b as [b w]. intros (Ha & _ & Hv & Hvn) (Hb & _ & Hw & Hwn) E.
  unfold rdn_string in E. cbn [rdn_attr rdn_value] in *.
  change (B "=" ++ EscapeAttributeValue v) with (c_equals :: EscapeAttributeValue v) in E.
  change (B "=" ++ EscapeAttributeValue w) with (c_equals :: EscapeAttributeValue w) in E.
  assert (Hl : length a = length b).
  { pose proof (index_equals a (EscapeAttributeValue v) (proj2 (validDNAttribute_chars _ Ha))) as H1.
    rewrite E, index_equals in H1 by apply (validDNAttribute_chars _ Hb). congruence. }
  apply app_inj_1 in E as [-> E]; [|done]. injection E as E. f_equal.
  assert (H : unescapeValue (EscapeAttributeValue v) = unescapeValue (EscapeAttributeValue w))
    by congruence.
  rewrite !unescapeValue_escape in H by done. congruence.
Qed.

Lemma String_inj (a b : DN) : wf_dn a → wf_dn b → String a = String b → a = b.
Proof.
  destruct a as [la], b as [lb]. intros [Ha Hfa] [Hb Hfb] E. cbn [rdns] in *. f_equal.
  assert (Hs : rdn_string <$> la = rdn_string <$> lb).
  { rewrite <- (split_rdns rdn_string la), <- (split_rdns rdn_string lb) by
      (done || by (eapply Forall_impl; [eassumption | apply rdn_string_scan])).
    unfold String in E. cbn [rdns] in E. by rewrite E. }
  clear E Ha Hb. revert lb Hfb Hs.
  induction Hfa as [|r la Hr _ IH]; intros [|r' lb] Hfb Hs; try done.
  inversion Hfb; subst. injection Hs as Hr1 Hr2. f_equal; [by apply rdn_string_inj | by apply IH].
Qed.

Lemma FoldedKey_inj_aux (a b : DN) :
  wf_dn a → wf_dn b → FoldedKey a = FoldedKey b ↔ fold_dn a = fold_dn b.
Proof.
  intros Ha Hb. rewrite !FoldedKey_String. split; [|by intros ->].
  apply String_inj; by apply fold_dn_wf.
Qed.

(** * Parents and joins *)

Lemma String_cons (r : rdn) (l : list rdn) :
  l ≠ [] → String (MkDN (r :: l)) = rdn_string r ++ c_comma :: String (MkDN l).
Proof. destruct l; [done|]. done. Qed.

Lemma String_app (l m : list rdn) :
  l ≠ [] → m ≠ [] → String (MkDN (l ++ m)) = String (MkDN l) ++ c_comma :: String (MkDN m).
Proof.
  intros Hl Hm. induction l as [|r l IH]; [done|]. destruct l as [|r' l].
  - cbn [app]. by rewrite String_cons.
  - change ((r :: r' :: l) ++ m) with (r :: ((r' :: l) ++ m)).
    rewrite (String_cons r ((r' :: l) ++ m)), (String_cons r (r' :: l)), IH by done.
    by rewrite <- app_assoc.
Qed.

(** The parent of a well-formed name re-parses the rest of its RDNs. *)
Lemma parentDN_cons (r : rdn) (l : list rdn) :
  wf_rdn r →
  parentDN (MkDN (r :: l)) = match l with [] => None | _ => res_opt (ParseDN (String (MkDN l))) end.
Proof.
  intros Hr. unfold parentDN. rewrite indexUnescaped_bytes by done. destruct l as [|r' l].
  - unfold String. cbn [rdns fmap list_fmap join].
    by rewrite (index_none_scan _ _ false) by by apply rdn_string_scan.
  - rewrite String_cons by done.
    rewrite (bindex_scan _ _ false) by by apply rdn_string_scan. cbn [bindex].
    rewrite bool_decide_eq_false_2, bool_decide_eq_true_2 by done. cbn [Nat.add].
    replace (S (length (rdn_string r))) with (length (rdn_string r) + 1)%nat by lia.
    rewrite <- drop_drop, drop_app_length. cbn [drop]. by rewrite drop_0.
Qed.

Lemma parentDN_aux (d : DN) : wf_dn d → no_tab_end d → parentDN d = Parent d.
Proof.
  destruct d as [[|r l]]; intros [Hne Hf] Ht; [done|]. cbn [rdns] in *.
  inversion Hf as [|? ? Hr Hl]; inversion Ht as [|? ? Htr Htl]; subst.
  rewrite parentDN_cons by done. destruct l as [|r' l]; [done|]. by rewrite ParseDN_String_aux.
Qed.

(** Printing keeps the number of RDNs even where it does not keep their values. *)
Lemma ParseDN_String_depth (d d' : DN) :
  wf_dn d → ParseDN (String d) = Ok d' → Depth d' = Depth d.
Proof.
  intros [Hne Hf]. unfold ParseDN. destruct (beq _ []); [done|]. case_bool_decide; [done|].
  unfold String. rewrite split_rdns; [|done|].
  - intros Hp. apply bind_ok in Hp as (rs & Hrs & [= <-]).
    apply rmap_length in Hrs. unfold Depth. cbn [rdns]. by rewrite Hrs, length_fmap.
  - eapply Forall_impl; [exact Hf|]. apply rdn_string_scan.
Qed.

(** A parent walk descends: the parent is well formed and one RDN shorter. *)
Lemma parentDN_depth (d d' : DN) :
  wf_dn d → parentDN d = Some d' → wf_dn d' ∧ Depth d = S (Depth d').
Proof.
  destruct d as [[|r l]]; intros [Hne Hf] Hp; [done|]. cbn [rdns] in *.
  apply Forall_cons in Hf as [Hr Hl]. rewrite parentDN_cons in Hp by done. destruct l as [|r' l]; [done|].
  destruct (ParseDN _) as [p|] eqn:E; [|done]. injection Hp as ->. split; [by eapply ParseDN_wf_aux|].
  apply ParseDN_String_depth in E; [|done]. unfold Depth in *. cbn [rdns length] in *. lia.
Qed.

Lemma joinDN_aux (r p : DN) :
  wf_dn r → wf_dn p → no_tab_end r → no_tab_end p → joinDN r p = MkDN (rdns r ++ rdns p).
Proof.
  destruct r as [l], p as [m]. intros [Hl Hfl] [Hm Hfm] Htl Htm. cbn [rdns] in *.
  unfold joinDN. change (B "," ++ String (MkDN m)) with (c_comma :: String (MkDN m)).
  rewrite <- String_app by done. rewrite ParseDN_String_aux; [done| |].
  - split; cbn; [by destruct l | by apply Forall_app].
  - by apply Forall_app.
Qed.

(** * Ancestors *)

Lemma all2_eqb (l m : list rdn) : length l = length m → all2 rdn_eqb l m = true ↔ l = m.
Proof.
  revert m. induction l as [|[a v] l IH]; intros [|[b w] m] Hlen; try done.
  cbn [all2]. unfold rdn_eqb. cbn [rdn_attr rdn_value].
  rewrite !andb_true_iff, !beq_true, IH by (cbn in Hlen; lia).
  split; [intros [[-> ->] ->]; done | intros [= -> -> ->]; done].
Qed.

Lemma Equal_iff (d o : DN) : Equal d o = true ↔ d = o.
Proof.
  destruct d as [l], o as [m]. unfold Equal. cbn [rdns]. rewrite andb_true_iff, Nat.eqb_eq. split.
  - intros [Hl H]. apply all2_eqb in H; [by subst | done].
  - intros [= ->]. split; [done|]. by apply all2_eqb.
Qed.

(** Strict descent is a non-empty prefix in front of the ancestor. *)
Lemma IsDescendantOf_iff (d a : DN) :
  IsDescendantOf d a = true ↔
  rdns a ≠ [] ∧ ∃ pre, pre ≠ [] ∧ rdns d = pre ++ rdns a.
Proof.
  unfold IsDescendantOf. destruct d as [l], a as [m]. cbn [rdns].
  destruct (_ || _) eqn:E.
  - split; [done|]. intros (Hm & pre & Hp & ->). exfalso.
    rewrite orb_true_iff, Nat.eqb_eq, Nat.leb_le, length_app in E.
    destruct m, pre; cbn in *; try done; lia.
  - apply orb_false_iff in E as [E1%Nat.eqb_neq E2%Nat.leb_gt].
    rewrite all2_eqb by (rewrite length_drop; lia). split.
    + intros H. split; [by intros ->|].
      exists (take (length l - length m) l). split.
      * intros H0. apply (f_equal length) in H0. rewrite length_take in H0. cbn in H0. lia.
      * rewrite <- H at 2. by rewrite take_drop.
    + intros (_ & pre & _ & ->). rewrite length_app.
      replace (length pre + length m - length m)%nat with (length pre) by lia.
      apply drop_app_length.
Qed.

Lemma Rebase_spec_aux (d from to d' : DN) :
  wf_dn d → wf_dn from →
  Rebase d from to = Some d' ↔
  ∃ pre suf, rdns d = pre ++ suf ∧ fold_dn (MkDN suf) = fold_dn from ∧ d' = MkDN (pre ++ rdns to).
Proof.
  intros [Hd Hfd] Hw. pose proof Hw as [Hne Hff]. unfold Rebase.
  assert (Hn : length (rdns from) ≠ 0%nat) by (by destruct (rdns from)).
  destruct (_ || _) eqn:E.
  - split; [done|]. intros (pre & suf & Hs & Hk & _). exfalso.
    apply orb_true_iff in E as [E%Nat.eqb_eq|E%Nat.ltb_lt]; [done|].
    apply (f_equal (λ x, length (rdns x))) in Hk. cbn in Hk. rewrite !length_fmap in Hk.
    rewrite Hs, length_app in E. lia.
  - apply orb_false_iff in E as [_ E%Nat.ltb_ge].
    set (keep := (length (rdns d) - length (rdns from))%nat).
    assert (Hwd : wf_dn (MkDN (drop keep (rdns d)))).
    { split; cbn; [|by apply Forall_drop]. intros H0. apply (f_equal length) in H0.
      rewrite length_drop in H0. unfold keep in H0. cbn in H0. lia. }
    destruct (negb _) eqn:Ek; bprop.
    + split; [done|]. intros (pre & suf & Hs & Hk & _). exfalso. apply Ek.
      apply FoldedKey_inj_aux; [done..|]. rewrite <- Hk. f_equal. f_equal.
      apply (f_equal (λ x, length (rdns x))) in Hk. cbn in Hk. rewrite !length_fmap in Hk.
      unfold keep. rewrite Hs, length_app.
      replace (length pre + length suf - length (rdns from))%nat with (length pre) by lia.
      apply drop_app_length.
    + apply FoldedKey_inj_aux in Ek; [|done..]. split.
      * intros [= <-]. exists (take keep (rdns d)), (drop keep (rdns d)).
        by rewrite take_drop.
      * intros (pre & suf & Hs & Hk & ->). do 2 f_equal. f_equal.
        apply (f_equal (λ x, length (rdns x))) in Hk. cbn in Hk. rewrite !length_fmap in Hk.
        unfold keep. rewrite Hs, length_app.
        replace (length pre + length suf - length (rdns from))%nat with (length pre) by lia.
        apply take_app_length.
Qed.

End wf.

(** * Properties *)

(** C24. Printing a parsed name and parsing it again gives the same name:
    [ParseDN] inverts [DN.String] on every well-formed name none of whose
    values ends in a tab. *)
Theorem ParseDN_String {U : Unicode} {UL : UnicodeLaws U} (d : DN)
  (Hwf : wf_dn d) (Htab : no_tab_end d) : ParseDN (String d) = Ok d.
Proof. by apply ParseDN_String_aux. Qed.

Definition sample_dn : DN := MkDN [Rdn (B "cn") (B " A, #B+"); Rdn (B "dc") (B "test")].

Lemma sample_dn_wf : @wf_dn ascii_unicode sample_dn ∧ no_tab_end sample_dn.
Proof.
  split; [split; [done|] | by repeat constructor].
  unfold sample_dn. cbn [rdns].
  repeat constructor; try (by vm_compute); cbn [rdn_value]; intros H%list_elem_of_In;
    vm_compute in H; intuition discriminate.
Qed.

Lemma ParseDN_String_witness : @ParseDN ascii_unicode (String sample_dn) = Ok sample_dn.
Proof. apply (@ParseDN_String ascii_unicode ascii_unicode_laws); apply sample_dn_wf. Defined.

(** Every name [ParseDN] accepts is well formed: at least one RDN, each with
    a valid lower-case descriptor or numeric OID and a NUL-free UTF-8 value. *)
Theorem ParseDN_wf {U : Unicode} {UL : UnicodeLaws U} (s : bytes) (d : DN)
  (H : ParseDN s = Ok d) : wf_dn d.
Proof. by eapply ParseDN_wf_aux. Qed.

Lemma ParseDN_wf_witness :
  ∃ d, @ParseDN ascii_unicode (B "CN=Bobc Jr , dc=test") = Ok d ∧ @wf_dn ascii_unicode d.
Proof.
  eexists. split; [vm_compute; reflexivity|].
  apply (@ParseDN_wf ascii_unicode ascii_unicode_laws (B "CN=Bobc Jr , dc=test")).
  vm_compute. reflexivity.
Defined.

(** The folded key, the identity every store lookup and membership
    comparison uses, identifies a well-formed name up to lower-casing its
    values: two names share a key exactly when their lower-cased forms agree. *)
Theorem FoldedKey_inj {U : Unicode} {UL : UnicodeLaws U} (a b : DN)
  (Ha : wf_dn a) (Hb : wf_dn b) : FoldedKey a = FoldedKey b ↔ fold_dn a = fold_dn b.
Proof. by apply FoldedKey_inj_aux. Qed.

Lemma FoldedKey_inj_witness :
  @FoldedKey ascii_unicode sample_dn = @FoldedKey ascii_unicode sample_dn ↔
  @fold_dn ascii_unicode sample_dn = @fold_dn ascii_unicode sample_dn.
Proof. apply (@FoldedKey_inj ascii_unicode ascii_unicode_laws); apply sample_dn_wf. Defined.

(** The server's string-level parent (re-parse the canonical string after its
    first unescaped comma) is the structural parent, so escaped commas inside a
    value never split it. *)
Theorem parentDN_Parent {U : Unicode} {UL : UnicodeLaws U} (d : DN)
  (Hwf : wf_dn d) (Htab : no_tab_end d) : parentDN d = Parent d.
Proof. by apply parentDN_aux. Qed.

Lemma parentDN_Parent_witness : @parentDN ascii_unicode sample_dn = Parent sample_dn.
Proof. apply (@parentDN_Parent ascii_unicode ascii_unicode_laws); apply sample_dn_wf. Defined.

(** [Rebase] replaces an ancestor-or-self (compared by folded key) and keeps
    the leading RDNs as spelled; it fails on every other name. *)
Theorem Rebase_spec {U : Unicode} {UL : UnicodeLaws U} (d from to d' : DN)
  (Hd : wf_dn d) (Hf : wf_dn from) :
  Rebase d from to = Some d' ↔
  ∃ pre suf, rdns d = pre ++ suf ∧ fold_dn (MkDN suf) = fold_dn from ∧ d' = MkDN (pre ++ rdns to).
Proof. by apply Rebase_spec_aux. Qed.

Lemma Rebase_spec_witness :
  @Rebase ascii_unicode sample_dn sample_dn sample_dn = Some sample_dn ↔
  ∃ pre suf, rdns sample_dn = pre ++ suf ∧
    @fold_dn ascii_unicode (MkDN suf) = @fold_dn ascii_unicode sample_dn ∧
    sample_dn = MkDN (pre ++ rdns sample_dn).
Proof. apply (@Rebase_spec ascii_unicode ascii_unicode_laws); apply sample_dn_wf. Defined.

(** The hypothesis on tabs is needed: a value written with an escaped tab prints
    with a bare one, and the parser trims it. *)
Theorem tab_value_not_stable :
  ∃ s d, @ParseDN ascii_unicode s = Ok d ∧ @ParseDN ascii_unicode (String d) ≠ Ok d.
Proof. exists (B "cn=a\09"). eexists. split; [vm_compute; reflexivity|]. vm_compute. discriminate. Qed.
