(* ===== verification/Message.v ===== *)
(** The LDAP message model: [src/internal/ldapserver/message.go], the filter
    tree of [filter.go] and the directory entry of [store.go].

    The Go enumerations are integers, and both the decoder and the encoder see
    values outside the named constants, so they stay integers here.  A [[]byte]
    the program distinguishes from [nil] is an [option bytes]; every other
    [[]byte] is a [bytes], [nil] and empty being the same to its readers. *)

From S2P Require Import Prelude GoStrings.
Local Open Scope Z_scope.

(** * Identifiers *)

Definition OIDStartTLS : bytes := B "1.3.6.1.4.1.1466.20037".
Definition OIDWhoAmI : bytes := B "1.3.6.1.4.1.4203.1.11.3".
Definition OIDSimplePagedResults : bytes := B "1.2.840.113556.1.4.319".
Definition OIDAssertion : bytes := B "1.3.6.1.1.12".
Definition OIDNoticeOfDisconnection : bytes := B "1.3.6.1.4.1.1466.20036".

(** [OpCode]: the APPLICATION tag of an operation. *)
Definition OpBindRequest : Z := 0.
Definition OpBindResponse : Z := 1.
Definition OpUnbindRequest : Z := 2.
Definition OpSearchRequest : Z := 3.
Definition OpSearchResultEntry : Z := 4.
Definition OpSearchResultDone : Z := 5.
Definition OpModifyRequest : Z := 6.
Definition OpModifyResponse : Z := 7.
Definition OpAddRequest : Z := 8.
Definition OpAddResponse : Z := 9.
Definition OpDeleteRequest : Z := 10.
Definition OpDeleteResponse : Z := 11.
Definition OpModifyDNRequest : Z := 12.
Definition OpModifyDNResponse : Z := 13.
Definition OpCompareRequest : Z := 14.
Definition OpCompareResponse : Z := 15.
Definition OpAbandonRequest : Z := 16.
Definition OpExtendedRequest : Z := 23.
Definition OpExtendedResponse : Z := 24.

(** [ResultCode]. *)
Definition ResultSuccess : Z := 0.
Definition ResultOperationsError : Z := 1.
Definition ResultProtocolError : Z := 2.
Definition ResultTimeLimitExceeded : Z := 3.
Definition ResultSizeLimitExceeded : Z := 4.
Definition ResultCompareFalse : Z := 5.
Definition ResultCompareTrue : Z := 6.
Definition ResultAuthMethodNotSupported : Z := 7.
Definition ResultStrongAuthRequired : Z := 8.
Definition ResultAdminLimitExceeded : Z := 11.
Definition ResultUnavailableCriticalExtension : Z := 12.
Definition ResultConfidentialityRequired : Z := 13.
Definition ResultNoSuchAttribute : Z := 16.
Definition ResultConstraintViolation : Z := 19.
Definition ResultAttributeOrValueExists : Z := 20.
Definition ResultNoSuchObject : Z := 32.
Definition ResultInvalidDNSyntax : Z := 34.
Definition ResultInvalidCredentials : Z := 49.
Definition ResultInsufficientAccessRights : Z := 50.
Definition ResultBusy : Z := 51.
Definition ResultUnavailable : Z := 52.
Definition ResultUnwillingToPerform : Z := 53.
Definition ResultNamingViolation : Z := 64.
Definition ResultObjectClassViolation : Z := 65.
Definition ResultNotAllowedOnNonLeaf : Z := 66.
Definition ResultEntryAlreadyExists : Z := 68.
Definition ResultAffectsMultipleDSAs : Z := 71.
Definition ResultAssertionFailed : Z := 122.

(** * Payloads *)

Record Result : Type := MkResult {
  Code : Z;
  MatchedDN : bytes;
  DiagnosticMessage : bytes;
}.

Record Attribute : Type := MkAttribute { Name : bytes; AttrValues : list bytes }.

Record Control : Type := MkControl { OID : bytes; Critical : bool; CtrlValue : bytes }.

Definition ScopeBaseObject : Z := 0.
Definition ScopeSingleLevel : Z := 1.
Definition ScopeWholeSubtree : Z := 2.
Definition ScopeChildren : Z := 3.

Definition DerefNever : Z := 0.
Definition DerefAlways : Z := 3.

Definition ModifyAdd : Z := 0.
Definition ModifyDelete : Z := 1.
Definition ModifyReplace : Z := 2.

Record ModifyChange : Type := MkModifyChange { ChOp : Z; ChAttr : Attribute }.

(** [Filter] and its nodes. *)
Inductive Filter : Type :=
| FilterAnd (children : list Filter)
| FilterOr (children : list Filter)
| FilterNot (child : Filter)
| FilterEquality (attr value : bytes)
| FilterSubstrings (attr : bytes) (initial : option bytes) (any : list bytes) (final : option bytes)
| FilterPresent (attr : bytes)
| FilterGreaterOrEqual (attr value : bytes)
| FilterLessOrEqual (attr value : bytes)
| FilterApproxMatch (attr value : bytes).

(** Induction with the hypothesis on every child. *)
Section filter_rect.
Variable P : Filter → Prop.
Hypothesis HAnd : ∀ l, Forall P l → P (FilterAnd l).
Hypothesis HOr : ∀ l, Forall P l → P (FilterOr l).
Hypothesis HNot : ∀ f, P f → P (FilterNot f).
Hypothesis HEq : ∀ a v, P (FilterEquality a v).
Hypothesis HSub : ∀ a i n f, P (FilterSubstrings a i n f).
Hypothesis HPres : ∀ a, P (FilterPresent a).
Hypothesis HGe : ∀ a v, P (FilterGreaterOrEqual a v).
Hypothesis HLe : ∀ a v, P (FilterLessOrEqual a v).
Hypothesis HApprox : ∀ a v, P (FilterApproxMatch a v).

Fixpoint Filter_ind' (f : Filter) : P f :=
  let fix all (l : list Filter) : Forall P l :=
    match l with
    | [] => @List.Forall_nil Filter P
    | x :: l' => @List.Forall_cons Filter P x l' (Filter_ind' x) (all l')
    end in
  match f with
  | FilterAnd l => HAnd l (all l)
  | FilterOr l => HOr l (all l)
  | FilterNot g => HNot g (Filter_ind' g)
  | FilterEquality a v => HEq a v
  | FilterSubstrings a i n g => HSub a i n g
  | FilterPresent a => HPres a
  | FilterGreaterOrEqual a v => HGe a v
  | FilterLessOrEqual a v => HLe a v
  | FilterApproxMatch a v => HApprox a v
  end.
End filter_rect.

(** * Operations *)

Record SearchRequest : Type := MkSearchRequest {
  BaseDN : bytes;
  SScope : Z;
  Deref : Z;
  SizeLimit : Z;
  TimeLimit : Z;
  TypesOnly : bool;
  SFilter : Filter;
  SAttributes : list bytes;
}.

Record ModifyDNRequest : Type := MkModifyDNRequest {
  MDN : bytes;
  NewRDN : bytes;
  DeleteOldRDN : bool;
  NewSuperior : bytes;
}.

(** The implementations of the [Operation] interface. *)
Inductive Operation : Type :=
| BindRequest (version : Z) (name password : bytes)
| BindResponse (r : Result)
| UnbindRequest
| OpSearch (r : SearchRequest)
| SearchResultEntry (dn : bytes) (attrs : list Attribute)
| SearchResultDone (r : Result)
| ModifyRequest (dn : bytes) (changes : list ModifyChange)
| ModifyResponse (r : Result)
| AddRequest (dn : bytes) (attrs : list Attribute)
| AddResponse (r : Result)
| DeleteRequest (dn : bytes)
| DeleteResponse (r : Result)
| OpModifyDN (r : ModifyDNRequest)
| ModifyDNResponse (r : Result)
| CompareRequest (dn attr value : bytes)
| CompareResponse (r : Result)
| AbandonRequest (messageID : Z)
| ExtendedRequest (name value : bytes)
| ExtendedResponse (r : Result) (name : bytes) (value : option bytes).

Definition OpCode (op : Operation) : Z :=
  match op with
  | BindRequest _ _ _ => OpBindRequest
  | BindResponse _ => OpBindResponse
  | UnbindRequest => OpUnbindRequest
  | OpSearch _ => OpSearchRequest
  | SearchResultEntry _ _ => OpSearchResultEntry
  | SearchResultDone _ => OpSearchResultDone
  | ModifyRequest _ _ => OpModifyRequest
  | ModifyResponse _ => OpModifyResponse
  | AddRequest _ _ => OpAddRequest
  | AddResponse _ => OpAddResponse
  | DeleteRequest _ => OpDeleteRequest
  | DeleteResponse _ => OpDeleteResponse
  | OpModifyDN _ => OpModifyDNRequest
  | ModifyDNResponse _ => OpModifyDNResponse
  | CompareRequest _ _ _ => OpCompareRequest
  | CompareResponse _ => OpCompareResponse
  | AbandonRequest _ => OpAbandonRequest
  | ExtendedRequest _ _ => OpExtendedRequest
  | ExtendedResponse _ _ _ => OpExtendedResponse
  end.

Record Message : Type := MkMessage { ID : Z; Op : Operation; Controls : list Control }.

(** [ResultCode.String]. *)
Definition result_name (c : Z) : bytes :=
  if c =? 0 then B "success" else
  if c =? 1 then B "operationsError" else
  if c =? 2 then B "protocolError" else
  if c =? 3 then B "timeLimitExceeded" else
  if c =? 4 then B "sizeLimitExceeded" else
  if c =? 5 then B "compareFalse" else
  if c =? 6 then B "compareTrue" else
  if c =? 7 then B "authMethodNotSupported" else
  if c =? 8 then B "strongAuthRequired" else
  if c =? 11 then B "adminLimitExceeded" else
  if c =? 12 then B "unavailableCriticalExtension" else
  if c =? 13 then B "confidentialityRequired" else
  if c =? 16 then B "noSuchAttribute" else
  if c =? 19 then B "constraintViolation" else
  if c =? 20 then B "attributeOrValueExists" else
  if c =? 32 then B "noSuchObject" else
  if c =? 33 then B "aliasProblem" else
  if c =? 34 then B "invalidDNSyntax" else
  if c =? 48 then B "inappropriateAuthentication" else
  if c =? 49 then B "invalidCredentials" else
  if c =? 50 then B "insufficientAccessRights" else
  if c =? 51 then B "busy" else
  if c =? 52 then B "unavailable" else
  if c =? 53 then B "unwillingToPerform" else
  if c =? 64 then B "namingViolation" else
  if c =? 65 then B "objectClassViolation" else
  if c =? 66 then B "notAllowedOnNonLeaf" else
  if c =? 68 then B "entryAlreadyExists" else
  if c =? 71 then B "affectsMultipleDSAs" else
  if c =? 122 then B "assertionFailed" else
  B "unknownResultCode".

(** [ZeroSecrets] of [codec_ber.go]: the bind password is dropped. *)
Definition ZeroSecrets (m : Message) : Message :=
  match Op m with
  | BindRequest v n _ => MkMessage (ID m) (BindRequest v n []) (Controls m)
  | _ => m
  end.

(** * Entries *)

(** [Entry] of [store.go]; attribute names compare with [strings.EqualFold]. *)
Record Entry : Type := MkEntry { EDN : bytes; Attributes : list Attribute }.

Definition Values {U : Unicode} (e : Entry) (name : bytes) : list bytes :=
  match List.find (λ a, equal_fold (Name a) name) (Attributes e) with
  | Some a => AttrValues a
  | None => []
  end.

#[export] Instance Attribute_eq_dec : EqDecision Attribute.
Proof. solve_decision. Defined.

#[export] Instance Result_eq_dec : EqDecision Result.
Proof. solve_decision. Defined.

#[export] Instance Control_eq_dec : EqDecision Control.
Proof. solve_decision. Defined.

#[export] Instance Entry_eq_dec : EqDecision Entry.
Proof. solve_decision. Defined.
