(* ===== verification/Ber.v ===== *)
(** The BER library the codec is written against ([github.com/go-asn1-ber/asn1-ber],
    not part of the repository).

    A packet is its exported fields as [codec_ber.go], [codec_ber_decode.go] and
    [codec_ber_encode.go] read them: class, primitive or constructed, tag, the
    value the library decoded (if any), the content octets and the children.
    The library's functions are the fields of [BerLib]; [BerLaws] is the
    documented behaviour of its constructors that the codec's round trip rests
    on; [wire_eq] relates a packet to the packet the library decodes from its
    octets.  [toy_ber] is an instance that satisfies the laws. *)

From S2P Require Import Prelude GoStrings.
Local Open Scope Z_scope.

(** [ber.Class] and [ber.Type]. *)
Inductive Class_ : Type := ClassUniversal | ClassApplication | ClassContext | ClassPrivate.

Inductive Type_ : Type := TypePrimitive | TypeConstructed.

#[export] Instance Class_eq_dec : EqDecision Class_.
Proof. solve_decision. Defined.

#[export] Instance Type_eq_dec : EqDecision Type_.
Proof. solve_decision. Defined.

(** [ber.Packet.Value]: the dynamic type the codec asserts. *)
Inductive PValue : Type := VNil | VInt (z : Z) | VString (s : bytes) | VOther.

Inductive Packet : Type :=
  MkPacket (ClassType : Class_) (TagType : Type_) (Tag : Z) (Value : PValue)
    (Data : bytes) (Children : list Packet).

Definition ClassType (p : Packet) : Class_ := let '(MkPacket c _ _ _ _ _) := p in c.
Definition TagType (p : Packet) : Type_ := let '(MkPacket _ t _ _ _ _) := p in t.
Definition Tag (p : Packet) : Z := let '(MkPacket _ _ g _ _ _) := p in g.
Definition Value (p : Packet) : PValue := let '(MkPacket _ _ _ v _ _) := p in v.
Definition Data (p : Packet) : bytes := let '(MkPacket _ _ _ _ d _) := p in d.
Definition Children (p : Packet) : list Packet := let '(MkPacket _ _ _ _ _ l) := p in l.

(** [p.Data.Write(b)]. *)
Definition WriteData (p : Packet) (b : bytes) : Packet :=
  let '(MkPacket c t g v d l) := p in MkPacket c t g v (d ++ b) l.

(** Universal tag numbers (X.690). *)
Definition TagBoolean : Z := 1.
Definition TagInteger : Z := 2.
Definition TagOctetString : Z := 4.
Definition TagEnumerated : Z := 10.
Definition TagSequence : Z := 16.
Definition TagSet : Z := 17.

Class BerLib : Type := {
  NewInteger : Class_ → Type_ → Z → Z → Packet;
  NewString : Class_ → Type_ → Z → bytes → Packet;
  NewLDAPBoolean : Class_ → Type_ → Z → bool → Packet;
  (** [ber.Encode(class, type, tag, nil, _)] *)
  EncodeNil : Class_ → Type_ → Z → Packet;
  NewSequence : Packet;
  AppendChild : Packet → Packet → Packet;
  PacketBytes : Packet → bytes;
  DecodePacketErr : bytes → option Packet;
  ParseInt64 : bytes → option Z;
}.

Class BerLaws (L : BerLib) : Prop := {
  NewInteger_spec : ∀ c t g v, 0 ≤ v < 2^31 →
    ∃ d, NewInteger c t g v = MkPacket c t g (VInt v) d [] ∧
      (1 ≤ length d ≤ 8)%nat ∧ ParseInt64 d = Some v;
  NewString_spec : ∀ c t g s, NewString c t g s = MkPacket c t g (VString s) s [];
  NewLDAPBoolean_spec : ∀ c t g b,
    ∃ v, NewLDAPBoolean c t g b = MkPacket c t g v (if b then [xff] else [x00]) [];
  EncodeNil_spec : ∀ c t g, EncodeNil c t g = MkPacket c t g VNil [] [];
  NewSequence_spec : NewSequence = EncodeNil ClassUniversal TypeConstructed TagSequence;
  AppendChild_spec : ∀ p q, ∃ d,
    AppendChild p q = MkPacket (ClassType p) (TagType p) (Tag p) (Value p) d (Children p ++ [q]);
}.

(** [wire_eq p q]: [q] shows the codec what the library decodes from the octets
    of [p]: the same identifier, the same content octets when primitive, the
    same decoded value for a universal integer, enumeration or octet string,
    and related children. *)
Inductive wire_eq : Packet → Packet → Prop :=
| WireEq c t g v v' d d' l l' :
    (t = TypePrimitive → d = d') →
    (c = ClassUniversal → t = TypePrimitive →
      g = TagInteger ∨ g = TagOctetString ∨ g = TagEnumerated → v = v') →
    Forall2 wire_eq l l' →
    wire_eq (MkPacket c t g v d l) (MkPacket c t g v' d' l').

(** * An instance *)

(** Minimal two's-complement octets of a non-negative integer below 2^31. *)
Definition toy_int (v : Z) : bytes :=
  if v <? 128 then [zb v]
  else if v <? 32768 then [zb (v / 256); zb v]
  else if v <? 8388608 then [zb (v / 65536); zb (v / 256); zb v]
  else [zb (v / 16777216); zb (v / 65536); zb (v / 256); zb v].

#[export] Instance toy_ber : BerLib := {|
  NewInteger c t g v := MkPacket c t g (VInt v) (toy_int v) [];
  NewString c t g s := MkPacket c t g (VString s) s [];
  NewLDAPBoolean c t g b := MkPacket c t g VOther (if b then [xff] else [x00]) [];
  EncodeNil c t g := MkPacket c t g VNil [] [];
  NewSequence := MkPacket ClassUniversal TypeConstructed TagSequence VNil [] [];
  AppendChild p q :=
    MkPacket (ClassType p) (TagType p) (Tag p) (Value p) (Data p) (Children p ++ [q]);
  PacketBytes p := Data p;
  DecodePacketErr b := None;
  ParseInt64 d := Some (be_acc 0 d);
|}.

#[export] Instance toy_ber_laws : BerLaws toy_ber.
Proof.
  split; intros; cbn [NewInteger NewString NewLDAPBoolean EncodeNil NewSequence AppendChild ParseInt64 toy_ber]; eauto.
  exists (toy_int v). split; [done|]. split.
  - unfold toy_int. repeat case_match; cbn; lia.
  - f_equal. unfold toy_int.
    repeat case_match; bprop; cbn [be_acc]; rewrite !lor_shift8, !bz_zb;
      Z.div_mod_to_equations; lia.
Qed.

(** * Facts *)

(** Induction on packets with the hypothesis on every child. *)
Section packet_ind.
Variable P : Packet → Prop.
Hypothesis HP : ∀ c t g v d l, Forall P l → P (MkPacket c t g v d l).

Fixpoint Packet_ind' (p : Packet) : P p :=
  let fix all (l : list Packet) : Forall P l :=
    match l with
    | [] => @List.Forall_nil Packet P
    | x :: l' => @List.Forall_cons Packet P x l' (Packet_ind' x) (all l')
    end in
  let '(MkPacket c t g v d l) := p in HP c t g v d l (all l).
End packet_ind.

Lemma wire_eq_refl (p : Packet) : wire_eq p p.
Proof.
  induction p as [c t g v d l IH] using Packet_ind'. constructor; try done.
  by apply Forall_Forall2_diag.
Qed.

Lemma wire_eq_inv (p q : Packet) :
  wire_eq p q →
  ClassType p = ClassType q ∧ TagType p = TagType q ∧ Tag p = Tag q ∧
  (TagType p = TypePrimitive → Data p = Data q) ∧
  (ClassType p = ClassUniversal → TagType p = TypePrimitive →
    Tag p = TagInteger ∨ Tag p = TagOctetString ∨ Tag p = TagEnumerated → Value p = Value q) ∧
  Forall2 wire_eq (Children p) (Children q).
Proof. by inversion 1; subst. Qed.
