(* ===== verification/Decode.v ===== *)
(** The LDAPMessage decoder: [src/internal/ldapserver/codec_ber_decode.go] and
    the integer readers of [codec_ber.go].

    Each [decodeX] of the source is a function from a packet to a result, its
    guards in the order of the source.  Error texts are dropped (they carry no
    wire content); what remains of an error is its sentinel. *)

From S2P Require Import Prelude GoStrings Message Ber.
Local Open Scope Z_scope.

(** The codec's error conditions: the sentinels of [codec_ber.go] and the I/O
    conditions [readFrame] wraps; [ErrEncode] is an [errors.New] of the encoder. *)
Inductive codec_err : Type :=
| ErrMalformedPDU
| ErrUnsupportedOp
| ErrPDUTooLarge
| ErrEOF
| ErrUnexpectedEOF
| ErrEncode.

#[export] Instance codec_err_eq_dec : EqDecision codec_err.
Proof. solve_decision. Defined.

Definition maxInt32 : Z := 2147483647.

(** Filter and context tags. *)
Definition tagFilterAnd : Z := 0.
Definition tagFilterOr : Z := 1.
Definition tagFilterNot : Z := 2.
Definition tagFilterEquality : Z := 3.
Definition tagFilterSubstrings : Z := 4.
Definition tagFilterGE : Z := 5.
Definition tagFilterLE : Z := 6.
Definition tagFilterPresent : Z := 7.
Definition tagFilterApprox : Z := 8.
Definition tagFilterExtensible : Z := 9.
Definition tagBindSimple : Z := 0.
Definition tagBindSASL : Z := 3.
Definition tagModifyDNSuperior : Z := 0.
Definition tagExtendedReqName : Z := 0.
Definition tagExtendedReqValue : Z := 1.
Definition tagResultReferral : Z := 3.
Definition tagBindServerSaslCred : Z := 7.
Definition tagExtendedRespName : Z := 10.
Definition tagExtendedRespValue : Z := 11.

(** * Readers *)

Definition shape (p : Packet) (cls : Class_) (typ : Type_) (tag : Z) : res codec_err unit :=
  if negb (bool_decide (ClassType p = cls)) || negb (bool_decide (TagType p = typ)) || negb (Tag p =? tag)
  then Err ErrMalformedPDU
  else Ok ().

Definition packetInt (p : Packet) : res codec_err Z :=
  let n := length (Data p) in
  if (n =? 0)%nat || (8 <? n)%nat then Err ErrMalformedPDU
  else match Value p with
       | VInt v => Ok v
       | _ => Err ErrMalformedPDU
       end.

Definition intInRange (p : Packet) (lo hi : Z) : res codec_err Z :=
  v ← packetInt p;
  if (v <? lo) || (hi <? v) then Err ErrMalformedPDU else Ok v.

Definition octetString (p : Packet) : res codec_err bytes :=
  _ ← shape p ClassUniversal TypePrimitive TagOctetString;
  match Value p with
  | VString s => Ok s
  | _ => Err ErrMalformedPDU
  end.

Definition octetBytes (p : Packet) : res codec_err bytes := octetString p.

Definition contextString (p : Packet) (tag : Z) : res codec_err bytes :=
  _ ← shape p ClassContext TypePrimitive tag;
  Ok (Data p).

Definition ldapBool (p : Packet) : res codec_err bool :=
  _ ← shape p ClassUniversal TypePrimitive TagBoolean;
  match Data p with
  | [b] => Ok (negb (bz b =? 0))
  | _ => Err ErrMalformedPDU
  end.

Definition decodeEnum (p : Packet) (lo hi : Z) : res codec_err Z :=
  _ ← shape p ClassUniversal TypePrimitive TagEnumerated;
  intInRange p lo hi.

Definition decodeIntField (p : Packet) (lo hi : Z) : res codec_err Z :=
  _ ← shape p ClassUniversal TypePrimitive TagInteger;
  intInRange p lo hi.

Definition malformed {A} : res codec_err A := Err ErrMalformedPDU.

(** * Results *)

(** The fields of an LDAPResult and the remaining children, referrals dropped. *)
Definition decodeResultFields (p : Packet) : res codec_err (Result * list Packet) :=
  _ ← ensure (bool_decide (TagType p = TypeConstructed)) ErrMalformedPDU;
  match Children p with
  | c0 :: c1 :: c2 :: extra =>
    code ← decodeEnum c0 0 maxInt32;
    matched ← octetString c1;
    diag ← octetString c2;
    let rest := filter (λ x, ¬ (ClassType x = ClassContext ∧ Tag x = tagResultReferral)) extra in
    Ok (MkResult code matched diag, rest)
  | _ => malformed
  end.

Definition decodeDone (p : Packet) : res codec_err Result :=
  '(r, rest) ← decodeResultFields p;
  match rest with
  | [] => Ok r
  | _ => malformed
  end.

Definition decodeResultOp (p : Packet) (code : Z) : res codec_err Operation :=
  _ ← shape p ClassApplication TypeConstructed code;
  r ← decodeDone p;
  if code =? OpSearchResultDone then Ok (SearchResultDone r)
  else if code =? OpModifyResponse then Ok (ModifyResponse r)
  else if code =? OpAddResponse then Ok (AddResponse r)
  else if code =? OpDeleteResponse then Ok (DeleteResponse r)
  else if code =? OpModifyDNResponse then Ok (ModifyDNResponse r)
  else if code =? OpCompareResponse then Ok (CompareResponse r)
  else malformed.

(** * Attributes and filters *)

Definition decodeAttribute (ap : Packet) : res codec_err Attribute :=
  _ ← shape ap ClassUniversal TypeConstructed TagSequence;
  match Children ap with
  | [c0; c1] =>
    name ← octetString c0;
    _ ← ensure (negb (beq name [])) ErrMalformedPDU;
    _ ← shape c1 ClassUniversal TypeConstructed TagSet;
    vals ← rmap octetBytes (Children c1);
    Ok (MkAttribute name vals)
  | _ => malformed
  end.

Definition decodeAttributes (p : Packet) (minCount : nat) : res codec_err (list Attribute) :=
  _ ← shape p ClassUniversal TypeConstructed TagSequence;
  _ ← ensure (negb (length (Children p) <? minCount)%nat) ErrMalformedPDU;
  rmap decodeAttribute (Children p).

Definition decodeAVA (p : Packet) : res codec_err (bytes * bytes) :=
  _ ← ensure (bool_decide (TagType p = TypeConstructed)) ErrMalformedPDU;
  match Children p with
  | [c0; c1] =>
    attr ← octetString c0;
    _ ← ensure (negb (beq attr [])) ErrMalformedPDU;
    value ← octetBytes c1;
    Ok (attr, value)
  | _ => malformed
  end.

(** One [initial]/[any]/[final] choice added to the runs read so far. *)
Definition decodeSubstringChoice (st : option bytes * list bytes * option bytes) (ch : Packet)
    : res codec_err (option bytes * list bytes * option bytes) :=
  let '(initial, any, final) := st in
  if negb (bool_decide (ClassType ch = ClassContext)) || negb (bool_decide (TagType ch = TypePrimitive))
  then malformed
  else if Tag ch =? 0 then
    if bool_decide (is_Some initial) then malformed else Ok (Some (Data ch), any, final)
  else if Tag ch =? 1 then Ok (initial, any ++ [Data ch], final)
  else if Tag ch =? 2 then
    if bool_decide (is_Some final) then malformed else Ok (initial, any, Some (Data ch))
  else malformed.

Definition decodeSubstringFilter (p : Packet) : res codec_err Filter :=
  _ ← ensure (bool_decide (TagType p = TypeConstructed)) ErrMalformedPDU;
  match Children p with
  | [c0; seq] =>
    attr ← octetString c0;
    _ ← ensure (negb (beq attr [])) ErrMalformedPDU;
    _ ← shape seq ClassUniversal TypeConstructed TagSequence;
    _ ← ensure (negb (length (Children seq) =? 0)%nat) ErrMalformedPDU;
    '(initial, any, final) ← rfold decodeSubstringChoice (None, [], None) (Children seq);
    Ok (FilterSubstrings attr initial any final)
  | _ => malformed
  end.

Fixpoint decodeFilter (p : Packet) : res codec_err Filter :=
  let '(MkPacket cls typ tag _ _ children) := p in
  if negb (bool_decide (cls = ClassContext)) then malformed
  else if (tag =? tagFilterAnd) || (tag =? tagFilterOr) then
    if negb (bool_decide (typ = TypeConstructed)) then malformed
    else
      fs ← rmap decodeFilter children;
      Ok (if tag =? tagFilterAnd then FilterAnd fs else FilterOr fs)
  else if tag =? tagFilterNot then
    match typ, children with
    | TypeConstructed, [c0] => child ← decodeFilter c0; Ok (FilterNot child)
    | _, _ => malformed
    end
  else if (tag =? tagFilterEquality) || (tag =? tagFilterGE) || (tag =? tagFilterLE) ||
          (tag =? tagFilterApprox) then
    '(attr, value) ← decodeAVA p;
    Ok (if tag =? tagFilterEquality then FilterEquality attr value
        else if tag =? tagFilterGE then FilterGreaterOrEqual attr value
        else if tag =? tagFilterLE then FilterLessOrEqual attr value
        else FilterApproxMatch attr value)
  else if tag =? tagFilterPresent then
    attr ← contextString p tagFilterPresent;
    _ ← ensure (negb (beq attr [])) ErrMalformedPDU;
    Ok (FilterPresent attr)
  else if tag =? tagFilterSubstrings then decodeSubstringFilter p
  else if tag =? tagFilterExtensible then Err ErrUnsupportedOp
  else malformed.

(** * Operations *)

Definition decodeBindRequest (p : Packet) : res codec_err Operation :=
  _ ← shape p ClassApplication TypeConstructed OpBindRequest;
  match Children p with
  | [c0; c1; auth] =>
    _ ← shape c0 ClassUniversal TypePrimitive TagInteger;
    version ← intInRange c0 1 127;
    name ← octetString c1;
    _ ← ensure (bool_decide (ClassType auth = ClassContext)) ErrMalformedPDU;
    if Tag auth =? tagBindSASL then Err ErrUnsupportedOp
    else
      _ ← shape auth ClassContext TypePrimitive tagBindSimple;
      Ok (BindRequest version name (Data auth))
  | _ => malformed
  end.

Definition decodeBindResponse (p : Packet) : res codec_err Operation :=
  _ ← shape p ClassApplication TypeConstructed OpBindResponse;
  '(r, rest) ← decodeResultFields p;
  _ ← rmap (λ x, shape x ClassContext TypePrimitive tagBindServerSaslCred) rest;
  Ok (BindResponse r).

Definition decodeUnbind (p : Packet) : res codec_err Operation :=
  _ ← shape p ClassApplication TypePrimitive OpUnbindRequest;
  _ ← ensure (beq (Data p) []) ErrMalformedPDU;
  Ok UnbindRequest.

Definition decodeSearchRequest (p : Packet) : res codec_err Operation :=
  _ ← shape p ClassApplication TypeConstructed OpSearchRequest;
  match Children p with
  | [c0; c1; c2; c3; c4; c5; c6; c7] =>
    base ← octetString c0;
    scope ← decodeEnum c1 0 ScopeChildren;
    deref ← decodeEnum c2 0 DerefAlways;
    size ← decodeIntField c3 0 maxInt32;
    tlim ← decodeIntField c4 0 maxInt32;
    typesOnly ← ldapBool c5;
    flt ← decodeFilter c6;
    _ ← shape c7 ClassUniversal TypeConstructed TagSequence;
    attrs ← rmap octetString (Children c7);
    Ok (OpSearch (MkSearchRequest base scope deref size tlim typesOnly flt attrs))
  | _ => malformed
  end.

Definition decodeSearchResultEntry (p : Packet) : res codec_err Operation :=
  _ ← shape p ClassApplication TypeConstructed OpSearchResultEntry;
  match Children p with
  | [c0; c1] =>
    dn ← octetString c0;
    attrs ← decodeAttributes c1 0;
    Ok (SearchResultEntry dn attrs)
  | _ => malformed
  end.

Definition decodeModifyChange (cp : Packet) : res codec_err ModifyChange :=
  _ ← shape cp ClassUniversal TypeConstructed TagSequence;
  match Children cp with
  | [c0; c1] =>
    op ← decodeEnum c0 ModifyAdd ModifyReplace;
    attr ← decodeAttribute c1;
    Ok (MkModifyChange op attr)
  | _ => malformed
  end.

Definition decodeModifyRequest (p : Packet) : res codec_err Operation :=
  _ ← shape p ClassApplication TypeConstructed OpModifyRequest;
  match Children p with
  | [c0; seq] =>
    dn ← octetString c0;
    _ ← shape seq ClassUniversal TypeConstructed TagSequence;
    _ ← ensure (negb (length (Children seq) =? 0)%nat) ErrMalformedPDU;
    changes ← rmap decodeModifyChange (Children seq);
    Ok (ModifyRequest dn changes)
  | _ => malformed
  end.

Definition decodeAddRequest (p : Packet) : res codec_err Operation :=
  _ ← shape p ClassApplication TypeConstructed OpAddRequest;
  match Children p with
  | [c0; c1] =>
    dn ← octetString c0;
    attrs ← decodeAttributes c1 1;
    Ok (AddRequest dn attrs)
  | _ => malformed
  end.

Definition decodeDeleteRequest (p : Packet) : res codec_err Operation :=
  _ ← shape p ClassApplication TypePrimitive OpDeleteRequest;
  Ok (DeleteRequest (Data p)).

Definition decodeModifyDNRequest (p : Packet) : res codec_err Operation :=
  _ ← shape p ClassApplication TypeConstructed OpModifyDNRequest;
  match Children p with
  | c0 :: c1 :: c2 :: opt =>
    _ ← ensure (length opt <=? 1)%nat ErrMalformedPDU;
    dn ← octetString c0;
    rdn ← octetString c1;
    del ← ldapBool c2;
    sup ← match opt with
          | [c3] => contextString c3 tagModifyDNSuperior
          | _ => Ok []
          end;
    Ok (OpModifyDN (MkModifyDNRequest dn rdn del sup))
  | _ => malformed
  end.

Definition decodeCompareRequest (p : Packet) : res codec_err Operation :=
  _ ← shape p ClassApplication TypeConstructed OpCompareRequest;
  match Children p with
  | [c0; c1] =>
    dn ← octetString c0;
    '(attr, value) ← decodeAVA c1;
    Ok (CompareRequest dn attr value)
  | _ => malformed
  end.

Definition decodeExtendedRequest (p : Packet) : res codec_err Operation :=
  _ ← shape p ClassApplication TypeConstructed OpExtendedRequest;
  match Children p with
  | [c0] =>
    name ← contextString c0 tagExtendedReqName;
    Ok (ExtendedRequest name [])
  | [c0; c1] =>
    name ← contextString c0 tagExtendedReqName;
    _ ← shape c1 ClassContext TypePrimitive tagExtendedReqValue;
    Ok (ExtendedRequest name (Data c1))
  | _ => malformed
  end.

(** [append([]byte(nil), data...)]: empty content gives a nil slice. *)
Definition append_nil (d : bytes) : option bytes :=
  match d with
  | [] => None
  | _ => Some d
  end.

Definition decodeExtendedExtra (st : bytes * option bytes) (extra : Packet)
    : res codec_err (bytes * option bytes) :=
  let '(name, value) := st in
  if Tag extra =? tagExtendedRespName then
    n ← contextString extra tagExtendedRespName; Ok (n, value)
  else if Tag extra =? tagExtendedRespValue then
    _ ← shape extra ClassContext TypePrimitive tagExtendedRespValue;
    Ok (name, append_nil (Data extra))
  else malformed.

Definition decodeExtendedResponse (p : Packet) : res codec_err Operation :=
  _ ← shape p ClassApplication TypeConstructed OpExtendedResponse;
  '(r, rest) ← decodeResultFields p;
  '(name, value) ← rfold decodeExtendedExtra ([], None) rest;
  Ok (ExtendedResponse r name value).

(** * Controls and messages *)

Definition decodeControlField (ctrl : Control) (f : Packet) : res codec_err Control :=
  if bool_decide (ClassType f = ClassUniversal) && (Tag f =? TagBoolean) then
    v ← ldapBool f; Ok (MkControl (OID ctrl) v (CtrlValue ctrl))
  else if bool_decide (ClassType f = ClassUniversal) && (Tag f =? TagOctetString) then
    v ← octetBytes f;
    Ok (if negb (beq v []) then MkControl (OID ctrl) (Critical ctrl) v else ctrl)
  else malformed.

Definition decodeControl (cp : Packet) : res codec_err Control :=
  _ ← shape cp ClassUniversal TypeConstructed TagSequence;
  match Children cp with
  | c0 :: fields =>
    _ ← ensure (length fields <=? 2)%nat ErrMalformedPDU;
    oid ← octetString c0;
    _ ← ensure (negb (beq oid [])) ErrMalformedPDU;
    rfold decodeControlField (MkControl oid false []) fields
  | [] => malformed
  end.

Definition decodeControls (p : Packet) : res codec_err (list Control) :=
  _ ← shape p ClassContext TypeConstructed 0;
  rmap decodeControl (Children p).

Section decode.
Context {L : BerLib}.

Definition decodeAbandonRequest (p : Packet) : res codec_err Operation :=
  _ ← shape p ClassApplication TypePrimitive OpAbandonRequest;
  let n := length (Data p) in
  if (n =? 0)%nat || (8 <? n)%nat then malformed
  else match ParseInt64 (Data p) with
       | None => malformed
       | Some id => if (id <? 0) || (maxInt32 <? id) then malformed else Ok (AbandonRequest id)
       end.

Definition decodeOp (p : Packet) : res codec_err Operation :=
  let t := Tag p in
  if t =? OpBindRequest then decodeBindRequest p
  else if t =? OpBindResponse then decodeBindResponse p
  else if t =? OpUnbindRequest then decodeUnbind p
  else if t =? OpSearchRequest then decodeSearchRequest p
  else if t =? OpSearchResultEntry then decodeSearchResultEntry p
  else if t =? OpSearchResultDone then decodeResultOp p OpSearchResultDone
  else if t =? OpModifyRequest then decodeModifyRequest p
  else if t =? OpModifyResponse then decodeResultOp p OpModifyResponse
  else if t =? OpAddRequest then decodeAddRequest p
  else if t =? OpAddResponse then decodeResultOp p OpAddResponse
  else if t =? OpDeleteRequest then decodeDeleteRequest p
  else if t =? OpDeleteResponse then decodeResultOp p OpDeleteResponse
  else if t =? OpModifyDNRequest then decodeModifyDNRequest p
  else if t =? OpModifyDNResponse then decodeResultOp p OpModifyDNResponse
  else if t =? OpCompareRequest then decodeCompareRequest p
  else if t =? OpCompareResponse then decodeResultOp p OpCompareResponse
  else if t =? OpAbandonRequest then decodeAbandonRequest p
  else if t =? OpExtendedRequest then decodeExtendedRequest p
  else if t =? OpExtendedResponse then decodeExtendedResponse p
  else Err ErrUnsupportedOp.

Definition decodeMessage (p : Packet) : res codec_err Message :=
  _ ← shape p ClassUniversal TypeConstructed TagSequence;
  match Children p with
  | c0 :: opPkt :: opt =>
    _ ← ensure (length opt <=? 1)%nat ErrMalformedPDU;
    _ ← shape c0 ClassUniversal TypePrimitive TagInteger;
    id ← intInRange c0 0 maxInt32;
    _ ← ensure (bool_decide (ClassType opPkt = ClassApplication)) ErrMalformedPDU;
    op ← decodeOp opPkt;
    controls ← match opt with
               | [c2] => decodeControls c2
               | _ => Ok []
               end;
    Ok (MkMessage id op controls)
  | _ => malformed
  end.

End decode.
