(* ===== verification/Encode.v ===== *)
(** The LDAPMessage encoder: [src/internal/ldapserver/codec_ber_encode.go].

    The encoder builds a packet tree with the library's constructors;
    [encodeMessage] then asks the library for the octets of the tree.  The
    descriptions the library attaches to packets for printing are dropped. *)

From S2P Require Import Prelude GoStrings Message Ber Decode.
Local Open Scope Z_scope.

Definition maxEncodeFilterDepth : nat := 256.

Section encode.
Context {L : BerLib}.

(** [p.AppendChild] of each child in turn. *)
Definition append_all (p : Packet) (l : list Packet) : Packet := fold_left AppendChild l p.

Definition octet (s : bytes) : Packet := NewString ClassUniversal TypePrimitive TagOctetString s.
Definition integer (v : Z) : Packet := NewInteger ClassUniversal TypePrimitive TagInteger v.
Definition enumerated (v : Z) : Packet := NewInteger ClassUniversal TypePrimitive TagEnumerated v.
Definition boolean (b : bool) : Packet := NewLDAPBoolean ClassUniversal TypePrimitive TagBoolean b.
Definition context (tag : Z) (s : bytes) : Packet := NewString ClassContext TypePrimitive tag s.
Definition application (tag : Z) : Packet := EncodeNil ClassApplication TypeConstructed tag.

Definition appendResult (p : Packet) (r : Result) : Packet :=
  append_all p [enumerated (Code r); octet (MatchedDN r); octet (DiagnosticMessage r)].

Definition encodeResultOp (tag : Z) (r : Result) : Packet := appendResult (application tag) r.

Definition encodeBindRequest (version : Z) (name password : bytes) : res codec_err Packet :=
  if (version <? 1) || (127 <? version) then Err ErrEncode
  else Ok (append_all (application OpBindRequest)
    [integer version; octet name; context tagBindSimple password]).

Definition encodeAVA (attr value : bytes) (tag : Z) : Packet :=
  append_all (EncodeNil ClassContext TypeConstructed tag) [octet attr; octet value].

Definition encodeSubstrings (attr : bytes) (initial : option bytes) (any : list bytes)
    (final : option bytes) : res codec_err Packet :=
  match initial, any, final with
  | None, [], None => Err ErrEncode
  | _, _, _ =>
    let choices := append_all NewSequence
      (match initial with Some s => [context 0 s] | None => [] end ++
       (context 1 <$> any) ++
       match final with Some s => [context 2 s] | None => [] end) in
    Ok (append_all (EncodeNil ClassContext TypeConstructed tagFilterSubstrings) [octet attr; choices])
  end.

Fixpoint encodeFilter (f : Filter) (depth : nat) : res codec_err Packet :=
  if (maxEncodeFilterDepth <? depth)%nat then Err ErrEncode
  else match f with
  | FilterAnd children =>
    cs ← rmap (λ c, encodeFilter c (S depth)) children;
    Ok (append_all (EncodeNil ClassContext TypeConstructed tagFilterAnd) cs)
  | FilterOr children =>
    cs ← rmap (λ c, encodeFilter c (S depth)) children;
    Ok (append_all (EncodeNil ClassContext TypeConstructed tagFilterOr) cs)
  | FilterNot child =>
    c ← encodeFilter child (S depth);
    Ok (AppendChild (EncodeNil ClassContext TypeConstructed tagFilterNot) c)
  | FilterEquality a v => Ok (encodeAVA a v tagFilterEquality)
  | FilterGreaterOrEqual a v => Ok (encodeAVA a v tagFilterGE)
  | FilterLessOrEqual a v => Ok (encodeAVA a v tagFilterLE)
  | FilterApproxMatch a v => Ok (encodeAVA a v tagFilterApprox)
  | FilterPresent a => Ok (context tagFilterPresent a)
  | FilterSubstrings a i n g => encodeSubstrings a i n g
  end.

Definition encodeSearchRequest (r : SearchRequest) : res codec_err Packet :=
  if (SScope r <? ScopeBaseObject) || (ScopeChildren <? SScope r) then Err ErrEncode
  else if (Deref r <? DerefNever) || (DerefAlways <? Deref r) then Err ErrEncode
  else if (SizeLimit r <? 0) || (maxInt32 <? SizeLimit r) then Err ErrEncode
  else if (TimeLimit r <? 0) || (maxInt32 <? TimeLimit r) then Err ErrEncode
  else
    flt ← encodeFilter (SFilter r) 0;
    Ok (append_all (application OpSearchRequest)
      [octet (BaseDN r); enumerated (SScope r); enumerated (Deref r); integer (SizeLimit r);
       integer (TimeLimit r); boolean (TypesOnly r); flt;
       append_all NewSequence (octet <$> SAttributes r)]).

Definition encodeAttribute (a : Attribute) : res codec_err Packet :=
  if beq (Name a) [] then Err ErrEncode
  else Ok (append_all NewSequence
    [octet (Name a);
     append_all (EncodeNil ClassUniversal TypeConstructed TagSet) (octet <$> AttrValues a)]).

Definition encodeAttributes (attrs : list Attribute) : res codec_err Packet :=
  ps ← rmap encodeAttribute attrs;
  Ok (append_all NewSequence ps).

Definition encodeSearchResultEntry (dn : bytes) (attrs : list Attribute) : res codec_err Packet :=
  ps ← encodeAttributes attrs;
  Ok (append_all (application OpSearchResultEntry) [octet dn; ps]).

Definition encodeModifyChange (ch : ModifyChange) : res codec_err Packet :=
  if (ChOp ch <? ModifyAdd) || (ModifyReplace <? ChOp ch) then Err ErrEncode
  else
    attr ← encodeAttribute (ChAttr ch);
    Ok (append_all NewSequence [enumerated (ChOp ch); attr]).

Definition encodeModifyRequest (dn : bytes) (changes : list ModifyChange) : res codec_err Packet :=
  if (length changes =? 0)%nat then Err ErrEncode
  else
    cs ← rmap encodeModifyChange changes;
    Ok (append_all (application OpModifyRequest) [octet dn; append_all NewSequence cs]).

Definition encodeAddRequest (dn : bytes) (attrs : list Attribute) : res codec_err Packet :=
  if (length attrs =? 0)%nat then Err ErrEncode
  else
    ps ← encodeAttributes attrs;
    Ok (append_all (application OpAddRequest) [octet dn; ps]).

Definition encodeModifyDNRequest (r : ModifyDNRequest) : Packet :=
  append_all (application OpModifyDNRequest)
    ([octet (MDN r); octet (NewRDN r); boolean (DeleteOldRDN r)] ++
     (if negb (beq (NewSuperior r) []) then [context tagModifyDNSuperior (NewSuperior r)] else [])).

Definition encodeCompareRequest (dn attr value : bytes) : Packet :=
  append_all (application OpCompareRequest)
    [octet dn; encodeAVA attr value TagSequence].

Definition encodeExtendedRequest (name value : bytes) : res codec_err Packet :=
  if beq name [] then Err ErrEncode
  else Ok (append_all (application OpExtendedRequest)
    ([context tagExtendedReqName name] ++
     (if negb (length value =? 0)%nat then [context tagExtendedReqValue value] else []))).

Definition encodeExtendedResponse (r : Result) (name : bytes) (value : option bytes) : Packet :=
  append_all (encodeResultOp OpExtendedResponse r)
    ((if negb (beq name []) then [context tagExtendedRespName name] else []) ++
     match value with Some v => [context tagExtendedRespValue v] | None => [] end).

Definition encodeControl (c : Control) : res codec_err Packet :=
  if beq (OID c) [] then Err ErrEncode
  else Ok (append_all NewSequence
    ([octet (OID c)] ++ (if Critical c then [boolean true] else []) ++
     (if negb (length (CtrlValue c) =? 0)%nat then [octet (CtrlValue c)] else []))).

Definition encodeControls (controls : list Control) : res codec_err Packet :=
  cs ← rmap encodeControl controls;
  Ok (append_all (EncodeNil ClassContext TypeConstructed 0) cs).

Definition encodeOp (op : Operation) : res codec_err Packet :=
  match op with
  | BindRequest v n pw => encodeBindRequest v n pw
  | BindResponse r => Ok (encodeResultOp OpBindResponse r)
  | UnbindRequest => Ok (EncodeNil ClassApplication TypePrimitive OpUnbindRequest)
  | OpSearch r => encodeSearchRequest r
  | SearchResultEntry dn attrs => encodeSearchResultEntry dn attrs
  | SearchResultDone r => Ok (encodeResultOp OpSearchResultDone r)
  | ModifyRequest dn changes => encodeModifyRequest dn changes
  | ModifyResponse r => Ok (encodeResultOp OpModifyResponse r)
  | AddRequest dn attrs => encodeAddRequest dn attrs
  | AddResponse r => Ok (encodeResultOp OpAddResponse r)
  | DeleteRequest dn => Ok (NewString ClassApplication TypePrimitive OpDeleteRequest dn)
  | DeleteResponse r => Ok (encodeResultOp OpDeleteResponse r)
  | OpModifyDN r => Ok (encodeModifyDNRequest r)
  | ModifyDNResponse r => Ok (encodeResultOp OpModifyDNResponse r)
  | CompareRequest dn attr value => Ok (encodeCompareRequest dn attr value)
  | CompareResponse r => Ok (encodeResultOp OpCompareResponse r)
  | AbandonRequest id =>
    if (id <? 0) || (maxInt32 <? id) then Err ErrMalformedPDU
    else Ok (WriteData (EncodeNil ClassApplication TypePrimitive OpAbandonRequest)
               (Data (integer id)))
  | ExtendedRequest name value => encodeExtendedRequest name value
  | ExtendedResponse r name value => Ok (encodeExtendedResponse r name value)
  end.

(** The packet tree [encodeMessage] builds. *)
Definition encodePacket (m : Message) : res codec_err Packet :=
  if (ID m <? 0) || (maxInt32 <? ID m) then Err ErrMalformedPDU
  else
    op ← encodeOp (Op m);
    controls ← (if (length (Controls m) =? 0)%nat then Ok []
                else cs ← encodeControls (Controls m); Ok [cs]);
    Ok (append_all NewSequence ([integer (ID m); op] ++ controls)).

Definition encodeMessage (m : Message) : res codec_err bytes := PacketBytes <$> encodePacket m.

End encode.
