(* ===== verification/WireFacts.v ===== *)
(** The decoder only reads what [wire_eq] preserves.

    Every decoder of [Decode.v] is a morphism from [wire_eq] to equality, so a
    fact about the packet tree the encoder built carries over to the tree the
    library decodes from its octets. *)

From S2P Require Import Prelude GoStrings Message Ber Decode.
Local Open Scope Z_scope.

Lemma shape_ok (p : Packet) (c : Class_) (t : Type_) (g : Z) (u : unit) :
  shape p c t g = Ok u ↔ ClassType p = c ∧ TagType p = t ∧ Tag p = g.
Proof.
  unfold shape. destruct u.
  destruct (_ || _) eqn:E; split.
  - done.
  - intros (<- & <- & <-). rewrite !bool_decide_eq_true_2, Z.eqb_refl in E by done. done.
  - intros _. bprop. done.
  - done.
Qed.

Lemma shape_dec (p : Packet) (c : Class_) (t : Type_) (g : Z) :
  {shape p c t g = Ok () ∧ ClassType p = c ∧ TagType p = t ∧ Tag p = g} +
  {shape p c t g = Err ErrMalformedPDU}.
Proof.
  destruct (shape p c t g) as [[]|e] eqn:E.
  - left. split; [done|]. by eapply shape_ok.
  - right. unfold shape in E. destruct (_ || _); congruence.
Qed.

#[export] Instance shape_wire : Proper (wire_eq ==> eq ==> eq ==> eq ==> eq) shape.
Proof.
  intros p q (Hc & Ht & Hg & _)%wire_eq_inv c _ <- t _ <- g _ <-.
  unfold shape. by rewrite Hc, Ht, Hg.
Qed.

(** A reader guarded by [shape] respects [wire_eq] when it does so on packets
    of that shape. *)
Lemma guarded_wire {A} (c : Class_) (t : Type_) (g : Z) (f : Packet → res codec_err A) (p q : Packet) :
  wire_eq p q →
  (ClassType p = c → TagType p = t → Tag p = g → f p = f q) →
  (_ ← shape p c t g; f p) = (_ ← shape q c t g; f q).
Proof.
  intros Hw Hf. rewrite (shape_wire p q Hw c c eq_refl t t eq_refl g g eq_refl).
  destruct (shape_dec q c t g) as [(-> & Hc & Ht & Hg)| ->]; [|done].
  apply wire_eq_inv in Hw as (Ec & Et & Eg & _). cbn. apply Hf; congruence.
Qed.

Lemma wire_value (p q : Packet) (g : Z) :
  wire_eq p q → ClassType p = ClassUniversal → TagType p = TypePrimitive → Tag p = g →
  g = TagInteger ∨ g = TagOctetString ∨ g = TagEnumerated → Value p = Value q.
Proof. intros (_ & _ & _ & _ & Hv & _)%wire_eq_inv Hc Ht <- Hg. by apply Hv. Qed.

Lemma wire_data (p q : Packet) : wire_eq p q → TagType p = TypePrimitive → Data p = Data q.
Proof. intros (_ & _ & _ & Hd & _)%wire_eq_inv Ht. by apply Hd. Qed.

Lemma wire_children (p q : Packet) : wire_eq p q → Forall2 wire_eq (Children p) (Children q).
Proof. intros Hw. by apply wire_eq_inv in Hw as (_ & _ & _ & _ & _ & ?). Qed.

Lemma wire_tagtype (p q : Packet) : wire_eq p q → TagType p = TagType q.
Proof. intros Hw. by apply wire_eq_inv in Hw as (_ & ? & _). Qed.

Lemma wire_class (p q : Packet) : wire_eq p q → ClassType p = ClassType q.
Proof. intros Hw. by apply wire_eq_inv in Hw as (? & _). Qed.

Lemma wire_tag (p q : Packet) : wire_eq p q → Tag p = Tag q.
Proof. intros Hw. by apply wire_eq_inv in Hw as (_ & _ & ? & _). Qed.

#[export] Instance octetString_wire : Proper (wire_eq ==> eq) octetString.
Proof.
  intros p q Hw. unfold octetString. apply (guarded_wire _ _ _ (λ p, match Value p with
    VString s => Ok s | _ => Err ErrMalformedPDU end)); [done|].
  intros Hc Ht Hg. by rewrite (wire_value p q TagOctetString) by auto.
Qed.

#[export] Instance octetBytes_wire : Proper (wire_eq ==> eq) octetBytes.
Proof. apply octetString_wire. Qed.

#[export] Instance contextString_wire : Proper (wire_eq ==> eq ==> eq) contextString.
Proof.
  intros p q Hw g _ <-. unfold contextString. apply (guarded_wire _ _ _ (λ p, Ok (Data p))); [done|].
  intros _ Ht _. by rewrite (wire_data p q).
Qed.

#[export] Instance ldapBool_wire : Proper (wire_eq ==> eq) ldapBool.
Proof.
  intros p q Hw. unfold ldapBool. apply (guarded_wire _ _ _ (λ p, match Data p with
    [b] => Ok (negb (bz b =? 0)) | _ => Err ErrMalformedPDU end)); [done|].
  intros _ Ht _. by rewrite (wire_data p q).
Qed.

Lemma intInRange_wire (p q : Packet) (g lo hi : Z) :
  wire_eq p q → ClassType p = ClassUniversal → TagType p = TypePrimitive → Tag p = g →
  g = TagInteger ∨ g = TagEnumerated → intInRange p lo hi = intInRange q lo hi.
Proof.
  intros Hw Hc Ht Hg Hor. unfold intInRange, packetInt.
  rewrite (wire_data p q), (wire_value p q g) by (done || tauto). done.
Qed.

#[export] Instance decodeEnum_wire : Proper (wire_eq ==> eq ==> eq ==> eq) decodeEnum.
Proof.
  intros p q Hw lo _ <- hi _ <-. unfold decodeEnum.
  apply (guarded_wire _ _ _ (λ p, intInRange p lo hi)); [done|].
  intros. eapply intInRange_wire; [done..|]. by right.
Qed.

#[export] Instance decodeIntField_wire : Proper (wire_eq ==> eq ==> eq ==> eq) decodeIntField.
Proof.
  intros p q Hw lo _ <- hi _ <-. unfold decodeIntField.
  apply (guarded_wire _ _ _ (λ p, intInRange p lo hi)); [done|].
  intros. eapply intInRange_wire; [done..|]. by left.
Qed.

Lemma rmap_wire {A} (f : Packet → res codec_err A) (l l' : list Packet) :
  Forall2 (λ p q, f p = f q) l l' → rmap f l = rmap f l'.
Proof. induction 1 as [|p q l l' Hpq _ IH]; cbn; [done|]. by rewrite Hpq, IH. Qed.

Lemma rmap_proper {A} (f : Packet → res codec_err A) (l l' : list Packet) :
  Proper (wire_eq ==> eq) f → Forall2 wire_eq l l' → rmap f l = rmap f l'.
Proof. intros Hf Hl. apply rmap_wire. eapply Forall2_impl; [exact Hl|]. intros. by apply Hf. Qed.

Lemma rfold_proper {A} (f : A → Packet → res codec_err A) (s : A) (l l' : list Packet) :
  (∀ s p q, wire_eq p q → f s p = f s q) → Forall2 wire_eq l l' → rfold f s l = rfold f s l'.
Proof.
  intros Hf Hl. revert s. induction Hl as [|p q l l' Hpq _ IH]; intros s; cbn; [done|].
  rewrite (Hf _ _ _ Hpq). destruct (f s q); cbn; [apply IH | done].
Qed.

Create HintDb wire discriminated.
#[export] Hint Resolve octetString_wire octetBytes_wire contextString_wire ldapBool_wire
  decodeEnum_wire decodeIntField_wire shape_wire : wire.

(** Splits related child lists and rewrites every reader of the goal. *)
Ltac wire_step :=
  match goal with
  | Hw : wire_eq ?p ?q |- (_ ← shape ?p ?c ?t ?g; _) = _ =>
      rewrite (shape_wire p q Hw c c eq_refl t t eq_refl g g eq_refl);
      destruct (shape q c t g); [cbn [mbind res_bind]|reflexivity]
  | Hw : wire_eq ?p ?q |- (_ ← octetString ?p; _) = _ =>
      rewrite (octetString_wire p q Hw); destruct (octetString q); [cbn [mbind res_bind]|reflexivity]
  | Hw : wire_eq ?p ?q |- (_ ← octetBytes ?p; _) = _ =>
      rewrite (octetBytes_wire p q Hw); destruct (octetBytes q); [cbn [mbind res_bind]|reflexivity]
  | Hw : wire_eq ?p ?q |- (_ ← ldapBool ?p; _) = _ =>
      rewrite (ldapBool_wire p q Hw); destruct (ldapBool q); [cbn [mbind res_bind]|reflexivity]
  | Hw : wire_eq ?p ?q |- (_ ← contextString ?p ?g; _) = _ =>
      rewrite (contextString_wire p q Hw g g eq_refl);
      destruct (contextString q g); [cbn [mbind res_bind]|reflexivity]
  | Hw : wire_eq ?p ?q |- (_ ← decodeEnum ?p ?a ?b; _) = _ =>
      rewrite (decodeEnum_wire p q Hw a a eq_refl b b eq_refl);
      destruct (decodeEnum q a b); [cbn [mbind res_bind]|reflexivity]
  | Hw : wire_eq ?p ?q |- (_ ← decodeIntField ?p ?a ?b; _) = _ =>
      rewrite (decodeIntField_wire p q Hw a a eq_refl b b eq_refl);
      destruct (decodeIntField q a b); [cbn [mbind res_bind]|reflexivity]
  | Hw : wire_eq ?p ?q |- context [rmap ?f (Children ?p)] =>
      rewrite (rmap_proper f (Children p) (Children q) _ (wire_children p q Hw))
  | Hw : wire_eq ?p ?q |- context [length (Children ?p)] =>
      rewrite (Forall2_length _ _ _ (wire_children p q Hw))
  | Hw : wire_eq ?p ?q |- context [TagType ?p] => rewrite (wire_tagtype p q Hw)
  | Hw : wire_eq ?p ?q |- context [ClassType ?p] => rewrite (wire_class p q Hw)
  | Hw : wire_eq ?p ?q |- context [Tag ?p] => rewrite (wire_tag p q Hw)
  | |- (_ ← ensure ?b ?e; _) = (_ ← ensure ?b ?e; _) =>
      destruct (ensure b e); [cbn [mbind res_bind]|reflexivity]
  | Hl : Forall2 wire_eq ?l ?l' |- context [match ?l with _ => _ end] =>
      let Hw := fresh "Hw" in
      destruct Hl as [|? ? ? ? Hw Hl]; try reflexivity
  end.

Ltac wire_children :=
  match goal with
  | Hw : wire_eq ?p ?q |- context [Children ?p] =>
      let Hl := fresh "Hl" in pose proof (wire_children p q Hw) as Hl;
      revert Hl; generalize (Children p), (Children q); intros ? ? Hl
  end.

#[export] Instance decodeAttribute_wire : Proper (wire_eq ==> eq) decodeAttribute.
Proof.
  intros p q Hw. unfold decodeAttribute. wire_step. wire_children. by repeat wire_step.
Qed.

Lemma decodeAttributes_wire (p q : Packet) (n : nat) :
  wire_eq p q → decodeAttributes p n = decodeAttributes q n.
Proof. intros Hw. unfold decodeAttributes. by repeat wire_step. Qed.

#[export] Instance decodeAVA_wire : Proper (wire_eq ==> eq) decodeAVA.
Proof. intros p q Hw. unfold decodeAVA. repeat wire_step. wire_children. by repeat wire_step. Qed.

Lemma decodeSubstringChoice_wire st (p q : Packet) :
  wire_eq p q → decodeSubstringChoice st p = decodeSubstringChoice st q.
Proof.
  intros Hw. destruct st as [[i n] f]. unfold decodeSubstringChoice.
  destruct (decide (TagType p = TypePrimitive)) as [Ht|Ht].
  - rewrite (wire_data p q) by done. by repeat wire_step.
  - repeat wire_step. rewrite (wire_tagtype p q Hw) in Ht.
    rewrite (bool_decide_eq_false_2 (TagType q = TypePrimitive)) by done.
    by rewrite orb_true_r.
Qed.

#[export] Instance decodeSubstringFilter_wire : Proper (wire_eq ==> eq) decodeSubstringFilter.
Proof.
  intros p q Hw. unfold decodeSubstringFilter. repeat wire_step. wire_children. repeat wire_step.
  erewrite rfold_proper; [done | | by apply wire_children]. intros. by apply decodeSubstringChoice_wire.
Qed.

#[export] Instance decodeFilter_wire : Proper (wire_eq ==> eq) decodeFilter.
Proof.
  intros p. induction p as [c t g v d l IH] using Packet_ind'. intros q Hw.
  pose proof (wire_eq_inv _ _ Hw) as (Hc & Ht & Hg & Hd & Hv & Hl).
  destruct q as [c' t' g' v' d' l']. cbn [ClassType TagType Tag Children] in Hc, Ht, Hg, Hl. subst c' t' g'.
  cbn [decodeFilter].
  rewrite (decodeAVA_wire _ _ Hw), (contextString_wire _ _ Hw _ _ eq_refl), (decodeSubstringFilter_wire _ _ Hw).
  assert (Hr : rmap decodeFilter l = rmap decodeFilter l').
  { apply rmap_wire. clear Hw Hd Hv. induction Hl; inversion IH; subst; constructor; auto. }
  rewrite Hr. destruct Hl as [|x y l l' Hx Hl]; [done|]. destruct Hl; [|done].
  inversion IH as [|? ? Hx' _]; subst. by rewrite (Hx' y Hx).
Qed.

Lemma filter_wire (P : Packet → Prop) `{∀ p, Decision (P p)} (l l' : list Packet) :
  (∀ p q, wire_eq p q → P p ↔ P q) → Forall2 wire_eq l l' →
  Forall2 wire_eq (filter P l) (filter P l').
Proof.
  intros HP. induction 1 as [|p q l l' Hpq _ IH]; [constructor|].
  rewrite !filter_cons. pose proof (HP p q Hpq).
  destruct (decide (P p)), (decide (P q)); [by constructor | tauto | tauto | done].
Qed.

Lemma decodeResultFields_wire (p q : Packet) :
  wire_eq p q →
  (decodeResultFields p = decodeResultFields q ∧ ∃ e, decodeResultFields p = Err e) ∨
  ∃ r l l', decodeResultFields p = Ok (r, l) ∧ decodeResultFields q = Ok (r, l') ∧
    Forall2 wire_eq l l'.
Proof.
  intros Hw. unfold decodeResultFields. rewrite (wire_tagtype p q Hw).
  destruct (ensure _ _); cbn [mbind res_bind]; [|eauto].
  wire_children. destruct Hl as [|c0 d0 l l' H0 Hl]; [left; unfold malformed; eauto|].
  destruct Hl as [|c1 d1 l l' H1 Hl]; [left; unfold malformed; eauto|].
  destruct Hl as [|c2 d2 l l' H2 Hl]; [left; unfold malformed; eauto|].
  rewrite (decodeEnum_wire _ _ H0 _ _ eq_refl _ _ eq_refl), (octetString_wire _ _ H1), (octetString_wire _ _ H2).
  destruct (decodeEnum d0 0 maxInt32); cbn [mbind res_bind]; [|eauto].
  destruct (octetString d1); cbn [mbind res_bind]; [|eauto].
  destruct (octetString d2); cbn [mbind res_bind]; [|eauto].
  right. do 3 eexists. do 2 (split; [reflexivity|]). apply filter_wire; [|done].
  intros x y Hxy. by rewrite (wire_class x y Hxy), (wire_tag x y Hxy).
Qed.

#[export] Instance decodeDone_wire : Proper (wire_eq ==> eq) decodeDone.
Proof.
  intros p q Hw. unfold decodeDone.
  destruct (decodeResultFields_wire p q Hw) as [[-> _]|(r & l & l' & -> & -> & Hl)]; [done|].
  cbn. by destruct Hl.
Qed.

Lemma decodeResultOp_wire (p q : Packet) (code : Z) :
  wire_eq p q → decodeResultOp p code = decodeResultOp q code.
Proof. intros Hw. unfold decodeResultOp. wire_step. by rewrite (decodeDone_wire p q Hw). Qed.

#[export] Instance decodeModifyChange_wire : Proper (wire_eq ==> eq) decodeModifyChange.
Proof.
  intros p q Hw. unfold decodeModifyChange. wire_step. wire_children. repeat wire_step.
  match goal with H : wire_eq ?x ?y |- context [decodeAttribute ?x] => by rewrite (decodeAttribute_wire x y H) end.
Qed.

Lemma decodeControlField_wire (ctrl : Control) (p q : Packet) :
  wire_eq p q → decodeControlField ctrl p = decodeControlField ctrl q.
Proof.
  intros Hw. unfold decodeControlField.
  rewrite (ldapBool_wire p q Hw), (octetBytes_wire p q Hw). by repeat wire_step.
Qed.

#[export] Instance decodeControl_wire : Proper (wire_eq ==> eq) decodeControl.
Proof.
  intros p q Hw. unfold decodeControl. wire_step. wire_children. wire_step.
  rewrite (Forall2_length _ _ _ Hl). repeat wire_step.
  apply rfold_proper; [|done]. intros. by apply decodeControlField_wire.
Qed.

#[export] Instance decodeControls_wire : Proper (wire_eq ==> eq) decodeControls.
Proof. intros p q Hw. unfold decodeControls. by repeat wire_step. Qed.

Section ops.
Context {L : BerLib}.

Lemma decodeExtendedExtra_wire st (p q : Packet) :
  wire_eq p q → decodeExtendedExtra st p = decodeExtendedExtra st q.
Proof.
  intros Hw. destruct st as [n v]. unfold decodeExtendedExtra.
  rewrite (contextString_wire p q Hw _ _ eq_refl), (wire_tag p q Hw).
  replace (_ ← shape p ClassContext TypePrimitive tagExtendedRespValue; Ok (n, append_nil (Data p)))
    with (_ ← shape q ClassContext TypePrimitive tagExtendedRespValue; Ok (n, append_nil (Data q))); [done|].
  symmetry. apply (guarded_wire _ _ _ (λ p, Ok (n, append_nil (Data p)))); [done|].
  intros _ Ht _. by rewrite (wire_data p q).
Qed.

Ltac wire_op :=
  let p := fresh "p" in let q := fresh "q" in let Hw := fresh "Hw" in
  intros p q Hw; unfold decodeBindRequest, decodeBindResponse, decodeUnbind, decodeSearchRequest,
    decodeSearchResultEntry, decodeModifyRequest, decodeAddRequest, decodeDeleteRequest,
    decodeModifyDNRequest, decodeCompareRequest, decodeAbandonRequest, decodeExtendedRequest,
    decodeExtendedResponse.

Lemma decodeSearchRequest_wire (p q : Packet) : wire_eq p q → decodeSearchRequest p = decodeSearchRequest q.
Proof.
  intros Hw. unfold decodeSearchRequest. wire_step. wire_children. repeat wire_step.
  match goal with H : wire_eq ?x ?y |- context [decodeFilter ?x] => rewrite (decodeFilter_wire x y H) end.
  destruct (decodeFilter _); cbn [mbind res_bind]; [by repeat wire_step | done].
Qed.

Lemma decodeBindRequest_wire (p q : Packet) : wire_eq p q → decodeBindRequest p = decodeBindRequest q.
Proof.
  intros Hw. unfold decodeBindRequest. wire_step. wire_children.
  destruct Hl as [|c0 d0 l l' H0 Hl]; [done|]. destruct Hl as [|c1 d1 l l' H1 Hl]; [done|].
  destruct Hl as [|au av l l' H2 Hl]; [done|]. destruct Hl; [|done].
  rewrite (shape_wire c0 d0 H0 _ _ eq_refl _ _ eq_refl _ _ eq_refl).
  destruct (shape_dec d0 ClassUniversal TypePrimitive TagInteger) as [(-> & Hc & Ht & Hg)| ->]; [|done].
  cbn [mbind res_bind]. pose proof (wire_eq_inv _ _ H0) as (Ec & Et & Eg & _).
  rewrite (intInRange_wire c0 d0 TagInteger) by (congruence || by left).
  destruct (intInRange _ _ _); cbn [mbind res_bind]; [|done]. repeat wire_step.
  destruct (_ =? _); [done|].
  rewrite (shape_wire au av H2 _ _ eq_refl _ _ eq_refl _ _ eq_refl).
  destruct (decide (TagType au = TypePrimitive)) as [Hp|Hp].
  - by rewrite (wire_data au av).
  - destruct (shape_dec av ClassContext TypePrimitive tagBindSimple) as [(_ & _ & Ht' & _)| ->]; [|done].
    rewrite (wire_tagtype au av H2) in Hp. done.
Qed.

Lemma decodeOther_wire (p q : Packet) :
  wire_eq p q →
  decodeBindResponse p = decodeBindResponse q ∧ decodeUnbind p = decodeUnbind q ∧
  decodeSearchResultEntry p = decodeSearchResultEntry q ∧
  decodeModifyRequest p = decodeModifyRequest q ∧ decodeAddRequest p = decodeAddRequest q ∧
  decodeDeleteRequest p = decodeDeleteRequest q ∧ decodeCompareRequest p = decodeCompareRequest q.
Proof.
  intros Hw. split_and!.
  - unfold decodeBindResponse. wire_step.
    destruct (decodeResultFields_wire p q Hw) as [[-> _]|(r & l & l' & -> & -> & Hl)]; [done|].
    cbn [mbind res_bind]. erewrite rmap_proper; [done | | done]. intros x y Hxy. by apply shape_wire.
  - unfold decodeUnbind.
    apply (guarded_wire _ _ _ (λ p, _ ← ensure (beq (Data p) []) ErrMalformedPDU; Ok UnbindRequest)); [done|].
    intros _ Ht _. by rewrite (wire_data p q).
  - unfold decodeSearchResultEntry. wire_step. wire_children. repeat wire_step.
    match goal with H : wire_eq ?x ?y |- context [decodeAttributes ?x _] => by rewrite (decodeAttributes_wire x y) end.
  - unfold decodeModifyRequest. wire_step. wire_children. by repeat wire_step.
  - unfold decodeAddRequest. wire_step. wire_children. repeat wire_step.
    match goal with H : wire_eq ?x ?y |- context [decodeAttributes ?x _] => by rewrite (decodeAttributes_wire x y) end.
  - unfold decodeDeleteRequest. apply (guarded_wire _ _ _ (λ p, Ok (DeleteRequest (Data p)))); [done|].
    intros _ Ht _. by rewrite (wire_data p q).
  - unfold decodeCompareRequest. wire_step. wire_children. repeat wire_step.
    match goal with H : wire_eq ?x ?y |- context [decodeAVA ?x] => by rewrite (decodeAVA_wire x y) end.
Qed.

Lemma decodeModifyDNRequest_wire (p q : Packet) :
  wire_eq p q → decodeModifyDNRequest p = decodeModifyDNRequest q.
Proof.
  intros Hw. unfold decodeModifyDNRequest. wire_step. wire_children.
  destruct Hl as [|c0 d0 l l' H0 Hl]; [done|]. destruct Hl as [|c1 d1 l l' H1 Hl]; [done|].
  destruct Hl as [|c2 d2 l l' H2 Hl]; [done|]. rewrite (Forall2_length _ _ _ Hl). do 4 wire_step.
  destruct Hl as [|c3 d3 l l' H3 Hl]; [done|]. destruct Hl; [|done].
  by rewrite (contextString_wire c3 d3 H3 _ _ eq_refl).
Qed.

Lemma decodeExtendedRequest_wire (p q : Packet) :
  wire_eq p q → decodeExtendedRequest p = decodeExtendedRequest q.
Proof.
  intros Hw. unfold decodeExtendedRequest. wire_step. wire_children.
  destruct Hl as [|c0 d0 l l' H0 Hl]; [done|].
  destruct Hl as [|c1 d1 l l' H1 Hl]; [by repeat wire_step|]. destruct Hl; [|done].
  rewrite (contextString_wire c0 d0 H0 _ _ eq_refl). destruct (contextString d0 _); [|done].
  cbn [mbind res_bind]. apply (guarded_wire _ _ _ (λ x, Ok (ExtendedRequest _ (Data x)))); [done|].
  intros _ Ht _. by rewrite (wire_data c1 d1).
Qed.

Lemma decodeExtendedResponse_wire (p q : Packet) :
  wire_eq p q → decodeExtendedResponse p = decodeExtendedResponse q.
Proof.
  intros Hw. unfold decodeExtendedResponse. wire_step.
  destruct (decodeResultFields_wire p q Hw) as [[-> _]|(r & l & l' & -> & -> & Hl)]; [done|].
  cbn [mbind res_bind]. erewrite rfold_proper; [done | | exact Hl].
  intros. by apply decodeExtendedExtra_wire.
Qed.

Lemma decodeAbandonRequest_wire (p q : Packet) :
  wire_eq p q → decodeAbandonRequest p = decodeAbandonRequest q.
Proof.
  intros Hw. unfold decodeAbandonRequest. rewrite (shape_wire p q Hw _ _ eq_refl _ _ eq_refl _ _ eq_refl).
  destruct (shape_dec q ClassApplication TypePrimitive OpAbandonRequest) as [(-> & _ & Ht & _)| ->]; [|done].
  cbn [mbind res_bind]. by rewrite (wire_data p q) by (rewrite ?(wire_tagtype p q Hw); done).
Qed.

#[export] Instance decodeOp_wire : Proper (wire_eq ==> eq) decodeOp.
Proof.
  intros p q Hw. unfold decodeOp. rewrite (wire_tag p q Hw).
  pose proof (decodeOther_wire p q Hw) as (-> & -> & -> & -> & -> & -> & ->).
  by rewrite (decodeBindRequest_wire p q), (decodeSearchRequest_wire p q), !(decodeResultOp_wire p q),
    (decodeModifyDNRequest_wire p q), (decodeAbandonRequest_wire p q),
    (decodeExtendedRequest_wire p q), (decodeExtendedResponse_wire p q) by done.
Qed.

#[export] Instance decodeMessage_wire : Proper (wire_eq ==> eq) decodeMessage.
Proof.
  intros p q Hw. unfold decodeMessage. wire_step. wire_children.
  destruct Hl as [|c0 d0 l l' H0 Hl]; [done|]. destruct Hl as [|c1 d1 l l' H1 Hl]; [done|].
  rewrite (Forall2_length _ _ _ Hl). wire_step.
  rewrite (shape_wire c0 d0 H0 _ _ eq_refl _ _ eq_refl _ _ eq_refl).
  destruct (shape_dec d0 ClassUniversal TypePrimitive TagInteger) as [(-> & Hc & Ht & Hg)| ->]; [|done].
  cbn [mbind res_bind]. pose proof (wire_eq_inv _ _ H0) as (Ec & Et & Eg & _).
  rewrite (intInRange_wire c0 d0 TagInteger) by (congruence || by left).
  destruct (intInRange _ _ _); cbn [mbind res_bind]; [|done]. do 2 wire_step.
  rewrite (decodeOp_wire c1 d1 H1). destruct (decodeOp d1); cbn [mbind res_bind]; [|done].
  destruct Hl as [|c2 d2 l l' H2 Hl]; [done|]. destruct Hl; [|done].
  by rewrite (decodeControls_wire c2 d2 H2).
Qed.

End ops.
