(* ===== verification/CodecFacts.v ===== *)
(** The codec's round trip: decoding what the encoder built gives the message back.

    [valid_message] collects what the encoder does not check itself (a result
    code in range, non-empty attribute descriptions in assertions); [canonical]
    is the identity but for an extended response with a present, empty value,
    which the decoder reads as absent. *)

From S2P Require Import Prelude GoStrings Message Ber Decode Encode WireFacts.
Local Open Scope Z_scope.

(** * What round-trips *)

Fixpoint valid_filter (f : Filter) : bool :=
  match f with
  | FilterAnd l | FilterOr l => forallb valid_filter l
  | FilterNot g => valid_filter g
  | FilterEquality a _ | FilterSubstrings a _ _ _ | FilterPresent a
  | FilterGreaterOrEqual a _ | FilterLessOrEqual a _ | FilterApproxMatch a _ => negb (beq a [])
  end.

Definition valid_result (r : Result) : bool := in_range 0 maxInt32 (Code r).

Definition valid_op (op : Operation) : bool :=
  match op with
  | OpSearch r => valid_filter (SFilter r)
  | CompareRequest _ attr _ => negb (beq attr [])
  | BindResponse r | SearchResultDone r | ModifyResponse r | AddResponse r | DeleteResponse r
  | ModifyDNResponse r | CompareResponse r | ExtendedResponse r _ _ => valid_result r
  | _ => true
  end.

Definition valid_message (m : Message) : bool := valid_op (Op m).

Definition canonical_op (op : Operation) : Operation :=
  match op with
  | ExtendedResponse r n (Some []) => ExtendedResponse r n None
  | _ => op
  end.

Definition canonical (m : Message) : Message := MkMessage (ID m) (canonical_op (Op m)) (Controls m).

(** * Packets the encoder builds *)

Section codec.
Context {L : BerLib} {BL : BerLaws L}.

Lemma append_all_spec (p : Packet) (l : list Packet) :
  ∃ d, append_all p l =
    MkPacket (ClassType p) (TagType p) (Tag p) (Ber.Value p) d (Children p ++ l).
Proof.
  revert p. induction l as [|q l IH]; intros p.
  - exists (Data p). rewrite app_nil_r. by destruct p.
  - cbn. destruct (AppendChild_spec p q) as [d Hd]. destruct (IH (AppendChild p q)) as [d' Hd'].
    exists d'. unfold append_all in Hd'. rewrite Hd', Hd. cbn. by rewrite <- app_assoc.
Qed.

#[local] Opaque append_all.

(** A constructed packet: identifier and children, content unspecified. *)
Definition node (c : Class_) (t : Type_) (g : Z) (l : list Packet) (p : Packet) : Prop :=
  ∃ d, p = MkPacket c t g VNil d l.

Lemma node_nil (c : Class_) (t : Type_) (g : Z) (l : list Packet) :
  node c t g l (append_all (EncodeNil c t g) l).
Proof.
  destruct (append_all_spec (EncodeNil c t g) l) as [d ->]. rewrite EncodeNil_spec. by exists d.
Qed.

Lemma node_seq (l : list Packet) :
  node ClassUniversal TypeConstructed TagSequence l (append_all NewSequence l).
Proof. rewrite NewSequence_spec. apply node_nil. Qed.

Lemma node_append (c : Class_) (t : Type_) (g : Z) (l l' : list Packet) (p : Packet) :
  node c t g l p → node c t g (l ++ l') (append_all p l').
Proof. intros [d ->]. destruct (append_all_spec (MkPacket c t g VNil d l) l') as [d' ->]. by exists d'. Qed.

Lemma octet_spec (s : bytes) :
  octet s = MkPacket ClassUniversal TypePrimitive TagOctetString (VString s) s [].
Proof. apply NewString_spec. Qed.

Lemma context_spec (g : Z) (s : bytes) :
  context g s = MkPacket ClassContext TypePrimitive g (VString s) s [].
Proof. apply NewString_spec. Qed.

Lemma octetString_octet (s : bytes) : octetString (octet s) = Ok s.
Proof. by rewrite octet_spec. Qed.

Lemma rmap_octets (l : list bytes) : rmap octetString (octet <$> l) = Ok l.
Proof. induction l as [|s l IH]; cbn [fmap list_fmap rmap]; [done|]. by rewrite octetString_octet, IH. Qed.

Lemma contextString_context (g : Z) (s : bytes) : contextString (context g s) g = Ok s.
Proof. unfold contextString, shape. rewrite context_spec. cbn. by rewrite Z.eqb_refl. Qed.

Lemma ldapBool_boolean (b : bool) : ldapBool (boolean b) = Ok b.
Proof.
  unfold ldapBool, boolean, shape.
  destruct (NewLDAPBoolean_spec ClassUniversal TypePrimitive TagBoolean b) as [v ->].
  by destruct b.
Qed.

Lemma int_packet (g v lo hi : Z) :
  0 ≤ v ≤ maxInt32 → lo ≤ v ≤ hi →
  ∃ p, NewInteger ClassUniversal TypePrimitive g v = p ∧
    ClassType p = ClassUniversal ∧ TagType p = TypePrimitive ∧ Tag p = g ∧ intInRange p lo hi = Ok v.
Proof.
  intros Hv Hr. unfold maxInt32 in Hv.
  destruct (NewInteger_spec ClassUniversal TypePrimitive g v ltac:(lia)) as (d & -> & Hd & _).
  eexists. split; [reflexivity|]. do 3 (split; [done|]).
  unfold intInRange, packetInt. cbn [Data Ber.Value mbind res_bind].
  rewrite (proj2 (Nat.eqb_neq _ _)), (proj2 (Nat.ltb_ge _ _)) by lia. cbn [orb mbind res_bind].
  by rewrite (proj2 (Z.ltb_ge v lo)), (proj2 (Z.ltb_ge hi v)) by lia.
Qed.

Lemma decodeEnum_enumerated (v lo hi : Z) :
  0 ≤ v ≤ maxInt32 → lo ≤ v ≤ hi → decodeEnum (enumerated v) lo hi = Ok v.
Proof.
  intros Hv Hr. unfold decodeEnum, enumerated.
  destruct (int_packet TagEnumerated v lo hi Hv Hr) as (p & -> & Hc & Ht & Hg & Hi).
  by rewrite (proj2 (shape_ok _ _ _ _ ())).
Qed.

Lemma decodeIntField_integer (v lo hi : Z) :
  0 ≤ v ≤ maxInt32 → lo ≤ v ≤ hi → decodeIntField (integer v) lo hi = Ok v.
Proof.
  intros Hv Hr. unfold decodeIntField, integer.
  destruct (int_packet TagInteger v lo hi Hv Hr) as (p & -> & Hc & Ht & Hg & Hi).
  by rewrite (proj2 (shape_ok _ _ _ _ ())).
Qed.

Lemma shape_integer (v : Z) :
  0 ≤ v ≤ maxInt32 → shape (integer v) ClassUniversal TypePrimitive TagInteger = Ok ().
Proof.
  intros Hv. unfold integer.
  destruct (int_packet TagInteger v v v Hv ltac:(lia)) as (p & -> & Hc & Ht & Hg & Hi).
  by apply shape_ok.
Qed.

Lemma intInRange_integer (v lo hi : Z) :
  0 ≤ v ≤ maxInt32 → lo ≤ v ≤ hi → intInRange (integer v) lo hi = Ok v.
Proof.
  intros Hv Hr. unfold integer.
  by destruct (int_packet TagInteger v lo hi Hv Hr) as (p & -> & Hc & Ht & Hg & Hi).
Qed.

(** Exposes the packets of the goal as [MkPacket] terms and reduces. *)
Ltac nodes :=
  repeat match goal with
  | |- context [append_all (EncodeNil ?c ?t ?g) ?l] =>
      let d := fresh "d" in let E := fresh "E" in
      destruct (node_nil c t g l) as [d E]; rewrite E; clear E
  | |- context [append_all NewSequence ?l] =>
      let d := fresh "d" in let E := fresh "E" in
      destruct (node_seq l) as [d E]; rewrite E; clear E
  end.

Ltac csimpl' :=
  cbn [ClassType TagType Tag Data Children Ber.Value mbind res_bind shape ensure length
       Nat.leb Nat.ltb Nat.eqb app rmap fmap list_fmap negb];
  rewrite ?octetString_octet, ?contextString_context, ?ldapBool_boolean;
  cbn [mbind res_bind].

(** * Filters *)

Lemma decodeAVA_encodeAVA (a v : bytes) (g : Z) :
  a ≠ [] → decodeAVA (encodeAVA a v g) = Ok (a, v).
Proof.
  intros Ha. unfold encodeAVA, decodeAVA. nodes. csimpl'.
  rewrite (proj2 (beq_false a [])) by done. csimpl'. unfold octetBytes. by csimpl'.
Qed.

Lemma encodeAVA_node (a v : bytes) (g : Z) :
  ∃ d l, encodeAVA a v g = MkPacket ClassContext TypeConstructed g VNil d l.
Proof. unfold encodeAVA. nodes. eauto. Qed.

Lemma decode_ava_leaf (a v : bytes) (g : Z) :
  a ≠ [] → (g = tagFilterEquality ∨ g = tagFilterGE ∨ g = tagFilterLE ∨ g = tagFilterApprox) →
  decodeFilter (encodeAVA a v g) =
    Ok (if g =? tagFilterEquality then FilterEquality a v
        else if g =? tagFilterGE then FilterGreaterOrEqual a v
        else if g =? tagFilterLE then FilterLessOrEqual a v
        else FilterApproxMatch a v).
Proof.
  intros Ha Hg. pose proof (decodeAVA_encodeAVA a v g Ha) as HA.
  destruct (encodeAVA_node a v g) as (d & l & E). rewrite E in *. cbn [decodeFilter]. rewrite HA.
  by destruct Hg as [->|[->|[->| ->]]].
Qed.

Lemma substring_choices_any (i : option bytes) (n m : list bytes) (f : option bytes) (l : list Packet) :
  rfold decodeSubstringChoice (i, n, f) ((context 1 <$> m) ++ l) =
  rfold decodeSubstringChoice (i, n ++ m, f) l.
Proof.
  revert n. induction m as [|s m IH]; intros n; cbn [fmap list_fmap app rfold]; [by rewrite app_nil_r|].
  rewrite context_spec.
  change (rfold decodeSubstringChoice (i, n ++ [s], f) ((context 1 <$> m) ++ l) =
    rfold decodeSubstringChoice (i, n ++ s :: m, f) l).
  by rewrite IH, <- app_assoc.
Qed.

Lemma substring_choices (i : option bytes) (n : list bytes) (f : option bytes) :
  rfold decodeSubstringChoice (None, [], None)
    (match i with Some s => [context 0 s] | None => [] end ++ (context 1 <$> n) ++
     match f with Some s => [context 2 s] | None => [] end) = Ok (i, n, f).
Proof.
  assert (H : ∀ i', rfold decodeSubstringChoice (i', [], None) ((context 1 <$> n) ++
     match f with Some s => [context 2 s] | None => [] end) = Ok (i', n, f)).
  { intros i'. rewrite substring_choices_any. destruct f; [|done].
    cbn [rfold]. by rewrite context_spec. }
  destruct i; cbn [app]; [|apply H]. cbn [rfold]. rewrite context_spec.
  cbn. apply H.
Qed.

Lemma decode_substrings (a : bytes) (i : option bytes) (n : list bytes) (f : option bytes) (p : Packet) :
  a ≠ [] → encodeSubstrings a i n f = Ok p → decodeFilter p = Ok (FilterSubstrings a i n f).
Proof.
  intros Ha H. unfold encodeSubstrings in H.
  assert (Hne : match i with Some s => [context 0 s] | None => [] end ++ (context 1 <$> n) ++
     match f with Some s => [context 2 s] | None => [] end ≠ []) by by destruct i, n, f.
  assert (Hp : p = append_all (EncodeNil ClassContext TypeConstructed tagFilterSubstrings)
    [octet a; append_all NewSequence (match i with Some s => [context 0 s] | None => [] end ++
       (context 1 <$> n) ++ match f with Some s => [context 2 s] | None => [] end)])
    by (destruct i, n, f; congruence).
  subst p. clear H. nodes. cbn [decodeFilter]. cbn. unfold decodeSubstringFilter. csimpl'.
  rewrite (proj2 (beq_false a [])) by done. csimpl'. cbn [shape]. unfold shape. csimpl'. cbn [bool_decide].
  rewrite (proj2 (Nat.eqb_neq _ _)).
  - cbn. by rewrite substring_choices.
  - intros Hl. apply Hne. by apply length_zero_iff_nil.
Qed.

Lemma decode_encodeFilter (f : Filter) : ∀ (n : nat) (p : Packet),
  valid_filter f = true → encodeFilter f n = Ok p → decodeFilter p = Ok f.
Proof.
  assert (Hl : ∀ l n ps, Forall (λ f, ∀ n p, valid_filter f = true → encodeFilter f n = Ok p →
      decodeFilter p = Ok f) l → forallb valid_filter l = true →
      rmap (λ c, encodeFilter c (S n)) l = Ok ps → rmap decodeFilter ps = Ok l).
  { intros l n ps IH Hv H. apply rmap_ok in H. apply rmap_ok.
    induction H as [|x y l ps Hxy _ IHl]; [constructor|].
    inversion IH; subst. cbn in Hv. bprop. constructor; eauto. }
  induction f using Filter_ind'; intros k p Hv Hp; cbn [encodeFilter valid_filter] in Hv, Hp;
    destruct (maxEncodeFilterDepth <? k)%nat; try discriminate; inv_ok; bprop;
    subst; try (eapply Hl in Hv0; [|done..]).
  - nodes. cbn. by rewrite Hv0.
  - nodes. cbn. by rewrite Hv0.
  - eapply IHf in Hv0; [|done].
    destruct (AppendChild_spec (EncodeNil ClassContext TypeConstructed tagFilterNot) v) as [d ->].
    rewrite EncodeNil_spec. cbn. by rewrite Hv0.
  - apply decode_ava_leaf; auto.
  - by eapply decode_substrings.
  - rewrite context_spec. cbn -[beq].
    rewrite <- context_spec, contextString_context, bool_decide_eq_true_2 by done. cbn -[beq].
    by rewrite (proj2 (beq_false a [])) by done.
  - rewrite decode_ava_leaf by auto. done.
  - rewrite decode_ava_leaf by auto. done.
  - rewrite decode_ava_leaf by auto. done.
Qed.

(** * Attributes, changes and controls *)

Lemma node_parts (c : Class_) (t : Type_) (g : Z) (l : list Packet) (p : Packet) :
  node c t g l p → shape p c t g = Ok () ∧ Children p = l ∧ TagType p = t ∧ ClassType p = c ∧ Tag p = g.
Proof. intros [d ->]. split_and!; try done. by apply shape_ok. Qed.

(** Rewrites a decoder applied to a node by what the node holds. *)
Ltac node_step H :=
  let Hs := fresh "Hs" in let Hc := fresh "Hc" in let Ht := fresh "Ht" in
  destruct (node_parts _ _ _ _ _ H) as (Hs & Hc & Ht & _ & _);
  rewrite ?Hs; cbn [mbind res_bind]; rewrite ?Hc, ?Ht; cbn [mbind res_bind]; clear Hs Hc Ht.

Lemma rmap_roundtrip {A C} (enc : A → res codec_err C) (dec : C → res codec_err A) (l : list A) (ps : list C) :
  (∀ a p, a ∈ l → enc a = Ok p → dec p = Ok a) → rmap enc l = Ok ps → rmap dec ps = Ok l.
Proof.
  intros H He. apply rmap_ok in He. apply rmap_ok.
  induction He as [|x y l ps Hxy _ IH]; constructor.
  - apply H; [left | done].
  - apply IH. intros. apply H; [by right | done].
Qed.

Lemma decode_encodeAttribute (a : Attribute) (p : Packet) :
  encodeAttribute a = Ok p → decodeAttribute p = Ok a.
Proof.
  unfold encodeAttribute. destruct (beq (Name a) []) eqn:E; [done|]. intros [= <-].
  unfold decodeAttribute. node_step (node_seq [octet (Name a);
     append_all (EncodeNil ClassUniversal TypeConstructed TagSet) (octet <$> AttrValues a)]).
  rewrite octetString_octet. cbn [mbind res_bind]. rewrite E. cbn [negb ensure mbind res_bind].
  node_step (node_nil ClassUniversal TypeConstructed TagSet (octet <$> AttrValues a)).
  unfold octetBytes. rewrite rmap_octets. by destruct a.
Qed.

Lemma decode_encodeAttributes (l : list Attribute) (p : Packet) (n : nat) :
  (n ≤ length l)%nat → encodeAttributes l = Ok p → decodeAttributes p n = Ok l.
Proof.
  intros Hn H. unfold encodeAttributes in H. inv_ok. subst p. unfold decodeAttributes.
  node_step (node_seq v). rewrite (rmap_length _ _ _ Hv), (proj2 (Nat.ltb_ge _ _)) by done.
  cbn [negb ensure mbind res_bind]. eapply rmap_roundtrip; [|done].
  intros. by apply decode_encodeAttribute.
Qed.

Lemma range_guard {A} (lo hi x : Z) (e : codec_err) (m : res codec_err A) (a : A) :
  (if (x <? lo) || (hi <? x) then Err e else m) = Ok a → lo ≤ x ≤ hi ∧ m = Ok a.
Proof. destruct (_ || _) eqn:E; [done|]. intros ->. bprop. split; [lia | done]. Qed.

Lemma decode_encodeModifyChange (ch : ModifyChange) (p : Packet) :
  encodeModifyChange ch = Ok p → decodeModifyChange p = Ok ch.
Proof.
  unfold encodeModifyChange. intros [Hr H]%range_guard. inv_ok. subst p.
  unfold decodeModifyChange. node_step (node_seq [enumerated (ChOp ch); v]).
  unfold ModifyAdd, ModifyReplace, maxInt32 in *.
  rewrite decodeEnum_enumerated by (unfold maxInt32; lia). cbn [mbind res_bind].
  rewrite (decode_encodeAttribute _ _ Hv). by destruct ch.
Qed.

Lemma ctrl_crit (c : Control) (b : bool) (l : list Packet) :
  rfold decodeControlField c (boolean b :: l) = rfold decodeControlField (MkControl (OID c) b (CtrlValue c)) l.
Proof.
  cbn [rfold]. pose proof (ldapBool_boolean b) as H. unfold decodeControlField, boolean in *.
  destruct (NewLDAPBoolean_spec ClassUniversal TypePrimitive TagBoolean b) as [v E].
  rewrite E in *. cbn [ClassType Tag]. rewrite bool_decide_eq_true_2 by done. cbn [andb].
  rewrite Z.eqb_refl. by rewrite H.
Qed.

Lemma ctrl_value (c : Control) (s : bytes) :
  s ≠ [] → rfold decodeControlField c [octet s] = Ok (MkControl (OID c) (Critical c) s).
Proof.
  intros Hs. cbn [rfold]. unfold decodeControlField.
  unfold octetBytes. rewrite octetString_octet, octet_spec. cbn [ClassType Tag].
  rewrite bool_decide_eq_true_2 by done. cbn [mbind res_bind andb Z.eqb TagOctetString TagBoolean Pos.eqb].
  by rewrite (proj2 (beq_false s [])) by done.
Qed.

Lemma decode_encodeControl (c : Control) (p : Packet) :
  encodeControl c = Ok p → decodeControl p = Ok c.
Proof.
  unfold encodeControl. destruct (beq (OID c) []) eqn:E; [done|]. intros [= <-].
  destruct c as [oid crit val]; cbn [OID Critical CtrlValue] in *.
  unfold decodeControl.
  match goal with |- context [append_all NewSequence ?l] => node_step (node_seq l) end.
  cbn [app]. rewrite (proj2 (Nat.leb_le _ _)) by (destruct crit, val; cbn; lia).
  cbn [ensure mbind res_bind]. rewrite octetString_octet. cbn [mbind res_bind]. rewrite E.
  cbn [negb ensure mbind res_bind].
  assert (Hv : ∀ b, rfold decodeControlField (MkControl oid b [])
     (if negb (length val =? 0)%nat then [octet val] else []) = Ok (MkControl oid b val)).
  { intros b. destruct val; [done|]. by apply ctrl_value. }
  destruct crit; cbn [app]; [rewrite ctrl_crit|]; apply Hv.
Qed.

Lemma decode_encodeControls (l : list Control) (p : Packet) :
  encodeControls l = Ok p → decodeControls p = Ok l.
Proof.
  intros H. unfold encodeControls in H. inv_ok. subst p. unfold decodeControls.
  node_step (node_nil ClassContext TypeConstructed 0 v).
  eapply rmap_roundtrip; [|done]. intros. by apply decode_encodeControl.
Qed.

(** * Results *)

Definition result_fields (r : Result) : list Packet :=
  [enumerated (Code r); octet (MatchedDN r); octet (DiagnosticMessage r)].

Lemma decodeResultFields_node (g : Z) (r : Result) (extra : list Packet) (p : Packet) :
  valid_result r = true → node ClassApplication TypeConstructed g (result_fields r ++ extra) p →
  Forall (λ x, Tag x ≠ tagResultReferral) extra →
  decodeResultFields p = Ok (r, extra).
Proof.
  intros Hr Hp Hx. unfold decodeResultFields. node_step Hp.
  rewrite bool_decide_eq_true_2 by done. cbn [ensure mbind res_bind result_fields app].
  unfold valid_result, in_range in Hr. bprop.
  rewrite decodeEnum_enumerated by lia. cbn [mbind res_bind]. rewrite !octetString_octet.
  cbn [mbind res_bind]. rewrite filter_keep; [by destruct r|].
  eapply Forall_impl; [exact Hx|]. cbn. intros x Hg [_ E]. done.
Qed.

Lemma node_result (g : Z) (r : Result) (l : list Packet) :
  node ClassApplication TypeConstructed g (result_fields r ++ l) (append_all (encodeResultOp g r) l).
Proof. apply node_append, node_nil. Qed.

Lemma append_all_nil (p : Packet) : append_all p [] = p.
Proof. done. Qed.

Lemma decode_encodeResultOp (g : Z) (r : Result) :
  valid_result r = true →
  decodeDone (encodeResultOp g r) = Ok r ∧
  shape (encodeResultOp g r) ClassApplication TypeConstructed g = Ok ().
Proof.
  intros Hr. pose proof (node_result g r []) as Hn. rewrite append_all_nil in Hn. split.
  - unfold decodeDone. by rewrite (decodeResultFields_node g r [] _ Hr Hn).
  - by eapply node_parts.
Qed.

(** * Operations *)

Definition op_packet (op : Operation) (p : Packet) : Prop :=
  ClassType p = ClassApplication ∧ Tag p = OpCode op ∧ decodeOp p = Ok (canonical_op op).

(** A packet with the operation's identifier is decoded by the operation's decoder. *)
Lemma op_packet_intro (op : Operation) (p : Packet) (t : Type_)
    (dec : Packet → res codec_err Operation) :
  shape p ClassApplication t (OpCode op) = Ok () →
  (∀ q, Tag q = OpCode op → decodeOp q = dec q) → dec p = Ok (canonical_op op) → op_packet op p.
Proof.
  intros Hs Hd H. apply shape_ok in Hs as (Hc & _ & Hg). split_and!; [done..|]. by rewrite Hd.
Qed.

Lemma node_app (g : Z) (l : list Packet) :
  node ClassApplication TypeConstructed g l (append_all (application g) l).
Proof. apply node_nil. Qed.

(** Enters the decoder [dec] of a constructed operation packet. *)
Ltac enter_op dec :=
  match goal with |- op_packet _ (append_all (application ?g) ?l) =>
    let Hn := fresh "Hn" in
    pose proof (node_app g l) as Hn;
    apply (op_packet_intro _ _ TypeConstructed dec);
    [ by eapply node_parts
    | intros ? Hdisp; unfold decodeOp; rewrite Hdisp; reflexivity
    | unfold dec; node_step Hn ]
  end.

Lemma op_search (r : SearchRequest) (p : Packet) :
  valid_filter (SFilter r) = true → encodeSearchRequest r = Ok p → op_packet (OpSearch r) p.
Proof.
  intros Hv H. unfold encodeSearchRequest in H.
  apply range_guard in H as [H1 H]. apply range_guard in H as [H2 H].
  apply range_guard in H as [H3 H]. apply range_guard in H as [H4 H]. inv_ok.
  apply (decode_encodeFilter _ _ _ Hv) in Hv0. subst p.
  enter_op decodeSearchRequest.
  unfold ScopeBaseObject, ScopeChildren, DerefNever, DerefAlways, maxInt32 in *.
  rewrite octetString_octet; cbn [mbind res_bind].
  rewrite !decodeEnum_enumerated by (unfold maxInt32; lia); cbn [mbind res_bind].
  rewrite !decodeIntField_integer by (unfold maxInt32; lia); cbn [mbind res_bind].
  rewrite ldapBool_boolean; cbn [mbind res_bind]. rewrite Hv0; cbn [mbind res_bind].
  node_step (node_seq (octet <$> SAttributes r)). rewrite rmap_octets. by destruct r.
Qed.

Lemma op_bind (v : Z) (n pw : bytes) (p : Packet) :
  encodeBindRequest v n pw = Ok p → op_packet (BindRequest v n pw) p.
Proof.
  intros H. unfold encodeBindRequest in H. apply range_guard in H as [H1 H]. injection H as <-.
  enter_op decodeBindRequest.
  rewrite shape_integer by (unfold maxInt32; lia); cbn [mbind res_bind].
  rewrite intInRange_integer by (unfold maxInt32; lia); cbn [mbind res_bind].
  rewrite octetString_octet; cbn [mbind res_bind]. by rewrite context_spec.
Qed.

Lemma op_add (dn : bytes) (l : list Attribute) (p : Packet) :
  encodeAddRequest dn l = Ok p → op_packet (AddRequest dn l) p.
Proof.
  intros H. unfold encodeAddRequest in H. destruct (length l =? 0)%nat eqn:El; [done|]. inv_ok. subst p.
  enter_op decodeAddRequest. rewrite octetString_octet; cbn [mbind res_bind].
  apply Nat.eqb_neq in El. by rewrite (decode_encodeAttributes l _ 1) by (done || lia).
Qed.

Lemma op_entry (dn : bytes) (l : list Attribute) (p : Packet) :
  encodeSearchResultEntry dn l = Ok p → op_packet (SearchResultEntry dn l) p.
Proof.
  intros H. unfold encodeSearchResultEntry in H. inv_ok. subst p.
  enter_op decodeSearchResultEntry. rewrite octetString_octet; cbn [mbind res_bind].
  by rewrite (decode_encodeAttributes l _ 0) by (done || lia).
Qed.

Lemma op_modify (dn : bytes) (l : list ModifyChange) (p : Packet) :
  encodeModifyRequest dn l = Ok p → op_packet (ModifyRequest dn l) p.
Proof.
  intros H. unfold encodeModifyRequest in H. destruct (length l =? 0)%nat eqn:El; [done|]. inv_ok. subst p.
  enter_op decodeModifyRequest. rewrite octetString_octet; cbn [mbind res_bind].
  node_step (node_seq v). rewrite (rmap_length _ _ _ Hv), El. cbn [negb ensure mbind res_bind].
  by rewrite (rmap_roundtrip _ decodeModifyChange l v (λ a p _, decode_encodeModifyChange a p) Hv).
Qed.

Lemma op_modifydn (r : ModifyDNRequest) : op_packet (OpModifyDN r) (encodeModifyDNRequest r).
Proof.
  unfold encodeModifyDNRequest.
  enter_op decodeModifyDNRequest. destruct r as [dn rdn del sup]; cbn [MDN NewRDN DeleteOldRDN NewSuperior app].
  rewrite (proj2 (Nat.leb_le _ _)) by (destruct (negb _); cbn; lia). cbn [ensure mbind res_bind].
  rewrite !octetString_octet; cbn [mbind res_bind].
  rewrite ldapBool_boolean; cbn [mbind res_bind].
  destruct (beq sup []) eqn:E; cbn [negb].
  - apply beq_true in E. by subst sup.
  - by rewrite contextString_context.
Qed.

Lemma op_extended_request (name value : bytes) (p : Packet) :
  encodeExtendedRequest name value = Ok p → op_packet (ExtendedRequest name value) p.
Proof.
  intros H. unfold encodeExtendedRequest in H. destruct (beq name []); [done|]. injection H as <-.
  enter_op decodeExtendedRequest. cbn [app].
  destruct value as [|b value]; cbn [length Nat.eqb negb]; rewrite contextString_context; cbn [mbind res_bind]; [done|].
  by rewrite context_spec.
Qed.

Lemma op_compare (dn attr value : bytes) :
  attr ≠ [] → op_packet (CompareRequest dn attr value) (encodeCompareRequest dn attr value).
Proof.
  intros Ha. unfold encodeCompareRequest. enter_op decodeCompareRequest.
  rewrite octetString_octet; cbn [mbind res_bind]. by rewrite decodeAVA_encodeAVA.
Qed.

Lemma op_unbind : op_packet UnbindRequest (EncodeNil ClassApplication TypePrimitive OpUnbindRequest).
Proof. rewrite EncodeNil_spec. done. Qed.

Lemma op_delete (dn : bytes) :
  op_packet (DeleteRequest dn) (NewString ClassApplication TypePrimitive OpDeleteRequest dn).
Proof. rewrite NewString_spec. done. Qed.

Lemma op_abandon (id : Z) (p : Packet) :
  encodeOp (AbandonRequest id) = Ok p → op_packet (AbandonRequest id) p.
Proof.
  intros H. cbn [encodeOp] in H. apply range_guard in H as [Hr H].
  unfold integer in H. unfold maxInt32 in Hr.
  destruct (NewInteger_spec ClassUniversal TypePrimitive TagInteger id ltac:(lia)) as (d & E & Hd & Hp).
  rewrite E, EncodeNil_spec in H. injection H as <-.
  apply (op_packet_intro _ _ TypePrimitive decodeAbandonRequest); [done | |].
  - intros ? Hdisp. unfold decodeOp. by rewrite Hdisp.
  - unfold decodeAbandonRequest. cbn [shape mbind res_bind WriteData Data app].
    rewrite (proj2 (shape_ok _ _ _ _ ())) by done. cbn [mbind res_bind].
    rewrite (proj2 (Nat.eqb_neq _ _)), (proj2 (Nat.ltb_ge _ _)), Hp by lia. cbn [orb].
    by rewrite (proj2 (Z.ltb_ge _ _)), (proj2 (Z.ltb_ge _ _)) by (unfold maxInt32; lia).
Qed.

Lemma op_extended_response (r : Result) (n : bytes) (v : option bytes) :
  valid_result r = true → op_packet (ExtendedResponse r n v) (encodeExtendedResponse r n v).
Proof.
  intros Hr. unfold encodeExtendedResponse.
  match goal with |- op_packet _ (append_all _ ?l) =>
    pose proof (node_result OpExtendedResponse r l) as Hn end.
  apply (op_packet_intro _ _ TypeConstructed decodeExtendedResponse); [by eapply node_parts | |].
  { intros ? Hdisp. unfold decodeOp. by rewrite Hdisp. }
  unfold decodeExtendedResponse.
  destruct (node_parts _ _ _ _ _ Hn) as (-> & _). cbn [mbind res_bind].
  rewrite (decodeResultFields_node _ _ _ _ Hr Hn).
  - cbn [mbind res_bind].
    destruct (beq n []) eqn:E, v as [[|b v]|]; try (apply beq_true in E; subst n);
      cbn [negb app]; rewrite ?context_spec; reflexivity.
  - destruct (negb _), v; cbn [app]; rewrite ?context_spec; repeat constructor; done.
Qed.

Lemma op_bind_response (r : Result) :
  valid_result r = true → op_packet (BindResponse r) (encodeResultOp OpBindResponse r).
Proof.
  intros Hr. pose proof (node_result OpBindResponse r []) as Hn. rewrite append_all_nil in Hn.
  apply (op_packet_intro _ _ TypeConstructed decodeBindResponse); [by eapply node_parts | |].
  { intros ? Hdisp. unfold decodeOp. by rewrite Hdisp. }
  unfold decodeBindResponse.
  destruct (node_parts _ _ _ _ _ Hn) as (-> & _). cbn [mbind res_bind].
  by rewrite (decodeResultFields_node _ _ _ _ Hr Hn).
Qed.

Lemma op_result (op : Operation) (r : Result) :
  valid_result r = true →
  op ∈ [SearchResultDone r; ModifyResponse r; AddResponse r; DeleteResponse r; ModifyDNResponse r;
        CompareResponse r] →
  op_packet op (encodeResultOp (OpCode op) r).
Proof.
  intros Hr Hop.
  destruct (decode_encodeResultOp (OpCode op) r Hr) as [Hd Hs].
  apply (op_packet_intro _ _ TypeConstructed (λ p, decodeResultOp p (OpCode op))); [done | |].
  - intros q Hq. unfold decodeOp. rewrite Hq.
    repeat (apply elem_of_cons in Hop as [->|Hop]; [reflexivity|]). by apply elem_of_nil in Hop.
  - unfold decodeResultOp. rewrite Hs. cbn [mbind res_bind]. rewrite Hd. cbn [mbind res_bind].
    repeat (apply elem_of_cons in Hop as [->|Hop]; [reflexivity|]). by apply elem_of_nil in Hop.
Qed.

Lemma decode_encodeOp (op : Operation) (p : Packet) :
  valid_op op = true → encodeOp op = Ok p → op_packet op p.
Proof.
  destruct op; cbn [valid_op]; intros Hv H;
    try (apply op_abandon; exact H); cbn [encodeOp] in H;
    try (injection H as <-);
    first [ by apply op_bind | by apply op_bind_response | by apply op_unbind | by apply op_search
          | by apply op_entry | by apply op_modify | by apply op_add | by apply op_delete
          | by apply op_modifydn | by apply op_extended_request | by apply op_extended_response
          | bprop; by apply op_compare | apply op_result; [done | set_solver] ].
Qed.

(** * Messages *)

Lemma decode_encodePacket_aux (m : Message) (p : Packet) :
  valid_message m = true → encodePacket m = Ok p → decodeMessage p = Ok (canonical m).
Proof.
  intros Hv H. unfold encodePacket in H. apply range_guard in H as [Hr H]. inv_ok. subst p.
  destruct (decode_encodeOp _ _ Hv Hv0) as (Hc & _ & Hd).
  unfold decodeMessage. cbn [app]. node_step (node_seq (integer (ID m) :: v :: v0)).
  assert (Hl : (length v0 ≤ 1)%nat ∧
    match v0 with [c2] => decodeControls c2 | _ => Ok [] end = Ok (Controls m)).
  { destruct (length (Controls m) =? 0)%nat eqn:El.
    - inv_ok. subst v0. apply Nat.eqb_eq, length_zero_iff_nil in El. rewrite El. cbn. split; [lia|done].
    - inv_ok. subst v0. split; [cbn; lia|]. by apply decode_encodeControls. }
  destruct Hl as [Hl Hcs]. rewrite (proj2 (Nat.leb_le _ _)) by done. cbn [ensure mbind res_bind].
  rewrite shape_integer, intInRange_integer by lia. cbn [mbind res_bind].
  rewrite bool_decide_eq_true_2 by done. cbn [ensure mbind res_bind].
  rewrite Hd. cbn [mbind res_bind]. rewrite Hcs. by destruct m.
Qed.
End codec.

(** C19.  The codec's round trip: a message the encoder accepts, sent as BER and
    parsed back by the BER library into a packet with the same identifiers and
    contents, decodes to the same message (an extended response's present but
    empty value excepted, which reads back as absent). *)
Theorem decode_encodePacket {L : BerLib} {BL : BerLaws L} (m : Message) (p q : Packet) :
  valid_message m = true → encodePacket m = Ok p → wire_eq p q →
  decodeMessage q = Ok (canonical m).
Proof. intros Hv He Hw. rewrite <- (decodeMessage_wire p q Hw). by apply decode_encodePacket_aux. Qed.

Definition sample_message : Message :=
  MkMessage 7
    (OpSearch (MkSearchRequest (B "dc=example,dc=com") ScopeWholeSubtree DerefNever 100 30 false
      (FilterAnd [FilterEquality (B "uid") (B "ada");
                  FilterNot (FilterSubstrings (B "cn") (Some (B "A")) [B "d"; B "a"] None)])
      [B "cn"; B "mail"]))
    [MkControl OIDSimplePagedResults true (B "xx")].

Lemma decode_encodePacket_witness :
  ∃ p, encodePacket sample_message = Ok p ∧ decodeMessage p = Ok sample_message.
Proof.
  destruct (encodePacket sample_message) as [p|e] eqn:E; [|discriminate E].
  exists p. split; [done|].
  exact (decode_encodePacket sample_message p p eq_refl E (wire_eq_refl p)).
Defined.
