(* ===== verification/CodecWf.v ===== *)
(** What the decoder accepts, and what becomes of it when encoded again.

    [wf_message] is the well-formedness the decoder enforces: every bounded
    integer in its range, every attribute description present, no empty change
    or attribute list where the grammar wants one.  The encoder accepts every
    such message but for two of its own limits, collected in [encodable]. *)

From S2P Require Import Prelude GoStrings DN Message Ber Decode Encode WireFacts CodecFacts.
Local Open Scope Z_scope.

(** * Well-formed messages *)

Fixpoint wf_filter (f : Filter) : bool :=
  match f with
  | FilterAnd l | FilterOr l => forallb wf_filter l
  | FilterNot g => wf_filter g
  | FilterSubstrings a i n g =>
    negb (beq a []) && negb (bool_decide (i = None) && bool_decide (n = []) && bool_decide (g = None))
  | FilterEquality a _ | FilterPresent a
  | FilterGreaterOrEqual a _ | FilterLessOrEqual a _ | FilterApproxMatch a _ => negb (beq a [])
  end.

Definition wf_attribute (a : Attribute) : bool := negb (beq (Name a) []).

Definition wf_change (c : ModifyChange) : bool :=
  in_range ModifyAdd ModifyReplace (ChOp c) && wf_attribute (ChAttr c).

Definition wf_search (r : SearchRequest) : bool :=
  in_range ScopeBaseObject ScopeChildren (SScope r) && in_range DerefNever DerefAlways (Deref r) &&
  in_range 0 maxInt32 (SizeLimit r) && in_range 0 maxInt32 (TimeLimit r) && wf_filter (SFilter r).

Definition wf_op (op : Operation) : bool :=
  match op with
  | BindRequest v _ _ => in_range 1 127 v
  | UnbindRequest | DeleteRequest _ | OpModifyDN _ | ExtendedRequest _ _ => true
  | OpSearch r => wf_search r
  | SearchResultEntry _ l => forallb wf_attribute l
  | ModifyRequest _ l => negb (length l =? 0)%nat && forallb wf_change l
  | AddRequest _ l => negb (length l =? 0)%nat && forallb wf_attribute l
  | CompareRequest _ a _ => negb (beq a [])
  | AbandonRequest id => in_range 0 maxInt32 id
  | ExtendedResponse r _ v => valid_result r && negb (bool_decide (v = Some []))
  | BindResponse r | SearchResultDone r | ModifyResponse r | AddResponse r | DeleteResponse r
  | ModifyDNResponse r | CompareResponse r => valid_result r
  end.

Definition wf_control (c : Control) : bool := negb (beq (OID c) []).

Definition wf_message (m : Message) : bool :=
  in_range 0 maxInt32 (ID m) && wf_op (Op m) && forallb wf_control (Controls m).

Fixpoint filter_depth (f : Filter) : nat :=
  match f with
  | FilterAnd l | FilterOr l => S (list_max (map filter_depth l))
  | FilterNot g => S (filter_depth g)
  | _ => 0
  end.

(** The encoder's own limits: its filter depth, and a request name the decoder
    lets be empty. *)
Definition encodable (m : Message) : bool :=
  match Op m with
  | OpSearch r => (filter_depth (SFilter r) <=? maxEncodeFilterDepth)%nat
  | ExtendedRequest n _ => negb (beq n [])
  | _ => true
  end.

(** * The decoder's guards *)

Lemma in_range_ok (lo hi v : Z) : in_range lo hi v = true ↔ lo ≤ v ≤ hi.
Proof. unfold in_range. rewrite andb_true_iff, !Z.leb_le. lia. Qed.

Lemma intInRange_ok (p : Packet) (lo hi v : Z) : intInRange p lo hi = Ok v → in_range lo hi v = true.
Proof.
  intros H. unfold intInRange in H. inv_ok. apply range_guard in H as [H [= <-]]. by apply in_range_ok.
Qed.

Lemma decodeEnum_ok (p : Packet) (lo hi v : Z) : decodeEnum p lo hi = Ok v → in_range lo hi v = true.
Proof. intros H. unfold decodeEnum in H. inv_ok. by eapply intInRange_ok. Qed.

Lemma decodeIntField_ok (p : Packet) (lo hi v : Z) :
  decodeIntField p lo hi = Ok v → in_range lo hi v = true.
Proof. intros H. unfold decodeIntField in H. inv_ok. by eapply intInRange_ok. Qed.

#[export] Hint Resolve intInRange_ok decodeEnum_ok decodeIntField_ok : ldap.

Lemma forallb_rmap {A C} (f : A → res codec_err C) (b : C → bool) (l : list A) (r : list C) :
  (∀ x y, x ∈ l → f x = Ok y → b y = true) → rmap f l = Ok r → forallb b r = true.
Proof.
  intros H Hr. apply rmap_ok in Hr. induction Hr as [|x y l r Hxy _ IH]; [done|].
  cbn. rewrite (H x y) by (done || left). apply IH. intros. eapply H; [by right | done].
Qed.

(** Splits a decoder equation at its matches on the children. *)
Ltac split_children :=
  repeat match goal with
  | H : match ?l with [] => _ | _ => _ end = Ok _ |- _ => is_var l; destruct l; try discriminate H
  | H : match Children ?p with _ => _ end = Ok _ |- _ =>
      destruct (Children p); try discriminate H
  | p : _ * _ |- _ => destruct p
  end.

Ltac dec := repeat (inv_ok; split_children); inv_ok; subst.

Lemma decodeResultFields_ok (p : Packet) (r : Result) (l : list Packet) :
  decodeResultFields p = Ok (r, l) → valid_result r = true.
Proof. intros H. unfold decodeResultFields in H. dec. cbn. by eapply decodeEnum_ok. Qed.

Lemma decodeDone_ok (p : Packet) (r : Result) : decodeDone p = Ok r → valid_result r = true.
Proof. intros H. unfold decodeDone in H. dec. by eapply decodeResultFields_ok. Qed.

Lemma decodeAttribute_ok (p : Packet) (a : Attribute) : decodeAttribute p = Ok a → wf_attribute a = true.
Proof. intros H. unfold decodeAttribute in H. dec. done. Qed.

Lemma decodeAttributes_ok (p : Packet) (n : nat) (l : list Attribute) :
  decodeAttributes p n = Ok l → forallb wf_attribute l = true ∧ (n ≤ length l)%nat.
Proof.
  intros H. unfold decodeAttributes in H. inv_ok. split.
  - eapply forallb_rmap; [|exact H]. intros. by eapply decodeAttribute_ok.
  - rewrite (rmap_length _ _ _ H). bprop. by apply Nat.ltb_ge.
Qed.

Lemma decodeAVA_ok (p : Packet) (a v : bytes) : decodeAVA p = Ok (a, v) → negb (beq a []) = true.
Proof. intros H. unfold decodeAVA in H. by dec. Qed.

Lemma decodeModifyChange_ok (p : Packet) (c : ModifyChange) :
  decodeModifyChange p = Ok c → wf_change c = true.
Proof.
  intros H. unfold decodeModifyChange in H. dec. unfold wf_change. cbn [ChOp ChAttr].
  by erewrite decodeEnum_ok, decodeAttribute_ok by done.
Qed.

Definition no_choice (st : option bytes * list bytes * option bytes) : bool :=
  let '(i, n, g) := st in
  bool_decide (i = None) && bool_decide (n = []) && bool_decide (g = None).

Lemma substring_choice_some st p st' :
  decodeSubstringChoice st p = Ok st' → no_choice st' = false.
Proof.
  destruct st as [[i n] f]. unfold decodeSubstringChoice.
  repeat case_match; try done; intros [= <-]; cbn [no_choice].
  - by rewrite bool_decide_eq_false_2.
  - rewrite (bool_decide_eq_false_2 (n ++ _ = [])) by (by destruct n). by rewrite andb_false_r.
  - rewrite (bool_decide_eq_false_2 (Some _ = None)) by done. by rewrite andb_false_r.
Qed.

Lemma substring_choices_some l st st' :
  rfold decodeSubstringChoice st l = Ok st' → l ≠ [] → no_choice st' = false.
Proof.
  revert st. induction l as [|p l IH]; intros st H Hl; [done|]. cbn in H. inv_ok.
  destruct l; [|by eapply IH]. cbn in H. injection H as <-. by eapply substring_choice_some.
Qed.

Lemma decodeSubstringFilter_ok (p : Packet) (f : Filter) : decodeSubstringFilter p = Ok f → wf_filter f = true.
Proof.
  intros H. unfold decodeSubstringFilter in H. dec. cbn [wf_filter].
  match goal with
  | Hr : rfold _ _ _ = Ok _, Ha : negb (beq _ _) = true |- _ =>
      rewrite Ha; apply substring_choices_some in Hr; [by cbn in Hr; rewrite Hr|]
  end.
  bprop. by intros E; rewrite E in *.
Qed.

Lemma decodeFilter_ok (p : Packet) : ∀ f, decodeFilter p = Ok f → wf_filter f = true.
Proof.
  induction p as [c t g v d l IH] using Packet_ind'. intros f H. cbn [decodeFilter] in H.
  assert (Hl : ∀ fs, rmap decodeFilter l = Ok fs → forallb wf_filter fs = true).
  { intros fs Hfs. eapply forallb_rmap; [|exact Hfs]. rewrite Forall_forall in IH. eauto. }
  destruct (negb _); [done|]. destruct (_ || _).
  { destruct (negb _); [done|]. inv_ok. subst. destruct (g =? tagFilterAnd); by apply Hl. }
  destruct (_ =? _).
  { destruct t; [done|]. destruct l as [|c0 []]; try done. inv_ok. subst.
    inversion IH; subst. cbn. eauto. }
  destruct (_ || _).
  { inv_ok. destruct v0 as [a w]. apply decodeAVA_ok in Hv. inv_ok. subst.
    repeat destruct (_ =? _); done. }
  destruct (_ =? _); [inv_ok; by subst|].
  destruct (_ =? _); [by eapply decodeSubstringFilter_ok|]. by destruct (_ =? _).
Qed.

Lemma decodeControlField_OID c p c' : decodeControlField c p = Ok c' → OID c' = OID c.
Proof. unfold decodeControlField. repeat case_match; intros Hd; inv_ok; subst; try done. by destruct (negb _). Qed.

Lemma decodeControlFields_OID l c c' : rfold decodeControlField c l = Ok c' → OID c' = OID c.
Proof.
  revert c. induction l as [|x l IH]; intros c Hr; cbn in Hr; inv_ok; [by subst|].
  rewrite (IH _ Hr). by eapply decodeControlField_OID.
Qed.

Lemma decodeControl_ok (p : Packet) (c : Control) : decodeControl p = Ok c → wf_control c = true.
Proof.
  intros H. unfold decodeControl in H. inv_ok. destruct (Children p); [done|]. inv_ok.
  unfold wf_control. by rewrite (decodeControlFields_OID _ _ _ H).
Qed.

(** * Operations *)

Section wf.
Context {L : BerLib}.

Lemma decodeSearchRequest_ok (p : Packet) (op : Operation) : decodeSearchRequest p = Ok op → wf_op op = true.
Proof.
  intros H. unfold decodeSearchRequest in H. dec. cbn. unfold wf_search. cbn.
  unfold ScopeBaseObject, DerefNever.
  repeat match goal with
  | E : decodeEnum _ _ _ = Ok _ |- _ => apply decodeEnum_ok in E; rewrite E
  | E : decodeIntField _ _ _ = Ok _ |- _ => apply decodeIntField_ok in E; rewrite E
  | E : decodeFilter _ = Ok _ |- _ => apply decodeFilter_ok in E; rewrite E
  end. done.
Qed.

Lemma decodeModifyRequest_ok (p : Packet) (op : Operation) : decodeModifyRequest p = Ok op → wf_op op = true.
Proof.
  intros H. unfold decodeModifyRequest in H. dec. cbn.
  match goal with Hr : rmap _ _ = Ok _ |- _ =>
    rewrite (rmap_length _ _ _ Hr); eapply forallb_rmap in Hr; [rewrite Hr|] end.
  - rewrite andb_true_r. done.
  - intros. by eapply decodeModifyChange_ok.
Qed.

Lemma decodeExtendedExtra_ok st p st' :
  decodeExtendedExtra st p = Ok st' → st.2 ≠ Some [] → st'.2 ≠ Some [].
Proof.
  destruct st as [n v]. unfold decodeExtendedExtra. repeat case_match; intros Hd Hv; inv_ok; subst; try done.
  cbn. by destruct (Data p).
Qed.

Lemma decodeExtendedExtras_ok l st st' :
  rfold decodeExtendedExtra st l = Ok st' → st.2 ≠ Some [] → st'.2 ≠ Some [].
Proof.
  revert st. induction l as [|x l IH]; intros st Hr Hs; cbn in Hr; inv_ok; [by subst|].
  eapply IH; [done|]. by eapply decodeExtendedExtra_ok.
Qed.

Lemma decodeExtendedResponse_ok (p : Packet) (op : Operation) :
  decodeExtendedResponse p = Ok op → wf_op op = true.
Proof.
  intros H. unfold decodeExtendedResponse in H. dec. cbn.
  erewrite decodeResultFields_ok by done.
  match goal with Hr : rfold _ _ _ = Ok _ |- _ => apply decodeExtendedExtras_ok in Hr; [|done] end.
  by rewrite bool_decide_eq_false_2.
Qed.

Lemma decodeAbandonRequest_ok (p : Packet) (op : Operation) :
  decodeAbandonRequest p = Ok op → wf_op op = true.
Proof.
  intros H. unfold decodeAbandonRequest, malformed in H. inv_ok. repeat case_match; try done.
  inv_ok. subst. cbn. apply in_range_ok. bprop. lia.
Qed.

Lemma decodeResultOp_ok (p : Packet) (c : Z) (op : Operation) : decodeResultOp p c = Ok op → wf_op op = true.
Proof.
  intros H. unfold decodeResultOp, malformed in H. inv_ok. apply decodeDone_ok in Hv0.
  repeat case_match; inv_ok; subst; done.
Qed.

Lemma decodeOp_ok (p : Packet) (op : Operation) : decodeOp p = Ok op → wf_op op = true.
Proof.
  unfold decodeOp. intros H.
  repeat (case_match; [first [ by eapply decodeResultOp_ok | by eapply decodeSearchRequest_ok
    | by eapply decodeModifyRequest_ok | by eapply decodeExtendedResponse_ok
    | by eapply decodeAbandonRequest_ok | idtac ]|]); try discriminate.
  - unfold decodeBindRequest in H. dec. case_match; [done|]. dec. by eapply intInRange_ok. 
  - unfold decodeBindResponse in H. dec. by eapply decodeResultFields_ok.
  - unfold decodeUnbind in H. by dec.
  - unfold decodeSearchResultEntry in H. dec. by eapply decodeAttributes_ok.
  - unfold decodeAddRequest in H. dec. cbn.
    match goal with Hr : decodeAttributes _ _ = Ok _ |- _ => apply decodeAttributes_ok in Hr as [-> Hn] end.
    rewrite andb_true_r. by destruct v1; [cbn in Hn; lia|].
  - unfold decodeDeleteRequest in H. by dec.
  - unfold decodeModifyDNRequest in H. by dec.
  - unfold decodeCompareRequest in H. dec. by eapply decodeAVA_ok.
  - unfold decodeExtendedRequest in H. by dec.
Qed.

Lemma decodeMessage_wf_aux (p : Packet) (m : Message) : decodeMessage p = Ok m → wf_message m = true.
Proof.
  intros H. unfold decodeMessage in H. inv_ok. destruct (Children p) as [|c0 [|c1 opt]]; try done. inv_ok.
  subst. unfold wf_message. cbn [ID Op Controls].
  rewrite (intInRange_ok _ _ _ _ Hv2), (decodeOp_ok _ _ Hv4). cbn [andb].
  destruct opt as [|c2 [|]]; inv_ok; subst; try done.
  unfold decodeControls in Hv5. inv_ok. eapply forallb_rmap; [|exact Hv5].
  intros. by eapply decodeControl_ok.
Qed.
End wf.

(** * The encoder accepts what the decoder produced *)

Lemma wf_valid_filter (f : Filter) : wf_filter f = true → valid_filter f = true.
Proof.
  assert (Hl : ∀ l, Forall (λ f, wf_filter f = true → valid_filter f = true) l →
    forallb wf_filter l = true → forallb valid_filter l = true).
  { induction 1 as [|x l Hx _ IH]; [done|]. cbn. intros [Hwx Hwl]%andb_true_iff.
    by rewrite Hx, IH. }
  induction f using Filter_ind'; cbn; intros Hw; auto.
  by apply andb_true_iff in Hw as [].
Qed.

Lemma wf_message_valid (m : Message) : wf_message m = true → valid_message m = true.
Proof.
  unfold wf_message, valid_message. intros [[_ Ho]%andb_true_iff _]%andb_true_iff.
  destruct (Op m); cbn [wf_op valid_op] in *; try done.
  - unfold wf_search in Ho. apply andb_true_iff in Ho as [_ Ho]. by apply wf_valid_filter.
  - by apply andb_true_iff in Ho as [].
Qed.

Lemma wf_canonical (m : Message) : wf_message m = true → canonical m = m.
Proof.
  unfold wf_message, canonical. intros. bprop. destruct m as [id op cs]; cbn [ID Op Controls] in *.
  f_equal. destruct op as [| | | | | | | | | | | | | | | | | |r n [[|]|]]; try done.
  cbn in H1. by rewrite andb_false_r in H1.
Qed.

Section total.
Context {L : BerLib}.

Lemma encodeFilter_total (f : Filter) : ∀ n : nat,
  wf_filter f = true → (n + filter_depth f ≤ maxEncodeFilterDepth)%nat →
  ∃ p, encodeFilter f n = Ok p.
Proof.
  assert (Hl : ∀ l n, Forall (λ f, ∀ n : nat, wf_filter f = true →
      (n + filter_depth f ≤ maxEncodeFilterDepth)%nat → ∃ p, encodeFilter f n = Ok p) l →
    forallb wf_filter l = true → (n + S (list_max (map filter_depth l)) ≤ maxEncodeFilterDepth)%nat →
    ∃ ps, rmap (λ c, encodeFilter c (S n)) l = Ok ps).
  { intros l n IH Hw Hn. apply rmap_total. intros x Hx. rewrite Forall_forall in IH.
    apply IH; [done | |].
    - by eapply forallb_forall, list_elem_of_In.
    - assert (Hm : (filter_depth x ≤ list_max (map filter_depth l))%nat); [|lia].
      assert (Hf := proj1 (list_max_le _ _) (Nat.le_refl (list_max (map filter_depth l)))).
      rewrite List.Forall_forall in Hf. apply Hf, List.in_map. by apply list_elem_of_In. }
  induction f using Filter_ind'; intros k Hw Hn; cbn [encodeFilter filter_depth wf_filter] in *;
    rewrite (proj2 (Nat.ltb_ge _ _)) by lia; try (by eexists).
  - destruct (Hl l k) as [ps ->]; [done..|]. by eexists.
  - destruct (Hl l k) as [ps ->]; [done..|]. by eexists.
  - destruct (IHf (S k)) as [p ->]; [done | lia|]. by eexists.
  - bprop. unfold encodeSubstrings. destruct i, n, f; first [done | by eexists].
Qed.

Lemma encodeAttribute_total (a : Attribute) : wf_attribute a = true → ∃ p, encodeAttribute a = Ok p.
Proof. unfold wf_attribute, encodeAttribute. destruct (beq _ _); [done | by eexists]. Qed.

Lemma encodeAttributes_total (l : list Attribute) :
  forallb wf_attribute l = true → ∃ p, encodeAttributes l = Ok p.
Proof.
  intros Hw. destruct (rmap_total encodeAttribute l) as [ps Hps].
  - intros x Hx. apply encodeAttribute_total. by eapply forallb_forall, list_elem_of_In.
  - unfold encodeAttributes. rewrite Hps. by eexists.
Qed.

Lemma range_guard_in {A} (lo hi x : Z) (e : codec_err) (m : res codec_err A) :
  in_range lo hi x = true → (if (x <? lo) || (hi <? x) then Err e else m) = m.
Proof.
  rewrite in_range_ok. intros. by rewrite (proj2 (Z.ltb_ge _ _)), (proj2 (Z.ltb_ge _ _)) by lia.
Qed.

Lemma encodeOp_total (op : Operation) :
  wf_op op = true →
  match op with
  | OpSearch r => (filter_depth (SFilter r) <=? maxEncodeFilterDepth)%nat
  | ExtendedRequest n _ => negb (beq n [])
  | _ => true
  end = true → ∃ p, encodeOp op = Ok p.
Proof.
  destruct op; cbn [wf_op encodeOp]; intros Hw He; try (by eexists).
  - unfold encodeBindRequest. rewrite range_guard_in by done. by eexists.
  - unfold wf_search in Hw. bprop. unfold encodeSearchRequest. rewrite !range_guard_in by done.
    destruct (encodeFilter_total (SFilter r) 0) as [p ->]; [done | by apply Nat.leb_le|]. by eexists.
  - destruct (encodeAttributes_total attrs Hw) as [p Hp]. unfold encodeSearchResultEntry.
    rewrite Hp. by eexists.
  - bprop. unfold encodeModifyRequest. rewrite H. destruct (rmap_total encodeModifyChange changes) as [ps ->]; [|by eexists].
    intros c Hc. apply list_elem_of_In in Hc. eapply forallb_forall in Hc; [|done].
    unfold wf_change in Hc. bprop. unfold encodeModifyChange. rewrite range_guard_in by done.
    destruct (encodeAttribute_total (ChAttr c)) as [p ->]; [done|]. by eexists.
  - bprop. unfold encodeAddRequest. rewrite H. destruct (encodeAttributes_total attrs) as [p ->]; [done|]. by eexists.
  - rewrite range_guard_in by done. by eexists.
  - unfold encodeExtendedRequest. destruct (beq name []); [done | by eexists].
Qed.

Lemma encodePacket_total_aux (m : Message) :
  wf_message m = true → encodable m = true → ∃ p, encodePacket m = Ok p.
Proof.
  unfold wf_message, encodable, encodePacket. intros. bprop. rewrite range_guard_in by done.
  destruct (encodeOp_total (Op m)) as [p ->]; [done..|]. cbn [mbind res_bind].
  destruct (length (Controls m) =? 0)%nat; [by eexists|]. unfold encodeControls.
  destruct (rmap_total encodeControl (Controls m)) as [ps ->]; [|by eexists].
  intros c Hc. apply list_elem_of_In in Hc. eapply forallb_forall in Hc; [|done].
  unfold wf_control in Hc. unfold encodeControl. destruct (beq _ _); [done | by eexists].
Qed.
End total.

(** C28.  Every message the decoder accepts is well formed: message and abandon
    identifiers in 0..2^31-1, result codes, enumerations and limits in range,
    attribute descriptions and control OIDs present, change lists non-empty. *)
Theorem decodeMessage_wf {L : BerLib} (p : Packet) (m : Message) :
  decodeMessage p = Ok m → wf_message m = true.
Proof. apply decodeMessage_wf_aux. Qed.

(** A decoded message within the encoder's limits encodes again, and any
    wire-equivalent reading of that encoding decodes to the very same message:
    decoding, encoding and decoding is stable. *)
Theorem reencode_stable {L : BerLib} {BL : BerLaws L} (p : Packet) (m : Message) :
  decodeMessage p = Ok m → encodable m = true →
  ∃ p', encodePacket m = Ok p' ∧ ∀ q, wire_eq p' q → decodeMessage q = Ok m.
Proof.
  intros Hd He. pose proof (decodeMessage_wf_aux p m Hd) as Hw.
  destruct (encodePacket_total_aux m Hw He) as [p' Hp']. exists p'. split; [done|].
  intros q Hq. rewrite <- (decodeMessage_wire p' q Hq), (decode_encodePacket_aux m p'), wf_canonical; auto.
  by apply wf_message_valid.
Qed.

Definition sample_packet : Packet :=
  MkPacket ClassUniversal TypeConstructed TagSequence VNil []
    [MkPacket ClassUniversal TypePrimitive TagInteger (VInt 3) [x03] [];
     MkPacket ClassApplication TypePrimitive OpDeleteRequest VNil (B "uid=ada") []].

Lemma decodeMessage_wf_witness : wf_message (MkMessage 3 (DeleteRequest (B "uid=ada")) []) = true.
Proof. apply (decodeMessage_wf sample_packet). reflexivity. Defined.

Lemma reencode_stable_witness :
  ∃ p', encodePacket (MkMessage 3 (DeleteRequest (B "uid=ada")) []) = Ok p' ∧
    ∀ q, wire_eq p' q → decodeMessage q = Ok (MkMessage 3 (DeleteRequest (B "uid=ada")) []).
Proof. apply (reencode_stable sample_packet); reflexivity. Defined.

(** The compare request's assertion is emitted under a context class although
    RFC 4511 and the comment of [encodeAVA] make it a universal SEQUENCE. *)
Lemma compare_ava_context_class {L : BerLib} {BL : BerLaws L} (dn a v : bytes) :
  ∃ c d, encodeCompareRequest dn a v =
    MkPacket ClassApplication TypeConstructed OpCompareRequest VNil c [octet dn; d] ∧
    ClassType d = ClassContext ∧ Tag d = TagSequence.
Proof.
  unfold encodeCompareRequest. destruct (node_app OpCompareRequest [octet dn; encodeAVA a v TagSequence]) as [c Hc].
  destruct (encodeAVA_node a v TagSequence) as (d & l & Hd).
  exists c, (encodeAVA a v TagSequence). rewrite Hc. split; [done|]. by rewrite Hd.
Qed.
