(* ===== verification/Framing.v ===== *)
(** The framing layer of the codec: [src/internal/ldapserver/codec_ber.go].

    [readFrame] takes one TLV off a stream, [scanTLVs] walks its structure with
    an explicit stack under a depth and an element budget, [ReadMessage] and
    [WriteMessage] put them around the decoder and the encoder.  A reader is the
    octets it will still yield and the error it then reports; every reading
    function returns the reader as it leaves it, on errors too.  Go's [uint64]
    arithmetic wraps ([u64]) and an out-of-range slice expression is the
    [RPanic] outcome. *)

From S2P Require Import Prelude GoStrings Message Ber Decode Encode.
Local Open Scope Z_scope.

(** * The codec's options *)

Record BERCodecOptions : Type := MkBERCodecOptions {
  oMaxPDUBytes : Z;
  oMaxDepth : Z;
  oMaxElements : Z;
}.

Record BERCodec : Type := MkBERCodec { maxPDUBytes : Z; maxDepth : Z; maxElements : Z }.

Definition DefaultMaxPDUBytes : Z := Z.shiftl 1 20.
Definition defaultMaxDepth : Z := 64.
Definition defaultMaxElements : Z := 100000.

Definition NewBERCodec (opts : BERCodecOptions) : BERCodec := {|
  maxPDUBytes := if oMaxPDUBytes opts <=? 0 then DefaultMaxPDUBytes else oMaxPDUBytes opts;
  maxDepth := if oMaxDepth opts <=? 0 then defaultMaxDepth else oMaxDepth opts;
  maxElements := if oMaxElements opts <=? 0 then defaultMaxElements else oMaxElements opts;
|}.

(** * Readers *)

Inductive read_err : Type :=
| RCodec (e : codec_err)
| RNet (** the reader's own error, passed on *)
| RCtx (** [ctx.Err()] *)
| RPanic (** a slice expression out of range *).

(** [rfail = None] is a reader that ends with [io.EOF]. *)
Record Reader : Type := MkReader { rdata : bytes; rfail : option unit }.

Inductive full : Type := FullOk (b : bytes) | FullEOF | FullUnexpectedEOF | FullErr.

(** [io.ReadFull] into a buffer of [n] octets. *)
Definition ReadFull (r : Reader) (n : nat) : full * Reader :=
  if (n <=? length (rdata r))%nat
  then (FullOk (take n (rdata r)), MkReader (drop n (rdata r)) (rfail r))
  else (match rfail r with
        | Some _ => FullErr
        | None => match rdata r with [] => FullEOF | _ => FullUnexpectedEOF end
        end, MkReader [] (rfail r)).

Definition u64 (z : Z) : Z := z mod 2^64.

(** [for _, b := range l { v = v<<8 | uint64(b) }] *)
Definition be_u64 (l : bytes) : Z :=
  fold_left (λ v b, Z.lor (u64 (Z.shiftl v 8)) (bz b)) l 0.

(** The part of [readFrame] after the header: the ceiling, the buffer and the body. *)
Definition readBody (limit : Z) (hdr : bytes) (contentLen : Z) (r : Reader)
    : res read_err bytes * Reader :=
  let hdrLen := blen hdr in
  let total := u64 (hdrLen + contentLen) in
  if limit <? total then (Err (RCodec ErrPDUTooLarge), r)
  else if total <? hdrLen then (Err RPanic, r)
  else
    match ReadFull r (Z.to_nat (total - hdrLen)) with
    | (FullOk body, r') => (Ok (hdr ++ body), r')
    | (FullErr, r') => (Err RNet, r')
    | (_, r') => (Err (RCodec ErrUnexpectedEOF), r')
    end.

Definition readFrame (limit : Z) (r : Reader) : res read_err bytes * Reader :=
  match ReadFull r 2 with
  | (FullEOF, r1) => (Err (RCodec ErrEOF), r1)
  | (FullUnexpectedEOF, r1) => (Err (RCodec ErrUnexpectedEOF), r1)
  | (FullErr, r1) => (Err RNet, r1)
  | (FullOk hdr, r1) =>
    match hdr with
    | [h0; lb] =>
      if negb (bz h0 =? 0x30) then (Err (RCodec ErrMalformedPDU), r1)
      else if bz lb =? 0x80 then (Err (RCodec ErrMalformedPDU), r1)
      else if bz lb =? 0xff then (Err (RCodec ErrMalformedPDU), r1)
      else if Z.land (bz lb) 0x80 =? 0 then readBody limit hdr (bz lb) r1
      else
        let n := Z.to_nat (Z.land (bz lb) 0x7f) in
        if (8 <? n)%nat then (Err (RCodec ErrMalformedPDU), r1)
        else
          match ReadFull r1 n with
          | (FullOk len, r2) => readBody limit (hdr ++ len) (be_u64 len) r2
          | (FullErr, r2) => (Err RNet, r2)
          | (_, r2) => (Err (RCodec ErrUnexpectedEOF), r2)
          end
    | _ => (Err RPanic, r1)
    end
  end.

(** * The structural scan *)

(** The octets of a high tag number, at most [k] more of them. *)
Fixpoint high_tag (k : nat) (first : bool) (tag : Z) (s : bytes) : res codec_err (Z * bytes) :=
  match k, s with
  | O, _ | _, [] => malformed
  | S k', tb :: s' =>
    let tag := Z.lor (u64 (Z.shiftl tag 7)) (Z.land (bz tb) 0x7f) in
    if first && (tag =? 0) then malformed
    else if Z.land (bz tb) 0x80 =? 0 then Ok (tag, s')
    else high_tag k' false tag s'
  end.

(** The length octets; [limit] is the length of the whole buffer. *)
Definition scan_length (limit : nat) (s : bytes) : res codec_err (nat * bytes) :=
  match s with
  | [] => malformed
  | lb :: s' =>
    if bz lb =? 0x80 then malformed
    else if bz lb =? 0xff then malformed
    else if Z.land (bz lb) 0x80 =? 0 then Ok (Z.to_nat (bz lb), s')
    else
      let n := Z.to_nat (Z.land (bz lb) 0x7f) in
      if (8 <? n)%nat then malformed
      else if (length s' <? n)%nat then malformed
      else
        let v := be_u64 (take n s') in
        if Z.of_nat limit <? v then malformed else Ok (Z.to_nat v, drop n s')
  end.

(** Identifier and length of the TLV at the head of [s]: constructed or not, the
    content's length, and what follows the header. *)
Definition scan_header (limit : nat) (s : bytes) : res codec_err (bool * nat * bytes) :=
  match s with
  | [] => malformed
  | b :: s1 =>
    let class := Z.land (bz b) 0xc0 in
    let constructed := negb (Z.land (bz b) 0x20 =? 0) in
    let tag := Z.land (bz b) 0x1f in
    '(tag, s2) ← (if tag =? 0x1f then high_tag 9 true 0 s1 else Ok (tag, s1));
    if (class =? 0) && negb constructed && (tag =? 0) then malformed
    else
      '(len, s3) ← scan_length limit s2;
      Ok (constructed, len, s3)
  end.

(** Offset, end offsets of the enclosing values (innermost first), elements seen. *)
Record scan_state : Type := MkScan { sOff : nat; sStack : list nat; sElements : nat }.

(** [for len(stack) > 0 && off == stack[len(stack)-1]] *)
Fixpoint pop_ends (off : nat) (stack : list nat) : list nat :=
  match stack with
  | e :: stack' => if (off =? e)%nat then pop_ends off stack' else stack
  | [] => []
  end.

(** One round of the loop; [None] is its [return nil]. *)
Definition scan_step (buf : bytes) (maxDepth maxElements : nat) (st : scan_state)
    : res codec_err (option scan_state) :=
  let off := sOff st in
  let stack := pop_ends off (sStack st) in
  if (off =? length buf)%nat then
    if negb (length stack =? 0)%nat then malformed else Ok None
  else if (length stack =? 0)%nat && (0 <? sElements st)%nat then malformed
  else
    let s := drop off buf in
    '(constructed, len, rest) ← scan_header (length buf) s;
    let off := (off + (length s - length rest))%nat in
    let parentEnd := match stack with e :: _ => e | [] => length buf end in
    let end_ := (off + len)%nat in
    if (parentEnd <? end_)%nat then malformed
    else
      let elements := S (sElements st) in
      if (maxElements <? elements)%nat then malformed
      else if (constructed : bool) then
        if (maxDepth <? length stack + 1)%nat then malformed
        else Ok (Some (MkScan off (end_ :: stack) elements))
      else Ok (Some (MkScan end_ stack elements)).

Fixpoint scan_loop (buf : bytes) (maxDepth maxElements : nat) (fuel : nat) (st : scan_state)
    : res codec_err unit :=
  match fuel with
  | O => malformed
  | S fuel' =>
    st' ← scan_step buf maxDepth maxElements st;
    match st' with
    | None => Ok ()
    | Some st' => scan_loop buf maxDepth maxElements fuel' st'
    end
  end.

(** Every round consumes at least two octets, so [length buf] rounds and one to
    return are more than the loop takes. *)
Definition scanTLVs (buf : bytes) (maxDepth maxElements : nat) : res codec_err unit :=
  scan_loop buf maxDepth maxElements (S (length buf)) (MkScan 0 [] 0).

(** * Messages on a stream *)

Section messages.
Context {L : BerLib}.

Definition lift_codec {A} (m : res codec_err A) : res read_err A :=
  match m with
  | Ok a => Ok a
  | Err e => Err (RCodec e)
  end.

(** [done1], [done2]: what [ctx.Err()] reports before the read and after it. *)
Definition ReadMessage (c : BERCodec) (done1 done2 : bool) (r : Reader)
    : res read_err Message * Reader :=
  if done1 then (Err RCtx, r)
  else
    match readFrame (maxPDUBytes c) r with
    | (Err e, r') => (Err e, r')
    | (Ok buf, r') =>
      (if done2 then Err RCtx
       else
         _ ← lift_codec (scanTLVs buf (Z.to_nat (maxDepth c)) (Z.to_nat (maxElements c)));
         match DecodePacketErr buf with
         | None => Err (RCodec ErrMalformedPDU)
         | Some p => lift_codec (decodeMessage p)
         end, r')
    end.

(** A writer answers each [Write] with the number of octets it took and whether
    it failed; the octets it took are what reaches the peer. *)
Inductive write_err : Type := WCodec (e : codec_err) | WNet | WShort | WCtx.

(** One [w.Write]: octets taken, failed, and [ctx.Err()] afterwards. *)
Record WriteCall : Type := MkWriteCall { wn : nat; wfail : bool; wdone : bool }.

Fixpoint write_loop (buf : bytes) (calls : list WriteCall) (sent : bytes)
    : option write_err * bytes :=
  match buf, calls with
  | [], _ => (None, sent)
  | _, [] => (Some WNet, sent)
  | _, w :: calls' =>
    let sent := sent ++ take (wn w) buf in
    if wfail w then (Some WNet, sent)
    else if (wn w =? 0)%nat then (Some WShort, sent)
    else
      let buf' := drop (wn w) buf in
      if wdone w then (Some WCtx, sent) else write_loop buf' calls' sent
  end.

Definition WriteMessage (c : BERCodec) (done : bool) (m : Message) (calls : list WriteCall)
    : option write_err * bytes :=
  if done then (Some WCtx, [])
  else
    match encodeMessage m with
    | Err e => (Some (WCodec e), [])
    | Ok buf =>
      if maxPDUBytes c <? blen buf then (Some (WCodec ErrPDUTooLarge), [])
      else write_loop buf calls []
    end.

End messages.
