(* ===== verification/FramingFacts.v ===== *)
(** Facts of the framing layer: what [readFrame] consumes and when it fails, and
    that [scanTLVs] accepts exactly the buffers that are one TLV of the grammar
    within the budgets. *)

From S2P Require Import Prelude GoStrings Message Ber Decode Encode WireFacts CodecFacts CodecWf Framing.
Local Open Scope Z_scope.

(** * Octet arithmetic *)

Lemma u64_small (z : Z) : 0 ≤ z < 2^64 → u64 z = z.
Proof. apply Z.mod_small. Qed.

Lemma land_mask (b : byte) (k : Z) : 0 ≤ k → 0 ≤ Z.land (bz b) k ≤ k.
Proof.
  intros Hk. split; [apply Z.land_nonneg; auto|].
  pose proof (Z.ldiff_le k (bz b)) as H.
  assert (E : Z.land (bz b) k = k - Z.ldiff k (bz b)).
  { rewrite Z.sub_nocarry_ldiff.
    - apply Z.bits_inj'. intros n _. rewrite !Z.ldiff_spec, Z.land_spec.
      by destruct (Z.testbit k n), (Z.testbit (bz b) n).
    - apply Z.bits_inj'. intros n _. rewrite !Z.ldiff_spec, Z.bits_0.
      by destruct (Z.testbit k n), (Z.testbit (bz b) n). }
  assert (0 ≤ Z.ldiff k (bz b)) by (apply Z.ldiff_nonneg; auto). lia.
Qed.

Lemma be_u64_acc (l : bytes) (v : Z) :
  0 ≤ v → (v + 1) * 256 ^ Z.of_nat (length l) ≤ 2^64 →
  fold_left (λ v b, Z.lor (u64 (Z.shiftl v 8)) (bz b)) l v = be_acc v l ∧
  be_acc v l < (v + 1) * 256 ^ Z.of_nat (length l).
Proof.
  revert v. induction l as [|b l IH]; intros v Hv Hb; cbn [fold_left be_acc length] in *; [lia|].
  rewrite Nat2Z.inj_succ, Z.pow_succ_r in Hb |- * by lia.
  pose proof (bz_range b) as Hbz. pose proof (lor_shift8 v b) as E.
  assert (0 < 256 ^ Z.of_nat (length l)) by (apply Z.pow_pos_nonneg; lia).
  assert (Hs : u64 (Z.shiftl v 8) = Z.shiftl v 8).
  { apply u64_small. rewrite Z.shiftl_mul_pow2 by lia. change (2^8) with 256. nia. }
  rewrite Hs. destruct (IH (Z.lor (Z.shiftl v 8) (bz b))) as [-> H1]; rewrite ?E in *; [nia..|].
  split; [done|]. nia.
Qed.

(** Up to eight octets the wrapping accumulator is the plain big-endian value. *)
Lemma be_u64_spec (l : bytes) :
  (length l ≤ 8)%nat → be_u64 l = be_acc 0 l ∧ 0 ≤ be_u64 l < 256 ^ Z.of_nat (length l).
Proof.
  intros Hl. unfold be_u64.
  assert (256 ^ Z.of_nat (length l) ≤ 256 ^ 8) by (apply Z.pow_le_mono_r; lia).
  change (256^8) with (2^64) in *.
  destruct (be_u64_acc l 0) as [-> Hlt]; [lia..|]. split; [done|]. split; [by apply be_acc_nonneg | lia].
Qed.

(** * Reading *)

Lemma ReadFull_ok (r r' : Reader) (n : nat) (b : bytes) :
  ReadFull r n = (FullOk b, r') ↔ length b = n ∧ r = MkReader (b ++ rdata r') (rfail r').
Proof.
  unfold ReadFull. destruct r as [d f], r' as [d' f']. cbn.
  destruct (Nat.leb_spec n (length d)) as [Hn|Hn]; split.
  - intros [= <- <- <-]. rewrite length_take, take_drop. split; [lia | done].
  - intros [Hl [= -> ->]]. by rewrite take_app_length', drop_app_length'.
  - destruct f; [done|]. by destruct d.
  - intros [Hl [= -> ->]]. rewrite length_app in Hn. lia.
Qed.

(** The header octets of a frame and the content length they announce. *)
Definition frame_header (h : bytes) (len : Z) : Prop :=
  (∃ lb, h = [x30; lb] ∧ len = bz lb ∧ bz lb < 128) ∨
  (∃ lb l, h = x30 :: lb :: l ∧ bz lb = 128 + Z.of_nat (length l) ∧ (1 ≤ length l ≤ 8)%nat ∧
     len = be_acc 0 l).

Lemma bit7 (b : byte) :
  (Z.land (bz b) 0x80 = 0 ∧ bz b < 128) ∨ (Z.land (bz b) 0x80 ≠ 0 ∧ bz b = 128 + Z.land (bz b) 0x7f).
Proof. destruct b; vm_compute; first [by left | by right]. Qed.

Lemma frame_header_length (h : bytes) (len : Z) : frame_header h len → (2 ≤ length h ≤ 10)%nat.
Proof. intros [(lb & -> & _)|(lb & l & -> & _ & Hl & _)]; cbn; lia. Qed.

Lemma frame_header_bound (h : bytes) (len : Z) : frame_header h len → 0 ≤ len < 2^64.
Proof.
  intros [(lb & -> & -> & Hb)|(lb & l & -> & _ & Hl & ->)].
  - pose proof (bz_range lb). lia.
  - destruct (be_u64_spec l) as [<- Hr]; [lia|].
    assert (256 ^ Z.of_nat (length l) ≤ 256 ^ 8) by (apply Z.pow_le_mono_r; lia).
    change (256^8) with (2^64) in *. lia.
Qed.

Lemma ReadFull_short (r : Reader) (n : nat) :
  (length (rdata r) < n)%nat →
  ∃ o, ReadFull r n = (o, MkReader [] (rfail r)) ∧ (o = FullErr ∨ o = FullEOF ∨ o = FullUnexpectedEOF).
Proof.
  intros Hn. unfold ReadFull. rewrite (proj2 (Nat.leb_gt _ _)) by done.
  eexists. split; [done|]. destruct (rfail r), (rdata r); auto.
Qed.

Definition frame_refusal (e : read_err) : Prop :=
  e ∈ [RNet; RCodec ErrMalformedPDU; RCodec ErrEOF; RCodec ErrUnexpectedEOF].

(** [readFrame] refuses within the header or calls [readBody] on a header. *)
Lemma readFrame_cases (limit : Z) (r : Reader) :
  (∃ e r1 h, readFrame limit r = (Err e, r1) ∧ rdata r = h ++ rdata r1 ∧ (length h ≤ 10)%nat ∧
     frame_refusal e) ∨
  (∃ h len r1, frame_header h len ∧ r = MkReader (h ++ rdata r1) (rfail r1) ∧
     readFrame limit r = readBody limit h len r1).
Proof.
  unfold readFrame, frame_refusal. destruct r as [[|h0 [|lb d]] f].
  { left. unfold ReadFull. cbn. exists (match f with Some _ => RNet | None => RCodec ErrEOF end), (MkReader [] f), [].
    destruct f; (split_and!; [done | done | cbn; lia | set_solver]). }
  { left. unfold ReadFull. cbn.
    exists (match f with Some _ => RNet | None => RCodec ErrUnexpectedEOF end), (MkReader [] f), [h0].
    destruct f; (split_and!; [done | done | cbn; lia | set_solver]). }
  change (ReadFull (MkReader (h0 :: lb :: d) f) 2) with (FullOk [h0; lb], MkReader d f). cbv beta iota.
  assert (Hbad : ∃ e r1 h, (@Err _ bytes (RCodec ErrMalformedPDU), MkReader d f) = (Err e, r1) ∧
      h0 :: lb :: d = h ++ rdata r1 ∧ (length h ≤ 10)%nat ∧
      e ∈ [RNet; RCodec ErrMalformedPDU; RCodec ErrEOF; RCodec ErrUnexpectedEOF]).
  { exists (RCodec ErrMalformedPDU), (MkReader d f), [h0; lb]. split_and!; [done..| cbn; lia | set_solver]. }
  destruct (bz h0 =? 0x30) eqn:E0; cbn [negb]; [|by left]. apply Z.eqb_eq in E0.
  apply (bz_inj h0 x30) in E0 as ->.
  destruct (bz lb =? 0x80) eqn:E1; [by left|]. destruct (bz lb =? 0xff) eqn:E2; [by left|]. bprop.
  destruct (bit7 lb) as [[Hz Hlb]|[Hz Hlb]].
  { rewrite Hz. cbn [Z.eqb]. right. exists [x30; lb], (bz lb), (MkReader d f).
    split; [left; eauto|]. done. }
  apply Z.eqb_neq in Hz as ->. pose proof (land_mask lb 0x7f ltac:(lia)) as Hm.
  destruct (8 <? _)%nat eqn:E8; [by left|]. apply Nat.ltb_ge in E8.
  set (n := Z.to_nat (Z.land (bz lb) 0x7f)) in *.
  destruct (le_lt_dec n (length d)) as [Hn|Hn].
  - assert (Hr : ReadFull (MkReader d f) n = (FullOk (take n d), MkReader (drop n d) f)).
    { apply ReadFull_ok. rewrite length_take. cbn [rdata rfail]. rewrite take_drop. split; [lia | done]. }
    rewrite Hr. right. exists ([x30; lb] ++ take n d), (be_u64 (take n d)), (MkReader (drop n d) f).
    cbn [rdata rfail app]. rewrite take_drop. split_and!; [|done..].
    right. exists lb, (take n d). rewrite length_take. split_and!; [done | lia..|].
    apply be_u64_spec. rewrite length_take. lia.
  - destruct (ReadFull_short (MkReader d f) n Hn) as (o & Ho & Hc). rewrite Ho. left.
    cbn [rdata rfail] in *. destruct Hc as [->|[->| ->]];
      [exists RNet | exists (RCodec ErrUnexpectedEOF) | exists (RCodec ErrUnexpectedEOF)];
      exists (MkReader [] f), ([x30; lb] ++ d); cbn [rdata app];
      rewrite app_nil_r; (split_and!; [done | done | cbn; lia | set_solver]).
Qed.

(** What [readFrame] promises of its result; [h] is always a prefix of what the
    reader held. *)
Definition frame_result (limit : Z) (r : Reader) (out : res read_err bytes * Reader) : Prop :=
  ∃ h, rdata r = h ++ rdata (out.2) ∧
  match out.1 with
  | Ok buf => buf = h ∧ blen h ≤ limit ∧
      ∃ hd body, h = hd ++ body ∧ frame_header hd (blen body)
  | Err (RCodec ErrPDUTooLarge) => ∃ len, frame_header h len ∧ limit < blen h + len
  | Err (RCodec ErrMalformedPDU) => (length h ≤ 10)%nat
  | Err RPanic => ∃ len, frame_header h len ∧ 2^64 ≤ blen h + len
  | Err _ => True
  end.

Lemma u64_add (a b : Z) : 0 ≤ a < 2^64 → 0 ≤ b < 2^64 → u64 (a + b) = if a + b <? 2^64 then a + b else a + b - 2^64.
Proof.
  intros Ha Hb. unfold u64. destruct (Z.ltb_spec (a + b) (2^64)).
  - apply Z.mod_small. lia.
  - symmetry. apply Z.mod_unique with 1; lia.
Qed.

Lemma readBody_spec (limit : Z) (h : bytes) (len : Z) (r : Reader) :
  10 ≤ limit → frame_header h len →
  readBody limit h len r =
    if 2^64 <=? blen h + len then (Err RPanic, r)
    else if limit <? blen h + len then (Err (RCodec ErrPDUTooLarge), r)
    else match ReadFull r (Z.to_nat len) with
         | (FullOk body, r') => (Ok (h ++ body), r')
         | (FullErr, r') => (Err RNet, r')
         | (_, r') => (Err (RCodec ErrUnexpectedEOF), r')
         end.
Proof.
  intros Hlim Hh. pose proof (frame_header_length _ _ Hh) as Hl. pose proof (frame_header_bound _ _ Hh) as Hb.
  unfold readBody. rewrite u64_add by (unfold blen; lia). unfold blen in *.
  destruct (Z.leb_spec (2^64) (Z.of_nat (length h) + len)) as [Hw|Hw].
  - rewrite (proj2 (Z.ltb_ge (Z.of_nat (length h) + len) (2^64))) by done.
    rewrite (proj2 (Z.ltb_ge _ _)), (proj2 (Z.ltb_lt _ _)) by lia. done.
  - rewrite (proj2 (Z.ltb_lt (Z.of_nat (length h) + len) (2^64))) by done.
    destruct (limit <? _); [done|]. rewrite (proj2 (Z.ltb_ge _ _)) by lia.
    by replace (Z.of_nat (length h) + len - Z.of_nat (length h)) with len by lia.
Qed.

Lemma readFrame_result_aux (limit : Z) (r : Reader) :
  10 ≤ limit → frame_result limit r (readFrame limit r).
Proof.
  intros Hlim. destruct (readFrame_cases limit r) as [(e & r1 & h & -> & Hd & Hl & He)|(h & len & r1 & Hh & Hr & ->)].
  { exists h. split; [done|]. cbn [fst]. unfold frame_refusal in He.
    repeat (apply elem_of_cons in He as [->|He]; [try done|]). by apply elem_of_nil in He. }
  rewrite readBody_spec by done. subst r. unfold frame_result. cbn [rdata].
  destruct (Z.leb_spec (2^64) (blen h + len)); [exists h; cbn; eauto|].
  destruct (Z.ltb_spec limit (blen h + len)); [exists h; cbn; eauto|].
  pose proof (frame_header_bound _ _ Hh) as Hb.
  destruct (le_lt_dec (Z.to_nat len) (length (rdata r1))) as [Hn|Hn].
  - assert (Hf : ReadFull r1 (Z.to_nat len) =
      (FullOk (take (Z.to_nat len) (rdata r1)), MkReader (drop (Z.to_nat len) (rdata r1)) (rfail r1))).
    { apply ReadFull_ok. rewrite length_take. cbn. rewrite take_drop. split; [lia | by destruct r1]. }
    rewrite Hf. exists (h ++ take (Z.to_nat len) (rdata r1)). cbn [fst snd rdata].
    assert (El : blen (take (Z.to_nat len) (rdata r1)) = len) by (unfold blen; rewrite length_take; lia).
    split_and!; [by rewrite <- app_assoc, take_drop | done | unfold blen in *; rewrite length_app; lia |].
    exists h, (take (Z.to_nat len) (rdata r1)). by rewrite El.
  - destruct (ReadFull_short r1 _ Hn) as (o & Ho & Hc). rewrite Ho.
    exists (h ++ rdata r1). destruct Hc as [->|[->| ->]]; cbn; by rewrite app_nil_r.
Qed.

Lemma ReadFull_app (b d : bytes) (f : option unit) :
  ReadFull (MkReader (b ++ d) f) (length b) = (FullOk b, MkReader d f).
Proof. by apply ReadFull_ok. Qed.

Lemma readFrame_header (limit : Z) (h rest : bytes) (len : Z) (f : option unit) :
  frame_header h len →
  readFrame limit (MkReader (h ++ rest) f) = readBody limit h len (MkReader rest f).
Proof.
  intros [(lb & -> & El & Hlb)|(lb & l & -> & Elb & Hl & El)]; unfold readFrame; cbn [app].
  - change (ReadFull (MkReader (x30 :: lb :: rest) f) 2) with (FullOk [x30; lb], MkReader rest f).
    cbv beta iota. change (bz x30 =? 0x30) with true. cbn [negb].
    rewrite !(proj2 (Z.eqb_neq (bz lb) _)) by lia.
    destruct (bit7 lb) as [[-> _]|[_ ?]]; [|pose proof (land_mask lb 0x7f ltac:(lia)); lia].
    cbn [Z.eqb]. by rewrite <- El.
  - change (ReadFull (MkReader (x30 :: lb :: l ++ rest) f) 2)
      with (FullOk [x30; lb], MkReader (l ++ rest) f). cbv beta iota.
    change (bz x30 =? 0x30) with true. cbn [negb].
    rewrite !(proj2 (Z.eqb_neq (bz lb) _)) by lia.
    destruct (bit7 lb) as [[_ ?]|[Hz Hm]]; [lia|]. apply Z.eqb_neq in Hz as ->.
    replace (Z.to_nat (Z.land (bz lb) 127)) with (length l) by lia.
    rewrite (proj2 (Nat.ltb_ge _ _)), ReadFull_app by lia.
    destruct (be_u64_spec l) as [-> _]; [lia|]. cbn [app]. by rewrite <- El.
Qed.

(** A frame within the limit is read whole, and nothing after it. *)
Lemma readFrame_complete_aux (limit : Z) (h body rest : bytes) (f : option unit) :
  10 ≤ limit < 2^64 → frame_header h (blen body) → blen h + blen body ≤ limit →
  readFrame limit (MkReader (h ++ body ++ rest) f) = (Ok (h ++ body), MkReader rest f).
Proof.
  intros Hlim Hh Hle. rewrite (readFrame_header _ _ _ (blen body)), readBody_spec by (done || lia).
  rewrite (proj2 (Z.leb_gt _ _)), (proj2 (Z.ltb_ge _ _)) by lia.
  unfold blen. by rewrite Nat2Z.id, ReadFull_app.
Qed.

(** * The grammar the scan accepts *)

(** [h] is exactly one TLV header, announcing [len] octets of content. *)
Definition header (h : bytes) (constructed : bool) (len : nat) : Prop :=
  scan_header len h = Ok (constructed, len, []).

(** [elems d n s]: [s] is a sequence of TLVs, [n] elements in all, nested at
    most [d] deep below their own level. *)
Inductive elems : nat → nat → bytes → Prop :=
| elems_nil d : elems d 0 []
| elems_prim d n h body s :
    header h false (length body) → elems d n s → elems d (S n) (h ++ body ++ s)
| elems_cons d n m h body s :
    header h true (length body) → elems d n body → elems (S d) m s →
    elems (S d) (S (n + m)) (h ++ body ++ s).

(** One element and nothing else. *)
Inductive one_elem : nat → nat → bytes → Prop :=
| one_prim d h body : header h false (length body) → one_elem d 1 (h ++ body)
| one_cons d n h body : header h true (length body) → elems d n body → one_elem (S d) (S n) (h ++ body).

(** ** Headers are local *)

Lemma high_tag_local (k : nat) (b : bool) (t t' : Z) (s r : bytes) :
  high_tag k b t s = Ok (t', r) →
  ∃ h, s = h ++ r ∧ h ≠ [] ∧ ∀ r', high_tag k b t (h ++ r') = Ok (t', r').
Proof.
  revert b t s. induction k as [|k IH]; intros b t s; [by destruct s|].
  destruct s as [|tb s]; [done|]. cbn [high_tag].
  destruct (b && (Z.lor (u64 (Z.shiftl t 7)) (Z.land (bz tb) 0x7f) =? 0)) eqn:E1; [done|].
  destruct (Z.land (bz tb) 0x80 =? 0) eqn:E2.
  - intros [= <- <-]. exists [tb]. split_and!; [done..|]. intros r'. cbn [app high_tag]. by rewrite E1, E2.
  - intros (h & -> & _ & Hh)%IH. exists (tb :: h). split_and!; [done..|]. intros r'.
    cbn [app high_tag]. by rewrite E1, E2.
Qed.

Lemma scan_length_local (N len : nat) (s r : bytes) :
  scan_length N s = Ok (len, r) →
  ∃ h, s = h ++ r ∧ h ≠ [] ∧ ∀ N' r', (len ≤ N')%nat → scan_length N' (h ++ r') = Ok (len, r').
Proof.
  destruct s as [|lb s]; [done|]. cbn [scan_length].
  destruct (_ =? 0x80) eqn:E1; [done|]. destruct (_ =? 0xff) eqn:E2; [done|].
  destruct (_ =? 0) eqn:E3.
  { intros [= <- <-]. exists [lb]. split_and!; [done..|]. intros. cbn [app scan_length]. by rewrite E1, E2, E3. }
  destruct (8 <? _)%nat eqn:E4; [done|]. destruct (length s <? _)%nat eqn:E5; [done|].
  destruct (Z.of_nat N <? _) eqn:E6; [done|]. intros [= <- <-].
  set (n := Z.to_nat (Z.land (bz lb) 127)) in *. apply Nat.ltb_ge in E5.
  exists (lb :: take n s). split_and!; [cbn; by rewrite take_drop | done |].
  intros N' r' HN. cbn [app scan_length]. fold n. rewrite E1, E2, E3, E4.
  assert (Hn : length (take n s) = n) by (rewrite length_take; lia).
  rewrite length_app, take_app_length', drop_app_length', Hn by done.
  rewrite (proj2 (Nat.ltb_ge _ _)) by lia.
  destruct (be_u64_spec (take n s)) as [_ Hr]; [rewrite Hn; by apply Nat.ltb_ge in E4|].
  by rewrite (proj2 (Z.ltb_ge _ _)) by lia.
Qed.

Lemma scan_header_local (N len : nat) (c : bool) (s r : bytes) :
  scan_header N s = Ok (c, len, r) →
  ∃ h, s = h ++ r ∧ (2 ≤ length h)%nat ∧ ∀ N' r', (len ≤ N')%nat → scan_header N' (h ++ r') = Ok (c, len, r').
Proof.
  destruct s as [|b s]; [done|]. cbn [scan_header]. intros H. inv_ok.
  destruct v as [tag s2]. destruct (_ && _ && _) eqn:E1; [done|]. inv_ok. destruct v as [len' s3]. inv_ok.
  subst len' s3. apply scan_length_local in Hv0 as (hl & -> & Hne & Hl).
  destruct (_ =? 0x1f) eqn:E2.
  - apply high_tag_local in Hv as (ht & -> & _ & Ht). exists (b :: ht ++ hl).
    split_and!; [cbn; by rewrite <- app_assoc | cbn; rewrite length_app; destruct hl; [done | cbn; lia] |].
    intros N' r' HN. cbn [app scan_header]. rewrite E2, <- app_assoc, Ht. cbn [mbind res_bind].
    rewrite E1, Hl by done. cbn [mbind res_bind]. by rewrite H.
  - injection Hv as Ht ->. subst tag. exists (b :: hl).
    split_and!; [done | destruct hl; [done | cbn; lia] |].
    intros N' r' HN. cbn [app scan_header]. rewrite E2. cbn [mbind res_bind].
    rewrite E1, Hl by done. cbn [mbind res_bind]. by rewrite H.
Qed.

Lemma scan_header_iff (N len : nat) (c : bool) (s r : bytes) :
  (len ≤ N)%nat → scan_header N s = Ok (c, len, r) ↔ ∃ h, s = h ++ r ∧ header h c len.
Proof.
  intros HN. split.
  - intros (h & -> & _ & Hh)%scan_header_local. exists h. split; [done|].
    unfold header. rewrite <- (app_nil_r h) at 1. by apply Hh.
  - intros (h & -> & Hh). unfold header in Hh.
    apply scan_header_local in Hh as (h' & E & _ & Hh). rewrite app_nil_r in E. subst h'. by apply Hh.
Qed.

Lemma header_length (h : bytes) (c : bool) (len : nat) : header h c len → (2 ≤ length h)%nat.
Proof. intros (h' & E & Hl & _)%scan_header_local. rewrite app_nil_r in E. by subst. Qed.

(** A header is determined by the octets it starts. *)
Lemma header_det (h h' r r' : bytes) (c c' : bool) (len len' : nat) :
  header h c len → header h' c' len' → h ++ r = h' ++ r' → h = h' ∧ r = r' ∧ c = c' ∧ len = len'.
Proof.
  intros Hh Hh' E.
  assert (H1 : scan_header (len + len') (h ++ r) = Ok (c, len, r)) by (apply scan_header_iff; [lia | eauto]).
  assert (H2 : scan_header (len + len') (h ++ r) = Ok (c', len', r'))
    by (rewrite E; apply scan_header_iff; [lia | eauto]).
  rewrite H1 in H2. injection H2 as <- <- <-. split_and!; try done. by simplify_list_eq.
Qed.

(** ** Elements *)

Lemma elems_header (d n : nat) (s : bytes) :
  elems d n s → s ≠ [] →
  ∃ h c body r, header h c (length body) ∧ s = h ++ body ++ r ∧ (1 ≤ n)%nat ∧ (c = true → d ≠ 0%nat).
Proof.
  intros H Hs. destruct H as [d|d n h body s Hh Hr|d n m h body s Hh Hb Hr]; [done| |];
    do 4 eexists; (split_and!; [exact Hh | done | lia | done]).
Qed.

Lemma elems_nil_inv (d n : nat) : elems d n [] → n = 0%nat.
Proof.
  intros H. destruct (decide (n = 0%nat)); [done|]. exfalso.
  inversion H as [|? ? h body s Hh Hr E|? ? ? h body s Hh Hb Hr E]; subst; [done| |];
    pose proof (header_length _ _ _ Hh); destruct h; done || (cbn in *; lia).
Qed.

Lemma elems_inv (d n : nat) (c : bool) (h body s : bytes) :
  header h c (length body) →
  elems d n (h ++ body ++ s) ↔
    if c then ∃ d' k m, d = S d' ∧ n = S (k + m) ∧ elems d' k body ∧ elems d m s
    else ∃ m, n = S m ∧ elems d m s.
Proof.
  intros Hh. split.
  - assert (Hne : h ++ body ++ s ≠ []) by (pose proof (header_length _ _ _ Hh); by destruct h; [cbn in *; lia|]).
    remember (h ++ body ++ s) as t eqn:E0. intros H.
    destruct H as [d|d n h' body' s' Hh' Hr|d k m h' body' s' Hh' Hb Hr]; [done| |];
      destruct (header_det _ _ _ _ _ _ _ _ Hh' Hh E0) as (-> & E & <- & El);
      apply app_inj_1 in E as [-> ->]; eauto 10.
  - destruct c.
    + intros (d' & k & m & -> & -> & Hb & Hr). by constructor.
    + intros (m & -> & Hr). by constructor.
Qed.

(** ** The stack *)

Section scan.
Context (buf : bytes) (D E : nat).

Definition sub (a b : nat) : bytes := take (b - a) (drop a buf).

Lemma sub_app (a b c : nat) : (a ≤ b ≤ c)%nat → sub a c = sub a b ++ sub b c.
Proof.
  intros H. unfold sub. replace (drop b buf) with (drop (b - a) (drop a buf)) by (rewrite drop_drop; f_equal; lia).
  replace (c - a)%nat with ((b - a) + (c - b))%nat by lia. by rewrite take_take_drop.
Qed.

Lemma sub_nil (a : nat) : sub a a = [].
Proof. unfold sub. by rewrite Nat.sub_diag. Qed.

Lemma sub_drop (a b : nat) : (a ≤ b)%nat → drop a buf = sub a b ++ drop b buf.
Proof.
  intros H. unfold sub. replace (drop b buf) with (drop (b - a) (drop a buf)) by (rewrite drop_drop; f_equal; lia).
  by rewrite take_drop.
Qed.

Lemma sub_length (a b : nat) : (a ≤ b ≤ length buf)%nat → length (sub a b) = (b - a)%nat.
Proof. intros H. unfold sub. rewrite length_take, length_drop. lia. Qed.

(** The ends on the stack grow outwards and stay in the buffer. *)
Fixpoint ends_ok (off : nat) (stack : list nat) : Prop :=
  match stack with
  | [] => (off ≤ length buf)%nat
  | e :: stack' => (off ≤ e)%nat ∧ ends_ok e stack'
  end.

(** What is left of each open value is well formed, [n] elements in all. *)
Fixpoint rest_ok (off : nat) (stack : list nat) (n : nat) : Prop :=
  match stack with
  | [] => off = length buf ∧ n = 0%nat
  | e :: stack' => ∃ k m, n = (k + m)%nat ∧ elems (D - length stack) k (sub off e) ∧ rest_ok e stack' m
  end.

Lemma ends_ok_le (off : nat) (stack : list nat) : ends_ok off stack → (off ≤ length buf)%nat.
Proof. revert off. induction stack as [|e stack IH]; intros off; cbn; [done|]. intros [H1 H2%IH]. lia. Qed.

Lemma pop_ends_ok (off : nat) (stack : list nat) :
  ends_ok off stack →
  ends_ok off (pop_ends off stack) ∧ (length (pop_ends off stack) ≤ length stack)%nat ∧
  (∀ n, rest_ok off stack n ↔ rest_ok off (pop_ends off stack) n) ∧
  (∀ e s, pop_ends off stack = e :: s → off < e)%nat.
Proof.
  induction stack as [|e stack IH]; cbn [pop_ends].
  { intros H. split_and!; [done..|]. by intros. }
  intros [Hle He]. destruct (Nat.eqb_spec off e) as [->|Hne].
  - destruct (IH He) as (H1 & H2 & H3 & H4). split_and!; [done | cbn; lia | | done].
    intros n. rewrite <- H3. cbn [rest_ok]. rewrite sub_nil. split.
    + intros (k & m & -> & ->%elems_nil_inv & Hm). done.
    + intros Hn. exists 0%nat, n. split_and!; [lia | constructor | done].
  - split_and!; [done | done | done |]. intros e' s [= <- <-]. lia.
Qed.

Lemma scan_loop_ok (fuel : nat) : ∀ off stack el,
  (0 < el ≤ E)%nat → ends_ok off stack → (length stack ≤ D)%nat → (length buf - off < fuel)%nat →
  scan_loop buf D E fuel (MkScan off stack el) = Ok () ↔ ∃ n, (el + n ≤ E)%nat ∧ rest_ok off stack n.
Proof.
  induction fuel as [|fuel IH]; intros off stack el Hel Hends HD Hf; [lia|].
  destruct (pop_ends_ok off stack Hends) as (He' & Hl' & Hr' & Hlt).
  setoid_rewrite Hr'. clear Hr'. cbn [scan_loop]. unfold scan_step. cbn [sOff sStack sElements].
  destruct (pop_ends off stack) as [|e s].
  { cbn [length Nat.eqb rest_ok]. destruct (Nat.eqb_spec off (length buf)) as [Ho|Ho]; cbn.
    - split; [|done]. intros _. exists 0%nat. repeat split; [lia | done].
    - destruct el; [lia|]. cbn. split; [done | by intros (n & _ & ? & _)]. }
  specialize (Hlt e s eq_refl). destruct He' as [_ He]. pose proof (ends_ok_le _ _ He) as Hebuf.
  rewrite (proj2 (Nat.eqb_neq off _)) by lia. cbn [length Nat.eqb andb]. cbn [length] in Hl'.
  assert (Hdrop : drop off buf = sub off e ++ drop e buf) by (apply sub_drop; lia).
  assert (Hsub : sub off e ≠ []).
  { intros En. apply (f_equal length) in En. rewrite sub_length in En by lia. cbn in En. lia. }
  assert (Hbad : ∀ (P : Prop), (∀ h c body r, sub off e = h ++ body ++ r → header h c (length body) →
      (c = true → (length s < D)%nat) → (el < E)%nat → False) →
      (∃ n, (el + n ≤ E)%nat ∧ rest_ok off (e :: s) n) → P).
  { intros P HP (n & Hn & k & m & -> & Hk & _). exfalso.
    destruct (elems_header _ _ _ Hk Hsub) as (h & c & body & r & Hh & Es & Hk1 & Hc). eapply HP; [done..| |].
    - intros Hct. specialize (Hc Hct). cbn [length] in Hc. lia.
    - lia. }
  destruct (scan_header (length buf) (drop off buf)) as [[[c len] rest]|err] eqn:Eh; cbn [mbind res_bind].
  2: { split; [done|]. apply Hbad. intros h c body r Es Hh _ _.
       rewrite Hdrop, Es, <- !app_assoc in Eh.
       assert (Hx : scan_header (length buf) (h ++ body ++ r ++ drop e buf) =
         Ok (c, length body, body ++ r ++ drop e buf)); [|congruence].
       apply scan_header_iff; [|eauto].
       apply (f_equal length) in Es. rewrite sub_length, !length_app in Es by lia. lia. }
  apply scan_header_local in Eh as (h & Eh & Hh2 & Hhl).
  assert (Hh : header h c len) by (unfold header; rewrite <- (app_nil_r h) at 1; by apply Hhl).
  assert (Hoff : (off + (length (drop off buf) - length rest) = off + length h)%nat)
    by (rewrite Eh, length_app; lia).
  rewrite Hoff. destruct (Nat.ltb_spec e (off + length h + len)) as [Hov|Hov].
  { split; [done|]. apply Hbad. intros h' c' body r Es Hh' _ _.
    rewrite Hdrop, Es, <- !app_assoc in Eh.
    destruct (header_det _ _ _ _ _ _ _ _ Hh' Hh Eh) as (-> & _ & _ & <-).
    apply (f_equal length) in Es. rewrite sub_length, !length_app in Es by lia. lia. }
  set (o1 := (off + length h)%nat) in *. set (o2 := (o1 + len)%nat) in *.
  assert (E1 : sub off o1 = h).
  { unfold sub. rewrite Eh. subst o1. by rewrite take_app_length' by lia. }
  assert (Hsplit : sub off e = h ++ sub o1 o2 ++ sub o2 e).
  { rewrite (sub_app off o1 e), (sub_app o1 o2 e), E1 by lia. done. }
  assert (Hlen : length (sub o1 o2) = len) by (rewrite sub_length by lia; lia).
  rewrite <- Hlen in Hh. pose proof (λ d n, elems_inv d n c h (sub o1 o2) (sub o2 e) Hh) as Hinv.
  destruct (Nat.ltb_spec E (S el)) as [HE|HE].
  { split; [done|]. apply Hbad. intros. lia. }
  destruct c.
  - cbn [length].
    destruct (Nat.ltb_spec D (S (length s) + 1)) as [HDs|HDs]; cbn [mbind res_bind].
    { split; [done|]. intros (n & Hn & k & m & -> & Hk & _). rewrite Hsplit in Hk.
      apply Hinv in Hk as (d' & ? & ? & Hd & _). cbn [length] in Hd. lia. }
    rewrite IH; [| lia | cbn; split_and!; [lia..|done] | cbn; lia | lia].
    cbn [rest_ok length]. rewrite Hsplit. split.
    + intros (n & Hn & k & m & -> & Hk & k' & m' & -> & Hk' & Hm'). exists (S (k + k') + m')%nat.
      split; [lia|]. exists (S (k + k')), m'. split_and!; [done | | done]. apply Hinv.
      exists (D - S (S (length s)))%nat, k, k'. split_and!; [lia | done | done | done].
    + intros (n & Hn & k & m & -> & Hk & Hm). apply Hinv in Hk as (d' & k1 & k2 & Hd & -> & Hk1 & Hk2).
      exists (k1 + (k2 + m))%nat. split; [lia|]. exists k1, (k2 + m)%nat. split_and!; [done | | eauto].
      by replace (D - S (S (length s)))%nat with d' by lia.
  - cbn [mbind res_bind]. rewrite IH; [| lia | cbn; split_and!; [lia | done] | cbn; lia | lia].
    cbn [rest_ok length]. rewrite Hsplit. split.
    + intros (n & Hn & k & m & -> & Hk & Hm). exists (S k + m)%nat. split; [lia|].
      exists (S k), m. split_and!; [done | | done]. apply Hinv. eauto.
    + intros (n & Hn & k & m & -> & Hk & Hm). apply Hinv in Hk as (k1 & -> & Hk1).
      exists (k1 + m)%nat. split; [lia|]. exists k1, m. done.
Qed.
End scan.

Lemma one_elem_header (d n : nat) (s : bytes) :
  one_elem d n s ↔ ∃ h c body, s = h ++ body ∧ header h c (length body) ∧
    if c then ∃ d' k, d = S d' ∧ n = S k ∧ elems d' k body else n = 1%nat.
Proof.
  split.
  - intros [d' h body Hh|d' k h body Hh Hb].
    + by exists h, false, body.
    + exists h, true, body. eauto 10.
  - intros (h & [|] & body & -> & Hh & H).
    + destruct H as (d' & k & -> & -> & H). by constructor.
    + subst. by constructor.
Qed.

Lemma scanTLVs_spec_aux (buf : bytes) (D E : nat) :
  scanTLVs buf D E = Ok () ↔ buf = [] ∨ ∃ n, (n ≤ E)%nat ∧ one_elem D n buf.
Proof.
  destruct buf as [|b0 buf']; [split; [by left | done]|].
  assert (Hpos : (0 < length (b0 :: buf'))%nat) by (cbn; lia).
  assert (Hne : b0 :: buf' ≠ []) by done. revert Hpos Hne. generalize (b0 :: buf'). clear. intros buf Hpos Hne.
  transitivity (∃ n, (n ≤ E)%nat ∧ one_elem D n buf); [|split; [by right | by intros [|]]].
  unfold scanTLVs. cbn [scan_loop]. unfold scan_step. cbn [sOff sStack sElements pop_ends].
  rewrite (proj2 (Nat.eqb_neq 0 (length buf))) by lia. change (0 <? 0)%nat with false. cbn [Nat.eqb andb].
  change (length (@nil nat)) with 0%nat. cbn [Nat.eqb andb].
  change (drop 0 buf) with buf. setoid_rewrite one_elem_header.
  destruct (scan_header (length buf) buf) as [[[c len] rest]|err] eqn:Eh; cbn [mbind res_bind].
  2: { split; [done|]. intros (n & _ & h & c & body & Eb & Hh & _).
       assert (Hx : scan_header (length buf) buf = Ok (c, length body, body)); [|congruence].
       apply scan_header_iff; [rewrite Eb, length_app; lia | eauto]. }
  apply scan_header_local in Eh as (h & Eh & Hh2 & Hhl).
  assert (Hh : header h c len) by (unfold header; rewrite <- (app_nil_r h) at 1; by apply Hhl).
  assert (Hlen : length buf = (length h + length rest)%nat) by (by rewrite Eh, length_app).
  replace (0 + (length buf - length rest))%nat with (length h) by lia.
  assert (Hdet : ∀ h' c' body, buf = h' ++ body → header h' c' (length body) →
    h' = h ∧ c' = c ∧ body = rest ∧ len = length rest).
  { intros h' c' body Eb Hb. rewrite Eh in Eb.
    destruct (header_det _ _ _ _ _ _ _ _ Hh Hb Eb) as (-> & -> & -> & ->). done. }
  destruct (Nat.ltb_spec (length buf) (length h + len)) as [Ho|Ho].
  { split; [done|]. intros (n & _ & h' & c' & body & Eb & Hb & _).
    destruct (Hdet _ _ _ Eb Hb) as (_ & _ & _ & ->). lia. }
  destruct (Nat.ltb_spec E 1) as [HE|HE].
  { split; [done|]. intros (n & Hn & h' & c' & body & Eb & Hb & H).
    destruct c'; [destruct H as (? & ? & _ & ? & _)|]; lia. }
  assert (Hsub : sub buf (length h) (length h + len) = take len rest).
  { unfold sub. rewrite Eh, drop_app_length. f_equal. lia. }
  destruct c.
  - destruct (Nat.ltb_spec D (0 + 1)) as [HD|HD]; cbn [mbind res_bind].
    { split; [done|]. intros (n & Hn & h' & c' & body & Eb & Hb & H).
      destruct (Hdet _ _ _ Eb Hb) as (_ & -> & _ & _). destruct H as (? & ? & ? & _). lia. }
    rewrite scan_loop_ok by (cbn [ends_ok length]; lia). cbn [rest_ok length]. split.
    + intros (n & Hn & k & m & -> & Hk & Hend & ->).
      assert (El : len = length rest) by lia. exists (S k). split; [lia|].
      exists h, true, rest. split_and!; [done | by rewrite <- El |]. exists (D - 1)%nat, k.
      split_and!; [lia | done |]. rewrite Hsub, El, firstn_all in Hk. done.
    + intros (n & Hn & h' & c' & body & Eb & Hb & H).
      destruct (Hdet _ _ _ Eb Hb) as (-> & -> & -> & ->). destruct H as (d' & k & -> & -> & Hk).
      exists k. split; [lia|]. exists k, 0%nat. split_and!; [lia | | lia | done].
      rewrite Hsub, firstn_all. by rewrite Nat.sub_1_r.
  - cbn [mbind res_bind]. rewrite scan_loop_ok by (cbn [ends_ok length]; lia). cbn [rest_ok]. split.
    + intros (n & Hn & Hend & ->). exists 1%nat. split; [done|]. exists h, false, rest.
      split_and!; [done | | done]. by replace (length rest) with len by lia.
    + intros (n & Hn & h' & c' & body & Eb & Hb & H).
      destruct (Hdet _ _ _ Eb Hb) as (-> & -> & -> & ->). exists 0%nat. split_and!; [lia.. | done].
Qed.

(** * Properties *)

(** C20.  [scanTLVs]'s explicit stack implements the recursive grammar: it accepts
    a buffer exactly when the buffer is empty or is one TLV of definite lengths,
    every value inside its parent, nested within the depth budget and with no
    more elements than the element budget.  In particular the loop always ends. *)
Theorem scanTLVs_spec (buf : bytes) (D E : nat) :
  scanTLVs buf D E = Ok () ↔ buf = [] ∨ ∃ n, (n ≤ E)%nat ∧ one_elem D n buf.
Proof. apply scanTLVs_spec_aux. Qed.

(** C21.  [readFrame] takes a prefix off the stream: on success exactly one frame
    of at most [limit] octets; a too large frame is refused from its header
    alone, a malformed one within ten octets; the only panic is a header whose
    length makes the 64-bit total wrap. *)
Theorem readFrame_result (limit : Z) (r : Reader) :
  10 ≤ limit → frame_result limit r (readFrame limit r).
Proof. apply readFrame_result_aux. Qed.

Definition sample_frame : bytes := [x30; x05; x02; x01; x07; x42; x00].

Lemma readFrame_result_witness :
  frame_result 100 (MkReader (sample_frame ++ [x30]) None) (readFrame 100 (MkReader (sample_frame ++ [x30]) None)) ∧
  readFrame 100 (MkReader (sample_frame ++ [x30]) None) = (Ok sample_frame, MkReader [x30] None).
Proof. split; [apply readFrame_result; lia | vm_compute; reflexivity]. Defined.

(** A frame within the limit is read whole whatever follows it, and the
    reader is left at the next frame. *)
Theorem readFrame_complete (limit : Z) (h body rest : bytes) (f : option unit) :
  10 ≤ limit < 2^64 → frame_header h (blen body) → blen h + blen body ≤ limit →
  readFrame limit (MkReader (h ++ body ++ rest) f) = (Ok (h ++ body), MkReader rest f).
Proof. apply readFrame_complete_aux. Qed.

Lemma readFrame_complete_witness :
  readFrame 1048576 (MkReader ([x30; x81; x02] ++ [x05; x00] ++ [x30]) None) =
    (Ok ([x30; x81; x02] ++ [x05; x00]), MkReader [x30] None).
Proof.
  apply (readFrame_complete 1048576 [x30; x81; x02] [x05; x00] [x30]).
  - lia.
  - right. exists x81, [x02]. split_and!; [reflexivity | reflexivity | cbn; lia | cbn; lia | reflexivity].
  - vm_compute. discriminate.
Defined.

(** C40.  A header announcing a content length close to 2^64 makes
    [uint64(hdrLen) + contentLen] wrap below the header's own length: the ceiling
    is passed and [buf[hdrLen:]] is out of range, so the read panics. *)
Theorem readFrame_overflow (limit : Z) (l rest : bytes) (f : option unit) :
  10 ≤ limit → length l = 8%nat → 2^64 - 10 ≤ be_acc 0 l →
  readFrame limit (MkReader (x30 :: x88 :: l ++ rest) f) = (Err RPanic, MkReader rest f).
Proof.
  intros Hlim Hl Hb.
  assert (Hh : frame_header (x30 :: x88 :: l) (be_acc 0 l)).
  { right. exists x88, l. rewrite Hl. split_and!; [done | done | lia | lia | done]. }
  change (x30 :: x88 :: l ++ rest) with ((x30 :: x88 :: l) ++ rest).
  rewrite (readFrame_header _ _ _ _ _ Hh), readBody_spec by done.
  by rewrite (proj2 (Z.leb_le _ _)) by (unfold blen; cbn [length]; lia).
Qed.

Lemma readFrame_overflow_witness :
  readFrame 1048576 (MkReader [x30; x88; xff; xff; xff; xff; xff; xff; xff; xf6] None) =
    (Err RPanic, MkReader [] None).
Proof.
  apply (readFrame_overflow 1048576 [xff; xff; xff; xff; xff; xff; xff; xf6] []).
  - lia.
  - reflexivity.
  - vm_compute. discriminate.
Defined.

(** What [ReadMessage] returns: it took exactly one frame of at most
    [maxPDUBytes] octets off the stream, the frame passed the structural scan
    before the BER library saw it, and the message is the well-formed decoding of
    the library's packet. *)
Theorem ReadMessage_ok {L : BerLib} (c : BERCodec) (d1 d2 : bool) (r r' : Reader) (m : Message) :
  10 ≤ maxPDUBytes c → ReadMessage c d1 d2 r = (Ok m, r') →
  ∃ buf n p, rdata r = buf ++ rdata r' ∧ blen buf ≤ maxPDUBytes c ∧
    (n ≤ Z.to_nat (maxElements c))%nat ∧ one_elem (Z.to_nat (maxDepth c)) n buf ∧
    DecodePacketErr buf = Some p ∧ decodeMessage p = Ok m ∧ wf_message m = true.
Proof.
  intros Hc H. unfold ReadMessage in H. destruct d1; [done|].
  pose proof (readFrame_result_aux (maxPDUBytes c) r Hc) as Hf.
  destruct (readFrame _ _) as [[buf|e] r1]; [|done]. destruct d2; [done|].
  destruct (scanTLVs buf _ _) as [u|e] eqn:Es; [|done]. cbn [lift_codec mbind res_bind] in H.
  destruct (DecodePacketErr buf) as [p|] eqn:Ep; [|done].
  destruct (decodeMessage p) as [m'|e] eqn:Em; [|done]. injection H as -> ->.
  destruct Hf as (h & Hd & -> & Hle & hd & body & Eh & Hh). destruct u.
  apply scanTLVs_spec_aux in Es as [->|(n & Hn & Ho)].
  { apply frame_header_length in Hh. destruct hd; [cbn in Hh; lia | done]. }
  exists h, n, p. split_and!; try done. by eapply decodeMessage_wf_aux.
Qed.

(** A library that knows one packet. *)
#[local] Instance one_packet_ber : BerLib := {|
  NewInteger := @NewInteger toy_ber; NewString := @NewString toy_ber;
  NewLDAPBoolean := @NewLDAPBoolean toy_ber; EncodeNil := @EncodeNil toy_ber;
  NewSequence := @NewSequence toy_ber; AppendChild := @AppendChild toy_ber;
  PacketBytes p := sample_frame;
  DecodePacketErr b :=
    if beq b sample_frame then
      Some (MkPacket ClassUniversal TypeConstructed TagSequence VNil []
        [MkPacket ClassUniversal TypePrimitive TagInteger (VInt 7) [x07] [];
         MkPacket ClassApplication TypePrimitive OpUnbindRequest VNil [] []])
    else None;
  ParseInt64 := @ParseInt64 toy_ber;
|}.

Definition sample_codec : BERCodec := NewBERCodec (MkBERCodecOptions 0 0 0).

Lemma ReadMessage_ok_witness :
  ∃ buf n p, rdata (MkReader (sample_frame ++ [x30]) None) = buf ++ [x30] ∧ blen buf ≤ 1048576 ∧
    (n ≤ Z.to_nat 100000)%nat ∧ one_elem 64 n buf ∧ DecodePacketErr buf = Some p ∧
    decodeMessage p = Ok (MkMessage 7 UnbindRequest []) ∧ wf_message (MkMessage 7 UnbindRequest []) = true.
Proof.
  apply (ReadMessage_ok sample_codec false false (MkReader (sample_frame ++ [x30]) None) (MkReader [x30] None)
    (MkMessage 7 UnbindRequest [])).
  - vm_compute. discriminate.
  - vm_compute. reflexivity.
Defined.

Lemma write_loop_prefix (buf sent : bytes) (calls : list WriteCall) :
  ∃ t, (write_loop buf calls sent).2 = sent ++ t ∧ (∃ u, buf = t ++ u) ∧
    ((write_loop buf calls sent).1 = None → t = buf).
Proof.
  revert buf sent. induction calls as [|w calls IH]; intros buf sent; destruct buf as [|b buf]; cbn [write_loop];
    try (exists []; rewrite app_nil_r; split_and!; [done | by eexists | done]).
  destruct (wfail w); [exists (take (wn w) (b :: buf)); split_and!; [done | eexists; by rewrite take_drop | done]|].
  destruct (wn w =? 0)%nat; [exists (take (wn w) (b :: buf)); split_and!; [done | eexists; by rewrite take_drop | done]|].
  destruct (wdone w); [exists (take (wn w) (b :: buf)); split_and!; [done | eexists; by rewrite take_drop | done]|].
  destruct (IH (drop (wn w) (b :: buf)) (sent ++ take (wn w) (b :: buf))) as (t & -> & [u Hu] & Hn).
  exists (take (wn w) (b :: buf) ++ t). rewrite <- !app_assoc. split_and!; [done | |].
  - exists u. by rewrite <- app_assoc, <- Hu, take_drop.
  - intros H. by rewrite (Hn H), take_drop.
Qed.

(** [WriteMessage] puts a prefix of the message's encoding on the stream,
    nothing when the encoding exceeds the ceiling, and all of it when it reports
    no error. *)
Theorem WriteMessage_prefix {L : BerLib} (c : BERCodec) (d : bool) (m : Message) (calls : list WriteCall)
    (o : option write_err) (sent : bytes) :
  WriteMessage c d m calls = (o, sent) →
  sent = [] ∨ ∃ buf u, encodeMessage m = Ok buf ∧ buf = sent ++ u ∧ blen buf ≤ maxPDUBytes c ∧
    (o = None → u = []).
Proof.
  unfold WriteMessage. destruct d; [intros [= <- <-]; by left|].
  destruct (encodeMessage m) as [buf|e]; [|intros [= <- <-]; by left].
  destruct (Z.ltb_spec (maxPDUBytes c) (blen buf)) as [Hl|Hl]; [intros [= <- <-]; by left|].
  intros H. right. destruct (write_loop_prefix buf [] calls) as (t & Ht & [u Hu] & Hn). rewrite H in Ht, Hn.
  cbn in Ht, Hn. subst t. exists buf, u. split_and!; try done. intros Ho. specialize (Hn Ho). subst sent.
  rewrite <- (app_nil_r buf) in Hu at 1. by apply app_inv_head in Hu.
Qed.

Lemma WriteMessage_prefix_witness :
  sample_frame = [] ∨ ∃ buf u, encodeMessage (MkMessage 7 UnbindRequest []) = Ok buf ∧
    buf = sample_frame ++ u ∧ blen buf ≤ 1048576 ∧ ((None : option write_err) = None → u = []).
Proof.
  apply (WriteMessage_prefix sample_codec false (MkMessage 7 UnbindRequest [])
    [MkWriteCall 3 false false; MkWriteCall 4 false false] None sample_frame).
  vm_compute. reflexivity.
Defined.
