(* ===== verification/StoreCodec.v ===== *)
(** The id2entry encoding: [src/internal/ldapserver/store/codec.go].

    A versioned, length-prefixed form.  A [reader] of the source is the octets
    left to read; its methods return a value and the rest, or the corruption
    error. *)

From S2P Require Import Prelude GoStrings Message.
Local Open Scope Z_scope.

(** Errors of the entry codec; [EntryPanic] is an index out of the ten-octet
    scratch array. *)
Inductive entry_err : Type := errCorruptEntry | ErrEntryVersion | ErrEmptyName | EntryPanic.

Definition entryVersion : byte := x01.

(** * Writing *)

(** The loop of [appendUvarint]; [n] octets of the scratch array are left. *)
Fixpoint uvarint_octets (n : nat) (v : Z) : res entry_err bytes :=
  match n with
  | O => Err EntryPanic
  | S n' =>
    if 0x80 <=? v then
      l ← uvarint_octets n' (Z.shiftr v 7);
      Ok (zb (Z.lor (Z.land v 0xff) 0x80) :: l)
    else Ok [zb v]
  end.

Definition appendUvarint (buf : bytes) (v : Z) : res entry_err bytes :=
  l ← uvarint_octets 10 v; Ok (buf ++ l).

Definition appendBytes (buf : bytes) (s : bytes) : res entry_err bytes :=
  buf ← appendUvarint buf (blen s); Ok (buf ++ s).

Definition appendAttribute (buf : bytes) (a : Attribute) : res entry_err bytes :=
  if beq (Name a) [] then Err ErrEmptyName
  else
    buf ← appendBytes buf (Name a);
    buf ← appendUvarint buf (Z.of_nat (length (AttrValues a)));
    rfold appendBytes buf (AttrValues a).

Definition encodeEntry (e : Entry) : res entry_err bytes :=
  buf ← appendBytes [entryVersion] (EDN e);
  buf ← appendUvarint buf (Z.of_nat (length (Attributes e)));
  rfold appendAttribute buf (Attributes e).

(** * Reading *)

Definition reader (A : Type) : Type := bytes → res entry_err (A * bytes).

Definition read_byte : reader byte := λ r,
  match r with
  | [] => Err errCorruptEntry
  | b :: r' => Ok (b, r')
  end.

(** Round [i] of the loop of [uvarint], [n] rounds left. *)
Fixpoint uvarint_loop (n : nat) (i v : Z) : reader Z := λ r,
  match n with
  | O => Err errCorruptEntry
  | S n' =>
    '(b, r) ← read_byte r;
    if bz b <? 0x80 then
      if (i =? 9) && (1 <? bz b) then Err errCorruptEntry
      else Ok (Z.lor v (Z.shiftl (bz b) (7 * i) mod 2^64), r)
    else uvarint_loop n' (i + 1) (Z.lor v (Z.shiftl (Z.land (bz b) 0x7f) (7 * i) mod 2^64)) r
  end.

Definition uvarint : reader Z := uvarint_loop 10 0 0.

Definition read_bytes : reader bytes := λ r,
  '(n, r) ← uvarint r;
  if blen r <? n then Err errCorruptEntry
  else Ok (take (Z.to_nat n) r, drop (Z.to_nat n) r).

(** [for i := 0; i < n; i++] around a reader. *)
Fixpoint read_list {A} (f : reader A) (n : nat) : reader (list A) := λ r,
  match n with
  | O => Ok ([], r)
  | S n' => '(a, r) ← f r; '(l, r) ← read_list f n' r; Ok (a :: l, r)
  end.

Definition read_attribute : reader Attribute := λ r,
  '(name, r) ← read_bytes r;
  if (length name =? 0)%nat then Err errCorruptEntry
  else
    '(nVals, r) ← uvarint r;
    if blen r <? nVals then Err errCorruptEntry
    else
      '(vals, r) ← read_list read_bytes (Z.to_nat nVals) r;
      Ok (MkAttribute name vals, r).

Definition decodeEntry (buf : bytes) : res entry_err Entry :=
  '(version, r) ← read_byte buf;
  if negb (bz version =? bz entryVersion) then Err ErrEntryVersion
  else
    '(dn, r) ← read_bytes r;
    '(nAttrs, r) ← uvarint r;
    if blen r <? nAttrs then Err errCorruptEntry
    else
      '(attrs, r) ← read_list read_attribute (Z.to_nat nAttrs) r;
      match r with
      | [] => Ok (MkEntry dn attrs)
      | _ => Err errCorruptEntry
      end.

(** * The encoding of a number *)

Lemma lor_low (a b k : Z) : 0 ≤ a < 2^k → 0 ≤ k → Z.lor a (Z.shiftl b k) = a + Z.shiftl b k.
Proof.
  intros Ha Hk. pose proof (Z.add_lor_land a (Z.shiftl b k)) as H.
  assert (Z.land a (Z.shiftl b k) = 0); [|lia].
  apply Z.bits_inj'. intros n Hn. rewrite Z.land_spec, Z.bits_0.
  destruct (Z.ltb_spec n k).
  - rewrite (Z.shiftl_spec_low b k n) by done. apply andb_false_r.
  - rewrite <- (Z.mod_small a (2^k)) by done. by rewrite Z.mod_pow2_bits_high by lia.
Qed.

Lemma low7 (v : Z) :
  0x80 ≤ v → 0x80 ≤ bz (zb (Z.lor (Z.land v 0xff) 0x80)) ∧
  Z.land (bz (zb (Z.lor (Z.land v 0xff) 0x80))) 0x7f = v mod 128.
Proof.
  intros Hv. change 0xff with (Z.ones 8). rewrite Z.land_ones by lia. change (2^8) with 256.
  pose proof (Z.mod_pos_bound v 256 ltac:(lia)) as Hm.
  assert (Ha : ∀ a, 0 ≤ a < 256 → 0x80 ≤ bz (zb (Z.lor a 0x80)) ∧ Z.land (bz (zb (Z.lor a 0x80))) 0x7f = a mod 128).
  { intros a Ha. destruct (Z.to_nat a) as [|n] eqn:E.
    - by replace a with 0 by lia.
    - rewrite <- (bz_zb_small a Ha). generalize (zb a). intros b.
      destruct b; vm_compute; (split; [discriminate | reflexivity]). }
  destruct (Ha (v mod 256) Hm) as [H1 H2]. split; [done|]. rewrite H2.
  Z.div_mod_to_equations. lia.
Qed.

(** Reading back the octets of [v], starting at round [i]. *)
Lemma uvarint_loop_octets (n : nat) : ∀ (i v acc : Z) (l r : bytes),
  0 ≤ i → Z.of_nat n = 10 - i → 0 ≤ acc < 2^(7 * i) → 0 ≤ v → Z.shiftl v (7 * i) < 2^64 →
  uvarint_octets n v = Ok l →
  uvarint_loop n i acc (l ++ r) = Ok (acc + Z.shiftl v (7 * i), r).
Proof.
  induction n as [|n IH]; intros i v acc l r Hi Hn Hacc Hv Hmax Hl; [done|].
  cbn [uvarint_octets] in Hl. rewrite Z.shiftl_mul_pow2 in Hmax by lia.
  assert (Hp : 0 < 2^(7*i)) by (apply Z.pow_pos_nonneg; lia).
  destruct (Z.leb_spec 0x80 v) as [Hbig|Hsmall].
  - inv_ok. subst l. cbn [app uvarint_loop read_byte mbind res_bind].
    destruct (low7 v Hbig) as [Hge Hlow]. set (b := zb _) in *.
    rewrite (proj2 (Z.ltb_ge _ _)), Hlow by done.
    pose proof (Z.mod_pos_bound v 128 ltac:(lia)) as Hm.
    pose proof (Z.div_mod v 128 ltac:(lia)) as Hdm.
    assert (Hmul : 2^(7 * (i + 1)) = 128 * 2^(7*i)).
    { replace (7 * (i + 1)) with (7 + 7 * i) by lia. by rewrite Z.pow_add_r by lia. }
    assert (Hsm : Z.shiftl (v mod 128) (7 * i) mod 2^64 = Z.shiftl (v mod 128) (7*i)).
    { apply Z.mod_small. rewrite Z.shiftl_mul_pow2 by lia. nia. }
    rewrite Hsm, lor_low by lia. rewrite Z.shiftr_div_pow2 in Hv0 by lia. change (2^7) with 128 in Hv0.
    rewrite (IH (i + 1) (v / 128)); [| lia | lia | | by apply Z.div_pos; lia | | done].
    + f_equal. f_equal. rewrite !Z.shiftl_mul_pow2, Hmul by lia. nia.
    + rewrite Z.shiftl_mul_pow2, Hmul by lia. nia.
    + rewrite Z.shiftl_mul_pow2, Hmul by lia. nia.
  - injection Hl as <-. cbn [app uvarint_loop read_byte mbind res_bind].
    rewrite bz_zb_small, (proj2 (Z.ltb_lt _ _)) by lia.
    assert (Hc : (i =? 9) && (1 <? v) = false).
    { destruct (Z.eqb_spec i 9) as [->|]; [|done]. cbn [andb]. apply Z.ltb_ge.
      change (2^(7*9)) with 9223372036854775808 in Hmax. lia. }
    rewrite Hc, (Z.mod_small (Z.shiftl v _)), lor_low; [done | lia.. |].
    rewrite Z.shiftl_mul_pow2 by lia. nia.
Qed.

Lemma uvarint_octets_total (n : nat) : ∀ v, 0 ≤ v < 2^(7 * Z.of_nat n) → n ≠ 0%nat → ∃ l, uvarint_octets n v = Ok l.
Proof.
  induction n as [|n IH]; intros v Hv Hn; [done|]. cbn [uvarint_octets].
  destruct (Z.leb_spec 0x80 v) as [Hb|Hb]; [|by eexists].
  destruct (decide (n = 0%nat)) as [->|Hn'].
  { change (2^(7 * Z.of_nat 1)) with 128 in Hv. lia. }
  destruct (IH (Z.shiftr v 7)) as [l ->]; [|done|by eexists].
  rewrite Z.shiftr_div_pow2 by lia. change (2^7) with 128. split; [apply Z.div_pos; lia|].
  apply Z.div_lt_upper_bound; [lia|].
  replace (7 * Z.of_nat (S n)) with (7 + 7 * Z.of_nat n) in Hv by lia. rewrite Z.pow_add_r in Hv by lia.
  change (2^7) with 128 in Hv. lia.
Qed.

Lemma uvarint_roundtrip (v : Z) :
  0 ≤ v < 2^64 → ∃ l, uvarint_octets 10 v = Ok l ∧ ∀ r, uvarint (l ++ r) = Ok (v, r).
Proof.
  intros Hv. destruct (uvarint_octets_total 10 v) as [l Hl]; [|done|].
  { change (2^(7 * Z.of_nat 10)) with 1180591620717411303424. change (2^64) with 18446744073709551616 in Hv. lia. }
  exists l. split; [done|]. intros r. unfold uvarint.
  rewrite (uvarint_loop_octets 10 0 v 0 l r); [by rewrite Z.shiftl_0_r | done | done | cbn; lia | lia | | done].
  rewrite Z.shiftl_0_r. lia.
Qed.

(** * The round trip *)

(** Lengths a Go program can hold: [int] is 64 bits wide. *)
Definition fits (n : Z) : Prop := n < 2^63.

Definition attr_fits (a : Attribute) : Prop :=
  fits (blen (Name a)) ∧ fits (Z.of_nat (length (AttrValues a))) ∧
  Forall (λ v, fits (blen v)) (AttrValues a).

Definition entry_fits (e : Entry) : Prop :=
  fits (blen (EDN e)) ∧ fits (Z.of_nat (length (Attributes e))) ∧ Forall attr_fits (Attributes e).

(** [writes put get a]: [put] appends octets that [get] reads back as [a],
    whatever follows. *)
Definition writes {A} (put : bytes → res entry_err bytes) (get : reader A) (a : A) : Prop :=
  ∃ l, (∀ buf, put buf = Ok (buf ++ l)) ∧ ∀ r, get (l ++ r) = Ok (a, r).

Lemma appendUvarint_writes (v : Z) : 0 ≤ v → fits v → writes (λ buf, appendUvarint buf v) uvarint v.
Proof.
  intros Hv Hf. destruct (uvarint_roundtrip v) as (l & Hl & Hr); [unfold fits in Hf; lia|].
  exists l. split; [|done]. intros buf. unfold appendUvarint. by rewrite Hl.
Qed.

Lemma appendBytes_writes (s : bytes) : fits (blen s) → writes (λ buf, appendBytes buf s) read_bytes s.
Proof.
  intros Hf. destruct (appendUvarint_writes (blen s)) as (l & Hl & Hr); [unfold blen; lia | done |].
  exists (l ++ s). split.
  - intros buf. unfold appendBytes. rewrite Hl. cbn [mbind res_bind]. by rewrite <- app_assoc.
  - intros r. unfold read_bytes. rewrite <- app_assoc, Hr. cbn [mbind res_bind].
    rewrite (proj2 (Z.ltb_ge _ _)) by (unfold blen; rewrite length_app; lia).
    unfold blen. by rewrite Nat2Z.id, take_app_length, drop_app_length.
Qed.

Lemma rfold_writes {A} (put : bytes → A → res entry_err bytes) (get : reader A) (l : list A) :
  (∀ a, a ∈ l → writes (λ buf, put buf a) get a) →
  writes (λ buf, rfold put buf l) (read_list get (length l)) l.
Proof.
  induction l as [|a l IH]; intros H.
  { exists []. split; [|done]. intros buf. cbn. by rewrite app_nil_r. }
  destruct (H a) as (la & Ha & Hra); [left|]. destruct IH as (ll & Hl & Hrl); [intros; apply H; by right|].
  exists (la ++ ll). split.
  - intros buf. cbn [rfold]. rewrite Ha. cbn [mbind res_bind]. by rewrite Hl, <- app_assoc.
  - intros r. cbn [length read_list]. rewrite <- app_assoc, Hra. cbn [mbind res_bind]. by rewrite Hrl.
Qed.

(** A list of non-empty encodings is at least as long as the list. *)
Lemma rfold_length {A} (put : bytes → A → res entry_err bytes) (l : list A) (buf buf' : bytes) :
  (∀ a b b', put b a = Ok b' → (length b < length b')%nat) →
  rfold put buf l = Ok buf' → (length buf + length l ≤ length buf')%nat.
Proof.
  intros H. revert buf. induction l as [|a l IH]; intros buf Hr; cbn [rfold length] in *.
  - injection Hr as <-. lia.
  - inv_ok. apply H in Hv. apply IH in Hr. lia.
Qed.

Lemma appendUvarint_length (buf buf' : bytes) (v : Z) : appendUvarint buf v = Ok buf' → (length buf < length buf')%nat.
Proof.
  unfold appendUvarint. intros H. inv_ok. subst. rewrite length_app. destruct v0; [|cbn; lia].
  cbn [uvarint_octets] in Hv. destruct (0x80 <=? v); inv_ok; done.
Qed.

Lemma appendBytes_length (buf buf' s : bytes) : appendBytes buf s = Ok buf' → (length buf < length buf')%nat.
Proof.
  unfold appendBytes. intros H. inv_ok. subst. apply appendUvarint_length in Hv. rewrite length_app. lia.
Qed.

Lemma appendAttribute_length (buf buf' : bytes) (a : Attribute) :
  appendAttribute buf a = Ok buf' → (length buf < length buf')%nat.
Proof.
  unfold appendAttribute. destruct (beq _ _); [done|]. intros H. inv_ok.
  apply appendBytes_length in Hv. apply appendUvarint_length in Hv0.
  apply rfold_length in H; [lia|]. intros. by eapply appendBytes_length.
Qed.

Lemma appendAttribute_writes (a : Attribute) :
  Name a ≠ [] → attr_fits a → writes (λ buf, appendAttribute buf a) read_attribute a.
Proof.
  intros Hn (H1 & H2 & H3). destruct (appendBytes_writes (Name a) H1) as (ln & Hln & Hrn).
  destruct (appendUvarint_writes (Z.of_nat (length (AttrValues a)))) as (lc & Hlc & Hrc); [lia | done |].
  destruct (rfold_writes appendBytes read_bytes (AttrValues a)) as (lv & Hlv & Hrv).
  { intros v Hv. apply appendBytes_writes. rewrite Forall_forall in H3. auto. }
  exists (ln ++ lc ++ lv). split.
  - intros buf. unfold appendAttribute. rewrite (proj2 (beq_false _ _)) by done.
    rewrite Hln. cbn [mbind res_bind]. rewrite Hlc. cbn [mbind res_bind]. by rewrite Hlv, <- !app_assoc.
  - intros r. unfold read_attribute. rewrite <- !app_assoc, Hrn. cbn [mbind res_bind].
    rewrite (proj2 (Nat.eqb_neq _ _)) by (by destruct (Name a)).
    rewrite Hrc. cbn [mbind res_bind].
    pose proof (rfold_length appendBytes (AttrValues a) [] lv (λ v b b', appendBytes_length b b' v) (Hlv [])) as Hlen.
    rewrite (proj2 (Z.ltb_ge _ _)) by (unfold blen; rewrite length_app; cbn in Hlen; lia).
    rewrite Nat2Z.id, Hrv. cbn [mbind res_bind]. by destruct a.
Qed.

Lemma decode_encodeEntry_aux (e : Entry) (buf : bytes) :
  entry_fits e → encodeEntry e = Ok buf → decodeEntry buf = Ok e.
Proof.
  intros (H1 & H2 & H3) He.
  assert (Hn : Forall (λ a, Name a ≠ []) (Attributes e)).
  { unfold encodeEntry in He. inv_ok. clear -He. revert v0 He.
    induction (Attributes e) as [|a l IH]; intros b He; [constructor|]. cbn [rfold] in He. inv_ok.
    constructor; [|by eapply IH]. unfold appendAttribute in Hv. destruct (beq (Name a) []) eqn:E; [done|]. by bprop. }
  destruct (appendBytes_writes (EDN e) H1) as (ld & Hld & Hrd).
  destruct (appendUvarint_writes (Z.of_nat (length (Attributes e)))) as (lc & Hlc & Hrc); [lia | done |].
  destruct (rfold_writes appendAttribute read_attribute (Attributes e)) as (la & Hla & Hra).
  { intros a Ha. rewrite Forall_forall in Hn, H3. apply appendAttribute_writes; auto. }
  unfold encodeEntry in He. rewrite Hld in He. cbn [mbind res_bind] in He. rewrite Hlc in He.
  cbn [mbind res_bind] in He. rewrite Hla in He. injection He as <-.
  unfold decodeEntry. cbn [app read_byte mbind res_bind]. rewrite Z.eqb_refl. cbn [negb].
  rewrite <- !app_assoc, Hrd. cbn [mbind res_bind]. rewrite Hrc. cbn [mbind res_bind].
  pose proof (rfold_length appendAttribute (Attributes e) [] la
    (λ a b b', appendAttribute_length b b' a) (Hla [])) as Hlen.
  rewrite (proj2 (Z.ltb_ge _ _)) by (unfold blen; cbn in Hlen; lia).
  rewrite Nat2Z.id. specialize (Hra []). rewrite app_nil_r in Hra. rewrite Hra. by destruct e.
Qed.

Lemma encodeEntry_total (e : Entry) :
  entry_fits e → Forall (λ a, Name a ≠ []) (Attributes e) → ∃ buf, encodeEntry e = Ok buf.
Proof.
  intros (H1 & H2 & H3) Hn. unfold encodeEntry.
  destruct (appendBytes_writes (EDN e) H1) as (ld & -> & _). cbn [mbind res_bind].
  destruct (appendUvarint_writes (Z.of_nat (length (Attributes e)))) as (lc & -> & _); [lia | done |].
  cbn [mbind res_bind].
  destruct (rfold_writes appendAttribute read_attribute (Attributes e)) as (la & -> & _); [|by eexists].
  intros a Ha. rewrite Forall_forall in Hn, H3. apply appendAttribute_writes; auto.
Qed.

(** * What the reader accepts *)

Lemma read_attribute_name (r r' : bytes) (a : Attribute) : read_attribute r = Ok (a, r') → Name a ≠ [].
Proof.
  unfold read_attribute. intros H. inv_ok. destruct v as [name r1].
  destruct (Nat.eqb_spec (length name) 0); [done|]. inv_ok. destruct v as [k r2].
  destruct (_ <? _); [done|]. inv_ok. destruct v as [l r3]. injection H as <- <-. cbn. by destruct name.
Qed.

Lemma decodeEntry_names (buf : bytes) (e : Entry) :
  decodeEntry buf = Ok e → Forall (λ a, Name a ≠ []) (Attributes e).
Proof.
  unfold decodeEntry. intros H. inv_ok. destruct v as [ver r1]. destruct (negb _); [done|].
  inv_ok. destruct v as [dn r2]. inv_ok. destruct v as [n r3]. destruct (_ <? _); [done|].
  inv_ok. destruct v as [attrs r4]. destruct r4; [|done]. injection H as <-. cbn [Attributes].
  clear -Hv2. revert r3 attrs Hv2. generalize (Z.to_nat n). clear. intros k. induction k as [|k IH]; intros r l H; cbn [read_list] in H.
  - injection H as <- <-. constructor.
  - inv_ok. destruct v as [a r1]. inv_ok. destruct v as [l' r2]. injection H as <- ->.
    constructor; [by eapply read_attribute_name | by eapply IH].
Qed.

(** The entry codec round-trips: an entry with named attributes encodes, and
    what was encoded decodes to the same entry, for every entry whose lengths fit
    Go's 64-bit [int]; the encoder's ten-octet scratch array never overflows. *)
Theorem decode_encodeEntry (e : Entry) :
  entry_fits e → Forall (λ a, Name a ≠ []) (Attributes e) →
  ∃ buf, encodeEntry e = Ok buf ∧ decodeEntry buf = Ok e.
Proof.
  intros Hf Hn. destruct (encodeEntry_total e Hf Hn) as [buf Hb]. exists buf. split; [done|].
  by apply decode_encodeEntry_aux.
Qed.

Definition sample_entry : Entry :=
  MkEntry (B "uid=ada,dc=example") [MkAttribute (B "uid") [B "ada"]; MkAttribute (B "cn") [B "Ada"; B "A. L."]].

Lemma sample_entry_fits : entry_fits sample_entry.
Proof. repeat first [split | constructor]; vm_compute; reflexivity. Qed.

Lemma decode_encodeEntry_witness :
  ∃ buf, encodeEntry sample_entry = Ok buf ∧ decodeEntry buf = Ok sample_entry.
Proof.
  apply (decode_encodeEntry sample_entry sample_entry_fits).
  repeat constructor; discriminate.
Defined.

(** Whatever octets the database holds, a decoded entry has only named
    attributes, so the store can always write it back. *)
Theorem decodeEntry_reencodes (buf : bytes) (e : Entry) :
  decodeEntry buf = Ok e → entry_fits e → ∃ buf', encodeEntry e = Ok buf' ∧ decodeEntry buf' = Ok e.
Proof.
  intros Hd Hf. destruct (encodeEntry_total e Hf (decodeEntry_names buf e Hd)) as [buf' Hb].
  exists buf'. split; [done|]. by apply decode_encodeEntry_aux.
Qed.

Lemma decodeEntry_reencodes_witness :
  ∃ buf', encodeEntry (MkEntry (B "dc=a") []) = Ok buf' ∧ decodeEntry buf' = Ok (MkEntry (B "dc=a") []).
Proof.
  apply (decodeEntry_reencodes [x01; x84; x00; x64; x63; x3d; x61; x00]).
  - vm_compute. reflexivity.
  - repeat first [split | constructor]; vm_compute; reflexivity.
Defined.
