(* ===== verification/Attr.v ===== *)
(** Attribute names for policy decisions: [src/internal/config/attr.go].

    Descriptions are lowercased and trimmed; policy checks strip the options and
    resolve protected OIDs and second descriptors.  Go maps keyed by string that
    the program only looks up are association lists here. *)

From S2P Require Import Prelude GoStrings.

(** Lookup in a literal Go map. *)
Fixpoint assoc {A} (l : list (bytes * A)) (k : bytes) : option A :=
  match l with
  | [] => None
  | (k', a) :: l' => if (k =b? k')%ldap then Some a else assoc l' k
  end.

Definition semicolon : byte := x3b.

(** * Tables *)

Definition operationalDeny : list bytes :=
  [B "userpassword";
   B "authpassword";
   B "userpkcs12";
   B "memberof";
   B "modifiersname";
   B "modifytimestamp";
   B "entryuuid";
   B "nsuniqueid";
   B "createtimestamp";
   B "creatorsname";
   B "aci";
   B "pwdaccountlockedtime";
   B "nsaccountlock";
   B "pwdreset";
   B "passwordexpirationtime";
   B "accountunlocktime";
   B "passwordretrycount";
   B "entrydn";
   B "numsubordinates"].

Record attrAlias : Type := AttrAlias { alias_typ : bytes; alias_primary : bytes }.

Definition attributeNameAliases : list (bytes * attrAlias) :=
  [(B "userid", AttrAlias (B "uid") (B "uid"));
   (B "commonname", AttrAlias (B "cn") (B "cn"));
   (B "surname", AttrAlias (B "sn") (B "sn"));
   (B "organizationalunitname", AttrAlias (B "ou") (B "ou"));
   (B "domaincomponent", AttrAlias (B "dc") (B "dc"));
   (B "organizationname", AttrAlias (B "o") (B "o"));
   (B "rfc822mailbox", AttrAlias (B "mail") (B "mail"));
   (B "gn", AttrAlias (B "givenname") (B "givenName"))].

Definition protectedAttributeOIDs : list (bytes * bytes) :=
  [(B "2.5.4.35", B "userpassword");
   (B "1.3.6.1.4.1.4203.1.3.4", B "authpassword");
   (B "2.16.840.1.113730.3.1.216", B "userpkcs12");
   (B "2.16.840.1.113730.3.1.542", B "nsuniqueid");
   (B "2.16.840.1.113730.3.1.93", B "passwordretrycount");
   (B "1.3.6.1.1.20", B "entrydn");
   (B "2.16.840.1.113730.3.1.55", B "aci");
   (B "2.16.840.1.113730.3.1.610", B "nsaccountlock");
   (B "2.16.840.1.113730.3.1.612", B "memberof");
   (B "1.3.6.1.4.1.42.2.27.8.1.17", B "pwdaccountlockedtime");
   (B "1.3.6.1.4.1.42.2.27.8.1.22", B "pwdreset");
   (B "2.16.840.1.113730.3.1.598", B "passwordexpirationtime");
   (B "2.16.840.1.113730.3.1.95", B "accountunlocktime");
   (B "2.5.18.1", B "createtimestamp");
   (B "2.5.18.2", B "modifytimestamp");
   (B "2.5.18.3", B "creatorsname");
   (B "2.5.18.4", B "modifiersname");
   (B "1.3.6.1.1.16.4", B "entryuuid");
   (B "2.5.4.0", B "objectclass")].

(** * Names *)

Section attr.
Context {U : Unicode}.

Definition CanonicalAttr (name : bytes) : bytes := to_lower (trim_space name).

Definition CanonicalAttrType (name : bytes) : bytes :=
  let base := (cut_byte semicolon (CanonicalAttr name)).1.1 in
  match assoc protectedAttributeOIDs base with
  | Some resolved => resolved
  | None =>
    match assoc attributeNameAliases base with
    | Some a => alias_typ a
    | None => base
    end
  end.

(** [len(base) > 0 && base[0] >= '0' && base[0] <= '9'] *)
Definition starts_digit (s : bytes) : bool :=
  match s with
  | b :: _ => in_range 48 57 (bz b)
  | [] => false
  end.

Definition ForbiddenUserAttr (name : bytes) : bool :=
  let base := CanonicalAttrType name in
  if starts_digit base then true
  else bool_decide (CanonicalAttrType name ∈ operationalDeny).

Definition ForbiddenUserWriteAttr (name : bytes) : bool :=
  if ForbiddenUserAttr name then true
  else
    let t := CanonicalAttrType name in
    if (t =b? B "objectclass")%ldap then true
    else if bool_decide (t ∈ [B "uid"; B "cn"; B "sn"]) then negb (CanonicalAttr name =b? t)%ldap
    else false.

Definition RequiredUserObjectClasses : list bytes :=
  [B "top"; B "person"; B "organizationalPerson"; B "inetOrgPerson"].

Definition AttrAliasType (name : bytes) : option bytes :=
  let base := (cut_byte semicolon (CanonicalAttr name)).1.1 in
  alias_typ <$> assoc attributeNameAliases base.

Definition PrimaryAttrDescription (name : bytes) : bytes :=
  let name := trim_space name in
  let '(base, opts, hasOpts) := cut_byte semicolon name in
  match assoc attributeNameAliases (to_lower (trim_space base)) with
  | None => name
  | Some a => if (hasOpts : bool) then alias_primary a ++ B ";" ++ opts else alias_primary a
  end.

End attr.
