(* ===== verification/Schema.v ===== *)
(** The schema: [src/internal/ldapserver/schema.go] and the registry and entry
    check of [schema_registry.go].

    [Schema] is the Go interface, a record of operations; [SchemaLaws] what its
    clients rely on; [Registry] the implementation, two maps indexed by lowercase
    name and by OID.  [checkEntrySchema] walks SUP chains with a visited set:
    the recursion takes the number of classes as fuel, and the fuel is proved
    never to run out. *)

From S2P Require Import Prelude GoStrings Message.

(** * Definitions *)

Inductive ObjectClassKind : Type := ObjectClassAbstract | ObjectClassStructural | ObjectClassAuxiliary.

Record ObjectClassDef : Type := MkObjectClassDef {
  oc_OID : bytes;
  oc_Name : bytes;
  oc_Kind : ObjectClassKind;
  oc_Sup : list bytes;
  oc_Must : list bytes;
  oc_May : list bytes;
}.

Record AttributeTypeDef : Type := MkAttributeTypeDef {
  at_OID : bytes;
  at_Name : bytes;
  at_Equality : bytes;
  at_Syntax : bytes;
  at_SingleValue : bool;
  at_Operational : bool;
}.

(** The [Schema] interface. *)
Record Schema : Type := MkSchema {
  ObjectClass : bytes → option ObjectClassDef;
  AttributeType : bytes → option AttributeTypeDef;
  ObjectClasses : list ObjectClassDef;
  AttributeTypes : list AttributeTypeDef;
}.

(** * The registry *)

Inductive schema_err : Type :=
| ErrNameAndOIDRequired (name : bytes)
| ErrDuplicate (key : bytes)
| ErrUnknownSup (name sup : bytes)
| ErrUnknownAttribute (name attr : bytes).

Record Registry : Type := MkRegistry {
  ocs : gmap bytes ObjectClassDef;
  ats : gmap bytes AttributeTypeDef;
}.

Section registry.
Context {U : Unicode}.

(** Registers one definition under both of its keys. *)
Definition add_keys {A} (name oid : bytes) (d : A) (m : gmap bytes A) : res schema_err (gmap bytes A) :=
  if (name =b? [])%ldap || (oid =b? [])%ldap then Err (ErrNameAndOIDRequired name)
  else
    rfold (λ m key,
      match m !! key with
      | Some _ => Err (ErrDuplicate key)
      | None => Ok (<[key := d]> m)
      end) m [to_lower name; oid].

Definition reg_ObjectClass (r : Registry) (name : bytes) : option ObjectClassDef := ocs r !! to_lower name.

Definition reg_AttributeType (r : Registry) (name : bytes) : option AttributeTypeDef := ats r !! to_lower name.

(** The references of one object class resolve. *)
Definition check_refs (r : Registry) (oc : ObjectClassDef) : res schema_err unit :=
  _ ← rmap (λ sup, ensure (bool_decide (is_Some (reg_ObjectClass r sup))) (ErrUnknownSup (oc_Name oc) sup)) (oc_Sup oc);
  _ ← rmap (λ a, ensure (bool_decide (is_Some (reg_AttributeType r a))) (ErrUnknownAttribute (oc_Name oc) a))
        (oc_Must oc ++ oc_May oc);
  Ok ().

Definition NewRegistry (ocs : list ObjectClassDef) (ats : list AttributeTypeDef) : res schema_err Registry :=
  om ← rfold (λ m oc, add_keys (oc_Name oc) (oc_OID oc) oc m) ∅ ocs;
  am ← rfold (λ m a, add_keys (at_Name a) (at_OID a) a m) ∅ ats;
  let r := MkRegistry om am in
  _ ← rmap (check_refs r) ocs;
  Ok r.

(** Insertion by octet order of a key, the order of [slices.SortFunc] on unique keys. *)
Fixpoint insert_by {A} (key : A → bytes) (x : A) (l : list A) : list A :=
  match l with
  | [] => [x]
  | y :: l' => if (compare (key x) (key y) <=? 0)%Z then x :: l else y :: insert_by key x l'
  end.

Definition sort_by {A} (key : A → bytes) (l : list A) : list A := foldr (insert_by key) [] l.

(** The values of a registry map without OID-alias duplicates. *)
Fixpoint dedup_by {A} (key : A → bytes) (seen : list bytes) (l : list A) : list A :=
  match l with
  | [] => []
  | x :: l' => if bool_decide (key x ∈ seen) then dedup_by key seen l' else x :: dedup_by key (key x :: seen) l'
  end.

Definition reg_ObjectClasses (r : Registry) : list ObjectClassDef :=
  sort_by oc_OID (dedup_by oc_OID [] (map_to_list (ocs r)).*2).

Definition reg_AttributeTypes (r : Registry) : list AttributeTypeDef :=
  sort_by at_OID (dedup_by at_OID [] (map_to_list (ats r)).*2).

Definition registry_schema (r : Registry) : Schema := {|
  ObjectClass := reg_ObjectClass r;
  AttributeType := reg_AttributeType r;
  ObjectClasses := reg_ObjectClasses r;
  AttributeTypes := reg_AttributeTypes r;
|}.

(** * The entry check *)

Inductive schema_violation : Type :=
| NoObjectClass
| UnknownObjectClass (v : bytes)
| MissingAttribute (a : bytes)
| SingleValueViolation
| OutOfFuel.

(** [attrIndex] of [op_write.go]: the first attribute of that name. *)
Definition attrIndex (e : Entry) (name : bytes) : option nat :=
  fst <$> list_find (λ a, equal_fold (Name a) name = true) (Attributes e).

(** [collectMust]: the pair is ([must], [visited]). *)
Fixpoint collectMust (s : Schema) (fuel : nat) (st : gset bytes * gset bytes) (oc : ObjectClassDef)
    : option (gset bytes * gset bytes) :=
  let '(must, visited) := st in
  let key := to_lower (oc_Name oc) in
  if bool_decide (key ∈ visited) then Some st
  else match fuel with
  | O => None
  | S fuel' =>
    let st := (must ∪ list_to_set (to_lower <$> oc_Must oc), {[key]} ∪ visited) in
    foldl (λ acc sup,
      st ← acc;
      match ObjectClass s sup with
      | Some supOC => collectMust s fuel' st supOC
      | None => Some st
      end) (Some st) (oc_Sup oc)
  end.

(** The loop over the entry's objectClass values. *)
Definition collect_classes (s : Schema) (vals : list bytes) : res schema_violation (gset bytes * gset bytes) :=
  rfold (λ st v,
    match ObjectClass s v with
    | None => Err (UnknownObjectClass v)
    | Some oc =>
      match collectMust s (length (ObjectClasses s)) st oc with
      | Some st' => Ok st'
      | None => Err OutOfFuel
      end
    end) (∅, ∅) vals.

(** [counts[strings.ToLower(a.Name)] += len(a.Values)] *)
Definition value_count (e : Entry) (name : bytes) : nat :=
  sum_list (length ∘ AttrValues <$> filter (λ a, to_lower (Name a) = name) (Attributes e)).

Definition single_value_violation (s : Schema) (e : Entry) : bool :=
  existsb (λ a,
    let name := to_lower (Name a) in
    (1 <? value_count e name)%nat &&
    match AttributeType s name with
    | Some t => at_SingleValue t
    | None => false
    end) (Attributes e).

(** The attribute is present with at least one value, under its first spelling. *)
Definition has_attr (e : Entry) (a : bytes) : bool :=
  match attrIndex e a with
  | None => false
  | Some i =>
    match Attributes e !! i with
    | Some at_ => negb (length (AttrValues at_) =? 0)%nat
    | None => false
    end
  end.

Definition checkEntrySchema (s : Schema) (e : Entry) : res schema_violation unit :=
  if (length (ObjectClasses s) =? 0)%nat then Ok ()
  else
    let ocValues := Values e (B "objectClass") in
    if (length ocValues =? 0)%nat then Err NoObjectClass
    else
      '(must, _) ← collect_classes s ocValues;
      _ ← rmap (λ a, ensure (has_attr e a) (MissingAttribute a)) (sort_by id (elements must));
      if single_value_violation s e then Err SingleValueViolation else Ok ().

End registry.

(** * The standard tables *)

Definition syntaxDirectoryString : bytes := B "1.3.6.1.4.1.1466.115.121.1.15".
Definition syntaxPrintableString : bytes := B "1.3.6.1.4.1.1466.115.121.1.44".
Definition syntaxIA5String : bytes := B "1.3.6.1.4.1.1466.115.121.1.26".
Definition syntaxDN : bytes := B "1.3.6.1.4.1.1466.115.121.1.12".
Definition syntaxOID : bytes := B "1.3.6.1.4.1.1466.115.121.1.38".
Definition syntaxInteger : bytes := B "1.3.6.1.4.1.1466.115.121.1.27".
Definition syntaxOctetString : bytes := B "1.3.6.1.4.1.1466.115.121.1.40".
Definition syntaxGeneralizedTime : bytes := B "1.3.6.1.4.1.1466.115.121.1.24".
Definition syntaxTelephoneNumber : bytes := B "1.3.6.1.4.1.1466.115.121.1.50".
Definition syntaxJPEG : bytes := B "1.3.6.1.4.1.1466.115.121.1.28".
Definition syntaxAttrTypeDesc : bytes := B "1.3.6.1.4.1.1466.115.121.1.3".
Definition syntaxObjectClassDesc : bytes := B "1.3.6.1.4.1.1466.115.121.1.37".
Definition syntaxMatchingRuleDesc : bytes := B "1.3.6.1.4.1.1466.115.121.1.30".

Definition standardObjectClasses : list ObjectClassDef :=
  [MkObjectClassDef (B "2.5.6.0") (B "top") ObjectClassAbstract []
     [B "objectClass"]
     [];
   MkObjectClassDef (B "0.9.2342.19200300.100.4.13") (B "domain") ObjectClassStructural [B "top"]
     [B "dc"]
     [B "description"; B "o"; B "l"; B "st"; B "street"; B "postalAddress"; B "telephoneNumber"; B "destinationIndicator"; B "seeAlso"; B "owner"; B "userPassword"; B "businessCategory"];
   MkObjectClassDef (B "2.5.6.5") (B "organizationalUnit") ObjectClassStructural [B "top"]
     [B "ou"]
     [B "description"; B "o"; B "l"; B "st"; B "street"; B "postalAddress"; B "telephoneNumber"; B "destinationIndicator"; B "seeAlso"; B "owner"; B "userPassword"; B "businessCategory"; B "aci"];
   MkObjectClassDef (B "2.5.6.6") (B "person") ObjectClassStructural [B "top"]
     [B "sn"; B "cn"]
     [B "userPassword"; B "telephoneNumber"; B "seeAlso"; B "description"];
   MkObjectClassDef (B "2.5.6.7") (B "organizationalPerson") ObjectClassStructural [B "person"]
     []
     [B "title"; B "ou"; B "o"; B "l"; B "st"; B "street"; B "postalAddress"; B "destinationIndicator"; B "telephoneNumber"; B "seeAlso"; B "businessCategory"];
   MkObjectClassDef (B "2.16.840.1.113730.3.2.2") (B "inetOrgPerson") ObjectClassStructural [B "organizationalPerson"]
     []
     [B "uid"; B "mail"; B "displayName"; B "givenName"; B "initials"; B "employeeNumber"; B "employeeType"; B "departmentNumber"; B "manager"; B "mobile"; B "homePhone"; B "pager"; B "roomNumber"; B "carLicense"; B "jpegPhoto"; B "nsAccountLock"];
   MkObjectClassDef (B "2.5.6.9") (B "groupOfNames") ObjectClassStructural [B "top"]
     [B "member"; B "cn"]
     [B "description"; B "o"; B "ou"; B "owner"; B "seeAlso"; B "businessCategory"; B "aci"];
   MkObjectClassDef (B "2.5.6.17") (B "groupOfUniqueNames") ObjectClassStructural [B "top"]
     [B "uniqueMember"; B "cn"]
     [B "description"; B "o"; B "ou"; B "owner"; B "seeAlso"; B "businessCategory"; B "aci"];
   MkObjectClassDef (B "0.9.2342.19200300.100.4.14") (B "device") ObjectClassStructural [B "top"]
     [B "cn"]
     [B "serialNumber"; B "seeAlso"; B "owner"; B "ou"; B "o"; B "l"; B "description"];
   MkObjectClassDef (B "2.16.840.1.113730.3.2.334") (B "nsmemberof") ObjectClassAuxiliary [B "top"]
     []
     [B "memberOf"];
   MkObjectClassDef (B "2.5.17.0") (B "subschema") ObjectClassAuxiliary [B "top"]
     []
     [B "attributeTypes"; B "objectClasses"; B "matchingRules"]].

Definition standardAttributeTypes : list AttributeTypeDef :=
  [MkAttributeTypeDef (B "2.5.4.0") (B "objectClass") (B "objectIdentifierMatch") syntaxOID false false;
   MkAttributeTypeDef (B "2.5.4.3") (B "cn") (B "caseIgnoreMatch") syntaxDirectoryString false false;
   MkAttributeTypeDef (B "2.5.4.4") (B "sn") (B "caseIgnoreMatch") syntaxDirectoryString false false;
   MkAttributeTypeDef (B "2.5.4.5") (B "serialNumber") (B "caseIgnoreMatch") syntaxPrintableString false false;
   MkAttributeTypeDef (B "2.5.4.7") (B "l") (B "caseIgnoreMatch") syntaxDirectoryString false false;
   MkAttributeTypeDef (B "2.5.4.8") (B "st") (B "caseIgnoreMatch") syntaxDirectoryString false false;
   MkAttributeTypeDef (B "2.5.4.9") (B "street") (B "caseIgnoreMatch") syntaxDirectoryString false false;
   MkAttributeTypeDef (B "2.5.4.10") (B "o") (B "caseIgnoreMatch") syntaxDirectoryString false false;
   MkAttributeTypeDef (B "2.5.4.11") (B "ou") (B "caseIgnoreMatch") syntaxDirectoryString false false;
   MkAttributeTypeDef (B "2.5.4.12") (B "title") (B "caseIgnoreMatch") syntaxDirectoryString false false;
   MkAttributeTypeDef (B "2.5.4.13") (B "description") (B "caseIgnoreMatch") syntaxDirectoryString false false;
   MkAttributeTypeDef (B "2.5.4.15") (B "businessCategory") (B "caseIgnoreMatch") syntaxDirectoryString false false;
   MkAttributeTypeDef (B "2.5.4.16") (B "postalAddress") (B "caseIgnoreListMatch") syntaxDirectoryString false false;
   MkAttributeTypeDef (B "2.5.4.20") (B "telephoneNumber") (B "telephoneNumberMatch") syntaxTelephoneNumber false false;
   MkAttributeTypeDef (B "2.5.4.27") (B "destinationIndicator") (B "caseIgnoreMatch") syntaxPrintableString false false;
   MkAttributeTypeDef (B "2.5.4.31") (B "member") (B "distinguishedNameMatch") syntaxDN false false;
   MkAttributeTypeDef (B "2.5.4.32") (B "owner") (B "distinguishedNameMatch") syntaxDN false false;
   MkAttributeTypeDef (B "2.5.4.34") (B "seeAlso") (B "distinguishedNameMatch") syntaxDN false false;
   MkAttributeTypeDef (B "2.5.4.35") (B "userPassword") (B "octetStringMatch") syntaxOctetString false false;
   MkAttributeTypeDef (B "2.5.4.42") (B "givenName") (B "caseIgnoreMatch") syntaxDirectoryString false false;
   MkAttributeTypeDef (B "2.5.4.43") (B "initials") (B "caseIgnoreMatch") syntaxDirectoryString false false;
   MkAttributeTypeDef (B "2.5.4.50") (B "uniqueMember") (B "uniqueMemberMatch") syntaxDN false false;
   MkAttributeTypeDef (B "0.9.2342.19200300.100.1.1") (B "uid") (B "caseIgnoreMatch") syntaxDirectoryString false false;
   MkAttributeTypeDef (B "0.9.2342.19200300.100.1.3") (B "mail") (B "caseIgnoreIA5Match") syntaxIA5String false false;
   MkAttributeTypeDef (B "0.9.2342.19200300.100.1.6") (B "roomNumber") (B "caseIgnoreMatch") syntaxDirectoryString false false;
   MkAttributeTypeDef (B "0.9.2342.19200300.100.1.10") (B "manager") (B "distinguishedNameMatch") syntaxDN false false;
   MkAttributeTypeDef (B "0.9.2342.19200300.100.1.20") (B "homePhone") (B "telephoneNumberMatch") syntaxTelephoneNumber false false;
   MkAttributeTypeDef (B "0.9.2342.19200300.100.1.25") (B "dc") (B "caseIgnoreIA5Match") syntaxIA5String true false;
   MkAttributeTypeDef (B "0.9.2342.19200300.100.1.41") (B "mobile") (B "telephoneNumberMatch") syntaxTelephoneNumber false false;
   MkAttributeTypeDef (B "0.9.2342.19200300.100.1.42") (B "pager") (B "telephoneNumberMatch") syntaxTelephoneNumber false false;
   MkAttributeTypeDef (B "0.9.2342.19200300.100.1.60") (B "jpegPhoto") (B "") syntaxJPEG false false;
   MkAttributeTypeDef (B "2.16.840.1.113730.3.1.1") (B "carLicense") (B "caseIgnoreMatch") syntaxDirectoryString false false;
   MkAttributeTypeDef (B "2.16.840.1.113730.3.1.2") (B "departmentNumber") (B "caseIgnoreMatch") syntaxDirectoryString false false;
   MkAttributeTypeDef (B "2.16.840.1.113730.3.1.3") (B "employeeNumber") (B "caseIgnoreMatch") syntaxDirectoryString true false;
   MkAttributeTypeDef (B "2.16.840.1.113730.3.1.4") (B "employeeType") (B "caseIgnoreMatch") syntaxDirectoryString false false;
   MkAttributeTypeDef (B "2.16.840.1.113730.3.1.241") (B "displayName") (B "caseIgnoreMatch") syntaxDirectoryString true false;
   MkAttributeTypeDef (B "2.16.840.1.113730.3.1.610") (B "nsAccountLock") (B "caseIgnoreMatch") syntaxDirectoryString true false;
   MkAttributeTypeDef (B "2.16.840.1.113730.3.1.612") (B "memberOf") (B "distinguishedNameMatch") syntaxDN false true;
   MkAttributeTypeDef (B "1.3.6.1.4.1.42.2.27.8.1.17") (B "pwdAccountLockedTime") (B "generalizedTimeMatch") syntaxGeneralizedTime true true;
   MkAttributeTypeDef (B "1.3.6.1.4.1.42.2.27.8.1.22") (B "pwdReset") (B "caseIgnoreMatch") syntaxDirectoryString true true;
   MkAttributeTypeDef (B "2.16.840.1.113730.3.1.598") (B "passwordExpirationTime") (B "generalizedTimeMatch") syntaxGeneralizedTime true true;
   MkAttributeTypeDef (B "2.16.840.1.113730.3.1.95") (B "accountUnlockTime") (B "generalizedTimeMatch") syntaxGeneralizedTime true true;
   MkAttributeTypeDef (B "2.16.840.1.113730.3.1.55") (B "aci") (B "") syntaxIA5String false false;
   MkAttributeTypeDef (B "2.5.18.1") (B "createTimestamp") (B "generalizedTimeMatch") syntaxGeneralizedTime true true;
   MkAttributeTypeDef (B "2.5.18.2") (B "modifyTimestamp") (B "generalizedTimeMatch") syntaxGeneralizedTime true true;
   MkAttributeTypeDef (B "2.5.18.3") (B "creatorsName") (B "distinguishedNameMatch") syntaxDN true true;
   MkAttributeTypeDef (B "2.5.18.4") (B "modifiersName") (B "distinguishedNameMatch") syntaxDN true true;
   MkAttributeTypeDef (B "1.3.6.1.1.16.4") (B "entryUUID") (B "caseIgnoreMatch") syntaxDirectoryString true true;
   MkAttributeTypeDef (B "1.3.6.1.4.1.1466.101.120.5") (B "namingContexts") (B "distinguishedNameMatch") syntaxDN false true;
   MkAttributeTypeDef (B "2.5.18.10") (B "subschemaSubentry") (B "distinguishedNameMatch") syntaxDN true true;
   MkAttributeTypeDef (B "1.3.6.1.4.1.1466.101.120.13") (B "supportedControl") (B "objectIdentifierMatch") syntaxOID false true;
   MkAttributeTypeDef (B "1.3.6.1.4.1.1466.101.120.7") (B "supportedExtension") (B "objectIdentifierMatch") syntaxOID false true;
   MkAttributeTypeDef (B "1.3.6.1.4.1.1466.101.120.15") (B "supportedLDAPVersion") (B "integerMatch") syntaxInteger false true;
   MkAttributeTypeDef (B "1.3.6.1.4.1.1466.101.120.111") (B "vendorName") (B "caseIgnoreMatch") syntaxDirectoryString true true;
   MkAttributeTypeDef (B "1.3.6.1.4.1.1466.101.120.112") (B "vendorVersion") (B "caseIgnoreMatch") syntaxDirectoryString true true;
   MkAttributeTypeDef (B "2.5.21.5") (B "attributeTypes") (B "") syntaxAttrTypeDesc false true;
   MkAttributeTypeDef (B "2.5.21.6") (B "objectClasses") (B "") syntaxObjectClassDesc false true;
   MkAttributeTypeDef (B "2.5.21.4") (B "matchingRules") (B "") syntaxMatchingRuleDesc false true].

Definition StandardSchema {U : Unicode} : res schema_err Registry :=
  NewRegistry standardObjectClasses standardAttributeTypes.

(** Facts of the schema: the registry satisfies the interface's laws, the SUP walk
    visits exactly the reachable classes, and [checkEntrySchema] accepts exactly
    the entries that carry every MUST attribute of those classes. *)

Section facts.
Context {U : Unicode}.

(** What the entry check relies on of a [Schema]. *)
Class SchemaLaws (s : Schema) : Prop := {
  oc_listed : ∀ n oc, ObjectClass s n = Some oc → oc ∈ ObjectClasses s;
  oc_unique : ∀ a b, a ∈ ObjectClasses s → b ∈ ObjectClasses s →
    to_lower (oc_Name a) = to_lower (oc_Name b) → a = b;
}.

(** * The registry *)

(** Every definition is indexed under exactly its two keys. *)
Definition indexed {A} (name oid : A → bytes) (m : gmap bytes A) : Prop :=
  ∀ k d, m !! k = Some d →
    m !! to_lower (name d) = Some d ∧ m !! oid d = Some d.

Lemma add_keys_indexed {A} (name oid : A → bytes) (d : A) (m m' : gmap bytes A) :
  indexed name oid m → add_keys (name d) (oid d) d m = Ok m' → indexed name oid m'.
Proof.
  intros Hm H. unfold add_keys in H. destruct (_ || _); [done|]. cbn [rfold] in H. inv_ok.
  destruct (m !! to_lower (name d)) eqn:E1; [done|]. injection Hv as <-.
  destruct (<[to_lower (name d):=d]> m !! oid d) eqn:E2; [done|]. inv_ok. subst v0 m'.
  apply lookup_insert_None in E2 as [E2 Hne].
  intros k d' Hk.
  assert (Hd : m !! k = Some d' → <[oid d:=d]> (<[to_lower (name d):=d]> m) !! to_lower (name d') = Some d' ∧
    <[oid d:=d]> (<[to_lower (name d):=d]> m) !! oid d' = Some d').
  { intros Hmk. destruct (Hm k d' Hmk) as [H1 H2].
    split; (rewrite lookup_insert_ne by congruence); by rewrite lookup_insert_ne by congruence. }
  destruct (decide (k = oid d)) as [->|Hk1]; [rewrite lookup_insert_eq in Hk|rewrite lookup_insert_ne in Hk by done;
    destruct (decide (k = to_lower (name d))) as [->|Hk2]; [rewrite lookup_insert_eq in Hk|
      rewrite lookup_insert_ne in Hk by done; by apply Hd]]; injection Hk as <-;
    rewrite lookup_insert_eq, lookup_insert_ne, lookup_insert_eq by done; done.
Qed.

Lemma add_all_indexed {A} (name oid : A → bytes) (l : list A) (m m' : gmap bytes A) :
  indexed name oid m → rfold (λ m d, add_keys (name d) (oid d) d m) m l = Ok m' → indexed name oid m'.
Proof.
  revert m. induction l as [|d l IH]; intros m Hm H; cbn [rfold] in H; [by injection H as <-|].
  inv_ok. eapply IH; [|done]. by eapply add_keys_indexed.
Qed.

Lemma insert_by_elem {A} (key : A → bytes) (x y : A) (l : list A) : y ∈ insert_by key x l ↔ y = x ∨ y ∈ l.
Proof. induction l as [|z l IH]; cbn; [set_solver|]. case_match; set_solver. Qed.

Lemma sort_by_elem {A} (key : A → bytes) (y : A) (l : list A) : y ∈ sort_by key l ↔ y ∈ l.
Proof.
  induction l as [|x l IH]; [done|]. cbn. rewrite insert_by_elem, IH. set_solver.
Qed.

Lemma dedup_by_elem {A} (key : A → bytes) (l : list A) (seen : list bytes) (x : A) :
  x ∈ l → key x ∉ seen → (∀ y, y ∈ l → key y = key x → y = x) → x ∈ dedup_by key seen l.
Proof.
  revert seen. induction l as [|y l IH]; intros seen Hx Hs Hu; [by apply elem_of_nil in Hx|]. cbn.
  destruct (decide (key y = key x)) as [E|E].
  - rewrite (Hu y) by (done || left). rewrite bool_decide_eq_false_2 by done. left.
  - assert (Hxl : x ∈ l) by (apply elem_of_cons in Hx as [->|]; [done | done]).
    case_bool_decide; [|right]; apply IH; set_solver.
Qed.

Lemma dedup_by_sub {A} (key : A → bytes) (l : list A) (seen : list bytes) (x : A) :
  x ∈ dedup_by key seen l → x ∈ l.
Proof.
  revert seen. induction l as [|y l IH]; intros seen; cbn; [done|]. case_bool_decide; [|]; set_solver.
Qed.

Lemma values_elem {A} (m : gmap bytes A) (x : A) : x ∈ (map_to_list m).*2 ↔ ∃ k, m !! k = Some x.
Proof.
  rewrite list_elem_of_fmap. split.
  - intros ([k y] & -> & Hk). exists k. by apply elem_of_map_to_list.
  - intros [k Hk]. exists (k, x). split; [done|]. by apply elem_of_map_to_list.
Qed.

Lemma registry_laws (r : Registry) : indexed oc_Name oc_OID (ocs r) → SchemaLaws (registry_schema r).
Proof.
  intros Hi. split.
  - intros n oc H. cbn in *. unfold reg_ObjectClass, reg_ObjectClasses in *. apply sort_by_elem, dedup_by_elem; [|set_solver|].
    + apply values_elem. by eexists.
    + intros y [k Hk]%values_elem E. destruct (Hi _ _ Hk) as [_ H1]. destruct (Hi _ _ H) as [_ H2]. congruence.
  - cbn. intros a b Ha Hb E.
    apply sort_by_elem, dedup_by_sub, values_elem in Ha as [ka Ha].
    apply sort_by_elem, dedup_by_sub, values_elem in Hb as [kb Hb].
    destruct (Hi _ _ Ha) as [H1 _]. destruct (Hi _ _ Hb) as [H2 _]. congruence.
Qed.

Lemma NewRegistry_ok (l : list ObjectClassDef) (l' : list AttributeTypeDef) (r : Registry) :
  NewRegistry l l' = Ok r →
  indexed oc_Name oc_OID (ocs r) ∧ indexed at_Name at_OID (ats r) ∧
  Forall (λ oc, check_refs r oc = Ok ()) l.
Proof.
  unfold NewRegistry. intros H. inv_ok. subst r. cbn [ocs ats].
  assert (H0 : ∀ A (n o : A → bytes), indexed n o ∅) by (intros A n o k d; by rewrite lookup_empty).
  split_and!; [by eapply add_all_indexed | by eapply add_all_indexed |].
  apply rmap_ok in Hv1. clear -Hv1. induction Hv1 as [|x [] l l' Hx _ IH]; by constructor.
Qed.

(** * The SUP walk *)

Section walk.
Context (s : Schema) {SL : SchemaLaws s}.

Inductive sup_reach : ObjectClassDef → ObjectClassDef → Prop :=
| sup_refl a : sup_reach a a
| sup_step a sup b c : sup ∈ oc_Sup a → ObjectClass s sup = Some b → sup_reach b c → sup_reach a c.

Definition key (oc : ObjectClassDef) : bytes := to_lower (oc_Name oc).

Definition musts (oc : ObjectClassDef) : gset bytes := list_to_set (to_lower <$> oc_Must oc).

(** [visited] holds only listed classes' keys, each with its MUST set in [must]
    and its superiors in [visited], the keys of [old] aside. *)
Definition settled (old must visited : gset bytes) : Prop :=
  ∀ oc, oc ∈ ObjectClasses s → key oc ∈ visited → key oc ∉ old →
    musts oc ⊆ must ∧ ∀ sup b, sup ∈ oc_Sup oc → ObjectClass s sup = Some b → key b ∈ visited.

Definition unvisited (visited : gset bytes) : nat :=
  length (filter (λ oc, key oc ∉ visited) (ObjectClasses s)).

Lemma filter_length_mono {A} (P Q : A → Prop) `{∀ x, Decision (P x), ∀ x, Decision (Q x)} (l : list A) :
  (∀ x, x ∈ l → Q x → P x) → (length (filter Q l) ≤ length (filter P l))%nat.
Proof.
  induction l as [|y l IH]; intros H1; [done|]. rewrite !filter_cons.
  assert (length (filter Q l) ≤ length (filter P l))%nat by (apply IH; intros; apply H1; [by right | done]).
  destruct (decide (Q y)) as [HQ|HQ], (decide (P y)) as [HP|HP]; cbn; try lia.
  exfalso. apply HP, H1; [left | done].
Qed.

Lemma filter_length_lt {A} (P Q : A → Prop) `{∀ x, Decision (P x), ∀ x, Decision (Q x)} (l : list A) (x : A) :
  (∀ y, y ∈ l → Q y → P y) → x ∈ l → P x → ¬ Q x → (length (filter Q l) < length (filter P l))%nat.
Proof.
  induction l as [|y l IH]; intros H1 Hx HP HQ; [by apply elem_of_nil in Hx|]. rewrite !filter_cons.
  assert (Hle : (length (filter Q l) ≤ length (filter P l))%nat)
    by (apply filter_length_mono; intros; apply H1; [by right | done]).
  apply elem_of_cons in Hx as [->|Hx].
  - rewrite decide_False, decide_True by done. cbn. lia.
  - assert (length (filter Q l) < length (filter P l))%nat by (apply IH; try done; intros; apply H1; [by right | done]).
    destruct (decide (Q y)) as [HQ'|], (decide (P y)) as [HP'|HP']; cbn; try lia.
    exfalso. apply HP', H1; [left | done].
Qed.

Lemma unvisited_mono (v v' : gset bytes) : v ⊆ v' → (unvisited v' ≤ unvisited v)%nat.
Proof. intros H. apply filter_length_mono. set_solver. Qed.

Lemma unvisited_add (v : gset bytes) (oc : ObjectClassDef) :
  oc ∈ ObjectClasses s → key oc ∉ v → (unvisited ({[key oc]} ∪ v) < unvisited v)%nat.
Proof. intros H Hv. apply filter_length_lt with oc; set_solver. Qed.

Context (P : ObjectClassDef → Prop).
Hypothesis P_sup : ∀ a sup b, P a → sup ∈ oc_Sup a → ObjectClass s sup = Some b → P b.

(** Everything in the state is there because of a class satisfying [P]. *)
Definition sound (must visited : gset bytes) : Prop :=
  (∀ k, k ∈ visited → ∃ oc, P oc ∧ key oc = k) ∧ (∀ a, a ∈ must → ∃ oc, P oc ∧ a ∈ musts oc).

(** A call made progress: nothing lost, everything new settled. *)
Definition progress (st st' : gset bytes * gset bytes) : Prop :=
  st.1 ⊆ st'.1 ∧ st.2 ⊆ st'.2 ∧ settled st.2 st'.1 st'.2 ∧ (sound st.1 st.2 → sound st'.1 st'.2).

Lemma settled_mono (old m v m' : gset bytes) : settled old m v → m ⊆ m' → settled old m' v.
Proof. intros H Hm oc Ho Hk Hn. destruct (H oc Ho Hk Hn). split; [set_solver | done]. Qed.

Lemma progress_trans (a b c : gset bytes * gset bytes) : progress a b → progress b c → progress a c.
Proof.
  intros (M1 & V1 & S1 & O1) (M2 & V2 & S2 & O2). split_and!; [set_solver..| |auto].
  intros oc Ho Hk Hn. destruct (decide (key oc ∈ b.2)) as [Hb|Hb].
  - destruct (S1 oc Ho Hb Hn) as [H1 H2]. split; [set_solver|]. intros sup d Hs Hd. specialize (H2 sup d Hs Hd). set_solver.
  - by apply S2.
Qed.

Lemma progress_refl (st : gset bytes * gset bytes) : progress st st.
Proof. split_and!; [done..| |done]. intros oc _ H1 H2. done. Qed.

Lemma collectMust_spec (fuel : nat) : ∀ st oc,
  oc ∈ ObjectClasses s → P oc → (unvisited st.2 ≤ fuel)%nat →
  ∃ st', collectMust s fuel st oc = Some st' ∧ progress st st' ∧ key oc ∈ st'.2.
Proof.
  induction fuel as [|fuel IH]; intros [must visited] oc Ho HP Hf; cbn [collectMust]; cbn [snd] in Hf;
    fold (key oc); case_bool_decide as Hk; try (eexists; split_and!; [done | apply progress_refl | done]).
  { pose proof (unvisited_add visited oc Ho Hk). lia. }
  pose proof (unvisited_add visited oc Ho Hk) as Hlt. fold (musts oc).
  (* the loop over the superiors *)
  assert (Hloop : ∀ l st1, l ⊆ oc_Sup oc → (unvisited st1.2 ≤ fuel)%nat →
    ∃ st', foldl (λ acc sup, st ← acc; match ObjectClass s sup with
        | Some supOC => collectMust s fuel st supOC | None => Some st end) (Some st1) l = Some st' ∧
      progress st1 st' ∧ (∀ sup b, sup ∈ l → ObjectClass s sup = Some b → key b ∈ st'.2)).
  { induction l as [|sup l IHl]; intros st1 Hsub Hf1; cbn [foldl].
    - exists st1. split_and!; [done | apply progress_refl | set_solver].
    - cbn [mbind option_bind].
      destruct (ObjectClass s sup) as [b|] eqn:Eb.
      + destruct (IH st1 b) as (st2 & -> & Hp & Hb); [by eapply oc_listed | exact (P_sup oc sup b HP (Hsub sup ltac:(left)) Eb) | done |].
        destruct (IHl st2) as (st3 & -> & Hp3 & Hl3); [set_solver | |].
        { destruct Hp as (_ & Hv & _). pose proof (unvisited_mono _ _ Hv). lia. }
        exists st3. split_and!; [done | by eapply progress_trans |].
        intros sup' b' [->|Hin]%elem_of_cons Hb'; [|by eapply Hl3].
        destruct Hp3 as (_ & Hv & _). replace b' with b by congruence. set_solver.
      + destruct (IHl st1) as (st3 & -> & Hp3 & Hl3); [set_solver | done |].
        exists st3. split_and!; [done | done |].
        intros sup' b' [->|Hin]%elem_of_cons Hb'; [congruence | by eapply Hl3]. }
  destruct (Hloop (oc_Sup oc) (must ∪ musts oc, {[key oc]} ∪ visited)) as (st' & -> & (M & V & Hs & Hso) & Hsup);
    [done | cbn; lia |]. cbn [fst snd] in *.
  exists st'. split_and!; [done | | set_solver]. split_and!; cbn [fst snd]; [set_solver..| |].
  - intros oc' Ho' Hk' Hn'. destruct (decide (key oc' = key oc)) as [E|E].
    + rewrite (oc_unique oc' oc Ho' Ho E). split; [set_solver | done].
    + apply Hs; [done | done | set_solver].
  - intros [S1 S2]. apply Hso. split; [|set_solver].
    intros k [->%elem_of_singleton|Hk']%elem_of_union; eauto.
Qed.
End walk.

(** * The entry check *)

Context (s : Schema) {SL : SchemaLaws s}.

(** [a] is required by some class the objectClass values name or inherit. *)
Definition required (vals : list bytes) (a : bytes) : Prop :=
  ∃ v oc oc' m, v ∈ vals ∧ ObjectClass s v = Some oc ∧ sup_reach s oc oc' ∧ m ∈ oc_Must oc' ∧ a = to_lower m.

Lemma sup_reach_snoc (a b c : ObjectClassDef) (sup : bytes) :
  sup_reach s a b → sup ∈ oc_Sup b → ObjectClass s sup = Some c → sup_reach s a c.
Proof.
  induction 1 as [a|a sup' b' c' Hs Hb Hr IH]; intros Hsup Hc.
  - eapply sup_step; [done..|constructor].
  - eapply sup_step; [done..|]. by apply IH.
Qed.

Definition root_reach (vals : list bytes) (oc : ObjectClassDef) : Prop :=
  ∃ v r, v ∈ vals ∧ ObjectClass s v = Some r ∧ sup_reach s r oc.

Lemma collect_classes_spec (vals : list bytes) :
  if forallb (λ v, bool_decide (is_Some (ObjectClass s v))) vals
  then ∃ must visited, collect_classes s vals = Ok (must, visited) ∧
    ∀ a, a ∈ must ↔ required vals a
  else ∃ v, v ∈ vals ∧ ObjectClass s v = None ∧ collect_classes s vals = Err (UnknownObjectClass v).
Proof.
  unfold collect_classes.
  assert (HP : ∀ a sup b, root_reach vals a → sup ∈ oc_Sup a → ObjectClass s sup = Some b → root_reach vals b).
  { intros a sup b (v & r & Hv & Hr & Hreach) Hs Hb. exists v, r. split_and!; [done..|]. by eapply sup_reach_snoc. }
  assert (Hgen : ∀ l st, l ⊆ vals → (unvisited s st.2 ≤ length (ObjectClasses s))%nat →
    let run := rfold (λ st v, match ObjectClass s v with
      | None => Err (UnknownObjectClass v)
      | Some oc => match collectMust s (length (ObjectClasses s)) st oc with
                   | Some st' => Ok st' | None => Err OutOfFuel end end) st l in
    if forallb (λ v, bool_decide (is_Some (ObjectClass s v))) l
    then ∃ st', run = Ok st' ∧ progress s (root_reach vals) st st' ∧
      (∀ v oc, v ∈ l → ObjectClass s v = Some oc → key oc ∈ st'.2)
    else ∃ v, v ∈ l ∧ ObjectClass s v = None ∧ run = Err (UnknownObjectClass v)).
  { induction l as [|v l IH]; intros st Hsub Hf; cbn [forallb rfold].
    - exists st. split_and!; [done | apply progress_refl | set_solver].
    - destruct (ObjectClass s v) as [oc|] eqn:Ev; [|exists v; split_and!; [left | done | done]].
      rewrite bool_decide_eq_true_2 by done. cbn [andb].
      destruct (collectMust_spec s (root_reach vals) HP (length (ObjectClasses s)) st oc) as (st1 & -> & Hp & Hk);
        [by eapply oc_listed | exists v, oc; split_and!; [set_solver | done | constructor] | done |].
      cbn [mbind res_bind]. specialize (IH st1).
      pose proof (unvisited_mono s _ _ (proj1 (proj2 Hp))). specialize (IH ltac:(set_solver) ltac:(lia)).
      destruct (forallb _ l).
      + destruct IH as (st' & Hrun & Hp' & Hl). exists st'. split_and!; [done | by eapply progress_trans |].
        intros v' oc' [->|Hin]%elem_of_cons E; [|by eapply Hl].
        destruct Hp' as (_ & V' & _). replace oc' with oc by congruence. set_solver.
      + destruct IH as (v' & Hin & Hn & Hrun). exists v'. split_and!; [by right | done | done]. }
  specialize (Hgen vals (∅, ∅) ltac:(done)). cbn [snd] in Hgen.
  specialize (Hgen ltac:(unfold unvisited; apply length_filter)).
  destruct (forallb _ vals); [|done].
  destruct Hgen as ([must visited] & -> & (_ & _ & Hset & Hsound) & Hroots). exists must, visited. split; [done|].
  cbn [fst snd] in *. intros a. split.
  - intros Ha. destruct Hsound as [_ S2]; [by split; set_solver|].
    destruct (S2 a Ha) as (oc & (v & r & Hv & Hr & Hreach) & Hm).
    unfold musts in Hm. rewrite elem_of_list_to_set in Hm. apply list_elem_of_fmap in Hm as (m & -> & Hm).
    exists v, r, oc, m. done.
  - intros (v & oc & oc' & m & Hv & Hoc & Hreach & Hm & ->).
    assert (Hall : ∀ x, sup_reach s x oc' → x ∈ ObjectClasses s → key x ∈ visited → oc' ∈ ObjectClasses s ∧ key oc' ∈ visited).
    { clear -SL Hset. induction 1 as [x|x sup b c Hs Hb Hr IH]; intros Hx Hk; [done|].
      destruct (Hset x Hx Hk) as [_ H2]; [set_solver|]. apply IH; [by eapply oc_listed | by eapply H2]. }
    destruct (Hall oc Hreach) as [Ho' Hk']; [by eapply oc_listed | by eapply Hroots |].
    destruct (Hset oc' Ho' Hk') as [Hmu _]; [set_solver|]. apply Hmu. unfold musts.
    apply elem_of_list_to_set, list_elem_of_fmap. eauto.
Qed.

Lemma checkEntrySchema_spec_aux (e : Entry) :
  checkEntrySchema s e = Ok () ↔
    ObjectClasses s = [] ∨
    (Values e (B "objectClass") ≠ [] ∧
     (∀ v, v ∈ Values e (B "objectClass") → is_Some (ObjectClass s v)) ∧
     (∀ a, required (Values e (B "objectClass")) a → has_attr e a = true) ∧
     single_value_violation s e = false).
Proof.
  unfold checkEntrySchema. destruct (Nat.eqb_spec (length (ObjectClasses s)) 0) as [E|E].
  { apply length_zero_iff_nil in E. split; [by left | done]. }
  assert (Hne : ObjectClasses s ≠ []) by (intros H; by rewrite H in E). clear E.
  destruct (Nat.eqb_spec (length (Values e (B "objectClass"))) 0) as [E|E].
  { apply length_zero_iff_nil in E. split; [done|]. intros [?|[? _]]; done. }
  assert (Hv : Values e (B "objectClass") ≠ []) by (intros H; by rewrite H in E).
  pose proof (collect_classes_spec (Values e (B "objectClass"))) as Hc.
  destruct (forallb _ _) eqn:Ef.
  - destruct Hc as (must & visited & -> & Hmust). cbn [mbind res_bind].
    assert (Hall : ∀ v, v ∈ Values e (B "objectClass") → is_Some (ObjectClass s v)).
    { intros v Hin%list_elem_of_In. eapply forallb_forall in Ef; [|done]. by apply bool_decide_eq_true in Ef. }
    assert (Hreq : (∃ u, rmap (λ a, ensure (has_attr e a) (MissingAttribute a)) (sort_by id (elements must)) = Ok u) ↔
      ∀ a, required (Values e (B "objectClass")) a → has_attr e a = true).
    { split.
      - intros [u Hu] a Ha%Hmust. apply rmap_ok in Hu.
        assert (Hin : a ∈ sort_by id (elements must)) by (by apply sort_by_elem, elem_of_elements).
        apply list_elem_of_lookup in Hin as [i Hi]. eapply Forall2_lookup_l in Hu as (y & _ & Hy); [|done].
        by apply ensure_ok in Hy.
      - intros H. exists (replicate (length (sort_by id (elements must))) ()). apply rmap_ok.
        apply Forall2_same_length_lookup_2; [by rewrite length_replicate|].
        intros i a [] Hi _. apply ensure_ok, H, Hmust, elem_of_elements.
        apply (sort_by_elem id). by apply list_elem_of_lookup_2 in Hi. }
    destruct (rmap _ _) as [u|err]; cbn [mbind res_bind].
    + destruct (single_value_violation s e); split; try done.
      * intros [?|(_ & _ & _ & ?)]; done.
      * intros _. right. split_and!; [done | done | apply Hreq; by eexists | done].
    + split; [done|]. intros [?|(_ & _ & H & _)]; [done|]. apply Hreq in H as [? ?]. done.
  - destruct Hc as (v & Hin & Hnone & ->). split; [done|]. intros [?|(_ & H & _)]; [done|].
    destruct (H v Hin) as [? ?]. congruence.
Qed.

(** The fuel of the SUP walk never runs out. *)
Lemma checkEntrySchema_fuel (e : Entry) : checkEntrySchema s e ≠ Err OutOfFuel.
Proof.
  unfold checkEntrySchema. destruct (length (ObjectClasses s) =? 0)%nat; [done|].
  destruct (length (Values e _) =? 0)%nat; [done|].
  pose proof (collect_classes_spec (Values e (B "objectClass"))) as Hc. destruct (forallb _ _).
  - destruct Hc as (must & visited & -> & _). cbn [mbind res_bind].
    destruct (rmap _ _) as [u|err] eqn:Er; cbn [mbind res_bind]; [by destruct (single_value_violation s e)|].
    intros [= ->]. clear -Er. revert Er. generalize (sort_by id (elements must)).
    induction l as [|a l IH]; cbn [rmap]; [done|]. unfold ensure at 1. destruct (has_attr e a); [|done]. cbn.
    by destruct (rmap _ l).
  - by destruct Hc as (v & _ & _ & ->).
Qed.
End facts.

(** * Properties *)

(** [checkEntrySchema] accepts an entry exactly when the schema is empty or
    the entry has objectClass values, all of them known, every attribute that is
    MUST in a class reachable from them through SUP is present with a value, and
    no single-valued attribute has several; the SUP walk always terminates. *)
Theorem checkEntrySchema_spec {U : Unicode} (s : Schema) {SL : SchemaLaws s} (e : Entry) :
  checkEntrySchema s e = Ok () ↔
    ObjectClasses s = [] ∨
    (Values e (B "objectClass") ≠ [] ∧
     (∀ v, v ∈ Values e (B "objectClass") → is_Some (ObjectClass s v)) ∧
     (∀ a, required s (Values e (B "objectClass")) a → has_attr e a = true) ∧
     single_value_violation s e = false).
Proof. by apply checkEntrySchema_spec_aux. Qed.

Lemma StandardSchema_ok : is_ok (StandardSchema (U := ascii_unicode)) = true.
Proof. vm_compute. reflexivity. Qed.

Definition standard_registry : Registry :=
  match StandardSchema (U := ascii_unicode) with
  | Ok r => r
  | Err _ => MkRegistry ∅ ∅
  end.

Definition standard_schema : Schema := registry_schema (U := ascii_unicode) standard_registry.

Lemma standard_registry_eq : StandardSchema (U := ascii_unicode) = Ok standard_registry.
Proof.
  unfold standard_registry. pose proof StandardSchema_ok as H. by destruct (StandardSchema (U := ascii_unicode)).
Qed.

#[export] Instance standard_schema_laws : SchemaLaws (U := ascii_unicode) standard_schema.
Proof.
  apply registry_laws. destruct (NewRegistry_ok _ _ _ standard_registry_eq) as (H & _ & _). exact H.
Qed.

Definition sample_person : Entry :=
  MkEntry (B "uid=ada,dc=example")
    [MkAttribute (B "objectClass") [B "inetOrgPerson"]; MkAttribute (B "CN") [B "Ada"];
     MkAttribute (B "sn") [B "Lovelace"]; MkAttribute (B "uid") [B "ada"]].

Lemma checkEntrySchema_spec_witness :
  checkEntrySchema (U := ascii_unicode) standard_schema sample_person = Ok () ↔
    ObjectClasses standard_schema = [] ∨
    (Values (U := ascii_unicode) sample_person (B "objectClass") ≠ [] ∧
     (∀ v, v ∈ Values (U := ascii_unicode) sample_person (B "objectClass") → is_Some (ObjectClass standard_schema v)) ∧
     (∀ a, required (U := ascii_unicode) standard_schema (Values (U := ascii_unicode) sample_person (B "objectClass")) a →
        has_attr (U := ascii_unicode) sample_person a = true) ∧
     single_value_violation (U := ascii_unicode) standard_schema sample_person = false).
Proof. exact (checkEntrySchema_spec (U := ascii_unicode) standard_schema sample_person). Defined.

(** The standard tables build: names and OIDs are unique, every SUP, MUST
    and MAY reference resolves, and the resulting registry obeys the interface's
    laws, so [StandardSchema] never fails at startup. *)
Theorem StandardSchema_valid :
  ∃ r, StandardSchema (U := ascii_unicode) = Ok r ∧
    SchemaLaws (U := ascii_unicode) (registry_schema (U := ascii_unicode) r) ∧
    Forall (λ oc, check_refs (U := ascii_unicode) r oc = Ok ()) standardObjectClasses.
Proof.
  exists standard_registry. split; [exact standard_registry_eq|].
  destruct (NewRegistry_ok (U := ascii_unicode) _ _ _ standard_registry_eq) as (H & _ & Hr).
  split; [by apply registry_laws | exact Hr].
Qed.

Example person_accepted : checkEntrySchema (U := ascii_unicode) standard_schema sample_person = Ok ().
Proof. vm_compute. reflexivity. Qed.

(** A person without [sn] is refused for it, [sn] being MUST two levels up. *)
Example person_without_sn :
  checkEntrySchema (U := ascii_unicode) standard_schema
    (MkEntry (EDN sample_person) (filter (λ a, Name a ≠ B "sn") (Attributes sample_person))) =
  Err (MissingAttribute (B "sn")).
Proof. vm_compute. reflexivity. Qed.
