(* ===== verification/Matching.v ===== *)
(** Matching rules: [src/internal/ldapserver/matching.go].

    [attrRules] bundles how one rule family prepares values; [rulesFor] resolves
    an attribute's rules through the schema first and the contract registry
    second.  The theorems: preparation is idempotent, equality is an equivalence
    on the values a rule can prepare, and the ordering and substring rules are
    consistent with it. *)

From S2P Require Import Prelude GoStrings DN DNFacts Message Attr Schema.
Local Open Scope Z_scope.

(** * Preparation *)

(** The loop of [collapseSpaces]. *)
Fixpoint collapse_go (pending : bool) (s : bytes) : bytes :=
  match s with
  | [] => []
  | c :: s' =>
    if bool_decide (c = c_space) then collapse_go true s'
    else (if pending then [c_space] else []) ++ c :: collapse_go false s'
  end.

Definition collapseSpaces (s : bytes) : bytes :=
  let s := trim [c_space] s in
  if negb (contains s [c_space; c_space]) then s else collapse_go false s.

Definition is_upper (c : byte) : bool := in_range 65 90 (bz c).

Definition foldASCII (s : bytes) : bytes :=
  if negb (existsb is_upper s) then s
  else (λ c, if is_upper c then zb (bz c + 32) else c) <$> s.

(** [stripUniqueMemberSuffix]: the part before the first unescaped hash. *)
Fixpoint strip_go (esc : bool) (s : bytes) : option bytes :=
  match s with
  | [] => None
  | c :: s' =>
    if esc then cons c <$> strip_go false s'
    else if bool_decide (c = c_backslash) then cons c <$> strip_go true s'
    else if bool_decide (c = c_hash) then Some []
    else cons c <$> strip_go false s'
  end.

Definition stripUniqueMemberSuffix (v : bytes) : bytes := default v (strip_go false v).

Section matching.
Context {U : Unicode}.

Definition normalizeCaseIgnore (v : bytes) : bytes := collapseSpaces (to_lower v).
Definition normalizeCaseIgnoreIA5 (v : bytes) : bytes := collapseSpaces (foldASCII v).
Definition normalizeCaseExact (v : bytes) : bytes := collapseSpaces v.
Definition normalizeIdentity (v : bytes) : bytes := v.

Definition normalizeDN (v : bytes) : bytes :=
  match ParseDN v with
  | Err _ => normalizeCaseIgnore v
  | Ok d => FoldedKey d
  end.

(** * Rules *)

Record attrRules : Type := AttrRules {
  ar_name : bytes;
  ar_normalize : bytes → bytes;
  ar_structuralDN : bool;
  ar_uniqueMember : bool;
}.

Definition rulesCaseIgnore : attrRules := AttrRules (B "caseIgnoreMatch") normalizeCaseIgnore false false.
Definition rulesCaseIgnoreIA5 : attrRules := AttrRules (B "caseIgnoreIA5Match") normalizeCaseIgnoreIA5 false false.
Definition rulesCaseExact : attrRules := AttrRules (B "caseExactMatch") normalizeCaseExact false false.
Definition rulesCaseExactIA5 : attrRules := AttrRules (B "caseExactIA5Match") normalizeCaseExact false false.
Definition rulesDN : attrRules := AttrRules (B "distinguishedNameMatch") normalizeDN true false.
Definition rulesUniqueMember : attrRules := AttrRules (B "uniqueMemberMatch") normalizeDN true true.
Definition rulesObjectID : attrRules := AttrRules (B "objectIdentifierMatch") normalizeCaseIgnore false false.
Definition rulesOctet : attrRules := AttrRules (B "octetStringMatch") normalizeIdentity false false.
Definition rulesGeneralizedTime : attrRules := AttrRules (B "generalizedTimeMatch") normalizeIdentity false false.
Definition rulesExactOctets : attrRules := AttrRules (B "exactOctetsFallback") normalizeIdentity false false.

Definition rulesByName : list (bytes * attrRules) :=
  [(B "caseignorematch", rulesCaseIgnore);
   (B "caseignoreia5match", rulesCaseIgnoreIA5);
   (B "caseignorelistmatch", rulesCaseIgnore);
   (B "caseexactmatch", rulesCaseExact);
   (B "caseexactia5match", rulesCaseExactIA5);
   (B "distinguishednamematch", rulesDN);
   (B "uniquemembermatch", rulesUniqueMember);
   (B "objectidentifiermatch", rulesObjectID);
   (B "octetstringmatch", rulesOctet);
   (B "generalizedtimematch", rulesGeneralizedTime);
   (B "booleanmatch", rulesCaseIgnoreIA5)].

Definition attributeRules : list (bytes * attrRules) :=
  [(B "objectclass", rulesObjectID);
   (B "uid", rulesCaseIgnore); (B "cn", rulesCaseIgnore); (B "sn", rulesCaseIgnore);
   (B "givenname", rulesCaseIgnore); (B "displayname", rulesCaseIgnore); (B "ou", rulesCaseIgnore);
   (B "o", rulesCaseIgnore); (B "l", rulesCaseIgnore); (B "st", rulesCaseIgnore);
   (B "street", rulesCaseIgnore); (B "title", rulesCaseIgnore); (B "description", rulesCaseIgnore);
   (B "nsaccountlock", rulesCaseIgnore); (B "entryuuid", rulesCaseIgnore);
   (B "dc", rulesCaseIgnoreIA5); (B "mail", rulesCaseIgnoreIA5);
   (B "member", rulesDN); (B "uniquemember", rulesUniqueMember); (B "memberof", rulesDN);
   (B "modifiersname", rulesDN); (B "creatorsname", rulesDN);
   (B "createtimestamp", rulesGeneralizedTime); (B "modifytimestamp", rulesGeneralizedTime);
   (B "pwdaccountlockedtime", rulesGeneralizedTime);
   (B "userpassword", rulesOctet);
   (B "aci", rulesCaseExact)].

(** A [*RuleMatcher] is its schema; [None] is a nil one. *)
Definition RuleMatcher : Type := option Schema.

(** [rulesFor]: a declared equality rule is authoritative. *)
Definition rulesFor (m : RuleMatcher) (attr : bytes) : attrRules :=
  let fallback := default rulesExactOctets (assoc attributeRules (to_lower attr)) in
  match m with
  | None => fallback
  | Some s =>
    match AttributeType s attr with
    | Some at_ =>
      if negb (at_Equality at_ =b? [])%ldap
      then default rulesExactOctets (assoc rulesByName (to_lower (at_Equality at_)))
      else fallback
    | None => fallback
    end
  end.

Definition dnFromValue (v : bytes) (uniqueMember : bool) : option DN :=
  let v := if uniqueMember then stripUniqueMemberSuffix v else v in
  res_opt (ParseDN v).

(** [Equal], given the rules. *)
Definition equal_under (rs : attrRules) (value assertion : bytes) : bool :=
  if ar_structuralDN rs then
    match dnFromValue value (ar_uniqueMember rs) with
    | None => false
    | Some dv =>
      match dnFromValue assertion (ar_uniqueMember rs) with
      | None => false
      | Some da => EqualFold dv da
      end
    end
  else (ar_normalize rs value =b? ar_normalize rs assertion)%ldap.

Definition Equal_ (m : RuleMatcher) (attr value assertion : bytes) : bool :=
  equal_under (rulesFor m attr) value assertion.

(** The [any] runs, in order: the rest after them, [None] when one is missing. *)
Fixpoint any_runs (norm : bytes → bytes) (rest : bytes) (any : list bytes) : option bytes :=
  match any with
  | [] => Some rest
  | a :: any' =>
    let needle := norm a in
    match index rest needle with
    | None => None
    | Some i => any_runs norm (drop (i + length needle) rest) any'
    end
  end.

(** [len(b) > 0] on an optional run. *)
Definition run (b : option bytes) : bytes := default [] b.

Definition Substrings (m : RuleMatcher) (attr value : bytes) (initial final : option bytes)
    (any : list bytes) : bool :=
  let norm := ar_normalize (rulesFor m attr) in
  let after_initial :=
    if negb (run initial =b? [])%ldap then
      let prefix := norm (run initial) in
      if negb (has_prefix (norm value) prefix) then None
      else Some (drop (length prefix) (norm value))
    else Some (norm value) in
  match after_initial with
  | None => false
  | Some rest =>
    match any_runs norm rest any with
    | None => false
    | Some rest =>
      if negb (run final =b? [])%ldap then has_suffix rest (norm (run final)) else true
    end
  end.

Definition Compare (m : RuleMatcher) (attr value assertion : bytes) : Z :=
  let rs := rulesFor m attr in
  compare (ar_normalize rs value) (ar_normalize rs assertion).

End matching.

(** Facts of the matching rules: space collapsing is the join of the words, rule
    equality is a partial equivalence agreeing with the ordering, and the greedy
    substring matcher finds a match whenever one exists. *)

(** * Prefixes, suffixes and occurrences *)

Lemma has_prefix_iff (s p : bytes) : has_prefix s p = true ↔ ∃ r, s = p ++ r.
Proof.
  revert s. induction p as [|b p IH]; intros s.
  { destruct s; (split; [by eexists | done]). }
  destruct s as [|c s]; cbn [has_prefix]; [split; [done | by intros [? ?]]|].
  rewrite andb_true_iff, bool_decide_eq_true, IH. split.
  - intros [-> [r ->]]. by exists r.
  - intros [r [= -> ->]]. split; [done | by exists r].
Qed.

Lemma has_suffix_iff (s p : bytes) : has_suffix s p = true ↔ ∃ l, s = l ++ p.
Proof.
  unfold has_suffix. rewrite has_prefix_iff. split.
  - intros [r Hr]. exists (reverse r). by rewrite <- (reverse_involutive s), Hr, reverse_app, reverse_involutive.
  - intros [l ->]. exists (reverse l). by rewrite reverse_app.
Qed.

(** [index] is the leftmost occurrence. *)
Lemma index_some (s n : bytes) (i : nat) :
  index s n = Some i →
  s = take i s ++ n ++ drop (i + length n) s ∧ ∀ x r, s = x ++ n ++ r → (i ≤ length x)%nat.
Proof.
  revert i. induction s as [|b s IH]; intros i; cbn [index]; destruct (has_prefix _ n) eqn:E.
  - intros [= <-]. apply has_prefix_iff in E as [r Hr]. destruct n; [|done]. split; [done | lia].
  - done.
  - intros [= <-]. apply has_prefix_iff in E as [r Hr]. split; [|lia].
    rewrite Nat.add_0_l, Hr, drop_app_length. done.
  - intros H. destruct (index s n) as [j|] eqn:Ej; [|done]. injection H as <-.
    destruct (IH j eq_refl) as [H1 H2]. split.
    + cbn [take app Nat.add drop]. by rewrite <- H1.
    + intros [|c x] r Hr; [|injection Hr as -> Hr; apply H2 in Hr; cbn; lia].
      assert (Hp : has_prefix (b :: s) n = true) by (apply has_prefix_iff; by exists r). congruence.
Qed.

Lemma index_none (s n : bytes) : index s n = None → ∀ x r, s ≠ x ++ n ++ r.
Proof.
  induction s as [|b s IH]; cbn [index]; destruct (has_prefix _ n) eqn:E; try done; intros H x r Hr.
  - destruct x; [|done]. assert (Hp : has_prefix [] n = true) by (apply has_prefix_iff; by exists r). congruence.
  - destruct (index s n) eqn:Ei; [done|]. destruct x as [|c x].
    + assert (Hp : has_prefix (b :: s) n = true) by (apply has_prefix_iff; by exists r). congruence.
    + injection Hr as -> Hr. by eapply IH.
Qed.

Lemma contains_false (s n : bytes) : contains s n = false ↔ ∀ x r, s ≠ x ++ n ++ r.
Proof.
  unfold contains. rewrite bool_decide_eq_false. split.
  - intros H. apply index_none. by apply eq_None_not_Some.
  - intros H [i Hi]. apply index_some in Hi as [Hi _]. by eapply H.
Qed.

Lemma compare_eq (a b : bytes) : compare a b = 0 ↔ a = b.
Proof.
  revert b. induction a as [|x a IH]; intros [|y b]; cbn -[bz]; try done.
  destruct (Z.ltb_spec (bz x) (bz y)); [split; [done | intros [= -> ->]; lia]|].
  destruct (Z.ltb_spec (bz y) (bz x)); [split; [done | intros [= -> ->]; lia]|].
  rewrite IH. assert (x = y) as -> by (apply bz_inj; lia). split; [by intros -> | by intros [= ->]].
Qed.

Lemma compare_antisym (a b : bytes) : compare b a = - compare a b.
Proof.
  revert b. induction a as [|x a IH]; intros [|y b]; cbn -[bz]; try done.
  destruct (Z.ltb_spec (bz x) (bz y)), (Z.ltb_spec (bz y) (bz x)); try lia. apply IH.
Qed.

Lemma compare_trans (a b c : bytes) : compare a b ≤ 0 → compare b c ≤ 0 → compare a c ≤ 0.
Proof.
  revert b c. induction a as [|x a IH]; intros [|y b] [|z c]; cbn -[bz]; try lia.
  destruct (Z.ltb_spec (bz x) (bz y)), (Z.ltb_spec (bz y) (bz x)), (Z.ltb_spec (bz y) (bz z)),
    (Z.ltb_spec (bz z) (bz y)), (Z.ltb_spec (bz x) (bz z)), (Z.ltb_spec (bz z) (bz x)); try lia. apply IH.
Qed.

(** * Words *)

(** The words of a string: its pieces between spaces, the empty ones dropped. *)
Definition words (s : bytes) : list bytes := filter (λ w, w ≠ []) (split_byte c_space s).

Lemma split_byte_nonempty (sep : byte) (s : bytes) : split_byte sep s ≠ [].
Proof. destruct s as [|b s]; [done|]. cbn. case_bool_decide; [done|]. by destruct (split_byte sep s). Qed.

Lemma words_space (s : bytes) : words (c_space :: s) = words s.
Proof. unfold words. cbn [split_byte]. by rewrite bool_decide_eq_true_2. Qed.

Lemma words_char (c : byte) (s : bytes) :
  c ≠ c_space →
  words (c :: s) = match s with
                   | [] => [[c]]
                   | d :: _ => if decide (d = c_space) then [c] :: words s
                               else match words s with w :: ws => (c :: w) :: ws | [] => [[c]] end
                   end.
Proof.
  intros Hc. unfold words. cbn [split_byte]. rewrite bool_decide_eq_false_2 by done.
  destruct s as [|d s]; [done|]. cbn [split_byte]. destruct (decide (d = c_space)) as [->|Hd].
  - by rewrite bool_decide_eq_true_2.
  - rewrite bool_decide_eq_false_2 by done. pose proof (split_byte_nonempty c_space s).
    by destruct (split_byte c_space s).
Qed.

Lemma words_nil_head (c : byte) (s : bytes) : c ≠ c_space → words (c :: s) ≠ [].
Proof.
  intros Hc. rewrite words_char by done. destruct s; [done|]. case_decide; [done|]. by destruct (words _).
Qed.

(** What the loop writes: the words joined, one space in front when one is pending. *)
Lemma collapse_go_words (s : bytes) : ∀ p,
  collapse_go p s =
    match words s with
    | [] => []
    | ws => (if p || bool_decide (head s = Some c_space) then [c_space] else []) ++ join [c_space] ws
    end.
Proof.
  induction s as [|c s IH]; intros p; [done|]. cbn [collapse_go head]. destruct (decide (c = c_space)) as [Hc|Hc].
  - subst c. rewrite words_space, !bool_decide_eq_true_2, IH, orb_true_l by done. by rewrite orb_true_r.
  - rewrite (bool_decide_eq_false_2 (c = _)) by done.
    rewrite (bool_decide_eq_false_2 (Some c = _)) by congruence. rewrite orb_false_r, IH, words_char by done.
    destruct s as [|d s]; [done|]. cbn [head orb]. destruct (decide (d = c_space)) as [->|Hd].
    + rewrite bool_decide_eq_true_2 by done. by destruct (words (c_space :: s)).
    + rewrite bool_decide_eq_false_2 by congruence. pose proof (words_nil_head d s Hd).
      destruct (words (d :: s)) as [|w ws]; [done|]. by destruct ws.
Qed.

(** Without double or trailing spaces the loop is the identity. *)
Lemma collapse_go_plain (s : bytes) : ∀ (p : bool),
  (∀ x r, s ≠ x ++ [c_space; c_space] ++ r) → last s ≠ Some c_space →
  (p = true → head s ≠ Some c_space ∧ s ≠ []) →
  collapse_go p s = (if p then [c_space] else []) ++ s.
Proof.
  induction s as [|c s IH]; intros p Hd Hl Hp; [destruct p; [by destruct Hp | done]|].
  cbn [collapse_go]. case_bool_decide as Hc.
  - subst c. destruct p; [by destruct Hp|]. rewrite (IH true).
    + done.
    + intros x r ->. by apply (Hd (c_space :: x) r).
    + destruct s; done.
    + intros _. destruct s as [|d s]; [done|]. split; [|done]. intros [= ->]. by apply (Hd [] s).
  - rewrite (IH false); [by destruct p | | | done].
    + intros x r ->. by apply (Hd (c :: x) r).
    + destruct s; [done|]. done.
Qed.

Lemma words_app_space (a b : bytes) : words (a ++ c_space :: b) = words a ++ words b.
Proof.
  unfold words. assert (H : split_byte c_space (a ++ c_space :: b) = split_byte c_space a ++ split_byte c_space b).
  { induction a as [|c a IH]; cbn [app split_byte]; [by rewrite bool_decide_eq_true_2|].
    case_bool_decide; [by rewrite IH|]. rewrite IH. pose proof (split_byte_nonempty c_space a).
    by destruct (split_byte c_space a). }
  by rewrite H, filter_app.
Qed.

Lemma trim_left_spec (set s : bytes) :
  ∃ l, s = l ++ trim_left set s ∧ Forall (λ b, b ∈ set) l ∧ ∀ b, head (trim_left set s) = Some b → b ∉ set.
Proof.
  induction s as [|c s (l & Hs & Hl & Hh)]; cbn [trim_left]; [by exists []|]. case_bool_decide as Hc.
  - exists (c :: l). split_and!; [by rewrite Hs at 1 | by constructor | done].
  - exists []. split_and!; [done | done |]. by intros b [= <-].
Qed.

Lemma trim_spec (s : bytes) :
  ∃ l r, s = l ++ trim [c_space] s ++ r ∧ Forall (eq c_space) l ∧ Forall (eq c_space) r ∧
    head (trim [c_space] s) ≠ Some c_space ∧ last (trim [c_space] s) ≠ Some c_space.
Proof.
  destruct (trim_left_spec [c_space] s) as (l & Hs & Hl & Hh). unfold trim, trim_right.
  set (t := trim_left [c_space] s) in *. destruct (trim_left_spec [c_space] (reverse t)) as (r & Ht & Hr & Hh2).
  set (u := trim_left [c_space] (reverse t)) in *.
  assert (Et : t = reverse u ++ reverse r) by (by rewrite <- (reverse_involutive t), Ht, reverse_app).
  exists l, (reverse r). split_and!.
  - by rewrite Hs at 1; rewrite Et at 1.
  - eapply Forall_impl; [exact Hl|]. intros b Hb. cbn in Hb. set_solver.
  - apply Forall_reverse. eapply Forall_impl; [exact Hr|]. intros b Hb. cbn in Hb. set_solver.
  - intros E. destruct (reverse u) as [|b v] eqn:Eu; [done|]. cbn in E. injection E as ->.
    apply (Hh c_space); [by rewrite Et | set_solver].
  - rewrite last_reverse. intros E. apply (Hh2 c_space); [done | set_solver].
Qed.

Lemma words_spaces_l (l s : bytes) : Forall (eq c_space) l → words (l ++ s) = words s.
Proof. induction 1 as [|c l <- _ IH]; [done|]. cbn [app]. by rewrite words_space. Qed.

Lemma words_spaces_r (s r : bytes) : Forall (eq c_space) r → words (s ++ r) = words s.
Proof.
  intros H. destruct H as [|c r <- H]; [by rewrite app_nil_r|]. rewrite words_app_space.
  rewrite <- (app_nil_r r), words_spaces_l by done. by rewrite app_nil_r.
Qed.

Lemma words_trim (s : bytes) : words s = words (trim [c_space] s).
Proof.
  destruct (trim_spec s) as (l & r & Hs & Hl & Hr & _). rewrite Hs at 1.
  by rewrite words_spaces_l, words_spaces_r.
Qed.

Lemma collapseSpaces_words_aux (s : bytes) : collapseSpaces s = join [c_space] (words s).
Proof.
  unfold collapseSpaces. rewrite words_trim. destruct (trim_spec s) as (l & r & Hs & Hl & Hr & Hh & Hla).
  set (t := trim [c_space] s) in *. clearbody t.
  assert (E : collapse_go false t = join [c_space] (words t)).
  { rewrite collapse_go_words, bool_decide_eq_false_2 by done. by destruct (words t). }
  destruct (contains t [c_space; c_space]) eqn:Ec; [exact E|]. cbn [negb].
  rewrite <- E. symmetry. apply (collapse_go_plain t false); [by apply contains_false | done | done].
Qed.

(** Joining words and splitting again gives the words. *)
Lemma words_join (ws : list bytes) :
  Forall (λ w, w ≠ [] ∧ c_space ∉ w) ws → words (join [c_space] ws) = ws.
Proof.
  assert (H1 : ∀ w, w ≠ [] ∧ c_space ∉ w → words w = [w]).
  { intros w [Hn Hs]. assert (Hsp : split_byte c_space w = [w]).
    { clear Hn. induction w as [|c w IH]; [done|]. cbn. rewrite bool_decide_eq_false_2 by set_solver.
      by rewrite IH by set_solver. }
    unfold words. rewrite Hsp. by rewrite filter_cons_True. }
  induction 1 as [|w ws Hw Hws IH]; [done|]. destruct ws as [|w' ws]; [by apply H1|].
  change (join [c_space] (w :: w' :: ws)) with (w ++ c_space :: join [c_space] (w' :: ws)).
  rewrite words_app_space, IH, H1 by done. done.
Qed.

Lemma words_ok (s : bytes) : Forall (λ w, w ≠ [] ∧ c_space ∉ w) (words s).
Proof.
  unfold words. apply Forall_forall. intros w [Hw Hin]%list_elem_of_filter. split; [done|].
  clear Hw. revert w Hin. induction s as [|c s IH]; intros w Hin; cbn [split_byte] in Hin.
  { apply elem_of_cons in Hin as [->|Hin]; [apply not_elem_of_nil | by apply elem_of_nil in Hin]. }
  case_bool_decide.
  { apply elem_of_cons in Hin as [->|Hin]; [apply not_elem_of_nil | by apply IH]. }
  pose proof (split_byte_nonempty c_space s). destruct (split_byte c_space s) as [|p ps]; [done|].
  apply elem_of_cons in Hin as [->|Hin]; [|apply IH; by right]. intros [E|Hp]%elem_of_cons; [congruence|].
  apply (IH p); [left | done].
Qed.

Lemma collapseSpaces_idem (s : bytes) : collapseSpaces (collapseSpaces s) = collapseSpaces s.
Proof. rewrite !collapseSpaces_words_aux. by rewrite words_join by apply words_ok. Qed.

Lemma collapseSpaces_words_eq (s t : bytes) : collapseSpaces s = collapseSpaces t ↔ words s = words t.
Proof.
  rewrite !collapseSpaces_words_aux. split; [|by intros ->]. intros H.
  rewrite <- (words_join (words s)), <- (words_join (words t)) by apply words_ok. by rewrite H.
Qed.

(** * Equality *)

Section equality.
Context {U : Unicode} {UL : UnicodeLaws U}.

(** The rule can prepare the value: always, unless it must parse as a DN. *)
Definition preparable (rs : attrRules) (v : bytes) : bool :=
  if ar_structuralDN rs then bool_decide (is_Some (dnFromValue v (ar_uniqueMember rs))) else true.

Lemma equal_fold_refl (a : bytes) : equal_fold a a = true.
Proof. apply fold_eq_refl. Qed.

Lemma rdn_eqfold_sym (a b : rdn) : rdn_eqfold a b = true → rdn_eqfold b a = true.
Proof.
  unfold rdn_eqfold. intros [H1 H2]%andb_true_iff. apply beq_true in H1. apply andb_true_iff.
  split; [by apply beq_true|]. by apply fold_eq_sym.
Qed.

Lemma rdn_eqfold_trans (a b c : rdn) : rdn_eqfold a b = true → rdn_eqfold b c = true → rdn_eqfold a c = true.
Proof.
  unfold rdn_eqfold. intros [H1 H2]%andb_true_iff [H3 H4]%andb_true_iff. apply beq_true in H1, H3.
  apply andb_true_iff. split; [apply beq_true; congruence|]. by eapply fold_eq_trans.
Qed.

Lemma EqualFold_Forall2 (a b : DN) :
  EqualFold a b = true ↔ Forall2 (λ x y, rdn_eqfold x y = true) (rdns a) (rdns b).
Proof.
  unfold EqualFold. generalize (rdns a), (rdns b). clear. intros l m. revert m.
  induction l as [|x l IH]; intros [|y m]; cbn.
  - split; [constructor | done].
  - split; [done | by inversion 1].
  - split; [done | by inversion 1].
  - specialize (IH m). destruct (Nat.eqb_spec (length l) (length m)) as [E|E]; cbn in *.
    + rewrite andb_true_iff, IH. split; [by intros [? ?]; constructor | by inversion 1].
    + split; [done|]. inversion 1; subst. by apply Forall2_length in H5.
Qed.

Lemma EqualFold_refl (a : DN) : EqualFold a a = true.
Proof.
  apply EqualFold_Forall2, Forall_Forall2_diag, Forall_true. intros x. unfold rdn_eqfold.
  by rewrite beq_refl, equal_fold_refl.
Qed.

Lemma EqualFold_sym (a b : DN) : EqualFold a b = true → EqualFold b a = true.
Proof.
  rewrite !EqualFold_Forall2. intros H. apply Forall2_flip. eapply Forall2_impl; [exact H|]. intros.
  by apply rdn_eqfold_sym.
Qed.

Lemma EqualFold_trans (a b c : DN) : EqualFold a b = true → EqualFold b c = true → EqualFold a c = true.
Proof.
  rewrite !EqualFold_Forall2. intros H1 H2. eapply Forall2_trans; [|exact H1|exact H2].
  intros x y z. apply rdn_eqfold_trans.
Qed.

Lemma equal_under_refl (rs : attrRules) (v : bytes) : equal_under rs v v = preparable rs v.
Proof.
  unfold equal_under, preparable. destruct (ar_structuralDN rs); [|by rewrite beq_refl].
  destruct (dnFromValue v _); [|done]. by rewrite EqualFold_refl.
Qed.

Lemma equal_under_sym (rs : attrRules) (v a : bytes) : equal_under rs v a = true → equal_under rs a v = true.
Proof.
  unfold equal_under. destruct (ar_structuralDN rs).
  - destruct (dnFromValue v _), (dnFromValue a _); try done. apply EqualFold_sym.
  - rewrite !beq_true. done.
Qed.

Lemma equal_under_trans (rs : attrRules) (a b c : bytes) :
  equal_under rs a b = true → equal_under rs b c = true → equal_under rs a c = true.
Proof.
  unfold equal_under. destruct (ar_structuralDN rs).
  - generalize (ar_uniqueMember rs). intros u.
    destruct (dnFromValue a u), (dnFromValue b u), (dnFromValue c u); try done. apply EqualFold_trans.
  - rewrite !beq_true. congruence.
Qed.

(** The equality rule of every attribute is a partial equivalence: symmetric
    and transitive, reflexive exactly on the values the rule can prepare (a DN
    rule needs a parseable name); for the other rules it is the zero of the
    ordering, which is total. *)
Theorem Equal_per (m : RuleMatcher) (attr : bytes) :
  (∀ v, Equal_ m attr v v = preparable (rulesFor m attr) v) ∧
  (∀ v a, Equal_ m attr v a = Equal_ m attr a v) ∧
  (∀ a b c, Equal_ m attr a b = true → Equal_ m attr b c = true → Equal_ m attr a c = true) ∧
  (ar_structuralDN (rulesFor m attr) = false →
     ∀ v a, Equal_ m attr v a = (Compare m attr v a =? 0) ∧ Compare m attr a v = - Compare m attr v a).
Proof.
  unfold Equal_, Compare. split_and!.
  - apply equal_under_refl.
  - intros v a. apply eq_true_iff_eq. split; apply equal_under_sym.
  - apply equal_under_trans.
  - intros Hs v a. unfold equal_under. rewrite Hs. split; [|apply compare_antisym].
    apply eq_true_iff_eq. by rewrite beq_true, Z.eqb_eq, compare_eq.
Qed.
End equality.

Lemma Equal_per_witness :
  Equal_ (U := ascii_unicode) (Some standard_schema) (B "cn") (B " Ada   Lovelace") (B "ada lovelace") = true ∧
  Equal_ (U := ascii_unicode) (Some standard_schema) (B "cn") (B "ada lovelace") (B " Ada   Lovelace") = true ∧
  Equal_ (U := ascii_unicode) (Some standard_schema) (B "member") (B "nonsense") (B "nonsense") = false.
Proof.
  destruct (Equal_per (U := ascii_unicode) (Some standard_schema) (B "cn")) as (_ & Hs & _).
  destruct (Equal_per (U := ascii_unicode) (Some standard_schema) (B "member")) as (Hr & _).
  split_and!; [vm_compute; reflexivity | rewrite Hs; vm_compute; reflexivity | rewrite Hr; vm_compute; reflexivity].
Defined.

(** [collapseSpaces] with its fast path is the reference definition of
    insignificant-space handling: the words of the value joined by single spaces. *)
Theorem collapseSpaces_words (s : bytes) :
  collapseSpaces s = join [c_space] (words s) ∧ collapseSpaces (collapseSpaces s) = collapseSpaces s.
Proof. split; [apply collapseSpaces_words_aux | apply collapseSpaces_idem]. Qed.

(** * Substrings *)

(** [spread ns s rest]: the needles occur in [s] in order without overlap, and
    [rest] follows the last of them. *)
Inductive spread : list bytes → bytes → bytes → Prop :=
| spread_nil s : spread [] s s
| spread_cons n ns x s rest : spread ns s rest → spread (n :: ns) (x ++ n ++ s) rest.

Lemma spread_extend (ns : list bytes) (s rest y : bytes) :
  spread ns s rest → spread ns (y ++ s) rest ∨ (ns = [] ∧ s = rest).
Proof.
  intros H. destruct H as [s|n ns x s rest H]; [by right|]. left.
  rewrite app_assoc. by constructor.
Qed.

Section substrings.
Context (norm : bytes → bytes).

Lemma any_runs_sound (any : list bytes) (s rest : bytes) :
  any_runs norm s any = Some rest → spread (norm <$> any) s rest.
Proof.
  revert s. induction any as [|a any IH]; intros s H; cbn in *; [injection H as <-; constructor|].
  destruct (index s (norm a)) as [i|] eqn:E; [|done]. apply index_some in E as [E _].
  rewrite E. constructor. by apply IH.
Qed.

(** The leftmost choice leaves at least as much as any other choice. *)
Lemma any_runs_greedy (any : list bytes) : ∀ s rest,
  spread (norm <$> any) s rest → ∃ y, any_runs norm s any = Some (y ++ rest).
Proof.
  induction any as [|a any IH]; intros s rest H.
  - inversion H; subst. by exists [].
  - cbn [fmap list_fmap] in H. inversion H as [|n ns x s' rest' H' En Es]; subst. cbn [any_runs].
    destruct (index (x ++ norm a ++ s') (norm a)) as [i|] eqn:E.
    + apply index_some in E as [E Hi]. specialize (Hi x s' eq_refl).
      assert (Hd : ∃ y, drop (i + length (norm a)) (x ++ norm a ++ s') = y ++ s').
      { exists (drop (i + length (norm a)) (x ++ norm a)). rewrite app_assoc, drop_app_le; [done|].
        rewrite length_app. lia. }
      destruct Hd as [y Hy]. rewrite Hy.
      destruct (spread_extend _ _ _ y H') as [Hs|[Hn ->]]; [by apply IH|].
      destruct any; [|done]. by exists y.
    + exfalso. by eapply index_none in E.
Qed.
End substrings.

(** The substring matcher decides RFC 4511's substring assertion: the greedy
    left-to-right scan succeeds exactly when the prepared value can be cut into
    the prepared initial run, the prepared [any] runs in order without overlap,
    and the prepared final run. *)
Theorem Substrings_spec {U : Unicode} (m : RuleMatcher) (attr value : bytes) (initial final : option bytes)
    (any : list bytes) :
  let norm := ar_normalize (rulesFor m attr) in
  let part o := match run o with [] => [] | r => norm r end in
  Substrings m attr value initial final any = true ↔
    ∃ r rest y, norm value = part initial ++ r ∧ spread (norm <$> any) r rest ∧ rest = y ++ part final.
Proof.
  intros norm part. unfold Substrings. fold norm.
  assert (Hlast : ∀ r, (∃ rest, any_runs norm r any = Some rest ∧
       (if negb (beq (run final) []) then has_suffix rest (norm (run final)) else true) = true) ↔
     ∃ rest y, spread (norm <$> any) r rest ∧ rest = y ++ part final).
  { intros r. split.
    - intros (rest & Hr & Hf). apply any_runs_sound in Hr. exists rest. unfold part.
      destruct (run final) as [|b f] eqn:Ef.
      + exists rest. by rewrite app_nil_r.
      + rewrite (proj2 (beq_false _ _)) in Hf by done. apply has_suffix_iff in Hf as [l ->]. by exists l.
    - intros (rest & y & Hs & ->). apply any_runs_greedy in Hs as [z Hz]. exists (z ++ y ++ part final).
      split; [done|]. unfold part. destruct (run final) as [|b f] eqn:Ef; [done|].
      rewrite (proj2 (beq_false _ _)) by done. apply has_suffix_iff. exists (z ++ y). by rewrite <- app_assoc. }
  assert (Hm : ∀ (o : option bytes), match o with
      | None => false
      | Some rest => match any_runs norm rest any with
                     | None => false
                     | Some rest => if negb (beq (run final) []) then has_suffix rest (norm (run final)) else true
                     end end = true ↔
      ∃ r, o = Some r ∧ ∃ rest y, spread (norm <$> any) r rest ∧ rest = y ++ part final).
  { intros [r|]; [|split; [done | by intros (? & ? & _)]]. setoid_rewrite <- Hlast. split.
    - intros H. exists r. split; [done|]. destruct (any_runs norm r any) as [rest|]; [|done]. by exists rest.
    - by intros (? & [= <-] & rest & -> & H). }
  rewrite Hm. unfold part at 2. destruct (run initial) as [|b i] eqn:Ei.
  - cbn [app]. rewrite (proj2 (beq_true _ _)) by done. cbn [negb]. split.
    + intros (r & [= <-] & rest & y & H). exists (norm value), rest, y. by split.
    + intros (r & rest & y & -> & H). exists r. split; [done|]. eauto.
  - rewrite (proj2 (beq_false _ _)) by done. cbn [negb].
    destruct (has_prefix (norm value) (norm (b :: i))) eqn:Ep; cbn [negb].
    + apply has_prefix_iff in Ep as [t Ht]. rewrite Ht, drop_app_length. split.
      * intros (r & [= <-] & rest & y & H). by exists t, rest, y.
      * intros (r & rest & y & E & H). apply app_inv_head in E as ->. exists r. split; [done|]. eauto.
    + split; [by intros (? & ? & _)|]. intros (r & rest & y & E & _).
      assert (has_prefix (norm value) (norm (b :: i)) = true) by (apply has_prefix_iff; by exists r). congruence.
Qed.

Example substring_example :
  Substrings (U := ascii_unicode) (Some standard_schema) (B "cn") (B "Ada  King Lovelace") (Some (B "ADA"))
    (Some (B "lace")) [B "i"; B "l"] = true.
Proof. vm_compute. reflexivity. Qed.
