(* ===== verification/FilterEval.v ===== *)
(** Attribute descriptions and filter evaluation:
    [src/internal/ldapserver/attrdesc.go], [filter_eval.go] and the three-valued
    evaluator, the index planner and the attribute selection of [op_search.go].

    [matchFilterM] is the two-valued evaluator (Root DSE, subschema);
    [matchSearchFilter] is the evaluator of searches and assertions, where a
    leaf the subject may not search is Undefined.  It takes the permission check
    of a leaf as an argument: [allowedIdentity] of the server inside one
    operation is a function of the attribute name and its options. *)

From S2P Require Import Prelude GoStrings DN Message Attr Schema Matching.

Section filter.
Context {U : Unicode}.

(** * Attribute descriptions *)

Record attrDesc : Type := AttrDesc {
  d_typ : bytes;
  d_name : bytes;
  d_opts : list bytes;
  d_resolved : bool;
}.

Definition hasEmptyAttrOption (rest : bytes) : bool :=
  existsb (λ o, (trim_space o =b? [])%ldap) (split_byte semicolon rest).

Definition splitAttrOptions (rest : bytes) : list bytes :=
  if (rest =b? [])%ldap then []
  else filter (λ o, o ≠ []) ((λ o, to_lower (trim_space o)) <$> split_byte semicolon rest).

Definition containsAllOptions (have want : list bytes) : bool :=
  forallb (λ w, existsb (λ h, (h =b? w)%ldap) have) want.

Definition isNumericAttrOID (base : bytes) : bool := starts_digit base.

(** A nil [Schema] is [None]. *)
Definition lookup_attr (s : option Schema) (name : bytes) : option AttributeTypeDef :=
  s ≫= λ s, AttributeType s name.

Definition parseAttrDesc (s : option Schema) (desc : bytes) : attrDesc :=
  let '(base, rest, hasOpts) := cut_byte semicolon (trim_space desc) in
  let base := trim_space base in
  let opts := splitAttrOptions rest ++ (if (hasOpts : bool) && hasEmptyAttrOption rest then [[]] else []) in
  let canon := CanonicalAttrType base in
  let regName := match lookup_attr s canon with Some at_ => at_Name at_ | None => [] end in
  let name := match lookup_attr s canon with Some at_ => at_Name at_ | None => canon end in
  let primary := negb (isNumericAttrOID base) && (canon =b? to_lower base)%ldap &&
                 ((regName =b? [])%ldap || equal_fold regName base) in
  if negb (length opts =? 0)%nat && negb primary
  then AttrDesc (to_lower base) base opts false
  else AttrDesc (to_lower name) name opts true.

Definition storedTypeKey (s : option Schema) (name : bytes) : bytes * list bytes :=
  let '(base, rest, _) := cut_byte semicolon (trim_space name) in
  let typ := CanonicalAttrType base in
  let typ := match lookup_attr s typ with Some at_ => at_Name at_ | None => typ end in
  (to_lower typ, splitAttrOptions rest).

Definition AttrTypeKey (s : option Schema) (name : bytes) : bytes := (storedTypeKey s name).1.

Definition filterValues (e : Entry) (d : attrDesc) (s : option Schema) : list bytes :=
  if negb (d_resolved d) then []
  else
    concat ((λ a,
      let '(typ, opts) := storedTypeKey s (Name a) in
      if negb (typ =b? d_typ d)%ldap || negb (containsAllOptions opts (d_opts d)) then []
      else AttrValues a) <$> Attributes e).

(** * Leaves *)

Definition leafAttr (f : Filter) : option bytes :=
  match f with
  | FilterEquality a _ | FilterSubstrings a _ _ _ | FilterPresent a
  | FilterGreaterOrEqual a _ | FilterLessOrEqual a _ | FilterApproxMatch a _ => Some a
  | _ => None
  end.

Definition matchEquality (e : Entry) (d : attrDesc) (value : bytes) (m : RuleMatcher) : bool :=
  existsb (λ v, Equal_ m (d_typ d) v value) (filterValues e d m).

(** [dir] is [>=] when positive and [<=] when negative. *)
Definition matchOrdering (e : Entry) (d : attrDesc) (value : bytes) (m : RuleMatcher) (dir : Z) : bool :=
  existsb (λ v,
    let cmp := Compare m (d_typ d) v value in
    ((0 <? dir) && (0 <=? cmp))%Z || ((dir <? 0) && (cmp <=? 0))%Z) (filterValues e d m).

Definition matchSubstrings (e : Entry) (d : attrDesc) (initial : option bytes) (any : list bytes)
    (final : option bytes) (m : RuleMatcher) : bool :=
  existsb (λ v, Substrings m (d_typ d) v initial final any) (filterValues e d m).

Definition matchLeaf (e : Entry) (f : Filter) (d : attrDesc) (m : RuleMatcher) : bool :=
  match f with
  | FilterEquality _ v => matchEquality e d v m
  | FilterSubstrings _ i n g => matchSubstrings e d i n g m
  | FilterPresent _ => (0 <? length (filterValues e d m))%nat
  | FilterGreaterOrEqual _ v => matchOrdering e d v m 1
  | FilterLessOrEqual _ v => matchOrdering e d v m (-1)
  | FilterApproxMatch _ v => matchEquality e d v m
  | _ => false
  end.

(** * The two-valued evaluator *)

Fixpoint matchFilterM (e : Entry) (f : Filter) (m : RuleMatcher) : bool :=
  match f with
  | FilterAnd children => forallb (λ c, matchFilterM e c m) children
  | FilterOr children => existsb (λ c, matchFilterM e c m) children
  | FilterNot child => negb (matchFilterM e child m)
  | _ =>
    match leafAttr f with
    | None => false
    | Some attr => matchLeaf e f (parseAttrDesc m attr) m
    end
  end.

Definition matchFilter (e : Entry) (f : Filter) (s : Schema) : bool := matchFilterM e f (Some s).

(** * The three-valued evaluator *)

Inductive filterTruth : Type := filterFalse | filterTrue | filterUndefined.

(** The loop of an AND: false ends it, undefined is remembered. *)
Fixpoint and_truth (result : filterTruth) (vs : list filterTruth) : filterTruth :=
  match vs with
  | [] => result
  | filterFalse :: _ => filterFalse
  | filterUndefined :: vs' => and_truth filterUndefined vs'
  | filterTrue :: vs' => and_truth result vs'
  end.

Fixpoint or_truth (result : filterTruth) (vs : list filterTruth) : filterTruth :=
  match vs with
  | [] => result
  | filterTrue :: _ => filterTrue
  | filterUndefined :: vs' => or_truth filterUndefined vs'
  | filterFalse :: vs' => or_truth result vs'
  end.

Definition not_truth (v : filterTruth) : filterTruth :=
  match v with
  | filterTrue => filterFalse
  | filterFalse => filterTrue
  | filterUndefined => filterUndefined
  end.

Section search.
(** [s.allowedIdentity(ctx, tx, subj, dn, name, opts, PermSearch)] *)
Variable may_search : bytes → list bytes → bool.
Variable s : Schema.

Definition search_leaf (e : Entry) (f : Filter) (attr : bytes) : filterTruth :=
  let d := parseAttrDesc (Some s) attr in
  if (d_name d =b? [])%ldap then filterUndefined
  else if negb (may_search (d_name d) (d_opts d)) then filterUndefined
  else if matchLeaf e f d (Some s) then filterTrue
  else filterFalse.

Fixpoint matchSearchFilter (e : Entry) (f : Filter) : filterTruth :=
  match f with
  | FilterAnd children => and_truth filterTrue (matchSearchFilter e <$> children)
  | FilterOr children => or_truth filterFalse (matchSearchFilter e <$> children)
  | FilterNot child => not_truth (matchSearchFilter e child)
  | _ =>
    match leafAttr f with
    | None => filterUndefined
    | Some attr => search_leaf e f attr
    end
  end.

End search.

(** [filterHasAbsoluteSet]: an empty AND or OR anywhere. *)
Fixpoint filterHasAbsoluteSet (f : Filter) : bool :=
  match f with
  | FilterAnd l | FilterOr l => (length l =? 0)%nat || existsb filterHasAbsoluteSet l
  | FilterNot g => filterHasAbsoluteSet g
  | _ => false
  end.

(** [indexedSearchPredicate]: a required equality term on an indexed attribute. *)
Fixpoint indexedSearchPredicate (f : Filter) : option (bytes * bytes) :=
  match f with
  | FilterEquality a v =>
    if bool_decide (to_lower a ∈ [B "uid"; B "cn"; B "objectclass"]) then Some (a, v) else None
  | FilterAnd children =>
    (fix first (l : list Filter) :=
       match l with
       | [] => None
       | c :: l' =>
         match indexedSearchPredicate c with
         | Some p => Some p
         | None => first l'
         end
       end) children
  | _ => None
  end.

(** * Attribute selection *)

Record attrSelection : Type := AttrSelection {
  allUser : bool;
  allOperational : bool;
  none : bool;
  names : gset bytes;
}.

Definition parseAttrSelection (requested : list bytes) : attrSelection :=
  match requested with
  | [] => AttrSelection true false false ∅
  | _ =>
    foldl (λ sel name,
      if (name =b? B "*")%ldap then AttrSelection true (allOperational sel) (none sel) (names sel)
      else if (name =b? B "+")%ldap then AttrSelection (allUser sel) true (none sel) (names sel)
      else if (name =b? B "1.1")%ldap then AttrSelection (allUser sel) (allOperational sel) true (names sel)
      else AttrSelection (allUser sel) (allOperational sel) (none sel) ({[to_lower name]} ∪ names sel))
      (AttrSelection false false false ∅) requested
  end.

Definition wants (sel : attrSelection) (s : Schema) (attr : bytes) : bool :=
  if none sel then false
  else if bool_decide (to_lower attr ∈ names sel) then true
  else
    let operational := match AttributeType s attr with Some at_ => at_Operational at_ | None => false end in
    if operational then allOperational sel else allUser sel.

(** [selectDSEAttrs]: the selection on a synthetic entry. *)
Definition selectDSEAttrs (e : Entry) (sel : attrSelection) : Entry :=
  MkEntry (EDN e)
    (if none sel then []
     else filter (λ a, bool_decide (to_lower (Name a) ∈ names sel) || allUser sel || allOperational sel = true)
            (Attributes e)).

(** [foldCase] and [valueEqual], the value comparison of the write path. *)
Definition foldCase (s : Schema) (attr : bytes) : bool :=
  match AttributeType s attr with
  | None => false
  | Some at_ =>
    bool_decide (to_lower (at_Equality at_) ∈
      [B "caseignorematch"; B "caseignoreia5match"; B "caseignorelistmatch"; B "distinguishednamematch"])
  end.

Definition valueEqual (fold : bool) (a b : bytes) : bool := if fold then equal_fold a b else (a =b? b)%ldap.

End filter.

(** Facts of filter evaluation: the three-valued evaluator is Kleene's logic over
    the leaves, agrees with the two-valued one where everything may be searched,
    reveals nothing about what may not, and the index planner only narrows. *)

(** * Kleene's connectives *)

Definition truth (b : bool) : filterTruth := if b then filterTrue else filterFalse.

#[export] Instance filterTruth_eq_dec : EqDecision filterTruth.
Proof. solve_decision. Defined.

(** [v ⊑ w]: [w] is [v] or decides it. *)
Definition refines (v w : filterTruth) : Prop := v = filterUndefined ∨ v = w.

Lemma and_truth_spec (r : filterTruth) (vs : list filterTruth) :
  r ≠ filterFalse →
  and_truth r vs =
    if decide (filterFalse ∈ vs) then filterFalse
    else if decide (filterUndefined ∈ vs) then filterUndefined else r.
Proof.
  revert r. induction vs as [|v vs IH]; intros r Hr; cbn [and_truth]; [by rewrite !decide_False by set_solver|].
  destruct v.
  - by rewrite decide_True by left.
  - rewrite IH by done. repeat case_decide; set_solver.
  - rewrite IH by done. repeat case_decide; set_solver.
Qed.

Lemma not_truth_invol (v : filterTruth) : not_truth (not_truth v) = v.
Proof. by destruct v. Qed.

(** De Morgan: the OR loop is the AND loop under negation. *)
Lemma or_and_truth (r : filterTruth) (vs : list filterTruth) :
  or_truth r vs = not_truth (and_truth (not_truth r) (not_truth <$> vs)).
Proof.
  revert r. induction vs as [|v vs IH]; intros r; cbn; [by rewrite not_truth_invol|].
  destruct v; cbn; [apply IH | done | by rewrite IH].
Qed.

Lemma or_truth_spec (r : filterTruth) (vs : list filterTruth) :
  r ≠ filterTrue →
  or_truth r vs =
    if decide (filterTrue ∈ vs) then filterTrue
    else if decide (filterUndefined ∈ vs) then filterUndefined else r.
Proof.
  revert r. induction vs as [|v vs IH]; intros r Hr; cbn [or_truth]; [by rewrite !decide_False by set_solver|].
  destruct v.
  - rewrite IH by done. repeat case_decide; set_solver.
  - by rewrite decide_True by left.
  - rewrite IH by done. repeat case_decide; set_solver.
Qed.

Lemma and_truth_bools (r : bool) (l : list bool) : and_truth (truth r) (truth <$> l) = truth (r && forallb id l) ∨ r = false.
Proof.
  destruct r; [left|by right]. induction l as [|[|] l IH]; cbn; [done | exact IH | done].
Qed.

Lemma or_truth_bools (l : list bool) : or_truth filterFalse (truth <$> l) = truth (existsb id l).
Proof. induction l as [|[|] l IH]; cbn; [done | done | exact IH]. Qed.

Lemma and_truth_refines (vs ws : list filterTruth) : ∀ r r',
  refines r r' → r ≠ filterFalse → r' ≠ filterFalse → Forall2 refines vs ws →
  refines (and_truth r vs) (and_truth r' ws).
Proof.
  intros r r' Hr H1 H2 H. rewrite !and_truth_spec by done.
  destruct (decide (filterFalse ∈ vs)) as [Hf|Hf].
  - right. rewrite decide_True; [done|]. apply list_elem_of_lookup in Hf as [i Hi].
    destruct (Forall2_lookup_l _ _ _ _ _ H Hi) as (w & Hw & [?|<-]); [done|].
    by apply list_elem_of_lookup_2 in Hw.
  - destruct (decide (filterUndefined ∈ vs)) as [Hu|Hu]; [by left|].
    assert (E : vs = ws).
    { clear -H Hu. induction H as [|v w vs ws Hvw _ IH]; [done|]. destruct Hvw as [->| ->]; [set_solver|].
      rewrite IH by set_solver. done. }
    subst ws. rewrite decide_False, decide_False by done. exact Hr.
Qed.

Lemma not_truth_refines (v w : filterTruth) : refines v w → refines (not_truth v) (not_truth w).
Proof. intros [->| ->]; [by left | by right]. Qed.

Lemma or_truth_refines (vs ws : list filterTruth) :
  Forall2 refines vs ws → refines (or_truth filterFalse vs) (or_truth filterFalse ws).
Proof.
  intros H. rewrite !or_and_truth. apply not_truth_refines, and_truth_refines; try done; [by right|].
  apply Forall2_fmap. eapply Forall2_impl; [exact H|]. intros. by apply not_truth_refines.
Qed.

(** * The evaluator *)

Section eval.
Context {U : Unicode} (s : Schema).

(** The attribute descriptions of the leaves. *)
Fixpoint leaves (f : Filter) : list bytes :=
  match f with
  | FilterAnd l | FilterOr l => concat (leaves <$> l)
  | FilterNot g => leaves g
  | _ => match leafAttr f with Some a => [a] | None => [] end
  end.

(** The subject may search the attribute a description names. *)
Definition searchable (may : bytes → list bytes → bool) (a : bytes) : bool :=
  let d := parseAttrDesc (Some s) a in
  negb (beq (d_name d) []) && may (d_name d) (d_opts d).

Lemma search_leaf_searchable may (e : Entry) (f : Filter) (a : bytes) :
  search_leaf may s e f a =
    if searchable may a then truth (matchLeaf e f (parseAttrDesc (Some s) a) (Some s)) else filterUndefined.
Proof.
  unfold search_leaf, searchable. destruct (beq _ _); [done|]. cbn [negb andb].
  by destruct (may _ _).
Qed.

Lemma concat_elem (l : list Filter) (c : Filter) (a : bytes) :
  c ∈ l → a ∈ leaves c → a ∈ concat (leaves <$> l).
Proof.
  intros Hc Ha. induction l as [|x l IH]; [by apply elem_of_nil in Hc|]. cbn. apply elem_of_app.
  apply elem_of_cons in Hc as [<-|Hc]; [by left | right; by apply IH].
Qed.

Lemma fmap_truth (f : Filter → filterTruth) (g : Filter → bool) (l : list Filter) :
  (∀ x, x ∈ l → f x = truth (g x)) → f <$> l = truth <$> (g <$> l).
Proof.
  intros H. rewrite <- list_fmap_compose. apply list_fmap_ext. intros i x Hi. apply H.
  by apply list_elem_of_lookup_2 in Hi.
Qed.

Lemma forallb_id (g : Filter → bool) (l : list Filter) : forallb id (g <$> l) = forallb g l.
Proof. induction l as [|x l IH]; [done|]. cbn. by rewrite <- IH. Qed.

Lemma existsb_id (g : Filter → bool) (l : list Filter) : existsb id (g <$> l) = existsb g l.
Proof. induction l as [|x l IH]; [done|]. cbn. by rewrite <- IH. Qed.

Lemma matchSearchFilter_full_aux may (e : Entry) (f : Filter) :
  (∀ a, a ∈ leaves f → searchable may a = true) →
  matchSearchFilter may s e f = truth (matchFilterM e f (Some s)).
Proof.
  induction f using Filter_ind'; intros Hs; cbn [matchSearchFilter matchFilterM leafAttr];
    try (rewrite search_leaf_searchable, Hs by (cbn; left); done).
  - rewrite (fmap_truth _ (λ c, matchFilterM e c (Some s))).
    + destruct (and_truth_bools true ((λ c, matchFilterM e c (Some s)) <$> l)) as [E|]; [|done].
      cbn [truth] in E. rewrite E, forallb_id. done.
    + intros c Hc. rewrite Forall_forall in H. apply H; [done|]. intros a Ha. apply Hs. by eapply concat_elem.
  - rewrite (fmap_truth _ (λ c, matchFilterM e c (Some s))).
    + by rewrite or_truth_bools, existsb_id.
    + intros c Hc. rewrite Forall_forall in H. apply H; [done|]. intros a Ha. apply Hs. by eapply concat_elem.
  - rewrite IHf by done. by destruct (matchFilterM _ _ _).
Qed.

Lemma matchLeaf_values (e e' : Entry) (f : Filter) (d : attrDesc) :
  filterValues e d (Some s) = filterValues e' d (Some s) → matchLeaf e f d (Some s) = matchLeaf e' f d (Some s).
Proof.
  intros H. destruct f; cbn [matchLeaf]; unfold matchEquality, matchOrdering, matchSubstrings; by rewrite ?H.
Qed.

Lemma matchSearchFilter_may_ext may may' (e : Entry) (f : Filter) :
  (∀ n o, may n o = may' n o) → matchSearchFilter may s e f = matchSearchFilter may' s e f.
Proof.
  intros Hm. induction f using Filter_ind'; cbn [matchSearchFilter leafAttr];
    try (unfold search_leaf; by rewrite Hm).
  - f_equal. apply list_fmap_ext. intros i x Hi. rewrite Forall_forall in H. apply H. by eapply list_elem_of_lookup_2.
  - f_equal. apply list_fmap_ext. intros i x Hi. rewrite Forall_forall in H. apply H. by eapply list_elem_of_lookup_2.
  - by rewrite IHf.
Qed.

Lemma matchSearchFilter_view_aux may (e e' : Entry) (f : Filter) :
  (∀ a, a ∈ leaves f → searchable may a = true →
     filterValues e (parseAttrDesc (Some s) a) (Some s) = filterValues e' (parseAttrDesc (Some s) a) (Some s)) →
  matchSearchFilter may s e f = matchSearchFilter may s e' f.
Proof.
  induction f using Filter_ind'; intros Hs; cbn [matchSearchFilter leafAttr];
    try (rewrite !search_leaf_searchable; destruct (searchable may a) eqn:Ea; [|done];
         f_equal; apply matchLeaf_values, Hs; [cbn; left | done]).
  - f_equal. apply list_fmap_ext. intros i c Hc%list_elem_of_lookup_2. rewrite Forall_forall in H.
    apply H; [done|]. intros a Ha. apply Hs. by eapply concat_elem.
  - f_equal. apply list_fmap_ext. intros i c Hc%list_elem_of_lookup_2. rewrite Forall_forall in H.
    apply H; [done|]. intros a Ha. apply Hs. by eapply concat_elem.
  - f_equal. by apply IHf.
Qed.

Lemma matchSearchFilter_mono_aux may may' (e : Entry) (f : Filter) :
  (∀ n o, may n o = true → may' n o = true) →
  refines (matchSearchFilter may s e f) (matchSearchFilter may' s e f).
Proof.
  intros Hm.
  assert (Hs : ∀ a, searchable may a = true → searchable may' a = true).
  { unfold searchable. intros a [-> H]%andb_true_iff. by rewrite Hm. }
  induction f using Filter_ind'; cbn [matchSearchFilter leafAttr];
    try (rewrite !search_leaf_searchable; destruct (searchable may a) eqn:Ea; [rewrite Hs by done; by right | by left]).
  - apply and_truth_refines; [by right | done | done |]. apply Forall2_fmap, Forall_Forall2_diag.
    eapply Forall_impl; [exact H|]. done.
  - apply or_truth_refines. apply Forall2_fmap, Forall_Forall2_diag.
    eapply Forall_impl; [exact H|]. done.
  - by apply not_truth_refines.
Qed.

Lemma indexedSearchPredicate_sound_aux may (e : Entry) (f : Filter) (a v : bytes) :
  indexedSearchPredicate f = Some (a, v) → matchSearchFilter may s e f = filterTrue →
  matchEquality e (parseAttrDesc (Some s) a) v (Some s) = true.
Proof.
  induction f using Filter_ind'; cbn [indexedSearchPredicate]; try done.
  - intros Hp Ht. cbn [matchSearchFilter] in Ht. rewrite and_truth_spec in Ht by done.
    revert Ht. case_decide as Hf; [done|]. case_decide as Hu; [done|]. intros _.
    assert (Hall : ∀ c, c ∈ l → matchSearchFilter may s e c = filterTrue).
    { intros c Hc. destruct (matchSearchFilter may s e c) eqn:Ec; [|done|].
      - exfalso. apply Hf. rewrite <- Ec. by apply list_elem_of_fmap_2.
      - exfalso. apply Hu. rewrite <- Ec. by apply list_elem_of_fmap_2. }
    clear Hf Hu. induction H as [|c l Hc _ IH]; [done|].
    destruct (indexedSearchPredicate c) as [p|] eqn:Ec.
    + injection Hp as ->. apply Hc; [done|]. apply Hall. left.
    + apply IH; [done|]. intros c' Hc'. apply Hall. by right.
  - case_bool_decide; [|done]. intros [= <- <-]. cbn [matchSearchFilter leafAttr].
    rewrite search_leaf_searchable. destruct (searchable may a0); [|done]. cbn [matchLeaf].
    by destruct (matchEquality _ _ _ _).
Qed.

(** A filter without absolute sets has a leaf. *)
Lemma leaves_nonempty (f : Filter) : filterHasAbsoluteSet f = false → leaves f ≠ [].
Proof.
  induction f using Filter_ind'; cbn [filterHasAbsoluteSet leaves leafAttr]; try done.
  - intros [Hl Hn]%orb_false_iff. destruct H as [|c l Hc _]; [done|]. cbn in *.
    apply orb_false_iff in Hn as [Hn _]. specialize (Hc Hn). by destruct (leaves c).
  - intros [Hl Hn]%orb_false_iff. destruct H as [|c l Hc _]; [done|]. cbn in *.
    apply orb_false_iff in Hn as [Hn _]. specialize (Hc Hn). by destruct (leaves c).
Qed.

Lemma children_undefined may (e : Entry) (l : list Filter) :
  Forall (λ f, filterHasAbsoluteSet f = false → (∀ a, a ∈ leaves f → searchable may a = false) →
    matchSearchFilter may s e f = filterUndefined) l →
  (length l =? 0)%nat || existsb filterHasAbsoluteSet l = false →
  (∀ a, a ∈ concat (leaves <$> l) → searchable may a = false) →
  ∃ vs, matchSearchFilter may s e <$> l = filterUndefined :: vs ∧ Forall (eq filterUndefined) vs.
Proof.
  intros H [Hl Hn]%orb_false_iff Hs.
  assert (Hall : Forall (eq filterUndefined) (matchSearchFilter may s e <$> l)).
  { apply Forall_fmap, Forall_forall. intros c Hc. rewrite Forall_forall in H. symmetry. apply H; [done | |].
    - destruct (filterHasAbsoluteSet c) eqn:E; [|done]. rewrite <- Hn. symmetry. apply existsb_exists.
      exists c. split; [by apply list_elem_of_In | done].
    - intros a Ha. apply Hs. by eapply concat_elem. }
  destruct l as [|c l]; [done|]. rewrite fmap_cons in *. apply Forall_cons in Hall as [<- Hr]. eauto.
Qed.

Lemma only_undefined (vs : list filterTruth) (v : filterTruth) :
  Forall (eq filterUndefined) vs → v ≠ filterUndefined → v ∉ filterUndefined :: vs.
Proof. intros H Hv [?|Hin]%elem_of_cons; [done|]. rewrite Forall_forall in H. by apply Hv, eq_sym, H. Qed.

Lemma all_undefined may (e : Entry) (f : Filter) :
  filterHasAbsoluteSet f = false → (∀ a, a ∈ leaves f → searchable may a = false) →
  matchSearchFilter may s e f = filterUndefined.
Proof.
  induction f using Filter_ind'; intros Habs Hs; cbn [matchSearchFilter leafAttr];
    try (rewrite search_leaf_searchable, Hs by (cbn; left); done).
  - destruct (children_undefined may e l H Habs Hs) as (vs & -> & Hvs).
    by rewrite and_truth_spec, decide_False, decide_True by (by left || by apply only_undefined || done).
  - destruct (children_undefined may e l H Habs Hs) as (vs & -> & Hvs).
    by rewrite or_truth_spec, decide_False, decide_True by (by left || by apply only_undefined || done).
  - by rewrite IHf.
Qed.
End eval.

(** * Properties *)

(** A search filter reveals nothing about attributes the subject may not
    search: the verdict is the same on any two entries that agree on the
    searchable leaves, whatever NOTs the filter holds, and a filter all of whose
    leaves are unsearchable is Undefined, never true. *)
Theorem search_filter_noninterference {U : Unicode} (s : Schema) (may : bytes → list bytes → bool)
    (e e' : Entry) (f : Filter) :
  (∀ a, a ∈ leaves f → searchable s may a = true →
     filterValues e (parseAttrDesc (Some s) a) (Some s) = filterValues e' (parseAttrDesc (Some s) a) (Some s)) →
  matchSearchFilter may s e f = matchSearchFilter may s e' f ∧
  (filterHasAbsoluteSet f = false → (∀ a, a ∈ leaves f → searchable s may a = false) →
     matchSearchFilter may s e f = filterUndefined).
Proof. intros H. split; [by apply matchSearchFilter_view_aux | by apply all_undefined]. Qed.

Definition secret_filter : Filter := FilterNot (FilterEquality (B "userPassword") (B "hunter2")).

Definition no_password (n : bytes) (o : list bytes) : bool := negb (beq n (B "userPassword")).

Lemma search_filter_noninterference_witness :
  matchSearchFilter (U := ascii_unicode) no_password standard_schema
    (MkEntry [] [MkAttribute (B "userPassword") [B "hunter2"]]) secret_filter =
  matchSearchFilter (U := ascii_unicode) no_password standard_schema (MkEntry [] []) secret_filter.
Proof.
  apply (search_filter_noninterference (U := ascii_unicode)).
  intros a Ha Hs. exfalso. cbn [leaves secret_filter leafAttr] in Ha.
  apply list_elem_of_singleton in Ha. subst a. vm_compute in Hs. discriminate.
Defined.

(** Granting more search permissions only decides what was Undefined: a
    verdict true or false under fewer permissions is the verdict under more, so
    an entry a subject finds is found by every more privileged subject. *)
Theorem search_filter_monotone {U : Unicode} (s : Schema) (may may' : bytes → list bytes → bool)
    (e : Entry) (f : Filter) (v : filterTruth) :
  (∀ n o, may n o = true → may' n o = true) →
  matchSearchFilter may s e f = v → v ≠ filterUndefined → matchSearchFilter may' s e f = v.
Proof. intros Hm <- Hv. by destruct (matchSearchFilter_mono_aux s may may' e f Hm). Qed.

Lemma search_filter_monotone_witness :
  matchSearchFilter (U := ascii_unicode) (λ _ _, true) standard_schema sample_person
    (FilterOr [secret_filter; FilterEquality (B "commonName") (B "ADA")]) = filterTrue.
Proof.
  apply (search_filter_monotone (U := ascii_unicode) standard_schema no_password (λ _ _, true)).
  - intros n o _. reflexivity.
  - vm_compute. reflexivity.
  - discriminate.
Defined.

(** Where the subject may search every leaf, the three-valued search
    evaluator is the two-valued evaluator of the Root DSE and assertion paths. *)
Theorem search_filter_full {U : Unicode} (s : Schema) (may : bytes → list bytes → bool) (e : Entry) (f : Filter) :
  (∀ a, a ∈ leaves f → searchable s may a = true) →
  matchSearchFilter may s e f = if matchFilter e f s then filterTrue else filterFalse.
Proof. intros H. rewrite (matchSearchFilter_full_aux s may e f H). reflexivity. Qed.

Lemma search_filter_full_witness :
  matchSearchFilter (U := ascii_unicode) (λ _ _, true) standard_schema sample_person
    (FilterNot (FilterPresent (B "mail"))) = filterTrue.
Proof.
  rewrite (search_filter_full (U := ascii_unicode)).
  - vm_compute. reflexivity.
  - intros a Ha. cbn [leaves leafAttr] in Ha. apply list_elem_of_singleton in Ha. subst a. vm_compute. reflexivity.
Defined.

(** The index planner only narrows: the equality term it picks holds on every
    entry the whole filter matches, so walking that term's postings loses none. *)
Theorem indexedSearchPredicate_sound {U : Unicode} (s : Schema) (may : bytes → list bytes → bool)
    (e : Entry) (f : Filter) (a v : bytes) :
  indexedSearchPredicate f = Some (a, v) → matchSearchFilter may s e f = filterTrue →
  ∃ x, x ∈ filterValues e (parseAttrDesc (Some s) a) (Some s) ∧
    Equal_ (Some s) (d_typ (parseAttrDesc (Some s) a)) x v = true.
Proof.
  intros Hp Ht. pose proof (indexedSearchPredicate_sound_aux s may e f a v Hp Ht) as H.
  apply existsb_exists in H as (x & Hx & He). exists x. split; [by apply list_elem_of_In | done].
Qed.

Lemma indexedSearchPredicate_sound_witness :
  ∃ x, x ∈ filterValues (U := ascii_unicode) sample_person (parseAttrDesc (U := ascii_unicode) (Some standard_schema) (B "uid")) (Some standard_schema) ∧
    Equal_ (U := ascii_unicode) (Some standard_schema)
      (d_typ (parseAttrDesc (U := ascii_unicode) (Some standard_schema) (B "uid"))) x (B "ADA") = true.
Proof.
  apply (indexedSearchPredicate_sound (U := ascii_unicode) standard_schema (λ _ _, true) sample_person
    (FilterAnd [FilterPresent (B "cn"); FilterEquality (B "uid") (B "ADA")])).
  - vm_compute. reflexivity.
  - vm_compute. reflexivity.
Defined.

(** The two-valued evaluator has no Undefined: a NOT around an assertion its rule
    cannot prepare matches, where RFC 4511 and the comment of [Matcher] make the
    assertion Undefined. *)
Lemma not_of_undefined_matches :
  matchFilter (U := ascii_unicode) sample_person (FilterNot (FilterEquality (B "member") (B "not a DN")))
    standard_schema = true.
Proof. vm_compute. reflexivity. Qed.
