(* ===== verification/RenameFacts.v ===== *)
(** Names below names, and what a rename does to them.

    [under b d] says that the name [d] is properly below [b], up to the folding of
    keys.  A rename takes every name [moved] by it to its rebased form and leaves the
    others ([relocate]); [renamed] is the directory it makes of another. *)

From S2P Require Import Prelude GoStrings DN DNFacts Message.
Local Open Scope Z_scope.

Section names.
Context {U : Unicode} {UL : UnicodeLaws U}.

(** * Names below names *)

Definition under (b d : DN) : bool :=
  (length (rdns b) <? length (rdns d))%nat &&
  bool_decide (drop (length (rdns d) - length (rdns b)) (rdns (fold_dn d)) = rdns (fold_dn b)).

Lemma fold_length (d : DN) : length (rdns (fold_dn d)) = length (rdns d).
Proof. apply length_fmap. Qed.

Lemma under_fold (b b' d d' : DN) : fold_dn b = fold_dn b' → fold_dn d = fold_dn d' → under b d = under b' d'.
Proof.
  intros Hb Hd. unfold under. rewrite Hb, Hd. rewrite <- (fold_length b), <- (fold_length d), Hb, Hd, !fold_length. done.
Qed.

Lemma under_parent (b d p : DN) :
  rdns b ≠ [] → Parent d = Some p → under b d = true ↔ fold_dn p = fold_dn b ∨ under b p = true.
Proof.
  destruct d as [[|r [|r' l]]]; try done. intros Hb [= <-]. unfold under. cbn [rdns].
  set (m := r' :: l). set (n := length (rdns b)). rewrite !andb_true_iff, !bool_decide_eq_true, !Nat.ltb_lt.
  change (length (r :: m)) with (S (length m)).
  assert (Hfb : rdns (fold_dn b) = fold_rdn <$> rdns b) by done.
  assert (Hd : (n ≤ length m)%nat → drop (S (length m) - n) (rdns (fold_dn (MkDN (r :: m)))) = drop (length m - n) (rdns (fold_dn (MkDN m)))).
  { intros Hn. by replace (S (length m) - n)%nat with (S (length m - n)) by lia. }
  split.
  - intros [Hn H]. rewrite Hd in H by lia. destruct (decide (n = length m)) as [E|].
    + left. rewrite <- E, Nat.sub_diag, drop_0 in H. unfold fold_dn in *. cbn [rdns] in *. by f_equal.
    + right. split; [lia | done].
  - intros [H|[Hn H]].
    + assert (n = length m) by (unfold n; rewrite <- (fold_length b), <- H; apply fold_length).
      split; [lia|]. rewrite Hd by lia. replace (length m - n)%nat with 0%nat by lia. by rewrite drop_0, H.
    + split; [lia|]. by rewrite Hd by lia.
Qed.

Lemma under_root (b d : DN) : rdns b ≠ [] → Parent d = None → under b d = false.
Proof.
  intros Hb. destruct d as [[|r [|r' l]]]; [..|done]; intros _; unfold under; cbn [rdns length]; destruct (rdns b); done.
Qed.

Lemma under_shorter (b d : DN) : under b d = true → (length (rdns b) < length (rdns d))%nat.
Proof. unfold under. intros H. bprop. by apply Nat.ltb_lt. Qed.

Lemma under_trans (a b c : DN) : under a b = true → under b c = true → under a c = true.
Proof.
  intros Hab Hbc. pose proof (under_shorter _ _ Hab). pose proof (under_shorter _ _ Hbc). unfold under in *.
  apply andb_true_iff in Hab as [_ Hab%bool_decide_eq_true], Hbc as [_ Hbc%bool_decide_eq_true].
  apply andb_true_iff. split; [apply Nat.ltb_lt; lia|]. apply bool_decide_eq_true.
  rewrite <- Hab, <- Hbc, skipn_skipn. f_equal. lia.
Qed.

(** The names of one length above a name agree. *)
Lemma under_unique (b b' d : DN) : length (rdns b) = length (rdns b') → under b d = true → under b' d = true → fold_dn b = fold_dn b'.
Proof.
  unfold under. intros E [_ H%bool_decide_eq_true]%andb_true_iff [_ H'%bool_decide_eq_true]%andb_true_iff. rewrite E in H.
  assert (Hr : rdns (fold_dn b) = rdns (fold_dn b')) by congruence. unfold fold_dn in *. cbn [rdns] in Hr. by f_equal.
Qed.

Lemma under_suffix (b d : DN) :
  rdns b ≠ [] →
  (∃ pre suf, rdns d = pre ++ suf ∧ suf ≠ [] ∧ fold_dn (MkDN suf) = fold_dn b) ↔ fold_dn d = fold_dn b ∨ under b d = true.
Proof.
  intros Hne. unfold under. rewrite andb_true_iff, Nat.ltb_lt, bool_decide_eq_true. split.
  - intros (pre & suf & Hd & Hs & Hf).
    assert (Hlen : length suf = length (rdns b)) by (rewrite <- (fold_length b), <- Hf; symmetry; apply fold_length).
    destruct pre as [|r pre]; [left; rewrite <- Hf; destruct d; cbn in *; by subst|]. right.
    rewrite Hd, length_app, Hlen. cbn [length]. split; [lia|]. rewrite <- Hf. unfold fold_dn. cbn [rdns]. rewrite Hd, fmap_app.
    replace (S (length pre) + length (rdns b) - length (rdns b))%nat with (length (fold_rdn <$> r :: pre)) by (rewrite length_fmap; cbn; lia).
    apply drop_app_length.
  - intros [H|[Hlt H]].
    + exists [], (rdns d). split_and!; [done | | by destruct d].
      intros E. apply Hne. destruct (rdns b) eqn:Eb; [done|]. pose proof (fold_length b) as L. rewrite <- H, fold_length, E, Eb in L. done.
    + exists (take (length (rdns d) - length (rdns b)) (rdns d)), (drop (length (rdns d) - length (rdns b)) (rdns d)).
      split_and!; [by rewrite take_drop | |].
      * intros E. apply (f_equal length) in E. rewrite length_drop in E. cbn in E. destruct (rdns b); [done | cbn in *; lia].
      * unfold fold_dn in *. cbn [rdns] in *. f_equal. by rewrite fmap_drop.
Qed.

(** Keys and folded names. *)
Lemma key_fold (a b : DN) : wf_dn a → wf_dn b → FoldedKey a = FoldedKey b ↔ fold_dn a = fold_dn b.
Proof. apply FoldedKey_inj_aux. Qed.

Lemma parent_wf (d p : DN) : wf_dn d → Parent d = Some p → wf_dn p.
Proof. destruct d as [[|r [|r' l]]]; try done. intros [_ Hf] [= <-]. split; [done|]. by inversion Hf. Qed.

Lemma parent_tab (d p : DN) : no_tab_end d → Parent d = Some p → no_tab_end p.
Proof. destruct d as [[|r [|r' l]]]; try done. intros Hf [= <-]. unfold no_tab_end in *. by inversion Hf. Qed.

Lemma parent_length (d p : DN) : Parent d = Some p → length (rdns d) = S (length (rdns p)).
Proof. by destruct d as [[|r [|r' l]]]; intros [= <-]. Qed.

(** * Rebased names *)

Section rebase.
Variables from to : DN.
Hypothesis from_wf : wf_dn from.
Hypothesis to_wf : wf_dn to.

Definition moved (d : DN) : Prop := fold_dn d = fold_dn from ∨ under from d = true.

Lemma fold_app (l m : list rdn) : fold_dn (MkDN (l ++ m)) = MkDN ((fold_rdn <$> l) ++ (fold_rdn <$> m)).
Proof. unfold fold_dn. cbn [rdns]. by rewrite fmap_app. Qed.

Lemma Rebase_moved (d : DN) : wf_dn d → is_Some (Rebase d from to) ↔ moved d.
Proof.
  intros Hw. unfold moved. rewrite <- under_suffix by apply from_wf. split.
  - intros [nd (pre & suf & Hd & Hf & _)%Rebase_spec_aux]; [|done..]. exists pre, suf. split_and!; [done | | done].
    intros ->. destruct from as [l], from_wf as [Hne _]. unfold fold_dn in Hf. cbn in *. by destruct l.
  - intros (pre & suf & Hd & _ & Hf). exists (MkDN (pre ++ rdns to)). apply Rebase_spec_aux; [done..|]. by exists pre, suf.
Qed.

Lemma Rebase_none (d : DN) : wf_dn d → ¬ moved d → Rebase d from to = None.
Proof. intros Hw Hm. destruct (Rebase d from to) eqn:E; [|done]. exfalso. apply Hm, Rebase_moved; [done|]. by rewrite E. Qed.

Lemma Rebase_wf (d nd : DN) : wf_dn d → Rebase d from to = Some nd → wf_dn nd.
Proof.
  intros Hw (pre & suf & Hd & _ & ->)%Rebase_spec_aux; [|done..]. destruct Hw as [_ Hf], to_wf as [Hne Hft]. rewrite Hd in Hf.
  apply Forall_app in Hf as [Hp _]. split; cbn [rdns]; [by destruct pre, (rdns to) | by apply Forall_app].
Qed.

Lemma Rebase_tab (d nd : DN) : wf_dn d → no_tab_end d → no_tab_end to → Rebase d from to = Some nd → no_tab_end nd.
Proof.
  intros Hw Ht Hto (pre & suf & Hd & _ & ->)%Rebase_spec_aux; [|done..]. unfold no_tab_end in *. rewrite Hd in Ht.
  apply Forall_app in Ht as [Hp _]. cbn [rdns]. by apply Forall_app.
Qed.

(** What a rebased name determines, up to folding. *)
Lemma Rebase_fold (a b a' b' : DN) :
  wf_dn a → wf_dn b → Rebase a from to = Some a' → Rebase b from to = Some b' → fold_dn a = fold_dn b ↔ fold_dn a' = fold_dn b'.
Proof.
  intros Ha Hb (pa & sa & Ea & Fa & ->)%Rebase_spec_aux (pb & sb & Eb & Fb & ->)%Rebase_spec_aux; [|done..].
  destruct a as [la], b as [lb]. cbn [rdns] in *. subst. rewrite !fold_app.
  assert (Hs : fold_rdn <$> sa = fold_rdn <$> sb) by (unfold fold_dn in *; cbn [rdns] in *; congruence). rewrite Hs. split.
  - intros [= H]. apply app_inv_tail in H. by rewrite H.
  - intros [= H]. apply app_inv_tail in H. by rewrite H.
Qed.

Lemma Rebase_root (d : DN) : wf_dn d → fold_dn d = fold_dn from → Rebase d from to = Some to.
Proof. intros Hw Hf. apply Rebase_spec_aux; [done..|]. exists [], (rdns d). split_and!; [done | by destruct d | by destruct to]. Qed.

Lemma Rebase_parent (d nd p : DN) :
  wf_dn d → under from d = true → Parent d = Some p → Rebase d from to = Some nd →
  ∃ np, Rebase p from to = Some np ∧ Parent nd = Some np.
Proof.
  intros Hw Hu Hp Hr. pose proof (parent_wf d p Hw Hp) as Hwp. apply Rebase_spec_aux in Hr as (pre & suf & Hd & Hf & ->); [|done..].
  destruct pre as [|r pre].
  { exfalso. apply under_shorter in Hu. destruct d as [l]. cbn [rdns app] in *. subst l. rewrite <- (fold_length from), <- Hf, fold_length in Hu. cbn in Hu. lia. }
  exists (MkDN (pre ++ rdns to)). split.
  - apply Rebase_spec_aux; [done..|]. exists pre, suf. split_and!; [|done..]. destruct d as [l]. cbn [rdns] in *. subst l.
    unfold Parent in Hp. cbn [rdns drop app] in Hp. by destruct (_ <? _)%nat; [|injection Hp as <-].
  - unfold Parent. cbn [rdns app length drop]. rewrite drop_0. destruct (Nat.ltb_spec (S (length (pre ++ rdns to))) 2); [|done].
    exfalso. destruct to_wf as [Hne _]. rewrite length_app in *. destruct (rdns to); [done | cbn in *; lia].
Qed.

Lemma moved_parent (d p : DN) : under from d = true → Parent d = Some p → moved p.
Proof. intros Hu Hp. by apply (under_parent from d p) in Hu; [|apply from_wf|]. Qed.

Lemma moved_below (d p : DN) : Parent d = Some p → moved p → under from d = true.
Proof. intros Hp Hm. by apply (under_parent from d p); [apply from_wf | |]. Qed.
End rebase.

(** * Renamed directories *)

(** Where a move takes a name and its entry. *)
Definition relocate (from to d : DN) : DN := default d (Rebase d from to).

Definition relocate_entry (from to d : DN) (e : Entry) : Entry :=
  match Rebase d from to with
  | Some nd => MkEntry (String nd) (Attributes e)
  | None => e
  end.

Lemma relocate_attributes (from to d : DN) (e : Entry) : Attributes (relocate_entry from to d e) = Attributes e.
Proof. unfold relocate_entry. by destruct (Rebase d from to). Qed.


(** Every entry is stored under the folded key of its name. *)
Definition keys_ok (m : gmap bytes Entry) : Prop :=
  ∀ k e, m !! k = Some e → ∃ d, ParseDN (EDN e) = Ok d ∧ FoldedKey d = k ∧ no_tab_end d.

(** The parents of the names below [b] are present. *)
Definition rooted (m : gmap bytes Entry) (b : DN) : Prop :=
  ∀ k e d p, m !! k = Some e → ParseDN (EDN e) = Ok d → under b d = true → Parent d = Some p → is_Some (m !! FoldedKey p).

Definition renamed (from to : DN) (m m' : gmap bytes Entry) : Prop :=
  ∀ k' e', m' !! k' = Some e' ↔
    ∃ k e d, m !! k = Some e ∧ ParseDN (EDN e) = Ok d ∧ k' = FoldedKey (relocate from to d) ∧ e' = relocate_entry from to d e.

(** The key of a name below another ends in a comma and the other's key. *)
Lemma under_key (b d : DN) : rdns b ≠ [] → under b d = true → ∃ pre, FoldedKey d = pre ++ B "," ++ FoldedKey b.
Proof.
  intros Hb Hu. pose proof (under_shorter _ _ Hu) as Hlen. apply or_intror with (A := fold_dn d = fold_dn b) in Hu.
  apply under_suffix in Hu as (pre & suf & Hd & Hs & Hf); [|done]. destruct d as [l]. cbn [rdns] in *. subst l.
  exists (String (MkDN (fold_rdn <$> pre))). rewrite !FoldedKey_String, <- Hf, fold_app. unfold fold_dn at 1. cbn [rdns].
  apply String_app; [|by destruct suf]. intros E%fmap_nil_inv. subst pre.
  rewrite <- (fold_length b), <- Hf, fold_length in Hlen. cbn in Hlen. lia.
Qed.

(** Where a well-formed name goes. *)
Lemma relocate_wf (from to d : DN) : wf_dn from → wf_dn to → wf_dn d → wf_dn (relocate from to d).
Proof. intros Hf Ht Hd. unfold relocate. destruct (Rebase d from to) as [nd|] eqn:E; [by apply (Rebase_wf from to Hf Ht d) | done]. Qed.

Lemma relocate_tab (from to d : DN) : wf_dn from → no_tab_end to → wf_dn d → no_tab_end d → no_tab_end (relocate from to d).
Proof. intros Hf Ht Hw Hd. unfold relocate. destruct (Rebase d from to) as [nd|] eqn:E; [by apply (Rebase_tab from to Hf d) | done]. Qed.

Lemma relocate_name (from to d : DN) (e : Entry) :
  wf_dn from → wf_dn to → no_tab_end to → wf_dn d → no_tab_end d → ParseDN (EDN e) = Ok d →
  ParseDN (EDN (relocate_entry from to d e)) = Ok (relocate from to d).
Proof.
  intros Hf Hw Ht Hd Htd He. unfold relocate, relocate_entry. destruct (Rebase d from to) as [nd|] eqn:E; [|done].
  cbn. apply ParseDN_String_aux; [by apply (Rebase_wf from to Hf Hw d) | by apply (Rebase_tab from to Hf d)].
Qed.

Lemma relocate_key (from to a b : DN) :
  wf_dn from → wf_dn to → wf_dn a → wf_dn b → FoldedKey a = FoldedKey b → FoldedKey (relocate from to a) = FoldedKey (relocate from to b).
Proof.
  intros Hf Ht Ha Hb E. assert (Ef : fold_dn a = fold_dn b) by (by apply key_fold). unfold relocate.
  assert (Hm : moved from a ↔ moved from b) by (unfold moved; by rewrite Ef, (under_fold from from a b)).
  destruct (Rebase a from to) as [na|] eqn:Ra, (Rebase b from to) as [nb|] eqn:Rb; cbn [from_option id].
  - apply key_fold; [by apply (Rebase_wf from to Hf Ht a) | by apply (Rebase_wf from to Hf Ht b)|]. by apply (Rebase_fold from to Hf a b).
  - exfalso. assert (Hs : is_Some (Rebase b from to)) by (apply Rebase_moved; [done..|]; apply Hm, (Rebase_moved from to Hf a Ha); by rewrite Ra).
    rewrite Rb in Hs. by destruct Hs.
  - exfalso. assert (Hs : is_Some (Rebase a from to)) by (apply Rebase_moved; [done..|]; apply Hm, (Rebase_moved from to Hf b Hb); by rewrite Rb).
    rewrite Ra in Hs. by destruct Hs.
  - done.
Qed.

Lemma renamed_keys (from to : DN) (m m' : gmap bytes Entry) :
  wf_dn from → wf_dn to → no_tab_end to → keys_ok m → renamed from to m m' → keys_ok m'.
Proof.
  intros Hf Hw Ht Hk Hr k' e' (k & e & d & Hm & Hd & -> & ->)%Hr. destruct (Hk k e Hm) as (d' & Hd' & <- & Htd).
  assert (d' = d) as -> by congruence. pose proof (ParseDN_wf_aux _ _ Hd) as Hwd. exists (relocate from to d).
  split_and!; [by apply relocate_name | done | by apply relocate_tab].
Qed.
End names.
