(* ===== verification/StoreIface.v ===== *)
(** The store seam of [src/internal/ldapserver/store.go]: the conditions a store
    transaction returns and the read side of a transaction as a record of
    operations, with the laws its clients rely on as a class. *)

From S2P Require Import Prelude GoStrings DN Message.

(** Store-domain conditions; [StoreFailure] is any other error (I/O, corruption,
    a cancelled context). *)
Inductive store_err : Type :=
| ErrNoSuchObject
| ErrEntryExists
| ErrNotLeaf
| ErrStoreClosed
| StoreFailure (why : bytes).

#[export] Instance store_err_eq_dec : EqDecision store_err.
Proof. solve_decision. Defined.

(** A read transaction sees one snapshot, so its operations are functions. *)
Record ReadTx : Type := MkReadTx {
  tx_Entry : DN → res store_err Entry;
  tx_Children : DN → res store_err (list Entry);
  tx_Subtree : DN → res store_err (list Entry);
}.

(** The comment of [Entry]: lookups fold case, so the spelling of a name is
    presentation and its folded key is its identity. *)
Class ReadTxLaws {U : Unicode} (tx : ReadTx) : Prop := {
  tx_Entry_folds : ∀ d d', FoldedKey d = FoldedKey d' → tx_Entry tx d = tx_Entry tx d';
}.
