(* ===== verification/Aci.v ===== *)
(** Access control: [src/internal/ldapserver/aci.go], the parsed form of an ACI and
    its attribute rules of [aci_parse_a.go], the evaluator of [aci_eval.go] and the
    server-side wrappers of [dispatch.go].

    [Allowed] threads the per-call cache of group verdicts exactly as the code
    does; a store error ends the evaluation and [allowedCheck] turns it into a
    denial.  Debug logging is not modelled. *)

From S2P Require Import Prelude GoStrings DN DNFacts Message Attr Schema Matching FilterEval StoreIface.

(** * Data *)

Inductive Permission : Type :=
| PermRead | PermSearch | PermCompare | PermAdd | PermDelete | PermWrite | PermModDN.

#[export] Instance Permission_eq_dec : EqDecision Permission.
Proof. solve_decision. Defined.

Record Subject : Type := MkSubject {
  subj_DN : DN;
  Anonymous : bool;
  BypassACI : bool;
}.

Record ACICheck : Type := MkACICheck {
  ck_Subject : Subject;
  ck_Target : DN;
  ck_Attribute : bytes;
  ck_Options : list bytes;
  ck_Perm : Permission;
  ck_EntryDenyOnly : bool;
  ck_Existence : bool;
}.

Inductive ACITargetAttrModeA : Type :=
| ACITargetAttrAllA | ACITargetAttrAllowA | ACITargetAttrDenyA | ACITargetAttrNoneA.

#[export] Instance ACITargetAttrModeA_eq_dec : EqDecision ACITargetAttrModeA.
Proof. solve_decision. Defined.

Inductive ACISubjectKindA : Type :=
| ACISubjectUserDNA | ACISubjectGroupDNA | ACISubjectAnyoneA | ACISubjectAllA | ACISubjectSelfA.

#[export] Instance ACISubjectKindA_eq_dec : EqDecision ACISubjectKindA.
Proof. solve_decision. Defined.

Record ACISubjectA : Type := MkACISubject { as_Kind : ACISubjectKindA; as_DN : DN }.

Record ParsedACI : Type := MkParsedACI {
  aci_ID : bytes;
  aci_TargetDN : DN;
  aci_AttrMode : ACITargetAttrModeA;
  aci_Attrs : list bytes;
  aci_Deny : bool;
  aci_Permissions : list Permission;
  aci_Subject : ACISubjectA;
}.

Section aci.
Context {U : Unicode}.

(** * One ACI *)

Definition HasPerm (p : ParsedACI) (perm : Permission) : bool :=
  existsb (λ q, bool_decide (q = perm)) (aci_Permissions p).

(** One name of a targetattr list against [base;opts]. *)
Definition aci_name_covers (base : bytes) (opts : list bytes) (a : bytes) : bool :=
  if (a =b? B "*")%ldap then true
  else
    let '(name, rest, hasOpts) := cut_byte semicolon a in
    if negb (equal_fold name base) then false
    else if negb hasOpts then true
    else forallb (λ o, negb (o =b? [])%ldap && existsb (λ have, equal_fold o have) opts)
           (split_byte semicolon rest).

Definition aciAttrInA (l : list bytes) (base : bytes) (opts : list bytes) : bool :=
  existsb (aci_name_covers base opts) l.

Definition TargetsAttr (p : ParsedACI) (base : bytes) (opts : list bytes) : bool :=
  match aci_AttrMode p with
  | ACITargetAttrAllA => true
  | ACITargetAttrAllowA => aciAttrInA (aci_Attrs p) base opts
  | ACITargetAttrDenyA => negb (aciAttrInA (aci_Attrs p) base opts)
  | ACITargetAttrNoneA => false
  end.

Definition CoversAnyAttr (p : ParsedACI) : bool :=
  match aci_AttrMode p with
  | ACITargetAttrNoneA | ACITargetAttrAllA => true
  | ACITargetAttrAllowA => bool_decide (B "*" ∈ aci_Attrs p)
  | ACITargetAttrDenyA => negb (bool_decide (B "*" ∈ aci_Attrs p))
  end.

(** * The target rule *)

(** The parent walk; [None] when [n] steps do not end it. *)
Fixpoint scope_walk (n : nat) (d aciTarget : DN) : option bool :=
  match n with
  | O => None
  | S n' =>
    if EqualFold d aciTarget then Some true
    else
      match parentDN d with
      | None => Some false
      | Some parent => scope_walk n' parent aciTarget
      end
  end.

Definition aciTargetScopeA (target aciTarget : DN) : bool :=
  default false (scope_walk (S (Depth target)) target aciTarget).

(** * Bind rules *)

Definition aciAuthenticatedA (s : Subject) : bool :=
  negb (Anonymous s) && (0 <? Depth (subj_DN s))%nat.

(** [memberDNs] of [memberof.go]: the parseable member and uniqueMember names, the
    first of each folded key. *)
Fixpoint member_dns_go (seen : gset bytes) (ds : list DN) : list DN :=
  match ds with
  | [] => []
  | d :: ds' =>
    if bool_decide (FoldedKey d ∈ seen) then member_dns_go seen ds'
    else d :: member_dns_go ({[FoldedKey d]} ∪ seen) ds'
  end.

Definition memberDNs (e : Entry) : list DN :=
  member_dns_go ∅
    (omap (λ v, dnFromValue v false) (Values e (B "member")) ++
     omap (λ v, dnFromValue v true) (Values e (B "uniqueMember"))).

(** The verdicts of one call, by the folded key of the group. *)
Definition groupMemberA (tx : ReadTx) (aci : ParsedACI) (userDN : DN) (groups : gmap bytes bool) :
    res store_err (bool * gmap bytes bool) :=
  let key := FoldedKey (as_DN (aci_Subject aci)) in
  match groups !! key with
  | Some verdict => Ok (verdict, groups)
  | None =>
    match tx_Entry tx (as_DN (aci_Subject aci)) with
    | Err ErrNoSuchObject => Ok (false, <[key := false]> groups)
    | Err e => Err e
    | Ok entry =>
      let want := FoldedKey userDN in
      let member := existsb (λ m, (FoldedKey m =b? want)%ldap) (memberDNs entry) in
      Ok (member, <[key := member]> groups)
    end
  end.

Definition subjectMatchA (tx : ReadTx) (aci : ParsedACI) (check : ACICheck) (groups : gmap bytes bool) :
    res store_err (bool * gmap bytes bool) :=
  let subj := ck_Subject check in
  match as_Kind (aci_Subject aci) with
  | ACISubjectAnyoneA => Ok (true, groups)
  | ACISubjectAllA => Ok (aciAuthenticatedA subj, groups)
  | ACISubjectUserDNA =>
    Ok (aciAuthenticatedA subj && EqualFold (subj_DN subj) (as_DN (aci_Subject aci)), groups)
  | ACISubjectSelfA =>
    Ok (aciAuthenticatedA subj && EqualFold (subj_DN subj) (ck_Target check), groups)
  | ACISubjectGroupDNA =>
    if negb (aciAuthenticatedA subj) then Ok (false, groups)
    else groupMemberA tx aci (subj_DN subj) groups
  end.

(** * The evaluator *)

(** The guards of the loop that do not read the store. *)
Definition aci_relevant (check : ACICheck) (aci : ParsedACI) : bool :=
  if negb (aciTargetScopeA (ck_Target check) (aci_TargetDN aci)) then false
  else if negb (HasPerm aci (ck_Perm check)) then false
  else if ck_EntryDenyOnly check then
    negb (negb (aci_Deny aci) || negb (bool_decide (aci_AttrMode aci = ACITargetAttrNoneA)))
  else if ck_Existence check then CoversAnyAttr aci
  else negb (negb (ck_Attribute check =b? [])%ldap && negb (TargetsAttr aci (ck_Attribute check) (ck_Options check))).

Fixpoint allowed_loop (tx : ReadTx) (check : ACICheck) (acis : list ParsedACI)
    (allowed : bool) (groups : gmap bytes bool) : res store_err bool :=
  match acis with
  | [] => if ck_EntryDenyOnly check then Ok true else Ok allowed
  | aci :: acis' =>
    if negb (aci_relevant check aci) then allowed_loop tx check acis' allowed groups
    else
      '(match_, groups) ← subjectMatchA tx aci check groups;
      if negb (match_ : bool) then allowed_loop tx check acis' allowed groups
      else if aci_Deny aci then Ok false
      else allowed_loop tx check acis' true groups
  end.

Definition Allowed (acis : list ParsedACI) (tx : ReadTx) (check : ACICheck) : res store_err bool :=
  if BypassACI (ck_Subject check) then Ok true else allowed_loop tx check acis false ∅.

(** * The server's wrappers *)

Definition allowedCheck (acis : list ParsedACI) (tx : ReadTx) (check : ACICheck) : bool :=
  match Allowed acis tx check with
  | Ok ok => ok
  | Err _ => false
  end.

Definition entryWriteNotDenied (acis : list ParsedACI) (tx : ReadTx) (subj : Subject) (dn : DN) : bool :=
  allowedCheck acis tx (MkACICheck subj dn [] [] PermWrite true false).

Definition allowedIdentity (acis : list ParsedACI) (tx : ReadTx) (subj : Subject) (target : DN)
    (attr : bytes) (opts : list bytes) (perm : Permission) : bool :=
  allowedCheck acis tx (MkACICheck subj target attr opts perm false false).

Definition attributeIdentity (s : Schema) (attr : bytes) : bytes :=
  let base := (cut_byte semicolon attr).1.1 in
  let base := CanonicalAttrType (trim_space base) in
  match AttributeType s base with
  | Some at_ => at_Name at_
  | None => base
  end.

Definition allowed (s : Schema) (acis : list ParsedACI) (tx : ReadTx) (subj : Subject) (target : DN)
    (attr : bytes) (perm : Permission) : bool :=
  let opts :=
    match cut_byte semicolon attr with
    | (_, rest, true) => splitAttrOptions rest
    | _ => []
    end in
  let id := attributeIdentity s attr in
  if negb (attr =b? [])%ldap && (id =b? [])%ldap then false
  else allowedIdentity acis tx subj target id opts perm.

End aci.

(** Facts of access control: the cached, short-circuiting evaluator implements a
    declarative decision over the set of ACIs, so the order of the ACIs is
    irrelevant and denials win; the target rule is a suffix comparison; what an
    unauthenticated subject can be granted; targetattr lists are monotone. *)

Section facts.
Context {U : Unicode}.

(** * The bind rules without the cache *)

Definition in_group (tx : ReadTx) (group user : DN) : res store_err bool :=
  match tx_Entry tx group with
  | Err ErrNoSuchObject => Ok false
  | Err e => Err e
  | Ok entry => Ok (existsb (λ m, beq (FoldedKey m) (FoldedKey user)) (memberDNs entry))
  end.

Definition subject_matches (tx : ReadTx) (check : ACICheck) (aci : ParsedACI) : res store_err bool :=
  let subj := ck_Subject check in
  match as_Kind (aci_Subject aci) with
  | ACISubjectAnyoneA => Ok true
  | ACISubjectAllA => Ok (aciAuthenticatedA subj)
  | ACISubjectUserDNA => Ok (aciAuthenticatedA subj && EqualFold (subj_DN subj) (as_DN (aci_Subject aci)))
  | ACISubjectSelfA => Ok (aciAuthenticatedA subj && EqualFold (subj_DN subj) (ck_Target check))
  | ACISubjectGroupDNA =>
    if aciAuthenticatedA subj then in_group tx (as_DN (aci_Subject aci)) (subj_DN subj) else Ok false
  end.

(** The decision: every relevant ACI's bind rule can be evaluated, no relevant
    deny matches, and (the entry gate aside) some relevant allow does. *)
Definition granted (acis : list ParsedACI) (tx : ReadTx) (check : ACICheck) : Prop :=
  (∀ aci, aci ∈ acis → aci_relevant check aci = true →
     ∃ m, subject_matches tx check aci = Ok m ∧ (aci_Deny aci = true → m = false)) ∧
  (ck_EntryDenyOnly check = true ∨
   ∃ aci, aci ∈ acis ∧ aci_relevant check aci = true ∧ aci_Deny aci = false ∧
     subject_matches tx check aci = Ok true).

(** * The cache is transparent *)

Section cache.
Context (tx : ReadTx) {TL : ReadTxLaws tx}.

Definition cache_ok (user : DN) (groups : gmap bytes bool) : Prop :=
  ∀ group v, groups !! FoldedKey group = Some v → in_group tx group user = Ok v.

Lemma in_group_folds (g g' user : DN) :
  FoldedKey g = FoldedKey g' → in_group tx g user = in_group tx g' user.
Proof. intros H. unfold in_group. by rewrite (tx_Entry_folds g g'). Qed.

Lemma cache_ok_insert (user group : DN) (v : bool) (groups : gmap bytes bool) :
  cache_ok user groups → in_group tx group user = Ok v → cache_ok user (<[FoldedKey group := v]> groups).
Proof.
  intros Hc Hv g w [[Hk <-]|[_ H]]%lookup_insert_Some; [|by apply Hc].
  by rewrite (in_group_folds g group).
Qed.

Lemma groupMemberA_spec (aci : ParsedACI) (user : DN) (groups : gmap bytes bool) :
  cache_ok user groups →
  match groupMemberA tx aci user groups with
  | Ok (v, groups') => in_group tx (as_DN (aci_Subject aci)) user = Ok v ∧ cache_ok user groups'
  | Err e => in_group tx (as_DN (aci_Subject aci)) user = Err e
  end.
Proof.
  intros Hc. unfold groupMemberA. destruct (groups !! _) eqn:E; [split; [by apply Hc | done]|].
  pose proof (λ v, cache_ok_insert user (as_DN (aci_Subject aci)) v groups Hc) as Hi.
  unfold in_group in *. destruct (tx_Entry tx _) as [e|[]]; eauto.
Qed.

Lemma subjectMatchA_spec (aci : ParsedACI) (check : ACICheck) (groups : gmap bytes bool) :
  cache_ok (subj_DN (ck_Subject check)) groups →
  match subjectMatchA tx aci check groups with
  | Ok (v, groups') => subject_matches tx check aci = Ok v ∧ cache_ok (subj_DN (ck_Subject check)) groups'
  | Err e => subject_matches tx check aci = Err e
  end.
Proof.
  intros Hc. unfold subjectMatchA, subject_matches. destruct (as_Kind _); try done.
  destruct (aciAuthenticatedA _); [by apply groupMemberA_spec | done].
Qed.

Lemma granted_nil (check : ACICheck) : granted [] tx check ↔ ck_EntryDenyOnly check = true.
Proof. unfold granted. set_solver. Qed.

(** One step of the loop against the decision, [got] being what was found so far. *)
Definition granted_from (got : bool) (acis : list ParsedACI) (check : ACICheck) : Prop :=
  (∀ aci, aci ∈ acis → aci_relevant check aci = true →
     ∃ m, subject_matches tx check aci = Ok m ∧ (aci_Deny aci = true → m = false)) ∧
  (got = true ∨ ck_EntryDenyOnly check = true ∨
   ∃ aci, aci ∈ acis ∧ aci_relevant check aci = true ∧ aci_Deny aci = false ∧
     subject_matches tx check aci = Ok true).

Lemma granted_from_skip (got : bool) (aci : ParsedACI) (acis : list ParsedACI) (check : ACICheck) :
  aci_relevant check aci = false ∨ subject_matches tx check aci = Ok false →
  granted_from got (aci :: acis) check ↔ granted_from got acis check.
Proof.
  intros H. unfold granted_from. setoid_rewrite elem_of_cons. split; intros [Hd Ha]; split.
  - naive_solver.
  - destruct Ha as [?|[?|(a & [->|Ha] & Hr & Hn & Hm)]]; [by left | by right; left | | naive_solver].
    destruct H; congruence.
  - intros a [->|Hin] Hr; [|by apply Hd]. destruct H; [congruence|]. by exists false.
  - naive_solver.
Qed.

Lemma allowed_loop_spec (check : ACICheck) (acis : list ParsedACI) (got : bool) (groups : gmap bytes bool) :
  cache_ok (subj_DN (ck_Subject check)) groups →
  allowed_loop tx check acis got groups = Ok true ↔ granted_from got acis check.
Proof.
  revert got groups. induction acis as [|aci acis IH]; intros got groups Hc; cbn [allowed_loop].
  - unfold granted_from. destruct (ck_EntryDenyOnly check), got; set_solver.
  - destruct (aci_relevant check aci) eqn:Er; cbn [negb];
      [|rewrite IH by done; symmetry; apply granted_from_skip; by left].
    pose proof (subjectMatchA_spec aci check groups Hc) as Hs.
    destruct (subjectMatchA tx aci check groups) as [[m groups']|e]; cbn [mbind res_bind].
    + destruct Hs as [Hs Hc']. destruct m; cbn [negb];
        [|rewrite IH by done; symmetry; apply granted_from_skip; by right].
      destruct (aci_Deny aci) eqn:Ed.
      * split; [done|]. intros [Hd _]. destruct (Hd aci) as (m & Hm & Hf); [by left | done |].
           rewrite Hs in Hm. injection Hm as <-. by specialize (Hf Ed).
      * rewrite IH by done. unfold granted_from. setoid_rewrite elem_of_cons. naive_solver.
    + split; [done|]. intros [Hd _]. destruct (Hd aci) as (m & Hm & Hf); [by left | done |]. congruence.
Qed.

Lemma Allowed_spec_aux (acis : list ParsedACI) (check : ACICheck) :
  Allowed acis tx check = Ok true ↔ BypassACI (ck_Subject check) = true ∨ granted acis tx check.
Proof.
  unfold Allowed. destruct (BypassACI _); [naive_solver|].
  rewrite allowed_loop_spec by (intros g v; by rewrite lookup_empty).
  unfold granted_from, granted. naive_solver.
Qed.

Lemma allowedCheck_spec (acis : list ParsedACI) (check : ACICheck) :
  allowedCheck acis tx check = true ↔ BypassACI (ck_Subject check) = true ∨ granted acis tx check.
Proof. rewrite <- Allowed_spec_aux. unfold allowedCheck. destruct (Allowed _ _ _) as [[]|]; naive_solver. Qed.

Lemma granted_mono (acis acis' : list ParsedACI) (check : ACICheck) :
  (∀ aci, aci ∈ acis' → aci ∈ acis) →
  (∀ aci, aci ∈ acis → aci_Deny aci = false → aci ∈ acis') →
  granted acis tx check → granted acis' tx check.
Proof. intros Hsub Hallow [Hd Ha]. split; [naive_solver|]. destruct Ha as [?|(a & ?)]; naive_solver. Qed.

End cache.
(** * The target rule *)

Section scope.
Context {UL : UnicodeLaws U}.

(** Fuel beyond the depth never matters, and the depth is enough. *)
Lemma scope_walk_total (n : nat) (d a : DN) :
  wf_dn d → (Depth d < n)%nat → is_Some (scope_walk n d a).
Proof.
  revert d. induction n as [|n IH]; intros d Hd Hn; [lia|]. cbn [scope_walk].
  destruct (EqualFold d a); [by eexists|]. destruct (parentDN d) as [p|] eqn:Ep; [|by eexists].
  apply parentDN_depth in Ep as [Hp Hlen]; [|done]. apply IH; [done | lia].
Qed.

Lemma scope_walk_spec (n : nat) (l : list rdn) (a : DN) :
  wf_dn (MkDN l) → no_tab_end (MkDN l) → (length l < n)%nat →
  scope_walk n (MkDN l) a = Some true ↔ ∃ pre suf, l = pre ++ suf ∧ suf ≠ [] ∧ EqualFold (MkDN suf) a = true.
Proof.
  revert l. induction n as [|n IH]; intros l [Hne Hf] Ht Hn; [lia|]. cbn [rdns] in *. cbn [scope_walk].
  destruct (EqualFold (MkDN l) a) eqn:E.
  { split; [intros _|done]. by exists [], l. }
  rewrite parentDN_aux by done. unfold Parent. cbn [rdns]. destruct l as [|r [|r' l]]; [done| |]; cbn [length Nat.ltb Nat.leb].
  - split; [done|]. intros ([|p pre] & suf & Heq & Hs & He); cbn in Heq; subst; [congruence|].
    injection Heq as -> H. symmetry in H. apply app_nil in H as [-> ->]. done.
  - cbn [drop]. apply Forall_cons in Hf as [_ Hf]. apply Forall_cons in Ht as [_ Ht].
    rewrite IH by (done || cbn in *; lia). split.
    + intros (pre & suf & -> & ? & ?). by exists (r :: pre), suf.
    + intros ([|p pre] & suf & Heq & Hs & He); cbn in Heq; [subst; congruence|].
      injection Heq as -> Heq. by exists pre, suf.
Qed.

Lemma aciTargetScopeA_spec_aux (t a : DN) :
  wf_dn t → no_tab_end t →
  aciTargetScopeA t a = true ↔ ∃ pre suf, rdns t = pre ++ suf ∧ suf ≠ [] ∧ EqualFold (MkDN suf) a = true.
Proof.
  destruct t as [l]. intros Hw Ht. unfold aciTargetScopeA, Depth. cbn [rdns].
  rewrite <- (scope_walk_spec (S (length l))) by (done || lia). destruct (scope_walk _ _ _) as [[]|]; cbn; naive_solver.
Qed.
End scope.

(** * targetattr lists *)

Lemma aciAttrInA_opts (l : list bytes) (base : bytes) (opts opts' : list bytes) :
  opts ⊆ opts' → aciAttrInA l base opts = true → aciAttrInA l base opts' = true.
Proof.
  intros Hsub (a & Ha & Hc)%existsb_exists. apply existsb_exists. exists a. split; [done|].
  unfold aci_name_covers in *. destruct (beq a _); [done|].
  destruct (cut_byte semicolon a) as [[name rest] [|]]; destruct (equal_fold name base); try done. cbn [negb] in *.
  rewrite forallb_forall in Hc |- *. intros o Ho. specialize (Hc o Ho). apply andb_true_iff in Hc as [-> Hc].
  apply existsb_exists in Hc as (h & Hh & He). apply existsb_exists. exists h. split; [|done].
  apply list_elem_of_In, Hsub. by apply list_elem_of_In.
Qed.

(** * Unauthenticated subjects *)

Lemma unauthenticated_matches (tx : ReadTx) (check : ACICheck) (aci : ParsedACI) :
  aciAuthenticatedA (ck_Subject check) = false →
  subject_matches tx check aci = Ok (bool_decide (as_Kind (aci_Subject aci) = ACISubjectAnyoneA)).
Proof. intros H. unfold subject_matches. rewrite H. by destruct (as_Kind _). Qed.

End facts.

(** * A sample directory and policy *)

Definition the_dn (s : bytes) : DN :=
  match @ParseDN ascii_unicode s with
  | Ok d => d
  | Err _ => MkDN []
  end.

(** A snapshot holding one group, looked up by folded key. *)
Definition admins_tx : ReadTx :=
  MkReadTx
    (λ d, if beq (@FoldedKey ascii_unicode d) (B "cn=admins,dc=test")
          then Ok (MkEntry (B "cn=admins,dc=test") [MkAttribute (B "member") [B "cn=ada,dc=test"]])
          else Err ErrNoSuchObject)
    (λ _, Err ErrNoSuchObject) (λ _, Err ErrNoSuchObject).

#[export] Instance admins_tx_laws : ReadTxLaws (U := ascii_unicode) admins_tx.
Proof. constructor. intros d d' H. cbn. by rewrite H. Qed.

(** Administrators read everything below the suffix but passwords. *)
Definition admins_read : ParsedACI :=
  MkParsedACI (B "admins") (the_dn (B "dc=test")) ACITargetAttrAllA [] false [PermRead; PermSearch]
    (MkACISubject ACISubjectGroupDNA (the_dn (B "cn=Admins,dc=test"))).

Definition no_passwords : ParsedACI :=
  MkParsedACI (B "pw") (the_dn (B "dc=test")) ACITargetAttrAllowA [B "userPassword"] true [PermRead]
    (MkACISubject ACISubjectAnyoneA (MkDN [])).

Definition anyone_reads : ParsedACI :=
  MkParsedACI (B "any") (the_dn (B "dc=test")) ACITargetAttrDenyA [B "userPassword"] false [PermRead]
    (MkACISubject ACISubjectAnyoneA (MkDN [])).

Definition ada : Subject := MkSubject (the_dn (B "cn=Ada,dc=test")) false false.

Definition nobody : Subject := MkSubject (MkDN []) true false.

Definition read_check (who : Subject) (attr : bytes) : ACICheck :=
  MkACICheck who (the_dn (B "cn=bob,dc=test")) attr [] PermRead false false.

Example ada_reads_mail :
  allowedCheck (U := ascii_unicode) [admins_read; no_passwords] admins_tx (read_check ada (B "mail")) = true.
Proof. vm_compute. reflexivity. Qed.

Example ada_reads_no_password :
  allowedCheck (U := ascii_unicode) [admins_read; no_passwords] admins_tx (read_check ada (B "USERPASSWORD")) = false.
Proof. vm_compute. reflexivity. Qed.

(** * Properties *)

(** C1.  The evaluator's contract: whatever the order of the ACIs and the state of
    the group cache, access is granted exactly to bypass subjects and where every
    relevant ACI's bind rule can be evaluated, no relevant deny matches, and some
    relevant allow matches (the entry gate needs no allow).  So denials win, the
    default is deny, and a store error never grants. *)
Theorem Allowed_spec {U : Unicode} (tx : ReadTx) {TL : ReadTxLaws tx} (acis : list ParsedACI) (check : ACICheck) :
  Allowed acis tx check = Ok true ↔ BypassACI (ck_Subject check) = true ∨ granted acis tx check.
Proof. by apply Allowed_spec_aux. Qed.

Lemma Allowed_spec_witness :
  Allowed (U := ascii_unicode) [admins_read; no_passwords] admins_tx (read_check ada (B "mail")) = Ok true ↔
  false = true ∨ granted (U := ascii_unicode) [admins_read; no_passwords] admins_tx (read_check ada (B "mail")).
Proof. exact (Allowed_spec (U := ascii_unicode) admins_tx [admins_read; no_passwords] (read_check ada (B "mail"))). Defined.

(** Only the set of ACIs counts: reordering or repeating ACIs changes no
    decision, and adding deny ACIs never grants what was refused. *)
Theorem allowedCheck_set {U : Unicode} (tx : ReadTx) {TL : ReadTxLaws tx} (acis acis' : list ParsedACI)
    (check : ACICheck) :
  (∀ aci, aci ∈ acis → aci ∈ acis') →
  (∀ aci, aci ∈ acis' → aci_Deny aci = false → aci ∈ acis) →
  allowedCheck acis' tx check = true → allowedCheck acis tx check = true.
Proof.
  intros Hsub Hallow. rewrite !allowedCheck_spec by done. intros [?|H]; [by left|right].
  by eapply granted_mono.
Qed.

Lemma allowedCheck_set_witness :
  allowedCheck (U := ascii_unicode) [admins_read] admins_tx (read_check ada (B "mail")) = true.
Proof.
  apply (allowedCheck_set (U := ascii_unicode) admins_tx [admins_read] [no_passwords; admins_read; admins_read]).
  - intros aci ->%list_elem_of_singleton. right. left.
  - intros aci [->|[->|[->|H]%elem_of_cons]%elem_of_cons]%elem_of_cons Hd; try discriminate Hd; try left.
    by apply not_elem_of_nil in H.
  - vm_compute. reflexivity.
Defined.

(** A subject without an authenticated identity (anonymous, or never bound) is
    granted access only by an allow ACI whose bind rule is anyone, and every
    relevant deny ACI for anyone refuses it; no group is read for it. *)
Theorem unauthenticated_grant {U : Unicode} (tx : ReadTx) {TL : ReadTxLaws tx} (acis : list ParsedACI)
    (check : ACICheck) :
  aciAuthenticatedA (ck_Subject check) = false → BypassACI (ck_Subject check) = false →
  ck_EntryDenyOnly check = false → allowedCheck acis tx check = true →
  ∃ aci, aci ∈ acis ∧ aci_relevant check aci = true ∧ aci_Deny aci = false ∧
    as_Kind (aci_Subject aci) = ACISubjectAnyoneA ∧
    ∀ d, d ∈ acis → aci_relevant check d = true → aci_Deny d = true → as_Kind (aci_Subject d) ≠ ACISubjectAnyoneA.
Proof.
  intros Ha Hb He. rewrite allowedCheck_spec by done. intros [?|[Hd [?|(aci & Hin & Hr & Hn & Hm)]]]; [congruence..|].
  rewrite (unauthenticated_matches tx check aci Ha) in Hm. injection Hm as Hm. bprop.
  exists aci. split_and!; try done. intros d Hdi Hdr Hdd Hk. destruct (Hd d Hdi Hdr) as (m & Hdm & Hf).
  rewrite (unauthenticated_matches tx check d Ha) in Hdm. injection Hdm as <-.
  specialize (Hf Hdd). by bprop.
Qed.

Lemma unauthenticated_grant_witness :
  ∃ aci, aci ∈ [anyone_reads; admins_read] ∧
    aci_relevant (U := ascii_unicode) (read_check nobody (B "mail")) aci = true ∧ aci_Deny aci = false ∧
    as_Kind (aci_Subject aci) = ACISubjectAnyoneA ∧
    ∀ d, d ∈ [anyone_reads; admins_read] → aci_relevant (U := ascii_unicode) (read_check nobody (B "mail")) d = true →
      aci_Deny d = true → as_Kind (aci_Subject d) ≠ ACISubjectAnyoneA.
Proof.
  apply (unauthenticated_grant (U := ascii_unicode) admins_tx [anyone_reads; admins_read] (read_check nobody (B "mail")));
    vm_compute; reflexivity.
Defined.

(** The target rule: an ACI covers its target entry and that entry's
    descendants, RDN by RDN under case folding, never a name whose text merely ends
    alike; the parent walk always ends. *)
Theorem aciTargetScopeA_spec {U : Unicode} {UL : UnicodeLaws U} (t a : DN) :
  wf_dn t → no_tab_end t →
  (aciTargetScopeA t a = true ↔ ∃ pre suf, rdns t = pre ++ suf ∧ suf ≠ [] ∧ EqualFold (MkDN suf) a = true) ∧
  is_Some (scope_walk (S (Depth t)) t a).
Proof. intros Hw Ht. split; [by apply aciTargetScopeA_spec_aux | by apply scope_walk_total; [|lia]]. Qed.

Lemma aciTargetScopeA_spec_witness :
  (aciTargetScopeA (U := ascii_unicode) sample_dn (the_dn (B "dc=TEST")) = true ↔
   ∃ pre suf, rdns sample_dn = pre ++ suf ∧ suf ≠ [] ∧
     EqualFold (U := ascii_unicode) (MkDN suf) (the_dn (B "dc=TEST")) = true) ∧
  is_Some (scope_walk (U := ascii_unicode) (S (Depth sample_dn)) sample_dn (the_dn (B "dc=TEST"))).
Proof.
  apply (@aciTargetScopeA_spec ascii_unicode ascii_unicode_laws); apply sample_dn_wf.
Defined.

(** Attribute options only specialise: a positive targetattr list that covers
    a description covers it with further options, and a negated list that leaves
    it out leaves those out. *)
Theorem TargetsAttr_options {U : Unicode} (p : ParsedACI) (base : bytes) (opts opts' : list bytes) :
  opts ⊆ opts' →
  match aci_AttrMode p with
  | ACITargetAttrAllowA => TargetsAttr p base opts = true → TargetsAttr p base opts' = true
  | ACITargetAttrDenyA => TargetsAttr p base opts' = true → TargetsAttr p base opts = true
  | _ => TargetsAttr p base opts = TargetsAttr p base opts'
  end.
Proof.
  intros Hsub. unfold TargetsAttr. destruct (aci_AttrMode p); try done.
  - by apply aciAttrInA_opts.
  - rewrite !negb_true_iff. intros H. destruct (aciAttrInA _ base opts) eqn:E; [|done].
    by rewrite (aciAttrInA_opts _ _ _ _ Hsub E) in H.
Qed.

Lemma TargetsAttr_options_witness : TargetsAttr (U := ascii_unicode) anyone_reads (B "mail") [] = true.
Proof.
  apply (TargetsAttr_options (U := ascii_unicode) anyone_reads (B "mail") [] [B "x-a"]);
    [intros x Hx; by apply elem_of_nil in Hx | vm_compute; reflexivity].
Defined.
