(* ===== verification/Server.v ===== *)
(** What every operation handler shares: the limits of [server.go], the managed
    suffixes of [op_write.go], the control policy of [dispatch.go],
    the response constructor of [conn.go] and the environment a handler runs in. *)

From S2P Require Import Prelude GoStrings DN Message Attr Schema Matching FilterEval StoreIface Aci.
Local Open Scope Z_scope.

(** * Limits *)

(** [Limits]; durations are in nanoseconds. *)
Record Limits : Type := MkLimits {
  MaxPDUBytes : Z;
  MaxOutstandingOps : Z;
  ReadTimeout : Z;
  WriteTimeout : Z;
  IdleTimeout : Z;
  SearchSizeLimit : Z;
  SearchTimeLimit : Z;
  MaxConnections : Z;
  MaxAuthAttempts : Z;
  ShutdownTimeout : Z;
}.

Definition second : Z := 1000000000.

Definition DefaultLimits : Limits := {|
  MaxPDUBytes := Z.shiftl 1 20;
  MaxOutstandingOps := 8;
  ReadTimeout := 30 * second;
  WriteTimeout := 30 * second;
  IdleTimeout := 5 * 60 * second;
  SearchSizeLimit := 500;
  SearchTimeLimit := 30 * second;
  MaxConnections := 256;
  MaxAuthAttempts := 5;
  ShutdownTimeout := 10 * second;
|}.

Definition or_default (v d : Z) : Z := if v <=? 0 then d else v.

Definition withDefaults (l : Limits) : Limits :=
  let d := DefaultLimits in
  {|
    MaxPDUBytes := or_default (MaxPDUBytes l) (MaxPDUBytes d);
    MaxOutstandingOps := or_default (MaxOutstandingOps l) (MaxOutstandingOps d);
    ReadTimeout := or_default (ReadTimeout l) (ReadTimeout d);
    WriteTimeout := or_default (WriteTimeout l) (WriteTimeout d);
    IdleTimeout := or_default (IdleTimeout l) (IdleTimeout d);
    SearchSizeLimit := or_default (SearchSizeLimit l) (SearchSizeLimit d);
    SearchTimeLimit := or_default (SearchTimeLimit l) (SearchTimeLimit d);
    MaxConnections := or_default (MaxConnections l) (MaxConnections d);
    MaxAuthAttempts := or_default (MaxAuthAttempts l) (MaxAuthAttempts d);
    ShutdownTimeout := or_default (ShutdownTimeout l) (ShutdownTimeout d);
  |}.

(** * The server *)

(** The part of [Server] the handlers read. *)
Record Server : Type := MkServer {
  suffixes : list DN;
  sv_Limits : Limits;
  sv_Schema : Schema;
  sv_ACI : list ParsedACI;
  (** HMAC-SHA256 under [pageKey] *)
  sv_hmac : bytes → bytes;
  (** [observability.CurrentBuild("labldapd").Version] *)
  sv_version : bytes;
}.

(** What a running handler observes besides the store: whether its context is
    cancelled at the [n]-th poll, whether a deadline has passed at the [n]-th reading
    of the clock, and whether the connection accepts the [n]-th response. *)
Record OpEnv : Type := MkOpEnv {
  cancelled : nat → bool;
  late : Z → nat → bool;
  sends : nat → bool;
}.

(** A response message, with its controls. *)
Definition response : Type := Operation * list Control.

Section server.
Context {U : Unicode}.

Definition inSuffix (s : Server) (dn : DN) : bool := UnderAny dn (suffixes s).

(** The loop of [suffixIndex]: the deepest suffix so far and its depth. *)
Fixpoint suffix_index_go (dn : DN) (i : nat) (best : option nat) (depth : Z) (sufs : list DN) : option nat :=
  match sufs with
  | [] => best
  | suf :: sufs' =>
    if UnderAny dn [suf] && (depth <? Z.of_nat (Depth suf))
    then suffix_index_go dn (S i) (Some i) (Z.of_nat (Depth suf)) sufs'
    else suffix_index_go dn (S i) best depth sufs'
  end.

Definition suffixIndex (s : Server) (dn : DN) : option nat := suffix_index_go dn 0 None (-1) (suffixes s).

Definition isSuffixRoot (s : Server) (dn : DN) : bool := existsb (Equal dn) (suffixes s).

End server.

(** * Controls *)

Definition is_search (op : Operation) : bool := match op with OpSearch _ => true | _ => false end.

Definition is_modify (op : Operation) : bool := match op with ModifyRequest _ _ => true | _ => false end.

Definition control_refused (op : Operation) (ctrl : Control) : option bytes :=
  if (OID ctrl =b? OIDSimplePagedResults)%ldap then
    if is_search op then None
    else if Critical ctrl then Some (B "paged results control is only valid on search") else None
  else if (OID ctrl =b? OIDAssertion)%ldap then
    if is_modify op then None
    else if Critical ctrl then Some (B "assertion control is only honored on modify") else None
  else if Critical ctrl then Some (B "unsupported critical control")
  else None.

(** [checkControls]: [None] admits the message. *)
Fixpoint check_controls (op : Operation) (controls : list Control) : option Result :=
  match controls with
  | [] => None
  | ctrl :: controls' =>
    match control_refused op ctrl with
    | Some diag => Some (MkResult ResultUnavailableCriticalExtension [] diag)
    | None => check_controls op controls'
    end
  end.

Definition checkControls (m : Message) : option Result := check_controls (Op m) (Controls m).

(** * Responses *)

(** [responseFor]. *)
Definition responseFor (op : Operation) (res : Result) : Operation :=
  let code := OpCode op in
  if code =? OpBindRequest then BindResponse res
  else if code =? OpSearchRequest then SearchResultDone res
  else if code =? OpModifyRequest then ModifyResponse res
  else if code =? OpAddRequest then AddResponse res
  else if code =? OpDeleteRequest then DeleteResponse res
  else if code =? OpModifyDNRequest then ModifyDNResponse res
  else if code =? OpCompareRequest then CompareResponse res
  else ExtendedResponse res [] None.
