(* ===== verification/Base64.v ===== *)
(** Package [encoding/base64], as far as the program uses it: [RawURLEncoding] (the
    cookies of paged results) and [StdEncoding] (stored passwords).

    Both decoders skip line breaks and ignore the unused low bits of a short last
    quantum, as the non-strict decoders of the package do; both invert their
    encoders. *)

From S2P Require Import Prelude GoStrings.
Local Open Scope Z_scope.

(** * RawURLEncoding *)

Definition b64_char (v : Z) : byte :=
  if v <? 26 then zb (65 + v)
  else if v <? 52 then zb (97 + (v - 26))
  else if v <? 62 then zb (48 + (v - 52))
  else if v =? 62 then x2d else x5f.

Definition b64_value (b : byte) : option Z :=
  let c := bz b in
  if in_range 65 90 c then Some (c - 65)
  else if in_range 97 122 c then Some (c - 97 + 26)
  else if in_range 48 57 c then Some (c - 48 + 52)
  else if c =? 45 then Some 62
  else if c =? 95 then Some 63
  else None.

Fixpoint b64_encode (s : bytes) : bytes :=
  match s with
  | [] => []
  | [a] => [b64_char (bz a / 4); b64_char (bz a mod 4 * 16)]
  | [a; b] =>
    [b64_char (bz a / 4); b64_char (bz a mod 4 * 16 + bz b / 16); b64_char (bz b mod 16 * 4)]
  | a :: b :: c :: s' =>
    b64_char (bz a / 4) :: b64_char (bz a mod 4 * 16 + bz b / 16) ::
    b64_char (bz b mod 16 * 4 + bz c / 64) :: b64_char (bz c mod 64) :: b64_encode s'
  end.

(** Quanta of four; the unused low bits of a short last quantum are ignored, as the
    non-strict decoder does. *)
Fixpoint b64_quanta (l : list Z) : option bytes :=
  match l with
  | [] => Some []
  | [_] => None
  | [a; b] => Some [zb (a * 4 + b / 16)]
  | [a; b; c] => Some [zb (a * 4 + b / 16); zb (b mod 16 * 16 + c / 4)]
  | a :: b :: c :: d :: l' =>
    (λ t, zb (a * 4 + b / 16) :: zb (b mod 16 * 16 + c / 4) :: zb (c mod 4 * 64 + d) :: t) <$> b64_quanta l'
  end.

(** Line breaks are skipped; any other octet outside the alphabet is an error. *)
Definition b64_decode (s : bytes) : option bytes :=
  let s := filter (λ b, b ≠ x0a ∧ b ≠ x0d) s in
  l ← mapM b64_value s;
  b64_quanta l.

Lemma b64_value_char (v : Z) : 0 ≤ v < 64 → b64_value (b64_char v) = Some v ∧ b64_char v ≠ x0a ∧ b64_char v ≠ x0d.
Proof.
  intros Hv.
  assert (H : forallb (λ n, bool_decide (b64_value (b64_char (Z.of_nat n)) = Some (Z.of_nat n) ∧
    b64_char (Z.of_nat n) ≠ x0a ∧ b64_char (Z.of_nat n) ≠ x0d)) (List.seq 0 64) = true) by (vm_compute; reflexivity).
  rewrite forallb_forall in H. specialize (H (Z.to_nat v)). rewrite Z2Nat.id in H by lia.
  eapply bool_decide_eq_true_1, H, in_seq. lia.
Qed.

(** The six-bit groups of an encoding. *)
Fixpoint sextets (s : bytes) : list Z :=
  match s with
  | [] => []
  | [a] => [bz a / 4; bz a mod 4 * 16]
  | [a; b] => [bz a / 4; bz a mod 4 * 16 + bz b / 16; bz b mod 16 * 4]
  | a :: b :: c :: s' =>
    (bz a / 4) :: (bz a mod 4 * 16 + bz b / 16) :: (bz b mod 16 * 4 + bz c / 64) :: (bz c mod 64) :: sextets s'
  end.

(** Induction three octets at a time. *)
Lemma triple_ind (P : bytes → Prop) :
  P [] → (∀ a, P [a]) → (∀ a b, P [a; b]) → (∀ a b c s, P s → P (a :: b :: c :: s)) → ∀ s, P s.
Proof.
  intros H0 H1 H2 H3 s. induction s as [s IH] using (induction_ltof1 _ (@length byte)). unfold ltof in IH.
  destruct s as [|a [|b [|c s]]]; auto. apply H3, IH. cbn. lia.
Qed.

Lemma b64_encode_sextets (s : bytes) : b64_encode s = b64_char <$> sextets s.
Proof. induction s as [| | |a b c s IH] using triple_ind; try done. cbn [b64_encode sextets]. by rewrite IH. Qed.

Lemma sextets_range (s : bytes) : Forall (λ v, 0 ≤ v < 64) (sextets s).
Proof.
  induction s as [|a|a b|a b c s IH] using triple_ind; cbn [sextets];
    try pose proof (bz_range a); try pose proof (bz_range b); try pose proof (bz_range c);
    repeat constructor; try done; try (Z.div_mod_to_equations; lia).
Qed.

Lemma b64_quanta_sextets (s : bytes) : b64_quanta (sextets s) = Some s.
Proof.
  induction s as [|a|a b|a b c s IH] using triple_ind; cbn [sextets b64_quanta]; [done|..];
    pose proof (bz_range a); try pose proof (bz_range b); try pose proof (bz_range c).
  - replace (bz a / 4 * 4 + bz a mod 4 * 16 / 16) with (bz a) by (Z.div_mod_to_equations; lia). by rewrite zb_bz.
  - replace (bz a / 4 * 4 + (bz a mod 4 * 16 + bz b / 16) / 16) with (bz a) by (Z.div_mod_to_equations; lia).
    replace ((bz a mod 4 * 16 + bz b / 16) mod 16 * 16 + bz b mod 16 * 4 / 4) with (bz b)
      by (Z.div_mod_to_equations; lia). by rewrite !zb_bz.
  - replace (bz a / 4 * 4 + (bz a mod 4 * 16 + bz b / 16) / 16) with (bz a) by (Z.div_mod_to_equations; lia).
    replace ((bz a mod 4 * 16 + bz b / 16) mod 16 * 16 + (bz b mod 16 * 4 + bz c / 64) / 4) with (bz b)
      by (Z.div_mod_to_equations; lia).
    replace ((bz b mod 16 * 4 + bz c / 64) mod 4 * 64 + bz c mod 64) with (bz c) by (Z.div_mod_to_equations; lia).
    destruct (sextets s) eqn:E; [destruct s as [|? [|? [|]]]; try discriminate E; cbn; by rewrite !zb_bz|].
    rewrite IH. cbn. by rewrite !zb_bz.
Qed.

Lemma b64_roundtrip (s : bytes) : b64_decode (b64_encode s) = Some s.
Proof.
  unfold b64_decode. rewrite b64_encode_sextets. pose proof (sextets_range s) as Hr.
  assert (Hf : filter (λ b, b ≠ x0a ∧ b ≠ x0d) (b64_char <$> sextets s) = b64_char <$> sextets s).
  { clear -Hr. induction Hr as [|v l Hv _ IH]; [done|]. rewrite fmap_cons, filter_cons_True, IH; [done|].
    by apply b64_value_char. }
  rewrite Hf. assert (Hm : mapM b64_value (b64_char <$> sextets s) = Some (sextets s)).
  { apply mapM_Some. clear Hf. induction Hr as [|v l Hv _ IH]; constructor; [by apply b64_value_char | done]. }
  rewrite Hm. cbn. apply b64_quanta_sextets.
Qed.

Lemma b64_encode_length (s : bytes) : (3 * length (b64_encode s) ≤ 4 * length s + 6)%nat.
Proof. induction s as [| | |a b c s IH] using triple_ind; cbn [length b64_encode] in *; lia. Qed.

(** * StdEncoding *)

Definition std_char (v : Z) : byte :=
  if v =? 62 then x2b else if v =? 63 then x2f else b64_char v.

Definition std_value (b : byte) : option Z :=
  let c := bz b in
  if c =? 43 then Some 62
  else if c =? 47 then Some 63
  else if (c =? 45) || (c =? 95) then None
  else b64_value b.

Definition pad : byte := x3d.

Fixpoint std_encode (s : bytes) : bytes :=
  match s with
  | [] => []
  | [a] => (std_char <$> sextets [a]) ++ [pad; pad]
  | [a; b] => (std_char <$> sextets [a; b]) ++ [pad]
  | a :: b :: c :: s' => (std_char <$> sextets [a; b; c]) ++ std_encode s'
  end.

(** Quanta of four characters; padding ends the input. *)
Fixpoint std_quanta (l : bytes) : option bytes :=
  match l with
  | [] => Some []
  | a :: b :: c :: d :: l' =>
    if bool_decide (d = pad) then
      if bool_decide (l' = []) then
        vs ← mapM std_value (if bool_decide (c = pad) then [a; b] else [a; b; c]);
        b64_quanta vs
      else None
    else
      vs ← mapM std_value [a; b; c; d];
      h ← b64_quanta vs;
      t ← std_quanta l';
      Some (h ++ t)
  | _ => None
  end.

Definition std_decode (s : bytes) : option bytes := std_quanta (filter (λ b, b ≠ x0a ∧ b ≠ x0d) s).

Lemma std_value_char (v : Z) :
  0 ≤ v < 64 → std_value (std_char v) = Some v ∧ std_char v ≠ x0a ∧ std_char v ≠ x0d ∧ std_char v ≠ pad.
Proof.
  intros Hv.
  assert (H : forallb (λ n, bool_decide (std_value (std_char (Z.of_nat n)) = Some (Z.of_nat n) ∧
    std_char (Z.of_nat n) ≠ x0a ∧ std_char (Z.of_nat n) ≠ x0d ∧ std_char (Z.of_nat n) ≠ pad)) (List.seq 0 64) = true) by (vm_compute; reflexivity).
  rewrite forallb_forall in H. specialize (H (Z.to_nat v)). rewrite Z2Nat.id in H by lia.
  eapply bool_decide_eq_true_1, H, in_seq. lia.
Qed.

Lemma std_values_chars (vs : list Z) : Forall (λ v, 0 ≤ v < 64) vs → mapM std_value (std_char <$> vs) = Some vs.
Proof. intros H. apply mapM_Some. induction H as [|v l Hv _ IH]; constructor; [by apply std_value_char | done]. Qed.

Lemma std_chars_plain (vs : list Z) : Forall (λ v, 0 ≤ v < 64) vs → filter (λ b, b ≠ x0a ∧ b ≠ x0d) (std_char <$> vs) = std_char <$> vs.
Proof.
  induction 1 as [|v l Hv _ IH]; [done|]. rewrite fmap_cons, filter_cons_True, IH; [done|]. destruct (std_value_char v Hv) as (_ & ? & ? & _). done.
Qed.

Lemma std_encode_plain (s : bytes) : filter (λ b, b ≠ x0a ∧ b ≠ x0d) (std_encode s) = std_encode s.
Proof.
  induction s as [|a|a b|a b c s IH] using triple_ind; cbn [std_encode]; [done|..];
    rewrite filter_app, std_chars_plain by apply sextets_range; [done..|]. by rewrite IH.
Qed.

(** One full quantum. *)
Lemma std_quanta_full (w x y z : Z) (l : bytes) :
  Forall (λ v, 0 ≤ v < 64) [w; x; y; z] →
  std_quanta (std_char w :: std_char x :: std_char y :: std_char z :: l) =
  (h ← b64_quanta [w; x; y; z]; t ← std_quanta l; Some (h ++ t)).
Proof.
  intros H. pose proof (std_values_chars _ H) as Hm. cbn [std_quanta]. rewrite !Forall_cons in H. destruct H as (_ & _ & _ & Hz & _).
  rewrite bool_decide_false by by apply std_value_char. cbn [fmap list_fmap] in Hm. by rewrite Hm.
Qed.

Lemma std_roundtrip (s : bytes) : std_decode (std_encode s) = Some s.
Proof.
  unfold std_decode. rewrite std_encode_plain.
  induction s as [|a|a b|a b c s IH] using triple_ind; [done|..]; cbn [std_encode].
  - pose proof (std_values_chars _ (sextets_range [a])) as Hm. pose proof (b64_quanta_sextets [a]) as Hq.
    cbn [sextets fmap list_fmap app std_quanta] in *. rewrite !bool_decide_true by done. by rewrite Hm.
  - pose proof (std_values_chars _ (sextets_range [a; b])) as Hm. pose proof (b64_quanta_sextets [a; b]) as Hq.
    pose proof (sextets_range [a; b]) as Hr. cbn [sextets fmap list_fmap app std_quanta] in *.
    rewrite !Forall_cons in Hr. destruct Hr as (_ & _ & Hr & _).
    rewrite (bool_decide_true (pad = pad)), (bool_decide_true ([] = [])), bool_decide_false by (done || by apply std_value_char). by rewrite Hm.
  - pose proof (b64_quanta_sextets [a; b; c]) as Hq. pose proof (sextets_range [a; b; c]) as Hr.
    cbn [sextets fmap list_fmap app] in *. rewrite std_quanta_full, Hq by done. cbn [mbind option_bind]. by rewrite IH.
Qed.

Lemma std_encode_length (s : bytes) : (length (std_encode s) ≤ 2 * length s + 4)%nat.
Proof. induction s as [| | |a b c s IH] using triple_ind; cbn [length std_encode sextets fmap list_fmap app] in *; lia. Qed.
