(* ===== verification/Paging.v ===== *)
(** Simple paged results (RFC 2696): [src/internal/ldapserver/ctrl_paged.go], with
    what it uses of [strconv].

    HMAC-SHA256 under the server's per-instance key is the parameter [hmac_sum]; the
    theorems say what a verified cookie's tag is the tag of.  Go's [int] is 64 bits
    wide here. *)

From S2P Require Import Prelude GoStrings Base64 DN Message Ber Decode Encode.
Local Open Scope Z_scope.

(** * package strconv *)

Definition digit (d : Z) : byte := zb (48 + d).

(** Decimal digits, least significant last; twenty digits hold every [int]. *)
Fixpoint digits (fuel : nat) (n : Z) (acc : bytes) : bytes :=
  match fuel with
  | O => acc
  | S fuel' => if n <? 10 then digit n :: acc else digits fuel' (n / 10) (digit (n mod 10) :: acc)
  end.

(** [strconv.Itoa]. *)
Definition itoa (n : Z) : bytes := if n <? 0 then B "-" ++ digits 20 (- n) [] else digits 20 n [].

Definition maxInt : Z := 2^63 - 1.

Fixpoint digits_value (acc : Z) (s : bytes) : option Z :=
  match s with
  | [] => Some acc
  | b :: s' => if in_range 48 57 (bz b) then digits_value (acc * 10 + (bz b - 48)) s' else None
  end.

(** [strconv.Atoi]: an optional sign and decimal digits within [int]. *)
Definition atoi (s : bytes) : option Z :=
  let '(neg, ds) :=
    match s with
    | b :: s' => if bool_decide (b = x2d) then (true, s') else if bool_decide (b = x2b) then (false, s') else (false, s)
    | [] => (false, [])
    end in
  match ds with
  | [] => None
  | _ =>
    v ← digits_value 0 ds;
    let v := if (neg : bool) then - v else v in
    if (v <? - 2^63) || (maxInt <? v) then None else Some v
  end.

(** * Cookies *)

Definition pageCookiePrefix : bytes := B "v1.".

Definition maxCookieBytes : Z := 128.

Definition c_dot : byte := x2e.

Record pageRequest : Type := MkPageRequest { pr_size : Z; pr_offset : Z; pr_binding : bytes }.

Section paging.
Context {U : Unicode} {L : BerLib}.

(** [hmac.New(sha256.New, s.pageKey)] applied to the concatenated writes. *)
Variable hmac_sum : bytes → bytes.

Definition pagedQueryBinding (base : DN) (req : SearchRequest) : res codec_err bytes :=
  fp ← encodeFilter (SFilter req) 0;
  Ok (FoldedKey base ++ [x00] ++ [zb (SScope req)] ++ [x00] ++ PacketBytes fp).

(** The octets the MAC is taken over. *)
Definition mac_message (binding : bytes) (offset : Z) : bytes :=
  B "labldapd-paged-v1" ++ [x00] ++ binding ++ [x00] ++ itoa offset.

Definition pageCookieMAC (binding : bytes) (offset : Z) : bytes := hmac_sum (mac_message binding offset).

Definition encodePageCookie (binding : bytes) (offset : Z) : bytes :=
  pageCookiePrefix ++ itoa offset ++ B "." ++ b64_encode (pageCookieMAC binding offset).

(** [None] is [errPagedCookie]. *)
Definition decodePageCookie (binding cookie : bytes) : option Z :=
  if (cookie =b? [])%ldap then Some 0
  else if maxCookieBytes <? blen cookie then None
  else
    rest ← cut_prefix cookie pageCookiePrefix;
    let '(offStr, macStr, ok) := cut_byte c_dot rest in
    if negb ok then None
    else
      offset ← atoi offStr;
      if offset <? 0 then None
      else
        got ← b64_decode macStr;
        if (got =b? pageCookieMAC binding offset)%ldap then Some offset else None.

(** * The control *)

Definition paged_fail (code : Z) (diag : bytes) : res Result (option pageRequest) :=
  Err (MkResult code [] diag).

(** The control's value: [None] when it occurs twice. *)
Fixpoint find_control (oid : bytes) (found : option bytes) (controls : list Control) : option (option bytes) :=
  match controls with
  | [] => Some found
  | ctrl :: controls' =>
    if negb (OID ctrl =b? oid)%ldap then find_control oid found controls'
    else
      match found with
      | Some _ => None
      | None => find_control oid (Some (CtrlValue ctrl)) controls'
      end
  end.

Definition parsePagedControl (controls : list Control) (base : DN) (req : SearchRequest) :
    res Result (option pageRequest) :=
  match find_control OIDSimplePagedResults None controls with
  | None => paged_fail ResultProtocolError (B "duplicate paged results control")
  | Some None => Ok None
  | Some (Some raw) =>
    match DecodePacketErr raw with
    | Some (MkPacket ClassUniversal TypeConstructed _ _ _ [c0; c1]) =>
      match packetInt c0 with
      | Ok size =>
        if (size <? 0) || (maxInt32 <? size) then
          paged_fail ResultProtocolError (B "malformed paged results size")
        else
          match pagedQueryBinding base req with
          | Err _ => paged_fail ResultProtocolError (B "malformed search filter")
          | Ok binding =>
            if (Data c1 =b? [])%ldap then Ok (Some (MkPageRequest size 0 binding))
            else
              match decodePageCookie binding (Data c1) with
              | None => paged_fail ResultUnwillingToPerform (B "invalid paged results cookie")
              | Some n => Ok (Some (MkPageRequest size n binding))
              end
          end
      | Err _ => paged_fail ResultProtocolError (B "malformed paged results size")
      end
    | _ => paged_fail ResultProtocolError (B "malformed paged results control")
    end
  end.

(** [encodePagedCookie]. *)
Definition encodePagedCookie (size : Z) (cookie : bytes) : bytes :=
  let pkt := AppendChild NewSequence (NewInteger ClassUniversal TypePrimitive TagInteger size) in
  let c := WriteData (EncodeNil ClassUniversal TypePrimitive TagOctetString) cookie in
  PacketBytes (AppendChild pkt c).

Record pagedResult (A : Type) : Type := MkPagedResult { pg_out : list A; pg_nextCookie : bytes; pg_size : Z }.
#[global] Arguments MkPagedResult {A}.
#[global] Arguments pg_out {A}.
#[global] Arguments pg_nextCookie {A}.
#[global] Arguments pg_size {A}.

(** [None] is the absent page request. *)
Definition applyPaging {A} (matched : list A) (page : option pageRequest) (sizeLimit : Z) :
    list Control * option (pagedResult A) :=
  match page with
  | None => ([], None)
  | Some page =>
    let n := Z.of_nat (length matched) in
    let size := if (pr_size page <=? 0) || (sizeLimit <? pr_size page) then sizeLimit else pr_size page in
    let start := if n <? pr_offset page then n else pr_offset page in
    let end_ := if n <? start + size then n else start + size in
    let cookie := if end_ <? n then encodePageCookie (pr_binding page) end_ else [] in
    ([MkControl OIDSimplePagedResults false (encodePagedCookie size cookie)],
     Some (MkPagedResult (take (Z.to_nat (end_ - start)) (drop (Z.to_nat start) matched)) cookie size))
  end.

End paging.
