(* ===== verification/PagingFacts.v ===== *)
(** Facts of paged results: cookies decode to the offset they were issued for, a
    cookie accepted under another query is a MAC collision, and following the
    cookies returns exactly the result list. *)

From S2P Require Import Prelude GoStrings Base64 DN DNFacts Message Ber Decode Encode Matching Paging.
Local Open Scope Z_scope.

(** * Decimal numbers *)

Lemma bz_digit (d : Z) : 0 ≤ d < 10 → bz (digit d) = 48 + d.
Proof. intros. unfold digit. apply bz_zb_small. lia. Qed.

Lemma digits_value_digits (fuel : nat) (n : Z) (acc : bytes) :
  0 ≤ n < 10 ^ Z.of_nat fuel → digits_value 0 (digits fuel n acc) = digits_value n acc.
Proof.
  revert n acc. induction fuel as [|fuel IH]; intros n acc Hn; [cbn in Hn; replace n with 0 by lia; done|].
  cbn [digits]. rewrite Nat2Z.inj_succ, Z.pow_succ_r in Hn by lia. destruct (n <? 10) eqn:E; bprop.
  - cbn [digits_value]. rewrite bz_digit by lia. unfold in_range.
    rewrite (proj2 (Z.leb_le _ _)), (proj2 (Z.leb_le _ _)) by lia. cbn [andb]. f_equal. lia.
  - rewrite IH by (Z.div_mod_to_equations; lia). cbn [digits_value]. rewrite bz_digit by (Z.div_mod_to_equations; lia).
    unfold in_range. rewrite (proj2 (Z.leb_le _ _)), (proj2 (Z.leb_le _ _)) by (Z.div_mod_to_equations; lia).
    cbn [andb]. f_equal. Z.div_mod_to_equations; lia.
Qed.

Lemma digits_forall (fuel : nat) (n : Z) (acc : bytes) :
  0 ≤ n → Forall (λ b, in_range 48 57 (bz b) = true) acc →
  Forall (λ b, in_range 48 57 (bz b) = true) (digits fuel n acc).
Proof.
  assert (Hd : ∀ d, 0 ≤ d < 10 → in_range 48 57 (bz (digit d)) = true).
  { intros d Hd. rewrite bz_digit by done. unfold in_range. apply andb_true_iff. rewrite !Z.leb_le. lia. }
  revert n acc. induction fuel as [|fuel IH]; intros n acc Hn Ha; [done|]. cbn [digits].
  destruct (n <? 10) eqn:E; bprop.
  - constructor; [|done]. apply Hd. lia.
  - apply IH; [apply Z.div_pos; lia|]. constructor; [|done]. apply Hd. apply Z.mod_pos_bound. lia.
Qed.

Lemma digits_length (fuel : nat) (n : Z) (acc : bytes) :
  (length (digits fuel n acc) ≤ fuel + length acc)%nat.
Proof.
  revert n acc. induction fuel as [|fuel IH]; intros n acc; [done|]. cbn [digits].
  destruct (n <? 10); cbn; [lia|]. etrans; [apply IH|]. cbn. lia.
Qed.

Lemma digits_nonempty (fuel : nat) (n : Z) (acc : bytes) : digits (S fuel) n acc ≠ [].
Proof.
  revert n acc. induction fuel as [|fuel IH]; intros n acc; cbn [digits]; [by destruct (n <? 10)|].
  destruct (n <? 10); [done|]. apply IH.
Qed.

Lemma itoa_digits (n : Z) : 0 ≤ n → Forall (λ b, in_range 48 57 (bz b) = true) (itoa n).
Proof. intros H. unfold itoa. destruct (n <? 0) eqn:E; bprop; [lia|]. by apply digits_forall. Qed.

Lemma itoa_not_in (b : byte) (n : Z) : 0 ≤ n → in_range 48 57 (bz b) = false → b ∉ itoa n.
Proof.
  intros H Hb Hin. pose proof (itoa_digits n H) as Hf. rewrite Forall_forall in Hf.
  apply Hf in Hin. congruence.
Qed.

Lemma atoi_itoa (n : Z) : 0 ≤ n ≤ maxInt → atoi (itoa n) = Some n.
Proof.
  intros Hn. pose proof (itoa_digits n ltac:(lia)) as Hf.
  assert (Hv : digits_value 0 (itoa n) = Some n).
  { unfold itoa. destruct (n <? 0) eqn:E; bprop; [lia|]. rewrite digits_value_digits; [done|].
    unfold maxInt in Hn. split; [lia|]. change (10 ^ Z.of_nat 20) with 100000000000000000000. lia. }
  unfold atoi. destruct (itoa n) as [|b s] eqn:E.
  { unfold itoa in E. destruct (n <? 0); [done|]. by apply digits_nonempty in E. }
  apply Forall_cons in Hf as [Hb _].
  rewrite !bool_decide_eq_false_2 by (intros ->; by vm_compute in Hb).
  rewrite Hv. cbn [mbind option_bind].
  destruct ((n <? - 2 ^ 63) || (maxInt <? n)) eqn:E2; [|done].
  apply orb_true_iff in E2 as [?%Z.ltb_lt|?%Z.ltb_lt]; lia.
Qed.

Lemma itoa_inj (a b : Z) : 0 ≤ a ≤ maxInt → 0 ≤ b ≤ maxInt → itoa a = itoa b → a = b.
Proof. intros Ha Hb H. apply atoi_itoa in Ha, Hb. congruence. Qed.

(** * Cookies *)

Lemma cut_byte_app (sep : byte) (a b : bytes) : sep ∉ a → cut_byte sep (a ++ sep :: b) = (a, b, true).
Proof.
  induction a as [|x a IH]; intros H; cbn.
  - by rewrite bool_decide_eq_true_2.
  - apply not_elem_of_cons in H as [Hx H]. rewrite bool_decide_eq_false_2 by congruence. by rewrite IH.
Qed.

Lemma cut_byte_true (sep : byte) (s a b : bytes) : cut_byte sep s = (a, b, true) → s = a ++ sep :: b.
Proof.
  revert a b. induction s as [|x s IH]; intros a b; cbn; [done|].
  case_bool_decide as E; [by intros [= <- <-]; subst|].
  destruct (cut_byte sep s) as [[a' b'] ok]. intros [= <- <- ->]. cbn. f_equal. by apply IH.
Qed.

Lemma cut_byte_sep (sep : byte) (s a b : bytes) (ok : bool) : cut_byte sep s = (a, b, ok) → sep ∉ a.
Proof.
  revert a b. induction s as [|x s IH]; intros a b; cbn; [intros [= <- <- <-]; apply not_elem_of_nil|].
  case_bool_decide as E; [intros [= <- <- <-]; apply not_elem_of_nil|].
  destruct (cut_byte sep s) as [[a' b'] ok']. intros [= <- <- ->]. apply not_elem_of_cons. split; [congruence|].
  by eapply IH.
Qed.

(** Equal lists split at the last separator in one way. *)
Lemma last_sep_inj (sep : byte) (a a' d d' : bytes) :
  sep ∉ d → sep ∉ d' → a ++ sep :: d = a' ++ sep :: d' → a = a' ∧ d = d'.
Proof.
  intros Hd Hd' H. revert a' H. induction a as [|x a IH]; intros [|x' a'] H; cbn in H.
  - by injection H.
  - injection H as -> ->. exfalso. apply Hd. set_solver.
  - injection H as -> <-. exfalso. apply Hd'. set_solver.
  - injection H as -> H. by apply IH in H as [-> ->].
Qed.

Lemma first_sep_inj (sep : byte) (a a' d d' : bytes) :
  sep ∉ a → sep ∉ a' → a ++ sep :: d = a' ++ sep :: d' → a = a' ∧ d = d'.
Proof.
  intros Ha Ha' H. apply (f_equal (cut_byte sep)) in H. rewrite !cut_byte_app in H by done. by injection H.
Qed.

Lemma mac_message_inj (b b' : bytes) (n n' : Z) :
  0 ≤ n ≤ maxInt → 0 ≤ n' ≤ maxInt → mac_message b n = mac_message b' n' → b = b' ∧ n = n'.
Proof.
  intros Hn Hn' H. unfold mac_message in H. apply app_inv_head in H. cbn in H. injection H as H.
  apply last_sep_inj in H as [-> H]; [split; [done | by apply itoa_inj] | apply itoa_not_in | apply itoa_not_in]; done || lia.
Qed.

Lemma cut_prefix_some (s p r : bytes) : cut_prefix s p = Some r ↔ s = p ++ r.
Proof.
  unfold cut_prefix. split.
  - destruct (has_prefix s p) eqn:E; [|done]. apply has_prefix_iff in E as [q ->]. rewrite drop_app_length. congruence.
  - intros ->. rewrite (proj2 (has_prefix_iff _ _)) by by exists r. by rewrite drop_app_length.
Qed.

Section cookies.
Variable hmac_sum : bytes → bytes.

Lemma decodePageCookie_ok (binding cookie : bytes) (off : Z) :
  decodePageCookie hmac_sum binding cookie = Some off →
  cookie = [] ∧ off = 0 ∨
  ∃ o t, cookie = pageCookiePrefix ++ o ++ (c_dot :: t) ∧ (c_dot ∉ o) ∧ atoi o = Some off ∧ 0 ≤ off ∧
    b64_decode t = Some (hmac_sum (mac_message binding off)).
Proof.
  unfold decodePageCookie. destruct (beq cookie []) eqn:E; [bprop; intros [= <-]; by left|].
  destruct (_ <? _); [done|]. destruct (cut_prefix cookie _) as [rest|] eqn:Ep; [|done]. cbn [mbind option_bind].
  destruct (cut_byte c_dot rest) as [[o t] [|]] eqn:Ec; [|done]. cbn [negb].
  destruct (atoi o) as [n|] eqn:Ea; [|done]. cbn [mbind option_bind]. destruct (n <? 0) eqn:En; [done|].
  destruct (b64_decode t) as [got|] eqn:Eb; [|done]. cbn [mbind option_bind].
  destruct (beq got _) eqn:Eg; [|done]. intros [= <-]. right. bprop. subst got.
  exists o, t. apply cut_prefix_some in Ep as ->. split_and!; try done.
  - by apply cut_byte_true in Ec as ->.
  - by eapply cut_byte_sep.
Qed.

Hypothesis hmac_len : ∀ m, length (hmac_sum m) = 32%nat.

Lemma decode_encodePageCookie_aux (binding : bytes) (off : Z) :
  0 ≤ off ≤ maxInt → decodePageCookie hmac_sum binding (encodePageCookie hmac_sum binding off) = Some off.
Proof.
  intros Hoff. unfold decodePageCookie, encodePageCookie.
  set (t := b64_encode _). assert (Ht : (length t ≤ 44)%nat).
  { subst t. pose proof (b64_encode_length (pageCookieMAC hmac_sum binding off)) as H.
    unfold pageCookieMAC in *. rewrite hmac_len in H. lia. }
  assert (Hi : (length (itoa off) ≤ 20)%nat).
  { unfold itoa. destruct (off <? 0) eqn:E; bprop; [lia|]. etrans; [apply digits_length|]. done. }
  rewrite (proj2 (beq_false _ _)) by done.
  rewrite (proj2 (Z.ltb_ge _ _)).
  - rewrite (proj2 (cut_prefix_some _ _ _) eq_refl). cbn [mbind option_bind].
    change (B "." ++ t) with (c_dot :: t). rewrite cut_byte_app by (by apply itoa_not_in; [lia|]).
    cbn [negb]. rewrite atoi_itoa by done. cbn [mbind option_bind]. rewrite (proj2 (Z.ltb_ge _ _)) by lia.
    subst t. rewrite b64_roundtrip. cbn [mbind option_bind]. by rewrite beq_refl.
  - unfold blen, maxCookieBytes. rewrite !length_app. change (length (B ".")) with 1%nat.
    change (length pageCookiePrefix) with 3%nat. lia.
Qed.

(** A cookie issued under one query and accepted under another: the two MACs agree. *)
Lemma cookie_issued_accepted (b b' : bytes) (n n' : Z) :
  0 ≤ n ≤ maxInt → decodePageCookie hmac_sum b' (encodePageCookie hmac_sum b n) = Some n' →
  n' = n ∧ hmac_sum (mac_message b' n) = hmac_sum (mac_message b n).
Proof.
  intros Hn [[H _]|(o & t & H & Ho & Ha & _ & Hb)]%decodePageCookie_ok; [done|].
  unfold encodePageCookie in H. apply app_inv_head in H. cbn [app] in H.
  apply (first_sep_inj c_dot) in H as [<- <-]; [|apply itoa_not_in; [lia | done] | done].
  rewrite atoi_itoa in Ha by done. injection Ha as <-. split; [done|].
  rewrite b64_roundtrip in Hb. injection Hb as Hb. done.
Qed.
End cookies.

(** * Pages *)

(** A client that keeps asking, the [k]-th time for [ask k] entries, until the
    cookie comes back empty. *)
Fixpoint follow {L : BerLib} {A} (hmac_sum : bytes → bytes) (matched : list A) (ask : nat → Z) (sizeLimit : Z)
    (binding : bytes) (fuel k : nat) (off : Z) : option (list A) :=
  match fuel with
  | O => None
  | S fuel' =>
    r ← (applyPaging hmac_sum matched (Some (MkPageRequest (ask k) off binding)) sizeLimit).2;
    if beq (pg_nextCookie r) [] then Some (pg_out r)
    else
      off' ← decodePageCookie hmac_sum binding (pg_nextCookie r);
      app (pg_out r) <$> follow hmac_sum matched ask sizeLimit binding fuel' (S k) off'
  end.

Section pages.
Context {L : BerLib} {A : Type}.
Variable hmac_sum : bytes → bytes.
Hypothesis hmac_len : ∀ m, length (hmac_sum m) = 32%nat.

Lemma follow_spec (matched : list A) (ask : nat → Z) (sizeLimit : Z) (binding : bytes) (fuel k off : nat) :
  0 < sizeLimit → Z.of_nat (length matched) ≤ maxInt → (off ≤ length matched)%nat →
  (length matched - off < fuel)%nat →
  follow hmac_sum matched ask sizeLimit binding fuel k (Z.of_nat off) = Some (drop off matched).
Proof.
  intros Hs Hm. revert k off. induction fuel as [|fuel IH]; intros k off Hoff Hf; [lia|].
  cbn [follow applyPaging snd mbind option_bind pr_size pr_offset pr_binding pg_out pg_nextCookie].
  set (size := if (ask k <=? 0) || (sizeLimit <? ask k) then sizeLimit else ask k). assert (0 < size).
  { subst size. destruct ((ask k <=? 0) || (sizeLimit <? ask k)) eqn:E; [done|]. bprop. lia. }
  rewrite (proj2 (Z.ltb_ge (Z.of_nat (length matched)) (Z.of_nat off))) by lia.
  destruct (Z.ltb_spec (Z.of_nat (length matched)) (Z.of_nat off + size)) as [Hlt|Hge].
  - rewrite Z.ltb_irrefl, beq_refl, Nat2Z.id. f_equal. apply take_ge. rewrite length_drop. lia.
  - rewrite Nat2Z.id. destruct (Z.ltb_spec (Z.of_nat off + size) (Z.of_nat (length matched))) as [Hn|Hn].
    + rewrite (proj2 (beq_false _ _)) by done.
      rewrite decode_encodePageCookie_aux by (done || lia). cbn [mbind option_bind].
      replace (Z.of_nat off + size) with (Z.of_nat (off + Z.to_nat size)) by lia.
      rewrite IH by lia. cbn [fmap option_fmap option_map]. f_equal.
      replace (Z.to_nat (Z.of_nat (off + Z.to_nat size) - Z.of_nat off)) with (Z.to_nat size) by lia.
      by rewrite <- drop_drop, take_drop.
    + rewrite beq_refl. f_equal. apply take_ge. rewrite length_drop. lia.
Qed.
End pages.

(** * Properties *)

(** C25.  Paging loses and repeats nothing: a client that follows the cookies, asking
    for any page sizes, gets exactly the result list, in order, in at most one
    request more than there are results. *)
Theorem follow_cookies {L : BerLib} {A} (hmac_sum : bytes → bytes) (matched : list A) (ask : nat → Z)
    (sizeLimit : Z) (binding : bytes) :
  (∀ m, length (hmac_sum m) = 32%nat) → 0 < sizeLimit → Z.of_nat (length matched) ≤ maxInt →
  follow hmac_sum matched ask sizeLimit binding (S (length matched)) 0 0 = Some matched.
Proof. intros Hh Hs Hm. apply (follow_spec hmac_sum Hh matched ask sizeLimit binding (S (length matched)) 0 0); lia || done. Qed.

(** A MAC for the witnesses: the length and a checksum of its input. *)
Definition toy_hmac (m : bytes) : bytes := zb (be_acc 0 m) :: replicate 31 (zb (blen m)).

Lemma follow_cookies_witness :
  follow toy_hmac [1; 2; 3; 4; 5] (λ k, Z.of_nat (S k)) 500 (B "q") 6 0 0 = Some [1; 2; 3; 4; 5].
Proof. apply (follow_cookies toy_hmac [1; 2; 3; 4; 5] (λ k, Z.of_nat (S k)) 500 (B "q")); [done | lia | cbn; unfold maxInt; lia]. Defined.

(** A cookie decodes, under the query it was issued for, to the offset it was
    issued for. *)
Theorem decode_encodePageCookie (hmac_sum : bytes → bytes) (binding : bytes) (off : Z) :
  (∀ m, length (hmac_sum m) = 32%nat) → 0 ≤ off ≤ maxInt →
  decodePageCookie hmac_sum binding (encodePageCookie hmac_sum binding off) = Some off.
Proof. intros. by apply decode_encodePageCookie_aux. Qed.

Lemma decode_encodePageCookie_witness :
  decodePageCookie toy_hmac (B "q") (encodePageCookie toy_hmac (B "q") 1234567890123) = Some 1234567890123.
Proof. apply decode_encodePageCookie; [done | unfold maxInt; lia]. Defined.

(** Cookie integrity, reduced to the MAC: an accepted non-empty cookie carries
    the tag of exactly the offset it yields under this query, and a cookie issued
    for another query is accepted only if two distinct messages share a tag. *)
Theorem page_cookie_integrity (hmac_sum : bytes → bytes) (binding cookie : bytes) (off : Z) :
  decodePageCookie hmac_sum binding cookie = Some off → cookie ≠ [] →
  (∃ o t, cookie = pageCookiePrefix ++ o ++ (c_dot :: t) ∧ atoi o = Some off ∧ 0 ≤ off ∧
     b64_decode t = Some (hmac_sum (mac_message binding off))) ∧
  ∀ b n, 0 ≤ n ≤ maxInt → cookie = encodePageCookie hmac_sum b n → b ≠ binding →
    ∃ m m', m ≠ m' ∧ hmac_sum m = hmac_sum m'.
Proof.
  intros H Hne. split.
  - destruct (decodePageCookie_ok _ _ _ _ H) as [[? _]|(o & t & ? & _ & ? & ? & ?)]; [done|]. by exists o, t.
  - intros b n Hn -> Hb. apply cookie_issued_accepted in H as [-> H]; [|done].
    exists (mac_message binding n), (mac_message b n). split; [|done].
    intros [? _]%mac_message_inj; [congruence | done | done].
Qed.

Lemma page_cookie_integrity_witness :
  (∃ o t, encodePageCookie toy_hmac (B "q") 7 = pageCookiePrefix ++ o ++ (c_dot :: t) ∧ atoi o = Some 7 ∧ 0 ≤ 7 ∧
     b64_decode t = Some (toy_hmac (mac_message (B "q") 7))) ∧
  ∀ b n, 0 ≤ n ≤ maxInt → encodePageCookie toy_hmac (B "q") 7 = encodePageCookie toy_hmac b n → b ≠ B "q" →
    ∃ m m', m ≠ m' ∧ toy_hmac m = toy_hmac m'.
Proof. apply page_cookie_integrity; [vm_compute; reflexivity | discriminate]. Defined.

(** What a cookie is bound to: two searches have one binding exactly when their
    base names share a folded key, their scopes are equal and their filters have
    one encoding. *)
Theorem pagedQueryBinding_inj {U : Unicode} {UL : UnicodeLaws U} {L : BerLib} (base base' : DN)
    (req req' : SearchRequest) (b b' : bytes) (fp fp' : Packet) :
  wf_dn base → wf_dn base' →
  ScopeBaseObject ≤ SScope req ≤ ScopeChildren → ScopeBaseObject ≤ SScope req' ≤ ScopeChildren →
  encodeFilter (SFilter req) 0 = Ok fp → encodeFilter (SFilter req') 0 = Ok fp' →
  pagedQueryBinding base req = Ok b → pagedQueryBinding base' req' = Ok b' →
  b = b' ↔ FoldedKey base = FoldedKey base' ∧ SScope req = SScope req' ∧ PacketBytes fp = PacketBytes fp'.
Proof.
  intros Hw Hw' Hs Hs' Hf Hf' Hb Hb'. unfold pagedQueryBinding in *. rewrite Hf in Hb. rewrite Hf' in Hb'.
  injection Hb as <-. injection Hb' as <-. split.
  - intros H. assert (Hk : ∀ d, wf_dn d → x00 ∉ FoldedKey d).
    { intros d Hd. rewrite FoldedKey_String. apply String_no_nul. by apply fold_dn_wf. }
    apply (first_sep_inj x00) in H as [-> H]; [|by apply Hk..]. cbn [app] in H. injection H as Hz Hp.
    split_and!; [done | | done]. apply (f_equal bz) in Hz. unfold ScopeBaseObject, ScopeChildren in *.
    by rewrite !bz_zb_small in Hz by lia.
  - intros (-> & -> & ->). done.
Qed.

Lemma pagedQueryBinding_inj_witness :
  B "dc=test" ++ [x00] ++ [zb 2] ++ [x00] ++ B "uid" = B "dc=test" ++ [x00] ++ [zb 1] ++ [x00] ++ B "uid" ↔
  B "dc=test" = B "dc=test" ∧ 2 = 1 ∧ B "uid" = B "uid".
Proof.
  pose (d := MkDN [Rdn (B "dc") (B "test")]).
  assert (Hd : @wf_dn ascii_unicode d).
  { split; [done|]. repeat constructor; try (by vm_compute). cbn. intros H%list_elem_of_In. vm_compute in H. intuition discriminate. }
  pose (rq := λ s, MkSearchRequest (B "dc=test") s 0 0 0 false (FilterPresent (B "uid")) []).
  pose (p := MkPacket ClassContext TypePrimitive 7 (VString (B "uid")) (B "uid") []).
  exact (@pagedQueryBinding_inj ascii_unicode ascii_unicode_laws toy_ber d d (rq 2) (rq 1) _ _ p p Hd Hd
    ltac:(unfold ScopeBaseObject, ScopeChildren; cbn; lia) ltac:(unfold ScopeBaseObject, ScopeChildren; cbn; lia)
    eq_refl eq_refl eq_refl eq_refl).
Defined.
