(* ===== verification/Synthetic.v ===== *)
(** The two entries that live outside the store, the Root DSE
    ([op_search.go]) and the subschema subentry with the RFC 4512 descriptions of
    [schema_registry.go]. *)

From S2P Require Import Prelude GoStrings DN Message Attr Schema FilterEval.

(** [StringAttribute]. *)
Definition StringAttribute (name : bytes) (values : list bytes) : Attribute := MkAttribute name values.

Definition SubschemaDN : bytes := B "cn=subschema".

Definition VendorName : bytes := B "LabLDAP".

(** [ObjectClassKind.String]. *)
Definition kind_string (k : ObjectClassKind) : bytes :=
  match k with
  | ObjectClassAbstract => B "ABSTRACT"
  | ObjectClassStructural => B "STRUCTURAL"
  | ObjectClassAuxiliary => B "AUXILIARY"
  end.

Section synthetic.
Context {U : Unicode}.

(** * The subschema subentry *)

Definition subschemaDNs : list DN := omap (λ s, res_opt (ParseDN s)) [SubschemaDN; B "cn=schema"].

Definition isSubschemaDN (dn : DN) : bool := existsb (λ d, EqualFold dn d) subschemaDNs.

Definition matchingRuleOIDs : list (bytes * bytes) :=
  [(B "objectidentifiermatch", B "2.5.13.0");
   (B "distinguishednamematch", B "2.5.13.1");
   (B "caseignorematch", B "2.5.13.2");
   (B "caseignorelistmatch", B "2.5.13.4");
   (B "caseexactmatch", B "2.5.13.5");
   (B "booleanmatch", B "2.5.13.13");
   (B "integermatch", B "2.5.13.14");
   (B "octetstringmatch", B "2.5.13.17");
   (B "telephonenumbermatch", B "2.5.13.20");
   (B "uniquemembermatch", B "2.5.13.23");
   (B "generalizedtimematch", B "2.5.13.27");
   (B "caseignoreia5match", B "1.3.6.1.4.1.1466.109.114.2")].

Definition formatObjectClass (oc : ObjectClassDef) : bytes :=
  B "( " ++ oc_OID oc ++ B " NAME '" ++ oc_Name oc ++ B "'" ++
  match oc_Sup oc with
  | [] => []
  | [sup] => B " SUP " ++ sup
  | sups => B " SUP ( " ++ join (B " $ ") sups ++ B " )"
  end ++
  B " " ++ kind_string (oc_Kind oc) ++
  match oc_Must oc with [] => [] | must => B " MUST ( " ++ join (B " $ ") must ++ B " )" end ++
  match oc_May oc with [] => [] | may => B " MAY ( " ++ join (B " $ ") may ++ B " )" end ++
  B " )".

Definition formatObjectClasses (ocs : list ObjectClassDef) : list bytes := formatObjectClass <$> ocs.

Definition formatAttributeType (a : AttributeTypeDef) : bytes :=
  B "( " ++ at_OID a ++ B " NAME '" ++ at_Name a ++ B "'" ++
  (if (at_Equality a =b? [])%ldap then [] else B " EQUALITY " ++ at_Equality a) ++
  (if (at_Syntax a =b? [])%ldap then [] else B " SYNTAX " ++ at_Syntax a) ++
  (if at_SingleValue a then B " SINGLE-VALUE" else []) ++
  (if at_Operational a then B " NO-USER-MODIFICATION USAGE directoryOperation" else []) ++
  B " )".

Definition formatAttributeTypes (ats : list AttributeTypeDef) : list bytes := formatAttributeType <$> ats.

Fixpoint matching_rules (seen : gset bytes) (ats : list AttributeTypeDef) : list bytes :=
  match ats with
  | [] => []
  | a :: ats' =>
    if (at_Equality a =b? [])%ldap then matching_rules seen ats'
    else
      let key := to_lower (at_Equality a) in
      if bool_decide (key ∈ seen) then matching_rules seen ats'
      else
        let seen := {[key]} ∪ seen in
        match assoc matchingRuleOIDs key with
        | None => matching_rules seen ats'
        | Some oid => (B "( " ++ oid ++ B " NAME '" ++ at_Equality a ++ B "' )") :: matching_rules seen ats'
        end
  end.

Definition formatMatchingRules (s : Schema) : list bytes := sort_by id (matching_rules ∅ (AttributeTypes s)).

Definition subschemaEntry (s : Schema) (requestedDN : bytes) : Entry :=
  let cn :=
    match ParseDN requestedDN with
    | Ok d =>
      match Leaf d with
      | Some (attr, val) => if equal_fold attr (B "cn") then val else B "subschema"
      | None => B "subschema"
      end
    | Err _ => B "subschema"
    end in
  let published name vals := match vals with [] => [] | _ => [MkAttribute name vals] end in
  MkEntry requestedDN
    ([StringAttribute (B "objectClass") [B "top"; B "subschema"]; StringAttribute (B "cn") [cn]] ++
     published (B "attributeTypes") (formatAttributeTypes (AttributeTypes s)) ++
     published (B "objectClasses") (formatObjectClasses (ObjectClasses s)) ++
     published (B "matchingRules") (formatMatchingRules s)).

(** * The Root DSE *)

Definition namingContextValues (dns : list DN) : list bytes := String <$> dns.

(** [version] is the build's version string. *)
Definition rootDSE (suffixes : list DN) (version : bytes) : Entry :=
  MkEntry []
    [StringAttribute (B "objectClass") [B "top"];
     StringAttribute (B "namingContexts") (namingContextValues suffixes);
     StringAttribute (B "subschemaSubentry") [SubschemaDN];
     StringAttribute (B "supportedLDAPVersion") [B "3"];
     StringAttribute (B "supportedControl") [OIDSimplePagedResults; OIDAssertion];
     StringAttribute (B "supportedExtension") [OIDStartTLS; OIDWhoAmI];
     StringAttribute (B "vendorName") [VendorName];
     StringAttribute (B "vendorVersion") [version]].

End synthetic.
