(* ===== verification/Search.v ===== *)
(** Searches: [handleSearch]'s [runSearch] and its helpers of
    [src/internal/ldapserver/op_search.go], [searchRootDSE], [searchSubschema] and
    [answerSynthetic].

    A store walk is the entries it visits in order and the error it ends with; a
    callback error stops it.  The result of a search is the responses it sends and
    the result code it returns; the connection's writer, the clock and the
    cancellation of the operation's context are the [OpEnv]. *)

From S2P Require Import Prelude GoStrings DN Message Ber Attr Schema Matching FilterEval StoreIface Aci Server Paging Synthetic.
Local Open Scope Z_scope.

(** * Store walks *)

Definition walk : Type := list Entry * option store_err.

(** A read transaction with its optional [SearchWalker] and [SearchEqualWalker]
    sides; [WalkEqual] answers [None] for [indexed=false]. *)
Record SearchTx : Type := MkSearchTx {
  stx_read : ReadTx;
  stx_WalkSearch : option (DN → Z → walk);
  stx_WalkEqual : option (bytes → bytes → option walk);
}.

(** What ends a traversal early: [errSearchLimit], the context's error or a store
    error. *)
Inductive search_stop : Type := StopLimit | StopCtx | StopStore (e : store_err).

Record search_state : Type := MkSearchState {
  matched : list Entry;
  code : Z;
  polls : nat;
}.

Section search.
Context {U : Unicode}.

(** * Visibility and projection *)

Definition searchScopeContains (base dn : DN) (scope : Z) : bool :=
  if scope =? ScopeBaseObject then EqualFold dn base
  else if scope =? ScopeWholeSubtree then aciTargetScopeA dn base
  else if (scope =? ScopeSingleLevel) || (scope =? ScopeChildren) then
    match parentDN dn with
    | Some parent => EqualFold parent base
    | None => false
    end
  else false.

Definition visibilityOperational : list (bytes * bool) :=
  [(B "memberof", false);
   (B "nsaccountlock", true);
   (B "aci", true);
   (B "passwordhistory", true);
   (B "pwdchangedtime", true)].

Definition countsForVisibility (s : Schema) (name : bytes) : bool :=
  let base := (cut_byte semicolon name).1.1 in
  let at_ := AttributeType s base in
  let base := match at_ with Some a => at_Name a | None => base end in
  match assoc visibilityOperational (to_lower base) with
  | Some op => negb op
  | None => match at_ with Some a => negb (at_Operational a) | None => true end
  end.

Section run.
Variable sv : Server.

Definition entryReadable (tx : ReadTx) (subj : Subject) (dn : DN) (e : Entry) : bool :=
  existsb (λ a, countsForVisibility (sv_Schema sv) (Name a) &&
                allowed (sv_Schema sv) (sv_ACI sv) tx subj dn (Name a) PermRead) (Attributes e).

Definition may_search (tx : ReadTx) (subj : Subject) (dn : DN) (name : bytes) (opts : list bytes) : bool :=
  allowedIdentity (sv_ACI sv) tx subj dn name opts PermSearch.

Definition searchResultVisible (tx : ReadTx) (subj : Subject) (dn : DN) (e : Entry) (f : Filter) : bool :=
  match matchSearchFilter (may_search tx subj dn) (sv_Schema sv) e f with
  | filterTrue => entryReadable tx subj dn e
  | _ => false
  end.

Definition projectEntry (tx : ReadTx) (subj : Subject) (dn : DN) (e : Entry) (sel : attrSelection)
    (typesOnly : bool) : Entry :=
  MkEntry (EDN e)
    (omap (λ a,
      if negb (wants sel (sv_Schema sv) (Name a)) then None
      else if negb (allowed (sv_Schema sv) (sv_ACI sv) tx subj dn (Name a) PermRead) then None
      else Some (MkAttribute (Name a) (if typesOnly then [] else AttrValues a))) (Attributes e)).

(** * Limits *)

Definition effective_size (req : SearchRequest) : Z :=
  let sizeLimit := SearchSizeLimit (sv_Limits sv) in
  if (0 <? SizeLimit req) && (SizeLimit req <? sizeLimit) then SizeLimit req else sizeLimit.

Definition effective_time (req : SearchRequest) : Z :=
  let timeLimit := SearchTimeLimit (sv_Limits sv) in
  if (0 <? TimeLimit req) && (TimeLimit req * second <? timeLimit) then TimeLimit req * second else timeLimit.

(** * The traversal *)

Section traversal.
Variable env : OpEnv.
Variable tx : SearchTx.
Variable subj : Subject.
Variable req : SearchRequest.

(** The checks of the context and the clock, in order. *)
Definition poll (st : search_state) (k : search_state → search_state * option search_stop) :
    search_state * option search_stop :=
  let n := polls st in
  let st' := MkSearchState (matched st) (code st) (S n) in
  if cancelled env n then (st', Some StopCtx)
  else if late env (effective_time req) n then
    (MkSearchState (matched st) ResultTimeLimitExceeded (S n), Some StopLimit)
  else k st'.

Definition visit (e : Entry) (st : search_state) : search_state * option search_stop :=
  poll st (λ st,
    match ParseDN (EDN e) with
    | Err _ => (st, None)
    | Ok entryDN =>
      if negb (searchResultVisible (stx_read tx) subj entryDN e (SFilter req)) then (st, None)
      else if effective_size req <=? Z.of_nat (length (matched st)) then
        (MkSearchState (matched st) ResultSizeLimitExceeded (polls st), Some StopLimit)
      else
        let p := projectEntry (stx_read tx) subj entryDN e (parseAttrSelection (SAttributes req)) (TypesOnly req) in
        (MkSearchState (matched st ++ [p]) (code st) (polls st), None)
    end).

(** The callback of the indexed walk: the posting's entry must be in scope. *)
Definition visit_indexed (base : DN) (e : Entry) (st : search_state) : search_state * option search_stop :=
  poll st (λ st,
    match ParseDN (EDN e) with
    | Err _ => (st, None)
    | Ok dn => if negb (searchScopeContains base dn (SScope req)) then (st, None) else visit e st
    end).

Fixpoint walk_entries (cb : Entry → search_state → search_state * option search_stop) (l : list Entry)
    (st : search_state) : search_state * option search_stop :=
  match l with
  | [] => (st, None)
  | e :: l' =>
    match cb e st with
    | (st, Some stop) => (st, Some stop)
    | (st, None) => walk_entries cb l' st
    end
  end.

Definition run_walk (cb : Entry → search_state → search_state * option search_stop) (w : walk)
    (st : search_state) : search_state * option search_stop :=
  match walk_entries cb w.1 st with
  | (st, None) => (st, StopStore <$> w.2)
  | r => r
  end.

(** The traversal by scope: the store's walker, or the three reads. *)
Definition scope_candidates (base : DN) : walk :=
  match stx_WalkSearch tx with
  | Some walker => walker base (SScope req)
  | None =>
    let of_res (r : res store_err (list Entry)) : walk :=
      match r with Ok l => (l, None) | Err e => ([], Some e) end in
    if SScope req =? ScopeBaseObject then
      of_res ((λ e, [e]) <$> tx_Entry (stx_read tx) base)
    else if (SScope req =? ScopeSingleLevel) || (SScope req =? ScopeChildren) then
      of_res (tx_Children (stx_read tx) base)
    else if SScope req =? ScopeWholeSubtree then of_res (tx_Subtree (stx_read tx) base)
    else ([], None)
  end.

(** The function passed to [View]. *)
Definition search_view (base : DN) : search_state * option search_stop :=
  let st := MkSearchState [] ResultSuccess 0 in
  let by_scope := run_walk visit (scope_candidates base) st in
  if negb (SScope req =? ScopeBaseObject) then
    match indexedSearchPredicate (SFilter req), stx_WalkEqual tx with
    | Some (a, v), Some walker =>
      match tx_Entry (stx_read tx) base with
      | Err e => (st, Some (StopStore e))
      | Ok _ =>
        match walker a v with
        | Some w => run_walk (visit_indexed base) w st
        | None => by_scope
        end
      end
    | _, _ => by_scope
    end
  else by_scope.

End traversal.

(** * The whole search *)

Section whole.
Context {L : BerLib}.
Variable env : OpEnv.
Variable tx : SearchTx.
Variable subj : Subject.
Variable req : SearchRequest.

Definition send_done (n : nat) (res : Result) (controls : list Control) : list response :=
  if cancelled env n then [] else [(SearchResultDone res, controls)].

Definition search_fail (n : nat) (c : Z) (diag : bytes) : list response * Z :=
  (send_done n (MkResult c [] diag) [], c).

(** The sending loop; [i] counts the responses. *)
Fixpoint send_entries (n i : nat) (c : Z) (controls : list Control) (entries : list Entry) : list response * Z :=
  match entries with
  | [] => (send_done n (MkResult c [] []) controls, c)
  | e :: entries' =>
    if cancelled env n then ([], c)
    else if negb (sends env i) then ([], ResultOperationsError)
    else
      let '(out, c') := send_entries (S n) (S i) c controls entries' in
      ((SearchResultEntry (EDN e) (Attributes e), []) :: out, c')
  end.

(** [answerSynthetic]; [diag] empty unless the search fails. *)
Definition answerSynthetic (e : option Entry) (diag : bytes) : list response * Z :=
  if negb (diag =b? [])%ldap then search_fail 0 ResultNoSuchObject diag
  else
    match e with
    | None => search_fail 0 ResultSuccess []
    | Some e =>
      if negb (matchFilter e (SFilter req) (sv_Schema sv)) then search_fail 0 ResultSuccess []
      else if cancelled env 0 then ([], ResultOperationsError)
      else if negb (sends env 0) then ([], ResultOperationsError)
      else
        let out := selectDSEAttrs e (parseAttrSelection (SAttributes req)) in
        ((SearchResultEntry (EDN out) (Attributes out), []) :: send_done 1 (MkResult ResultSuccess [] []) [],
         ResultSuccess)
    end.

Definition searchRootDSE : list response * Z :=
  if negb (SScope req =? ScopeBaseObject) then answerSynthetic None (B "root DSE requires a base-object search")
  else answerSynthetic (Some (rootDSE (suffixes sv) (sv_version sv))) [].

Definition searchSubschema : list response * Z :=
  if (SScope req =? ScopeSingleLevel) || (SScope req =? ScopeChildren) then answerSynthetic None []
  else answerSynthetic (Some (subschemaEntry (sv_Schema sv) (BaseDN req))) [].

Definition runSearch (controls : list Control) : list response * Z :=
  if (BaseDN req =b? [])%ldap then searchRootDSE
  else
    match ParseDN (BaseDN req) with
    | Err _ => search_fail 0 ResultInvalidDNSyntax (B "invalid base DN")
    | Ok base =>
      if isSubschemaDN base then searchSubschema
      else
        match parsePagedControl (sv_hmac sv) controls base req with
        | Err res => (send_done 0 res [], Code res)
        | Ok page =>
          let '(st, stop) := search_view env tx subj req base in
          let finish :=
            let '(pageControls, paged) := applyPaging (sv_hmac sv) (matched st) page (effective_size req) in
            let entries := match paged with Some p => pg_out p | None => matched st end in
            send_entries (polls st) 0 (code st) pageControls entries in
          match stop with
          | None | Some StopLimit => finish
          | Some (StopStore ErrNoSuchObject) => search_fail (polls st) ResultNoSuchObject (B "no such object")
          | Some _ =>
            if cancelled env (polls st) then ([], ResultOperationsError)
            else search_fail (S (polls st)) ResultOperationsError (B "internal error")
          end
        end
    end.

End whole.
End run.
End search.
