(* ===== verification/SearchFacts.v ===== *)
(** Facts of searches: what any search can send, that interruption only truncates,
    that the indexed traversal finds what the traversal by scope finds, and that
    what a subject may neither read nor search leaves no trace in the results. *)

From S2P Require Import Prelude GoStrings DN DNFacts Message Ber Attr Schema Matching FilterEval StoreIface Aci Server Paging PagingFacts Synthetic Search.
Local Open Scope Z_scope.

(** An operation nothing interrupts. *)
Record calm (env : OpEnv) : Prop := {
  calm_cancelled : ∀ n, cancelled env n = false;
  calm_late : ∀ t n, late env t n = false;
  calm_sends : ∀ n, sends env n = true;
}.

Definition entry_in_scope {U : Unicode} (base : DN) (scope : Z) (e : Entry) : bool :=
  match ParseDN (EDN e) with
  | Err _ => false
  | Ok dn => searchScopeContains base dn scope
  end.

(** What the store promises to a search at a base: the snapshot is a list of distinct
    entries; the traversal by scope offers exactly those in scope; the indexed walk offers
    entries of the snapshot, once each, and misses none that has an equal value. *)
Class SearchTxLaws {U : Unicode} (s : Schema) (tx : SearchTx) (base : DN) (snapshot : list Entry) : Prop := {
  stx_nodup : NoDup snapshot;
  stx_scope : ∀ req b, tx_Entry (stx_read tx) base = Ok b → ScopeBaseObject ≤ SScope req ≤ ScopeChildren →
    ∃ l, scope_candidates tx req base = (l, None) ∧ l ≡ₚ filter (λ e, entry_in_scope base (SScope req) e = true) snapshot;
  stx_equal : ∀ walker a v w, stx_WalkEqual tx = Some walker → walker a v = Some w →
    ∃ l, w = (l, None) ∧ NoDup l ∧ l ⊆ snapshot ∧
      ∀ e, e ∈ snapshot →
        (∃ x, x ∈ filterValues e (parseAttrDesc (Some s) a) (Some s) ∧
           Equal_ (Some s) (d_typ (parseAttrDesc (Some s) a)) x v = true) → e ∈ l;
}.

Section facts.
Context {U : Unicode}.
Variable sv : Server.
Variable tx : SearchTx.
Variable subj : Subject.
Variable req : SearchRequest.

(** What one candidate contributes. *)
Definition result_of (e : Entry) : option Entry :=
  match ParseDN (EDN e) with
  | Err _ => None
  | Ok dn =>
    if searchResultVisible sv (stx_read tx) subj dn e (SFilter req)
    then Some (projectEntry sv (stx_read tx) subj dn e (parseAttrSelection (SAttributes req)) (TypesOnly req))
    else None
  end.

Definition in_scope (base : DN) (e : Entry) : bool := entry_in_scope base (SScope req) e.

Definition limit : nat := Z.to_nat (effective_size sv req).

Lemma limit_spec (n : nat) : (effective_size sv req <=? Z.of_nat n) = (limit <=? n)%nat.
Proof. unfold limit. apply eq_true_iff_eq. rewrite Z.leb_le, Nat.leb_le. lia. Qed.

(** * One step *)

(** A callback contributes [f e] on every candidate [e], whatever interrupts it. *)
Definition contributes (cb : Entry → search_state → search_state * option search_stop)
    (f : Entry → option Entry) : Prop :=
  ∀ e st, (length (matched st) ≤ limit)%nat →
    match cb e st with
    | (st', None) =>
      matched st' = match f e with Some p => matched st ++ [p] | None => matched st end ∧
      (length (matched st') ≤ limit)%nat
    | (st', Some _) => matched st' = matched st
    end.

(** In a calm operation the only interruption is the size limit. *)
Definition calmly (cb : Entry → search_state → search_state * option search_stop)
    (f : Entry → option Entry) : Prop :=
  ∀ e st, ∃ n, cb e st =
    match f e with
    | None => (MkSearchState (matched st) (code st) n, None)
    | Some p =>
      if (limit <=? length (matched st))%nat
      then (MkSearchState (matched st) ResultSizeLimitExceeded n, Some StopLimit)
      else (MkSearchState (matched st ++ [p]) (code st) n, None)
    end.

Definition indexed_result (base : DN) (e : Entry) : option Entry :=
  if in_scope base e then result_of e else None.

Lemma visit_contributes (env : OpEnv) : contributes (visit sv env tx subj req) result_of.
Proof.
  intros e st Hlen. unfold visit, poll, result_of.
  destruct (cancelled env _); [done|]. destruct (late env _ _); [done|]. cbn [matched code polls].
  destruct (ParseDN (EDN e)) as [dn|]; [|done].
  destruct (searchResultVisible _ _ _ _ _ _); [|done]. cbn [negb]. rewrite limit_spec.
  destruct (Nat.leb_spec limit (length (matched st))); [done|]. cbn [matched]. split; [done|].
  rewrite length_app. cbn. lia.
Qed.

Lemma visit_indexed_contributes (env : OpEnv) (base : DN) :
  contributes (visit_indexed sv env tx subj req base) (indexed_result base).
Proof.
  intros e st Hlen. unfold visit_indexed, indexed_result, in_scope, entry_in_scope. unfold poll at 1.
  destruct (cancelled env _); [done|]. destruct (late env _ _); [done|].
  destruct (ParseDN (EDN e)) as [dn|]; [|done]. destruct (searchScopeContains _ _ _); [|done]. cbn [negb].
  by apply (visit_contributes env e (MkSearchState (matched st) (code st) (S (polls st)))).
Qed.

Lemma visit_calmly (env : OpEnv) : calm env → calmly (visit sv env tx subj req) result_of.
Proof.
  intros [Hc Hl _] e st. exists (S (polls st)). unfold visit, poll, result_of. rewrite Hc, Hl. cbn [matched code polls].
  destruct (ParseDN (EDN e)) as [dn|]; [|done].
  destruct (searchResultVisible _ _ _ _ _ _); [|done]. cbn [negb]. by rewrite limit_spec.
Qed.

Lemma visit_indexed_calmly (env : OpEnv) (base : DN) :
  calm env → calmly (visit_indexed sv env tx subj req base) (indexed_result base).
Proof.
  intros Hcalm e st. unfold visit_indexed, indexed_result, in_scope, entry_in_scope. unfold poll at 1.
  rewrite (calm_cancelled _ Hcalm), (calm_late _ Hcalm).
  destruct (ParseDN (EDN e)) as [dn|]; [|by eexists]. destruct (searchScopeContains _ _ _); [|by eexists]. cbn [negb].
  apply (visit_calmly env Hcalm e (MkSearchState (matched st) (code st) (S (polls st)))).
Qed.

(** * Walks *)

Lemma omap_snoc (f : Entry → option Entry) (l l' : list Entry) (e : Entry) :
  match f e with Some p => l ++ [p] | None => l end ++ omap f l' = l ++ omap f (e :: l').
Proof. cbn. destruct (f e); [by rewrite <- app_assoc | done]. Qed.

Lemma walk_contributes cb f (l : list Entry) (st st' : search_state) (stop : option search_stop) :
  contributes cb f → (length (matched st) ≤ limit)%nat → walk_entries cb l st = (st', stop) →
  (length (matched st') ≤ limit)%nat ∧
  ∃ seen, seen `prefix_of` l ∧ matched st' = matched st ++ omap f seen ∧ (stop = None → seen = l).
Proof.
  intros Hcb. revert st. induction l as [|e l IH]; intros st Hlen H; cbn [walk_entries] in H.
  - injection H as <- <-. split; [done|]. exists []. by rewrite app_nil_r.
  - specialize (Hcb e st Hlen). destruct (cb e st) as [st1 [s|]].
    + injection H as <- <-. rewrite Hcb. split; [done|]. exists []. rewrite app_nil_r.
      split_and!; [apply prefix_nil | done | done].
    + destruct Hcb as [Hm Hl]. destruct (IH st1 Hl H) as (Hl' & seen & Hp & Hm' & Hs). split; [done|].
      exists (e :: seen). split_and!; [by apply prefix_cons | | intros Hn; f_equal; by apply Hs].
      rewrite Hm', Hm. apply omap_snoc.
Qed.

Lemma walk_calmly cb f (l : list Entry) (st : search_state) :
  calmly cb f → (length (matched st) ≤ limit)%nat →
  let all := matched st ++ omap f l in
  ∃ n, walk_entries cb l st =
    if (length all <=? limit)%nat then (MkSearchState all (code st) n, None)
    else (MkSearchState (take limit all) ResultSizeLimitExceeded n, Some StopLimit).
Proof.
  intros Hcb. revert st. induction l as [|e l IH]; intros st Hlen; cbn zeta.
  - exists (polls st). rewrite app_nil_r, (proj2 (Nat.leb_le _ _)) by done. cbn. by destruct st.
  - cbn [walk_entries]. destruct (Hcb e st) as [n ->]. rewrite <- omap_snoc. destruct (f e) as [p|]; [|].
    + destruct (Nat.leb_spec limit (length (matched st))) as [Hge|Hlt].
      * exists n. assert (E : limit = length (matched st)) by lia.
        rewrite (proj2 (Nat.leb_gt _ _)) by (rewrite !length_app; cbn; lia).
        by rewrite <- app_assoc, E, take_app_length.
      * apply (IH (MkSearchState (matched st ++ [p]) (code st) n)). cbn [matched]. rewrite length_app. cbn. lia.
    + apply (IH (MkSearchState (matched st) (code st) n)). done.
Qed.

Lemma omap_filter (f : Entry → option Entry) (P : Entry → bool) (l : list Entry) :
  omap (λ e, if P e then f e else None) l = omap f (filter (λ e, P e = true) l).
Proof.
  induction l as [|e l IH]; [done|].
  destruct (P e) eqn:E; [rewrite filter_cons_True by done | rewrite filter_cons_False by congruence];
    cbn; by rewrite E, IH.
Qed.

(** Everything the store offers to a traversal. *)
Definition offered (base : DN) : list Entry :=
  (scope_candidates tx req base).1 ++
  match indexedSearchPredicate (SFilter req), stx_WalkEqual tx with
  | Some (a, v), Some walker => match walker a v with Some w => w.1 | None => [] end
  | _, _ => []
  end.

Lemma run_walk_contributes cb f (w : walk) (st : search_state) (stop : option search_stop) :
  contributes cb f → run_walk cb w (MkSearchState [] ResultSuccess 0) = (st, stop) →
  (length (matched st) ≤ limit)%nat ∧ ∃ cands, cands ⊆ w.1 ∧ matched st = omap f cands.
Proof.
  intros Hcb H. unfold run_walk in H. destruct (walk_entries _ _ _) as [st1 stop1] eqn:E.
  apply (walk_contributes cb f) in E as (Hl & seen & [k Hp] & Hm & _); [|done|cbn; lia].
  assert (st1 = st) as -> by (destruct stop1; congruence). split; [done|]. exists seen.
  split; [rewrite Hp; set_solver | done].
Qed.

(** Whatever interrupts it, a traversal matches some of what was offered. *)
Lemma search_view_contributes (env : OpEnv) (base : DN) (st : search_state) (stop : option search_stop) :
  search_view sv env tx subj req base = (st, stop) →
  (length (matched st) ≤ limit)%nat ∧ ∃ cands, cands ⊆ offered base ∧ matched st = omap result_of cands.
Proof.
  assert (Hv : run_walk (visit sv env tx subj req) (scope_candidates tx req base)
      (MkSearchState [] ResultSuccess 0) = (st, stop) →
    (length (matched st) ≤ limit)%nat ∧ ∃ cands, cands ⊆ offered base ∧ matched st = omap result_of cands).
  { intros H. apply (run_walk_contributes _ result_of) in H as (? & c & Hc & ?); [|apply visit_contributes].
    split; [done|]. exists c. split; [unfold offered; set_solver | done]. }
  unfold search_view. intros H. destruct (negb _); [|by apply Hv].
  destruct (indexedSearchPredicate _) as [[a v]|] eqn:Ep; [|by apply Hv].
  destruct (stx_WalkEqual tx) as [walker|] eqn:Ew; [|by apply Hv].
  destruct (tx_Entry _ _); [|injection H as <- <-; split; [cbn; lia | exists []; split; [set_solver | done]]].
  destruct (walker a v) as [w|] eqn:Ewv; [|by apply Hv].
  apply (run_walk_contributes _ (indexed_result base)) in H as (Hl & c & Hc & Hm); [|apply visit_indexed_contributes].
  split; [done|]. exists (filter (λ e, in_scope base e = true) c).
  unfold offered. rewrite Ep, Ew, Ewv, <- omap_filter. split; [|done].
  intros e [_ He]%list_elem_of_filter. apply elem_of_app. right. by apply Hc.
Qed.

(** * Candidates *)

(** Contributions depend only on which candidates contribute. *)
Lemma omap_perm (f : Entry → option Entry) (l l' : list Entry) :
  NoDup l → NoDup l' → (∀ e, is_Some (f e) → e ∈ l ↔ e ∈ l') → omap f l ≡ₚ omap f l'.
Proof.
  intros Hl Hl' H.
  assert (Hf : ∀ k : list Entry, omap f k = omap f (filter (λ e, is_Some (f e)) k)).
  { intros k. induction k as [|e k IH]; [done|]. cbn. destruct (f e) eqn:E.
    - rewrite decide_True by by eexists. cbn. by rewrite E, IH.
    - rewrite decide_False; [done | intros [? ?]; congruence]. }
  rewrite (Hf l), (Hf l'). apply omap_Permutation, NoDup_Permutation; [by apply NoDup_filter..|].
  intros e. rewrite !list_elem_of_filter. naive_solver.
Qed.

(** A visible entry satisfies the predicate the planner picked. *)
Lemma result_of_indexed (e : Entry) (a v : bytes) :
  indexedSearchPredicate (SFilter req) = Some (a, v) → is_Some (result_of e) →
  ∃ x, x ∈ filterValues e (parseAttrDesc (Some (sv_Schema sv)) a) (Some (sv_Schema sv)) ∧
    Equal_ (Some (sv_Schema sv)) (d_typ (parseAttrDesc (Some (sv_Schema sv)) a)) x v = true.
Proof.
  intros Hp [p Hr]. unfold result_of in Hr. destruct (ParseDN (EDN e)) as [dn|]; [|done].
  unfold searchResultVisible in Hr. destruct (matchSearchFilter _ _ _ _) eqn:Em; try done.
  apply (indexedSearchPredicate_sound_aux _ _ _ _ a v) in Em; [|done].
  apply existsb_exists in Em as (x & Hx & He). exists x. split; [by apply list_elem_of_In | done].
Qed.

(** The visible entries in scope. *)
Definition visible (base : DN) (snapshot : list Entry) : list Entry :=
  omap result_of (filter (λ e, in_scope base e = true) snapshot).

Lemma run_walk_calmly cb f (l : list Entry) :
  calmly cb f →
  ∃ n, run_walk cb (l, None) (MkSearchState [] ResultSuccess 0) =
    if (length (omap f l) <=? limit)%nat then (MkSearchState (omap f l) ResultSuccess n, None)
    else (MkSearchState (take limit (omap f l)) ResultSizeLimitExceeded n, Some StopLimit).
Proof.
  intros Hcb. destruct (walk_calmly cb f l (MkSearchState [] ResultSuccess 0) Hcb) as [n Hn]; [cbn; lia|].
  exists n. unfold run_walk. cbn [fst snd]. rewrite Hn. cbn [matched app]. by destruct (_ <=? _)%nat.
Qed.

(** Both traversals, indexed and by scope, match a permutation of the visible entries
    in scope, cut at the limit. *)
Lemma search_view_calm (env : OpEnv) (base : DN) (b : Entry) (snapshot : list Entry)
    {TL : SearchTxLaws (sv_Schema sv) tx base snapshot} :
  calm env → tx_Entry (stx_read tx) base = Ok b → ScopeBaseObject ≤ SScope req ≤ ScopeChildren →
  ∃ l n, l ≡ₚ visible base snapshot ∧
    search_view sv env tx subj req base =
      if (length l <=? limit)%nat then (MkSearchState l ResultSuccess n, None)
      else (MkSearchState (take limit l) ResultSizeLimitExceeded n, Some StopLimit).
Proof.
  intros Hcalm Hb Hs. destruct (stx_scope req b Hb Hs) as (cands & Hcands & Hperm).
  destruct (run_walk_calmly _ result_of cands (visit_calmly env Hcalm)) as [n Hn].
  assert (Hscope : omap result_of cands ≡ₚ visible base snapshot) by by apply omap_Permutation.
  unfold search_view. rewrite Hcands.
  destruct (negb _); [|by eexists _, n].
  destruct (indexedSearchPredicate _) as [[a v]|] eqn:Ep; [|by eexists _, n].
  destruct (stx_WalkEqual tx) as [walker|] eqn:Ew; [|by eexists _, n]. rewrite Hb.
  destruct (walker a v) as [w|] eqn:Ewv; [|by eexists _, n].
  destruct (stx_equal walker a v w Ew Ewv) as (l & -> & Hnd & Hsub & Hall).
  destruct (run_walk_calmly _ (indexed_result base) l (visit_indexed_calmly env base Hcalm)) as [m Hm].
  eexists _, m. split; [|exact Hm]. unfold indexed_result, visible. rewrite omap_filter.
  pose proof (stx_nodup (SearchTxLaws := TL)) as Hsn.
  apply omap_perm; [by apply NoDup_filter..|]. intros e He. rewrite !list_elem_of_filter.
  split; intros [Hi Hin]; (split; [done|]); [by apply Hsub|].
  apply Hall; [done|]. by apply result_of_indexed.
Qed.

(** * Sending *)

Definition entry_response (e : Entry) : response := (SearchResultEntry (EDN e) (Attributes e), []).

Lemma send_entries_prefix (env : OpEnv) (n i : nat) (c : Z) (controls : list Control) (entries : list Entry) :
  ∃ k tail, (send_entries env n i c controls entries).1 = (entry_response <$> take k entries) ++ tail ∧
    (tail = [] ∨ tail = [(SearchResultDone (MkResult c [] []), controls)] ∧ take k entries = entries).
Proof.
  revert n i. induction entries as [|e l IH]; intros n i; cbn [send_entries].
  - exists 0%nat. unfold send_done. destruct (cancelled env n); eexists; (split; [done|]); [by left | by right].
  - destruct (cancelled env n); [exists 0%nat, []; split; [done | by left]|].
    destruct (sends env i); cbn [negb]; [|exists 0%nat, []; split; [done | by left]].
    destruct (IH (S n) (S i)) as (k & tail & Hk & Ht). destruct (send_entries _ _ _ _ _ l) as [out c'].
    cbn [fst] in *. subst out. exists (S k), tail. split; [done|]. destruct Ht as [?|[? Hk]]; [by left|].
    right. split; [done|]. cbn. by rewrite Hk.
Qed.

Lemma send_entries_calm (env : OpEnv) (n i : nat) (c : Z) (controls : list Control) (entries : list Entry) :
  calm env →
  send_entries env n i c controls entries =
    ((entry_response <$> entries) ++ [(SearchResultDone (MkResult c [] []), controls)], c).
Proof.
  intros [Hc _ Hs]. revert n i. induction entries as [|e l IH]; intros n i; cbn [send_entries].
  - unfold send_done. by rewrite Hc.
  - rewrite Hc, Hs, IH. done.
Qed.
Definition is_entry (r : response) : bool := match r.1 with SearchResultEntry _ _ => true | _ => false end.

Lemma no_entries (l : list response) :
  Forall (λ r, is_entry r = false) l → filter (λ r, is_entry r = true) l = [].
Proof. induction 1 as [|r l Hr _ IH]; [done|]. by rewrite filter_cons_False by congruence. Qed.

(** The responses of a search: entries cut out of the matches, then at most one
    other response. *)
Lemma runSearch_shape {L : BerLib} (env : OpEnv) (controls : list Control) (base : DN) :
  BaseDN req ≠ [] → ParseDN (BaseDN req) = Ok base → isSubschemaDN base = false →
  ∃ ents tail,
    (runSearch sv env tx subj req controls).1 = (entry_response <$> ents) ++ tail ∧
    Forall (λ r, is_entry r = false) tail ∧ (length tail ≤ 1)%nat ∧
    ents ⊆ matched (search_view sv env tx subj req base).1 ∧
    (length ents ≤ length (matched (search_view sv env tx subj req base).1))%nat.
Proof.
  intros Hne Hb Hs. unfold runSearch. rewrite (proj2 (beq_false _ _) Hne), Hb, Hs.
  assert (Hdone : ∀ n res cs, Forall (λ r, is_entry r = false) (send_done env n res cs) ∧
    (length (send_done env n res cs) ≤ 1)%nat).
  { intros n res cs. unfold send_done. destruct (cancelled env n); (split; [by repeat constructor | cbn; lia]). }
  assert (Hfail : ∀ tail m, Forall (λ r, is_entry r = false) tail → (length tail ≤ 1)%nat →
    ∃ ents tail', tail = (entry_response <$> ents) ++ tail' ∧ Forall (λ r, is_entry r = false) tail' ∧
      (length tail' ≤ 1)%nat ∧ ents ⊆ m ∧ (length ents ≤ length (m : list Entry))%nat).
  { intros tail m ? ?. exists [], tail. split_and!; try done; [set_solver | cbn; lia]. }
  destruct (parsePagedControl _ _ _ _) as [page|res]; [|by apply Hfail; apply Hdone].
  destruct (search_view _ _ _ _ _ _) as [st stop]. cbn [fst].
  assert (Hfin : ∀ cs ents, ents ⊆ matched st → (length ents ≤ length (matched st))%nat →
    ∃ ents' tail, (send_entries env (polls st) 0 (code st) cs ents).1 = (entry_response <$> ents') ++ tail ∧
      Forall (λ r, is_entry r = false) tail ∧ (length tail ≤ 1)%nat ∧
      ents' ⊆ matched st ∧ (length ents' ≤ length (matched st))%nat).
  { intros cs ents Hsub Hl. destruct (send_entries_prefix env (polls st) 0 (code st) cs ents) as (k & tail & Hk & Ht).
    exists (take k ents), tail. split_and!; [done | | | |].
    - destruct Ht as [->|[-> _]]; by repeat constructor.
    - destruct Ht as [->|[-> _]]; cbn; lia.
    - intros e He. apply Hsub. by eapply elem_of_take in He as (? & ? & ?); eapply list_elem_of_lookup_2.
    - rewrite length_take. lia. }
  assert (Hpage : ∃ ents' tail,
      (let '(pageControls, paged) := applyPaging (sv_hmac sv) (matched st) page (effective_size sv req) in
       send_entries env (polls st) 0 (code st) pageControls
         match paged with Some p => pg_out p | None => matched st end).1 = (entry_response <$> ents') ++ tail ∧
      Forall (λ r, is_entry r = false) tail ∧ (length tail ≤ 1)%nat ∧
      ents' ⊆ matched st ∧ (length ents' ≤ length (matched st))%nat).
  { destruct page as [page|]; cbn [applyPaging pg_out]; apply Hfin; try done.
    - intros e He. apply elem_of_take in He as (i & Hi & _). rewrite lookup_drop in Hi. by eapply list_elem_of_lookup_2.
    - rewrite length_take, length_drop. lia. }
  destruct stop as [[| |[]]|]; try (by apply Hpage); try (by apply Hfail; apply Hdone);
    (destruct (cancelled env _); [by apply Hfail; [constructor | cbn; lia] | by apply Hfail; apply Hdone]).
Qed.

(** The responses and the code of an uninterrupted, unpaged search that found [l]. *)
Definition search_response (l : list Entry) : list response * Z :=
  let c := if (length l <=? limit)%nat then ResultSuccess else ResultSizeLimitExceeded in
  ((entry_response <$> take limit l) ++ [(SearchResultDone (MkResult c [] []), [])], c).

Lemma runSearch_calm {L : BerLib} (env : OpEnv) (controls : list Control) (base : DN) (b : Entry)
    (snapshot : list Entry) {TL : SearchTxLaws (sv_Schema sv) tx base snapshot} :
  calm env → BaseDN req ≠ [] → ParseDN (BaseDN req) = Ok base → isSubschemaDN base = false →
  ScopeBaseObject ≤ SScope req ≤ ScopeChildren → tx_Entry (stx_read tx) base = Ok b →
  parsePagedControl (sv_hmac sv) controls base req = Ok None →
  ∃ l, l ≡ₚ visible base snapshot ∧ runSearch sv env tx subj req controls = search_response l.
Proof.
  intros Hcalm Hne Hb Hs Hscope Hbase Hp.
  destruct (search_view_calm env base b snapshot Hcalm Hbase Hscope) as (l & n & Hl & Hv).
  exists l. split; [done|]. unfold runSearch, search_response. rewrite (proj2 (beq_false _ _) Hne), Hb, Hs, Hp, Hv.
  destruct (Nat.leb_spec (length l) limit); cbn [applyPaging matched code polls]; rewrite send_entries_calm by done.
  - by rewrite take_ge.
  - done.
Qed.

(** What a result shows of its candidate. *)
Lemma result_of_shows (e p : Entry) :
  result_of e = Some p →
  ∃ d, ParseDN (EDN e) = Ok d ∧ searchResultVisible sv (stx_read tx) subj d e (SFilter req) = true ∧ EDN p = EDN e ∧
    ∀ a, a ∈ Attributes p →
      allowed (sv_Schema sv) (sv_ACI sv) (stx_read tx) subj d (Name a) PermRead = true ∧
      wants (parseAttrSelection (SAttributes req)) (sv_Schema sv) (Name a) = true ∧
      ∃ v, MkAttribute (Name a) v ∈ Attributes e ∧ AttrValues a = if TypesOnly req then [] else v.
Proof.
  unfold result_of. destruct (ParseDN (EDN e)) as [d|]; [|done].
  destruct (searchResultVisible _ _ _ _ _ _) eqn:Ev; [|done]. intros [= <-]. exists d. split_and!; try done.
  intros a Ha. cbn [projectEntry Attributes] in Ha. apply list_elem_of_omap in Ha as ([n v] & Hin & Ho).
  cbn [Name AttrValues] in Ho. destruct (wants _ _ n) eqn:Ew; [|done]. cbn [negb] in Ho.
  destruct (allowed _ _ _ _ _ n _) eqn:Ea; [|done]. injection Ho as <-. cbn [Name AttrValues].
  split_and!; [done | done | by exists v].
Qed.
End facts.

(** * Noninterference *)

Section noninterference.
Context {U : Unicode}.
Variable sv : Server.
Variable subj : Subject.
Variable req : SearchRequest.

(** The attributes of an entry the subject may read. *)
Definition readable_part (tx : ReadTx) (dn : DN) (e : Entry) : list Attribute :=
  filter (λ a, allowed (sv_Schema sv) (sv_ACI sv) tx subj dn (Name a) PermRead = true) (Attributes e).

(** An entry the subject may read nothing of. *)
Definition hidden (tx : ReadTx) (e : Entry) : bool :=
  match ParseDN (EDN e) with
  | Ok dn => bool_decide (readable_part tx dn e = [])
  | Err _ => true
  end.

(** Two snapshots give a subject the same access. *)
Definition same_access (tx tx' : ReadTx) : Prop :=
  (∀ dn n o, may_search sv tx subj dn n o = may_search sv tx' subj dn n o) ∧
  (∀ dn a, allowed (sv_Schema sv) (sv_ACI sv) tx subj dn a PermRead =
           allowed (sv_Schema sv) (sv_ACI sv) tx' subj dn a PermRead).

(** The subject can tell two entries apart only by what it may read or search. *)
Definition look_alike (tx : ReadTx) (e e' : Entry) : Prop :=
  EDN e = EDN e' ∧
  ∀ dn, ParseDN (EDN e) = Ok dn →
    readable_part tx dn e = readable_part tx dn e' ∧
    ∀ a, a ∈ leaves (SFilter req) → searchable (sv_Schema sv) (may_search sv tx subj dn) a = true →
      filterValues e (parseAttrDesc (Some (sv_Schema sv)) a) (Some (sv_Schema sv)) =
      filterValues e' (parseAttrDesc (Some (sv_Schema sv)) a) (Some (sv_Schema sv)).

Lemma entryReadable_part (tx : ReadTx) (dn : DN) (e : Entry) :
  entryReadable sv tx subj dn e = existsb (λ a, countsForVisibility (sv_Schema sv) (Name a)) (readable_part tx dn e).
Proof.
  unfold entryReadable, readable_part. induction (Attributes e) as [|a l IH]; [done|]. cbn [existsb]. rewrite IH.
  destruct (allowed _ _ _ _ _ _ _) eqn:E.
  - rewrite filter_cons_True by done. cbn. by rewrite andb_true_r.
  - rewrite filter_cons_False by congruence. by rewrite andb_false_r.
Qed.

Lemma projectEntry_part (tx : ReadTx) (dn : DN) (e : Entry) (sel : attrSelection) (types : bool) :
  projectEntry sv tx subj dn e sel types =
    MkEntry (EDN e) (omap (λ a, if wants sel (sv_Schema sv) (Name a)
                                then Some (MkAttribute (Name a) (if types then [] else AttrValues a)) else None)
                       (readable_part tx dn e)).
Proof.
  unfold projectEntry, readable_part. f_equal. induction (Attributes e) as [|a l IH]; [done|]. cbn.
  destruct (allowed _ _ _ _ _ _ _) eqn:E.
  - rewrite decide_True by done. cbn. rewrite IH. by destruct (wants _ _ _).
  - rewrite decide_False by done. rewrite IH. by destruct (wants _ _ _).
Qed.

Lemma result_of_look_alike (tx : SearchTx) (e e' : Entry) :
  look_alike (stx_read tx) e e' → result_of sv tx subj req e = result_of sv tx subj req e'.
Proof.
  intros [Hdn H]. unfold result_of. rewrite <- Hdn. destruct (ParseDN (EDN e)) as [dn|] eqn:Ed; [|done].
  destruct (H dn eq_refl) as [Hr Hs]. unfold searchResultVisible.
  rewrite (matchSearchFilter_view_aux (sv_Schema sv) _ e e') by done.
  by rewrite !entryReadable_part, !projectEntry_part, Hr, Hdn.
Qed.

Lemma result_of_hidden (tx : SearchTx) (e : Entry) :
  hidden (stx_read tx) e = true → result_of sv tx subj req e = None.
Proof.
  unfold hidden, result_of. destruct (ParseDN (EDN e)) as [dn|]; [|done]. intros H. bprop.
  unfold searchResultVisible. rewrite entryReadable_part, H. by destruct (matchSearchFilter _ _ _ _).
Qed.

Lemma result_of_same_access (tx tx' : SearchTx) (e : Entry) :
  same_access (stx_read tx) (stx_read tx') → result_of sv tx subj req e = result_of sv tx' subj req e.
Proof.
  intros [Hs Hr]. unfold result_of. destruct (ParseDN (EDN e)) as [dn|]; [|done].
  assert (Hp : ∀ dn e, readable_part (stx_read tx) dn e = readable_part (stx_read tx') dn e).
  { intros d e'. unfold readable_part. apply list_filter_iff. intros a. by rewrite Hr. }
  unfold searchResultVisible. rewrite !entryReadable_part, !projectEntry_part, Hp.
  rewrite (matchSearchFilter_may_ext (sv_Schema sv) _ (may_search sv (stx_read tx') subj dn)) by done. done.
Qed.

Lemma visible_view (tx : SearchTx) (base : DN) (snap snap' : list Entry) :
  Forall2 (look_alike (stx_read tx)) (filter (λ e, hidden (stx_read tx) e = false) snap)
    (filter (λ e, hidden (stx_read tx) e = false) snap') →
  visible sv tx subj req base snap = visible sv tx subj req base snap'.
Proof.
  assert (Hv : ∀ l, visible sv tx subj req base l =
    omap (λ e, if in_scope req base e then result_of sv tx subj req e else None)
      (filter (λ e, hidden (stx_read tx) e = false) l)).
  { intros l. unfold visible. rewrite <- omap_filter. induction l as [|e l IH]; [done|].
    destruct (hidden (stx_read tx) e) eqn:E.
    - rewrite filter_cons_False by congruence. cbn. rewrite IH, result_of_hidden by done. by destruct (in_scope _ _ _).
    - rewrite filter_cons_True by done. cbn. by rewrite IH. }
  intros H. rewrite !Hv. induction H as [|e e' l l' He _ IH]; [done|]. cbn. rewrite IH, (result_of_look_alike tx e e' He).
  unfold in_scope, entry_in_scope. by rewrite (proj1 He).
Qed.
End noninterference.

(** * A store held in a list *)

Definition list_entry {U : Unicode} (snapshot : list Entry) (d : DN) : res store_err Entry :=
  match List.find (λ e, match ParseDN (EDN e) with Ok d' => beq (FoldedKey d') (FoldedKey d) | Err _ => false end)
          snapshot with
  | Some e => Ok e
  | None => Err ErrNoSuchObject
  end.

Definition list_tx {U : Unicode} (s : Schema) (snapshot : list Entry) : SearchTx :=
  MkSearchTx
    (MkReadTx (list_entry snapshot) (λ _, Err ErrNoSuchObject) (λ _, Err ErrNoSuchObject))
    (Some (λ base scope,
       match list_entry snapshot base with
       | Err e => ([], Some e)
       | Ok _ => (filter (λ e, entry_in_scope base scope e = true) snapshot, None)
       end))
    (Some (λ a v, Some (filter (λ e, matchEquality e (parseAttrDesc (Some s) a) v (Some s) = true) snapshot, None))).

#[export] Instance list_tx_read_laws {U : Unicode} (s : Schema) (snapshot : list Entry) :
  ReadTxLaws (stx_read (list_tx s snapshot)).
Proof. constructor. intros d d' H. cbn. unfold list_entry. by rewrite H. Qed.

#[export] Instance list_tx_laws {U : Unicode} (s : Schema) (base : DN) (snapshot : list Entry) :
  NoDup snapshot → SearchTxLaws s (list_tx s snapshot) base snapshot.
Proof.
  intros Hnd. constructor; [done | |].
  - intros req b Hb _. unfold scope_candidates. cbn [list_tx stx_WalkSearch stx_read tx_Entry] in *.
    rewrite Hb. by eexists.
  - intros walker a v w [= <-] [= <-]. eexists. split_and!; [done | by apply NoDup_filter | |].
    + intros e He. by apply list_elem_of_filter in He as [_ ?].
    + intros e He (x & Hx & Hq). apply list_elem_of_filter. split; [|done].
      apply existsb_exists. exists x. split; [by apply list_elem_of_In | done].
Qed.

(** * A sample search *)

Definition calm_env : OpEnv := MkOpEnv (λ _, false) (λ _ _, false) (λ _, true).

Lemma calm_env_calm : calm calm_env.
Proof. by constructor. Qed.

(** Anyone reads and searches everything but passwords. *)
Definition anyone_searches : ParsedACI :=
  MkParsedACI (B "any") (the_dn (B "dc=test")) ACITargetAttrDenyA [B "userPassword"] false [PermRead; PermSearch]
    (MkACISubject ACISubjectAnyoneA (MkDN [])).

Definition sample_sv : Server :=
  MkServer [the_dn (B "dc=test")] DefaultLimits standard_schema [anyone_searches] toy_hmac (B "1").

Definition suffix_entry : Entry :=
  MkEntry (B "dc=test") [MkAttribute (B "objectClass") [B "top"; B "domain"]; MkAttribute (B "dc") [B "test"]].

Definition ada_entry (password : bytes) : Entry :=
  MkEntry (B "uid=ada,dc=test")
    [MkAttribute (B "uid") [B "ada"]; MkAttribute (B "cn") [B "Ada"]; MkAttribute (B "userPassword") [password]].

Definition sample_snapshot (password : bytes) : list Entry := [suffix_entry; ada_entry password].

Definition sample_tx (password : bytes) : SearchTx :=
  list_tx (U := ascii_unicode) standard_schema (sample_snapshot password).

Lemma sample_laws (base : DN) (p : bytes) : SearchTxLaws (U := ascii_unicode) standard_schema (sample_tx p) base (sample_snapshot p).
Proof. apply list_tx_laws. by repeat constructor; intros H; repeat (apply elem_of_cons in H as [?|H]); try apply elem_of_nil in H. Qed.

(** Every person but those called Ada's password. *)
Definition sample_search (f : Filter) : SearchRequest :=
  MkSearchRequest (B "DC=test") ScopeWholeSubtree DerefNever 0 0 false f [].

Example sample_search_runs :
  runSearch (U := ascii_unicode) (L := toy_ber) sample_sv calm_env (sample_tx (B "hunter2")) nobody
    (sample_search (FilterEquality (B "userid") (B "ADA"))) [] =
  ([(SearchResultEntry (B "uid=ada,dc=test") [MkAttribute (B "uid") [B "ada"]; MkAttribute (B "cn") [B "Ada"]], []);
    (SearchResultDone (MkResult ResultSuccess [] []), [])], ResultSuccess).
Proof. vm_compute. reflexivity. Qed.

(** A guess of a password, hidden under a NOT. *)
Definition guess : SearchRequest := sample_search (FilterOr [secret_filter; FilterEquality (B "uid") (B "ADA")]).

Lemma guess_look_alike :
  Forall2 (look_alike (U := ascii_unicode) sample_sv nobody guess (stx_read (sample_tx (B "hunter2"))))
    (filter (λ e, hidden (U := ascii_unicode) sample_sv nobody (stx_read (sample_tx (B "hunter2"))) e = false)
       (sample_snapshot (B "hunter2")))
    (filter (λ e, hidden (U := ascii_unicode) sample_sv nobody (stx_read (sample_tx (B "hunter2"))) e = false)
       (sample_snapshot (B "other"))).
Proof.
  assert (Hf : ∀ p, filter (λ e, hidden (U := ascii_unicode) sample_sv nobody (stx_read (sample_tx (B "hunter2"))) e = false)
    (sample_snapshot p) = sample_snapshot p).
  { intros p. unfold sample_snapshot.
    rewrite filter_cons_True by (vm_compute; reflexivity). by rewrite filter_cons_True by (vm_compute; reflexivity). }
  rewrite !Hf. constructor; [by split; [|intros] | constructor; [|constructor]]. split; [done|].
  - intros dn Hdn. vm_compute in Hdn. injection Hdn as <-. split; [vm_compute; reflexivity|].
    intros a Ha Hs. cbn in Ha. apply elem_of_cons in Ha as [->|Ha]; [vm_compute in Hs; discriminate|].
    apply elem_of_cons in Ha as [->|Ha]; [vm_compute; reflexivity | by apply elem_of_nil in Ha].
Qed.

(** * Properties *)

(** C4.  Whatever interrupts a search and whatever the client asks: it returns at
    most the size limit of entries, each one a visible entry the store offered, with
    only requested attributes the subject may read and the values stored. *)
Theorem search_safety {U : Unicode} {L : BerLib} (sv : Server) (tx : SearchTx) (subj : Subject)
    (req : SearchRequest) (env : OpEnv) (controls : list Control) (base : DN) :
  BaseDN req ≠ [] → ParseDN (BaseDN req) = Ok base → isSubschemaDN base = false →
  let out := (runSearch sv env tx subj req controls).1 in
  (length (filter (λ r, is_entry r = true) out) ≤ Z.to_nat (effective_size sv req))%nat ∧
  ∀ dn attrs cs, (SearchResultEntry dn attrs, cs) ∈ out →
    ∃ e d, e ∈ offered tx req base ∧ ParseDN (EDN e) = Ok d ∧ dn = EDN e ∧
      searchResultVisible sv (stx_read tx) subj d e (SFilter req) = true ∧
      ∀ a, a ∈ attrs →
        allowed (sv_Schema sv) (sv_ACI sv) (stx_read tx) subj d (Name a) PermRead = true ∧
        wants (parseAttrSelection (SAttributes req)) (sv_Schema sv) (Name a) = true ∧
        ∃ v, MkAttribute (Name a) v ∈ Attributes e ∧ AttrValues a = if TypesOnly req then [] else v.
Proof.
  intros Hne Hb Hs. destruct (runSearch_shape sv tx subj req env controls base Hne Hb Hs)
    as (ents & tail & -> & Ht & _ & Hsub & Hlen).
  destruct (search_view sv env tx subj req base) as [st stop] eqn:Ev. cbn [fst] in *.
  apply search_view_contributes in Ev as (Hl & cands & Hc & Hm). cbn zeta. split.
  - rewrite filter_app, length_app. unfold limit in Hl.
    rewrite (no_entries tail Ht). cbn [length]. etrans; [|exact Hl]. etrans; [|exact Hlen].
    rewrite Nat.add_0_r. etrans; [apply length_filter|]. by rewrite length_fmap.
  - intros dn attrs cs [Hin|Hin]%elem_of_app.
    + apply list_elem_of_fmap in Hin as (p & [= -> -> ->] & Hp). apply Hsub in Hp. rewrite Hm in Hp.
      apply list_elem_of_omap in Hp as (e & He & Hr). apply result_of_shows in Hr as (d & ? & ? & ? & ?).
      exists e, d. split_and!; try done. by apply Hc.
    + rewrite Forall_forall in Ht. by apply Ht in Hin.
Qed.

Lemma search_safety_witness :
  (length (filter (λ r, is_entry r = true)
     (runSearch (U := ascii_unicode) (L := toy_ber) sample_sv calm_env (sample_tx (B "hunter2")) nobody
        (sample_search (FilterPresent (B "cn"))) []).1) ≤ 500)%nat.
Proof.
  refine (proj1 (search_safety (U := ascii_unicode) (L := toy_ber) sample_sv (sample_tx (B "hunter2")) nobody
    (sample_search (FilterPresent (B "cn"))) calm_env [] (the_dn (B "dc=test")) _ _ _));
    [discriminate | vm_compute; reflexivity | vm_compute; reflexivity].
Defined.

(** C6.  The specification of a search: over a lawful store an uninterrupted search
    returns, in some order, exactly the visible entries in scope and success, or, if
    there are more than the limit, that many of them and sizeLimitExceeded, whether
    the store was walked by scope or through an index. *)
Theorem search_complete {U : Unicode} {L : BerLib} (sv : Server) (tx : SearchTx) (base : DN) (snapshot : list Entry)
    {TL : SearchTxLaws (sv_Schema sv) tx base snapshot} (subj : Subject) (req : SearchRequest) (env : OpEnv)
    (controls : list Control) (b : Entry) :
  calm env → BaseDN req ≠ [] → ParseDN (BaseDN req) = Ok base → isSubschemaDN base = false →
  ScopeBaseObject ≤ SScope req ≤ ScopeChildren → tx_Entry (stx_read tx) base = Ok b →
  parsePagedControl (sv_hmac sv) controls base req = Ok None →
  ∃ l, l ≡ₚ visible sv tx subj req base snapshot ∧
    runSearch sv env tx subj req controls = search_response sv req l.
Proof. intros. by eapply runSearch_calm. Qed.

Lemma search_complete_witness :
  ∃ l, l ≡ₚ visible (U := ascii_unicode) sample_sv (sample_tx (B "hunter2")) nobody
              (sample_search (FilterEquality (B "uid") (B "ADA"))) (the_dn (B "dc=test")) (sample_snapshot (B "hunter2")) ∧
    runSearch (U := ascii_unicode) (L := toy_ber) sample_sv calm_env (sample_tx (B "hunter2")) nobody
      (sample_search (FilterEquality (B "uid") (B "ADA"))) [] =
    search_response sample_sv (sample_search (FilterEquality (B "uid") (B "ADA"))) l.
Proof.
  apply (search_complete (U := ascii_unicode) (L := toy_ber) sample_sv (sample_tx (B "hunter2"))
    (the_dn (B "dc=test")) (sample_snapshot (B "hunter2")) (TL := sample_laws _ _) nobody
    (sample_search (FilterEquality (B "uid") (B "ADA"))) calm_env [] suffix_entry calm_env_calm);
    [discriminate | vm_compute; reflexivity | vm_compute; reflexivity
    | unfold ScopeBaseObject, ScopeChildren; cbn; unfold ScopeWholeSubtree; lia | vm_compute; reflexivity | reflexivity].
Defined.

(** C3.  Searches keep secrets: if two lawful snapshots give the subject the same
    access and, entries it may read nothing of aside, differ only in what it may
    neither read nor search, a search returns the same entries from both. *)
Theorem search_noninterference {U : Unicode} {L : BerLib} (sv : Server) (tx tx' : SearchTx)
    (base : DN) (snapshot snapshot' : list Entry)
    {TL : SearchTxLaws (sv_Schema sv) tx base snapshot} {TL' : SearchTxLaws (sv_Schema sv) tx' base snapshot'}
    (subj : Subject) (req : SearchRequest) (env : OpEnv) (controls : list Control) (b b' : Entry) :
  calm env → BaseDN req ≠ [] → ParseDN (BaseDN req) = Ok base → isSubschemaDN base = false →
  ScopeBaseObject ≤ SScope req ≤ ScopeChildren →
  tx_Entry (stx_read tx) base = Ok b → tx_Entry (stx_read tx') base = Ok b' →
  parsePagedControl (sv_hmac sv) controls base req = Ok None →
  same_access sv subj (stx_read tx) (stx_read tx') →
  Forall2 (look_alike sv subj req (stx_read tx))
    (filter (λ e, hidden sv subj (stx_read tx) e = false) snapshot)
    (filter (λ e, hidden sv subj (stx_read tx) e = false) snapshot') →
  ∃ l l', l ≡ₚ l' ∧ runSearch sv env tx subj req controls = search_response sv req l ∧
    runSearch sv env tx' subj req controls = search_response sv req l'.
Proof.
  intros Hcalm Hne Hb Hs Hscope Hbase Hbase' Hp Hacc Hl.
  destruct (runSearch_calm sv tx subj req env controls base b snapshot) as (l & Hperm & Hr); try done.
  destruct (runSearch_calm sv tx' subj req env controls base b' snapshot') as (l' & Hperm' & Hr'); try done.
  exists l, l'. split_and!; try done. rewrite Hperm, Hperm'.
  rewrite (visible_view sv subj req tx base snapshot snapshot' Hl). unfold visible.
  apply Permutation_refl', list_omap_ext, Forall_Forall2_diag, Forall_forall.
  intros e _. by apply result_of_same_access.
Qed.

Lemma search_noninterference_witness :
  ∃ l l', l ≡ₚ l' ∧
    runSearch (U := ascii_unicode) (L := toy_ber) sample_sv calm_env (sample_tx (B "hunter2")) nobody guess [] =
      search_response sample_sv guess l ∧
    runSearch (U := ascii_unicode) (L := toy_ber) sample_sv calm_env (sample_tx (B "other")) nobody guess [] =
      search_response sample_sv guess l'.
Proof.
  apply (search_noninterference (U := ascii_unicode) (L := toy_ber) sample_sv (sample_tx (B "hunter2"))
    (sample_tx (B "other")) (the_dn (B "dc=test")) (sample_snapshot (B "hunter2")) (sample_snapshot (B "other"))
    (TL := sample_laws _ _) (TL' := sample_laws _ _) nobody guess calm_env []
    suffix_entry suffix_entry calm_env_calm);
    [discriminate | vm_compute; reflexivity | vm_compute; reflexivity
    | unfold ScopeBaseObject, ScopeChildren; cbn; unfold ScopeWholeSubtree; lia
    | vm_compute; reflexivity | vm_compute; reflexivity | reflexivity | by split | apply guess_look_alike].
Defined.

(** An abandoned operation is silent: a search whose context is cancelled
    throughout sends nothing. *)
Theorem search_abandoned {U : Unicode} {L : BerLib} (sv : Server) (tx : SearchTx) (subj : Subject)
    (req : SearchRequest) (env : OpEnv) (controls : list Control) :
  (∀ n, cancelled env n = true) → (runSearch sv env tx subj req controls).1 = [].
Proof.
  intros Hc. assert (Hdone : ∀ n res cs, send_done env n res cs = []) by (intros; unfold send_done; by rewrite Hc).
  assert (Hfail : ∀ n c diag, (search_fail env n c diag).1 = []) by (intros; apply Hdone).
  assert (Hsend : ∀ n i c cs l, (send_entries env n i c cs l).1 = []).
  { intros n i c cs l. destruct l; cbn [send_entries]; [apply Hdone | by rewrite Hc]. }
  unfold runSearch, searchRootDSE, searchSubschema, answerSynthetic.
  repeat (case_match; try (by apply Hfail); try (by apply Hdone); try (by apply Hsend); try done);
    rewrite Hc in *; done.
Qed.

Lemma search_abandoned_witness :
  (runSearch (U := ascii_unicode) (L := toy_ber) sample_sv (MkOpEnv (λ _, true) (λ _ _, false) (λ _, true))
     (sample_tx (B "hunter2")) nobody guess []).1 = [].
Proof. apply search_abandoned. reflexivity. Defined.
