(* ===== verification/Write.v ===== *)
(** The write operations: [src/internal/ldapserver/op_write.go], the operational
    attributes of [op_attrs.go], the plugin seam of [plugin.go] and the assertion
    control of [ctrl_assert.go].

    A handler runs one [Store.Update]: its function maps the transaction's state to
    a new state or an error, and an error (or a failed commit) leaves the store as
    it was.  Diagnostics of schema violations are a parameter: the code quotes
    attribute names and picks one of several violations by map order.  An error a
    plugin returns is [WPlugin] whatever it wraps. *)

From S2P Require Import Prelude GoStrings DN Message Ber Decode Attr Schema Matching FilterEval StoreIface Aci Server Paging.
Local Open Scope Z_scope.

(** * The write side of a transaction *)

Class UpdateTx (St : Type) : Type := {
  ut_read : St → ReadTx;
  ut_Add : St → Entry → res store_err St;
  ut_Replace : St → Entry → res store_err St;
  ut_Delete : St → DN → res store_err St;
  ut_Rename : St → DN → DN → res store_err St;
}.

Inductive WriteOp : Type := WriteAdd | WriteModify | WriteDelete | WriteRename.

Record WriteEvent : Type := MkWriteEvent {
  ev_Op : WriteOp;
  ev_Before : option Entry;
  ev_After : option Entry;
}.

(** The conditions a write function returns. *)
Inductive write_err : Type :=
| WDenied
| WStore (e : store_err)
| WSchema (v : schema_violation)
| WDuplicateType (name : bytes)
| WRenameIntoSubtree
| WInvalidDN
| WNoSuchAttribute
| WAttributeOrValueExists
| WOperational (attr : bytes)
| WPlugin
| WAssertionFailed
| WConfig (e : field_err).

Definition lift {A} (r : res store_err A) : res write_err A :=
  match r with
  | Ok a => Ok a
  | Err e => Err (WStore e)
  end.

Definition lift_dn {A} (r : res field_err A) : res write_err A :=
  match r with
  | Ok a => Ok a
  | Err e => Err (WConfig e)
  end.

Section write.
Context {U : Unicode}.

(** * Values and attributes *)

Definition hasValue (values : list bytes) (v : bytes) (fold : bool) : bool :=
  existsb (λ x, valueEqual fold x v) values.

Definition hasMatched (m : RuleMatcher) (attr : bytes) (values : list bytes) (v : bytes) : bool :=
  existsb (λ x, Equal_ m attr x v) values.

Definition removeMatched (m : RuleMatcher) (attr : bytes) (values : list bytes) (v : bytes) : list bytes :=
  filter (λ x, Equal_ m attr x v = false) values.

Definition dedupMatched (m : RuleMatcher) (attr : bytes) (values : list bytes) : list bytes :=
  foldl (λ out v, if hasMatched m attr out v then out else out ++ [v]) [] values.

(** The entry with the values of its [i]-th attribute replaced. *)
Definition set_values (e : Entry) (i : nat) (values : list bytes) : Entry :=
  MkEntry (EDN e) (alter (λ a, MkAttribute (Name a) values) i (Attributes e)).

Definition values_at (e : Entry) (i : nat) : list bytes := from_option AttrValues [] (Attributes e !! i).

Definition remove_attr (e : Entry) (i : nat) : Entry := MkEntry (EDN e) (delete i (Attributes e)).

Definition append_attr (e : Entry) (a : Attribute) : Entry := MkEntry (EDN e) (Attributes e ++ [a]).

Definition applyChange (s : Schema) (e : Entry) (ch : ModifyChange) : res write_err Entry :=
  let name := Name (ChAttr ch) in
  let values := AttrValues (ChAttr ch) in
  let idx := attrIndex e name in
  let m := Some s in
  if ChOp ch =? ModifyAdd then
    match idx with
    | None => Ok (append_attr e (MkAttribute name (dedupMatched m name values)))
    | Some i =>
      if existsb (hasMatched m name (values_at e i)) values then Err WAttributeOrValueExists
      else Ok (set_values e i (values_at e i ++ dedupMatched m name values))
    end
  else if ChOp ch =? ModifyDelete then
    match idx with
    | None => Err WNoSuchAttribute
    | Some i =>
      if (length values =? 0)%nat then Ok (remove_attr e i)
      else if negb (forallb (hasMatched m name (values_at e i)) values) then Err WNoSuchAttribute
      else
        let rest := foldl (removeMatched m name) (values_at e i) values in
        if (length rest =? 0)%nat then Ok (remove_attr e i) else Ok (set_values e i rest)
    end
  else if ChOp ch =? ModifyReplace then
    let e := match idx with Some i => remove_attr e i | None => e end in
    if (length values =? 0)%nat then Ok e
    else Ok (append_attr e (MkAttribute name (dedupMatched m name values)))
  else Err WInvalidDN.

(** [setAttr] of [memberof.go]. *)
Definition setAttr (e : Entry) (name : bytes) (values : list bytes) : Entry :=
  match attrIndex e name with
  | None => if (length values =? 0)%nat then e else append_attr e (MkAttribute name values)
  | Some i => if (length values =? 0)%nat then remove_attr e i else set_values e i values
  end.

Definition upsertValue (e : Entry) (name v : bytes) : Entry :=
  match attrIndex e name with
  | None => append_attr e (MkAttribute name [v])
  | Some i => set_values e i (values_at e i ++ [v])
  end.

Fixpoint duplicate_type (seen : gset bytes) (attrs : list Attribute) : option bytes :=
  match attrs with
  | [] => None
  | a :: attrs' =>
    let key := to_lower (Name a) in
    if bool_decide (key ∈ seen) then Some (Name a) else duplicate_type ({[key]} ∪ seen) attrs'
  end.

Definition checkDuplicateAttrTypes (attrs : list Attribute) : res write_err () :=
  match duplicate_type ∅ attrs with
  | Some name => Err (WDuplicateType name)
  | None => Ok ()
  end.

(** * Operational attributes *)

Definition accountWorkflowWritable (attr : bytes) : bool :=
  bool_decide (to_lower (trim_space attr) ∈
    [B "pwdreset"; B "passwordexpirationtime"; B "pwdaccountlockedtime"; B "accountunlocktime"]).

Definition clientModifiable (s : Schema) (attr : bytes) : bool :=
  if accountWorkflowWritable attr then true
  else
    match AttributeType s attr with
    | None => true
    | Some at_ => negb (at_Operational at_)
    end.

Definition checkClientAttrs (s : Schema) (attrs : list Attribute) : res write_err () :=
  match List.find (λ a, negb (clientModifiable s (Name a))) attrs with
  | Some a => Err (WOperational (Name a))
  | None => Ok ()
  end.

(** [now] is [generalizedTime(s.now())], [uuid] is [s.newEntryUUID()]. *)
Definition applyAddOpAttrs (now uuid : bytes) (e : Entry) (subj : Subject) : Entry :=
  let who := String (subj_DN subj) in
  let e := setAttr e (B "entryUUID") [uuid] in
  let e := setAttr e (B "createTimestamp") [now] in
  let e := setAttr e (B "modifyTimestamp") [now] in
  let e := setAttr e (B "creatorsName") [who] in
  setAttr e (B "modifiersName") [who].

Definition applyModifyOpAttrs (now : bytes) (e : Entry) (subj : Subject) : Entry :=
  let e := setAttr e (B "modifyTimestamp") [now] in
  setAttr e (B "modifiersName") [String (subj_DN subj)].

Definition accountLocked (e : Entry) : bool :=
  existsb (λ v, equal_fold (trim_space v) (B "true")) (Values e (B "nsAccountLock")).

(** * Results *)

Definition resultFromError (e : write_err) : Result :=
  match e with
  | WDenied => MkResult ResultInsufficientAccessRights [] (B "insufficient access")
  | WStore ErrNoSuchObject => MkResult ResultNoSuchObject [] (B "no such object")
  | WStore ErrEntryExists => MkResult ResultEntryAlreadyExists [] (B "entry already exists")
  | WStore ErrNotLeaf => MkResult ResultNotAllowedOnNonLeaf [] (B "entry has children")
  | _ => MkResult ResultOperationsError [] (B "internal error")
  end.

(** The reason text of a schema violation. *)
Variable reason : schema_violation → bytes.

Definition mapWriteError (e : write_err) : Result :=
  match e with
  | WSchema v => MkResult ResultObjectClassViolation [] (reason v)
  | WDuplicateType name => MkResult ResultObjectClassViolation [] (B "duplicate attribute type " ++ name)
  | WRenameIntoSubtree => MkResult ResultUnwillingToPerform [] (B "cannot move an entry beneath itself")
  | WInvalidDN => MkResult ResultInvalidDNSyntax [] (B "invalid DN")
  | WNoSuchAttribute => MkResult ResultNoSuchAttribute [] (B "no such attribute or value")
  | WAttributeOrValueExists => MkResult ResultAttributeOrValueExists [] (B "attribute value already exists")
  | WOperational attr =>
    MkResult ResultConstraintViolation [] (B "operational attribute " ++ attr ++ B " is not client-modifiable")
  | WPlugin => MkResult ResultUnwillingToPerform [] (B "write rejected by plugin")
  | WAssertionFailed => MkResult ResultAssertionFailed [] (B "assertion failed")
  | _ => resultFromError e
  end.

(** * The assertion control *)

Definition assertion_fail (diag : bytes) : res Result (option Filter) := Err (MkResult ResultProtocolError [] diag).

Definition parseAssertionFilter {L : BerLib} (controls : list Control) : res Result (option Filter) :=
  match find_control OIDAssertion None controls with
  | None => assertion_fail (B "duplicate assertion control")
  | Some None => Ok None
  | Some (Some raw) =>
    if (raw =b? [])%ldap then assertion_fail (B "assertion control requires a value")
    else
      match DecodePacketErr raw with
      | None => assertion_fail (B "malformed assertion filter")
      | Some pkt =>
        match decodeFilter pkt with
        | Err _ => assertion_fail (B "malformed assertion filter")
        | Ok filter => Ok (Some filter)
        end
      end
  end.

End write.
