(* ===== verification/FakeStore.v ===== *)
(** The in-memory store of [src/internal/ldapserver/fakes.go]: a map from folded keys
    to entries, staged as a clone and dropped when the write function fails.

    It is the reference implementation of the write side of a transaction
    ([UpdateTx]); [UpdateTxLaws] states what the handlers rely on, over the map of
    entries a state stands for, and the store is proved to satisfy it. *)

From S2P Require Import Prelude GoStrings DN DNFacts Message Ber Attr Schema Matching FilterEval RenameFacts StoreIface Aci Server Paging Write.

(** * Laws *)

(** [contents st] is the directory a state stands for and [ok st] the invariant of
    its representation.  An operation that succeeds does to the directory what its
    name says, and keeps the invariant when the name it was given survives printing
    ([no_tab_end]). *)
Class UpdateTxLaws {U : Unicode} {St : Type} (UT : UpdateTx St) (contents : St → gmap bytes Entry) (ok : St → Prop) : Prop := {
  ut_entry : ∀ st d, ok st → tx_Entry (ut_read st) d =
    match contents st !! FoldedKey d with Some e => Ok e | None => Err ErrNoSuchObject end;
  ut_keys : ∀ st, ok st → keys_ok (contents st);
  ut_add : ∀ st e st', ok st → ut_Add st e = Ok st' →
    ∃ d, ParseDN (EDN e) = Ok d ∧ contents st !! FoldedKey d = None ∧
      (no_tab_end d → ok st' ∧ contents st' = <[FoldedKey d := MkEntry (String d) (Attributes e)]> (contents st));
  ut_replace : ∀ st e st', ok st → ut_Replace st e = Ok st' →
    ∃ d, ParseDN (EDN e) = Ok d ∧ is_Some (contents st !! FoldedKey d) ∧
      (no_tab_end d → ok st' ∧ contents st' = <[FoldedKey d := MkEntry (String d) (Attributes e)]> (contents st));
  ut_delete : ∀ st d st', ok st → wf_dn d → ut_Delete st d = Ok st' →
    is_Some (contents st !! FoldedKey d) ∧ ok st' ∧ contents st' = delete (FoldedKey d) (contents st) ∧
    ∀ k e c p, contents st !! k = Some e → ParseDN (EDN e) = Ok c → Parent c = Some p → FoldedKey p ≠ FoldedKey d;
  ut_rename : ∀ st from to st', ok st → wf_dn from → wf_dn to → no_tab_end to → rooted (contents st) from →
    ut_Rename st from to = Ok st' →
    ok st' ∧ is_Some (contents st !! FoldedKey from) ∧ renamed from to (contents st) (contents st');
}.

(** * The store *)

Section fake.
Context {U : Unicode}.

Definition fakeStore : Type := gmap bytes Entry.

(** [sortedKeys] and the entries in their order. *)
Definition sortedKeys (t : fakeStore) : list bytes := sort_by id (map_to_list t).*1.

Definition sorted_entries (t : fakeStore) : list Entry := omap (t !!.) (sortedKeys t).

Definition fake_Entry (t : fakeStore) (dn : DN) : res store_err Entry :=
  match t !! FoldedKey dn with
  | Some e => Ok e
  | None => Err ErrNoSuchObject
  end.

(** The entries whose parsed name satisfies [f]. *)
Definition fake_select (t : fakeStore) (dn : DN) (f : DN → bool) : res store_err (list Entry) :=
  match t !! FoldedKey dn with
  | None => Err ErrNoSuchObject
  | Some _ =>
    Ok (filter (λ e, match ParseDN (EDN e) with Ok d => f d | Err _ => false end = true) (sorted_entries t))
  end.

Definition fake_Children (t : fakeStore) (dn : DN) : res store_err (list Entry) :=
  fake_select t dn (λ d, (Depth d =? Depth dn + 1)%nat && IsDescendantOf d dn).

Definition fake_Subtree (t : fakeStore) (dn : DN) : res store_err (list Entry) :=
  fake_select t dn (λ d, Equal d dn || IsDescendantOf d dn).

(** A parse error of a stored or given name is any other error. *)
Definition fake_parse (s : bytes) : res store_err DN :=
  match ParseDN s with
  | Ok d => Ok d
  | Err _ => Err (StoreFailure (B "invalid DN"))
  end.

Definition fake_Add (t : fakeStore) (entry : Entry) : res store_err fakeStore :=
  d ← fake_parse (EDN entry);
  match t !! FoldedKey d with
  | Some _ => Err ErrEntryExists
  | None => Ok (<[FoldedKey d := MkEntry (String d) (Attributes entry)]> t)
  end.

Definition fake_Replace (t : fakeStore) (entry : Entry) : res store_err fakeStore :=
  d ← fake_parse (EDN entry);
  match t !! FoldedKey d with
  | None => Err ErrNoSuchObject
  | Some _ => Ok (<[FoldedKey d := MkEntry (String d) (Attributes entry)]> t)
  end.

Definition fake_Delete (t : fakeStore) (dn : DN) : res store_err fakeStore :=
  let key := FoldedKey dn in
  match t !! key with
  | None => Err ErrNoSuchObject
  | Some _ =>
    let childSuffix := B "," ++ key in
    if existsb (λ k, has_suffix k childSuffix) (map_to_list t).*1 then Err ErrNotLeaf
    else Ok (delete key t)
  end.

(** One scheduled move: old key, new key, moved entry. *)
Definition move : Type := bytes * bytes * Entry.

Definition fake_move (from to : DN) (p : bytes * Entry) : res store_err (option move) :=
  let '(k, e) := p in
  if negb ((k =b? FoldedKey from)%ldap || has_suffix k (B "," ++ FoldedKey from)) then Ok None
  else
    d ← fake_parse (EDN e);
    match Rebase d from to with
    | None => Ok None
    | Some nd => Ok (Some (k, FoldedKey nd, MkEntry (String nd) (Attributes e)))
    end.

Definition fake_moves (t : fakeStore) (from to : DN) : res store_err (list move) :=
  match rmap (fake_move from to) (map_to_list t) with
  | Ok moves => Ok (omap (M := list) id moves)
  | Err e => Err e
  end.

Definition fake_Rename (t : fakeStore) (from to : DN) : res store_err fakeStore :=
  let fromKey := FoldedKey from in
  let toKey := FoldedKey to in
  match t !! fromKey with
  | None => Err ErrNoSuchObject
  | Some _ =>
    if bool_decide (is_Some (t !! toKey)) && negb (toKey =b? fromKey)%ldap then Err ErrEntryExists
    else
      moves ← fake_moves t from to;
      if existsb (λ mv : move,
           negb (mv.1.2 =b? mv.1.1)%ldap && bool_decide (is_Some (t !! mv.1.2))) moves
      then Err ErrEntryExists
      else
        let rest := foldl (λ t (mv : move), delete mv.1.1 t) t moves in
        Ok (foldl (λ t (mv : move), <[mv.1.2 := mv.2]> t) rest moves)
  end.

#[export] Instance fake_tx : UpdateTx fakeStore := {|
  ut_read t := MkReadTx (fake_Entry t) (fake_Children t) (fake_Subtree t);
  ut_Add := fake_Add;
  ut_Replace := fake_Replace;
  ut_Delete := fake_Delete;
  ut_Rename := fake_Rename;
|}.

(** * The laws hold *)

Lemma fake_parse_ok (s : bytes) (d : DN) : fake_parse s = Ok d ↔ ParseDN s = Ok d.
Proof. unfold fake_parse. destruct (ParseDN s); naive_solver. Qed.

(** A child's key ends in a comma and its parent's key. *)
Lemma child_key (c p : DN) : Parent c = Some p → ∃ pre, FoldedKey c = pre ++ B "," ++ FoldedKey p.
Proof.
  destruct c as [[|r [|r' l]]]; try done. intros [= <-]. exists (rdn_folded r). done.
Qed.

#[export] Instance fake_read_laws (t : fakeStore) : ReadTxLaws (ut_read t).
Proof. constructor. intros d d' H. cbn. unfold fake_Entry. by rewrite H. Qed.

Lemma keys_insert (m : gmap bytes Entry) (d : DN) (attrs : list Attribute) :
  keys_ok m → wf_dn d → no_tab_end d → keys_ok (<[FoldedKey d := MkEntry (String d) attrs]> m).
Proof.
  intros Hm Hw Ht k e [[<- <-]|[_ Hk]]%lookup_insert_Some; [|by apply Hm]. exists d. split_and!; [|done..]. by apply ParseDN_String_aux.
Qed.

(** ** Rename *)

Section rename.
Context {UL : UnicodeLaws U}.
Variables (t : gmap bytes Entry) (from to : DN).
Hypothesis Hk : keys_ok t.
Hypothesis from_wf : wf_dn from.
Hypothesis to_wf : wf_dn to.

(** The moves are the rebased entries. *)
Lemma fake_moves_spec (moves : list move) (mv : move) :
  fake_moves t from to = Ok moves →
  mv ∈ moves ↔ ∃ k e d nd, t !! k = Some e ∧ ParseDN (EDN e) = Ok d ∧ Rebase d from to = Some nd ∧
    mv = (k, FoldedKey nd, MkEntry (String nd) (Attributes e)).
Proof.
  unfold fake_moves. destruct (rmap _ _) as [ls|] eqn:E; [|done]. intros [= <-]. apply rmap_ok in E. rewrite list_elem_of_omap. split.
  - intros (o & Ho & Hmv). apply list_elem_of_lookup in Ho as (i & Hi). destruct (Forall2_lookup_r _ _ _ _ _ E Hi) as ([k e] & Hx & Hf).
    apply list_elem_of_lookup_2, elem_of_map_to_list in Hx. unfold fake_move in Hf. destruct (negb _); [by injection Hf as <-|].
    apply bind_ok in Hf as (d & Hd%fake_parse_ok & Hf). destruct (Rebase d from to) as [nd|] eqn:R; injection Hf as <-; [|done].
    injection Hmv as <-. by exists k, e, d, nd.
  - intros (k & e & d & nd & Hke & Hd & R & ->). destruct (Hk k e Hke) as (d' & Hd' & Hkd & _). assert (d' = d) as -> by congruence.
    apply elem_of_map_to_list, list_elem_of_lookup in Hke as (i & Hi).
    destruct (Forall2_lookup_l _ _ _ _ _ E Hi) as (o & Ho & Hf). exists o. split; [by eapply list_elem_of_lookup_2|].
    assert (Hm : moved from d) by (apply (Rebase_moved from to from_wf d); [by eapply ParseDN_wf_aux | by rewrite R]).
    assert (Ht : (k =b? FoldedKey from)%ldap || has_suffix k (B "," ++ FoldedKey from) = true).
    { apply orb_true_iff. subst k. destruct Hm as [Hf0|Hu]; [left | right].
      - apply beq_true, key_fold; [by eapply ParseDN_wf_aux | done..].
      - apply has_suffix_iff, under_key; [apply from_wf | done]. }
    unfold fake_move in Hf. rewrite Ht in Hf. cbn [negb] in Hf.
    assert (Hp : fake_parse (EDN e) = Ok d) by (by apply fake_parse_ok). rewrite Hp in Hf. cbn [mbind res_bind] in Hf. rewrite R in Hf. by injection Hf as <-.
Qed.

Lemma delete_moves (moves : list move) (m : gmap bytes Entry) k e :
  foldl (λ (t : gmap bytes Entry) (mv : move), delete mv.1.1 t) m moves !! k = Some e ↔ (k ∉ (λ mv : move, mv.1.1) <$> moves) ∧ m !! k = Some e.
Proof.
  revert m. induction moves as [|mv moves IH]; intros m; cbn [foldl]; [split; [intros; split; [apply not_elem_of_nil | done] | by intros []]|].
  rewrite IH, lookup_delete_Some, fmap_cons, not_elem_of_cons. naive_solver.
Qed.

Lemma insert_moves (moves : list move) (m : gmap bytes Entry) k e :
  (∀ mv mv', mv ∈ moves → mv' ∈ moves → mv.1.2 = mv'.1.2 → mv.2 = mv'.2) →
  foldl (λ (t : gmap bytes Entry) (mv : move), <[mv.1.2 := mv.2]> t) m moves !! k = Some e ↔
  (∃ mv, mv ∈ moves ∧ mv.1.2 = k ∧ mv.2 = e) ∨ (k ∉ (λ mv : move, mv.1.2) <$> moves) ∧ m !! k = Some e.
Proof.
  revert m. induction moves as [|mv moves IH]; intros m Hd; cbn [foldl].
  { split; [right; split; [apply not_elem_of_nil | done] | intros [(mv & H & _)|[_ ?]]; [by apply not_elem_of_nil in H | done]]. }
  rewrite IH by (intros; apply Hd; by try right). rewrite lookup_insert_Some, fmap_cons, not_elem_of_cons. split.
  - intros [(mv' & Hin & ? & ?)|(Hn & [[<- <-]|[Hne Hm]])]; [left; exists mv'; split_and!; [by right | done..] | left; exists mv; split_and!; [left | done..] | right].
    split_and!; [congruence | done..].
  - intros [(mv' & [->|Hin]%elem_of_cons & <- & <-)|([? ?] & ?)]; [| left; by exists mv' | right; split; [done | right; split; [congruence | done]]].
    destruct (decide (mv.1.2 ∈ (λ mv : move, mv.1.2) <$> moves)) as [(mv' & E & Hin)%list_elem_of_fmap|Hn]; [left | right; split; [done | by left]].
    exists mv'. split_and!; [done | done|]. apply Hd; [by right | left | done].
Qed.

Lemma fake_Rename_renamed (t' : gmap bytes Entry) :
  fake_Rename t from to = Ok t' → is_Some (t !! FoldedKey from) ∧ renamed from to t t'.
Proof.
  unfold fake_Rename. change (@lookup _ _ fakeStore) with (@lookup bytes Entry (gmap bytes Entry)). destruct (t !! FoldedKey from) as [e0|] eqn:E0; [|done].
  destruct (_ && _); [done|].
  intros H. apply bind_ok in H as (moves & Hmv & H). pose proof (λ mv, fake_moves_spec moves mv Hmv) as Hs. clear Hmv.
  destruct (existsb _ moves) eqn:Efree; [done|]. injection H as <-. split; [by exists e0|].
  assert (Hwf : ∀ k e d, t !! k = Some e → ParseDN (EDN e) = Ok d → wf_dn d ∧ FoldedKey d = k).
  { intros k e d Hke Hd. destruct (Hk k e Hke) as (d' & Hd' & ? & _). assert (d' = d) as -> by congruence. split; [by eapply ParseDN_wf_aux | done]. }
  intros k' e'. rewrite insert_moves.
  - rewrite delete_moves. unfold relocate, relocate_entry. split.
    + intros [(mv & (k & e & d & nd & Hke & Hd & R & ->)%Hs & <- & <-)|(Hn & Ho & Hke)].
      * exists k, e, d. by rewrite R.
      * destruct (Hk k' e' Hke) as (d & Hd & Hkd & _). exists k', e', d. destruct (Rebase d from to) as [nd|] eqn:R; [|done].
        exfalso. apply Ho, list_elem_of_fmap. exists (k', FoldedKey nd, MkEntry (String nd) (Attributes e')).
        split; [done|]. apply Hs. by exists k', e', d, nd.
    + intros (k & e & d & Hke & Hd & -> & ->). destruct (Hwf k e d Hke Hd) as [Hw Hkd]. destruct (Rebase d from to) as [nd|] eqn:R; cbn [from_option id].
      * left. exists (k, FoldedKey nd, MkEntry (String nd) (Attributes e)). split; [|done]. apply Hs. by exists k, e, d, nd.
      * assert (Hold : k ∉ (λ mv : move, mv.1.1) <$> moves).
        { intros (mv & -> & (k2 & e2 & d2 & nd2 & Hke2 & Hd2 & R2 & ->)%Hs)%list_elem_of_fmap. cbn [fst snd] in *. rewrite Hke in Hke2. injection Hke2 as <-. congruence. }
        right. rewrite Hkd. split_and!; [|done..]. intros (mv & -> & Hin)%list_elem_of_fmap. apply Hold.
        rewrite <- not_true_iff_false in Efree. apply list_elem_of_fmap. exists mv. split; [|done].
        destruct (decide (mv.1.2 = mv.1.1)) as [|Hne]; [done|]. exfalso. apply Efree, existsb_exists. exists mv.
        split; [by apply list_elem_of_In|]. unfold beq. rewrite bool_decide_false, bool_decide_true by (done || by eexists). done.
  - intros mv mv' (k & e & d & nd & Hke & Hd & R & ->)%Hs (k2 & e2 & d2 & nd2 & Hke2 & Hd2 & R2 & ->)%Hs. cbn. intros E.
    destruct (Hwf _ _ _ Hke Hd) as [Hw Hkd], (Hwf _ _ _ Hke2 Hd2) as [Hw2 Hkd2].
    apply key_fold in E as E'; [|by apply (Rebase_wf from to from_wf to_wf d) | by apply (Rebase_wf from to from_wf to_wf d2)].
    assert (k = k2) as <-.
    { rewrite <- Hkd, <- Hkd2. apply key_fold; [done..|]. by apply (Rebase_fold from to from_wf d d2 nd nd2). }
    congruence.
Qed.
End rename.

#[export] Instance fake_laws {UL : UnicodeLaws U} : UpdateTxLaws fake_tx id keys_ok.
Proof.
  constructor; unfold id.
  - done.
  - done.
  - intros t e t' Hk. cbn. unfold fake_Add. intros H. apply bind_ok in H as (d & Hd%fake_parse_ok & H). exists d.
    destruct (t !! _) eqn:E; [done|]. injection H as <-. split_and!; [done..|]. intros Ht. split; [|done].
    apply keys_insert; [done | by eapply ParseDN_wf_aux | done].
  - intros t e t' Hk. cbn. unfold fake_Replace. intros H. apply bind_ok in H as (d & Hd%fake_parse_ok & H). exists d.
    destruct (t !! _) eqn:E; [|done]. injection H as <-. split_and!; [done..|]. intros Ht. split; [|done].
    apply keys_insert; [done | by eapply ParseDN_wf_aux | done].
  - intros t d t' Hk _ H. cbn in H. unfold fake_Delete in H. destruct (t !! FoldedKey d) eqn:E; [|done].
    destruct (existsb _ _) eqn:Ee; [done|]. injection H as <-. split_and!; [done | | done |].
    { intros k e' [_ Hk']%lookup_delete_Some. by apply Hk. }
    intros k e' c p Hke Hc Hp Heq. apply child_key in Hp as [pre Hp].
    destruct (Hk k e' Hke) as (c' & Hc' & <- & _). assert (c' = c) as -> by congruence.
    enough (existsb (λ k, has_suffix k (B "," ++ FoldedKey d)) (map_to_list t).*1 = true) by congruence.
    apply existsb_exists. exists (FoldedKey c). split.
    + apply list_elem_of_In, list_elem_of_fmap. exists (FoldedKey c, e'). split; [done|]. by apply elem_of_map_to_list.
    + apply has_suffix_iff. exists pre. by rewrite Hp, Heq.
  - intros t from to t' Hk Hf Hw Ht _ H. cbn in H. destruct (fake_Rename_renamed t from to Hk Hf Hw t' H) as [Hs Hr].
    split_and!; [by apply (renamed_keys from to t) | done..].
Qed.

End fake.
