(* ===== verification/WriteOps.v ===== *)
(** The write handlers of [src/internal/ldapserver/op_write.go]: [handleAdd],
    [handleModify], [handleDelete], [handleModifyDN] and [handleCompare].

    A handler returns the store it leaves, the responses it sends and its result
    code. *)

From S2P Require Import Prelude GoStrings DN Message Ber Decode Attr Schema Matching FilterEval StoreIface Aci Server Paging Search Write.
Local Open Scope Z_scope.

Section handlers.
Context {U : Unicode} {L : BerLib} {St : Type} {UT : UpdateTx St}.

Variable sv : Server.
(** [s.opts.Plugins]: each runs in the transaction and may fail. *)
Variable plugins : list (St → WriteEvent → res write_err St).
Variable reason : schema_violation → bytes.
(** Whether the context is cancelled when the handler responds. *)
Variable abandoned : bool.
(** The failure of a commit, if any. *)
Variable commit_err : option store_err.
(** [generalizedTime(s.now())] and [s.newEntryUUID()]. *)
Variable now uuid : bytes.
Variable subj : Subject.

(** [Store.Update]: commit when [fn] succeeds, else roll back. *)
Definition Update (st : St) (fn : St → res write_err St) : St * option write_err :=
  match fn st with
  | Err e => (st, Some e)
  | Ok st' =>
    match commit_err with
    | None => (st', None)
    | Some e => (st, Some (WStore e))
    end
  end.

Definition runPlugins (st : St) (ev : WriteEvent) : res write_err St :=
  rfold (λ st p, match p st ev with Ok st' => Ok st' | Err _ => Err WPlugin end) st plugins.

Definition schemaCheckEntry (e : Entry) : res write_err () :=
  match checkEntrySchema (sv_Schema sv) e with
  | Ok _ => Ok ()
  | Err v => Err (WSchema v)
  end.

(** Access decisions inside the transaction. *)
Definition may (st : St) (dn : DN) (attr : bytes) (perm : Permission) : bool :=
  allowed (sv_Schema sv) (sv_ACI sv) (ut_read st) subj dn attr perm.

Definition may_check (st : St) (check : ACICheck) : bool := allowedCheck (sv_ACI sv) (ut_read st) check.

Definition respond (mk : Result → Operation) (res : Result) : list response * Z :=
  (if abandoned then [] else [(mk res, [])], Code res).

Definition success : Result := MkResult ResultSuccess [] [].

Definition finish (mk : Result → Operation) (r : St * option write_err) : St * (list response * Z) :=
  let '(st, err) := r in
  (st, respond mk match err with Some e => mapWriteError reason e | None => success end).

(** * Add *)

Definition add_fn (dn : DN) (attrs : list Attribute) (st : St) : res write_err St :=
  let entry := MkEntry (String dn) attrs in
  _ ← ensure (may st dn [] PermAdd) WDenied;
  _ ← (if isSuffixRoot sv dn then Ok ()
       else
         match parentDN dn with
         | None => Err WInvalidDN
         | Some parent => _ ← lift (tx_Entry (ut_read st) parent); Ok ()
         end);
  _ ← checkClientAttrs (sv_Schema sv) attrs;
  _ ← checkDuplicateAttrTypes attrs;
  _ ← schemaCheckEntry entry;
  let entry := applyAddOpAttrs now uuid entry subj in
  st ← lift (ut_Add st entry);
  runPlugins st (MkWriteEvent WriteAdd None (Some entry)).

Definition handleAdd (st : St) (dn : bytes) (attrs : list Attribute) : St * (list response * Z) :=
  match ParseDN dn with
  | Err _ => (st, respond AddResponse (MkResult ResultInvalidDNSyntax [] (B "invalid entry DN")))
  | Ok d =>
    if negb (inSuffix sv d) then (st, respond AddResponse (MkResult ResultNoSuchObject [] (B "no such suffix")))
    else finish AddResponse (Update st (add_fn d attrs))
  end.

(** * Modify *)

(** The gate of one change. *)
Definition change_gate (st : St) (dn : DN) (ch : ModifyChange) : res write_err () :=
  _ ← ensure (may st dn (Name (ChAttr ch)) PermWrite) WDenied;
  ensure (clientModifiable (sv_Schema sv) (Name (ChAttr ch))) (WOperational (Name (ChAttr ch))).

Definition assertion_holds (st : St) (dn : DN) (e : Entry) (assertion : option Filter) : bool :=
  match assertion with
  | None => true
  | Some f =>
    match matchSearchFilter (may_search sv (ut_read st) subj dn) (sv_Schema sv) e f with
    | filterTrue => true
    | _ => false
    end
  end.

Definition modify_fn (dn : DN) (changes : list ModifyChange) (assertion : option Filter) (st : St) :
    res write_err St :=
  _ ← rmap (change_gate st dn) changes;
  before ← lift (tx_Entry (ut_read st) dn);
  _ ← ensure (assertion_holds st dn before assertion) WAssertionFailed;
  after ← rfold (applyChange (sv_Schema sv)) before changes;
  _ ← schemaCheckEntry after;
  let after := applyModifyOpAttrs now after subj in
  st ← lift (ut_Replace st after);
  runPlugins st (MkWriteEvent WriteModify (Some before) (Some after)).

Definition handleModify (st : St) (controls : list Control) (dn : bytes) (changes : list ModifyChange) :
    St * (list response * Z) :=
  match parseAssertionFilter controls with
  | Err res => (st, respond ModifyResponse res)
  | Ok assertion =>
    match ParseDN dn with
    | Err _ => (st, respond ModifyResponse (MkResult ResultInvalidDNSyntax [] (B "invalid entry DN")))
    | Ok d => finish ModifyResponse (Update st (modify_fn d changes assertion))
    end
  end.

(** * Delete *)

Definition delete_fn (dn : DN) (st : St) : res write_err St :=
  _ ← ensure (may st dn [] PermDelete) WDenied;
  before ← lift (tx_Entry (ut_read st) dn);
  st ← lift (ut_Delete st dn);
  runPlugins st (MkWriteEvent WriteDelete (Some before) None).

Definition handleDelete (st : St) (dn : bytes) : St * (list response * Z) :=
  match ParseDN dn with
  | Err _ => (st, respond DeleteResponse (MkResult ResultInvalidDNSyntax [] (B "invalid entry DN")))
  | Ok d => finish DeleteResponse (Update st (delete_fn d))
  end.

(** * Compare *)

Definition compare_fn (st : St) (dn : DN) (attr value : bytes) : res write_err Z :=
  _ ← ensure (may st dn attr PermCompare) WDenied;
  e ← lift (tx_Entry (ut_read st) dn);
  Ok (if existsb (λ v, Equal_ (Some (sv_Schema sv)) attr v value) (Values e attr)
      then ResultCompareTrue else ResultCompareFalse).

Definition handleCompare (st : St) (dn attr value : bytes) : list response * Z :=
  match ParseDN dn with
  | Err _ => respond CompareResponse (MkResult ResultInvalidDNSyntax [] (B "invalid entry DN"))
  | Ok d =>
    match compare_fn st d attr value with
    | Err e => respond CompareResponse (mapWriteError reason e)
    | Ok c => respond CompareResponse (MkResult c [] [])
    end
  end.

(** * ModifyDN *)

(** The answer for a missing source or superior. *)
Definition missing (st : St) (target : DN) : write_err :=
  if BypassACI subj || may_check st (MkACICheck subj target [] [] PermModDN false true)
  then WStore ErrNoSuchObject else WDenied.

(** [tx.Entry], a missing entry answered by [missing]. *)
Definition entry_or_missing (st : St) (target : DN) : res write_err Entry :=
  match tx_Entry (ut_read st) target with
  | Ok e => Ok e
  | Err ErrNoSuchObject => Err (missing st target)
  | Err e => Err (WStore e)
  end.

(** The maintenance of the RDN values on the moved entry. *)
Definition rename_values (e : Entry) (oldAttr oldVal newAttr newVal : bytes) (deleteOld : bool) : Entry :=
  let m := Some (sv_Schema sv) in
  let e :=
    if deleteOld then
      match attrIndex e oldAttr with
      | Some i => set_values e i (removeMatched m oldAttr (values_at e i) oldVal)
      | None => e
      end
    else e in
  let e := if negb (hasMatched m newAttr (Values e newAttr) newVal) then upsertValue e newAttr newVal else e in
  match attrIndex e oldAttr with
  | Some i => if (length (values_at e i) =? 0)%nat then remove_attr e i else e
  | None => e
  end.

(** The final steps shared by the no-op and the rename. *)
Definition store_renamed (st : St) (before after : Entry) : res write_err St :=
  _ ← schemaCheckEntry after;
  let after := applyModifyOpAttrs now after subj in
  st ← lift (ut_Replace st after);
  runPlugins st (MkWriteEvent WriteRename (Some before) (Some after)).

(** The new name: a move takes the stored spelling of its parent and needs moddn on
    it; a rename needs its parent to exist. *)
Definition new_name (st : St) (newRDN superior : DN) (isMove : bool) : res write_err DN :=
  if isMove then
    sup ← entry_or_missing st superior;
    storedSup ← lift_dn (ParseDN (EDN sup));
    _ ← ensure (may_check st (MkACICheck subj superior [] [] PermModDN false false)) WDenied;
    Ok (joinDN newRDN storedSup)
  else
    _ ← lift (tx_Entry (ut_read st) superior);
    Ok (joinDN newRDN superior).

(** The target is free, unless the rename only respells the entry. *)
Definition target_free (st : St) (dn newDN : DN) : res write_err () :=
  if (FoldedKey newDN =b? FoldedKey dn)%ldap then Ok ()
  else
    match tx_Entry (ut_read st) newDN with
    | Ok _ => Err (WStore ErrEntryExists)
    | Err ErrNoSuchObject => Ok ()
    | Err e => Err (WStore e)
    end.

Definition rename_gates (st : St) (dn : DN) (oldAttr newAttr : bytes) (deleteOld : bool) : res write_err () :=
  _ ← ensure (entryWriteNotDenied (sv_ACI sv) (ut_read st) subj dn) WDenied;
  _ ← ensure (may st dn newAttr PermWrite) WDenied;
  _ ← ensure (negb (deleteOld && negb (may st dn oldAttr PermWrite))) WDenied;
  ensure (clientModifiable (sv_Schema sv) newAttr) (WOperational newAttr).

(** [Leaf], the zero strings for the zero DN. *)
Definition leaf (d : DN) : bytes * bytes := default ([], []) (Leaf d).

Definition modifydn_fn (dn newRDN superior : DN) (isMove deleteOld : bool) (st : St) : res write_err St :=
  let '(oldAttr, oldVal) := leaf dn in
  let '(newAttr, newVal) := leaf newRDN in
  before ← entry_or_missing st dn;
  _ ← ensure (negb (aciTargetScopeA superior dn)) WRenameIntoSubtree;
  _ ← target_free st dn (joinDN newRDN superior);
  newDN ← new_name st newRDN superior isMove;
  _ ← rename_gates st dn oldAttr newAttr deleteOld;
  storedDN ← lift_dn (ParseDN (EDN before));
  if (String newDN =b? String storedDN)%ldap then store_renamed st before before
  else
    st ← lift (ut_Rename st dn newDN);
    after ← lift (tx_Entry (ut_read st) newDN);
    store_renamed st before (rename_values after oldAttr oldVal newAttr newVal deleteOld).

Definition modifydn_refused (code : Z) (diag : bytes) : list response * Z :=
  respond ModifyDNResponse (MkResult code [] diag).

Definition handleModifyDN (st : St) (req : ModifyDNRequest) : St * (list response * Z) :=
  match ParseDN (MDN req) with
  | Err _ => (st, modifydn_refused ResultInvalidDNSyntax (B "invalid entry DN"))
  | Ok dn =>
    match ParseDN (NewRDN req) with
    | Err _ => (st, modifydn_refused ResultInvalidDNSyntax (B "invalid new RDN"))
    | Ok newRDN =>
      if negb (Depth newRDN =? 1)%nat then (st, modifydn_refused ResultInvalidDNSyntax (B "invalid new RDN"))
      else
        let superior :=
          if negb (NewSuperior req =b? [])%ldap then
            match ParseDN (NewSuperior req) with
            | Ok d => inl d
            | Err _ => inr (modifydn_refused ResultInvalidDNSyntax (B "invalid new superior"))
            end
          else
            match parentDN dn with
            | Some p => inl p
            | None => inr (modifydn_refused ResultUnwillingToPerform (B "cannot rename the suffix root"))
            end in
        match superior with
        | inr r => (st, r)
        | inl superior =>
          if isSuffixRoot sv dn then (st, modifydn_refused ResultUnwillingToPerform (B "cannot rename the suffix root"))
          else if negb (inSuffix sv dn) || negb (inSuffix sv superior) then
            (st, modifydn_refused ResultUnwillingToPerform (B "rename must stay within the managed suffix"))
          else
            let parent := default (MkDN []) (parentDN dn) in
            let isMove := negb (FoldedKey superior =b? FoldedKey parent)%ldap in
            if isMove && negb (bool_decide (suffixIndex sv dn = suffixIndex sv superior)) then
              (st, modifydn_refused ResultAffectsMultipleDSAs (B "cannot move entries across suffixes"))
            else
              let superior := if isMove then superior else parent in
              finish ModifyDNResponse (Update st (modifydn_fn dn newRDN superior isMove (DeleteOldRDN req)))
        end
    end
  end.

End handlers.
