(* ===== verification/WriteFacts.v ===== *)
(** Facts of the write path: what one modification does to an entry, exactly when
    a write succeeds and what it then leaves, that a failing write changes nothing and a
    refused one discloses nothing, and what a rename leaves in the naming attributes.  That writes keep the tree of entries
    is in [TreeFacts]. *)

From stdpp Require Import sorting.
From S2P Require Import Prelude GoStrings DN DNFacts Message Ber Decode Attr Schema Matching FilterEval StoreIface Aci Server Paging PagingFacts Search SearchFacts Write FakeStore WriteOps.
Local Open Scope Z_scope.

(** * Attribute lists *)

Section attrs.
Context {U : Unicode}.

Definition named (n : bytes) (a : Attribute) : bool := equal_fold (Name a) n.

(** The values of the first attribute named [n]. *)
Definition vals (n : bytes) (l : list Attribute) : list bytes :=
  match List.find (named n) l with
  | Some a => AttrValues a
  | None => []
  end.

Lemma Values_vals (e : Entry) (n : bytes) : Values e n = vals n (Attributes e).
Proof. done. Qed.

Lemma vals_skip (n : bytes) (l l' : list Attribute) :
  Forall (λ a, named n a = false) l → vals n (l ++ l') = vals n l'.
Proof. induction 1 as [|a l Ha _ IH]; [done|]. unfold vals in *. cbn. by rewrite Ha. Qed.

Lemma vals_none (n : bytes) (l : list Attribute) : Forall (λ a, named n a = false) l → vals n l = [].
Proof. intros H. rewrite <- (app_nil_r l), vals_skip by done. done. Qed.

Lemma vals_cons (n : bytes) (a : Attribute) (l : list Attribute) :
  vals n (a :: l) = if named n a then AttrValues a else vals n l.
Proof. unfold vals. cbn. by destruct (named n a). Qed.

(** The two outcomes of [attrIndex]. *)
Lemma attrIndex_spec (e : Entry) (n : bytes) :
  match attrIndex e n with
  | None => Forall (λ a, named n a = false) (Attributes e)
  | Some i => ∃ l a l', Attributes e = l ++ a :: l' ∧ i = length l ∧ named n a = true ∧
      Forall (λ a, named n a = false) l
  end.
Proof.
  unfold attrIndex. destruct (list_find _ _) as [[i a]|] eqn:E; cbn.
  - apply list_find_Some in E as (Hi & Ha & Hl). exists (take i (Attributes e)), a, (drop (S i) (Attributes e)).
    split_and!; [by rewrite take_drop_middle | | done |].
    + rewrite length_take. apply lookup_lt_Some in Hi. lia.
    + apply Forall_lookup. intros j b Hj. apply lookup_take_Some in Hj as [Hj Hlt].
      apply not_true_iff_false. by eapply Hl.
  - apply list_find_None in E. eapply Forall_impl; [exact E|]. intros b Hb. by apply not_true_iff_false.
Qed.

Lemma values_at_middle (e : Entry) (l l' : list Attribute) (a : Attribute) :
  Attributes e = l ++ a :: l' → values_at e (length l) = AttrValues a.
Proof. intros H. unfold values_at. by rewrite H, list_lookup_middle. Qed.

Lemma set_values_middle (e : Entry) (l l' : list Attribute) (a : Attribute) (vs : list bytes) :
  Attributes e = l ++ a :: l' → set_values e (length l) vs = MkEntry (EDN e) (l ++ MkAttribute (Name a) vs :: l').
Proof. intros H. unfold set_values. rewrite H. f_equal. rewrite <- (Nat.add_0_r (length l)), alter_app_r. done. Qed.

Lemma remove_attr_middle (e : Entry) (l l' : list Attribute) (a : Attribute) :
  Attributes e = l ++ a :: l' → remove_attr e (length l) = MkEntry (EDN e) (l ++ l').
Proof. intros H. unfold remove_attr. rewrite H. f_equal. by rewrite delete_middle. Qed.

Lemma Values_middle (e : Entry) (n : bytes) (l l' : list Attribute) (a : Attribute) :
  Attributes e = l ++ a :: l' → named n a = true → Forall (λ a, named n a = false) l → Values e n = AttrValues a.
Proof. intros H Ha Hl. rewrite Values_vals, H, vals_skip, vals_cons, Ha by done. done. Qed.

(** No two attributes have one name, no two values are equal under a rule. *)
Definition names_differ (a b : Attribute) : Prop := equal_fold (Name a) (Name b) = false.

Definition unique_names (e : Entry) : Prop := StronglySorted names_differ (Attributes e).

Definition values_differ (m : RuleMatcher) (n : bytes) (x y : bytes) : Prop := Equal_ m n x y = false.

Definition distinct (m : RuleMatcher) (n : bytes) (vs : list bytes) : Prop := StronglySorted (values_differ m n) vs.

Context {UL : UnicodeLaws U}.

Lemma equal_fold_sym (a b : bytes) : equal_fold a b = equal_fold b a.
Proof. apply eq_true_iff_eq. split; apply (@Equivalence_Symmetric _ _ equal_fold_equiv). Qed.

Lemma equal_fold_trans (a b c : bytes) : equal_fold a b = true → equal_fold b c = true → equal_fold a c = true.
Proof. apply (@Equivalence_Transitive _ _ equal_fold_equiv). Qed.

(** A name that is not [n] is not the name of an attribute named [n]. *)
Lemma named_other (n n' : bytes) (a : Attribute) :
  equal_fold n n' = false → named n a = true → named n' a = false.
Proof.
  unfold named. intros H Ha. apply not_true_iff_false. intros Hb. rewrite <- not_true_iff_false in H. apply H.
  eapply equal_fold_trans; [|exact Hb]. by rewrite equal_fold_sym.
Qed.

Lemma named_self (n : bytes) (vs : list bytes) : named n (MkAttribute n vs) = true.
Proof. apply equal_fold_refl. Qed.

Lemma unique_middle (e : Entry) (n : bytes) (l l' : list Attribute) (a : Attribute) :
  unique_names e → Attributes e = l ++ a :: l' → named n a = true →
  Forall (λ b, named n b = false) (l ++ l').
Proof.
  unfold unique_names. intros Hu H Ha. rewrite H in Hu. apply StronglySorted_app in Hu as (Hl & _ & Hl').
  inversion Hl' as [|? ? _ Hal]; subst. unfold names_differ in *. apply Forall_app. split; apply Forall_forall; intros b Hb.
  - apply not_true_iff_false. intros Hbn. specialize (Hl b a Hb ltac:(left)). rewrite <- not_true_iff_false in Hl. apply Hl.
    eapply equal_fold_trans; [exact Hbn|]. by rewrite equal_fold_sym.
  - rewrite Forall_forall in Hal. specialize (Hal b Hb).
    apply not_true_iff_false. intros Hbn. rewrite <- not_true_iff_false in Hal. apply Hal.
    eapply equal_fold_trans; [exact Ha|]. by rewrite equal_fold_sym.
Qed.

(** [e'] is [e] with the values of the attribute [n] replaced. *)
Record replaced (n : bytes) (vs : list bytes) (e e' : Entry) : Prop := {
  rep_dn : EDN e' = EDN e;
  rep_values : Values e' n = vs;
  rep_others : ∀ n', equal_fold n n' = false → Values e' n' = Values e n';
  rep_unique : unique_names e';
}.

Lemma replaced_self (e : Entry) (n : bytes) (vs : list bytes) :
  unique_names e → Values e n = vs → replaced n vs e e.
Proof. by split. Qed.

Lemma replaced_set (e : Entry) (n : bytes) (l l' : list Attribute) (a : Attribute) (vs : list bytes) :
  unique_names e → Attributes e = l ++ a :: l' → named n a = true → replaced n vs e (set_values e (length l) vs).
Proof.
  intros Hu H Ha. rewrite (set_values_middle e l l' a vs H).
  pose proof (unique_middle e n l l' a Hu H Ha) as [Hl Hl']%Forall_app. split; [done | | |].
  - rewrite Values_vals. cbn [Attributes]. rewrite vals_skip, vals_cons by done. unfold named in *. cbn [Name]. by rewrite Ha.
  - intros n' Hn. rewrite !Values_vals, H. cbn [Attributes]. clear Hl Hu H. induction l as [|b l IH]; cbn [app].
    + rewrite !vals_cons. by rewrite (named_other n n' a Hn Ha), (named_other n n' (MkAttribute (Name a) vs) Hn Ha).
    + by rewrite !vals_cons, IH.
  - unfold unique_names in *. rewrite H in Hu. cbn [Attributes].
    apply StronglySorted_app in Hu as (Hx & ? & Hs). apply StronglySorted_app. inversion Hs; subst. split_and!; [|done|].
    + intros x y Hxl [->|Hy]%elem_of_cons; [by apply (Hx x a Hxl); left | by apply Hx; [|right]].
    + by constructor.
Qed.

Lemma replaced_remove (e : Entry) (n : bytes) (l l' : list Attribute) (a : Attribute) :
  unique_names e → Attributes e = l ++ a :: l' → named n a = true →
  replaced n [] e (remove_attr e (length l)) ∧ Forall (λ b, named n b = false) (Attributes (remove_attr e (length l))).
Proof.
  intros Hu H Ha. rewrite (remove_attr_middle e l l' a H).
  pose proof (unique_middle e n l l' a Hu H Ha) as Hl. split; [|done]. split; [done | | |].
  - rewrite Values_vals. by apply vals_none.
  - intros n' Hn. rewrite !Values_vals, H. cbn [Attributes]. clear Hl Hu H. induction l as [|b l IH]; cbn [app].
    + by rewrite vals_cons, (named_other n n' a Hn Ha).
    + by rewrite !vals_cons, IH.
  - unfold unique_names in *. rewrite H in Hu. cbn [Attributes].
    apply StronglySorted_app in Hu as (Hx & ? & Hs). inversion Hs; subst. apply StronglySorted_app. split_and!; [|done..].
    intros x y Hxl Hy. apply Hx; [done | by right].
Qed.

Lemma replaced_append (e : Entry) (n : bytes) (vs : list bytes) :
  unique_names e → Forall (λ b, named n b = false) (Attributes e) → replaced n vs e (append_attr e (MkAttribute n vs)).
Proof.
  intros Hu Hn. unfold append_attr. split; [done | | |].
  - rewrite Values_vals. cbn [Attributes]. by rewrite vals_skip, vals_cons, named_self by done.
  - intros n' Hn'. rewrite !Values_vals. cbn [Attributes]. clear Hu Hn. induction (Attributes e) as [|b l IH]; cbn [app].
    + rewrite vals_cons. unfold named. cbn [Name]. by rewrite Hn'.
    + by rewrite !vals_cons, IH.
  - unfold unique_names in *. cbn [Attributes]. apply StronglySorted_app. split_and!; [|done|by repeat constructor].
    intros x y Hx ->%list_elem_of_singleton. rewrite Forall_forall in Hn. by apply Hn in Hx.
Qed.

Lemma replaced_trans (e1 e2 e3 : Entry) (n : bytes) (vs vs' : list bytes) :
  replaced n vs e1 e2 → replaced n vs' e2 e3 → replaced n vs' e1 e3.
Proof. intros [D V O Q] [D' V' O' Q']. split; try congruence. intros n' H. rewrite O', O by done. done. Qed.

(** [setAttr] replaces. *)
Lemma setAttr_replaced (e : Entry) (n : bytes) (vs : list bytes) :
  unique_names e → replaced n vs e (setAttr e n vs).
Proof.
  intros Hu. unfold setAttr. pose proof (attrIndex_spec e n) as H. destruct (attrIndex e n) as [i|].
  - destruct H as (l & a & l' & He & -> & Ha & _). destruct vs; cbn [length Nat.eqb].
    + by apply (replaced_remove e n l l' a).
    + by eapply replaced_set.
  - destruct vs; cbn [length Nat.eqb]; [|by apply replaced_append].
    apply replaced_self; [done|]. rewrite Values_vals. by apply vals_none.
Qed.

(** * Values *)

Lemma distinct_filter (m : RuleMatcher) (n : bytes) (P : bytes → Prop) `{!∀ x, Decision (P x)} (vs : list bytes) :
  distinct m n vs → distinct m n (filter P vs).
Proof.
  unfold distinct. induction 1 as [|x vs _ IH Hx]; [constructor|].
  destruct (decide (P x)); [rewrite filter_cons_True by done | by rewrite filter_cons_False by done].
  constructor; [done|]. apply Forall_forall. intros y [_ Hy]%list_elem_of_filter. rewrite Forall_forall in Hx. by apply Hx.
Qed.

Lemma hasMatched_false (m : RuleMatcher) (n v : bytes) (vs : list bytes) :
  hasMatched m n vs v = false ↔ ∀ x, x ∈ vs → Equal_ m n x v = false.
Proof.
  unfold hasMatched. rewrite <- not_true_iff_false, existsb_exists. split.
  - intros H x Hx. apply not_true_iff_false. intros He. apply H. exists x. by rewrite <- list_elem_of_In.
  - intros H (x & Hx%list_elem_of_In & He). rewrite H in He by done. done.
Qed.

Lemma dedup_spec (m : RuleMatcher) (n : bytes) (vs : list bytes) :
  distinct m n (dedupMatched m n vs) ∧ dedupMatched m n vs ⊆ vs ∧
  ∀ v, v ∈ vs → v ∈ dedupMatched m n vs ∨ hasMatched m n (dedupMatched m n vs) v = true.
Proof.
  unfold dedupMatched. set (step := λ out v, if hasMatched m n out v then out else out ++ [v]).
  assert (H : ∀ out, distinct m n out →
    distinct m n (foldl step out vs) ∧ foldl step out vs ⊆ out ++ vs ∧ out ⊆ foldl step out vs ∧
    ∀ v, v ∈ vs → v ∈ foldl step out vs ∨ hasMatched m n (foldl step out vs) v = true).
  { induction vs as [|v vs IH]; intros out Hout; cbn [foldl].
    - split_and!; [done | set_solver | set_solver | set_solver].
    - destruct (IH (step out v)) as (H1 & H2 & H3 & H4).
      + unfold step. destruct (hasMatched m n out v) eqn:E; [done|]. rewrite hasMatched_false in E.
        apply StronglySorted_app. split_and!; [|done|by repeat constructor].
        intros x y Hx ->%list_elem_of_singleton. by apply E.
      + assert (Hs : step out v ⊆ out ++ [v]) by (unfold step; destruct (hasMatched m n out v); set_solver).
        assert (Hs' : out ⊆ step out v) by (unfold step; destruct (hasMatched m n out v); set_solver).
        split_and!; [done | set_solver | set_solver |].
        intros w [->|Hw]%elem_of_cons; [|by apply H4]. unfold step in H3 |- *.
        destruct (hasMatched m n out v) eqn:E; [right | left; set_solver].
        apply existsb_exists in E as (x & Hx & He). apply existsb_exists. exists x. split; [|done].
        apply list_elem_of_In, H3, list_elem_of_In, Hx. }
  destruct (H [] ltac:(constructor)) as (? & ? & _ & ?). done.
Qed.

(** Removing one after another removes every match. *)
Lemma removed_filter (m : RuleMatcher) (n : bytes) (vs old : list bytes) :
  foldl (removeMatched m n) old vs = filter (λ x, existsb (Equal_ m n x) vs = false) old.
Proof.
  revert old. induction vs as [|v vs IH]; intros old; cbn [foldl existsb].
  - induction old as [|x old IHo]; [done|]. rewrite filter_cons_True by done. by rewrite <- IHo.
  - rewrite IH. unfold removeMatched. rewrite list_filter_filter. apply list_filter_iff. intros x.
    rewrite orb_false_iff. tauto.
Qed.

(** The values an accepted change leaves. *)
Definition changed_values (m : RuleMatcher) (ch : ModifyChange) (old : list bytes) : list bytes :=
  let n := Name (ChAttr ch) in
  let vs := AttrValues (ChAttr ch) in
  if ChOp ch =? ModifyAdd then old ++ dedupMatched m n vs
  else if ChOp ch =? ModifyDelete then
    (if (length vs =? 0)%nat then [] else filter (λ x, existsb (Equal_ m n x) vs = false) old)
  else dedupMatched m n vs.

Lemma applyChange_replaced (s : Schema) (e e' : Entry) (ch : ModifyChange) :
  unique_names e → applyChange s e ch = Ok e' →
  replaced (Name (ChAttr ch)) (changed_values (Some s) ch (Values e (Name (ChAttr ch)))) e e'.
Proof.
  intros Hu. unfold applyChange, changed_values. set (n := Name (ChAttr ch)). set (vs := AttrValues (ChAttr ch)).
  pose proof (attrIndex_spec e n) as H. destruct (ChOp ch =? ModifyAdd).
  { destruct (attrIndex e n) as [i|].
    - destruct H as (l & a & l' & He & -> & Ha & Hl). rewrite (values_at_middle e l l' a He).
      rewrite (Values_middle e n l l' a He Ha Hl). destruct (existsb _ _); [done|]. intros [= <-]. by eapply replaced_set.
    - intros [= <-]. rewrite Values_vals, vals_none by done. by apply replaced_append. }
  destruct (ChOp ch =? ModifyDelete).
  { destruct (attrIndex e n) as [i|]; [|done]. destruct H as (l & a & l' & He & -> & Ha & Hl).
    rewrite (values_at_middle e l l' a He). rewrite (Values_middle e n l l' a He Ha Hl).
    destruct (length vs =? 0)%nat; [intros [= <-]; by eapply replaced_remove|].
    destruct (forallb _ _); [|done]. cbn [negb]. rewrite removed_filter.
    destruct (filter _ (AttrValues a)) as [|x r] eqn:Ef; cbn [length Nat.eqb]; intros [= <-].
    - by eapply replaced_remove.
    - by eapply replaced_set. }
  destruct (ChOp ch =? ModifyReplace); [|done].
  assert (Hr : ∃ e1, e1 = match attrIndex e n with Some i => remove_attr e i | None => e end ∧
    replaced n [] e e1 ∧ Forall (λ b, named n b = false) (Attributes e1)).
  { eexists. split; [done|]. destruct (attrIndex e n) as [i|].
    - destruct H as (l & a & l' & He & -> & Ha & Hl). by eapply replaced_remove.
    - split; [|done]. apply replaced_self; [done|]. rewrite Values_vals. by apply vals_none. }
  destruct Hr as (e1 & <- & Hr & Hn). destruct vs as [|v vs']; cbn [length Nat.eqb]; intros [= <-]; [done|].
  eapply replaced_trans; [exact Hr|]. by apply replaced_append; [apply (rep_unique _ _ _ _ Hr)|].
Qed.

Lemma changed_values_distinct (m : RuleMatcher) (ch : ModifyChange) (old : list bytes) :
  (ChOp ch = ModifyAdd → existsb (hasMatched m (Name (ChAttr ch)) old) (AttrValues (ChAttr ch)) = false) →
  distinct m (Name (ChAttr ch)) old → distinct m (Name (ChAttr ch)) (changed_values m ch old).
Proof.
  intros Hadd Hold. unfold changed_values.
  destruct (dedup_spec m (Name (ChAttr ch)) (AttrValues (ChAttr ch))) as (Hd & Hsub & _).
  destruct (Z.eqb_spec (ChOp ch) ModifyAdd) as [E|_].
  - apply StronglySorted_app. split_and!; [|done..]. intros x v Hx Hv%Hsub. specialize (Hadd E).
    unfold values_differ. apply not_true_iff_false. intros Hq. rewrite <- not_true_iff_false in Hadd. apply Hadd.
    apply existsb_exists. exists v. split; [by apply list_elem_of_In|]. apply existsb_exists. exists x.
    split; [by apply list_elem_of_In | done].
  - destruct (ChOp ch =? ModifyDelete); [|done]. destruct (length _ =? 0)%nat; [constructor|]. by apply distinct_filter.
Qed.

(** When a change is refused. *)
Lemma applyChange_err (s : Schema) (e : Entry) (ch : ModifyChange) (err : write_err) :
  unique_names e → ChOp ch = ModifyAdd ∨ ChOp ch = ModifyDelete ∨ ChOp ch = ModifyReplace →
  applyChange s e ch = Err err →
  ChOp ch = ModifyAdd ∧ err = WAttributeOrValueExists ∧
    (∃ v x, v ∈ AttrValues (ChAttr ch) ∧ x ∈ Values e (Name (ChAttr ch)) ∧ Equal_ (Some s) (Name (ChAttr ch)) x v = true) ∨
  ChOp ch = ModifyDelete ∧ err = WNoSuchAttribute ∧
    (attrIndex e (Name (ChAttr ch)) = None ∨
     ∃ v, v ∈ AttrValues (ChAttr ch) ∧ ∀ x, x ∈ Values e (Name (ChAttr ch)) → Equal_ (Some s) (Name (ChAttr ch)) x v = false).
Proof.
  intros Hu Hop. unfold applyChange. set (n := Name (ChAttr ch)). set (vs := AttrValues (ChAttr ch)).
  pose proof (attrIndex_spec e n) as H. destruct (Z.eqb_spec (ChOp ch) ModifyAdd) as [Ea|Na].
  { destruct (attrIndex e n) as [i|]; [|done]. destruct H as (l & a & l' & He & -> & Ha & Hl).
    rewrite (values_at_middle e l l' a He), (Values_middle e n l l' a He Ha Hl).
    destruct (existsb _ vs) eqn:Ex; [|done]. intros [= <-]. left. split_and!; [done..|].
    apply existsb_exists in Ex as (v & Hv & Hm). apply existsb_exists in Hm as (x & Hx & Hq).
    exists v, x. by rewrite !list_elem_of_In. }
  destruct (Z.eqb_spec (ChOp ch) ModifyDelete) as [Ed|Nd].
  { destruct (attrIndex e n) as [i|].
    - destruct H as (l & a & l' & He & -> & Ha & Hl).
      rewrite (values_at_middle e l l' a He), (Values_middle e n l l' a He Ha Hl).
      destruct (length vs =? 0)%nat; [done|]. destruct (forallb _ vs) eqn:Ef; cbn [negb]; [by destruct (_ =? 0)%nat|].
      intros [= <-]. right. split_and!; [done..|]. right.
      assert (Hf : ¬ Forall (λ v, hasMatched (Some s) n (AttrValues a) v = true) vs).
      { intros Hf. enough (forallb (hasMatched (Some s) n (AttrValues a)) vs = true) by congruence.
        apply forallb_forall. intros v Hv%list_elem_of_In. rewrite Forall_forall in Hf. by apply Hf. }
      apply not_Forall_Exists in Hf; [|intros v; apply _]. apply Exists_exists in Hf as (v & Hv & Hm).
      exists v. split; [done|]. apply hasMatched_false. by apply not_true_iff_false.
    - intros [= <-]. right. split_and!; [done..|]. by left. }
  destruct (Z.eqb_spec (ChOp ch) ModifyReplace); [|naive_solver]. by destruct (length vs =? 0)%nat.
Qed.

Lemma applyChange_add_fresh (s : Schema) (e e' : Entry) (ch : ModifyChange) :
  applyChange s e ch = Ok e' → ChOp ch = ModifyAdd →
  existsb (hasMatched (Some s) (Name (ChAttr ch)) (Values e (Name (ChAttr ch)))) (AttrValues (ChAttr ch)) = false.
Proof.
  unfold applyChange. intros H E. rewrite E in H. cbn [Z.eqb ModifyAdd] in H.
  pose proof (attrIndex_spec e (Name (ChAttr ch))) as Hi. destruct (attrIndex e _) as [i|].
  - destruct Hi as (l & a & l' & He & -> & Ha & Hl).
    rewrite (values_at_middle e l l' a He) in H. rewrite (Values_middle e _ l l' a He Ha Hl). by destruct (existsb _ _).
  - rewrite Values_vals, vals_none by done. clear. by induction (AttrValues (ChAttr ch)).
Qed.

(** An accepted Delete had everything it names. *)
Lemma applyChange_delete_there (s : Schema) (e e' : Entry) (ch : ModifyChange) :
  applyChange s e ch = Ok e' → ChOp ch = ModifyDelete →
  attrIndex e (Name (ChAttr ch)) ≠ None ∧
  Forall (λ v, hasMatched (Some s) (Name (ChAttr ch)) (Values e (Name (ChAttr ch))) v = true) (AttrValues (ChAttr ch)).
Proof.
  unfold applyChange. intros H E. rewrite E in H. cbn [Z.eqb ModifyAdd ModifyDelete] in H.
  pose proof (attrIndex_spec e (Name (ChAttr ch))) as Hi. destruct (attrIndex e _) as [i|]; [|done]. split; [done|].
  destruct Hi as (l & a & l' & He & -> & Ha & Hl). rewrite (values_at_middle e l l' a He) in H. rewrite (Values_middle e _ l l' a He Ha Hl).
  destruct (AttrValues (ChAttr ch)) as [|v vs]; [constructor|]. cbn [length Nat.eqb] in H. destruct (forallb _ _) eqn:Ef; [|done].
  apply Forall_forall. intros x Hx%list_elem_of_In. rewrite forallb_forall in Ef. by apply Ef.
Qed.

(** What is refused, and with which error. *)
Lemma applyChange_refused (s : Schema) (e : Entry) (ch : ModifyChange) (err : write_err) :
  let n := Name (ChAttr ch) in
  ChOp ch = ModifyAdd ∧ err = WAttributeOrValueExists ∧
    (∃ v x, v ∈ AttrValues (ChAttr ch) ∧ x ∈ Values e n ∧ Equal_ (Some s) n x v = true) ∨
  ChOp ch = ModifyDelete ∧ err = WNoSuchAttribute ∧
    (attrIndex e n = None ∨ ∃ v, v ∈ AttrValues (ChAttr ch) ∧ ∀ x, x ∈ Values e n → Equal_ (Some s) n x v = false) →
  unique_names e → applyChange s e ch = Err err.
Proof.
  cbv zeta. intros Hr Hu. destruct (applyChange s e ch) as [e'|err'] eqn:E.
  - exfalso. destruct Hr as [(Ho & _ & v & x & Hv & Hx & Hq)|(Ho & _ & Hr)].
    + pose proof (applyChange_add_fresh s e e' ch E Ho) as Hf. rewrite <- not_true_iff_false in Hf. apply Hf, existsb_exists.
      exists v. split; [by apply list_elem_of_In|]. apply existsb_exists. exists x. split; [by apply list_elem_of_In | done].
    + destruct (applyChange_delete_there s e e' ch E Ho) as [Hi Hall]. destruct Hr as [?|(v & Hv & Hn)]; [done|].
      rewrite Forall_forall in Hall. specialize (Hall v Hv). by apply (proj2 (hasMatched_false _ _ _ _)) in Hn; rewrite Hn in Hall.
  - assert (Hop : ChOp ch = ModifyAdd ∨ ChOp ch = ModifyDelete ∨ ChOp ch = ModifyReplace) by naive_solver.
    destruct (applyChange_err s e ch err' Hu Hop E) as [(H1 & -> & _)|(H1 & -> & _)];
      destruct Hr as [(H2 & -> & _)|(H2 & -> & _)]; first [done | by rewrite H1 in H2].
Qed.

Lemma upsertValue_replaced (e : Entry) (n v : bytes) :
  unique_names e → replaced n (Values e n ++ [v]) e (upsertValue e n v).
Proof.
  intros Hu. unfold upsertValue. pose proof (attrIndex_spec e n) as H. destruct (attrIndex e n) as [i|].
  - destruct H as (l & a & l' & He & -> & Ha & Hl).
    rewrite (values_at_middle e l l' a He), (Values_middle e n l l' a He Ha Hl). by eapply replaced_set.
  - rewrite Values_vals, vals_none by done. by apply replaced_append.
Qed.

(** The last step of a rename drops the old attribute only when it is empty. *)
Lemma drop_empty_replaced (e : Entry) (n : bytes) :
  unique_names e →
  replaced n (Values e n) e
    match attrIndex e n with
    | Some i => if (length (values_at e i) =? 0)%nat then remove_attr e i else e
    | None => e
    end.
Proof.
  intros Hu. pose proof (attrIndex_spec e n) as H. destruct (attrIndex e n) as [i|]; [|by apply replaced_self].
  destruct H as (l & a & l' & He & -> & Ha & Hl). rewrite (values_at_middle e l l' a He).
  destruct (length (AttrValues a) =? 0)%nat eqn:E; [|by apply replaced_self].
  apply Nat.eqb_eq, length_zero_iff_nil in E. rewrite (Values_middle e n l l' a He Ha Hl), E. by eapply replaced_remove.
Qed.

(** Values are looked up by the folded name. *)
Lemma Values_fold (e : Entry) (n n' : bytes) : equal_fold n n' = true → Values e n = Values e n'.
Proof.
  intros H. rewrite !Values_vals. induction (Attributes e) as [|a l IH]; [done|]. rewrite !vals_cons, IH.
  replace (named n' a) with (named n a); [done|]. unfold named. apply eq_true_iff_eq. split; intros Ha.
  - by eapply equal_fold_trans.
  - eapply equal_fold_trans; [exact Ha|]. by rewrite equal_fold_sym.
Qed.

(** Replacing an attribute by its own values changes no values. *)
Lemma replaced_same (e e' : Entry) (n n' : bytes) : replaced n (Values e n) e e' → Values e' n' = Values e n'.
Proof.
  intros [_ V O _]. destruct (equal_fold n n') eqn:E; [|by apply O].
  by rewrite <- (Values_fold e' n n' E), <- (Values_fold e n n' E).
Qed.

(** Names are kept by every entry operation. *)
Lemma setAttr_dn (e : Entry) (n : bytes) (vs : list bytes) : EDN (setAttr e n vs) = EDN e.
Proof. unfold setAttr. by destruct (attrIndex e n), (length vs =? 0)%nat. Qed.

Lemma applyModifyOpAttrs_dn (now : bytes) (e : Entry) (subj : Subject) : EDN (applyModifyOpAttrs now e subj) = EDN e.
Proof. unfold applyModifyOpAttrs. by rewrite !setAttr_dn. Qed.

Lemma applyAddOpAttrs_dn (now uuid : bytes) (e : Entry) (subj : Subject) :
  EDN (applyAddOpAttrs now uuid e subj) = EDN e.
Proof. unfold applyAddOpAttrs. by rewrite !setAttr_dn. Qed.

Lemma applyChange_dn (s : Schema) (e e' : Entry) (ch : ModifyChange) : applyChange s e ch = Ok e' → EDN e' = EDN e.
Proof.
  unfold applyChange. intros H.
  destruct (ChOp ch =? ModifyAdd); [destruct (attrIndex e _); [destruct (existsb _ _)|]; by inv_ok; subst|].
  destruct (ChOp ch =? ModifyDelete).
  - destruct (attrIndex e _); [|done]. destruct (length _ =? 0)%nat; [by inv_ok; subst|].
    destruct (negb _); [done|]. destruct (length _ =? 0)%nat; by inv_ok; subst.
  - destruct (ChOp ch =? ModifyReplace); [|done]. destruct (attrIndex e _), (length _ =? 0)%nat; by inv_ok; subst.
Qed.

Lemma applyChanges_dn (s : Schema) (chs : list ModifyChange) (e e' : Entry) :
  rfold (applyChange s) e chs = Ok e' → EDN e' = EDN e.
Proof.
  revert e. induction chs as [|ch chs IH]; intros e H; cbn in H; [by inv_ok; subst|].
  apply bind_ok in H as (e1 & H1 & H). rewrite (IH e1 H). by eapply applyChange_dn.
Qed.

End attrs.

(** * Handlers *)

Section handlers.
Context {U : Unicode} {UL : UnicodeLaws U} {L : BerLib} {St : Type} {UT : UpdateTx St}.
Variable sv : Server.
Variable plugins : list (St → WriteEvent → res write_err St).
Variable reason : schema_violation → bytes.
Variable abandoned : bool.
Variable commit_err : option store_err.
Variable now uuid : bytes.
Variable subj : Subject.

Lemma mapWriteError_code (e : write_err) : Code (mapWriteError reason e) ≠ ResultSuccess.
Proof. by destruct e as [|[]| | | | | | | | | |]. Qed.

(** A handler that does not answer success left the store as it was, and one that
    does committed what its function computed. *)
Lemma finish_cases mk (st : St) (fn : St → res write_err St) :
  let r := finish reason abandoned mk (Update commit_err st fn) in
  (r.2.2 = ResultSuccess ∧ fn st = Ok r.1) ∨ (r.2.2 ≠ ResultSuccess ∧ r.1 = st).
Proof.
  unfold finish, Update. destruct (fn st) as [st1|e]; [destruct commit_err as [e|]|]; cbn -[mapWriteError];
    [right | by left | right]; (split; [apply mapWriteError_code | done]).
Qed.

(** A response of success, and the store it comes with. *)
Definition succeeds (r : St * (list response * Z)) (st' : St) : Prop := r.2.2 = ResultSuccess ∧ r.1 = st'.

Lemma finish_succeeds mk (st st' : St) (fn : St → res write_err St) :
  succeeds (finish reason abandoned mk (Update commit_err st fn)) st' ↔ commit_err = None ∧ fn st = Ok st'.
Proof.
  unfold succeeds, finish, Update. destruct (fn st) as [st1|e]; [destruct commit_err as [e|]|]; cbn -[mapWriteError].
  - split; [intros [H _]; by apply mapWriteError_code in H | by intros [? _]].
  - split; [intros [_ <-]; done | intros [_ [= <-]]; done].
  - split; [intros [H _]; by apply mapWriteError_code in H | by intros [_ ?]].
Qed.

(** Every answer but a success of the update function leaves the store. *)
Definition answers (r : St * (list response * Z)) (st : St) (fn : St → res write_err St) : Prop :=
  (r.2.2 = ResultSuccess ∧ fn st = Ok r.1) ∨ (r.2.2 ≠ ResultSuccess ∧ r.1 = st).

Lemma handleAdd_cases (st : St) (dn : bytes) (attrs : list Attribute) :
  (∃ d, ParseDN dn = Ok d ∧ inSuffix sv d = true ∧
     answers (handleAdd sv plugins reason abandoned commit_err now uuid subj st dn attrs) st
       (add_fn sv plugins now uuid subj d attrs)) ∨
  ((handleAdd sv plugins reason abandoned commit_err now uuid subj st dn attrs).2.2 ≠ ResultSuccess ∧
   (handleAdd sv plugins reason abandoned commit_err now uuid subj st dn attrs).1 = st).
Proof.
  unfold handleAdd. destruct (ParseDN dn) as [d|]; [|by right]. destruct (inSuffix sv d) eqn:E; [|by right].
  left. exists d. split_and!; [done..|]. apply finish_cases.
Qed.

Lemma handleModify_cases (st : St) (controls : list Control) (dn : bytes) (changes : list ModifyChange) :
  (∃ d assertion, ParseDN dn = Ok d ∧ parseAssertionFilter controls = Ok assertion ∧
     answers (handleModify sv plugins reason abandoned commit_err now subj st controls dn changes) st
       (modify_fn sv plugins now subj d changes assertion)) ∨
  ((handleModify sv plugins reason abandoned commit_err now subj st controls dn changes).2.2 ≠ ResultSuccess ∧
   (handleModify sv plugins reason abandoned commit_err now subj st controls dn changes).1 = st).
Proof.
  unfold handleModify. destruct (parseAssertionFilter controls) as [a|res] eqn:Ea.
  - destruct (ParseDN dn) as [d|]; [|by right]. left. exists d, a. split_and!; [done..|]. apply finish_cases.
  - right. split; [|done]. cbn. unfold parseAssertionFilter, assertion_fail in Ea.
    repeat case_match; try done; injection Ea as <-; done.
Qed.

Lemma handleDelete_cases (st : St) (dn : bytes) :
  (∃ d, ParseDN dn = Ok d ∧
     answers (handleDelete sv plugins reason abandoned commit_err subj st dn) st (delete_fn sv plugins subj d)) ∨
  ((handleDelete sv plugins reason abandoned commit_err subj st dn).2.2 ≠ ResultSuccess ∧
   (handleDelete sv plugins reason abandoned commit_err subj st dn).1 = st).
Proof.
  unfold handleDelete. destruct (ParseDN dn) as [d|]; [|by right]. left. exists d. split_and!; [done..|]. apply finish_cases.
Qed.

(** The names a rename works with, after the checks on the request. *)
Record modifydn_names (req : ModifyDNRequest) (dn newRDN superior : DN) (isMove : bool) : Prop := {
  mdn_entry : ParseDN (MDN req) = Ok dn;
  mdn_rdn : ParseDN (NewRDN req) = Ok newRDN;
  mdn_single : Depth newRDN = 1%nat;
  mdn_superior : if isMove then ParseDN (NewSuperior req) = Ok superior ∨ parentDN dn = Some superior
                 else superior = default (MkDN []) (parentDN dn);
  mdn_requested : ∃ sup, (if (NewSuperior req =b? [])%ldap then parentDN dn = Some sup else ParseDN (NewSuperior req) = Ok sup) ∧
                  FoldedKey superior = FoldedKey sup;
  mdn_not_root : isSuffixRoot sv dn = false;
  mdn_managed : inSuffix sv dn = true;
}.

Lemma handleModifyDN_cases (st : St) (req : ModifyDNRequest) :
  (∃ d newRDN superior isMove, modifydn_names req d newRDN superior isMove ∧
     answers (handleModifyDN sv plugins reason abandoned commit_err now subj st req) st
       (modifydn_fn sv plugins now subj d newRDN superior isMove (DeleteOldRDN req))) ∨
  ((handleModifyDN sv plugins reason abandoned commit_err now subj st req).2.2 ≠ ResultSuccess ∧
   (handleModifyDN sv plugins reason abandoned commit_err now subj st req).1 = st).
Proof.
  unfold handleModifyDN. destruct (ParseDN (MDN req)) as [dn|] eqn:Edn; [|by right].
  destruct (ParseDN (NewRDN req)) as [newRDN|] eqn:Er; [|by right].
  destruct (Depth newRDN =? 1)%nat eqn:H1; [cbn [negb] | by right].
  match goal with |- context [match (if ?b then ?x else ?y) with inl _ => _ | inr _ => _ end] => destruct (if b then x else y) as [superior|res] eqn:Es end;
    [|right; destruct (negb (beq _ _)), (ParseDN (NewSuperior req)), (parentDN dn); by simplify_eq].
  assert (Hs : if (NewSuperior req =b? [])%ldap then parentDN dn = Some superior else ParseDN (NewSuperior req) = Ok superior).
  { destruct (beq (NewSuperior req) []); cbn [negb] in Es; destruct (ParseDN (NewSuperior req)), (parentDN dn); congruence. }
  destruct (isSuffixRoot sv dn) eqn:Hroot; [by right|]. destruct (inSuffix sv dn) eqn:Hin; [|by right]. destruct (inSuffix sv superior); [|by right]. cbn [negb orb].
  destruct (_ && _); [by right|]. left. eexists dn, newRDN, _, _. split; [|apply finish_cases].
  destruct (beq (FoldedKey superior) _) eqn:Eb; cbn [negb].
  all: apply Nat.eqb_eq in H1; split; try done.
  - exists superior. split; [done|]. apply beq_true in Eb. by rewrite Eb.
  - destruct (beq (NewSuperior req) []); [by right | by left].
  - by exists superior.
Qed.

End handlers.

Lemma lift_ok {A} (r : res store_err A) (a : A) : lift r = Ok a ↔ r = Ok a.
Proof. destruct r; cbn; naive_solver. Qed.

(** * Access decisions of a successful Modify *)

Section modify.
Context {U : Unicode} {St : Type} {UT : UpdateTx St}.
Variable sv : Server.
Variable plugins : list (St → WriteEvent → res write_err St).
Variable now : bytes.
Variable subj : Subject.

Lemma change_gate_ok (st : St) (d : DN) (ch : ModifyChange) (u : ()) :
  change_gate sv subj st d ch = Ok u ↔
  may sv subj st d (Name (ChAttr ch)) PermWrite = true ∧ clientModifiable (sv_Schema sv) (Name (ChAttr ch)) = true.
Proof.
  unfold change_gate. destruct (may _ _ _ _ _ _); cbn; [|naive_solver].
  destruct (clientModifiable _ _), u; cbn; naive_solver.
Qed.

(** The steps of a successful Modify. *)
Record modified (d : DN) (changes : list ModifyChange) (assertion : option Filter) (st st' : St)
    (before after : Entry) : Prop := {
  mod_gates : ∀ ch, ch ∈ changes →
    may sv subj st d (Name (ChAttr ch)) PermWrite = true ∧ clientModifiable (sv_Schema sv) (Name (ChAttr ch)) = true;
  mod_before : tx_Entry (ut_read st) d = Ok before;
  mod_assertion : assertion_holds sv subj st d before assertion = true;
  mod_after : rfold (applyChange (sv_Schema sv)) before changes = Ok after;
  mod_schema : checkEntrySchema (sv_Schema sv) after = Ok ();
  mod_stored : ∃ st1, ut_Replace st (applyModifyOpAttrs now after subj) = Ok st1 ∧
    runPlugins plugins st1 (MkWriteEvent WriteModify (Some before) (Some (applyModifyOpAttrs now after subj))) = Ok st';
}.

Lemma modify_fn_ok (d : DN) (changes : list ModifyChange) (assertion : option Filter) (st st' : St) :
  modify_fn sv plugins now subj d changes assertion st = Ok st' ↔
  ∃ before after, modified d changes assertion st st' before after.
Proof.
  unfold modify_fn. split.
  - intros H. apply bind_ok in H as (us & Hg & H). apply bind_ok in H as (before & Hb & H).
    apply bind_ok in H as ([] & Ha & H). apply bind_ok in H as (after & Hc & H).
    apply bind_ok in H as ([] & Hs & H). apply bind_ok in H as (st1 & Hr & H). apply lift_ok in Hb. apply lift_ok in Hr.
    exists before, after. split; try done.
    + intros ch Hch. apply rmap_ok in Hg. apply list_elem_of_lookup in Hch as [i Hi].
      destruct (Forall2_lookup_l _ _ _ _ _ Hg Hi) as (u & _ & Hu). by apply change_gate_ok in Hu.
    + by apply ensure_ok in Ha.
    + unfold schemaCheckEntry in Hs. destruct (checkEntrySchema _ _) as [[]|]; done.
    + by exists st1.
  - intros (before & after & [Hg Hb Ha Hc Hs (st1 & Hr & Hp)]).
    rewrite (rmap_pure _ (λ _, ())) by (apply Forall_forall; intros ch Hch; by apply change_gate_ok, Hg).
    cbn [mbind res_bind]. rewrite Hb. cbn [lift mbind res_bind]. rewrite Ha. cbn [ensure mbind res_bind]. rewrite Hc.
    cbn [mbind res_bind]. unfold schemaCheckEntry. rewrite Hs. cbn [mbind res_bind]. rewrite Hr. done.
Qed.

(** The steps of a successful Add. *)
Record added (d : DN) (attrs : list Attribute) (uuid : bytes) (st st' : St) : Prop := {
  ad_suffix : inSuffix sv d = true;
  ad_gate : may sv subj st d [] PermAdd = true;
  ad_parent : isSuffixRoot sv d = true ∨ ∃ parent e, parentDN d = Some parent ∧ tx_Entry (ut_read st) parent = Ok e;
  ad_client : Forall (λ a, clientModifiable (sv_Schema sv) (Name a) = true) attrs;
  ad_types : NoDup ((λ a, to_lower (Name a)) <$> attrs);
  ad_schema : checkEntrySchema (sv_Schema sv) (MkEntry (String d) attrs) = Ok ();
  ad_stored : let e := applyAddOpAttrs now uuid (MkEntry (String d) attrs) subj in
    ∃ st1, ut_Add st e = Ok st1 ∧ runPlugins plugins st1 (MkWriteEvent WriteAdd None (Some e)) = Ok st';
}.

Lemma duplicate_type_none (attrs : list Attribute) (seen : gset bytes) :
  duplicate_type seen attrs = None ↔ NoDup ((λ a, to_lower (Name a)) <$> attrs) ∧ Forall (λ a, to_lower (Name a) ∉ seen) attrs.
Proof.
  revert seen. induction attrs as [|a attrs IH]; intros seen; cbn [duplicate_type fmap list_fmap].
  { split; [intros _; split; constructor | done]. }
  rewrite NoDup_cons, Forall_cons. case_bool_decide as Hin; [naive_solver|]. rewrite IH, !Forall_forall, list_elem_of_fmap.
  split; [intros [Hn Hf]; split_and!; [|done..|]|intros [[Hf Hn] [_ Hs]]; split; [done|]].
  - intros (b & Hb & Hbi). apply (Hf b Hbi). set_solver.
  - intros b Hb. specialize (Hf b Hb). set_solver.
  - intros b Hb. specialize (Hs b Hb). apply not_elem_of_union. split; [|done]. intros E%elem_of_singleton. apply Hf. by exists b.
Qed.

Lemma schema_ok (e : Entry) (u : ()) : schemaCheckEntry sv e = Ok u ↔ checkEntrySchema (sv_Schema sv) e = Ok ().
Proof. unfold schemaCheckEntry. destruct u, (checkEntrySchema _ _) as [[]|]; naive_solver. Qed.

Lemma add_fn_ok (d : DN) (attrs : list Attribute) (uuid : bytes) (st st' : St) :
  inSuffix sv d = true → add_fn sv plugins now uuid subj d attrs st = Ok st' ↔ added d attrs uuid st st'.
Proof.
  intros Hin. unfold add_fn. rewrite bind_ok. setoid_rewrite ensure_ok. setoid_rewrite bind_ok. setoid_rewrite bind_ok.
  setoid_rewrite bind_ok. setoid_rewrite bind_ok. setoid_rewrite bind_ok. setoid_rewrite schema_ok. setoid_rewrite lift_ok.
  assert (Hc : ∀ u, checkClientAttrs (sv_Schema sv) attrs = Ok u ↔ Forall (λ a, clientModifiable (sv_Schema sv) (Name a) = true) attrs).
  { intros []. unfold checkClientAttrs. destruct (List.find _ attrs) as [a|] eqn:E.
    - apply List.find_some in E as [Ha%list_elem_of_In Hf]. split; [done|]. rewrite Forall_forall. intros H. specialize (H a Ha). cbv beta in *. by rewrite H in Hf.
    - split; [|done]. intros _. apply Forall_forall. intros a Ha%list_elem_of_In. by apply negb_false_iff, (List.find_none _ _ E). }
  assert (Hd : ∀ u, checkDuplicateAttrTypes attrs = Ok u ↔ NoDup ((λ a, to_lower (Name a)) <$> attrs)).
  { intros []. unfold checkDuplicateAttrTypes. pose proof (duplicate_type_none attrs ∅) as H. destruct (duplicate_type ∅ attrs) as [b|].
    - split; [done|]. intros Hn. assert (Hx : Some b = None) by (apply H; split; [done|]; apply Forall_forall; set_solver). done.
    - split; [|done]. intros _. by apply H. }
  setoid_rewrite Hc. setoid_rewrite Hd.
  assert (Hp : ∀ u : (), (if isSuffixRoot sv d then Ok ()
       else match parentDN d with None => Err WInvalidDN | Some parent => _ ← lift (tx_Entry (ut_read st) parent); Ok () end) = Ok u ↔
    isSuffixRoot sv d = true ∨ ∃ parent e, parentDN d = Some parent ∧ tx_Entry (ut_read st) parent = Ok e).
  { intros []. destruct (isSuffixRoot sv d); [naive_solver|]. destruct (parentDN d) as [q|]; [|naive_solver].
    rewrite bind_ok. setoid_rewrite lift_ok. naive_solver. }
  setoid_rewrite Hp. split.
  - intros (_ & H1 & _ & H2 & _ & H3 & _ & H4 & _ & H5 & st1 & H6 & H7). split; try done. by exists st1.
  - intros [_ H1 H2 H3 H4 H5 (st1 & H6 & H7)]. by do 5 (exists (); split; [done|]); exists st1.
Qed.

(** The steps of a successful Delete. *)
Record removed (d : DN) (st st' : St) (before : Entry) : Prop := {
  rm_gate : may sv subj st d [] PermDelete = true;
  rm_before : tx_Entry (ut_read st) d = Ok before;
  rm_stored : ∃ st1, ut_Delete st d = Ok st1 ∧ runPlugins plugins st1 (MkWriteEvent WriteDelete (Some before) None) = Ok st';
}.

Lemma delete_fn_ok (d : DN) (st st' : St) : delete_fn sv plugins subj d st = Ok st' ↔ ∃ before, removed d st st' before.
Proof.
  unfold delete_fn. rewrite bind_ok. setoid_rewrite ensure_ok. setoid_rewrite bind_ok. setoid_rewrite bind_ok. setoid_rewrite lift_ok. split.
  - intros (_ & H1 & b & H2 & st1 & H3 & H4). exists b. split; try done. by exists st1.
  - intros (b & [H1 H2 (st1 & H3 & H4)]). exists (). split; [done|]. exists b. split; [done|]. by exists st1.
Qed.

(** What a ModifyDN is asked to do, after the checks on the request: the entry, the new
    RDN, the superior the new name goes below and whether that is another one. *)
Record rename_asked (req : ModifyDNRequest) (dn rdn superior : DN) (isMove : bool) : Prop := {
  ra_entry : ParseDN (MDN req) = Ok dn;
  ra_rdn : ParseDN (NewRDN req) = Ok rdn;
  ra_single : Depth rdn = 1%nat;
  ra_root : isSuffixRoot sv dn = false;
  ra_managed : inSuffix sv dn = true;
  ra_superior : ∃ sup, (if (NewSuperior req =b? [])%ldap then parentDN dn = Some sup else ParseDN (NewSuperior req) = Ok sup) ∧
    inSuffix sv sup = true ∧ isMove = negb (FoldedKey sup =b? FoldedKey (default (MkDN []) (parentDN dn)))%ldap ∧
    (isMove = true → suffixIndex sv dn = suffixIndex sv sup) ∧
    superior = if isMove then sup else default (MkDN []) (parentDN dn);
}.

(** The new name: a move goes below the stored spelling of its superior and needs the
    moddn right on it. *)
Definition renamed_as (st : St) (rdn superior : DN) (isMove : bool) (newDN : DN) : Prop :=
  ∃ e, tx_Entry (ut_read st) superior = Ok e ∧
    if isMove then
      ∃ stored, ParseDN (EDN e) = Ok stored ∧ may_check sv st (MkACICheck subj superior [] [] PermModDN false false) = true ∧ newDN = joinDN rdn stored
    else newDN = joinDN rdn superior.

(** An entry passes the schema, is stored with fresh modification marks, and the plugins run. *)
Definition stored_renamed (st : St) (before after : Entry) (st' : St) : Prop :=
  checkEntrySchema (sv_Schema sv) after = Ok () ∧
  let e := applyModifyOpAttrs now after subj in
  ∃ st1, ut_Replace st e = Ok st1 ∧ runPlugins plugins st1 (MkWriteEvent WriteRename (Some before) (Some e)) = Ok st'.

(** The steps of a successful ModifyDN. *)
Record renamed_entry (dn rdn superior : DN) (isMove deleteOld : bool) (st st' : St) (before : Entry) (newDN storedDN : DN) : Prop := {
  rn_before : tx_Entry (ut_read st) dn = Ok before;
  rn_outside : aciTargetScopeA superior dn = false;
  rn_free : FoldedKey (joinDN rdn superior) = FoldedKey dn ∨ tx_Entry (ut_read st) (joinDN rdn superior) = Err ErrNoSuchObject;
  rn_name : renamed_as st rdn superior isMove newDN;
  rn_entry_gate : entryWriteNotDenied (sv_ACI sv) (ut_read st) subj dn = true;
  rn_new_gate : may sv subj st dn (leaf rdn).1 PermWrite = true;
  rn_old_gate : deleteOld = true → may sv subj st dn (leaf dn).1 PermWrite = true;
  rn_client : clientModifiable (sv_Schema sv) (leaf rdn).1 = true;
  rn_stored_name : ParseDN (EDN before) = Ok storedDN;
  rn_stored : if (String newDN =b? String storedDN)%ldap then stored_renamed st before before st'
    else ∃ st1 after, ut_Rename st dn newDN = Ok st1 ∧ tx_Entry (ut_read st1) newDN = Ok after ∧
      stored_renamed st1 before (rename_values sv after (leaf dn).1 (leaf dn).2 (leaf rdn).1 (leaf rdn).2 deleteOld) st';
}.

Lemma lift_dn_ok {A} (x : res field_err A) (a : A) : lift_dn x = Ok a ↔ x = Ok a.
Proof. destruct x; cbn; naive_solver. Qed.

Lemma entry_or_missing_ok (st : St) (d : DN) (e : Entry) : entry_or_missing sv subj st d = Ok e ↔ tx_Entry (ut_read st) d = Ok e.
Proof. unfold entry_or_missing. destruct (tx_Entry _ _) as [|[]]; naive_solver. Qed.

Lemma target_free_ok (st : St) (dn newDN : DN) (u : ()) :
  target_free st dn newDN = Ok u ↔ FoldedKey newDN = FoldedKey dn ∨ tx_Entry (ut_read st) newDN = Err ErrNoSuchObject.
Proof.
  unfold target_free. destruct u, (beq (FoldedKey newDN) _) eqn:E; [apply beq_true in E; naive_solver|].
  apply beq_false in E. destruct (tx_Entry _ _) as [|[]]; naive_solver.
Qed.

Lemma new_name_ok (st : St) (rdn superior newDN : DN) (isMove : bool) :
  new_name sv subj st rdn superior isMove = Ok newDN ↔ renamed_as st rdn superior isMove newDN.
Proof.
  unfold new_name, renamed_as. destruct isMove.
  - rewrite bind_ok. setoid_rewrite entry_or_missing_ok. setoid_rewrite bind_ok. setoid_rewrite lift_dn_ok. setoid_rewrite bind_ok.
    setoid_rewrite ensure_ok. split; [intros (e & ? & d & ? & ? & ? & [= <-]) | intros (e & ? & d & ? & ? & ->)]; exists e; (split; [done|]); exists d; [done|].
    split; [done|]. by exists ().
  - rewrite bind_ok. setoid_rewrite lift_ok. split; intros (e & ? & H); exists e; [injection H as <-|subst]; done.
Qed.

Lemma rename_gates_ok (st : St) (dn : DN) (oa na : bytes) (deleteOld : bool) (u : ()) :
  rename_gates sv subj st dn oa na deleteOld = Ok u ↔
  entryWriteNotDenied (sv_ACI sv) (ut_read st) subj dn = true ∧ may sv subj st dn na PermWrite = true ∧
  (deleteOld = true → may sv subj st dn oa PermWrite = true) ∧ clientModifiable (sv_Schema sv) na = true.
Proof.
  unfold rename_gates. destruct u. destruct (entryWriteNotDenied _ _ _ _); cbn; [|naive_solver]. destruct (may sv subj st dn na PermWrite); cbn; [|naive_solver].
  destruct deleteOld, (may sv subj st dn oa PermWrite); cbn; try (by naive_solver); destruct (clientModifiable _ _); cbn; naive_solver.
Qed.

Lemma store_renamed_ok (st st' : St) (before after : Entry) :
  store_renamed sv plugins now subj st before after = Ok st' ↔ stored_renamed st before after st'.
Proof.
  unfold store_renamed, stored_renamed. rewrite bind_ok. setoid_rewrite schema_ok. setoid_rewrite bind_ok. setoid_rewrite lift_ok.
  split; [intros (_ & ? & ?); by split | intros [? ?]; by exists ()].
Qed.

Lemma modifydn_fn_ok (dn rdn superior : DN) (isMove deleteOld : bool) (st st' : St) :
  modifydn_fn sv plugins now subj dn rdn superior isMove deleteOld st = Ok st' ↔
  ∃ before newDN storedDN, renamed_entry dn rdn superior isMove deleteOld st st' before newDN storedDN.
Proof.
  unfold modifydn_fn. destruct (leaf dn) as [oa ov] eqn:Eo, (leaf rdn) as [na nv] eqn:En. split.
  - intros (before & Hb%entry_or_missing_ok & H)%bind_ok. apply bind_ok in H as ([] & Ho%ensure_ok%negb_true_iff & H).
    apply bind_ok in H as (u1 & Hf%target_free_ok & H). apply bind_ok in H as (newDN & Hn%new_name_ok & H).
    apply bind_ok in H as (u2 & (G1 & G2 & G3 & G4)%rename_gates_ok & H). apply bind_ok in H as (storedDN & Hs%lift_dn_ok & H).
    exists before, newDN, storedDN. split; rewrite ?Eo, ?En; try done. destruct (beq _ _); [by apply store_renamed_ok|].
    apply bind_ok in H as (st1 & Hr%lift_ok & H). apply bind_ok in H as (after & Ha%lift_ok & H). exists st1, after. split_and!; [done..|]. by apply store_renamed_ok.
  - intros (before & newDN & storedDN & [Hb Ho Hf Hn G1 G2 G3 G4 Hs H]). rewrite Eo, En in *. cbn [fst snd] in *.
    apply bind_ok. exists before. split; [by apply entry_or_missing_ok|]. apply bind_ok. exists (). split; [by apply ensure_ok, negb_true_iff|].
    apply bind_ok. exists (). split; [by apply target_free_ok|]. apply bind_ok. exists newDN. split; [by apply new_name_ok|].
    apply bind_ok. exists (). split; [by apply rename_gates_ok|]. apply bind_ok. exists storedDN. split; [by apply lift_dn_ok|].
    destruct (beq _ _); [by apply store_renamed_ok|]. destruct H as (st1 & after & Hr & Ha & H).
    apply bind_ok. exists st1. split; [by apply lift_ok|]. apply bind_ok. exists after. split; [by apply lift_ok | by apply store_renamed_ok].
Qed.
End modify.

(** * Properties *)


Definition add_mail (v : bytes) : ModifyChange := MkModifyChange ModifyAdd (MkAttribute (B "MAIL") [v]).

Definition mail_entry : Entry := MkEntry (B "cn=a,dc=test") [MkAttribute (B "cn") [B "a"]; MkAttribute (B "mail") [B "a@x"]].


Definition suffix_store : gmap bytes Entry := {[B "dc=test" := suffix_entry]}.


(** When the handlers of one name succeed. *)
Section outcomes.
Context {U : Unicode} {L : BerLib} {St : Type} {UT : UpdateTx St}.
Variable sv : Server.
Variable plugins : list (St → WriteEvent → res write_err St).
Variable reason : schema_violation → bytes.
Variable abandoned : bool.
Variable commit_err : option store_err.
Variable now uuid : bytes.
Variable subj : Subject.

Lemma handleAdd_succeeds (st st' : St) (dn : bytes) (attrs : list Attribute) :
  succeeds (handleAdd sv plugins reason abandoned commit_err now uuid subj st dn attrs) st' ↔
  commit_err = None ∧ ∃ d, ParseDN dn = Ok d ∧ added sv plugins now subj d attrs uuid st st'.
Proof.
  unfold handleAdd. destruct (ParseDN dn) as [d|]; [|split; [by intros [? _] | by intros (_ & ? & ? & _)]].
  destruct (inSuffix sv d) eqn:E; cbn [negb].
  - rewrite finish_succeeds, add_fn_ok by done. naive_solver.
  - split; [by intros [? _]|]. intros (_ & d' & [= <-] & []). congruence.
Qed.

Lemma handleModify_succeeds (st st' : St) (controls : list Control) (dn : bytes) (changes : list ModifyChange) :
  succeeds (handleModify sv plugins reason abandoned commit_err now subj st controls dn changes) st' ↔
  commit_err = None ∧ ∃ d assertion before after, ParseDN dn = Ok d ∧ parseAssertionFilter controls = Ok assertion ∧
    modified sv plugins now subj d changes assertion st st' before after.
Proof.
  destruct (handleModify_cases sv plugins reason abandoned commit_err now subj st controls dn changes) as [(d & a & Hd & Ha & _)|[Hn _]].
  - unfold handleModify. rewrite Hd, Ha, finish_succeeds, modify_fn_ok. naive_solver.
  - split; [by intros [? _]|]. intros (-> & d & a & b & c & Hd & Ha & Hm). exfalso. apply Hn. unfold handleModify. rewrite Hd, Ha.
    apply (finish_succeeds reason abandoned None ModifyResponse st st'). split; [done|]. apply modify_fn_ok. by exists b, c.
Qed.

Lemma handleDelete_succeeds (st st' : St) (dn : bytes) :
  succeeds (handleDelete sv plugins reason abandoned commit_err subj st dn) st' ↔
  commit_err = None ∧ ∃ d before, ParseDN dn = Ok d ∧ removed sv plugins subj d st st' before.
Proof.
  unfold handleDelete. destruct (ParseDN dn) as [d|]; [|split; [by intros [? _] | by intros (_ & ? & ? & ? & _)]].
  rewrite finish_succeeds, delete_fn_ok. naive_solver.
Qed.
End outcomes.

(** The request of a ModifyDN, and what becomes of it. *)
Lemma handleModifyDN_succeeds {U : Unicode} {L : BerLib} {St : Type} {UT : UpdateTx St} (sv : Server)
    (plugins : list (St → WriteEvent → res write_err St)) (reason : schema_violation → bytes) (abandoned : bool)
    (commit_err : option store_err) (now : bytes) (subj : Subject) (st st' : St) (req : ModifyDNRequest) :
  succeeds (handleModifyDN sv plugins reason abandoned commit_err now subj st req) st' ↔
  commit_err = None ∧ ∃ dn rdn superior isMove, rename_asked sv req dn rdn superior isMove ∧
    modifydn_fn sv plugins now subj dn rdn superior isMove (DeleteOldRDN req) st = Ok st'.
Proof.
  assert (Hno : ∀ code diag, code ≠ ResultSuccess → ¬ succeeds (st, modifydn_refused abandoned code diag) st').
  { intros code diag Hc [H _]. done. }
  unfold handleModifyDN. destruct (ParseDN (MDN req)) as [dn|] eqn:Edn; [|split; [by intros ?%Hno | intros (_ & ? & ? & ? & ? & [] & _); congruence]].
  destruct (ParseDN (NewRDN req)) as [rdn|] eqn:Er; [|split; [by intros ?%Hno | intros (_ & ? & ? & ? & ? & [] & _); congruence]].
  destruct (Depth rdn =? 1)%nat eqn:H1; cbn [negb]; [|split; [by intros ?%Hno | intros (_ & ? & ? & ? & ? & [] & _); apply Nat.eqb_neq in H1; congruence]].
  apply Nat.eqb_eq in H1.
  match goal with |- context [match ?x with inl _ => _ | inr _ => _ end] => destruct x as [sup|out] eqn:Es end.
  2: { split.
    - destruct (negb _); [destruct (ParseDN (NewSuperior req)) | destruct (parentDN dn)]; try done; injection Es as <-; by intros ?%Hno.
    - intros (_ & dn' & rdn' & sp & mv & [A1 A2 _ _ _ (q & Hq & _)] & _). assert (dn' = dn) as -> by congruence.
      destruct (beq _ _); cbn [negb] in Es; by rewrite Hq in Es. }
  assert (Hs : if (NewSuperior req =b? [])%ldap then parentDN dn = Some sup else ParseDN (NewSuperior req) = Ok sup).
  { destruct (beq _ _); cbn [negb] in Es; [destruct (parentDN dn) | destruct (ParseDN (NewSuperior req))]; congruence. }
  assert (Hq : ∀ dn' q, ParseDN (MDN req) = Ok dn' → (if (NewSuperior req =b? [])%ldap then parentDN dn' = Some q else ParseDN (NewSuperior req) = Ok q) → dn' = dn ∧ q = sup).
  { intros dn' q Hd Hq. assert (dn' = dn) as -> by congruence. split; [done|]. destruct (beq _ _); congruence. }
  destruct (isSuffixRoot sv dn) eqn:Hroot.
  { split; [by intros ?%Hno|]. intros (_ & dn' & ? & ? & ? & [A1 _ _ A4 _ (q & Hq' & _)] & _). destruct (Hq _ _ A1 Hq') as [-> ->]. congruence. }
  destruct (inSuffix sv dn) eqn:Hin; cbn [negb orb].
  2: { split; [by intros ?%Hno|]. intros (_ & dn' & ? & ? & ? & [A1 _ _ _ A5 (q & Hq' & _)] & _). destruct (Hq _ _ A1 Hq') as [-> ->]. congruence. }
  destruct (inSuffix sv sup) eqn:Hsin; cbn [negb].
  2: { split; [by intros ?%Hno|]. intros (_ & dn' & ? & ? & ? & [A1 _ _ _ _ (q & Hq' & A6 & _)] & _). destruct (Hq _ _ A1 Hq') as [-> ->]. congruence. }
  set (mv := negb (beq (FoldedKey sup) _)). destruct (mv && negb (bool_decide (suffixIndex sv dn = suffixIndex sv sup))) eqn:Hx.
  { split; [by intros ?%Hno|]. intros (_ & dn' & ? & ? & ? & [A1 _ _ _ _ (q & Hq' & _ & -> & A8 & _)] & _). destruct (Hq _ _ A1 Hq') as [-> ->].
    apply andb_true_iff in Hx as [Hm Hb]. apply negb_true_iff, bool_decide_eq_false in Hb. exfalso. by apply Hb, A8. }
  rewrite finish_succeeds. apply and_iff_compat_l. split.
  - intros H. exists dn, rdn, (if mv then sup else default (MkDN []) (parentDN dn)), mv. split; [|done]. split; try done. exists sup. split_and!; try done.
    intros Hm. rewrite Hm in Hx. cbn in Hx. by apply negb_false_iff, bool_decide_eq_true in Hx.
  - intros (dn' & rdn' & sp & m' & [A1 A2 _ _ _ (q & Hq' & _ & Em & _ & Esp)] & H). destruct (Hq _ _ A1 Hq') as [-> ->].
    assert (rdn' = rdn) as -> by congruence. by subst.
Qed.

(** C29.  When a write succeeds, and what it then does.  An Add, Modify, Delete or ModifyDN
    answers success exactly when the request is well-formed, every permission it needs is
    granted, no operational attribute is named, the entries it relies on are there and
    those it would collide with are not, the entry it leaves satisfies the schema, the
    store takes it, every plugin accepts it and the commit goes through; the store then is
    the one those steps leave.  With any other answer the store is as it was. *)
Theorem writes_exact {U : Unicode} {L : BerLib} {St : Type} {UT : UpdateTx St} (sv : Server)
    (plugins : list (St → WriteEvent → res write_err St)) (reason : schema_violation → bytes) (abandoned : bool)
    (commit_err : option store_err) (now uuid : bytes) (subj : Subject) (st : St) :
  let spec (r : St * (list response * Z)) (steps : St → Prop) :=
    (∀ st', succeeds r st' ↔ commit_err = None ∧ steps st') ∧ (r.2.2 ≠ ResultSuccess → r.1 = st) in
  (∀ dn attrs, spec (handleAdd sv plugins reason abandoned commit_err now uuid subj st dn attrs)
     (λ st', ∃ d, ParseDN dn = Ok d ∧ added sv plugins now subj d attrs uuid st st')) ∧
  (∀ controls dn changes, spec (handleModify sv plugins reason abandoned commit_err now subj st controls dn changes)
     (λ st', ∃ d assertion before after, ParseDN dn = Ok d ∧ parseAssertionFilter controls = Ok assertion ∧
        modified sv plugins now subj d changes assertion st st' before after)) ∧
  (∀ dn, spec (handleDelete sv plugins reason abandoned commit_err subj st dn)
     (λ st', ∃ d before, ParseDN dn = Ok d ∧ removed sv plugins subj d st st' before)) ∧
  (∀ req, spec (handleModifyDN sv plugins reason abandoned commit_err now subj st req)
     (λ st', ∃ dn rdn superior isMove before newDN storedDN, rename_asked sv req dn rdn superior isMove ∧
        renamed_entry sv plugins now subj dn rdn superior isMove (DeleteOldRDN req) st st' before newDN storedDN)).
Proof.
  cbv zeta. split_and!; intros; split.
  - intros st'. by apply handleAdd_succeeds.
  - intros H. by destruct (handleAdd_cases sv plugins reason abandoned commit_err now uuid subj st dn attrs) as [(d & _ & _ & [[? _]|[_ ?]])|[_ ?]].
  - intros st'. by apply handleModify_succeeds.
  - intros H. by destruct (handleModify_cases sv plugins reason abandoned commit_err now subj st controls dn changes) as [(d & a & _ & _ & [[? _]|[_ ?]])|[_ ?]].
  - intros st'. by apply handleDelete_succeeds.
  - intros H. by destruct (handleDelete_cases sv plugins reason abandoned commit_err subj st dn) as [(d & _ & [[? _]|[_ ?]])|[_ ?]].
  - intros st'. rewrite handleModifyDN_succeeds. apply and_iff_compat_l. setoid_rewrite modifydn_fn_ok. split.
    + intros (dn & rdn & sup & mv & Ha & b & n & d & H). by exists dn, rdn, sup, mv, b, n, d.
    + intros (dn & rdn & sup & mv & b & n & d & Ha & H). exists dn, rdn, sup, mv. split; [done|]. by exists b, n, d.
  - intros H. by destruct (handleModifyDN_cases sv plugins reason abandoned commit_err now subj st req) as [(d & rd & sp & mv & _ & [[? _]|[_ ?]])|[_ ?]].
Qed.

(** The Directory Manager deletes the suffix entry; nobody may. *)
Lemma writes_exact_witness :
  (∃ d before, ParseDN (U := ascii_unicode) (B "dc=test") = Ok d ∧
     removed (U := ascii_unicode) (UT := fake_tx (U := ascii_unicode)) sample_sv [] (MkSubject (MkDN []) false true) d suffix_store ∅ before) ∧
  (handleDelete (U := ascii_unicode) (UT := fake_tx (U := ascii_unicode)) sample_sv [] (λ _, []) false None nobody
     suffix_store (B "dc=test")).1 = suffix_store.
Proof.
  split.
  - refine (proj2 (proj1 (proj1 (proj1 (proj2 (proj2 (writes_exact (U := ascii_unicode) (L := toy_ber) (UT := fake_tx (U := ascii_unicode)) sample_sv []
      (λ _, []) false None (B "now") (B "id") (MkSubject (MkDN []) false true) suffix_store))) (B "dc=test")) ∅) _)).
    split; vm_compute; reflexivity.
  - refine (proj2 (proj1 (proj2 (proj2 (writes_exact (U := ascii_unicode) (L := toy_ber) (UT := fake_tx (U := ascii_unicode)) sample_sv [] (λ _, []) false
      None (B "now") (B "id") nobody suffix_store))) (B "dc=test")) _).
    vm_compute. discriminate.
Defined.

(** The answer of a refused write. *)
Definition insufficient : Result := MkResult ResultInsufficientAccessRights [] (B "insufficient access").

(** A refusal discloses nothing: without the permission on the name it gives, a
    Delete, Compare, Modify or Add answers insufficientAccessRights whatever the store
    holds under that name, and a Modify does so at its first refused change even if
    the entry is missing or its assertion false. *)
Theorem denied_discloses_nothing {U : Unicode} {L : BerLib} {St : Type} {UT : UpdateTx St} (sv : Server)
    (plugins : list (St → WriteEvent → res write_err St)) (reason : schema_violation → bytes) (abandoned : bool)
    (commit_err : option store_err) (now uuid : bytes) (subj : Subject) (st : St) (dn : bytes) (d : DN) :
  ParseDN dn = Ok d →
  (may sv subj st d [] PermDelete = false →
     handleDelete sv plugins reason abandoned commit_err subj st dn = (st, respond abandoned DeleteResponse insufficient)) ∧
  (∀ attr value, may sv subj st d attr PermCompare = false →
     handleCompare sv reason abandoned subj st dn attr value = respond abandoned CompareResponse insufficient) ∧
  (∀ attrs, inSuffix sv d = true → may sv subj st d [] PermAdd = false →
     handleAdd sv plugins reason abandoned commit_err now uuid subj st dn attrs =
       (st, respond abandoned AddResponse insufficient)) ∧
  (∀ controls assertion pre ch post, parseAssertionFilter controls = Ok assertion →
     (∀ c, c ∈ pre → change_gate sv subj st d c = Ok ()) → may sv subj st d (Name (ChAttr ch)) PermWrite = false →
     handleModify sv plugins reason abandoned commit_err now subj st controls dn (pre ++ ch :: post) =
       (st, respond abandoned ModifyResponse insufficient)).
Proof.
  intros Hd. split_and!.
  - intros Hm. unfold handleDelete, finish, Update, delete_fn. by rewrite Hd, Hm.
  - intros attr value Hm. unfold handleCompare, compare_fn. by rewrite Hd, Hm.
  - intros attrs Hs Hm. unfold handleAdd, finish, Update, add_fn. by rewrite Hd, Hs, Hm.
  - intros cs a pre ch post Ha Hpre Hm. unfold handleModify, finish, Update, modify_fn.
    assert (Hp : Forall (λ c, change_gate sv subj st d c = Ok ()) pre) by (apply Forall_forall; intros c Hc; by apply Hpre).
    rewrite Ha, Hd, rmap_app, (rmap_pure _ (λ _, ()) pre) by exact Hp.
    assert (Hg : change_gate sv subj st d ch = Err WDenied) by (unfold change_gate; by rewrite Hm).
    cbn [rmap mbind res_bind]. by rewrite Hg.
Qed.

Lemma denied_discloses_nothing_witness :
  handleDelete (U := ascii_unicode) (UT := fake_tx (U := ascii_unicode)) sample_sv [] (λ _, []) false None nobody
    suffix_store (B "cn=ghost,dc=test") = (suffix_store, respond false DeleteResponse insufficient).
Proof.
  refine (proj1 (denied_discloses_nothing (U := ascii_unicode) (L := toy_ber) (UT := fake_tx (U := ascii_unicode)) sample_sv []
    (λ _, []) false None (B "now") (B "id") nobody suffix_store (B "cn=ghost,dc=test") (the_dn (B "cn=ghost,dc=test")) _) _);
    vm_compute; reflexivity.
Defined.

Section RenameSteps.
Context {U : Unicode} {UL : UnicodeLaws U} (m : RuleMatcher).

(** The first step of a rename: the old value goes when asked to. *)
Lemma rename_drops (e : Entry) (n v : bytes) (deleteOld : bool) :
  unique_names e →
  ∃ vs, replaced n vs e
      (if deleteOld then
         match attrIndex e n with
         | Some i => set_values e i (removeMatched m n (values_at e i) v)
         | None => e
         end
       else e) ∧ (deleteOld = true → ∀ x, x ∈ vs → Equal_ m n x v = false).
Proof.
  intros Hu. destruct deleteOld; [|exists (Values e n); split; [by apply replaced_self | intros [=]]].
  pose proof (attrIndex_spec e n) as H. destruct (attrIndex e n) as [i|].
  - destruct H as (l & a & l' & He & -> & Ha & Hl). eexists. split; [by eapply replaced_set|].
    intros _ x [Hx _]%list_elem_of_filter. done.
  - exists []. split; [|intros _ x Hx; by apply elem_of_nil in Hx]. apply replaced_self; [done|].
    by rewrite Values_vals, vals_none.
Qed.

(** The second step: the new value is there. *)
Lemma rename_adds (e : Entry) (n v : bytes) :
  unique_names e →
  ∃ ws, replaced n ws e (if negb (hasMatched m n (Values e n) v) then upsertValue e n v else e) ∧
    (ws = Values e n ∨ ws = Values e n ++ [v]) ∧ ∃ x, x ∈ ws ∧ (x = v ∨ Equal_ m n x v = true).
Proof.
  intros Hu. destruct (hasMatched m n (Values e n) v) eqn:Em; cbn [negb].
  - exists (Values e n). split_and!; [by apply replaced_self | by left |].
    apply existsb_exists in Em as (x & Hx & He). exists x. split; [by apply list_elem_of_In | by right].
  - exists (Values e n ++ [v]). split_and!; [by apply upsertValue_replaced | by right |].
    exists v. split; [set_solver | by left].
Qed.

End RenameSteps.

(** What a rename leaves in the naming attributes: a value standing for the new
    RDN; with deleteoldrdn no value equal to the old one but the new value itself; and
    every other attribute as it was. *)
Theorem rename_values_spec {U : Unicode} {UL : UnicodeLaws U} (sv : Server) (e : Entry)
    (oldAttr oldVal newAttr newVal : bytes) (deleteOld : bool) :
  unique_names e →
  let e' := rename_values sv e oldAttr oldVal newAttr newVal deleteOld in
  let eq a x v := Equal_ (Some (sv_Schema sv)) a x v in
  EDN e' = EDN e ∧ unique_names e' ∧
  (∃ x, x ∈ Values e' newAttr ∧ (x = newVal ∨ eq newAttr x newVal = true)) ∧
  (deleteOld = true → ∀ x, x ∈ Values e' oldAttr →
     eq oldAttr x oldVal = false ∨ equal_fold oldAttr newAttr = true ∧ x = newVal) ∧
  (∀ n, equal_fold oldAttr n = false → equal_fold newAttr n = false → Values e' n = Values e n).
Proof.
  intros Hu. cbn zeta. unfold rename_values.
  destruct (rename_drops (Some (sv_Schema sv)) e oldAttr oldVal deleteOld Hu) as (vs & R1 & Hvs).
  set (e1 := if deleteOld then _ else e) in *.
  destruct (rename_adds (Some (sv_Schema sv)) e1 newAttr newVal (rep_unique _ _ _ _ R1)) as (ws & R2 & Hws & x & Hx & Hxv).
  set (e2 := if negb _ then _ else e1) in *.
  pose proof (drop_empty_replaced e2 oldAttr (rep_unique _ _ _ _ R2)) as R3.
  set (e3 := match attrIndex e2 oldAttr with Some _ => _ | None => _ end) in *.
  pose proof (fun n => replaced_same e2 e3 oldAttr n R3) as S3.
  destruct R1 as [D1 V1 O1 _], R2 as [D2 V2 O2 _], R3 as [D3 _ _ U3].
  split_and!; [congruence | done | | |].
  - exists x. by rewrite S3, V2.
  - intros Hdel y Hy. rewrite S3 in Hy. specialize (Hvs Hdel y). destruct (equal_fold oldAttr newAttr) eqn:E.
    + rewrite (Values_fold e2 _ _ E), V2 in Hy. rewrite (Values_fold e1 _ _ E) in V1. rewrite V1 in Hws.
      destruct Hws as [->| ->]; [by left; apply Hvs|].
      apply elem_of_app in Hy as [Hy| ->%list_elem_of_singleton]; [by left; apply Hvs | by right].
    + left. apply Hvs. rewrite O2, V1 in Hy by (by rewrite equal_fold_sym). done.
  - intros n Ho Hn. by rewrite S3, O2, O1.
Qed.

(** Renaming [cn=a] to [cn=b], the old value going. *)
Lemma rename_values_spec_witness :
  EDN (rename_values (U := ascii_unicode) sample_sv mail_entry (B "cn") (B "a") (B "CN") (B "b") true) = EDN mail_entry ∧
  Values (U := ascii_unicode) (rename_values (U := ascii_unicode) sample_sv mail_entry (B "cn") (B "a") (B "CN") (B "b") true)
    (B "cn") = [B "b"].
Proof.
  assert (Hu : unique_names (U := ascii_unicode) mail_entry).
  { repeat constructor. }
  split; [|vm_compute; reflexivity].
  exact (proj1 (rename_values_spec (U := ascii_unicode) (UL := ascii_unicode_laws) sample_sv mail_entry (B "cn") (B "a") (B "CN")
    (B "b") true Hu)).
Defined.

(** * Operational attributes a client reaches under another spelling

    [clientModifiable] looks the whole description up by its lower-case form, while the
    entry operations find attributes by case folding.  U+017F (the long s) is its own
    lower case and folds to [s]; [long_s] is the instance of the Unicode tables that
    knows this one pair beyond ASCII. *)

Definition fold_key (r : Z) : Z := if (r =? 383)%Z then 115%Z else ascii_lower r.

Definition long_s : Unicode := {| rune_lower := ascii_lower; rune_fold := λ a b, (fold_key a =? fold_key b)%Z |}.

(** [createTimestamp] with its [s] replaced by the two octets of U+017F. *)
Definition create_long : bytes := B "createTime" ++ [Byte.xc5; Byte.xbf] ++ B "tamp".

Definition stamped : Entry := MkEntry (B "cn=a,dc=test") [MkAttribute (B "createTimestamp") [B "20240101000000Z"]].

(** Adding a stamp of one's own and deleting the server's, in one Modify. *)
Definition forge_stamp : list ModifyChange :=
  [MkModifyChange ModifyAdd (MkAttribute create_long [B "19700101000000Z"]);
   MkModifyChange ModifyDelete (MkAttribute create_long [B "20240101000000Z"])].

(** The operational attribute itself is refused, its long-s spelling is not, and the
    changes then overwrite the operational attribute. *)
Lemma operational_forged :
  clientModifiable (U := long_s) standard_schema (B "createTimestamp") = false ∧
  clientModifiable (U := long_s) standard_schema create_long = true ∧
  rfold (applyChange (U := long_s) standard_schema) stamped forge_stamp =
    Ok (MkEntry (B "cn=a,dc=test") [MkAttribute (B "createTimestamp") [B "19700101000000Z"]]).
Proof. split_and!; vm_compute; reflexivity. Qed.

(** The identity deny list has the same gap. *)
Lemma forbidden_long_s :
  ForbiddenUserAttr (U := long_s) (B "userPassword") = true ∧
  ForbiddenUserAttr (U := long_s) (B "u" ++ [Byte.xc5; Byte.xbf] ++ B "erPassword") = false.
Proof. split; vm_compute; reflexivity. Qed.

(** An option makes an operational attribute client-writable, though the stored type
    is the operational one. *)
Lemma operational_with_option :
  clientModifiable (U := ascii_unicode) standard_schema (B "memberOf") = false ∧
  clientModifiable (U := ascii_unicode) standard_schema (B "memberOf;x") = true ∧
  d_typ (parseAttrDesc (U := ascii_unicode) (Some standard_schema) (B "memberOf;x")) = B "memberof".
Proof. split_and!; vm_compute; reflexivity. Qed.

(** * Denials a client evades under another spelling of a name

    The store finds an entry by the lower-cased name, the target of an ACI by case
    folding.  U+0130 (dotted capital I) has the lower case [i] and folds to itself
    only; [dotted_i] is the instance of the Unicode tables that knows this rune
    beyond ASCII.  The handlers authorise the name of the request. *)

Definition dotted_i : Unicode := {|
  rune_lower := λ r, if (r =? 304)%Z then 105%Z else ascii_lower r;
  rune_fold := λ a b, (ascii_lower a =? ascii_lower b)%Z;
|}.

(** [cn=admin,dc=test], and the same with its [i] replaced by the octets of U+0130. *)
Definition admin_name : bytes := B "cn=admin,dc=test".

Definition admin_dotted : bytes := B "cn=adm" ++ [Byte.xc4; Byte.xb0] ++ B "n,dc=test".

Definition anyone_deletes (id target : bytes) (deny : bool) : ParsedACI :=
  MkParsedACI id (the_dn target) ACITargetAttrNoneA [] deny [PermDelete] (MkACISubject ACISubjectAnyoneA (MkDN [])).

Definition guarded_sv : Server :=
  MkServer [the_dn (B "dc=test")] DefaultLimits standard_schema
    [anyone_deletes (B "all") (B "dc=test") false; anyone_deletes (B "guard") admin_name true] toy_hmac (B "1").

Definition admin_store : gmap bytes Entry :=
  {[B "dc=test" := suffix_entry; admin_name := MkEntry admin_name [MkAttribute (B "cn") [B "admin"]]]}.

(** Deleting the guarded entry is refused under its own name and done under the
    other spelling. *)
Lemma denial_evaded :
  (handleDelete (U := dotted_i) (UT := fake_tx (U := dotted_i)) guarded_sv [] (λ _, []) false None nobody admin_store
     admin_name).2.2 = ResultInsufficientAccessRights ∧
  handleDelete (U := dotted_i) (UT := fake_tx (U := dotted_i)) guarded_sv [] (λ _, []) false None nobody admin_store
     admin_dotted = ({[B "dc=test" := suffix_entry]}, respond false DeleteResponse success).
Proof. split; vm_compute; reflexivity. Qed.
