(* ===== verification/TreeFacts.v ===== *)
(** The tree of entries: writes keep every entry under its own name with its parent
    present, up to the suffix roots, over any store that satisfies [UpdateTxLaws].

    A rename keeps the tree when the managed suffixes are not nested and the two
    notions of equal names, the store's folded keys and the [EqualFold] of the guard
    against moving an entry below itself, agree on the new superior; outside of that
    it does not ([move_into_subtree]). *)

From S2P Require Import Prelude GoStrings DN DNFacts Message RenameFacts Ber Decode Attr Schema Matching FilterEval StoreIface Aci Server Paging PagingFacts Search SearchFacts Write FakeStore WriteOps WriteFacts.
Local Open Scope Z_scope.

(** * The tree of entries *)

Section tree.
Context {U : Unicode} {UL : UnicodeLaws U} {St : Type} {UT : UpdateTx St}.
Context (contents : St → gmap bytes Entry) (ok : St → Prop) {CL : UpdateTxLaws UT contents ok}.
Variable sv : Server.

(** Every entry is stored under its own name, printed canonically, and is a suffix
    root or has its parent in the store. *)
Definition tree_ok (m : gmap bytes Entry) : Prop :=
  ∀ k e, m !! k = Some e →
    ∃ d, ParseDN (EDN e) = Ok d ∧ FoldedKey d = k ∧ EDN e = String d ∧ no_tab_end d ∧
      (isSuffixRoot sv d = true ∨ ∃ p, Parent d = Some p ∧ is_Some (m !! FoldedKey p)).

(** A state in order: its representation and its tree. *)
Definition good (st : St) : Prop := ok st ∧ tree_ok (contents st).

(** Only the domain matters for parents. *)
Lemma tree_insert (m : gmap bytes Entry) (d : DN) (attrs : list Attribute) :
  tree_ok m → wf_dn d → no_tab_end d →
  (isSuffixRoot sv d = true ∨ ∃ p, Parent d = Some p ∧ is_Some (m !! FoldedKey p)) →
  tree_ok (<[FoldedKey d := MkEntry (String d) attrs]> m).
Proof.
  intros Hm Hw Ht Hp k e [[<- <-]|[Hne Hk]]%lookup_insert_Some.
  - exists d. cbn [EDN]. split_and!; try done; [by apply ParseDN_String_aux|].
    destruct Hp as [?|(p & Hp & Hs)]; [by left|]. right. exists p. split; [done|].
    destruct (decide (FoldedKey p = FoldedKey d)) as [->|]; [by rewrite lookup_insert_eq; eexists | by rewrite lookup_insert_ne].
  - destruct (Hm k e Hk) as (c & ? & ? & ? & ? & Hc). exists c. split_and!; try done.
    destruct Hc as [?|(p & Hpc & Hs)]; [by left|]. right. exists p. split; [done|].
    destruct (decide (FoldedKey p = FoldedKey d)) as [->|]; [by rewrite lookup_insert_eq; eexists | by rewrite lookup_insert_ne].
Qed.

(** Rewriting an entry under the name it is stored with. *)
Lemma tree_replace (st st' : St) (e e0 : Entry) (k : bytes) :
  good st → contents st !! k = Some e0 → EDN e = EDN e0 → ut_Replace st e = Ok st' → good st'.
Proof.
  intros [Hok Hm] Hk Hdn Hr. apply (ut_replace (UpdateTxLaws := CL)) in Hr as (d & Hd & _ & Hr); [|done].
  destruct (Hm k e0 Hk) as (d0 & Hd0 & Hkey & _ & Ht & Hp). rewrite Hdn in Hd. assert (d0 = d) as -> by congruence.
  destruct (Hr Ht) as [Hok' E]. split; [done|]. rewrite E. apply tree_insert; try done. by eapply ParseDN_wf_aux.
Qed.

Lemma tree_add (st st' : St) (d : DN) (attrs : list Attribute) :
  good st → wf_dn d → no_tab_end d → ut_Add st (MkEntry (String d) attrs) = Ok st' →
  (isSuffixRoot sv d = true ∨ ∃ p, Parent d = Some p ∧ is_Some (contents st !! FoldedKey p)) → good st'.
Proof.
  intros [Hok Hm] Hw Ht Ha Hp. apply (ut_add (UpdateTxLaws := CL)) in Ha as (d' & Hd & _ & Ha); [|done]. cbn [EDN Attributes] in *.
  rewrite ParseDN_String_aux in Hd by done. injection Hd as <-. destruct (Ha Ht) as [Hok' E]. split; [done|]. rewrite E.
  by apply tree_insert.
Qed.

Lemma tree_delete (st st' : St) (d : DN) : good st → wf_dn d → ut_Delete st d = Ok st' → good st'.
Proof.
  intros [Hok Hm] Hw Hd. apply (ut_delete (UpdateTxLaws := CL)) in Hd as (_ & Hok' & E & Hleaf); [|done..]. split; [done|]. rewrite E.
  intros k e [Hne Hk]%lookup_delete_Some. destruct (Hm k e Hk) as (c & Hc & ? & ? & ? & Hp). exists c. split_and!; try done.
  destruct Hp as [?|(p & Hp & Hs)]; [by left|]. right. exists p. split; [done|].
  rewrite lookup_delete_ne; [done|]. intros E'. by eapply (Hleaf k e c p).
Qed.

Lemma entry_contents (st : St) (d : DN) (e : Entry) :
  ok st → lift (tx_Entry (ut_read st) d) = Ok e → contents st !! FoldedKey d = Some e.
Proof. intros Hok. rewrite (ut_entry (UpdateTxLaws := CL)) by done. destruct (contents st !! _); cbn; congruence. Qed.

(** Plugins that keep the order. *)
Definition tree_plugin (p : St → WriteEvent → res write_err St) : Prop := ∀ st ev st', good st → p st ev = Ok st' → good st'.

Variable plugins : list (St → WriteEvent → res write_err St).
Hypothesis plugins_ok : Forall tree_plugin plugins.

Lemma tree_plugins (st st' : St) (ev : WriteEvent) : good st → runPlugins plugins st ev = Ok st' → good st'.
Proof.
  unfold runPlugins. revert st. revert plugins_ok. induction plugins as [|p ps IH]; intros Hps st Hm H; cbn in H; [by inv_ok; subst|].
  apply Forall_cons in Hps as [Hp Hps].
  apply bind_ok in H as (st1 & H1 & H). destruct (p st ev) as [st2|] eqn:E; [|done]. injection H1 as <-.
  eapply (IH Hps st2); [by eapply Hp | exact H].
Qed.

Lemma tree_add_fn (now uuid : bytes) (subj : Subject) (d : DN) (attrs : list Attribute) (st st' : St) :
  good st → wf_dn d → no_tab_end d → add_fn sv plugins now uuid subj d attrs st = Ok st' → good st'.
Proof.
  intros Hm Hw Ht H. unfold add_fn in H.
  apply bind_ok in H as ([] & _ & H). apply bind_ok in H as ([] & Hpar & H). apply bind_ok in H as ([] & _ & H).
  apply bind_ok in H as ([] & _ & H). apply bind_ok in H as ([] & _ & H). apply bind_ok in H as (st1 & Ha & H).
  rewrite lift_ok in Ha. eapply tree_plugins; [|exact H].
  set (e := applyAddOpAttrs _ _ _ _) in Ha. assert (He : e = MkEntry (String d) (Attributes e)).
  { pose proof (applyAddOpAttrs_dn now uuid (MkEntry (String d) attrs) subj) as Hdn. subst e.
    destruct (applyAddOpAttrs _ _ _ _). cbn in *. by subst. }
  rewrite He in Ha. eapply tree_add; try done.
  destruct (isSuffixRoot sv d); [by left|right]. rewrite parentDN_aux in Hpar by done.
  destruct (Parent d) as [p|]; [|done]. exists p. split; [done|].
  apply bind_ok in Hpar as (e' & He' & _). apply entry_contents in He'; [by eexists | apply Hm].
Qed.

Lemma tree_modify_fn (now : bytes) (subj : Subject) (d : DN) (changes : list ModifyChange) (assertion : option Filter)
    (st st' : St) :
  good st → modify_fn sv plugins now subj d changes assertion st = Ok st' → good st'.
Proof.
  intros Hm H. unfold modify_fn in H.
  apply bind_ok in H as (us & _ & H). apply bind_ok in H as (before & Hb & H). apply bind_ok in H as ([] & _ & H).
  apply bind_ok in H as (after & Ha & H). apply bind_ok in H as ([] & _ & H). apply bind_ok in H as (st1 & Hr & H).
  rewrite lift_ok in Hr. apply entry_contents in Hb; [|apply Hm]. eapply tree_plugins; [|exact H].
  eapply tree_replace; [exact Hm | exact Hb | | exact Hr]. rewrite applyModifyOpAttrs_dn. by eapply applyChanges_dn.
Qed.

Lemma tree_delete_fn (subj : Subject) (d : DN) (st st' : St) :
  good st → wf_dn d → delete_fn sv plugins subj d st = Ok st' → good st'.
Proof.
  intros Hm Hw H. unfold delete_fn in H.
  apply bind_ok in H as ([] & _ & H). apply bind_ok in H as (before & _ & H). apply bind_ok in H as (st1 & Hd & H).
  rewrite lift_ok in Hd. eapply tree_plugins; [|exact H]. by eapply tree_delete.
Qed.

(** ** Renames *)

(** No managed suffix is below another. *)
Definition flat_suffixes : Prop := ∀ a b, a ∈ suffixes sv → b ∈ suffixes sv → under a b = false.

(** What [EqualFold] misses of [dn] among the ancestors of [superior], folded keys miss too. *)
Definition folds_agree (dn superior : DN) : Prop :=
  ∀ pre suf, rdns superior = pre ++ suf → fold_dn (MkDN suf) = fold_dn dn → EqualFold (MkDN suf) dn = true.

Lemma guard_moved (dn superior : DN) :
  wf_dn dn → wf_dn superior → no_tab_end superior → folds_agree dn superior → aciTargetScopeA superior dn = false → ¬ moved dn superior.
Proof.
  intros Hw Hs Ht Ha Hg. unfold moved. rewrite <- under_suffix by apply Hw. intros (pre & suf & Hd & Hne & Hf).
  rewrite <- not_true_iff_false in Hg. apply Hg, aciTargetScopeA_spec_aux; [done..|]. exists pre, suf. split_and!; [done..|]. by eapply Ha.
Qed.

Lemma inSuffix_under (d : DN) : inSuffix sv d = true → isSuffixRoot sv d = false → ∃ s, s ∈ suffixes sv ∧ under s d = true.
Proof.
  unfold inSuffix, isSuffixRoot, UnderAny. intros (s & Hs%list_elem_of_In & H)%existsb_exists Hr. exists s. split; [done|].
  apply orb_true_iff in H as [He|Hd].
  - rewrite <- not_true_iff_false in Hr. exfalso. apply Hr, existsb_exists. exists s. split; [by apply list_elem_of_In | done].
  - apply IsDescendantOf_iff in Hd as (Hm & pre & Hne & Hd). unfold under. apply andb_true_iff. split.
    + apply Nat.ltb_lt. rewrite Hd, length_app. destruct pre; [done | cbn; lia].
    + apply bool_decide_eq_true. unfold fold_dn. cbn [rdns]. rewrite Hd, fmap_app, length_app.
      replace (length pre + length (rdns s) - length (rdns s))%nat with (length (fold_rdn <$> pre)) by (rewrite length_fmap; lia). apply drop_app_length.
Qed.

Lemma isSuffixRoot_elem (d : DN) : isSuffixRoot sv d = true → d ∈ suffixes sv.
Proof. unfold isSuffixRoot. by intros (b & Hb%list_elem_of_In & ->%Equal_iff)%existsb_exists. Qed.

(** Below a managed name there is no suffix. *)
Lemma below_no_root (dn d : DN) : flat_suffixes → inSuffix sv dn = true → under dn d = true → isSuffixRoot sv d = false.
Proof.
  intros Hflat Hin Hu. apply not_true_iff_false. intros Hd%isSuffixRoot_elem. destruct (isSuffixRoot sv dn) eqn:Hr.
  - apply isSuffixRoot_elem in Hr. by rewrite (Hflat dn d) in Hu.
  - destruct (inSuffix_under dn Hin Hr) as (s & Hs & Hsd). pose proof (under_trans s dn d Hsd Hu) as H. by rewrite (Hflat s d) in H.
Qed.

Lemma tree_rooted (m : gmap bytes Entry) (dn : DN) : tree_ok m → flat_suffixes → inSuffix sv dn = true → rooted m dn.
Proof.
  intros Hm Hflat Hin k e d p Hk Hd Hu Hp. destruct (Hm k e Hk) as (d' & Hd' & _ & _ & _ & Hpar). assert (d' = d) as -> by congruence.
  rewrite (below_no_root dn d) in Hpar by done. destruct Hpar as [|(p' & Hp' & ?)]; [done|]. congruence.
Qed.

(** An entry at a name is, after a rename, at the name it was moved to. *)
Lemma renamed_at (from to p : DN) (m m' : gmap bytes Entry) :
  tree_ok m → wf_dn from → wf_dn to → wf_dn p → renamed from to m m' → is_Some (m !! FoldedKey p) → is_Some (m' !! FoldedKey (relocate from to p)).
Proof.
  intros Hm Hf Ht Hp Hr [ep Hep]. destruct (Hm _ _ Hep) as (dp & Hdp & Hkey & _). pose proof (ParseDN_wf_aux _ _ Hdp) as Hwp.
  exists (relocate_entry from to dp ep). apply Hr. exists (FoldedKey p), ep, dp. split_and!; [done | done | by apply relocate_key | done].
Qed.

Lemma tree_rename (st st' : St) (dn newDN s : DN) :
  good st → flat_suffixes → inSuffix sv dn = true → isSuffixRoot sv dn = false →
  wf_dn dn → wf_dn newDN → no_tab_end newDN → wf_dn s →
  Parent newDN = Some s → is_Some (contents st !! FoldedKey s) → ¬ moved dn s → ut_Rename st dn newDN = Ok st' →
  good st' ∧ renamed dn newDN (contents st) (contents st').
Proof.
  intros [Hok Hm] Hflat Hin Hr Hw Hwn Htn Hws Hpar Hs Hns H.
  apply (ut_rename (UpdateTxLaws := CL)) in H as (Hok' & _ & Hren); [|done..|by apply tree_rooted]. split; [split; [done|]|done].
  intros k' e' (k & e & d & Hk & Hd & -> & ->)%Hren. destruct (Hm k e Hk) as (d' & Hd' & Hkey & Hdn & Htd & Hp).
  assert (d' = d) as -> by congruence. pose proof (ParseDN_wf_aux _ _ Hd) as Hwd. exists (relocate dn newDN d).
  split_and!; [by apply relocate_name | done | | by apply relocate_tab |].
  - unfold relocate, relocate_entry. by destruct (Rebase d dn newDN).
  - unfold relocate at 1 2. destruct (Rebase d dn newDN) as [nd|] eqn:R; cbn [from_option id].
    + right. assert (Hmv : moved dn d) by (apply (Rebase_moved dn newDN Hw d Hwd); by rewrite R). destruct Hmv as [Hf|Hu].
      * rewrite (Rebase_root dn newDN Hw Hwn d Hwd Hf) in R. injection R as <-. exists s. split; [done|].
        pose proof (renamed_at dn newDN s _ _ Hm Hw Hwn Hws Hren Hs) as Hat. unfold relocate in Hat.
        by rewrite (Rebase_none dn newDN Hw s) in Hat.
      * rewrite (below_no_root dn d) in Hp by done. destruct Hp as [|(p & Hp & Hpm)]; [done|].
        destruct (Rebase_parent dn newDN Hw Hwn d nd p) as (np & Rp & Pp); [done..|]. exists np. split; [done|].
        pose proof (renamed_at dn newDN p _ _ Hm Hw Hwn (parent_wf _ _ Hwd Hp) Hren Hpm) as Hat. unfold relocate in Hat. by rewrite Rp in Hat.
    + destruct Hp as [|(p & Hp & Hpm)]; [by left|]. right. exists p. split; [done|].
      pose proof (renamed_at dn newDN p _ _ Hm Hw Hwn (parent_wf _ _ Hwd Hp) Hren Hpm) as Hat. unfold relocate in Hat.
      rewrite (Rebase_none dn newDN Hw p) in Hat; [done | by eapply parent_wf|]. intros Hmp.
      assert (Hmd : is_Some (Rebase d dn newDN)) by (apply Rebase_moved; [done..|]; right; by eapply moved_below). by rewrite R in Hmd; destruct Hmd.
Qed.

Lemma rename_values_dn (e : Entry) (oa ov na nv : bytes) (del : bool) : EDN (rename_values sv e oa ov na nv del) = EDN e.
Proof. unfold rename_values, upsertValue, set_values, remove_attr. repeat case_match; done. Qed.

Lemma key_not_empty (d : DN) : wf_dn d → FoldedKey d ≠ [].
Proof.
  intros [Hne _]. destruct d as [[|r l]]; [done|]. unfold FoldedKey. cbn [rdns]. rewrite fmap_cons.
  destruct l as [|r' l]; [|rewrite fmap_cons]; unfold rdn_folded at 1; cbn [join]; by destruct (rdn_attr r).
Qed.

Lemma tree_store_renamed (now : bytes) (subj : Subject) (st st' : St) (before after e0 : Entry) k :
  good st → contents st !! k = Some e0 → EDN after = EDN e0 → store_renamed sv plugins now subj st before after = Ok st' → good st'.
Proof.
  intros Hm Hk Hdn H. unfold store_renamed in H. apply bind_ok in H as ([] & _ & H). apply bind_ok in H as (st1 & Hr%lift_ok & H).
  eapply tree_plugins; [|exact H]. eapply tree_replace; [exact Hm | exact Hk | | exact Hr]. by rewrite applyModifyOpAttrs_dn.
Qed.

(** The stored form of the new name's parent. *)
Lemma new_name_parent (subj : Subject) (st : St) (newRDN superior newDN : DN) (isMove : bool) :
  good st → wf_dn superior ∨ superior = MkDN [] → no_tab_end superior → Depth newRDN = 1%nat → wf_dn newRDN → no_tab_end newRDN →
  new_name sv subj st newRDN superior isMove = Ok newDN →
  ∃ s, wf_dn s ∧ no_tab_end s ∧ FoldedKey s = FoldedKey superior ∧ is_Some (contents st !! FoldedKey s) ∧
    wf_dn newDN ∧ no_tab_end newDN ∧ Parent newDN = Some s ∧ Leaf newDN = Leaf newRDN ∧ FoldedKey newDN = FoldedKey (joinDN newRDN superior) ∧
    (isMove = false ∧ s = superior ∨ ∃ k e, contents st !! k = Some e ∧ ParseDN (EDN e) = Ok s).
Proof.
  intros [Hok Hm] Hws Hts H1 Hwr Htr H.
  assert (Hjoin : ∀ s, wf_dn s → no_tab_end s → let j := joinDN newRDN s in wf_dn j ∧ no_tab_end j ∧ Parent j = Some s ∧ Leaf j = Leaf newRDN).
  { intros s Hw Ht. cbn zeta. rewrite joinDN_aux by done. destruct newRDN as [[|r [|r' l]]]; try done. destruct s as [[|r' l]]; [by destruct Hw|].
    destruct Hw as [_ Hw], Hwr as [_ Hwr]. repeat split; try done; by apply Forall_app. }
  assert (Hstored : ∀ e, contents st !! FoldedKey superior = Some e → ∃ d, ParseDN (EDN e) = Ok d ∧ wf_dn d ∧ FoldedKey d = FoldedKey superior ∧ no_tab_end d).
  { intros e He. destruct (Hm _ _ He) as (d & Hd & ? & _ & ? & _). exists d. split_and!; [done | by eapply ParseDN_wf_aux | done..]. }
  unfold new_name in H. destruct isMove.
  - apply bind_ok in H as (sup & Hsup & H). apply bind_ok in H as (s & Hs & H). apply bind_ok in H as ([] & _ & H). injection H as <-.
    assert (He : contents st !! FoldedKey superior = Some sup).
    { unfold entry_or_missing in Hsup. rewrite (ut_entry (UpdateTxLaws := CL)) in Hsup by done. by destruct (contents st !! _); cbn in Hsup; simplify_eq. }
    destruct (Hstored _ He) as (d & Hd & Hwd & Hkey & Htd). unfold lift_dn in Hs. rewrite Hd in Hs. injection Hs as <-. exists d.
    destruct (Hjoin d Hwd Htd) as (? & ? & ? & ?). split_and!; try done; [rewrite Hkey; by eexists | | right; by eexists _, _].
    destruct Hws as [Hws|E]; [|exfalso; apply (key_not_empty d Hwd); by rewrite Hkey, E].
    rewrite !joinDN_aux by done. apply (key_fold d superior) in Hkey; [|done..].
    rewrite !FoldedKey_String, !fold_app. unfold fold_dn in Hkey. congruence.
  - apply bind_ok in H as (sup & He%entry_contents & H); [|done]. injection H as <-. exists superior.
    destruct (Hstored _ He) as (d & _ & Hwd & Hkey & _).
    assert (Hw : wf_dn superior).
    { destruct Hws as [|E]; [done|]. exfalso. apply (key_not_empty d Hwd). by rewrite Hkey, E. }
    destruct (Hjoin superior Hw Hts) as (? & ? & ? & ?). split_and!; try done. by left.
Qed.

(** Where a rename takes an entry: to a free name below an entry outside of what moves. *)
Record rename_target (st : St) (dn newRDN superior newDN : DN) : Prop := {
  rt_leaf : Leaf newDN = Leaf newRDN;
  rt_wf : wf_dn newDN;
  rt_tab : no_tab_end newDN;
  rt_free : FoldedKey newDN = FoldedKey dn ∨ contents st !! FoldedKey newDN = None;
  rt_parent : ∃ s, Parent newDN = Some s ∧ FoldedKey s = FoldedKey superior ∧ wf_dn s ∧ ¬ moved dn s ∧ is_Some (contents st !! FoldedKey s) ∧
    (Parent dn = Some s ∨ ∃ k e, contents st !! k = Some e ∧ ParseDN (EDN e) = Ok s);
}.

(** The two ways a rename ends: only the spelling of the name is looked at, or the
    entry has moved and its naming values follow. *)
Definition rename_ends (now : bytes) (subj : Subject) (dn newRDN superior : DN) (del : bool) (st st' : St) : Prop :=
  ∃ before newDN, contents st !! FoldedKey dn = Some before ∧ rename_target st dn newRDN superior newDN ∧
    (ParseDN (EDN before) = Ok newDN ∧ store_renamed sv plugins now subj st before before = Ok st' ∨
     ∃ st1 after, good st1 ∧ renamed dn newDN (contents st) (contents st1) ∧ contents st1 !! FoldedKey newDN = Some after ∧
       store_renamed sv plugins now subj st1 before (rename_values sv after (leaf dn).1 (leaf dn).2 (leaf newRDN).1 (leaf newRDN).2 del) = Ok st').

Lemma modifydn_fn_ends (now : bytes) (subj : Subject) (dn newRDN superior : DN) (isMove del : bool) (st st' : St) :
  good st → flat_suffixes → inSuffix sv dn = true → isSuffixRoot sv dn = false →
  wf_dn dn → Depth newRDN = 1%nat → wf_dn newRDN → no_tab_end newRDN → wf_dn superior ∨ superior = MkDN [] → no_tab_end superior →
  (aciTargetScopeA superior dn = false → ¬ moved dn superior) →
  (isMove = false → superior = default (MkDN []) (Parent dn)) →
  modifydn_fn sv plugins now subj dn newRDN superior isMove del st = Ok st' → rename_ends now subj dn newRDN superior del st st'.
Proof.
  intros Hm Hflat Hin Hr Hw H1 Hwr Htr Hws Hts Hguard Hstay H. unfold modifydn_fn in H.
  destruct (leaf dn) as [oa ov] eqn:Eo, (leaf newRDN) as [na nv] eqn:El. apply bind_ok in H as (before & Hb & H). apply bind_ok in H as ([] & Hg%ensure_ok & H).
  apply bind_ok in H as ([] & Hfree & H). apply bind_ok in H as (newDN & Hn & H). apply bind_ok in H as ([] & _ & H). apply bind_ok in H as (sdn & Hsdn & H).
  apply negb_true_iff in Hg. unfold rename_ends. rewrite El, Eo. cbn [fst snd].
  assert (He : contents st !! FoldedKey dn = Some before).
  { unfold entry_or_missing in Hb. rewrite (ut_entry (UpdateTxLaws := CL)) in Hb by apply Hm. by destruct (contents st !! _); cbn in Hb; simplify_eq. }
  destruct (new_name_parent _ _ _ _ _ _ Hm Hws Hts H1 Hwr Htr Hn) as (s & Hw' & Ht' & Hkey & Hin' & Hwn & Htn & Hp & Hleaf & Hjk & Hsrc).
  assert (Hns : ¬ moved dn s).
  { intros Hmv. destruct Hws as [Hws|E]; [|apply (key_not_empty s Hw'); by rewrite Hkey, E]. apply (Hguard Hg).
    assert (Ef : fold_dn s = fold_dn superior) by (by apply key_fold). destruct Hmv as [Hf|Hu]; [left; congruence | right].
    by rewrite (under_fold dn dn superior s). }
  exists before, newDN. split_and!; [done| |].
  - split; [done..| |].
    + unfold target_free in Hfree. rewrite <- Hjk in Hfree. destruct (beq (FoldedKey newDN) (FoldedKey dn)) eqn:Eb; [left; by apply beq_true|right].
      rewrite (ut_entry (UpdateTxLaws := CL)) in Hfree by apply Hm. rewrite <- Hjk in Hfree. by destruct (contents st !! FoldedKey newDN).
    + exists s. split_and!; try done. destruct Hsrc as [[Hmv ->]|?]; [left | by right].
      specialize (Hstay Hmv). destruct (Parent dn) as [q|]; [by subst|]. exfalso. rewrite Hstay in Hw'. by destruct Hw'.
  - destruct (beq (String newDN) (String sdn)) eqn:Eb; [left | right].
    + apply beq_true in Eb. destruct (proj2 Hm _ _ He) as (d & Hd & _ & Hdn & _). unfold lift_dn in Hsdn. rewrite Hd in Hsdn. injection Hsdn as <-.
      split; [|done]. rewrite Hdn, <- Eb. by apply ParseDN_String_aux.
    + apply bind_ok in H as (st1 & Hren%lift_ok & H). apply bind_ok in H as (after & Ha & H).
      destruct (tree_rename st st1 dn newDN s) as [Hm1 Hren']; [done..|]. apply entry_contents in Ha; [|apply Hm1]. by exists st1, after.
Qed.

Lemma rename_ends_tree (now : bytes) (subj : Subject) (dn newRDN superior : DN) (del : bool) (st st' : St) :
  good st → rename_ends now subj dn newRDN superior del st st' → good st'.
Proof.
  intros Hm (before & newDN & He & _ & [[_ H]|(st1 & after & Hm1 & _ & Ha & H)]); [by eapply tree_store_renamed|].
  eapply tree_store_renamed; [exact Hm1 | exact Ha | apply rename_values_dn | exact H].
Qed.
End tree.

(** * Requests *)

(** A write request, and what the handler takes from its surroundings. *)
Inductive write_request : Type :=
  | AddOf (dn : bytes) (attrs : list Attribute)
  | ModifyOf (controls : list Control) (dn : bytes) (changes : list ModifyChange)
  | DeleteOf (dn : bytes)
  | RenameOf (req : ModifyDNRequest).

Record write_call : Type := MkWriteCall {
  wc_request : write_request;
  wc_subject : Subject;
  wc_now : bytes;
  wc_uuid : bytes;
  wc_abandoned : bool;
  wc_commit : option store_err;
}.

Section requests.
Context {U : Unicode} {UL : UnicodeLaws U} {L : BerLib} {St : Type} {UT : UpdateTx St}.
Context (contents : St → gmap bytes Entry) (ok : St → Prop) {CL : UpdateTxLaws UT contents ok}.
Variable sv : Server.
Variable plugins : list (St → WriteEvent → res write_err St).
Variable reason : schema_violation → bytes.

(** The state a handler leaves. *)
Definition handle_write (st : St) (c : write_call) : St :=
  let '(MkWriteCall r subj now uuid abandoned commit_err) := c in
  match r with
  | AddOf dn attrs => (handleAdd sv plugins reason abandoned commit_err now uuid subj st dn attrs).1
  | ModifyOf controls dn changes => (handleModify sv plugins reason abandoned commit_err now subj st controls dn changes).1
  | DeleteOf dn => (handleDelete sv plugins reason abandoned commit_err subj st dn).1
  | RenameOf req => (handleModifyDN sv plugins reason abandoned commit_err now subj st req).1
  end.

(** New names end no value in a tab, and the two foldings agree on a new superior. *)
Definition plain_request (r : write_request) : Prop :=
  match r with
  | AddOf dn _ => ∀ d, ParseDN dn = Ok d → no_tab_end d
  | RenameOf req =>
    (∀ s d, s ∈ [MDN req; NewRDN req; NewSuperior req] → ParseDN s = Ok d → no_tab_end d) ∧
    (∀ dn sup, ParseDN (MDN req) = Ok dn → ParseDN (NewSuperior req) = Ok sup → folds_agree dn sup)
  | _ => True
  end.

Hypothesis flat : flat_suffixes sv.

Lemma rename_request_ends (abandoned : bool) (commit_err : option store_err) (now : bytes) (subj : Subject) (st : St) (req : ModifyDNRequest) :
  plain_request (RenameOf req) → good contents ok sv st →
  let out := handleModifyDN sv plugins reason abandoned commit_err now subj st req in
  out.2.2 ≠ ResultSuccess ∧ out.1 = st ∨ ∃ dn newRDN superior, ParseDN (MDN req) = Ok dn ∧ inSuffix sv dn = true ∧ isSuffixRoot sv dn = false ∧
    ParseDN (NewRDN req) = Ok newRDN ∧
    (∃ sup, (if (NewSuperior req =b? [])%ldap then Parent dn = Some sup else ParseDN (NewSuperior req) = Ok sup) ∧ FoldedKey superior = FoldedKey sup) ∧
    rename_ends contents ok sv plugins now subj dn newRDN superior (DeleteOldRDN req) st out.1.
Proof.
  intros [Htab Hfold] Hm. destruct (handleModifyDN_cases sv plugins reason abandoned commit_err now subj st req)
    as [(dn & newRDN & sup & mv & [E R H1 Hs Hq Hr Hin] & [[_ Hf]|[? ?]])|[? ?]]; [|by left..].
  right. exists dn, newRDN, sup.  assert (Hw : wf_dn dn) by (by eapply ParseDN_wf_aux). assert (Ht : no_tab_end dn) by (eapply Htab; [|done]; left).
  rewrite (parentDN_aux dn Hw Ht) in Hs, Hq. split_and!; [done..|].
  assert (Hpar : ∀ p, Parent dn = Some p → wf_dn p ∧ no_tab_end p ∧ ¬ moved dn p).
  { intros p Hp. split_and!; [by eapply parent_wf | by eapply parent_tab|]. apply parent_length in Hp. intros [Hf'|Hu%under_shorter]; [|lia].
    rewrite <- (fold_length p), Hf', fold_length in Hp. lia. }
  assert (Hnew : ParseDN (NewSuperior req) = Ok sup → wf_dn sup ∧ no_tab_end sup ∧ (aciTargetScopeA sup dn = false → ¬ moved dn sup)).
  { intros Hp. assert (Hws : wf_dn sup) by (by eapply ParseDN_wf_aux).
    assert (Hts : no_tab_end sup) by (eapply Htab; [|done]; right; right; left). split_and!; [done..|]. apply guard_moved; try done. by eapply Hfold. }
  eapply (modifydn_fn_ends contents ok sv plugins); [exact Hm | done | done | done | done | done | by eapply ParseDN_wf_aux | eapply Htab; [|done]; right; left | | | | | exact Hf].
  - destruct mv; [|subst sup; destruct (Parent dn) as [p|]; [left; by apply Hpar | by right]].
    left. destruct Hs as [Hs|Hs]; [by apply Hnew | by apply Hpar].
  - destruct mv; [destruct Hs as [Hs|Hs]; [by apply Hnew | by apply Hpar]|]. subst sup. destruct (Parent dn) as [p|]; [by apply Hpar | by constructor].
  - destruct mv; [destruct Hs as [Hs|Hs]; [by apply Hnew | intros _; by apply Hpar]|]. subst sup. intros _.
    destruct (Parent dn) as [p|]; [by apply Hpar|]. cbn. intros [Hf'|Hu%under_shorter]; [|cbn in Hu; lia].
    apply (f_equal (λ d, length (rdns d))) in Hf'. rewrite fold_length in Hf'. destruct Hw as [Hne _]. destruct (rdns dn) eqn:Ed; [done|].
    cbn [from_option id rdns length] in Hf'. rewrite fold_length, Ed in Hf'. done.
  - intros ->. exact Hs.
Qed.

Hypothesis plugins_ok : Forall (tree_plugin contents ok sv) plugins.

(** What one write does to the order of a state. *)
Lemma write_keeps_order (st : St) (c : write_call) :
  plain_request (wc_request c) → good contents ok sv st → good contents ok sv (handle_write st c).
Proof.
  destruct c as [[dn attrs|cs dn chs|dn|req] subj now uuid abandoned commit_err]; cbn [wc_request handle_write]; intros Hp Hm.
  - destruct (handleAdd_cases sv plugins reason abandoned commit_err now uuid subj st dn attrs)
      as [(d & Hd & _ & [[_ Hf]|[_ ->]])|[_ ->]]; try done.
    eapply (tree_add_fn contents ok sv plugins plugins_ok); [exact Hm | by eapply ParseDN_wf_aux | by apply Hp | exact Hf].
  - destruct (handleModify_cases sv plugins reason abandoned commit_err now subj st cs dn chs)
      as [(d & a & _ & _ & [[_ Hf]|[_ ->]])|[_ ->]]; try done. by eapply (tree_modify_fn contents ok sv plugins plugins_ok).
  - destruct (handleDelete_cases sv plugins reason abandoned commit_err subj st dn)
      as [(d & Hd & [[_ Hf]|[_ ->]])|[_ ->]]; try done.
    eapply (tree_delete_fn contents ok sv plugins plugins_ok); [exact Hm | by eapply ParseDN_wf_aux | exact Hf].
  - destruct (rename_request_ends abandoned commit_err now subj st req Hp Hm) as [[_ ->]|(dn & newRDN & sup & _ & _ & _ & _ & _ & H)]; [done|].
    by eapply (rename_ends_tree contents ok sv plugins plugins_ok).
Qed.

(** One write after another. *)
Lemma writes_keep_order (cs : list write_call) (st : St) :
  Forall (λ c, plain_request (wc_request c)) cs → good contents ok sv st → good contents ok sv (foldl handle_write st cs).
Proof.
  intros Hc. revert st. induction Hc as [|c cs Hc _ IH]; intros st Hm; [done|]. apply IH. by apply write_keeps_order.
Qed.
End requests.

(** C22.  The tree stays a tree: over a lawful store, with plugins that keep it and
    managed suffixes that are not nested, any sequence of Add, Modify, Delete and
    ModifyDN requests, whoever sends them and whether or not they succeed, leaves
    every entry under its own name with its parent present, up to the suffix roots,
    and the store's representation in order, provided new names end no value in a tab
    and the two foldings of names agree on new superiors. *)
Theorem writes_keep_tree {U : Unicode} {UL : UnicodeLaws U} {L : BerLib} {St : Type} {UT : UpdateTx St}
    (contents : St → gmap bytes Entry) (ok : St → Prop) {CL : UpdateTxLaws UT contents ok} (sv : Server)
    (plugins : list (St → WriteEvent → res write_err St)) (reason : schema_violation → bytes) (st : St) (cs : list write_call) :
  Forall (tree_plugin contents ok sv) plugins → flat_suffixes sv →
  Forall (λ c, plain_request (wc_request c)) cs → ok st → tree_ok sv (contents st) →
  let st' := foldl (handle_write sv plugins reason) st cs in
  ok st' ∧ tree_ok sv (contents st').
Proof. intros Hp Hflat Hcs Hok Hm. by apply (writes_keep_order contents ok sv). Qed.

Lemma suffix_store_ok : tree_ok (U := ascii_unicode) sample_sv suffix_store.
Proof.
  intros k e H. unfold suffix_store in H. apply lookup_singleton_Some in H as [<- <-]. exists (the_dn (B "dc=test")).
  split_and!; [vm_compute; reflexivity | vm_compute; reflexivity | vm_compute; reflexivity | |].
  - unfold no_tab_end. vm_compute. repeat constructor. discriminate.
  - left. vm_compute. reflexivity.
Qed.

(** Two entries are added under the suffix and one is moved below the other. *)
Definition sample_call (r : write_request) : write_call := MkWriteCall r (MkSubject (MkDN []) false true) (B "now") (B "id") false None.

Definition sample_calls : list write_call := sample_call <$>
  [AddOf (B "ou=a,dc=test") [MkAttribute (B "objectClass") [B "top"; B "organizationalUnit"]; MkAttribute (B "ou") [B "a"]];
   AddOf (B "ou=b,dc=test") [MkAttribute (B "objectClass") [B "top"; B "organizationalUnit"]; MkAttribute (B "ou") [B "b"]];
   RenameOf (MkModifyDNRequest (B "ou=A,dc=test") (B "ou=c") true (B "ou=b,dc=test"))].

Example sample_calls_run :
  (map_to_list (foldl (handle_write (U := ascii_unicode) (L := toy_ber) (UT := fake_tx (U := ascii_unicode)) sample_sv [] (λ _, [])) suffix_store sample_calls)).*1
  = [B "ou=c,ou=b,dc=test"; B "ou=b,dc=test"; B "dc=test"].
Proof. vm_compute. reflexivity. Qed.

Lemma sample_flat : flat_suffixes (U := ascii_unicode) sample_sv.
Proof. intros a b Ha%list_elem_of_singleton Hb%list_elem_of_singleton. subst. vm_compute. reflexivity. Qed.

(** Every name of the calls is plain. *)
Lemma sample_plain : Forall (λ c, plain_request (U := ascii_unicode) (wc_request c)) sample_calls.
Proof.
  assert (Ht : ∀ d, forallb (λ r, bool_decide (last (rdn_value r) ≠ Some c_tab)) (rdns d) = true → no_tab_end d).
  { intros d H. unfold no_tab_end. apply Forall_forall. intros r Hr%list_elem_of_In. rewrite forallb_forall in H. specialize (H r Hr). by apply bool_decide_eq_true in H. }
  unfold sample_calls. cbn [fmap list_fmap]. repeat constructor; cbn [wc_request sample_call plain_request].
  - intros d Hd. vm_compute in Hd. injection Hd as <-. apply Ht. vm_compute. reflexivity.
  - intros d Hd. vm_compute in Hd. injection Hd as <-. apply Ht. vm_compute. reflexivity.
  - cbn [MDN NewRDN NewSuperior]. intros s d Hs Hd. apply Ht.
    repeat (apply elem_of_cons in Hs as [->|Hs]; [vm_compute in Hd; injection Hd as <-; vm_compute; reflexivity|]). by apply not_elem_of_nil in Hs.
  - cbn [MDN NewSuperior]. intros dn sup H1 H2. vm_compute in H1, H2. injection H1 as <-. injection H2 as <-.
    intros [|r [|r' [|r'' pre]]] suf E; cbn in E; simplify_eq; intros Hf; vm_compute in Hf; discriminate.
Qed.

Lemma writes_keep_tree_witness :
  tree_ok (U := ascii_unicode) sample_sv
    (foldl (handle_write (U := ascii_unicode) (L := toy_ber) (UT := fake_tx (U := ascii_unicode)) sample_sv [] (λ _, [])) suffix_store sample_calls).
Proof.
  assert (Hk : keys_ok (U := ascii_unicode) suffix_store).
  { intros k e H. destruct (suffix_store_ok k e H) as (d & H1 & H2 & _ & H3 & _). exists d. split; [exact H1 | split; [exact H2 | exact H3]]. }
  exact (proj2 (writes_keep_tree (U := ascii_unicode) (UL := ascii_unicode_laws) (L := toy_ber)
    (UT := fake_tx (U := ascii_unicode)) id (keys_ok (U := ascii_unicode)) sample_sv [] (λ _, []) suffix_store sample_calls
    (Forall_nil_2 _) sample_flat sample_plain Hk suffix_store_ok)).
Defined.

(** Where the foldings do not agree an entry can be moved below itself, past the guard
    of [handleModifyDN]: [ou=i] with the new superior [ou=<U+0130>], which is the entry
    itself to the store and another name to [EqualFold].  The entry's parent is gone. *)
Definition i_store : gmap bytes Entry :=
  {[B "dc=test" := suffix_entry;
    B "ou=i,dc=test" := MkEntry (B "ou=i,dc=test") [MkAttribute (B "objectClass") [B "top"; B "organizationalUnit"]; MkAttribute (B "ou") [B "i"]]]}.

Lemma move_into_subtree :
  (map_to_list (handle_write (U := dotted_i) (L := toy_ber) (UT := fake_tx (U := dotted_i)) sample_sv [] (λ _, []) i_store
     (sample_call (RenameOf (MkModifyDNRequest (B "ou=i,dc=test") (B "ou=x") false (B "ou=" ++ [Byte.xc4; Byte.xb0] ++ B ",dc=test")))))).*1
  = [B "ou=x,ou=i,dc=test"; B "dc=test"].
Proof. vm_compute. reflexivity. Qed.
