(* ===== verification/GoTime.v ===== *)
(** Package [time], as far as the program uses it: the UTC calendar, [Format] with the
    GeneralizedTime layout, and [Parse] with its two layouts.

    A [time.Time] is a number of nanoseconds since the Unix epoch; the locations the
    program uses are UTC.  [Parse] takes fractional seconds after the seconds of the
    value whether or not the layout has them, so both layouts of
    [parseGeneralizedTime] accept the same strings. *)

From S2P Require Import Prelude GoStrings.
Local Open Scope Z_scope.

(** * Calendar *)

Definition is_leap (y : Z) : bool := (y mod 4 =? 0) && (negb (y mod 100 =? 0) || (y mod 400 =? 0)).

(** Days of the months, and of the months before each. *)
Definition daysIn (m y : Z) : Z :=
  if m =? 2 then (if is_leap y then 29 else 28)
  else if (m =? 4) || (m =? 6) || (m =? 9) || (m =? 11) then 30 else 31.

Definition days_before (m y : Z) : Z :=
  let d := match m with
           | 1 => 0 | 2 => 31 | 3 => 59 | 4 => 90 | 5 => 120 | 6 => 151
           | 7 => 181 | 8 => 212 | 9 => 243 | 10 => 273 | 11 => 304 | _ => 334
           end in
  if (2 <? m) && is_leap y then d + 1 else d.

(** Days from 1 January of year 1 to 1 January of year [y]. *)
Definition year_start (y : Z) : Z := let p := y - 1 in 365 * p + p / 4 - p / 100 + p / 400.

(** Days of the Unix epoch since 1 January of year 1. *)
Definition epoch_days : Z := 719162.

(** Days since the epoch of a date. *)
Definition date_days (y m d : Z) : Z := year_start y + days_before m y + (d - 1) - epoch_days.

(** The year of a day, and the day in the year. *)
Definition year_of (n : Z) : Z * Z :=
  let a := n / 146097 in
  let r := n mod 146097 in
  let b := Z.min 3 (r / 36524) in
  let r1 := r - 36524 * b in
  let c := r1 / 1461 in
  let r2 := r1 mod 1461 in
  let d := Z.min 3 (r2 / 365) in
  (400 * a + 100 * b + 4 * c + d + 1, r2 - 365 * d).

(** The month of a day in the year: the last that starts no later. *)
Definition month_of (yday y : Z) : Z :=
  foldl (λ m k, if days_before k y <=? yday then k else m) 1 [1; 2; 3; 4; 5; 6; 7; 8; 9; 10; 11; 12].

Definition days_date (days : Z) : Z * Z * Z :=
  let '(y, yday) := year_of (days + epoch_days) in
  let m := month_of yday y in
  (y, m, yday - days_before m y + 1).

Definition nano : Z := 1000000000.

Definition day_seconds : Z := 86400.

(** [t.Sub(u)] saturates, a duration being a 64-bit number of nanoseconds. *)
Definition Sub (t u : Z) : Z := Z.max (- 2^63) (Z.min (2^63 - 1) (t - u)).

(** * Format *)

(** The low [w] decimal digits. *)
Fixpoint decimal (w : nat) (n : Z) : bytes :=
  match w with
  | O => []
  | S w' => decimal w' (n / 10) ++ [zb (48 + n mod 10)]
  end.

(** [t.UTC().Format("20060102150405Z")], for the years 0 to 9999. *)
Definition formatGeneralizedTime (t : Z) : bytes :=
  let s := t / nano in
  let '(y, m, d) := days_date (s / day_seconds) in
  let r := s mod day_seconds in
  decimal 4 y ++ decimal 2 m ++ decimal 2 d ++ decimal 2 (r / 3600) ++ decimal 2 (r / 60 mod 60) ++ decimal 2 (r mod 60) ++ B "Z".

(** * Parse *)

Definition is_digit (b : byte) : bool := in_range 48 57 (bz b).

(** [n] decimal digits. *)
Fixpoint getnum (n : nat) (acc : Z) (s : bytes) : option (Z * bytes) :=
  match n with
  | O => Some (acc, s)
  | S n' =>
    match s with
    | b :: s' => if is_digit b then getnum n' (acc * 10 + (bz b - 48)) s' else None
    | [] => None
    end
  end.

Definition getnum_in (n : nat) (lo hi : Z) (s : bytes) : option (Z * bytes) :=
  p ← getnum n 0 s;
  if in_range lo hi p.1 then Some p else None.

(** The digits at the front. *)
Fixpoint span_digits (s : bytes) : bytes * bytes :=
  match s with
  | b :: s' => if is_digit b then (b :: (span_digits s').1, (span_digits s').2) else ([], s)
  | [] => ([], [])
  end.

(** A fraction after the seconds: nine digits count. *)
Definition fraction (s : bytes) : Z * bytes :=
  match s with
  | p :: b :: s' =>
    if (bool_decide (p = x2e) || bool_decide (p = x2c)) && is_digit b then
      let '(ds, rest) := span_digits (b :: s') in
      let ds := take 9 ds in
      (foldl (λ v b, v * 10 + (bz b - 48)) 0 ds * 10 ^ (9 - Z.of_nat (length ds)), rest)
    else (0, s)
  | _ => (0, s)
  end.

(** [time.Parse] with either layout. *)
Definition time_Parse (s : bytes) : option Z :=
  '(y, s) ← getnum 4 0 s;
  '(mo, s) ← getnum_in 2 1 12 s;
  '(d, s) ← getnum 2 0 s;
  '(h, s) ← getnum_in 2 0 23 s;
  '(mi, s) ← getnum_in 2 0 59 s;
  '(se, s) ← getnum_in 2 0 59 s;
  let '(ns, s) := fraction s in
  if beq s (B "Z") && in_range 1 (daysIn mo y) d
  then Some ((date_days y mo d * day_seconds + h * 3600 + mi * 60 + se) * nano + ns) else None.

Definition parseGeneralizedTime (s : bytes) : option Z := time_Parse s.

(** Facts of the calendar and of generalized times: a day is the day of its date, and
    parsing a printed time gives the time back, cut to whole seconds. *)

(** * Calendar *)

(** The year found starts at or before the day, and the day falls inside it. *)
Lemma year_of_spec (n : Z) :
  let '(y, k) := year_of n in n = year_start y + k ∧ 0 ≤ k < 365 + (if is_leap y then 1 else 0).
Proof.
  unfold year_of. set (a := n / 146097). set (r := n mod 146097).
  set (b := Z.min 3 (r / 36524)). set (r1 := r - 36524 * b). set (c := r1 / 1461). set (r2 := r1 mod 1461). set (d := Z.min 3 (r2 / 365)).
  assert (Hr : n = 146097 * a + r ∧ 0 ≤ r < 146097) by (subst a r; split; [apply Z.div_mod; lia | apply Z.mod_pos_bound; lia]).
  assert (Hr1 : r = 36524 * b + r1) by (subst r1; lia).
  assert (Hb : 0 ≤ b ≤ 3 ∧ 0 ≤ r1 < 36525 ∧ (b < 3 → r1 < 36524)).
  { subst b r1. assert (0 ≤ r / 36524 ≤ 4) by (Z.div_mod_to_equations; lia). Z.div_mod_to_equations. lia. }
  assert (Hc : r1 = 1461 * c + r2 ∧ 0 ≤ r2 < 1461) by (subst c r2; split; [apply Z.div_mod; lia | apply Z.mod_pos_bound; lia]).
  assert (Hd : 0 ≤ d ≤ 3 ∧ 0 ≤ r2 - 365 * d < 366 ∧ (d < 3 → r2 - 365 * d < 365)).
  { subst d. Z.div_mod_to_equations. lia. }
  assert (Hc' : 0 ≤ c ≤ 24) by lia.
  clearbody a r b r1 c r2 d.
  set (y := 400 * a + 100 * b + 4 * c + d + 1).
  assert (H4 : (y - 1) / 4 = 100 * a + 25 * b + c) by (subst y; Z.div_mod_to_equations; lia).
  assert (H100 : (y - 1) / 100 = 4 * a + b) by (subst y; Z.div_mod_to_equations; lia).
  assert (H400 : (y - 1) / 400 = a) by (subst y; Z.div_mod_to_equations; lia).
  split; [unfold year_start; cbv zeta; rewrite H4, H100, H400; subst y; lia|].
  assert (Hl : is_leap y = (d =? 3) && (negb (c =? 24) || (b =? 3))).
  { unfold is_leap. assert (E4 : y mod 4 = (d + 1) mod 4) by (subst y; Z.div_mod_to_equations; lia).
    assert (E100 : y mod 100 = (4 * c + d + 1) mod 100) by (subst y; Z.div_mod_to_equations; lia).
    assert (E400 : y mod 400 = (100 * b + 4 * c + d + 1) mod 400) by (subst y; Z.div_mod_to_equations; lia).
    rewrite E4, E100, E400. apply eq_true_iff_eq. rewrite !andb_true_iff, !orb_true_iff, !negb_true_iff, !Z.eqb_eq, !Z.eqb_neq.
    Z.div_mod_to_equations. lia. }
  rewrite Hl. destruct (Z.eqb_spec d 3), (Z.eqb_spec c 24), (Z.eqb_spec b 3); cbn [andb orb negb]; lia.
Qed.

(** A day of a year is a day of one of its months. *)
Lemma month_of_spec (k y : Z) :
  0 ≤ k < 365 + (if is_leap y then 1 else 0) →
  let m := month_of k y in 1 ≤ m ≤ 12 ∧ 1 ≤ k - days_before m y + 1 ≤ daysIn m y.
Proof.
  intros Hk. cbv zeta.
  set (before := λ (l : bool) m, let d := match m with
           | 1 => 0 | 2 => 31 | 3 => 59 | 4 => 90 | 5 => 120 | 6 => 151
           | 7 => 181 | 8 => 212 | 9 => 243 | 10 => 273 | 11 => 304 | _ => 334
           end in if (2 <? m) && l then d + 1 else d).
  set (len := λ (l : bool) m, if m =? 2 then (if l then 29 else 28)
    else if (m =? 4) || (m =? 6) || (m =? 9) || (m =? 11) then 30 else 31).
  set (mo := λ (l : bool) k, foldl (λ m i, if before l i <=? k then i else m) 1 [1; 2; 3; 4; 5; 6; 7; 8; 9; 10; 11; 12]).
  assert (Hall : ∀ l, forallb (λ i, let k := Z.of_nat i in let m := mo l k in
      (1 <=? m) && (m <=? 12) && (1 <=? k - before l m + 1) && (k - before l m + 1 <=? len l m)) (seq 0 (365 + if l then 1 else 0)) = true)
    by (intros []; vm_compute; reflexivity).
  specialize (Hall (is_leap y)). rewrite forallb_forall in Hall. specialize (Hall (Z.to_nat k)).
  cbv zeta in Hall. rewrite Z2Nat.id in Hall by lia.
  change (mo (is_leap y) k) with (month_of k y) in Hall.
  change (before (is_leap y) (month_of k y)) with (days_before (month_of k y) y) in Hall.
  change (len (is_leap y) (month_of k y)) with (daysIn (month_of k y) y) in Hall.
  assert (H := Hall ltac:(apply in_seq; destruct (is_leap y); lia)).
  rewrite !andb_true_iff, !Z.leb_le in H. lia.
Qed.

Lemma date_of_day (n : Z) :
  let '(y, m, d) := days_date n in date_days y m d = n ∧ 1 ≤ m ≤ 12 ∧ 1 ≤ d ≤ daysIn m y.
Proof.
  unfold days_date. pose proof (year_of_spec (n + epoch_days)) as Hy. destruct (year_of _) as [y k]. destruct Hy as [Hn Hk].
  pose proof (month_of_spec k y Hk) as Hm. cbv zeta in Hm. unfold date_days. lia.
Qed.

Lemma year_step (y : Z) : year_start (y + 1) = year_start y + 365 + (if is_leap y then 1 else 0).
Proof.
  unfold year_start, is_leap. cbv zeta. replace (y + 1 - 1) with y by lia.
  destruct (Z.eqb_spec (y mod 4) 0), (Z.eqb_spec (y mod 100) 0), (Z.eqb_spec (y mod 400) 0); cbn [andb orb negb]; Z.div_mod_to_equations; lia.
Qed.

Lemma year_mono (a b : Z) : a ≤ b → year_start a ≤ year_start b.
Proof. intros H. unfold year_start. cbv zeta. Z.div_mod_to_equations. lia. Qed.

(** The years 0 to 9999 are a range of days. *)
Lemma year_range (n y m d : Z) : date_days 0 1 1 ≤ n < date_days 10000 1 1 → days_date n = (y, m, d) → 0 ≤ y ≤ 9999.
Proof.
  intros Hr. unfold days_date. pose proof (year_of_spec (n + epoch_days)) as Hy. destruct (year_of _) as [y' k]. intros [= -> _ _].
  destruct Hy as [Hn Hk]. pose proof (year_step y) as Hs.
  change (date_days 0 1 1) with (year_start 0 - epoch_days) in Hr. change (date_days 10000 1 1) with (year_start 10000 - epoch_days) in Hr.
  split; apply Z.nlt_ge; intros Hlt.
  - pose proof (year_mono (y + 1) 0). lia.
  - pose proof (year_mono 10000 y). lia.
Qed.

(** * Text *)

Lemma digit_value (v : Z) : 0 ≤ v < 10 → bz (zb (48 + v)) = 48 + v.
Proof. intros. apply bz_zb_small. lia. Qed.

(** Reading what was printed. *)
Lemma getnum_decimal (n : nat) (acc v : Z) (s : bytes) :
  0 ≤ v < 10 ^ Z.of_nat n → getnum n acc (decimal n v ++ s) = Some (acc * 10 ^ Z.of_nat n + v, s).
Proof.
  assert (Happ : ∀ k m acc s t r, length s = k → getnum k acc s = Some (r, []) → getnum (k + m) acc (s ++ t) = getnum m r t).
  { induction k as [|k IH]; intros m a [|b s'] t r Hl Hg; try done; cbn [getnum] in Hg; [by injection Hg as ->|].
    cbn [Nat.add app getnum]. destruct (is_digit b); [|done]. apply IH; [by injection Hl | done]. }
  assert (Hdec : ∀ k w, length (decimal k w) = k).
  { induction k as [|k IH]; intros w; [done|]. cbn [decimal]. rewrite length_app, IH. cbn. lia. }
  assert (Hself : ∀ k a w, 0 ≤ w < 10 ^ Z.of_nat k → getnum k a (decimal k w) = Some (a * 10 ^ Z.of_nat k + w, [])).
  { induction k as [|k IH]; intros a w Hw; [cbn in *; f_equal; f_equal; lia|].
    rewrite Nat2Z.inj_succ, Z.pow_succ_r in * by lia. cbn [decimal]. replace (S k) with (k + 1)%nat by lia.
    rewrite (Happ k 1%nat a _ _ (a * 10 ^ Z.of_nat k + w / 10)); [| by apply Hdec | apply IH; Z.div_mod_to_equations; lia].
    cbn -[zb bz]. unfold is_digit. rewrite digit_value by (apply Z.mod_pos_bound; lia). pose proof (Z.mod_pos_bound w 10 ltac:(lia)).
    unfold in_range. rewrite (proj2 (Z.leb_le _ _)), (proj2 (Z.leb_le _ _)) by lia. cbn [andb]. f_equal. f_equal.
    pose proof (Z.div_mod w 10). lia. }
  intros Hv. pose proof (Happ n 0%nat acc (decimal n v) s _ (Hdec n v) (Hself n acc v Hv)) as H.
  rewrite Nat.add_0_r in H. exact H.
Qed.

Lemma getnum_in_decimal (n : nat) (lo hi v : Z) (s : bytes) :
  lo ≤ v ≤ hi → 0 ≤ v < 10 ^ Z.of_nat n → getnum_in n lo hi (decimal n v ++ s) = Some (v, s).
Proof.
  intros H Hv. unfold getnum_in. rewrite getnum_decimal by done. cbn [mbind option_bind fst]. rewrite Z.mul_0_l, Z.add_0_l.
  unfold in_range. by rewrite (proj2 (Z.leb_le lo v)), (proj2 (Z.leb_le v hi)) by lia.
Qed.

(** The times of the years 0 to 9999. *)
Definition printable (t : Z) : Prop := date_days 0 1 1 ≤ t / nano / day_seconds < date_days 10000 1 1.

(** A printed time parses to itself, cut to whole seconds. *)
Lemma parse_format (t : Z) : printable t → parseGeneralizedTime (formatGeneralizedTime t) = Some (t / nano * nano).
Proof.
  unfold printable, formatGeneralizedTime, parseGeneralizedTime. set (s := t / nano). intros Hp.
  pose proof (date_of_day (s / day_seconds)) as Hd. destruct (days_date _) as [[y m] d] eqn:E. destruct Hd as (Hdays & Hm & Hd).
  pose proof (year_range _ _ _ _ Hp E) as Hy. pose proof (Z.mod_pos_bound s day_seconds ltac:(unfold day_seconds; lia)) as Hr.
  set (r := s mod day_seconds) in *.
  assert (Hdm : daysIn m y ≤ 31) by (unfold daysIn; repeat case_match; lia).
  assert (Hh : 0 ≤ r / 3600 ≤ 23) by (unfold day_seconds in Hr; Z.div_mod_to_equations; lia).
  pose proof (Z.mod_pos_bound (r / 60) 60 ltac:(lia)) as Hmi. pose proof (Z.mod_pos_bound r 60 ltac:(lia)) as Hs.
  unfold time_Parse. rewrite getnum_decimal by (change (10 ^ Z.of_nat 4) with 10000; lia). cbn [mbind option_bind].
  rewrite getnum_in_decimal by (change (10 ^ Z.of_nat 2) with 100; lia). cbn [mbind option_bind].
  rewrite getnum_decimal by (change (10 ^ Z.of_nat 2) with 100; lia). cbn [mbind option_bind].
  rewrite !getnum_in_decimal by (change (10 ^ Z.of_nat 2) with 100; lia). cbn [mbind option_bind].
  rewrite getnum_in_decimal by (change (10 ^ Z.of_nat 2) with 100; lia). cbn [mbind option_bind].
  rewrite getnum_in_decimal by (change (10 ^ Z.of_nat 2) with 100; lia). cbn [mbind option_bind fraction B].
  change (fraction (B "Z")) with (0, B "Z"). cbn match. rewrite beq_refl. rewrite !Z.mul_0_l, !Z.add_0_l.
  assert (Hin : in_range 1 (daysIn m y) d = true) by (unfold in_range; by rewrite !(proj2 (Z.leb_le _ _)) by lia).
  rewrite Hin, Hdays. cbn [andb]. f_equal.
  assert (Hsec : s = s / day_seconds * day_seconds + r) by (subst r; pose proof (Z.div_mod s day_seconds ltac:(done)); lia).
  assert (Hr3 : r = r / 3600 * 3600 + r / 60 mod 60 * 60 + r mod 60) by (Z.div_mod_to_equations; lia).
  lia.
Qed.

(** Generalized times round-trip: a time in the years 0 to 9999, printed and parsed
    again, is the start of its second. *)
Theorem generalizedTime_roundtrip (t : Z) : printable t → parseGeneralizedTime (formatGeneralizedTime t) = Some (t / nano * nano).
Proof. apply parse_format. Qed.

Lemma generalizedTime_roundtrip_witness :
  parseGeneralizedTime (formatGeneralizedTime (1700000000 * nano + 5)) = Some (1700000000 * nano).
Proof. refine (generalizedTime_roundtrip (1700000000 * nano + 5) _). unfold printable. vm_compute. split; [discriminate | reflexivity]. Defined.
