(* ===== verification/PwHash.v ===== *)
(** Stored passwords: [src/internal/ldapserver/pwhash.go].

    PBKDF2 and SHA-512 are the parameter [Crypto]; what the code relies on is that
    they are functions with digests of a fixed length ([CryptoLaws]).  The salt a hash
    draws is an argument, [None] a failing entropy source.  [verify_Hash_aux]: what
    was hashed verifies exactly the passwords with the same digest, provided the
    iteration count is one the verifier honours. *)

From S2P Require Import Prelude GoStrings Base64.
Local Open Scope Z_scope.

(** * Cryptography and letter case *)

Class Crypto : Type := {
  (** [pbkdf2.Key(password, salt, iter, 32, sha256.New)] *)
  pbkdf2_Key : bytes → bytes → Z → bytes;
  sha512_Sum : bytes → bytes;
}.

Class CryptoLaws (C : Crypto) : Prop := {
  pbkdf2_length : ∀ p s i, length (pbkdf2_Key p s i) = 32%nat;
  sha512_length : ∀ s, length (sha512_Sum s) = 64%nat;
}.

(** A digest that keeps the front of its input. *)
Definition toy_digest (n : nat) (s : bytes) : bytes := take n (s ++ repeat x00 n).

Definition toy_crypto : Crypto := {|
  pbkdf2_Key p s i := toy_digest 32 p;
  sha512_Sum := toy_digest 64;
|}.

#[export] Instance toy_crypto_laws : CryptoLaws toy_crypto.
Proof. split; intros; cbn; unfold toy_digest; rewrite length_take, length_app, repeat_length; lia. Qed.

(** [unicode.ToUpper], and [strings.ToUpper] with its ASCII fast path. *)
Class UnicodeUpper : Type := { rune_upper : Z → Z }.

Definition ascii_upper (r : Z) : Z := if in_range 97 122 r then r - 32 else r.

Class UnicodeUpperLaws (UU : UnicodeUpper) : Prop := { rune_upper_ascii : ∀ r, 0 ≤ r < 128 → rune_upper r = ascii_upper r }.

Definition ascii_uppercase : UnicodeUpper := {| rune_upper := ascii_upper |}.

#[export] Instance ascii_uppercase_laws : UnicodeUpperLaws ascii_uppercase.
Proof. by constructor. Qed.

Definition to_upper {UU : UnicodeUpper} (s : bytes) : bytes :=
  if forallb is_ascii s then (λ b, zb (ascii_upper (bz b))) <$> s
  else concat ((λ p, encode_rune (rune_upper p.1)) <$> runes s).

(** * Schemes *)

Definition SchemePBKDF2SHA256 : bytes := B "PBKDF2-SHA256".
Definition SchemeSSHA512 : bytes := B "SSHA512".

Definition maxStoredPasswordBytes : Z := 4096.
Definition maxVerifyIterations : Z := 4000000.
Definition pbkdf2SaltBytes : Z := 16.
Definition pbkdf2KeyBytes : Z := 32.
Definition maxSaltBytes : Z := 128.
Definition minSaltBytes : Z := 8.
Definition DefaultPBKDF2Iterations : Z := 210000.

(** [sha512.Size]. *)
Definition sha512_Size : Z := 64.

Section pwhash.
Context {UU : UnicodeUpper} {C : Crypto}.

(** [None] is the error. *)
Definition normalizeScheme (scheme : bytes) : option bytes :=
  let s := to_upper ((λ b, if bool_decide (b = x5f) then x2d else b) <$> trim_space scheme) in
  if bool_decide (s = []) || bool_decide (s = SchemePBKDF2SHA256) then Some SchemePBKDF2SHA256
  else if bool_decide (s = SchemeSSHA512) then Some SchemeSSHA512
  else None.

Definition scheme_rune (r : Z) : bool :=
  in_range 65 90 r || in_range 97 122 r || in_range 48 57 r || (r =? 45) || (r =? 95).

Definition splitScheme (v : bytes) : option (bytes * bytes) :=
  match v with
  | b :: rest =>
    if (length v <? 3)%nat || negb (bool_decide (b = x7b)) then None
    else
      let '(scheme, payload, found) := cut_byte x7d rest in
      if negb found || bool_decide (scheme = []) then None
      else if forallb (λ p, scheme_rune p.1) (runes scheme) then Some (scheme, payload) else None
  | [] => None
  end.

Definition isPreHashed (v : bytes) : bool := bool_decide (is_Some (splitScheme v)).

Definition encodePrefixed (scheme payload : bytes) : bytes := [x7b] ++ scheme ++ [x7d] ++ std_encode payload.

(** * Hashing *)

Record StandardHasher : Type := MkStandardHasher { sh_Scheme : bytes; sh_Iterations : Z }.

Definition NewStandardHasher (scheme : bytes) : option StandardHasher :=
  norm ← normalizeScheme scheme;
  Some (MkStandardHasher norm DefaultPBKDF2Iterations).

Definition iterations (h : StandardHasher) : Z := if 0 <? sh_Iterations h then sh_Iterations h else DefaultPBKDF2Iterations.

(** [binary.BigEndian.PutUint32] of [uint32(v)]. *)
Definition be32 (v : Z) : bytes := (λ i, zb (Z.shiftr v (8 * i))) <$> [3; 2; 1; 0].

Definition ssha512Digest (password salt : bytes) : bytes := sha512_Sum (password ++ salt) ++ salt.

Definition Hash_ (h : StandardHasher) (entropy : option bytes) (password : bytes) : option bytes :=
  scheme ← normalizeScheme (sh_Scheme h);
  salt ← entropy;
  if bool_decide (scheme = SchemePBKDF2SHA256)
  then Some (encodePrefixed scheme (be32 (iterations h) ++ salt ++ pbkdf2_Key password salt (iterations h)))
  else Some (encodePrefixed scheme (ssha512Digest password salt)).

(** * Verification *)

Definition decodePayload (payload : bytes) : option bytes :=
  raw ← std_decode payload;
  if maxStoredPasswordBytes <? blen raw then None else Some raw.

Definition verifyPBKDF2 (payload password : bytes) : bool :=
  match decodePayload payload with
  | None => false
  | Some raw =>
    if blen raw <? 4 + minSaltBytes + pbkdf2KeyBytes then false
    else
      let iter := be_acc 0 (take 4 raw) in
      if (iter <? 1) || (maxVerifyIterations <? iter) then false
      else
        let body := drop 4 raw in
        let n := (length body - Z.to_nat pbkdf2KeyBytes)%nat in
        let dk := drop n body in
        let salt := take n body in
        if (blen salt <? minSaltBytes) || (maxSaltBytes <? blen salt) then false
        else beq (pbkdf2_Key password salt iter) dk
  end.

Definition verifySSHA512 (payload password : bytes) : bool :=
  match decodePayload payload with
  | None => false
  | Some raw =>
    if (blen raw <? sha512_Size + minSaltBytes) || (sha512_Size + maxSaltBytes <? blen raw) then false
    else
      let digest := take (Z.to_nat sha512_Size) raw in
      let salt := drop (Z.to_nat sha512_Size) raw in
      beq (take (Z.to_nat sha512_Size) (ssha512Digest password salt)) digest
  end.

Definition verifyPassword (stored password : bytes) : bool :=
  if (length stored =? 0)%nat || (maxStoredPasswordBytes <? blen stored) then false
  else
    match splitScheme stored with
    | None => beq stored password
    | Some (scheme, payload) =>
      let s := to_upper scheme in
      if beq s (B "CLEARTEXT") then beq payload password
      else if beq s SchemePBKDF2SHA256 then verifyPBKDF2 payload password
      else if beq s SchemeSSHA512 || beq s (B "SSHA-512") then verifySSHA512 payload password
      else false
    end.

End pwhash.

(** * What was hashed verifies *)

Lemma be32_length (v : Z) : length (be32 v) = 4%nat.
Proof. done. Qed.

Lemma be_be32 (v : Z) : 0 ≤ v < 2^32 → be_acc 0 (be32 v) = v.
Proof.
  intros Hv. unfold be32. cbn [fmap list_fmap be_acc]. rewrite !lor_shift8, !bz_zb, !Z.shiftr_div_pow2 by lia.
  change (2 ^ (8 * 3)) with 16777216. change (2 ^ (8 * 2)) with 65536. change (2 ^ (8 * 1)) with 256. change (2 ^ (8 * 0)) with 1.
  Z.div_mod_to_equations. lia.
Qed.

Section facts.
Context {UU : UnicodeUpper} {UUL : UnicodeUpperLaws UU} {C : Crypto} {CL : CryptoLaws C}.

Lemma normalizeScheme_cases (s t : bytes) : normalizeScheme s = Some t → t = SchemePBKDF2SHA256 ∨ t = SchemeSSHA512.
Proof. unfold normalizeScheme. intros H. repeat case_match; simplify_eq; auto. Qed.

Lemma split_prefixed (scheme payload : bytes) :
  scheme = SchemePBKDF2SHA256 ∨ scheme = SchemeSSHA512 → splitScheme (encodePrefixed scheme payload) = Some (scheme, std_encode payload).
Proof. by intros [-> | ->]. Qed.

(** Upper case leaves an upper-case ASCII name alone. *)
Lemma upper_scheme (scheme : bytes) : scheme = SchemePBKDF2SHA256 ∨ scheme = SchemeSSHA512 → to_upper scheme = scheme.
Proof. by intros [-> | ->]. Qed.

Lemma Hash_prehashed (h : StandardHasher) (salt p v : bytes) : Hash_ h (Some salt) p = Some v → isPreHashed v = true.
Proof.
  unfold Hash_. destruct (normalizeScheme _) as [scheme|] eqn:E; [|done]. pose proof (normalizeScheme_cases _ _ E) as Hs.
  cbn [mbind option_bind]. unfold isPreHashed. case_bool_decide; intros [= <-]; by rewrite split_prefixed.
Qed.

Lemma encoded_small (scheme payload : bytes) :
  scheme = SchemePBKDF2SHA256 ∨ scheme = SchemeSSHA512 → (length payload ≤ 1000)%nat →
  (length (encodePrefixed scheme payload) =? 0)%nat || (maxStoredPasswordBytes <? blen (encodePrefixed scheme payload)) = false.
Proof.
  intros Hs Hp. unfold encodePrefixed, blen, maxStoredPasswordBytes. rewrite !length_app. cbn [length].
  pose proof (std_encode_length payload). apply orb_false_iff. split; [by apply Nat.eqb_neq|]. apply Z.ltb_ge.
  destruct Hs as [-> | ->]; cbn [length SchemePBKDF2SHA256 SchemeSSHA512 B String.list_byte_of_string]; change (length SchemePBKDF2SHA256) with 13%nat;
    change (length SchemeSSHA512) with 7%nat; lia.
Qed.

Lemma decode_encoded (payload : bytes) : (length payload ≤ 1000)%nat → decodePayload (std_encode payload) = Some payload.
Proof.
  intros Hp. unfold decodePayload. rewrite std_roundtrip. cbn [mbind option_bind]. unfold blen, maxStoredPasswordBytes.
  by rewrite (proj2 (Z.ltb_ge _ _)) by lia.
Qed.

(** A PBKDF2 value: the count is written in 32 bits and honoured up to the ceiling. *)
Lemma verify_pbkdf2 (it : Z) (salt dk q : bytes) :
  length salt = 16%nat → length dk = 32%nat →
  verifyPBKDF2 (std_encode (be32 it ++ salt ++ dk)) q =
  let n := it mod 2^32 in (1 <=? n) && (n <=? maxVerifyIterations) && beq (pbkdf2_Key q salt n) dk.
Proof.
  intros Hs Hd. unfold verifyPBKDF2. rewrite decode_encoded by (rewrite !length_app, be32_length; lia).
  unfold blen. rewrite !length_app, be32_length, Hs, Hd. cbn [Nat.add]. rewrite (proj2 (Z.ltb_ge _ _)) by (unfold minSaltBytes, pbkdf2KeyBytes; lia).
  rewrite take_app_length' by done. rewrite drop_app_length' by done.
  assert (Hbe : be_acc 0 (be32 it) = it mod 2^32).
  { assert (E : be32 it = be32 (it mod 2^32)).
    { unfold be32. cbn [fmap list_fmap]. unfold zb. rewrite !Z.shiftr_div_pow2 by lia.
      change (2 ^ (8 * 3)) with 16777216. change (2 ^ (8 * 2)) with 65536. change (2 ^ (8 * 1)) with 256. change (2 ^ (8 * 0)) with 1.
      assert (Hm : ∀ a b, a mod 256 = b mod 256 → match Byte.of_N (Z.to_N (a mod 256)) with Some b => b | None => x00 end =
        match Byte.of_N (Z.to_N (b mod 256)) with Some b => b | None => x00 end) by (intros a b ->; done).
      repeat f_equal; apply Hm; Z.div_mod_to_equations; lia. }
    rewrite E. apply be_be32, Z.mod_pos_bound. lia. }
  rewrite Hbe. cbv zeta. set (n := it mod 2^32). rewrite !length_app, Hs, Hd.
  change (16 + 32 - Z.to_nat pbkdf2KeyBytes)%nat with 16%nat.
  rewrite take_app_length', drop_app_length' by done. rewrite Hs.
  change ((Z.of_nat 16 <? minSaltBytes) || (maxSaltBytes <? Z.of_nat 16)) with false. cbn match.
  destruct (Z.ltb_spec n 1), (Z.leb_spec 1 n), (Z.ltb_spec maxVerifyIterations n), (Z.leb_spec n maxVerifyIterations); try lia; done.
Qed.

Lemma verify_ssha512 (salt p q : bytes) :
  length salt = 16%nat → verifySSHA512 (std_encode (ssha512Digest p salt)) q = beq (sha512_Sum (q ++ salt)) (sha512_Sum (p ++ salt)).
Proof.
  intros Hs. unfold verifySSHA512, ssha512Digest. pose proof (sha512_length (p ++ salt)) as Hp. pose proof (sha512_length (q ++ salt)) as Hq.
  rewrite decode_encoded by (rewrite length_app; lia). unfold blen. rewrite length_app, Hs, Hp.
  change ((Z.of_nat (64 + 16) <? sha512_Size + minSaltBytes) || (sha512_Size + maxSaltBytes <? Z.of_nat (64 + 16))) with false. cbn match.
  change (Z.to_nat sha512_Size) with 64%nat. rewrite (drop_app_length' (sha512_Sum (p ++ salt)) salt), (take_app_length' (sha512_Sum (p ++ salt)) salt) by done.
  by rewrite (take_app_length' (sha512_Sum (q ++ salt)) salt).
Qed.

(** The digest a hash stands for. *)
Definition digest_of (h : StandardHasher) (salt q : bytes) : bytes :=
  if bool_decide (normalizeScheme (sh_Scheme h) = Some SchemePBKDF2SHA256) then pbkdf2_Key q salt (iterations h) else sha512_Sum (q ++ salt).

Definition honoured (h : StandardHasher) : bool :=
  negb (bool_decide (normalizeScheme (sh_Scheme h) = Some SchemePBKDF2SHA256)) || (iterations h <=? maxVerifyIterations).

Lemma iterations_pos (h : StandardHasher) : 0 < iterations h.
Proof. unfold iterations. destruct (Z.ltb_spec 0 (sh_Iterations h)); [done | unfold DefaultPBKDF2Iterations; lia]. Qed.

Lemma verify_Hash_aux (h : StandardHasher) (salt p v q : bytes) :
  length salt = 16%nat → iterations h < 2^32 → Hash_ h (Some salt) p = Some v →
  verifyPassword v q = honoured h && beq (digest_of h salt q) (digest_of h salt p).
Proof.
  intros Hs Hit. unfold Hash_, digest_of, honoured. destruct (normalizeScheme (sh_Scheme h)) as [scheme|] eqn:E; [|done].
  pose proof (normalizeScheme_cases _ _ E) as Hc. cbn [mbind option_bind]. pose proof (iterations_pos h) as Hpos.
  destruct Hc as [-> | ->].
  - rewrite !bool_decide_true by done. intros H%(inj Some). subst v. unfold verifyPassword.
    rewrite (encoded_small SchemePBKDF2SHA256), split_prefixed, upper_scheme by (solve [by left] || (rewrite !length_app, be32_length, pbkdf2_length; lia)).
    change (beq SchemePBKDF2SHA256 (B "CLEARTEXT")) with false. rewrite beq_refl. cbn match.
    rewrite verify_pbkdf2 by (done || apply pbkdf2_length). cbv zeta. rewrite Z.mod_small by lia. cbn [negb orb].
    by rewrite (proj2 (Z.leb_le 1 _)) by lia.
  - rewrite !bool_decide_false by done. intros H%(inj Some). subst v. unfold verifyPassword.
    rewrite (encoded_small SchemeSSHA512), split_prefixed, upper_scheme by (solve [by right] || (unfold ssha512Digest; rewrite length_app, sha512_length; lia)).
    change (beq SchemeSSHA512 (B "CLEARTEXT")) with false. change (beq SchemeSSHA512 SchemePBKDF2SHA256) with false. rewrite beq_refl. cbn [orb negb andb]. cbn match.
    by apply verify_ssha512.
Qed.
End facts.
