(* ===== verification/Password.v ===== *)
(** The password policy engine: [src/internal/ldapserver/password.go].

    The hasher is an interface, as in the source ([PasswordHasher]); the [n]-th hash of
    a call may draw its own salt.  The clock is an argument, in nanoseconds.  Failure
    counts live in memory and are part of the state [VerifyBind] returns with the
    store; a store write it makes is one transaction, whose failure is only logged.
    Latency equalisation ([dummyVerify]) has no result and is not modelled. *)

From S2P Require Import Prelude GoStrings GoTime Base64 PwHash DN Message Ber Decode Attr Schema Matching FilterEval StoreIface Aci Server Paging Search Write WriteOps.
Local Open Scope Z_scope.

(** * Policy *)

Definition attrUserPassword : bytes := B "userPassword".
Definition attrPwdChangedTime : bytes := B "pwdChangedTime".
Definition attrPwdAccountLockedTime : bytes := B "pwdAccountLockedTime".
Definition attrPasswordHistory : bytes := B "passwordHistory".
Definition attrPwdReset : bytes := B "pwdReset".
Definition attrPasswordExpirationTime : bytes := B "passwordExpirationTime".
Definition attrAccountUnlockTime : bytes := B "accountUnlockTime".

Record PasswordPolicy : Type := MkPasswordPolicy {
  MinLength : Z;
  HistoryCount : Z;
  MaxAge : Z;
  MaxFailures : Z;
  LockoutDuration : Z;
  StorageScheme : bytes;
}.

(** The paths of the fields [validate] reports. *)
Definition validate {UU : UnicodeUpper} (p : PasswordPolicy) (own_hasher : bool) : list bytes :=
  (if MinLength p <? 0 then [B "passwordPolicy.minLength"] else []) ++
  (if HistoryCount p <? 0 then [B "passwordPolicy.historyCount"] else []) ++
  (if MaxAge p <? 0 then [B "passwordPolicy.maxAge"] else []) ++
  (if MaxFailures p <? 0 then [B "passwordPolicy.maxFailures"] else []) ++
  (if (0 <? MaxFailures p) && (LockoutDuration p <? 0) then [B "passwordPolicy.lockoutDuration"] else []) ++
  (if negb own_hasher && bool_decide (normalizeScheme (StorageScheme p) = None) then [B "passwordPolicy.storageScheme"] else []).

(** [PasswordHasher]; a [None] is an error of [Hash]. *)
Record PasswordHasher : Type := MkHasher {
  ph_Hash : nat → bytes → option bytes;
  ph_Verify : bytes → bytes → bool;
}.

(** [StandardHasher] over an entropy source. *)
Definition standard_hasher {UU : UnicodeUpper} {C : Crypto} (h : StandardHasher) (entropy : nat → option bytes) : PasswordHasher :=
  MkHasher (λ n, Hash_ h (entropy n)) verifyPassword.

(** What a write is refused or fails with. *)
Inductive pw_err : Type :=
| PasswordTooShort
| PasswordInHistory
| HashFailed
| PwConfig (e : field_err)
| PwStore (e : store_err).

Definition pw_lift {A} (r : res store_err A) : res pw_err A :=
  match r with
  | Ok a => Ok a
  | Err e => Err (PwStore e)
  end.

Definition pw_dn (r : res field_err DN) : res pw_err DN :=
  match r with
  | Ok a => Ok a
  | Err e => Err (PwConfig e)
  end.

Section password.
Context {U : Unicode}.

(** * Attributes *)

Definition setAttrValues (e : Entry) (name : bytes) (values : list bytes) : Entry :=
  match attrIndex e name with
  | Some i => set_values e i values
  | None => append_attr e (MkAttribute name values)
  end.

Definition upsertAttr (e : Entry) (name value : bytes) : Entry :=
  match attrIndex e name with
  | Some i => set_values e i [value]
  | None => append_attr e (MkAttribute name [value])
  end.

Definition removeAttr (e : Entry) (name : bytes) : Entry * bool :=
  match attrIndex e name with
  | Some i => (remove_attr e i, true)
  | None => (e, false)
  end.

(** The first unused value equal to [x] is marked as used. *)
Fixpoint use_value (x : bytes) (b : list (bool * bytes)) : option (list (bool * bytes)) :=
  match b with
  | [] => None
  | (used, y) :: b' =>
    if negb used && beq x y then Some ((true, y) :: b')
    else (λ l, (used, y) :: l) <$> use_value x b'
  end.

Fixpoint use_all (a : list bytes) (b : list (bool * bytes)) : bool :=
  match a with
  | [] => true
  | x :: a' => match use_value x b with Some b' => use_all a' b' | None => false end
  end.

Definition sameByteSet (a b : list bytes) : bool :=
  (length a =? length b)%nat && use_all a ((λ y, (false, y)) <$> b).

(** * Times of an entry *)

(** [None] is unparseable, [Some None] absent or empty. *)
Definition generalizedTimeAttr (e : Entry) (name : bytes) : option (option Z) :=
  match Values e name with
  | [] => Some None
  | v :: _ =>
    if (length v =? 0)%nat then Some None
    else match parseGeneralizedTime v with Some t => Some (Some t) | None => None end
  end.

Definition accountUnlockHeld (e : Entry) (now : Z) : bool :=
  match generalizedTimeAttr e attrAccountUnlockTime with
  | None => true
  | Some None => false
  | Some (Some t) => now <? t
  end.

Definition passwordExpirationElapsed (e : Entry) (now : Z) : bool :=
  match generalizedTimeAttr e attrPasswordExpirationTime with
  | None => true
  | Some None => false
  | Some (Some t) => negb (now <? t)
  end.

Definition pwdResetTrue (e : Entry) : bool :=
  existsb (λ v, bool_decide (to_lower (trim_space v) ∈ [B "true"; B "1"; B "yes"])) (Values e attrPwdReset).

(** * The engine *)

Context {St : Type} {UT : UpdateTx St}.
Variable policy : PasswordPolicy.
Variable hasher : PasswordHasher.
(** The failure of a bookkeeping commit, if any. *)
Variable commit_err : option store_err.

(** [e.failures]: bind failures by folded name. *)
Definition failures : Type := gmap bytes Z.

Definition failed (f : failures) (key : bytes) : Z := default 0 (f !! key).

Definition lockHeld (lockedAt now : Z) : bool :=
  if LockoutDuration policy <=? 0 then true else now <? lockedAt + LockoutDuration policy.

Definition lock_fn (dn : DN) (at_ : option Z) (st : St) : res write_err St :=
  cur ← lift (tx_Entry (ut_read st) dn);
  match at_ with
  | Some t => lift (ut_Replace st (upsertAttr cur attrPwdAccountLockedTime (formatGeneralizedTime t)))
  | None =>
    let '(e, removed) := removeAttr cur attrPwdAccountLockedTime in
    if removed then lift (ut_Replace st e) else Ok st
  end.

Definition writeLockAttr (st : St) (dn : DN) (at_ : option Z) : St := (Update commit_err st (lock_fn dn at_)).1.

Definition recordFailure (f : failures) (st : St) (key : bytes) (dn : DN) (now : Z) : failures * St :=
  let n := failed f key + 1 in
  if MaxFailures policy <=? n then (delete key f, writeLockAttr st dn (Some now))
  else (<[key := n]> f, st).

Definition invalid : Result := MkResult ResultInvalidCredentials [] (B "invalid credentials").

Definition expired : Result := MkResult ResultInvalidCredentials [] (B "password expired").

(** The answer of [VerifyBind] with the counts and the store it leaves. *)
Definition verdict : Type := Result * bool * (failures * St).

Definition VerifyBind (f : failures) (st : St) (dn : DN) (entry : Entry) (password : bytes) (now : Z) : verdict :=
  let key := FoldedKey dn in
  if accountUnlockHeld entry now then (invalid, false, (f, st))
  else
    match generalizedTimeAttr entry attrPwdAccountLockedTime with
    | None => (invalid, false, (f, st))
    | Some locked =>
      let held := match locked with
                  | Some lockedAt => (0 <? MaxFailures policy) && lockHeld lockedAt now || (MaxFailures policy =? 0)
                  | None => false
                  end in
      if held then (invalid, false, (f, st))
      else if negb (existsb (λ v, ph_Verify hasher v password) (Values entry attrUserPassword)) then
        (invalid, false, if 0 <? MaxFailures policy then recordFailure f st key dn now else (f, st))
      else if pwdResetTrue entry || passwordExpirationElapsed entry now then (expired, false, (f, st))
      else
        let aged := if 0 <? MaxAge policy then
                      match generalizedTimeAttr entry attrPwdChangedTime with
                      | None => Some invalid
                      | Some (Some changedAt) => if MaxAge policy <? Sub now changedAt then Some expired else None
                      | Some None => None
                      end
                    else None in
        match aged with
        | Some r => (r, false, (f, st))
        | None =>
          (MkResult ResultSuccess [] [], true,
           if 0 <? MaxFailures policy then
             (delete key f, if bool_decide (is_Some locked) then writeLockAttr st dn None else st)
           else (f, st))
        end
    end.

(** * Writes *)

(** Hash what is not hashed, [check] on each plaintext; [n] counts the hashes made. *)
Fixpoint hash_values (check : bytes → res pw_err ()) (n : nat) (vs : list bytes) : res pw_err (nat * list bytes) :=
  match vs with
  | [] => Ok (n, [])
  | v :: vs' =>
    if isPreHashed v then
      r ← hash_values check n vs';
      Ok (r.1, v :: r.2)
    else
      _ ← check v;
      match ph_Hash hasher n v with
      | None => Err HashFailed
      | Some h =>
        r ← hash_values check (S n) vs';
        Ok (r.1, h :: r.2)
      end
  end.

Definition unchecked (v : bytes) : res pw_err () := Ok ().

Definition isVariantPasswordAttr (name : bytes) : bool :=
  beq (CanonicalAttrType name) (B "userpassword") && negb (equal_fold (trim_space name) attrUserPassword).

Fixpoint hash_variants (n : nat) (attrs : list Attribute) : res pw_err (nat * list Attribute) :=
  match attrs with
  | [] => Ok (n, [])
  | a :: attrs' =>
    if isVariantPasswordAttr (Name a) then
      h ← hash_values unchecked n (AttrValues a);
      r ← hash_variants h.1 attrs';
      Ok (r.1, MkAttribute (Name a) h.2 :: r.2)
    else
      r ← hash_variants n attrs';
      Ok (r.1, a :: r.2)
  end.

Definition plain_variant (e : Entry) : bool :=
  existsb (λ a, isVariantPasswordAttr (Name a) && existsb (λ v, negb (isPreHashed v)) (AttrValues a)) (Attributes e).

Definition hashVariantPasswords (st : St) (after : Entry) : res pw_err (nat * St) :=
  if plain_variant after then
    dn ← pw_dn (ParseDN (EDN after));
    cur ← pw_lift (tx_Entry (ut_read st) dn);
    r ← hash_variants 0 (Attributes cur);
    st ← pw_lift (ut_Replace st (MkEntry (EDN cur) r.2));
    Ok (r.1, st)
  else Ok (0%nat, st).

Definition checkNewPassword (history : list bytes) (plaintext : bytes) : res pw_err () :=
  _ ← ensure (negb ((0 <? MinLength policy) && (blen plaintext <? MinLength policy))) PasswordTooShort;
  ensure (negb ((0 <? HistoryCount policy) && existsb (λ h, ph_Verify hasher h plaintext) history)) PasswordInHistory.

Definition applyAdd (n : nat) (st : St) (after : Entry) (now : Z) : res pw_err St :=
  let vals := Values after attrUserPassword in
  if (length vals =? 0)%nat then Ok st
  else
    dn ← pw_dn (ParseDN (EDN after));
    out ← hash_values (checkNewPassword []) n vals;
    cur ← pw_lift (tx_Entry (ut_read st) dn);
    pw_lift (ut_Replace st (upsertAttr (setAttrValues cur attrUserPassword out.2) attrPwdChangedTime (formatGeneralizedTime now))).

(** The history a change leaves: the replaced passwords, then the older ones. *)
Definition push_history (n : nat) (cur : Entry) (beforeVals : list bytes) : res pw_err Entry :=
  if 0 <? HistoryCount policy then
    prior ← hash_values unchecked n beforeVals;
    Ok (setAttrValues cur attrPasswordHistory (take (Z.to_nat (HistoryCount policy)) (prior.2 ++ Values cur attrPasswordHistory)))
  else Ok cur.

Definition applyModify (n : nat) (st : St) (before after : Entry) (now : Z) : res pw_err St :=
  let beforeVals := Values before attrUserPassword in
  let afterVals := Values after attrUserPassword in
  if sameByteSet beforeVals afterVals then Ok st
  else
    dn ← pw_dn (ParseDN (EDN after));
    cur ← pw_lift (tx_Entry (ut_read st) dn);
    if (length afterVals =? 0)%nat then
      let '(e, removed) := removeAttr cur attrPwdChangedTime in
      if removed then pw_lift (ut_Replace st e) else Ok st
    else
      let history := Values cur attrPasswordHistory ++ beforeVals in
      out ← hash_values (checkNewPassword history) n afterVals;
      let cur := setAttrValues cur attrUserPassword out.2 in
      let cur := upsertAttr cur attrPwdChangedTime (formatGeneralizedTime now) in
      let cur := (removeAttr cur attrPwdReset).1 in
      let cur := (removeAttr cur attrPasswordExpirationTime).1 in
      cur ← push_history out.1 cur beforeVals;
      pw_lift (ut_Replace st cur).

Definition AfterWrite (now : Z) (st : St) (ev : WriteEvent) : res pw_err St :=
  r ← match ev_Op ev, ev_After ev with
      | WriteAdd, Some after | WriteModify, Some after => hashVariantPasswords st after
      | _, _ => Ok (0%nat, st)
      end;
  match ev_Op ev, ev_Before ev, ev_After ev with
  | WriteAdd, _, Some after => applyAdd r.1 r.2 after now
  | WriteModify, Some before, Some after => applyModify r.1 r.2 before after now
  | _, _, _ => Ok r.2
  end.

(** The engine among the plugins of the server. *)
Definition pwpolicy (now : Z) (st : St) (ev : WriteEvent) : res write_err St :=
  match AfterWrite now st ev with
  | Ok st' => Ok st'
  | Err _ => Err WPlugin
  end.

End password.
