(* ===== verification/PasswordFacts.v ===== *)
(** Facts of the password policy: comparison of value lists, what a write leaves in
    the credential attributes, what a change of password requires and records, and
    where the engine does not look ([password_escapes]). *)

From stdpp Require Import sorting.
From S2P Require Import Prelude GoStrings DN DNFacts Message RenameFacts Ber Decode Attr Schema Matching FilterEval StoreIface Aci Server Base64 Paging PagingFacts Search SearchFacts Write FakeStore WriteOps WriteFacts TreeFacts GoTime PwHash Password.
Local Open Scope Z_scope.

(** * Value lists *)

(** What is not yet used. *)
Definition unused (b : list (bool * bytes)) : list bytes := snd <$> filter (λ p, p.1 = false) b.

Lemma use_value_spec (x : bytes) (b : list (bool * bytes)) :
  match use_value x b with
  | Some b' => unused b ≡ₚ x :: unused b'
  | None => x ∉ unused b
  end.
Proof.
  unfold unused. induction b as [|[u y] b IH]; cbn [use_value]; [apply not_elem_of_nil|].
  destruct u; cbn [negb andb].
  - rewrite filter_cons_False by done. destruct (use_value x b); cbn [fmap option_fmap option_map]; [|done]. by rewrite filter_cons_False by done.
  - rewrite filter_cons_True by done. cbn [fmap list_fmap snd]. destruct (beq x y) eqn:E.
    + apply beq_true in E as ->. by rewrite filter_cons_False by done.
    + destruct (use_value x b) as [b'|]; cbn [fmap option_fmap option_map].
      * rewrite filter_cons_True by done. cbn [fmap list_fmap snd]. rewrite IH. apply Permutation_swap.
      * intros [->|H]%elem_of_cons; [|done]. by rewrite beq_refl in E.
Qed.

Lemma use_all_spec (a : list bytes) (b : list (bool * bytes)) : use_all a b = true ↔ a ⊆+ unused b.
Proof.
  revert b. induction a as [|x a IH]; intros b; cbn [use_all]; [split; [intros _; apply submseteq_nil_l | done]|].
  pose proof (use_value_spec x b) as H. destruct (use_value x b) as [b'|].
  - rewrite H, IH. split; [by apply submseteq_skip|]. by apply (submseteq_app_inv_l _ _ [x]).
  - split; [done|]. intros Hs. exfalso. apply H. eapply elem_of_submseteq; [|exact Hs]. by left.
Qed.

Lemma sameByteSet_aux (a b : list bytes) : sameByteSet a b = true ↔ a ≡ₚ b.
Proof.
  unfold sameByteSet. assert (E : unused ((λ y, (false, y)) <$> b) = b).
  { unfold unused. induction b as [|y b IH]; [done|]. cbn [fmap list_fmap]. rewrite filter_cons_True by done. cbn. by f_equal. }
  rewrite andb_true_iff, use_all_spec, E, Nat.eqb_eq. split.
  - intros [Hl Hs]. apply submseteq_length_Permutation; [done | lia].
  - intros H. split; [by apply Permutation_length | by rewrite H].
Qed.

(** Two value lists are the same set of bytes, to the engine, exactly when one is
    a permutation of the other: duplicates count. *)
Theorem sameByteSet_perm (a b : list bytes) : sameByteSet a b = true ↔ a ≡ₚ b.
Proof. apply sameByteSet_aux. Qed.

(** * Names of attributes *)

Section names.
Context {U : Unicode} {UL : UnicodeLaws U}.

(** ASCII names that fold together have the same lower case. *)
Lemma ascii_fold_lower (s t : bytes) :
  forallb is_ascii s = true → forallb is_ascii t = true → equal_fold s t = true → to_lower s = to_lower t.
Proof.
  unfold to_lower. intros Hs Ht. rewrite Hs, Ht. unfold equal_fold. revert t Hs Ht.
  induction s as [|c s IH]; intros [|c' t] Hs Ht; [done | | |].
  - cbn in Ht. apply andb_prop in Ht as [Hc _]. rewrite runes_ascii_cons by by apply is_ascii_true. done.
  - cbn in Hs. apply andb_prop in Hs as [Hc _]. rewrite runes_ascii_cons by by apply is_ascii_true. done.
  - cbn in Hs, Ht. apply andb_prop in Hs as [Hc Hs], Ht as [Hc' Ht]. apply is_ascii_true in Hc, Hc'.
    rewrite !runes_ascii_cons by done. cbn [fold_eq fst]. pose proof (bz_range c). pose proof (bz_range c').
    rewrite rune_fold_ascii by lia. intros [E%Z.eqb_eq Hst]%andb_prop. cbn [fmap list_fmap]. f_equal; [|by apply IH].
    unfold byte_lower. by f_equal.
Qed.

(** An attribute description as RFC 4512 writes it: ASCII, without surrounding space. *)
Definition plain_name (n : bytes) : bool := forallb is_ascii n && beq (trim_space n) n.

Lemma plain_name_canonical (n m : bytes) :
  plain_name n = true → plain_name m = true → equal_fold n m = true → CanonicalAttrType n = CanonicalAttrType m.
Proof.
  unfold plain_name. intros [Hn Hn'%beq_true]%andb_prop [Hm Hm'%beq_true]%andb_prop H.
  unfold CanonicalAttrType, CanonicalAttr. rewrite Hn', Hm'. by rewrite (ascii_fold_lower n m).
Qed.

(** Attributes that hold credentials, under any spelling. *)
Definition credential (a : Attribute) : bool := beq (CanonicalAttrType (Name a)) (B "userpassword").

Definition all_hashed (a : Attribute) : Prop := Forall (λ v, isPreHashed v = true) (AttrValues a).

(** No credential is stored in the clear. *)
Definition sealed (e : Entry) : Prop := Forall (λ a, credential a = true → all_hashed a) (Attributes e).

Definition plain_names (e : Entry) : Prop := Forall (λ a, plain_name (Name a) = true) (Attributes e).

(** A credential is of the exact attribute or of a variant. *)
Lemma credential_split (a : Attribute) :
  plain_name (Name a) = true →
  credential a = named attrUserPassword a || isVariantPasswordAttr (Name a) ∧ (named attrUserPassword a = true → isVariantPasswordAttr (Name a) = false).
Proof.
  intros Hp. unfold isVariantPasswordAttr, named, credential. pose proof Hp as [_ Ht%beq_true]%andb_prop. rewrite Ht.
  destruct (equal_fold (Name a) attrUserPassword) eqn:E; cbn [negb orb]; [|rewrite andb_true_r; done].
  split; [|intros _; apply andb_false_r]. rewrite (plain_name_canonical (Name a) attrUserPassword Hp) by done. done.
Qed.

(** An attribute the engine stamps is no credential. *)
Lemma stamp_not_credential (n : bytes) (a : Attribute) :
  plain_name n = true → CanonicalAttrType n ≠ B "userpassword" → plain_name (Name a) = true → named n a = true → credential a = false.
Proof.
  intros Hn Hne Ha H. unfold credential. rewrite (plain_name_canonical (Name a) n Ha Hn H). by apply beq_false.
Qed.
End names.

(** * Entries *)

Section entries.
Context {U : Unicode} {UL : UnicodeLaws U}.

(** Attribute names are plain and no two are one name. *)
Definition tidy (e : Entry) : Prop := unique_names e ∧ plain_names e.

(** [e'] is [e] with attributes dropped, or values of attributes named [n] changed, or
    one attribute named [n] added. *)
Definition touched (n : bytes) (e e' : Entry) : Prop :=
  ∀ a', a' ∈ Attributes e' → a' ∈ Attributes e ∨ named n a' = true ∧ (Name a' = n ∨ ∃ a, a ∈ Attributes e ∧ Name a' = Name a).

Lemma touched_plain (n : bytes) (e e' : Entry) : plain_name n = true → touched n e e' → plain_names e → plain_names e'.
Proof.
  unfold plain_names. rewrite !Forall_forall. intros Hn Ht Hp a' Ha'. destruct (Ht a' Ha') as [?|[_ [->|(a & Ha & ->)]]]; auto.
Qed.

(** Touching what the engine stamps seals nothing open. *)
Lemma touched_sealed (n : bytes) (e e' : Entry) :
  plain_name n = true → CanonicalAttrType n ≠ B "userpassword" → touched n e e' → plain_names e → sealed e → sealed e'.
Proof.
  intros Hn Hc Ht Hp Hs. pose proof (touched_plain n e e' Hn Ht Hp) as Hp'. unfold sealed, plain_names in *. rewrite Forall_forall in *.
  intros a' Ha' Hcred. destruct (Ht a' Ha') as [?|[Hna _]]; [by apply Hs|].
  by rewrite (stamp_not_credential n a' Hn Hc (Hp' a' Ha') Hna) in Hcred.
Qed.

Lemma set_values_touched (n : bytes) (e : Entry) (l l' : list Attribute) (a : Attribute) (vs : list bytes) :
  Attributes e = l ++ a :: l' → named n a = true → touched n e (set_values e (length l) vs).
Proof.
  intros H Ha a'. rewrite (set_values_middle e l l' a vs H). cbn [Attributes]. rewrite H.
  intros [?|[->|?]%elem_of_cons]%elem_of_app; [left; set_solver | | left; set_solver].
  right. split; [done|]. right. exists a. split; [set_solver | done].
Qed.

Lemma remove_attr_touched (n : bytes) (e : Entry) (i : nat) : touched n e (remove_attr e i).
Proof. intros a' Ha'. left. unfold remove_attr in Ha'. cbn [Attributes] in Ha'. eapply elem_of_submseteq; [exact Ha' | apply sublist_submseteq, sublist_delete]. Qed.

Lemma append_touched (n : bytes) (e : Entry) (vs : list bytes) : touched n e (append_attr e (MkAttribute n vs)).
Proof.
  intros a'. cbn [append_attr Attributes]. intros [?| ->%list_elem_of_singleton]%elem_of_app; [by left|].
  right. split; [apply named_self | by left].
Qed.

Lemma setAttrValues_touched (n : bytes) (e : Entry) (vs : list bytes) : touched n e (setAttrValues e n vs).
Proof.
  unfold setAttrValues. pose proof (attrIndex_spec e n) as H. destruct (attrIndex e n); [|apply append_touched].
  destruct H as (l & a & l' & He & -> & Ha & _). by eapply set_values_touched.
Qed.

Lemma removeAttr_touched (n : bytes) (e : Entry) : touched n e (removeAttr e n).1.
Proof. unfold removeAttr. destruct (attrIndex e n); cbn [fst]; [apply remove_attr_touched | intros a' ?; by left]. Qed.

Lemma setAttrValues_replaced (e : Entry) (n : bytes) (vs : list bytes) : unique_names e → replaced n vs e (setAttrValues e n vs).
Proof.
  intros Hu. unfold setAttrValues. pose proof (attrIndex_spec e n) as H. destruct (attrIndex e n); [|by apply replaced_append].
  destruct H as (l & a & l' & He & -> & Ha & _). by eapply replaced_set.
Qed.

(** [upsertAttr] sets one value. *)
Lemma upsertAttr_set (e : Entry) (n v : bytes) : upsertAttr e n v = setAttrValues e n [v].
Proof. done. Qed.

Lemma removeAttr_replaced (e : Entry) (n : bytes) : unique_names e → replaced n [] e (removeAttr e n).1.
Proof.
  intros Hu. unfold removeAttr. pose proof (attrIndex_spec e n) as H. destruct (attrIndex e n); cbn [fst].
  - destruct H as (l & a & l' & He & -> & Ha & _). by eapply replaced_remove.
  - apply replaced_self; [done|]. rewrite Values_vals. by apply vals_none.
Qed.

Lemma setAttrValues_tidy (e : Entry) (n : bytes) (vs : list bytes) : plain_name n = true → tidy e → tidy (setAttrValues e n vs).
Proof.
  intros Hn [Hu Hp]. split; [eapply rep_unique; by apply setAttrValues_replaced|].
  by apply (touched_plain n e); [|apply setAttrValues_touched|].
Qed.

Lemma removeAttr_tidy (e : Entry) (n : bytes) : plain_name n = true → tidy e → tidy (removeAttr e n).1.
Proof.
  intros Hn [Hu Hp]. split; [eapply rep_unique; by apply removeAttr_replaced|].
  by apply (touched_plain n e); [|apply removeAttr_touched|].
Qed.

Lemma setAttrValues_dn (e : Entry) (n : bytes) (vs : list bytes) : EDN (setAttrValues e n vs) = EDN e.
Proof. unfold setAttrValues. by destruct (attrIndex e n). Qed.

Lemma removeAttr_dn (e : Entry) (n : bytes) : EDN (removeAttr e n).1 = EDN e.
Proof. unfold removeAttr. by destruct (attrIndex e n). Qed.

(** ** Sealed entries *)

Definition variants_hashed (e : Entry) : Prop := Forall (λ a, isVariantPasswordAttr (Name a) = true → all_hashed a) (Attributes e).

(** Plain names with different lower cases are different names. *)
Lemma fold_differs (s t : bytes) :
  forallb is_ascii s = true → forallb is_ascii t = true → to_lower s ≠ to_lower t → equal_fold s t = false.
Proof. intros Hs Ht Hne. apply not_true_iff_false. intros E. apply Hne. by apply ascii_fold_lower. Qed.

(** The exact attribute and its variants are all there is. *)
Lemma sealed_split (e : Entry) :
  tidy e → sealed e ↔ variants_hashed e ∧ Forall (λ v, isPreHashed v = true) (Values e attrUserPassword).
Proof.
  intros [Hu Hp]. unfold sealed, variants_hashed, plain_names in *. rewrite !Forall_forall in *.
  assert (Hc : ∀ a, a ∈ Attributes e → credential a = named attrUserPassword a || isVariantPasswordAttr (Name a)).
  { intros a Ha. by apply credential_split, Hp. }
  pose proof (attrIndex_spec e attrUserPassword) as Hi. split.
  - intros Hs. split; [intros a Ha Hv; apply Hs; [done|]; by rewrite Hc, Hv, orb_true_r by done|].
    destruct (attrIndex e attrUserPassword).
    + destruct Hi as (l & a & l' & He & _ & Ha & Hl). rewrite (Values_middle e _ l l' a He Ha Hl). intros v Hv.
      assert (Hin : a ∈ Attributes e) by (rewrite He; set_solver). specialize (Hs a Hin). rewrite Hc, Ha in Hs by done.
      specialize (Hs eq_refl). unfold all_hashed in Hs. rewrite Forall_forall in Hs. by apply Hs.
    + rewrite Values_vals, vals_none by done. intros v Hv. by apply elem_of_nil in Hv.
  - intros [Hv Hx] a Ha Hcred. rewrite Hc in Hcred by done. apply orb_true_iff in Hcred as [Hn|?]; [|by apply Hv].
    destruct (attrIndex e attrUserPassword).
    + destruct Hi as (l & b & l' & He & _ & Hb & Hl). rewrite (Values_middle e _ l l' b He Hb Hl) in Hx.
      pose proof (unique_middle e _ l l' b Hu He Hb) as Ho. rewrite He in Ha.
      apply elem_of_app in Ha as [Ha|[->|Ha]%elem_of_cons]; [| unfold all_hashed; by rewrite Forall_forall |];
        rewrite Forall_forall in Ho; rewrite Ho in Hn by set_solver; done.
    + rewrite Forall_forall in Hi. by rewrite (Hi a Ha) in Hn.
Qed.

Lemma exact_not_variant : isVariantPasswordAttr attrUserPassword = false.
Proof.
  unfold isVariantPasswordAttr. change (trim_space attrUserPassword) with attrUserPassword. rewrite equal_fold_refl. apply andb_false_r.
Qed.

(** Being a variant depends on the folded name. *)
Lemma variant_fold (n m : bytes) :
  plain_name n = true → plain_name m = true → equal_fold n m = true → isVariantPasswordAttr n = isVariantPasswordAttr m.
Proof.
  intros Hn Hm H. unfold isVariantPasswordAttr. rewrite (plain_name_canonical n m Hn Hm H). f_equal. f_equal.
  pose proof Hn as [_ ->%beq_true]%andb_prop. pose proof Hm as [_ ->%beq_true]%andb_prop.
  apply eq_true_iff_eq. split; intros E; eapply equal_fold_trans; [|exact E|exact H|exact E]. by rewrite equal_fold_sym.
Qed.

Lemma touched_variants (n : bytes) (e e' : Entry) :
  plain_name n = true → isVariantPasswordAttr n = false → touched n e e' → plain_names e → variants_hashed e → variants_hashed e'.
Proof.
  intros Hn Hv Ht Hp Hs. pose proof (touched_plain n e e' Hn Ht Hp) as Hp'. unfold variants_hashed, plain_names in *. rewrite Forall_forall in *.
  intros a' Ha' Hva. destruct (Ht a' Ha') as [?|[Hna _]]; [by apply Hs|].
  by rewrite (variant_fold (Name a') n (Hp' a' Ha') Hn Hna), Hv in Hva.
Qed.
End entries.

(** * The engine *)

(** What a hasher promises: what it makes is recognised as hashed. *)
Definition marks (hasher : PasswordHasher) : Prop := ∀ n p h, ph_Hash hasher n p = Some h → isPreHashed h = true.

Lemma standard_marks {UU : UnicodeUpper} {C : Crypto} (h : StandardHasher) (entropy : nat → option bytes) : marks (standard_hasher h entropy).
Proof.
  intros n p v. cbn [ph_Hash standard_hasher]. destruct (entropy n) as [salt|] eqn:E; [apply Hash_prehashed|].
  unfold Hash_. by destruct (normalizeScheme _).
Qed.

Section hashing.
Context (hasher : PasswordHasher) (M : marks hasher).

(** What one value becomes. *)
Definition sealed_as (check : bytes → res pw_err ()) (v h : bytes) : Prop :=
  if isPreHashed v then h = v else check v = Ok () ∧ ∃ k, ph_Hash hasher k v = Some h.

Lemma hash_values_aux (check : bytes → res pw_err ()) (n : nat) (vs : list bytes) (r : nat * list bytes) :
  hash_values hasher check n vs = Ok r → Forall2 (sealed_as check) vs r.2 ∧ Forall (λ v, isPreHashed v = true) r.2.
Proof using M.
  revert n r. induction vs as [|v vs IH]; intros n r H; cbn [hash_values] in H; [injection H as <-; by split; constructor|].
  unfold sealed_as. destruct (isPreHashed v) eqn:Ev.
  - apply bind_ok in H as (r' & Hr & [= <-]). apply IH in Hr as [? ?]. split; constructor; try done. by rewrite Ev.
  - apply bind_ok in H as ([] & Hc & H). destruct (ph_Hash hasher n v) as [h|] eqn:Eh; [|done].
    apply bind_ok in H as (r' & Hr & [= <-]). apply IH in Hr as [? ?]. split; constructor; try done; [|by eapply M].
    rewrite Ev. split; [done | by exists n].
Qed.

(** What one attribute becomes. *)
Definition variant_hashed {U : Unicode} (a a' : Attribute) : Prop :=
  if isVariantPasswordAttr (Name a) then Name a' = Name a ∧ all_hashed a' else a' = a.

Lemma hash_variants_aux {U : Unicode} (n : nat) (attrs : list Attribute) (r : nat * list Attribute) :
  hash_variants hasher n attrs = Ok r → Forall2 variant_hashed attrs r.2.
Proof using M.
  revert n r. induction attrs as [|a attrs IH]; intros n r H; cbn [hash_variants] in H; [by injection H as <-; constructor|].
  unfold variant_hashed. destruct (isVariantPasswordAttr (Name a)) eqn:Ev.
  - apply bind_ok in H as (h & Hh%hash_values_aux & H). apply bind_ok in H as (r' & Hr%IH & [= <-]). constructor; [|done].
    rewrite Ev. split; [done | apply Hh].
  - apply bind_ok in H as (r' & Hr%IH & [= <-]). constructor; [by rewrite Ev | done].
Qed.
End hashing.

Section variants.
Context {U : Unicode} {UL : UnicodeLaws U}.

(** An entry with its variants hashed. *)
Record hardened (e e' : Entry) : Prop := {
  hard_dn : EDN e' = EDN e;
  hard_attrs : Forall2 variant_hashed (Attributes e) (Attributes e');
}.

Lemma variant_hashed_name (a a' : Attribute) : variant_hashed a a' → Name a' = Name a.
Proof. unfold variant_hashed. destruct (isVariantPasswordAttr _); [by intros [? _] | by intros ->]. Qed.

Lemma hardened_tidy (e e' : Entry) : hardened e e' → tidy e → tidy e'.
Proof.
  intros [_ H] [Hu Hp]. assert (En : Name <$> Attributes e' = Name <$> Attributes e).
  { clear Hu Hp. induction H as [|a a' l l' Ha _ IH]; [done|]. cbn [fmap list_fmap]. by rewrite (variant_hashed_name a a' Ha), IH. }
  split; [|unfold plain_names in *; apply (Forall_fmap Name (λ n, plain_name n = true)); rewrite En; by apply Forall_fmap].
  unfold unique_names in *. clear Hp En. revert Hu. induction H as [|a a' l l' Ha H IH]; [done|].
  intros Hs. inversion Hs as [|? ? Hs' Hal]; subst. constructor; [by apply IH|]. unfold names_differ in *.
  rewrite (variant_hashed_name a a' Ha). clear IH Hs Hs' Ha. induction H as [|b b' l l' Hb _ IH]; [constructor|].
  inversion Hal; subst. constructor; [by rewrite (variant_hashed_name b b' Hb) | by apply IH].
Qed.

Lemma hardened_variants (e e' : Entry) : hardened e e' → variants_hashed e'.
Proof.
  intros [_ H]. unfold variants_hashed. induction H as [|a a' l l' Ha _ IH]; constructor; [|done].
  pose proof (variant_hashed_name a a' Ha) as ->. unfold variant_hashed in Ha. intros Hv. rewrite Hv in Ha. apply Ha.
Qed.

(** No other attribute is touched. *)
Lemma hardened_values (e e' : Entry) (n : bytes) :
  plain_name n = true → isVariantPasswordAttr n = false → hardened e e' → tidy e → Values e' n = Values e n.
Proof.
  intros Hn Hv [_ H] [_ Hp]. rewrite !Values_vals. unfold plain_names in Hp.
  induction H as [|a a' l l' Ha _ IH]; [done|]. inversion Hp as [|? ? Hpa Hpl]; subst. rewrite !vals_cons, IH by done.
  unfold named. rewrite (variant_hashed_name a a' Ha). destruct (equal_fold (Name a) n) eqn:E; [|done].
  unfold variant_hashed in Ha. by rewrite (variant_fold (Name a) n Hpa Hn E), Hv in Ha; subst.
Qed.

Lemma plain_variant_false (e : Entry) : plain_variant e = false → variants_hashed e.
Proof.
  unfold plain_variant, variants_hashed. intros H. apply Forall_forall. intros a Ha Hv. apply Forall_forall. intros v Hin.
  apply not_false_iff_true. intros Hf. rewrite <- not_true_iff_false in H. apply H. apply existsb_exists. exists a. rewrite <- list_elem_of_In. split; [done|].
  rewrite Hv. cbn [andb]. apply existsb_exists. exists v. rewrite <- list_elem_of_In. split; [done|]. by rewrite Hf.
Qed.
End variants.

(** ** What a write leaves *)

Section engine.
Context {U : Unicode} {UL : UnicodeLaws U} {St : Type} {UT : UpdateTx St}.
Context (contents : St → gmap bytes Entry) (ok : St → Prop) {CL : UpdateTxLaws UT contents ok}.
Context (policy : PasswordPolicy) (hasher : PasswordHasher) (M : marks hasher).

(** A step that rewrites at most the entry at [k], to one with the attributes of [e']. *)
Definition lands (k : bytes) (st st' : St) (e' : Entry) : Prop :=
  ok st' ∧ ∃ dn, contents st' = <[k := MkEntry dn (Attributes e')]> (contents st).

Lemma replace_lands (st st' : St) (k : bytes) (cur e : Entry) :
  ok st → contents st !! k = Some cur → EDN e = EDN cur → ut_Replace st e = Ok st' → lands k st st' e.
Proof.
  intros Hok Hk Hdn H. destruct (ut_keys (UpdateTxLaws := CL) st Hok k cur Hk) as (d & Hd & <- & Ht).
  apply (ut_replace (UpdateTxLaws := CL)) in H as (d' & Hd' & _ & H); [|done]. rewrite Hdn, Hd in Hd'. injection Hd' as <-.
  destruct (H Ht) as [Hok' E]. split; [done|]. by exists (String d).
Qed.

Lemma lands_self (st : St) (k : bytes) (cur : Entry) : ok st → contents st !! k = Some cur → lands k st st cur.
Proof. intros Hok Hk. split; [done|]. exists (EDN cur). rewrite insert_id; [done|]. by destruct cur. Qed.

Lemma lands_trans (st st1 st2 : St) (k : bytes) (e1 e2 : Entry) : lands k st st1 e1 → lands k st1 st2 e2 → lands k st st2 e2.
Proof. intros [_ (dn & E)] [Hok' (dn' & E')]. split; [done|]. exists dn'. by rewrite E', E, insert_insert_eq. Qed.

Lemma lands_lookup (st st' : St) (k : bytes) (e : Entry) : lands k st st' e → ∃ e', contents st' !! k = Some e' ∧ Attributes e' = Attributes e.
Proof. intros [_ (dn & E)]. eexists. rewrite E, lookup_insert_eq. by split. Qed.

(** [after] is what [st] holds under the name [d]. *)
Record stored (st : St) (d : DN) (after : Entry) : Prop := {
  st_ok : ok st;
  st_name : ParseDN (EDN after) = Ok d;
  st_held : ∃ cur, contents st !! FoldedKey d = Some cur ∧ Attributes cur = Attributes after;
}.

Lemma stored_read (st : St) (d : DN) (after cur : Entry) :
  stored st d after → pw_lift (tx_Entry (ut_read st) d) = Ok cur →
  contents st !! FoldedKey d = Some cur ∧ Attributes cur = Attributes after.
Proof.
  intros [Hok _ (cur' & Hk & Ha)] H. rewrite (ut_entry (UpdateTxLaws := CL)), Hk in H by done. by injection H as <-.
Qed.

Lemma stored_name (st : St) (d d' : DN) (after : Entry) : stored st d after → pw_dn (ParseDN (EDN after)) = Ok d' → d' = d.
Proof. intros [_ Hn _] H. rewrite Hn in H. by injection H as <-. Qed.

Lemma pw_lift_ok {A} (r : res store_err A) (a : A) : pw_lift r = Ok a → r = Ok a.
Proof. by destruct r; intros [= <-]. Qed.

Lemma attrs_eq_tidy (e e' : Entry) : Attributes e' = Attributes e → tidy e → tidy e'.
Proof. unfold tidy, unique_names, plain_names. by intros ->. Qed.

Lemma Values_attrs (e e' : Entry) (n : bytes) : Attributes e' = Attributes e → Values e' n = Values e n.
Proof. unfold Values. by intros ->. Qed.

Lemma sealed_attrs (e e' : Entry) : Attributes e' = Attributes e → sealed e → sealed e'.
Proof. unfold sealed. by intros ->. Qed.

(** The pass over the variants. *)
Lemma variants_pass (st : St) (d : DN) (after : Entry) (r : nat * St) :
  stored st d after → tidy after → hashVariantPasswords hasher st after = Ok r →
  ∃ e1, lands (FoldedKey d) st r.2 e1 ∧ tidy e1 ∧ variants_hashed e1 ∧
    ∀ n, plain_name n = true → isVariantPasswordAttr n = false → Values e1 n = Values after n.
Proof using CL M UL.
  intros Hs Hti H. unfold hashVariantPasswords in H. destruct (plain_variant after) eqn:Ep.
  - apply bind_ok in H as (d' & Hd & H). apply (stored_name st d) in Hd; [|done]. subst d'.
    apply bind_ok in H as (cur & Hc & H). destruct (stored_read _ _ _ _ Hs Hc) as [Hk Ha].
    apply bind_ok in H as (r' & Hr & H). apply bind_ok in H as (st' & Hst%pw_lift_ok & [= <-]). cbn [snd].
    apply hash_variants_aux in Hr; [|done]. assert (Hh : hardened cur (MkEntry (EDN cur) r'.2)) by by split.
    assert (Hti' : tidy cur) by by eapply attrs_eq_tidy. exists (MkEntry (EDN cur) r'.2). split_and!.
    + by eapply replace_lands; [apply Hs | exact Hk | |].
    + by eapply hardened_tidy.
    + by eapply hardened_variants.
    + intros n Hn Hv. rewrite (hardened_values cur) by done. by apply Values_attrs.
  - injection H as <-. cbn [snd]. destruct (st_held _ _ _ Hs) as (cur & Hk & Ha). exists cur. split_and!.
    + apply lands_self; [apply Hs | done].
    + by eapply attrs_eq_tidy.
    + unfold variants_hashed. rewrite Ha. by apply plain_variant_false.
    + intros n _ _. by apply Values_attrs.
Qed.

Lemma stored_after (st st1 : St) (d : DN) (e1 : Entry) :
  lands (FoldedKey d) st st1 e1 → ∃ cur, ok st1 ∧ contents st1 !! FoldedKey d = Some cur ∧ Attributes cur = Attributes e1 ∧
    tx_Entry (ut_read st1) d = Ok cur.
Proof using CL.
  intros H. destruct (lands_lookup _ _ _ _ H) as (cur & Hk & Ha). destruct H as [Hok _]. exists cur. split_and!; [done..|].
  by rewrite (ut_entry (UpdateTxLaws := CL)), Hk.
Qed.

(** Setting the exact attribute to hashed values seals an entry whose variants are. *)
Lemma set_password_sealed (e : Entry) (out : list bytes) :
  tidy e → variants_hashed e → Forall (λ v, isPreHashed v = true) out → sealed (setAttrValues e attrUserPassword out).
Proof using UL.
  intros Hti Hv Ho. apply sealed_split; [by apply setAttrValues_tidy|]. split.
  - apply (touched_variants attrUserPassword e); [done | apply exact_not_variant | apply setAttrValues_touched | apply Hti | done].
  - by rewrite (rep_values _ _ _ _ (setAttrValues_replaced e attrUserPassword out (proj1 Hti))).
Qed.

Lemma stamp_tidy_sealed (e : Entry) (n : bytes) (vs : list bytes) :
  plain_name n = true → CanonicalAttrType n ≠ B "userpassword" → tidy e ∧ sealed e → tidy (setAttrValues e n vs) ∧ sealed (setAttrValues e n vs).
Proof using UL.
  intros Hn Hc [Hti Hs]. split; [by apply setAttrValues_tidy|]. apply (touched_sealed n e); [done | done | apply setAttrValues_touched | apply Hti | done].
Qed.

Lemma drop_tidy_sealed (e : Entry) (n : bytes) :
  plain_name n = true → CanonicalAttrType n ≠ B "userpassword" → tidy e ∧ sealed e → tidy (removeAttr e n).1 ∧ sealed (removeAttr e n).1.
Proof using UL.
  intros Hn Hc [Hti Hs]. split; [by apply removeAttr_tidy|]. apply (touched_sealed n e); [done | done | apply removeAttr_touched | apply Hti | done].
Qed.

(** The entry a step leaves is tidy and sealed. *)
Definition seals (k : bytes) (st st' : St) : Prop := ∃ e, lands k st st' e ∧ tidy e ∧ sealed e.

Lemma seals_trans (k : bytes) (st st1 st2 : St) (e1 : Entry) : lands k st st1 e1 → seals k st1 st2 → seals k st st2.
Proof using. intros H (e & He & Ht). exists e. split; [by eapply lands_trans | done]. Qed.

Lemma replace_seals (st st' : St) (k : bytes) (cur e : Entry) :
  ok st → contents st !! k = Some cur → EDN e = EDN cur → tidy e ∧ sealed e → pw_lift (ut_Replace st e) = Ok st' → seals k st st'.
Proof using CL. intros Hok Hk Hdn He H%pw_lift_ok. exists e. split; [by eapply replace_lands | done]. Qed.

Lemma keep_seals (st : St) (k : bytes) (cur : Entry) : ok st → contents st !! k = Some cur → tidy cur ∧ sealed cur → seals k st st.
Proof using CL. intros Hok Hk He. exists cur. split; [by apply lands_self | done]. Qed.

(** A state after the pass over the variants. *)
Record passed (st : St) (d : DN) (after cur : Entry) : Prop := {
  ps_ok : ok st;
  ps_name : ParseDN (EDN after) = Ok d;
  ps_held : contents st !! FoldedKey d = Some cur;
  ps_tidy : tidy cur;
  ps_variants : variants_hashed cur;
}.

Lemma passed_read (st : St) (d : DN) (after cur e : Entry) :
  passed st d after cur → pw_lift (tx_Entry (ut_read st) d) = Ok e → e = cur.
Proof using CL. intros [Hok _ Hk _ _]. rewrite (ut_entry (UpdateTxLaws := CL)), Hk by done. by intros [= <-]. Qed.

Lemma applyAdd_seals (n : nat) (st st' : St) (d : DN) (after cur : Entry) (now : Z) :
  passed st d after cur → Values cur attrUserPassword = Values after attrUserPassword →
  applyAdd policy hasher n st after now = Ok st' → seals (FoldedKey d) st st'.
Proof using CL M UL.
  intros Hp Hv H. unfold applyAdd in H. destruct (length (Values after attrUserPassword) =? 0)%nat eqn:E.
  - injection H as <-. eapply keep_seals; [apply Hp | apply Hp |]. split; [apply Hp|]. apply sealed_split; [apply Hp|]. split; [apply Hp|].
    apply Nat.eqb_eq, length_zero_iff_nil in E. by rewrite Hv, E.
  - apply bind_ok in H as (d' & Hd & H). rewrite (ps_name _ _ _ _ Hp) in Hd. injection Hd as <-.
    apply bind_ok in H as (out & Ho & H). apply bind_ok in H as (cur' & Hc & H). apply (passed_read _ _ _ _ _ Hp) in Hc as ->.
    apply hash_values_aux in Ho as [_ Ho]; [|done]. eapply replace_seals; [apply Hp | apply Hp | | | exact H].
    + by rewrite upsertAttr_set, !setAttrValues_dn.
    + rewrite upsertAttr_set. apply stamp_tidy_sealed; [done | done|]. split; [apply setAttrValues_tidy; [done | apply Hp]|].
      apply set_password_sealed; [apply Hp | apply Hp | done].
Qed.

Lemma push_history_seals (n : nat) (cur e : Entry) (vs : list bytes) :
  tidy cur ∧ sealed cur → push_history policy hasher n cur vs = Ok e → EDN e = EDN cur ∧ tidy e ∧ sealed e.
Proof using UL.
  intros Hc H. unfold push_history in H. destruct (0 <? HistoryCount policy); [|by injection H as <-].
  apply bind_ok in H as (prior & _ & [= <-]). split; [apply setAttrValues_dn|]. by apply stamp_tidy_sealed.
Qed.

Lemma applyModify_seals (n : nat) (st st' : St) (d : DN) (before after cur : Entry) (now : Z) :
  passed st d after cur → Values cur attrUserPassword = Values after attrUserPassword →
  Forall (λ v, isPreHashed v = true) (Values before attrUserPassword) →
  applyModify policy hasher n st before after now = Ok st' → seals (FoldedKey d) st st'.
Proof using CL M UL.
  intros Hp Hv Hb H. unfold applyModify in H.
  assert (Hcur : Forall (λ v, isPreHashed v = true) (Values after attrUserPassword) → tidy cur ∧ sealed cur).
  { intros Ha. split; [apply Hp|]. apply sealed_split; [apply Hp|]. split; [apply Hp|]. by rewrite Hv. }
  destruct (sameByteSet _ _) eqn:Es.
  { injection H as <-. eapply keep_seals; [apply Hp..|]. apply Hcur. apply sameByteSet_aux in Es. by rewrite <- Es. }
  apply bind_ok in H as (d' & Hd & H). rewrite (ps_name _ _ _ _ Hp) in Hd. injection Hd as <-.
  apply bind_ok in H as (cur' & Hc & H). apply (passed_read _ _ _ _ _ Hp) in Hc as ->.
  destruct (length (Values after attrUserPassword) =? 0)%nat eqn:E.
  - apply Nat.eqb_eq, length_zero_iff_nil in E. rewrite E in Hcur. specialize (Hcur (Forall_nil_2 _)).
    destruct (removeAttr cur attrPwdChangedTime) as [e removed] eqn:Er. destruct removed; [|injection H as <-; by eapply keep_seals; [apply Hp..|]].
    eapply replace_seals; [apply Hp | apply Hp | | | exact H]; replace e with (removeAttr cur attrPwdChangedTime).1 by by rewrite Er.
    + apply removeAttr_dn.
    + by apply drop_tidy_sealed.
  - apply bind_ok in H as (out & Ho & H). apply hash_values_aux in Ho as [_ Ho]; [|done]. apply bind_ok in H as (e & He & H).
    apply push_history_seals in He as [Hdn He].
    + eapply replace_seals; [apply Hp | apply Hp | | exact He | exact H]. by rewrite Hdn, !removeAttr_dn, upsertAttr_set, !setAttrValues_dn.
    + rewrite upsertAttr_set. do 2 (apply drop_tidy_sealed; [done | done|]). apply stamp_tidy_sealed; [done | done|].
      split; [apply setAttrValues_tidy; [done | apply Hp]|]. apply set_password_sealed; [apply Hp | apply Hp | done].
Qed.

(** A change of an entry is a pass over its variants and then the rule of the operation. *)
Lemma AfterWrite_pass (st st' : St) (d : DN) (after : Entry) (ev : WriteEvent) (now : Z) :
  stored st d after → tidy after → ev_After ev = Some after →
  (ev_Op ev = WriteAdd ∨ ev_Op ev = WriteModify ∧ is_Some (ev_Before ev)) →
  AfterWrite policy hasher now st ev = Ok st' →
  ∃ n st1 e1 cur, lands (FoldedKey d) st st1 e1 ∧ passed st1 d after cur ∧
    (∀ n, plain_name n = true → isVariantPasswordAttr n = false → Values cur n = Values after n) ∧
    (ev_Op ev = WriteAdd ∧ applyAdd policy hasher n st1 after now = Ok st' ∨
     ∃ before, ev_Op ev = WriteModify ∧ ev_Before ev = Some before ∧ applyModify policy hasher n st1 before after now = Ok st').
Proof using CL M UL.
  intros Hs Hti Ha Hop H. unfold AfterWrite in H. apply bind_ok in H as ([n st1] & Hr & H). cbn [fst snd] in H.
  assert (Hpass : hashVariantPasswords hasher st after = Ok (n, st1)) by (destruct Hop as [Eo|[Eo _]]; by rewrite Eo, Ha in Hr).
  apply (variants_pass _ _ _ _ Hs Hti) in Hpass as (e1 & Hl & Hti1 & Hv1 & Hx1). cbn [snd] in Hl.
  destruct (stored_after _ _ _ _ Hl) as (cur & Hok & Hk & Hac & _). exists n, st1, e1, cur. split_and!; [done | | |].
  - split; [done | apply Hs | done | by eapply attrs_eq_tidy |]. unfold variants_hashed in *. by rewrite Hac.
  - intros m Hm Hv. rewrite <- (Hx1 m Hm Hv). by apply Values_attrs.
  - destruct Hop as [Eo|(Eo & before & Eb)]; rewrite Eo, Ha, ?Eb in H.
    + left. split; [done|]. by destruct (ev_Before ev).
    + right. by exists before.
Qed.

(** What the engine leaves of an added or modified entry. *)
Lemma AfterWrite_seals (st st' : St) (d : DN) (after : Entry) (ev : WriteEvent) (now : Z) :
  stored st d after → tidy after → ev_After ev = Some after →
  (ev_Op ev = WriteAdd ∨ ev_Op ev = WriteModify ∧ ∃ before, ev_Before ev = Some before ∧ tidy before ∧ sealed before) →
  AfterWrite policy hasher now st ev = Ok st' → seals (FoldedKey d) st st'.
Proof using CL M UL.
  intros Hs Hti Ha Hop H. destruct (AfterWrite_pass st st' d after ev now Hs Hti Ha) as (n & st1 & e1 & cur & Hl & Hp & Hx & Hend); [|done|].
  { destruct Hop as [?|(? & before & -> & _)]; [by left | right; by split]. }
  apply (seals_trans _ _ _ _ _ Hl). specialize (Hx attrUserPassword eq_refl exact_not_variant).
  destruct Hend as [[_ Hend]|(before & Eo & Eb & Hend)]; [by eapply applyAdd_seals|].
  destruct Hop as [Eo'|(_ & before' & Eb' & Htb & Hsb)]; [by rewrite Eo in Eo'|]. rewrite Eb in Eb'. injection Eb' as <-.
  eapply applyModify_seals; [done | done | | exact Hend]. by apply sealed_split.
Qed.

(** ** A change of password *)

(** What [applyModify] makes of the current entry. *)
Record new_password (checked : list bytes) (before after cur e : Entry) (now : Z) : Prop := {
  np_values : Forall2 (sealed_as hasher (checkNewPassword policy hasher checked)) (Values after attrUserPassword) (Values e attrUserPassword);
  np_changed : Values e attrPwdChangedTime = [formatGeneralizedTime now];
  np_reset : Values e attrPwdReset = [];
  np_expiry : Values e attrPasswordExpirationTime = [];
  np_history : if 0 <? HistoryCount policy
    then ∃ prior, Forall2 (sealed_as hasher unchecked) (Values before attrUserPassword) prior ∧
           Values e attrPasswordHistory = take (Z.to_nat (HistoryCount policy)) (prior ++ Values cur attrPasswordHistory)
    else Values e attrPasswordHistory = Values cur attrPasswordHistory;
}.

Ltac other_name := apply fold_differs; [done | done | discriminate].

Lemma applyModify_changes (n : nat) (st st' : St) (d : DN) (before after cur : Entry) (now : Z) :
  passed st d after cur → sameByteSet (Values before attrUserPassword) (Values after attrUserPassword) = false →
  Values after attrUserPassword ≠ [] → applyModify policy hasher n st before after now = Ok st' →
  ∃ e, lands (FoldedKey d) st st' e ∧
    new_password (Values cur attrPasswordHistory ++ Values before attrUserPassword) before after cur e now.
Proof using CL M UL.
  intros Hp Hne Hv H. unfold applyModify in H. rewrite Hne in H.
  apply bind_ok in H as (d' & Hd & H). rewrite (ps_name _ _ _ _ Hp) in Hd. injection Hd as <-.
  apply bind_ok in H as (cur' & Hc & H). apply (passed_read _ _ _ _ _ Hp) in Hc as ->.
  destruct (Values after attrUserPassword) as [|v vs] eqn:Ev; [done|]. rewrite <- Ev in *. replace (length _ =? 0)%nat with false in H by by rewrite Ev.
  apply bind_ok in H as (out & Ho%hash_values_aux & H); [|done]. apply bind_ok in H as (e & He & H%pw_lift_ok). rewrite upsertAttr_set in He.
  set (c1 := setAttrValues cur attrUserPassword out.2) in *. set (c2 := setAttrValues c1 attrPwdChangedTime _) in *.
  set (c3 := (removeAttr c2 attrPwdReset).1) in *. set (c4 := (removeAttr c3 attrPasswordExpirationTime).1) in *.
  destruct (ps_tidy _ _ _ _ Hp) as [Hu _].
  assert (R1 : replaced attrUserPassword out.2 cur c1) by by apply setAttrValues_replaced.
  assert (R2 : replaced attrPwdChangedTime [formatGeneralizedTime now] c1 c2) by by apply setAttrValues_replaced, (rep_unique _ _ _ _ R1).
  assert (R3 : replaced attrPwdReset [] c2 c3) by by apply removeAttr_replaced, (rep_unique _ _ _ _ R2).
  assert (R4 : replaced attrPasswordExpirationTime [] c3 c4) by by apply removeAttr_replaced, (rep_unique _ _ _ _ R3).
  assert (R5 : EDN e = EDN c4 ∧ (∀ m, equal_fold attrPasswordHistory m = false → Values e m = Values c4 m) ∧
    if 0 <? HistoryCount policy
    then ∃ prior, Forall2 (sealed_as hasher unchecked) (Values before attrUserPassword) prior ∧
           Values e attrPasswordHistory = take (Z.to_nat (HistoryCount policy)) (prior ++ Values c4 attrPasswordHistory)
    else Values e attrPasswordHistory = Values c4 attrPasswordHistory).
  { unfold push_history in He. destruct (0 <? HistoryCount policy); [|by injection He as <-].
    apply bind_ok in He as (prior & Hpr%hash_values_aux & [= <-]); [|done].
    pose proof (setAttrValues_replaced c4 attrPasswordHistory (take (Z.to_nat (HistoryCount policy)) (prior.2 ++ Values c4 attrPasswordHistory)) (rep_unique _ _ _ _ R4)) as R.
    split_and!; [apply R | apply R|]. exists prior.2. split; [apply Hpr | apply R]. }
  destruct R5 as (Edn & Eo & Eh).
  assert (Hhist : Values c4 attrPasswordHistory = Values cur attrPasswordHistory).
  { rewrite (rep_others _ _ _ _ R4), (rep_others _ _ _ _ R3), (rep_others _ _ _ _ R2), (rep_others _ _ _ _ R1) by other_name. done. }
  exists e. split.
  - eapply replace_lands; [apply Hp | apply Hp | | exact H].
    by rewrite Edn, (rep_dn _ _ _ _ R4), (rep_dn _ _ _ _ R3), (rep_dn _ _ _ _ R2), (rep_dn _ _ _ _ R1).
  - split.
    + rewrite Eo, (rep_others _ _ _ _ R4), (rep_others _ _ _ _ R3), (rep_others _ _ _ _ R2), (rep_values _ _ _ _ R1) by other_name. apply Ho.
    + rewrite Eo, (rep_others _ _ _ _ R4), (rep_others _ _ _ _ R3) by other_name. apply R2.
    + rewrite Eo, (rep_others _ _ _ _ R4) by other_name. apply R3.
    + rewrite Eo by other_name. apply R4.
    + by rewrite <- Hhist.
Qed.

(** ** What is accepted as a new password *)

Lemma checkNewPassword_ok (history : list bytes) (p : bytes) :
  checkNewPassword policy hasher history p = Ok () ↔
  (0 < MinLength policy → MinLength policy ≤ blen p) ∧
  (0 < HistoryCount policy → ∀ h, h ∈ history → ph_Verify hasher h p = false).
Proof using Type.
  unfold checkNewPassword. rewrite bind_ok. split.
  - intros ([] & H1%ensure_ok & H2%ensure_ok). apply negb_true_iff, andb_false_iff in H1. apply negb_true_iff, andb_false_iff in H2. split.
    + intros. destruct H1 as [H1|H1]; [apply Z.ltb_ge in H1; lia | by apply Z.ltb_ge in H1].
    + intros Hc h Hh. destruct H2 as [H2|H2]; [apply Z.ltb_ge in H2; lia|]. rewrite <- not_true_iff_false in *. intros Hv. apply H2.
      apply existsb_exists. exists h. by rewrite <- list_elem_of_In.
  - intros [H1 H2]. exists (). split; apply ensure_ok, negb_true_iff.
    + destruct (Z.ltb_spec 0 (MinLength policy)); [|done]. cbn [andb]. apply Z.ltb_ge. auto.
    + destruct (Z.ltb_spec 0 (HistoryCount policy)); [|done]. cbn [andb]. rewrite <- not_true_iff_false.
      intros (h & Hh%list_elem_of_In & Hv)%existsb_exists. by rewrite H2 in Hv.
Qed.
End engine.

(** * Requests *)

Section requests.
Context {U : Unicode} {UL : UnicodeLaws U}.

(** [e'] has no attribute, and no value in one, that [e] has not. *)
Definition shrunk (e e' : Entry) : Prop :=
  ∀ a', a' ∈ Attributes e' → ∃ a, a ∈ Attributes e ∧ Name a' = Name a ∧ ∀ v, v ∈ AttrValues a' → v ∈ AttrValues a.

Lemma shrunk_self (e : Entry) : shrunk e e.
Proof. intros a Ha. by exists a. Qed.

Lemma shrunk_plain (e e' : Entry) : shrunk e e' → plain_names e → plain_names e'.
Proof. unfold plain_names. rewrite !Forall_forall. intros H Hp a' Ha'. destruct (H a' Ha') as (a & Ha & -> & _). by apply Hp. Qed.

Lemma shrunk_sealed (e e' : Entry) : shrunk e e' → sealed e → sealed e'.
Proof.
  unfold sealed, credential. rewrite !Forall_forall. intros H Hs a' Ha' Hc. destruct (H a' Ha') as (a & Ha & En & Hv). rewrite En in Hc.
  specialize (Hs a Ha Hc). unfold all_hashed in *. rewrite Forall_forall in *. auto.
Qed.

Lemma remove_attr_shrunk (e : Entry) (i : nat) : shrunk e (remove_attr e i).
Proof.
  intros a' Ha'. exists a'. split; [|done]. unfold remove_attr in Ha'. cbn [Attributes] in Ha'.
  eapply elem_of_submseteq; [exact Ha' | apply sublist_submseteq, sublist_delete].
Qed.

Lemma set_values_shrunk (e : Entry) (i : nat) (vs : list bytes) :
  (∀ v, v ∈ vs → v ∈ values_at e i) → shrunk e (set_values e i vs).
Proof.
  intros Hvs a' (j & Hj)%list_elem_of_lookup. unfold set_values in Hj. cbn [Attributes] in Hj. destruct (decide (i = j)) as [<-|Hne].
  - rewrite list_lookup_alter_eq in Hj. destruct (Attributes e !! i) as [a|] eqn:Ea; [|done]. injection Hj as <-. exists a.
    split_and!; [by eapply list_elem_of_lookup_2 | done|]. intros v Hv. specialize (Hvs v Hv). unfold values_at in Hvs. by rewrite Ea in Hvs.
  - rewrite list_lookup_alter_ne in Hj by done. exists a'. split; [by eapply list_elem_of_lookup_2 | done].
Qed.

Lemma setAttr_touched (n : bytes) (e : Entry) (vs : list bytes) : touched n e (setAttr e n vs).
Proof.
  unfold setAttr. pose proof (attrIndex_spec e n) as H. destruct (attrIndex e n).
  - destruct H as (l & a & l' & He & -> & Ha & _). destruct (length vs =? 0)%nat; [apply remove_attr_touched | by eapply set_values_touched].
  - destruct (length vs =? 0)%nat; [intros a ?; by left | apply append_touched].
Qed.

Lemma upsertValue_touched (n v : bytes) (e : Entry) : touched n e (upsertValue e n v).
Proof.
  unfold upsertValue. pose proof (attrIndex_spec e n) as H. destruct (attrIndex e n); [|apply append_touched].
  destruct H as (l & a & l' & He & -> & Ha & _). by eapply set_values_touched.
Qed.

Lemma touched_trans (n : bytes) (e1 e2 e3 : Entry) : touched n e1 e2 → touched n e2 e3 → touched n e1 e3.
Proof.
  intros H1 H2 a3 H3. destruct (H2 a3 H3) as [Ha|[Hn [?|(a2 & Ha2 & En)]]]; [by apply H1 | right; by split; [|left]|].
  right. split; [done|]. destruct (H1 a2 Ha2) as [?|[_ [?|(a1 & ? & ?)]]]; [right; by exists a2 | left; congruence | right; exists a1; split; congruence].
Qed.

Lemma applyChange_touched (s : Schema) (e e' : Entry) (ch : ModifyChange) :
  applyChange s e ch = Ok e' → touched (Name (ChAttr ch)) e e'.
Proof.
  unfold applyChange. set (n := Name (ChAttr ch)). pose proof (attrIndex_spec e n) as H. intros Hc.
  assert (Hset : ∀ i vs, attrIndex e n = Some i → touched n e (set_values e i vs)).
  { intros i vs Hi. rewrite Hi in H. destruct H as (l & a & l' & He & -> & Ha & _). by eapply set_values_touched. }
  destruct (attrIndex e n) as [i|]; repeat case_match; simplify_eq;
    try first [by apply Hset | apply append_touched | apply remove_attr_touched | intros a ?; by left].
  eapply touched_trans; [apply remove_attr_touched | apply append_touched].
Qed.

Lemma setAttr_tidy (e : Entry) (n : bytes) (vs : list bytes) : plain_name n = true → tidy e → tidy (setAttr e n vs).
Proof.
  intros Hn [Hu Hp]. split; [eapply rep_unique; by apply setAttr_replaced|]. by apply (touched_plain n e); [|apply setAttr_touched|].
Qed.

Lemma setAttr_sealed (e : Entry) (n : bytes) (vs : list bytes) :
  plain_name n = true → CanonicalAttrType n ≠ B "userpassword" → tidy e ∧ sealed e → tidy (setAttr e n vs) ∧ sealed (setAttr e n vs).
Proof.
  intros Hn Hc [Ht Hs]. split; [by apply setAttr_tidy|]. apply (touched_sealed n e); [done | done | apply setAttr_touched | apply Ht | done].
Qed.

Lemma applyAddOpAttrs_tidy (now uuid : bytes) (e : Entry) (subj : Subject) : tidy e → tidy (applyAddOpAttrs now uuid e subj).
Proof. intros H. unfold applyAddOpAttrs. by repeat (apply setAttr_tidy; [done|]). Qed.

Lemma applyModifyOpAttrs_tidy (now : bytes) (e : Entry) (subj : Subject) : tidy e → tidy (applyModifyOpAttrs now e subj).
Proof. intros H. unfold applyModifyOpAttrs. by repeat (apply setAttr_tidy; [done|]). Qed.

Lemma applyModifyOpAttrs_sealed (now : bytes) (e : Entry) (subj : Subject) :
  tidy e ∧ sealed e → tidy (applyModifyOpAttrs now e subj) ∧ sealed (applyModifyOpAttrs now e subj).
Proof. intros H. unfold applyModifyOpAttrs. by repeat (apply setAttr_sealed; [done | done|]). Qed.

Lemma applyChanges_tidy (s : Schema) (chs : list ModifyChange) (e e' : Entry) :
  Forall (λ ch, plain_name (Name (ChAttr ch)) = true) chs → tidy e → rfold (applyChange s) e chs = Ok e' → tidy e'.
Proof.
  intros Hc. revert e. induction Hc as [|ch chs Hn _ IH]; intros e Ht H; cbn in H; [by injection H as <-|].
  apply bind_ok in H as (e1 & H1 & H). apply (IH e1); [|done]. destruct Ht as [Hu Hp]. split.
  - eapply rep_unique. by eapply applyChange_replaced.
  - eapply touched_plain; [exact Hn | by eapply applyChange_touched | done].
Qed.

(** Without a duplicate attribute type, plain names are distinct. *)
Lemma duplicate_type_unique (seen : gset bytes) (attrs : list Attribute) :
  Forall (λ a, plain_name (Name a) = true) attrs → duplicate_type seen attrs = None →
  StronglySorted names_differ attrs ∧ Forall (λ a, to_lower (Name a) ∉ seen) attrs.
Proof.
  intros Hp. revert seen. induction Hp as [|a attrs Ha Hp IH]; intros seen H; [by repeat constructor|]. cbn [duplicate_type] in H.
  case_bool_decide; [done|]. destruct (IH _ H) as [Hs Hf]. split; constructor; try done.
  - rewrite Forall_forall in *. intros b Hb. unfold names_differ. apply not_true_iff_false. intros E. apply (Hf b Hb).
    apply elem_of_union_l, elem_of_singleton. symmetry. specialize (Hp b Hb). unfold plain_name in *.
    apply andb_prop in Ha as [Ha _], Hp as [Hb' _]. by apply ascii_fold_lower.
  - eapply Forall_impl; [exact Hf|]. intros b Hb Hin. apply Hb. by apply elem_of_union_r.
Qed.

Lemma rename_values_seals (sv : Server) (e : Entry) (oa ov na nv : bytes) (del : bool) :
  plain_name na = true → CanonicalAttrType na ≠ B "userpassword" → tidy e ∧ sealed e →
  tidy (rename_values sv e oa ov na nv del) ∧ sealed (rename_values sv e oa ov na nv del).
Proof.
  intros Hn Hc He. unfold rename_values. cbv zeta.
  set (e1 := if del then _ else e). assert (H1 : tidy e1 ∧ sealed e1).
  { subst e1. destruct del; [|done]. pose proof (attrIndex_spec e oa) as Hi. destruct (attrIndex e oa) as [i|]; [|done].
    assert (Hs : shrunk e (set_values e i (removeMatched (Some (sv_Schema sv)) oa (values_at e i) ov))).
    { apply set_values_shrunk. unfold removeMatched. by intros v [_ ?]%list_elem_of_filter. }
    destruct Hi as (l & a & l' & Ea & -> & Hna & _). destruct He as [[Hu Hp] Hse]. split; [split|].
    - eapply rep_unique. by eapply replaced_set.
    - by eapply shrunk_plain.
    - by eapply shrunk_sealed. }
  clearbody e1. set (e2 := if negb _ then _ else e1). assert (H2 : tidy e2 ∧ sealed e2).
  { subst e2. destruct (negb _); [|done]. destruct H1 as [[Hu Hp] Hs]. split; [split|].
    - eapply rep_unique. by apply upsertValue_replaced.
    - by apply (touched_plain na e1); [|apply upsertValue_touched|].
    - by apply (touched_sealed na e1); [| |apply upsertValue_touched| |]. }
  clearbody e2. destruct H2 as [[Hu Hp] Hs]. pose proof (rep_unique _ _ _ _ (drop_empty_replaced e2 oa Hu)) as Hq.
  assert (Hsh : shrunk e2 match attrIndex e2 oa with
                          | Some i => if (length (values_at e2 i) =? 0)%nat then remove_attr e2 i else e2
                          | None => e2
                          end).
  { destruct (attrIndex e2 oa) as [i|]; [destruct (_ =? _)%nat; [apply remove_attr_shrunk|]|]; apply shrunk_self. }
  split; [split; [exact Hq | by eapply shrunk_plain] | by eapply shrunk_sealed].
Qed.
End requests.
