(* ===== verification/Credentials.v ===== *)
(** Credentials at rest: with the password policy among the plugins, no sequence of
    requests leaves a password in the clear, as far as names are spelled the way
    RFC 4512 has them and no entry is renamed to a password ([password_escapes] shows
    both provisos are needed). *)

From stdpp Require Import sorting.
From S2P Require Import Prelude GoStrings DN DNFacts Message RenameFacts Ber Decode Attr Schema Matching FilterEval StoreIface Aci Server Base64 Paging PagingFacts Search SearchFacts Write FakeStore WriteOps WriteFacts TreeFacts GoTime PwHash Password PasswordFacts.
Local Open Scope Z_scope.

(** Every entry is tidy and has its credentials hashed. *)
Definition sealed_dir {U : Unicode} (m : gmap bytes Entry) : Prop := map_Forall (λ _ e, tidy e ∧ sealed e) m.

(** Names of attributes are plain, and a new RDN is not a credential. *)
Definition discreet_request {U : Unicode} (r : write_request) : Prop :=
  match r with
  | AddOf _ attrs => Forall (λ a, plain_name (Name a) = true) attrs
  | ModifyOf _ _ chs => Forall (λ ch, plain_name (Name (ChAttr ch)) = true) chs
  | DeleteOf _ => True
  | RenameOf req => ∀ d, ParseDN (NewRDN req) = Ok d →
      plain_name (leaf d).1 = true ∧ CanonicalAttrType (leaf d).1 ≠ B "userpassword"
  end.

Section credentials.
Context {U : Unicode} {UL : UnicodeLaws U} {L : BerLib} {St : Type} {UT : UpdateTx St}.
Context (contents : St → gmap bytes Entry) (ok : St → Prop) {CL : UpdateTxLaws UT contents ok}.
Variable sv : Server.
Variable reason : schema_violation → bytes.
Hypothesis flat : flat_suffixes sv.

(** The engine with its clock at one moment. *)
Variable policy : PasswordPolicy.
Variable hasher : PasswordHasher.
Hypothesis M : marks hasher.
Variable clock : Z.

Let engine : St → WriteEvent → res write_err St := pwpolicy policy hasher clock.

Lemma engine_ok (st st' : St) (ev : WriteEvent) : engine st ev = Ok st' → AfterWrite policy hasher clock st ev = Ok st'.
Proof using Type. unfold engine, pwpolicy. by destruct (AfterWrite _ _ _ _ _); intros [= <-]. Qed.

Lemma runs_engine (st st' : St) (ev : WriteEvent) : runPlugins [engine] st ev = Ok st' → AfterWrite policy hasher clock st ev = Ok st'.
Proof using Type. unfold runPlugins. cbn. intros H. apply engine_ok. by destruct (engine st ev) as [st1|]; cbn in H; [injection H as <-|]. Qed.

(** The engine touches no name. *)
Lemma replace_same_good (st st' : St) (d : DN) (cur e : Entry) :
  good contents ok sv st → pw_lift (tx_Entry (ut_read st) d) = Ok cur → EDN e = EDN cur →
  pw_lift (ut_Replace st e) = Ok st' → good contents ok sv st'.
Proof using CL UL.
  intros Hg Hc%pw_lift_ok Hdn Hr%pw_lift_ok. rewrite (ut_entry (UpdateTxLaws := CL)) in Hc by apply Hg.
  destruct (contents st !! FoldedKey d) eqn:Ek; [|done]. injection Hc as ->. by eapply (tree_replace contents ok sv).
Qed.

Lemma engine_keeps_tree : tree_plugin contents ok sv engine.
Proof using CL UL.
  intros st ev st' Hg H%engine_ok. unfold AfterWrite in H. apply bind_ok in H as (r & Hr & H).
  assert (Hg' : good contents ok sv r.2).
  { assert (Hv : ∀ after, hashVariantPasswords hasher st after = Ok r → good contents ok sv r.2).
    { intros after Ha. unfold hashVariantPasswords in Ha. destruct (plain_variant after); [|by injection Ha as <-].
      apply bind_ok in Ha as (d & _ & Ha). apply bind_ok in Ha as (cur & Hc & Ha). apply bind_ok in Ha as (q & _ & Ha).
      apply bind_ok in Ha as (st1 & H1 & [= <-]). by eapply replace_same_good; [exact Hg | exact Hc | | exact H1]. }
    destruct (ev_Op ev), (ev_After ev); try (by injection Hr as <-); by eapply Hv. }
  revert H Hg'. destruct r as [n st1]. cbn [fst snd]. clear Hr Hg st. intros H Hg.
  destruct (ev_Op ev), (ev_Before ev) as [before|], (ev_After ev) as [after|]; try (by injection H as <-).
  1, 2: unfold applyAdd in H; destruct (_ =? 0)%nat; [by injection H as <-|];
    apply bind_ok in H as (d & _ & H); apply bind_ok in H as (out & _ & H); apply bind_ok in H as (cur & Hc & H);
    eapply replace_same_good; [exact Hg | exact Hc | | exact H]; by rewrite upsertAttr_set, !setAttrValues_dn.
  unfold applyModify in H. destruct (sameByteSet _ _); [by injection H as <-|].
  apply bind_ok in H as (d & _ & H). apply bind_ok in H as (cur & Hc & H). destruct (_ =? 0)%nat.
  - destruct (removeAttr cur attrPwdChangedTime) as [e rm] eqn:Er. destruct rm; [|by injection H as <-].
    eapply replace_same_good; [exact Hg | exact Hc | | exact H]. by rewrite <- (removeAttr_dn cur attrPwdChangedTime), Er.
  - apply bind_ok in H as (out & _ & H). apply bind_ok in H as (e & He & H).
    eapply replace_same_good; [exact Hg | exact Hc | | exact H].
    assert (Hdn : ∀ c, push_history policy hasher out.1 c (Values before attrUserPassword) = Ok e → EDN e = EDN c).
    { intros c Hp. unfold push_history in Hp. destruct (0 <? _); [|by injection Hp as <-].
      apply bind_ok in Hp as (? & _ & [= <-]). apply setAttrValues_dn. }
    apply Hdn in He. by rewrite He, !removeAttr_dn, upsertAttr_set, !setAttrValues_dn.
Qed.

(** ** One request *)

Lemma sealed_insert (m : gmap bytes Entry) (k dn : bytes) (e : Entry) :
  sealed_dir m → tidy e ∧ sealed e → sealed_dir (<[k := MkEntry dn (Attributes e)]> m).
Proof using UL.
  intros Hm [Ht Hs]. apply map_Forall_insert_2; [|done]. split; [by apply (attrs_eq_tidy e) | by apply (sealed_attrs e)].
Qed.

(** After a write and the engine, one entry is new, tidy and sealed. *)
Lemma seals_dir (st st1 st' : St) (k dn : bytes) (e : Entry) :
  sealed_dir (contents st) → contents st1 = <[k := MkEntry dn (Attributes e)]> (contents st) → seals contents ok k st1 st' →
  sealed_dir (contents st').
Proof using UL.
  intros Hm E (e' & [_ (dn' & E')] & He'). rewrite E', E, insert_insert_eq. by apply sealed_insert.
Qed.

Lemma add_sealed (now uuid : bytes) (subj : Subject) (d : DN) (attrs : list Attribute) (st st' : St) :
  good contents ok sv st → sealed_dir (contents st) → wf_dn d → no_tab_end d → Forall (λ a, plain_name (Name a) = true) attrs →
  add_fn sv [engine] now uuid subj d attrs st = Ok st' → sealed_dir (contents st').
Proof using CL M UL.
  intros [Hok _] Hs Hw Ht Hp H. unfold add_fn in H.
  apply bind_ok in H as ([] & _ & H). apply bind_ok in H as ([] & _ & H). apply bind_ok in H as ([] & _ & H).
  apply bind_ok in H as ([] & Hdup & H). apply bind_ok in H as ([] & _ & H). apply bind_ok in H as (st1 & Ha%lift_ok & H).
  apply runs_engine in H. unfold checkDuplicateAttrTypes in Hdup. destruct (duplicate_type ∅ attrs) eqn:Ed; [done|].
  apply duplicate_type_unique in Ed as [Hu _]; [|done].
  set (after := applyAddOpAttrs now uuid (MkEntry (String d) attrs) subj) in *.
  assert (Hti : tidy after) by by apply applyAddOpAttrs_tidy.
  assert (Hn : ParseDN (EDN after) = Ok d) by (subst after; rewrite applyAddOpAttrs_dn; by apply ParseDN_String_aux).
  apply (ut_add (UpdateTxLaws := CL)) in Ha as (d' & Hd' & _ & Ha); [|done]. rewrite Hn in Hd'. injection Hd' as <-. destruct (Ha Ht) as [Hok1 E].
  apply (AfterWrite_seals contents ok policy hasher M st1 st' d after) in H; [by eapply seals_dir | | exact Hti | done | by left].
  split; [done..|]. eexists. rewrite E, lookup_insert_eq. by split.
Qed.

(** A replacement in place of a stored entry, by a tidy one. *)
Lemma replaced_stored (st st1 : St) (k : bytes) (e0 after : Entry) :
  good contents ok sv st → contents st !! k = Some e0 → EDN after = EDN e0 → ut_Replace st after = Ok st1 →
  ∃ d, k = FoldedKey d ∧ stored contents ok st1 d after ∧ contents st1 = <[k := MkEntry (String d) (Attributes after)]> (contents st).
Proof using CL UL.
  intros [Hok Hm] Hk Hdn H. destruct (Hm k e0 Hk) as (d & Hd & Hkey & _ & Ht & _). apply (ut_replace (UpdateTxLaws := CL)) in H as (d' & Hd' & _ & H); [|done].
  rewrite Hdn, Hd in Hd'. injection Hd' as <-. destruct (H Ht) as [Hok1 E]. exists d. rewrite <- Hkey, E. split_and!; [done | | done].
  split; [done | by rewrite Hdn |]. eexists. rewrite E, lookup_insert_eq. by split.
Qed.

Lemma modify_sealed (now : bytes) (subj : Subject) (d : DN) (chs : list ModifyChange) (assertion : option Filter) (st st' : St) :
  good contents ok sv st → sealed_dir (contents st) → Forall (λ ch, plain_name (Name (ChAttr ch)) = true) chs →
  modify_fn sv [engine] now subj d chs assertion st = Ok st' → sealed_dir (contents st').
Proof using CL M UL.
  intros Hg Hs Hp H. unfold modify_fn in H.
  apply bind_ok in H as (us & _ & H). apply bind_ok in H as (before & Hb & H). apply bind_ok in H as ([] & _ & H).
  apply bind_ok in H as (after & Ha & H). apply bind_ok in H as ([] & _ & H). apply bind_ok in H as (st1 & Hr%lift_ok & H).
  apply runs_engine in H. apply (entry_contents contents ok) in Hb; [|apply Hg]. pose proof (Hs _ _ Hb) as [Hti Hse].
  assert (Hta : tidy after) by by eapply applyChanges_tidy.
  destruct (replaced_stored st st1 _ before (applyModifyOpAttrs now after subj) Hg Hb) as (d' & Hk & Hst & E); [|done|].
  { rewrite applyModifyOpAttrs_dn. by eapply applyChanges_dn. }
  apply (AfterWrite_seals contents ok policy hasher M st1 st' d' _ _ _ Hst) in H; [|by apply applyModifyOpAttrs_tidy | done |].
  { rewrite <- Hk in H. by eapply seals_dir. }
  right. split; [done|]. by exists before.
Qed.

Lemma store_renamed_sealed (now : bytes) (subj : Subject) (st st' : St) (k : bytes) (before after e0 : Entry) :
  good contents ok sv st → sealed_dir (contents st) → contents st !! k = Some e0 → EDN after = EDN e0 → tidy after ∧ sealed after →
  store_renamed sv [engine] now subj st before after = Ok st' → sealed_dir (contents st').
Proof using CL UL.
  intros Hg Hs Hk Hdn Ha H. unfold store_renamed in H. apply bind_ok in H as ([] & _ & H). apply bind_ok in H as (st1 & Hr%lift_ok & H).
  apply runs_engine in H. cbn in H. injection H as <-.
  destruct (replaced_stored st st1 k e0 (applyModifyOpAttrs now after subj) Hg Hk) as (d' & _ & _ & E); [by rewrite applyModifyOpAttrs_dn | done|].
  rewrite E. apply sealed_insert; [done|]. by apply applyModifyOpAttrs_sealed.
Qed.

Lemma rename_sealed (now : bytes) (subj : Subject) (dn newRDN sup : DN) (del : bool) (st st' : St) :
  good contents ok sv st → sealed_dir (contents st) → plain_name (leaf newRDN).1 = true → CanonicalAttrType (leaf newRDN).1 ≠ B "userpassword" →
  rename_ends contents ok sv [engine] now subj dn newRDN sup del st st' → sealed_dir (contents st').
Proof using CL UL.
  intros Hg Hs Hp Hc (before & newDN & He & _ & [[_ H]|(st1 & after & Hg1 & Hren & Ha & H)]).
  - eapply store_renamed_sealed; [exact Hg | done | exact He | done | by apply (Hs _ _ He) | exact H].
  - assert (Hs1 : sealed_dir (contents st1)).
    { intros k' e' (k & e & d & Hk & _ & _ & ->)%Hren. destruct (Hs _ _ Hk) as [Ht Hse].
      split; [by apply (attrs_eq_tidy e), Ht; apply relocate_attributes | apply (sealed_attrs e), Hse; apply relocate_attributes]. }
    eapply store_renamed_sealed; [exact Hg1 | done | exact Ha | apply rename_values_dn | | exact H].
    apply rename_values_seals; [done..|]. by apply (Hs1 _ _ Ha).
Qed.

Lemma write_sealed (st : St) (c : write_call) :
  plain_request (wc_request c) → discreet_request (wc_request c) → good contents ok sv st → sealed_dir (contents st) →
  sealed_dir (contents (handle_write sv [engine] reason st c)).
Proof using CL M UL flat.
  destruct c as [[dn attrs|cs dn chs|dn|req] subj now uuid abandoned commit_err]; cbn [wc_request handle_write]; intros Hp Hd Hg Hs.
  - destruct (handleAdd_cases sv [engine] reason abandoned commit_err now uuid subj st dn attrs) as [(d & Hn & _ & [[_ Hf]|[_ ->]])|[_ ->]]; try done.
    eapply add_sealed; [exact Hg | done | by eapply ParseDN_wf_aux | by apply Hp | exact Hd | exact Hf].
  - destruct (handleModify_cases sv [engine] reason abandoned commit_err now subj st cs dn chs) as [(d & a & _ & _ & [[_ Hf]|[_ ->]])|[_ ->]]; try done.
    by eapply modify_sealed.
  - destruct (handleDelete_cases sv [engine] reason abandoned commit_err subj st dn) as [(d & Hn & [[_ Hf]|[_ ->]])|[_ ->]]; try done.
    unfold delete_fn in Hf. apply bind_ok in Hf as ([] & _ & Hf). apply bind_ok in Hf as (before & _ & Hf). apply bind_ok in Hf as (st1 & Hdel%lift_ok & Hf).
    apply runs_engine in Hf. cbn in Hf. injection Hf as <-. apply (ut_delete (UpdateTxLaws := CL)) in Hdel as (_ & _ & -> & _); [|apply Hg | by eapply ParseDN_wf_aux].
    by apply map_Forall_delete.
  - destruct (rename_request_ends contents ok sv [engine] reason flat abandoned commit_err now subj st req Hp Hg) as [[_ ->]|(d & r & s & _ & _ & _ & Hr & _ & H)]; [done|].
    destruct (Hd r Hr). by eapply rename_sealed.
Qed.
End credentials.

(** A request with the clock and the hasher the engine sees it with. *)
Definition guarded_call : Type := Z * PasswordHasher * write_call.

Definition handle_guarded {U : Unicode} {L : BerLib} {St : Type} {UT : UpdateTx St} (sv : Server) (reason : schema_violation → bytes)
    (policy : PasswordPolicy) (st : St) (c : guarded_call) : St :=
  handle_write sv [pwpolicy policy c.1.2 c.1.1] reason st c.2.

(** C5.  No password is left in the clear: with the password policy as the plugin, over
    a lawful store whose credentials are hashed, any sequence of Add, Modify, Delete and
    ModifyDN requests, accepted or refused, leaves every value of [userPassword] under
    any of its spellings hashed, and the tree in order, provided attribute names are
    ASCII without surrounding space, no new RDN is a credential, and the hasher's output
    is recognised as hashed. *)
Theorem credentials_stay_hashed {U : Unicode} {UL : UnicodeLaws U} {L : BerLib} {St : Type} {UT : UpdateTx St}
    (contents : St → gmap bytes Entry) (ok : St → Prop) {CL : UpdateTxLaws UT contents ok} (sv : Server)
    (reason : schema_violation → bytes) (policy : PasswordPolicy) (st : St) (cs : list guarded_call) :
  flat_suffixes sv →
  Forall (λ c, marks c.1.2 ∧ plain_request (wc_request c.2) ∧ discreet_request (wc_request c.2)) cs →
  ok st → tree_ok sv (contents st) → sealed_dir (contents st) →
  let st' := foldl (handle_guarded sv reason policy) st cs in
  ok st' ∧ tree_ok sv (contents st') ∧ sealed_dir (contents st').
Proof.
  intros Hflat Hc Hok Hm. cbv zeta. revert st Hok Hm. induction Hc as [|[[t h] c] cs (Hh & Hp & Hd) _ IH]; intros st Hok Hm Hs; [done|].
  cbn [foldl]. cbn [fst snd] in Hh, Hp, Hd.
  destruct (write_keeps_order contents ok sv [pwpolicy policy h t] reason Hflat) with (st := st) (c := c) as [Hok' Hm']; [|done..|].
  { constructor; [by apply engine_keeps_tree | constructor]. }
  apply IH; [exact Hok' | exact Hm' |]. by apply (write_sealed contents ok).
Qed.

(** ** Examples *)

Definition toy_hasher : PasswordHasher :=
  standard_hasher (UU := ascii_uppercase) (C := toy_crypto) (MkStandardHasher SchemeSSHA512 0) (λ _, Some (repeat x2a 16)).

Definition strict_policy : PasswordPolicy := MkPasswordPolicy 4 2 0 3 0 SchemeSSHA512.

Definition sue_attrs (name : bytes) : list Attribute :=
  [MkAttribute (B "objectClass") [B "top"; B "person"]; MkAttribute (B "cn") [B "sue"]; MkAttribute (B "sn") [B "sue"];
   MkAttribute name [B "hunter2"]].

Definition guarded (r : write_request) : guarded_call := (0, toy_hasher, sample_call r).

(** What is left of the attributes whose values are not hashed, by entry. *)
Definition run_guarded (rs : list write_request) : gmap bytes Entry :=
  foldl (handle_guarded (U := ascii_unicode) (L := toy_ber) (UT := fake_tx (U := ascii_unicode)) sample_sv (λ _, []) strict_policy) suffix_store (guarded <$> rs).

(** The values that equal a password. *)
Definition in_clear (m : gmap bytes Entry) (p : bytes) : list (bytes * bytes) :=
  e ← (map_to_list m).*2; a ← filter (λ a, bool_decide (p ∈ AttrValues a) = true) (Attributes e); [(EDN e, Name a)].

Example hashed_on_write :
  in_clear (run_guarded [AddOf (B "cn=sue,dc=test") (sue_attrs (B "userPassword"));
                         ModifyOf [] (B "cn=sue,dc=test") [MkModifyChange ModifyReplace (MkAttribute (B "USERPASSWORD;lang-en") [B "hunter2"])]]) (B "hunter2") = [].
Proof. vm_compute. reflexivity. Qed.

Definition sue_calls : list guarded_call := guarded <$>
  [AddOf (B "cn=sue,dc=test") (sue_attrs (B "userPassword"));
   ModifyOf [] (B "cn=sue,dc=test") [MkModifyChange ModifyReplace (MkAttribute (B "userPassword") [B "correct horse"])]].

Lemma suffix_sealed : sealed_dir (U := ascii_unicode) suffix_store.
Proof.
  unfold sealed_dir, suffix_store. apply map_Forall_singleton. split; [split|].
  - unfold unique_names, names_differ. cbn. repeat constructor.
  - unfold plain_names. repeat constructor.
  - apply Forall_forall. intros a Ha Hc. exfalso. cbn [suffix_entry Attributes] in Ha.
    repeat (apply elem_of_cons in Ha as [->|Ha]; [vm_compute in Hc; discriminate|]). by apply not_elem_of_nil in Ha.
Qed.

Lemma sue_discreet :
  Forall (λ c, marks c.1.2 ∧ plain_request (U := ascii_unicode) (wc_request c.2) ∧ discreet_request (U := ascii_unicode) (wc_request c.2)) sue_calls.
Proof.
  assert (Hm : marks toy_hasher) by (unfold toy_hasher; apply standard_marks).
  unfold sue_calls. cbn [fmap list_fmap]. repeat constructor; try apply Hm.
  - cbn [plain_request]. intros d Hd. vm_compute in Hd. injection Hd as <-. unfold no_tab_end. repeat constructor; vm_compute; discriminate.
Qed.

Lemma credentials_stay_hashed_witness :
  sealed_dir (U := ascii_unicode)
    (foldl (handle_guarded (U := ascii_unicode) (L := toy_ber) (UT := fake_tx (U := ascii_unicode)) sample_sv (λ _, []) strict_policy) suffix_store sue_calls).
Proof.
  assert (Hk : keys_ok (U := ascii_unicode) suffix_store).
  { intros k e H. destruct (suffix_store_ok k e H) as (d & H1 & H2 & _ & H3 & _). exists d. split; [exact H1 | split; [exact H2 | exact H3]]. }
  exact (proj2 (proj2 (credentials_stay_hashed (U := ascii_unicode) (UL := ascii_unicode_laws) (L := toy_ber) (UT := fake_tx (U := ascii_unicode))
    id (keys_ok (U := ascii_unicode)) sample_sv (λ _, []) strict_policy suffix_store sue_calls sample_flat sue_discreet Hk suffix_store_ok suffix_sealed))).
Defined.

(** The two ways past the engine: a name with a space around it, which is neither the
    attribute the engine hashes nor a variant of it, and a ModifyDN to an RDN of the
    type [userPassword], for which the engine does nothing. *)
Lemma password_escapes :
  in_clear (run_guarded [AddOf (B "cn=sue,dc=test") (sue_attrs (B "userPassword "))]) (B "hunter2") = [(B "cn=sue,dc=test", B "userPassword ")] ∧
  in_clear (run_guarded [AddOf (B "cn=sue,dc=test") (sue_attrs (B "mail"));
     RenameOf (MkModifyDNRequest (B "cn=sue,dc=test") (B "userPassword=abc") false [])]) (B "abc") = [(B "userpassword=abc,dc=test", B "userpassword")].
Proof. split; vm_compute; reflexivity. Qed.

(** * A change of password *)

(** C23.  What an accepted change of password leaves: the values are the old hashed ones or
    hashes of new ones, of which each was long enough and, with a history, verified by
    none of the recorded or replaced passwords; the time of change is stamped; a pending
    reset and the expiration time are gone; and the replaced passwords, hashed, head a
    history of at most [HistoryCount]. *)
Theorem password_change {U : Unicode} {UL : UnicodeLaws U} {St : Type} {UT : UpdateTx St} (contents : St → gmap bytes Entry) (ok : St → Prop)
    {CL : UpdateTxLaws UT contents ok} (policy : PasswordPolicy) (hasher : PasswordHasher) (now : Z) (st st' : St) (d : DN) (before after : Entry) :
  marks hasher → stored contents ok st d after → tidy after →
  ¬ Values before attrUserPassword ≡ₚ Values after attrUserPassword → Values after attrUserPassword ≠ [] →
  AfterWrite policy hasher now st (MkWriteEvent WriteModify (Some before) (Some after)) = Ok st' →
  let checked := Values after attrPasswordHistory ++ Values before attrUserPassword in
  (∀ p, p ∈ Values after attrUserPassword → isPreHashed p = false →
     (0 < MinLength policy → MinLength policy ≤ blen p) ∧ (0 < HistoryCount policy → ∀ h, h ∈ checked → ph_Verify hasher h p = false)) ∧
  ∃ e, lands contents ok (FoldedKey d) st st' e ∧ new_password policy hasher checked before after after e now ∧
    (0 < HistoryCount policy → (length (Values e attrPasswordHistory) ≤ Z.to_nat (HistoryCount policy))%nat).
Proof.
  intros M Hs Hti Hne Hv H. cbv zeta.
  destruct (AfterWrite_pass contents ok policy hasher M st st' d after (MkWriteEvent WriteModify (Some before) (Some after)) now Hs Hti eq_refl)
    as (n & st1 & e1 & cur & Hl & Hp & Hx & [[? _]|(b & _ & [= <-] & Hm)]); [right; by split | done | done|].
  destruct (applyModify_changes contents ok policy hasher M n st1 st' d before after cur now Hp) as (e & He & Hn); [|done..|].
  { apply not_true_is_false. by rewrite sameByteSet_aux. }
  rewrite (Hx attrPasswordHistory) in Hn by first [done | unfold isVariantPasswordAttr; by rewrite andb_false_l].
  split.
  - intros p Hin Hpre. destruct Hn as [Hf _ _ _ _]. apply list_elem_of_lookup in Hin as [i Hi].
    destruct (Forall2_lookup_l _ _ _ _ _ Hf Hi) as (h & _ & Hh). unfold sealed_as in Hh. rewrite Hpre in Hh. by apply checkNewPassword_ok, Hh.
  - exists e. split_and!; [by eapply lands_trans | |].
    + destruct Hn as [H1 H2 H3 H4 H5]. split; [done..|]. by rewrite (Hx attrPasswordHistory) in H5.
    + intros Hc. destruct Hn as [_ _ _ _ H5]. rewrite (proj2 (Z.ltb_lt 0 _)) in H5 by done. destruct H5 as (prior & _ & ->). rewrite length_take. lia.
Qed.

Definition pam_entry (password : bytes) : Entry :=
  MkEntry (B "cn=pam,dc=test") [MkAttribute (B "cn") [B "pam"]; MkAttribute (B "userPassword") [password]].

Definition pam_store : fakeStore := {[B "cn=pam,dc=test" := pam_entry (B "correct horse")]}.

Definition pam_dn : DN := the_dn (B "cn=pam,dc=test").

Definition pam_event : WriteEvent := MkWriteEvent WriteModify (Some (pam_entry (B "hunter2"))) (Some (pam_entry (B "correct horse"))).

Definition pam_write : res pw_err fakeStore :=
  AfterWrite (U := ascii_unicode) (UT := fake_tx (U := ascii_unicode)) strict_policy toy_hasher 0 pam_store pam_event.

Definition pam_changed : fakeStore := match pam_write with Ok st => st | Err _ => ∅ end.

Lemma pam_runs : pam_write = Ok pam_changed.
Proof.
  unfold pam_changed. destruct pam_write as [st|e] eqn:E; [reflexivity|].
  assert (H : is_ok pam_write = true) by (vm_compute; reflexivity). rewrite E in H. discriminate.
Qed.

Lemma pam_stored : stored (U := ascii_unicode) id (keys_ok (U := ascii_unicode)) pam_store pam_dn (pam_entry (B "correct horse")).
Proof.
  split.
  - intros k e H. unfold pam_store in H. apply lookup_singleton_Some in H as [<- <-]. exists pam_dn.
    split_and!; [vm_compute; reflexivity | vm_compute; reflexivity |]. unfold no_tab_end. vm_compute. repeat constructor; discriminate.
  - vm_compute. reflexivity.
  - eexists. split; [|reflexivity]. vm_compute. reflexivity.
Qed.

Lemma pam_tidy : tidy (U := ascii_unicode) (pam_entry (B "correct horse")).
Proof. split; [unfold unique_names, names_differ; cbn; repeat constructor | unfold plain_names; repeat constructor]. Qed.

Lemma password_change_witness :
  ∃ e, lands id (keys_ok (U := ascii_unicode)) (FoldedKey (U := ascii_unicode) pam_dn) pam_store pam_changed e.
Proof.
  assert (Hne : ¬ Values (U := ascii_unicode) (pam_entry (B "hunter2")) attrUserPassword ≡ₚ Values (U := ascii_unicode) (pam_entry (B "correct horse")) attrUserPassword).
  { intros H%sameByteSet_aux. vm_compute in H. discriminate. }
  destruct (proj2 (password_change (U := ascii_unicode) (UL := ascii_unicode_laws) (UT := fake_tx (U := ascii_unicode)) id (keys_ok (U := ascii_unicode))
    strict_policy toy_hasher 0 pam_store pam_changed pam_dn (pam_entry (B "hunter2")) (pam_entry (B "correct horse"))
    (standard_marks (UU := ascii_uppercase) (C := toy_crypto) _ _) pam_stored pam_tidy Hne ltac:(discriminate) pam_runs)) as (e & He & _).
  exists e. exact He.
Defined.

(** What is left under the name: the new hash, the stamp and the hashed old password. *)
Example pam_history :
  (λ e, (length (Values (U := ascii_unicode) e attrUserPassword), Values (U := ascii_unicode) e attrPwdChangedTime,
         forallb (isPreHashed) (Values (U := ascii_unicode) e attrPasswordHistory))) <$> (map_to_list pam_changed).*2 = [(1%nat, [B "19700101000000Z"], true)].
Proof. vm_compute. reflexivity. Qed.

(** * Hashes *)

(** Hashing and verifying agree: what the standard hasher makes of a password, from a
    salt of 16 bytes, verifies exactly the passwords with the same salted digest, if its
    iteration count is within the ceiling of the verifier; above it, it verifies
    nothing. *)
Theorem Hash_verifies {UU : UnicodeUpper} {UUL : UnicodeUpperLaws UU} {C : Crypto} {CL : CryptoLaws C} (h : StandardHasher) (salt p v q : bytes) :
  length salt = 16%nat → iterations h < 2 ^ 32 → Hash_ h (Some salt) p = Some v →
  isPreHashed v = true ∧
  (verifyPassword v q = true ↔ honoured h = true ∧ digest_of h salt q = digest_of h salt p) ∧
  (honoured h = true → verifyPassword v p = true).
Proof.
  intros Hs Hi H. rewrite !(verify_Hash_aux h salt p v) by done. split_and!.
  - by eapply Hash_prehashed.
  - by rewrite andb_true_iff, beq_true.
  - intros ->. by rewrite beq_refl.
Qed.

Lemma Hash_verifies_witness :
  verifyPassword (UU := ascii_uppercase) (C := toy_crypto) (default [] (ph_Hash toy_hasher 0%nat (B "hunter2"))) (B "hunter2") = true.
Proof.
  refine (proj2 (proj2 (Hash_verifies (UU := ascii_uppercase) (UUL := ascii_uppercase_laws) (C := toy_crypto) (CL := toy_crypto_laws)
    (MkStandardHasher SchemeSSHA512 0) (repeat x2a 16) (B "hunter2") _ (B "hunter2") _ _ _)) _); vm_compute; reflexivity.
Defined.
