(* ===== verification/GoText.v ===== *)
(** [strings.Fields] of Go, and how it meets lower-casing and joining.

    The index of the store folds values by fields, the filter evaluator by spaces;
    the lemmas here say what both see of a string: its runes.  [UnicodeSpaces] is
    the part of the Unicode tables they rely on, that no letter case touches white
    space. *)

From S2P Require Import Prelude GoStrings.
Local Open Scope Z_scope.

Class UnicodeSpaces (U : Unicode) : Prop := {
  rune_lower_space : ∀ r, is_space (rune_lower r) = is_space r;
  space_lower : ∀ r, is_space r = true → rune_lower r = r;
}.

(** The maximal runs of non-space runes. *)
Fixpoint fields_go (cur : bytes) (rs : list (Z * bytes)) : list bytes :=
  match rs with
  | [] => if bool_decide (cur = []) then [] else [cur]
  | (r, ch) :: rs' =>
    if is_space r then (if bool_decide (cur = []) then [] else [cur]) ++ fields_go [] rs'
    else fields_go (cur ++ ch) rs'
  end.

Definition Fields (s : bytes) : list bytes := fields_go [] (runes s).

(** * Runes of a concatenation *)

Lemma valid_prefix (s t : bytes) :
  s ≠ [] → (decode_rune s).2 ≠ 1%nat ∨ (decode_rune s).1 ≠ rune_error → decode_rune (s ++ t) = decode_rune s.
Proof.
  destruct s as [|c s]; [done|]. intros _ H. cbn [app].
  unfold decode_rune in *. destruct (bz c <? 128); [done|]. destruct ((bz c <? 194) || (245 <=? bz c)); [done|].
  destruct s as [|c1 s]; [cbn in H; tauto|]. cbn [app] in *. destruct (negb _); [done|].
  destruct (bz c <? 224); [done|]. destruct s as [|c2 s]; [cbn in H; tauto|]. cbn [app] in *. destruct (negb _); [done|].
  destruct (bz c <? 240); [done|]. destruct s as [|c3 s]; [cbn in H; tauto|]. done.
Qed.

Lemma valid_take (s : bytes) :
  (decode_rune s).2 ≠ 1%nat ∨ (decode_rune s).1 ≠ rune_error → decode_rune (take (decode_rune s).2 s) = decode_rune s.
Proof.
  destruct s as [|c s]; [done|]. unfold decode_rune at 1 2 4. intros H.
  destruct (bz c <? 128) eqn:E0; [cbn [snd take]; unfold decode_rune; by rewrite E0|].
  destruct ((bz c <? 194) || (245 <=? bz c)) eqn:E1; [cbn in H; tauto|].
  destruct s as [|c1 s]; [cbn in H; tauto|]. destruct (negb (in_range _ _ (bz c1))) eqn:R1; [cbn in H; tauto|].
  destruct (bz c <? 224) eqn:E2; [cbn [snd take]; unfold decode_rune; by rewrite E0, E1, R1, E2|].
  destruct s as [|c2 s]; [cbn in H; tauto|]. destruct (negb (in_range _ _ (bz c2))) eqn:R2; [cbn in H; tauto|].
  destruct (bz c <? 240) eqn:E3; [cbn [snd take]; unfold decode_rune; by rewrite E0, E1, R1, E2, R2, E3|].
  destruct s as [|c3 s]; [cbn in H; tauto|]. destruct (negb (in_range _ _ (bz c3))) eqn:R3; [cbn in H; tauto|].
  cbn [snd take]; unfold decode_rune; by rewrite E0, E1, R1, E2, R2, E3, R3.
Qed.

Lemma decode_valid_dec (s : bytes) :
  s ≠ [] → decode_rune s = (rune_error, 1%nat) ∨ (decode_rune s).2 ≠ 1%nat ∨ (decode_rune s).1 ≠ rune_error.
Proof.
  intros _. destruct (decode_rune s) as [r w]; cbn.
  destruct (decide (w = 1%nat)) as [->|]; [|tauto]. destruct (decide (r = rune_error)) as [->|]; tauto.
Qed.

(** Decoding sees only the octets of the rune. *)
Lemma decode_prefix (s t : bytes) :
  s ≠ [] → ((decode_rune (s ++ t)).2 ≤ length s)%nat → decode_rune (s ++ t) = decode_rune s.
Proof.
  intros Hs Hw. destruct (decode_valid_dec s Hs) as [E|H]; [|by apply valid_prefix].
  destruct (decode_valid_dec (s ++ t)) as [E'|H]; [by destruct s | congruence|].
  pose proof (valid_take _ H) as Ht. rewrite take_app_le in Ht by lia.
  rewrite <- (take_drop (decode_rune (s ++ t)).2 s) at 2. rewrite (valid_prefix (take _ s)).
  - by rewrite Ht.
  - destruct s as [|c s]; [done|]. pose proof (decode_rune_width c (s ++ t)) as Hw'. cbn [app] in *.
    destruct (decode_rune (c :: s ++ t)).2; [lia | done].
  - by rewrite Ht.
Qed.

Lemma decode_ascii (s t : bytes) (c : byte) : bz c < 128 → s ≠ [] → decode_rune (s ++ c :: t) = decode_rune s.
Proof.
  intros Hc. destruct s as [|c0 s]; [done|]. intros _. cbn [app].
  assert (Hr : ∀ lo hi, 128 ≤ lo → in_range lo hi (bz c) = false).
  { intros lo hi Hl. unfold in_range. rewrite (proj2 (Z.leb_gt lo (bz c))) by lia. done. }
  unfold decode_rune. destruct (bz c0 <? 128); [done|]. destruct (_ || _); [done|].
  destruct s as [|c1 s]; cbn [app]; [rewrite Hr; [done | repeat case_match; lia]|]. destruct (negb _); [done|].
  destruct (bz c0 <? 224); [done|]. destruct s as [|c2 s]; cbn [app]; [by rewrite Hr|]. destruct (negb _); [done|].
  destruct (bz c0 <? 240); [done|]. destruct s as [|c3 s]; cbn [app]; [by rewrite Hr|]. done.
Qed.

Lemma runes_ascii_app (a b : bytes) (c : byte) : bz c < 128 → runes (a ++ c :: b) = runes a ++ runes (c :: b).
Proof.
  intros Hc. induction a as [|x a IH] using runes_ind; [done|]. cbn [app]. rewrite !(runes_cons x).
  change (x :: a ++ c :: b) with ((x :: a) ++ c :: b). rewrite decode_ascii by done. cbn [app].
  pose proof (decode_rune_width x a). set (w := (decode_rune (x :: a)).2) in *.
  change (x :: a ++ c :: b) with ((x :: a) ++ c :: b). rewrite take_app_le, drop_app_le by lia. by rewrite IH.
Qed.

(** A run of the runes of a string decodes to itself. *)
Lemma runes_suffix (s : bytes) (l m : list (Z * bytes)) : runes s = l ++ m → runes (concat (snd <$> m)) = m.
Proof.
  revert s. induction l as [|p l IH]; intros s H.
  - cbn [app] in H. by rewrite <- H, runes_concat.
  - destruct s as [|c t]; [done|]. rewrite runes_cons in H. injection H as _ H. by eapply IH.
Qed.

Lemma runes_prefix (s : bytes) (l m : list (Z * bytes)) : runes s = l ++ m → runes (concat (snd <$> l)) = l.
Proof.
  revert s. induction l as [|p l IH]; intros s H; [done|].
  destruct s as [|c t]; [done|]. pose proof (runes_concat (c :: t)) as Hc. rewrite H in Hc.
  pose proof (decode_rune_width c t) as Hw. rewrite runes_cons in H.
  remember (decode_rune (c :: t)) as d eqn:Ed. destruct d as [rn w]. cbn [fst snd] in *. injection H as <- H.
  specialize (IH _ H). cbn [fmap list_fmap concat snd fst app] in *. rewrite fmap_app, concat_app in Hc.
  set (r := concat (snd <$> l)) in *.
  assert (Hne : take w (c :: t) ++ r ≠ []) by (destruct w; [lia|done]).
  assert (Hd : decode_rune (take w (c :: t) ++ r) = (rn, w)).
  { rewrite Ed. rewrite app_assoc in Hc. rewrite <- Hc at 2. symmetry. apply decode_prefix; [done|].
    rewrite Hc, <- Ed, length_app, length_take. cbn [length snd] in *. lia. }
  destruct (take w (c :: t) ++ r) as [|c' t'] eqn:E; [done|]. rewrite runes_cons, Hd. cbn [fst snd]. rewrite <- E.
  assert (Hl : length (take w (c :: t)) = w) by (rewrite length_take; cbn [length] in *; lia).
  rewrite take_app_length' by done. rewrite drop_app_length' by done. by rewrite IH.
Qed.

(** * What a string says: its runes *)

Definition R (s : bytes) : list Z := fst <$> runes s.

Fixpoint fieldsZ_go (cur : list Z) (l : list Z) : list (list Z) :=
  match l with
  | [] => if bool_decide (cur = []) then [] else [cur]
  | r :: l' =>
    if is_space r then (if bool_decide (cur = []) then [] else [cur]) ++ fieldsZ_go [] l'
    else fieldsZ_go (cur ++ [r]) l'
  end.

Definition fieldsZ (l : list Z) : list (list Z) := fieldsZ_go [] l.

Fixpoint joinZ (parts : list (list Z)) : list Z :=
  match parts with
  | [] => []
  | [p] => p
  | p :: ps => p ++ 32 :: joinZ ps
  end.

Lemma R_space_app (a b : bytes) : R (a ++ x20 :: b) = R a ++ 32 :: R b.
Proof. unfold R. rewrite runes_ascii_app by done. by rewrite fmap_app. Qed.

Lemma R_join (ps : list bytes) : R (join (B " ") ps) = joinZ (R <$> ps).
Proof.
  induction ps as [|p ps IH]; [done|]. destruct ps as [|q ps]; [done|].
  change (join (B " ") (p :: q :: ps)) with (p ++ x20 :: join (B " ") (q :: ps)).
  by rewrite R_space_app, IH.
Qed.

Lemma fields_go_R (s : bytes) (l cur m : list (Z * bytes)) :
  runes s = l ++ cur ++ m → R <$> fields_go (concat (snd <$> cur)) m = fieldsZ_go (fst <$> cur) (fst <$> m).
Proof.
  assert (Hcur : ∀ cur l m, runes s = l ++ cur ++ m →
    R <$> (if bool_decide (concat (snd <$> cur) = []) then [] else [concat (snd <$> cur)]) =
    if bool_decide ((fst <$> cur : list Z) = []) then [] else [fst <$> cur]).
  { clear. intros cur l m H. pose proof (runes_suffix _ _ _ H) as H'. apply runes_prefix in H'.
    destruct cur as [|p cur]; [done|].
    rewrite (bool_decide_eq_false_2 (concat _ = [])) by (intros E; by rewrite E in H').
    change (R <$> [concat (snd <$> (p :: cur))]) with [fst <$> runes (concat (snd <$> (p :: cur)))]. by rewrite H'. }
  revert l cur. induction m as [|[r ch] m IH]; intros l cur H; cbn [fields_go fieldsZ_go fmap list_fmap fst].
  - by apply Hcur in H.
  - destruct (is_space r).
    + rewrite fmap_app. f_equal; [by eapply Hcur|].
      apply (IH (l ++ cur ++ [(r, ch)]) []). rewrite H. by rewrite <- !app_assoc.
    + specialize (IH l (cur ++ [(r, ch)])). rewrite !fmap_app, concat_app in IH. cbn [fmap list_fmap concat snd fst] in IH.
      rewrite app_nil_r in IH. apply IH. rewrite H. by rewrite <- !app_assoc.
Qed.

Lemma Fields_R (s : bytes) : R <$> Fields s = fieldsZ (R s).
Proof. apply (fields_go_R s [] []). done. Qed.

Lemma fieldsZ_go_space (cur a b : list Z) : fieldsZ_go cur (a ++ 32 :: b) = fieldsZ_go cur a ++ fieldsZ b.
Proof.
  revert cur. induction a as [|r a IH]; intros cur; cbn [fieldsZ_go app]; [done|].
  destruct (is_space r); [by rewrite IH, app_assoc | apply IH].
Qed.

Lemma fieldsZ_join (ps : list (list Z)) : fieldsZ (joinZ ps) = concat (fieldsZ <$> ps).
Proof.
  induction ps as [|p ps IH]; [done|]. destruct ps as [|q ps]; [cbn; by rewrite app_nil_r|].
  change (joinZ (p :: q :: ps)) with (p ++ 32 :: joinZ (q :: ps)). unfold fieldsZ at 1. rewrite fieldsZ_go_space, IH. done.
Qed.

Section lower.
Context {U : Unicode} {UL : UnicodeLaws U} {US : UnicodeSpaces U}.

Lemma fieldsZ_lower (l : list Z) : fieldsZ (fmap (M := list) rune_lower l) = fmap (M := list) (fmap (M := list) rune_lower) (fieldsZ l).
Proof.
  unfold fieldsZ. change (@nil Z) with (fmap (M := list) rune_lower (@nil Z)) at 1. generalize (@nil Z). induction l as [|r l IH]; intros cur.
  - cbn [fieldsZ_go fmap list_fmap]. destruct cur; [done|]. done.
  - cbn [fieldsZ_go fmap list_fmap]. rewrite rune_lower_space. destruct (is_space r).
    + rewrite fmap_app. change (@nil Z) with (fmap (M := list) rune_lower (@nil Z)) at 2. rewrite IH. f_equal. by destruct cur.
    + rewrite <- IH. by rewrite fmap_app.
Qed.

Lemma joinZ_lower (ps : list (list Z)) : joinZ (fmap (M := list) (fmap (M := list) rune_lower) ps) = fmap (M := list) rune_lower (joinZ ps).
Proof.
  induction ps as [|p ps IH]; [done|]. destruct ps as [|q ps]; [done|].
  change (joinZ (p :: q :: ps)) with (p ++ 32 :: joinZ (q :: ps)).
  change (joinZ (fmap (fmap rune_lower) (p :: q :: ps)))
    with (fmap rune_lower p ++ 32 :: joinZ (fmap (M := list) (fmap (M := list) rune_lower) (q :: ps))).
  by rewrite IH, fmap_app, fmap_cons, (space_lower 32) by done.
Qed.

Lemma R_to_lower (s : bytes) : R (to_lower s) = fmap (M := list) rune_lower (R s).
Proof. unfold R. rewrite runes_to_lower, <- list_fmap_compose. done. Qed.

(** Lower-casing the fields of a string, joined by single spaces, only depends on the
    fields of the lower-cased string. *)
Lemma lower_fields (s : bytes) :
  to_lower (join (B " ") (Fields s)) = concat (encode_rune <$> joinZ (fieldsZ (R (to_lower s)))).
Proof.
  rewrite to_lower_runes, R_to_lower, fieldsZ_lower, joinZ_lower, <- Fields_R, <- R_join.
  unfold R. by rewrite <- (list_fmap_compose fst rune_lower).
Qed.

End lower.

#[export] Instance ascii_unicode_spaces : UnicodeSpaces ascii_unicode.
Proof.
  assert (Hl : ∀ r, ascii_lower r = r ∨ 65 ≤ r ≤ 90 ∧ ascii_lower r = r + 32).
  { intros r. unfold ascii_lower. destruct (in_range 65 90 r) eqn:E; [right | by left]. apply in_range_true in E. lia. }
  assert (Hn : ∀ r, 65 ≤ r ≤ 122 → is_space r = false).
  { intros r Hr. unfold is_space, in_range. repeat rewrite orb_false_iff. repeat rewrite andb_false_iff.
    rewrite ?Z.eqb_neq, ?Z.leb_gt. lia. }
  constructor; cbn; intros r.
  - destruct (Hl r) as [->|[Hr ->]]; [done|]. rewrite !Hn; [done | lia..].
  - intros H. destruct (Hl r) as [->|[Hr ->]]; [done|]. rewrite Hn in H; [done | lia].
Qed.

(** * ASCII words *)

Definition ascii_runes : bytes → list (Z * bytes) := fmap (M := list) (λ b, (bz b, [b])).

Lemma runes_ascii (s : bytes) : Forall (λ b, (bz b < 128)%Z) s → runes s = ascii_runes s.
Proof. induction 1 as [|b s Hb _ IH]; [done |]. rewrite runes_ascii_cons by done. by rewrite IH. Qed.

Lemma drop_spaces_pad (i : nat) (l : list (Z * bytes)) : drop_spaces (replicate i (32%Z, [x20]) ++ l) = drop_spaces l.
Proof. induction i as [|i IH]; [done |]. cbn. exact IH. Qed.

Lemma drop_spaces_none (l : list (Z * bytes)) : Forall (λ p, is_space p.1 = false) l → drop_spaces l = l.
Proof. intros [|p l' Hp _]; [done |]. cbn. by rewrite Hp. Qed.

Lemma drop_spaces_head (p : Z * bytes) (l : list (Z * bytes)) : is_space p.1 = false → drop_spaces (p :: l) = p :: l.
Proof. intros Hp. cbn. by rewrite Hp. Qed.

(** An ASCII octet that is not white space. *)
Definition visible (b : byte) : Prop := (bz b < 128)%Z ∧ is_space (bz b) = false.

(** White space around a word goes. *)
Lemma trim_pad (i j : nat) (n : bytes) : Forall visible n → trim_space (replicate i x20 ++ n ++ replicate j x20) = n.
Proof.
  intros Hn. assert (Hr : runes (replicate i x20 ++ n ++ replicate j x20) = replicate i (32%Z, [x20]) ++ ascii_runes n ++ replicate j (32%Z, [x20])).
  { rewrite runes_ascii.
    - unfold ascii_runes. rewrite !fmap_app, !fmap_replicate. done.
    - rewrite !Forall_app. split_and!; [by apply Forall_replicate | | by apply Forall_replicate]. eapply Forall_impl; [exact Hn |]. by intros b [? ?]. }
  assert (Hs : Forall (λ p : Z * bytes, is_space p.1 = false) (ascii_runes n)).
  { unfold ascii_runes. rewrite Forall_fmap. eapply Forall_impl; [exact Hn |]. by intros b [? ?]. }
  unfold trim_space. rewrite Hr, drop_spaces_pad.
  assert (Hsame : drop_spaces (ascii_runes n ++ replicate j (32%Z, [x20])) = match n with [] => [] | _ => ascii_runes n ++ replicate j (32%Z, [x20]) end).
  { destruct n as [|b n]; [cbn [ascii_runes fmap list_fmap app]; by rewrite <- (app_nil_r (replicate j _)), drop_spaces_pad |].
    apply Forall_cons in Hs as [Hb _]. exact (drop_spaces_head _ _ Hb). }
  rewrite Hsame. destruct n as [|b n]; [done |].
  rewrite reverse_app, reverse_replicate, drop_spaces_pad, drop_spaces_none by (by apply Forall_reverse).
  rewrite reverse_involutive. unfold ascii_runes. rewrite <- list_fmap_compose. clear. generalize (b :: n) as l.
  induction l as [|x l IH]; [done |]. cbn [fmap list_fmap concat app compose snd]. f_equal. exact IH.
Qed.
