(* ===== verification/Bolt.v ===== *)
(** The key-value library the store is written against ([go.etcd.io/bbolt], not part
    of the repository).

    A bucket is an ordered map from keys to values; a transaction of the store is a
    record of buckets ([Store.v]).  The operations are the fields of [BoltLib], a
    [None] being the library's error; [BoltLaws] is their documented behaviour: Put
    refuses blank keys and oversized keys and values, Get reads what was put, keys
    are kept in byte order, sequence numbers grow.  [toy_bolt] is an instance that
    satisfies the laws. *)

From Stdlib Require Export Sorting.Sorted.
From S2P Require Import Prelude GoStrings Message Schema Matching.
Local Open Scope Z_scope.

(** Byte order of keys. *)
Definition key_lt (a b : bytes) : Prop := compare a b = -1.

Class BoltLib : Type := {
  Bucket : Type;
  NewBucket : Bucket;
  Get : Bucket → bytes → option bytes;
  Put : Bucket → bytes → bytes → option Bucket;
  Remove : Bucket → bytes → Bucket;
  (** the key-value pairs in the order of [ForEach] and of a cursor *)
  Items : Bucket → list (bytes * bytes);
  (** [NextSequence], and [Sequence], the number it last returned *)
  NextSequence : Bucket → option (Z * Bucket);
  Sequence : Bucket → Z;
  (** whether a nested bucket may be created under this name *)
  NameOk : bytes → bool;
}.

Definition MaxKeySize : Z := 32768.

Definition MaxValueSize : Z := 2^31 - 2.

Class BoltLaws (L : BoltLib) : Prop := {
  Get_New : ∀ k, Get NewBucket k = None;
  Sequence_New : Sequence NewBucket = 0;
  Put_Get : ∀ b k v b' k', Put b k v = Some b' → Get b' k' = if bool_decide (k = k') then Some v else Get b k';
  Put_limits : ∀ b k v b', Put b k v = Some b' → k ≠ [] ∧ blen k ≤ MaxKeySize ∧ blen v ≤ MaxValueSize;
  Put_accepts : ∀ b k v, k ≠ [] → blen k ≤ MaxKeySize → blen v ≤ MaxValueSize → is_Some (Put b k v);
  Put_Sequence : ∀ b k v b', Put b k v = Some b' → Sequence b' = Sequence b;
  Remove_Get : ∀ b k k', Get (Remove b k) k' = if bool_decide (k = k') then None else Get b k';
  Remove_Sequence : ∀ b k, Sequence (Remove b k) = Sequence b;
  Items_Get : ∀ b k v, (k, v) ∈ Items b ↔ Get b k = Some v;
  Items_sorted : ∀ b, StronglySorted key_lt (Items b).*1;
  Next_spec : ∀ b n b', NextSequence b = Some (n, b') →
    Sequence b < n < 2^64 ∧ Sequence b' = n ∧ ∀ k, Get b' k = Get b k;
  Next_accepts : ∀ b, Sequence b + 1 < 2^64 → is_Some (NextSequence b);
  NameOk_accepts : ∀ k, k ≠ [] → blen k ≤ MaxKeySize → NameOk k = true;
}.

(** * An instance *)

(** A map with its last sequence number. *)
Definition toy_bolt : BoltLib := {|
  Bucket := gmap bytes bytes * Z;
  NewBucket := (∅, 0);
  Get b k := b.1 !! k;
  Put b k v :=
    if bool_decide (k ≠ []) && (blen k <=? MaxKeySize) && (blen v <=? MaxValueSize)
    then Some (<[k := v]> b.1, b.2) else None;
  Remove b k := (delete k b.1, b.2);
  Items b := sort_by fst (map_to_list b.1);
  NextSequence b := if b.2 + 1 <? 2^64 then Some (b.2 + 1, (b.1, b.2 + 1)) else None;
  Sequence b := b.2;
  NameOk k := bool_decide (k ≠ []);
|}.

Lemma key_lt_le (a b : bytes) : key_lt a b ↔ compare a b ≤ 0 ∧ a ≠ b.
Proof.
  unfold key_lt. rewrite <- (compare_eq a b). split; [lia|]. intros [H1 H2].
  assert (H : compare a b = -1 ∨ compare a b = 0 ∨ compare a b = 1); [|lia]. clear.
  revert b. induction a as [|x a IH]; intros [|y b]; cbn -[bz]; auto. repeat case_match; auto.
Qed.

Lemma insert_by_perm {A} (key : A → bytes) (x : A) (l : list A) : insert_by key x l ≡ₚ x :: l.
Proof. induction l as [|y m IH]; cbn; [done|]. case_match; [done|]. rewrite IH. constructor. Qed.

Lemma sort_by_perm {A} (key : A → bytes) (l : list A) : sort_by key l ≡ₚ l.
Proof.
  induction l as [|x l IH]; [done|]. change (sort_by key (x :: l)) with (insert_by key x (sort_by key l)).
  rewrite insert_by_perm. by constructor.
Qed.

Lemma insert_by_sorted {A} (key : A → bytes) (x : A) (l : list A) :
  key x ∉ key <$> l → StronglySorted key_lt (key <$> l) → StronglySorted key_lt (key <$> insert_by key x l).
Proof.
  induction l as [|y l IH]; intros Hx Hs; cbn in *; [by repeat constructor|].
  apply not_elem_of_cons in Hx as [Hxy Hx]. inversion_clear Hs as [|? ? Hs' Hy].
  destruct (Z.leb_spec (compare (key x) (key y)) 0); cbn.
  - assert (Hlt : key_lt (key x) (key y)) by (by apply key_lt_le).
    constructor; [by constructor|]. constructor; [done|]. eapply Forall_impl; [exact Hy|]. intros z Hz.
    apply key_lt_le in Hlt as [H1 H2], Hz as [H3 H4]. apply key_lt_le. split; [by eapply compare_trans|].
    intros E. apply H2, compare_eq. rewrite <- E in H3. pose proof (compare_antisym (key y) (key x)). lia.
  - constructor; [by apply IH|]. apply Forall_forall. intros z (e & -> & He)%list_elem_of_fmap.
    apply insert_by_elem in He as [->|He].
    + apply key_lt_le. split; [|done]. pose proof (compare_antisym (key x) (key y)). lia.
    + rewrite Forall_forall in Hy. apply Hy, list_elem_of_fmap. by exists e.
Qed.

Lemma sort_by_sorted {A} (key : A → bytes) (l : list A) :
  NoDup (key <$> l) → StronglySorted key_lt (key <$> sort_by key l).
Proof.
  induction l as [|x l IH]; intros Hd; [constructor|]. apply NoDup_cons in Hd as [Hx Hd].
  change (sort_by key (x :: l)) with (insert_by key x (sort_by key l)).
  apply insert_by_sorted; [by rewrite sort_by_perm | by apply IH].
Qed.

#[export] Instance toy_bolt_laws : BoltLaws toy_bolt.
Proof.
  constructor; cbn.
  - intros k. apply lookup_empty.
  - done.
  - intros b k v b' k' H. destruct (_ && _); [|done]. injection H as <-. cbn [fst].
    destruct (bool_decide_reflect (k = k')) as [->|]; [apply lookup_insert_eq | by apply lookup_insert_ne].
  - intros b k v b' H. destruct (bool_decide (k ≠ [])) eqn:E; [|done]. apply bool_decide_eq_true in E.
    destruct (Z.leb_spec (blen k) MaxKeySize); [|done]. destruct (Z.leb_spec (blen v) MaxValueSize); [|done]. done.
  - intros b k v H1 H2 H3. rewrite bool_decide_true by done. rewrite (proj2 (Z.leb_le _ _) H2), (proj2 (Z.leb_le _ _) H3).
    by eexists.
  - intros b k v b' H. destruct (_ && _); [|done]. by injection H as <-.
  - intros b k k'. destruct (bool_decide_reflect (k = k')) as [->|]; [apply lookup_delete_eq | by apply lookup_delete_ne].
  - done.
  - intros b k v. rewrite sort_by_elem. apply elem_of_map_to_list.
  - intros b. apply sort_by_sorted, NoDup_fst_map_to_list.
  - intros b n b' H. destruct (Z.ltb_spec (b.2 + 1) (2^64)); [|done]. injection H as <- <-. cbn [fst snd]. split; [lia | done].
  - intros b H. apply Z.ltb_lt in H. rewrite H. by eexists.
  - intros k H _. by apply bool_decide_true.
Qed.
