(* ===== verification/Store.v ===== *)
(** The persistent store: [src/internal/ldapserver/store/store.go], its equality
    indices [index.go] and [index_store.go], and the walkers of [search_walk.go].

    A transaction [DB] is the buckets of the database: [dn2id] from folded keys to
    entry ids, [id2entry] from ids to encoded entries, [children] with one nested
    bucket of child ids per parent key, [postings] with one bucket of value keys per
    indexed attribute, and [idxmeta].  The write operations return the transaction
    they leave; [Store.Update] commits or drops it.  [ctx n] says whether the context
    is found cancelled at its [n]-th poll. *)

From S2P Require Import Prelude GoStrings GoText DN Message StoreCodec Attr Schema Matching FilterEval StoreIface Bolt.
Local Open Scope Z_scope.

(** * Ids *)

Definition uint64Bytes (v : Z) : bytes := (λ i, zb (Z.shiftr v (8 * i))) <$> [7; 6; 5; 4; 3; 2; 1; 0].

Definition idUint64 (id : bytes) : Z := if negb (length id =? 8)%nat then 0 else be_acc 0 id.

(** * The index registry *)

Record indexedAttribute : Type := MkIndexed { ia_bucket : bytes; ia_dn : bool; ia_uniqueMember : bool }.

Definition indexedAttributes : list (bytes * indexedAttribute) :=
  [(B "uid", MkIndexed (B "eq_uid") false false);
   (B "cn", MkIndexed (B "eq_cn") false false);
   (B "member", MkIndexed (B "eq_member") true false);
   (B "uniquemember", MkIndexed (B "eq_uniquemember") true true);
   (B "objectclass", MkIndexed (B "eq_objectclass") false false)].

Definition indexVersion : Z := 3.

Definition idxVersionKey : bytes := B "version".

(** [postingKey] and [parsePostingKey]. *)
Definition postingKey (norm : bytes) (id : Z) : bytes := norm ++ [x00] ++ uint64Bytes id.

Definition parsePostingKey (key : bytes) : option (bytes * Z) :=
  let n := (length key - 9)%nat in
  if (length key <? 9)%nat || negb (bool_decide (key !! n = Some x00)) then None
  else Some (take n key, be_acc 0 (drop (S n) key)).

Section store.
Context {U : Unicode} {BL : BoltLib}.

Definition normalizeIndexKey (spec : indexedAttribute) (value : bytes) : bytes :=
  let text := to_lower (join (B " ") (Fields value)) in
  if ia_dn spec then
    let raw := if ia_uniqueMember spec then stripUniqueMemberSuffix value else value in
    match ParseDN raw with
    | Ok d => FoldedKey d
    | Err _ => text
    end
  else text.

(** * Transactions *)

Record DB : Type := MkDB {
  dn2id : Bucket;
  id2entry : Bucket;
  children : gmap bytes Bucket;
  postings : gmap bytes Bucket;
  idxmeta : option Bucket;
}.

Definition set_dn2id (db : DB) (b : Bucket) : DB := MkDB b (id2entry db) (children db) (postings db) (idxmeta db).
Definition set_id2entry (db : DB) (b : Bucket) : DB := MkDB (dn2id db) b (children db) (postings db) (idxmeta db).
Definition set_children (db : DB) (c : gmap bytes Bucket) : DB := MkDB (dn2id db) (id2entry db) c (postings db) (idxmeta db).
Definition set_postings (db : DB) (p : gmap bytes Bucket) : DB := MkDB (dn2id db) (id2entry db) (children db) p (idxmeta db).

(** A wrapped error of the library, of the entry codec or of a name. *)
Definition broken {A} : res store_err A := Err (StoreFailure (B "store")).

Definition of_option {A} (o : option A) : res store_err A := match o with Some a => Ok a | None => broken end.

Definition of_res {E A} (r : res E A) : res store_err A := match r with Ok a => Ok a | Err _ => broken end.

(** * Reading *)

Section reading.
Variable ctx : nat → bool.

Definition alive (n : nat) : res store_err () := ensure (negb (ctx n)) (StoreFailure (B "context")).

Definition entryByID (db : DB) (id : bytes) : res store_err Entry :=
  match Get (id2entry db) id with
  | None => Err ErrNoSuchObject
  | Some blob => of_res (decodeEntry blob)
  end.

Definition store_Entry (db : DB) (dn : DN) : res store_err Entry :=
  _ ← alive 0;
  match Get (dn2id db) (FoldedKey dn) with
  | None => Err ErrNoSuchObject
  | Some id => entryByID db id
  end.

(** The ids of a nested bucket, in the order of its cursor. *)
Definition child_ids (db : DB) (key : bytes) : list bytes :=
  match children db !! key with
  | None => []
  | Some kids => (Items kids).*1
  end.

Definition store_Children (db : DB) (dn : DN) : res store_err (list Entry) :=
  _ ← alive 0;
  match Get (dn2id db) (FoldedKey dn) with
  | None => Err ErrNoSuchObject
  | Some _ => rmap (entryByID db) (child_ids db (FoldedKey dn))
  end.

(** The keys queued for the children of [key]. *)
Definition child_keys (db : DB) (key : bytes) : res store_err (list bytes) :=
  rmap (λ id, e ← entryByID db id; d ← of_res (ParseDN (EDN e)); Ok (FoldedKey d)) (child_ids db key).

(** The queue of [Subtree] and [collectMoves]: the entries reached from it, breadth
    first, with their keys and ids; [None] when [fuel] rounds do not empty it. *)
Fixpoint subtree_loop (fuel : nat) (db : DB) (queue : list bytes) : option (res store_err (list (bytes * bytes * Entry))) :=
  match fuel with
  | O => None
  | S fuel' =>
    match queue with
    | [] => Some (Ok [])
    | key :: queue' =>
      match Get (dn2id db) key with
      | None => subtree_loop fuel' db queue'
      | Some id =>
        match entryByID db id with
        | Err e => Some (Err e)
        | Ok e =>
          match child_keys db key with
          | Err err => Some (Err err)
          | Ok ks => (λ r, l ← r; Ok ((key, id, e) :: l)) <$> subtree_loop fuel' db (queue' ++ ks)
          end
        end
      end
    end
  end.

(** One round per stored name empties the queue. *)
Definition rounds (db : DB) : nat := S (length (Items (dn2id db))).

Definition reach (db : DB) (key : bytes) : res store_err (list (bytes * bytes * Entry)) :=
  default broken (subtree_loop (rounds db) db [key]).

Definition store_Subtree (db : DB) (dn : DN) : res store_err (list Entry) :=
  _ ← alive 0;
  match Get (dn2id db) (FoldedKey dn) with
  | None => Err ErrNoSuchObject
  | Some _ => l ← reach db (FoldedKey dn); Ok l.*2
  end.

(** * The walkers

    A walk is the entries handed to the callback, in order, and the error that ends
    it; a callback that fails stops it there. *)

(** The cursors of [WalkSearch], innermost first, as the ids they have yet to yield. *)
Fixpoint walk_loop (fuel n : nat) (db : DB) (deep : bool) (cursors : list (list bytes)) :
    option (list Entry * option store_err) :=
  match fuel with
  | O => None
  | S fuel' =>
    match cursors with
    | [] => Some ([], None)
    | ids :: rest =>
      if ctx n then Some ([], Some (StoreFailure (B "context")))
      else
        match ids with
        | [] => walk_loop fuel' (S n) db deep rest
        | id :: ids =>
          match entryByID db id with
          | Err e => Some ([], Some e)
          | Ok e =>
            let go cursors := (λ w, (e :: w.1, w.2)) <$> walk_loop fuel' (S n) db deep cursors in
            if negb deep then go (ids :: rest)
            else
              match ParseDN (EDN e) with
              | Err _ => Some ([e], Some (StoreFailure (B "invalid stored DN")))
              | Ok d =>
                match children db !! FoldedKey d with
                | Some kids => go ((Items kids).*1 :: ids :: rest)
                | None => go (ids :: rest)
                end
              end
          end
        end
    end
  end.

Definition WalkSearch (db : DB) (base : DN) (scope : Z) : list Entry * option store_err :=
  match store_Entry db base with
  | Err e => ([], Some e)
  | Ok root =>
    let first := if (scope =? ScopeBaseObject) || (scope =? ScopeWholeSubtree) then [root] else [] in
    if scope =? ScopeBaseObject then (first, None)
    else
      match children db !! FoldedKey base with
      | None => (first, None)
      | Some kids =>
        let w := default ([], Some (StoreFailure (B "walk")))
                   (walk_loop (S (2 * rounds db)) 1 db (scope =? ScopeWholeSubtree) [(Items kids).*1]) in
        (first ++ w.1, w.2)
      end
  end.

(** The ids a cursor finds from [Seek(prefix)] while the prefix lasts, with the
    exact-value guard. *)
Fixpoint seek (prefix : bytes) (keys : list bytes) : list bytes :=
  match keys with
  | [] => []
  | k :: keys' => if compare k prefix <? 0 then seek prefix keys' else keys
  end.

Fixpoint while_prefix (prefix : bytes) (keys : list bytes) : list bytes :=
  match keys with
  | [] => []
  | k :: keys' => if has_prefix k prefix then k :: while_prefix prefix keys' else []
  end.

(** The keys under a value's prefix, and the ids they carry. *)
Definition posting_keys (b : Bucket) (norm : bytes) : list bytes :=
  let prefix := norm ++ [x00] in
  while_prefix prefix (seek prefix (Items b).*1).

Definition posting_id (norm key : bytes) : option Z :=
  match parsePostingKey key with
  | Some (v, id) => if (v =b? norm)%ldap then Some id else None
  | None => None
  end.

Definition posting_ids (b : Bucket) (norm : bytes) : list Z := omap (posting_id norm) (posting_keys b norm).

(** The cursor of [WalkEqual]; the context is polled at every key. *)
Fixpoint walk_postings (n : nat) (db : DB) (norm : bytes) (keys : list bytes) : list Entry * option store_err :=
  match keys with
  | [] => ([], None)
  | k :: keys' =>
    if ctx n then ([], Some (StoreFailure (B "context")))
    else
      match posting_id norm k with
      | None => walk_postings (S n) db norm keys'
      | Some id =>
        match entryByID db (uint64Bytes id) with
        | Err e => ([], Some e)
        | Ok e => let w := walk_postings (S n) db norm keys' in (e :: w.1, w.2)
        end
      end
  end.

(** [None] is [indexed=false]. *)
Definition WalkEqual (db : DB) (attr value : bytes) : option (list Entry * option store_err) :=
  match assoc indexedAttributes (to_lower attr) with
  | None => None
  | Some spec =>
    if ia_dn spec then None
    else
      match postings db !! ia_bucket spec with
      | None => Some ([], Some (StoreFailure (B "missing bucket")))
      | Some b => let norm := normalizeIndexKey spec value in Some (walk_postings 0 db norm (posting_keys b norm))
      end
  end.

(** [LookupIDs] and [EqualCandidates]. *)
Definition LookupIDs (db : DB) (attr value : bytes) : res store_err (option (list Z)) :=
  match assoc indexedAttributes (to_lower attr) with
  | None => Ok None
  | Some spec =>
    match postings db !! ia_bucket spec with
    | None => broken
    | Some b => Ok (Some (posting_ids b (normalizeIndexKey spec value)))
    end
  end.

Definition EqualCandidates (db : DB) (attr value : bytes) : res store_err (option (list Entry)) :=
  _ ← alive 0;
  ids ← LookupIDs db attr value;
  match ids with
  | None => Ok None
  | Some ids => l ← rmap (λ id, entryByID db (uint64Bytes id)) ids; Ok (Some l)
  end.

End reading.
End store.
