(* ===== verification/StoreWrite.v ===== *)
(** The write side of the persistent store: Add, Replace, Delete and Rename of
    [store.go], the maintenance of postings of [index.go], and the migration of
    [Open].

    The code changes its buckets in place and relies on the transaction being rolled
    back on an error; here an operation returns the buckets it leaves, or the error. *)

From S2P Require Import Prelude GoStrings DN Message StoreCodec Attr Schema Matching FilterEval StoreIface Bolt Aci Server Write Search Store.
Local Open Scope Z_scope.

Section write.
Context {U : Unicode} {BL : BoltLib}.

(** * Postings *)

(** [indexSpecFor]. *)
Definition indexSpecFor (name : bytes) : res store_err (option indexedAttribute) :=
  std ← of_res StandardSchema;
  Ok (assoc indexedAttributes (AttrTypeKey (Some (registry_schema std)) name)).

(** [reindex], over one attribute and over an entry. *)
Definition reindex_attr (id : Z) (apply : Bucket → bytes → option Bucket) (db : DB) (a : Attribute) : res store_err DB :=
  spec ← indexSpecFor (Name a);
  match spec with
  | None => Ok db
  | Some spec =>
    match postings db !! ia_bucket spec with
    | None => broken
    | Some b =>
      b ← rfold (λ b v, of_option (apply b (postingKey (normalizeIndexKey spec v) id))) b (AttrValues a);
      Ok (set_postings db (<[ia_bucket spec := b]> (postings db)))
    end
  end.

Definition reindex (id : Z) (e : Entry) (apply : Bucket → bytes → option Bucket) (db : DB) : res store_err DB :=
  rfold (reindex_attr id apply) db (Attributes e).

Definition AddPostings (id : Z) (e : Entry) : DB → res store_err DB := reindex id e (λ b k, Put b k []).

Definition RemovePostings (id : Z) (e : Entry) : DB → res store_err DB := reindex id e (λ b k, Some (Remove b k)).

Definition ReindexEntry (id : Z) (old cur : Entry) (db : DB) : res store_err DB :=
  db ← RemovePostings id old db;
  AddPostings id cur db.

(** * The children index *)

(** The parent's key, from the canonical string after its first unescaped comma. *)
Definition parentFoldedKey (dn : DN) : option bytes :=
  let s := String dn in
  match indexUnescaped s c_comma with
  | None => None
  | Some i => FoldedKey <$> res_opt (ParseDN (drop (S i) s))
  end.

(** [CreateBucketIfNotExists] under the children bucket. *)
Definition child_bucket (db : DB) (key : bytes) : res store_err Bucket :=
  match children db !! key with
  | Some kids => Ok kids
  | None => if NameOk key then Ok NewBucket else broken
  end.

Definition linkChild (dn : DN) (id : bytes) (db : DB) : res store_err DB :=
  match parentFoldedKey dn with
  | None => Ok db
  | Some parent =>
    kids ← child_bucket db parent;
    kids ← of_option (Put kids id []);
    Ok (set_children db (<[parent := kids]> (children db)))
  end.

Definition unlinkChild (dn : DN) (id : bytes) (db : DB) : DB :=
  match parentFoldedKey dn with
  | None => db
  | Some parent =>
    match children db !! parent with
    | None => db
    | Some kids => set_children db (<[parent := Remove kids id]> (children db))
    end
  end.

(** * Add, Replace, Delete *)

Section ops.
Variable ctx : nat → bool.

Definition store_Add (db : DB) (entry : Entry) : res store_err DB :=
  _ ← alive ctx 0;
  d ← of_res (ParseDN (EDN entry));
  let key := FoldedKey d in
  match Get (dn2id db) key with
  | Some _ => Err ErrEntryExists
  | None =>
    '(id, seq) ← of_option (NextSequence (id2entry db));
    let idb := uint64Bytes id in
    let stored := MkEntry (String d) (Attributes entry) in
    blob ← of_res (encodeEntry stored);
    keys ← of_option (Put (dn2id db) key idb);
    entries ← of_option (Put seq idb blob);
    db ← linkChild d idb (set_id2entry (set_dn2id db keys) entries);
    AddPostings id stored db
  end.

Definition store_Replace (db : DB) (entry : Entry) : res store_err DB :=
  _ ← alive ctx 0;
  d ← of_res (ParseDN (EDN entry));
  match Get (dn2id db) (FoldedKey d) with
  | None => Err ErrNoSuchObject
  | Some id =>
    old ← of_res (decodeEntry (default [] (Get (id2entry db) id)));
    let stored := MkEntry (String d) (Attributes entry) in
    blob ← of_res (encodeEntry stored);
    entries ← of_option (Put (id2entry db) id blob);
    ReindexEntry (idUint64 id) old stored (set_id2entry db entries)
  end.

Definition store_Delete (db : DB) (dn : DN) : res store_err DB :=
  _ ← alive ctx 0;
  let key := FoldedKey dn in
  match Get (dn2id db) key with
  | None => Err ErrNoSuchObject
  | Some id =>
    if negb (length (child_ids db key) =? 0)%nat then Err ErrNotLeaf
    else
      old ← of_res (decodeEntry (default [] (Get (id2entry db) id)));
      let db := unlinkChild dn id db in
      let db := set_children db (delete key (children db)) in
      let db := set_dn2id db (Remove (dn2id db) key) in
      let db := set_id2entry db (Remove (id2entry db) id) in
      RemovePostings (idUint64 id) old db
  end.

(** * Rename *)

(** One member of the moved subtree. *)
Record smove : Type := MkMove { oldKey : bytes; newKey : bytes; newDN : bytes; mv_id : bytes; mv_entry : Entry }.

Definition plan_move (from to : DN) (m : bytes * bytes * Entry) : res store_err smove :=
  let '(key, id, e) := m in
  d ← of_res (ParseDN (EDN e));
  nd ← of_option (Rebase d from to);
  Ok (MkMove key (FoldedKey nd) (String nd) id e).

(** [collectMoves]. *)
Definition collectMoves (db : DB) (from to : DN) : res store_err (list smove) :=
  l ← reach db (FoldedKey from);
  rmap (plan_move from to) l.

Definition apply_move (db : DB) (m : smove) : res store_err DB :=
  keys ← of_option (Put (Remove (dn2id db) (oldKey m)) (newKey m) (mv_id m));
  blob ← of_res (encodeEntry (MkEntry (newDN m) (Attributes (mv_entry m))));
  entries ← of_option (Put (id2entry db) (mv_id m) blob);
  Ok (set_id2entry (set_dn2id db keys) entries).

(** [moveChildBuckets], one move: merge into the bucket of the new key. *)
Definition move_children (db : DB) (m : smove) : res store_err DB :=
  if (newKey m =b? oldKey m)%ldap then Ok db
  else
    match children db !! oldKey m with
    | None => Ok db
    | Some src =>
      dst ← child_bucket db (newKey m);
      dst ← rfold (λ b id, of_option (Put b id [])) dst (Items src).*1;
      Ok (set_children db (delete (oldKey m) (<[newKey m := dst]> (children db))))
    end.

Definition relinkRoot (from to : DN) (db : DB) : res store_err DB :=
  match Get (dn2id db) (FoldedKey to) with
  | None => Err ErrNoSuchObject
  | Some id => linkChild to id (unlinkChild from id db)
  end.

Definition store_Rename (db : DB) (from to : DN) : res store_err DB :=
  _ ← alive ctx 0;
  let fromKey := FoldedKey from in
  let toKey := FoldedKey to in
  match Get (dn2id db) fromKey with
  | None => Err ErrNoSuchObject
  | Some _ =>
    if negb (toKey =b? fromKey)%ldap && bool_decide (is_Some (Get (dn2id db) toKey)) then Err ErrEntryExists
    else
      moves ← collectMoves db from to;
      _ ← ensure (negb (existsb (λ m, negb (newKey m =b? oldKey m)%ldap &&
                                 bool_decide (is_Some (Get (dn2id db) (newKey m)))) moves)) ErrEntryExists;
      db ← rfold apply_move db moves;
      db ← rfold move_children db moves;
      relinkRoot from to db
  end.

(** The transaction as the handlers see it. *)
Definition store_read (db : DB) : ReadTx := MkReadTx (store_Entry ctx db) (store_Children ctx db) (store_Subtree ctx db).

Definition store_tx : UpdateTx DB := {|
  ut_read := store_read;
  ut_Add := store_Add;
  ut_Replace := store_Replace;
  ut_Delete := store_Delete;
  ut_Rename := store_Rename;
|}.

Definition store_search (db : DB) : SearchTx :=
  MkSearchTx (store_read db) (Some (WalkSearch ctx db)) (Some (WalkEqual ctx db)).

End ops.

(** * Index maintenance *)

(** [storeEntryIter]: the iteration ends at the first entry that does not decode. *)
Fixpoint iter_items (items : list (bytes * bytes)) : list (Z * Entry) :=
  match items with
  | [] => []
  | (k, v) :: items' =>
    match decodeEntry v with
    | Err _ => []
    | Ok e => (idUint64 k, e) :: iter_items items'
    end
  end.

Definition storeEntryIter (db : DB) : list (Z * Entry) := iter_items (Items (id2entry db)).

(** The keys [VerifyIndexes] expects in the bucket of [spec]. *)
Definition expected_attr (spec : indexedAttribute) (id : Z) (a : Attribute) : res store_err (list bytes) :=
  s ← indexSpecFor (Name a);
  Ok match s with
     | Some s => if (ia_bucket s =b? ia_bucket spec)%ldap then (λ v, postingKey (normalizeIndexKey s v) id) <$> AttrValues a else []
     | None => []
     end.

Definition expected_keys (entries : list (Z * Entry)) (spec : indexedAttribute) : res store_err (list bytes) :=
  ls ← rmap (λ p : Z * Entry, rmap (expected_attr spec p.1) (Attributes p.2)) entries;
  Ok (concat (concat ls)).

Definition verify_bucket (db : DB) (entries : list (Z * Entry)) (spec : indexedAttribute) : res store_err () :=
  want ← expected_keys entries spec;
  match postings db !! ia_bucket spec with
  | None => broken
  | Some b =>
    let have := (Items b).*1 in
    _ ← ensure (forallb (λ k, bool_decide (k ∈ want)) have) (StoreFailure (B "stale posting"));
    ensure (forallb (λ k, bool_decide (k ∈ have)) want) (StoreFailure (B "missing posting"))
  end.

Definition VerifyIndexes (db : DB) : res store_err () :=
  _ ← rmap (verify_bucket db (storeEntryIter db)) (snd <$> indexedAttributes);
  Ok ().

Definition RebuildIndexes (db : DB) : res store_err DB :=
  let cleared := foldl (λ p (s : bytes * indexedAttribute), <[ia_bucket s.2 := NewBucket]> p) (postings db) indexedAttributes in
  rfold (λ db (p : Z * Entry), AddPostings p.1 p.2 db) (set_postings db cleared) (storeEntryIter db).

(** * Open *)

(** A database file: buckets that may not exist yet. *)
Record File : Type := MkFile {
  f_dn2id : option Bucket;
  f_id2entry : option Bucket;
  f_children : option (gmap bytes Bucket);
  f_postings : gmap bytes Bucket;
  f_idxmeta : option Bucket;
}.

Definition IndexVersion (meta : option Bucket) : Z :=
  match meta with
  | None => 0
  | Some b =>
    match Get b idxVersionKey with
    | Some raw => if negb (length raw =? 8)%nat then 0 else be_acc 0 raw
    | None => 0
    end
  end.

Definition stampIndexVersion (db : DB) : res store_err DB :=
  match idxmeta db with
  | None => broken
  | Some b =>
    b ← of_option (Put b idxVersionKey (uint64Bytes indexVersion));
    Ok (MkDB (dn2id db) (id2entry db) (children db) (postings db) (Some b))
  end.

(** The creation of missing buckets, [EnsureIndexBuckets] included. *)
Definition ensure_buckets (f : File) : res store_err DB :=
  let p := foldl (λ p (s : bytes * indexedAttribute),
             match p !! ia_bucket s.2 with Some _ => p | None => <[ia_bucket s.2 := NewBucket]> p end)
             (f_postings f) indexedAttributes in
  let meta := default NewBucket (f_idxmeta f) in
  meta ← match Get meta idxVersionKey with
         | Some _ => Ok meta
         | None => of_option (Put meta idxVersionKey (uint64Bytes indexVersion))
         end;
  Ok (MkDB (default NewBucket (f_dn2id f)) (default NewBucket (f_id2entry f)) (default ∅ (f_children f)) p (Some meta)).

(** [rebuildDNIndexes]: one stored entry. *)
Definition rebuild_dn (db : DB) (item : bytes * bytes) : res store_err DB :=
  e ← of_res (decodeEntry item.2);
  d ← of_res (ParseDN (EDN e));
  let key := FoldedKey d in
  _ ← ensure (negb (bool_decide (is_Some (Get (dn2id db) key)))) (StoreFailure (B "duplicate DN"));
  keys ← of_option (Put (dn2id db) key item.1);
  linkChild d item.1 (set_dn2id db keys).

Definition rebuildDNIndexes (db : DB) : res store_err DB :=
  rfold rebuild_dn (MkDB NewBucket (id2entry db) ∅ (postings db) (idxmeta db)) (Items (id2entry db)).

Definition Open (f : File) : res store_err DB :=
  let version := IndexVersion (f_idxmeta f) in
  db ← ensure_buckets f;
  if negb (version =? indexVersion) then
    db ← rebuildDNIndexes db;
    db ← RebuildIndexes db;
    stampIndexVersion db
  else Ok db.

(** * The store handle *)

(** [View] and [Update] of a handle on [db]; [ctx] is polled before, inside and, for
    a view, after the transaction. *)
Definition View {A} (ctx : nat → bool) (closed : bool) (db : DB) (fn : DB → res store_err A) : res store_err A :=
  _ ← alive ctx 0;
  _ ← ensure (negb closed) ErrStoreClosed;
  _ ← alive ctx 1;
  a ← fn db;
  _ ← alive ctx 2;
  Ok a.

Definition Commit (ctx : nat → bool) (closed : bool) (commit : option store_err) (db : DB) (fn : DB → res store_err DB) :
    DB * option store_err :=
  match (_ ← alive ctx 0; _ ← ensure (negb closed) ErrStoreClosed; _ ← alive ctx 1; fn db) with
  | Err e => (db, Some e)
  | Ok db' =>
    match commit with
    | None => (db', None)
    | Some e => (db, Some e)
    end
  end.

End write.
