(* ===== verification/StoreFacts.v ===== *)
(** Facts of the persistent store: the map of entries its buckets stand for, the
    invariant that ties the buckets together, and that every operation keeps the
    invariant and does to the map what the seam of the store promises.

    [node db k n e d] says that the name [d], folded to the key [k], has the id [n]
    and the entry [e]; the children index and the equality postings are
    determined by the nodes. *)

From S2P Require Import Prelude GoStrings GoText DN DNFacts Message StoreCodec Attr Schema Matching FilterEval StoreIface Bolt Aci Server Write Search Store StoreWrite.
Local Open Scope Z_scope.

(** * Ids and posting keys *)

Lemma uint64Bytes_length (v : Z) : length (uint64Bytes v) = 8%nat.
Proof. done. Qed.

(** The octets of an id are the digits of its value. *)
Lemma shift_octet (v i j : Z) :
  0 ≤ i → j = i + 1 → Z.lor (Z.shiftl (Z.shiftr v (8 * j)) 8) (bz (zb (Z.shiftr v (8 * i)))) = Z.shiftr v (8 * i).
Proof.
  intros Hi ->. rewrite lor_shift8, bz_zb. replace (8 * (i + 1)) with (8 * i + 8) by lia.
  rewrite <- Z.shiftr_shiftr by lia. rewrite (Z.shiftr_div_pow2 _ 8) by lia. change (2^8) with 256.
  pose proof (Z.div_mod (Z.shiftr v (8 * i)) 256 ltac:(lia)). lia.
Qed.

Lemma be_uint64Bytes (v : Z) : 0 ≤ v < 2^64 → be_acc 0 (uint64Bytes v) = v.
Proof.
  intros Hv. unfold uint64Bytes. cbn [fmap list_fmap be_acc].
  assert (H : Z.shiftr v (8 * 8) = 0).
  { rewrite Z.shiftr_div_pow2 by lia. apply Z.div_small. done. }
  rewrite <- H at 1.
  rewrite (shift_octet v 7 8), (shift_octet v 6 7), (shift_octet v 5 6), (shift_octet v 4 5), (shift_octet v 3 4),
    (shift_octet v 2 3), (shift_octet v 1 2), (shift_octet v 0 1) by lia.
  apply Z.shiftr_0_r.
Qed.

Lemma idUint64_bytes (v : Z) : 0 ≤ v < 2^64 → idUint64 (uint64Bytes v) = v.
Proof. intros. unfold idUint64. cbn [negb]. by apply be_uint64Bytes. Qed.

Lemma uint64Bytes_inj (a b : Z) : 0 ≤ a < 2^64 → 0 ≤ b < 2^64 → uint64Bytes a = uint64Bytes b → a = b.
Proof. intros Ha Hb H. by rewrite <- (be_uint64Bytes a Ha), H, be_uint64Bytes. Qed.

Lemma parse_postingKey (norm : bytes) (v : Z) : 0 ≤ v < 2^64 → parsePostingKey (postingKey norm v) = Some (norm, v).
Proof.
  intros Hv. unfold parsePostingKey, postingKey.
  assert (Hl : length (norm ++ [x00] ++ uint64Bytes v) = (length norm + 9)%nat) by (rewrite !length_app; done).
  rewrite Hl. destruct (Nat.ltb_spec (length norm + 9) 9); [lia|]. rewrite Nat.add_sub.
  change ([x00] ++ uint64Bytes v) with (x00 :: uint64Bytes v). rewrite list_lookup_middle by done. cbn [bool_decide negb orb].
  rewrite bool_decide_true by done. cbn [negb]. rewrite take_app_length.
  replace (S (length norm)) with (length (norm ++ [x00])) by (rewrite length_app; cbn; lia).
  change (x00 :: uint64Bytes v) with ([x00] ++ uint64Bytes v). rewrite app_assoc, drop_app_length. by rewrite be_uint64Bytes.
Qed.

Lemma postingKey_inj (a b : bytes) (n m : Z) :
  0 ≤ n < 2^64 → 0 ≤ m < 2^64 → postingKey a n = postingKey b m → a = b ∧ n = m.
Proof.
  intros Hn Hm H. pose proof (parse_postingKey a n Hn) as Ha. rewrite H, parse_postingKey in Ha by done. naive_solver.
Qed.

#[local] Opaque uint64Bytes.

(** * The index of the standard schema *)

Lemma StandardSchema_any {U : Unicode} : StandardSchema = Ok standard_registry.
Proof. vm_compute. reflexivity. Qed.

Section facts.
Context {U : Unicode} {BL : BoltLib} {BLL : BoltLaws BL}.

Definition spec_of (name : bytes) : option indexedAttribute :=
  assoc indexedAttributes (AttrTypeKey (Some (registry_schema standard_registry)) name).

Lemma indexSpecFor_ok (name : bytes) : indexSpecFor name = Ok (spec_of name).
Proof. unfold indexSpecFor. by rewrite StandardSchema_any. Qed.

(** The posting keys of an attribute and of an entry in the bucket [name]. *)
Definition attr_keys (name : bytes) (n : Z) (a : Attribute) : list bytes :=
  match spec_of (Name a) with
  | Some s => if (ia_bucket s =b? name)%ldap then (λ v, postingKey (normalizeIndexKey s v) n) <$> AttrValues a else []
  | None => []
  end.

Definition keys_in (name : bytes) (n : Z) (e : Entry) : list bytes := concat (attr_keys name n <$> Attributes e).

Definition posted (db : DB) (name key : bytes) : Prop := ∃ b, postings db !! name = Some b ∧ is_Some (Get b key).

(** Two transactions that agree but for the postings, with the same buckets. *)
Record same_entries (db db' : DB) : Prop := {
  same_dn2id : dn2id db' = dn2id db;
  same_id2entry : id2entry db' = id2entry db;
  same_children : children db' = children db;
  same_idxmeta : idxmeta db' = idxmeta db;
  same_buckets : ∀ name, is_Some (postings db' !! name) ↔ is_Some (postings db !! name);
}.

#[export] Instance same_entries_pre : PreOrder same_entries.
Proof.
  split; [by split|]. intros a b c [? ? ? ? ?] [? ? ? ? Hb]. split; try congruence. intros name. rewrite Hb. done.
Qed.

(** A pass over the postings: [grow] adds keys, else they are removed. *)
Section pass.
Variable grow : bool.
Variable apply : Bucket → bytes → option Bucket.

Definition passed (ks : list bytes) (key : bytes) (old : Prop) : Prop :=
  if grow then old ∨ key ∈ ks else old ∧ key ∉ ks.

Hypothesis apply_spec : ∀ b k b', apply b k = Some b' → ∀ key, is_Some (Get b' key) ↔ passed [k] key (is_Some (Get b key)).

Lemma passed_app (ks ks' : list bytes) (key : bytes) (P : Prop) : passed (ks ++ ks') key P ↔ passed ks' key (passed ks key P).
Proof. unfold passed. destruct grow; set_solver. Qed.

Lemma pass_values (f : bytes → bytes) (vs : list bytes) (b b' : Bucket) :
  rfold (λ b v, of_option (apply b (f v))) b vs = Ok b' →
  ∀ key, is_Some (Get b' key) ↔ passed (f <$> vs) key (is_Some (Get b key)).
Proof.
  revert b. induction vs as [|v vs IH]; intros b H key; cbn [rfold] in H.
  - injection H as <-. unfold passed. destruct grow; set_solver.
  - apply bind_ok in H as (b1 & H1 & H). destruct (apply b (f v)) as [b2|] eqn:E; [|done]. injection H1 as <-.
    rewrite (IH _ H key). rewrite fmap_cons. change (f v :: (f <$> vs)) with ([f v] ++ (f <$> vs)). rewrite passed_app.
    pose proof (apply_spec _ _ _ E key) as Hk. revert Hk. unfold passed. destruct grow; tauto.
Qed.

Lemma reindex_attr_spec (n : Z) (db db' : DB) (a : Attribute) :
  reindex_attr n apply db a = Ok db' →
  same_entries db db' ∧ ∀ name key, posted db' name key ↔
    passed (attr_keys name n a) key (posted db name key).
Proof.
  unfold reindex_attr. rewrite indexSpecFor_ok. cbn [mbind res_bind]. unfold attr_keys.
  destruct (spec_of (Name a)) as [s|].
  2:{ intros [= <-]. split; [done|]. intros name key. unfold passed. destruct grow; set_solver. }
  destruct (postings db !! ia_bucket s) as [b|] eqn:Eb; [|done]. intros H. apply bind_ok in H as (b' & H & [= <-]).
  split.
  - split; try done. intros name. cbn [set_postings postings]. destruct (decide (ia_bucket s = name)) as [<-|].
    + rewrite lookup_insert_eq, Eb. split; by eexists.
    + by rewrite lookup_insert_ne.
  - intros name key. unfold posted. cbn [set_postings postings]. destruct (decide (ia_bucket s = name)) as [<-|Hne].
    + rewrite beq_refl, lookup_insert_eq, Eb. pose proof (pass_values _ _ _ _ H key) as Hk.
      revert Hk. unfold passed. destruct grow; naive_solver.
    + rewrite (proj2 (beq_false _ _) Hne), lookup_insert_ne by done. unfold passed. destruct grow; set_solver.
Qed.

Lemma reindex_spec (n : Z) (e : Entry) (db db' : DB) :
  reindex n e apply db = Ok db' →
  same_entries db db' ∧ ∀ name key, posted db' name key ↔ passed (keys_in name n e) key (posted db name key).
Proof.
  unfold reindex, keys_in. revert db. induction (Attributes e) as [|a l IH]; intros db H; cbn [rfold] in H.
  - injection H as <-. split; [done|]. intros name key. unfold passed. destruct grow; set_solver.
  - apply bind_ok in H as (db1 & H1 & H). apply reindex_attr_spec in H1 as [S1 P1]. apply IH in H as [S2 P2].
    split; [by transitivity db1|]. intros name key. rewrite P2. rewrite fmap_cons. cbn [concat]. rewrite passed_app.
    pose proof (P1 name key) as Hk. revert Hk. unfold passed. destruct grow; tauto.
Qed.

End pass.

Lemma AddPostings_spec (n : Z) (e : Entry) (db db' : DB) :
  AddPostings n e db = Ok db' →
  same_entries db db' ∧ ∀ name key, posted db' name key ↔ posted db name key ∨ key ∈ keys_in name n e.
Proof.
  apply (reindex_spec true (λ b k, Put b k [])). intros b k b' H key. rewrite (Put_Get _ _ _ _ key H). unfold passed.
  case_bool_decide; [|set_solver]. split; [set_solver | by eexists].
Qed.

Lemma RemovePostings_spec (n : Z) (e : Entry) (db db' : DB) :
  RemovePostings n e db = Ok db' →
  same_entries db db' ∧ ∀ name key, posted db' name key ↔ posted db name key ∧ key ∉ keys_in name n e.
Proof.
  apply (reindex_spec false (λ b k, Some (Remove b k))). intros b k b' [= <-] key. rewrite Remove_Get. unfold passed.
  case_bool_decide as Hk; [|set_solver]. subst. split; [intros [? ?]; done | set_solver].
Qed.

Lemma ReindexEntry_spec (n : Z) (old cur : Entry) (db db' : DB) :
  ReindexEntry n old cur db = Ok db' →
  same_entries db db' ∧
  ∀ name key, posted db' name key ↔ (posted db name key ∧ key ∉ keys_in name n old) ∨ key ∈ keys_in name n cur.
Proof.
  unfold ReindexEntry. intros H. apply bind_ok in H as (db1 & H1 & H2).
  apply RemovePostings_spec in H1 as [S1 P1]. apply AddPostings_spec in H2 as [S2 P2].
  split; [by transitivity db1|]. intros name key. rewrite P2, P1. done.
Qed.

(** A posting key carries its id. *)
Lemma keys_in_id (name key : bytes) (n : Z) (e : Entry) :
  key ∈ keys_in name n e → ∃ norm, key = postingKey norm n.
Proof.
  unfold keys_in. intros (ks & Hk & Hks)%elem_of_concat. apply list_elem_of_fmap in Hks as (a & -> & _).
  unfold attr_keys in Hk. destruct (spec_of (Name a)) as [s|]; [|by apply elem_of_nil in Hk].
  destruct (beq _ _); [|by apply elem_of_nil in Hk]. apply list_elem_of_fmap in Hk as (v & -> & _). by eexists.
Qed.

Lemma keys_in_same (name name' key : bytes) (n m : Z) (e e' : Entry) :
  0 ≤ n < 2^64 → 0 ≤ m < 2^64 → key ∈ keys_in name n e → key ∈ keys_in name' m e' → n = m.
Proof.
  intros Hn Hm [a ->]%keys_in_id [b E]%keys_in_id. by apply postingKey_inj in E as [_ ?].
Qed.

(** * Names *)

Context {UL : UnicodeLaws U} {US : UnicodeSpaces U}.

Lemma last_tab (s : bytes) : last s = Some c_tab ↔ last (R s) = Some 9.
Proof.
  split.
  - intros H. apply last_Some in H as [s' ->]. unfold R. rewrite runes_ascii_app by done. rewrite fmap_app.
    change (fst <$> runes [c_tab]) with [9]. apply last_snoc.
  - unfold R. rewrite fmap_last. intros H. apply fmap_Some in H as ([r ch] & H & Hr). cbn in Hr. subst r.
    apply last_Some in H as [l H]. pose proof (runes_suffix s l _ H) as Hs. cbn [fmap list_fmap snd concat] in Hs.
    rewrite app_nil_r in Hs. pose proof (runes_concat s) as Hc. rewrite H, fmap_app, concat_app in Hc.
    cbn [fmap list_fmap snd concat] in Hc. rewrite app_nil_r in Hc. rewrite <- Hc.
    destruct ch as [|c t]; [done|]. rewrite runes_cons in Hs. pose proof (decode_rune_spec c t) as Hd.
    remember (decode_rune (c :: t)) as p eqn:Ep. destruct p as [r w]. cbn [fst snd] in *. injection Hs as Hr Ht Hn.
    destruct Hd as [(c' & t' & [= <- <-] & Hc1 & Hr1 & Hw)|(Hr1 & _)]; [|lia].
    rewrite Hw in Ht. cbn [take] in Ht. rewrite take_0 in Ht. injection Ht as <-.
    rewrite Hr1 in Hr. change 9 with (bz c_tab) in Hr. apply bz_inj in Hr as ->. apply last_snoc.
Qed.

Lemma lower_tab (s : bytes) : last (to_lower s) = Some c_tab ↔ last s = Some c_tab.
Proof.
  rewrite !last_tab, R_to_lower, fmap_last. destruct (last (R s)) as [r|]; cbn; [|done]. split; intros [= H].
  - f_equal. rewrite <- (space_lower r); [done|]. rewrite <- rune_lower_space, H. done.
  - f_equal. rewrite H. by apply space_lower.
Qed.

Lemma fold_tab (d : DN) : no_tab_end (fold_dn d) ↔ no_tab_end d.
Proof.
  unfold no_tab_end, fold_dn. cbn [rdns]. rewrite Forall_fmap. apply Forall_iff. intros r. cbn. by rewrite lower_tab.
Qed.

Lemma same_key_tab (a b : DN) : wf_dn a → wf_dn b → FoldedKey a = FoldedKey b → no_tab_end a → no_tab_end b.
Proof. intros Ha Hb E. rewrite <- (fold_tab a), <- (fold_tab b). apply FoldedKey_inj_aux in E as ->; done. Qed.

(** The key of the parent is determined by the key. *)
Definition parent_key (d : DN) : option bytes := FoldedKey <$> Parent d.

Lemma parent_fold (d : DN) : parent_key d = String <$> Parent (fold_dn d).
Proof. destruct d as [[|r [|r' l]]]; try done. unfold parent_key. cbn -[FoldedKey]. by rewrite FoldedKey_String. Qed.

Lemma same_key_parent (a b : DN) : wf_dn a → wf_dn b → FoldedKey a = FoldedKey b → parent_key a = parent_key b.
Proof. intros Ha Hb E. rewrite !parent_fold. apply FoldedKey_inj_aux in E as ->; done. Qed.

Lemma parentFoldedKey_Parent (d : DN) : wf_dn d → no_tab_end d → parentFoldedKey d = parent_key d.
Proof.
  intros Hw Ht. unfold parent_key. rewrite <- (parentDN_aux d) by done. unfold parentFoldedKey, parentDN.
  by destruct (indexUnescaped _ _).
Qed.

(** * What the buckets stand for *)

Definition contents (db : DB) : gmap bytes Entry :=
  list_to_map (omap (λ p : bytes * bytes, (λ e, (p.1, e)) <$> res_opt (entryByID db p.2)) (Items (dn2id db))).

Lemma items_nodup (b : Bucket) : NoDup (Items b).*1.
Proof.
  generalize (Items_sorted b). induction 1 as [|k l _ IH Hk]; constructor; [|done].
  intros Hin. rewrite Forall_forall in Hk. specialize (Hk k Hin). apply key_lt_le in Hk. tauto.
Qed.

Lemma contents_lookup (db : DB) (k : bytes) :
  contents db !! k = match Get (dn2id db) k with Some id => res_opt (entryByID db id) | None => None end.
Proof.
  set (f := λ p : bytes * bytes, (λ e, (p.1, e)) <$> res_opt (entryByID db p.2)).
  assert (Hf : ∀ k' e', (k', e') ∈ omap f (Items (dn2id db)) ↔ ∃ id, Get (dn2id db) k' = Some id ∧ entryByID db id = Ok e').
  { intros k' e'. rewrite list_elem_of_omap. split.
    - intros ([k1 id] & Hin & Hp). apply Items_Get in Hin. unfold f in Hp. cbn [fst snd] in Hp.
      destruct (entryByID db id) eqn:E; [|done]. cbn in Hp. injection Hp as <- <-. by exists id.
    - intros (id & Hk & He). exists (k', id). split; [by apply Items_Get|]. unfold f. cbn [fst snd]. by rewrite He. }
  assert (Hn : NoDup (omap f (Items (dn2id db))).*1).
  { pose proof (items_nodup (dn2id db)) as Hd. revert Hd. clear. induction (Items (dn2id db)) as [|[k' id] l IH]; [done|].
    rewrite fmap_cons. intros [Hk Hd]%NoDup_cons. cbn [omap list_omap]. unfold f at 1. cbn [fst snd].
    destruct (entryByID db id); cbn [res_opt fmap option_fmap option_map]; [|by apply IH].
    rewrite fmap_cons. constructor; [|by apply IH]. cbn [fst]. intros ([k2 e2] & -> & H2)%list_elem_of_fmap. cbn [fst] in Hk.
    apply list_elem_of_omap in H2 as ([k3 id3] & H3 & Hf). unfold f in Hf. cbn [fst snd] in Hf.
    destruct (entryByID db id3); [|done]. cbn in Hf. injection Hf as <- <-.
    apply Hk, list_elem_of_fmap. by exists (k3, id3). }
  unfold contents. apply option_eq. intros e. fold f. rewrite <- elem_of_list_to_map, Hf by done.
  destruct (Get (dn2id db) k) as [id|]; [|by split; [intros (? & ? & _) | ]].
  split.
  - intros (id' & [= <-] & ->). done.
  - destruct (entryByID db id) as [e'|] eqn:E; [|done]. intros [= ->]. by exists id.
Qed.

Record node (db : DB) (k : bytes) (n : Z) (e : Entry) (d : DN) : Prop := MkNode {
  node_key : Get (dn2id db) k = Some (uint64Bytes n);
  node_id : 0 < n ≤ Sequence (id2entry db);
  node_entry : entryByID db (uint64Bytes n) = Ok e;
  node_name : ParseDN (EDN e) = Ok d;
  node_folds : FoldedKey d = k;
  node_tab : no_tab_end d;
}.

(** [p] lists [id] as a child. *)
Definition child (db : DB) (p id : bytes) : Prop := ∃ kids, children db !! p = Some kids ∧ is_Some (Get kids id).

Definition index_buckets : list bytes := (λ s : bytes * indexedAttribute, ia_bucket s.2) <$> indexedAttributes.

Record store_ok (db : DB) : Prop := MkStoreOk {
  so_seq : 0 ≤ Sequence (id2entry db) < 2^64;
  so_node : ∀ k id, Get (dn2id db) k = Some id → ∃ n e d, id = uint64Bytes n ∧ node db k n e d;
  so_id : ∀ id, is_Some (Get (id2entry db) id) → ∃ k, Get (dn2id db) k = Some id;
  so_child : ∀ p id, child db p id ↔ ∃ k n e d, id = uint64Bytes n ∧ node db k n e d ∧ parent_key d = Some p;
  so_buckets : ∀ name, name ∈ index_buckets → is_Some (postings db !! name);
  so_posted : ∀ name key, name ∈ index_buckets →
    posted db name key ↔ ∃ k n e d, node db k n e d ∧ key ∈ keys_in name n e;
}.

(** Nodes are a matter of the first two buckets. *)
Lemma node_ext (db db' : DB) k n e d :
  dn2id db' = dn2id db → id2entry db' = id2entry db → node db' k n e d ↔ node db k n e d.
Proof. intros E1 E2. split; intros [K I E N F T]; split; unfold entryByID in *; rewrite ?E1, ?E2 in *; done. Qed.

(** The invariant from its parts, for a transaction that agrees with a consistent one
    but for its postings and version stamp. *)
Lemma store_ok_postings (db db' : DB) :
  store_ok db → dn2id db' = dn2id db → id2entry db' = id2entry db → children db' = children db →
  (∀ name, name ∈ index_buckets → is_Some (postings db' !! name)) →
  (∀ name key, name ∈ index_buckets → posted db' name key ↔ ∃ k n e d, node db k n e d ∧ key ∈ keys_in name n e) →
  store_ok db'.
Proof.
  intros [H1 H2 H3 H4 _ _] E1 E2 E3 Hb Hp. pose proof (λ k n e d, node_ext db db' k n e d E1 E2) as Hn. split.
  - by rewrite E2.
  - intros k id. rewrite E1. intros (n & e & d & ? & ?)%H2. exists n, e, d. by rewrite Hn.
  - intros id. rewrite E1, E2. apply H3.
  - intros p id. unfold child. rewrite E3. fold (child db p id). rewrite H4. by setoid_rewrite Hn.
  - done.
  - intros name key Hname. rewrite Hp by done. by setoid_rewrite Hn.
Qed.

Lemma node_wf (db : DB) k n e d : node db k n e d → wf_dn d.
Proof. intros H. eapply ParseDN_wf_aux, node_name, H. Qed.

Lemma node_range (db : DB) k n e d : store_ok db → node db k n e d → 0 ≤ n < 2^64.
Proof. intros Hok H. pose proof (so_seq _ Hok). pose proof (node_id _ _ _ _ _ H). lia. Qed.

Lemma node_det (db : DB) k n e d n' e' d' :
  store_ok db → node db k n e d → node db k n' e' d' → n = n' ∧ e = e' ∧ d = d'.
Proof.
  intros Hok H H'. pose proof (node_range _ _ _ _ _ Hok H). pose proof (node_range _ _ _ _ _ Hok H').
  destruct H as [K _ E N _ _], H' as [K' _ E' N' _ _]. assert (n = n') as <-. { apply uint64Bytes_inj; [done..|]. rewrite K in K'. by apply (inj Some) in K'. }
  split; [done|]. rewrite E in E'. injection E' as <-. rewrite N in N'. injection N' as <-. done.
Qed.

(** An id names one entry. *)
Lemma node_inj (db : DB) k k' n e e' d d' : node db k n e d → node db k' n e' d' → k = k' ∧ e = e' ∧ d = d'.
Proof.
  intros [_ _ E N F _] [_ _ E' N' F' _]. rewrite E in E'. injection E' as <-. rewrite N in N'. injection N' as <-.
  subst. done.
Qed.

Lemma node_contents (db : DB) (k : bytes) (e : Entry) :
  store_ok db → contents db !! k = Some e ↔ ∃ n d, node db k n e d.
Proof.
  intros Hok. rewrite contents_lookup. split.
  - destruct (Get (dn2id db) k) as [id|] eqn:E; [|done]. destruct (so_node _ Hok _ _ E) as (n & e' & d & -> & H).
    rewrite (node_entry _ _ _ _ _ H). cbn. intros [= <-]. by exists n, d.
  - intros (n & d & H). rewrite (node_key _ _ _ _ _ H), (node_entry _ _ _ _ _ H). done.
Qed.

Lemma contents_none (db : DB) (k : bytes) : store_ok db → contents db !! k = None ↔ Get (dn2id db) k = None.
Proof.
  intros Hok. rewrite contents_lookup. destruct (Get (dn2id db) k) as [id|] eqn:E; [|done].
  destruct (so_node _ Hok _ _ E) as (n & e & d & -> & H). rewrite (node_entry _ _ _ _ _ H). done.
Qed.

Lemma store_contents_keys (db : DB) k e :
  store_ok db → contents db !! k = Some e → ∃ d, ParseDN (EDN e) = Ok d ∧ FoldedKey d = k ∧ no_tab_end d.
Proof. intros Hok (n & d & H)%node_contents; [|done]. exists d. split_and!; apply H. Qed.

(** * Encoded entries *)

Lemma appendUvarint_keeps (buf buf' : bytes) (v : Z) : appendUvarint buf v = Ok buf' → (length buf ≤ length buf')%nat.
Proof. intros H%appendUvarint_length. lia. Qed.

Lemma appendBytes_grows (buf buf' s : bytes) : appendBytes buf s = Ok buf' → (length buf + length s ≤ length buf')%nat.
Proof. unfold appendBytes. intros H. inv_ok. subst. apply appendUvarint_length in Hv. rewrite length_app. lia. Qed.

Lemma rfold_grows {A} (put : bytes → A → res entry_err bytes) (m : A → nat) (l : list A) (buf buf' : bytes) :
  (∀ a b b', put b a = Ok b' → (length b + m a ≤ length b')%nat) → rfold put buf l = Ok buf' →
  (length buf ≤ length buf')%nat ∧ Forall (λ a, (m a ≤ length buf')%nat) l.
Proof.
  intros Hp. revert buf. induction l as [|a l IH]; intros buf H; cbn [rfold] in H.
  - injection H as <-. split; [done | constructor].
  - apply bind_ok in H as (b1 & H1 & H). apply Hp in H1. apply IH in H as [H2 H3].
    split; [lia|]. constructor; [lia | done].
Qed.

Lemma appendAttribute_fits (buf buf' : bytes) (a : Attribute) :
  appendAttribute buf a = Ok buf' → blen buf' < 2^63 → attr_fits a.
Proof.
  unfold appendAttribute. destruct (beq _ _); [done|]. intros H Hl. inv_ok.
  apply appendBytes_grows in Hv. apply appendUvarint_keeps in Hv0.
  pose proof (rfold_length _ _ _ _ (λ a b b', appendBytes_length b b' a) H) as Hn.
  apply (rfold_grows _ length) in H as [H1 H2]; [|intros; by apply appendBytes_grows].
  unfold attr_fits, fits, blen in *. split_and!; [lia..|]. eapply Forall_impl; [exact H2|]. cbn. intros v'. lia.
Qed.

Lemma encoded_fits (e : Entry) (blob : bytes) : encodeEntry e = Ok blob → blen blob ≤ MaxValueSize → entry_fits e.
Proof.
  unfold encodeEntry, MaxValueSize. intros H Hl. inv_ok.
  apply appendBytes_grows in Hv. apply appendUvarint_keeps in Hv0.
  pose proof (rfold_length _ _ _ _ (λ a b b', appendAttribute_length b b' a) H) as Hn.
  unfold entry_fits, fits, blen in *. split_and!; [lia..|].
  assert (Hlt : blen blob < 2^63) by (unfold blen; lia). clear -H Hlt. revert v0 H Hlt.
  induction (Attributes e) as [|a l IH]; intros b H Hlt; [constructor|]. cbn [rfold] in H. apply bind_ok in H as (b1 & H1 & H).
  constructor; [|by eapply IH]. eapply appendAttribute_fits; [exact H1|].
  apply (rfold_length _ _ _ _ (λ a b b', appendAttribute_length b b' a)) in H. unfold blen in *. lia.
Qed.

(** What is put under an id decodes to the entry. *)
Lemma stored_decodes (b b' : Bucket) (id blob : bytes) (e : Entry) :
  encodeEntry e = Ok blob → Put b id blob = Some b' → decodeEntry blob = Ok e.
Proof.
  intros He Hp. apply decode_encodeEntry_aux; [|done]. eapply encoded_fits; [done|]. by eapply Put_limits.
Qed.

(** * One entry changed

    What Add, Replace and Delete share: under the key [k0] and the id [n0] the entry
    becomes [new], and nothing else changes. *)

Record updated (db db' : DB) (k0 : bytes) (n0 : Z) (new : option (Entry * DN)) : Prop := MkUpdated {
  up_key : ∀ k, Get (dn2id db') k = if bool_decide (k0 = k) then (λ _, uint64Bytes n0) <$> new else Get (dn2id db) k;
  up_other : ∀ id, id ≠ uint64Bytes n0 → Get (id2entry db') id = Get (id2entry db) id;
  up_entry : match new with
             | Some (e, _) => entryByID db' (uint64Bytes n0) = Ok e
             | None => Get (id2entry db') (uint64Bytes n0) = None
             end;
  up_seq : 0 < n0 ≤ Sequence (id2entry db') ∧ Sequence (id2entry db) ≤ Sequence (id2entry db') < 2^64;
  up_new : ∀ e d, new = Some (e, d) → ParseDN (EDN e) = Ok d ∧ FoldedKey d = k0 ∧ no_tab_end d;
  up_only : ∀ k n e d, node db k n e d → k = k0 ↔ n = n0;
  up_child : ∀ p id, child db' p id ↔
    (child db p id ∧ id ≠ uint64Bytes n0) ∨ ∃ e d, new = Some (e, d) ∧ id = uint64Bytes n0 ∧ parent_key d = Some p;
  up_buckets : ∀ name, is_Some (postings db' !! name) ↔ is_Some (postings db !! name);
  up_posted : ∀ name key, posted db' name key ↔
    (posted db name key ∧ ∀ e d, node db k0 n0 e d → key ∉ keys_in name n0 e) ∨
    ∃ e d, new = Some (e, d) ∧ key ∈ keys_in name n0 e;
}.

Section update.
Variables (db db' : DB) (k0 : bytes) (n0 : Z) (new : option (Entry * DN)).
Hypothesis Hok : store_ok db.
Hypothesis Hup : updated db db' k0 n0 new.

Lemma updated_id (n : Z) : 0 ≤ n < 2^64 → uint64Bytes n = uint64Bytes n0 → n = n0.
Proof. intros Hn. apply uint64Bytes_inj; [done|]. pose proof (up_seq _ _ _ _ _ Hup). lia. Qed.

Lemma entry_other (id : bytes) : id ≠ uint64Bytes n0 → entryByID db' id = entryByID db id.
Proof. intros H. unfold entryByID. by rewrite (up_other _ _ _ _ _ Hup). Qed.

Lemma updated_node (k : bytes) (n : Z) (e : Entry) (d : DN) :
  node db' k n e d ↔ (k ≠ k0 ∧ node db k n e d) ∨ (k = k0 ∧ n = n0 ∧ new = Some (e, d)).
Proof.
  pose proof (up_seq _ _ _ _ _ Hup) as [Hn0 Hseq]. split.
  - intros [K I E N F T]. rewrite (up_key _ _ _ _ _ Hup) in K. case_bool_decide as Hk.
    + right. apply fmap_Some in K as ([e' d'] & En & K).
      assert (n = n0) as -> by (apply updated_id; [lia | done]).
      pose proof (up_entry _ _ _ _ _ Hup) as Ee. rewrite En in Ee. rewrite Ee in E. injection E as <-.
      destruct (up_new _ _ _ _ _ Hup e' d' En) as (N' & _). rewrite N in N'. by injection N' as <-.
    + left. split; [done|]. destruct (so_node _ Hok _ _ K) as (n' & e' & d' & En & H).
      assert (n = n') as <- by (apply uint64Bytes_inj; [lia | by eapply node_range | done]).
      assert (Hne : uint64Bytes n ≠ uint64Bytes n0).
      { intros Hn. apply updated_id in Hn; [|lia]. by apply Hk, eq_sym, (up_only _ _ _ _ _ Hup _ _ _ _ H). }
      rewrite entry_other in E by done. destruct H as [K' I' E' N' F' T']. split; try done.
  - intros [(Hk & H)|(-> & -> & Hn)].
    + pose proof (node_range _ _ _ _ _ Hok H) as Hr.
      assert (Hne : uint64Bytes n ≠ uint64Bytes n0).
      { intros Hn. apply updated_id in Hn; [|lia]. by apply Hk, (up_only _ _ _ _ _ Hup _ _ _ _ H). }
      destruct H as [K I E N F T]. split; try done; [|lia|by rewrite entry_other].
      rewrite (up_key _ _ _ _ _ Hup), bool_decide_false by done. done.
    + destruct (up_new _ _ _ _ _ Hup e d Hn) as (N & F & T). split; try done.
      * rewrite (up_key _ _ _ _ _ Hup), bool_decide_true, Hn by done. done.
      * pose proof (up_entry _ _ _ _ _ Hup) as E. by rewrite Hn in E.
Qed.

Lemma updated_ok : store_ok db'.
Proof.
  pose proof (up_seq _ _ _ _ _ Hup) as [Hn0 Hseq]. split.
  - pose proof (so_seq _ Hok). lia.
  - intros k id H. rewrite (up_key _ _ _ _ _ Hup) in H. case_bool_decide as Hk.
    + apply fmap_Some in H as ([e d] & En & ->). exists n0, e, d. split; [done|]. apply updated_node. by right.
    + destruct (so_node _ Hok _ _ H) as (n & e & d & -> & Hn). exists n, e, d. split; [done|].
      apply updated_node. left. done.
  - intros id Hs. destruct (decide (id = uint64Bytes n0)) as [->|Hne].
    + exists k0. rewrite (up_key _ _ _ _ _ Hup), bool_decide_true by done. destruct new as [[e d]|] eqn:En; [done|].
      pose proof (up_entry _ _ _ _ _ Hup) as E. cbn in E. rewrite E in Hs. by destruct Hs.
    + rewrite (up_other _ _ _ _ _ Hup) in Hs by done. destruct (so_id _ Hok _ Hs) as [k Hk]. exists k.
      rewrite (up_key _ _ _ _ _ Hup). case_bool_decide as E; [|done]. exfalso. apply Hne. subst k.
      destruct (so_node _ Hok _ _ Hk) as (n & e & d & -> & Hn). by rewrite (proj1 (up_only _ _ _ _ _ Hup _ _ _ _ Hn)).
  - intros p id. rewrite (up_child _ _ _ _ _ Hup), (so_child _ Hok). split.
    + intros [[(k & n & e & d & -> & Hn & Hp) Hne]|(e & d & En & -> & Hp)].
      * exists k, n, e, d. split_and!; [done | | done]. apply updated_node. left. split; [|done]. intros ->.
        apply Hne. by rewrite (proj1 (up_only _ _ _ _ _ Hup _ _ _ _ Hn)).
      * exists k0, n0, e, d. split_and!; [done | | done]. apply updated_node. by right.
    + intros (k & n & e & d & -> & [(Hk & Hn)|(-> & -> & En)]%updated_node & Hp).
      * left. split; [by exists k, n, e, d|]. intros E. apply updated_id in E; [|by eapply node_range].
        by apply Hk, (up_only _ _ _ _ _ Hup _ _ _ _ Hn).
      * right. by exists e, d.
  - intros name Hname. rewrite (up_buckets _ _ _ _ _ Hup). by apply so_buckets.
  - intros name key Hname. rewrite (up_posted _ _ _ _ _ Hup), (so_posted _ Hok) by done. split.
    + intros [[(k & n & e & d & Hn & Hkey) Hold]|(e & d & En & Hkey)].
      * exists k, n, e, d. split; [|done]. apply updated_node. left. split; [|done]. intros ->.
        pose proof (proj1 (up_only _ _ _ _ _ Hup _ _ _ _ Hn) eq_refl) as ->. by apply (Hold e d).
      * exists k0, n0, e, d. split; [|done]. apply updated_node. by right.
    + intros (k & n & e & d & [(Hk & Hn)|(-> & -> & En)]%updated_node & Hkey).
      * left. split; [by exists k, n, e, d|]. intros e' d' Hn' Hkey'. apply Hk, (up_only _ _ _ _ _ Hup _ _ _ _ Hn).
        by eapply keys_in_same; [by eapply node_range | lia | exact Hkey | exact Hkey'].
      * right. by exists e, d.
Qed.

Lemma updated_contents :
  contents db' = match new with Some (e, _) => <[k0 := e]> (contents db) | None => delete k0 (contents db) end.
Proof.
  apply map_eq. intros k. apply option_eq. intros e. rewrite node_contents by apply updated_ok.
  transitivity ((k ≠ k0 ∧ contents db !! k = Some e) ∨ (k = k0 ∧ ∃ d, new = Some (e, d))).
  - rewrite node_contents by done. split.
    + intros (n & d & [(Hk & H)|(-> & -> & H)]%updated_node); [left; split; [done|]; by exists n, d | right; split; [done | by exists d]].
    + intros [(Hk & n & d & H)|(-> & d & H)]; [exists n, d | exists n0, d]; apply updated_node; [by left | by right].
  - destruct new as [[e' d']|].
    + rewrite lookup_insert_Some. naive_solver.
    + rewrite lookup_delete_Some. naive_solver.
Qed.
End update.

(** * The children index *)

(** Two transactions that agree but for the children index. *)
Record same_but_children (db db' : DB) : Prop := {
  sbc_dn2id : dn2id db' = dn2id db;
  sbc_id2entry : id2entry db' = id2entry db;
  sbc_postings : postings db' = postings db;
}.

Lemma child_insert (db : DB) (p q id : bytes) (b : Bucket) :
  child (set_children db (<[q := b]> (children db))) p id ↔ if bool_decide (q = p) then is_Some (Get b id) else child db p id.
Proof.
  unfold child. cbn [set_children children]. case_bool_decide as E.
  - subst q. rewrite lookup_insert_eq. naive_solver.
  - by rewrite lookup_insert_ne.
Qed.

Lemma child_bucket_spec (db : DB) (p : bytes) (b : Bucket) :
  child_bucket db p = Ok b → ∀ id, is_Some (Get b id) ↔ child db p id.
Proof.
  unfold child_bucket, child. destruct (children db !! p) as [kids|].
  - intros [= <-] id. naive_solver.
  - destruct (NameOk p); [|done]. intros [= <-] id. rewrite Get_New. split; [by intros []|]. by intros (? & ? & _).
Qed.

Lemma linkChild_spec (d : DN) (id : bytes) (db db' : DB) :
  wf_dn d → no_tab_end d → linkChild d id db = Ok db' →
  same_but_children db db' ∧
  ∀ p i, child db' p i ↔ child db p i ∨ (parent_key d = Some p ∧ i = id).
Proof.
  intros Hw Ht. unfold linkChild. rewrite parentFoldedKey_Parent by done. destruct (parent_key d) as [q|].
  - intros H. apply bind_ok in H as (b & Hb & H). apply bind_ok in H as (b' & Hp & H). injection H as <-.
    split; [by split|]. intros p i. rewrite child_insert. destruct (Put b id []) eqn:E; [|done]. injection Hp as ->.
    pose proof (child_bucket_spec _ _ _ Hb i) as Hc. rewrite (Put_Get _ _ _ _ i E). case_bool_decide as Eq.
    + subst q. rewrite <- Hc. case_bool_decide; [|naive_solver]. subst. split; [by right | by eexists].
    + naive_solver.
  - intros [= <-]. split; [by split|]. naive_solver.
Qed.

Lemma unlinkChild_spec (d : DN) (id : bytes) (db : DB) :
  wf_dn d → no_tab_end d →
  same_but_children db (unlinkChild d id db) ∧
  ∀ p i, child (unlinkChild d id db) p i ↔ child db p i ∧ ¬ (parent_key d = Some p ∧ i = id).
Proof.
  intros Hw Ht. unfold unlinkChild. rewrite parentFoldedKey_Parent by done. destruct (parent_key d) as [q|].
  - destruct (children db !! q) as [kids|] eqn:Ek.
    + split; [by split|]. intros p i. rewrite child_insert, Remove_Get. case_bool_decide as Eq.
      * subst q. unfold child. rewrite Ek. case_bool_decide as Ei.
        -- subst. split; [by intros []|]. intros [_ []]. done.
        -- naive_solver.
      * naive_solver.
    + split; [by split|]. intros p i. split; [|tauto]. intros Hc. split; [done|]. intros [[= <-] ->].
      destruct Hc as (? & ? & _). congruence.
  - split; [by split|]. naive_solver.
Qed.

(** An entry has children exactly when some stored name has it for a parent. *)
Lemma child_ids_elem (db : DB) (p id : bytes) : id ∈ child_ids db p ↔ child db p id.
Proof.
  unfold child_ids, child. destruct (children db !! p) as [kids|].
  - rewrite list_elem_of_fmap. split.
    + intros ([k v] & -> & Hin). apply Items_Get in Hin. exists kids. split; [done|]. by eexists.
    + intros (b & [= <-] & [v Hv]). exists (id, v). split; [done|]. by apply Items_Get.
  - split; [by intros ?%elem_of_nil | by intros (? & ? & _)].
Qed.

(** * Add, Replace and Delete *)

Variable ctx : nat → bool.

Lemma of_res_ok {E A} (r : res E A) (a : A) : of_res r = Ok a → r = Ok a.
Proof. destruct r; cbn; [by intros [= ->] | done]. Qed.

Lemma of_option_ok {A} (o : option A) (a : A) : of_option o = Ok a → o = Some a.
Proof. destruct o; cbn; [by intros [= ->] | done]. Qed.

(** What a key found in [dn2id] stands for, seen from a name that folds to it. *)
Lemma found (db : DB) (d : DN) (id : bytes) :
  store_ok db → wf_dn d → Get (dn2id db) (FoldedKey d) = Some id →
  ∃ n e0 d0, id = uint64Bytes n ∧ node db (FoldedKey d) n e0 d0 ∧ no_tab_end d ∧ parent_key d = parent_key d0 ∧
    idUint64 id = n ∧ ∀ old, decodeEntry (default [] (Get (id2entry db) id)) = Ok old → old = e0.
Proof.
  intros Hok Hw Ek. destruct (so_node _ Hok _ _ Ek) as (n & e0 & d0 & -> & Hn). exists n, e0, d0.
  pose proof (node_wf _ _ _ _ _ Hn) as Hw0. pose proof (node_folds _ _ _ _ _ Hn) as Hf. split_and!; try done.
  - eapply same_key_tab; [exact Hw0 | done | exact Hf | apply (node_tab _ _ _ _ _ Hn)].
  - by apply same_key_parent.
  - apply idUint64_bytes. by eapply node_range.
  - intros old Ho. pose proof (node_entry _ _ _ _ _ Hn) as E. unfold entryByID in E.
    destruct (Get (id2entry db) (uint64Bytes n)) as [blob|]; [|done]. change (decodeEntry blob = Ok old) in Ho. rewrite Ho in E. by injection E.
Qed.

Lemma node_only (db : DB) k n e d : store_ok db → node db k n e d → ∀ k' n' e' d', node db k' n' e' d' → k' = k ↔ n' = n.
Proof.
  intros Hok H k' n' e' d' H'. split; intros ->; [by apply (node_det _ _ _ _ _ _ _ _ Hok H' H) | by apply (node_inj _ _ _ _ _ _ _ _ H' H)].
Qed.

(** The one bucket that lists an id is its parent's. *)
Lemma node_child (db : DB) k n e d p : store_ok db → node db k n e d → child db p (uint64Bytes n) ↔ parent_key d = Some p.
Proof.
  intros Hok H. rewrite (so_child _ Hok). split; [|by exists k, n, e, d].
  intros (k' & n' & e' & d' & En & H' & Hp).
  assert (n = n') as <- by (apply uint64Bytes_inj; [by eapply node_range.. | done]).
  by destruct (node_inj _ _ _ _ _ _ _ _ H' H) as (_ & _ & ->).
Qed.

Lemma node_keys (db : DB) k n e d (P : Entry → Prop) : store_ok db → node db k n e d → (∀ e' d', node db k n e' d' → P e') ↔ P e.
Proof.
  intros Hok H. split; [intros HP; by eapply HP|]. intros HP e' d' H'. by destruct (node_det _ _ _ _ _ _ _ _ Hok H' H) as (_ & -> & _).
Qed.

Lemma store_Add_updated (db db' : DB) (entry : Entry) :
  store_ok db → store_Add ctx db entry = Ok db' →
  ∃ d, ParseDN (EDN entry) = Ok d ∧ contents db !! FoldedKey d = None ∧
    (no_tab_end d → ∃ n, updated db db' (FoldedKey d) n (Some (MkEntry (String d) (Attributes entry), d))).
Proof.
  intros Hok H. unfold store_Add in H. cbv zeta in H. apply bind_ok in H as ([] & _ & H). apply bind_ok in H as (d & Hd%of_res_ok & H).
  exists d. split; [done|]. destruct (Get (dn2id db) (FoldedKey d)) eqn:Ek; [done|].
  split; [by apply contents_none|]. intros Ht.
  apply bind_ok in H as ([n seq] & Hs%of_option_ok & H). apply bind_ok in H as (blob & Hb%of_res_ok & H).
  apply bind_ok in H as (keys & Hk%of_option_ok & H). apply bind_ok in H as (entries & He%of_option_ok & H).
  apply bind_ok in H as (db1 & Hl & H). set (stored := MkEntry (String d) (Attributes entry)) in *.
  pose proof (ParseDN_wf_aux _ _ Hd) as Hw. apply linkChild_spec in Hl as [[L1 L2 L3] Lc]; [|done..].
  cbn [dn2id id2entry postings set_id2entry set_dn2id] in L1, L2, L3.
  apply AddPostings_spec in H as [[S1 S2 S3 _ Sb] Sp]. destruct (Next_spec _ _ _ Hs) as (Hn & Hsq & Hget).
  pose proof (so_seq _ Hok) as Hseq. assert (Hfresh : ∀ k n' e d', node db k n' e d' → n' ≠ n).
  { intros k n' e d' Hn' ->. pose proof (node_id _ _ _ _ _ Hn'). lia. }
  exists n. split.
  - intros k. rewrite S1, L1, (Put_Get _ _ _ _ k Hk). done.
  - intros id Hid. rewrite S2, L2, (Put_Get _ _ _ _ id He), bool_decide_false by done. apply Hget.
  - unfold entryByID. rewrite S2, L2, (Put_Get _ _ _ _ _ He), bool_decide_true by done.
    by rewrite (stored_decodes _ _ _ _ _ Hb He).
  - rewrite S2, L2, (Put_Sequence _ _ _ _ He), Hsq. lia.
  - intros e d' [= <- <-]. cbn [EDN]. split_and!; [by apply ParseDN_String_aux | done | done].
  - intros k n' e d' Hn'. split; intros ->; [pose proof (node_key _ _ _ _ _ Hn'); congruence | by apply Hfresh in Hn'].
  - intros p id. unfold child at 1. rewrite S3. fold (child db1 p id). rewrite Lc.
    assert (Hc : child (set_id2entry (set_dn2id db keys) entries) p id ↔ child db p id) by done. rewrite Hc.
    split.
    + intros [Hch|[Hp ->]]; [left | right; by exists stored, d]. split; [done|]. intros ->.
      apply (so_child _ Hok) in Hch as (k & n' & e & d' & En & Hn' & _).
      apply (Hfresh _ _ _ _ Hn'). symmetry. apply uint64Bytes_inj; [lia | by eapply node_range | done].
    + intros [[? _]|(e & d' & [= <- <-] & -> & Hp)]; [by left | by right].
  - intros name. rewrite Sb, L3. done.
  - intros name key. rewrite Sp. unfold posted at 1. rewrite L3. split.
    + intros [?|?]; [left; split; [done|] | right; by exists stored, d].
      intros e d' Hn'. by apply Hfresh in Hn'.
    + intros [[? _]|(e & d' & [= <- <-] & ?)]; [by left | by right].
Qed.

Lemma store_Replace_updated (db db' : DB) (entry : Entry) :
  store_ok db → store_Replace ctx db entry = Ok db' →
  ∃ d, ParseDN (EDN entry) = Ok d ∧ is_Some (contents db !! FoldedKey d) ∧
    ∃ n, updated db db' (FoldedKey d) n (Some (MkEntry (String d) (Attributes entry), d)).
Proof.
  intros Hok H. unfold store_Replace in H. cbv zeta in H. apply bind_ok in H as ([] & _ & H).
  apply bind_ok in H as (d & Hd%of_res_ok & H). exists d. split; [done|].
  destruct (Get (dn2id db) (FoldedKey d)) as [id|] eqn:Ek; [|done]. pose proof (ParseDN_wf_aux _ _ Hd) as Hw.
  destruct (found db d id Hok Hw Ek) as (n & e0 & d0 & -> & Hn & Ht & Hpar & Hid & Hold).
  split; [exists e0; apply node_contents; [done|]; by exists n, d0|]. exists n.
  apply bind_ok in H as (old & ->%of_res_ok%Hold & H). apply bind_ok in H as (blob & Hb%of_res_ok & H).
  apply bind_ok in H as (entries & He%of_option_ok & H). set (stored := MkEntry (String d) (Attributes entry)) in *.
  rewrite Hid in H. apply ReindexEntry_spec in H as [[S1 S2 S3 _ Sb] Sp].
  cbn [dn2id id2entry children postings set_id2entry] in *. split.
  - intros k. rewrite S1. case_bool_decide; [by subst | done].
  - intros id Hne. by rewrite S2, (Put_Get _ _ _ _ id He), bool_decide_false.
  - unfold entryByID. rewrite S2, (Put_Get _ _ _ _ _ He), bool_decide_true by done. by rewrite (stored_decodes _ _ _ _ _ Hb He).
  - rewrite S2, (Put_Sequence _ _ _ _ He). pose proof (so_seq _ Hok). pose proof (node_id _ _ _ _ _ Hn). lia.
  - intros e d' [= <- <-]. cbn [EDN]. split_and!; [by apply ParseDN_String_aux | done | done].
  - by eapply node_only.
  - intros p id. unfold child at 1. rewrite S3. fold (child db p id). split.
    + intros Hc. destruct (decide (id = uint64Bytes n)) as [->|]; [right | by left]. exists stored, d. split_and!; [done..|].
      rewrite Hpar. by eapply node_child.
    + intros [[? _]|(e & d' & [= <- <-] & -> & Hp)]; [done|]. eapply node_child; [done..|]. congruence.
  - intros name. by rewrite Sb.
  - intros name key. rewrite Sp, (node_keys _ _ _ _ _ _ Hok Hn). unfold posted at 1 2. cbn. naive_solver.
Qed.

Lemma store_Delete_updated (db db' : DB) (d : DN) :
  store_ok db → wf_dn d → store_Delete ctx db d = Ok db' →
  is_Some (contents db !! FoldedKey d) ∧ (∀ id, ¬ child db (FoldedKey d) id) ∧ ∃ n, updated db db' (FoldedKey d) n None.
Proof.
  intros Hok Hw H. unfold store_Delete in H. cbv zeta in H. apply bind_ok in H as ([] & _ & H).
  destruct (Get (dn2id db) (FoldedKey d)) as [id|] eqn:Ek; [|done].
  destruct (found db d id Hok Hw Ek) as (n & e0 & d0 & -> & Hn & Ht & Hpar & Hid & Hold).
  split; [exists e0; apply node_contents; [done|]; by exists n, d0|].
  destruct (Nat.eqb_spec (length (child_ids db (FoldedKey d))) 0) as [Hl|]; [|done]. cbn [negb] in H.
  assert (Hleaf : ∀ id, ¬ child db (FoldedKey d) id).
  { intros id Hc%child_ids_elem. destruct (child_ids _ _); [by apply elem_of_nil in Hc | done]. }
  split; [done|]. exists n. apply bind_ok in H as (old & ->%of_res_ok%Hold & H).
  destruct (unlinkChild_spec d (uint64Bytes n) db Hw Ht) as [[L1 L2 L3] Lc].
  rewrite Hid in H. apply RemovePostings_spec in H as [[S1 S2 S3 _ Sb] Sp].
  unfold posted in Sp at 2. cbn [dn2id id2entry children postings set_id2entry set_dn2id set_children] in *.
  rewrite L1 in S1. rewrite L2 in S2. rewrite L3 in Sb, Sp. split.
  - intros k. rewrite S1, Remove_Get. done.
  - intros id Hne. by rewrite S2, Remove_Get, bool_decide_false.
  - by rewrite S2, Remove_Get, bool_decide_true.
  - rewrite S2, Remove_Sequence. pose proof (so_seq _ Hok). pose proof (node_id _ _ _ _ _ Hn). lia.
  - done.
  - by eapply node_only.
  - intros p id. assert (Hc' : child db' p id ↔ child (unlinkChild d (uint64Bytes n) db) p id ∧ p ≠ FoldedKey d).
    { unfold child. rewrite S3. setoid_rewrite lookup_delete_Some. naive_solver. }
    rewrite Hc', Lc. split.
    + intros [[Hc Hne] Hp]. left. split; [done|]. intros ->. apply Hne. split; [|done]. rewrite Hpar. by eapply node_child.
    + intros [[Hc Hne]|(? & ? & ? & _)]; [|done]. split_and!; [done | by intros [_ ?] | intros ->; by eapply Hleaf].
  - intros name. by rewrite Sb.
  - intros name key. rewrite Sp, (node_keys _ _ _ _ _ _ Hok Hn). naive_solver.
Qed.
End facts.
