(* ===== verification/StoreWalk.v ===== *)
(** Walking the persistent store: the cursors of [WalkSearch] and the queue of
    [Subtree] visit every entry below a base once, and the fuel of the loops is
    enough.

    Both loops are measured by the forest they still have to visit. *)

From S2P Require Import Prelude GoStrings GoText DN DNFacts Message RenameFacts Ber StoreCodec Attr Schema Matching FilterEval StoreIface Bolt Aci Server Search SearchFacts Store StoreWrite StoreFacts.
Local Open Scope Z_scope.

Section walk.
Context {U : Unicode} {UL : UnicodeLaws U} {US : UnicodeSpaces U} {BL : BoltLib} {BLL : BoltLaws BL}.

(** * The forest *)

Variable db : DB.
Hypothesis Hok : store_ok db.

Definition name_of (e : Entry) : DN := default (MkDN []) (res_opt (ParseDN (EDN e))).

Definition snapshot : list Entry := (map_to_list (contents db)).*2.

(** The entries properly below [b]. *)
Definition below_of (b : DN) : list Entry := filter (λ e, under b (name_of e) = true) snapshot.

Definition entries_of (ids : list bytes) : list Entry := omap (λ id, res_opt (entryByID db id)) ids.

Definition kids (b : DN) : list Entry := entries_of (child_ids db (FoldedKey b)).

Lemma node_name_of k n e d : node db k n e d → name_of e = d.
Proof. intros H. unfold name_of. by rewrite (node_name _ _ _ _ _ H). Qed.

Lemma snapshot_elem (e : Entry) : e ∈ snapshot ↔ ∃ k n d, node db k n e d.
Proof.
  unfold snapshot. rewrite list_elem_of_fmap. split.
  - intros ([k e'] & -> & Hin%elem_of_map_to_list). apply node_contents in Hin as (n & d & H); [|done]. by exists k, n, d.
  - intros (k & n & d & H). exists (k, e). split; [done|]. apply elem_of_map_to_list, node_contents; [done|]. by exists n, d.
Qed.

Lemma snapshot_nodup : NoDup snapshot.
Proof.
  unfold snapshot. apply NoDup_fmap_2_strong; [|apply NoDup_map_to_list].
  intros [k e] [k' e'] H H' E. cbn in E. subst e'.
  apply elem_of_map_to_list, node_contents in H as (n & d & H); [|done].
  apply elem_of_map_to_list, node_contents in H' as (n' & d' & H'); [|done].
  f_equal. rewrite <- (node_folds _ _ _ _ _ H), <- (node_folds _ _ _ _ _ H').
  by rewrite <- (node_name_of _ _ _ _ H), <- (node_name_of _ _ _ _ H').
Qed.

Lemma kids_elem (b : DN) (e : Entry) : e ∈ kids b ↔ ∃ k n d, node db k n e d ∧ parent_key d = Some (FoldedKey b).
Proof.
  unfold kids, entries_of. rewrite list_elem_of_omap. setoid_rewrite child_ids_elem. split.
  - intros (id & Hc & He). apply (so_child _ Hok) in Hc as (k & n & e' & d & -> & Hn & Hp).
    rewrite (node_entry _ _ _ _ _ Hn) in He. injection He as ->. by exists k, n, d.
  - intros (k & n & d & Hn & Hp). exists (uint64Bytes n). split; [by eapply node_child|]. by rewrite (node_entry _ _ _ _ _ Hn).
Qed.

Lemma child_ids_nodup (key : bytes) : NoDup (child_ids db key).
Proof. unfold child_ids. destruct (children db !! key); [apply items_nodup | constructor]. Qed.

(** Ids of stored entries. *)
Definition stored_ids (ids : list bytes) : Prop := ∀ id, id ∈ ids → ∃ k n e d, id = uint64Bytes n ∧ node db k n e d.

Lemma child_ids_stored (key : bytes) : stored_ids (child_ids db key).
Proof. intros id Hc%child_ids_elem. apply (so_child _ Hok) in Hc as (k & n & e & d & -> & Hn & _). by exists k, n, e, d. Qed.

Lemma entries_of_nodup (ids : list bytes) : stored_ids ids → NoDup ids → NoDup (entries_of ids).
Proof.
  unfold entries_of. induction ids as [|id ids IH]; intros Hs Hd; [constructor|]. apply NoDup_cons in Hd as [Hid Hd].
  assert (Hs' : stored_ids ids) by (intros i Hi; apply Hs; by right).
  destruct (Hs id ltac:(left)) as (k & n & e & d & -> & Hn). cbn [omap list_omap].
  rewrite (node_entry _ _ _ _ _ Hn). cbn [res_opt]. constructor; [|by apply IH].
  intros (id' & Hin & He)%list_elem_of_omap. destruct (Hs' id' Hin) as (k' & n' & e' & d' & -> & Hn').
  rewrite (node_entry _ _ _ _ _ Hn') in He. injection He as ->.
  assert (Hk : k = k').
  { rewrite <- (node_folds _ _ _ _ _ Hn), <- (node_folds _ _ _ _ _ Hn').
    by rewrite <- (node_name_of _ _ _ _ Hn), <- (node_name_of _ _ _ _ Hn'). }
  subst k'. by destruct (node_det _ _ _ _ _ _ _ _ Hok Hn Hn') as (-> & _).
Qed.

(** The parents of the names below [b] are stored. *)
Definition linked (b : DN) : Prop :=
  ∀ k n e d p, node db k n e d → under b d = true → Parent d = Some p → is_Some (contents db !! FoldedKey p).

Lemma rooted_linked (b : DN) : rooted (contents db) b → linked b.
Proof. intros Hr k n e d p N. apply (Hr k e d p); [|apply (node_name _ _ _ _ _ N)]. apply node_contents; [done|]. by exists n, d. Qed.

Lemma linked_fold (b b' : DN) : fold_dn b = fold_dn b' → linked b → linked b'.
Proof. intros E H k n e d p Hn Hu. apply (H k n e d p Hn). by rewrite (under_fold b b' d d). Qed.

(** A child of [b] is at or above every name below [b]. *)
Lemma below_step (b : DN) :
  wf_dn b → linked b → ∀ m k n e d, (length (rdns d) ≤ m)%nat → node db k n e d →
  under b d = true ↔ ∃ c, c ∈ kids b ∧ (e = c ∨ under (name_of c) d = true).
Proof.
  intros Hw Hl. assert (Hne : rdns b ≠ []) by apply Hw. induction m as [|m IH]; intros k n e d Hm Hn.
  { pose proof (node_wf _ _ _ _ _ Hn) as [Hd _]. destruct (rdns d); [done | cbn in Hm; lia]. }
  pose proof (node_wf _ _ _ _ _ Hn) as Hwd. destruct (Parent d) as [p|] eqn:Ep.
  2:{ rewrite (under_root b d Hne Ep). split; [done|]. intros (c & Hc & [<-|Hu]).
      - apply kids_elem in Hc as (k' & n' & d' & Hn' & Hp'). rewrite <- (node_name_of _ _ _ _ Hn'), (node_name_of _ _ _ _ Hn) in Hp'.
        unfold parent_key in Hp'. by rewrite Ep in Hp'.
      - apply kids_elem in Hc as (k' & n' & d' & Hn' & _). rewrite (node_name_of _ _ _ _ Hn') in Hu.
        rewrite under_root in Hu; [done | by apply (node_wf _ _ _ _ _ Hn') | done]. }
  pose proof (parent_wf d p Hwd Ep) as Hwp. rewrite (under_parent b d p Hne Ep), <- (key_fold p b Hwp Hw).
  assert (Hkid : FoldedKey p = FoldedKey b ↔ e ∈ kids b).
  { rewrite kids_elem. split.
    - intros E. exists k, n, d. split; [done|]. unfold parent_key. rewrite Ep. cbn. by rewrite E.
    - intros (k' & n' & d' & Hn' & Hp'). rewrite <- (node_name_of _ _ _ _ Hn'), (node_name_of _ _ _ _ Hn) in Hp'.
      unfold parent_key in Hp'. rewrite Ep in Hp'. by injection Hp'. }
  assert (Hup : ∀ c, c ∈ kids b → under (name_of c) d = true ↔ fold_dn p = fold_dn (name_of c) ∨ under (name_of c) p = true).
  { intros c (k' & n' & d' & Hn' & _)%kids_elem. rewrite (node_name_of _ _ _ _ Hn'). apply under_parent; [|done].
    apply (node_wf _ _ _ _ _ Hn'). }
  split.
  - intros [E|Hu]; [exists e; split; [by apply Hkid | by left]|].
    destruct (Hl k n e d p Hn) as [e' He']; [rewrite (under_parent b d p Hne Ep); by right | done |].
    apply node_contents in He' as (n' & d' & Hn'); [|done].
    assert (Hf : fold_dn d' = fold_dn p) by (apply key_fold; [by eapply node_wf | done | apply (node_folds _ _ _ _ _ Hn')]).
    assert (Hlen : length (rdns d') = length (rdns p)) by by rewrite <- (fold_length d'), Hf, fold_length.
    rewrite <- (under_fold b b d' p eq_refl Hf) in Hu. pose proof (parent_length d p Ep) as Hdp.
    assert (Hle : (length (rdns d') ≤ m)%nat) by lia.
    destruct (proj1 (IH _ n' e' d' Hle Hn') Hu) as (c & Hc & H). exists c. split; [done|]. right. apply (Hup c Hc). rewrite <- Hf.
    destruct H as [E|H]; [left; by rewrite <- E, (node_name_of _ _ _ _ Hn')|]. right.
    by rewrite (under_fold (name_of c) (name_of c) p d').
  - intros (c & Hc & [->|Hu]); [left; by apply Hkid|]. right. apply (Hup c Hc) in Hu.
    apply kids_elem in Hc as (k' & n' & d' & Hn' & Hp'). rewrite (node_name_of _ _ _ _ Hn') in Hu.
    pose proof (node_wf _ _ _ _ _ Hn') as Hwd'. unfold parent_key in Hp'. apply fmap_Some in Hp' as (q & Hq & Hqb).
    assert (Hub : under b d' = true).
    { apply (under_parent b d' q Hne Hq). left. symmetry. apply key_fold; [done | by eapply parent_wf | done]. }
    destruct Hu as [E|Hu]; [by rewrite (under_fold b b p d')|]. by eapply under_trans.
Qed.

Lemma below_of_elem (b : DN) (e : Entry) : e ∈ below_of b ↔ ∃ k n d, node db k n e d ∧ under b d = true.
Proof.
  unfold below_of. rewrite list_elem_of_filter, snapshot_elem. split.
  - intros (Hu & k & n & d & Hn). rewrite (node_name_of _ _ _ _ Hn) in Hu. by exists k, n, d.
  - intros (k & n & d & Hn & Hu). rewrite (node_name_of _ _ _ _ Hn). split; [done|]. by exists k, n, d.
Qed.

Lemma kids_nodup (b : DN) : NoDup (kids b).
Proof. apply entries_of_nodup; [apply child_ids_stored | apply child_ids_nodup]. Qed.

(** A child is one RDN below. *)
Lemma kid_under (b : DN) (c : Entry) :
  wf_dn b → c ∈ kids b → ∃ k n, node db k n c (name_of c) ∧ under b (name_of c) = true ∧
    length (rdns (name_of c)) = S (length (rdns b)).
Proof.
  intros Hw (k & n & d & Hn & Hp)%kids_elem. exists k, n. rewrite (node_name_of _ _ _ _ Hn). split; [done|].
  unfold parent_key in Hp. apply fmap_Some in Hp as (q & Hq & Hqb). pose proof (node_wf _ _ _ _ _ Hn) as Hwd.
  assert (Hf : fold_dn q = fold_dn b) by (symmetry; apply key_fold; [done | by eapply parent_wf | done]).
  split; [apply (under_parent b d q); [apply Hw | done | by left]|].
  rewrite (parent_length d q Hq), <- (fold_length q), Hf. by rewrite fold_length.
Qed.

Lemma linked_kid (b : DN) (c : Entry) : wf_dn b → linked b → c ∈ kids b → linked (name_of c).
Proof.
  intros Hw Hl Hc k n e d p Hn Hu. destruct (kid_under b c Hw Hc) as (_ & _ & _ & Hub & _).
  apply (Hl k n e d p Hn). by eapply under_trans.
Qed.

(** The forest below [b], tree by tree. *)
Lemma below_of_unfold (b : DN) :
  wf_dn b → linked b → below_of b ≡ₚ kids b ≫= λ c, c :: below_of (name_of c).
Proof.
  intros Hw Hl. apply NoDup_Permutation; [apply NoDup_filter, snapshot_nodup | |].
  - apply NoDup_bind; [| |apply kids_nodup].
    + intros c c' e Hc Hc' He He'. destruct (kid_under b c Hw Hc) as (k & n & Hn & Hu & Hlen).
      destruct (kid_under b c' Hw Hc') as (k' & n' & Hn' & Hu' & Hlen').
      assert (Hanc : ∀ x, e ∈ x :: below_of (name_of x) → e = x ∨ under (name_of x) (name_of e) = true).
      { intros x [->|Hx]%elem_of_cons; [by left|]. right. apply below_of_elem in Hx as (k2 & n2 & d2 & Hn2 & ?).
        by rewrite (node_name_of _ _ _ _ Hn2). }
      assert (Hf : fold_dn (name_of c) = fold_dn (name_of c')).
      { apply Hanc in He as [->|He], He' as [E|He'].
        - by rewrite E.
        - apply under_shorter in He'. lia.
        - subst e. apply under_shorter in He. lia.
        - eapply under_unique; [lia | exact He | exact He']. }
      apply key_fold in Hf; [|by eapply node_wf..]. rewrite (node_folds _ _ _ _ _ Hn), (node_folds _ _ _ _ _ Hn') in Hf. subst k'.
      by destruct (node_det _ _ _ _ _ _ _ _ Hok Hn Hn') as (_ & -> & _).
    + intros c Hc. constructor; [|apply NoDup_filter, snapshot_nodup].
      intros (k & n & d & Hn & Hu)%below_of_elem. rewrite (node_name_of _ _ _ _ Hn) in Hu. apply under_shorter in Hu. lia.
  - intros e. rewrite below_of_elem, list_elem_of_bind. split.
    + intros (k & n & d & Hn & Hu). apply (below_step b Hw Hl _ k n e d (le_n _) Hn) in Hu as (c & Hc & H).
      exists c. split; [|done]. apply elem_of_cons. destruct H as [->|H]; [by left|]. right. apply below_of_elem. by exists k, n, d.
    + intros (c & [->|He]%elem_of_cons & Hc).
      * destruct (kid_under b c Hw Hc) as (k & n & Hn & Hu & _). by exists k, n, (name_of c).
      * apply below_of_elem in He as (k & n & d & Hn & Hu). exists k, n, d. split; [done|].
        apply (below_step b Hw Hl _ k n e d (le_n _) Hn). exists c. split; [done | by right].
Qed.

(** * The cursors *)

Variable ctx : nat → bool.
Hypothesis ctx_calm : ∀ n, ctx n = false.

(** What is yet to be visited from a list of ids, and from the open cursors. *)
Definition forest (ids : list bytes) : list Entry := entries_of ids ≫= λ c, c :: below_of (name_of c).

Definition pending (cursors : list (list bytes)) : list Entry := cursors ≫= forest.

Lemma pending_one (ids : list bytes) : pending [ids] = forest ids.
Proof. unfold pending. cbn. apply app_nil_r. Qed.

Definition linked_ids (ids : list bytes) : Prop := stored_ids ids ∧ ∀ c, c ∈ entries_of ids → linked (name_of c).

Lemma linked_ids_tail (id : bytes) (ids : list bytes) : linked_ids (id :: ids) → linked_ids ids.
Proof.
  intros [Hs Hl]. split; [intros i Hi; apply Hs; by right|]. intros c Hc. apply Hl. unfold entries_of in *.
  cbn [omap list_omap]. destruct (res_opt _); [by right | done].
Qed.

Lemma linked_child_ids (d : DN) : wf_dn d → linked d → linked_ids (child_ids db (FoldedKey d)).
Proof. intros Hw Hl. split; [apply child_ids_stored|]. intros c Hc. by eapply linked_kid. Qed.

Lemma forest_children (d : DN) : wf_dn d → linked d → forest (child_ids db (FoldedKey d)) ≡ₚ below_of d.
Proof. intros Hw Hl. symmetry. by apply below_of_unfold. Qed.

Lemma linked_head (id : bytes) (ids : list bytes) :
  linked_ids (id :: ids) → ∃ e d, entryByID db id = Ok e ∧ ParseDN (EDN e) = Ok d ∧ wf_dn d ∧ linked d ∧
    forest (id :: ids) = e :: below_of d ++ forest ids.
Proof.
  intros [Hs Hl]. destruct (Hs id ltac:(left)) as (k & n & e & d & -> & Hn). exists e, d.
  assert (Hf : entries_of (uint64Bytes n :: ids) = e :: entries_of ids).
  { unfold entries_of. cbn [omap list_omap]. by rewrite (node_entry _ _ _ _ _ Hn). }
  split_and!; [apply Hn | apply Hn | by eapply node_wf | |].
  - rewrite <- (node_name_of _ _ _ _ Hn). apply Hl. rewrite Hf. left.
  - unfold forest. rewrite Hf, bind_cons, (node_name_of _ _ _ _ Hn). done.
Qed.

Lemma walk_deep (fuel n : nat) (cursors : list (list bytes)) :
  Forall linked_ids cursors → (2 * length (pending cursors) + length cursors < fuel)%nat →
  ∃ l, walk_loop ctx fuel n db true cursors = Some (l, None) ∧ l ≡ₚ pending cursors.
Proof.
  revert n cursors. induction fuel as [|fuel IH]; intros n cursors Hl Hf; [lia|]. cbn [walk_loop].
  destruct cursors as [|ids rest]; [by exists []|]. rewrite ctx_calm. apply Forall_cons in Hl as [Hids Hrest].
  destruct ids as [|id ids].
  - change (pending ([] :: rest)) with (pending rest) in *. apply IH; [done|]. cbn [length] in Hf. lia.
  - destruct (linked_head id ids Hids) as (e & d & He & Hd & Hw & Hld & Hfor). rewrite He. cbn [negb]. rewrite Hd.
    assert (Hpend : pending ((id :: ids) :: rest) = e :: below_of d ++ pending (ids :: rest)).
    { unfold pending. rewrite !bind_cons, Hfor. cbn [app]. by rewrite app_assoc. }
    apply linked_ids_tail in Hids. rewrite Hpend in *. cbn [length] in *. rewrite length_app in Hf.
    pose proof (forest_children d Hw Hld) as Hk. unfold child_ids in Hk. pose proof (linked_child_ids d Hw Hld) as Hlk.
    unfold child_ids in Hlk. destruct (children db !! FoldedKey d) as [b|].
    + destruct (IH (S n) ((Items b).*1 :: ids :: rest)) as (l & -> & Hl').
      * apply Forall_cons. split; [exact Hlk|]. by apply Forall_cons.
      * unfold pending in *. rewrite bind_cons, length_app, Hk. cbn [length] in *. lia.
      * cbn [fmap option_fmap option_map fst snd]. exists (e :: l). split; [done|].
        constructor. etransitivity; [exact Hl'|]. unfold pending. rewrite (bind_cons forest). by apply Permutation_app_tail.
    + change (forest []) with (@nil Entry) in Hk. apply Permutation_nil in Hk. rewrite Hk in Hf |- *. cbn [length app] in *.
      destruct (IH (S n) (ids :: rest)) as (l & -> & Hl'); [by constructor | cbn [length]; lia|].
      exists (e :: l). split; [done|]. by rewrite Hl'.
Qed.

Lemma walk_flat (fuel n : nat) (ids : list bytes) :
  stored_ids ids → (length ids + 1 < fuel)%nat → walk_loop ctx fuel n db false [ids] = Some (entries_of ids, None).
Proof.
  revert n fuel. induction ids as [|id ids IH]; intros n fuel Hs Hf; (destruct fuel as [|fuel]; [cbn in Hf; lia|]); cbn [walk_loop].
  - rewrite ctx_calm. destruct fuel; [cbn in Hf; lia | done].
  - rewrite ctx_calm. destruct (Hs id ltac:(left)) as (k & m & e & d & -> & Hn). rewrite (node_entry _ _ _ _ _ Hn). cbn [negb].
    rewrite IH; [|intros i Hi; apply Hs; by right | cbn in Hf; lia]. unfold entries_of. cbn [omap list_omap].
    by rewrite (node_entry _ _ _ _ _ Hn).
Qed.

(** * The fuel *)

Lemma snapshot_length : (length snapshot ≤ length (Items (dn2id db)))%nat.
Proof.
  unfold snapshot. rewrite length_fmap, <- (length_fmap fst (map_to_list _)), <- (length_fmap fst (Items _)).
  apply submseteq_length, NoDup_submseteq; [apply NoDup_fst_map_to_list|].
  intros k ([k' e] & -> & Hin%elem_of_map_to_list)%list_elem_of_fmap. apply node_contents in Hin as (n & d & Hn); [|done].
  apply list_elem_of_fmap. exists (k', uint64Bytes n). split; [done|]. apply Items_Get, Hn.
Qed.

Lemma below_of_length (b : DN) : (length (below_of b) ≤ length snapshot)%nat.
Proof. unfold below_of. apply length_filter. Qed.

Lemma entries_of_length (ids : list bytes) : stored_ids ids → length (entries_of ids) = length ids.
Proof.
  induction ids as [|id ids IH]; intros Hs; [done|]. destruct (Hs id ltac:(left)) as (k & n & e & d & -> & Hn).
  unfold entries_of in *. cbn [omap list_omap]. rewrite (node_entry _ _ _ _ _ Hn). cbn [res_opt length].
  f_equal. apply IH. intros i Hi. apply Hs. by right.
Qed.

Lemma kids_length (b : DN) : (length (kids b) ≤ length snapshot)%nat.
Proof.
  apply submseteq_length, NoDup_submseteq; [apply kids_nodup|]. intros e (k & n & d & Hn & _)%kids_elem.
  apply snapshot_elem. by exists k, n, d.
Qed.

(** * [WalkSearch] *)

Lemma store_Entry_node (b : DN) (root : Entry) :
  store_Entry ctx db b = Ok root ↔ ∃ n d, node db (FoldedKey b) n root d.
Proof.
  unfold store_Entry, alive. rewrite ctx_calm. cbn [negb ensure mbind res_bind]. split.
  - destruct (Get (dn2id db) (FoldedKey b)) as [id|] eqn:E; [|done]. intros H.
    destruct (so_node _ Hok _ _ E) as (n & e & d & -> & Hn). rewrite (node_entry _ _ _ _ _ Hn) in H. injection H as ->. by exists n, d.
  - intros (n & d & Hn). by rewrite (node_key _ _ _ _ _ Hn), (node_entry _ _ _ _ _ Hn).
Qed.

Lemma WalkSearch_aux (b : DN) (root : Entry) (scope : Z) :
  wf_dn b → linked b → store_Entry ctx db b = Ok root →
  ∃ l, WalkSearch ctx db b scope = (l, None) ∧
    l ≡ₚ if scope =? ScopeBaseObject then [root]
         else if scope =? ScopeWholeSubtree then root :: below_of b else kids b.
Proof.
  intros Hw Hl Hr. unfold WalkSearch. rewrite Hr. destruct (Z.eqb_spec scope ScopeBaseObject) as [->|Hb]; [by exists [root]|].
  cbn [orb]. pose proof (forest_children b Hw Hl) as Hfor. pose proof (linked_child_ids b Hw Hl) as Hlk.
  pose proof snapshot_length as Hsl. pose proof (below_of_length b) as Hbl. pose proof (kids_length b) as Hkl.
  unfold kids in Hkl |- *. rewrite entries_of_length in Hkl by apply Hlk.
  unfold child_ids in *. destruct (children db !! FoldedKey b) as [kb|].
  - destruct (Z.eqb_spec scope ScopeWholeSubtree) as [->|Hs].
    + destruct (walk_deep (S (2 * rounds db)) 1 [(Items kb).*1]) as (l & -> & Hp).
      * by apply Forall_singleton.
      * rewrite pending_one, Hfor. unfold rounds. cbn [length]. lia.
      * cbn [default fst snd]. eexists. split; [done|]. cbn [app]. constructor.
        etransitivity; [exact Hp|]. by rewrite pending_one.
    + rewrite walk_flat; [|apply Hlk | unfold rounds; lia]. cbn [default fst snd]. by eexists.
  - change (forest []) with (@nil Entry) in Hfor. apply Permutation_nil in Hfor. rewrite Hfor.
    destruct (Z.eqb_spec scope ScopeWholeSubtree); by eexists.
Qed.

(** * Scopes *)

(** Case folding, which decides scopes, agrees on [b] and the stored names with the
    lower-casing that keys the store. *)
Definition agree (b : DN) : Prop :=
  ∀ k n e d pre suf, node db k n e d → rdns d = pre ++ suf → suf ≠ [] →
    EqualFold (MkDN suf) b = true ↔ fold_dn (MkDN suf) = fold_dn b.

Lemma scope_filter (b : DN) (root : Entry) (scope : Z) :
  wf_dn b → linked b → agree b → store_Entry ctx db b = Ok root → ScopeBaseObject ≤ scope ≤ ScopeChildren →
  filter (λ e, entry_in_scope b scope e = true) snapshot ≡ₚ
    if scope =? ScopeBaseObject then [root] else if scope =? ScopeWholeSubtree then root :: below_of b else kids b.
Proof.
  intros Hw Hl Ha (n0 & d0 & H0)%store_Entry_node Hs. pose proof (node_wf _ _ _ _ _ H0) as Hw0.
  assert (Hf0 : fold_dn d0 = fold_dn b) by (apply key_fold; [done..|]; apply (node_folds _ _ _ _ _ H0)).
  assert (Hself : ∀ k n e d, node db k n e d → fold_dn d = fold_dn b ↔ e = root).
  { intros k n e d Hn. rewrite <- key_fold by (done || by eapply node_wf). rewrite (node_folds _ _ _ _ _ Hn). split.
    - intros ->. by destruct (node_det _ _ _ _ _ _ _ _ Hok Hn H0) as (_ & -> & _).
    - intros ->. by rewrite <- (node_folds _ _ _ _ _ Hn), <- (node_name_of _ _ _ _ Hn), (node_name_of _ _ _ _ H0), (node_folds _ _ _ _ _ H0). }
  assert (Hall : ∀ k n e d, node db k n e d → EqualFold d b = true ↔ e = root).
  { intros k n e d Hn. rewrite <- (Hself _ _ _ _ Hn). pose proof (node_wf _ _ _ _ _ Hn) as [Hdn _].
    pose proof (Ha k n e d [] (rdns d) Hn eq_refl Hdn) as H. by destruct d. }
  assert (Hroot : ∃ k n d, node db k n root d) by (by exists (FoldedKey b), n0, d0).
  apply NoDup_Permutation; [apply NoDup_filter, snapshot_nodup | |].
  - destruct (scope =? ScopeBaseObject); [apply NoDup_singleton|]. destruct (scope =? ScopeWholeSubtree); [|apply kids_nodup].
    constructor; [|apply NoDup_filter, snapshot_nodup]. intros (k & n & d & Hn & Hu)%below_of_elem.
    pose proof (proj2 (Hself _ _ _ _ Hn) eq_refl) as E. apply under_shorter in Hu.
    rewrite <- (fold_length d), E, fold_length in Hu. lia.
  - intros e. rewrite list_elem_of_filter, snapshot_elem.
    assert (Hmem : ∀ P : Prop, (∀ k n d, node db k n e d → searchScopeContains b d scope = true ↔ P) → (P → ∃ k n d, node db k n e d) →
              (entry_in_scope b scope e = true ∧ ∃ k n d, node db k n e d) ↔ P).
    { intros P HP Hex. unfold entry_in_scope. split.
      - intros (Hsc & k & n & d & Hn). rewrite (node_name _ _ _ _ _ Hn) in Hsc. by apply (HP k n d Hn).
      - intros HPp. destruct (Hex HPp) as (k & n & d & Hn). rewrite (node_name _ _ _ _ _ Hn).
        split; [by apply (HP k n d Hn) | by exists k, n, d]. }
    apply Hmem; unfold searchScopeContains; destruct (Z.eqb_spec scope ScopeBaseObject) as [Eb|Eb];
      [| destruct (Z.eqb_spec scope ScopeWholeSubtree) as [Es|Es] | | destruct (Z.eqb_spec scope ScopeWholeSubtree) as [Es|Es]].
    + intros k n d Hn. by rewrite list_elem_of_singleton, (Hall _ _ _ _ Hn).
    + intros k n d Hn. rewrite elem_of_cons, aciTargetScopeA_spec_aux; [|by eapply node_wf | apply (node_tab _ _ _ _ _ Hn)].
      rewrite <- (Hself _ _ _ _ Hn). transitivity (fold_dn d = fold_dn b ∨ under b d = true).
      * rewrite <- under_suffix by apply Hw. split; intros (pre & suf & Hd & Hne & H); exists pre, suf; split_and!; try done;
          by eapply (Ha k n e d pre suf).
      * rewrite below_of_elem. split; (intros [?|H]; [by left|right]); [by exists k, n, d|].
        destruct H as (k' & n' & d' & Hn' & Hu). by rewrite <- (node_name_of _ _ _ _ Hn), (node_name_of _ _ _ _ Hn').
    + intros k n d Hn. pose proof (node_wf _ _ _ _ _ Hn) as Hwd.
      assert (Hsc : (scope =? ScopeSingleLevel) || (scope =? ScopeChildren) = true).
      { unfold ScopeBaseObject, ScopeWholeSubtree, ScopeSingleLevel, ScopeChildren in *.
        destruct (Z.eqb_spec scope 1); [done|]. destruct (Z.eqb_spec scope 3); [done | lia]. }
      rewrite Hsc, parentDN_aux by (done || apply (node_tab _ _ _ _ _ Hn)). transitivity (parent_key d = Some (FoldedKey b)).
      * unfold parent_key. destruct d as [[|r [|r' l]]]; try done. cbn [Parent fmap option_fmap option_map].
        change (Parent (MkDN (r :: r' :: l))) with (Some (MkDN (r' :: l))). cbn match.
        pose proof (Ha k n e _ [r] (r' :: l) Hn eq_refl ltac:(done)) as ->. cbn [fmap option_fmap option_map].
        rewrite <- key_fold; [by split; [intros -> | intros [= ->]] | | done]. by eapply parent_wf.
      * rewrite kids_elem. split; [by exists k, n, d|]. intros (k' & n' & d' & Hn' & Hp).
        by rewrite <- (node_name_of _ _ _ _ Hn), (node_name_of _ _ _ _ Hn').
    + by intros ->%list_elem_of_singleton.
    + intros [->|(k & n & d & Hn & _)%below_of_elem]%elem_of_cons; [done | by exists k, n, d].
    + intros (k & n & d & Hn & _)%kids_elem. by exists k, n, d.
Qed.

(** * The queue of [Subtree] *)

Definition queued (qs : list Entry) : list bytes := (λ e, FoldedKey (name_of e)) <$> qs.

Definition queue_ok (qs : list Entry) : Prop := ∀ e, e ∈ qs → (∃ k n, node db k n e (name_of e)) ∧ linked (name_of e).

Definition trees (qs : list Entry) : list Entry := qs ≫= λ c, c :: below_of (name_of c).

Lemma child_keys_ok (d : DN) : wf_dn d → child_keys db (FoldedKey d) = Ok (queued (kids d)).
Proof.
  intros Hw. unfold child_keys, queued, kids, entries_of. pose proof (child_ids_stored (FoldedKey d)) as Hs. revert Hs.
  induction (child_ids db (FoldedKey d)) as [|id ids IH]; intros Hs; [done|].
  destruct (Hs id ltac:(left)) as (k & n & e & c & -> & Hn). cbn [rmap omap list_omap].
  rewrite (node_entry _ _ _ _ _ Hn). cbn [mbind res_bind res_opt]. rewrite (node_name _ _ _ _ _ Hn). cbn [of_res mbind res_bind].
  rewrite IH by (intros i Hi; apply Hs; by right). cbn [mbind res_bind]. by rewrite fmap_cons, (node_name_of _ _ _ _ Hn).
Qed.

Lemma subtree_loop_spec (fuel : nat) (qs : list Entry) :
  queue_ok qs → (length (trees qs) < fuel)%nat →
  ∃ l, subtree_loop fuel db (queued qs) = Some (Ok l) ∧ l.*2 ≡ₚ trees qs ∧
    Forall (λ m : bytes * bytes * Entry, ∃ n d, m.1.2 = uint64Bytes n ∧ node db m.1.1 n m.2 d) l.
Proof.
  revert qs. induction fuel as [|fuel IH]; intros qs Hq Hf; [lia|]. cbn [subtree_loop].
  destruct qs as [|e qs]; [by exists []|]. unfold queued. rewrite fmap_cons.
  destruct (Hq e ltac:(left)) as [(k & n & Hn) Hl]. pose proof (node_folds _ _ _ _ _ Hn) as Hk.
  pose proof (node_wf _ _ _ _ _ Hn) as Hw. rewrite Hk, (node_key _ _ _ _ _ Hn), (node_entry _ _ _ _ _ Hn), <- Hk, child_keys_ok by done.
  change ((λ e, FoldedKey (name_of e)) <$> qs) with (queued qs). unfold queued. rewrite <- fmap_app.
  assert (Htr : trees (e :: qs) ≡ₚ e :: trees (qs ++ kids (name_of e))).
  { unfold trees. rewrite bind_cons, bind_app. cbn [app]. constructor. rewrite (below_of_unfold (name_of e) Hw Hl). apply Permutation_app_comm. }
  assert (Hq' : queue_ok (qs ++ kids (name_of e))).
  { intros c [Hc|Hc]%elem_of_app; [apply Hq; by right|]. destruct (kid_under _ _ Hw Hc) as (k' & n' & Hn' & _).
    split; [by exists k', n' | by eapply linked_kid]. }
  destruct (IH (qs ++ kids (name_of e)) Hq') as (l & Hrun & Hp & Hall); [rewrite Htr in Hf; cbn [length] in Hf; lia|].
  unfold queued in Hrun. rewrite Hrun. cbn [fmap option_fmap option_map mbind res_bind]. eexists. split; [done|]. split.
  - rewrite fmap_cons, Htr. by constructor.
  - constructor; [|done]. cbn [fst snd]. exists n, (name_of e). by rewrite Hk.
Qed.

(** The entry of a name and those below it, each once. *)
Lemma subtree_nodup (b : DN) (root : Entry) (n : Z) :
  wf_dn b → node db (FoldedKey b) n root (name_of root) → NoDup (root :: below_of b).
Proof.
  intros Hw Hn. assert (Hf : fold_dn (name_of root) = fold_dn b).
  { apply key_fold; [by eapply node_wf | done | apply (node_folds _ _ _ _ _ Hn)]. }
  constructor; [|apply NoDup_filter, snapshot_nodup]. intros (k & n' & d & Hn' & Hu)%below_of_elem.
  rewrite <- (node_name_of _ _ _ _ Hn') in Hu. apply under_shorter in Hu.
  rewrite <- (fold_length (name_of root)), Hf, fold_length in Hu. lia.
Qed.

Lemma reach_spec (b : DN) (root : Entry) (n : Z) :
  wf_dn b → linked b → node db (FoldedKey b) n root (name_of root) →
  ∃ l, reach db (FoldedKey b) = Ok l ∧ l.*2 ≡ₚ root :: below_of b ∧
    Forall (λ m : bytes * bytes * Entry, ∃ n d, m.1.2 = uint64Bytes n ∧ node db m.1.1 n m.2 d) l.
Proof.
  intros Hw Hl Hn. assert (Hf : fold_dn (name_of root) = fold_dn b).
  { apply key_fold; [by eapply node_wf | done | apply (node_folds _ _ _ _ _ Hn)]. }
  assert (Hb : below_of (name_of root) = below_of b).
  { unfold below_of. apply list_filter_iff. intros e. by rewrite (under_fold _ b _ (name_of e) Hf eq_refl). }
  assert (Ht : trees [root] = root :: below_of b) by (unfold trees; cbn; by rewrite app_nil_r, Hb).
  unfold reach. rewrite <- (node_folds _ _ _ _ _ Hn).
  change [FoldedKey (name_of root)] with (queued [root]).
  destruct (subtree_loop_spec (rounds db) [root]) as (l & -> & Hp & Hall).
  - intros e ->%list_elem_of_singleton. split; [by exists (FoldedKey b), n|]. by apply (linked_fold b).
  - rewrite Ht. unfold rounds. pose proof (below_of_length b) as H1. pose proof snapshot_length as H2.
    assert (Hlt : (length (root :: below_of b) ≤ length snapshot)%nat); [|cbn [length] in *; lia].
    apply submseteq_length, NoDup_submseteq.
    + by eapply subtree_nodup.
    + intros e [->|(k & n' & d & Hn' & _)%below_of_elem]%elem_of_cons; apply snapshot_elem; [by exists (FoldedKey b), n, (name_of root) | by exists k, n', d].
  - exists l. rewrite <- Ht. done.
Qed.

Lemma Subtree_aux (b : DN) (root : Entry) :
  wf_dn b → linked b → contents db !! FoldedKey b = Some root → ∃ l, store_Subtree ctx db b = Ok l ∧ l ≡ₚ root :: below_of b.
Proof.
  intros Hw Hl Hc. apply node_contents in Hc as (n & d & N); [|done]. unfold store_Subtree, alive. rewrite ctx_calm, (node_key _ _ _ _ _ N).
  cbn [negb ensure mbind res_bind]. destruct (reach_spec b root n) as (l & -> & Hp & _); [done..|by rewrite (node_name_of _ _ _ _ N)|].
  by exists l.*2.
Qed.
End walk.
