(* ===== verification/StoreRename.v ===== *)
(** Renaming in the persistent store: [updateTx.Rename] moves an entry and everything
    below it, and leaves the buckets consistent.

    The moves are planned once ([planned]), none undoes another ([clear]), so names,
    entries and children buckets can be read off the plan. *)

From S2P Require Import Prelude GoStrings GoText DN DNFacts Message RenameFacts StoreCodec Attr Schema Matching FilterEval StoreIface Bolt Aci Server Write Search Store StoreWrite StoreFacts StoreWalk.
Local Open Scope Z_scope.

Section rename.
Context {U : Unicode} {UL : UnicodeLaws U} {US : UnicodeSpaces U} {BL : BoltLib} {BLL : BoltLaws BL}.

(** * One move after another *)

Definition move_image (m : smove) : Entry := MkEntry (newDN m) (Attributes (mv_entry m)).

Record moved_names (db db' : DB) (ms : list smove) : Prop := {
  mn_children : children db' = children db;
  mn_postings : postings db' = postings db;
  mn_seq : Sequence (id2entry db') = Sequence (id2entry db);
  mn_key : ∀ k id, Get (dn2id db') k = Some id ↔
    (∃ m, m ∈ ms ∧ newKey m = k ∧ mv_id m = id) ∨ ((k ∉ oldKey <$> ms) ∧ (k ∉ newKey <$> ms) ∧ Get (dn2id db) k = Some id);
  mn_entry : ∀ m, m ∈ ms → entryByID db' (mv_id m) = Ok (move_image m);
  mn_other : ∀ id, id ∉ (mv_id <$> ms) → Get (id2entry db') id = Get (id2entry db) id;
}.

(** Later moves take neither the key an earlier one gave out, nor its id. *)
Definition clear (m m' : smove) : Prop := newKey m ≠ newKey m' ∧ newKey m ≠ oldKey m' ∧ mv_id m ≠ mv_id m'.

Lemma apply_move_names (db db' : DB) (m : smove) : apply_move db m = Ok db' → moved_names db db' [m].
Proof.
  unfold apply_move. intros H. apply bind_ok in H as (keys & Hk%of_option_ok & H). apply bind_ok in H as (blob & Hb%of_res_ok & H).
  apply bind_ok in H as (entries & He%of_option_ok & H). injection H as <-. cbn. split; cbn [set_id2entry set_dn2id dn2id id2entry children postings]; try done.
  - apply (Put_Sequence _ _ _ _ He).
  - intros k id. rewrite (Put_Get _ _ _ _ k Hk), Remove_Get. cbn. case_bool_decide as E1.
    + subst k. split; [intros [= <-]; left; exists m; split_and!; [left | done..]|].
      intros [(m' & ->%list_elem_of_singleton & _ & <-)|(_ & Hn & _)]; [done|]. exfalso. apply Hn. left.
    + case_bool_decide as E2.
      * subst k. split; [done|]. intros [(m' & ->%list_elem_of_singleton & ? & _)|(Hn & _)]; [done|]. exfalso. apply Hn. left.
      * split; [intros Hg; right; split_and!; [by intros ->%list_elem_of_singleton.. | done]|].
        intros [(m' & ->%list_elem_of_singleton & ? & _)|(_ & _ & ?)]; done.
  - intros m' ->%list_elem_of_singleton. unfold entryByID. cbn [id2entry set_id2entry]. rewrite (Put_Get _ _ _ _ _ He), bool_decide_true by done.
    by rewrite (stored_decodes _ _ _ _ _ Hb He).
  - intros id Hid. rewrite (Put_Get _ _ _ _ id He), bool_decide_false; [done|]. intros <-. apply Hid. left.
Qed.

Lemma apply_moves_names (ms : list smove) (db db' : DB) :
  StronglySorted clear ms → rfold apply_move db ms = Ok db' → moved_names db db' ms.
Proof.
  intros Hs. revert db. induction Hs as [|m ms Hs IH Hm]; intros db H; cbn [rfold] in H.
  - injection H as <-. split; try done.
    + intros k id. split; [intros; right; split_and!; [apply not_elem_of_nil.. | done]|].
      intros [(m & Hm & _)|(_ & _ & ?)]; [by apply not_elem_of_nil in Hm | done].
    + intros m Hm. by apply not_elem_of_nil in Hm.
  - apply bind_ok in H as (db1 & [C1 P1 S1 K1 E1 O1]%apply_move_names & [C2 P2 S2 K2 E2 O2]%IH).
    rewrite Forall_forall in Hm.
    assert (Hnew : newKey m ∉ (newKey <$> ms)) by (intros (m' & E & Hin)%list_elem_of_fmap; by destruct (Hm m' Hin) as (? & _ & _)).
    assert (Hold : newKey m ∉ (oldKey <$> ms)) by (intros (m' & E & Hin)%list_elem_of_fmap; by destruct (Hm m' Hin) as (_ & ? & _)).
    assert (Hid : mv_id m ∉ (mv_id <$> ms)) by (intros (m' & E & Hin)%list_elem_of_fmap; by destruct (Hm m' Hin) as (_ & _ & ?)).
    split; try congruence.
    + intros k id. rewrite K2, K1. cbn [fmap list_fmap]. rewrite !not_elem_of_cons. split.
      * intros [(m' & Hin & ? & ?)|(Ho & Hn & [(m' & ->%list_elem_of_singleton & ? & ?)|(Ho' & Hn' & ?)])].
        -- left. exists m'. split_and!; [by right | done..].
        -- left. exists m. split_and!; [left | done..].
        -- right. destruct Ho' as [? _], Hn' as [? _]. done.
      * intros [(m' & [->|Hin]%elem_of_cons & <- & <-)|([? ?] & [? ?] & ?)].
        -- right. split_and!; [done..|]. left. exists m. split_and!; [left | done..].
        -- left. by exists m'.
        -- right. split_and!; [done..|]. right. split_and!; [done | apply not_elem_of_nil | done | apply not_elem_of_nil | done].
    + intros m' [->|Hin]%elem_of_cons; [|by apply E2]. unfold entryByID. rewrite O2 by done. apply (E1 m). left.
    + intros id Hni. cbn [fmap list_fmap] in Hni. apply not_elem_of_cons in Hni as [? ?]. rewrite O2 by done. apply O1.
      by intros ->%list_elem_of_singleton.
Qed.

(** * The children buckets *)

Definition step_key (q : bytes) (m : smove) : bytes := if bool_decide (q = oldKey m) then newKey m else q.

Definition rho (ms : list smove) (q : bytes) : bytes := foldl step_key q ms.

Lemma merge_children (ids : list bytes) (b b' : Bucket) :
  rfold (λ b id, of_option (Put b id [])) b ids = Ok b' → ∀ id, is_Some (Get b' id) ↔ is_Some (Get b id) ∨ id ∈ ids.
Proof.
  revert b. induction ids as [|i ids IH]; intros b H id; cbn [rfold] in H.
  - injection H as <-. split; [by left|]. intros [?|Hn]; [done | by apply not_elem_of_nil in Hn].
  - apply bind_ok in H as (b1 & Hp%of_option_ok & H). rewrite (IH _ H id), (Put_Get _ _ _ _ id Hp), elem_of_cons.
    case_bool_decide; [subst; split; [intros _; right; by left | intros _; left; by eexists] | naive_solver].
Qed.

Lemma move_children_spec (db db' : DB) (m : smove) :
  move_children db m = Ok db' →
  same_but_children db db' ∧ ∀ p id, child db' p id ↔ ∃ q, child db q id ∧ p = step_key q m.
Proof.
  unfold move_children, step_key. destruct (beq (newKey m) (oldKey m)) eqn:E; bprop.
  { intros [= <-]. split; [done|]. intros p id. split.
    - intros H. exists p. split; [done|]. case_bool_decide; congruence.
    - intros (q & H & ->). case_bool_decide as Eq; [|done]. congruence. }
  destruct (children db !! oldKey m) as [src|] eqn:Es.
  - intros H. apply bind_ok in H as (dst & Hd & H). apply bind_ok in H as (dst' & Hm & H). injection H as <-. split; [done|].
    pose proof (child_bucket_spec _ _ _ Hd) as Hdst. pose proof (merge_children _ _ _ Hm) as Hdst'.
    intros p id. unfold child at 1. cbn [set_children children].
    assert (Hsrc : id ∈ (Items src).*1 ↔ child db (oldKey m) id).
    { rewrite <- child_ids_elem. unfold child_ids. by rewrite Es. }
    destruct (decide (p = oldKey m)) as [->|Hp]; [|destruct (decide (p = newKey m)) as [->|Hn]].
    + rewrite lookup_delete_eq. split; [by intros (? & ? & _)|]. intros (q & _ & Hq). case_bool_decide; congruence.
    + rewrite lookup_delete_ne, lookup_insert_eq by done. split.
      * intros (b & [= <-] & [Hg%Hdst|Hin%Hsrc]%Hdst'); [exists (newKey m) | exists (oldKey m)]; (split; [done|]);
          case_bool_decide; congruence.
      * intros (q & Hc & Hq). exists dst'. split; [done|]. apply Hdst'. case_bool_decide as Eq.
        -- subst q. right. by apply Hsrc.
        -- subst q. left. by apply Hdst.
    + rewrite lookup_delete_ne, lookup_insert_ne by done. fold (child db p id). split.
      * intros Hc. exists p. split; [done|]. by rewrite bool_decide_false.
      * intros (q & Hc & Hq). case_bool_decide; congruence.
  - intros [= <-]. split; [done|]. assert (Hno : ∀ id, ¬ child db (oldKey m) id).
    { intros id (b & Hb & _). congruence. }
    intros p id. split.
    + intros Hc. exists p. split; [done|]. rewrite bool_decide_false; [done|]. intros ->. by eapply Hno.
    + intros (q & Hc & ->). case_bool_decide as Eq; [subst q; by apply Hno in Hc | done].
Qed.

Lemma move_all_children (ms : list smove) (db db' : DB) :
  rfold move_children db ms = Ok db' →
  same_but_children db db' ∧ ∀ p id, child db' p id ↔ ∃ q, child db q id ∧ p = rho ms q.
Proof.
  revert db. induction ms as [|m ms IH]; intros db H; cbn [rfold] in H.
  - injection H as <-. split; [done|]. intros p id. cbn. naive_solver.
  - apply bind_ok in H as (db1 & [[A1 A2 A3] C1]%move_children_spec & [[B1 B2 B3] C2]%IH). split; [split; congruence|].
    intros p id. rewrite C2. setoid_rewrite C1. cbn [rho foldl]. naive_solver.
Qed.

(** * Composite keys *)

Lemma clear_sorted (ms : list smove) :
  (∀ m m', m ∈ ms → m' ∈ ms → oldKey m ≠ oldKey m' → clear m m') → NoDup (oldKey <$> ms) → StronglySorted clear ms.
Proof.
  induction ms as [|m ms IH]; intros H Hd; [constructor|]. cbn [fmap list_fmap] in Hd. apply NoDup_cons in Hd as [Hm Hd].
  constructor; [apply IH; [|done]; intros; apply H; by try right|].
  apply Forall_forall. intros m' Hin. apply H; [left | by right|]. intros E. apply Hm. rewrite E. by apply list_elem_of_fmap_2.
Qed.

Lemma rho_other (ms : list smove) (q : bytes) : q ∉ oldKey <$> ms → rho ms q = q.
Proof.
  induction ms as [|m ms IH]; [done|]. cbn [fmap list_fmap]. intros [Hm Hq]%not_elem_of_cons. cbn [rho foldl].
  unfold step_key at 2. rewrite bool_decide_false by done. by apply IH.
Qed.

Lemma rho_moved (ms : list smove) (m : smove) :
  StronglySorted clear ms → NoDup (oldKey <$> ms) → m ∈ ms → rho ms (oldKey m) = newKey m.
Proof.
  intros Hs. induction Hs as [|m0 ms Hs IH Hm0]; intros Hd Hin; [by apply not_elem_of_nil in Hin|].
  cbn [fmap list_fmap] in Hd. apply NoDup_cons in Hd as [Hn Hd]. cbn [rho foldl]. unfold step_key at 2.
  apply elem_of_cons in Hin as [->|Hin].
  - rewrite bool_decide_true by done. apply rho_other. intros (m' & E & Hin)%list_elem_of_fmap.
    rewrite Forall_forall in Hm0. by destruct (Hm0 m' Hin) as (_ & ? & _).
  - rewrite bool_decide_false; [by apply IH|]. intros E. apply Hn. rewrite <- E. by apply list_elem_of_fmap_2.
Qed.

(** * The rename *)

Lemma keys_in_attributes (name : bytes) (n : Z) (e e' : Entry) : Attributes e = Attributes e' → keys_in name n e = keys_in name n e'.
Proof. unfold keys_in. by intros ->. Qed.

Section result.
Variables (db : DB) (from to : DN).
Hypothesis Hok : store_ok db.
Hypothesis from_wf : wf_dn from.
Hypothesis to_wf : wf_dn to.
Hypothesis to_tab : no_tab_end to.
Hypothesis Hlinked : linked db from.

(** What [collectMoves] plans. *)
Record planned (ms : list smove) : Prop := {
  pl_move : ∀ m, m ∈ ms → ∃ n d nd, mv_id m = uint64Bytes n ∧ node db (oldKey m) n (mv_entry m) d ∧
    Rebase d from to = Some nd ∧ newKey m = FoldedKey nd ∧ newDN m = String nd;
  pl_all : ∀ k n e d, node db k n e d → moved from d → k ∈ oldKey <$> ms;
  pl_once : NoDup (oldKey <$> ms);
}.

Lemma plan_move_spec (x : bytes * bytes * Entry) (m : smove) n d :
  plan_move from to x = Ok m → node db x.1.1 n x.2 d →
  oldKey m = x.1.1 ∧ mv_id m = x.1.2 ∧ mv_entry m = x.2 ∧
  ∃ nd, Rebase d from to = Some nd ∧ newKey m = FoldedKey nd ∧ newDN m = String nd.
Proof.
  destruct x as [[k id] e]. cbn [fst snd plan_move]. intros H Hn. rewrite (node_name _ _ _ _ _ Hn) in H. cbn [of_res mbind res_bind] in H.
  destruct (Rebase d from to) as [nd|] eqn:E; cbn in H; [|done]. injection H as <-. split_and!; [done..|]. by exists nd.
Qed.

Lemma collectMoves_planned (root : Entry) (n : Z) (ms : list smove) :
  node db (FoldedKey from) n root (name_of root) → collectMoves db from to = Ok ms → planned ms.
Proof.
  intros Hroot. unfold collectMoves. destruct (reach_spec db Hok from root n) as (l & -> & Hp & Hall); [done..|].
  cbn [mbind res_bind]. intros Hm%rmap_ok. rewrite Forall_forall in Hall.
  assert (Hkeys : oldKey <$> ms = (λ x : bytes * bytes * Entry, x.1.1) <$> l).
  { clear Hp. induction Hm as [|x m l ms Hx Hm IH]; [done|]. cbn [fmap list_fmap]. destruct (Hall x ltac:(left)) as (n' & d & _ & Hn).
    destruct (plan_move_spec _ _ _ _ Hx Hn) as (-> & _). f_equal. apply IH. intros y Hy. apply Hall. by right. }
  split.
  - intros m Hin. apply list_elem_of_lookup in Hin as (i & Hi). destruct (Forall2_lookup_r _ _ _ _ _ Hm Hi) as (x & Hx & Hf).
    destruct (Hall x) as (n' & d & Hid & Hn); [by eapply list_elem_of_lookup_2|].
    destruct (plan_move_spec _ _ _ _ Hf Hn) as (-> & -> & -> & nd & ? & ? & ?). by exists n', d, nd.
  - intros k n' e d Hn Hmv. rewrite Hkeys.
    assert (Hin : e ∈ l.*2).
    { rewrite Hp, elem_of_cons. destruct Hmv as [Hf|Hu].
      - left. assert (k = FoldedKey from) as ->.
        { rewrite <- (node_folds _ _ _ _ _ Hn). apply FoldedKey_inj_aux; [by eapply node_wf | done..]. }
        by destruct (node_det _ _ _ _ _ _ _ _ Hok Hn Hroot) as (_ & -> & _).
      - right. apply below_of_elem; [done|]. by exists k, n', d. }
    apply list_elem_of_fmap in Hin as (x & -> & Hin). destruct (Hall x Hin) as (n2 & d2 & _ & Hn2).
    assert (k = x.1.1) as ->.
    { rewrite <- (node_folds _ _ _ _ _ Hn), <- (node_folds _ _ _ _ _ Hn2). by rewrite <- (node_name_of _ _ _ _ _ Hn), <- (node_name_of _ _ _ _ _ Hn2). }
    by apply (list_elem_of_fmap_2 (λ x : bytes * bytes * Entry, x.1.1)).
  - rewrite Hkeys. assert (Hd : NoDup l.*2) by (rewrite Hp; by eapply subtree_nodup).
    apply NoDup_fmap_2_strong; [|by eapply NoDup_fmap_1]. intros x y Hx Hy E.
    destruct (Hall x Hx) as (n1 & d1 & I1 & N1), (Hall y Hy) as (n2 & d2 & I2 & N2). cbn in E. rewrite <- E in N2.
    destruct (node_det _ _ _ _ _ _ _ _ Hok N1 N2) as (-> & E2 & _). destruct x as [[? ?] ?], y as [[? ?] ?]; cbn in *; congruence.
Qed.

(** The moves of a rename that goes ahead. *)
Variables (ms : list smove) (db1 db2 db' : DB) (root : Entry) (nr : Z).
Hypothesis Hroot : node db (FoldedKey from) nr root (name_of root).
Hypothesis Hpl : planned ms.
Hypothesis Hfree : ∀ m, m ∈ ms → newKey m = oldKey m ∨ Get (dn2id db) (newKey m) = None.
Hypothesis Hnames : rfold apply_move db ms = Ok db1.
Hypothesis Hkids : rfold move_children db1 ms = Ok db2.
Hypothesis Hlink : relinkRoot from to db2 = Ok db'.

Lemma same_name k n e d d' : node db k n e d → wf_dn d' → FoldedKey d' = k → fold_dn d = fold_dn d'.
Proof. intros Hn Hw Hk. apply key_fold; [by eapply node_wf | done|]. by rewrite (node_folds _ _ _ _ _ Hn). Qed.

Lemma moves_clear : StronglySorted clear ms.
Proof.
  apply clear_sorted; [|apply (pl_once _ Hpl)]. intros m m' Hm Hm' Hne.
  destruct (pl_move _ Hpl m Hm) as (n & d & nd & I & N & R & K & _), (pl_move _ Hpl m' Hm') as (n' & d' & nd' & I' & N' & R' & K' & _).
  pose proof (node_wf _ _ _ _ _ N) as W. pose proof (node_wf _ _ _ _ _ N') as W'. split_and!.
  - intros E. apply Hne. rewrite <- (node_folds _ _ _ _ _ N), <- (node_folds _ _ _ _ _ N'). apply key_fold; [done..|].
    apply (Rebase_fold from to from_wf d d' nd nd'); [done..|]. apply key_fold; [by apply (Rebase_wf from to from_wf to_wf d nd) | by apply (Rebase_wf from to from_wf to_wf d' nd') | congruence].
  - intros E. destruct (Hfree m Hm) as [E'|E']; [congruence|]. rewrite E, (node_key _ _ _ _ _ N') in E'. done.
  - intros E. apply Hne. rewrite I, I' in E. apply uint64Bytes_inj in E; [|by eapply node_range..]. subst n'.
    by destruct (node_inj _ _ _ _ _ _ _ _ N N').
Qed.

Lemma names_moved : moved_names db db1 ms.
Proof. apply apply_moves_names; [apply moves_clear | done]. Qed.

(** A node whose key is not planned keeps its place. *)
Lemma unplanned k n e d : node db k n e d → k ∉ oldKey <$> ms → (k ∉ newKey <$> ms) ∧ (uint64Bytes n ∉ mv_id <$> ms) ∧ Rebase d from to = None.
Proof.
  intros N Hk. split_and!.
  - intros (m & -> & Hm)%list_elem_of_fmap. destruct (Hfree m Hm) as [E|E]; [|by rewrite (node_key _ _ _ _ _ N) in E].
    apply Hk. rewrite E. by apply list_elem_of_fmap_2.
  - intros (m & E & Hm)%list_elem_of_fmap. destruct (pl_move _ Hpl m Hm) as (n' & d' & nd & I & N' & _). rewrite I in E.
    apply uint64Bytes_inj in E; [|by eapply node_range..]. subst n'. destruct (node_inj _ _ _ _ _ _ _ _ N N') as (-> & _).
    apply Hk. by apply list_elem_of_fmap_2.
  - apply Rebase_none; [done | by eapply node_wf|]. intros Hm. apply Hk. by eapply (pl_all _ Hpl).
Qed.

(** Planned or not, a key of the buckets before. *)
Lemma planned_or k n e d : node db k n e d →
  (∃ m nd, m ∈ ms ∧ k = oldKey m ∧ mv_id m = uint64Bytes n ∧ mv_entry m = e ∧ Rebase d from to = Some nd ∧ newKey m = FoldedKey nd ∧ newDN m = String nd) ∨
  (k ∉ oldKey <$> ms).
Proof.
  intros N. destruct (decide (k ∈ oldKey <$> ms)) as [(m & -> & Hm)%list_elem_of_fmap|]; [left | by right].
  destruct (pl_move _ Hpl m Hm) as (n' & d' & nd & I & N' & R & K & D). destruct (node_det _ _ _ _ _ _ _ _ Hok N N') as (<- & -> & <-).
  by exists m, nd.
Qed.

(** ** Nodes after the moves *)

Lemma node_forth k n e d : node db k n e d → node db1 (FoldedKey (relocate from to d)) n (relocate_entry from to d e) (relocate from to d).
Proof.
  intros N. destruct names_moved as [_ _ Hseq Hkey He Ho]. pose proof (node_wf _ _ _ _ _ N) as W. unfold relocate, relocate_entry.
  destruct (planned_or _ _ _ _ N) as [(m & nd & Hm & -> & I & <- & R & K & D)|Hk].
  - rewrite R. cbn [from_option id]. assert (Hw : wf_dn nd) by (by apply (Rebase_wf from to from_wf to_wf d nd)).
    assert (Ht : no_tab_end nd) by (apply (Rebase_tab from to from_wf d nd W); [apply (node_tab _ _ _ _ _ N) | done..]). split.
    + apply Hkey. left. by exists m.
    + rewrite Hseq. apply (node_id _ _ _ _ _ N).
    + rewrite <- I, He by done. unfold move_image. by rewrite D.
    + cbn. by apply ParseDN_String_aux.
    + done.
    + done.
  - destruct (unplanned _ _ _ _ N Hk) as (Hnk & Hid & ->). cbn [from_option id]. rewrite (node_folds _ _ _ _ _ N). destruct N as [K I E D F T]. split; try done.
    + apply Hkey. by right.
    + by rewrite Hseq.
    + unfold entryByID in *. by rewrite Ho.
Qed.

Lemma key_back k' id : Get (dn2id db1) k' = Some id →
  ∃ k n e d, id = uint64Bytes n ∧ node db k n e d ∧ k' = FoldedKey (relocate from to d).
Proof.
  intros H. apply (mn_key _ _ _ names_moved) in H as [(m & Hm & <- & <-)|(Hk & _ & H)].
  - destruct (pl_move _ Hpl m Hm) as (n & d & nd & I & N & R & K & _). exists (oldKey m), n, (mv_entry m), d.
    unfold relocate. by rewrite R.
  - destruct (so_node _ Hok _ _ H) as (n & e & d & -> & N). exists k', n, e, d. unfold relocate.
    destruct (unplanned _ _ _ _ N Hk) as (_ & _ & ->). split_and!; [done | done | symmetry; apply (node_folds _ _ _ _ _ N)].
Qed.

Lemma node_back k' n' e' d' : node db1 k' n' e' d' →
  ∃ k e d, node db k n' e d ∧ k' = FoldedKey (relocate from to d) ∧ e' = relocate_entry from to d e ∧ d' = relocate from to d.
Proof.
  intros N'. destruct (key_back _ _ (node_key _ _ _ _ _ N')) as (k & n & e & d & I & N & ->).
  assert (n' = n) as ->.
  { apply uint64Bytes_inj; [| by eapply node_range | done]. pose proof (node_id _ _ _ _ _ N').
    rewrite (mn_seq _ _ _ names_moved) in *. pose proof (so_seq _ Hok). lia. }
  pose proof (node_forth _ _ _ _ N) as N2. exists k, e, d. split; [done|]. split; [done|].
  pose proof (node_entry _ _ _ _ _ N') as E. rewrite (node_entry _ _ _ _ _ N2) in E. injection E as <-.
  pose proof (node_name _ _ _ _ _ N') as D. rewrite (node_name _ _ _ _ _ N2) in D. by injection D as <-.
Qed.

Lemma id_kept id : is_Some (Get (id2entry db1) id) → ∃ k, Get (dn2id db1) k = Some id.
Proof.
  intros H. assert (Hold : ∃ k, Get (dn2id db) k = Some id).
  { destruct (decide (id ∈ mv_id <$> ms)) as [(m & -> & Hm)%list_elem_of_fmap|Hid].
    - destruct (pl_move _ Hpl m Hm) as (n & d & nd & -> & N & _). exists (oldKey m). apply (node_key _ _ _ _ _ N).
    - apply (so_id _ Hok). by rewrite (mn_other _ _ _ names_moved _ Hid) in H. }
  destruct Hold as (k & Hk). destruct (so_node _ Hok _ _ Hk) as (n & e & d & -> & N).
  eexists. apply (node_key _ _ _ _ _ (node_forth _ _ _ _ N)).
Qed.

(** ** Children after the moves *)

Lemma rho_parent k n e d p : node db k n e d → n ≠ nr → Parent d = Some p →
  parent_key (relocate from to d) = Some (rho ms (FoldedKey p)).
Proof.
  intros N Hne Hp. pose proof (node_wf _ _ _ _ _ N) as W. pose proof (parent_wf _ _ W Hp) as Wp. unfold relocate.
  destruct (planned_or _ _ _ _ N) as [(m & nd & Hm & -> & I & <- & R & K & D)|Hk].
  - rewrite R. cbn [from_option id]. assert (Hu : under from d = true).
    { assert (Hmv : moved from d) by (apply (Rebase_moved from to from_wf d W); by rewrite R). destruct Hmv as [Hf|]; [|done].
      exfalso. apply Hne. assert (E : oldKey m = FoldedKey from) by (rewrite <- (node_folds _ _ _ _ _ N); by apply key_fold).
      rewrite E in N. by destruct (node_det _ _ _ _ _ _ _ _ Hok N Hroot). }
    destruct (Rebase_parent from to from_wf to_wf d nd p) as (np & Rp & Pp); [done..|]. unfold parent_key. rewrite Pp. cbn. f_equal.
    destruct (Hlinked _ _ _ _ _ N Hu Hp) as [ep Hep]. apply node_contents in Hep as (n0 & d0 & N0); [|done].
    pose proof (node_wf _ _ _ _ _ N0) as W0. pose proof (same_name _ _ _ _ _ N0 Wp eq_refl) as F0.
    destruct (planned_or _ _ _ _ N0) as [(m0 & nd0 & Hm0 & E0 & _ & _ & R0 & K0 & _)|Hk0].
    + rewrite E0, rho_moved; [|apply moves_clear | apply (pl_once _ Hpl) | done]. rewrite K0.
      apply key_fold; [by apply (Rebase_wf from to from_wf to_wf p np) | by apply (Rebase_wf from to from_wf to_wf d0 nd0)|].
      by apply (Rebase_fold from to from_wf p d0 np nd0).
    + exfalso. apply Hk0. apply (pl_all _ Hpl _ _ _ _ N0).
      assert (Hmp : moved from p) by (by eapply moved_parent). apply (Rebase_moved from to from_wf d0 W0).
      destruct Hmp as [Hf|Hup]; (apply (Rebase_moved from to from_wf d0 W0)); [left; congruence | right; by rewrite (under_fold from from d0 p)].
  - destruct (unplanned _ _ _ _ N Hk) as (_ & _ & R). rewrite R. cbn [from_option id]. unfold parent_key. rewrite Hp. cbn. f_equal. symmetry.
    apply rho_other. intros (m & E & Hm)%list_elem_of_fmap.
    destruct (pl_move _ Hpl m Hm) as (n0 & d0 & nd0 & _ & N0 & R0 & _). rewrite <- E in N0.
    pose proof (same_name _ _ _ _ _ N0 Wp eq_refl) as F0. pose proof (node_wf _ _ _ _ _ N0) as W0.
    assert (Hm0 : moved from d0) by (apply (Rebase_moved from to from_wf d0 W0); by rewrite R0).
    assert (Hmp : moved from p) by (destruct Hm0 as [Hf|Hu]; [left; congruence | right; by rewrite (under_fold from from p d0)]).
    assert (Hmd : is_Some (Rebase d from to)) by (apply (Rebase_moved from to from_wf d W); right; by eapply moved_below).
    rewrite R in Hmd. by destruct Hmd.
Qed.

Lemma root_name : fold_dn (name_of root) = fold_dn from.
Proof. exact (same_name _ _ _ _ from Hroot from_wf eq_refl). Qed.

Lemma relocate_root : relocate from to (name_of root) = to.
Proof. unfold relocate. by rewrite (Rebase_root from to from_wf to_wf (name_of root) (node_wf _ _ _ _ _ Hroot) root_name). Qed.

(** The key of the parent of the moved entry is not a moved one. *)
Lemma root_parent_key q : parent_key (name_of root) = Some q → rho ms q = q.
Proof.
  intros Hq. apply rho_other. intros (m & -> & Hm)%list_elem_of_fmap.
  destruct (pl_move _ Hpl m Hm) as (n0 & d0 & nd0 & _ & N0 & R0 & _). pose proof (node_wf _ _ _ _ _ N0) as W0.
  pose proof (node_wf _ _ _ _ _ Hroot) as Wr. unfold parent_key in Hq. apply fmap_Some in Hq as (p & Hp & Hkey).
  pose proof (parent_wf _ _ Wr Hp) as Wp. pose proof (same_name _ _ _ _ _ N0 Wp (eq_sym Hkey)) as F0.
  assert (Hm0 : moved from d0) by (apply (Rebase_moved from to from_wf d0 W0); by rewrite R0).
  assert (Hl : (length (rdns p) < length (rdns from))%nat).
  { rewrite <- (fold_length from), <- root_name, fold_length. unfold Parent in Hp. destruct (rdns (name_of root)) as [|r [|r' l]]; try done.
    injection Hp as <-. cbn. lia. }
  assert (Hl0 : length (rdns d0) = length (rdns p)) by (by rewrite <- (fold_length d0), F0, fold_length).
  destruct Hm0 as [Hf|Hu%under_shorter]; [|lia]. assert (length (rdns d0) = length (rdns from)) by (by rewrite <- (fold_length d0), Hf, fold_length). lia.
Qed.

Lemma child_was p n k e d : node db k n e d →
  child db2 p (uint64Bytes n) ↔ ∃ q, parent_key d = Some q ∧ p = rho ms q.
Proof.
  intros N. destruct (move_all_children _ _ _ Hkids) as (_ & C2). rewrite C2.
  assert (Hc : ∀ q, child db1 q (uint64Bytes n) ↔ parent_key d = Some q).
  { intros q. rewrite <- (node_child _ _ _ _ _ q Hok N). unfold child. by rewrite (mn_children _ _ _ names_moved). }
  setoid_rewrite Hc. done.
Qed.

Lemma linked_back : same_but_children db2 db' ∧
  ∀ p id, child db' p id ↔ (child db2 p id ∧ ¬ (parent_key from = Some p ∧ id = uint64Bytes nr)) ∨ (parent_key to = Some p ∧ id = uint64Bytes nr).
Proof.
  destruct (move_all_children _ _ _ Hkids) as ([A1 A2 A3] & _).
  pose proof (node_forth _ _ _ _ Hroot) as Nr. rewrite relocate_root in Nr. pose proof Hlink as H.
  unfold relinkRoot in H. rewrite A1, (node_key _ _ _ _ _ Nr) in H.
  assert (from_tab : no_tab_end from).
  { apply (same_key_tab (name_of root)); [by apply (node_wf _ _ _ _ _ Hroot) | done | apply (node_folds _ _ _ _ _ Hroot) | apply (node_tab _ _ _ _ _ Hroot)]. }
  destruct (unlinkChild_spec from (uint64Bytes nr) db2 from_wf from_tab) as ([B1 B2 B3] & CU).
  apply linkChild_spec in H as ([D1 D2 D3] & CL); [|done..]. split; [split; congruence|]. intros p id. by rewrite CL, CU.
Qed.

Lemma renamed_child (p id : bytes) : child db' p id ↔ ∃ k n e d, id = uint64Bytes n ∧ node db1 k n e d ∧ parent_key d = Some p.
Proof.
  destruct linked_back as (_ & CL). rewrite CL.
  assert (Hroots : parent_key from = parent_key (name_of root)).
  { apply same_key_parent; [done | by apply (node_wf _ _ _ _ _ Hroot) | symmetry; apply (node_folds _ _ _ _ _ Hroot)]. }
  assert (Hid : ∀ k n e d, node db k n e d → uint64Bytes n = uint64Bytes nr → n = nr).
  { intros k n e d N E. apply uint64Bytes_inj in E; [done | by eapply node_range..]. }
  split.
  - intros [[Hc Hn]|[Hp ->]].
    + destruct (move_all_children _ _ _ Hkids) as (_ & C2). pose proof Hc as (q & Hq & _)%C2.
      assert (Hq' : child db q id) by (unfold child in *; by rewrite <- (mn_children _ _ _ names_moved)).
      apply (so_child _ Hok) in Hq' as (k & n & e & d & -> & N & _). apply (child_was p _ _ _ _ N) in Hc as (q' & Hd & ->).
      exists (FoldedKey (relocate from to d)), n, (relocate_entry from to d e), (relocate from to d).
      split_and!; [done | by apply (node_forth k)|]. unfold parent_key in Hd. apply fmap_Some in Hd as (pd & Hpd & ->).
      destruct (decide (n = nr)) as [->|Hne]; [|by eapply (rho_parent k)].
      exfalso. apply Hn. split; [|done]. destruct (node_inj _ _ _ _ _ _ _ _ N Hroot) as (_ & _ & ->). rewrite Hroots.
      assert (Hk : parent_key (name_of root) = Some (FoldedKey pd)) by (unfold parent_key; by rewrite Hpd).
      rewrite Hk. by rewrite root_parent_key.
    + exists (FoldedKey to), nr, (relocate_entry from to (name_of root) root), to. split_and!; [done | | done].
      pose proof (node_forth _ _ _ _ Hroot) as Nr. by rewrite relocate_root in Nr.
  - intros (k' & n & e' & d' & -> & (k & e & d & N & -> & -> & ->)%node_back & Hp).
    destruct (decide (n = nr)) as [->|Hne].
    + right. destruct (node_inj _ _ _ _ _ _ _ _ N Hroot) as (_ & _ & ->). by rewrite relocate_root in Hp.
    + left. split; [|intros [_ E]; by eapply Hne, Hid]. apply (child_was p _ _ _ _ N).
      destruct (Parent d) as [pd|] eqn:Epd.
      * rewrite (rho_parent _ _ _ _ pd N Hne Epd) in Hp. injection Hp as <-. exists (FoldedKey pd). unfold parent_key. by rewrite Epd.
      * exfalso. unfold relocate in Hp. destruct (Rebase d from to) as [nd|] eqn:R; cbn [from_option id] in Hp; [|unfold parent_key in Hp; by rewrite Epd in Hp].
        assert (Hm : moved from d) by (apply (Rebase_moved from to from_wf d (node_wf _ _ _ _ _ N)); by rewrite R).
        destruct Hm as [Hf|Hu%under_shorter].
        -- apply Hne. assert (E : k = FoldedKey from) by (rewrite <- (node_folds _ _ _ _ _ N); apply key_fold; [by eapply node_wf | done..]).
           rewrite E in N. by destruct (node_det _ _ _ _ _ _ _ _ Hok N Hroot).
        -- destruct from_wf as [Hl _]. destruct d as [[|r [|r' l]]]; cbn in Hu, Epd; [lia | destruct (rdns from); [done | cbn in Hu; lia] | done].
Qed.

Lemma renamed_ok : store_ok db'.
Proof.
  destruct linked_back as ([B1 B2 B3] & _), (move_all_children _ _ _ Hkids) as ([A1 A2 A3] & _).
  assert (E1 : dn2id db' = dn2id db1) by congruence. assert (E2 : id2entry db' = id2entry db1) by congruence.
  assert (E3 : postings db' = postings db) by (rewrite <- (mn_postings _ _ _ names_moved); congruence).
  assert (Hn : ∀ k n e d, node db' k n e d ↔ node db1 k n e d) by (intros; by apply node_ext). split.
  - rewrite E2, (mn_seq _ _ _ names_moved). apply (so_seq _ Hok).
  - intros k id Hk. rewrite E1 in Hk. destruct (key_back _ _ Hk) as (k0 & n & e & d & -> & N & ->).
    exists n, (relocate_entry from to d e), (relocate from to d). split; [done|]. by apply Hn, (node_forth k0).
  - intros id Hid. rewrite E2 in Hid. rewrite E1. by apply id_kept.
  - intros p id. rewrite renamed_child. by setoid_rewrite Hn.
  - intros name Hname. rewrite E3. by apply (so_buckets _ Hok).
  - intros name key Hname. unfold posted. rewrite E3. fold (posted db name key). rewrite (so_posted _ Hok) by done. split.
    + intros (k & n & e & d & N & Hk). exists (FoldedKey (relocate from to d)), n, (relocate_entry from to d e), (relocate from to d).
      split; [by apply Hn, (node_forth k)|]. by rewrite (keys_in_attributes _ _ _ e) by apply relocate_attributes.
    + intros (k' & n & e' & d' & (k & e & d & N & -> & -> & ->)%Hn%node_back & Hk). exists k, n, e, d. split; [done|].
      by rewrite (keys_in_attributes _ _ _ e) in Hk by apply relocate_attributes.
Qed.

Lemma renamed_contents k' e' : contents db' !! k' = Some e' ↔
  ∃ k e d, contents db !! k = Some e ∧ ParseDN (EDN e) = Ok d ∧ k' = FoldedKey (relocate from to d) ∧ e' = relocate_entry from to d e.
Proof.
  destruct linked_back as ([B1 B2 B3] & _), (move_all_children _ _ _ Hkids) as ([A1 A2 A3] & _).
  assert (Hn : ∀ k n e d, node db' k n e d ↔ node db1 k n e d) by (intros; apply node_ext; congruence).
  rewrite (node_contents _ _ _ renamed_ok). setoid_rewrite Hn. split.
  - intros (n & d' & (k & e & d & N & -> & -> & ->)%node_back). exists k, e, d. split_and!; [| apply (node_name _ _ _ _ _ N) | done..].
    apply node_contents; [done|]. by exists n, d.
  - intros (k & e & d & (n & d0 & N)%node_contents & D & -> & ->); [|done]. rewrite (node_name _ _ _ _ _ N) in D. injection D as ->.
    exists n, (relocate from to d). by apply (node_forth k).
Qed.
End result.

(** [updateTx.Rename] of a name whose subtree hangs together. *)
Lemma store_Rename_aux (ctx : nat → bool) (db db' : DB) (from to : DN) :
  store_ok db → wf_dn from → wf_dn to → no_tab_end to → rooted (contents db) from → store_Rename ctx db from to = Ok db' →
  is_Some (contents db !! FoldedKey from) ∧ (FoldedKey to = FoldedKey from ∨ contents db !! FoldedKey to = None) ∧
  store_ok db' ∧ renamed from to (contents db) (contents db').
Proof.
  intros Hok Hw Hwt Ht Hroots H. assert (Hl : linked db from) by by apply rooted_linked.
  unfold store_Rename in H. apply bind_ok in H as ([] & _ & H).
  destruct (Get (dn2id db) (FoldedKey from)) as [id|] eqn:Ek; [|done].
  destruct (so_node _ Hok _ _ Ek) as (nr & root & dr & -> & N).
  destruct (negb _ && _) eqn:Et; [done|]. apply bind_ok in H as (ms & Hms & H). apply bind_ok in H as ([] & Hf & H).
  apply bind_ok in H as (db1 & H1 & H). apply bind_ok in H as (db2 & H2 & H3).
  assert (Hroot : node db (FoldedKey from) nr root (name_of root)) by (by rewrite (node_name_of _ _ _ _ _ N)).
  assert (Hpl : planned db from to ms) by (by eapply collectMoves_planned).
  assert (Hfree : ∀ m, m ∈ ms → newKey m = oldKey m ∨ Get (dn2id db) (newKey m) = None).
  { intros m Hm. unfold ensure in Hf. destruct (existsb _ ms) eqn:E; cbn in Hf; [done|].
    destruct (decide (newKey m = oldKey m)) as [|Hne]; [by left | right]. apply eq_None_not_Some. intros Hs.
    rewrite <- not_true_iff_false in E. apply E, existsb_exists. exists m. split; [by apply list_elem_of_In|].
    unfold beq. rewrite bool_decide_false, bool_decide_true by done. done. }
  split_and!.
  - exists root. apply node_contents; [done|]. by exists nr, (name_of root).
  - destruct (decide (FoldedKey to = FoldedKey from)) as [|Hne]; [by left | right]. apply contents_none; [done|].
    unfold beq in Et. rewrite bool_decide_false in Et by done. cbn [negb andb] in Et. apply bool_decide_eq_false in Et. by apply eq_None_not_Some.
  - by eapply (renamed_ok db from to).
  - intros k' e'. by eapply (renamed_contents db from to).
Qed.
End rename.
