(* ===== verification/StoreRefine.v ===== *)
(** The persistent store implements a directory: a map from folded names to entries.

    [dir_Entry], [dir_Add], [dir_Replace] and [dir_Delete] are what the seam of
    [src/internal/ldapserver/store.go] promises; [store_refines] says that the
    operations over the buckets compute them, and fail otherwise only for a
    cancelled context or an entry the key-value library does not take.  The write
    handlers, proved against the laws of the seam, therefore keep the buckets
    consistent; a database that is opened, or migrated, starts consistent. *)

From S2P Require Import Prelude GoStrings GoText DN DNFacts Message RenameFacts Ber StoreCodec Attr Schema Matching FilterEval StoreIface Bolt Aci Server PagingFacts Write Search SearchFacts FakeStore WriteOps WriteFacts Store StoreWrite StoreFacts StoreWalk StoreRename.
Local Open Scope Z_scope.

(** * The directory *)

Abbreviation Directory := (gmap bytes Entry).

Section directory.
Context {U : Unicode}.

Definition dir_Entry (m : Directory) (d : DN) : res store_err Entry :=
  match m !! FoldedKey d with
  | Some e => Ok e
  | None => Err ErrNoSuchObject
  end.

Definition dir_stored (e : Entry) (d : DN) : Entry := MkEntry (String d) (Attributes e).

Definition dir_Add (m : Directory) (e : Entry) : res store_err Directory :=
  d ← of_res (ParseDN (EDN e));
  match m !! FoldedKey d with
  | Some _ => Err ErrEntryExists
  | None => Ok (<[FoldedKey d := dir_stored e d]> m)
  end.

Definition dir_Replace (m : Directory) (e : Entry) : res store_err Directory :=
  d ← of_res (ParseDN (EDN e));
  match m !! FoldedKey d with
  | None => Err ErrNoSuchObject
  | Some _ => Ok (<[FoldedKey d := dir_stored e d]> m)
  end.

(** Whether [e] is named directly below [key]. *)
Definition below (key : bytes) (e : Entry) : bool :=
  match ParseDN (EDN e) with
  | Ok d => bool_decide (parent_key d = Some key)
  | Err _ => false
  end.

Definition dir_Delete (m : Directory) (d : DN) : res store_err Directory :=
  match m !! FoldedKey d with
  | None => Err ErrNoSuchObject
  | Some _ =>
    if existsb (λ p, below (FoldedKey d) p.2) (map_to_list m) then Err ErrNotLeaf
    else Ok (delete (FoldedKey d) m)
  end.

Lemma below_spec (m : Directory) (key : bytes) :
  existsb (λ p, below key p.2) (map_to_list m) = true ↔
  ∃ k e d, m !! k = Some e ∧ ParseDN (EDN e) = Ok d ∧ parent_key d = Some key.
Proof.
  rewrite existsb_exists. split.
  - intros ([k e] & Hin%list_elem_of_In%elem_of_map_to_list & H). unfold below in H. cbn [snd] in H.
    destruct (ParseDN (EDN e)) as [d|] eqn:E; [|done]. bprop. by exists k, e, d.
  - intros (k & e & d & Hk & Hd & Hp). exists (k, e). split; [by apply list_elem_of_In, elem_of_map_to_list|].
    unfold below. cbn [snd]. rewrite Hd. by apply bool_decide_true.
Qed.
End directory.

(** * What the library takes *)

Section refine.
Context {U : Unicode} {UL : UnicodeLaws U} {US : UnicodeSpaces U} {BL : BoltLib} {BLL : BoltLaws BL}.

(** The entry encodes within the limit of values, its posting keys are within the
    limit of keys. *)
Definition storable (e : Entry) : Prop :=
  (∃ blob, encodeEntry e = Ok blob ∧ blen blob ≤ MaxValueSize) ∧
  ∀ name n key, key ∈ keys_in name n e → blen key ≤ MaxKeySize.

(** There is room for one more name. *)
Definition addable (db : DB) (d : DN) : Prop := Sequence (id2entry db) + 1 < 2^64 ∧ blen (FoldedKey d) ≤ MaxKeySize.

Lemma postingKey_nonempty (norm : bytes) (n : Z) : postingKey norm n ≠ [].
Proof. unfold postingKey. by destruct norm. Qed.

Lemma pass_total (apply : Bucket → bytes → option Bucket) (f : bytes → bytes) (vs : list bytes) (b : Bucket) :
  (∀ b v, v ∈ vs → is_Some (apply b (f v))) → ∃ b', rfold (λ b v, of_option (apply b (f v))) b vs = Ok b'.
Proof.
  revert b. induction vs as [|v vs IH]; intros b H; cbn [rfold]; [by eexists|].
  destruct (H b v ltac:(left)) as [b1 ->]. cbn [of_option mbind res_bind]. apply IH. intros b2 w Hw. apply H. by right.
Qed.

Lemma spec_of_bucket (name : bytes) (s : indexedAttribute) : spec_of name = Some s → ia_bucket s ∈ index_buckets.
Proof.
  unfold spec_of, index_buckets. intros H. apply list_elem_of_fmap.
  assert (Hin : ∃ k, (k, s) ∈ indexedAttributes); [|destruct Hin as [k Hin]; by exists (k, s)].
  revert H. generalize (AttrTypeKey (Some (registry_schema standard_registry)) name). intros k.
  induction indexedAttributes as [|[k' s'] l IH]; cbn; [done|]. destruct (beq _ _).
  - intros [= ->]. exists k'. left.
  - intros [k2 Hk2]%IH. exists k2. by right.
Qed.

Lemma reindex_total (apply : Bucket → bytes → option Bucket) (n : Z) (e : Entry) (db : DB) :
  (∀ name, name ∈ index_buckets → is_Some (postings db !! name)) →
  (∀ b name key, key ∈ keys_in name n e → is_Some (apply b key)) → ∃ db', reindex n e apply db = Ok db'.
Proof.
  unfold reindex, keys_in. revert db. induction (Attributes e) as [|a l IH]; intros db Hb Ha; cbn [rfold]; [by eexists|].
  cbn [fmap list_fmap concat] in Ha.
  assert (H1 : ∃ db1, reindex_attr n apply db a = Ok db1 ∧ ∀ name, is_Some (postings db !! name) → is_Some (postings db1 !! name)).
  { unfold reindex_attr. rewrite indexSpecFor_ok. cbn [mbind res_bind]. destruct (spec_of (Name a)) as [s|] eqn:Es; [|by eexists].
    destruct (Hb (ia_bucket s) (spec_of_bucket _ _ Es)) as [b Hbs]. rewrite Hbs.
    destruct (pass_total apply (λ v, postingKey (normalizeIndexKey s v) n) (AttrValues a) b) as [b' ->].
    { intros b0 v Hv. apply (Ha b0 (ia_bucket s)). apply elem_of_app. left. unfold attr_keys. rewrite Es, beq_refl.
      apply list_elem_of_fmap. by exists v. }
    cbn [mbind res_bind]. eexists. split; [done|]. intros name Hn. cbn [set_postings postings].
    destruct (decide (ia_bucket s = name)) as [<-|]; [rewrite lookup_insert_eq; by eexists | by rewrite lookup_insert_ne]. }
  destruct H1 as (db1 & -> & Hb1). cbn [mbind res_bind]. apply IH; [auto|].
  intros b name key Hk. apply (Ha b name). apply elem_of_app. by right.
Qed.

Lemma RemovePostings_total (n : Z) (e : Entry) (db : DB) :
  (∀ name, name ∈ index_buckets → is_Some (postings db !! name)) → ∃ db', RemovePostings n e db = Ok db'.
Proof. intros Hb. apply reindex_total; [done|]. intros. by eexists. Qed.

Lemma AddPostings_total (n : Z) (e : Entry) (db : DB) :
  (∀ name, name ∈ index_buckets → is_Some (postings db !! name)) →
  (∀ name n key, key ∈ keys_in name n e → blen key ≤ MaxKeySize) → ∃ db', AddPostings n e db = Ok db'.
Proof.
  intros Hb Hk. apply reindex_total; [done|]. intros b name key Hin. apply Put_accepts.
  - apply keys_in_id in Hin as [norm ->]. apply postingKey_nonempty.
  - by eapply Hk.
  - done.
Qed.

Lemma uint64Bytes_fits (n : Z) : uint64Bytes n ≠ [] ∧ blen (uint64Bytes n) ≤ MaxKeySize.
Proof. done. Qed.
Lemma FoldedKey_nonempty (d : DN) : wf_dn d → FoldedKey d ≠ [].
Proof. intros [Hne _]. rewrite FoldedKey_String. apply String_nonempty. cbn. by destruct (rdns d). Qed.

Lemma parent_key_shorter (d : DN) (p : bytes) : parent_key d = Some p → blen p ≤ blen (FoldedKey d).
Proof.
  unfold parent_key. intros (q & Hq & ->)%fmap_Some. apply child_key in Hq as [pre ->]. unfold blen. rewrite !length_app. lia.
Qed.

Lemma parent_key_nonempty (d : DN) (p : bytes) : wf_dn d → parent_key d = Some p → p ≠ [].
Proof.
  unfold parent_key. intros [Hne Hf] (q & Hq & ->)%fmap_Some. apply FoldedKey_nonempty.
  destruct d as [[|r [|r' l]]]; try done. cbn in Hq. injection Hq as <-. split; [done|]. by inversion Hf.
Qed.

Lemma linkChild_total (d : DN) (n : Z) (db : DB) :
  wf_dn d → no_tab_end d → blen (FoldedKey d) ≤ MaxKeySize → ∃ db', linkChild d (uint64Bytes n) db = Ok db'.
Proof.
  intros Hw Ht Hl. unfold linkChild. rewrite parentFoldedKey_Parent by done. destruct (parent_key d) as [p|] eqn:Ep; [|by eexists].
  destruct (child_bucket db p) as [kids|] eqn:Ek.
  - cbn [mbind res_bind]. destruct (uint64Bytes_fits n) as [H1 H2]. destruct (Put_accepts kids (uint64Bytes n) [] H1 H2) as [b ->]; [done|].
    cbn [of_option mbind res_bind]. by eexists.
  - unfold child_bucket in Ek. destruct (children db !! p); [done|]. rewrite NameOk_accepts in Ek; [done | by eapply parent_key_nonempty |].
    apply parent_key_shorter in Ep. lia.
Qed.

Variable ctx : nat → bool.

Lemma store_Add_total (db : DB) (e : Entry) (d : DN) :
  store_ok db → ctx 0%nat = false → ParseDN (EDN e) = Ok d → no_tab_end d → contents db !! FoldedKey d = None →
  addable db d → storable (dir_stored e d) → ∃ db', store_Add ctx db e = Ok db'.
Proof.
  intros Hok Hc Hd Ht Hk [Hseq Hlen] [(blob & Hb & Hbl) Hkeys]. pose proof (ParseDN_wf_aux _ _ Hd) as Hw.
  unfold store_Add, alive. rewrite Hc, Hd. cbn [negb ensure of_res mbind res_bind]. cbv zeta.
  apply contents_none in Hk; [|done]. rewrite Hk. destruct (Next_accepts _ Hseq) as [[n seq] Hn]. rewrite Hn.
  cbn [of_option mbind res_bind]. fold (dir_stored e d). rewrite Hb. cbn [of_res mbind res_bind].
  destruct (Put_accepts (dn2id db) (FoldedKey d) (uint64Bytes n)) as [keys ->]; [by apply FoldedKey_nonempty | done | done |].
  cbn [of_option mbind res_bind]. destruct (uint64Bytes_fits n) as [H1 H2].
  destruct (Put_accepts seq (uint64Bytes n) blob H1 H2 Hbl) as [entries ->]. cbn [of_option mbind res_bind].
  destruct (linkChild_total d n (set_id2entry (set_dn2id db keys) entries) Hw Ht Hlen) as [db1 Hl]. rewrite Hl.
  cbn [mbind res_bind]. apply linkChild_spec in Hl as [[_ _ L] _]; [|done..].
  apply AddPostings_total; [|done]. intros name Hname. rewrite L. by apply (so_buckets _ Hok).
Qed.

Lemma found_old (db : DB) k n e d : node db k n e d → of_res (decodeEntry (default [] (Get (id2entry db) (uint64Bytes n)))) = Ok e.
Proof.
  intros H. pose proof (node_entry _ _ _ _ _ H) as E. unfold entryByID in E. by destruct (Get (id2entry db) (uint64Bytes n)).
Qed.

Lemma store_Replace_total (db : DB) (e : Entry) (d : DN) :
  store_ok db → ctx 0%nat = false → ParseDN (EDN e) = Ok d → is_Some (contents db !! FoldedKey d) →
  storable (dir_stored e d) → ∃ db', store_Replace ctx db e = Ok db'.
Proof.
  intros Hok Hc Hd [e0 Hk] [(blob & Hb & Hbl) Hkeys]. apply node_contents in Hk as (n & d0 & Hn); [|done].
  unfold store_Replace, alive. rewrite Hc, Hd. cbn [negb ensure of_res mbind res_bind]. cbv zeta.
  rewrite (node_key _ _ _ _ _ Hn), (found_old _ _ _ _ _ Hn). cbn [mbind res_bind]. fold (dir_stored e d). rewrite Hb.
  cbn [of_res mbind res_bind]. destruct (uint64Bytes_fits n) as [H1 H2].
  destruct (Put_accepts (id2entry db) (uint64Bytes n) blob H1 H2 Hbl) as [entries ->]. cbn [of_option mbind res_bind].
  unfold ReindexEntry. destruct (RemovePostings_total (idUint64 (uint64Bytes n)) e0 (set_id2entry db entries)) as [db1 Hr].
  { intros name Hname. by apply (so_buckets _ Hok). }
  rewrite Hr. cbn [mbind res_bind]. apply AddPostings_total; [|done]. apply RemovePostings_spec in Hr as [[_ _ _ _ Sb] _].
  intros name Hname. apply Sb. by apply (so_buckets _ Hok).
Qed.

(** Whether a stored entry has children is what the children index says. *)
Lemma leaf_iff (db : DB) (key : bytes) :
  store_ok db → (length (child_ids db key) =? 0)%nat = negb (existsb (λ p, below key p.2) (map_to_list (contents db))).
Proof.
  intros Hok. apply eq_true_iff_eq. rewrite negb_true_iff, <- not_true_iff_false, below_spec, Nat.eqb_eq. split.
  - intros Hl (k & e & d & (n & d' & Hn)%node_contents & Hd & Hp); [|done].
    rewrite (node_name _ _ _ _ _ Hn) in Hd. injection Hd as ->.
    apply (node_child _ _ _ _ _ _ Hok Hn), child_ids_elem in Hp. destruct (child_ids db key); [by apply elem_of_nil in Hp | done].
  - intros H. destruct (child_ids db key) as [|id l] eqn:E; [done|]. exfalso. apply H.
    assert (Hc : child db key id) by (apply child_ids_elem; rewrite E; left).
    apply (so_child _ Hok) in Hc as (k & n & e & d & _ & Hn & Hp). exists k, e, d. split_and!; [|apply Hn | done].
    apply node_contents; [done|]. by exists n, d.
Qed.

Lemma store_Delete_total (db : DB) (d : DN) :
  store_ok db → ctx 0%nat = false → is_Some (contents db !! FoldedKey d) → length (child_ids db (FoldedKey d)) = 0%nat →
  ∃ db', store_Delete ctx db d = Ok db'.
Proof.
  intros Hok Hc [e0 Hk] Hl. apply node_contents in Hk as (n & d0 & Hn); [|done].
  unfold store_Delete, alive. rewrite Hc. cbn [negb ensure mbind res_bind]. cbv zeta.
  rewrite (node_key _ _ _ _ _ Hn), Hl, (found_old _ _ _ _ _ Hn). cbn [Nat.eqb negb mbind res_bind].
  apply RemovePostings_total. intros name Hname. cbn [postings set_id2entry set_dn2id set_children].
  unfold unlinkChild. destruct (parentFoldedKey d) as [p|]; [destruct (children db !! p)|]; by apply (so_buckets _ Hok).
Qed.

(** * Refinement *)

(** [r] is what the directory operation [a] does, on a store left consistent; another
    failure is excused by [¬ fits]. *)
Definition implements (r : res store_err DB) (a : res store_err Directory) (fits : Prop) : Prop :=
  match r with
  | Ok db' => store_ok db' ∧ a = Ok (contents db')
  | Err (StoreFailure _) => ¬ fits
  | Err e => a = Err e
  end.

Lemma store_Entry_aux (db : DB) (d : DN) :
  store_ok db → ctx 0%nat = false → store_Entry ctx db d = dir_Entry (contents db) d.
Proof.
  intros Hok Hc. unfold store_Entry, alive, dir_Entry. rewrite Hc. cbn [negb ensure mbind res_bind].
  destruct (contents db !! FoldedKey d) as [e|] eqn:E.
  - apply node_contents in E as (n & d' & Hn); [|done]. by rewrite (node_key _ _ _ _ _ Hn), (node_entry _ _ _ _ _ Hn).
  - apply contents_none in E as ->; done.
Qed.

(** The errors that are not sentinels. *)
Definition failure (e : store_err) : Prop := ∃ why, e = StoreFailure why.

Lemma of_res_err {E A} (r : res E A) (e : store_err) : of_res r = Err e → failure e.
Proof. destruct r; [done|]. intros [= <-]. by eexists. Qed.

Lemma of_option_err {A} (o : option A) (e : store_err) : of_option o = Err e → failure e.
Proof. destruct o; [done|]. intros [= <-]. by eexists. Qed.

Lemma alive_err (n : nat) (e : store_err) : alive ctx n = Err e → failure e.
Proof. intros [_ ->]%ensure_err. by eexists. Qed.

Lemma rfold_err {A C} (f : C → A → res store_err C) (l : list A) (c : C) (e : store_err) :
  (∀ c a, f c a = Err e → failure e) → rfold f c l = Err e → failure e.
Proof.
  intros Hf. revert c. induction l as [|a l IH]; intros c H; cbn in H; [done|].
  apply bind_err in H as [H|(c' & _ & H)]; [by eapply Hf | by eapply IH].
Qed.

Lemma reindex_err (apply : Bucket → bytes → option Bucket) (n : Z) (e : Entry) (db : DB) (err : store_err) :
  reindex n e apply db = Err err → failure err.
Proof.
  apply rfold_err. intros db' a. unfold reindex_attr. rewrite indexSpecFor_ok. cbn [mbind res_bind].
  destruct (spec_of (Name a)) as [s|]; [|done]. destruct (postings db' !! _) as [b|]; [|by intros [= <-]; eexists].
  intros [H|(? & _ & ?)]%bind_err; [|done]. revert H. apply rfold_err. intros c v. apply of_option_err.
Qed.

Lemma linkChild_err (d : DN) (id : bytes) (db : DB) (err : store_err) : linkChild d id db = Err err → failure err.
Proof.
  unfold linkChild, child_bucket. destruct (parentFoldedKey d) as [p|]; [|done].
  intros [H|(kids & _ & [H|(b & _ & ?)]%bind_err)]%bind_err; [|by eapply of_option_err | done].
  destruct (children db !! p); [done|]. destruct (NameOk p); [done|]. injection H as <-. by eexists.
Qed.

Lemma store_Add_err (db : DB) (e : Entry) (err : store_err) :
  store_Add ctx db e = Err err →
  failure err ∨ err = ErrEntryExists ∧ ∃ d, ParseDN (EDN e) = Ok d ∧ is_Some (Get (dn2id db) (FoldedKey d)).
Proof.
  unfold store_Add. cbv zeta. intros [H|([] & _ & H)]%bind_err; [left; by eapply alive_err|].
  apply bind_err in H as [H|(d & Hd%of_res_ok & H)]; [left; by eapply of_res_err|].
  destruct (Get (dn2id db) (FoldedKey d)) eqn:Ek; [right; injection H as <-; split; [done|]; exists d; by rewrite Ek|].
  left. apply bind_err in H as [H|([n seq] & _ & H)]; [by eapply of_option_err|].
  apply bind_err in H as [H|(blob & _ & H)]; [by eapply of_res_err|].
  apply bind_err in H as [H|(keys & _ & H)]; [by eapply of_option_err|].
  apply bind_err in H as [H|(entries & _ & H)]; [by eapply of_option_err|].
  apply bind_err in H as [H|(db1 & _ & H)]; [by eapply linkChild_err|]. by eapply reindex_err.
Qed.

Lemma store_Replace_err (db : DB) (e : Entry) (err : store_err) :
  store_Replace ctx db e = Err err →
  failure err ∨ err = ErrNoSuchObject ∧ ∃ d, ParseDN (EDN e) = Ok d ∧ Get (dn2id db) (FoldedKey d) = None.
Proof.
  unfold store_Replace. cbv zeta. intros [H|([] & _ & H)]%bind_err; [left; by eapply alive_err|].
  apply bind_err in H as [H|(d & Hd%of_res_ok & H)]; [left; by eapply of_res_err|].
  destruct (Get (dn2id db) (FoldedKey d)) eqn:Ek; [left | right; injection H as <-; split; [done|]; by exists d].
  apply bind_err in H as [H|(old & _ & H)]; [by eapply of_res_err|].
  apply bind_err in H as [H|(blob & _ & H)]; [by eapply of_res_err|].
  apply bind_err in H as [H|(entries & _ & H)]; [by eapply of_option_err|].
  unfold ReindexEntry in H. apply bind_err in H as [H|(db1 & _ & H)]; by eapply reindex_err.
Qed.

Lemma store_Delete_err (db : DB) (d : DN) (err : store_err) :
  store_Delete ctx db d = Err err →
  failure err ∨ (err = ErrNoSuchObject ∧ Get (dn2id db) (FoldedKey d) = None) ∨
  (err = ErrNotLeaf ∧ is_Some (Get (dn2id db) (FoldedKey d)) ∧ length (child_ids db (FoldedKey d)) ≠ 0%nat).
Proof.
  unfold store_Delete. cbv zeta. intros [H|([] & _ & H)]%bind_err; [left; by eapply alive_err|].
  destruct (Get (dn2id db) (FoldedKey d)) eqn:Ek; [|right; left; by injection H as <-].
  destruct (Nat.eqb_spec (length (child_ids db (FoldedKey d))) 0) as [Hl|Hl]; cbn [negb] in H;
    [|right; right; injection H as <-; split_and!; [done | by eexists | done]].
  left. apply bind_err in H as [H|(old & _ & H)]; [by eapply of_res_err|]. by eapply reindex_err.
Qed.

(** What a directory operation needs from the library to go through. *)
Definition add_fits (db : DB) (e : Entry) : Prop :=
  ctx 0%nat = false ∧ ∃ d, ParseDN (EDN e) = Ok d ∧ addable db d ∧ storable (dir_stored e d).

Definition replace_fits (e : Entry) : Prop := ctx 0%nat = false ∧ ∃ d, ParseDN (EDN e) = Ok d ∧ storable (dir_stored e d).

Lemma store_Add_aux (db : DB) (e : Entry) :
  store_ok db → (∀ d, ParseDN (EDN e) = Ok d → no_tab_end d) →
  implements (store_Add ctx db e) (dir_Add (contents db) e) (add_fits db e).
Proof.
  intros Hok Ht. destruct (store_Add ctx db e) as [db'|err] eqn:E.
  - apply store_Add_updated in E as (d & Hd & Hk & H); [|done]. destruct (H (Ht d Hd)) as [n Hup].
    split; [by eapply updated_ok|]. unfold dir_Add. rewrite Hd. cbn [of_res mbind res_bind]. rewrite Hk.
    by rewrite (updated_contents _ _ _ _ _ Hok Hup).
  - pose proof (store_Add_err _ _ _ E) as [[why ->]|(-> & d & Hd & Hs)].
    + cbn. intros (Hc & d & Hd & Ha & Hs). destruct (contents db !! FoldedKey d) eqn:Ek.
      * unfold store_Add, alive in E. rewrite Hc, Hd in E. cbn [negb ensure of_res mbind res_bind] in E. cbv zeta in E.
        destruct (Get (dn2id db) (FoldedKey d)) eqn:Eg; [done|]. apply contents_none in Eg; [congruence | done].
      * destruct (store_Add_total db e d) as [db' H]; auto. congruence.
    + cbn. unfold dir_Add. rewrite Hd. cbn [of_res mbind res_bind].
      destruct (contents db !! FoldedKey d) eqn:Ek; [done|]. apply contents_none in Ek; [|done]. rewrite Ek in Hs. by destruct Hs.
Qed.

Lemma store_Replace_aux (db : DB) (e : Entry) :
  store_ok db → implements (store_Replace ctx db e) (dir_Replace (contents db) e) (replace_fits e).
Proof.
  intros Hok. destruct (store_Replace ctx db e) as [db'|err] eqn:E.
  - apply store_Replace_updated in E as (d & Hd & [e0 Hk] & n & Hup); [|done].
    split; [by eapply updated_ok|]. unfold dir_Replace. rewrite Hd. cbn [of_res mbind res_bind]. rewrite Hk.
    by rewrite (updated_contents _ _ _ _ _ Hok Hup).
  - pose proof (store_Replace_err _ _ _ E) as [[why ->]|(-> & d & Hd & Hs)].
    + cbn. intros (Hc & d & Hd & Hs). destruct (contents db !! FoldedKey d) eqn:Ek.
      * assert (Hk : is_Some (contents db !! FoldedKey d)) by (rewrite Ek; by eexists).
        destruct (store_Replace_total db e d Hok Hc Hd Hk Hs) as [db' H]. congruence.
      * unfold store_Replace, alive in E. rewrite Hc, Hd in E. cbn [negb ensure of_res mbind res_bind] in E. cbv zeta in E.
        apply contents_none in Ek; [|done]. by rewrite Ek in E.
    + cbn. unfold dir_Replace. rewrite Hd. cbn [of_res mbind res_bind].
      apply (contents_none _ _ Hok) in Hs. by rewrite Hs.
Qed.

Lemma store_Delete_aux (db : DB) (d : DN) :
  store_ok db → wf_dn d → implements (store_Delete ctx db d) (dir_Delete (contents db) d) (ctx 0%nat = false).
Proof.
  intros Hok Hw. destruct (store_Delete ctx db d) as [db'|err] eqn:E.
  - apply store_Delete_updated in E as ([e0 Hk] & Hl & n & Hup); [|done..].
    split; [by eapply updated_ok|]. unfold dir_Delete. rewrite Hk. pose proof (leaf_iff db (FoldedKey d) Hok) as Hleaf.
    destruct (child_ids db (FoldedKey d)) as [|id l] eqn:Ec.
    + cbn in Hleaf. symmetry in Hleaf. apply negb_true_iff in Hleaf. rewrite Hleaf.
      by rewrite (updated_contents _ _ _ _ _ Hok Hup).
    + exfalso. apply (Hl id), child_ids_elem. rewrite Ec. left.
  - pose proof (store_Delete_err _ _ _ E) as [[why ->]|[[-> Hk]|(-> & [id Hk] & Hl)]].
    + cbn. intros Hc. unfold store_Delete, alive in E. rewrite Hc in E. cbn [negb ensure mbind res_bind] in E. cbv zeta in E.
      destruct (Get (dn2id db) (FoldedKey d)) as [id|] eqn:Ek; [|done].
      destruct (Nat.eqb_spec (length (child_ids db (FoldedKey d))) 0) as [Hl|Hl]; cbn [negb] in E; [|done].
      assert (Hs : is_Some (contents db !! FoldedKey d)).
      { destruct (contents db !! FoldedKey d) eqn:En; [by eexists|]. apply contents_none in En; [congruence | done]. }
      destruct (store_Delete_total db d Hok Hc Hs Hl) as [db' H]. unfold store_Delete, alive in H. rewrite Hc in H.
      cbn [negb ensure mbind res_bind] in H. cbv zeta in H. rewrite Ek, Hl in H. cbn [Nat.eqb negb] in H. congruence.
    + cbn. unfold dir_Delete. apply contents_none in Hk; [|done]. by rewrite Hk.
    + cbn. unfold dir_Delete. destruct (contents db !! FoldedKey d) eqn:En; [|apply contents_none in En; [congruence | done]].
      pose proof (leaf_iff db (FoldedKey d) Hok) as Hleaf. rewrite (proj2 (Nat.eqb_neq _ _) Hl) in Hleaf. symmetry in Hleaf.
      apply negb_false_iff in Hleaf. by rewrite Hleaf.
Qed.

(** ** Rename *)

(** A moved entry would take the name of an entry that is there. *)
Definition dir_collides (from to : DN) (m : Directory) : Prop :=
  ∃ k e d, m !! k = Some e ∧ ParseDN (EDN e) = Ok d ∧ FoldedKey (relocate from to d) ≠ k ∧ is_Some (m !! FoldedKey (relocate from to d)).

(** The moved names are within the limit of keys, the moved entries encode within the
    limit of values. *)
Definition rename_fits (from to : DN) (m : Directory) : Prop :=
  ctx 0%nat = false ∧ ∀ k e d nd, m !! k = Some e → ParseDN (EDN e) = Ok d → Rebase d from to = Some nd →
    blen (FoldedKey nd) ≤ MaxKeySize ∧ ∃ blob, encodeEntry (MkEntry (String nd) (Attributes e)) = Ok blob ∧ blen blob ≤ MaxValueSize.

(** What a rename promises of a directory. *)
Definition implements_rename (r : res store_err DB) (from to : DN) (m : Directory) : Prop :=
  match r with
  | Ok db' => is_Some (m !! FoldedKey from) ∧ ¬ dir_collides from to m ∧ store_ok db' ∧ renamed from to m (contents db')
  | Err ErrNoSuchObject => m !! FoldedKey from = None
  | Err ErrEntryExists => is_Some (m !! FoldedKey from) ∧ dir_collides from to m
  | Err (StoreFailure _) => ¬ rename_fits from to m
  | Err _ => False
  end.

(** What one move needs. *)
Record move_fits (m : smove) : Prop := {
  mf_key : newKey m ≠ [];
  mf_len : blen (newKey m) ≤ MaxKeySize;
  mf_id : ∃ n, mv_id m = uint64Bytes n;
  mf_blob : ∃ blob, encodeEntry (MkEntry (newDN m) (Attributes (mv_entry m))) = Ok blob ∧ blen blob ≤ MaxValueSize;
}.

Lemma apply_moves_total (ms : list smove) (db : DB) : Forall move_fits ms → ∃ db', rfold apply_move db ms = Ok db'.
Proof.
  intros H. revert db. induction H as [|m ms [Hk Hl [n Hid] (blob & Hb & Hbl)] _ IH]; intros db; cbn [rfold]; [by eexists|].
  assert (H1 : ∃ db1, apply_move db m = Ok db1).
  { destruct (uint64Bytes_fits n) as [H1 H2]. unfold apply_move. rewrite Hid.
    destruct (Put_accepts (Remove (dn2id db) (oldKey m)) (newKey m) (uint64Bytes n)) as [keys ->]; [done..|]. cbn [of_option mbind res_bind].
    rewrite Hb. cbn [of_res mbind res_bind]. destruct (Put_accepts (id2entry db) (uint64Bytes n) blob H1 H2 Hbl) as [entries ->]. by eexists. }
  destruct H1 as [db1 ->]. apply IH.
Qed.

(** Children are ids. *)
Definition id_children (db : DB) : Prop := ∀ p id, child db p id → ∃ n, id = uint64Bytes n.

Lemma move_children_total (ms : list smove) (db : DB) :
  Forall move_fits ms → id_children db → ∃ db', rfold move_children db ms = Ok db'.
Proof.
  intros H. revert db. induction H as [|m ms [Hk Hl _ _] _ IH]; intros db Hc; cbn [rfold]; [by eexists|].
  assert (H1 : ∃ db1, move_children db m = Ok db1).
  { unfold move_children. destruct (beq _ _); [by eexists|]. destruct (children db !! oldKey m) as [src|] eqn:Es; [|by eexists].
    assert (Hd : ∃ dst, child_bucket db (newKey m) = Ok dst).
    { unfold child_bucket. destruct (children db !! newKey m); [by eexists|]. rewrite NameOk_accepts by done. by eexists. }
    destruct Hd as [dst ->]. cbn [mbind res_bind]. destruct (pass_total (λ b id, Put b id []) id (Items src).*1 dst) as [dst' Hf].
    { intros b x Hx. destruct (Hc (oldKey m) x) as [n ->]; [rewrite <- child_ids_elem; unfold child_ids; by rewrite Es|].
      destruct (uint64Bytes_fits n). by apply Put_accepts. }
    change (rfold (λ b v, of_option (Put b v [])) dst (Items src).*1 = Ok dst') in Hf. rewrite Hf. by eexists. }
  destruct H1 as [db1 H1]. rewrite H1. cbn [mbind res_bind]. apply IH. intros p id Hp.
  apply move_children_spec in H1 as [_ C]. apply C in Hp as (q & Hq & _). by eapply Hc.
Qed.

Section rename.
Variables (db : DB) (from to : DN).
Hypothesis Hok : store_ok db.
Hypothesis from_wf : wf_dn from.
Hypothesis to_wf : wf_dn to.
Hypothesis to_tab : no_tab_end to.
Hypothesis Hlinked : linked db from.
Variables (root : Entry) (nr : Z).
Hypothesis Hroot : node db (FoldedKey from) nr root (name_of root).

Lemma collectMoves_total : ∃ ms, collectMoves db from to = Ok ms.
Proof using All.
  unfold collectMoves. destruct (reach_spec db Hok from root nr) as (l & -> & Hp & Hall); [done..|]. cbn [mbind res_bind].
  apply rmap_total. intros [[k id] e] Hx. rewrite Forall_forall in Hall. destruct (Hall _ Hx) as (n & d & _ & N). cbn [fst snd] in N.
  assert (Hm : moved from d).
  { assert (He : e ∈ l.*2) by (by apply (list_elem_of_fmap_2 snd l (k, id, e))). rewrite Hp in He. apply elem_of_cons in He as [->|He].
    - assert (d = name_of root) as -> by (by rewrite (node_name_of _ _ _ _ _ N)). left. apply (key_fold _ from); [by eapply node_wf | done|].
      apply (node_folds _ _ _ _ _ Hroot).
    - apply below_of_elem in He as (k' & n' & d' & N' & Hu); [|done]. right.
      by rewrite <- (node_name_of _ _ _ _ _ N), (node_name_of _ _ _ _ _ N'). }
  apply (Rebase_moved from to from_wf d (node_wf _ _ _ _ _ N)) in Hm as [nd Hnd]. cbn [plan_move]. rewrite (node_name _ _ _ _ _ N). cbn [of_res mbind res_bind].
  rewrite Hnd. by eexists.
Qed.

Variable ms : list smove.
Hypothesis Hpl : planned db from to ms.

Lemma planned_moves (m : smove) : m ∈ ms → ∃ n d nd, contents db !! oldKey m = Some (mv_entry m) ∧ ParseDN (EDN (mv_entry m)) = Ok d ∧
  mv_id m = uint64Bytes n ∧ wf_dn nd ∧ Rebase d from to = Some nd ∧ newKey m = FoldedKey nd ∧ newDN m = String nd.
Proof using All.
  intros Hm. destruct (pl_move _ _ _ _ Hpl m Hm) as (n & d & nd & I & N & R & K & D). exists n, d, nd. split_and!; try done.
  - apply node_contents; [done|]. by exists n, d.
  - apply (node_name _ _ _ _ _ N).
  - apply (Rebase_wf from to from_wf to_wf d nd); [by eapply node_wf | done].
Qed.

Lemma moves_collide :
  existsb (λ m, negb (newKey m =b? oldKey m)%ldap && bool_decide (is_Some (Get (dn2id db) (newKey m)))) ms = true ↔
  dir_collides from to (contents db).
Proof using All.
  rewrite existsb_exists. split.
  - intros (m & Hm%list_elem_of_In & H). apply andb_true_iff in H as [Hne%negb_true_iff%beq_false Hs%bool_decide_eq_true].
    destruct (planned_moves m Hm) as (n & d & nd & Hk & Hd & _ & _ & R & K & _). exists (oldKey m), (mv_entry m), d. unfold relocate. rewrite R. cbn [from_option id].
    rewrite <- K. split_and!; [done..|]. destruct (contents db !! newKey m) eqn:E; [by eexists|]. apply contents_none in E; [|done]. rewrite E in Hs. by destruct Hs.
  - intros (k & e & d & Hk & Hd & Hne & Hs). apply node_contents in Hk as (n & d' & N); [|done]. assert (d' = d) as -> by (pose proof (node_name _ _ _ _ _ N); congruence).
    unfold relocate in Hne, Hs. destruct (Rebase d from to) as [nd|] eqn:R; cbn [from_option id] in Hne, Hs; [|by rewrite (node_folds _ _ _ _ _ N) in Hne].
    assert (Hm : moved from d) by (apply (Rebase_moved from to from_wf d (node_wf _ _ _ _ _ N)); by rewrite R).
    apply (pl_all _ _ _ _ Hpl k n e d N) in Hm as (m & -> & Hm)%list_elem_of_fmap. exists m. split; [by apply list_elem_of_In|].
    destruct (pl_move _ _ _ _ Hpl m Hm) as (n' & d' & nd' & _ & N' & R' & K' & _). destruct (node_det _ _ _ _ _ _ _ _ Hok N N') as (_ & _ & <-).
    assert (nd' = nd) as -> by congruence. rewrite K'. apply andb_true_iff. split; [by apply negb_true_iff, beq_false|]. apply bool_decide_eq_true.
    destruct (Get (dn2id db) (FoldedKey nd)) eqn:E; [by eexists|]. apply contents_none in E; [|done]. rewrite E in Hs. by destruct Hs.
Qed.

Lemma planned_fit : rename_fits from to (contents db) → Forall move_fits ms.
Proof using All.
  intros [_ Hf]. apply Forall_forall. intros m Hm. destruct (planned_moves m Hm) as (n & d & nd & Hk & Hd & I & W & R & K & D).
  destruct (Hf _ _ _ _ Hk Hd R) as [Hl (blob & Hb & Hbl)]. split; [rewrite K; by apply FoldedKey_nonempty | by rewrite K | by exists n |].
  exists blob. by rewrite D.
Qed.

Variables (db1 db2 : DB).
Hypothesis Hfree : ∀ m, m ∈ ms → newKey m = oldKey m ∨ Get (dn2id db) (newKey m) = None.
Hypothesis Hnames : rfold apply_move db ms = Ok db1.
Hypothesis Hkids : rfold move_children db1 ms = Ok db2.

(** The moved entry is there to be linked. *)
Lemma relink_found : Get (dn2id db2) (FoldedKey to) = Some (uint64Bytes nr).
Proof using All.
  destruct (move_all_children _ _ _ Hkids) as ([A1 _ _] & _). rewrite A1.
  pose proof (node_forth db from to Hok from_wf to_wf to_tab ms db1 Hpl Hfree Hnames _ _ _ _ Hroot) as N.
  rewrite (relocate_root db from to from_wf to_wf root nr Hroot) in N. apply (node_key _ _ _ _ _ N).
Qed.

Lemma relink_total : rename_fits from to (contents db) → ∃ db', relinkRoot from to db2 = Ok db'.
Proof using All.
  intros [_ Hf]. unfold relinkRoot. rewrite relink_found. apply linkChild_total; [done..|].
  assert (Hk : contents db !! FoldedKey from = Some root) by (apply node_contents; [done|]; by exists nr, (name_of root)).
  apply (Hf _ _ (name_of root) to Hk (node_name _ _ _ _ _ Hroot)). apply (Rebase_root from to from_wf to_wf); [by eapply node_wf|].
  apply key_fold; [by eapply node_wf | done | apply (node_folds _ _ _ _ _ Hroot)].
Qed.
End rename.

Lemma apply_move_err (db : DB) (m : smove) (e : store_err) : apply_move db m = Err e → failure e.
Proof.
  unfold apply_move. intros [H|(keys & _ & H)]%bind_err; [by eapply of_option_err|]. apply bind_err in H as [H|(blob & _ & H)]; [by eapply of_res_err|].
  apply bind_err in H as [H|(entries & _ & H)]; [by eapply of_option_err | done].
Qed.

Lemma move_children_err (db : DB) (m : smove) (e : store_err) : move_children db m = Err e → failure e.
Proof.
  unfold move_children. destruct (beq _ _); [done|]. destruct (children db !! oldKey m) as [src|]; [|done].
  intros [H|(dst & _ & H)]%bind_err.
  - unfold child_bucket in H. destruct (children db !! newKey m); [done|]. destruct (NameOk _); [done|]. injection H as <-. by eexists.
  - apply bind_err in H as [H|(dst' & _ & H)]; [|done]. revert H. apply rfold_err. intros b x. apply of_option_err.
Qed.

(** A failure is excused where it cannot happen if the moves fit. *)
Lemma excused (from to : DN) (m : Directory) (e : store_err) : failure e → ¬ rename_fits from to m → implements_rename (Err e) from to m.
Proof. by intros [why ->]. Qed.

Lemma store_Rename_spec (db : DB) (from to : DN) :
  store_ok db → wf_dn from → wf_dn to → no_tab_end to → rooted (contents db) from →
  implements_rename (store_Rename ctx db from to) from to (contents db).
Proof.
  intros Hok Hw Hwt Ht Hroots. assert (Hl : linked db from) by by apply rooted_linked.
  destruct (store_Rename ctx db from to) as [db'|err] eqn:E.
  { pose proof E as (Hs & _ & Hok' & Hren)%store_Rename_aux; [|done..]. split_and!; [done | | done..]. destruct Hs as [e Hk].
    apply node_contents in Hk as (nr & d & N); [|done]. assert (d = name_of e) as -> by (by rewrite (node_name_of _ _ _ _ _ N)).
    unfold store_Rename in E. apply bind_ok in E as ([] & _ & E). rewrite (node_key _ _ _ _ _ N) in E. destruct (_ && _); [done|].
    apply bind_ok in E as (ms & Hms & E). apply bind_ok in E as ([] & Hf%ensure_ok%negb_true_iff & _).
    rewrite <- (moves_collide db from to Hok Hw Hwt Ht Hl e nr N ms); [by rewrite Hf | by eapply collectMoves_planned]. }
  unfold store_Rename in E. destruct (ctx 0%nat) eqn:Hctx.
  { unfold alive in E. rewrite Hctx in E. cbn in E. injection E as <-. apply excused; [by eexists|]. intros [Hc _]. congruence. }
  unfold alive in E. rewrite Hctx in E. cbn [negb ensure mbind res_bind] in E. cbv zeta in E.
  destruct (Get (dn2id db) (FoldedKey from)) as [id|] eqn:Ek.
  2: { injection E as <-. cbn. by apply contents_none. }
  destruct (so_node _ Hok _ _ Ek) as (nr & root & dr & -> & N). assert (dr = name_of root) as -> by (by rewrite (node_name_of _ _ _ _ _ N)).
  assert (Hin : is_Some (contents db !! FoldedKey from)) by (exists root; apply node_contents; [done|]; by exists nr, (name_of root)).
  destruct (collectMoves_total db from to Hok Hw Hwt Ht Hl root nr N) as [ms Hms].
  assert (Hpl : planned db from to ms) by (by eapply collectMoves_planned).
  pose proof (moves_collide db from to Hok Hw Hwt Ht Hl root nr N ms Hpl) as Hcol. rewrite Hms in E. cbn [mbind res_bind] in E.
  destruct (negb _ && _) eqn:Et.
  { injection E as <-. split; [done|]. apply andb_true_iff in Et as [Hne%negb_true_iff%beq_false Hs%bool_decide_eq_true].
    exists (FoldedKey from), root, (name_of root). rewrite (relocate_root db from to Hw Hwt root nr N).
    split_and!; [apply node_contents; [done|]; by exists nr, (name_of root) | apply (node_name _ _ _ _ _ N) | done |].
    destruct (contents db !! FoldedKey to) eqn:En; [by eexists|]. apply contents_none in En; [|done]. rewrite En in Hs. by destruct Hs. }
  destruct (existsb _ ms) eqn:Ex; cbn [negb ensure mbind res_bind] in E; [injection E as <-; split; [done | by apply Hcol]|].
  assert (Hfree : ∀ m, m ∈ ms → newKey m = oldKey m ∨ Get (dn2id db) (newKey m) = None).
  { intros m Hm. destruct (decide (newKey m = oldKey m)) as [|Hne]; [by left | right]. apply eq_None_not_Some. intros Hs.
    rewrite <- not_true_iff_false in Ex. apply Ex, existsb_exists. exists m. split; [by apply list_elem_of_In|].
    apply andb_true_iff. split; [by apply negb_true_iff, beq_false | by apply bool_decide_eq_true]. }
  destruct (rfold apply_move db ms) as [db1|e1] eqn:E1; cbn [mbind res_bind] in E.
  2: { injection E as <-. apply excused; [revert E1; apply rfold_err; intros c a; apply apply_move_err|]. intros Hf.
    destruct (apply_moves_total ms db) as [? Hx]; [by eapply (planned_fit db from to) | congruence]. }
  destruct (rfold move_children db1 ms) as [db2|e2] eqn:E2; cbn [mbind res_bind] in E.
  2: { injection E as <-. apply excused; [revert E2; apply rfold_err; intros c a; apply move_children_err|]. intros Hf.
    destruct (move_children_total ms db1) as [? Hx]; [by eapply (planned_fit db from to) | | congruence].
    intros p id Hc. pose proof (names_moved db from to Hok Hw Hwt ms db1 Hpl Hfree E1) as Hn.
    assert (Hc' : child db p id) by (unfold child in *; by rewrite <- (mn_children _ _ _ Hn)).
    apply (so_child _ Hok) in Hc' as (k & n & e & d & -> & _). by exists n. }
  apply excused; [|intros Hf; by destruct (relink_total db from to Hok Hw Hwt Ht Hl root nr N ms Hpl db1 db2 Hfree E1 E2 Hf) as [? Hx]; congruence].
  unfold relinkRoot in E. rewrite (relink_found db from to Hok Hw Hwt Ht Hl root nr N ms Hpl db1 db2 Hfree E1 E2) in E. by eapply linkChild_err.
Qed.

(** The transaction satisfies the laws the write handlers rely on. *)
Hypothesis ctx_live : ctx 0%nat = false.

#[export] Instance store_laws : UpdateTxLaws (store_tx ctx) contents store_ok.
Proof.
  constructor.
  - intros db d Hok. by apply store_Entry_aux.
  - intros db Hok k e Hk. destruct (store_contents_keys _ _ _ Hok Hk) as (d & ? & ? & ?). by exists d.
  - intros db e db' Hok H. apply store_Add_updated in H as (d & Hd & Hk & H); [|done]. exists d. split_and!; [done..|].
    intros Ht. destruct (H Ht) as [n Hup]. split; [by eapply updated_ok|]. apply (updated_contents _ _ _ _ _ Hok Hup).
  - intros db e db' Hok H. apply store_Replace_updated in H as (d & Hd & Hk & n & Hup); [|done]. exists d. split_and!; [done..|].
    intros _. split; [by eapply updated_ok|]. apply (updated_contents _ _ _ _ _ Hok Hup).
  - intros db d db' Hok Hw H. apply store_Delete_updated in H as (Hk & Hl & n & Hup); [|done..]. split_and!; [done | | |].
    + by eapply updated_ok.
    + apply (updated_contents _ _ _ _ _ Hok Hup).
    + intros k e c p Hke Hc Hp Heq. apply node_contents in Hke as (n' & c' & Hn'); [|done].
      rewrite (node_name _ _ _ _ _ Hn') in Hc. injection Hc as ->.
      apply (Hl (uint64Bytes n')). eapply node_child; [done..|]. unfold parent_key. rewrite Hp. cbn. by rewrite Heq.
  - intros db from to db' Hok Hf Hw Ht Hr H. by apply store_Rename_aux in H as (? & _ & ? & ?).
Qed.

#[export] Instance store_read_laws (db : DB) : ReadTxLaws (store_read ctx db).
Proof. constructor. intros d d' H. cbn. unfold store_Entry. by rewrite H. Qed.

End refine.
