(* ===== verification/StoreOpen.v ===== *)
(** Opening a database: a fresh file is consistent, migrating an older one makes it
    consistent or fails, and the index verification decides whether the postings
    agree with the entries. *)

From S2P Require Import Prelude GoStrings GoText DN DNFacts Message Ber StoreCodec Attr Schema Matching FilterEval StoreIface Bolt Store StoreWrite StoreFacts.
Local Open Scope Z_scope.

Section open.
Context {U : Unicode} {UL : UnicodeLaws U} {US : UnicodeSpaces U} {BL : BoltLib} {BLL : BoltLaws BL}.

(** * The entries of [id2entry] *)

(** An item of [id2entry] holds the entry [e] named [d]. *)
Definition item_holds (item : bytes * bytes) (e : Entry) (d : DN) : Prop :=
  decodeEntry item.2 = Ok e ∧ ParseDN (EDN e) = Ok d.

(** Ids are the ones the sequence of the bucket gave out, and no name ends a value in
    a tab. *)
Record entries_ok (b : Bucket) : Prop := MkEntriesOk {
  eo_seq : 0 ≤ Sequence b < 2^64;
  eo_id : ∀ id, is_Some (Get b id) → ∃ n, id = uint64Bytes n ∧ 0 < n ≤ Sequence b;
  eo_tab : ∀ id blob e d, Get b id = Some blob → item_holds (id, blob) e d → no_tab_end d;
}.

(** * Rebuilding [dn2id] and the children index *)

Record rebuilt (db db' : DB) (items : list (bytes * bytes)) : Prop := {
  rb_id2entry : id2entry db' = id2entry db;
  rb_postings : postings db' = postings db;
  rb_meta : idxmeta db' = idxmeta db;
  rb_holds : ∀ item, item ∈ items → ∃ e d, item_holds item e d;
  rb_dn2id : ∀ k id, Get (dn2id db') k = Some id ↔
    Get (dn2id db) k = Some id ∨ ∃ blob e d, (id, blob) ∈ items ∧ item_holds (id, blob) e d ∧ FoldedKey d = k;
  rb_child : ∀ p id, child db' p id ↔
    child db p id ∨ ∃ blob e d, (id, blob) ∈ items ∧ item_holds (id, blob) e d ∧ parent_key d = Some p;
}.

Lemma linkChild_meta (d : DN) (id : bytes) (db db' : DB) : linkChild d id db = Ok db' → idxmeta db' = idxmeta db.
Proof.
  unfold linkChild. destruct (parentFoldedKey d); [|by intros [= <-]].
  intros H. inv_ok. by subst.
Qed.

Lemma rebuild_one (db db' : DB) (id blob : bytes) :
  (∀ e d, item_holds (id, blob) e d → no_tab_end d) → rebuild_dn db (id, blob) = Ok db' → rebuilt db db' [(id, blob)].
Proof.
  intros Ht H. unfold rebuild_dn in H. cbn [fst snd] in H. apply bind_ok in H as (e & He%of_res_ok & H).
  apply bind_ok in H as (d & Hd%of_res_ok & H). cbv zeta in H. apply bind_ok in H as ([] & Hf & H).
  apply bind_ok in H as (keys & Hk%of_option_ok & Hl). apply ensure_ok, negb_true_iff, bool_decide_eq_false in Hf.
  assert (Hi : item_holds (id, blob) e d) by done. pose proof (linkChild_meta _ _ _ _ Hl) as Hm.
  assert (Hdet : ∀ e' d', item_holds (id, blob) e' d' → d' = d).
  { intros e' d' [He' Hd']. cbn in He'. rewrite He in He'. injection He' as <-. congruence. }
  apply linkChild_spec in Hl as [[L1 L2 L3] Lc]; [|by eapply ParseDN_wf_aux | by eapply Ht].
  cbn [dn2id id2entry postings idxmeta set_dn2id] in *. split; try done.
  - intros item ->%list_elem_of_singleton. by exists e, d.
  - intros k i. rewrite L1, (Put_Get _ _ _ _ k Hk). case_bool_decide as Ek.
    + subst k. split.
      * intros [= <-]. right. exists blob, e, d. split_and!; [by left | done | done].
      * intros [Hg|(b & e' & d' & [= -> ->]%list_elem_of_singleton & Hh & _)]; [|done]. rewrite Hg in Hf. destruct Hf. by eexists.
    + split; [by left|]. intros [?|(b & e' & d' & [= -> ->]%list_elem_of_singleton & Hh & Hk')]; [done|].
      by rewrite (Hdet _ _ Hh) in Hk'.
  - intros p i. rewrite Lc. assert (Hc : child (set_dn2id db keys) p i ↔ child db p i) by done. rewrite Hc. split.
    + intros [?|[Hp ->]]; [by left|]. right. exists blob, e, d. split_and!; [by left | done | done].
    + intros [?|(b & e' & d' & [= -> ->]%list_elem_of_singleton & Hh & Hp)]; [by left|]. right.
      rewrite (Hdet _ _ Hh) in Hp. done.
Qed.

Lemma rebuilt_trans (a b c : DB) (l m : list (bytes * bytes)) : rebuilt a b l → rebuilt b c m → rebuilt a c (l ++ m).
Proof.
  intros [A1 A2 A3 A4 A5 A6] [B1 B2 B3 B4 B5 B6]. split; try congruence.
  - intros item [?|?]%elem_of_app; auto.
  - intros k id. rewrite B5, A5. setoid_rewrite elem_of_app. naive_solver.
  - intros p id. rewrite B6, A6. setoid_rewrite elem_of_app. naive_solver.
Qed.

Lemma rebuild_items (items : list (bytes * bytes)) (db db' : DB) :
  (∀ id blob e d, (id, blob) ∈ items → item_holds (id, blob) e d → no_tab_end d) →
  rfold rebuild_dn db items = Ok db' → rebuilt db db' items.
Proof.
  revert db. induction items as [|[id blob] items IH]; intros db Ht H; cbn [rfold] in H.
  - injection H as <-. split; try done.
    + by intros item ?%elem_of_nil.
    + intros k i. split; [by left|]. intros [?|(? & ? & ? & ?%elem_of_nil & _)]; done.
    + intros p i. split; [by left|]. intros [?|(? & ? & ? & ?%elem_of_nil & _)]; done.
  - apply bind_ok in H as (db1 & H1 & H). change ((id, blob) :: items) with ([(id, blob)] ++ items).
    eapply rebuilt_trans; [eapply rebuild_one; [|exact H1] | eapply IH; [|exact H]].
    + intros e d. apply Ht. left.
    + intros i b e d Hin. apply Ht. by right.
Qed.

(** * Rebuilding the postings *)

Lemma iter_items_all (items : list (bytes * bytes)) :
  (∀ item, item ∈ items → ∃ e, decodeEntry item.2 = Ok e) →
  ∀ n e, (n, e) ∈ iter_items items ↔ ∃ id blob, (id, blob) ∈ items ∧ n = idUint64 id ∧ decodeEntry blob = Ok e.
Proof.
  induction items as [|[id blob] items IH]; intros Hd n e; cbn [iter_items].
  - split; [by intros ?%elem_of_nil | by intros (? & ? & ?%elem_of_nil & _)].
  - destruct (Hd (id, blob) ltac:(left)) as [e0 He]. cbn in He. rewrite He, elem_of_cons, IH by (intros item Hin; apply Hd; by right).
    split.
    + intros [[= -> ->]|(i & b & Hin & ? & ?)]; [exists id, blob; split_and!; [left | done | done] | exists i, b; split_and!; [by right | done | done]].
    + intros (i & b & [[= -> ->]|Hin]%elem_of_cons & -> & Hb); [left; congruence | right; by exists i, b].
Qed.

Lemma rebuild_postings (l : list (Z * Entry)) (db db' : DB) :
  rfold (λ db (p : Z * Entry), AddPostings p.1 p.2 db) db l = Ok db' →
  same_entries db db' ∧ ∀ name key, posted db' name key ↔ posted db name key ∨ ∃ n e, (n, e) ∈ l ∧ key ∈ keys_in name n e.
Proof.
  revert db. induction l as [|[n e] l IH]; intros db H; cbn [rfold fst snd] in H.
  - injection H as <-. split; [done|]. intros name key. split; [by left|]. by intros [?|(? & ? & ?%elem_of_nil & _)].
  - apply bind_ok in H as (db1 & H1 & H). apply AddPostings_spec in H1 as [S1 P1]. apply IH in H as [S2 P2].
    split; [by transitivity db1|]. intros name key. rewrite P2, P1. setoid_rewrite elem_of_cons. naive_solver.
Qed.

(** The posting buckets after they are cleared and after they are ensured. *)
Lemma cleared_lookup (l : list (bytes * indexedAttribute)) (p : gmap bytes Bucket) (name : bytes) :
  foldl (λ p (s : bytes * indexedAttribute), <[ia_bucket s.2 := NewBucket]> p) p l !! name =
  if bool_decide (name ∈ (λ s : bytes * indexedAttribute, ia_bucket s.2) <$> l) then Some NewBucket else p !! name.
Proof.
  revert p. induction l as [|s l IH]; intros p; cbn [foldl]; [done|]. rewrite IH, fmap_cons.
  case_bool_decide as E1; [rewrite bool_decide_true by (by right); done|].
  destruct (decide (ia_bucket s.2 = name)) as [<-|Hne].
  - rewrite lookup_insert_eq, bool_decide_true by left. done.
  - rewrite lookup_insert_ne, bool_decide_false by (done || by intros [|]%elem_of_cons). done.
Qed.

Lemma ensured_lookup (l : list (bytes * indexedAttribute)) (p : gmap bytes Bucket) (name : bytes) :
  foldl (λ p (s : bytes * indexedAttribute),
     match p !! ia_bucket s.2 with Some _ => p | None => <[ia_bucket s.2 := NewBucket]> p end) p l !! name =
  match p !! name with
  | Some b => Some b
  | None => if bool_decide (name ∈ (λ s : bytes * indexedAttribute, ia_bucket s.2) <$> l) then Some NewBucket else None
  end.
Proof.
  revert p. induction l as [|s l IH]; intros p; cbn [foldl]; [by destruct (p !! name)|]. rewrite IH, fmap_cons.
  destruct (decide (ia_bucket s.2 = name)) as [<-|Hne].
  - rewrite (bool_decide_true (_ ∈ _ :: _)) by left. destruct (p !! ia_bucket s.2) as [b|] eqn:E; [by rewrite E|].
    by rewrite lookup_insert_eq.
  - assert (Hl : (match p !! ia_bucket s.2 with Some _ => p | None => <[ia_bucket s.2 := NewBucket]> p end) !! name = p !! name).
    { destruct (p !! ia_bucket s.2); [done|]. by rewrite lookup_insert_ne. }
    rewrite Hl. destruct (p !! name); [done|].
    rewrite (bool_decide_ext (name ∈ _ :: _) (name ∈ (λ s : bytes * indexedAttribute, ia_bucket s.2) <$> l)); [done|].
    rewrite elem_of_cons. naive_solver.
Qed.

(** * The migration of [Open] *)

(** What a consistent database says of the file it was opened from. *)
Definition holds_entries (b : Bucket) (m : gmap bytes Entry) : Prop :=
  ∀ k e, m !! k = Some e ↔ ∃ id blob d, Get b id = Some blob ∧ item_holds (id, blob) e d ∧ FoldedKey d = k.

Lemma new_items : Items NewBucket = [].
Proof.
  destruct (Items NewBucket) as [|[k v] l] eqn:E; [done|]. assert (H : (k, v) ∈ Items NewBucket) by (rewrite E; left).
  apply Items_Get in H. by rewrite Get_New in H.
Qed.

(** An id that [Get] finds is found once. *)
Lemma rebuilt_nodes (db0 db : DB) :
  entries_ok (id2entry db0) → dn2id db0 = NewBucket → children db0 = ∅ →
  rebuilt db0 db (Items (id2entry db0)) →
  (∀ k n e d, node db k n e d ↔ ∃ blob, Get (id2entry db0) (uint64Bytes n) = Some blob ∧ 0 < n ≤ Sequence (id2entry db0) ∧
     item_holds (uint64Bytes n, blob) e d ∧ FoldedKey d = k).
Proof.
  intros Hok Hn Hch [R1 _ _ _ R5 _] k n e d. split.
  - intros [K I E N F T]. rewrite R1 in I. unfold entryByID in E. rewrite R1 in E.
    destruct (Get (id2entry db0) (uint64Bytes n)) as [blob|] eqn:Eb; [|done]. apply of_res_ok in E. exists blob. split_and!; try done; lia.
  - intros (blob & Hb & Hr & Hh & F). split; try done.
    + apply R5. right. exists blob, e, d. split_and!; [by apply Items_Get | done | done].
    + by rewrite R1.
    + unfold entryByID. rewrite R1, Hb. destruct Hh as [He _]. cbn in He. by rewrite He.
    + apply Hh.
    + by eapply (eo_tab _ Hok).
Qed.

Lemma rebuilt_ok (db0 db1 db2 : DB) :
  entries_ok (id2entry db0) → rebuildDNIndexes db0 = Ok db1 → RebuildIndexes db1 = Ok db2 → 
  store_ok db2 ∧ holds_entries (id2entry db0) (contents db2).
Proof.
  intros Hok H1 H2. unfold rebuildDNIndexes in H1. set (fresh := MkDB NewBucket _ _ _ _) in H1.
  apply rebuild_items in H1; [|intros id blob e d Hin; apply (eo_tab _ Hok _ _ _ _ (proj1 (Items_Get _ _ _) Hin))].
  change (id2entry db0) with (id2entry fresh) in H1. change (id2entry db0) with (id2entry fresh) in Hok |- *.
  pose proof (rebuilt_nodes fresh db1 Hok eq_refl eq_refl H1) as Hnode.
  unfold RebuildIndexes in H2. apply rebuild_postings in H2 as [[S1 S2 S3 _ Sb] Sp].
  unfold storeEntryIter in Sp. cbn [dn2id id2entry children postings set_postings] in *.
  assert (Hn2 : ∀ k n e d, node db2 k n e d ↔ node db1 k n e d).
  { intros. by apply node_ext. }
  pose proof H1 as [R1 _ _ R4 R5 R6].
  assert (Hdec : ∀ item, item ∈ Items (id2entry fresh) → ∃ e, decodeEntry item.2 = Ok e).
  { intros item Hin. destruct (R4 item Hin) as (e & d & ? & _). by exists e. }
  assert (Hitem : ∀ id blob e d, (id, blob) ∈ Items (id2entry fresh) → item_holds (id, blob) e d →
            ∃ n, id = uint64Bytes n ∧ node db1 (FoldedKey d) n e d).
  { intros id blob e d Hin Hh. apply Items_Get in Hin. destruct (eo_id _ Hok id) as (n & -> & Hr); [by eexists|].
    exists n. split; [done|]. apply Hnode. by exists blob. }
  assert (Hok2 : store_ok db2).
  { split.
    - rewrite S2, R1. apply (eo_seq _ Hok).
    - intros k id Hk. rewrite S1 in Hk. apply R5 in Hk as [Hk|(blob & e & d & Hin & Hh & <-)]; [change (Get NewBucket k = Some id) in Hk; by rewrite Get_New in Hk|].
      destruct (Hitem _ _ _ _ Hin Hh) as (n & -> & Hn). exists n, e, d. split; [done|]. by apply Hn2.
    - intros id [blob Hb]. rewrite S2, R1 in Hb. apply Items_Get in Hb. destruct (R4 _ Hb) as (e & d & Hh).
      exists (FoldedKey d). rewrite S1. apply R5. right. by exists blob, e, d.
    - intros p id. unfold child. rewrite S3. fold (child db1 p id). rewrite R6. setoid_rewrite Hn2. split.
      + intros [(kids & Hk & _)|(blob & e & d & Hin & Hh & Hp)]; [done|].
        destruct (Hitem _ _ _ _ Hin Hh) as (n & -> & Hn). by exists (FoldedKey d), n, e, d.
      + intros (k & n & e & d & -> & Hn & Hp). apply Hnode in Hn as (blob & Hb & _ & Hh & _). right.
        exists blob, e, d. split_and!; [by apply Items_Get | done | done].
    - intros name Hname. apply Sb. rewrite cleared_lookup, bool_decide_true by done. by eexists.
    - intros name key Hname. rewrite Sp. unfold posted at 1. cbn [postings set_postings]. rewrite cleared_lookup, bool_decide_true by done.
      setoid_rewrite Hn2. rewrite R1. setoid_rewrite (iter_items_all _ Hdec). split.
      + intros [(b & [= <-] & Hs)|(n & e & (id & blob & Hin & -> & He) & Hkey)]; [rewrite Get_New in Hs; by destruct Hs|].
        destruct (R4 _ Hin) as (e' & d & Hh). assert (e' = e) as -> by (destruct Hh as [He' _]; cbn in He'; congruence).
        destruct (Hitem _ _ _ _ Hin Hh) as (n & -> & Hn). exists (FoldedKey d), n, e, d. split; [done|].
        rewrite idUint64_bytes in Hkey; [done|]. apply Hnode in Hn as (_ & _ & Hr & _). pose proof (eo_seq _ Hok). lia.
      + intros (k & n & e & d & Hn & Hkey). right. apply Hnode in Hn as (blob & Hb & Hr & [He _] & _).
        exists n, e. split; [|done]. exists (uint64Bytes n), blob. split_and!; [by apply Items_Get | | done].
        symmetry. apply idUint64_bytes. pose proof (eo_seq _ Hok). lia. }
  split; [done|]. intros k e. rewrite node_contents by done. setoid_rewrite Hn2. split.
  - intros (n & d & Hn). apply Hnode in Hn as (blob & Hb & _ & Hh & F). by exists (uint64Bytes n), blob, d.
  - intros (id & blob & d & Hb & Hh & <-). apply Items_Get in Hb. destruct (Hitem _ _ _ _ Hb Hh) as (n & -> & Hn). by exists n, d.
Qed.

(** * Verification of the postings *)

(** The invariant does not see the version stamp. *)
Lemma store_ok_meta (db : DB) (m : option Bucket) :
  store_ok db → store_ok (MkDB (dn2id db) (id2entry db) (children db) (postings db) m).
Proof. intros Hok. apply (store_ok_postings db); try done; [apply (so_buckets _ Hok) | apply (so_posted _ Hok)]. Qed.

(** [db] is consistent but for its postings. *)
Definition but_postings (db : DB) : Prop := ∃ p, store_ok (set_postings db p).

Lemma store_but_postings (db : DB) : store_ok db → but_postings db.
Proof. intros Hok. exists (postings db). by destruct db. Qed.

Lemma postings_node (db : DB) (p : gmap bytes Bucket) k n e d : node (set_postings db p) k n e d ↔ node db k n e d.
Proof. by apply node_ext. Qed.

Lemma but_postings_intro (db : DB) :
  but_postings db → (∀ name, name ∈ index_buckets → is_Some (postings db !! name)) →
  (∀ name key, name ∈ index_buckets → posted db name key ↔ ∃ k n e d, node db k n e d ∧ key ∈ keys_in name n e) →
  store_ok db.
Proof. intros [p Hok] Hb Hp. apply (store_ok_postings (set_postings db p)); try done. setoid_rewrite postings_node. exact Hp. Qed.

Lemma but_postings_iter (db : DB) (n : Z) (e : Entry) :
  but_postings db → (n, e) ∈ storeEntryIter db ↔ ∃ k d, node db k n e d.
Proof.
  intros [p Hok]. assert (Hid : ∀ id blob, (id, blob) ∈ Items (id2entry db) →
    ∃ k n e d, id = uint64Bytes n ∧ idUint64 id = n ∧ decodeEntry blob = Ok e ∧ node db k n e d).
  { intros id blob Hin. apply Items_Get in Hin. destruct (so_id _ Hok id) as [k Hk]; [by eexists|].
    destruct (so_node _ Hok _ _ Hk) as (n' & e' & d & -> & Hn). exists k, n', e', d. split_and!; try done.
    - apply idUint64_bytes. by eapply node_range.
    - pose proof (node_entry _ _ _ _ _ Hn) as E. unfold entryByID in E. cbn [id2entry set_postings] in E. rewrite Hin in E.
      by apply of_res_ok in E.
    - by eapply postings_node. }
  unfold storeEntryIter. rewrite iter_items_all.
  - split.
    + intros (id & blob & Hin & -> & He). destruct (Hid _ _ Hin) as (k & n' & e' & d & -> & -> & He' & Hn). exists k, d. rewrite He in He'. by injection He' as ->.
    + intros (k & d & Hn). pose proof (node_entry _ _ _ _ _ Hn) as E. unfold entryByID in E.
      destruct (Get (id2entry db) (uint64Bytes n)) as [blob|] eqn:Eb; [|done]. apply of_res_ok in E.
      exists (uint64Bytes n), blob. split_and!; [by apply Items_Get | | done]. symmetry. apply idUint64_bytes.
      eapply node_range; [exact Hok|]. by apply postings_node.
  - intros [id blob] Hin. destruct (Hid _ _ Hin) as (k & n' & e' & d & _ & _ & He & _). by exists e'.
Qed.

Lemma expected_keys_ok (entries : list (Z * Entry)) (spec : indexedAttribute) :
  ∃ want, expected_keys entries spec = Ok want ∧
    ∀ key, key ∈ want ↔ ∃ n e, (n, e) ∈ entries ∧ key ∈ keys_in (ia_bucket spec) n e.
Proof.
  unfold expected_keys.
  rewrite (rmap_pure _ (λ p : Z * Entry, attr_keys (ia_bucket spec) p.1 <$> Attributes p.2)).
  - cbn [mbind res_bind]. eexists. split; [done|]. intros key. rewrite elem_of_concat. split.
    + intros (l & Hl & (ls & Hls & (p & -> & Hp)%list_elem_of_fmap)%elem_of_concat). exists p.1, p.2. split; [by destruct p|].
      apply elem_of_concat. by exists l.
    + intros (n & e & Hin & (l & Hl & Hls)%elem_of_concat). exists l. split; [done|]. apply elem_of_concat.
      eexists. split; [exact Hls|]. apply list_elem_of_fmap. by exists (n, e).
  - apply Forall_forall. intros [n e] _. cbn [fst snd]. apply rmap_pure, Forall_forall. intros a _.
    unfold expected_attr. rewrite indexSpecFor_ok. cbn [mbind res_bind]. unfold attr_keys. destruct (spec_of (Name a)) as [s|]; [|done].
    done.
Qed.

Lemma subset_check (l m : list bytes) : forallb (λ k, bool_decide (k ∈ m)) l = true ↔ l ⊆ m.
Proof.
  rewrite forallb_forall. split; intros H k Hk.
  - apply (bool_decide_eq_true (k ∈ m)), H. by apply list_elem_of_In.
  - apply (bool_decide_eq_true (k ∈ m)), H. by apply list_elem_of_In.
Qed.

Lemma verify_bucket_ok (db : DB) (entries : list (Z * Entry)) (spec : indexedAttribute) :
  verify_bucket db entries spec = Ok () ↔
  is_Some (postings db !! ia_bucket spec) ∧
  ∀ key, posted db (ia_bucket spec) key ↔ ∃ n e, (n, e) ∈ entries ∧ key ∈ keys_in (ia_bucket spec) n e.
Proof.
  unfold verify_bucket. destruct (expected_keys_ok entries spec) as (want & -> & Hw). cbn [mbind res_bind].
  setoid_rewrite <- Hw. unfold posted. destruct (postings db !! ia_bucket spec) as [b|]; [|split; [done | by intros [[] _]]].
  assert (Hb : ∀ key, key ∈ (Items b).*1 ↔ ∃ b', Some b = Some b' ∧ is_Some (Get b' key)).
  { intros key. rewrite list_elem_of_fmap. split.
    - intros ([k v] & -> & Hin). apply Items_Get in Hin. exists b. split; [done|]. by eexists.
    - intros (b' & [= <-] & [v Hv]). exists (key, v). split; [done|]. by apply Items_Get. }
  setoid_rewrite <- Hb. cbv zeta. split.
  - intros H. apply bind_ok in H as ([] & H1%ensure_ok%subset_check & H2%ensure_ok%subset_check).
    split; [by eexists|]. intros key. split; [apply H1 | apply H2].
  - intros [_ H]. rewrite (proj2 (subset_check _ _)) by (intros k; apply H). cbn [ensure mbind res_bind].
    by rewrite (proj2 (subset_check _ _)) by (intros k; apply H).
Qed.

Lemma VerifyIndexes_aux (db : DB) : but_postings db → VerifyIndexes db = Ok () ↔ store_ok db.
Proof.
  intros Hb. assert (Hv : VerifyIndexes db = Ok () ↔
    ∀ s, s ∈ indexedAttributes.*2 → verify_bucket db (storeEntryIter db) s = Ok ()).
  { unfold VerifyIndexes. split.
    - intros (us & Hr & _)%bind_ok s Hs. apply rmap_ok in Hr. apply list_elem_of_lookup in Hs as [i Hi].
      by destruct (Forall2_lookup_l _ _ _ _ _ Hr Hi) as ([] & _ & ?).
    - intros H. rewrite (rmap_pure _ (λ _, ())); [done|]. by apply Forall_forall. }
  rewrite Hv. setoid_rewrite verify_bucket_ok. split.
  - intros H. assert (Hn : ∀ name, name ∈ index_buckets → ∃ s, s ∈ indexedAttributes.*2 ∧ ia_bucket s = name).
    { intros name (s & -> & Hs)%list_elem_of_fmap. exists s.2. split; [|done]. apply list_elem_of_fmap. by exists s. }
    apply but_postings_intro; [done | |].
    + intros name (s & Hs & <-)%Hn. apply H, Hs.
    + intros name key (s & Hs & <-)%Hn. destruct (H s Hs) as [_ ->]. setoid_rewrite (but_postings_iter _ _ _ Hb). naive_solver.
  - intros Hok s Hs. assert (Hn : ia_bucket s ∈ index_buckets).
    { apply list_elem_of_fmap in Hs as (s' & -> & Hs). apply list_elem_of_fmap. by exists s'. }
    split; [by apply (so_buckets _ Hok)|]. intros key. rewrite (so_posted _ Hok) by done.
    setoid_rewrite (but_postings_iter _ _ _ Hb). naive_solver.
Qed.

Lemma RebuildIndexes_ok (db db' : DB) : but_postings db → RebuildIndexes db = Ok db' → store_ok db' ∧ contents db' = contents db.
Proof.
  intros Hb H. unfold RebuildIndexes in H. apply rebuild_postings in H as [[S1 S2 S3 _ Sb] Sp].
  cbn [dn2id id2entry children postings set_postings] in *.
  assert (Hb' : but_postings db').
  { destruct Hb as [p Hok]. exists p. apply (store_ok_postings _ _ Hok); try done; [apply (so_buckets _ Hok) | apply (so_posted _ Hok)]. }
  assert (Hn : ∀ k n e d, node db' k n e d ↔ node db k n e d) by (intros; by apply node_ext).
  split.
  - apply but_postings_intro; [done | |].
    + intros name Hname. apply Sb. rewrite cleared_lookup, bool_decide_true by done. by eexists.
    + intros name key Hname. rewrite Sp. unfold posted at 1. cbn [postings set_postings].
      rewrite cleared_lookup, bool_decide_true by done. setoid_rewrite (but_postings_iter _ _ _ Hb). setoid_rewrite Hn. split.
      * intros [(b & [= <-] & Hs)|(n & e & (k & d & Hk) & ?)]; [rewrite Get_New in Hs; by destruct Hs|]. by exists k, n, e, d.
      * intros (k & n & e & d & Hk & ?). right. exists n, e. split; [by exists k, d | done].
  - unfold contents, entryByID. by rewrite S1, S2.
Qed.

(** * Open *)

(** A consistent database as the file it is written to. *)
Definition file_of (db : DB) : File := MkFile (Some (dn2id db)) (Some (id2entry db)) (Some (children db)) (postings db) (idxmeta db).

Definition no_file : File := MkFile None None None ∅ None.

Lemma version_put (b b' : Bucket) :
  Put b idxVersionKey (uint64Bytes indexVersion) = Some b' → IndexVersion (Some b') = indexVersion.
Proof.
  intros H. unfold IndexVersion. rewrite (Put_Get _ _ _ _ _ H), bool_decide_true by done. vm_compute. reflexivity.
Qed.

Lemma version_accepts (b : Bucket) : is_Some (Put b idxVersionKey (uint64Bytes indexVersion)).
Proof. apply Put_accepts; vm_compute; done. Qed.

Lemma version_present (meta : option Bucket) : IndexVersion meta = indexVersion → is_Some (Get (default NewBucket meta) idxVersionKey).
Proof.
  unfold IndexVersion. destruct meta as [b|]; [|done].
  change (default NewBucket (Some b)) with b. destruct (Get b idxVersionKey); [by eexists | done].
Qed.

Lemma stamp_spec (db db' : DB) :
  stampIndexVersion db = Ok db' → ∃ m, db' = MkDB (dn2id db) (id2entry db) (children db) (postings db) (Some m) ∧
    IndexVersion (Some m) = indexVersion.
Proof.
  unfold stampIndexVersion. destruct (idxmeta db) as [b|]; [|done]. intros H. apply bind_ok in H as (m & Hm%of_option_ok & [= <-]).
  exists m. split; [done|]. by eapply version_put.
Qed.

Lemma ensure_buckets_id2entry (f : File) (db : DB) : ensure_buckets f = Ok db → id2entry db = default NewBucket (f_id2entry f).
Proof. unfold ensure_buckets. intros H. inv_ok. by subst. Qed.

Lemma Open_migrates (f : File) (db : DB) :
  IndexVersion (f_idxmeta f) ≠ indexVersion → entries_ok (default NewBucket (f_id2entry f)) → Open f = Ok db →
  store_ok db ∧ holds_entries (default NewBucket (f_id2entry f)) (contents db) ∧ IndexVersion (idxmeta db) = indexVersion.
Proof.
  intros Hv Hok H. unfold Open in H. cbv zeta in H. apply bind_ok in H as (db0 & He & H).
  rewrite (proj2 (Z.eqb_neq _ _) Hv) in H. cbn [negb] in H. apply bind_ok in H as (db1 & H1 & H).
  apply bind_ok in H as (db2 & H2 & H). rewrite <- (ensure_buckets_id2entry _ _ He) in *.
  destruct (rebuilt_ok _ _ _ Hok H1 H2) as [Hs Hh]. apply stamp_spec in H as (m & -> & Hm).
  split_and!; [by apply store_ok_meta | exact Hh | done].
Qed.

Lemma ensured_id (l : list (bytes * indexedAttribute)) (p : gmap bytes Bucket) :
  (∀ name, name ∈ (λ s : bytes * indexedAttribute, ia_bucket s.2) <$> l → is_Some (p !! name)) →
  foldl (λ p (s : bytes * indexedAttribute),
    match p !! ia_bucket s.2 with Some _ => p | None => <[ia_bucket s.2 := NewBucket]> p end) p l = p.
Proof.
  intros H. apply map_eq. intros name. rewrite ensured_lookup. destruct (p !! name) eqn:E; [done|].
  case_bool_decide as Hn; [|done]. apply H in Hn as [b Hb]. congruence.
Qed.

(** Reopening what was closed. *)
Lemma Open_reopens (db : DB) : store_ok db → IndexVersion (idxmeta db) = indexVersion → Open (file_of db) = Ok db.
Proof.
  intros Hok Hv. unfold Open, ensure_buckets, file_of. cbn [f_dn2id f_id2entry f_children f_postings f_idxmeta]. cbv zeta.
  rewrite Hv, ensured_id by apply (so_buckets _ Hok). cbn [default].
  destruct (version_present _ Hv) as [raw ->]. destruct db as [a b c p [m|]]; done.
Qed.

(** A file that did not exist. *)
Lemma Open_fresh : ∃ db, Open no_file = Ok db ∧ store_ok db ∧ contents db = ∅ ∧ IndexVersion (idxmeta db) = indexVersion.
Proof.
  assert (He : entries_ok (default NewBucket (f_id2entry no_file))).
  { cbn. split; [rewrite Sequence_New; lia | | ]; intros id; [intros [b Hb] | intros b e d Hb _]; by rewrite Get_New in Hb. }
  assert (Hs : ∃ db, Open no_file = Ok db).
  { unfold Open, ensure_buckets. cbn [f_dn2id f_id2entry f_children f_postings f_idxmeta no_file default]. cbv zeta.
    destruct (version_accepts NewBucket) as [m Hm]. rewrite Get_New, Hm. cbn [of_option mbind res_bind].
    change (negb (IndexVersion None =? indexVersion)) with true. cbn match.
    unfold rebuildDNIndexes. cbn [id2entry]. rewrite new_items. cbn [rfold mbind res_bind].
    unfold RebuildIndexes, storeEntryIter. cbn [id2entry]. rewrite new_items. cbn [iter_items rfold mbind res_bind].
    unfold stampIndexVersion. cbn [idxmeta set_postings]. destruct (version_accepts m) as [m' ->]. by eexists. }
  destruct Hs as [db Ho]. exists db. destruct (Open_migrates no_file db) as (Hok & Hh & Hv); [done..|].
  split_and!; try done. apply map_empty. intros k. destruct (contents db !! k) as [e|] eqn:E; [|done].
  apply Hh in E as (id & blob & d & Hb & _). cbn in Hb. by rewrite Get_New in Hb.
Qed.
End open.
