(* ===== verification/StoreEqual.v ===== *)
(** Equality searches through the postings: an indexed walk visits only stored
    entries, once each, and misses none whose value the evaluator finds equal.

    The index folds values by white space and lower case, the evaluator by spaces and
    lower case, so values equal for the evaluator share a posting key; the cursor
    finds the keys of a value in one run, since keys are in byte order. *)

From S2P Require Import Prelude GoStrings GoText DN DNFacts Message StoreCodec Attr Schema Matching FilterEval StoreIface Bolt Aci Server Search SearchFacts Store StoreWrite StoreFacts StoreWalk.
Local Open Scope Z_scope.

(** * Runs of keys *)

Lemma has_prefix_app (p s : bytes) : has_prefix (p ++ s) p = true.
Proof. induction p as [|x p IH]; [by destruct s|]. cbn [app has_prefix]. by rewrite bool_decide_true. Qed.

Lemma prefix_le (p s : bytes) : compare p (p ++ s) ≤ 0.
Proof. induction p as [|x p IH]; [by destruct s|]. cbn -[bz]. by rewrite Z.ltb_irrefl. Qed.

(** What lies between a prefix and a key under it is under it. *)
Lemma between_prefix (p s k : bytes) : compare p k ≤ 0 → compare k (p ++ s) ≤ 0 → has_prefix k p = true.
Proof.
  revert k. induction p as [|x p IH]; intros k H1 H2; [by destruct k|]. destruct k as [|y k]; [cbn in H1; lia|].
  cbn -[bz] in H1, H2 |- *. destruct (Z.ltb_spec (bz x) (bz y)), (Z.ltb_spec (bz y) (bz x)); try lia.
  assert (x = y) as -> by (apply bz_inj; lia). rewrite bool_decide_true by done. by apply IH.
Qed.

Lemma seek_elem (p k : bytes) (keys : list bytes) :
  StronglySorted key_lt keys → k ∈ keys → 0 ≤ compare k p → k ∈ seek p keys.
Proof.
  induction 1 as [|k' keys Hs IH Hk]; intros Hin Hc; [by apply elem_of_nil in Hin|]. cbn [seek].
  destruct (Z.ltb_spec (compare k' p) 0) as [Hlt|]; [|done]. apply elem_of_cons in Hin as [->|Hin]; [lia | by apply IH].
Qed.

Lemma seek_sorted (p : bytes) (keys : list bytes) :
  StronglySorted key_lt keys → StronglySorted key_lt (seek p keys) ∧ (∀ k, k ∈ seek p keys → 0 ≤ compare k p) ∧ seek p keys ⊆ keys.
Proof.
  induction 1 as [|k' keys Hs IH Hk]; cbn [seek]; [split_and!; [constructor | by intros k ?%elem_of_nil | done]|].
  destruct (Z.ltb_spec (compare k' p) 0) as [Hlt|Hge].
  - destruct IH as (? & ? & ?). split_and!; [done..| set_solver].
  - split_and!; [by constructor | | done]. intros k [->|Hin]%elem_of_cons; [done|].
    rewrite Forall_forall in Hk. specialize (Hk k Hin). unfold key_lt in Hk.
    pose proof (compare_antisym k p). pose proof (compare_antisym k' p).
    assert (compare p k ≤ 0); [|lia]. apply (compare_trans p k' k); lia.
Qed.

Lemma while_prefix_elem (p s : bytes) (keys : list bytes) :
  StronglySorted key_lt keys → (∀ k, k ∈ keys → 0 ≤ compare k p) → p ++ s ∈ keys → p ++ s ∈ while_prefix p keys.
Proof.
  induction 1 as [|k' keys Hs IH Hk]; intros Hge Hin; [done|]. cbn [while_prefix].
  assert (Hpre : has_prefix k' p = true).
  { apply (between_prefix p s).
    - pose proof (Hge k' ltac:(left)). pose proof (compare_antisym k' p). lia.
    - apply elem_of_cons in Hin as [<-|Hin]; [by rewrite (proj2 (compare_eq _ _) eq_refl)|].
      rewrite Forall_forall in Hk. specialize (Hk _ Hin). unfold key_lt in Hk. lia. }
  rewrite Hpre. apply elem_of_cons in Hin as [<-|Hin]; [left | right]. apply IH; [|done]. intros k Hk'. apply Hge. by right.
Qed.

Lemma while_prefix_sub (p : bytes) (keys : list bytes) : while_prefix p keys ⊆ keys.
Proof. induction keys as [|k keys IH]; cbn [while_prefix]; [done|]. case_match; set_solver. Qed.

Lemma key_sorted_nodup (keys : list bytes) : StronglySorted key_lt keys → NoDup keys.
Proof.
  induction 1 as [|k l _ IH Hk]; constructor; [|done]. intros Hin. rewrite Forall_forall in Hk.
  specialize (Hk k Hin). apply key_lt_le in Hk. tauto.
Qed.

Lemma while_prefix_nodup (p : bytes) (keys : list bytes) : NoDup keys → NoDup (while_prefix p keys).
Proof.
  induction 1 as [|k l Hk _ IH]; cbn [while_prefix]; [constructor|]. case_match; [|constructor]. constructor; [|done].
  intros Hin. by apply while_prefix_sub in Hin.
Qed.

(** * Folding values *)

Section equal.
Context {U : Unicode} {UL : UnicodeLaws U} {US : UnicodeSpaces U} {BL : BoltLib} {BLL : BoltLaws BL}.

Lemma join_split (s : bytes) : join (B " ") (split_byte c_space s) = s.
Proof.
  induction s as [|c s IH]; [done|]. cbn [split_byte]. pose proof (split_byte_nonempty c_space s) as Hne.
  case_bool_decide as E.
  - subst c. destruct (split_byte c_space s) as [|p ps]; [done|].
    change (join (B " ") ([] :: p :: ps)) with (c_space :: join (B " ") (p :: ps)). by rewrite IH.
  - destruct (split_byte c_space s) as [|p ps]; [done|].
    transitivity (c :: join (B " ") (p :: ps)); [by destruct ps | by rewrite IH].
Qed.

(** The fields of a string are those of its words. *)
Lemma fields_words (s : bytes) : fieldsZ (R s) = concat ((λ w, fieldsZ (R w)) <$> words s).
Proof.
  rewrite <- (join_split s) at 1. rewrite R_join, fieldsZ_join, <- list_fmap_compose. unfold words.
  induction (split_byte c_space s) as [|w ws IH]; [done|]. cbn [fmap list_fmap concat]. destruct (decide (w ≠ [])) as [Hw|Hw].
  - rewrite filter_cons_True by done. cbn [fmap list_fmap concat]. by rewrite <- IH.
  - rewrite filter_cons_False by done. assert (w = []) as -> by (destruct w; [done | by exfalso; apply Hw]). exact IH.
Qed.

(** Values equal under the evaluator's rule share a text fold. *)
Lemma text_fold_eq (x v : bytes) :
  normalizeCaseIgnore x = normalizeCaseIgnore v → to_lower (join (B " ") (Fields x)) = to_lower (join (B " ") (Fields v)).
Proof. intros H%collapseSpaces_words_eq. by rewrite !lower_fields, !fields_words, H. Qed.

(** * Attribute descriptions *)

Lemma trim_no_space (s : bytes) : Forall (λ r, is_space r = false) (R s) → trim_space s = s.
Proof.
  intros Hf. unfold trim_space. assert (Hr : Forall (λ p, is_space p.1 = false) (runes s)) by (unfold R in Hf; by apply Forall_fmap in Hf).
  assert (Hd : ∀ l, Forall (λ p : Z * bytes, is_space p.1 = false) l → drop_spaces l = l).
  { intros l [|p l' Hp _]; [done|]. cbn. by rewrite Hp. }
  rewrite (Hd (runes s)) by done. rewrite Hd by by apply Forall_reverse. rewrite reverse_involutive. apply runes_concat.
Qed.

Lemma cut_absent (sep : byte) (s : bytes) : sep ∉ s → cut_byte sep s = (s, [], false).
Proof.
  induction s as [|c s IH]; [done|]. intros [Hc Hs]%not_elem_of_cons. cbn [cut_byte]. rewrite bool_decide_false by done. by rewrite IH.
Qed.

Lemma semicolon_lowers (s : bytes) : semicolon ∈ s → bz semicolon ∈ R (to_lower s).
Proof.
  intros (a & b & ->)%list_elem_of_split. rewrite R_to_lower. unfold R. rewrite runes_ascii_app by done.
  rewrite runes_ascii_cons by done. rewrite !fmap_app. apply elem_of_app. right. cbn [fmap list_fmap fst]. rewrite rune_lower_ascii by done. left.
Qed.

Definition indexed_names : list bytes := [B "uid"; B "cn"; B "objectclass"].

(** A description that lower-cases to an indexed name is that name. *)
Lemma indexed_plain (a k : bytes) : k ∈ indexed_names → to_lower a = k → trim_space a = a ∧ cut_byte semicolon a = (a, [], false).
Proof.
  intros Hk E. assert (Hr : Forall (λ r, is_space r = false) (R k) ∧ bz semicolon ∉ R k).
  { unfold indexed_names in Hk. rewrite !elem_of_cons, elem_of_nil in Hk.
    destruct Hk as [->|[->|[->|[]]]]; split; try (repeat constructor); apply (bool_decide_unpack _); vm_compute; done. }
  destruct Hr as [Hsp Hsc]. split.
  - apply trim_no_space. rewrite <- E, R_to_lower, Forall_fmap in Hsp. eapply Forall_impl; [exact Hsp|]. intros r. cbn.
    by rewrite rune_lower_space.
  - apply cut_absent. intros Hin%semicolon_lowers. by rewrite E in Hin.
Qed.

Definition std : Schema := registry_schema standard_registry.

Lemma indexed_desc (a k : bytes) : k ∈ indexed_names → to_lower a = k → d_typ (parseAttrDesc (Some std) a) = k.
Proof.
  intros Hk E. destruct (indexed_plain a k Hk E) as [Ht Hc]. unfold parseAttrDesc. rewrite Ht, Hc. cbn [splitAttrOptions]. cbv zeta.
  rewrite Ht. change (splitAttrOptions [] ++ (if false && hasEmptyAttrOption [] then [[]] else [])) with (@nil bytes).
  cbn [length Nat.eqb negb andb d_typ].
  unfold CanonicalAttrType, CanonicalAttr. rewrite Ht, E. clear Ht Hc E.
  unfold indexed_names in Hk. rewrite !elem_of_cons, elem_of_nil in Hk. destruct Hk as [->|[->|[->|[]]]]; vm_compute; reflexivity.
Qed.

Lemma indexed_rule (k : bytes) :
  k ∈ indexed_names → ar_structuralDN (rulesFor (Some std) k) = false ∧ ar_normalize (rulesFor (Some std) k) = normalizeCaseIgnore.
Proof.
  intros Hk. assert (Heq : ∃ rule, at_Equality <$> AttributeType std k = Some rule ∧ rule ≠ [] ∧
    (to_lower rule = B "caseignorematch" ∨ to_lower rule = B "objectidentifiermatch")).
  { unfold indexed_names in Hk. rewrite !elem_of_cons, elem_of_nil in Hk. destruct Hk as [->|[->|[->|[]]]].
    - exists (B "caseIgnoreMatch"). split_and!; [vm_compute; reflexivity | done | left; vm_compute; reflexivity].
    - exists (B "caseIgnoreMatch"). split_and!; [vm_compute; reflexivity | done | left; vm_compute; reflexivity].
    - exists (B "objectIdentifierMatch"). split_and!; [vm_compute; reflexivity | done | right; vm_compute; reflexivity]. }
  destruct Heq as (rule & Hr & Hne & Hl). unfold rulesFor. apply fmap_Some in Hr as (at_ & -> & ->).
  rewrite (proj2 (beq_false _ _) Hne). cbn [negb]. destruct Hl as [-> | ->]; split; reflexivity.
Qed.

Lemma spec_of_std (name : bytes) : spec_of name = assoc indexedAttributes (AttrTypeKey (Some std) name).
Proof. reflexivity. Qed.

#[local] Opaque std.

(** * The postings of a value *)

Lemma posting_ids_elem (b : Bucket) (norm : bytes) (n : Z) :
  0 ≤ n < 2^64 → is_Some (Get b (postingKey norm n)) → postingKey norm n ∈ posting_keys b norm.
Proof.
  intros Hn [v Hv]. unfold posting_keys. pose proof (Items_sorted b) as Hs. set (keys := (Items b).*1) in *.
  assert (Hin : postingKey norm n ∈ keys) by (apply list_elem_of_fmap; exists (postingKey norm n, v); split; [done|]; by apply Items_Get).
  assert (Ek : postingKey norm n = (norm ++ [x00]) ++ uint64Bytes n) by (unfold postingKey; by rewrite app_assoc).
  destruct (seek_sorted (norm ++ [x00]) keys Hs) as (Hs' & Hge & _). rewrite Ek in *.
  apply while_prefix_elem; [done..|]. apply seek_elem; [done..|].
  pose proof (prefix_le (norm ++ [x00]) (uint64Bytes n)). pose proof (compare_antisym ((norm ++ [x00]) ++ uint64Bytes n) (norm ++ [x00])). lia.
Qed.

Lemma posting_keys_sub (b : Bucket) (norm key : bytes) : key ∈ posting_keys b norm → is_Some (Get b key).
Proof.
  unfold posting_keys. intros Hin%while_prefix_sub. apply (proj2 (proj2 (seek_sorted _ _ (Items_sorted b)))) in Hin.
  apply list_elem_of_fmap in Hin as ([k v] & -> & Hin). apply Items_Get in Hin. by eexists.
Qed.

Lemma posting_keys_nodup (b : Bucket) (norm : bytes) : NoDup (posting_keys b norm).
Proof. apply while_prefix_nodup, key_sorted_nodup, seek_sorted, Items_sorted. Qed.

Variable db : DB.
Hypothesis Hok : store_ok db.
Variable ctx : nat → bool.
Hypothesis ctx_calm : ∀ n, ctx n = false.

(** The entries the keys of a run lead to. *)
Definition posted_entries (norm : bytes) (keys : list bytes) : list Entry :=
  omap (λ k, n ← posting_id norm k; res_opt (entryByID db (uint64Bytes n))) keys.

(** Every key leads to a stored entry. *)
Definition live_keys (keys : list bytes) : Prop := ∀ k, k ∈ keys → ∃ norm key n e d, k = postingKey norm n ∧ node db key n e d.

Lemma walk_postings_calm (m : nat) (norm : bytes) (keys : list bytes) :
  live_keys keys → walk_postings ctx m db norm keys = (posted_entries norm keys, None).
Proof.
  revert m. induction keys as [|k keys IH]; intros m Hl; [done|]. cbn [walk_postings]. rewrite ctx_calm. unfold posted_entries. cbn [omap list_omap].
  assert (Hl' : live_keys keys) by (intros k' Hk'; apply Hl; by right).
  destruct (Hl k ltac:(left)) as (norm' & key & n & e & d & -> & Hn). unfold posting_id.
  rewrite parse_postingKey by (by eapply node_range). destruct (beq norm' norm); [|by apply IH]. cbn [mbind option_bind].
  rewrite (node_entry _ _ _ _ _ Hn), IH by done. done.
Qed.

Lemma posted_entries_nodup (norm : bytes) (keys : list bytes) : live_keys keys → NoDup keys → NoDup (posted_entries norm keys).
Proof.
  unfold posted_entries. induction keys as [|k keys IH]; intros Hl Hd; [constructor|]. apply NoDup_cons in Hd as [Hk Hd].
  assert (Hl' : live_keys keys) by (intros k' Hk'; apply Hl; by right). cbn [omap list_omap].
  destruct (Hl k ltac:(left)) as (norm' & key & n & e & d & -> & Hn). unfold posting_id at 1.
  rewrite parse_postingKey by (by eapply node_range). destruct (beq norm' norm) eqn:E; [|by apply IH]. bprop. subst norm'.
  cbn [mbind option_bind]. rewrite (node_entry _ _ _ _ _ Hn). cbn [res_opt]. constructor; [|by apply IH].
  intros (k' & Hin & He)%list_elem_of_omap. destruct (Hl' k' Hin) as (norm' & key' & n' & e' & d' & -> & Hn').
  unfold posting_id in He. rewrite parse_postingKey in He by (by eapply node_range). destruct (beq norm' norm) eqn:E; [|done]. bprop.
  subst norm'. cbn [mbind option_bind] in He. rewrite (node_entry _ _ _ _ _ Hn') in He. injection He as ->.
  assert (Hkk : key = key').
  { rewrite <- (node_folds _ _ _ _ _ Hn), <- (node_folds _ _ _ _ _ Hn').
    by rewrite <- (node_name_of _ _ _ _ _ Hn), <- (node_name_of _ _ _ _ _ Hn'). }
  subst key'. destruct (node_det _ _ _ _ _ _ _ _ Hok Hn Hn') as (-> & _). done.
Qed.

Lemma bucket_live (name norm : bytes) (b : Bucket) :
  name ∈ index_buckets → postings db !! name = Some b → live_keys (posting_keys b norm).
Proof.
  intros Hname Hb k Hk%posting_keys_sub. assert (Hp : posted db name k) by (by exists b).
  apply (so_posted _ Hok) in Hp as (key & n & e & d & Hn & Hin); [|done]. apply keys_in_id in Hin as [norm' ->].
  by exists norm', key, n, e, d.
Qed.

(** An indexed walk is lawful. *)
Lemma WalkEqual_aux (a v : bytes) (w : walk) :
  WalkEqual ctx db a v = Some w →
  ∃ l, w = (l, None) ∧ NoDup l ∧ l ⊆ snapshot db ∧
    ∀ e, e ∈ snapshot db →
      (∃ x, x ∈ filterValues e (parseAttrDesc (Some std) a) (Some std) ∧
         Equal_ (Some std) (d_typ (parseAttrDesc (Some std) a)) x v = true) → e ∈ l.
Proof.
  unfold WalkEqual. set (k := to_lower a). destruct (assoc indexedAttributes k) as [spec|] eqn:Es; [|done].
  destruct (ia_dn spec) eqn:Edn; [done|].
  assert (Hk : k ∈ indexed_names ∧ ia_bucket spec ∈ index_buckets).
  { revert Es Edn. unfold indexedAttributes. cbn [assoc].
    destruct (beq k (B "uid")) eqn:E1; [bprop; intros [= <-] _; split; [rewrite E1; left | left]|].
    destruct (beq k (B "cn")) eqn:E2; [bprop; intros [= <-] _; split; [rewrite E2; right; left | right; left]|].
    destruct (beq k (B "member")); [by intros [= <-]|]. destruct (beq k (B "uniquemember")); [by intros [= <-]|].
    destruct (beq k (B "objectclass")) eqn:E5; [bprop; intros [= <-] _; split; [rewrite E5; right; right; left | do 4 right; left] | done]. }
  destruct Hk as [Hk Hname]. destruct (so_buckets _ Hok _ Hname) as [b Hb]. rewrite Hb. cbv zeta. intros [= <-].
  set (norm := normalizeIndexKey spec v). pose proof (bucket_live _ norm b Hname Hb) as Hlive.
  rewrite walk_postings_calm by done. eexists. split; [done|]. split_and!.
  - apply posted_entries_nodup; [done | apply posting_keys_nodup].
  - intros e (key & Hin & He)%list_elem_of_omap. destruct (Hlive key Hin) as (norm' & key' & n & e' & d & -> & Hn).
    unfold posting_id in He. rewrite parse_postingKey in He by (by eapply node_range). case_match; [|done].
    cbn [mbind option_bind] in He. rewrite (node_entry _ _ _ _ _ Hn) in He. injection He as ->. apply snapshot_elem; [done|]. by exists key', n, d.
  - intros e (key & n & d & Hn)%snapshot_elem (x & Hx & Hq); [|done].
    pose proof (indexed_desc a k Hk eq_refl) as Hty. rewrite Hty in Hq. destruct (indexed_rule k Hk) as [Hr1 Hr2].
    unfold Equal_, equal_under in Hq. rewrite Hr1, Hr2 in Hq. clear Hr1 Hr2. bprop.
    assert (Hnorm : normalizeIndexKey spec x = norm) by (unfold norm, normalizeIndexKey; rewrite Edn; by apply text_fold_eq).
    assert (Hpost : postingKey norm n ∈ keys_in (ia_bucket spec) n e).
    { unfold filterValues in Hx. destruct (negb (d_resolved _)); [exfalso; by apply elem_of_nil in Hx|].
      apply elem_of_concat in Hx as (l & Hx & (at_ & -> & Hat)%list_elem_of_fmap). unfold keys_in. apply elem_of_concat.
      exists (attr_keys (ia_bucket spec) n at_). split; [|apply list_elem_of_fmap; exists at_; split; [reflexivity | exact Hat]].
      unfold attr_keys. rewrite spec_of_std. unfold AttrTypeKey. destruct (storedTypeKey (Some std) (Name at_)) as [typ opts] eqn:Et.
      destruct (negb (beq typ (d_typ _))) eqn:Ety; [exfalso; by apply elem_of_nil in Hx|]. cbn [orb] in Hx. bprop.
      destruct (negb (containsAllOptions _ _)); [exfalso; by apply elem_of_nil in Hx|]. cbn [fst]. rewrite Ety, Hty, Es, beq_refl.
      rewrite <- Hnorm. apply list_elem_of_fmap. exists x. split; [reflexivity | exact Hx]. }
    unfold posted_entries. apply list_elem_of_omap. exists (postingKey norm n). split.
    + apply posting_ids_elem; [by eapply node_range|]. assert (Hp : posted db (ia_bucket spec) (postingKey norm n)).
      { apply (so_posted _ Hok); [exact Hname|]. exists key, n, e, d. split; [exact Hn | exact Hpost]. }
      destruct Hp as (b' & Hb' & Hs). by rewrite Hb in Hb'; injection Hb' as ->.
    + unfold posting_id. rewrite parse_postingKey by (by eapply node_range). rewrite beq_refl. cbn [mbind option_bind].
      by rewrite (node_entry _ _ _ _ _ Hn).
Qed.

(** * The store as a search sees it *)

#[export] Instance store_search_laws (base : DN) :
  wf_dn base → linked db base → agree db base → SearchTxLaws std (store_search ctx db) base (snapshot db).
Proof.
  intros Hw Hl Ha. constructor.
  - by apply snapshot_nodup.
  - intros req b Hb Hs. unfold scope_candidates. cbn [store_search stx_WalkSearch].
    destruct (WalkSearch_aux db Hok ctx ctx_calm base b (SScope req) Hw Hl Hb) as (l & -> & Hp).
    exists l. split; [done|]. rewrite Hp. symmetry. by eapply scope_filter.
  - intros walker a v w [= <-] Hw'. by apply WalkEqual_aux in Hw'.
Qed.
End equal.
