(* ===== verification/StoreSystem.v ===== *)
(** What the parts of the persistent store add up to.

    The transactions refine a directory, opening a file yields a consistent database,
    the index check decides consistency, the walks end and visit what they should,
    handlers over the store, from an empty file on, never leave it inconsistent, and
    searches are answered by the specification. *)

From S2P Require Import Prelude GoStrings GoText DN DNFacts Message RenameFacts Ber StoreCodec Attr Schema Matching FilterEval StoreIface Bolt Aci Server Base64 Paging PagingFacts Synthetic Search SearchFacts Write FakeStore WriteOps WriteFacts TreeFacts GoTime PwHash Password PasswordFacts Credentials Store StoreWrite StoreFacts StoreWalk StoreRename StoreRefine StoreOpen StoreEqual.
Local Open Scope Z_scope.

(** * A database to look at *)

Definition never : nat → bool := λ _, false.

(** What [Open] makes of a file that does not exist. *)
Definition fresh_db : DB (BL := toy_bolt) :=
  match Open (U := ascii_unicode) (BL := toy_bolt) no_file with
  | Ok db => db
  | Err _ => MkDB (BL := toy_bolt) (NewBucket (BoltLib := toy_bolt)) (NewBucket (BoltLib := toy_bolt)) ∅ ∅ None
  end.

Lemma fresh_ok : Open (U := ascii_unicode) (BL := toy_bolt) no_file = Ok fresh_db ∧
  store_ok (U := ascii_unicode) (BL := toy_bolt) fresh_db ∧ contents (BL := toy_bolt) fresh_db = ∅.
Proof.
  unfold fresh_db. destruct (Open_fresh (U := ascii_unicode) (UL := ascii_unicode_laws) (BL := toy_bolt) (BLL := toy_bolt_laws))
    as (db & -> & Hok & Hc & _). done.
Qed.

(** A calm transaction over the sample instances. *)
Abbreviation toy_tx := (store_tx (U := ascii_unicode) (BL := toy_bolt) never).

Abbreviation toy_store_ok := (store_ok (U := ascii_unicode) (BL := toy_bolt)).

(** The sample requests on the fresh database, the suffix entry first. *)
Definition filled_db : DB (BL := toy_bolt) :=
  foldl (handle_write (U := ascii_unicode) (L := toy_ber) (UT := toy_tx) sample_sv [] (λ _, [])) fresh_db
    (sample_call (AddOf (B "dc=test") (Attributes suffix_entry)) :: sample_calls).

Lemma filled_ok : good (U := ascii_unicode) (contents (BL := toy_bolt)) toy_store_ok sample_sv filled_db.
Proof.
  destruct fresh_ok as (_ & Hok & Hc).
  apply (writes_keep_order (UL := ascii_unicode_laws) (contents (BL := toy_bolt)) toy_store_ok
    (CL := store_laws (UL := ascii_unicode_laws) (US := ascii_unicode_spaces) (BLL := toy_bolt_laws) never eq_refl) sample_sv []).
  - exact sample_flat.
  - constructor.
  - constructor; [|exact sample_plain]. cbn. intros d Hd. vm_compute in Hd. injection Hd as <-. unfold no_tab_end. repeat constructor; discriminate.
  - split; [exact Hok|]. rewrite Hc. intros k e H. by rewrite lookup_empty in H.
Qed.

Definition filled_root : Entry := default suffix_entry (contents (BL := toy_bolt) filled_db !! B "dc=test").

Example filled_names : (map_to_list (contents (BL := toy_bolt) filled_db)).*1 = [B "ou=c,ou=b,dc=test"; B "ou=b,dc=test"; B "dc=test"].
Proof. vm_compute. reflexivity. Qed.

(** Whether the two foldings agree on the ancestors of stored names. *)
Definition agree_check {U : Unicode} (m : gmap bytes Entry) (b : DN) : bool :=
  forallb (λ p : bytes * Entry,
    match ParseDN (EDN p.2) with
    | Ok d => forallb (λ i, Bool.eqb (EqualFold (MkDN (drop i (rdns d))) b) (bool_decide (fold_dn (MkDN (drop i (rdns d))) = fold_dn b)))
                (seq 0 (length (rdns d)))
    | Err _ => true
    end) (map_to_list m).

Lemma agree_check_sound {U : Unicode} {UL : UnicodeLaws U} {US : UnicodeSpaces U} {BL : BoltLib} {BLL : BoltLaws BL} (db : DB) (b : DN) :
  store_ok db → agree_check (contents db) b = true → agree db b.
Proof.
  intros Hok H k n e d pre suf N Hd Hne. unfold agree_check in H. rewrite forallb_forall in H.
  assert (Hc : contents db !! k = Some e) by (apply node_contents; [done|]; by exists n, d).
  specialize (H (k, e)). cbn [snd] in H. rewrite (node_name _ _ _ _ _ N), forallb_forall in H.
  specialize (H ltac:(by apply list_elem_of_In, elem_of_map_to_list) (length pre)). rewrite Hd, drop_app_length in H.
  rewrite Bool.eqb_true_iff in H. rewrite H, bool_decide_eq_true; [done|]. apply in_seq. rewrite length_app. destruct suf; [done | cbn; lia].
Qed.

(** * Properties *)

(** C7.  The persistent store implements a directory: on a consistent database each
    operation returns what the map from folded names to entries says, the errors
    included, and leaves a consistent database that stands for the updated map; it may
    fail otherwise only when the context is cancelled or the key-value library does not
    take what is written.  A rename is refused exactly when the entry is not there or a
    moved name is taken by another entry, and moves the entry and everything below it, and
    nothing else.  Names come from the parser ([wf_dn]); an added name and the new name of
    a rename end no value in a tab, and what is renamed hangs together below its root
    ([rooted], which holds of every directory the server's requests build). *)
Theorem store_refines {U : Unicode} {UL : UnicodeLaws U} {US : UnicodeSpaces U} {BL : BoltLib} {BLL : BoltLaws BL}
    (ctx : nat → bool) (db : DB) :
  store_ok db →
  (ctx 0%nat = false → ∀ d, store_Entry ctx db d = dir_Entry (contents db) d) ∧
  (∀ e, (∀ d, ParseDN (EDN e) = Ok d → no_tab_end d) →
     implements (store_Add ctx db e) (dir_Add (contents db) e) (add_fits ctx db e)) ∧
  (∀ e, implements (store_Replace ctx db e) (dir_Replace (contents db) e) (replace_fits ctx e)) ∧
  (∀ d, wf_dn d → implements (store_Delete ctx db d) (dir_Delete (contents db) d) (ctx 0%nat = false)) ∧
  (∀ from to, wf_dn from → wf_dn to → no_tab_end to → rooted (contents db) from →
     implements_rename ctx (store_Rename ctx db from to) from to (contents db)).
Proof.
  intros Hok. split_and!.
  - intros Hc d. by apply store_Entry_aux.
  - intros e Ht. by apply store_Add_aux.
  - intros e. by apply store_Replace_aux.
  - intros d Hw. by apply store_Delete_aux.
  - intros from to Hf Hw Ht Hr. by apply store_Rename_spec.
Qed.

Definition unit_c : DN := the_dn (B "ou=c,ou=b,dc=test").

Definition unit_b : DN := the_dn (B "ou=b,dc=test").

Lemma unit_wf (s : bytes) : is_ok (ParseDN (U := ascii_unicode) s) = true → wf_dn (U := ascii_unicode) (the_dn s).
Proof.
  unfold the_dn. destruct (ParseDN s) as [d|] eqn:E; [|done]. intros _. by apply (ParseDN_wf_aux (UL := ascii_unicode_laws) s).
Qed.

(** Names whose values end in no tab, tested. *)
Definition tab_check (d : DN) : bool := forallb (λ q, bool_decide (last (rdn_value q) ≠ Some c_tab)) (rdns d).

Lemma rdns_check (P : rdn → Prop) `{∀ q, Decision (P q)} (l : list rdn) : forallb (λ q, bool_decide (P q)) l = true → Forall P l.
Proof. rewrite forallb_forall. intros Hl. apply Forall_forall. intros q Hq%list_elem_of_In. by apply Hl, bool_decide_eq_true in Hq. Qed.

Lemma tab_check_safe (d : DN) : tab_check d = true → no_tab_end d.
Proof. exact (rdns_check (λ q, last (rdn_value q) ≠ Some c_tab) (rdns d)). Qed.

(** Whether a result is the given error of the store. *)
Definition fails_with {A} (e : store_err) (r : res store_err A) : bool :=
  match r, e with
  | Err ErrEntryExists, ErrEntryExists | Err ErrNotLeaf, ErrNotLeaf | Err ErrNoSuchObject, ErrNoSuchObject => true
  | _, _ => false
  end.

Lemma fails_with_eq {A} (e : store_err) (r : res store_err A) : fails_with e r = true → r = Err e.
Proof. destruct r as [a|[]], e; cbn; congruence. Qed.

Lemma is_ok_ex {E A} (r : res E A) : is_ok r = true → ∃ a, r = Ok a.
Proof. destruct r as [a|e]; [by exists a | done]. Qed.

Definition unit_z : DN := the_dn (B "ou=z,dc=test").

Lemma filled_rooted (d : DN) :
  inSuffix sample_sv d = true → rooted (U := ascii_unicode) (contents (BL := toy_bolt) filled_db) d.
Proof. intros H. exact (tree_rooted (U := ascii_unicode) sample_sv _ _ (proj2 filled_ok) sample_flat H). Qed.

(** A unit with a unit below it is renamed, the unit below cannot take the name of the
    one above, and the one above cannot be deleted. *)
Lemma store_refines_witness :
  (∃ db', store_Rename (U := ascii_unicode) (BL := toy_bolt) never filled_db unit_b unit_z = Ok db' ∧
     renamed (U := ascii_unicode) unit_b unit_z (contents (BL := toy_bolt) filled_db) (contents (BL := toy_bolt) db')) ∧
  dir_collides (U := ascii_unicode) unit_c unit_b (contents (BL := toy_bolt) filled_db) ∧
  dir_Delete (U := ascii_unicode) (contents (BL := toy_bolt) filled_db) unit_b = Err ErrNotLeaf.
Proof.
  pose proof (store_refines (U := ascii_unicode) (UL := ascii_unicode_laws) (US := ascii_unicode_spaces) (BL := toy_bolt) (BLL := toy_bolt_laws)
    never filled_db (proj1 filled_ok)) as (_ & _ & _ & Hd & Hr).
  assert (Hb : wf_dn (U := ascii_unicode) unit_b) by (apply unit_wf; vm_compute; reflexivity).
  assert (Hc : wf_dn (U := ascii_unicode) unit_c) by (apply unit_wf; vm_compute; reflexivity).
  assert (Hz : wf_dn (U := ascii_unicode) unit_z) by (apply unit_wf; vm_compute; reflexivity).
  assert (Tb : no_tab_end unit_b) by (apply tab_check_safe; vm_compute; reflexivity).
  assert (Tz : no_tab_end unit_z) by (apply tab_check_safe; vm_compute; reflexivity).
  split_and!.
  - pose proof (Hr unit_b unit_z Hb Hz Tz (filled_rooted unit_b ltac:(vm_compute; reflexivity))) as H.
    destruct (is_ok_ex (store_Rename (U := ascii_unicode) (BL := toy_bolt) never filled_db unit_b unit_z) ltac:(vm_compute; reflexivity)) as [db' E].
    rewrite E in H. exists db'. split; [exact E|]. exact (proj2 (proj2 (proj2 H))).
  - pose proof (Hr unit_c unit_b Hc Hb Tb (filled_rooted unit_c ltac:(vm_compute; reflexivity))) as H.
    pose proof (fails_with_eq ErrEntryExists (store_Rename (U := ascii_unicode) (BL := toy_bolt) never filled_db unit_c unit_b) ltac:(vm_compute; reflexivity)) as E.
    rewrite E in H. exact (proj2 H).
  - pose proof (Hd unit_b Hb) as H.
    pose proof (fails_with_eq ErrNotLeaf (store_Delete (U := ascii_unicode) (BL := toy_bolt) never filled_db unit_b) ltac:(vm_compute; reflexivity)) as E.
    rewrite E in H. exact H.
Defined.

(** Over managed suffixes that are not nested and with plugins that keep the tree, any
    sequence of plain requests, from a file that does not exist, leaves every bucket
    consistent with the entries and every entry below a stored parent. *)
Lemma history_aux {U : Unicode} {UL : UnicodeLaws U} {US : UnicodeSpaces U} {BL : BoltLib} {BLL : BoltLaws BL} {L : BerLib}
    (ctx : nat → bool) (sv : Server) (plugins : list (DB → WriteEvent → res write_err DB)) (reason : schema_violation → bytes) (cs : list write_call) :
  ctx 0%nat = false → flat_suffixes sv → Forall (tree_plugin contents store_ok sv) plugins → Forall (λ c, plain_request (wc_request c)) cs →
  ∃ db, Open no_file = Ok db ∧
    let db' := foldl (handle_write (UT := store_tx ctx) sv plugins reason) db cs in
    store_ok db' ∧ tree_ok sv (contents db') ∧ VerifyIndexes db' = Ok ().
Proof.
  intros Hctx Hflat Hps Hcs. destruct Open_fresh as (db & Ho & Hok & Hc & _). exists db. split; [done|]. cbv zeta.
  assert (Ht : good contents store_ok sv db) by (split; [done|]; rewrite Hc; by intros k e H; rewrite lookup_empty in H).
  destruct (writes_keep_order contents store_ok (CL := store_laws ctx Hctx) sv plugins reason Hflat Hps cs db Hcs Ht) as [Hok' Ht'].
  split_and!; [done..|]. apply VerifyIndexes_aux; [|done]. by apply store_but_postings.
Qed.

(** Opening a database: a file written by an older version, whose entries are
    well-formed and keyed by their sequence numbers, comes out consistent, stamped and
    with the same entries; a file of this version is taken as it is; a file that does
    not exist becomes an empty directory. *)
Theorem Open_consistent {U : Unicode} {UL : UnicodeLaws U} {US : UnicodeSpaces U} {BL : BoltLib} {BLL : BoltLaws BL} :
  (∀ f db, IndexVersion (f_idxmeta f) ≠ indexVersion → entries_ok (default NewBucket (f_id2entry f)) → Open f = Ok db →
     store_ok db ∧ holds_entries (default NewBucket (f_id2entry f)) (contents db) ∧ IndexVersion (idxmeta db) = indexVersion) ∧
  (∀ db, store_ok db → IndexVersion (idxmeta db) = indexVersion → Open (file_of db) = Ok db) ∧
  (∃ db, Open no_file = Ok db ∧ store_ok db ∧ contents db = ∅ ∧ IndexVersion (idxmeta db) = indexVersion).
Proof. split_and!; [apply Open_migrates | apply Open_reopens | apply Open_fresh]. Qed.

Lemma Open_consistent_witness : Open (U := ascii_unicode) (file_of (BL := toy_bolt) fresh_db) = Ok fresh_db.
Proof.
  refine (proj1 (proj2 (Open_consistent (U := ascii_unicode) (UL := ascii_unicode_laws) (US := ascii_unicode_spaces) (BL := toy_bolt) (BLL := toy_bolt_laws)))
    fresh_db (proj1 (proj2 fresh_ok)) _). vm_compute. reflexivity.
Defined.

(** The index check decides consistency: on a database consistent but perhaps for
    its postings [VerifyIndexes] succeeds exactly when the postings are those of the
    entries, and [RebuildIndexes] makes them so and touches nothing else. *)
Theorem VerifyIndexes_spec {U : Unicode} {UL : UnicodeLaws U} {US : UnicodeSpaces U} {BL : BoltLib} {BLL : BoltLaws BL} (db : DB) :
  but_postings db →
  (VerifyIndexes db = Ok () ↔ store_ok db) ∧
  ∀ db', RebuildIndexes db = Ok db' → store_ok db' ∧ contents db' = contents db ∧ VerifyIndexes db' = Ok ().
Proof.
  intros Hb. split; [by apply VerifyIndexes_aux|]. intros db' H. destruct (RebuildIndexes_ok db db' Hb H) as [Hok Hc].
  split_and!; [done..|]. apply VerifyIndexes_aux; [by apply store_but_postings | done].
Qed.

Lemma VerifyIndexes_spec_witness : VerifyIndexes (U := ascii_unicode) (BL := toy_bolt) fresh_db = Ok () ↔ toy_store_ok fresh_db.
Proof.
  exact (proj1 (VerifyIndexes_spec (U := ascii_unicode) (UL := ascii_unicode_laws) (US := ascii_unicode_spaces) (BL := toy_bolt) (BLL := toy_bolt_laws)
    fresh_db (store_but_postings (U := ascii_unicode) (BL := toy_bolt) fresh_db (proj1 (proj2 fresh_ok))))).
Defined.

(** C27.  The walks end: on a consistent database whose entries below the base hang
    together, the queue of [Subtree] and the cursors of [WalkSearch] run out within the
    fuel of the model, and visit the base and each entry below it once ([Subtree], whole
    subtree) or the base's children once (one level). *)
Theorem walks_end {U : Unicode} {UL : UnicodeLaws U} {US : UnicodeSpaces U} {BL : BoltLib} {BLL : BoltLaws BL}
    (ctx : nat → bool) (db : DB) (base : DN) (root : Entry) :
  store_ok db → (∀ n, ctx n = false) → wf_dn base → rooted (contents db) base → contents db !! FoldedKey base = Some root →
  (∃ l, store_Subtree ctx db base = Ok l ∧ l ≡ₚ root :: below_of db base) ∧
  (∃ l, WalkSearch ctx db base ScopeWholeSubtree = (l, None) ∧ l ≡ₚ root :: below_of db base) ∧
  (∃ l, WalkSearch ctx db base ScopeSingleLevel = (l, None) ∧ l ≡ₚ kids db base).
Proof.
  intros Hok Hctx Hw Hr Hroot. assert (Hl : linked db base) by by apply rooted_linked.
  assert (He : store_Entry ctx db base = Ok root).
  { rewrite store_Entry_aux by done. unfold dir_Entry. by rewrite Hroot. }
  split_and!.
  - by apply Subtree_aux.
  - by apply (WalkSearch_aux db Hok ctx Hctx base root ScopeWholeSubtree).
  - by apply (WalkSearch_aux db Hok ctx Hctx base root ScopeSingleLevel).
Qed.

Lemma walks_end_witness :
  ∃ l, store_Subtree (U := ascii_unicode) (BL := toy_bolt) never filled_db (the_dn (B "dc=test")) = Ok l ∧
    l ≡ₚ filled_root :: below_of (U := ascii_unicode) (BL := toy_bolt) filled_db (the_dn (B "dc=test")).
Proof.
  refine (proj1 (walks_end (U := ascii_unicode) (UL := ascii_unicode_laws) (US := ascii_unicode_spaces) (BL := toy_bolt) (BLL := toy_bolt_laws)
    never filled_db (the_dn (B "dc=test")) filled_root (proj1 filled_ok) (λ _, eq_refl) _ _ _)).
  - apply (ParseDN_wf_aux (UL := ascii_unicode_laws) (B "dc=test")). vm_compute. reflexivity.
  - apply (tree_rooted (U := ascii_unicode) sample_sv); [exact (proj2 filled_ok) | exact sample_flat | vm_compute; reflexivity].
  - vm_compute. reflexivity.
Defined.

(** Searching the persistent store: over a consistent database whose entries below
    the base hang together, an uninterrupted search returns exactly the visible entries
    in scope among the stored ones, or the limit, whether it walked the tree or an
    equality index, provided the foldings of names agree on the base. *)
Theorem native_search_complete {U : Unicode} {UL : UnicodeLaws U} {US : UnicodeSpaces U} {BL : BoltLib} {BLL : BoltLaws BL} {L : BerLib}
    (ctx : nat → bool) (db : DB) (sv : Server) (base : DN) (root : Entry) (subj : Subject) (req : SearchRequest) (env : OpEnv)
    (controls : list Control) :
  store_ok db → (∀ n, ctx n = false) → sv_Schema sv = std → calm env →
  BaseDN req ≠ [] → ParseDN (BaseDN req) = Ok base → isSubschemaDN base = false → ScopeBaseObject ≤ SScope req ≤ ScopeChildren →
  contents db !! FoldedKey base = Some root → rooted (contents db) base → agree db base →
  parsePagedControl (sv_hmac sv) controls base req = Ok None →
  ∃ l, l ≡ₚ visible sv (store_search ctx db) subj req base (snapshot db) ∧
    runSearch sv env (store_search ctx db) subj req controls = search_response sv req l.
Proof.
  intros Hok Hctx Hstd Hcalm Hne Hb Hsub Hscope Hroot Hr Ha Hp. assert (Hw : wf_dn base) by (by eapply ParseDN_wf_aux).
  assert (TL : SearchTxLaws (sv_Schema sv) (store_search ctx db) base (snapshot db)).
  { rewrite Hstd. apply store_search_laws; [done..|by apply rooted_linked | done]. }
  assert (He : tx_Entry (stx_read (store_search ctx db)) base = Ok root).
  { cbn. rewrite store_Entry_aux by done. unfold dir_Entry. by rewrite Hroot. }
  by apply (runSearch_calm sv (store_search ctx db) subj req env controls base root (snapshot db)).
Qed.

Lemma native_search_complete_witness :
  ∃ l, l ≡ₚ visible (U := ascii_unicode) sample_sv (store_search (U := ascii_unicode) (BL := toy_bolt) never filled_db) nobody
              (sample_search (FilterEquality (B "ou") (B "B"))) (the_dn (B "dc=test")) (snapshot (BL := toy_bolt) filled_db) ∧
    runSearch (U := ascii_unicode) (L := toy_ber) sample_sv calm_env (store_search (U := ascii_unicode) (BL := toy_bolt) never filled_db) nobody
      (sample_search (FilterEquality (B "ou") (B "B"))) [] =
    search_response sample_sv (sample_search (FilterEquality (B "ou") (B "B"))) l.
Proof.
  refine (native_search_complete (U := ascii_unicode) (UL := ascii_unicode_laws) (US := ascii_unicode_spaces) (BL := toy_bolt) (BLL := toy_bolt_laws)
    (L := toy_ber) never filled_db sample_sv (the_dn (B "dc=test")) filled_root nobody (sample_search (FilterEquality (B "ou") (B "B"))) calm_env []
    (proj1 filled_ok) (λ _, eq_refl) eq_refl calm_env_calm _ _ _ _ _ _ _ _).
  - discriminate.
  - vm_compute. reflexivity.
  - vm_compute. reflexivity.
  - unfold ScopeBaseObject, ScopeChildren. cbn. unfold ScopeWholeSubtree. lia.
  - vm_compute. reflexivity.
  - apply (tree_rooted (U := ascii_unicode) sample_sv); [exact (proj2 filled_ok) | exact sample_flat | vm_compute; reflexivity].
  - apply (agree_check_sound (UL := ascii_unicode_laws) (US := ascii_unicode_spaces) (BLL := toy_bolt_laws)); [exact (proj1 filled_ok) | vm_compute; reflexivity].
  - reflexivity.
Defined.
