(* ===== verification/Bind.v ===== *)
(** Binds: [handleBind], [authenticate], [passwordGate] and [lookupEntry] of
    [src/internal/ldapserver/op_bind.go] and [password.go].

    A bind runs on the connection's read loop.  What it reads and writes of the
    connection is [Auth]; the bind failures the policy engine counts and the store are
    threaded through. *)

From stdpp Require Import sorting.
From S2P Require Import Prelude GoStrings DN DNFacts Message Ber Decode Attr Schema Matching FilterEval RenameFacts StoreIface Aci Server Base64 Paging PagingFacts Search SearchFacts Write FakeStore WriteOps WriteFacts TreeFacts GoTime PwHash Password PasswordFacts Credentials.
Local Open Scope Z_scope.

(** The options of the server that concern binds; [dm] is [hasDM] with [dmDN], and
    [VerifyPassword] that of [opts.DirectoryManager]. *)
Record AuthOptions : Type := MkAuthOptions {
  AllowAnonymousBind : bool;
  AllowCleartextBind : bool;
  dm : option DN;
  VerifyPassword : bytes → bool;
  passwords : option (PasswordPolicy * PasswordHasher);
  authAttempts : Z;
}.

(** The identity of a connection and its bind failures ([subj], [failedAuth], [isTLS]). *)
Record Auth : Type := MkAuth {
  au_subject : Subject;
  failedAuth : Z;
  isTLS : bool;
}.

Definition setSubject (c : Auth) (s : Subject) : Auth := MkAuth s (failedAuth c) (isTLS c).

Definition recordFailedAuth (c : Auth) : Auth := MkAuth (au_subject c) (failedAuth c + 1) (isTLS c).

Definition resetFailedAuth (c : Auth) : Auth := MkAuth (au_subject c) 0 (isTLS c).

Definition anonymous_subject : Subject := MkSubject (MkDN []) true false.

Definition refuse (code : Z) (diag : bytes) : Result := MkResult code [] diag.

Section bind.
Context {U : Unicode} {St : Type} {UT : UpdateTx St}.
Variable opts : AuthOptions.
(** The failure of a bookkeeping commit, if any. *)
Variable commit_err : option store_err.
(** The clock. *)
Variable now : Z.

(** [lookupEntry]. *)
Definition lookupEntry (st : St) (dn : DN) : res store_err Entry := tx_Entry (ut_read st) dn.

(** [passwordGate]. *)
Definition passwordGate (f : failures) (st : St) (dn : DN) (entry : Entry) (password : bytes) : verdict (St := St) :=
  match passwords opts with
  | None =>
    if existsb (λ v, beq v password) (Values entry attrUserPassword)
    then (MkResult ResultSuccess [] [], true, (f, st))
    else (invalid, false, (f, st))
  | Some (policy, hasher) => VerifyBind policy hasher commit_err f st dn entry password now
  end.

(** The verdict with the subject a success installs. *)
Definition bound : Type := verdict (St := St) * Subject.

Definition rejected (f : failures) (st : St) (r : Result) : bound := ((r, false, (f, st)), anonymous_subject).

(** [authenticate]; [tls] is [c.isTLS]. *)
Definition authenticate (tls : bool) (f : failures) (st : St) (version : Z) (name password : bytes) : bound :=
  if negb (version =? 3) then rejected f st (refuse ResultProtocolError (B "unsupported LDAP version"))
  else
    let anonymous := bool_decide (name = []) || (length password =? 0)%nat in
    if anonymous && negb (AllowAnonymousBind opts) then rejected f st (refuse ResultUnwillingToPerform (B "anonymous bind disabled"))
    else if anonymous then ((MkResult ResultSuccess [] [], true, (f, st)), anonymous_subject)
    else if negb tls && negb (AllowCleartextBind opts) then
      rejected f st (refuse ResultConfidentialityRequired (B "cleartext bind disabled"))
    else
      match ParseDN name with
      | Err _ => rejected f st invalid
      | Ok dn =>
        match (match dm opts with Some d => if EqualFold dn d then Some d else None | None => None end) with
        | Some d =>
          if VerifyPassword opts password
          then ((MkResult ResultSuccess [] [], true, (f, st)), MkSubject d false true)
          else rejected f st invalid
        | None =>
          match lookupEntry st dn with
          | Err _ => rejected f st invalid
          | Ok entry =>
            if accountLocked entry then rejected f st (refuse ResultUnwillingToPerform (B "account inactivated"))
            else
              let v := passwordGate f st dn entry password in
              (v, if v.1.2 then MkSubject dn false false else anonymous_subject)
          end
        end
      end.

(** What a bind does to its connection: the state it leaves, the messages it sends and
    whether the connection stays open. *)
Record bind_outcome : Type := MkBindOutcome {
  bo_auth : Auth;
  bo_failures : failures;
  bo_store : St;
  bo_sends : list Message;
  bo_open : bool;
}.

(** [sendNoticeOfDisconnection]. *)
Definition disconnection_notice (code : Z) (diag : bytes) : Message :=
  MkMessage 0 (ExtendedResponse (refuse code diag) OIDNoticeOfDisconnection None) [].

(** [handleBind]; [alive] is [ctx.Err() == nil]. *)
Definition handleBind (alive : bool) (c : Auth) (f : failures) (st : St) (m : Message) (version : Z) (name password : bytes) : bind_outcome :=
  let '(res, ok, (f, st), c) :=
    match checkControls m with
    | Some r => (r, false, (f, st), c)
    | None => let '(v, s) := authenticate (isTLS c) f st version name password in (v, setSubject c s)
    end in
  let sends := if alive then [MkMessage (ID m) (BindResponse res) []] else [] in
  if negb ok then
    let c := recordFailedAuth c in
    if authAttempts opts <=? failedAuth c
    then MkBindOutcome c f st (sends ++ [disconnection_notice ResultUnwillingToPerform (B "too many failed bind attempts")]) false
    else MkBindOutcome c f st sends true
  else MkBindOutcome (resetFailedAuth c) f st sends true.

End bind.

(** Facts of binds: who a connection is after one, when a password is accepted, that
    repeated failures lock an account, and that they close the connection.
    [refused_bind_keeps_identity] and [lost_lock_forgets] show where the code does not do
    what its comments say. *)

(** * Who a bind makes of a connection *)

Section bind.
Context {U : Unicode} {St : Type} {UT : UpdateTx St}.
Variable opts : AuthOptions.
Variable commit_err : option store_err.
Variable now : Z.

(** The connection may send a password. *)
Definition confidential (tls : bool) : Prop := tls = true ∨ AllowCleartextBind opts = true.

Definition is_dm (dn : DN) : option DN :=
  match dm opts with Some d => if EqualFold dn d then Some d else None | None => None end.

(** What a bind has to show to become a subject. *)
Inductive proves (tls : bool) (f : failures) (st : St) (name password : bytes) : Subject → Prop :=
| proves_nobody : name = [] ∨ password = [] → AllowAnonymousBind opts = true → proves tls f st name password anonymous_subject
| proves_manager dn d :
    name ≠ [] → password ≠ [] → confidential tls → ParseDN name = Ok dn → is_dm dn = Some d → VerifyPassword opts password = true →
    proves tls f st name password (MkSubject d false true)
| proves_entry dn e :
    name ≠ [] → password ≠ [] → confidential tls → ParseDN name = Ok dn → is_dm dn = None →
    tx_Entry (ut_read st) dn = Ok e → accountLocked e = false → (passwordGate opts commit_err now f st dn e password).1.2 = true →
    proves tls f st name password (MkSubject dn false false).

Lemma anonymous_iff (name password : bytes) :
  bool_decide (name = []) || (length password =? 0)%nat = true ↔ name = [] ∨ password = [].
Proof. rewrite orb_true_iff, bool_decide_eq_true, Nat.eqb_eq, length_zero_iff_nil. done. Qed.

Lemma confidential_iff (tls : bool) : negb tls && negb (AllowCleartextBind opts) = false ↔ confidential tls.
Proof. unfold confidential. destruct tls, (AllowCleartextBind opts); cbn; intuition congruence. Qed.

Lemma authenticate_aux (tls : bool) (f : failures) (st : St) (version : Z) (name password : bytes) :
  let r := authenticate opts commit_err now tls f st version name password in
  if r.1.1.2 then version = 3 ∧ proves tls f st name password r.2
  else r.2 = anonymous_subject ∧ ¬ (version = 3 ∧ ∃ s, proves tls f st name password s).
Proof.
  cbv zeta. unfold authenticate. destruct (Z.eqb_spec version 3) as [->|Hv]; cbn [negb]; [|split; [done | by intros [? _]]].
  destruct (bool_decide (name = []) || (length password =? 0)%nat) eqn:Ea.
  { apply anonymous_iff in Ea. destruct (AllowAnonymousBind opts) eqn:Eo; cbn [negb andb].
    - split; [done|]. by constructor.
    - split; [done|]. intros [_ [s Hs]]. inversion Hs; simplify_eq; intuition congruence. }
  cbn [andb]. assert (Hn : name ≠ [] ∧ password ≠ []).
  { rewrite <- not_true_iff_false, anonymous_iff in Ea. intuition. }
  clear Ea. destruct Hn as [Hn Hp]. destruct (negb tls && negb (AllowCleartextBind opts)) eqn:Ec.
  { split; [done|]. intros [_ [s Hs]]. rewrite <- not_false_iff_true, confidential_iff in Ec. inversion Hs; simplify_eq; intuition congruence. }
  apply confidential_iff in Ec. destruct (ParseDN name) as [dn|] eqn:Edn.
  2: { split; [done|]. intros [_ [s Hs]]. inversion Hs; simplify_eq; intuition congruence. }
  fold (is_dm dn). destruct (is_dm dn) as [d|] eqn:Ed.
  { destruct (VerifyPassword opts password) eqn:Evp.
    - split; [done|]. by eapply proves_manager.
    - split; [done|]. intros [_ [s Hs]]. inversion Hs; simplify_eq; intuition congruence. }
  unfold lookupEntry. destruct (tx_Entry (ut_read st) dn) as [e|] eqn:Ee.
  2: { split; [done|]. intros [_ [s Hs]]. inversion Hs; simplify_eq; intuition congruence. }
  destruct (accountLocked e) eqn:El.
  { split; [done|]. intros [_ [s Hs]]. inversion Hs; simplify_eq; intuition congruence. }
  cbn [fst snd]. destruct (passwordGate _ _ _ _ _ _ _ _).1.2 eqn:Eg.
  - split; [done|]. by eapply proves_entry.
  - split; [done|]. intros [_ [s Hs]]. inversion Hs; simplify_eq; intuition congruence.
Qed.

(** Only the Directory Manager's password bypasses access control. *)
Lemma proves_bypass (tls : bool) (f : failures) (st : St) (name password : bytes) (s : Subject) :
  proves tls f st name password s → BypassACI s = true →
  ∃ dn d, ParseDN name = Ok dn ∧ dm opts = Some d ∧ EqualFold dn d = true ∧ VerifyPassword opts password = true.
Proof.
  intros [| dn d _ _ _ Hdn Hd Hv |]; cbn; [done | intros _ | done]. unfold is_dm in Hd. destruct (dm opts) as [d'|] eqn:E; [|done].
  destruct (EqualFold dn d') eqn:Ef; [|done]. by exists dn, d'.
Qed.
End bind.

(** * When a password is accepted *)

Section gate.
Context {U : Unicode} {UL : UnicodeLaws U} {St : Type} {UT : UpdateTx St}.
Context (policy : PasswordPolicy) (hasher : PasswordHasher) (commit_err : option store_err).

(** The lock on the account does not hold. *)
Definition unlocked (e : Entry) (now : Z) : Prop :=
  accountUnlockHeld e now = false ∧
  (generalizedTimeAttr e attrPwdAccountLockedTime = Some None ∨
   ∃ t, generalizedTimeAttr e attrPwdAccountLockedTime = Some (Some t) ∧ 0 < MaxFailures policy ∧
     0 < LockoutDuration policy ∧ t + LockoutDuration policy ≤ now).

(** The password is not to be changed first. *)
Definition fresh (e : Entry) (now : Z) : Prop :=
  pwdResetTrue e = false ∧ passwordExpirationElapsed e now = false ∧
  (0 < MaxAge policy → generalizedTimeAttr e attrPwdChangedTime = Some None ∨
     ∃ t, generalizedTimeAttr e attrPwdChangedTime = Some (Some t) ∧ Sub now t ≤ MaxAge policy).

Definition matches (e : Entry) (password : bytes) : Prop := ∃ v, v ∈ Values e attrUserPassword ∧ ph_Verify hasher v password = true.

Lemma matches_iff (e : Entry) (password : bytes) :
  existsb (λ v, ph_Verify hasher v password) (Values e attrUserPassword) = true ↔ matches e password.
Proof using Type. rewrite existsb_exists. unfold matches. split; intros (v & Hv & ?); exists v; split; try done; by apply list_elem_of_In. Qed.

Lemma VerifyBind_aux (f : failures) (st : St) (dn : DN) (e : Entry) (password : bytes) (now : Z) :
  0 ≤ MaxFailures policy →
  (VerifyBind policy hasher commit_err f st dn e password now).1.2 = true ↔ unlocked e now ∧ matches e password ∧ fresh e now.
Proof using Type.
  intros Hmax. rewrite <- matches_iff. unfold VerifyBind, unlocked, fresh.
  destruct (accountUnlockHeld e now); [cbn; intuition congruence|].
  destruct (generalizedTimeAttr e attrPwdAccountLockedTime) as [locked|]; [|cbn; split; [done | intros [[_ [?|(? & ? & _)]] _]; done]].
  set (held := match locked with Some _ => _ | None => _ end).
  assert (Hheld : held = false ↔ Some locked = Some None ∨ ∃ t, Some locked = Some (Some t) ∧ 0 < MaxFailures policy ∧
     0 < LockoutDuration policy ∧ t + LockoutDuration policy ≤ now).
  { subst held. destruct locked as [t|]; [|split; [by left | done]]. unfold lockHeld.
    destruct (Z.eqb_spec (MaxFailures policy) 0), (Z.ltb_spec 0 (MaxFailures policy)), (Z.leb_spec (LockoutDuration policy) 0), (Z.ltb_spec now (t + LockoutDuration policy));
      cbn [andb orb]; try lia; (split; [intros ?; first [done | right; exists t; split_and!; [done | lia..]] | intros [?|(t' & ? & ?)]; simplify_eq; first [done | lia]]). }
  destruct held.
  { cbn. split; [done|]. intros [[_ H%Hheld] _]. done. }
  assert (Hh := proj1 Hheld eq_refl). clear Hheld.
  destruct (existsb _ _); cbn [negb]; [|cbn; intuition congruence].
  destruct (pwdResetTrue e); [cbn; intuition congruence|]. destruct (passwordExpirationElapsed e now); [cbn; intuition congruence|]. cbn [orb].
  set (aged := if 0 <? MaxAge policy then _ else None).
  assert (Haged : aged = None ↔ (0 < MaxAge policy → generalizedTimeAttr e attrPwdChangedTime = Some None ∨
     ∃ t, generalizedTimeAttr e attrPwdChangedTime = Some (Some t) ∧ Sub now t ≤ MaxAge policy)).
  { subst aged. destruct (Z.ltb_spec 0 (MaxAge policy)); [|split; [lia | done]].
    destruct (generalizedTimeAttr e attrPwdChangedTime) as [[t|]|].
    - destruct (Z.ltb_spec (MaxAge policy) (Sub now t)); (split; [intros ?; first [done | right; by exists t] | intros Hx; destruct Hx as [?|(t' & ? & ?)]; simplify_eq; first [done | lia]]).
    - split; [by left | done].
    - split; [done|]. intros Hx. by destruct Hx as [?|(? & ? & _)]. }
  destruct aged as [r|]; cbn [fst snd].
  - split; [done|]. intros (_ & _ & _ & _ & Hx%Haged). done.
  - pose proof (proj1 Haged eq_refl). intuition.
Qed.
End gate.

(** * Lockout *)

Lemma failed_insert (f : failures) (k : bytes) (n : Z) : failed (<[k := n]> f) k = n.
Proof. unfold failed, failures in *. by rewrite (lookup_insert_eq (M := gmap bytes)). Qed.

Lemma failed_delete (f : failures) (k : bytes) : failed (delete k f) k = 0.
Proof. unfold failed, failures in *. by rewrite (lookup_delete_eq (M := gmap bytes)). Qed.

Section lockout.
Context {U : Unicode} {UL : UnicodeLaws U} {St : Type} {UT : UpdateTx St}.
Context (contents : St → gmap bytes Entry) (ok : St → Prop) {CL : UpdateTxLaws UT contents ok}.
Context (opts : AuthOptions) (policy : PasswordPolicy) (hasher : PasswordHasher).

(** One bind, at a time and with a password. *)
Definition try_bind (tls : bool) (name : bytes) (s : failures * St) (a : Z * bytes) : verdict (St := St) :=
  (authenticate opts None a.1 tls s.1 s.2 3 name a.2).1.

Definition try_binds (tls : bool) (name : bytes) (s : failures * St) (l : list (Z * bytes)) : failures * St :=
  foldl (λ s a, (try_bind tls name s a).2) s l.

Hypothesis Hpw : passwords opts = Some (policy, hasher).
Hypothesis Hmax : 0 < MaxFailures policy.
Variable tls : bool.
Hypothesis Hconf : confidential opts tls.
Variable name : bytes.
Variable dn : DN.
Hypothesis Hname : ParseDN name = Ok dn.
Hypothesis Hdm : is_dm opts dn = None.

Let key : bytes := FoldedKey dn.

Lemma name_given : name ≠ [].
Proof using Hname. intros ->. discriminate Hname. Qed.

(** A bind with a password reaches the gate. *)
Lemma try_bind_gate (s : failures * St) (e : Entry) (a : Z * bytes) :
  ok s.2 → contents s.2 !! key = Some e → a.2 ≠ [] → accountLocked e = false →
  try_bind tls name s a = VerifyBind policy hasher None s.1 s.2 dn e a.2 a.1.
Proof using CL Hconf Hdm Hname Hpw.
  intros Hok Hk Ha Hl. pose proof name_given as Hne. unfold try_bind, authenticate. change (3 =? 3) with true. cbn [negb].
  destruct (bool_decide (name = []) || (length a.2 =? 0)%nat) eqn:E; [apply anonymous_iff in E; tauto|]. cbn [andb].
  rewrite (proj2 (confidential_iff opts tls) Hconf), Hname. unfold is_dm in Hdm. rewrite Hdm. unfold lookupEntry.
  rewrite (ut_entry (UpdateTxLaws := CL)) by done. fold key. rewrite Hk, Hl. unfold passwordGate. by rewrite Hpw.
Qed.

(** An entry that no lock is on, and a bind with a wrong password. *)
Definition open_entry (e : Entry) : Prop :=
  unique_names e ∧ accountLocked e = false ∧ generalizedTimeAttr e attrPwdAccountLockedTime = Some None.

Definition wrong (e : Entry) (a : Z * bytes) : Prop := a.2 ≠ [] ∧ ¬ matches hasher e a.2 ∧ accountUnlockHeld e a.1 = false.

Lemma wrong_counted (s : failures * St) (e : Entry) (a : Z * bytes) :
  ok s.2 → contents s.2 !! key = Some e → open_entry e → wrong e a →
  try_bind tls name s a = (invalid, false, recordFailure policy None s.1 s.2 key dn a.1).
Proof using CL Hconf Hdm Hmax Hname Hpw.
  intros Hok Hk (_ & Hl & Ht) (Ha & Hw & Hu). rewrite (try_bind_gate s e a) by done. unfold VerifyBind. rewrite Hu, Ht.
  rewrite <- matches_iff in Hw. apply not_true_is_false in Hw. rewrite Hw. cbn [negb]. by rewrite (proj2 (Z.ltb_lt 0 _)) by lia.
Qed.

(** Wrong passwords up to the limit only count. *)
Lemma wrongs_count (l : list (Z * bytes)) (s : failures * St) (e : Entry) :
  ok s.2 → contents s.2 !! key = Some e → open_entry e → Forall (wrong e) l → failed s.1 key + Z.of_nat (length l) < MaxFailures policy →
  (try_binds tls name s l).2 = s.2 ∧ failed (try_binds tls name s l).1 key = failed s.1 key + Z.of_nat (length l).
Proof using CL Hconf Hdm Hmax Hname Hpw.
  intros Hok Hk He Hl. revert s Hok Hk. induction Hl as [|a l Ha _ IH]; intros s Hok Hk Hn; [cbn; split; [done | lia]|].
  cbn [length] in Hn |- *. unfold try_binds. cbn [foldl]. rewrite (wrong_counted s e a) by done. cbn [snd]. unfold recordFailure.
  rewrite (proj2 (Z.leb_gt _ _)) by lia. set (s1 := (<[key := failed s.1 key + 1]> s.1, s.2)).
  assert (E : failed s1.1 key = failed s.1 key + 1) by apply failed_insert.
  destruct (IH s1) as [H1 H2]; [done | done | rewrite E; lia|]. unfold try_binds in *. rewrite H1, H2, E. split; [done | lia].
Qed.

(** The entry with the lock on it. *)
Definition with_lock (e : Entry) (t : Z) : Entry := upsertAttr e attrPwdAccountLockedTime (formatGeneralizedTime t).

Lemma other_lock (e : Entry) (t : Z) (n : bytes) :
  unique_names e → equal_fold attrPwdAccountLockedTime n = false → Values (with_lock e t) n = Values e n.
Proof using UL. intros Hu Hn. unfold with_lock. rewrite upsertAttr_set. by apply (rep_others _ _ _ _ (setAttrValues_replaced e _ _ Hu)). Qed.

Lemma lock_written (st st' : St) (e : Entry) (t : Z) :
  ok st → contents st !! key = Some e → ut_Replace st (with_lock e t) = Ok st' →
  writeLockAttr None st dn (Some t) = st' ∧ lands contents ok key st st' (with_lock e t).
Proof using CL.
  intros Hok Hk Hr. split.
  - unfold writeLockAttr, Update, lock_fn. rewrite (ut_entry (UpdateTxLaws := CL)) by done. fold key. rewrite Hk.
    cbn -[upsertAttr formatGeneralizedTime attrPwdAccountLockedTime]. fold (with_lock e t). by rewrite Hr.
  - eapply (replace_lands contents ok); [done | exact Hk | | exact Hr]. unfold with_lock. by rewrite upsertAttr_set, setAttrValues_dn.
Qed.

Ltac lock_apart := apply fold_differs; [done | done | discriminate].

Lemma locked_time (e : Entry) (t : Z) : unique_names e → printable t →
  generalizedTimeAttr (with_lock e t) attrPwdAccountLockedTime = Some (Some (t / nano * nano)).
Proof using UL.
  intros Hu Hp. unfold generalizedTimeAttr, with_lock. rewrite upsertAttr_set, (rep_values _ _ _ _ (setAttrValues_replaced e _ _ Hu)).
  rewrite (parse_format t Hp). by replace (length (formatGeneralizedTime t) =? 0)%nat with false by (unfold formatGeneralizedTime; destruct (days_date _) as [[? ?] ?]; by rewrite !length_app, Nat.add_comm).
Qed.

(** While the lock holds nothing is accepted, and nothing changes. *)
Lemma locked_refuses (s : failures * St) (e : Entry) (t : Z) (a : Z * bytes) :
  ok s.2 → contents s.2 !! key = Some e → accountLocked e = false → generalizedTimeAttr e attrPwdAccountLockedTime = Some (Some t) →
  AllowAnonymousBind opts = false → (LockoutDuration policy ≤ 0 ∨ a.1 < t + LockoutDuration policy) →
  (try_bind tls name s a).1.2 = false ∧ (try_bind tls name s a).2 = s.
Proof using CL Hconf Hdm Hmax Hname Hpw.
  intros Hok Hk Hl Ht Han Hd. destruct (decide (a.2 = [])) as [Ea|Ea].
  - unfold try_bind, authenticate. change (3 =? 3) with true. cbn [negb]. rewrite Ea, orb_true_r, Han. cbn. by destruct s.
  - rewrite (try_bind_gate s e a) by done. unfold VerifyBind. rewrite Ht. destruct s as [f st]. cbn [fst snd].
    destruct (accountUnlockHeld e a.1); [done|]. unfold lockHeld. rewrite (proj2 (Z.ltb_lt 0 _)) by lia.
    destruct (Z.leb_spec (LockoutDuration policy) 0), (Z.ltb_spec a.1 (t + LockoutDuration policy)); cbn [andb orb]; first [done | lia].
Qed.

(** What else is read of the entry is as it was. *)
Lemma lock_times (e : Entry) (t : Z) (n : bytes) :
  unique_names e → equal_fold attrPwdAccountLockedTime n = false → generalizedTimeAttr (with_lock e t) n = generalizedTimeAttr e n.
Proof using UL. intros Hu Hn. unfold generalizedTimeAttr. by rewrite other_lock. Qed.

Lemma lock_unlocked (e e' : Entry) (t : Z) :
  unique_names e → Attributes e' = Attributes (with_lock e t) → accountLocked e' = accountLocked e.
Proof using UL.
  intros Hu Ha. unfold accountLocked. rewrite (Values_attrs (with_lock e t) e') by done. by rewrite other_lock by first [done | lock_apart].
Qed.

Lemma attrs_times (e e' : Entry) (n : bytes) : Attributes e' = Attributes e → generalizedTimeAttr e' n = generalizedTimeAttr e n.
Proof using Type. intros Ha. unfold generalizedTimeAttr. by rewrite (Values_attrs e e'). Qed.

(** A locked entry opens again after the lock has run out. *)
Lemma lock_opens (e e' : Entry) (t now : Z) (p : bytes) :
  unique_names e → printable t → Attributes e' = Attributes (with_lock e t) → 0 < LockoutDuration policy →
  t / nano * nano + LockoutDuration policy ≤ now → accountUnlockHeld e now = false → matches hasher e p → fresh policy e now →
  unlocked policy e' now ∧ matches hasher e' p ∧ fresh policy e' now.
Proof using UL Hmax.
  intros Hu Hp Ha Hld Hnow Hun Hm (Hr & Hx & Hc). unfold unlocked, fresh, matches, accountUnlockHeld, passwordExpirationElapsed, pwdResetTrue in *.
  rewrite !(attrs_times (with_lock e t) e'), !(Values_attrs (with_lock e t) e') by done.
  rewrite (lock_times e t attrAccountUnlockTime), (lock_times e t attrPasswordExpirationTime), (lock_times e t attrPwdChangedTime) by first [done | lock_apart].
  rewrite (other_lock e t attrUserPassword), (other_lock e t attrPwdReset) by first [done | lock_apart].
  split_and!; [done | right | done..]. rewrite locked_time by done. by eexists.
Qed.

(** The whole run: the wrong passwords, the lock, and what comes after. *)
Lemma lockout_aux (f : failures) (st st' : St) (e : Entry) (wrongs : list (Z * bytes)) (a : Z * bytes) :
  AllowAnonymousBind opts = false → ok st → contents st !! key = Some e → open_entry e → failed f key = 0 →
  Forall (wrong e) (wrongs ++ [a]) → Z.of_nat (length wrongs) + 1 = MaxFailures policy → printable a.1 →
  ut_Replace st (with_lock e a.1) = Ok st' →
  ∃ f', try_binds tls name (f, st) (wrongs ++ [a]) = (f', st') ∧ failed f' key = 0 ∧ lands contents ok key st st' (with_lock e a.1).
Proof using CL Hconf Hdm Hmax Hname Hpw.
  intros Han Hok Hk He Hf [Hws Hw]%Forall_app Hlen Hp Hr. apply Forall_cons in Hw as [Hw _].
  destruct (wrongs_count wrongs (f, st) e Hok Hk He Hws) as [Hs Hn]; [cbn; rewrite Hf; lia|].
  unfold try_binds. rewrite foldl_app. fold (try_binds tls name (f, st) wrongs). cbn [foldl].
  destruct (try_binds tls name (f, st) wrongs) as [f1 st1]. cbn [fst snd] in Hs, Hn. subst st1.
  rewrite (wrong_counted (f1, st) e a Hok Hk He Hw). cbn [fst snd]. unfold recordFailure. rewrite Hn, Hf.
  rewrite (proj2 (Z.leb_le _ _)) by lia. destruct (lock_written st st' e a.1 Hok Hk Hr) as [-> Hl].
  exists (delete key f1). split_and!; [done | apply failed_delete | done].
Qed.
End lockout.

(** C8.  Lockout: with a limit of [MaxFailures], that many consecutive binds with wrong
    passwords lock the account.  From then on every bind as that entry is refused, with
    the right password too, and changes nothing, until the lock has lasted
    [LockoutDuration] from the second of the last failure, or for good when the duration
    is not positive; after that the right password is accepted again. *)
Theorem lockout {U : Unicode} {UL : UnicodeLaws U} {St : Type} {UT : UpdateTx St} (contents : St → gmap bytes Entry) (ok : St → Prop)
    {CL : UpdateTxLaws UT contents ok} (opts : AuthOptions) (policy : PasswordPolicy) (hasher : PasswordHasher) (tls : bool) (name : bytes)
    (dn : DN) (f : failures) (st st' : St) (e : Entry) (wrongs : list (Z * bytes)) (a : Z * bytes) :
  passwords opts = Some (policy, hasher) → 0 < MaxFailures policy → confidential opts tls → AllowAnonymousBind opts = false →
  ParseDN name = Ok dn → is_dm opts dn = None →
  ok st → contents st !! FoldedKey dn = Some e → open_entry e → failed f (FoldedKey dn) = 0 →
  Forall (wrong hasher e) (wrongs ++ [a]) → Z.of_nat (length wrongs) + 1 = MaxFailures policy →
  printable a.1 → ut_Replace st (with_lock e a.1) = Ok st' →
  let s := try_binds opts tls name (f, st) (wrongs ++ [a]) in
  let t := a.1 / nano * nano in
  (∀ b, LockoutDuration policy ≤ 0 ∨ b.1 < t + LockoutDuration policy →
     (try_bind opts tls name s b).1.2 = false ∧ (try_bind opts tls name s b).2 = s) ∧
  (∀ b, 0 < LockoutDuration policy → t + LockoutDuration policy ≤ b.1 → b.2 ≠ [] →
     accountUnlockHeld e b.1 = false → matches hasher e b.2 → fresh policy e b.1 → (try_bind opts tls name s b).1.2 = true).
Proof.
  intros Hpw Hmax Hconf Han Hname Hdm Hok Hk He Hf Hw Hlen Hp Hr. cbv zeta. pose proof He as (Hu & Hl & _).
  destruct (lockout_aux contents ok opts policy hasher Hpw Hmax tls Hconf name dn Hname Hdm f st st' e wrongs a) as (f' & -> & _ & Hland); [done..|].
  destruct (lands_lookup _ _ _ _ _ _ Hland) as (e' & Hk' & Ha'). destruct Hland as [Hok' _].
  assert (Hl' : accountLocked e' = false) by (by rewrite (lock_unlocked e e' a.1)).
  split.
  - intros b Hb. eapply (locked_refuses contents ok opts policy hasher Hpw Hmax tls Hconf name dn Hname Hdm (f', st') e'); try done.
    rewrite (attrs_times (with_lock e a.1) e') by done. by apply locked_time.
  - intros b Hld Hb Hbp Hun Hm Hfr. rewrite (try_bind_gate contents ok opts policy hasher Hpw tls Hconf name dn Hname Hdm (f', st') e') by done.
    apply VerifyBind_aux; [lia|]. by apply (lock_opens policy hasher Hmax e e' a.1).
Qed.

(** ** An example *)

Definition sue_entry : Entry := MkEntry (B "cn=sue,dc=test") (sue_attrs (B "userPassword")).

Definition sue_store : fakeStore := <[B "cn=sue,dc=test" := sue_entry]> suffix_store.

Definition sue_dn : DN := the_dn (B "cn=sue,dc=test").

(** Two failures lock for a minute. *)
Definition lock_policy : PasswordPolicy := MkPasswordPolicy 0 0 0 2 (60 * nano) [].

Definition lock_options : AuthOptions := MkAuthOptions false true None (λ _, false) (Some (lock_policy, toy_hasher)) 5.

Definition guesses : list (Z * bytes) := [(1000 * nano, B "a"); (1001 * nano + 5, B "b")].

Definition locked_store : fakeStore :=
  match ut_Replace (UpdateTx := fake_tx (U := ascii_unicode)) sue_store (with_lock (U := ascii_unicode) sue_entry (1001 * nano + 5)) with Ok st => st | Err _ => ∅ end.

Lemma sue_keys : keys_ok (U := ascii_unicode) sue_store.
Proof.
  intros k e. unfold sue_store. intros [[<- <-]|[_ H]]%lookup_insert_Some.
  - exists sue_dn. split_and!; [vm_compute; reflexivity | vm_compute; reflexivity |]. unfold no_tab_end. vm_compute. repeat constructor; discriminate.
  - destruct (suffix_store_ok k e H) as (d & H1 & H2 & _ & H3 & _). exists d. split; [exact H1 | split; [exact H2 | exact H3]].
Qed.

Lemma sue_open : open_entry (U := ascii_unicode) sue_entry.
Proof.
  split_and!; [|vm_compute; reflexivity | vm_compute; reflexivity].
  unfold unique_names, names_differ. cbn. repeat constructor.
Qed.

Lemma sue_guessed : Forall (wrong (U := ascii_unicode) toy_hasher sue_entry) guesses.
Proof.
  assert (Hm : ∀ p, existsb (λ v, ph_Verify toy_hasher v p) (Values (U := ascii_unicode) sue_entry attrUserPassword) = false →
    ¬ matches (U := ascii_unicode) toy_hasher sue_entry p) by (intros p Hp Hx; apply matches_iff in Hx; congruence).
  unfold guesses. constructor; [|constructor; [|constructor]]; (split; [discriminate | split; [apply Hm; vm_compute; reflexivity | vm_compute; reflexivity]]).
Qed.

Lemma sue_locked : ut_Replace (UpdateTx := fake_tx (U := ascii_unicode)) sue_store (with_lock (U := ascii_unicode) sue_entry (1001 * nano + 5)) = Ok locked_store.
Proof.
  unfold locked_store. destruct (ut_Replace _ _) as [st|e] eqn:E; [reflexivity|].
  assert (H : is_ok (ut_Replace (UpdateTx := fake_tx (U := ascii_unicode)) sue_store (with_lock (U := ascii_unicode) sue_entry (1001 * nano + 5))) = true)
    by (vm_compute; reflexivity). rewrite E in H. discriminate.
Qed.

(** The right password, ten seconds after the second guess. *)
Lemma lockout_witness :
  (try_bind (U := ascii_unicode) (UT := fake_tx (U := ascii_unicode)) lock_options false (B "cn=sue,dc=test")
     (try_binds (U := ascii_unicode) (UT := fake_tx (U := ascii_unicode)) lock_options false (B "cn=sue,dc=test") (∅, sue_store) guesses)
     (1011 * nano, B "hunter2")).1.2 = false.
Proof.
  refine (proj1 (proj1 (lockout (U := ascii_unicode) (UL := ascii_unicode_laws) (UT := fake_tx (U := ascii_unicode)) id (keys_ok (U := ascii_unicode))
    lock_options lock_policy toy_hasher false (B "cn=sue,dc=test") sue_dn ∅ sue_store locked_store sue_entry [(1000 * nano, B "a")] (1001 * nano + 5, B "b")
    eq_refl eq_refl (or_intror eq_refl) eq_refl _ eq_refl sue_keys _ sue_open eq_refl sue_guessed eq_refl _ sue_locked) (1011 * nano, B "hunter2") (or_intror _))).
  - vm_compute. reflexivity.
  - vm_compute. reflexivity.
  - unfold printable. vm_compute. split; [discriminate | reflexivity].
  - vm_compute. reflexivity.
Defined.

(** A minute later she is let in. *)
Example sue_returns :
  (try_bind (U := ascii_unicode) (UT := fake_tx (U := ascii_unicode)) lock_options false (B "cn=sue,dc=test") (∅, locked_store) (1061 * nano, B "hunter2")).1.2 = true.
Proof. vm_compute. reflexivity. Qed.

(** * Identity *)

(** C18.  A bind succeeds exactly when it is of version 3 and shows one of three things:
    no name or no password where anonymous binds are allowed; over a confidential
    connection, the Directory Manager's name and a password its verifier takes; or the
    name of a stored entry, not inactivated, whose gate takes the password.  The
    connection is then that subject; after a refused bind it is anonymous; and access
    control is bypassed only on the word of the Directory Manager's verifier. *)
Theorem authenticate_spec {U : Unicode} {St : Type} {UT : UpdateTx St} (opts : AuthOptions) (commit_err : option store_err) (now : Z)
    (tls : bool) (f : failures) (st : St) (version : Z) (name password : bytes) :
  let r := authenticate opts commit_err now tls f st version name password in
  let accepted := r.1.1.2 in
  (accepted = true ↔ version = 3 ∧ ∃ s, proves opts commit_err now tls f st name password s) ∧
  (if accepted then proves opts commit_err now tls f st name password r.2 else r.2 = anonymous_subject) ∧
  (BypassACI r.2 = true → ∃ dn d, ParseDN name = Ok dn ∧ dm opts = Some d ∧ EqualFold dn d = true ∧ VerifyPassword opts password = true).
Proof.
  cbv zeta. pose proof (authenticate_aux opts commit_err now tls f st version name password) as H. cbv zeta in H.
  destruct (authenticate _ _ _ _ _ _ _ _ _) as [[[res []] fs] s]; cbn [fst snd] in *.
  - destruct H as [-> Hs]. split_and!; [split; [intros _; split; [done | by exists s] | done] | done|]. by eapply proves_bypass.
  - destruct H as [-> Hn]. split_and!; [split; [done | intros Hs; by destruct Hn] | done | done].
Qed.

(** The password gate: with a policy, a password is accepted for an entry exactly
    when the account is not locked (or its lock has run out), some stored value verifies
    it, and the password is neither to be reset nor expired, by its expiration time or
    by its age; times that do not parse refuse. *)
Theorem VerifyBind_spec {U : Unicode} {St : Type} {UT : UpdateTx St} (policy : PasswordPolicy) (hasher : PasswordHasher)
    (commit_err : option store_err) (f : failures) (st : St) (dn : DN) (e : Entry) (password : bytes) (now : Z) :
  0 ≤ MaxFailures policy →
  (VerifyBind policy hasher commit_err f st dn e password now).1.2 = true ↔
  unlocked policy e now ∧ matches hasher e password ∧ fresh policy e now.
Proof. apply VerifyBind_aux. Qed.

Lemma VerifyBind_spec_witness :
  (VerifyBind (U := ascii_unicode) (UT := fake_tx (U := ascii_unicode)) lock_policy toy_hasher None ∅ sue_store sue_dn sue_entry (B "hunter2") 0).1.2 = true ↔
  unlocked (U := ascii_unicode) lock_policy sue_entry 0 ∧ matches (U := ascii_unicode) toy_hasher sue_entry (B "hunter2") ∧
  fresh (U := ascii_unicode) lock_policy sue_entry 0.
Proof.
  refine (VerifyBind_spec (U := ascii_unicode) (UT := fake_tx (U := ascii_unicode)) lock_policy toy_hasher None ∅ sue_store sue_dn sue_entry (B "hunter2") 0 _).
  vm_compute. discriminate.
Defined.

(** * Where the comments say otherwise *)

Section divergences.
Context {U : Unicode} {St : Type} {UT : UpdateTx St}.

(** A bind refused for a critical control it carries leaves the connection's earlier
    identity in place: [authenticate], which resets it, is not reached. *)
Lemma refused_bind_keeps_identity (opts : AuthOptions) (commit_err : option store_err) (now : Z) (alive : bool) (c : Auth) (f : failures) (st : St)
    (m : Message) (version : Z) (name password : bytes) :
  checkControls m ≠ None → au_subject (bo_auth (handleBind opts commit_err now alive c f st m version name password)) = au_subject c.
Proof. intros H. unfold handleBind. destruct (checkControls m); [|done]. cbn. by case_match. Qed.

(** When the lock cannot be stored, the count of failures is gone all the same. *)
Lemma lost_lock_forgets (policy : PasswordPolicy) (e : store_err) (f : failures) (st : St) (key : bytes) (dn : DN) (now : Z) :
  MaxFailures policy ≤ failed f key + 1 → recordFailure policy (Some e) f st key dn now = (delete key f, st).
Proof.
  intros H. unfold recordFailure. rewrite (proj2 (Z.leb_le _ _)) by done. f_equal. unfold writeLockAttr, Update. by case_match.
Qed.
End divergences.
