(* ===== verification/Dispatch.v ===== *)
(** Dispatch of an operation: [dispatchOp] and [handleExtended] of
    [src/internal/ldapserver/dispatch.go], [handleWhoAmI] of [ext_whoami.go] and the
    operation labels of [conn.go].

    An operation runs as the subject captured when it was read, in surroundings it does
    not control: whether its context is cancelled, the clock, the commit. *)

From S2P Require Import Prelude GoStrings DN Message Ber Decode Attr Schema Matching FilterEval StoreIface Aci Server Paging Synthetic Search SearchFacts Write FakeStore WriteOps WriteFacts TreeFacts.
Local Open Scope Z_scope.

(** [opName]. *)
Definition opName (op : Operation) : bytes :=
  let code := OpCode op in
  if code =? OpBindRequest then B "bind"
  else if code =? OpUnbindRequest then B "unbind"
  else if code =? OpSearchRequest then B "search"
  else if code =? OpModifyRequest then B "modify"
  else if code =? OpAddRequest then B "add"
  else if code =? OpDeleteRequest then B "delete"
  else if code =? OpModifyDNRequest then B "modifydn"
  else if code =? OpCompareRequest then B "compare"
  else if code =? OpAbandonRequest then B "abandon"
  else if code =? OpExtendedRequest then B "extended"
  else B "unknown".

(** What an operation takes from its surroundings; [su_abandoned] is whether its context
    is cancelled when it responds, [su_env] what a search polls. *)
Record surroundings : Type := MkSurroundings {
  su_abandoned : bool;
  su_env : OpEnv;
  su_now : bytes;
  su_uuid : bytes;
  su_commit : option store_err;
}.

Section dispatch.
Context {U : Unicode} {L : BerLib} {St : Type} {UT : UpdateTx St}.
Variable sv : Server.
Variable plugins : list (St → WriteEvent → res write_err St).
Variable reason : schema_violation → bytes.
(** The read transaction a search gets on a state. *)
Variable search_side : St → SearchTx.

(** A response unless the operation is abandoned. *)
Definition extended_reply (w : surroundings) (res : Result) (value : option bytes) : list response * Z :=
  (if su_abandoned w then [] else [(ExtendedResponse res [] value, [])], Code res).

(** [handleWhoAmI]. *)
Definition handleWhoAmI (w : surroundings) (subj : Subject) (value : bytes) : list response * Z :=
  if negb (length value =? 0)%nat then
    extended_reply w (MkResult ResultProtocolError [] (B "whoami request value must be absent")) None
  else if Anonymous subj || (String (subj_DN subj) =b? [])%ldap then extended_reply w (MkResult ResultSuccess [] []) (Some [])
  else extended_reply w (MkResult ResultSuccess [] []) (Some (B "dn:" ++ String (subj_DN subj))).

(** [handleExtended]. *)
Definition handleExtended (w : surroundings) (subj : Subject) (name value : bytes) : list response * Z :=
  if (name =b? OIDWhoAmI)%ldap then handleWhoAmI w subj value
  else
    let code := if (name =b? OIDStartTLS)%ldap then ResultUnwillingToPerform else ResultProtocolError in
    extended_reply w (MkResult code [] (B "extended operation not implemented")) None.

Definition bad_filter (op : Operation) : bool :=
  match op with
  | OpSearch r => filterHasAbsoluteSet (SFilter r)
  | _ => false
  end.

(** The state an operation leaves, its responses and its result code. *)
Definition outcome : Type := St * (list response * Z).

Definition answer (st : St) (op : Operation) (res : Result) : outcome := (st, ([(responseFor op res, [])], Code res)).

(** [dispatchOp]. *)
Definition dispatchOp (w : surroundings) (subj : Subject) (m : Message) (st : St) : outcome :=
  if bad_filter (Op m) then answer st (Op m) (MkResult ResultProtocolError [] (B "Bad search filter"))
  else
    match checkControls m with
    | Some res => answer st (Op m) res
    | None =>
      match Op m with
      | OpSearch r => (st, runSearch sv (su_env w) (search_side st) subj r (Controls m))
      | AddRequest dn attrs =>
        handleAdd sv plugins reason (su_abandoned w) (su_commit w) (su_now w) (su_uuid w) subj st dn attrs
      | ModifyRequest dn changes =>
        handleModify sv plugins reason (su_abandoned w) (su_commit w) (su_now w) subj st (Controls m) dn changes
      | DeleteRequest dn => handleDelete sv plugins reason (su_abandoned w) (su_commit w) subj st dn
      | OpModifyDN r => handleModifyDN sv plugins reason (su_abandoned w) (su_commit w) (su_now w) subj st r
      | CompareRequest dn attr value => (st, handleCompare sv reason (su_abandoned w) subj st dn attr value)
      | ExtendedRequest name value => (st, handleExtended w subj name value)
      | _ => answer st (Op m) (MkResult ResultProtocolError [] (B "unsupported operation"))
      end
    end.

End dispatch.

(** Facts of dispatch: an operation that is not abandoned gets exactly one final
    response, of its own type and last, after entries at most; what it does to the store
    is what the write handlers do. *)

(** The operation code of the final response to a request. *)
Definition final_code (op : Operation) : Z := OpCode (responseFor op (MkResult 0 [] [])).

(** Entries, and then one final response. *)
Definition answers_with (op : Operation) (rs : list response) : Prop :=
  ∃ ents r, rs = ents ++ [r] ∧ Forall (λ r, is_entry r = true) ents ∧ OpCode r.1 = final_code op.

(** An environment in which nothing is cancelled and every response is taken. *)
Definition patient (w : surroundings) : Prop :=
  su_abandoned w = false ∧ (∀ n, cancelled (su_env w) n = false) ∧ ∀ n, sends (su_env w) n = true.

Lemma one_answer (op : Operation) (r : response) : OpCode r.1 = final_code op → answers_with op [r].
Proof. intros H. exists [], r. by split_and!. Qed.

Lemma responseFor_code (op : Operation) (res : Result) : OpCode (responseFor op res) = final_code op.
Proof. unfold final_code, responseFor. by repeat case_match. Qed.

Section search.
Context {U : Unicode} {L : BerLib}.
Variable sv : Server.
Variable env : OpEnv.
Hypothesis Hc : ∀ n, cancelled env n = false.
Hypothesis Hs : ∀ n, sends env n = true.
Variable req : SearchRequest.

Lemma done_answers (n : nat) (res : Result) (cs : list Control) : answers_with (OpSearch req) (send_done env n res cs).
Proof using Hc. unfold send_done. rewrite Hc. by apply one_answer. Qed.

Lemma entries_answer (entries : list Entry) (n i : nat) (c : Z) (cs : list Control) :
  answers_with (OpSearch req) (send_entries env n i c cs entries).1.
Proof using Hc Hs.
  revert n i. induction entries as [|e entries IH]; intros n i; cbn [send_entries]; [apply done_answers|].
  rewrite Hc, Hs. cbn [negb]. destruct (IH (S n) (S i)) as (ents & r & E & He & Hr).
  destruct (send_entries env (S n) (S i) c cs entries) as [out c']. cbn [fst] in *. subst out.
  exists ((SearchResultEntry (EDN e) (Attributes e), []) :: ents), r. split_and!; [done | by constructor | done].
Qed.

Lemma synthetic_answers (e : option Entry) (diag : bytes) : answers_with (OpSearch req) (answerSynthetic sv env req e diag).1.
Proof using Hc Hs.
  unfold answerSynthetic, search_fail. destruct (negb _); [apply done_answers|]. destruct e as [e|]; [|apply done_answers].
  destruct (negb (matchFilter _ _ _)); [apply done_answers|]. rewrite Hc, Hs. cbn [negb fst].
  destruct (done_answers 1 (MkResult ResultSuccess [] []) []) as (ents & r & E & He & Hr). rewrite E.
  eexists (_ :: ents), r. split_and!; [reflexivity | by constructor | done].
Qed.

Lemma search_answers (tx : SearchTx) (subj : Subject) (controls : list Control) :
  answers_with (OpSearch req) (runSearch sv env tx subj req controls).1.
Proof using Hc Hs.
  unfold runSearch, searchRootDSE, searchSubschema, search_fail.
  destruct (beq _ _); [destruct (negb _); apply synthetic_answers|].
  destruct (ParseDN _) as [base|]; [|apply done_answers]. destruct (isSubschemaDN base); [destruct (_ || _); apply synthetic_answers|].
  destruct (parsePagedControl _ _ _ _) as [page|res]; [|apply done_answers].
  destruct (search_view _ _ _ _ _ _) as [st stop].
  assert (Hfin : answers_with (OpSearch req)
    (let '(pageControls, paged) := applyPaging (sv_hmac sv) (matched st) page (effective_size sv req) in
     send_entries env (polls st) 0 (code st) pageControls match paged with Some p => pg_out p | None => matched st end).1).
  { destruct (applyPaging _ _ _ _). apply entries_answer. }
  destruct stop as [[| |[]]|]; rewrite ?Hc; first [exact Hfin | apply done_answers].
Qed.
End search.

Section dispatch.
Context {U : Unicode} {L : BerLib} {St : Type} {UT : UpdateTx St}.
Variable sv : Server.
Variable plugins : list (St → WriteEvent → res write_err St).
Variable reason : schema_violation → bytes.
Variable search_side : St → SearchTx.

Lemma finish_answers (op : Operation) (mk : Result → Operation) (r : St * option write_err) :
  (∀ res, OpCode (mk res) = final_code op) → answers_with op (finish reason false mk r).2.1.
Proof using Type. intros H. unfold finish. destruct r. apply one_answer, H. Qed.

Lemma respond_answers (op : Operation) (mk : Result → Operation) (res : Result) :
  (∀ res, OpCode (mk res) = final_code op) → answers_with op (respond false mk res).1.
Proof using Type. intros H. apply one_answer, H. Qed.

Lemma extended_answers (w : surroundings) (subj : Subject) (name value : bytes) :
  su_abandoned w = false → answers_with (ExtendedRequest name value) (handleExtended w subj name value).1.
Proof using Type.
  intros H. unfold handleExtended, handleWhoAmI, extended_reply. rewrite H. repeat case_match; by apply one_answer.
Qed.

Lemma dispatch_answers (w : surroundings) (subj : Subject) (m : Message) (st : St) :
  patient w → answers_with (Op m) (dispatchOp sv plugins reason search_side w subj m st).2.1.
Proof using Type.
  intros (Ha & Hc & Hs). unfold dispatchOp, answer.
  destruct (bad_filter (Op m)); [apply one_answer, responseFor_code|].
  destruct (checkControls m); [apply one_answer, responseFor_code|].
  destruct (Op m) eqn:E; cbn [snd fst]; rewrite ?Ha; try (by apply one_answer, responseFor_code).
  - by apply search_answers.
  - unfold handleModify. destruct (parseAssertionFilter _) as [a|]; [|by apply respond_answers].
    destruct (ParseDN _); [by apply finish_answers | by apply respond_answers].
  - unfold handleAdd. destruct (ParseDN _); [|by apply respond_answers]. destruct (negb _); [by apply respond_answers | by apply finish_answers].
  - unfold handleDelete. destruct (ParseDN _); [by apply finish_answers | by apply respond_answers].
  - unfold handleModifyDN, modifydn_refused.
    destruct (ParseDN (MDN r)) as [dn|]; [|by apply respond_answers]. destruct (ParseDN (NewRDN r)) as [rdn|]; [|by apply respond_answers].
    destruct (negb (_ =? _)%nat); [by apply respond_answers|].
    match goal with |- context [match (if ?b then ?x else ?y) with inl _ => _ | inr _ => _ end] => destruct (if b then x else y) as [sup|r'] eqn:Es end.
    + repeat match goal with |- context [if ?b then _ else _] => destruct b end; by first [apply finish_answers | apply respond_answers].
    + assert (Er : ∃ code diag, r' = respond false ModifyDNResponse (MkResult code [] diag)) by (repeat case_match; simplify_eq; by do 2 eexists).
      destruct Er as (code & diag & ->). by apply respond_answers.
  - unfold handleCompare. destruct (ParseDN _); [|by apply respond_answers]. destruct (compare_fn _ _ _ _ _ _); by apply respond_answers.
  - by apply extended_answers.
Qed.

(** The store an operation leaves is what the write of the same content leaves. *)
Definition as_write (w : surroundings) (subj : Subject) (m : Message) : option write_call :=
  (λ r, MkWriteCall r subj (su_now w) (su_uuid w) (su_abandoned w) (su_commit w)) <$>
  match Op m with
  | AddRequest dn attrs => Some (AddOf dn attrs)
  | ModifyRequest dn changes => Some (ModifyOf (Controls m) dn changes)
  | DeleteRequest dn => Some (DeleteOf dn)
  | OpModifyDN r => Some (RenameOf r)
  | _ => None
  end.

Lemma dispatch_store (w : surroundings) (subj : Subject) (m : Message) (st : St) :
  (dispatchOp sv plugins reason search_side w subj m st).1 = st ∨
  ∃ c, as_write w subj m = Some c ∧ (dispatchOp sv plugins reason search_side w subj m st).1 = handle_write sv plugins reason st c.
Proof using Type.
  unfold dispatchOp, answer, as_write. destruct (bad_filter (Op m)); [by left|]. destruct (checkControls m); [by left|].
  destruct (Op m); cbn [fmap option_fmap option_map]; first [by left | right; by eexists].
Qed.
End dispatch.
