(* ===== verification/Conn.v ===== *)
(** Connections: [src/internal/ldapserver/conn.go] and [starttls.go].

    The read loop handles bind, unbind, abandon and StartTLS itself and gives every
    other request to a worker, under a semaphore and a table of operations in flight.
    A connection runs by events: a turn, a message or a failure the read loop sees, a worker's
    next action (running its operation, leaving the table, giving its slot back), or a
    change others make to the store and the bind failures.  Workers are named by a
    counter; the table holds the worker whose cancel function is registered under a
    message ID. *)

From S2P Require Import Prelude GoStrings GoTime PwHash DN Message Ber Decode Attr Schema Matching FilterEval StoreIface Aci Server Paging Synthetic Search Framing Write WriteOps Password Bind Dispatch.
Local Open Scope Z_scope.

(** Where a worker is: its operation still runs, has been dispatched, or has left the
    table and only holds its slot. *)
Inductive phase : Type := Running | Dispatched | Unregistered.

#[export] Instance phase_eq_dec : EqDecision phase.
Proof. solve_decision. Defined.

(** One goroutine of [spawnOp]: its message, the subject its context carries
    ([operationContext]) and whether that context is cancelled. *)
Record worker : Type := MkWorker {
  w_msg : Message;
  w_subject : Subject;
  w_cancelled : bool;
  w_phase : phase;
}.

Definition cancel_worker (w : worker) : worker := MkWorker (w_msg w) (w_subject w) true (w_phase w).

Definition set_phase (w : worker) (p : phase) : worker := MkWorker (w_msg w) (w_subject w) (w_cancelled w) p.

(** [conn]; [c_slots] is the number of tokens in [sem], [c_next] the next worker. *)
Record conn : Type := MkConn {
  c_auth : Auth;
  c_open : bool;
  c_slots : Z;
  c_inflight : gmap Z nat;
  c_workers : gmap nat worker;
  c_next : nat;
}.

(** [newConn]: nobody is bound, which is not the same as anonymous. *)
Definition newConn (tls : bool) : conn := MkConn (MkAuth (MkSubject (MkDN []) false false) 0 tls) true 0 ∅ ∅ 0.

Definition with_auth (c : conn) (a : Auth) : conn := MkConn a (c_open c) (c_slots c) (c_inflight c) (c_workers c) (c_next c).

Definition with_workers (c : conn) (ws : gmap nat worker) : conn := MkConn (c_auth c) (c_open c) (c_slots c) (c_inflight c) ws (c_next c).

(** [close]: the context of the connection is the parent of every operation's. *)
Definition close (c : conn) : conn :=
  MkConn (c_auth c) false (c_slots c) (c_inflight c) (cancel_worker <$> c_workers c) (c_next c).

Definition outstandingCount (c : conn) : nat := size (c_inflight c).

(** [registerInflight]; [None] is a duplicate. *)
Definition registerInflight (c : conn) (id : Z) (g : nat) : option (gmap Z nat) :=
  match c_inflight c !! id with
  | Some _ => None
  | None => Some (<[id := g]> (c_inflight c))
  end.

(** [abandon]. *)
Definition abandon (c : conn) (id : Z) : conn :=
  match c_inflight c !! id with
  | Some g => with_workers c (alter cancel_worker g (c_workers c))
  | None => c
  end.

(** What the server reads of its options here. *)
Record ConnOptions : Type := MkConnOptions {
  co_auth : AuthOptions;
  co_limits : Limits;
  AllowStartTLS : bool;
  (** [opts.TLSConfig ≠ nil] *)
  has_TLSConfig : bool;
}.

Section conn.
Variable opts : ConnOptions.

(** [spawnOp]: the connection it leaves and what it answers at once. *)
Definition spawnOp (c : conn) (m : Message) : conn * list Message :=
  if MaxOutstandingOps (co_limits opts) <=? c_slots c then
    (c, [MkMessage (ID m) (responseFor (Op m) (MkResult ResultBusy [] (B "too many outstanding operations"))) []])
  else
    match registerInflight c (ID m) (c_next c) with
    | None => (c, [MkMessage (ID m) (responseFor (Op m) (MkResult ResultProtocolError [] (B "duplicate message ID in flight"))) []])
    | Some table =>
      (MkConn (c_auth c) (c_open c) (c_slots c + 1) table
         (<[c_next c := MkWorker m (au_subject (c_auth c)) (negb (c_open c)) Running]> (c_workers c)) (S (c_next c)), [])
    end.

Definition extended (m : Message) (res : Result) : Message := MkMessage (ID m) (ExtendedResponse res [] None) [].

(** Why StartTLS is refused, if it is. *)
Definition starttls_refusal (c : conn) (m : Message) (value : bytes) : option Result :=
  match checkControls m with
  | Some res => Some res
  | None =>
    if negb (AllowStartTLS opts) || negb (has_TLSConfig opts) then Some (refuse ResultUnwillingToPerform (B "StartTLS is not enabled"))
    else if (0 <? length value)%nat then Some (refuse ResultProtocolError (B "StartTLS request must not carry a value"))
    else if isTLS (c_auth c) then Some (refuse ResultUnwillingToPerform (B "connection is already TLS"))
    else if (0 <? outstandingCount c)%nat then Some (refuse ResultOperationsError (B "StartTLS requires no outstanding operations"))
    else None
  end.

(** The deadline of the handshake, in nanoseconds from its start. *)
Definition handshake_timeout (c : conn) : Z :=
  if negb (Anonymous (au_subject (c_auth c))) then IdleTimeout (co_limits opts) else ReadTimeout (co_limits opts).

(** [handleStartTLS]: [sent] is whether the success response could be written,
    [handshake] whether the handshake succeeds.  The transport is swapped before it. *)
Definition handleStartTLS (sent handshake : bool) (c : conn) (m : Message) (value : bytes) : conn * list Message * bool :=
  match starttls_refusal c m value with
  | Some res => (c, [extended m res], true)
  | None =>
    let out := [extended m (MkResult ResultSuccess [] [])] in
    if negb sent then (c, out, false)
    else (with_auth c (MkAuth (au_subject (c_auth c)) (failedAuth (c_auth c)) true), out, handshake)
  end.

(** [handleReadError]: the notices by cause; [closing] is [c.ctx.Err() ≠ nil]. *)
Definition handleReadError (closing : bool) (e : read_err) : list Message :=
  match e with
  | RCodec ErrEOF | RCodec ErrUnexpectedEOF => []
  | _ =>
    if closing then []
    else
      match e with
      | RCodec ErrPDUTooLarge => [disconnection_notice ResultProtocolError (B "PDU exceeds size limit")]
      | RCodec ErrMalformedPDU | RCodec ErrUnsupportedOp => [disconnection_notice ResultProtocolError (B "malformed or unsupported PDU")]
      | _ => []
      end
  end.

End conn.

(** * The connection in its surroundings *)

(** Where the read loop is: before it looks at its context, waiting for a message it will
    handle whatever happens meanwhile, or returned. *)
Inductive loop : Type := Top | Reading | Returned.

#[export] Instance loop_eq_dec : EqDecision loop.
Proof. solve_decision. Defined.

(** [sy_out] is what has been sent, in order. *)
Record system (St : Type) : Type := MkSystem {
  sy_loop : loop;
  sy_conn : conn;
  sy_failures : failures;
  sy_store : St;
  sy_out : list Message;
}.
Arguments MkSystem {St}.
Arguments sy_loop {St}.
Arguments sy_conn {St}.
Arguments sy_failures {St}.
Arguments sy_store {St}.
Arguments sy_out {St}.

Inductive event (St : Type) : Type :=
(** the read loop looks at its context *)
| EvTop
(** the read loop gets a message; a bind's commit and clock, a StartTLS's write and handshake *)
| EvRead (commit_err : option store_err) (now : Z) (sent handshake : bool) (m : Message)
| EvReadError (e : read_err)
(** the server shuts down *)
| EvShutdown
(** a worker dispatches its operation, leaves the table, gives its slot back *)
| EvRun (g : nat) (w : surroundings)
| EvUnregister (g : nat)
| EvRelease (g : nat)
(** other connections *)
| EvWorld (f : failures) (st : St).
Arguments EvTop {St}.
Arguments EvRead {St}.
Arguments EvReadError {St}.
Arguments EvShutdown {St}.
Arguments EvRun {St}.
Arguments EvUnregister {St}.
Arguments EvRelease {St}.
Arguments EvWorld {St}.

Section serve.
Context {U : Unicode} {L : BerLib} {St : Type} {UT : UpdateTx St}.
Variable opts : ConnOptions.
Variable sv : Server.
Variable plugins : list (St → WriteEvent → res write_err St).
Variable reason : schema_violation → bytes.
Variable search_side : St → SearchTx.

(** Sends reach the peer while the connection is open. *)
Definition emit (open : bool) (out ms : list Message) : list Message := if open then out ++ ms else out.

(** One turn of [serve] that reads [m]. *)
Definition serve_message (commit_err : option store_err) (now : Z) (sent handshake : bool) (m : Message) (s : system St) : system St :=
  let c := sy_conn s in
  match Op m with
  | BindRequest version name password =>
    let o := handleBind (co_auth opts) commit_err now (c_open c) (c_auth c) (sy_failures s) (sy_store s) m version name password in
    let c' := with_auth c (bo_auth o) in
    MkSystem (if bo_open o then Top else Returned) (if bo_open o then c' else close c') (bo_failures o) (bo_store o) (emit (c_open c) (sy_out s) (bo_sends o))
  | UnbindRequest => MkSystem Returned (close c) (sy_failures s) (sy_store s) (sy_out s)
  | AbandonRequest id => MkSystem Top (abandon c id) (sy_failures s) (sy_store s) (sy_out s)
  | ExtendedRequest name value =>
    if (name =b? OIDStartTLS)%ldap then
      let '(c', out, open) := handleStartTLS opts sent handshake c m value in
      MkSystem (if open then Top else Returned) (if open then c' else close c') (sy_failures s) (sy_store s) (emit (c_open c) (sy_out s) out)
    else let '(c', out) := spawnOp opts c m in MkSystem Top c' (sy_failures s) (sy_store s) (emit (c_open c) (sy_out s) out)
  | _ => let '(c', out) := spawnOp opts c m in MkSystem Top c' (sy_failures s) (sy_store s) (emit (c_open c) (sy_out s) out)
  end.

Definition serve_error (e : read_err) (s : system St) : system St :=
  let c := sy_conn s in
  MkSystem Returned (close c) (sy_failures s) (sy_store s) (emit (c_open c) (sy_out s) (handleReadError (negb (c_open c)) e)).

(** The responses of an operation as messages under its ID. *)
Definition replies (m : Message) (rs : list response) : list Message := (λ r, MkMessage (ID m) r.1 r.2) <$> rs.

(** A worker runs [dispatchOp]. *)
Definition run_worker (g : nat) (w : worker) (su : surroundings) (s : system St) : system St :=
  let '(st, (rs, _)) := dispatchOp sv plugins reason search_side su (w_subject w) (w_msg w) (sy_store s) in
  MkSystem (sy_loop s) (with_workers (sy_conn s) (<[g := set_phase w Dispatched]> (c_workers (sy_conn s)))) (sy_failures s) st
    (emit (c_open (sy_conn s)) (sy_out s) (replies (w_msg w) rs)).

(** [unregisterInflight]. *)
Definition unregister_worker (g : nat) (w : worker) (s : system St) : system St :=
  let c := sy_conn s in
  MkSystem (sy_loop s) (MkConn (c_auth c) (c_open c) (c_slots c) (delete (ID (w_msg w)) (c_inflight c)) (<[g := set_phase w Unregistered]> (c_workers c)) (c_next c))
    (sy_failures s) (sy_store s) (sy_out s).

(** The token goes back and the goroutine ends. *)
Definition release_worker (g : nat) (s : system St) : system St :=
  let c := sy_conn s in
  MkSystem (sy_loop s) (MkConn (c_auth c) (c_open c) (c_slots c - 1) (c_inflight c) (delete g (c_workers c)) (c_next c))
    (sy_failures s) (sy_store s) (sy_out s).

(** Nothing is cancelled under an operation whose context is not. *)
Definition faithful (w : worker) (su : surroundings) : Prop :=
  w_cancelled w = false → su_abandoned su = false ∧ ∀ n, cancelled (su_env su) n = false.

(** The check before a read: a connection that is closed is left. *)
Definition serve_top (s : system St) : system St :=
  let c := sy_conn s in
  MkSystem (if c_open c then Reading else Returned) (if c_open c then c else close c) (sy_failures s) (sy_store s) (sy_out s).

Inductive step : system St → event St → system St → Prop :=
| step_top s : sy_loop s = Top → step s EvTop (serve_top s)
| step_read s ce now sent hs m :
    sy_loop s = Reading → step s (EvRead ce now sent hs m) (serve_message ce now sent hs m s)
| step_error s e : sy_loop s = Reading → step s (EvReadError e) (serve_error e s)
| step_shutdown s : step s EvShutdown (MkSystem (sy_loop s) (close (sy_conn s)) (sy_failures s) (sy_store s) (sy_out s))
| step_run s g w su :
    c_workers (sy_conn s) !! g = Some w → w_phase w = Running → faithful w su → step s (EvRun g su) (run_worker g w su s)
| step_unregister s g w :
    c_workers (sy_conn s) !! g = Some w → w_phase w = Dispatched → step s (EvUnregister g) (unregister_worker g w s)
| step_release s g w :
    c_workers (sy_conn s) !! g = Some w → w_phase w = Unregistered → step s (EvRelease g) (release_worker g s)
| step_world s f st : step s (EvWorld f st) (MkSystem (sy_loop s) (sy_conn s) f st (sy_out s)).

Inductive steps : system St → list (event St) → system St → Prop :=
| steps_nil s : steps s [] s
| steps_snoc s l s' e s'' : steps s l s' → step s' e s'' → steps s (l ++ [e]) s''.

(** A fresh connection. *)
Definition started (tls : bool) (f : failures) (st : St) : system St := MkSystem Top (newConn tls) f st [].

End serve.
