(* ===== verification/ConnFacts.v ===== *)
(** Facts of connections: the bookkeeping of workers, the subject an operation runs as,
    who bypasses access control, that workers come to an end and answer, and that the
    directory stays in order under everything a connection does. *)

From stdpp Require Import sorting.
From S2P Require Import Prelude GoStrings DN DNFacts Message RenameFacts Ber Decode Attr Schema Matching FilterEval StoreIface Aci Server Base64 Paging PagingFacts Synthetic Search SearchFacts Framing Write FakeStore WriteOps WriteFacts TreeFacts GoTime PwHash Password PasswordFacts Credentials Bind Dispatch Conn.
Local Open Scope Z_scope.

(** * Bookkeeping *)

(** A worker that is still in the table. *)
Definition active (w : worker) : Prop := w_phase w ≠ Unregistered.

Record conn_ok (max : Z) (c : conn) : Prop := {
  co_slots : c_slots c = Z.of_nat (size (c_workers c));
  co_bound : c_slots c ≤ max;
  co_table : ∀ id g, c_inflight c !! id = Some g ↔ ∃ w, c_workers c !! g = Some w ∧ ID (w_msg w) = id ∧ active w;
  co_next : ∀ g w, c_workers c !! g = Some w → (g < c_next c)%nat;
  co_closed : c_open c = false → ∀ g w, c_workers c !! g = Some w → w_cancelled w = true;
}.

Lemma newConn_ok (max : Z) (tls : bool) : 0 ≤ max → conn_ok max (newConn tls).
Proof.
  intros H. split; cbn; try done.
  intros id g. rewrite lookup_empty. split; [done|]. intros (w & Hw & _). by rewrite lookup_empty in Hw.
Qed.

(** Workers may be cancelled at any time. *)
Lemma cancel_some (max : Z) (c : conn) (ws : gmap nat worker) (open : bool) :
  conn_ok max c → (∀ g, ws !! g = c_workers c !! g ∨ ws !! g = cancel_worker <$> c_workers c !! g) →
  (open = false → ∀ g w, ws !! g = Some w → w_cancelled w = true) →
  conn_ok max (MkConn (c_auth c) open (c_slots c) (c_inflight c) ws (c_next c)).
Proof.
  intros [Hs Hb Ht Hn _] Hw Ho.
  assert (Hsome : ∀ g w, ws !! g = Some w → ∃ w0, c_workers c !! g = Some w0 ∧ w_msg w = w_msg w0 ∧ w_phase w = w_phase w0).
  { intros g w Hg. destruct (Hw g) as [E|E]; rewrite Hg in E; [by exists w|]. destruct (c_workers c !! g) as [w0|]; [|done]. injection E as ->. by exists w0. }
  assert (Hback : ∀ g w0, c_workers c !! g = Some w0 → ∃ w, ws !! g = Some w ∧ w_msg w = w_msg w0 ∧ w_phase w = w_phase w0).
  { intros g w0 Hg. destruct (Hw g) as [E|E]; rewrite Hg in E; [by exists w0|]. cbn in E. by exists (cancel_worker w0). }
  assert (Ed : size ws = size (c_workers c)).
  { rewrite <- !size_dom. f_equal. apply set_eq. intros g. rewrite !elem_of_dom. split; intros [w Hg].
    - destruct (Hsome g w Hg) as (w0 & ? & _). by exists w0.
    - destruct (Hback g w Hg) as (w0 & ? & _). by exists w0. }
  split; cbn; [by rewrite Ed | done | | | exact Ho].
  - intros id g. rewrite Ht. split; intros (w & Hg & Hid & Ha).
    + destruct (Hback g w Hg) as (w' & ? & Em & Ep). exists w'. unfold active in *. by rewrite Em, Ep.
    + destruct (Hsome g w Hg) as (w' & ? & Em & Ep). exists w'. unfold active in *. by rewrite <- Em, <- Ep.
  - intros g w Hg. destruct (Hsome g w Hg) as (w0 & ? & _). by eapply Hn.
Qed.

Lemma close_ok (max : Z) (c : conn) : conn_ok max c → conn_ok max (close c).
Proof.
  intros H. apply cancel_some; [done | |].
  - intros g. right. by rewrite lookup_fmap.
  - intros _ g w. rewrite lookup_fmap. destruct (c_workers c !! g); cbn; [by intros [= <-] | done].
Qed.

Lemma with_auth_ok (max : Z) (c : conn) (a : Auth) : conn_ok max c → conn_ok max (with_auth c a).
Proof. by intros []. Qed.

Lemma abandon_ok (max : Z) (c : conn) (id : Z) : conn_ok max c → conn_ok max (abandon c id).
Proof.
  intros H. unfold abandon. destruct (c_inflight c !! id) as [g|]; [|done]. apply cancel_some; [done | |].
  - intros g'. destruct (decide (g = g')) as [<-|]; [right; by rewrite lookup_alter_eq | left; by rewrite lookup_alter_ne].
  - intros Ho g' w Hw. destruct (decide (g = g')) as [<-|Hne].
    + rewrite lookup_alter_eq in Hw. destruct (c_workers c !! g); [|done]. by injection Hw as <-.
    + rewrite lookup_alter_ne in Hw by done. by eapply (co_closed max c H).
Qed.

(** What [spawnOp] does: a refusal, or a new worker under the current subject. *)
Lemma spawnOp_cases (opts : ConnOptions) (c : conn) (m : Message) :
  let max := MaxOutstandingOps (co_limits opts) in
  ((max ≤ c_slots c ∨ is_Some (c_inflight c !! ID m)) ∧ (spawnOp opts c m).1 = c ∧
     ∃ r, (spawnOp opts c m).2 = [r] ∧ ID r = ID m ∧ OpCode (Op r) = final_code (Op m)) ∨
  (c_slots c < max ∧ c_inflight c !! ID m = None ∧
     spawnOp opts c m = (MkConn (c_auth c) (c_open c) (c_slots c + 1) (<[ID m := c_next c]> (c_inflight c))
       (<[c_next c := MkWorker m (au_subject (c_auth c)) (negb (c_open c)) Running]> (c_workers c)) (S (c_next c)), [])).
Proof.
  cbv zeta. unfold spawnOp, registerInflight. destruct (Z.leb_spec (MaxOutstandingOps (co_limits opts)) (c_slots c)).
  - left. split_and!; [by left | done|]. eexists. split_and!; [done | done | apply responseFor_code].
  - destruct (c_inflight c !! ID m) as [g|] eqn:E; [left | right; by split_and!].
    split_and!; [right; by eexists | done|]. eexists. split_and!; [done | done | apply responseFor_code].
Qed.

Lemma spawn_ok (opts : ConnOptions) (c : conn) (m : Message) :
  let max := MaxOutstandingOps (co_limits opts) in
  conn_ok max c → conn_ok max (spawnOp opts c m).1.
Proof.
  cbv zeta. intros H. destruct (spawnOp_cases opts c m) as [(_ & -> & _)|(Hlt & Hf & ->)]; [done|]. destruct H as [Hs Hb Ht Hn Hc].
  assert (Hfree : c_workers c !! c_next c = None).
  { destruct (c_workers c !! c_next c) as [w|] eqn:E; [|done]. apply Hn in E. lia. }
  split; cbn [fst c_slots c_workers c_inflight c_next c_open].
  - rewrite map_size_insert_None by done. lia.
  - lia.
  - intros id g. destruct (decide (g = c_next c)) as [->|Hg].
    + rewrite lookup_insert_eq. split.
      * destruct (decide (id = ID m)) as [->|Hid]; [intros _; eexists; split_and!; [done | done | done]|].
        rewrite lookup_insert_ne by done. intros (w & E & _)%Ht. by rewrite Hfree in E.
      * intros (w & [= <-] & <- & _). by rewrite lookup_insert_eq.
    + rewrite (lookup_insert_ne (c_workers c)) by done. rewrite <- Ht. destruct (decide (id = ID m)) as [->|Hid].
      * rewrite lookup_insert_eq, Hf. split; [intros [= E]; congruence | done].
      * by rewrite lookup_insert_ne.
  - intros g w [[<- _]|[_ Hg]]%lookup_insert_Some; [lia|]. apply Hn in Hg. lia.
  - intros Ho g w [[_ <-]|[_ Hg]]%lookup_insert_Some; [cbn; by rewrite Ho | by eapply Hc].
Qed.

(** A worker that moves on. *)
Lemma run_ok (max : Z) (c : conn) (g : nat) (w : worker) :
  conn_ok max c → c_workers c !! g = Some w → w_phase w = Running → conn_ok max (with_workers c (<[g := set_phase w Dispatched]> (c_workers c))).
Proof.
  intros [Hs Hb Ht Hn Hc] Hg Hp. split; cbn.
  - rewrite map_size_insert_Some; [done | by eexists].
  - done.
  - intros id g'. rewrite Ht. destruct (decide (g = g')) as [<-|Hne]; [|by rewrite lookup_insert_ne].
    rewrite lookup_insert_eq, Hg. unfold active. split; intros (w' & [= <-] & Hid & _); eexists; split_and!; try done. by rewrite Hp.
  - intros g' w' [[<- _]|[_ Hg']]%lookup_insert_Some; by eapply Hn.
  - intros Ho g' w' [[<- <-]|[_ Hg']]%lookup_insert_Some; [by apply (Hc Ho g w) | by eapply Hc].
Qed.

Lemma unregister_ok (max : Z) (c : conn) (g : nat) (w : worker) :
  conn_ok max c → c_workers c !! g = Some w → w_phase w = Dispatched →
  conn_ok max (MkConn (c_auth c) (c_open c) (c_slots c) (delete (ID (w_msg w)) (c_inflight c)) (<[g := set_phase w Unregistered]> (c_workers c)) (c_next c)).
Proof.
  intros [Hs Hb Ht Hn Hc] Hg Hp.
  assert (Hid : c_inflight c !! ID (w_msg w) = Some g) by (apply Ht; exists w; split_and!; [done | done | unfold active; by rewrite Hp]).
  split; cbn.
  - rewrite map_size_insert_Some; [done | by eexists].
  - done.
  - intros id g'. destruct (decide (g = g')) as [<-|Hne].
    + rewrite lookup_insert_eq. split; [|by intros (w' & [= <-] & _ & Ha)]. intros [Hne Hid']%lookup_delete_Some. exfalso. apply Ht in Hid' as (w' & Hw' & E & _).
      rewrite Hg in Hw'. injection Hw' as <-. done.
    + rewrite lookup_insert_ne by done. rewrite <- Ht. split; [by intros [_ ?]%lookup_delete_Some|]. intros Hid'.
      rewrite lookup_delete_ne; [done|]. intros <-. congruence.
  - intros g' w' [[<- _]|[_ Hg']]%lookup_insert_Some; by eapply Hn.
  - intros Ho g' w' [[<- <-]|[_ Hg']]%lookup_insert_Some; [by apply (Hc Ho g w) | by eapply Hc].
Qed.

Lemma release_ok (max : Z) (c : conn) (g : nat) (w : worker) :
  conn_ok max c → c_workers c !! g = Some w → w_phase w = Unregistered →
  conn_ok max (MkConn (c_auth c) (c_open c) (c_slots c - 1) (c_inflight c) (delete g (c_workers c)) (c_next c)).
Proof.
  intros [Hs Hb Ht Hn Hc] Hg Hp.
  assert (Hsz : (0 < size (c_workers c))%nat).
  { destruct (decide (size (c_workers c) = 0%nat)) as [E|]; [|lia]. apply map_size_empty_inv in E. by rewrite E, lookup_empty in Hg. }
  split; cbn.
  - rewrite map_size_delete_Some by by eexists. lia.
  - lia.
  - intros id g'. rewrite Ht. destruct (decide (g = g')) as [<-|Hne]; [|by rewrite lookup_delete_ne].
    rewrite lookup_delete_eq. split; [|by intros (? & ? & _)]. intros (w' & Hw' & _ & Ha). exfalso. apply Ha. congruence.
  - intros g' w' [_ Hg']%lookup_delete_Some. by eapply Hn.
  - intros Ho g' w' [_ Hg']%lookup_delete_Some. by eapply Hc.
Qed.

(** * The connection as a whole *)

Section system.
Context {U : Unicode} {L : BerLib} {St : Type} {UT : UpdateTx St}.
Variable opts : ConnOptions.
Variable sv : Server.
Variable plugins : list (St → WriteEvent → res write_err St).
Variable reason : schema_violation → bytes.
Variable search_side : St → SearchTx.

Local Abbreviation step := (step opts sv plugins reason search_side).
Local Abbreviation steps := (steps opts sv plugins reason search_side).

Local Abbreviation max := (MaxOutstandingOps (co_limits opts)).

(** The two things a read message does to the table and the workers: nothing, or a spawn
    under the current subject; the others only change the identity or cancel. *)
Inductive reads (s : system St) (m : Message) : conn → Prop :=
| reads_spawn : (match Op m with BindRequest _ _ _ | UnbindRequest | AbandonRequest _ => False | _ => True end) → reads s m (spawnOp opts (sy_conn s) m).1
| reads_bind a : reads s m (with_auth (sy_conn s) a)
| reads_refused a : reads s m (close (with_auth (sy_conn s) a))
| reads_close : reads s m (close (sy_conn s))
| reads_abandon id : reads s m (abandon (sy_conn s) id)
| reads_same : reads s m (sy_conn s).

Lemma serve_reads (ce : option store_err) (now : Z) (sent hs : bool) (m : Message) (s : system St) :
  reads s m (sy_conn (serve_message opts ce now sent hs m s)).
Proof.
  assert (Hsp : (match Op m with BindRequest _ _ _ | UnbindRequest | AbandonRequest _ => False | _ => True end) →
    reads s m (sy_conn (let '(c', out) := spawnOp opts (sy_conn s) m in MkSystem Top c' (sy_failures s) (sy_store s) (emit (c_open (sy_conn s)) (sy_out s) out)))).
  { intros Hm. replace (sy_conn _) with (spawnOp opts (sy_conn s) m).1 by by destruct (spawnOp opts (sy_conn s) m). by apply reads_spawn. }
  unfold serve_message. destruct (Op m) eqn:E; try (by apply Hsp).
  - cbn. destruct (bo_open _); [apply (reads_bind s m) | apply (reads_refused s m)].
  - cbn. apply (reads_close s m).
  - cbn. apply (reads_abandon s m).
  - destruct (beq _ _).
    + unfold handleStartTLS. destruct (starttls_refusal _ _ _ _); [apply (reads_same s m)|]. destruct sent; cbn [negb].
      * destruct hs; [apply (reads_bind s m) | apply (reads_refused s m)].
      * apply (reads_close s m).
    + by apply Hsp.
Qed.

(** Which connection a step leaves. *)
Lemma step_ok (s s' : system St) (e : event St) : step s e s' → conn_ok max (sy_conn s) → conn_ok max (sy_conn s').
Proof.
  intros H Hc. destruct H as [s Ho | s ce now sent hs m Ho | s e Ho | s | s g w su Hg Hp Hf | s g w Hg Hp | s g w Hg Hp | s f st].
  - cbn. destruct (c_open _); [done | by apply close_ok].
  - destruct (serve_reads ce now sent hs m s); first [by apply spawn_ok | by apply with_auth_ok | by apply close_ok, with_auth_ok | by apply close_ok | by apply abandon_ok | done].
  - by apply close_ok.
  - by apply close_ok.
  - unfold run_worker. destruct (dispatchOp _ _ _ _ _ _ _ _) as [st [rs c]]. by apply run_ok.
  - by apply unregister_ok.
  - by eapply release_ok.
  - done.
Qed.

Lemma steps_ok (s s' : system St) (l : list (event St)) : steps s l s' → conn_ok max (sy_conn s) → conn_ok max (sy_conn s').
Proof. induction 1; [done|]. intros Hc. eapply step_ok; [done|]. auto. Qed.

(** ** Where workers come from *)

Lemma close_worker (c : conn) (g : nat) (w : worker) :
  c_workers (close c) !! g = Some w → ∃ w0, c_workers c !! g = Some w0 ∧ w_msg w = w_msg w0 ∧ w_subject w = w_subject w0.
Proof. cbn. rewrite lookup_fmap. destruct (c_workers c !! g) as [w0|]; cbn; [intros [= <-]; by exists w0 | done]. Qed.

Lemma abandon_worker (c : conn) (id : Z) (g : nat) (w : worker) :
  c_workers (abandon c id) !! g = Some w → ∃ w0, c_workers c !! g = Some w0 ∧ w_msg w = w_msg w0 ∧ w_subject w = w_subject w0.
Proof.
  unfold abandon. destruct (c_inflight c !! id) as [g'|]; [|by exists w]. cbn. destruct (decide (g' = g)) as [->|Hne].
  - rewrite lookup_alter_eq. destruct (c_workers c !! g) as [w0|]; cbn; [intros [= <-]; by exists w0 | done].
  - rewrite lookup_alter_ne by done. by exists w.
Qed.

Lemma spawn_worker (c : conn) (m : Message) (g : nat) (w : worker) :
  c_workers (spawnOp opts c m).1 !! g = Some w →
  c_workers c !! g = Some w ∨ w_msg w = m ∧ w_subject w = au_subject (c_auth c) ∧ g = c_next c.
Proof.
  destruct (spawnOp_cases opts c m) as [(_ & -> & _)|(_ & _ & ->)]; [by left|]. cbn.
  intros [[<- <-]|[_ ?]]%lookup_insert_Some; [by right | by left].
Qed.

(** A worker after a step was there before, with its message and subject, or has just
    been read, with the subject of that moment. *)
Lemma step_worker (s s' : system St) (e : event St) (g : nat) (w : worker) :
  step s e s' → c_workers (sy_conn s') !! g = Some w →
  (∃ w0, c_workers (sy_conn s) !! g = Some w0 ∧ w_msg w = w_msg w0 ∧ w_subject w = w_subject w0) ∨
  ∃ ce now sent hs, e = EvRead ce now sent hs (w_msg w) ∧ sy_loop s = Reading ∧ w_subject w = au_subject (c_auth (sy_conn s)) ∧ g = c_next (sy_conn s).
Proof.
  intros H Hw. destruct H as [s Ho | s ce now sent hs m Ho | s e Ho | s | s g' w' su Hg Hp Hf | s g' w' Hg Hp | s g' w' Hg Hp | s f st].
  - left. revert Hw. cbn. destruct (c_open _); [by exists w | apply close_worker].
  - destruct (serve_reads ce now sent hs m s).
    + apply spawn_worker in Hw as [?|(Em & Es & Eg)]; [left; by exists w | right]. exists ce, now, sent, hs. by rewrite Em.
    + left. by exists w.
    + left. by apply close_worker in Hw.
    + left. by apply close_worker in Hw.
    + left. by apply abandon_worker in Hw.
    + left. by exists w.
  - left. by apply close_worker in Hw.
  - left. by apply close_worker in Hw.
  - left. revert Hw. unfold run_worker. destruct (dispatchOp _ _ _ _ _ _ _ _) as [st [rs c]]. cbn. intros [[<- <-]|[_ ?]]%lookup_insert_Some; [by exists w' | by exists w].
  - left. revert Hw. cbn. intros [[<- <-]|[_ ?]]%lookup_insert_Some; [by exists w' | by exists w].
  - left. revert Hw. cbn. intros [_ ?]%lookup_delete_Some. by exists w.
  - left. by exists w.
Qed.

Lemma steps_worker (s0 s : system St) (l : list (event St)) (g : nat) (w : worker) :
  c_workers (sy_conn s0) = ∅ → steps s0 l s → c_workers (sy_conn s) !! g = Some w →
  ∃ l1 l2 s1 ce now sent hs, l = l1 ++ EvRead ce now sent hs (w_msg w) :: l2 ∧ steps s0 l1 s1 ∧
    sy_loop s1 = Reading ∧ au_subject (c_auth (sy_conn s1)) = w_subject w ∧ c_next (sy_conn s1) = g.
Proof.
  intros H0 H. revert w. induction H as [s|s l s' e s'' H IH He]; intros w Hw; [by rewrite H0, lookup_empty in Hw|].
  apply (step_worker s' s'' e g w He) in Hw as [(w0 & Hw0 & Em & Es)|(ce & now & sent & hs & -> & Ho & Es & Eg)].
  - destruct (IH H0 w0 Hw0) as (l1 & l2 & s1 & ce & now & sent & hs & -> & Hs & Ho & Esub & Eg).
    exists l1, (l2 ++ [e]), s1, ce, now, sent, hs. split_and!; [by rewrite Em, <- app_assoc | done | done | congruence | done].
  - exists l, [], s', ce, now, sent, hs. by split_and!.
Qed.

(** What a worker's dispatch leaves and sends. *)
Lemma run_worker_dispatches (g : nat) (w : worker) (su : surroundings) (s : system St) :
  let run := dispatchOp sv plugins reason search_side su (w_subject w) (w_msg w) (sy_store s) in
  sy_store (run_worker sv plugins reason search_side g w su s) = run.1 ∧
  sy_out (run_worker sv plugins reason search_side g w su s) = emit (c_open (sy_conn s)) (sy_out s) (replies (w_msg w) run.2.1).
Proof. cbv zeta. unfold run_worker. by destruct (dispatchOp _ _ _ _ _ _ _ _) as [st [rs c]]. Qed.

(** ** Who bypasses access control *)

(** A bind as the Directory Manager that its verifier took. *)
Definition manager_bind (e : event St) : Prop :=
  ∃ ce now sent hs m version name password dn d, e = EvRead ce now sent hs m ∧ Op m = BindRequest version name password ∧
    ParseDN name = Ok dn ∧ dm (co_auth opts) = Some d ∧ EqualFold dn d = true ∧ VerifyPassword (co_auth opts) password = true.

(** Who a connection is after a step. *)
Lemma step_subject (s s' : system St) (e : event St) :
  step s e s' → BypassACI (au_subject (c_auth (sy_conn s'))) = true → BypassACI (au_subject (c_auth (sy_conn s))) = true ∨ manager_bind e.
Proof.
  intros H. destruct H as [s Ho | s ce now sent hs m Ho | s e Ho | s | s g w su Hg Hp Hf | s g w Hg Hp | s g w Hg Hp | s f st]; try (by left).
  - cbn. destruct (c_open _); by left.
  - assert (Hsp : au_subject (c_auth (sy_conn (let '(c', out) := spawnOp opts (sy_conn s) m in
        MkSystem Top c' (sy_failures s) (sy_store s) (emit (c_open (sy_conn s)) (sy_out s) out)))) = au_subject (c_auth (sy_conn s))).
    { destruct (spawnOp_cases opts (sy_conn s) m) as [(_ & Ec & _)|(_ & _ & Ec)]; destruct (spawnOp opts (sy_conn s) m) as [c' out];
        cbn in Ec |- *; [by subst | by injection Ec as -> _]. }
    unfold serve_message. destruct (Op m) eqn:E; try (rewrite Hsp; by left).
    + cbn. unfold handleBind. destruct (checkControls m).
      { cbn. destruct (_ <=? _); cbn; by left. }
      pose proof (authenticate_aux (co_auth opts) ce now (isTLS (c_auth (sy_conn s))) (sy_failures s) (sy_store s) version name password) as Ha. cbv zeta in Ha.
      destruct (authenticate _ _ _ _ _ _ _ _ _) as [[[r []] [f st]] su]; cbn [fst snd] in Ha.
      * cbn. intros Hb. destruct Ha as [_ Ha]. destruct (proves_bypass _ _ _ _ _ _ _ _ _ Ha Hb) as (dn & d & H1 & H2 & H3 & H4).
        right. by exists ce, now, sent, hs, m, version, name, password, dn, d.
      * destruct Ha as [-> _]. cbn. destruct (_ <=? _); cbn; done.
    + by left.
    + cbn. unfold abandon. destruct (c_inflight _ !! _); by left.
    + destruct (beq _ _).
      * unfold handleStartTLS. destruct (starttls_refusal _ _ _ _); [by left|]. destruct sent, hs; by left.
      * rewrite Hsp. by left.
  - unfold run_worker. destruct (dispatchOp _ _ _ _ _ _ _ _) as [st [rs c]]. by left.
Qed.

Lemma steps_subject (s0 s : system St) (l : list (event St)) :
  BypassACI (au_subject (c_auth (sy_conn s0))) = false → steps s0 l s → BypassACI (au_subject (c_auth (sy_conn s))) = true → Exists manager_bind l.
Proof.
  intros H0. induction 1 as [s|s l s' e s'' H IH He]; [congruence|]. intros Hb. apply Exists_app.
  apply (step_subject s' s'' e He) in Hb as [Hb|Hm]; [left; by apply IH | right; by constructor].
Qed.

(** ** Workers come to an end *)

(** What a worker still has to do. *)
Definition weight (w : worker) : nat := match w_phase w with Running => 3 | Dispatched => 2 | Unregistered => 1 end.

Definition todo (ws : gmap nat worker) : nat := sum_list ((λ p, weight p.2) <$> map_to_list ws).

Lemma todo_delete (ws : gmap nat worker) (g : nat) (w : worker) : ws !! g = Some w → todo ws = (weight w + todo (delete g ws))%nat.
Proof using Type. intros H. unfold todo. by rewrite <- (map_to_list_delete ws g w H). Qed.

Lemma todo_insert (ws : gmap nat worker) (g : nat) (w w' : worker) :
  ws !! g = Some w → (todo (<[g := w']> ws) + weight w = todo ws + weight w')%nat.
Proof using Type.
  intros H. rewrite (todo_delete ws g w H), (todo_delete (<[g := w']> ws) g w') by by rewrite lookup_insert_eq.
  rewrite delete_insert_eq. lia.
Qed.

Lemma todo_empty (ws : gmap nat worker) : todo ws = 0%nat ↔ ws = ∅.
Proof using Type.
  split; [|intros ->; unfold todo; by rewrite map_to_list_empty]. intros H. apply map_empty. intros g. destruct (ws !! g) as [w|] eqn:E; [|done].
  rewrite (todo_delete ws g w E) in H. unfold weight in H. destruct (w_phase w); lia.
Qed.

Definition worker_event (e : event St) : Prop := match e with EvRun _ _ | EvUnregister _ | EvRelease _ => True | _ => False end.

(** Nothing is cancelled under the operation, and the peer takes its responses. *)
Definition patient_event (e : event St) : Prop := match e with EvRun _ su => patient su | _ => True end.

Lemma worker_step (s s' : system St) (e : event St) :
  step s e s' → worker_event e →
  S (todo (c_workers (sy_conn s'))) = todo (c_workers (sy_conn s)) ∧ c_open (sy_conn s') = c_open (sy_conn s) ∧ sy_out s `prefix_of` sy_out s'.
Proof using Type.
  intros H He. destruct H as [s Ho | s ce now sent hs m Ho | s e Ho | s | s g w su Hg Hp Hf | s g w Hg Hp | s g w Hg Hp | s f st]; try done.
  - unfold run_worker. destruct (dispatchOp _ _ _ _ _ _ _ _) as [st [rs c]]. cbn. pose proof (todo_insert _ g w (set_phase w Dispatched) Hg) as Ht.
    unfold weight in Ht. rewrite Hp in Ht. cbn in Ht. split_and!; [lia | done|]. unfold emit. destruct (c_open _); [by apply prefix_app_r | done].
  - cbn. pose proof (todo_insert _ g w (set_phase w Unregistered) Hg) as Ht. unfold weight in Ht. rewrite Hp in Ht. cbn in Ht. split_and!; [lia | done..].
  - cbn. pose proof (todo_delete _ g w Hg) as Ht. unfold weight in Ht. rewrite Hp in Ht. split_and!; [lia | done..].
Qed.

Lemma worker_steps (s s' : system St) (l : list (event St)) :
  steps s l s' → Forall worker_event l →
  (length l + todo (c_workers (sy_conn s')) = todo (c_workers (sy_conn s)))%nat ∧ c_open (sy_conn s') = c_open (sy_conn s) ∧ sy_out s `prefix_of` sy_out s'.
Proof using Type.
  induction 1 as [s|s l s' e s'' H IH He]; intros Hl; [done|]. apply Forall_app in Hl as [Hl He']. apply Forall_cons in He' as [He' _].
  destruct (IH Hl) as (H1 & H2 & H3). destruct (worker_step s' s'' e He He') as (H4 & H5 & H6). rewrite length_app. cbn [length]. split_and!; [lia | congruence | by etrans].
Qed.

(** Some worker can always go on. *)
Lemma worker_progress (s : system St) : c_workers (sy_conn s) ≠ ∅ → ∃ e s', worker_event e ∧ patient_event e ∧ step s e s'.
Proof using Type.
  intros Hne. apply map_choose in Hne as (g & w & Hg). destruct (w_phase w) eqn:Hp.
  - set (su := MkSurroundings false (MkOpEnv (λ _, false) (λ _ _, false) (λ _, true)) [] [] None).
    exists (EvRun g su), (run_worker sv plugins reason search_side g w su s). split_and!; [done | by split | by apply step_run].
  - exists (EvUnregister g), (unregister_worker g w s). split_and!; [done | done | by apply step_unregister].
  - exists (EvRelease g), (release_worker g s). split_and!; [done | done | by eapply step_release].
Qed.

(** The final response to a message has been sent. *)
Definition answered (s : system St) (m : Message) : Prop := ∃ r, r ∈ sy_out s ∧ ID r = ID m ∧ OpCode (Op r) = final_code (Op m).

Lemma run_answers (s : system St) (g : nat) (w : worker) (su : surroundings) :
  c_open (sy_conn s) = true → patient su → answered (run_worker sv plugins reason search_side g w su s) (w_msg w).
Proof using Type.
  intros Ho Hsu. unfold run_worker, answered. pose proof (dispatch_answers sv plugins reason search_side su (w_subject w) (w_msg w) (sy_store s) Hsu) as (ents & r & E & _ & Hr).
  destruct (dispatchOp _ _ _ _ _ _ _ _) as [st [rs c]]. cbn [fst snd] in E. subst rs. cbn [sy_out]. rewrite Ho. cbn [emit].
  exists (MkMessage (ID (w_msg w)) r.1 r.2). split_and!; [|done|done]. apply elem_of_app. right. unfold replies. rewrite fmap_app. apply elem_of_app. right. by left.
Qed.

(** A running operation is still running or has been answered. *)
Lemma steps_answer (s s' : system St) (l : list (event St)) (g : nat) (w : worker) :
  steps s l s' → Forall worker_event l → Forall patient_event l → c_open (sy_conn s) = true →
  c_workers (sy_conn s) !! g = Some w → w_phase w = Running →
  c_workers (sy_conn s') !! g = Some w ∨ answered s' (w_msg w).
Proof using Type.
  intros H. induction H as [s|s l s' e s'' H IH He]; intros Hl Hpl Ho Hg Hp; [by left|].
  apply Forall_app in Hl as [Hl He']. apply Forall_cons in He' as [He' _]. apply Forall_app in Hpl as [Hpl Hpe]. apply Forall_cons in Hpe as [Hpe _].
  destruct (worker_steps s s' l H Hl) as (_ & Ho' & _). rewrite Ho in Ho'.
  destruct (IH Hl Hpl Ho Hg Hp) as [Hg'|(r & Hr & Hid & Hc)].
  - destruct He as [s' Hop | s' ce now sent hs m Hop | s' e Hop | s' | s' g0 w0 su Hg0 Hp0 Hf | s' g0 w0 Hg0 Hp0 | s' g0 w0 Hg0 Hp0 | s' f st]; try done.
    + destruct (decide (g0 = g)) as [->|Hne].
      * assert (w0 = w) as -> by congruence. right. by apply run_answers.
      * left. unfold run_worker. destruct (dispatchOp _ _ _ _ _ _ _ _) as [st [rs c]]. cbn. by rewrite lookup_insert_ne.
    + left. cbn. rewrite lookup_insert_ne; [done|]. intros ->. congruence.
    + left. cbn. rewrite lookup_delete_ne; [done|]. intros ->. congruence.
  - right. destruct (worker_step s' s'' e He He') as (_ & _ & [k Hk]). exists r. split_and!; [rewrite Hk; apply elem_of_app; by left | done | done].
Qed.

Lemma quiet (c : conn) : conn_ok max c → c_workers c = ∅ → c_slots c = 0 ∧ c_inflight c = ∅.
Proof using Type.
  intros [Hs _ Ht _ _] Hw. rewrite Hw in *. split; [by rewrite Hs|]. apply map_empty. intros id. destruct (c_inflight c !! id) as [g|] eqn:E; [|done].
  apply Ht in E as (w & E & _). by rewrite lookup_empty in E.
Qed.

(** ** The directory *)

Context (contents : St → gmap bytes Entry) (ok : St → Prop) {CL : UpdateTxLaws UT contents ok} {UL : UnicodeLaws U}.
Hypothesis flat : flat_suffixes sv.
Hypothesis plugins_ok : Forall (tree_plugin contents ok sv) plugins.

(** The write a message asks for. *)
Definition request_of (m : Message) : option write_request :=
  match Op m with
  | AddRequest dn attrs => Some (AddOf dn attrs)
  | ModifyRequest dn changes => Some (ModifyOf (Controls m) dn changes)
  | DeleteRequest dn => Some (DeleteOf dn)
  | OpModifyDN r => Some (RenameOf r)
  | _ => None
  end.

Definition plain_message (m : Message) : Prop := ∀ r, request_of m = Some r → plain_request r.

(** What others do leaves the directory in order, and what is asked is plain. *)
Definition orderly_event (e : event St) : Prop :=
  match e with
  | EvRead _ _ _ _ m => plain_message m
  | EvWorld _ st => good contents ok sv st
  | _ => True
  end.

Lemma lock_keeps_tree (ce : option store_err) (st : St) (dn : DN) (t : option Z) :
  good contents ok sv st → good contents ok sv (writeLockAttr ce st dn t).
Proof using CL UL.
  intros Hg. unfold writeLockAttr, Update. destruct (lock_fn dn t st) as [st'|] eqn:E; [|done]. destruct ce; [done|]. cbn.
  unfold lock_fn in E. apply bind_ok in E as (cur & Hc & E). apply (entry_contents contents ok) in Hc; [|apply Hg].
  assert (Hr : ∀ e, EDN e = EDN cur → lift (ut_Replace st e) = Ok st' → good contents ok sv st').
  { intros e He Hr%lift_ok. by eapply (tree_replace contents ok sv). }
  destruct t as [t|].
  - eapply Hr; [|exact E]. by rewrite upsertAttr_set, setAttrValues_dn.
  - destruct (removeAttr cur attrPwdAccountLockedTime) as [e rm] eqn:Er. destruct rm; [|by injection E as <-].
    eapply Hr; [|exact E]. by rewrite <- (removeAttr_dn cur attrPwdAccountLockedTime), Er.
Qed.

Lemma bind_keeps_tree (ce : option store_err) (now : Z) (tls : bool) (f : failures) (st : St) (version : Z) (name password : bytes) :
  good contents ok sv st → good contents ok sv (authenticate (co_auth opts) ce now tls f st version name password).1.2.2.
Proof using CL UL.
  intros Hg. unfold authenticate, rejected. destruct (negb (version =? 3)); [done|].
  destruct (_ && negb _); [done|]. destruct (_ || _); [done|]. destruct (_ && _); [done|]. destruct (ParseDN name) as [dn|]; [|done].
  destruct (match dm (co_auth opts) with Some d => _ | None => _ end); [by destruct (VerifyPassword _ _)|].
  destruct (lookupEntry st dn) as [e|]; [|done]. destruct (accountLocked e); [done|]. cbn [fst snd]. unfold passwordGate.
  destruct (passwords (co_auth opts)) as [[policy hasher]|]; [|by destruct (existsb _ _)]. unfold VerifyBind.
  destruct (accountUnlockHeld e now); [done|]. destruct (generalizedTimeAttr e attrPwdAccountLockedTime) as [locked|]; [|done].
  destruct (match locked with Some _ => _ | None => _ end); [done|]. destruct (negb (existsb _ _)).
  { destruct (0 <? _); [|done]. unfold recordFailure. destruct (_ <=? _); [by apply lock_keeps_tree | done]. }
  destruct (_ || _); [done|]. destruct (if 0 <? MaxAge policy then _ else _); [done|]. destruct (0 <? _); [|done].
  cbn. case_bool_decide; [by apply lock_keeps_tree | done].
Qed.

Lemma step_directory (s s' : system St) (e : event St) :
  step s e s' → orderly_event e → (∀ g w, c_workers (sy_conn s) !! g = Some w → plain_message (w_msg w)) →
  good contents ok sv (sy_store s) → good contents ok sv (sy_store s').
Proof using CL UL flat plugins_ok.
  intros H He Hw Hg. destruct H as [s Ho | s ce now sent hs m Ho | s e Ho | s | s g w su Hgw Hp Hf | s g w Hgw Hp | s g w Hgw Hp | s f st]; try done.
  - assert (Hsp : sy_store (let '(c', out) := spawnOp opts (sy_conn s) m in
        MkSystem Top c' (sy_failures s) (sy_store s) (emit (c_open (sy_conn s)) (sy_out s) out)) = sy_store s) by by destruct (spawnOp opts (sy_conn s) m).
    unfold serve_message. destruct (Op m); try (by rewrite Hsp); try done.
    + cbn. unfold handleBind. destruct (checkControls m); [cbn; by destruct (_ <=? _)|].
      pose proof (bind_keeps_tree ce now (isTLS (c_auth (sy_conn s))) (sy_failures s) (sy_store s) version name password Hg) as Hb.
      destruct (authenticate _ _ _ _ _ _ _ _ _) as [[[r []] [f st]] su]; cbn; [done|]. by destruct (_ <=? _).
    + destruct (beq _ _); [by destruct (handleStartTLS _ _ _ _ _ _) as [[c' out] open] | by rewrite Hsp].
  - unfold run_worker. pose proof (dispatch_store sv plugins reason search_side su (w_subject w) (w_msg w) (sy_store s)) as Hd.
    destruct (dispatchOp _ _ _ _ _ _ _ _) as [st [rs c]]. cbn [fst] in Hd. cbn [sy_store].
    destruct Hd as [->|(call & Hcall & ->)]; [done|]. apply (write_keeps_order contents ok sv plugins reason flat plugins_ok); [|done].
    specialize (Hw g w Hgw). unfold as_write in Hcall. unfold plain_message, request_of in Hw.
    destruct (Op (w_msg w)); cbn in Hcall; try done; injection Hcall as <-; by apply Hw.
Qed.

Lemma steps_directory (s0 s : system St) (l : list (event St)) :
  c_workers (sy_conn s0) = ∅ → steps s0 l s → Forall orderly_event l → good contents ok sv (sy_store s0) → good contents ok sv (sy_store s).
Proof using CL UL flat plugins_ok.
  intros H0 H. induction H as [s|s l s' e s'' H IH He]; intros Hl Hg; [done|]. apply Forall_app in Hl as [Hl He']. apply Forall_cons in He' as [He' _].
  eapply step_directory; [exact He | exact He' | | by apply IH]. intros g w Hw.
  destruct (steps_worker s s' l g w H0 H Hw) as (l1 & l2 & s1 & ce & now & sent & hs & -> & _).
  apply Forall_app in Hl as [_ Hl]. by apply Forall_cons in Hl as [Hl _].
Qed.
End system.

(** * What holds of a connection *)

Section theorems.
Context {U : Unicode} {L : BerLib} {St : Type} {UT : UpdateTx St}.

(** C9.  The bookkeeping of a connection: whatever is read, in whatever order workers go
    on and whenever anything is cancelled, the slots taken are the workers, at most
    [MaxOutstandingOps]; the table holds exactly the operations that have not left it,
    each under its own message ID, so no two have the same; names of workers are not
    reused; and after the connection has closed every operation is cancelled. *)
Theorem connection_ok (opts : ConnOptions) (sv : Server) (plugins : list (St → WriteEvent → res write_err St)) (reason : schema_violation → bytes)
    (search_side : St → SearchTx) (tls : bool) (f : failures) (st : St) (l : list (event St)) (s : system St) :
  0 ≤ MaxOutstandingOps (co_limits opts) → steps opts sv plugins reason search_side (started tls f st) l s →
  conn_ok (MaxOutstandingOps (co_limits opts)) (sy_conn s).
Proof. intros Hm H. eapply steps_ok; [exact H|]. by apply newConn_ok. Qed.

(** C10.  An operation runs as who the connection was when its request was read.  When a
    worker dispatches, the loop has read its message at some earlier moment, the one that
    named the worker, and the store it leaves and the responses it sends are those of
    [dispatchOp] on that message for the connection's subject of that moment, whatever
    binds came in between.  The bypass of access control, on the connection or for any
    operation not yet over, goes back to a bind with the Directory Manager's name and a
    password its verifier took. *)
Theorem subject_captured (opts : ConnOptions) (sv : Server) (plugins : list (St → WriteEvent → res write_err St)) (reason : schema_violation → bytes)
    (search_side : St → SearchTx) (tls : bool) (f : failures) (st : St) (l : list (event St)) (s : system St) :
  steps opts sv plugins reason search_side (started tls f st) l s →
  (∀ g su s', step opts sv plugins reason search_side s (EvRun g su) s' →
     ∃ l1 l2 s1 ce now sent hs m, l = l1 ++ EvRead ce now sent hs m :: l2 ∧
       steps opts sv plugins reason search_side (started tls f st) l1 s1 ∧ sy_loop s1 = Reading ∧ c_next (sy_conn s1) = g ∧
       let run := dispatchOp sv plugins reason search_side su (au_subject (c_auth (sy_conn s1))) m (sy_store s) in
       sy_store s' = run.1 ∧ sy_out s' = emit (c_open (sy_conn s)) (sy_out s) (replies m run.2.1)) ∧
  (BypassACI (au_subject (c_auth (sy_conn s))) = true ∨ (∃ g w, c_workers (sy_conn s) !! g = Some w ∧ BypassACI (w_subject w) = true) →
     Exists (manager_bind opts) l).
Proof.
  intros H. split.
  - intros g su s' Hs. inversion Hs as [| | | |s0 g0 w su0 Hg Hp Hf| | |]; subst.
    destruct (steps_worker opts sv plugins reason search_side (started tls f st) s l g w eq_refl H Hg) as (l1 & l2 & s1 & ce & now & sent & hs & -> & H1 & Ho & Es & En).
    exists l1, l2, s1, ce, now, sent, hs, (w_msg w). split_and!; [done..|]. cbv zeta. rewrite Es. apply run_worker_dispatches.
  - intros [Hb|(g & w & Hg & Hb)].
    + by apply (steps_subject opts sv plugins reason search_side (started tls f st) s l eq_refl H).
    + destruct (steps_worker opts sv plugins reason search_side (started tls f st) s l g w eq_refl H Hg) as (l1 & l2 & s1 & ce & now & sent & hs & -> & H1 & _ & Es & _).
      rewrite <- Es in Hb. apply Exists_app. left. by apply (steps_subject opts sv plugins reason search_side (started tls f st) s1 l1 eq_refl H1).
Qed.

(** C11.  Operations come to an end: while there is a worker, some worker can go on; each
    of its three actions brings the end nearer, so no run of workers is longer than
    what they have to do; and when none is left, all slots are free and the table is
    empty, and on a connection that stayed open every operation that was running, not
    cancelled under its feet and with a peer that reads, has been sent its final
    response. *)
Theorem operations_end (opts : ConnOptions) (sv : Server) (plugins : list (St → WriteEvent → res write_err St)) (reason : schema_violation → bytes)
    (search_side : St → SearchTx) (s : system St) :
  let step := step opts sv plugins reason search_side in
  let steps := steps opts sv plugins reason search_side in
  conn_ok (MaxOutstandingOps (co_limits opts)) (sy_conn s) →
  (c_workers (sy_conn s) ≠ ∅ → ∃ e s', worker_event e ∧ patient_event e ∧ step s e s') ∧
  ∀ l s', steps s l s' → Forall worker_event l →
    (length l + todo (c_workers (sy_conn s')) = todo (c_workers (sy_conn s)))%nat ∧
    (c_workers (sy_conn s') = ∅ →
       c_slots (sy_conn s') = 0 ∧ c_inflight (sy_conn s') = ∅ ∧
       (c_open (sy_conn s) = true → Forall patient_event l →
          ∀ g w, c_workers (sy_conn s) !! g = Some w → w_phase w = Running → answered s' (w_msg w))).
Proof.
  cbv zeta. intros Hok. split; [apply worker_progress|]. intros l s' H Hl. destruct (worker_steps opts sv plugins reason search_side s s' l H Hl) as (Hn & _).
  split; [done|]. intros Hw. destruct (quiet opts (sy_conn s') (steps_ok opts sv plugins reason search_side s s' l H Hok) Hw) as [H1 H2]. split_and!; [done..|].
  intros Ho Hp g w Hg Hr. destruct (steps_answer opts sv plugins reason search_side s s' l g w H Hl Hp Ho Hg Hr) as [E|?]; [|done].
  by rewrite Hw, lookup_empty in E.
Qed.

(** A connection keeps the directory in order: over a lawful store, with plugins that
    keep the tree and other connections that leave it in order, everything a connection
    reads and runs, binds and their bookkeeping included, leaves every entry under its
    name with its parent present and the store's representation in order, provided the
    names asked for are plain. *)
Theorem connection_keeps_directory {UL : UnicodeLaws U} (contents : St → gmap bytes Entry) (ok : St → Prop) {CL : UpdateTxLaws UT contents ok}
    (opts : ConnOptions) (sv : Server) (plugins : list (St → WriteEvent → res write_err St)) (reason : schema_violation → bytes)
    (search_side : St → SearchTx) (tls : bool) (f : failures) (st : St) (l : list (event St)) (s : system St) :
  flat_suffixes sv → Forall (tree_plugin contents ok sv) plugins → Forall (orderly_event sv contents ok) l →
  ok st → tree_ok sv (contents st) → steps opts sv plugins reason search_side (started tls f st) l s →
  ok (sy_store s) ∧ tree_ok sv (contents (sy_store s)).
Proof. intros Hf Hp Hl Hok Ht H. by apply (steps_directory opts sv plugins reason search_side contents ok Hf Hp (started tls f st) s l eq_refl H Hl). Qed.
End theorems.

(** * A connection on samples *)

(** The Directory Manager binds, adds an organisation and the operation ends. *)
Definition lab_options : ConnOptions :=
  MkConnOptions (MkAuthOptions false true (Some (the_dn (B "cn=manager"))) (λ p, (p =b? B "top secret")%ldap) None 5) DefaultLimits false false.

Definition lab_side (st : fakeStore) : SearchTx := MkSearchTx (ut_read (UpdateTx := fake_tx (U := ascii_unicode)) st) None None.

Definition calm_surroundings : surroundings := MkSurroundings false calm_env (B "now") (B "id") None.

Definition bind_message : Message := MkMessage 1 (BindRequest 3 (B "cn=manager") (B "top secret")) [].
Definition add_message : Message :=
  MkMessage 2 (AddRequest (B "ou=a,dc=test") [MkAttribute (B "objectClass") [B "top"; B "organizationalUnit"]; MkAttribute (B "ou") [B "a"]]) [].

Definition read_of (m : Message) : event fakeStore := EvRead None 0 true true m.

Definition lab_reads : list (event fakeStore) := [EvTop; read_of bind_message; EvTop; read_of add_message].
Definition lab_works : list (event fakeStore) := [EvRun 0 calm_surroundings; EvUnregister 0; EvRelease 0].

(** A step as a function, where it can be taken. *)
Definition advance (s : system fakeStore) (e : event fakeStore) : system fakeStore :=
  match e with
  | EvTop => serve_top s
  | EvRead ce now sent hs m => serve_message (U := ascii_unicode) (UT := fake_tx (U := ascii_unicode)) lab_options ce now sent hs m s
  | EvReadError e => serve_error e s
  | EvShutdown => MkSystem (sy_loop s) (close (sy_conn s)) (sy_failures s) (sy_store s) (sy_out s)
  | EvRun g su =>
    match c_workers (sy_conn s) !! g with
    | Some w => run_worker (U := ascii_unicode) (L := toy_ber) (UT := fake_tx (U := ascii_unicode)) sample_sv [] (λ _, []) lab_side g w su s
    | None => s
    end
  | EvUnregister g => match c_workers (sy_conn s) !! g with Some w => unregister_worker g w s | None => s end
  | EvRelease g => release_worker g s
  | EvWorld f st => MkSystem (sy_loop s) (sy_conn s) f st (sy_out s)
  end.

Definition lab_start : system fakeStore := started false ∅ suffix_store.
Definition lab_spawned : system fakeStore := foldl advance lab_start lab_reads.
Definition lab_end : system fakeStore := foldl advance lab_spawned lab_works.

Local Abbreviation lab_step := (step (U := ascii_unicode) (L := toy_ber) (UT := fake_tx (U := ascii_unicode)) lab_options sample_sv [] (λ _, []) lab_side).
Local Abbreviation lab_steps := (steps (U := ascii_unicode) (L := toy_ber) (UT := fake_tx (U := ascii_unicode)) lab_options sample_sv [] (λ _, []) lab_side).

Example lab_runs :
  ((λ m, (ID m, OpCode (Op m))) <$> sy_out lab_end, (map_to_list (sy_store lab_end)).*1, c_slots (sy_conn lab_spawned), c_slots (sy_conn lab_end)) =
  ([(1, 1); (2, 9)], [B "ou=a,dc=test"; B "dc=test"], 1, 0).
Proof. vm_compute. reflexivity. Qed.

Definition add_worker : worker := MkWorker add_message (MkSubject (the_dn (B "cn=manager")) false true) false Running.

Lemma lab_spawned_worker : c_workers (sy_conn lab_spawned) = {[0%nat := add_worker]}.
Proof. vm_compute. reflexivity. Qed.

(** When a step can be taken. *)
Definition ready (s : system fakeStore) (e : event fakeStore) : Prop :=
  match e with
  | EvTop => sy_loop s = Top
  | EvRead _ _ _ _ _ | EvReadError _ => sy_loop s = Reading
  | EvRun g su => ∃ w, c_workers (sy_conn s) !! g = Some w ∧ w_phase w = Running ∧ faithful w su
  | EvUnregister g => ∃ w, c_workers (sy_conn s) !! g = Some w ∧ w_phase w = Dispatched
  | EvRelease g => ∃ w, c_workers (sy_conn s) !! g = Some w ∧ w_phase w = Unregistered
  | _ => True
  end.

Lemma advance_step (s : system fakeStore) (e : event fakeStore) : ready s e → lab_step s e (advance s e).
Proof.
  destruct e; cbn [ready advance]; try (intros (w0 & Hw & H); rewrite ?Hw); intros; try (by constructor).
  - destruct H. by apply step_run.
  - by eapply step_release.
Qed.

Lemma advance_steps (s0 s : system fakeStore) (l0 l : list (event fakeStore)) :
  lab_steps s0 l0 s → (∀ n e, l !! n = Some e → ready (foldl advance s (take n l)) e) → lab_steps s0 (l0 ++ l) (foldl advance s l).
Proof.
  revert s l0. induction l as [|e l IH]; intros s l0 H Hr; [by rewrite app_nil_r|]. cbn [foldl].
  replace (l0 ++ e :: l) with ((l0 ++ [e]) ++ l) by by rewrite <- app_assoc. apply IH.
  - eapply steps_snoc; [exact H|]. apply advance_step. exact (Hr 0%nat e eq_refl).
  - intros n e' He. exact (Hr (S n) e' He).
Qed.

Lemma lab_reads_steps : lab_steps lab_start lab_reads lab_spawned.
Proof.
  apply (advance_steps lab_start lab_start [] lab_reads); [constructor|].
  intros [|[|[|[|n]]]] e [= <-]; vm_compute; reflexivity.
Qed.

Lemma lab_works_ready (n : nat) (e : event fakeStore) : lab_works !! n = Some e → ready (foldl advance lab_spawned (take n lab_works)) e.
Proof.
  destruct n as [|[|[|n]]]; intros [= <-].
  - change (ready lab_spawned (EvRun 0 calm_surroundings)). unfold ready. rewrite lab_spawned_worker. by exists add_worker.
  - exists (set_phase add_worker Dispatched). split; vm_compute; reflexivity.
  - exists (set_phase add_worker Unregistered). split; vm_compute; reflexivity.
Qed.

Lemma lab_works_steps : lab_steps lab_spawned lab_works lab_end.
Proof. apply (advance_steps lab_spawned lab_spawned [] lab_works); [constructor | exact lab_works_ready]. Qed.

Lemma lab_spawned_ok : conn_ok 8 (sy_conn lab_spawned).
Proof.
  refine (steps_ok (U := ascii_unicode) (L := toy_ber) (UT := fake_tx (U := ascii_unicode)) lab_options sample_sv [] (λ _, []) lab_side _ _ _ lab_reads_steps _).
  apply newConn_ok. discriminate.
Qed.

Lemma connection_ok_witness : conn_ok 8 (sy_conn lab_spawned).
Proof.
  refine (connection_ok (U := ascii_unicode) (L := toy_ber) (UT := fake_tx (U := ascii_unicode)) lab_options sample_sv [] (λ _, []) lab_side
    false ∅ suffix_store lab_reads lab_spawned _ lab_reads_steps). vm_compute. discriminate.
Defined.

Lemma lab_runs_step : lab_step lab_spawned (EvRun 0 calm_surroundings) (advance lab_spawned (EvRun 0 calm_surroundings)).
Proof. apply advance_step. exact (lab_works_ready 0 _ eq_refl). Qed.

(** The organisation is added for whoever was bound when the request was read. *)
Lemma subject_captured_witness :
  Exists (manager_bind (U := ascii_unicode) lab_options) lab_reads ∧
  ∃ l1 l2 s1 ce now sent hs m, lab_reads = l1 ++ EvRead ce now sent hs m :: l2 ∧ lab_steps lab_start l1 s1 ∧ sy_loop s1 = Reading ∧ c_next (sy_conn s1) = 0%nat ∧
    let run := dispatchOp (U := ascii_unicode) (L := toy_ber) (UT := fake_tx (U := ascii_unicode)) sample_sv [] (λ _, []) lab_side calm_surroundings
      (au_subject (c_auth (sy_conn s1))) m (sy_store lab_spawned) in
    let s' := advance lab_spawned (EvRun 0 calm_surroundings) in
    sy_store s' = run.1 ∧ sy_out s' = emit (c_open (sy_conn lab_spawned)) (sy_out lab_spawned) (replies m run.2.1).
Proof.
  split.
  - refine (proj2 (subject_captured (U := ascii_unicode) (L := toy_ber) (UT := fake_tx (U := ascii_unicode)) lab_options sample_sv [] (λ _, []) lab_side
      false ∅ suffix_store lab_reads lab_spawned lab_reads_steps) (or_intror _)).
    exists 0%nat, add_worker. rewrite lab_spawned_worker. split; reflexivity.
  - exact (proj1 (subject_captured (U := ascii_unicode) (L := toy_ber) (UT := fake_tx (U := ascii_unicode)) lab_options sample_sv [] (λ _, []) lab_side
      false ∅ suffix_store lab_reads lab_spawned lab_reads_steps) 0%nat calm_surroundings _ lab_runs_step).
Defined.

Lemma operations_end_witness : answered lab_end add_message.
Proof.
  refine (proj2 (proj2 (proj2 (proj2 (operations_end (U := ascii_unicode) (L := toy_ber) (UT := fake_tx (U := ascii_unicode)) lab_options sample_sv [] (λ _, []) lab_side
    lab_spawned lab_spawned_ok) lab_works lab_end lab_works_steps _) _)) _ _ 0%nat add_worker _ eq_refl).
  - repeat constructor.
  - vm_compute. reflexivity.
  - vm_compute. reflexivity.
  - repeat constructor.
  - rewrite lab_spawned_worker. reflexivity.
Defined.

Lemma lab_orderly : Forall (orderly_event (U := ascii_unicode) sample_sv id (keys_ok (U := ascii_unicode))) lab_reads.
Proof.
  repeat constructor; cbn [orderly_event read_of]; unfold plain_message, request_of; cbn [Op bind_message add_message]; [done|].
  intros r [= <-]. cbn [plain_request]. intros d Hd. vm_compute in Hd. injection Hd as <-. unfold no_tab_end. repeat constructor; vm_compute; discriminate.
Qed.

Lemma suffix_store_keys : keys_ok (U := ascii_unicode) suffix_store.
Proof. intros k e H. destruct (suffix_store_ok k e H) as (d & H1 & H2 & _ & H3 & _). exists d. split; [exact H1 | split; [exact H2 | exact H3]]. Qed.

Lemma connection_keeps_directory_witness : tree_ok (U := ascii_unicode) sample_sv (sy_store lab_end).
Proof.
  refine (proj2 (connection_keeps_directory (U := ascii_unicode) (UL := ascii_unicode_laws) (L := toy_ber) (UT := fake_tx (U := ascii_unicode))
    id (keys_ok (U := ascii_unicode)) lab_options sample_sv [] (λ _, []) lab_side false ∅ suffix_store (lab_reads ++ lab_works) lab_end
    sample_flat (Forall_nil_2 _) _ suffix_store_keys suffix_store_ok _)).
  - apply Forall_app. split; [exact lab_orderly | repeat constructor].
  - apply (advance_steps lab_start lab_spawned lab_reads lab_works); [exact lab_reads_steps | exact lab_works_ready].
Defined.

(** ** What the order of a worker's last steps lets a peer see *)

(** The response to message 2 has been sent, but its ID is still in the table: the same
    ID again is a duplicate, though the first operation is over for the peer. *)
Example answered_but_in_flight :
  let s := advance lab_spawned (EvRun 0 calm_surroundings) in
  (map (λ m, (ID m, OpCode (Op m))) (sy_out s), (λ m, OpCode (Op m)) <$> (spawnOp lab_options (sy_conn s) add_message).2,
   (λ m, match Op m with AddResponse r => Code r | _ => 0 end) <$> (spawnOp lab_options (sy_conn s) add_message).2) =
  ([(1, 1); (2, 9)], [9], [ResultProtocolError]).
Proof. vm_compute. reflexivity. Qed.

(** A connection nobody has bound on is not anonymous, and so waits for a handshake as
    long as an authenticated one. *)
Example fresh_handshake : handshake_timeout lab_options (newConn false) = IdleTimeout DefaultLimits.
Proof. reflexivity. Qed.
