(* ===== verification/MemberOf.v ===== *)
(** The MemberOf plugin: [src/internal/ldapserver/memberof.go].

    Membership is kept on groups ([member], [uniqueMember]); the plugin derives
    [memberOf] on the members.  After a write it takes the members whose derivation can
    have changed (the seeds, extended through nested groups) and recomputes each from an
    index of the groups of the managed suffixes.

    Go visits a map in no particular order: [order] is the order of a visit, and what
    the facts say of the plugin holds for every order.  A work list ends when it is empty;
    its fuel counts the keys that can enter it, which the facts below show is enough. *)

From stdpp Require Import fin_sets.
From S2P Require Import Prelude GoStrings DN DNFacts Message Schema Matching FilterEval RenameFacts StoreIface Aci Server Paging PagingFacts Search SearchFacts Write FakeStore WriteOps WriteFacts TreeFacts GoTime PwHash Password PasswordFacts.

(** [MemberOfPlugin]. *)
Record MemberOfPlugin : Type := MkMemberOf {
  mo_suffix : DN;
  mo_extra : list DN;
  mo_nested : bool;
}.

Section memberof.
Context {U : Unicode}.

Definition NewMemberOfPlugin (suffix : bytes) (nestedGroups : bool) (additional : list bytes) : res field_err MemberOfPlugin :=
  d ← ParseDN suffix;
  extra ← rmap ParseDN additional;
  Ok (MkMemberOf d extra nestedGroups).

(** [scopes] and [inScope]. *)
Definition mo_scopes (p : MemberOfPlugin) : list DN := mo_suffix p :: mo_extra p.

Definition mo_inScope (p : MemberOfPlugin) (d : DN) : bool := UnderAny d (mo_scopes p).

(** * Groups and their members *)

Definition hasObjectClass (e : Entry) (name : bytes) : bool :=
  existsb (λ v, equal_fold v name) (Values e (B "objectClass")).

Definition isGroupEntry (e : Entry) : bool :=
  hasObjectClass e (B "groupOfNames") || hasObjectClass e (B "groupOfUniqueNames").

(** One value of [memberDNs]: skipped when it is malformed or its name was seen. *)
Definition take_member (unique : bool) (st : gset bytes * list DN) (v : bytes) : gset bytes * list DN :=
  match dnFromValue v unique with
  | None => st
  | Some d =>
    let k := FoldedKey d in
    if bool_decide (k ∈ st.1) then st else ({[k]} ∪ st.1, st.2 ++ [d])
  end.

Definition memberDNs (e : Entry) : list DN :=
  let st := foldl (take_member false) (∅, []) (Values e (B "member")) in
  (foldl (take_member true) st (Values e (B "uniqueMember"))).2.

Definition ensureObjectClass (e : Entry) (name : bytes) : Entry :=
  if hasObjectClass e name then e
  else
    match attrIndex e (B "objectClass") with
    | None => append_attr e (MkAttribute (B "objectClass") [name])
    | Some i => set_values e i (values_at e i ++ [name])
    end.

Definition removeObjectClass (e : Entry) (name : bytes) : Entry :=
  match attrIndex e (B "objectClass") with
  | None => e
  | Some i => set_values e i (filter (λ v, equal_fold v name = false) (values_at e i))
  end.

(** * The index *)

Record groupIndex : Type := MkGroupIndex {
  gi_groups : gmap bytes Entry;
  gi_byMember : gmap bytes (list Entry);
}.

Definition gi_listing (idx : groupIndex) (key : bytes) : list Entry := default [] (gi_byMember idx !! key).

(** The rename an event is, if it changes keys. *)
Definition move_of (ev : WriteEvent) : option (DN * DN) :=
  match ev_Op ev, ev_Before ev, ev_After ev with
  | WriteRename, Some before, Some after =>
    match ParseDN (EDN before), ParseDN (EDN after) with
    | Ok from, Ok to => if (FoldedKey from =b? FoldedKey to)%ldap then None else Some (from, to)
    | _, _ => None
    end
  | _, _, _ => None
  end.

(** [moved]: a member value still names what was renamed. *)
Definition moved_by (mv : option (DN * DN)) (d : DN) : DN :=
  match mv with
  | Some (from, to) => default d (Rebase d from to)
  | None => d
  end.

Definition index_member (mv : option (DN * DN)) (e : Entry) (by_ : gmap bytes (list Entry)) (m : DN) : gmap bytes (list Entry) :=
  let k := FoldedKey (moved_by mv m) in
  <[k := default [] (by_ !! k) ++ [e]]> by_.

Definition index_entry (mv : option (DN * DN)) (idx : groupIndex) (e : Entry) : groupIndex :=
  if negb (isGroupEntry e) then idx
  else
    match ParseDN (EDN e) with
    | Err _ => idx
    | Ok d => MkGroupIndex (<[FoldedKey d := e]> (gi_groups idx)) (foldl (index_member mv e) (gi_byMember idx) (memberDNs e))
    end.

(** The entries at and below a base; a base that is not there has none. *)
Definition subtree_or_none (tx : ReadTx) (base : DN) : res store_err (list Entry) :=
  match tx_Subtree tx base with
  | Err ErrNoSuchObject => Ok []
  | r => r
  end.

Definition indexGroups (p : MemberOfPlugin) (tx : ReadTx) (mv : option (DN * DN)) : res write_err groupIndex :=
  rfold (λ idx suf, entries ← lift (subtree_or_none tx suf); Ok (foldl (index_entry mv) idx entries)) (MkGroupIndex ∅ ∅) (mo_scopes p).

(** * Recomputing a member *)

(** What the walk up has found: the groups, by key with their names, the keys walked or
    to be walked, and the work list. *)
Definition climb_state : Type := gmap bytes bytes * gset bytes * list bytes.

Definition climb_group (nested : bool) (st : climb_state) (g : Entry) : climb_state :=
  let '(expected, seen, frontier) := st in
  match ParseDN (EDN g) with
  | Err _ => st
  | Ok gd =>
    let gk := FoldedKey gd in
    match expected !! gk with
    | Some _ => st
    | None =>
      let expected := <[gk := String gd]> expected in
      if nested && negb (bool_decide (gk ∈ seen)) then (expected, {[gk]} ∪ seen, frontier ++ [gk])
      else (expected, seen, frontier)
    end
  end.

Fixpoint climb (fuel : nat) (nested : bool) (idx : groupIndex) (st : climb_state) : gmap bytes bytes :=
  match fuel, st with
  | S fuel, (expected, seen, key :: frontier) =>
    climb fuel nested idx (foldl (climb_group nested) (expected, seen, frontier) (gi_listing idx key))
  | _, (expected, _, _) => expected
  end.

Definition expected_groups (p : MemberOfPlugin) (idx : groupIndex) (key : bytes) : gmap bytes bytes :=
  climb (S (size (gi_groups idx))) (mo_nested p) idx (∅, {[key]}, [key]).

Definition sameDNSet (current : gset bytes) (expected : gmap bytes bytes) : bool :=
  (size current =? size expected)%nat && forallb (λ k, bool_decide (is_Some (expected !! k))) (elements current).

(** The keys the [memberOf] values of an entry name. *)
Definition memberOf_keys (e : Entry) : gset bytes :=
  list_to_set (omap (λ v, FoldedKey <$> dnFromValue v false) (Values e (B "memberOf"))).

(** The entry with [memberOf] and the class that goes with it. *)
Definition with_memberOf (e : Entry) (values : list bytes) : Entry :=
  let e := setAttr e (B "memberOf") values in
  if (0 <? length values)%nat then ensureObjectClass e (B "nsmemberof") else removeObjectClass e (B "nsmemberof").

Definition sorted_values (expected : gmap bytes bytes) : list bytes :=
  omap (expected !!.) (sort_by id (map_to_list expected).*1).

Definition converged (e : Entry) (expected : gmap bytes bytes) : bool :=
  sameDNSet (memberOf_keys e) expected && Bool.eqb (hasObjectClass e (B "nsmemberof")) (0 <? size expected)%nat.

Section tx.
Context {St : Type} {UT : UpdateTx St}.

Definition recompute (p : MemberOfPlugin) (idx : groupIndex) (st : St) (member : DN) : res write_err St :=
  match tx_Entry (ut_read st) member with
  | Err ErrNoSuchObject => Ok st
  | Err e => Err (WStore e)
  | Ok e =>
    let expected := expected_groups p idx (FoldedKey member) in
    if converged e expected then Ok st else lift (ut_Replace st (with_memberOf e (sorted_values expected)))
  end.

(** * The seeds *)

Definition seed_member (p : MemberOfPlugin) (mv : option (DN * DN)) (seeds : gmap bytes DN) (m : DN) : gmap bytes DN :=
  let m := moved_by mv m in
  if mo_inScope p m then <[FoldedKey m := m]> seeds else seeds.

Definition seed (p : MemberOfPlugin) (mv : option (DN * DN)) (seeds : gmap bytes DN) (e : option Entry) : gmap bytes DN :=
  match e with
  | Some e => if isGroupEntry e then foldl (seed_member p mv) seeds (memberDNs e) else seeds
  | None => seeds
  end.

(** An entry of a moved subtree: it and, when it is a group, its members. *)
Definition seed_moving (p : MemberOfPlugin) (mv : option (DN * DN)) (seeds : gmap bytes DN) (e : Entry) : gmap bytes DN :=
  let seeds :=
    match ParseDN (EDN e) with
    | Ok d => if mo_inScope p d then <[FoldedKey d := d]> seeds else seeds
    | Err _ => seeds
    end in
  seed p mv seeds (Some e).

Definition seeds_of (p : MemberOfPlugin) (st : St) (ev : WriteEvent) : res write_err (gmap bytes DN) :=
  let mv := move_of ev in
  match ev_Op ev with
  | WriteAdd => Ok (seed p mv ∅ (ev_After ev))
  | WriteModify | WriteRename =>
    let seeds := seed p mv (seed p mv ∅ (ev_Before ev)) (ev_After ev) in
    match mv with
    | Some (_, to) =>
      if (0 <? Depth to)%nat then
        moving ← lift (subtree_or_none (ut_read st) to);
        Ok (foldl (seed_moving p mv) seeds moving)
      else Ok seeds
    | None => Ok seeds
    end
  | WriteDelete => Ok (seed p mv ∅ (ev_Before ev))
  end.

(** A seed that is a group brings its members in. *)
Definition extend_member (p : MemberOfPlugin) (mv : option (DN * DN)) (st : gmap bytes DN * list bytes) (m : DN) : gmap bytes DN * list bytes :=
  let m := moved_by mv m in
  let mk := FoldedKey m in
  match st.1 !! mk with
  | Some _ => st
  | None => if mo_inScope p m then (<[mk := m]> st.1, st.2 ++ [mk]) else st
  end.

Fixpoint extend (fuel : nat) (p : MemberOfPlugin) (mv : option (DN * DN)) (idx : groupIndex) (seeds : gmap bytes DN) (queue : list bytes) : gmap bytes DN :=
  match fuel, queue with
  | S fuel, key :: queue =>
    match gi_groups idx !! key with
    | None => extend fuel p mv idx seeds queue
    | Some g =>
      let '(seeds, queue) := foldl (extend_member p mv) (seeds, queue) (memberDNs g) in
      extend fuel p mv idx seeds queue
    end
  | _, _ => seeds
  end.

(** The order of a visit of a map's keys. *)
Variable order : gmap bytes DN → list bytes.

Definition affected (p : MemberOfPlugin) (mv : option (DN * DN)) (idx : groupIndex) (seeds : gmap bytes DN) : gmap bytes DN :=
  if mo_nested p then extend (size seeds + size (gi_byMember idx)) p mv idx seeds (order seeds) else seeds.

(** [MemberOfPlugin.AfterWrite]. *)
Definition mo_AfterWrite (p : MemberOfPlugin) (st : St) (ev : WriteEvent) : res write_err St :=
  seeds ← seeds_of p st ev;
  if (size seeds =? 0)%nat then Ok st
  else
    idx ← indexGroups p (ut_read st) (move_of ev);
    let all := affected p (move_of ev) idx seeds in
    rfold (recompute p idx) st (omap (all !!.) (order all)).

(** [MemberOfPlugin.Fixup]: what its transaction does. *)
Definition fixup_entry (p : MemberOfPlugin) (idx : groupIndex) (st : St) (e : Entry) : res write_err St :=
  match ParseDN (EDN e) with
  | Err _ => Ok st
  | Ok d => recompute p idx st d
  end.

Definition mo_fixup (p : MemberOfPlugin) (st : St) : res write_err St :=
  idx ← indexGroups p (ut_read st) None;
  rfold (λ st suf, entries ← lift (subtree_or_none (ut_read st) suf); rfold (fixup_entry p idx) st entries) st (mo_scopes p).

Definition mo_Fixup (commit_err : option store_err) (p : MemberOfPlugin) (st : St) : St * option write_err :=
  Update commit_err st (mo_fixup p).

End tx.
End memberof.

(** Facts of the MemberOf plugin: the walk up finds exactly the groups that list a member
    (transitively, when nesting is on), the plugin keeps the tree of entries, and after
    every write every managed entry has the [memberOf] its groups give it. *)

Local Open Scope nat_scope.

(** * The walk up *)

Lemma size_take (k : bytes) (C seen : gset bytes) : k ∈ C → k ∉ seen → size (C ∖ seen) = S (size (C ∖ ({[k]} ∪ seen))).
Proof.
  intros Hk Hs. replace (C ∖ seen) with ({[k]} ∪ C ∖ ({[k]} ∪ seen)).
  - rewrite size_union, size_singleton by set_solver. done.
  - apply set_eq. intros x. destruct (decide (x = k)); set_solver.
Qed.

Section climb.
Context {U : Unicode}.

Definition key_of (g : Entry) : option bytes := FoldedKey <$> res_opt (ParseDN (EDN g)).

Lemma key_of_some (g : Entry) (k : bytes) : key_of g = Some k ↔ ∃ d, ParseDN (EDN g) = Ok d ∧ FoldedKey d = k.
Proof. unfold key_of. destruct (ParseDN (EDN g)) as [d|]; cbn; naive_solver. Qed.

(** The names that were found. *)
Definition names_of (gs : list Entry) (ex : gmap bytes bytes) : Prop :=
  ∀ k v, ex !! k = Some v → ∃ g d, g ∈ gs ∧ ParseDN (EDN g) = Ok d ∧ v = String d ∧ k = FoldedKey d.

Lemma climb_group_expected (nested : bool) (st : climb_state) (g : Entry) (k : bytes) :
  is_Some ((climb_group nested st g).1.1 !! k) ↔ is_Some (st.1.1 !! k) ∨ key_of g = Some k.
Proof.
  destruct st as [[ex seen] fr]. unfold climb_group, key_of. destruct (ParseDN (EDN g)) as [d|]; cbn; [|naive_solver].
  assert (H : is_Some (<[FoldedKey d := String d]> ex !! k) ↔ is_Some (ex !! k) ∨ Some (FoldedKey d) = Some k).
  { rewrite lookup_insert_is_Some. split; [intros [->|[_ ?]]; [by right | by left]|]. intros [?|[= ->]]; [|by left].
    destruct (decide (FoldedKey d = k)); [by left | by right]. }
  destruct (ex !! FoldedKey d) eqn:E; [cbn; split; [by left | intros [?|[= <-]]; [done | by eexists]]|].
  destruct (nested && _); exact H.
Qed.

Lemma climb_fold_expected (nested : bool) (gs : list Entry) (st : climb_state) (k : bytes) :
  is_Some ((foldl (climb_group nested) st gs).1.1 !! k) ↔ is_Some (st.1.1 !! k) ∨ ∃ g, g ∈ gs ∧ key_of g = Some k.
Proof.
  revert st. induction gs as [|g gs IH]; intros st; cbn [foldl].
  - split; [by left | by intros [?|(g & ?%not_elem_of_nil & _)]].
  - rewrite IH, climb_group_expected. set_solver.
Qed.

Lemma climb_fold_names (nested : bool) (all gs : list Entry) (st : climb_state) :
  gs ⊆ all → names_of all st.1.1 → names_of all (foldl (climb_group nested) st gs).1.1.
Proof.
  revert st. induction gs as [|g gs IH]; intros st Hg Hn; cbn [foldl]; [done|]. apply IH; [set_solver|].
  destruct st as [[ex seen] fr]. unfold climb_group. destruct (ParseDN (EDN g)) as [d|] eqn:Ed; [|done].
  cbn [fst] in *. destruct (ex !! FoldedKey d); [done|].
  assert (H : names_of all (<[FoldedKey d := String d]> ex)).
  { intros k v [[<- <-]|[_ Hk]]%lookup_insert_Some; [exists g, d; split_and!; [set_solver | done..] | by apply Hn]. }
  destruct (nested && _); exact H.
Qed.

(** Without nesting the list is only what it was. *)
Lemma climb_fold_flat (gs : list Entry) (st : climb_state) : (foldl (climb_group false) st gs).2 = st.2.
Proof.
  revert st. induction gs as [|g gs IH]; intros st; cbn [foldl]; [done|]. rewrite IH. destruct st as [[ex seen] fr]. cbn.
  destruct (ParseDN (EDN g)); [|done]. by destruct (ex !! _).
Qed.

(** With nesting every group found enters the list, once. *)
Record climbs (k0 : bytes) (st : climb_state) : Prop := {
  cl_seen : st.1.2 = {[k0]} ∪ dom st.1.1;
  cl_list : ∀ y, y ∈ st.2 → y ∈ st.1.2;
}.

Lemma climb_group_climbs (k0 : bytes) (C : gset bytes) (st : climb_state) (g : Entry) :
  climbs k0 st → (∀ k, key_of g = Some k → k ∈ C) →
  climbs k0 (climb_group true st g) ∧
  (∀ y, y ∈ st.2 → y ∈ (climb_group true st g).2) ∧
  (∀ y, y ∈ (climb_group true st g).1.2 → y ∈ st.1.2 ∨ y ∈ (climb_group true st g).2) ∧
  length (climb_group true st g).2 + size (C ∖ (climb_group true st g).1.2) = length st.2 + size (C ∖ st.1.2).
Proof.
  destruct st as [[ex seen] fr]. unfold climb_group, key_of. intros [Hs Hl] HC. cbn in Hs, Hl. destruct (ParseDN (EDN g)) as [d|]; [|by split_and!; [|done|by left|]].
  specialize (HC _ eq_refl). destruct (ex !! FoldedKey d) eqn:E; [by split_and!; [|done|by left|]|].
  destruct (bool_decide_reflect (FoldedKey d ∈ seen)) as [Hd|Hd]; cbn [negb andb fst snd].
  - split_and!; [|done|by left|done]. split; cbn; [|done]. rewrite dom_insert_L, Hs. set_solver.
  - split_and!.
    + split; cbn; [rewrite dom_insert_L, Hs; set_solver | set_solver].
    + set_solver.
    + set_solver.
    + rewrite length_app, (size_take (FoldedKey d) C seen) by done. cbn [length]. lia.
Qed.

Lemma climb_fold_climbs (k0 : bytes) (C : gset bytes) (gs : list Entry) (st : climb_state) :
  climbs k0 st → (∀ g k, g ∈ gs → key_of g = Some k → k ∈ C) →
  let st' := foldl (climb_group true) st gs in
  climbs k0 st' ∧ (∀ y, y ∈ st.2 → y ∈ st'.2) ∧ (∀ y, y ∈ st'.1.2 → y ∈ st.1.2 ∨ y ∈ st'.2) ∧
  length st'.2 + size (C ∖ st'.1.2) = length st.2 + size (C ∖ st.1.2).
Proof.
  cbv zeta. revert st. induction gs as [|g gs IH]; intros st Hc HC; cbn [foldl]; [by split_and!; [|done|by left|]|].
  destruct (climb_group_climbs k0 C st g Hc) as (Hc1 & Hf1 & Hs1 & Hm1); [intros k; apply HC; set_solver|].
  destruct (IH (climb_group true st g) Hc1) as (Hc2 & Hf2 & Hs2 & Hm2); [intros g' k ?; apply HC; set_solver|].
  split_and!; [done | by auto | | lia]. intros y [Hy|?]%Hs2; [|by right]. apply Hs1 in Hy as [?|?]; [by left | right; by apply Hf2].
Qed.

(** The walk: an edge goes from a key to the key of a group that lists it. *)
Variable idx : groupIndex.

Definition climbs_to (y gk : bytes) : Prop := ∃ g, g ∈ gi_listing idx y ∧ key_of g = Some gk.

(** The groups of the index are all that is listed. *)
Definition listed_indexed : Prop := ∀ y g k, g ∈ gi_listing idx y → key_of g = Some k → is_Some (gi_groups idx !! k).

Definition found (k0 : bytes) (ex : gmap bytes bytes) : Prop := ∀ k, is_Some (ex !! k) → tc climbs_to k0 k.

Lemma seen_reached (k0 y gk : bytes) (st : climb_state) : climbs k0 st → found k0 st.1.1 → y ∈ st.1.2 → climbs_to y gk → tc climbs_to k0 gk.
Proof.
  intros [Hs _] Hf Hy He. rewrite Hs in Hy. apply elem_of_union in Hy as [->%elem_of_singleton|Hy%elem_of_dom]; [by apply tc_once|].
  eapply tc_r; [by apply Hf | done].
Qed.

(** What has been taken off the list has been expanded. *)
Definition expanded (st : climb_state) : Prop := ∀ y, y ∈ st.1.2 → y ∈ st.2 ∨ ∀ gk, climbs_to y gk → is_Some (st.1.1 !! gk).

Hypothesis Hidx : listed_indexed.

Lemma climb_done (k0 : bytes) (ex : gmap bytes bytes) (seen : gset bytes) :
  climbs k0 (ex, seen, []) → found k0 ex → expanded (ex, seen, []) → ∀ gk, is_Some (ex !! gk) ↔ tc climbs_to k0 gk.
Proof using Type.
  clear Hidx. intros [Hs _] Hf He gk. cbn in Hs. split; [apply Hf|].
  assert (Hcl : ∀ y g, y ∈ seen → climbs_to y g → is_Some (ex !! g)).
  { intros y g Hy Hg. destruct (He y Hy) as [?%not_elem_of_nil|H]; [done | by apply H]. }
  assert (H0 : k0 ∈ seen) by set_solver.
  apply (tc_ind_r (λ g, is_Some (ex !! g)) k0); [intros z; by apply Hcl|]. intros y z _ Hyz [v Hy]. apply (Hcl y z); [|done]. rewrite Hs.
  apply elem_of_union_r, elem_of_dom. by exists v.
Qed.

Lemma climb_nested (fuel : nat) (k0 : bytes) (st : climb_state) :
  climbs k0 st → found k0 st.1.1 → expanded st → length st.2 + size (dom (gi_groups idx) ∖ st.1.2) ≤ fuel →
  ∀ gk, is_Some (climb fuel true idx st !! gk) ↔ tc climbs_to k0 gk.
Proof using Hidx.
  revert st. induction fuel as [|fuel IH]; intros [[ex seen] [|y fr]] Hc Hf He Hm gk; cbn [fst snd] in *; try (by apply (climb_done k0 ex seen)).
  - cbn in Hm. lia.
  - cbn [climb]. set (gs := gi_listing idx y).
    assert (HC : ∀ g k, g ∈ gs → key_of g = Some k → k ∈ dom (gi_groups idx)) by (intros g k Hg Hk; apply elem_of_dom; by eapply Hidx).
    assert (Hy : y ∈ seen) by (apply (cl_list _ _ Hc); cbn; set_solver).
    assert (Hc' : climbs k0 (ex, seen, fr)) by (destruct Hc as [Hs Hl]; split; [done | cbn in *; set_solver]).
    destruct (climb_fold_climbs k0 (dom (gi_groups idx)) gs (ex, seen, fr) Hc' HC) as (Hc2 & Hfr & Hseen & Hmeas). cbn [fst snd] in *.
    apply IH; [done | | |].
    + intros k [Hk|(g & Hg & Hk)]%climb_fold_expected; [by apply Hf|]. by apply (seen_reached k0 y k (ex, seen, fr)); [| |  | exists g].
    + intros z Hz. destruct (Hseen z Hz) as [Hz'|?]; [|by left]. destruct (He z Hz') as [Hin|Hex].
      * cbn in Hin. apply elem_of_cons in Hin as [->|Hin]; [right | left; by apply Hfr].
        intros k (g & Hg & Hk). apply climb_fold_expected. right. by exists g.
      * right. intros k Hk. apply climb_fold_expected. left. by apply Hex.
    + rewrite Hmeas. cbn [length] in Hm. lia.
Qed.

Lemma climb_names (fuel : nat) (nested : bool) (st : climb_state) (all : list Entry) :
  (∀ y g, g ∈ gi_listing idx y → g ∈ all) → names_of all st.1.1 → names_of all (climb fuel nested idx st).
Proof using Type.
  intros Hall. revert st. induction fuel as [|fuel IH]; intros [[ex seen] [|y fr]] Hn; cbn [climb]; try exact Hn.
  apply IH. apply climb_fold_names; [intros g; apply Hall | exact Hn].
Qed.

(** One level without nesting, all levels with it. *)
Definition listed_by (nested : bool) (k gk : bytes) : Prop := if nested then tc climbs_to k gk else climbs_to k gk.

Lemma expected_spec (p : MemberOfPlugin) (k gk : bytes) :
  is_Some (expected_groups p idx k !! gk) ↔ listed_by (mo_nested p) k gk.
Proof using Hidx.
  unfold expected_groups, listed_by. destruct (mo_nested p) eqn:E.
  - apply climb_nested; cbn [fst snd].
    + split; cbn; [|set_solver]. rewrite dom_empty_L. set_solver.
    + intros g. rewrite lookup_empty. by intros [].
    + intros y Hy. left. cbn in *. set_solver.
    + cbn. assert (size (dom (gi_groups idx) ∖ {[k]}) ≤ size (dom (gi_groups idx))); [apply subseteq_size; set_solver|]. rewrite size_dom in *. lia.
  - cbn [climb]. set (st := foldl _ _ _). assert (Hfr : st.2 = []) by apply climb_fold_flat.
    replace (climb _ false idx st) with st.1.1 by (destruct st as [[ex seen] fr]; cbn in Hfr; subst fr; by destruct (size _)).
    unfold st. rewrite climb_fold_expected. cbn [fst]. rewrite lookup_empty. unfold climbs_to. split; [intros [[]|]; done | by right].
Qed.
End climb.

(** * The walk down *)

Section extend.
Context {U : Unicode}.
Variable p : MemberOfPlugin.
Variable mv : option (DN * DN).

(** Seeds are named by their keys and managed. *)
Definition seeds_ok (s : gmap bytes DN) : Prop := ∀ k m, s !! k = Some m → FoldedKey m = k ∧ mo_inScope p m = true.

(** What brings a member in does to seeds and list. *)
Record extends (C : gset bytes) (st st' : gmap bytes DN * list bytes) : Prop := {
  ex_ok : seeds_ok st.1 → seeds_ok st'.1;
  ex_keys : dom st.1 ⊆ dom st'.1;
  ex_queue : ∀ y, y ∈ st.2 → y ∈ st'.2;
  ex_new : ∀ y, y ∈ dom st'.1 → y ∈ dom st.1 ∨ y ∈ st'.2;
  ex_measure : length st'.2 + size (C ∖ dom st'.1) = length st.2 + size (C ∖ dom st.1);
}.

Lemma extends_refl (C : gset bytes) (st : gmap bytes DN * list bytes) : extends C st st.
Proof. split; auto. Qed.

Lemma extends_trans (C : gset bytes) (st1 st2 st3 : gmap bytes DN * list bytes) : extends C st1 st2 → extends C st2 st3 → extends C st1 st3.
Proof.
  intros [O1 K1 Q1 N1 M1] [O2 K2 Q2 N2 M2]. split; [auto | set_solver | auto | | lia].
  intros y [Hy|?]%N2; [|by right]. apply N1 in Hy as [?|?]; [by left | right; by apply Q2].
Qed.

Lemma extend_member_extends (C : gset bytes) (st : gmap bytes DN * list bytes) (m : DN) :
  FoldedKey (moved_by mv m) ∈ C →
  extends C st (extend_member p mv st m) ∧
  (mo_inScope p (moved_by mv m) = true → FoldedKey (moved_by mv m) ∈ dom (extend_member p mv st m).1).
Proof.
  destruct st as [s q]. unfold extend_member. cbn [fst snd]. set (x := moved_by mv m). intros HC.
  destruct (s !! FoldedKey x) eqn:E; [split; [apply extends_refl | intros _; cbn; apply elem_of_dom; by eexists]|].
  apply not_elem_of_dom in E. destruct (mo_inScope p x) eqn:Es; [|split; [apply extends_refl | done]].
  split; [|intros _; cbn; rewrite dom_insert_L; set_solver]. split; cbn [fst snd]; rewrite ?dom_insert_L.
  - intros Hok k m' [[<- <-]|[_ Hk]]%lookup_insert_Some; [done | by apply Hok].
  - set_solver.
  - set_solver.
  - set_solver.
  - rewrite length_app, (size_take (FoldedKey x) C (dom s)) by done. cbn [length]. lia.
Qed.

Lemma extend_fold_extends (C : gset bytes) (st : gmap bytes DN * list bytes) (ms : list DN) :
  (∀ m, m ∈ ms → FoldedKey (moved_by mv m) ∈ C) →
  let st' := foldl (extend_member p mv) st ms in
  extends C st st' ∧ ∀ m, m ∈ ms → mo_inScope p (moved_by mv m) = true → FoldedKey (moved_by mv m) ∈ dom st'.1.
Proof.
  cbv zeta. revert st. induction ms as [|m ms IH]; intros st HC; cbn [foldl].
  - split; [apply extends_refl | by intros m ?%not_elem_of_nil].
  - destruct (extend_member_extends C st m) as [H1 Hm]; [apply HC; set_solver|].
    destruct (IH (extend_member p mv st m)) as [H2 Hms]; [intros m' ?; apply HC; set_solver|].
    split; [by eapply extends_trans|]. intros m' [->|?]%elem_of_cons Hs; [|by apply Hms]. by apply (ex_keys _ _ _ H2), Hm.
Qed.

Variable idx : groupIndex.

(** Every member of a group of the index is listed. *)
Definition members_listed : Prop :=
  ∀ k g m, gi_groups idx !! k = Some g → m ∈ memberDNs g → is_Some (gi_byMember idx !! FoldedKey (moved_by mv m)).

(** The members of what is in are in. *)
Definition closed_at (s : gmap bytes DN) (y : bytes) : Prop :=
  ∀ g m, gi_groups idx !! y = Some g → m ∈ memberDNs g → mo_inScope p (moved_by mv m) = true → FoldedKey (moved_by mv m) ∈ dom s.

Hypothesis Hidx : members_listed.

Lemma extend_spec (fuel : nat) (s : gmap bytes DN) (q : list bytes) :
  seeds_ok s → (∀ y, y ∈ dom s → y ∈ q ∨ closed_at s y) → length q + size (dom (gi_byMember idx) ∖ dom s) ≤ fuel →
  let s' := extend fuel p mv idx s q in
  seeds_ok s' ∧ dom s ⊆ dom s' ∧ ∀ y, y ∈ dom s' → closed_at s' y.
Proof.
  cbv zeta. revert s q. induction fuel as [|fuel IH]; intros s [|y q] Hok Hc Hm; cbn [extend].
  1, 3: split_and!; [done | done|]; intros y Hy; destruct (Hc y Hy) as [?%not_elem_of_nil|]; done.
  { cbn in Hm. lia. }
  destruct (gi_groups idx !! y) as [g|] eqn:Eg.
  - assert (HC : ∀ m, m ∈ memberDNs g → FoldedKey (moved_by mv m) ∈ dom (gi_byMember idx)).
    { intros m Hin. apply elem_of_dom. by eapply Hidx. }
    destruct (extend_fold_extends (dom (gi_byMember idx)) (s, q) (memberDNs g) HC) as [[O K Q N M] Hall].
    destruct (foldl _ _ _) as [s' q']. cbn [fst snd] in *.
    destruct (IH s' q') as (Ok' & Hsub & Hcl); [by apply O | | cbn [length] in Hm; lia|].
    + intros z Hz. destruct (N z Hz) as [Hz'|?]; [|by left]. destruct (Hc z Hz') as [Hin|Hcz].
      * apply elem_of_cons in Hin as [->|Hin]; [right | left; by apply Q]. intros g' m Hg' Hin Hs. assert (g' = g) as -> by congruence. by apply Hall.
      * right. intros g' m Hg' Hin Hs. apply K. by eapply Hcz.
    + split_and!; [done | set_solver | done].
  - apply IH; [done | | cbn [length] in Hm; lia]. intros z Hz. destruct (Hc z Hz) as [[->|?]%elem_of_cons|?]; [right | by left | by right].
    intros g m Hg. congruence.
Qed.

Variable order : gmap bytes DN → list bytes.
Hypothesis order_keys : ∀ m, order m ≡ₚ (map_to_list m).*1.

Lemma order_elem (m : gmap bytes DN) (k : bytes) : k ∈ order m ↔ k ∈ dom m.
Proof.
  rewrite order_keys, list_elem_of_fmap, elem_of_dom. split.
  - intros ([k' d] & -> & Hk%elem_of_map_to_list). by exists d.
  - intros [d Hd]. exists (k, d). split; [done|]. by apply elem_of_map_to_list.
Qed.

Lemma affected_spec (s : gmap bytes DN) :
  seeds_ok s →
  let s' := affected order p mv idx s in
  seeds_ok s' ∧ dom s ⊆ dom s' ∧ (mo_nested p = true → ∀ y, y ∈ dom s' → closed_at s' y).
Proof.
  intros Hok. cbv zeta. unfold affected. destruct (mo_nested p) eqn:E; [|by split_and!].
  destruct (extend_spec (size s + size (gi_byMember idx)) s (order s)) as (? & ? & ?); [done | | | by split_and!].
  - intros y Hy. left. by apply order_elem.
  - assert (size (dom (gi_byMember idx) ∖ dom s) ≤ size (dom (gi_byMember idx))); [apply subseteq_size; set_solver|].
    rewrite size_dom in *. rewrite (Permutation_length (order_keys s)), length_fmap. rewrite length_map_to_list. lia.
Qed.
End extend.

(** * What a recomputed entry is *)

Section entries.
Context {U : Unicode} {UL : UnicodeLaws U}.

(** What else an entry is made of stays as it was. *)
Record same_entry (e e' : Entry) : Prop := {
  se_dn : EDN e' = EDN e;
  se_group : isGroupEntry e' = isGroupEntry e;
  se_members : memberDNs e' = memberDNs e;
  se_unique : unique_names e';
  se_others : ∀ n, equal_fold (B "memberOf") n = false → equal_fold (B "objectClass") n = false → Values e' n = Values e n;
}.

Lemma same_entry_refl (e : Entry) : unique_names e → same_entry e e.
Proof using Type. by split. Qed.

Lemma same_entry_trans (e1 e2 e3 : Entry) : same_entry e1 e2 → same_entry e2 e3 → same_entry e1 e3.
Proof using Type. intros [D1 G1 M1 U1 O1] [D2 G2 M2 U2 O2]. split; [congruence..|done|]. intros n H1 H2. by rewrite O2, O1. Qed.

Lemma ensureObjectClass_replaced (e : Entry) (name : bytes) :
  unique_names e →
  replaced (B "objectClass") (if hasObjectClass e name then Values e (B "objectClass") else Values e (B "objectClass") ++ [name]) e (ensureObjectClass e name).
Proof using UL.
  intros Hu. unfold ensureObjectClass. destruct (hasObjectClass e name); [by apply replaced_self|].
  pose proof (attrIndex_spec e (B "objectClass")) as H. destruct (attrIndex e (B "objectClass")) as [i|].
  - destruct H as (l & a & l' & He & -> & Ha & Hl). rewrite (values_at_middle e l l' a He), (Values_middle e _ l l' a He Ha Hl). by eapply replaced_set.
  - rewrite Values_vals, (vals_none _ _ H). by apply replaced_append.
Qed.

Lemma removeObjectClass_replaced (e : Entry) (name : bytes) :
  unique_names e →
  replaced (B "objectClass") (filter (λ v, equal_fold v name = false) (Values e (B "objectClass"))) e (removeObjectClass e name).
Proof using UL.
  intros Hu. unfold removeObjectClass. pose proof (attrIndex_spec e (B "objectClass")) as H. destruct (attrIndex e (B "objectClass")) as [i|].
  - destruct H as (l & a & l' & He & -> & Ha & Hl). rewrite (values_at_middle e l l' a He), (Values_middle e _ l l' a He Ha Hl). by eapply replaced_set.
  - rewrite Values_vals, (vals_none _ _ H). apply replaced_self; [done|]. by rewrite Values_vals, (vals_none _ _ H).
Qed.

(** Classes come and go one at a time. *)
Lemma class_kept (e e' : Entry) (name other : bytes) (vs : list bytes) :
  replaced (B "objectClass") vs e e' →
  (∀ v, equal_fold v other = true → v ∈ vs ↔ v ∈ Values e (B "objectClass")) → hasObjectClass e' other = hasObjectClass e other.
Proof using Type.
  intros R H. unfold hasObjectClass. rewrite (rep_values _ _ _ _ R). apply eq_true_iff_eq. rewrite !existsb_exists.
  split; intros (v & Hv%list_elem_of_In & Hf); exists v; (split; [|done]); apply list_elem_of_In; by apply H.
Qed.

Definition class_change (e e' : Entry) (name : bytes) : Prop :=
  ∃ vs, replaced (B "objectClass") vs e e' ∧
    ∀ v, equal_fold v name = false → v ∈ vs ↔ v ∈ Values e (B "objectClass").

Lemma class_change_group (e e' : Entry) : class_change e e' (B "nsmemberof") → isGroupEntry e' = isGroupEntry e.
Proof using UL.
  intros (vs & R & H). unfold isGroupEntry.
  assert (Hc : ∀ other, equal_fold other (B "nsmemberof") = false → hasObjectClass e' other = hasObjectClass e other).
  { intros other Ho. apply (class_kept e e' (B "nsmemberof") other vs R). intros v Hv. apply H. rewrite <- not_true_iff_false in Ho |- *. intros E. apply Ho.
    eapply equal_fold_trans; [|exact E]. by rewrite equal_fold_sym. }
  by rewrite !Hc by (apply fold_differs; [done | done | discriminate]).
Qed.

Lemma Values_members (e e' : Entry) : Values e' (B "member") = Values e (B "member") → Values e' (B "uniqueMember") = Values e (B "uniqueMember") → memberDNs e' = memberDNs e.
Proof using Type. unfold memberDNs. by intros -> ->. Qed.

Lemma replaced_same_entry (e e' : Entry) (n : bytes) (vs : list bytes) :
  replaced n vs e e' → equal_fold n (B "member") = false → equal_fold n (B "uniqueMember") = false → isGroupEntry e' = isGroupEntry e →
  equal_fold (B "memberOf") n = true ∨ equal_fold (B "objectClass") n = true → same_entry e e'.
Proof using UL.
  intros R H1 H2 Hg Hn. split; [apply (rep_dn _ _ _ _ R) | done | apply Values_members; by apply (rep_others _ _ _ _ R) | apply (rep_unique _ _ _ _ R)|].
  intros n' Hm Ho. apply (rep_others _ _ _ _ R). apply not_true_iff_false. intros E.
  rewrite <- !not_true_iff_false in *. destruct Hn as [Hn|Hn]; [apply Hm | apply Ho]; by eapply equal_fold_trans.
Qed.

Ltac apart := apply fold_differs; [done | done | discriminate].

Lemma with_memberOf_spec (e : Entry) (vs : list bytes) :
  unique_names e → same_entry e (with_memberOf e vs) ∧ Values (with_memberOf e vs) (B "memberOf") = vs ∧
    hasObjectClass (with_memberOf e vs) (B "nsmemberof") = (0 <? length vs)%nat.
Proof using UL.
  intros Hu. unfold with_memberOf. pose proof (setAttr_replaced e (B "memberOf") vs Hu) as R1. set (e1 := setAttr e (B "memberOf") vs) in *.
  assert (S1 : same_entry e e1).
  { apply (replaced_same_entry e e1 _ _ R1); [apart | apart | | left; apply equal_fold_refl]. unfold isGroupEntry, hasObjectClass.
    by rewrite (rep_others _ _ _ _ R1) by apart. }
  destruct (Nat.ltb_spec 0 (length vs)) as [Hl|Hl].
  - pose proof (ensureObjectClass_replaced e1 (B "nsmemberof") (se_unique _ _ S1)) as R2. set (e2 := ensureObjectClass e1 _) in *.
    split_and!.
    + eapply same_entry_trans; [exact S1|]. apply (replaced_same_entry e1 e2 _ _ R2); [apart | apart | | right; apply equal_fold_refl].
      apply class_change_group. eexists. split; [exact R2|]. intros v Hv. destruct (hasObjectClass e1 _); [done|].
      rewrite elem_of_app, list_elem_of_singleton. split; [intros [?| ->]; [done|]; by rewrite equal_fold_refl in Hv | by left].
    + rewrite (rep_others _ _ _ _ R2) by apart. apply (rep_values _ _ _ _ R1).
    + unfold hasObjectClass at 1. rewrite (rep_values _ _ _ _ R2). destruct (hasObjectClass e1 _) eqn:E; [exact E|].
      apply existsb_exists. exists (B "nsmemberof"). split; [|apply equal_fold_refl]. apply list_elem_of_In, elem_of_app. right. by apply list_elem_of_singleton.
  - pose proof (removeObjectClass_replaced e1 (B "nsmemberof") (se_unique _ _ S1)) as R2. set (e2 := removeObjectClass e1 _) in *.
    split_and!.
    + eapply same_entry_trans; [exact S1|]. apply (replaced_same_entry e1 e2 _ _ R2); [apart | apart | | right; apply equal_fold_refl].
      apply class_change_group. eexists. split; [exact R2|]. intros v Hv. rewrite list_elem_of_filter. tauto.
    + rewrite (rep_others _ _ _ _ R2) by apart. apply (rep_values _ _ _ _ R1).
    + unfold hasObjectClass. rewrite (rep_values _ _ _ _ R2). apply not_true_iff_false. rewrite existsb_exists.
      intros (v & [Hv _]%list_elem_of_In%list_elem_of_filter & Hf). congruence.
Qed.
End entries.
