(* ===== verification/MemberOfSpec.v ===== *)
(** What the MemberOf plugin promises: [memberOf] is derived from the groups.

    [lists] is the membership graph of a directory, [memberships] what it gives a key,
    through one level of groups or through all, and [derived] says that the [memberOf]
    values of every managed entry name exactly its memberships.  The index the plugin
    builds is this graph; a recomputation makes an entry right; and what the seeds and
    their extension leave out cannot have changed. *)

From stdpp Require Import fin_sets.
From S2P Require Import Prelude GoStrings DN DNFacts Message RenameFacts Schema Matching FilterEval StoreIface Aci Server Paging PagingFacts Search SearchFacts Write FakeStore WriteOps WriteFacts TreeFacts GoTime Bolt PwHash Password PasswordFacts MemberOf.
Local Open Scope nat_scope.

(** What a transaction promises of [Subtree]: the entries at and below a name that is
    there, once each. *)
Class SubtreeLaws {U : Unicode} {St : Type} (UT : UpdateTx St) (contents : St → gmap bytes Entry) (ok : St → Prop) : Prop := {
  sub_spec : ∀ st b, ok st → wf_dn b → rooted (contents st) b →
    match contents st !! FoldedKey b with
    | None => tx_Subtree (ut_read st) b = Err ErrNoSuchObject
    | Some _ => ∃ l, tx_Subtree (ut_read st) b = Ok l ∧ NoDup l ∧
        ∀ e, e ∈ l ↔ ∃ k d, contents st !! k = Some e ∧ ParseDN (EDN e) = Ok d ∧ moved b d
    end;
}.

Section names.
Context {U : Unicode} {UL : UnicodeLaws U}.

Lemma moved_fold (b d d' : DN) : fold_dn d = fold_dn d' → moved b d → moved b d'.
Proof using Type. intros H [E|Hu]; [left; congruence | right; by rewrite <- (under_fold b b d d')]. Qed.

(** Below a base that is not there is nothing. *)
Lemma rooted_base (m : gmap bytes Entry) (b : DN) (k : bytes) (e : Entry) (d : DN) :
  wf_dn b → rooted m b → keys_ok m → m !! k = Some e → ParseDN (EDN e) = Ok d → moved b d → is_Some (m !! FoldedKey b).
Proof using UL.
  intros Hb Hr Hk. remember (length (rdns d)) as n eqn:Hn. assert (Hle : length (rdns d) ≤ n) by lia. clear Hn. revert k e d Hle.
  induction n as [|n IH]; intros k e d Hle He Hd Hm; pose proof (ParseDN_wf_aux _ _ Hd) as Hw.
  { destruct Hw as [Hne _]. destruct (rdns d); [done | cbn in Hle; lia]. }
  destruct (Hk k e He) as (d' & Hd' & Hkd & _). assert (d' = d) as -> by congruence. destruct Hm as [Hf|Hu].
  { rewrite !FoldedKey_String in *. exists e. by rewrite <- Hf, Hkd. }
  assert (Hbne : rdns b ≠ []) by (destruct Hb; done). destruct (Parent d) as [q|] eqn:Hp; [|by rewrite under_root in Hu].
  destruct (Hr k e d q He Hd Hu Hp) as [ep Hep]. destruct (Hk _ _ Hep) as (dp & Hdp & Hkp & _).
  pose proof (ParseDN_wf_aux _ _ Hdp) as Hwp. pose proof (parent_wf _ _ Hw Hp) as Hwq. apply (key_fold dp q Hwp Hwq) in Hkp.
  apply (IH (FoldedKey q) ep dp); [|done..|].
  - rewrite <- (fold_length dp), Hkp, fold_length. destruct d as [[|r [|r' l]]]; try done. injection Hp as <-. cbn in *. lia.
  - apply (moved_fold b q dp); [done|]. by apply (under_parent b d q).
Qed.
End names.

(** * The index *)

Section index.
Context {U : Unicode}.
Variable mv : option (DN * DN).

Lemma index_members_elem (e e' : Entry) (ms : list DN) (by_ : gmap bytes (list Entry)) (y : bytes) :
  e' ∈ default [] (foldl (index_member mv e) by_ ms !! y) ↔ e' ∈ default [] (by_ !! y) ∨ e' = e ∧ ∃ x, x ∈ ms ∧ FoldedKey (moved_by mv x) = y.
Proof.
  revert by_. induction ms as [|m ms IH]; intros by_; cbn [foldl].
  - split; [by left | by intros [?|(_ & x & ?%not_elem_of_nil & _)]].
  - rewrite IH. unfold index_member. destruct (decide (FoldedKey (moved_by mv m) = y)) as [<-|Hne].
    + rewrite lookup_insert_eq. cbn. rewrite elem_of_app, list_elem_of_singleton. set_solver.
    + rewrite lookup_insert_ne by done. set_solver.
Qed.

Definition indexed (e : Entry) (y : bytes) : Prop :=
  isGroupEntry e = true ∧ is_Some (key_of e) ∧ ∃ x, x ∈ memberDNs e ∧ FoldedKey (moved_by mv x) = y.

Lemma index_entries_listing (es : list Entry) (idx : groupIndex) (y : bytes) (e : Entry) :
  e ∈ gi_listing (foldl (index_entry mv) idx es) y ↔ e ∈ gi_listing idx y ∨ e ∈ es ∧ indexed e y.
Proof.
  revert idx. induction es as [|a es IH]; intros idx; cbn [foldl].
  - split; [by left | by intros [?|[?%not_elem_of_nil _]]].
  - rewrite IH, elem_of_cons. assert (H : e ∈ gi_listing (index_entry mv idx a) y ↔ e ∈ gi_listing idx y ∨ e = a ∧ indexed a y).
    { unfold index_entry, indexed, key_of. destruct (isGroupEntry a); cbn [negb]; [|naive_solver].
      destruct (ParseDN (EDN a)) as [d|]; cbn [res_opt fmap option_fmap option_map].
      - unfold gi_listing. cbn [gi_byMember]. rewrite index_members_elem. split; [intros [?|[-> ?]]; [by left | right; split_and!; [done..|by eexists|done]] | naive_solver].
      - split; [by left | intros [?|(_ & _ & [? [=]] & _)]; done]. }
    rewrite H. naive_solver.
Qed.

Lemma index_entries_groups (es : list Entry) (idx : groupIndex) (k : bytes) :
  (∀ e, gi_groups (foldl (index_entry mv) idx es) !! k = Some e → gi_groups idx !! k = Some e ∨ e ∈ es ∧ isGroupEntry e = true ∧ key_of e = Some k) ∧
  (is_Some (gi_groups idx !! k) ∨ (∃ e, e ∈ es ∧ isGroupEntry e = true ∧ key_of e = Some k) → is_Some (gi_groups (foldl (index_entry mv) idx es) !! k)).
Proof.
  revert idx. induction es as [|a es IH]; intros idx; cbn [foldl].
  - split; [by left | by intros [?|(e & ?%not_elem_of_nil & _)]].
  - destruct (IH (index_entry mv idx a)) as [H1 H2].
    assert (Ha : ∀ e, gi_groups (index_entry mv idx a) !! k = Some e → gi_groups idx !! k = Some e ∨ e = a ∧ isGroupEntry a = true ∧ key_of a = Some k).
    { intros e. unfold index_entry, key_of. destruct (isGroupEntry a); cbn [negb]; [|by left]. destruct (ParseDN (EDN a)) as [d|]; [|by left].
      cbn. intros [[<- <-]|[_ ?]]%lookup_insert_Some; [by right | by left]. }
    assert (Hb : is_Some (gi_groups idx !! k) ∨ isGroupEntry a = true ∧ key_of a = Some k → is_Some (gi_groups (index_entry mv idx a) !! k)).
    { unfold index_entry, key_of. destruct (isGroupEntry a); cbn [negb]; [|naive_solver]. destruct (ParseDN (EDN a)) as [d|]; [|cbn; naive_solver].
      cbn. rewrite lookup_insert_is_Some. intros [?|[_ [= ->]]]; [|by left]. destruct (decide (FoldedKey d = k)); [by left | by right]. }
    split.
    + intros e [Hg|(? & ?)]%H1; [|right; split; [set_solver | done]]. apply Ha in Hg as [?|(-> & ?)]; [by left | right; split; [set_solver | done]].
    + intros [Hi|(e & [->|Hin]%elem_of_cons & He)]; apply H2; [left; apply Hb; by left | left; apply Hb; by right | right; by exists e].
Qed.
End index.

Section spec.
Context {U : Unicode} {UL : UnicodeLaws U} {St : Type} {UT : UpdateTx St}.
Context (contents : St → gmap bytes Entry) (ok : St → Prop) {CL : UpdateTxLaws UT contents ok} {SL : SubtreeLaws UT contents ok}.
Variable sv : Server.
Hypothesis flat : flat_suffixes sv.
Variable p : MemberOfPlugin.
Hypothesis scopes_managed : ∀ s, s ∈ mo_scopes p → s ∈ suffixes sv.
Hypothesis scopes_wf : ∀ s, s ∈ mo_scopes p → wf_dn s.

Local Abbreviation good := (good contents ok sv).

(** ** The membership graph *)

(** A name is covered when it is at or below a suffix of the plugin, up to its key. *)
Definition covered (d : DN) : Prop := ∃ s, s ∈ mo_scopes p ∧ moved s d.

Lemma covered_key (d d' : DN) : wf_dn d → wf_dn d' → FoldedKey d = FoldedKey d' → covered d → covered d'.
Proof using UL. intros Hd Hd' Hk (s & Hs & Hm). exists s. split; [done|]. eapply moved_fold; [|done]. by apply key_fold. Qed.

(** The managed groups of a directory. *)
Definition a_group (m : gmap bytes Entry) (g : bytes) (e : Entry) : Prop :=
  m !! g = Some e ∧ isGroupEntry e = true ∧ ∃ d, ParseDN (EDN e) = Ok d ∧ FoldedKey d = g ∧ covered d.

Definition lists (mv : option (DN * DN)) (m : gmap bytes Entry) (y g : bytes) : Prop :=
  ∃ e x, a_group m g e ∧ x ∈ memberDNs e ∧ FoldedKey (moved_by mv x) = y.

Definition memberships (mv : option (DN * DN)) (m : gmap bytes Entry) (y g : bytes) : Prop :=
  if mo_nested p then tc (lists mv m) y g else lists mv m y g.

Definition derived (mv : option (DN * DN)) (m : gmap bytes Entry) : Prop :=
  ∀ k e d, m !! k = Some e → ParseDN (EDN e) = Ok d → covered d → ∀ g, g ∈ memberOf_keys e ↔ memberships mv m k g.

(** ** Reading the directory *)

Lemma good_name (st : St) (k : bytes) (e : Entry) :
  good st → contents st !! k = Some e → ∃ d, ParseDN (EDN e) = Ok d ∧ FoldedKey d = k ∧ EDN e = String d ∧ wf_dn d ∧ no_tab_end d.
Proof using UL. intros [_ Ht] Hk. destruct (Ht k e Hk) as (d & Hd & ? & ? & ? & _). exists d. split_and!; try done. by eapply ParseDN_wf_aux. Qed.

Lemma good_keys (st : St) : good st → keys_ok (contents st).
Proof using UL. intros Hg k e Hk. destruct (good_name st k e Hg Hk) as (d & ? & ? & _ & _ & ?). by exists d. Qed.

Lemma good_rooted (st : St) (b : DN) : good st → inSuffix sv b = true → rooted (contents st) b.
Proof using flat. intros [_ Ht] Hb. by apply (tree_rooted sv). Qed.

Lemma scope_inSuffix (s : DN) : s ∈ mo_scopes p → inSuffix sv s = true.
Proof using scopes_managed.
  intros Hs. unfold inSuffix, UnderAny. apply existsb_exists. exists s. split; [by apply list_elem_of_In, scopes_managed|].
  apply orb_true_iff. left. unfold Equal. rewrite Nat.eqb_refl. cbn [andb].
  induction (rdns s) as [|r l IH]; cbn; [done|]. apply andb_true_iff. split; [|done]. unfold rdn_eqb. by rewrite !beq_refl.
Qed.

Lemma subtree_entries (st : St) (b : DN) :
  good st → wf_dn b → inSuffix sv b = true →
  ∃ l, subtree_or_none (ut_read st) b = Ok l ∧ NoDup l ∧ ∀ e, e ∈ l ↔ ∃ k d, contents st !! k = Some e ∧ ParseDN (EDN e) = Ok d ∧ moved b d.
Proof using CL SL UL flat.
  intros Hg Hw Hin. pose proof (good_rooted st b Hg Hin) as Hr. pose proof (sub_spec (SubtreeLaws := SL) st b (proj1 Hg) Hw Hr) as H.
  unfold subtree_or_none. destruct (contents st !! FoldedKey b) eqn:E.
  - destruct H as (l & -> & H). by exists l.
  - rewrite H. exists []. split_and!; [done | constructor |]. intros e. split; [by intros ?%not_elem_of_nil|].
    intros (k & d & Hk & Hd & Hm). destruct (rooted_base (contents st) b k e d Hw Hr (good_keys st Hg) Hk Hd Hm) as [? ?]. congruence.
Qed.

(** ** The index is the graph *)

Lemma index_scopes (st : St) (mv : option (DN * DN)) (ss : list DN) (idx : groupIndex) :
  good st → (∀ s, s ∈ ss → s ∈ mo_scopes p) →
  ∃ es, rfold (λ idx suf, entries ← lift (subtree_or_none (ut_read st) suf); Ok (foldl (index_entry mv) idx entries)) idx ss = Ok (foldl (index_entry mv) idx es) ∧
    ∀ e, e ∈ es ↔ ∃ s k d, s ∈ ss ∧ contents st !! k = Some e ∧ ParseDN (EDN e) = Ok d ∧ moved s d.
Proof using CL SL UL flat scopes_managed scopes_wf.
  intros Hg. revert idx. induction ss as [|s ss IH]; intros idx Hss; cbn [rfold].
  - exists []. split; [done|]. intros e. split; [by intros ?%not_elem_of_nil | by intros (? & ? & ? & ?%not_elem_of_nil & _)].
  - destruct (subtree_entries st s Hg) as (l & -> & _ & Hl); [apply scopes_wf, Hss; set_solver | apply scope_inSuffix, Hss; set_solver|].
    cbn [lift mbind res_bind]. destruct (IH (foldl (index_entry mv) idx l)) as (es & -> & Hes); [intros; apply Hss; set_solver|].
    exists (l ++ es). rewrite foldl_app. split; [done|]. intros e. rewrite elem_of_app, Hl, Hes. split.
    + intros [(k & d & ?)|(s' & k & d & ? & ?)]; [exists s, k, d; split; [set_solver | done] | exists s', k, d; split; [set_solver | done]].
    + intros (s' & k & d & [->|Hin]%elem_of_cons & H); [left; by exists k, d | right; by exists s', k, d].
Qed.

(** An index is faithful when it is the graph. *)
Record faithful_index (mv : option (DN * DN)) (m : gmap bytes Entry) (idx : groupIndex) : Prop := {
  fi_groups : ∀ k e, gi_groups idx !! k = Some e ↔ a_group m k e;
  fi_listing : ∀ y e, e ∈ gi_listing idx y ↔ ∃ k x, a_group m k e ∧ x ∈ memberDNs e ∧ FoldedKey (moved_by mv x) = y;
}.

Lemma indexGroups_spec (st : St) (mv : option (DN * DN)) :
  good st → ∃ idx, indexGroups p (ut_read st) mv = Ok idx ∧ faithful_index mv (contents st) idx.
Proof using CL SL UL flat scopes_managed scopes_wf.
  intros Hg. unfold indexGroups. destruct (index_scopes st mv (mo_scopes p) (MkGroupIndex ∅ ∅) Hg) as (es & -> & Hes); [done|].
  eexists. split; [done|].
  assert (Hgrp : ∀ k e, a_group (contents st) k e ↔ e ∈ es ∧ isGroupEntry e = true ∧ key_of e = Some k).
  { intros k e. rewrite Hes, key_of_some. split.
    - intros (Hk & Hi & d & Hd & Hkd & s & Hs & Hm). split_and!; [by exists s, k, d | done | by exists d].
    - intros ((s & k' & d & Hs & Hk' & Hd & Hm) & Hi & d' & Hd' & <-). assert (d' = d) as -> by congruence.
      destruct (good_name st k' e Hg Hk') as (d' & Hd'' & <- & _). assert (d' = d) as -> by congruence.
      split_and!; [done..|]. exists d. split_and!; [done..|]. by exists s. }
  split.
  - intros k e. destruct (index_entries_groups mv es (MkGroupIndex ∅ ∅) k) as [H1 H2]. rewrite Hgrp. split.
    + intros [He|He]%H1; [cbn in He; by rewrite lookup_empty in He | done].
    + intros He. destruct H2 as [e' He']; [right; by exists e|]. rewrite He'. f_equal. apply H1 in He' as [He'|He']; [cbn in He'; by rewrite lookup_empty in He'|].
      apply Hgrp in He as [He _], He' as [He' _]. congruence.
  - intros y e. rewrite index_entries_listing. unfold gi_listing at 1. cbn. rewrite lookup_empty. cbn. unfold indexed. split.
    + intros [?%not_elem_of_nil|(He & Hi & [k Hk] & x & Hx & Hy)]; [done|]. exists k, x. rewrite Hgrp. by split_and!.
    + intros (k & x & (He & Hi & Hk)%Hgrp & Hx & Hy). right. split_and!; [done..| by exists k | by exists x].
Qed.

Section faithful.
Variables (mv : option (DN * DN)) (m : gmap bytes Entry) (idx : groupIndex).
Hypothesis Hidx : faithful_index mv m idx.

Lemma faithful_climbs (y g : bytes) : climbs_to idx y g ↔ lists mv m y g.
Proof using Hidx.
  destruct Hidx as [_ Hl]. unfold climbs_to, lists. split.
  - intros (e & (k & x & Hg & Hx & Hy)%Hl & Hk). destruct Hg as (He & Hi & d & Hd & Hkd & Hc).
    apply key_of_some in Hk as (d' & Hd' & <-). assert (d' = d) as -> by congruence. subst k. exists e, x. split_and!; [|done..]. split_and!; [done..|by exists d].
  - intros (e & x & Hg & Hx & Hy). exists e. split; [apply Hl; by exists g, x|]. destruct Hg as (_ & _ & d & Hd & Hkd & _). apply key_of_some. by exists d.
Qed.

Lemma faithful_listed : listed_indexed idx.
Proof using Hidx.
  intros y g k Hg Hk. apply (fi_listing _ _ _ Hidx) in Hg as (k' & x & Hg & _). exists g. apply (fi_groups _ _ _ Hidx).
  destruct Hg as (He & Hi & d & Hd & Hkd & Hc). apply key_of_some in Hk as (d' & Hd' & <-). assert (d' = d) as -> by congruence. subst k'. split_and!; [done..|by exists d].
Qed.

Lemma faithful_members : members_listed mv idx.
Proof using Hidx.
  intros k g x Hg Hx. apply (fi_groups _ _ _ Hidx) in Hg.
  assert (H : g ∈ gi_listing idx (FoldedKey (moved_by mv x))) by (apply (fi_listing _ _ _ Hidx); by exists k, x).
  unfold gi_listing in H. destruct (gi_byMember idx !! _); [by eexists | by apply not_elem_of_nil in H].
Qed.

Lemma tc_iff (R R' : relation bytes) (x y : bytes) : (∀ a b, R a b ↔ R' a b) → tc R x y ↔ tc R' x y.
Proof using Type. intros H. split; intros Ht; (induction Ht; [apply tc_once | eapply tc_l; [|done]]); by apply H. Qed.

(** What the walk up finds is the memberships. *)
Lemma expected_memberships (k g : bytes) : is_Some (expected_groups p idx k !! g) ↔ memberships mv m k g.
Proof using Hidx.
  rewrite (expected_spec idx faithful_listed). unfold listed_by, memberships. destruct (mo_nested p); [|apply faithful_climbs].
  apply tc_iff, faithful_climbs.
Qed.
End faithful.

(** ** Recomputing *)

Definition all_unique (m : gmap bytes Entry) : Prop := ∀ k e, m !! k = Some e → unique_names e.

Lemma memberOf_keys_elem (e : Entry) (g : bytes) :
  g ∈ memberOf_keys e ↔ ∃ v d, v ∈ Values e (B "memberOf") ∧ ParseDN v = Ok d ∧ FoldedKey d = g.
Proof using Type.
  unfold memberOf_keys. rewrite elem_of_list_to_set, list_elem_of_omap. unfold dnFromValue. split.
  - intros (v & Hv & H). exists v. destruct (ParseDN v) as [d|]; [|done]. cbn in H. injection H as <-. by exists d.
  - intros (v & d & Hv & Hd & <-). exists v. by rewrite Hd.
Qed.

Lemma sorted_values_elem (ex : gmap bytes bytes) (v : bytes) : v ∈ sorted_values ex ↔ ∃ k, ex !! k = Some v.
Proof using Type.
  unfold sorted_values. rewrite list_elem_of_omap. split; [intros (k & _ & ?); by exists k|].
  intros [k Hk]. exists k. split; [|done]. rewrite sort_by_perm. apply list_elem_of_fmap. exists (k, v). split; [done|]. by apply elem_of_map_to_list.
Qed.

Lemma sorted_values_length (ex : gmap bytes bytes) : (0 <? length (sorted_values ex)) = (0 <? size ex).
Proof using Type.
  apply eq_true_iff_eq. rewrite !Nat.ltb_lt. split; intros H.
  - destruct (sorted_values ex) as [|v l] eqn:E; [cbn in H; lia|]. assert (Hv : v ∈ sorted_values ex) by (rewrite E; left).
    apply sorted_values_elem in Hv as [k Hk]. destruct (decide (size ex = 0)) as [Hz%map_size_empty_inv|]; [by rewrite Hz, lookup_empty in Hk | lia].
  - destruct (decide (ex = ∅)) as [->|[k [v Hk]]%map_choose]; [by rewrite map_size_empty in H|].
    assert (Hv : v ∈ sorted_values ex) by (apply sorted_values_elem; by exists k). destruct (sorted_values ex); [by apply not_elem_of_nil in Hv | cbn; lia].
Qed.

Lemma sameDNSet_dom (cur : gset bytes) (ex : gmap bytes bytes) : sameDNSet cur ex = true → cur = dom ex.
Proof using Type.
  unfold sameDNSet. intros [Hs%Nat.eqb_eq Ha]%andb_true_iff. apply set_subseteq_size_eq; [|rewrite size_dom; lia].
  intros k Hk. rewrite forallb_forall in Ha. apply elem_of_dom. specialize (Ha k). rewrite bool_decide_eq_true in Ha. apply Ha, list_elem_of_In, elem_of_elements, Hk.
Qed.

Lemma replace_entry (st st' : St) (k : bytes) (e e' : Entry) :
  good st → contents st !! k = Some e → EDN e' = EDN e → ut_Replace st e' = Ok st' → good st' ∧ contents st' = <[k := e']> (contents st).
Proof using CL UL.
  intros Hg Hk Hdn Hr. split; [by eapply (tree_replace contents ok sv)|].
  destruct (good_name st k e Hg Hk) as (d & Hd & <- & Hs & Hw & Ht).
  apply (ut_replace (UpdateTxLaws := CL)) in Hr as (d' & Hd' & _ & Hr); [|apply Hg]. rewrite Hdn in Hd'. assert (d' = d) as -> by congruence.
  destruct (Hr Ht) as [_ ->]. f_equal. destruct e'. cbn in *. congruence.
Qed.

Section recompute.
Variables (mv : option (DN * DN)) (m : gmap bytes Entry) (idx : groupIndex).
Hypothesis Hidx : faithful_index mv m idx.
Hypothesis Hnames : ∀ k e, m !! k = Some e → ∃ d, ParseDN (EDN e) = Ok d ∧ EDN e = String d.

Lemma expected_named (k g v : bytes) : expected_groups p idx k !! g = Some v → ∃ d, ParseDN v = Ok d ∧ FoldedKey d = g.
Proof using Hidx Hnames.
  intros Hv. assert (H : names_of (map_to_list (gi_groups idx)).*2 (expected_groups p idx k)).
  { apply climb_names; [|intros k' v'; cbn; by rewrite lookup_empty]. intros y e (k' & x & Hg & _)%(fi_listing _ _ _ Hidx).
    apply list_elem_of_fmap. exists (k', e). split; [done|]. by apply elem_of_map_to_list, (fi_groups _ _ _ Hidx). }
  destruct (H g v Hv) as (e & d & Hin & Hd & -> & ->). exists d. split; [|done].
  apply list_elem_of_fmap in Hin as ([k' e'] & -> & (Hk & _)%elem_of_map_to_list%(fi_groups _ _ _ Hidx)).
  destruct (Hnames _ _ Hk) as (d' & Hd' & Hs). cbn [snd] in *. congruence.
Qed.

(** An entry is right when its values name its memberships. *)
Definition right (k : bytes) (e : Entry) : Prop := ∀ g, g ∈ memberOf_keys e ↔ memberships mv m k g.

Lemma written_right (k : bytes) (e : Entry) : Values e (B "memberOf") = sorted_values (expected_groups p idx k) → right k e.
Proof using Hidx Hnames.
  intros Hv g. rewrite memberOf_keys_elem, Hv, <- (expected_memberships mv m idx Hidx). split.
  - intros (v & d & (g' & Hg)%sorted_values_elem & Hd & <-). destruct (expected_named _ _ _ Hg) as (d' & Hd' & <-). assert (d' = d) as -> by congruence. by exists v.
  - intros [v Hg]. destruct (expected_named _ _ _ Hg) as (d & Hd & <-). exists v, d. split_and!; [|done..]. apply sorted_values_elem. by exists (FoldedKey d).
Qed.

Lemma recompute_spec (st st' : St) (x : DN) :
  good st → all_unique (contents st) → recompute p idx st x = Ok st' →
  good st' ∧
  match contents st !! FoldedKey x with
  | None => contents st' = contents st
  | Some e => ∃ e', contents st' = <[FoldedKey x := e']> (contents st) ∧ same_entry e e' ∧ right (FoldedKey x) e'
  end.
Proof using CL UL Hidx Hnames.
  intros Hg Hu. unfold recompute. rewrite (ut_entry (UpdateTxLaws := CL)) by apply Hg. set (k := FoldedKey x).
  destruct (contents st !! k) as [e|] eqn:Ek; [|by intros [= <-]].
  destruct (converged e (expected_groups p idx k)) eqn:Ec.
  - intros [= <-]. split; [done|]. exists e. rewrite insert_id by done. split_and!; [done | by apply same_entry_refl, (Hu k)|].
    unfold converged in Ec. apply andb_true_iff in Ec as [Hs _]. apply sameDNSet_dom in Hs. intros g.
    by rewrite Hs, elem_of_dom, (expected_memberships mv m idx Hidx).
  - intros Hr%lift_ok. destruct (with_memberOf_spec e (sorted_values (expected_groups p idx k)) (Hu k e Ek)) as (Hs & Hv & _).
    destruct (replace_entry st st' k e _ Hg Ek (se_dn _ _ Hs) Hr) as [Hg' E]. split; [done|]. eexists. split_and!; [exact E | done|]. by apply written_right.
Qed.

(** What a run of recomputations leaves: the keys visited are right, the others have the
    [memberOf] they had. *)
Definition rederived (ks : list bytes) (m1 m2 : gmap bytes Entry) : Prop :=
  ∀ k, match m1 !! k, m2 !! k with
  | None, None => True
  | Some e, Some e' => same_entry e e' ∧ (k ∈ ks → right k e') ∧ (k ∉ ks → memberOf_keys e' = memberOf_keys e)
  | _, _ => False
  end.

Lemma rederived_refl (m1 : gmap bytes Entry) : all_unique m1 → rederived [] m1 m1.
Proof using Type.
  intros Hu k. destruct (m1 !! k) eqn:E; [|done]. split_and!; [by apply same_entry_refl, (Hu k) | by intros ?%not_elem_of_nil | done].
Qed.

Lemma rederived_unique (ks : list bytes) (m1 m2 : gmap bytes Entry) : rederived ks m1 m2 → all_unique m2.
Proof using Type. intros H k e' Hk. specialize (H k). rewrite Hk in H. destruct (m1 !! k); [|done]. apply (se_unique _ _ (proj1 H)). Qed.

Lemma recompute_all (ds : list DN) (st st' : St) :
  good st → all_unique (contents st) → rfold (recompute p idx) st ds = Ok st' → good st' ∧ rederived (FoldedKey <$> ds) (contents st) (contents st').
Proof using CL UL Hidx Hnames.
  revert st. induction ds as [|x ds IH]; intros st Hg Hu; cbn [rfold]; [intros [= <-]; split; [done | by apply rederived_refl]|].
  intros (st1 & H1 & H)%bind_ok. destruct (recompute_spec st st1 x Hg Hu H1) as [Hg1 Hc].
  assert (Hu1 : all_unique (contents st1)).
  { destruct (contents st !! FoldedKey x); [|by rewrite Hc]. destruct Hc as (e' & -> & Hs & _).
    intros k a [[_ <-]|[_ ?]]%lookup_insert_Some; [apply (se_unique _ _ Hs) | by eapply Hu]. }
  destruct (IH st1 Hg1 Hu1 H) as [Hg' Hre]. split; [done|]. intros k. specialize (Hre k). cbn [fmap list_fmap].
  destruct (contents st !! FoldedKey x) as [e|] eqn:Ex.
  - destruct Hc as (e' & E & Hs & Hr). rewrite E in Hre. destruct (decide (k = FoldedKey x)) as [->|Hne].
    + rewrite Ex. rewrite lookup_insert_eq in Hre. destruct (contents st' !! FoldedKey x) as [e2|]; [|done]. destruct Hre as (Hs2 & Hin & Hout).
      rewrite elem_of_cons. split_and!; [by eapply same_entry_trans | | by intros []; left]. intros _.
      destruct (decide (FoldedKey x ∈ FoldedKey <$> ds)) as [Hd|Hd]; [by apply Hin|]. unfold right. pose proof (Hout Hd) as ->. exact Hr.
    + rewrite lookup_insert_ne in Hre by done. destruct (contents st !! k), (contents st' !! k); try done.
      destruct Hre as (Hs2 & Hin & Hout). rewrite elem_of_cons. split_and!; [done | naive_solver | naive_solver].
  - rewrite Hc in Hre. destruct (decide (k = FoldedKey x)) as [->|Hne]; [rewrite Ex in *; done|].
    destruct (contents st !! k), (contents st' !! k); try done. destruct Hre as (Hs2 & Hin & Hout). rewrite elem_of_cons. split_and!; [done | naive_solver | naive_solver].
Qed.
End recompute.

(** ** The seeds *)

(** Sets, without what the section assumes. *)
Local Ltac set_only := clear flat scopes_managed scopes_wf; clear CL SL; set_solver.

Section seeds.
Variable mv : option (DN * DN).

(** The managed members of an entry, if it is a group, are among the seeds. *)
Definition seeded (s : gmap bytes DN) (e : Entry) : Prop :=
  isGroupEntry e = true → ∀ x, x ∈ memberDNs e → mo_inScope p (moved_by mv x) = true → FoldedKey (moved_by mv x) ∈ dom s.

Record grows (s s' : gmap bytes DN) : Prop := {
  gr_ok : seeds_ok p s → seeds_ok p s';
  gr_sub : dom s ⊆ dom s';
}.

Lemma grows_refl (s : gmap bytes DN) : grows s s.
Proof using UL. by split. Qed.

Lemma grows_trans (s1 s2 s3 : gmap bytes DN) : grows s1 s2 → grows s2 s3 → grows s1 s3.
Proof using UL. intros [? ?] [? ?]. split; [auto | set_only]. Qed.

Lemma seeded_grows (s s' : gmap bytes DN) (e : Entry) : grows s s' → seeded s e → seeded s' e.
Proof using UL. intros [_ Hs] H Hg x Hx Hi. by apply Hs, H. Qed.

Lemma insert_grows (s : gmap bytes DN) (d : DN) : mo_inScope p d = true → grows s (<[FoldedKey d := d]> s).
Proof using UL.
  intros Hd. split; [|rewrite dom_insert_L; set_only]. intros Hok k m [[<- <-]|[_ ?]]%lookup_insert_Some; [done | by apply Hok].
Qed.

Lemma seed_members (ms : list DN) (s : gmap bytes DN) :
  grows s (foldl (seed_member p mv) s ms) ∧
  ∀ x, x ∈ ms → mo_inScope p (moved_by mv x) = true → FoldedKey (moved_by mv x) ∈ dom (foldl (seed_member p mv) s ms).
Proof using UL.
  revert s. induction ms as [|m ms IH]; intros s; cbn [foldl]; [split; [apply grows_refl | by intros x ?%not_elem_of_nil]|].
  destruct (IH (seed_member p mv s m)) as [Hg Hin].
  assert (Hm : grows s (seed_member p mv s m)) by (unfold seed_member; destruct (mo_inScope _ _) eqn:E; [by apply insert_grows | apply grows_refl]).
  split; [by eapply grows_trans|]. intros x [->|Hx]%elem_of_cons Hs; [|by apply Hin]. apply (gr_sub _ _ Hg).
  unfold seed_member. rewrite Hs, dom_insert_L. set_only.
Qed.

Lemma seed_spec (s : gmap bytes DN) (e : option Entry) : grows s (seed p mv s e) ∧ ∀ e', e = Some e' → seeded (seed p mv s e) e'.
Proof using UL.
  destruct e as [e|]; cbn [seed]; [|split; [apply grows_refl | done]]. destruct (isGroupEntry e) eqn:E.
  - destruct (seed_members (memberDNs e) s) as [Hg Hin]. split; [done|]. intros e' [= <-] _. apply Hin.
  - split; [apply grows_refl|]. intros e' [= <-] H. congruence.
Qed.

Lemma seed_moving_spec (s : gmap bytes DN) (e : Entry) :
  grows s (seed_moving p mv s e) ∧ seeded (seed_moving p mv s e) e ∧
  ∀ d, ParseDN (EDN e) = Ok d → mo_inScope p d = true → FoldedKey d ∈ dom (seed_moving p mv s e).
Proof using UL.
  unfold seed_moving. set (s1 := match ParseDN (EDN e) with Ok d => _ | Err _ => s end).
  assert (H1 : grows s s1) by (unfold s1; destruct (ParseDN (EDN e)) as [d|]; [|apply grows_refl]; destruct (mo_inScope p d) eqn:E; [by apply insert_grows | apply grows_refl]).
  destruct (seed_spec s1 (Some e)) as [H2 H3]. split_and!; [by eapply grows_trans | by apply H3|].
  intros d Hd Hs. apply (gr_sub _ _ H2). unfold s1. rewrite Hd, Hs, dom_insert_L. set_only.
Qed.

Lemma seed_moving_all (es : list Entry) (s : gmap bytes DN) :
  let s' := foldl (seed_moving p mv) s es in
  grows s s' ∧ ∀ e, e ∈ es → seeded s' e ∧ ∀ d, ParseDN (EDN e) = Ok d → mo_inScope p d = true → FoldedKey d ∈ dom s'.
Proof using UL.
  cbv zeta. revert s. induction es as [|a es IH]; intros s; cbn [foldl]; [split; [apply grows_refl | by intros e ?%not_elem_of_nil]|].
  destruct (seed_moving_spec s a) as (H1 & H2 & H3). destruct (IH (seed_moving p mv s a)) as [Hg Hin].
  split; [by eapply grows_trans|]. intros e [->|He]%elem_of_cons; [|by apply Hin].
  split; [by eapply seeded_grows|]. intros d Hd Hs. by apply (gr_sub _ _ Hg), H3.
Qed.
End seeds.

(** The entries an event names. *)
Definition event_entry (ev : WriteEvent) (e : Entry) : Prop :=
  (ev_Op ev ≠ WriteAdd ∧ ev_Before ev = Some e) ∨ (ev_Op ev ≠ WriteDelete ∧ ev_After ev = Some e).

Lemma seeds_ok_empty : seeds_ok p ∅.
Proof using Type. intros k m. by rewrite lookup_empty. Qed.

Lemma seeds_of_spec (st : St) (ev : WriteEvent) (seeds : gmap bytes DN) :
  good st → (∀ from to, move_of ev = Some (from, to) → inSuffix sv to = true) → seeds_of p st ev = Ok seeds →
  seeds_ok p seeds ∧ (∀ e, event_entry ev e → seeded (move_of ev) seeds e) ∧
  (∀ from to, move_of ev = Some (from, to) → ∀ k e d, contents st !! k = Some e → ParseDN (EDN e) = Ok d → moved to d →
     seeded (move_of ev) seeds e ∧ (mo_inScope p d = true → k ∈ dom seeds)).
Proof using CL SL UL flat.
  intros Hg Hto. unfold seeds_of. set (mv := move_of ev).
  destruct (seed_spec mv ∅ (ev_Before ev)) as [Hb1 Hb2]. destruct (seed_spec mv ∅ (ev_After ev)) as [Ha1 Ha2].
  destruct (seed_spec mv (seed p mv ∅ (ev_Before ev)) (ev_After ev)) as [Hc1 Hc2].
  assert (Hboth : ∀ s', grows (seed p mv (seed p mv ∅ (ev_Before ev)) (ev_After ev)) s' → seeds_ok p s' ∧ ∀ e, event_entry ev e → seeded mv s' e).
  { intros s' Hs. split; [apply (gr_ok _ _ Hs), (gr_ok _ _ Hc1), (gr_ok _ _ Hb1), seeds_ok_empty|].
    intros e [[_ He]|[_ He]]; (eapply seeded_grows; [exact Hs|]); [eapply seeded_grows; [exact Hc1 | by apply Hb2] | by apply Hc2]. }
  destruct (ev_Op ev) eqn:Eop.
  - intros [= <-]. split_and!; [apply (gr_ok _ _ Ha1), seeds_ok_empty | |].
    + intros e [[? _]|[_ He]]; [congruence | by apply Ha2].
    + intros from to E. unfold mv, move_of in E. by rewrite Eop in E.
  - assert (Hmv : mv = None) by (unfold mv, move_of; by rewrite Eop). rewrite Hmv. intros [= <-]. rewrite <- Hmv.
    destruct (Hboth _ (grows_refl _)) as [H1 H2]. split_and!; [done | done | congruence].
  - intros [= <-]. split_and!; [apply (gr_ok _ _ Hb1), seeds_ok_empty | |].
    + intros e [[_ He]|[? _]]; [by apply Hb2 | congruence].
    + intros from to E. unfold mv, move_of in E. by rewrite Eop in E.
  - destruct mv as [[from to]|] eqn:Emv; [|intros [= <-]; destruct (Hboth _ (grows_refl _)) as [H1 H2]; by split_and!].
    assert (Hw : wf_dn to).
    { unfold mv, move_of in Emv. rewrite Eop in Emv. destruct (ev_Before ev), (ev_After ev); try done. destruct (ParseDN _), (ParseDN (EDN e0)) eqn:Et; try done.
      destruct (beq _ _); [done|]. injection Emv as _ <-. by eapply ParseDN_wf_aux. }
    assert (Hd : (0 <? Depth to) = true) by (destruct Hw as [Hne _]; unfold Depth; destruct (rdns to); [done | cbn; lia]). rewrite Hd.
    destruct (subtree_entries st to Hg Hw (Hto from to Emv)) as (l & -> & _ & Hl). cbn [lift mbind res_bind]. intros [= <-].
    destruct (seed_moving_all (Some (from, to)) l (seed p (Some (from, to)) (seed p (Some (from, to)) ∅ (ev_Before ev)) (ev_After ev))) as [Hgr Hin].
    destruct (Hboth _ Hgr) as [H1 H2]. split_and!; [done | done|]. intros from' to' [= <- <-] k e d Hk Hd' Hm.
    destruct (Hin e) as [H3 H4]; [apply Hl; by exists k, d|]. split; [done|]. intros Hs.
    destruct (good_name st k e Hg Hk) as (d' & Hd'' & <- & _). assert (d' = d) as -> by congruence. by apply H4.
Qed.

(** ** What a write leaves *)

Lemma take_member_wf (u : bool) (vs : list bytes) (st : gset bytes * list DN) : Forall wf_dn st.2 → Forall wf_dn (foldl (take_member u) st vs).2.
Proof using UL.
  revert st. induction vs as [|v vs IH]; intros st H; cbn [foldl]; [done|]. apply IH. unfold take_member, dnFromValue.
  destruct (ParseDN _) as [d|] eqn:E; cbn [res_opt]; [|done]. destruct (bool_decide _); [done|]. cbn.
  apply Forall_app. split; [done|]. constructor; [by eapply ParseDN_wf_aux | done].
Qed.

Lemma memberDNs_wf (e : Entry) (x : DN) : x ∈ memberDNs e → wf_dn x.
Proof using UL.
  intros Hx. assert (H : Forall wf_dn (memberDNs e)) by (apply take_member_wf, take_member_wf; constructor).
  rewrite Forall_forall in H. by apply H.
Qed.

Definition wf_move (mv : option (DN * DN)) : Prop := ∀ from to, mv = Some (from, to) → wf_dn from ∧ wf_dn to.

Lemma moved_by_wf (mv : option (DN * DN)) (x : DN) : wf_move mv → wf_dn x → wf_dn (moved_by mv x).
Proof using UL.
  intros Hmv Hx. unfold moved_by. destruct mv as [[from to]|]; [|done]. destruct (Hmv from to eq_refl) as [Hf Ht]. destruct (Rebase x from to) as [nd|] eqn:E; cbn; [|done].
  by apply (Rebase_wf from to Hf Ht x nd).
Qed.

(** Where the spelling of a covered member value is that of the suffix. *)
Definition spelled (mv : option (DN * DN)) (m : gmap bytes Entry) : Prop :=
  ∀ g e x, a_group m g e → x ∈ memberDNs e → covered (moved_by mv x) → mo_inScope p (moved_by mv x) = true.

(** The keys of covered names. *)
Definition covered_by_key (y : bytes) : Prop := ∃ d, wf_dn d ∧ FoldedKey d = y ∧ covered d.

Lemma covered_moved (mv : option (DN * DN)) (x : DN) : wf_move mv → wf_dn x → covered_by_key (FoldedKey (moved_by mv x)) → covered (moved_by mv x).
Proof using UL. intros Hmv Hx (d & Hd & Hk & Hc). apply (covered_key d); [done | by apply moved_by_wf | done..]. Qed.

Lemma group_covered (m : gmap bytes Entry) (g : bytes) (e : Entry) : a_group m g e → covered_by_key g.
Proof using UL. intros (_ & _ & d & Hd & <- & Hc). exists d. split_and!; [by eapply ParseDN_wf_aux | done..]. Qed.

Definition closure (R : relation bytes) : relation bytes := if mo_nested p then tc R else R.

(** Outside of a set that edges do not lead out of, memberships depend on the edges
    outside only. *)
Lemma unaffected (Q : bytes → Prop) (R0 R1 : relation bytes) (D : gset bytes) :
  (mo_nested p = true → ∀ y g, Q y → y ∉ D → R1 y g → Q g ∧ g ∉ D) →
  (∀ y g, Q y → y ∉ D → R0 y g ↔ R1 y g) →
  ∀ y g, Q y → y ∉ D → closure R0 y g ↔ closure R1 y g.
Proof using Type.
  intros Hcl He y g Hy Hn. unfold closure. destruct (mo_nested p) eqn:E; [|by apply He]. specialize (Hcl eq_refl).
  split; intros Ht; revert Hy Hn; (induction Ht as [y z H|y z g H Ht IH]; intros Hy Hn; [apply tc_once | eapply tc_l]).
  - by apply He.
  - apply He; [done..|exact H].
  - apply He in H; [|done..]. destruct (Hcl y z Hy Hn H). by apply IH.
  - by apply He.
  - apply He; [done..|exact H].
  - destruct (Hcl y z Hy Hn H). by apply IH.
Qed.

Section order.
Variable order : gmap bytes DN → list bytes.
Hypothesis order_keys : ∀ m, order m ≡ₚ (map_to_list m).*1.

(** A set of keys that holds what an event can have changed. *)
Record covers_event (m : gmap bytes Entry) (ev : WriteEvent) (D : gset bytes) : Prop := {
  ce_event : ∀ e, event_entry ev e → isGroupEntry e = true → ∀ x, x ∈ memberDNs e →
    mo_inScope p (moved_by (move_of ev) x) = true → FoldedKey (moved_by (move_of ev) x) ∈ D;
  ce_moving : ∀ from to, move_of ev = Some (from, to) → ∀ k e d, m !! k = Some e → ParseDN (EDN e) = Ok d → moved to d →
    (mo_inScope p d = true → k ∈ D) ∧
    (isGroupEntry e = true → ∀ x, x ∈ memberDNs e → mo_inScope p (moved_by (move_of ev) x) = true → FoldedKey (moved_by (move_of ev) x) ∈ D);
  ce_closed : mo_nested p = true → ∀ y e x, y ∈ D → a_group m y e → x ∈ memberDNs e →
    mo_inScope p (moved_by (move_of ev) x) = true → FoldedKey (moved_by (move_of ev) x) ∈ D;
}.

Lemma AfterWrite_rederived (st st' : St) (ev : WriteEvent) :
  good st → all_unique (contents st) → (∀ from to, move_of ev = Some (from, to) → inSuffix sv to = true) →
  mo_AfterWrite order p st ev = Ok st' →
  ∃ ks : list bytes, covers_event (contents st) ev (list_to_set ks) ∧ good st' ∧ rederived (move_of ev) (contents st) ks (contents st) (contents st').
Proof using All.
  intros Hg Hu Hto. unfold mo_AfterWrite. intros (seeds & Hs & H)%bind_ok. destruct (seeds_of_spec st ev seeds Hg Hto Hs) as (Hok & Hev & Hmvg).
  destruct (Nat.eqb_spec (size seeds) 0) as [Hz|_].
  - apply map_size_empty_inv in Hz. subst seeds. injection H as <-. exists []. split_and!; [|done | by apply rederived_refl]. split.
    + intros e He Hi x Hx Hin. by apply (Hev e He Hi x Hx Hin).
    + intros from to E k e d Hk Hd Hm. destruct (Hmvg from to E k e d Hk Hd Hm) as [H1 H2]. split; [by intros ?%H2 | intros Hi x Hx Hin; by apply (H1 Hi x Hx Hin)].
    + intros _ y e x Hy. by apply elem_of_empty in Hy.
  - destruct (indexGroups_spec st (move_of ev) Hg) as (idx & Hidx & Hf). rewrite Hidx in H. cbn [mbind res_bind] in H.
    destruct (affected_spec p (move_of ev) idx (faithful_members _ _ _ Hf) order order_keys seeds Hok) as (Hok' & Hsub & Hcl).
    set (D := affected order p (move_of ev) idx seeds) in *.
    assert (Hnames : ∀ k e, contents st !! k = Some e → ∃ d, ParseDN (EDN e) = Ok d ∧ EDN e = String d).
    { intros k e Hk. destruct (good_name st k e Hg Hk) as (d & ? & _ & ? & _). by exists d. }
    destruct (recompute_all (move_of ev) (contents st) idx Hf Hnames _ _ _ Hg Hu H) as [Hg' Hre].
    assert (Hks : ∀ k, k ∈ FoldedKey <$> omap (D !!.) (order D) ↔ k ∈ dom D).
    { intros k. rewrite list_elem_of_fmap, elem_of_dom. setoid_rewrite list_elem_of_omap. split.
      - intros (d & -> & k' & _ & Hd). destruct (Hok' _ _ Hd) as [-> _]. by exists d.
      - intros [d Hd]. exists d. destruct (Hok' _ _ Hd) as [<- _]. split; [done|]. exists (FoldedKey d). split; [|exact Hd]. apply (order_elem order order_keys), elem_of_dom. by exists d. }
    eexists. split_and!; [|exact Hg' | exact Hre].
    assert (Hin : ∀ k, k ∈ (list_to_set (FoldedKey <$> omap (D !!.) (order D)) : gset bytes) ↔ k ∈ dom D) by (intros k; by rewrite elem_of_list_to_set).
    split.
    + intros e He Hi x Hx Hs'. apply Hin, Hsub. by apply (Hev e He Hi x Hx).
    + intros from to E k e d Hk Hd Hm. destruct (Hmvg from to E k e d Hk Hd Hm) as [H1 H2]. split; [intros ?%H2; by apply Hin, Hsub|].
      intros Hi x Hx Hs'. apply Hin, Hsub. by apply (H1 Hi x Hx).
    + intros Hn y e x Hy He Hx Hs'. apply Hin. apply Hin in Hy. apply (Hcl Hn y Hy e x); [by apply (fi_groups _ _ _ Hf) | done..].
Qed.

(** The graph does not change when entries are recomputed. *)
Lemma rederived_lists (mv0 mv : option (DN * DN)) (m : gmap bytes Entry) (ks : list bytes) (m1 m2 : gmap bytes Entry) (y g : bytes) :
  rederived mv0 m ks m1 m2 → lists mv m1 y g ↔ lists mv m2 y g.
Proof using Type.
  intros H. unfold lists, a_group. specialize (H g). split; intros (e & x & (He & Hi & d & Hd & Hk & Hc) & Hx & Hy); rewrite He in H.
  - destruct (m2 !! g) as [e2|]; [|done]. destruct H as ([Sd Sg Sm _ _] & _). exists e2, x. rewrite Sd, Sg, Sm. split; [|by split]. split_and!; [done..|by exists d].
  - destruct (m1 !! g) as [e1|]; [|done]. destruct H as ([Sd Sg Sm _ _] & _). exists e1, x. rewrite <- Sd, <- Sg, <- Sm. split; [|by split]. split_and!; [done..|by exists d].
Qed.

Lemma rederived_memberships (mv0 mv : option (DN * DN)) (m : gmap bytes Entry) (ks : list bytes) (m1 m2 : gmap bytes Entry) (y g : bytes) :
  rederived mv0 m ks m1 m2 → memberships mv m1 y g ↔ memberships mv m2 y g.
Proof using Type.
  intros H. unfold memberships. destruct (mo_nested p); [apply tc_iff; intros a b|]; by eapply rederived_lists.
Qed.

(** Where what is not recomputed is right already, all is right. *)
Lemma rederived_derived (mv : option (DN * DN)) (ks : list bytes) (m1 m2 : gmap bytes Entry) :
  rederived mv m1 ks m1 m2 →
  (∀ k e d, m1 !! k = Some e → ParseDN (EDN e) = Ok d → covered d → k ∉ ks → right mv m1 k e) → derived mv m2.
Proof using Type.
  intros Hre Hr k e2 d Hk Hd Hc g. rewrite <- (rederived_memberships mv mv m1 ks m1 m2 k g Hre). specialize (Hre k). rewrite Hk in Hre.
  destruct (m1 !! k) as [e1|] eqn:E; [|done]. destruct Hre as (Hs & Hin & Hout).
  destruct (decide (k ∈ ks)) as [Hks|Hks]; [by apply Hin|]. rewrite (Hout Hks). rewrite (se_dn _ _ Hs) in Hd. by apply (Hr k e1 d).
Qed.
End order.
End spec.
