(* ===== verification/MemberOfWrites.v ===== *)
(** The writes, and that the MemberOf plugin keeps [memberOf] derived through them: an
    entry is added, changed or deleted, or a subtree is renamed, and after the plugin has
    run every entry's [memberOf] names exactly the groups that list it. *)

From stdpp Require Import fin_sets.
From S2P Require Import Prelude GoStrings DN DNFacts Message RenameFacts Schema Matching FilterEval StoreIface Aci Server Paging PagingFacts Search SearchFacts Write FakeStore WriteOps WriteFacts TreeFacts GoTime Bolt PwHash Password PasswordFacts MemberOf MemberOfSpec.
Local Open Scope nat_scope.

Section writes.
Context {U : Unicode} {UL : UnicodeLaws U} {St : Type} {UT : UpdateTx St}.
Context (contents : St → gmap bytes Entry) (ok : St → Prop) {CL : UpdateTxLaws UT contents ok} {SL : SubtreeLaws UT contents ok}.
Variable sv : Server.
Hypothesis flat : flat_suffixes sv.
Variable p : MemberOfPlugin.
(** The plugin is given the suffixes of the server. *)
Hypothesis scopes_managed : ∀ s, s ∈ mo_scopes p ↔ s ∈ suffixes sv.
Hypothesis scopes_wf : ∀ s, s ∈ mo_scopes p → wf_dn s.
Variable order : gmap bytes DN → list bytes.
Hypothesis order_keys : ∀ m, order m ≡ₚ (map_to_list m).*1.

Local Abbreviation good := (good contents ok sv).
Local Abbreviation covered := (covered p).
Local Abbreviation a_group := (a_group p).
Local Abbreviation lists := (lists p).
Local Abbreviation memberships := (memberships p).
Local Abbreviation derived := (derived p).
Local Abbreviation spelled := (spelled p).
Local Abbreviation covered_by_key := (covered_by_key p).
Local Abbreviation closure := (closure p).

(** ** Everything stored is covered *)

Lemma equal_rdns (l l' : list rdn) : length l = length l' → all2 rdn_eqb l l' = true → l = l'.
Proof using Type.
  revert l'. induction l as [|r l IH]; intros [|r' l']; try done. cbn. intros [= Hl] [Hr Ha]%andb_true_iff. f_equal; [|by apply IH].
  unfold rdn_eqb in Hr. apply andb_true_iff in Hr as [H1%beq_true H2%beq_true]. destruct r, r'. cbn in *. congruence.
Qed.

Lemma Equal_eq (a b : DN) : Equal a b = true → a = b.
Proof using Type.
  unfold Equal. intros [Hl%Nat.eqb_eq Ha]%andb_true_iff. destruct a as [l], b as [l']. cbn in *. f_equal. by apply equal_rdns.
Qed.

Lemma moved_child (s d q : DN) : rdns s ≠ [] → Parent d = Some q → moved s q → moved s d.
Proof using Type. intros Hs Hp Hm. right. apply (under_parent s d q Hs Hp). destruct Hm as [?|?]; [by left | by right]. Qed.

Lemma stored_covered (m : gmap bytes Entry) (k : bytes) (e : Entry) (d : DN) :
  tree_ok sv m → m !! k = Some e → ParseDN (EDN e) = Ok d → covered d.
Proof using UL scopes_managed scopes_wf.
  intros Ht. remember (length (rdns d)) as n eqn:Hn. assert (Hle : length (rdns d) ≤ n) by lia. clear Hn. revert k e d Hle.
  induction n as [|n IH]; intros k e d Hle Hk Hd; pose proof (ParseDN_wf_aux _ _ Hd) as Hw.
  { destruct Hw as [Hne _]. destruct (rdns d); [done | cbn in Hle; lia]. }
  destruct (Ht k e Hk) as (d' & Hd' & _ & _ & _ & [Hr|(q & Hp & [ep Hep])]); assert (d' = d) as -> by congruence.
  - unfold isSuffixRoot in Hr. apply existsb_exists in Hr as (s & Hs & He%Equal_eq). subst s. exists d. split; [by apply scopes_managed, list_elem_of_In | by left].
  - destruct (Ht _ ep Hep) as (dp & Hdp & Hkp & _). pose proof (ParseDN_wf_aux _ _ Hdp) as Hwp. pose proof (parent_wf _ _ Hw Hp) as Hwq.
    pose proof (proj1 (key_fold dp q Hwp Hwq) Hkp) as Hf. destruct (IH (FoldedKey q) ep dp) as (s & Hs & Hm); [|done..|].
    + rewrite <- (fold_length dp), Hf, fold_length. rewrite (parent_length _ _ Hp) in Hle. lia.
    + exists s. split; [done|]. apply (moved_child s d q); [by destruct (scopes_wf s Hs) | done|]. by eapply moved_fold.
Qed.

Lemma stored_group (m : gmap bytes Entry) (k : bytes) (e : Entry) :
  tree_ok sv m → a_group m k e ↔ m !! k = Some e ∧ isGroupEntry e = true.
Proof using UL scopes_managed scopes_wf.
  intros Ht. split; [by intros (? & ? & _)|]. intros [Hk Hi]. split_and!; [done..|]. destruct (Ht k e Hk) as (d & Hd & ? & _).
  exists d. split_and!; [done..|]. by eapply stored_covered.
Qed.

Lemma stored_lists (mv : option (DN * DN)) (m : gmap bytes Entry) (y g : bytes) :
  tree_ok sv m → lists mv m y g ↔ ∃ e x, m !! g = Some e ∧ isGroupEntry e = true ∧ x ∈ memberDNs e ∧ FoldedKey (moved_by mv x) = y.
Proof using UL scopes_managed scopes_wf.
  intros Ht. unfold MemberOfSpec.lists. setoid_rewrite (stored_group m g) at 1; [|done]. naive_solver.
Qed.

Lemma stored_key (m : gmap bytes Entry) (k : bytes) (e : Entry) : tree_ok sv m → m !! k = Some e → covered_by_key k.
Proof using UL scopes_managed scopes_wf.
  intros Ht Hk. destruct (Ht k e Hk) as (d & Hd & <- & _). exists d. split_and!; [by eapply ParseDN_wf_aux | done | by eapply stored_covered].
Qed.

(** ** A change of one entry *)

(** Two entries with the same membership, as a group and as a member. *)
Definition alike (e e' : Entry) : Prop :=
  isGroupEntry e' = isGroupEntry e ∧ memberDNs e' = memberDNs e ∧ memberOf_keys e' = memberOf_keys e.

(** A write changed the entry at [k] from what the event says was there to what it says
    is there now.  The [memberOf] of an entry that stays is as it was, and an entry that
    is new has none and is nobody's member yet. *)
Record changes_at (m0 : gmap bytes Entry) (ev : WriteEvent) (m1 : gmap bytes Entry) (k : bytes) : Prop := {
  ch_move : move_of ev = None;
  ch_elsewhere : ∀ g, g ≠ k → match m0 !! g, m1 !! g with
    | Some e, Some e' => alike e e'
    | None, None => True
    | _, _ => False
    end;
  ch_before : ∀ e, m0 !! k = Some e → event_entry ev e;
  ch_after : ∀ e, m1 !! k = Some e → event_entry ev e;
  ch_memberOf : ∀ e, m1 !! k = Some e → match m0 !! k with
    | Some e0 => memberOf_keys e = memberOf_keys e0
    | None => memberOf_keys e = ∅ ∧ ∀ g, ¬ lists None m0 k g
    end;
}.

Lemma changed_lists (m0 m1 : gmap bytes Entry) (ev : WriteEvent) (k : bytes) (D : gset bytes) (y g : bytes) :
  tree_ok sv m0 → tree_ok sv m1 → changes_at m0 ev m1 k → spelled None m0 → spelled None m1 → covers_event p m1 ev D →
  covered_by_key y → y ∉ D → lists None m0 y g ↔ lists None m1 y g.
Proof using UL scopes_managed scopes_wf.
  intros Ht0 Ht1 Hch Hs0 Hs1 Hc Hy Hn. rewrite !stored_lists by done.
  assert (Hno : ∀ m e x, spelled None m → a_group m k e → event_entry ev e → x ∈ memberDNs e → FoldedKey x = y → False).
  { intros m e x Hs Hg He Hx Hxy. apply Hn. rewrite <- Hxy. assert (E : moved_by (move_of ev) x = x) by (by rewrite (ch_move _ _ _ _ Hch)).
    rewrite <- E. apply (ce_event _ _ _ _ Hc e He); [apply Hg | done|]. rewrite E. apply (Hs k e x Hg Hx).
    apply (covered_moved p None); [done | by eapply memberDNs_wf|]. cbn. by rewrite Hxy. }
  destruct (decide (g = k)) as [->|Hne].
  - split; intros (e & x & He & Hi & Hx & Hxy); exfalso.
    + apply (Hno m0 e x); [done | by apply stored_group | by apply (ch_before _ _ _ _ Hch) | done..].
    + apply (Hno m1 e x); [done | by apply stored_group | by apply (ch_after _ _ _ _ Hch) | done..].
  - pose proof (ch_elsewhere _ _ _ _ Hch g Hne) as H. destruct (m0 !! g) as [e0|], (m1 !! g) as [e1|]; try done.
    destruct H as (Hi & Hm & _). split; intros (e & x & [= <-] & ? & ? & ?); eexists; exists x; (split; [done|]); [by rewrite Hi, Hm | by rewrite <- Hi, <- Hm].
Qed.

(** Edges do not lead out of what the plugin recomputes. *)
Lemma covers_closed (m : gmap bytes Entry) (ev : WriteEvent) (D : gset bytes) :
  wf_move (move_of ev) → spelled (move_of ev) m → covers_event p m ev D →
  mo_nested p = true → ∀ y g, covered_by_key y → y ∉ D → lists (move_of ev) m y g → g ∉ D.
Proof using UL.
  intros Hw Hs Hc Hne y g Hy Hn (e & x & Hg & Hx & Hxy) HD. apply Hn. rewrite <- Hxy. apply (ce_closed _ _ _ _ Hc Hne g e x HD Hg Hx).
  apply (Hs g e x Hg Hx). apply (covered_moved p); [done | by eapply memberDNs_wf | by rewrite Hxy].
Qed.

Lemma lists_covered (mv : option (DN * DN)) (m : gmap bytes Entry) (y g : bytes) : lists mv m y g → covered_by_key g.
Proof using UL. intros (e & x & Hg & _). by eapply group_covered. Qed.

Lemma memberships_closure (mv : option (DN * DN)) (m : gmap bytes Entry) (y g : bytes) : memberships mv m y g ↔ closure (lists mv m) y g.
Proof using Type. unfold MemberOfSpec.memberships, MemberOfSpec.closure. by destruct (mo_nested p). Qed.

Lemma changed_derived (m0 : gmap bytes Entry) (st st' : St) (ev : WriteEvent) (k : bytes) :
  tree_ok sv m0 → good st → all_unique (contents st) → changes_at m0 ev (contents st) k → spelled None m0 → spelled None (contents st) →
  derived None m0 → mo_AfterWrite order p st ev = Ok st' → good st' ∧ derived None (contents st').
Proof using All.
  intros Ht0 Hg Hu Hch Hs0 Hs1 Hd H. pose proof (ch_move _ _ _ _ Hch) as Hmv.
  destruct (AfterWrite_rederived contents ok sv flat p (λ s, proj1 (scopes_managed s)) scopes_wf order order_keys st st' ev) as (ks & Hc & Hg' & Hre); [done..| |done|].
  { by rewrite Hmv. }
  rewrite Hmv in Hre. split; [done|]. eapply rederived_derived; [exact Hre|]. intros y e d Hk Hd' Hcov Hks g. pose proof (proj2 Hg) as Ht1.
  assert (Hy : covered_by_key y) by (by eapply stored_key).
  assert (Hn : y ∉ (list_to_set ks : gset bytes)) by (by rewrite elem_of_list_to_set).
  rewrite memberships_closure, <- (unaffected p covered_by_key (lists None m0) (lists None (contents st)) (list_to_set ks)); [| | |done|exact Hn].
  2: { intros Hne a b Ha Hna Hab. split; [by eapply lists_covered|]. assert (Hm : wf_move (move_of ev)) by (by rewrite Hmv).
       rewrite <- Hmv in Hab, Hs1. by eapply covers_closed. }
  2: { intros a b Ha Hna. by eapply changed_lists. }
  rewrite <- memberships_closure.
  assert (H0 : ∀ e0, m0 !! y = Some e0 → memberOf_keys e = memberOf_keys e0 → g ∈ memberOf_keys e ↔ memberships None m0 y g).
  { intros e0 He0 ->. destruct (Ht0 y e0 He0) as (d0 & Hd0 & _). apply (Hd y e0 d0 He0 Hd0), (stored_covered m0 y e0 d0 Ht0 He0 Hd0). }
  destruct (decide (y = k)) as [->|Hne].
  - pose proof (ch_memberOf _ _ _ _ Hch e Hk) as Hm. destruct (m0 !! k) as [e0|] eqn:E0; [by apply (H0 e0)|]. destruct Hm as [-> Hno].
    split; [set_solver|]. unfold MemberOfSpec.memberships. destruct (mo_nested p); [|by intros ?%Hno].
    intros Ht. exfalso. inversion Ht as [? b Hb|? b z Hb Htz]; subst; by eapply Hno.
  - pose proof (ch_elsewhere _ _ _ _ Hch y Hne) as Hm. rewrite Hk in Hm. destruct (m0 !! y) as [e0|] eqn:E0; [|done]. apply (H0 e0); [done | apply Hm].
Qed.

(** ** A move of a subtree *)

Section move.
Variables from to : DN.
Hypothesis from_wf : wf_dn from.
Hypothesis to_wf : wf_dn to.

Lemma Rebase_under (d nd : DN) : wf_dn d → Rebase d from to = Some nd → moved to nd.
Proof using UL from_wf to_wf.
  intros Hw (pre & suf & Hd & Hf & ->)%Rebase_spec_aux; [|done..]. apply under_suffix; [by destruct to_wf|].
  exists pre, (rdns to). split_and!; [done | by destruct to_wf | by destruct to].
Qed.

Lemma Rebase_below (d nd : DN) : wf_dn d → ¬ fold_dn d = fold_dn from → Rebase d from to = Some nd → FoldedKey nd ≠ FoldedKey to.
Proof using UL from_wf to_wf.
  intros Hw Hne Hr. pose proof (Rebase_wf from to from_wf to_wf d nd Hw Hr) as Hwn.
  apply Rebase_spec_aux in Hr as (pre & suf & Hd & Hf & ->); [|done..]. intros Hk%key_fold; [|done..].
  apply (f_equal (λ d, length (rdns d))) in Hk. rewrite !fold_length in Hk. cbn in Hk. rewrite length_app in Hk.
  destruct pre; [|cbn in Hk; lia]. apply Hne. destruct d as [l]. cbn in Hd. subst l. done.
Qed.

(** What a rename left, up to what it did to the entry it named. *)
Record moves (m0 : gmap bytes Entry) (ev : WriteEvent) (m1 : gmap bytes Entry) : Prop := {
  mo_event : move_of ev = Some (from, to);
  mo_tab : no_tab_end to;
  mo_outside : ¬ moved from to;
  mo_free : m0 !! FoldedKey to = None;
  mo_rooted : rooted m0 to;
  mo_renamed : ∃ mr after, renamed from to m0 mr ∧ m1 = <[FoldedKey to := after]> mr ∧ event_entry ev after ∧ ParseDN (EDN after) = Ok to;
  mo_before : ∀ e, m0 !! FoldedKey from = Some e → event_entry ev e;
  mo_named : ∀ k e d, m1 !! k = Some e → ParseDN (EDN e) = Ok d → mo_inScope p d = true;
}.

Section moved.
Variables (m0 m1 : gmap bytes Entry) (ev : WriteEvent).
Hypothesis Ht0 : tree_ok sv m0.
Hypothesis Ht1 : tree_ok sv m1.
Hypothesis Hmv : moves m0 ev m1.

Lemma tree_keys (m : gmap bytes Entry) : tree_ok sv m → keys_ok m.
Proof using Type. intros Ht k e Hk. destruct (Ht k e Hk) as (d & ? & ? & _ & ? & _). by exists d. Qed.

(** Nothing was at or below the target. *)
Lemma target_free_below (k : bytes) (e : Entry) (d : DN) : m0 !! k = Some e → ParseDN (EDN e) = Ok d → ¬ moved to d.
Proof using UL to_wf Ht0 Hmv.
  intros Hk Hd Hm. destruct (rooted_base m0 to k e d to_wf (mo_rooted _ _ _ Hmv) (tree_keys m0 Ht0) Hk Hd Hm) as [? E].
  pose proof (mo_free _ _ _ Hmv). congruence.
Qed.

(** What is not at or below the target was where it is, and what was not moved still is. *)
Lemma unmoved_entry (k : bytes) (e : Entry) (d : DN) :
  m1 !! k = Some e → ParseDN (EDN e) = Ok d → ¬ moved to d → m0 !! k = Some e ∧ ¬ moved from d.
Proof using UL from_wf to_wf Ht0 Hmv.
  intros Hk Hd Hnt. destruct (mo_renamed _ _ _ Hmv) as (mr & after & Hr & E & _ & Ha). rewrite E in Hk.
  apply lookup_insert_Some in Hk as [[_ <-]|[_ Hk]]; [exfalso; apply Hnt; left; congruence|].
  apply Hr in Hk as (k0 & e0 & d0 & Hk0 & Hd0 & -> & ->). destruct (Ht0 k0 e0 Hk0) as (d' & Hd' & Hkey & _ & Htab & _). assert (d' = d0) as -> by congruence.
  pose proof (ParseDN_wf_aux _ _ Hd0) as Hw0. unfold relocate_entry in *. unfold relocate. destruct (Rebase d0 from to) as [nd|] eqn:Er.
  - cbn in Hd. rewrite ParseDN_String_aux in Hd; [|by apply (Rebase_wf from to from_wf to_wf d0)|].
    + injection Hd as <-. destruct Hnt. by eapply Rebase_under.
    + apply (Rebase_tab from to from_wf d0 nd); [done..|apply (mo_tab _ _ _ Hmv)|done].
  - cbn. assert (d = d0) as -> by congruence. rewrite Hkey. split; [done|]. intros Hm%(Rebase_moved from to from_wf d0 Hw0). rewrite Er in Hm. by destruct Hm.
Qed.

Lemma unmoved_back (k : bytes) (e : Entry) (d : DN) : m0 !! k = Some e → ParseDN (EDN e) = Ok d → ¬ moved from d → m1 !! k = Some e.
Proof using UL from_wf to_wf Ht0 Hmv.
  intros Hk Hd Hn. destruct (Ht0 k e Hk) as (d' & Hd' & Hkey & _). assert (d' = d) as -> by congruence. pose proof (ParseDN_wf_aux _ _ Hd) as Hw.
  pose proof (Rebase_none from to from_wf d Hw Hn) as Er.
  destruct (mo_renamed _ _ _ Hmv) as (mr & after & Hr & Em & _ & _). rewrite Em, lookup_insert_ne.
  - apply Hr. exists k, e, d. unfold relocate, relocate_entry. by rewrite Er.
  - intros E. apply (target_free_below k e d Hk Hd). left. apply key_fold; [done..|congruence].
Qed.

(** Where a moved entry is now: among what the plugin was told of. *)
Lemma moved_entry (k : bytes) (e : Entry) (d : DN) :
  m0 !! k = Some e → ParseDN (EDN e) = Ok d → moved from d →
  event_entry ev e ∨ ∃ nd e', m1 !! FoldedKey nd = Some e' ∧ ParseDN (EDN e') = Ok nd ∧ moved to nd ∧ Attributes e' = Attributes e.
Proof using UL from_wf to_wf Ht0 Hmv.
  intros Hk Hd Hm. destruct (Ht0 k e Hk) as (d' & Hd' & Hkey & _ & Htab & _). assert (d' = d) as -> by congruence. pose proof (ParseDN_wf_aux _ _ Hd) as Hw.
  destruct (decide (fold_dn d = fold_dn from)) as [Hf|Hf].
  - left. apply (mo_before _ _ _ Hmv). rewrite <- Hk, <- Hkey. f_equal. symmetry. by apply key_fold.
  - right. apply (Rebase_moved from to from_wf d Hw) in Hm as [nd Er]. destruct (mo_renamed _ _ _ Hmv) as (mr & after & Hr & E & _ & _).
    exists nd, (MkEntry (String nd) (Attributes e)). split_and!.
    + rewrite E, lookup_insert_ne by (by eapply not_eq_sym, Rebase_below). apply Hr. exists k, e, d. unfold relocate, relocate_entry. by rewrite Er.
    + cbn. apply ParseDN_String_aux; [by apply (Rebase_wf from to from_wf to_wf d)|].
      apply (Rebase_tab from to from_wf d nd); [done..|apply (mo_tab _ _ _ Hmv)|done].
    + by eapply Rebase_under.
    + done.
Qed.

(** The keys of names the move did not touch. *)
Definition untouched (y : bytes) : Prop := covered_by_key y ∧ ∀ d, wf_dn d → FoldedKey d = y → ¬ moved from d ∧ ¬ moved to d.

Lemma untouched_fold (d : DN) : wf_dn d → covered_by_key (FoldedKey d) → ¬ moved from d → ¬ moved to d → untouched (FoldedKey d).
Proof using UL.
  intros Hw Hc Hf Ht. split; [done|]. intros d' Hw' Hk%key_fold; [|done..].
  split; intros Hm; [apply Hf | apply Ht]; by eapply moved_fold.
Qed.

Lemma moved_by_untouched (x : DN) : wf_dn x → untouched (FoldedKey (moved_by (Some (from, to)) x)) → moved_by (Some (from, to)) x = x ∧ ¬ moved from x.
Proof using UL from_wf to_wf.
  intros Hw [_ Hu]. cbn in *. destruct (Rebase x from to) as [nd|] eqn:Er; cbn in *.
  - exfalso. destruct (Hu nd) as [_ Hn]; [by apply (Rebase_wf from to from_wf to_wf x) | done|]. apply Hn. by eapply Rebase_under.
  - split; [done|]. intros Hm%(Rebase_moved from to from_wf x Hw). rewrite Er in Hm. by destruct Hm.
Qed.

Variable D : gset bytes.
Hypothesis Hc : covers_event p m1 ev D.
Hypothesis Hs0 : spelled None m0.
Hypothesis Hs1 : spelled (Some (from, to)) m1.

Local Abbreviation mv := (Some (from, to)).

Lemma members_attrs (e e' : Entry) : Attributes e' = Attributes e → memberDNs e' = memberDNs e ∧ isGroupEntry e' = isGroupEntry e.
Proof using Type. intros H. unfold memberDNs, isGroupEntry, hasObjectClass. by rewrite !(Values_attrs e e'). Qed.

(** A group at or below the target has its members among what is recomputed. *)
Lemma moved_group_members (g : bytes) (e : Entry) (x d : DN) :
  m1 !! g = Some e → isGroupEntry e = true → ParseDN (EDN e) = Ok d → moved to d → x ∈ memberDNs e →
  covered_by_key (FoldedKey (moved_by mv x)) → FoldedKey (moved_by mv x) ∈ D.
Proof using UL scopes_managed scopes_wf from_wf to_wf Hmv Hc Hs1 Ht1.
  intros Hk Hi Hd Hm Hx Hy. pose proof (mo_event _ _ _ Hmv) as Hev. pose proof (ce_moving _ _ _ _ Hc from to Hev g e d Hk Hd Hm) as [_ H].
  rewrite Hev in H. apply (H Hi x Hx). apply (Hs1 g e x); [by apply stored_group | done|]. apply (covered_moved p); [|by eapply memberDNs_wf | done].
  intros f t [= <- <-]. done.
Qed.

Lemma moved_lists (y g : bytes) : untouched y → y ∉ D → lists None m0 y g ↔ lists mv m1 y g.
Proof using UL scopes_managed scopes_wf from_wf to_wf Ht0 Ht1 Hmv Hc Hs0 Hs1.
  intros Hy Hn. rewrite !stored_lists by done. pose proof (mo_event _ _ _ Hmv) as Hev. split.
  - intros (e & x & He & Hi & Hx & Hxy). cbn in Hxy. pose proof (memberDNs_wf e x Hx) as Hwx. destruct (proj2 Hy x Hwx Hxy) as [Hnf _].
    assert (Ex : moved_by mv x = x) by (cbn; by rewrite (Rebase_none from to from_wf x Hwx Hnf)).
    destruct (Ht0 g e He) as (d & Hd & Hkd & _).
    assert (Hnm : ¬ moved from d).
    { intros Hm. apply Hn. rewrite <- Hxy, <- Ex. destruct (moved_entry g e d He Hd Hm) as [Hee|(nd & e' & He' & Hd' & Hm' & Ha)].
      - rewrite <- Hev. apply (ce_event _ _ _ _ Hc e Hee Hi x Hx). rewrite Hev, Ex. apply (Hs0 g e x); [by apply stored_group | done|].
        apply (covered_moved p None); [done..|]. cbn. rewrite Hxy. apply Hy.
      - destruct (members_attrs e e' Ha) as [Em Ei]. apply (moved_group_members (FoldedKey nd) e' x nd); [done | by rewrite Ei | done | done | by rewrite Em|].
        rewrite Ex, Hxy. apply Hy. }
    exists e, x. split_and!; [by eapply unmoved_back | done | done | by rewrite Ex].
  - intros (e & x & He & Hi & Hx & Hxy). pose proof (memberDNs_wf e x Hx) as Hwx. rewrite <- Hxy in Hy.
    destruct (moved_by_untouched x Hwx Hy) as [Ex _]. destruct (Ht1 g e He) as (d & Hd & Hkd & _).
    destruct (unmoved_entry g e d He Hd) as [He0 _].
    { intros Hm. apply Hn. rewrite <- Hxy. by apply (moved_group_members g e x d); [..|apply Hy]. }
    exists e, x. cbn in Ex, Hxy. rewrite Ex in Hxy. by split_and!.
Qed.

Lemma moved_closed : mo_nested p = true → ∀ y g, untouched y → y ∉ D → lists mv m1 y g → untouched g ∧ g ∉ D.
Proof using UL scopes_managed scopes_wf from_wf to_wf Ht0 Ht1 Hmv Hc Hs1.
  intros Hne y g Hy Hn Hl. pose proof (mo_event _ _ _ Hmv) as Hev. split.
  - pose proof (lists_covered _ _ _ _ Hl) as Hcg. apply stored_lists in Hl as (e & x & He & Hi & Hx & Hxy); [|done].
    destruct (Ht1 g e He) as (d & Hd & <- & _).
    assert (Hnt : ¬ moved to d).
    { intros Hm. apply Hn. rewrite <- Hxy. rewrite <- Hxy in Hy. by apply (moved_group_members (FoldedKey d) e x d); [..|apply Hy]. }
    destruct (unmoved_entry _ e d He Hd Hnt) as [_ Hnf]. apply untouched_fold; [by eapply ParseDN_wf_aux | done..].
  - rewrite <- Hev in Hl. eapply (covers_closed m1 ev D); [| | exact Hc | exact Hne | apply Hy | exact Hn | exact Hl]; rewrite Hev; [|done].
    intros f t [= <- <-]. done.
Qed.
End moved.

Lemma moved_derived (m0 : gmap bytes Entry) (st st' : St) (ev : WriteEvent) :
  tree_ok sv m0 → good st → all_unique (contents st) → moves m0 ev (contents st) → inSuffix sv to = true →
  spelled None m0 → spelled (Some (from, to)) (contents st) →
  derived None m0 → mo_AfterWrite order p st ev = Ok st' → good st' ∧ derived (Some (from, to)) (contents st').
Proof using All.
  intros Ht0 Hg Hu Hmv Hin Hs0 Hs1 Hd H. pose proof (mo_event _ _ _ Hmv) as Hev. pose proof (proj2 Hg) as Ht1.
  destruct (AfterWrite_rederived contents ok sv flat p (λ s, proj1 (scopes_managed s)) scopes_wf order order_keys st st' ev) as (ks & Hc & Hg' & Hre); [done..| |done|].
  { rewrite Hev. by intros f t [= <- <-]. }
  rewrite Hev in Hre. split; [done|]. eapply rederived_derived; [exact Hre|]. intros y e d Hk Hd' Hcov Hks g.
  assert (Hn : y ∉ (list_to_set ks : gset bytes)) by (by rewrite elem_of_list_to_set).
  destruct (Ht1 y e Hk) as (d' & Hd'' & Hkey & _). assert (d' = d) as -> by congruence.
  assert (Hnt : ¬ moved to d).
  { intros Hm. apply Hn. apply (ce_moving _ _ _ _ Hc from to Hev y e d Hk Hd' Hm). by apply (mo_named _ _ _ Hmv y e d). }
  destruct (unmoved_entry m0 (contents st) ev Ht0 Hmv y e d Hk Hd' Hnt) as [H0 Hnf].
  assert (Hy : untouched y) by (rewrite <- Hkey; apply untouched_fold; [by eapply ParseDN_wf_aux | rewrite Hkey; by eapply stored_key | done..]).
  rewrite memberships_closure, <- (unaffected p untouched (lists None m0) (lists (Some (from, to)) (contents st)) (list_to_set ks)); [| | |done|exact Hn].
  - rewrite <- memberships_closure. apply (Hd y e d H0 Hd'). by eapply stored_covered.
  - intros Hne a b. by apply (moved_closed m0 (contents st) ev Ht0 Ht1 Hmv (list_to_set ks) Hc Hs1).
  - intros a b. by apply (moved_lists m0 (contents st) ev Ht0 Ht1 Hmv (list_to_set ks) Hc Hs0 Hs1).
Qed.
End move.
End writes.
