(* ===== verification/RefInt.v ===== *)
(** The referential integrity plugin: [src/internal/ldapserver/refint.go].

    A delete takes the name of the deleted entry out of the members of every group of the
    managed suffixes, and a rename rewrites the members that name what it moved.  Groups
    are repaired one after the other in the transaction of the write. *)

From stdpp Require Import fin_sets.
From S2P Require Import Prelude GoStrings DN DNFacts Message Schema Matching FilterEval RenameFacts StoreIface Aci Server Paging PagingFacts Search SearchFacts Write FakeStore WriteOps WriteFacts TreeFacts GoTime PwHash Password PasswordFacts Bolt MemberOf MemberOfSpec MemberOfWrites.

(** [RefIntPlugin]. *)
Record RefIntPlugin : Type := MkRefInt {
  ri_suffix : DN;
  ri_extra : list DN;
}.

Section refint.
Context {U : Unicode}.

Definition NewRefIntPlugin (suffix : bytes) (additional : list bytes) : res field_err RefIntPlugin :=
  d ← ParseDN suffix;
  extra ← rmap ParseDN additional;
  Ok (MkRefInt d extra).

Definition ri_scopes (p : RefIntPlugin) : list DN := ri_suffix p :: ri_extra p.

Definition ri_inScope (p : RefIntPlugin) (d : DN) : bool := UnderAny d (ri_scopes p).

(** * Member values *)

(** Whether an attribute holds members, and then whether they are of [uniqueMember]. *)
Definition member_attr (a : Attribute) : option bool :=
  let isUnique := equal_fold (Name a) (B "uniqueMember") in
  if equal_fold (Name a) (B "member") || isUnique then Some isUnique else None.

(** One attribute of [filterMemberValues]: what is left of it and whether it changed. *)
Definition filter_attr (keep : bytes → bool → bool) (a : Attribute) : option Attribute * bool :=
  match member_attr a with
  | None => (Some a, false)
  | Some u =>
    let kept := filter (λ v, keep v u = true) (AttrValues a) in
    (if (length kept =? 0)%nat then None else Some (MkAttribute (Name a) kept), negb (length kept =? length (AttrValues a))%nat)
  end.

Definition filterMemberValues (e : Entry) (keep : bytes → bool → bool) : Entry * bool :=
  let attrs := filter_attr keep <$> Attributes e in
  if existsb snd attrs then (MkEntry (EDN e) (omap fst attrs), true) else (e, false).

Definition map_attr (f : bytes → bool → bytes) (a : Attribute) : Attribute :=
  match member_attr a with
  | None => a
  | Some u => MkAttribute (Name a) ((λ v, f v u) <$> AttrValues a)
  end.

Definition mapMemberValues (e : Entry) (f : bytes → bool → bytes) : Entry * bool :=
  let attrs := map_attr f <$> Attributes e in
  if bool_decide (attrs = Attributes e) then (e, false) else (MkEntry (EDN e) attrs, true).

(** A delete keeps what does not name what is gone. *)
Definition keep_others (gone : DN) (v : bytes) (uniqueMember : bool) : bool :=
  match dnFromValue v uniqueMember with
  | None => true
  | Some d => negb (EqualFold d gone)
  end.

(** A rename rewrites the names it moves; the bit string of a [uniqueMember] stays. *)
Definition follow_rename (from to : DN) (v : bytes) (uniqueMember : bool) : bytes :=
  match dnFromValue v uniqueMember with
  | None => v
  | Some d =>
    match Rebase d from to with
    | None => v
    | Some nd => String nd ++ (if uniqueMember then drop (length (stripUniqueMemberSuffix v)) v else [])
    end
  end.

Section tx.
Context {St : Type} {UT : UpdateTx St}.

(** [repair]: [fix_] is given the state, which [Fixup] looks names up in. *)
Definition repair_entry (fix_ : St → Entry → res write_err (Entry * bool)) (st : St) (e : Entry) : res write_err St :=
  if negb (isGroupEntry e) then Ok st
  else
    match fix_ st e with
    | Err err => Err err
    | Ok (g, changed) => if changed then lift (ut_Replace st g) else Ok st
    end.

Definition repair (p : RefIntPlugin) (fix_ : St → Entry → res write_err (Entry * bool)) (st : St) : res write_err St :=
  rfold (λ (st : St) suf, entries ← lift (subtree_or_none (ut_read st) suf); rfold (repair_entry fix_) st entries) st (ri_scopes p).

(** [RefIntPlugin.AfterWrite]. *)
Definition ri_AfterWrite (p : RefIntPlugin) (st : St) (ev : WriteEvent) : res write_err St :=
  match ev_Op ev, ev_Before ev, ev_After ev with
  | WriteDelete, Some before, _ =>
    match ParseDN (EDN before) with
    | Err _ => Ok st
    | Ok gone => if negb (ri_inScope p gone) then Ok st else repair p (λ _ g, Ok (filterMemberValues g (keep_others gone))) st
    end
  | WriteRename, Some before, Some after =>
    match ParseDN (EDN before), ParseDN (EDN after) with
    | Ok from, Ok to =>
      if negb (ri_inScope p from) || negb (ri_inScope p to) then Ok st
      else if (FoldedKey from =b? FoldedKey to)%ldap then Ok st
      else repair p (λ _ g, Ok (mapMemberValues g (follow_rename from to))) st
    | _, _ => Ok st
    end
  | _, _, _ => Ok st
  end.

(** A value of a group in [Fixup]: kept unless it names a managed entry that is not there;
    a lookup that fails otherwise ends the transaction. *)
Definition dangles (p : RefIntPlugin) (st : St) (v : bytes) (uniqueMember : bool) : res write_err bool :=
  match dnFromValue v uniqueMember with
  | None => Ok false
  | Some d =>
    if negb (ri_inScope p d) then Ok false
    else
      match tx_Entry (ut_read st) d with
      | Ok _ => Ok false
      | Err ErrNoSuchObject => Ok true
      | Err e => Err (WStore e)
      end
  end.

Definition undangle (p : RefIntPlugin) (st : St) (g : Entry) : res write_err (Entry * bool) :=
  _ ← rmap (λ a, match member_attr a with Some u => rmap (λ v, dangles p st v u) (AttrValues a) | None => Ok [] end) (Attributes g);
  Ok (filterMemberValues g (λ v u, match dangles p st v u with Ok b => negb b | Err _ => true end)).

Definition ri_Fixup (commit_err : option store_err) (p : RefIntPlugin) (st : St) : St * option write_err :=
  Update commit_err st (repair p (undangle p)).

End tx.
End refint.

(** Facts of the referential integrity plugin: a repair rewrites every managed group
    once, a delete takes one name out of the membership graph and a rename moves the
    names in it, so that the graph the MemberOf plugin computed with is the graph that is
    stored. *)

Local Open Scope nat_scope.

(** * Member values *)

Section values.
Context {U : Unicode} {UL : UnicodeLaws U}.

(** A value of an entry, and whether it is one of [uniqueMember]. *)
Definition member_value (e : Entry) (v : bytes) (u : bool) : Prop :=
  v ∈ Values e (if u then B "uniqueMember" else B "member").

(** The keys of the members, with what a rename makes of them. *)
Definition names_key (mv : option (DN * DN)) (e : Entry) (y : bytes) : Prop :=
  ∃ v u x, member_value e v u ∧ dnFromValue v u = Some x ∧ FoldedKey (moved_by mv x) = y.

Lemma take_member_keys (u : bool) (vs : list bytes) (st : gset bytes * list DN) :
  (∀ k, k ∈ st.1 ↔ ∃ x, x ∈ st.2 ∧ FoldedKey x = k) →
  let st' := foldl (take_member u) st vs in
  (∀ k, k ∈ st'.1 ↔ ∃ x, x ∈ st'.2 ∧ FoldedKey x = k) ∧
  (∀ x, x ∈ st'.2 → x ∈ st.2 ∨ ∃ v, v ∈ vs ∧ dnFromValue v u = Some x) ∧
  (∀ x, x ∈ st.2 → x ∈ st'.2) ∧
  (∀ v x, v ∈ vs → dnFromValue v u = Some x → FoldedKey x ∈ st'.1).
Proof using UL.
  cbv zeta. revert st. induction vs as [|v vs IH]; intros st H; cbn [foldl]; [split_and!; [done | by left | done | by intros v x ?%not_elem_of_nil]|].
  assert (H1 : (∀ k, k ∈ (take_member u st v).1 ↔ ∃ x, x ∈ (take_member u st v).2 ∧ FoldedKey x = k) ∧
    (∀ x, x ∈ (take_member u st v).2 → x ∈ st.2 ∨ dnFromValue v u = Some x) ∧ (∀ x, x ∈ st.2 → x ∈ (take_member u st v).2) ∧
    (∀ x, dnFromValue v u = Some x → FoldedKey x ∈ (take_member u st v).1)).
  { unfold take_member. destruct (dnFromValue v u) as [d|]; [|by split_and!; [|by left|..]].
    destruct (bool_decide_reflect (FoldedKey d ∈ st.1)) as [Hd|Hd].
    - split_and!; [done | by left | done | by intros x [= <-]].
    - cbn. split_and!; [|set_solver|set_solver|set_solver]. intros k. rewrite elem_of_union, H. set_solver. }
  destruct H1 as (A & Bb & C & D). destruct (IH _ A) as (A' & B' & C' & D'). split_and!; [done | | auto |].
  - intros x [Hx|(w & ? & ?)]%B'; [|right; exists w; set_solver]. apply Bb in Hx as [?|?]; [by left | right; exists v; set_solver].
  - intros w x [->|Hw]%elem_of_cons Hx; [|by eapply D']. apply D in Hx. apply A in Hx as (x' & Hx' & <-). apply A'. exists x'. auto.
Qed.

Lemma memberDNs_names (mv : option (DN * DN)) (e : Entry) (y : bytes) :
  wf_move mv → (∃ x, x ∈ memberDNs e ∧ FoldedKey (moved_by mv x) = y) ↔ names_key mv e y.
Proof using UL.
  intros Hmv. unfold memberDNs.
  destruct (take_member_keys false (Values e (B "member")) (∅, [])) as (A & Bb & _ & D); [intros k; cbn; split; [set_solver | intros (x & ?%not_elem_of_nil & _); done]|].
  destruct (take_member_keys true (Values e (B "uniqueMember")) _ A) as (A' & B' & C' & D').
  set (l := (foldl (take_member true) (foldl (take_member false) (∅, []) (Values e (B "member"))) (Values e (B "uniqueMember"))).2) in *.
  assert (Hin : ∀ x, x ∈ l → ∃ v u, member_value e v u ∧ dnFromValue v u = Some x).
  { intros x [[?%not_elem_of_nil|(v & ? & ?)]%Bb|(v & ? & ?)]%B'; [done | by exists v, false | by exists v, true]. }
  assert (Hkey : ∀ v u x, member_value e v u → dnFromValue v u = Some x → ∃ x', x' ∈ l ∧ FoldedKey x' = FoldedKey x).
  { intros v u x Hv Hx. apply A'. destruct u; [by eapply D'|]. apply (D v x Hv) in Hx. apply A in Hx as (x' & Hx' & <-). apply A'. exists x'. auto. }
  assert (Hwf : ∀ v u x, dnFromValue v u = Some x → wf_dn x).
  { intros v u x. unfold dnFromValue. destruct (ParseDN _) eqn:E; cbn; [intros [= <-]; by eapply ParseDN_wf_aux | done]. }
  assert (Hm : ∀ x x', wf_dn x → wf_dn x' → FoldedKey x' = FoldedKey x → FoldedKey (moved_by mv x') = FoldedKey (moved_by mv x)).
  { intros x x' Hx Hx' E. destruct mv as [[from to]|]; [|done]. destruct (Hmv from to eq_refl). by apply (relocate_key from to). }
  split.
  - intros (x & Hx & Hy). destruct (Hin x Hx) as (v & u & Hv & Hd). by exists v, u, x.
  - intros (v & u & x & Hv & Hd & Hy). destruct (Hkey v u x Hv Hd) as (x' & Hx' & E). exists x'. split; [done|]. rewrite <- Hy.
    destruct (Hin x' Hx') as (v' & u' & _ & Hd'). apply Hm; [by eapply Hwf..|done].
Qed.

(** ** What a pass makes of an entry *)

Lemma member_attr_spec (a : Attribute) (u : bool) :
  named (if u then B "uniqueMember" else B "member") a = true → member_attr a = Some u.
Proof using UL.
  unfold named, member_attr. intros H. destruct u; [by rewrite H, orb_true_r|]. rewrite H. cbn [orb].
  replace (equal_fold (Name a) (B "uniqueMember")) with false; [done|]. symmetry. apply not_true_iff_false. intros E.
  assert (Hx : equal_fold (B "member") (B "uniqueMember") = true) by (eapply equal_fold_trans; [|exact E]; by rewrite equal_fold_sym).
  assert (Hy : equal_fold (B "member") (B "uniqueMember") = false) by (apply fold_differs; [done | done | discriminate]). congruence.
Qed.

Lemma member_attr_none (a : Attribute) (n : bytes) :
  equal_fold (B "member") n = false → equal_fold (B "uniqueMember") n = false → named n a = true → member_attr a = None.
Proof using UL.
  unfold named, member_attr. intros H1 H2 Hn.
  assert (H : ∀ w, equal_fold w n = false → equal_fold (Name a) w = false).
  { intros w Hw. apply not_true_iff_false. intros E. rewrite <- not_true_iff_false in Hw. apply Hw. eapply equal_fold_trans; [|exact Hn]. by rewrite equal_fold_sym. }
  by rewrite !H.
Qed.

(** Mapping keeps every attribute where it is. *)
Lemma map_values (f : bytes → bool → bytes) (e : Entry) (u : bool) :
  Values (MkEntry (EDN e) (map_attr f <$> Attributes e)) (if u then B "uniqueMember" else B "member") =
  (λ v, f v u) <$> Values e (if u then B "uniqueMember" else B "member").
Proof using UL.
  rewrite !Values_vals. cbn [Attributes]. induction (Attributes e) as [|a l IH]; [done|]. cbn [fmap list_fmap]. rewrite !vals_cons.
  assert (Hn : Name (map_attr f a) = Name a) by (unfold map_attr; by destruct (member_attr a)).
  assert (Hd : named (if u then B "uniqueMember" else B "member") (map_attr f a) = named (if u then B "uniqueMember" else B "member") a) by (unfold named; by rewrite Hn).
  rewrite Hd. destruct (named _ a) eqn:E; [|exact IH]. unfold map_attr. by rewrite (member_attr_spec a u E).
Qed.

Lemma map_values_other (f : bytes → bool → bytes) (e : Entry) (n : bytes) :
  equal_fold (B "member") n = false → equal_fold (B "uniqueMember") n = false →
  Values (MkEntry (EDN e) (map_attr f <$> Attributes e)) n = Values e n.
Proof using UL.
  intros H1 H2. rewrite !Values_vals. cbn [Attributes]. induction (Attributes e) as [|a l IH]; [done|]. cbn [fmap list_fmap]. rewrite !vals_cons.
  assert (Hn : Name (map_attr f a) = Name a) by (unfold map_attr; by destruct (member_attr a)).
  assert (Hd : named n (map_attr f a) = named n a) by (unfold named; by rewrite Hn).
  rewrite Hd. destruct (named n a) eqn:E; [|exact IH]. unfold map_attr. by rewrite (member_attr_none a n H1 H2 E).
Qed.

Lemma find_none {A} (f : A → bool) (l : list A) : Forall (λ a, f a = false) l → List.find f l = None.
Proof using Type. induction 1 as [|a l Ha _ IH]; cbn; [done|]. by rewrite Ha. Qed.

Lemma filter_name (keep : bytes → bool → bool) (a a' : Attribute) : (filter_attr keep a).1 = Some a' → Name a' = Name a.
Proof using Type. unfold filter_attr. destruct (member_attr a); cbn; [|by intros [= <-]]. destruct (_ =? 0); [done | by intros [= <-]]. Qed.

(** Filtering takes attributes away when nothing is left of them. *)
Lemma filter_unique (keep : bytes → bool → bool) (e : Entry) :
  unique_names e → unique_names (MkEntry (EDN e) (omap fst (filter_attr keep <$> Attributes e))).
Proof using Type.
  unfold unique_names. cbn [Attributes]. induction 1 as [|a l _ IH Ha]; cbn; [constructor|].
  destruct ((filter_attr keep a).1) as [a'|] eqn:E; [|exact IH]. constructor; [exact IH|].
  apply Forall_forall. intros b' (o & Ho & Hb)%list_elem_of_omap. apply list_elem_of_fmap in Ho as (b & -> & Hin). rewrite Forall_forall in Ha. specialize (Ha b Hin).
  unfold names_differ in *. by rewrite (filter_name keep a a' E), (filter_name keep b b' Hb).
Qed.

Lemma filter_none (keep : bytes → bool → bool) (n : bytes) (l : list Attribute) :
  Forall (λ a, named n a = false) l → Forall (λ a, named n a = false) (omap fst (filter_attr keep <$> l)).
Proof using Type.
  rewrite !Forall_forall. intros H a' (o & Ho & Ha)%list_elem_of_omap. apply list_elem_of_fmap in Ho as (a & -> & Hin). unfold named in *.
  rewrite (filter_name keep a a' Ha). by apply H.
Qed.

Lemma names_apart (n : bytes) (a : Attribute) (l : list Attribute) :
  named n a = true → Forall (names_differ a) l → Forall (λ b, named n b = false) l.
Proof using UL.
  intros Hn. rewrite !Forall_forall. intros H b Hb. specialize (H b Hb). unfold names_differ, named in *. apply not_true_iff_false. intros E.
  rewrite <- not_true_iff_false in H. apply H. eapply equal_fold_trans; [exact Hn|]. by rewrite equal_fold_sym.
Qed.

Lemma filter_values (keep : bytes → bool → bool) (e : Entry) (u : bool) :
  unique_names e →
  Values (MkEntry (EDN e) (omap fst (filter_attr keep <$> Attributes e))) (if u then B "uniqueMember" else B "member") =
  filter (λ v, keep v u = true) (Values e (if u then B "uniqueMember" else B "member")).
Proof using UL.
  set (n := if u then B "uniqueMember" else B "member"). rewrite !Values_vals. unfold unique_names. cbn [Attributes].
  induction 1 as [|a l _ IH Ha]; [done|]. cbn [fmap list_fmap omap list_omap]. rewrite vals_cons. destruct (named n a) eqn:E.
  - pose proof (member_attr_spec a u E) as Hm. unfold filter_attr at 1. rewrite Hm. cbn [fst].
    destruct (Nat.eqb_spec (length (filter (λ v, keep v u = true) (AttrValues a))) 0) as [Hz|Hz].
    + rewrite vals_none by (apply filter_none; by eapply names_apart). symmetry. by apply nil_length_inv.
    + rewrite vals_cons. unfold named. cbn [Name]. unfold named in E. by rewrite E.
  - destruct ((filter_attr keep a).1) as [a'|] eqn:Ea; [|exact IH]. rewrite vals_cons. unfold named in *. rewrite (filter_name keep a a' Ea), E. exact IH.
Qed.

Lemma filter_values_other (keep : bytes → bool → bool) (e : Entry) (n : bytes) :
  equal_fold (B "member") n = false → equal_fold (B "uniqueMember") n = false →
  Values (MkEntry (EDN e) (omap fst (filter_attr keep <$> Attributes e))) n = Values e n.
Proof using UL.
  intros H1 H2. rewrite !Values_vals. cbn [Attributes]. induction (Attributes e) as [|a l IH]; [done|]. cbn [fmap list_fmap omap list_omap]. rewrite vals_cons.
  destruct (named n a) eqn:E.
  - unfold filter_attr at 1. rewrite (member_attr_none a n H1 H2 E). cbn [fst]. rewrite vals_cons. by rewrite E.
  - destruct ((filter_attr keep a).1) as [a'|] eqn:Ea; [|exact IH]. rewrite vals_cons. unfold named in *. rewrite (filter_name keep a a' Ea), E. exact IH.
Qed.

(** A pass over an entry: only member values change. *)
Record passes (g : bytes → bool → option bytes) (e e' : Entry) : Prop := {
  pa_dn : EDN e' = EDN e;
  pa_unique : unique_names e';
  pa_members : ∀ v u, member_value e' v u ↔ ∃ w, member_value e w u ∧ g w u = Some v;
  pa_others : ∀ n, equal_fold (B "member") n = false → equal_fold (B "uniqueMember") n = false → Values e' n = Values e n;
}.

Definition pass (f : Entry → Entry * bool) (e : Entry) : Entry := if (f e).2 then (f e).1 else e.

Lemma filter_shorter (keep : bytes → bool → bool) (v : bytes) (u : bool) (l : list bytes) :
  v ∈ l → keep v u = false → negb (length (filter (λ v, keep v u = true) l) =? length l)%nat = true.
Proof using Type.
  intros Hv Hk. apply negb_true_iff, Nat.eqb_neq. intros Heq. apply list_elem_of_split in Hv as (l1 & l2 & ->).
  rewrite filter_app, filter_cons_False, !length_app in Heq by congruence. cbn in Heq.
  pose proof (length_filter (λ v, keep v u = true) l1). pose proof (length_filter (λ v, keep v u = true) l2). lia.
Qed.

Lemma filter_passes (keep : bytes → bool → bool) (e : Entry) :
  unique_names e → passes (λ w u, if keep w u then Some w else None) e (pass (λ g, filterMemberValues g keep) e).
Proof using UL.
  intros Hu.
  assert (Hp : passes (λ w u, if keep w u then Some w else None) e (MkEntry (EDN e) (omap fst (filter_attr keep <$> Attributes e)))).
  { split; [done | by apply filter_unique | | intros n; apply filter_values_other]. intros v u. unfold member_value.
    rewrite filter_values by done. rewrite list_elem_of_filter. split; [intros [Hk Hv]; exists v; by rewrite Hk|].
    intros (w & Hw & Hk). destruct (keep w u) eqn:E; [|done]. by injection Hk as <-. }
  unfold pass, filterMemberValues. destruct (existsb snd _) eqn:E; [exact Hp|]. cbn [snd]. split; [done..| |done]. intros v u. split; [|].
  - intros Hv. exists v. split; [done|].
    destruct (keep v u) eqn:Ek; [done|]. exfalso. rewrite <- not_true_iff_false in E. apply E. unfold member_value in Hv. rewrite Values_vals in Hv.
    clear Hp E. induction (Attributes e) as [|a l IH]; [by apply not_elem_of_nil in Hv|]. rewrite vals_cons in Hv. cbn.
    destruct (named _ a) eqn:En; [|rewrite IH by done; by rewrite orb_true_r].
    unfold filter_attr at 1. rewrite (member_attr_spec a u En). cbn [snd]. by rewrite (filter_shorter keep v u (AttrValues a) Hv Ek).
  - intros (w & Hw & Hk). destruct (keep w u); [|done]. by injection Hk as <-.
Qed.

Lemma map_passes (f : bytes → bool → bytes) (e : Entry) :
  unique_names e → passes (λ w u, Some (f w u)) e (pass (λ g, mapMemberValues g f) e).
Proof using UL.
  intros Hu. assert (He : pass (λ g, mapMemberValues g f) e = MkEntry (EDN e) (map_attr f <$> Attributes e)).
  { unfold pass, mapMemberValues. destruct (bool_decide_reflect (map_attr f <$> Attributes e = Attributes e)) as [E|E]; cbn; [|done]. rewrite E. by destruct e. }
  rewrite He. split; [done | | | intros n; apply map_values_other].
  - clear He. unfold unique_names in *. cbn [Attributes]. induction Hu as [|a l _ IH Ha]; cbn; [constructor|]. constructor; [exact IH|].
    assert (Hn : ∀ b, Name (map_attr f b) = Name b) by (intros b; unfold map_attr; by destruct (member_attr b)).
    apply Forall_forall. intros b' (b & -> & Hb)%list_elem_of_fmap. rewrite Forall_forall in Ha. specialize (Ha b Hb). unfold names_differ in *. by rewrite !Hn.
  - intros v u. unfold member_value. rewrite map_values, list_elem_of_fmap. split; [intros (w & -> & ?); by exists w | intros (w & ? & [= <-]); by exists w].
Qed.

(** What does not depend on members stays. *)
Lemma passes_group (g : bytes → bool → option bytes) (e e' : Entry) : passes g e e' → isGroupEntry e' = isGroupEntry e ∧ memberOf_keys e' = memberOf_keys e.
Proof using UL.
  intros Hp. unfold isGroupEntry, hasObjectClass, memberOf_keys. rewrite !(pa_others _ _ _ Hp) by (apply fold_differs; [done | done | discriminate]). done.
Qed.
End values.

(** * Names that print back into a [uniqueMember] *)

(** A name the printer leaves without an unescaped hash sign: it escapes one that starts
    a value and no other. *)
Definition hash_safe (d : DN) : Prop := Forall (λ r, c_hash ∉ tail (rdn_value r)) (rdns d).

(** Where a rename writes member values that read back as the moved names: every value it
    moves parses to a name no value of which ends in a tab (the printer leaves one bare,
    the parser trims it), and in a [uniqueMember] both that name and the new one have a
    hash sign at most at the start of a value. *)
Definition repairable {U : Unicode} (from to : DN) (m : gmap bytes Entry) : Prop :=
  ∀ k e w (u : bool) x, m !! k = Some e → isGroupEntry e = true →
    w ∈ Values e (if u then B "uniqueMember" else B "member") → dnFromValue w u = Some x → moved from x →
    no_tab_end x ∧ (u = true → hash_safe x ∧ hash_safe to).

Lemma strip_scan (s t : bytes) (esc : bool) :
  scan c_hash esc s = Some false → strip_go esc (s ++ t) = app s <$> strip_go false t.
Proof.
  revert esc. induction s as [|b s IH]; intros esc; cbn [scan app strip_go].
  - intros [= ->]. by destruct (strip_go false t).
  - destruct esc; [intros H|case_bool_decide as C1; [intros H | case_bool_decide as C2; [done | intros H]]];
      rewrite IH by done; by destruct (strip_go false t).
Qed.

Lemma strip_safe (s t : bytes) :
  scan c_hash false s = Some false → t = [] ∨ head t = Some c_hash → stripUniqueMemberSuffix (s ++ t) = s.
Proof.
  intros H Ht. unfold stripUniqueMemberSuffix. rewrite (strip_scan s t false H).
  destruct Ht as [->|Ht]; [apply app_nil_r|]. destruct t as [|b t]; [done|]. injection Ht as ->. apply app_nil_r.
Qed.

(** What [stripUniqueMemberSuffix] drops starts with the hash sign. *)
Lemma stripped_tail (v : bytes) :
  let t := drop (length (stripUniqueMemberSuffix v)) v in t = [] ∨ head t = Some c_hash.
Proof.
  cbv zeta. unfold stripUniqueMemberSuffix. generalize false.
  assert (H : ∀ e, match strip_go e v with Some p => ∃ t, v = p ++ c_hash :: t | None => True end).
  { induction v as [|b v IH]; intros e; cbn [strip_go]; [done|].
    destruct e; [|case_bool_decide; [|case_bool_decide; [by exists v; subst|]]];
      match goal with |- context [strip_go ?e' v] => specialize (IH e'); destruct (strip_go e' v) end; cbn; try done; destruct IH as (t & ->); by exists t. }
  intros e. specialize (H e). destruct (strip_go e v) as [p|]; cbn [default from_option id].
  - destruct H as (t & ->). right. by rewrite drop_app_length.
  - left. apply drop_all.
Qed.

Lemma besc_hash (f : bool) (s : bytes) :
  c_hash ∉ (if f then tail s else s) → scan c_hash false (besc f s) = Some false.
Proof.
  revert f. induction s as [|b t IH]; intros f H; [done|]. cbn [besc]. rewrite scan_app.
  assert (Ht : c_hash ∉ t) by (destruct f; [exact H | by apply not_elem_of_cons in H as [_ H]]).
  assert (Hb : scan c_hash false (besc1 f b t) = Some false).
  { assert (Hbs : ∀ x, scan c_hash false [c_backslash; x] = Some false) by (intros; reflexivity).
    unfold besc1. case_bool_decide; [reflexivity|]. destruct (needs_escape b) eqn:E; [apply Hbs|].
    case_bool_decide; cbn [andb]; [destruct (f || _); [apply Hbs|]|].
    all: case_bool_decide; cbn [andb]; [destruct f; [apply Hbs|]|].
    all: cbn [scan]; rewrite (bool_decide_eq_false_2 (b = c_backslash)) by (intros ->; vm_compute in E; discriminate).
    all: rewrite bool_decide_eq_false_2; [done|]; first [done | intros ->; apply H; by left]. }
  rewrite Hb. cbn. apply IH. done.
Qed.

Lemma String_hash {U : Unicode} (d : DN) : Forall wf_rdn (rdns d) → hash_safe d → scan c_hash false (String d) = Some false.
Proof.
  unfold hash_safe, String. generalize (rdns d). intros l Hw Hs.
  assert (Hr : ∀ r, wf_rdn r → c_hash ∉ tail (rdn_value r) → scan c_hash false (rdn_string r) = Some false).
  { intros r (Ha & _ & Hv & _) Hh. unfold rdn_string. destruct (validDNAttribute_chars _ Ha) as [_ Hc].
    rewrite scan_app. assert (scan c_hash false (rdn_attr r) = Some false) as ->.
    { clear -Hc. induction Hc as [|b s Hb Hc IH]; [done|]. cbn [scan]. rewrite !bool_decide_eq_false_2; [done | by intros ->..]. }
    cbn [mbind option_bind]. rewrite scan_app. change (scan c_hash false (B "=")) with (Some false). cbn [mbind option_bind].
    rewrite escape_bytes by done. by apply (besc_hash true). }
  induction Hw as [|r l Hwr Hw IH]; [done|]. apply Forall_cons in Hs as [Hsr Hs]. destruct l as [|r' l]; [by apply Hr|].
  cbn [fmap list_fmap]. change (scan c_hash false (rdn_string r ++ B "," ++ join (B ",") (rdn_string <$> r' :: l)) = Some false).
  rewrite scan_app, Hr by done. cbn [mbind option_bind]. rewrite scan_app. change (scan c_hash false (B ",")) with (Some false). cbn [mbind option_bind].
  by apply IH.
Qed.

Lemma hash_rebased {U : Unicode} {UL : UnicodeLaws U} (from to x nd : DN) :
  wf_dn from → wf_dn x → Rebase x from to = Some nd → hash_safe x → hash_safe to → hash_safe nd.
Proof.
  intros Hf Hw (pre & suf & E & _ & ->)%Rebase_spec_aux Hx Ht; [|done..]. unfold hash_safe in *. rewrite E in Hx. cbn [rdns].
  apply Forall_app in Hx as [Hx _]. by apply Forall_app.
Qed.

(** Where the names a rename writes read back. *)
Definition reads_back {U : Unicode} (from to : DN) (m : gmap bytes Entry) : Prop :=
  ∀ k e w u x, m !! k = Some e → isGroupEntry e = true → member_value e w u → dnFromValue w u = Some x →
    dnFromValue (follow_rename from to w u) u = Some (moved_by (Some (from, to)) x).

(** Every value that is moved is rewritten to the moved name, and no other changes what it
    names. *)
Lemma repairable_reads_back {U : Unicode} {UL : UnicodeLaws U} (from to : DN) (m : gmap bytes Entry) :
  wf_dn from → wf_dn to → no_tab_end to → repairable from to m → reads_back from to m.
Proof.
  intros Hf Ht Htt Hm k e w u x Hk Hi Hw Hx.
  assert (Hwx : wf_dn x) by (unfold dnFromValue in Hx; destruct (ParseDN _) eqn:Ep; [injection Hx as <-; by eapply ParseDN_wf_aux | done]).
  unfold follow_rename. rewrite Hx. cbn [moved_by]. destruct (Rebase x from to) as [nd|] eqn:Er; cbn [from_option id]; [|done].
  destruct (Hm k e w u x Hk Hi) as [Hxt Hu]; [by destruct u | done | apply (Rebase_moved from to Hf); [done | by eexists] |].
  assert (Hnd : ParseDN (String nd) = Ok nd).
  { apply ParseDN_String_aux; [by apply (Rebase_wf from to Hf Ht x) | by apply (Rebase_tab from to Hf x nd)]. }
  unfold dnFromValue. destruct u; [|by rewrite app_nil_r, Hnd].
  destruct (Hu eq_refl) as [Hxh Hth]. rewrite strip_safe; [by rewrite Hnd | | apply stripped_tail].
  apply String_hash; [apply (Rebase_wf from to Hf Ht x nd Hwx Er) | by apply (hash_rebased from to x)].
Qed.

(** * Repairs *)

Section repair.
Context {U : Unicode} {UL : UnicodeLaws U} {St : Type} {UT : UpdateTx St}.
Context (contents : St → gmap bytes Entry) (ok : St → Prop) {CL : UpdateTxLaws UT contents ok} {SL : SubtreeLaws UT contents ok}.
Variable sv : Server.
Hypothesis flat : flat_suffixes sv.
Variable r : RefIntPlugin.
Hypothesis scopes_managed : ∀ s, s ∈ ri_scopes r ↔ s ∈ suffixes sv.
Hypothesis scopes_wf : ∀ s, s ∈ ri_scopes r → wf_dn s.
Hypothesis scopes_distinct : NoDup (FoldedKey <$> ri_scopes r).

Local Abbreviation good := (good contents ok sv).

(** One of two names above a third is at or above the other. *)
Lemma moved_comparable (a b d : DN) : wf_dn a → wf_dn b → moved a d → moved b d → moved a b ∨ moved b a.
Proof using UL.
  intros [Ha _] [Hb _] (pa & sa & Hd & Hsa & Fa)%under_suffix (pb & sb & Hd' & Hsb & Fb)%under_suffix; [|done..]. rewrite Hd in Hd'.
  apply app_eq_inv in Hd' as [(k & _ & E)|(k & _ & E)].
  - left. apply (moved_fold a (MkDN sb) b); [done|]. apply under_suffix; [done|]. exists k, sa. by split_and!.
  - right. apply (moved_fold b (MkDN sa) a); [done|]. apply under_suffix; [done|]. exists k, sb. by split_and!.
Qed.

(** No name is in two scopes. *)
Lemma scopes_disjoint (a b d : DN) : a ∈ ri_scopes r → b ∈ ri_scopes r → moved a d → moved b d → FoldedKey a = FoldedKey b.
Proof using UL flat scopes_managed scopes_wf.
  intros Ha Hb Ma Mb. apply key_fold; [by apply scopes_wf..|].
  destruct (moved_comparable a b d) as [[?|Hu]|[?|Hu]]; try done; try (by apply scopes_wf).
  - pose proof (flat a b (proj1 (scopes_managed a) Ha) (proj1 (scopes_managed b) Hb)). congruence.
  - pose proof (flat b a (proj1 (scopes_managed b) Hb) (proj1 (scopes_managed a) Ha)). congruence.
Qed.

Variable f : Entry → Entry * bool.
Hypothesis f_dn : ∀ e, unique_names e → EDN (pass f e) = EDN e ∧ unique_names (pass f e).

(** What a repair makes of an entry. *)
Definition repaired (e : Entry) : Entry := if isGroupEntry e then pass f e else e.

Lemma repaired_dn (e : Entry) : unique_names e → EDN (repaired e) = EDN e ∧ unique_names (repaired e).
Proof using f_dn. intros Hu. unfold repaired. destruct (isGroupEntry e); [by apply f_dn | done]. Qed.

Lemma repair_one (st st' : St) (k : bytes) (e : Entry) :
  good st → all_unique (contents st) → contents st !! k = Some e → repair_entry (λ _ g, Ok (f g)) st e = Ok st' →
  good st' ∧ all_unique (contents st') ∧ contents st' = <[k := repaired e]> (contents st).
Proof using CL UL f_dn.
  intros Hg Hu Hk H. destruct (repaired_dn e (Hu k e Hk)) as [Hdn Hue].
  assert (Hsame : repaired e = e → st' = st → good st' ∧ all_unique (contents st') ∧ contents st' = <[k := repaired e]> (contents st)).
  { intros -> ->. by rewrite insert_id. }
  unfold repair_entry in H. unfold repaired, pass in *. destruct (isGroupEntry e); cbn [negb] in H; [|injection H as <-; by apply Hsame].
  destruct (f e) as [e' []]; cbn [fst snd] in *; [|injection H as <-; by apply Hsame]. apply lift_ok in H.
  destruct (replace_entry contents ok sv st st' k e e' Hg Hk Hdn H) as [Hg' E]. split_and!; [done| |done].
  rewrite E. intros k' a [[_ <-]|[_ ?]]%lookup_insert_Some; [done | by eapply Hu].
Qed.

(** A pass over distinct entries. *)
Definition passed_over (P : Entry → Prop) (m m' : gmap bytes Entry) : Prop :=
  ∀ k, match m !! k, m' !! k with
  | Some e, Some e' => (P e → e' = repaired e) ∧ (¬ P e → e' = e)
  | None, None => True
  | _, _ => False
  end.

Lemma repair_list (l : list Entry) (st st' : St) :
  good st → all_unique (contents st) → NoDup l → (∀ e, e ∈ l → ∃ k, contents st !! k = Some e) →
  rfold (repair_entry (λ _ g, Ok (f g))) st l = Ok st' →
  good st' ∧ all_unique (contents st') ∧ passed_over (λ e, e ∈ l) (contents st) (contents st').
Proof using CL UL f_dn.
  revert st. induction l as [|e l IH]; intros st Hg Hu Hnd Hin; cbn [rfold].
  - intros [= <-]. split_and!; [done..|]. intros k. destruct (contents st !! k); [|done]. split; [by intros ?%not_elem_of_nil | done].
  - apply NoDup_cons in Hnd as [Hnl Hnd]. intros (st1 & H1 & H)%bind_ok. destruct (Hin e) as [k Hk]; [by left|].
    destruct (repair_one st st1 k e Hg Hu Hk H1) as (Hg1 & Hu1 & E1).
    assert (Hkey : ∀ k' a, contents st !! k' = Some a → EDN a = EDN e → k' = k).
    { intros k' a Ha Hdn. destruct (good_name contents ok sv st k' a Hg Ha) as (d & Hd & <- & _).
      destruct (good_name contents ok sv st k e Hg Hk) as (d' & Hd' & <- & _). congruence. }
    destruct (IH st1) as (Hg' & Hu' & Hp); [done..| |exact H|].
    { intros a Ha. destruct (Hin a) as [k' Hk']; [by right|]. exists k'. rewrite E1, lookup_insert_ne; [done|]. intros <-. congruence. }
    split_and!; [done..|]. intros k'. specialize (Hp k'). rewrite E1 in Hp. destruct (decide (k = k')) as [<-|Hne].
    + rewrite lookup_insert_eq in Hp. rewrite Hk. destruct (contents st' !! k) as [e'|]; [|done]. destruct Hp as [_ Hp].
      split; [|intros Hn; exfalso; apply Hn; left]. intros _. apply Hp. intros Hr. destruct (Hin (repaired e)) as [k' Hk']; [by right|].
      rewrite (Hkey k' _ Hk' (proj1 (repaired_dn e (Hu k e Hk)))) in Hk'. assert (E : repaired e = e) by congruence. by rewrite E in Hr.
    + rewrite lookup_insert_ne in Hp by done. destruct (contents st !! k') as [a|] eqn:Ea, (contents st' !! k'); try done. destruct Hp as [Hp1 Hp2].
      split; [intros [->|?]%elem_of_cons; [|by apply Hp1] | intros Hn; apply Hp2; intros ?; apply Hn; by right].
      exfalso. apply Hne. symmetry. by apply (Hkey k' e).
Qed.

Definition in_scopes (ss : list DN) (e : Entry) : Prop := ∃ s d, s ∈ ss ∧ ParseDN (EDN e) = Ok d ∧ moved s d.

Lemma repair_scopes (ss : list DN) (st st' : St) :
  good st → all_unique (contents st) → (∀ s, s ∈ ss → s ∈ ri_scopes r) → NoDup (FoldedKey <$> ss) →
  rfold (λ (st : St) suf, entries ← lift (subtree_or_none (ut_read st) suf); rfold (repair_entry (λ _ g, Ok (f g))) st entries) st ss = Ok st' →
  good st' ∧ all_unique (contents st') ∧ passed_over (in_scopes ss) (contents st) (contents st').
Proof using CL SL UL f_dn flat scopes_managed scopes_wf.
  revert st. induction ss as [|s ss IH]; intros st Hg Hu Hss Hnd; cbn [rfold].
  - intros [= <-]. split_and!; [done..|]. intros k. destruct (contents st !! k); [|done]. split; [by intros (? & ? & ?%not_elem_of_nil & _) | done].
  - cbn [fmap list_fmap] in Hnd. apply NoDup_cons in Hnd as [Hns Hnd]. intros (st1 & H1 & H)%bind_ok. apply bind_ok in H1 as (l & Hl & H1).
    assert (Hs : s ∈ ri_scopes r) by (apply Hss; by left).
    destruct (subtree_entries contents ok sv flat st s Hg (scopes_wf s Hs)) as (l' & Hl' & Hndl & Hin).
    { apply (scope_inSuffix sv (MkMemberOf (ri_suffix r) (ri_extra r) false) (λ s, proj1 (scopes_managed s)) s Hs). }
    rewrite Hl' in Hl. injection Hl as <-.
    destruct (repair_list l' st st1 Hg Hu Hndl) as (Hg1 & Hu1 & Hp1); [intros e (k & d & Hk & _)%Hin; by exists k | exact H1|].
    destruct (IH st1 Hg1 Hu1) as (Hg' & Hu' & Hp2); [intros; apply Hss; by right | done | exact H|]. split_and!; [done..|].
    intros k. specialize (Hp1 k). specialize (Hp2 k). destruct (contents st !! k) as [e|] eqn:Ek, (contents st1 !! k) as [e1|], (contents st' !! k) as [e'|]; try done.
    destruct Hp1 as [P1 N1], Hp2 as [P2 N2]. destruct (good_name contents ok sv st k e Hg Ek) as (d & Hd & _).
    assert (Hel : e ∈ l' ↔ moved s d).
    { rewrite Hin. split; [intros (? & d' & _ & Hd' & ?); assert (d' = d) as -> by congruence; done | intros ?; by exists k, d]. }
    destruct (repaired_dn e (Hu k e Ek)) as [Hdn _].
    destruct (bool_decide_reflect (e ∈ l')) as [He|He].
    + pose proof (P1 He) as ->. split; [|intros Hn; exfalso; apply Hn; exists s, d; split_and!; [by left | done | by apply Hel]].
      intros _. apply N2. intros (s' & d' & Hs' & Hd' & Hm'). rewrite Hdn in Hd'. assert (d' = d) as -> by congruence.
      apply Hns. apply Hel in He. rewrite (scopes_disjoint s s' d Hs (Hss s' (list_elem_of_further _ _ _ Hs')) He Hm'). apply list_elem_of_fmap. by exists s'.
    + pose proof (N1 He) as ->. split.
      * intros (s' & d' & [->|Hs']%elem_of_cons & Hd' & Hm'); assert (d' = d) as -> by congruence; [destruct He; by apply Hel|]. apply P2. by exists s', d.
      * intros Hn. apply N2. intros (s' & d' & Hs' & ?). apply Hn. exists s', d'. split; [by right | done].
Qed.

(** Every group is repaired, once. *)
Lemma repair_spec (st st' : St) :
  good st → all_unique (contents st) → repair r (λ _ g, Ok (f g)) st = Ok st' →
  good st' ∧ all_unique (contents st') ∧ ∀ k, contents st' !! k = repaired <$> contents st !! k.
Proof using CL SL UL f_dn flat scopes_distinct scopes_managed scopes_wf.
  intros Hg Hu H. destruct (repair_scopes (ri_scopes r) st st' Hg Hu) as (Hg' & Hu' & Hp); [done..|]. split_and!; [done..|].
  intros k. specialize (Hp k). destruct (contents st !! k) as [e|] eqn:Ek, (contents st' !! k) as [e'|]; try done. cbn. destruct Hp as [Hp _]. f_equal. apply Hp.
  destruct (good_name contents ok sv st k e Hg Ek) as (d & Hd & _).
  destruct (stored_covered sv (MkMemberOf (ri_suffix r) (ri_extra r) false) scopes_managed scopes_wf (contents st) k e d (proj2 Hg) Ek Hd) as (s & Hs & Hm).
  by exists s, d.
Qed.
End repair.

(** * Both plugins *)

Section both.
Context {U : Unicode} {UL : UnicodeLaws U} {St : Type} {UT : UpdateTx St}.
Context (contents : St → gmap bytes Entry) (ok : St → Prop) {CL : UpdateTxLaws UT contents ok} {SL : SubtreeLaws UT contents ok}.
Variable sv : Server.
Hypothesis flat : flat_suffixes sv.
Variable p : MemberOfPlugin.
Variable r : RefIntPlugin.
Hypothesis same_scopes : ri_scopes r = mo_scopes p.
Hypothesis scopes_managed : ∀ s, s ∈ mo_scopes p ↔ s ∈ suffixes sv.
Hypothesis scopes_wf : ∀ s, s ∈ mo_scopes p → wf_dn s.
Hypothesis scopes_distinct : NoDup (FoldedKey <$> mo_scopes p).

Local Abbreviation good := (good contents ok sv).
Local Abbreviation lists := (lists p).

Lemma repair_graph (f : Entry → Entry * bool) (h : bytes → bool → option bytes) (st st' : St) (y g : bytes) :
  good st → all_unique (contents st) → (∀ e, unique_names e → passes h e (pass f e)) → repair r (λ _ g, Ok (f g)) st = Ok st' →
  good st' ∧ (∀ k, contents st' !! k = repaired f <$> contents st !! k) ∧
  (lists None (contents st') y g ↔ ∃ e w u v x, contents st !! g = Some e ∧ isGroupEntry e = true ∧ member_value e w u ∧ h w u = Some v ∧
     dnFromValue v u = Some x ∧ FoldedKey x = y).
Proof using All.
  intros Hg Hu Hf H. destruct (repair_spec contents ok sv flat r) with (f := f) (st := st) (st' := st') as (Hg' & Hu' & Hm); try done.
  1, 2, 3: rewrite same_scopes; done.
  { intros e He. destruct (Hf e He). done. }
  split_and!; [done..|]. rewrite (stored_lists sv p scopes_managed scopes_wf None _ y g (proj2 Hg')). setoid_rewrite Hm. split.
  - intros (e' & x' & He & Hi & Hx). destruct (contents st !! g) as [e|] eqn:Eg; [|done]. injection He as <-.
    assert (Hgr : isGroupEntry e = true).
    { unfold repaired in Hi. destruct (isGroupEntry e) eqn:E; [done|]. congruence. }
    unfold repaired in Hx. rewrite Hgr in Hx. destruct (proj1 (memberDNs_names None (pass f e) y (λ _ _, ltac:(done))) (ex_intro _ x' Hx)) as (v & u & x & Hv & Hd & Hy).
    apply (pa_members _ _ _ (Hf e (Hu g e Eg))) in Hv as (w & Hw & Hh). by exists e, w, u, v, x.
  - intros (e & w & u & v & x & He & Hi & Hw & Hh & Hd & Hy). rewrite He. cbn. unfold repaired. rewrite Hi.
    destruct (proj2 (memberDNs_names None (pass f e) y (λ _ _, ltac:(done)))) as (x' & Hx').
    { exists v, u, x. split_and!; [|done..]. apply (pa_members _ _ _ (Hf e (Hu g e He))). by exists w. }
    exists (pass f e), x'. split_and!; [done| |apply Hx'..]. by rewrite (proj1 (passes_group h e (pass f e) (Hf e (Hu g e He)))).
Qed.

(** The other way to say who is listed. *)
Lemma lists_values (mv : option (DN * DN)) (m : gmap bytes Entry) (y g : bytes) :
  tree_ok sv m → wf_move mv → lists mv m y g ↔ ∃ e, m !! g = Some e ∧ isGroupEntry e = true ∧ names_key mv e y.
Proof using UL scopes_managed scopes_wf.
  intros Ht Hmv. rewrite (stored_lists sv p scopes_managed scopes_wf mv m y g Ht). setoid_rewrite <- (memberDNs_names mv _ y Hmv). naive_solver.
Qed.

(** ** A delete *)

(** Where the two notions of the same name agree about what is gone. *)
Definition agrees_on (gone : DN) (m : gmap bytes Entry) : Prop :=
  ∀ k e w u x, m !! k = Some e → isGroupEntry e = true → member_value e w u → dnFromValue w u = Some x →
    EqualFold x gone = true ↔ FoldedKey x = FoldedKey gone.

Lemma delete_graph (gone : DN) (st st' : St) (y g : bytes) :
  good st → all_unique (contents st) → agrees_on gone (contents st) → repair r (λ _ g, Ok (filterMemberValues g (keep_others gone))) st = Ok st' →
  good st' ∧ (∀ k, contents st' !! k = repaired (λ g, filterMemberValues g (keep_others gone)) <$> contents st !! k) ∧
  (lists None (contents st') y g ↔ lists None (contents st) y g ∧ y ≠ FoldedKey gone).
Proof using All.
  intros Hg Hu Ha H. destruct (repair_graph (λ e, filterMemberValues e (keep_others gone)) (λ w u, if keep_others gone w u then Some w else None) st st' y g Hg Hu) as (Hg' & Hm & Hl); [|exact H|].
  { intros e He. by apply filter_passes. }
  split_and!; [done..|]. rewrite Hl, (lists_values None (contents st)) by (first [apply Hg | done]). split.
  - intros (e & w & u & v & x & He & Hi & Hw & Hh & Hd & Hy). unfold keep_others in Hh. destruct (dnFromValue w u) as [d|] eqn:Ed.
    + destruct (EqualFold d gone) eqn:Ef; cbn in Hh; [done|]. injection Hh as <-. assert (x = d) as -> by congruence. split.
      * exists e. split_and!; [done..|]. by exists w, u, d.
      * intros E. rewrite <- not_true_iff_false in Ef. apply Ef, (Ha g e w u d He Hi Hw Ed). congruence.
    + injection Hh as <-. congruence.
  - intros [(e & He & Hi & w & u & x & Hw & Hd & Hy) Hne]. exists e, w, u, w, x. split_and!; try done. unfold keep_others. rewrite Hd.
    destruct (EqualFold x gone) eqn:Ef; [|done]. exfalso. apply Hne. rewrite <- Hy. by apply (Ha g e w u x He Hi Hw Hd).
Qed.

(** ** A rename *)

Lemma rename_graph (from to : DN) (st st' : St) (y g : bytes) :
  wf_dn from → wf_dn to → good st → all_unique (contents st) → reads_back from to (contents st) →
  repair r (λ _ g, Ok (mapMemberValues g (follow_rename from to))) st = Ok st' →
  good st' ∧ (∀ k, contents st' !! k = repaired (λ g, mapMemberValues g (follow_rename from to)) <$> contents st !! k) ∧
  (lists None (contents st') y g ↔ lists (Some (from, to)) (contents st) y g).
Proof using All.
  intros Hf Ht Hg Hu Ha H. destruct (repair_graph (λ e, mapMemberValues e (follow_rename from to)) (λ w u, Some (follow_rename from to w u)) st st' y g Hg Hu) as (Hg' & Hm & Hl); [|exact H|].
  { intros e He. by apply map_passes. }
  split_and!; [done..|]. rewrite Hl, (lists_values (Some (from, to)) (contents st)) by (first [apply Hg | by intros f t [= <- <-]]). split.
  - intros (e & w & u & v & x & He & Hi & Hw & Hh & Hd & Hy). injection Hh as <-. destruct (dnFromValue w u) as [d|] eqn:Ed.
    + rewrite (Ha g e w u d He Hi Hw Ed) in Hd. injection Hd as <-. exists e. split_and!; [done..|]. by exists w, u, d.
    + unfold follow_rename in Hd. rewrite Ed in Hd. congruence.
  - intros (e & He & Hi & w & u & x & Hw & Hd & Hy). exists e, w, u, (follow_rename from to w u), (moved_by (Some (from, to)) x).
    split_and!; try done. by apply (Ha g e w u x).
Qed.
End both.
