(* ===== verification/PluginFacts.v ===== *)
(** The plugins together: MemberOf and then referential integrity, the order of
    [src/internal/config/plan.go].  Both keep the tree of entries; after every write the
    membership graph has lost the deleted name or followed the rename, and [memberOf] is
    derived from it. *)

From stdpp Require Import fin_sets.
From S2P Require Import Prelude GoStrings DN DNFacts Message RenameFacts Schema Matching FilterEval StoreIface Aci Server Paging PagingFacts Search SearchFacts Write FakeStore WriteOps WriteFacts TreeFacts GoTime Bolt PwHash Password PasswordFacts MemberOf MemberOfSpec MemberOfWrites RefInt.
Local Open Scope nat_scope.

Section plugins.
Context {U : Unicode} {UL : UnicodeLaws U} {St : Type} {UT : UpdateTx St}.
Context (contents : St → gmap bytes Entry) (ok : St → Prop) {CL : UpdateTxLaws UT contents ok} {SL : SubtreeLaws UT contents ok}.
Variable sv : Server.
Hypothesis flat : flat_suffixes sv.
Variable order : gmap bytes DN → list bytes.
Variable p : MemberOfPlugin.
Variable r : RefIntPlugin.
Hypothesis same_scopes : ri_scopes r = mo_scopes p.
Hypothesis scopes_managed : ∀ s, s ∈ mo_scopes p ↔ s ∈ suffixes sv.
Hypothesis scopes_wf : ∀ s, s ∈ mo_scopes p → wf_dn s.

Local Abbreviation good := (good contents ok sv).

(** ** The tree *)

Lemma rfold_keeps {A E S} (P : S → Prop) (f : S → A → res E S) (l : list A) (s s' : S) :
  (∀ s a s', a ∈ l → P s → f s a = Ok s' → P s') → P s → rfold f s l = Ok s' → P s'.
Proof using Type.
  revert s. induction l as [|a l IH]; intros s Hf Hs; cbn [rfold]; [by intros [= <-]|]. intros (s1 & H1 & H)%bind_ok.
  eapply (IH s1); [intros ????; apply Hf; by right | | exact H]. eapply Hf; [by left | exact Hs | exact H1].
Qed.

Lemma with_memberOf_dn (e : Entry) (vs : list bytes) : EDN (with_memberOf e vs) = EDN e.
Proof using Type.
  unfold with_memberOf. destruct (0 <? length vs); [unfold ensureObjectClass | unfold removeObjectClass];
    repeat case_match; cbn; apply setAttr_dn.
Qed.

Lemma memberof_keeps_tree : tree_plugin contents ok sv (mo_AfterWrite order p).
Proof using CL UL.
  intros st ev st' Hg. unfold mo_AfterWrite. intros (seeds & _ & H)%bind_ok. destruct (size seeds =? 0); [by injection H as <-|].
  apply bind_ok in H as (idx & _ & H). eapply (rfold_keeps good); [|exact Hg | exact H].
  intros s1 x s2 _ Hg1. unfold recompute. rewrite (ut_entry (UpdateTxLaws := CL)) by apply Hg1. destruct (contents s1 !! FoldedKey x) as [e|] eqn:E; [|by intros [= <-]].
  destruct (converged _ _); [by intros [= <-]|]. intros Hr%lift_ok. eapply (tree_replace contents ok sv); [exact Hg1 | exact E | | exact Hr]. apply with_memberOf_dn.
Qed.

(** A repair is of entries that are stored, up to their other attributes. *)
Lemma repair_entry_good (f : St → Entry → res write_err (Entry * bool)) (st st' : St) (e : Entry) :
  (∀ st e x, f st e = Ok x → EDN x.1 = EDN e) → good st → (∃ k a, contents st !! k = Some a ∧ EDN a = EDN e) →
  repair_entry f st e = Ok st' → good st' ∧ ∀ k, EDN <$> contents st' !! k = EDN <$> contents st !! k.
Proof using CL UL.
  intros Hf Hg (k & a & Hk & Ha). unfold repair_entry. destruct (isGroupEntry e); [|by intros [= <-]]. cbn [negb].
  destruct (f st e) as [[e' []]|err] eqn:E; [|by intros [= <-]|done]. intros Hr%lift_ok. pose proof (Hf st e _ E) as Hdn. cbn in Hdn.
  destruct (replace_entry contents ok sv st st' k a e' Hg Hk) as [Hg' Em]; [congruence | exact Hr|]. split; [done|]. intros k'. rewrite Em.
  destruct (decide (k = k')) as [<-|]; [rewrite lookup_insert_eq, Hk; cbn; congruence | by rewrite lookup_insert_ne].
Qed.

Lemma repair_good (f : St → Entry → res write_err (Entry * bool)) (st st' : St) :
  (∀ st e x, f st e = Ok x → EDN x.1 = EDN e) → good st → repair r f st = Ok st' → good st'.
Proof using CL SL UL flat same_scopes scopes_managed scopes_wf.
  intros Hf Hg H. unfold repair in H. eapply (rfold_keeps good); [|exact Hg | exact H]. clear dependent st st'.
  intros st s st' Hs Hg (l & Hl & H)%bind_ok. rewrite same_scopes in Hs.
  destruct (subtree_entries contents ok sv flat st s Hg (scopes_wf s Hs)) as (l' & Hl' & _ & Hin); [by apply (scope_inSuffix sv p (λ s, proj1 (scopes_managed s)))|].
  rewrite Hl' in Hl. injection Hl as <-.
  assert (Hg2 : good st' ∧ ∀ k, EDN <$> contents st' !! k = EDN <$> contents st !! k); [|apply Hg2].
  eapply (rfold_keeps (λ s', good s' ∧ ∀ k, EDN <$> contents s' !! k = EDN <$> contents st !! k)); [|by split | exact H].
  intros s1 e s2 (k & d & Hk & _)%Hin [Hg1 Hm1] H2. specialize (Hm1 k) as Hmk. rewrite Hk in Hmk. destruct (contents s1 !! k) as [a|] eqn:Ea; [|done].
  destruct (repair_entry_good f s1 s2 e Hf Hg1) as [Hg2 Hm2]; [exists k, a; split; [done|]; cbn in Hmk; congruence | exact H2|].
  split; [done|]. intros k'. by rewrite Hm2.
Qed.

Lemma refint_keeps_tree : tree_plugin contents ok sv (ri_AfterWrite r).
Proof using CL SL UL flat same_scopes scopes_managed scopes_wf.
  intros st ev st' Hg. unfold ri_AfterWrite.
  assert (Hfil : ∀ keep e x, Ok (E := write_err) (filterMemberValues e keep) = Ok x → EDN x.1 = EDN e).
  { intros keep e x [= <-]. unfold filterMemberValues. by destruct (existsb _ _). }
  assert (Hmap : ∀ f e x, Ok (E := write_err) (mapMemberValues e f) = Ok x → EDN x.1 = EDN e).
  { intros f e x [= <-]. unfold mapMemberValues. by destruct (bool_decide _). }
  destruct (ev_Op ev), (ev_Before ev) as [before|], (ev_After ev) as [after|]; try (by intros [= <-]).
  1, 2: destruct (ParseDN (EDN before)) as [gone|]; [|by intros [= <-]]; destruct (ri_inScope r gone); [|by intros [= <-]];
    cbn [negb]; intros H; eapply repair_good; [|exact Hg|exact H]; intros ? e x; apply Hfil.
  destruct (ParseDN (EDN before)) as [from|], (ParseDN (EDN after)) as [to|]; try (by intros [= <-]).
  destruct (negb _ || negb _); [by intros [= <-]|]. destruct (beq _ _); [by intros [= <-]|].
  intros H. eapply repair_good; [|exact Hg|exact H]. intros ? e x. apply Hmap.
Qed.

(** ** The derivation *)

Hypothesis scopes_distinct : NoDup (FoldedKey <$> mo_scopes p).
Hypothesis order_keys : ∀ m, order m ≡ₚ (map_to_list m).*1.

Local Abbreviation lists := (lists p).
Local Abbreviation memberships := (memberships p).
Local Abbreviation derived := (derived p).
Local Abbreviation closure := (closure p).

(** What a write function did to the directory before the plugins run: it changed one
    entry, deleted one, or moved a subtree. *)
Inductive written (m0 : gmap bytes Entry) (ev : WriteEvent) (m1 : gmap bytes Entry) : Prop :=
| written_entry (k : bytes) :
    ev_Op ev ≠ WriteDelete → changes_at p m0 ev m1 k → spelled p None m1 → written m0 ev m1
| written_delete (k : bytes) (e : Entry) (gone : DN) :
    ev = MkWriteEvent WriteDelete (Some e) None → m0 !! k = Some e → ParseDN (EDN e) = Ok gone → FoldedKey gone = k → m1 = delete k m0 →
    ri_inScope r gone = true → agrees_on gone m1 → written m0 ev m1
| written_move (from to : DN) :
    wf_dn from → wf_dn to → moves p from to m0 ev m1 → inSuffix sv to = true → ri_inScope r from = true → ri_inScope r to = true →
    spelled p (Some (from, to)) m1 → repairable from to m1 → written m0 ev m1.

(** What [recompute] leaves of an entry that is a group is its members. *)
Lemma AfterWrite_same (st st' : St) (ev : WriteEvent) :
  good st → all_unique (contents st) → (∀ from to, move_of ev = Some (from, to) → inSuffix sv to = true) → mo_AfterWrite order p st ev = Ok st' →
  good st' ∧ all_unique (contents st') ∧
  (∀ k, is_Some (contents st' !! k) ↔ is_Some (contents st !! k)) ∧
  (∀ k e', contents st' !! k = Some e' → ∃ e, contents st !! k = Some e ∧ isGroupEntry e' = isGroupEntry e ∧ ∀ w u, member_value e' w u → member_value e w u) ∧
  (∀ mv y g, lists mv (contents st') y g ↔ lists mv (contents st) y g).
Proof using All.
  intros Hg Hu Hto H.
  destruct (AfterWrite_rederived contents ok sv flat p (λ s, proj1 (scopes_managed s)) scopes_wf order order_keys st st' ev Hg Hu Hto H) as (ks & _ & Hg' & Hre).
  split_and!; [done | by eapply rederived_unique | | |].
  - intros k. specialize (Hre k). destruct (contents st !! k), (contents st' !! k); try done; split; first [by intros [? ?] | intros _; by eexists].
  - intros k e' Hk. specialize (Hre k). rewrite Hk in Hre. destruct (contents st !! k) as [e|]; [|done]. exists e. destruct Hre as [[_ Gr _ _ Oth] _].
    split_and!; [done..|]. intros w u. unfold member_value. rewrite Oth; [done|..]; destruct u; apply fold_differs; first [done | discriminate].
  - intros mv y g. symmetry. by eapply rederived_lists.
Qed.

Lemma graph_memberships (mv mv' : option (DN * DN)) (m m' : gmap bytes Entry) (y g : bytes) :
  (∀ a b, lists mv m a b ↔ lists mv' m' a b) → memberships mv m y g ↔ memberships mv' m' y g.
Proof using Type. intros H. unfold MemberOfSpec.memberships. destruct (mo_nested p); [by apply tc_iff | apply H]. Qed.

(** The repairs leave the derivation where the graph is what it was. *)
Lemma repaired_derived (f : Entry → Entry * bool) (h : bytes → bool → option bytes) (mv : option (DN * DN)) (m m' : gmap bytes Entry) :
  all_unique m → (∀ e, unique_names e → passes h e (pass f e)) → (∀ k, m' !! k = repaired f <$> m !! k) →
  (∀ y g, is_Some (m !! y) → memberships mv m y g ↔ memberships None m' y g) → derived mv m → derived None m'.
Proof using UL.
  intros Hu Hf Hm Hg Hd k e' d Hk Hd' Hc g. rewrite Hm in Hk. destruct (m !! k) as [e|] eqn:Ek; [|done]. injection Hk as <-.
  assert (He : EDN (repaired f e) = EDN e ∧ memberOf_keys (repaired f e) = memberOf_keys e).
  { unfold repaired. destruct (isGroupEntry e); [|done]. split; [apply (pa_dn _ _ _ (Hf e (Hu k e Ek))) | apply (passes_group _ _ _ (Hf e (Hu k e Ek)))]. }
  destruct He as [Hdn ->]. rewrite Hdn in Hd'. rewrite <- Hg by (by rewrite Ek). by apply (Hd k e d).
Qed.

Lemma derived_entry (m0 : gmap bytes Entry) (st st1 st' : St) (ev : WriteEvent) (k : bytes) :
  tree_ok sv m0 → good st → all_unique (contents st) → spelled p None m0 → derived None m0 →
  ev_Op ev ≠ WriteDelete → changes_at p m0 ev (contents st) k → spelled p None (contents st) →
  mo_AfterWrite order p st ev = Ok st1 → ri_AfterWrite r st1 ev = Ok st' →
  good st' ∧ derived None (contents st') ∧ (∀ y g, lists None (contents st') y g ↔ lists None (contents st) y g).
Proof using All.
  intros Ht0 Hg Hu Hs0 Hd Hop Hch Hs1 H1 H2. pose proof (ch_move _ _ _ _ _ Hch) as Hmv.
  assert (st' = st1) as ->.
  { unfold ri_AfterWrite in H2. unfold move_of in Hmv. destruct (ev_Op ev); try done; destruct (ev_Before ev) as [b|], (ev_After ev) as [a|]; try (by injection H2 as <-).
    destruct (ParseDN (EDN b)) as [from|], (ParseDN (EDN a)) as [to|]; try (by injection H2 as <-).
    destruct (beq _ _); [|done]. destruct (_ || _); by injection H2 as <-. }
  destruct (changed_derived contents ok sv flat p scopes_managed scopes_wf order order_keys m0 st st1 ev k) as [Hg1 Hd1]; [done..|].
  destruct (AfterWrite_same st st1 ev Hg Hu) as (_ & _ & _ & _ & Hgr); [by rewrite Hmv | done|]. by split_and!.
Qed.

Lemma derived_delete (m0 : gmap bytes Entry) (st st1 st' : St) (e : Entry) (k : bytes) (gone : DN) :
  let ev := MkWriteEvent WriteDelete (Some e) None in
  tree_ok sv m0 → good st → all_unique (contents st) → spelled p None m0 → derived None m0 →
  m0 !! k = Some e → ParseDN (EDN e) = Ok gone → FoldedKey gone = k → contents st = delete k m0 → ri_inScope r gone = true → agrees_on gone (contents st) →
  mo_AfterWrite order p st ev = Ok st1 → ri_AfterWrite r st1 ev = Ok st' →
  good st' ∧ derived None (contents st') ∧ (∀ y g, lists None (contents st') y g ↔ lists None (contents st) y g ∧ y ≠ k) ∧ contents st' !! k = None.
Proof using All.
  cbv zeta. intros Ht0 Hg Hu Hs0 Hd Hk Hgone Hkey E Hin Hag H1 H2. set (ev := MkWriteEvent WriteDelete (Some e) None) in *.
  assert (Hch : changes_at p m0 ev (contents st) k).
  { rewrite E. split; [done | | | |].
    - intros g Hne. rewrite lookup_delete_ne by done. destruct (m0 !! g); [unfold alike; by split_and! | done].
    - intros e0 He0. left. split; [done|]. cbn. congruence.
    - intros e0. by rewrite lookup_delete_eq.
    - intros e0. by rewrite lookup_delete_eq. }
  assert (Hs1 : spelled p None (contents st)).
  { rewrite E. intros g a x (Ha & Hi & Hr) Hx Hc. apply (Hs0 g a x); [|done..]. apply lookup_delete_Some in Ha as [_ Ha]. by split. }
  destruct (changed_derived contents ok sv flat p scopes_managed scopes_wf order order_keys m0 st st1 ev k) as [Hg1 Hd1]; [done..|].
  destruct (AfterWrite_same st st1 ev Hg Hu) as (_ & Hu1 & Hdom & Hval & Hgr); [done..|].
  unfold ri_AfterWrite, ev in H2. cbn [ev_Op ev_Before ev_After] in H2. rewrite Hgone, Hin in H2. cbn [negb] in H2.
  assert (Hag1 : agrees_on gone (contents st1)).
  { intros g a w u x Ha Hi Hw Hx. destruct (Hval g a Ha) as (a0 & Ha0 & Hgi & Hmem). apply (Hag g a0 w u x); [done | by rewrite <- Hgi | by apply Hmem | done]. }
  assert (Hall : ∀ y g, good st' ∧ (∀ k, contents st' !! k = repaired (λ g, filterMemberValues g (keep_others gone)) <$> contents st1 !! k) ∧
    (lists None (contents st') y g ↔ lists None (contents st1) y g ∧ y ≠ FoldedKey gone)).
  { intros y g. by apply (delete_graph contents ok sv flat p r same_scopes scopes_managed scopes_wf scopes_distinct gone st1 st'). }
  destruct (Hall k k) as (Hg' & Hm & _).
  assert (Hno : contents st1 !! k = None).
  { apply eq_None_not_Some. rewrite Hdom, E, lookup_delete_eq. by intros [? ?]. }
  split_and!; [done | | intros y g; by rewrite <- Hgr, <- Hkey; apply Hall | by rewrite Hm, Hno].
  apply (repaired_derived (λ g, filterMemberValues g (keep_others gone)) (λ w u, if keep_others gone w u then Some w else None) None (contents st1) (contents st') Hu1);
    [intros a Ha; by apply filter_passes | exact Hm | | exact Hd1].
  intros y g Hy. rewrite !memberships_closure. apply (unaffected p (λ y, y ≠ k) (lists None (contents st1)) (lists None (contents st')) ∅); [| |by intros ->; rewrite Hno in Hy; destruct Hy | set_solver].
  - intros _ a b Ha _ Hab. split; [|set_solver]. intros ->. destruct Hab as (b & x & (Hb & _) & _). rewrite Hm, Hno in Hb. done.
  - intros a b Ha _. rewrite (proj2 (proj2 (Hall a b))), Hkey. naive_solver.
Qed.

Lemma derived_move (m0 : gmap bytes Entry) (st st1 st' : St) (ev : WriteEvent) (from to : DN) :
  tree_ok sv m0 → good st → all_unique (contents st) → spelled p None m0 → derived None m0 →
  wf_dn from → wf_dn to → moves p from to m0 ev (contents st) → inSuffix sv to = true → ri_inScope r from = true → ri_inScope r to = true →
  spelled p (Some (from, to)) (contents st) → reads_back from to (contents st) →
  mo_AfterWrite order p st ev = Ok st1 → ri_AfterWrite r st1 ev = Ok st' →
  good st' ∧ derived None (contents st') ∧ (∀ y g, lists None (contents st') y g ↔ lists (Some (from, to)) (contents st) y g).
Proof using All.
  intros Ht0 Hg Hu Hs0 Hd Hf Ht Hmv Hin Hsf Hst Hs1 Hrb H1 H2. pose proof (mo_event _ _ _ _ _ _ Hmv) as Hev.
  destruct (moved_derived contents ok sv flat p scopes_managed scopes_wf order order_keys from to Hf Ht m0 st st1 ev) as [Hg1 Hd1]; [done..|].
  destruct (AfterWrite_same st st1 ev Hg Hu) as (_ & Hu1 & Hdom & Hval & Hgr); [rewrite Hev; by intros f t [= <- <-] | done|].
  assert (Hrb1 : reads_back from to (contents st1)).
  { intros g a w u x Ha Hi Hw Hx. destruct (Hval g a Ha) as (a0 & Ha0 & Hgi & Hmem). apply (Hrb g a0 w u x); [done | by rewrite <- Hgi | by apply Hmem | done]. }
  assert (Hrep : repair r (λ _ g, Ok (mapMemberValues g (follow_rename from to))) st1 = Ok st').
  { unfold ri_AfterWrite in H2. unfold move_of in Hev. destruct (ev_Op ev), (ev_Before ev) as [b|], (ev_After ev) as [a|]; try done.
    destruct (ParseDN (EDN b)) as [f|], (ParseDN (EDN a)) as [t|]; try done. destruct (beq _ _); [done|]. injection Hev as -> ->. by rewrite Hsf, Hst in H2. }
  assert (Hall : ∀ y g, good st' ∧ (∀ k, contents st' !! k = repaired (λ g, mapMemberValues g (follow_rename from to)) <$> contents st1 !! k) ∧
    (lists None (contents st') y g ↔ lists (Some (from, to)) (contents st1) y g)).
  { intros y g. by apply (rename_graph contents ok sv flat p r same_scopes scopes_managed scopes_wf scopes_distinct from to st1 st'). }
  destruct (Hall [] []) as (Hg' & Hm & _). split_and!; [done | | intros y g; rewrite <- Hgr; apply Hall].
  apply (repaired_derived (λ g, mapMemberValues g (follow_rename from to)) (λ w u, Some (follow_rename from to w u)) (Some (from, to)) (contents st1) (contents st') Hu1);
    [intros a Ha; by apply map_passes | exact Hm | | exact Hd1].
  intros y g _. apply graph_memberships. intros a b. symmetry. apply Hall.
Qed.

Lemma written_derived (m0 : gmap bytes Entry) (st st' : St) (ev : WriteEvent) :
  tree_ok sv m0 → good st → all_unique (contents st) → spelled p None m0 → derived None m0 → written m0 ev (contents st) →
  runPlugins [mo_AfterWrite order p; ri_AfterWrite r] st ev = Ok st' → good st' ∧ derived None (contents st').
Proof using All.
  intros Ht0 Hg Hu Hs0 Hd Hw H. unfold runPlugins in H. cbn [rfold] in H. apply bind_ok in H as (st1 & H1 & H). apply bind_ok in H as (st2 & H2 & [= ->]).
  destruct (mo_AfterWrite order p st ev) as [x|] eqn:E1; [|done]. injection H1 as ->. destruct (ri_AfterWrite r st1 ev) as [y|] eqn:E2; [|done]. injection H2 as ->.
  destruct Hw as [k Hop Hch Hs1|k e gone -> Hk Hgone Hkey E Hin Hag|from to Hf Ht Hmv Hin Hsf Hst Hs1 Hrb].
  - destruct (derived_entry m0 st st1 st' ev k) as (? & ? & _); done.
  - destruct (derived_delete m0 st st1 st' e k gone) as (? & ? & _); done.
  - destruct (derived_move m0 st st1 st' ev from to) as (? & ? & _); [done..| | done | done | done]. apply repairable_reads_back; [done | done | apply (mo_tab _ _ _ _ _ _ Hmv) | done].
Qed.
End plugins.
