(* ===== verification/PluginWrites.v ===== *)
(** Requests with both plugins at work: what a Delete and a ModifyDN leave of the
    membership graph, and that [memberOf] stays derived through them. *)

From stdpp Require Import fin_sets.
From S2P Require Import Prelude GoStrings DN DNFacts Message RenameFacts Ber Schema Matching FilterEval StoreIface Aci Server Paging PagingFacts Search SearchFacts Write FakeStore WriteOps WriteFacts TreeFacts GoTime Bolt PwHash Password PasswordFacts MemberOf MemberOfSpec MemberOfWrites RefInt PluginFacts.
Local Open Scope nat_scope.

(** Attributes the plugins do not read. *)
Definition plain_attr {U : Unicode} (n : bytes) : Prop :=
  Forall (λ s, equal_fold n s = false) [B "member"; B "uniqueMember"; B "objectClass"; B "memberOf"].

Section requests.
Context {U : Unicode} {UL : UnicodeLaws U} {L : BerLib} {St : Type} {UT : UpdateTx St}.
Context (contents : St → gmap bytes Entry) (ok : St → Prop) {CL : UpdateTxLaws UT contents ok} {SL : SubtreeLaws UT contents ok}.
Variable sv : Server.
Hypothesis flat : flat_suffixes sv.
Variable order : gmap bytes DN → list bytes.
Variable p : MemberOfPlugin.
Variable r : RefIntPlugin.
Hypothesis same_scopes : ri_scopes r = mo_scopes p.
Hypothesis scopes_managed : ∀ s, s ∈ mo_scopes p ↔ s ∈ suffixes sv.
Hypothesis scopes_wf : ∀ s, s ∈ mo_scopes p → wf_dn s.
Hypothesis scopes_distinct : NoDup (FoldedKey <$> mo_scopes p).
Hypothesis order_keys : ∀ m, order m ≡ₚ (map_to_list m).*1.
Variable reason : schema_violation → bytes.
Variable abandoned : bool.
Variable commit_err : option store_err.

Local Abbreviation good := (good contents ok sv).
Local Abbreviation lists := (lists p).
Local Abbreviation derived := (derived p).
Local Abbreviation plugins := [mo_AfterWrite order p; ri_AfterWrite r].

(** Every name is spelled below a suffix as the suffix is configured. *)
Definition well_named (m : gmap bytes Entry) : Prop := ∀ k e d, m !! k = Some e → ParseDN (EDN e) = Ok d → inSuffix sv d = true.

(** A directory the plugins have kept. *)
Record kept (m : gmap bytes Entry) : Prop := {
  kp_unique : all_unique m;
  kp_named : well_named m;
  kp_spelled : spelled p None m;
  kp_derived : derived None m;
}.

Lemma UnderAny_elem (d : DN) (l : list DN) : UnderAny d l = true ↔ ∃ s, s ∈ l ∧ (Equal d s || IsDescendantOf d s = true).
Proof using Type. unfold UnderAny. rewrite existsb_exists. by setoid_rewrite <- list_elem_of_In. Qed.

Lemma inScope_inSuffix (d : DN) : mo_inScope p d = inSuffix sv d.
Proof using scopes_managed.
  apply eq_true_iff_eq. unfold mo_inScope, inSuffix. rewrite !UnderAny_elem. by setoid_rewrite scopes_managed.
Qed.

Lemma ri_inScope_inSuffix (d : DN) : ri_inScope r d = inSuffix sv d.
Proof using same_scopes scopes_managed. unfold ri_inScope. rewrite same_scopes. apply inScope_inSuffix. Qed.

Lemma runs_both (st st' : St) (ev : WriteEvent) :
  runPlugins plugins st ev = Ok st' → ∃ st1, mo_AfterWrite order p st ev = Ok st1 ∧ ri_AfterWrite r st1 ev = Ok st'.
Proof using Type.
  unfold runPlugins. cbn [rfold]. intros (st1 & H1 & H)%bind_ok. apply bind_ok in H as (st2 & H2 & [= ->]). exists st1.
  destruct (mo_AfterWrite order p st ev) as [x|] eqn:E1; [|done]. injection H1 as ->. split; [done|].
  by destruct (ri_AfterWrite r st1 ev) as [y|]; [injection H2 as ->|].
Qed.

Lemma finish_ok mk (st : St) (fn : St → res write_err St) :
  (finish reason abandoned mk (Update commit_err st fn)).2.2 = ResultSuccess →
  fn st = Ok (finish reason abandoned mk (Update commit_err st fn)).1.
Proof using Type.
  unfold Update. destruct (fn st) as [st'|e] eqn:E; [destruct commit_err as [ce|]|]; unfold finish, respond; cbn [fst snd]; intros H; [|done|];
    by apply mapWriteError_code in H.
Qed.

(** ** Delete *)

Lemma delete_request (subj : Subject) (dn : bytes) (st : St) :
  good st → kept (contents st) →
  (∀ d e gone, ParseDN dn = Ok d → contents st !! FoldedKey d = Some e → ParseDN (EDN e) = Ok gone → agrees_on gone (contents st)) →
  let out := handleDelete sv plugins reason abandoned commit_err subj st dn in
  out.2.2 = ResultSuccess →
  ∃ d e, ParseDN dn = Ok d ∧ contents st !! FoldedKey d = Some e ∧ good out.1 ∧ derived None (contents out.1) ∧
    contents out.1 !! FoldedKey d = None ∧
    ∀ y g, lists None (contents out.1) y g ↔ lists None (contents st) y g ∧ y ≠ FoldedKey d ∧ g ≠ FoldedKey d.
Proof using All.
  intros Hg [Hu Hn Hs Hd] Hag. cbv zeta. unfold handleDelete. destruct (ParseDN dn) as [d|] eqn:Ep; [|done]. intros H.
  apply finish_ok in H. set (st' := (finish reason abandoned DeleteResponse (Update commit_err st (delete_fn sv plugins subj d))).1) in *. clearbody st'.
  unfold delete_fn in H. apply bind_ok in H as ([] & _ & H). apply bind_ok in H as (e & He & H). apply bind_ok in H as (st1 & Hdel%lift_ok & H).
  assert (Hw : wf_dn d) by (by eapply ParseDN_wf_aux). apply (entry_contents contents ok) in He; [|apply Hg].
  assert (Hg1 : good st1) by (by eapply (tree_delete contents ok sv)).
  apply (ut_delete (UpdateTxLaws := CL)) in Hdel as (_ & _ & Em & _); [|apply Hg | done].
  destruct (good_name contents ok sv st _ e Hg He) as (gone & Hgone & Hkey & _). apply runs_both in H as (st2 & H1 & H2).
  assert (Hsub : ∀ k a, contents st1 !! k = Some a → contents st !! k = Some a) by (intros k a; rewrite Em; by intros [_ ?]%lookup_delete_Some).
  destruct (derived_delete contents ok sv flat order p r same_scopes scopes_managed scopes_wf scopes_distinct order_keys (contents st) st1 st2 st' e (FoldedKey d) gone)
    as (Hg' & Hd' & Hgr & Hno); [apply Hg | done | intros k a Ha; eapply Hu, Hsub, Ha | done.. | | | done | done |].
  - rewrite ri_inScope_inSuffix. by eapply Hn.
  - intros k a w u x Ha. eapply (Hag d e gone); [done..|]. by eapply Hsub.
  - exists d, e. split_and!; [done..|]. intros y g. rewrite Hgr, !(stored_lists sv p scopes_managed scopes_wf) by (first [apply Hg1 | apply Hg]). rewrite Em. split.
    + intros [(a & x & [Hne Ha]%lookup_delete_Some & ?) ?]. split_and!; [by exists a, x | done | done].
    + intros ((a & x & Ha & ?) & ? & ?). split; [|done]. exists a, x. by rewrite lookup_delete_ne.
Qed.

(** ** ModifyDN *)

(** Two entries the plugins see the same of. *)
Definition same_member (e e' : Entry) : Prop :=
  unique_names e' ∧ Forall (λ s, Values e' s = Values e s) [B "member"; B "uniqueMember"; B "objectClass"; B "memberOf"].

Lemma same_member_trans (a b c : Entry) : same_member a b → same_member b c → same_member a c.
Proof using Type.
  intros [_ H] [? H']. split; [done|]. rewrite Forall_forall in H, H' |- *. intros s Hs. by rewrite H', H.
Qed.

Lemma replaced_same_member (n : bytes) (vs : list bytes) (e e' : Entry) : plain_attr n → replaced n vs e e' → same_member e e'.
Proof using Type. intros Hn [_ _ Ho Hu]. split; [done|]. eapply Forall_impl; [exact Hn|]. intros s. apply Ho. Qed.

Lemma same_member_alike (e e' : Entry) : same_member e e' → alike e e'.
Proof using Type.
  intros [_ H]. rewrite !Forall_cons in H. destruct H as (H1 & H2 & H3 & H4 & _).
  unfold alike, isGroupEntry, hasObjectClass, memberDNs, memberOf_keys. by rewrite H1, H2, H3, H4.
Qed.

Lemma attributes_same_member (e e' : Entry) : unique_names e → Attributes e' = Attributes e → same_member e e'.
Proof using Type.
  intros Hu Ha. split; [unfold unique_names; by rewrite Ha|]. apply Forall_forall. intros s _. by apply Values_attrs.
Qed.

Lemma setAttr_same_member (n : bytes) (vs : list bytes) (e : Entry) : plain_attr n → unique_names e → same_member e (setAttr e n vs).
Proof using UL. intros Hn Hu. eapply replaced_same_member; [exact Hn | by apply setAttr_replaced]. Qed.

Lemma marks_same_member (now : bytes) (e : Entry) (subj : Subject) : unique_names e → same_member e (applyModifyOpAttrs now e subj).
Proof using UL.
  assert (H1 : plain_attr (B "modifyTimestamp")) by (repeat constructor; apply fold_differs; first [done | discriminate]).
  assert (H2 : plain_attr (B "modifiersName")) by (repeat constructor; apply fold_differs; first [done | discriminate]).
  intros Hu. unfold applyModifyOpAttrs. pose proof (setAttr_same_member _ [now] e H1 Hu) as Hs.
  eapply same_member_trans; [exact Hs|]. apply setAttr_same_member; [exact H2 | apply Hs].
Qed.

Lemma rename_values_same_member (e : Entry) (oa ov na nv : bytes) (del : bool) :
  unique_names e → plain_attr oa → plain_attr na → same_member e (rename_values sv e oa ov na nv del).
Proof using UL.
  intros Hu Ho Hn. unfold rename_values.
  destruct (rename_drops (Some (sv_Schema sv)) e oa ov del Hu) as (vs & R1 & _). set (e1 := if del then _ else e) in *.
  destruct (rename_adds (Some (sv_Schema sv)) e1 na nv (rep_unique _ _ _ _ R1)) as (ws & R2 & _). set (e2 := if negb _ then _ else e1) in *.
  pose proof (drop_empty_replaced e2 oa (rep_unique _ _ _ _ R2)) as R3.
  eapply same_member_trans; [by eapply (replaced_same_member oa)|]. eapply same_member_trans; [by eapply (replaced_same_member na)|].
  by eapply (replaced_same_member oa).
Qed.

Lemma store_renamed_step (now : bytes) (subj : Subject) (st st' : St) (before a e : Entry) (k : bytes) :
  good st → contents st !! k = Some a → EDN e = EDN a → same_member a e → store_renamed sv plugins now subj st before e = Ok st' →
  ∃ st1 a', good st1 ∧ contents st1 = <[k := a']> (contents st) ∧ same_member a a' ∧ EDN a' = EDN a ∧
    runPlugins plugins st1 (MkWriteEvent WriteRename (Some before) (Some a')) = Ok st'.
Proof using CL UL.
  intros Hg Hk Hdn Hs H. unfold store_renamed in H. apply bind_ok in H as ([] & _ & H). apply bind_ok in H as (st1 & Hr%lift_ok & H).
  assert (Hdn' : EDN (applyModifyOpAttrs now e subj) = EDN a) by (by rewrite applyModifyOpAttrs_dn).
  destruct (replace_entry contents ok sv st st1 k a _ Hg Hk Hdn' Hr) as [Hg1 Em].
  exists st1, (applyModifyOpAttrs now e subj). split_and!; try done. eapply same_member_trans; [exact Hs|]. apply marks_same_member, Hs.
Qed.

(** [m'] is [m] with the keys moved, as far as the plugins see. *)
Definition shifted (from to : DN) (m m' : gmap bytes Entry) : Prop :=
  (∀ k e d, m !! k = Some e → ParseDN (EDN e) = Ok d → ∃ e', m' !! FoldedKey (relocate from to d) = Some e' ∧ same_member e e') ∧
  (∀ k' e', m' !! k' = Some e' → ∃ k e d, m !! k = Some e ∧ ParseDN (EDN e) = Ok d ∧ k' = FoldedKey (relocate from to d) ∧ same_member e e').

(** The graph of [m] with the move applied to both ends of its edges. *)
Definition moved_graph (from to : DN) (m m' : gmap bytes Entry) : Prop :=
  ∀ y g, lists None m' y g ↔ ∃ k e d x, m !! k = Some e ∧ isGroupEntry e = true ∧ ParseDN (EDN e) = Ok d ∧ x ∈ memberDNs e ∧
    y = FoldedKey (relocate from to x) ∧ g = FoldedKey (relocate from to d).

Lemma shifted_lists (from to : DN) (m m' : gmap bytes Entry) (y g : bytes) :
  tree_ok sv m → tree_ok sv m' → shifted from to m m' →
  lists (Some (from, to)) m' y g ↔ ∃ k e d x, m !! k = Some e ∧ isGroupEntry e = true ∧ ParseDN (EDN e) = Ok d ∧ x ∈ memberDNs e ∧
    y = FoldedKey (relocate from to x) ∧ g = FoldedKey (relocate from to d).
Proof using UL scopes_managed scopes_wf.
  intros Ht Ht' [H1 H2]. rewrite (stored_lists sv p scopes_managed scopes_wf) by done. split.
  - intros (e' & x & He & Hi & Hx & <-). destruct (H2 _ _ He) as (k & e & d & Hk & Hd & -> & (Hg & Hm & _)%same_member_alike).
    exists k, e, d, x. rewrite <- Hg, <- Hm. by split_and!.
  - intros (k & e & d & x & Hk & Hi & Hd & Hx & -> & ->). destruct (H1 _ _ _ Hk Hd) as (e' & He' & (Hg & Hm & _)%same_member_alike).
    exists e', x. rewrite Hg, Hm. by split_and!.
Qed.

Lemma renamed_shifted (from to : DN) (m m' : gmap bytes Entry) (a a' : Entry) :
  all_unique m → renamed from to m m' → m' !! FoldedKey to = Some a → same_member a a' → shifted from to m (<[FoldedKey to := a']> m').
Proof using Type.
  intros Hu Hr Ha Hs. split.
  - intros k e d Hk Hd. assert (Hk' : m' !! FoldedKey (relocate from to d) = Some (relocate_entry from to d e)) by (apply Hr; by exists k, e, d).
    assert (Hse : same_member e (relocate_entry from to d e)) by (apply attributes_same_member; [by eapply Hu | by apply relocate_attributes]).
    destruct (decide (FoldedKey to = FoldedKey (relocate from to d))) as [E|Hne].
    + exists a'. rewrite <- E, lookup_insert_eq. split; [done|]. eapply same_member_trans; [exact Hse|]. congruence.
    + exists (relocate_entry from to d e). by rewrite lookup_insert_ne.
  - intros k' e' [[<- <-]|[Hne Hk']]%lookup_insert_Some.
    + apply Hr in Ha as (k & e & d & Hk & Hd & E & ->). exists k, e, d. split_and!; [done..|].
      eapply same_member_trans; [|exact Hs]. apply attributes_same_member; [by eapply Hu | by apply relocate_attributes].
    + apply Hr in Hk' as (k & e & d & Hk & Hd & E & ->). exists k, e, d. split_and!; [done..|].
      apply attributes_same_member; [by eapply Hu | by apply relocate_attributes].
Qed.

Lemma shifted_unique (from to : DN) (m m' : gmap bytes Entry) : shifted from to m m' → all_unique m'.
Proof using Type. intros [_ H] k e' Hk. by destruct (H k e' Hk) as (? & ? & ? & _ & _ & _ & [Hu _]). Qed.

(** A rename that keeps every key. *)
Lemma respelled_kept (st st1 st' : St) (before a : Entry) (from to : DN) (k : bytes) :
  let ev := MkWriteEvent WriteRename (Some before) (Some a) in
  good st → kept (contents st) → good st1 → shifted from to (contents st) (contents st1) →
  (∀ d, wf_dn d → FoldedKey (relocate from to d) = FoldedKey d) → contents st !! k = Some before → contents st1 !! k = Some a →
  move_of ev = None → runPlugins plugins st1 ev = Ok st' →
  good st' ∧ derived None (contents st') ∧ moved_graph from to (contents st) (contents st').
Proof using All.
  cbv zeta. intros Hg [Hu Hn Hs Hd] Hg1 Hsh Hsame Hb Ha Hev H. set (ev := MkWriteEvent _ _ _) in *. apply runs_both in H as (st2 & H1 & H2).
  assert (Hkey : ∀ g e d, contents st !! g = Some e → ParseDN (EDN e) = Ok d → FoldedKey d = g ∧ wf_dn d).
  { intros g e d Hk Hp. destruct (good_name contents ok sv st g e Hg Hk) as (d' & Hp' & ? & _ & ? & _). by assert (d' = d) as <- by congruence. }
  assert (Hat : ∀ g, match contents st !! g, contents st1 !! g with Some e, Some e' => same_member e e' | None, None => True | _, _ => False end).
  { intros g. destruct Hsh as [S1 S2]. destruct (contents st !! g) as [e|] eqn:E.
    - destruct (good_name contents ok sv st g e Hg E) as (d & Hp & <- & _ & Hw & _). destruct (S1 _ _ _ E Hp) as (e' & He' & ?).
      rewrite Hsame in He' by done. by rewrite He'.
    - destruct (contents st1 !! g) as [e'|] eqn:E'; [|done]. destruct (S2 _ _ E') as (k0 & e & d & Hk0 & Hp & -> & _).
      destruct (Hkey _ _ _ Hk0 Hp) as [Hk Hw]. rewrite Hsame in E by done. congruence. }
  assert (Hal : ∀ g, match contents st !! g, contents st1 !! g with Some e, Some e' => alike e e' | None, None => True | _, _ => False end).
  { intros g. specialize (Hat g). destruct (contents st !! g), (contents st1 !! g); try done. by apply same_member_alike. }
  destruct (derived_entry contents ok sv flat order p r same_scopes scopes_managed scopes_wf scopes_distinct order_keys (contents st) st1 st2 st' ev k)
    as (Hg' & Hd' & Hgr); [apply Hg | done | by eapply shifted_unique | done | done | done | | | done | done |].
  - split; [done | intros g _; apply Hal | | |].
    + intros e He. left. split; [done|]. cbn. congruence.
    + intros e He. right. split; [done|]. cbn. congruence.
    + intros e He. specialize (Hal k). rewrite Hb, He in Hal. rewrite Hb. apply Hal.
  - intros g e' x (He' & Hi & d & Hp & Hkd & Hc) Hx. specialize (Hal g). rewrite He' in Hal. destruct (contents st !! g) as [e|] eqn:E; [|done].
    destruct Hal as (Hgi & Hm & _). apply (Hs g e x); [|by rewrite <- Hm].
    apply (stored_group sv p scopes_managed scopes_wf); [apply Hg|]. by rewrite <- Hgi.
  - split_and!; [done..|]. intros y g. rewrite Hgr, <- (shifted_lists from to (contents st) (contents st1)) by (first [apply Hg | apply Hg1 | done]).
    rewrite !(stored_lists sv p scopes_managed scopes_wf) by apply Hg1. split; intros (e & x & He & Hi & Hx & <-); exists e, x; split_and!; try done;
      cbn; [|symmetry]; apply Hsame; by eapply memberDNs_wf.
Qed.

Lemma Rebase_inSuffix (from to d nd : DN) : wf_dn from → wf_dn to → wf_dn d → Rebase d from to = Some nd → inSuffix sv to = true → inSuffix sv nd = true.
Proof using UL.
  intros Hf [Hto _] Hw (pre & suf & _ & _ & ->)%Rebase_spec_aux; [|done..]. unfold inSuffix. rewrite !UnderAny_elem.
  intros (s & Hs & H). exists s. split; [done|]. destruct pre as [|q pre]; [by destruct to|]. apply orb_true_iff. right.
  apply IsDescendantOf_iff. apply orb_true_iff in H as [->%Equal_iff|(Hne & pre' & _ & E)%IsDescendantOf_iff].
  - split; [done|]. by exists (q :: pre).
  - split; [done|]. exists ((q :: pre) ++ pre'). split; [done|]. cbn [rdns]. by rewrite E, app_assoc.
Qed.

(** A rename that moves the keys. *)
Lemma moved_kept (st st1 st' : St) (m : gmap bytes Entry) (before a a' : Entry) (from to : DN) :
  let ev := MkWriteEvent WriteRename (Some before) (Some a') in
  good st → kept (contents st) → good st1 → wf_dn from → wf_dn to → no_tab_end to → ¬ moved from to → inSuffix sv from = true → inSuffix sv to = true →
  contents st !! FoldedKey to = None → contents st !! FoldedKey from = Some before → ParseDN (EDN before) = Ok from →
  renamed from to (contents st) m → m !! FoldedKey to = Some a → contents st1 = <[FoldedKey to := a']> m → same_member a a' → EDN a' = EDN a →
  ParseDN (EDN a) = Ok to → reads_back from to (contents st) → runPlugins plugins st1 ev = Ok st' →
  good st' ∧ derived None (contents st') ∧ moved_graph from to (contents st) (contents st').
Proof using All.
  cbv zeta. intros Hg [Hu Hn Hs Hd] Hg1 Hwf Hwt Htt Hout Hif Hit Hfree Hb Hpb Hren Ha E Hsa Hdn Hpa Hrb H. set (ev := MkWriteEvent _ _ _) in *.
  assert (Hsh : shifted from to (contents st) (contents st1)) by (rewrite E; by eapply renamed_shifted). apply runs_both in H as (st2 & H1 & H2).
  assert (Hev : move_of ev = Some (from, to)).
  { unfold move_of, ev. cbn [ev_Op ev_Before ev_After]. rewrite Hpb, Hdn, Hpa. destruct (beq _ _) eqn:Eb; [|done]. apply beq_true in Eb. congruence. }
  assert (Hback : ∀ k' e', contents st1 !! k' = Some e' → ∃ k e, contents st !! k = Some e ∧ same_member e e').
  { intros k' e' He'. destruct (proj2 Hsh k' e' He') as (k & e & d & ? & _ & _ & ?). by exists k, e. }
  destruct (derived_move contents ok sv flat order p r same_scopes scopes_managed scopes_wf scopes_distinct order_keys (contents st) st1 st2 st' ev from to)
    as (Hg' & Hd' & Hgr); [apply Hg | done | by eapply shifted_unique | done | done | done | done | | done | by rewrite ri_inScope_inSuffix | by rewrite ri_inScope_inSuffix | | | done | done |].
  - split; [done | done | done | done | | | |].
    + by apply (tree_rooted sv); [apply Hg | |].
    + exists m, a'. split_and!; [done | done | by right | congruence].
    + intros e He. left. split; [done|]. cbn. congruence.
    + intros k e d Hk Hp. rewrite inScope_inSuffix. rewrite E in Hk. apply lookup_insert_Some in Hk as [[<- <-]|[Hne Hk]]; [congruence|].
      apply Hren in Hk as (k0 & e0 & d0 & Hk0 & Hp0 & -> & ->). destruct (good_name contents ok sv st k0 e0 Hg Hk0) as (d' & Hp' & _ & _ & Hw0 & Ht0).
      assert (d' = d0) as -> by congruence. rewrite relocate_name in Hp by done. injection Hp as <-. unfold relocate.
      destruct (Rebase d0 from to) as [nd|] eqn:Er; [by eapply (Rebase_inSuffix from to d0) | by eapply Hn].
  - intros g e' x (He' & Hi & _) Hx Hc. rewrite inScope_inSuffix. destruct (proj2 Hsh g e' He') as (k & e & d & Hk & Hp & -> & (Hgi & Hm & _)%same_member_alike).
    cbn in Hc |- *. destruct (Rebase x from to) as [nd|] eqn:Er; [eapply (Rebase_inSuffix from to x); [done | done | by eapply memberDNs_wf | done..]|]. cbn in Hc |- *.
    rewrite <- inScope_inSuffix. apply (Hs k e x); [|by rewrite <- Hm | done]. apply (stored_group sv p scopes_managed scopes_wf); [apply Hg|]. by rewrite <- Hgi.
  - intros k e' w u x He' Hi Hw. destruct (Hback k e' He') as (k0 & e & Hk0 & Hse). pose proof (same_member_alike _ _ Hse) as (Hgi & _).
    apply (Hrb k0 e); [done | by rewrite <- Hgi|]. destruct Hse as [_ Hv]. rewrite !Forall_cons in Hv. destruct Hv as (V1 & V2 & _).
    unfold member_value in *. destruct u; congruence.
  - split_and!; [done..|]. intros y g. rewrite Hgr. apply (shifted_lists from to); [apply Hg | apply Hg1 | done].
Qed.

(** The name a ModifyDN asks for: its RDN, under the superior it gives, spelled as the
    entry there, or where the entry is. *)
Definition asked_name (m : gmap bytes Entry) (req : ModifyDNRequest) (dn to : DN) : Prop :=
  ∃ rdn s sup, ParseDN (NewRDN req) = Ok rdn ∧ Leaf to = Leaf rdn ∧ Parent to = Some s ∧ FoldedKey s = FoldedKey sup ∧
    (Parent dn = Some s ∨ ∃ k e, m !! k = Some e ∧ ParseDN (EDN e) = Ok s) ∧
    if (NewSuperior req =b? [])%ldap then Parent dn = Some sup else ParseDN (NewSuperior req) = Ok sup.

Lemma Rebase_key (from from' to d : DN) : wf_dn from → wf_dn from' → FoldedKey from = FoldedKey from' → Rebase d from to = Rebase d from' to.
Proof using UL.
  intros Hw Hw' Hk. pose proof Hk as Hf. apply key_fold in Hf; [|done..]. apply (f_equal (λ d, length (rdns d))) in Hf. rewrite !fold_length in Hf.
  unfold Rebase. by rewrite Hk, Hf.
Qed.

Lemma renamed_key (from from' to : DN) (m m' : gmap bytes Entry) :
  wf_dn from → wf_dn from' → FoldedKey from = FoldedKey from' → renamed from to m m' → renamed from' to m m'.
Proof using UL.
  intros Hw Hw' Hk Hr k' e'. rewrite (Hr k' e'). unfold relocate, relocate_entry.
  split; intros (k & e & d & ? & ? & ? & ?); exists k, e, d; [rewrite <- (Rebase_key from from') | rewrite (Rebase_key from from')]; done.
Qed.

(** Within one key, a move changes no key. *)
Lemma relocate_same (from to d : DN) : wf_dn from → wf_dn to → wf_dn d → FoldedKey to = FoldedKey from → FoldedKey (relocate from to d) = FoldedKey d.
Proof using UL.
  intros Hf Ht Hw Hk. unfold relocate. destruct (Rebase d from to) as [nd|] eqn:E; [|done]. cbn [from_option id].
  apply Rebase_spec_aux in E as (pre & suf & Hd & Hs & ->); [|done..]. apply key_fold in Hk; [|done..].
  destruct d as [l]. cbn [rdns] in Hd. subst l. rewrite !FoldedKey_String, !fold_app. f_equal. f_equal.
  unfold fold_dn in Hs, Hk. cbn [rdns] in Hs. congruence.
Qed.

Lemma child_outside (from to s : DN) : wf_dn from → Parent to = Some s → ¬ moved from s → FoldedKey to ≠ FoldedKey from → wf_dn to → ¬ moved from to.
Proof using UL.
  intros Hf Hp Hs Hne Ht [Hm|Hu]; [apply Hne; by apply key_fold|]. apply Hs. by apply (moved_parent from Hf to).
Qed.

Lemma parent_rdns (d s : DN) : Parent d = Some s → ∃ x, rdns d = x :: rdns s.
Proof using Type. destruct d as [[|x [|y l]]]; try done. intros [= <-]. by exists x. Qed.

Lemma child_inSuffix (d s : DN) : wf_dn s → Parent d = Some s → inSuffix sv s = true → inSuffix sv d = true.
Proof using Type.
  intros [Hne _] (x & Ed)%parent_rdns. unfold inSuffix. rewrite !UnderAny_elem. intros (b & Hb & H). exists b. split; [done|].
  apply orb_true_iff. right. apply IsDescendantOf_iff. apply orb_true_iff in H as [->%Equal_iff|(? & pre & _ & E)%IsDescendantOf_iff].
  - split; [done|]. by exists [x].
  - split; [done|]. exists (x :: pre). split; [done|]. by rewrite Ed, E.
Qed.

Lemma parent_inSuffix (d s : DN) : Parent d = Some s → inSuffix sv d = true → isSuffixRoot sv d = false → inSuffix sv s = true.
Proof using Type.
  intros (x & Ed)%parent_rdns. unfold inSuffix. rewrite !UnderAny_elem. intros (b & Hb & H) Hr. exists b. split; [done|].
  apply orb_true_iff in H as [H|(? & pre & Hne & E)%IsDescendantOf_iff].
  - exfalso. rewrite <- not_true_iff_false in Hr. apply Hr. unfold isSuffixRoot. apply existsb_exists. exists b. split; [by apply list_elem_of_In | done].
  - apply orb_true_iff. rewrite Ed in E. destruct pre as [|y [|z pre]]; [done | left | right].
    + apply Equal_iff. destruct s, b. cbn in *. congruence.
    + apply IsDescendantOf_iff. split; [done|]. exists (z :: pre). split; [done|]. cbn in E |- *. congruence.
Qed.

(** A rename to the name the entry has moves nothing. *)
Lemma shifted_self (st : St) (from : DN) (k : bytes) (a a' : Entry) :
  good st → all_unique (contents st) → wf_dn from → contents st !! k = Some a → same_member a a' → shifted from from (contents st) (<[k := a']> (contents st)).
Proof using UL.
  intros Hg Hu Hf Hk Hs.
  assert (Hkey : ∀ g e d, contents st !! g = Some e → ParseDN (EDN e) = Ok d → FoldedKey (relocate from from d) = g).
  { intros g e d He Hp. destruct (good_name contents ok sv st g e Hg He) as (d' & Hp' & <- & _ & Hw & _). assert (d' = d) as -> by congruence. by apply relocate_same. }
  assert (Hself : ∀ e, unique_names e → same_member e e) by (intros e He; by apply attributes_same_member).
  split.
  - intros g e d He Hp. rewrite (Hkey g e d) by done. destruct (decide (k = g)) as [<-|Hne].
    + exists a'. rewrite lookup_insert_eq. split; [done|]. congruence.
    + exists e. rewrite lookup_insert_ne by done. split; [done|]. by eapply Hself, Hu.
  - intros g e' [[<- <-]|[Hne He]]%lookup_insert_Some.
    + destruct (good_name contents ok sv st k a Hg Hk) as (d & Hp & _). exists k, a, d. by rewrite (Hkey k a d).
    + destruct (good_name contents ok sv st g e' Hg He) as (d & Hp & _). exists g, e', d. rewrite (Hkey g e' d) by done. split_and!; [done..|]. by eapply Hself, Hu.
Qed.

Lemma rename_request (now : bytes) (subj : Subject) (st : St) (req : ModifyDNRequest) :
  plain_request (RenameOf req) → good st → kept (contents st) →
  (∀ d s, s ∈ [MDN req; NewRDN req] → ParseDN s = Ok d → plain_attr (leaf d).1) →
  (∀ dn from e to, ParseDN (MDN req) = Ok dn → contents st !! FoldedKey dn = Some e → ParseDN (EDN e) = Ok from → asked_name (contents st) req dn to → wf_dn to → no_tab_end to →
     repairable from to (contents st)) →
  let out := handleModifyDN sv plugins reason abandoned commit_err now subj st req in
  out.2.2 = ResultSuccess →
  ∃ dn e from to, ParseDN (MDN req) = Ok dn ∧ contents st !! FoldedKey dn = Some e ∧ ParseDN (EDN e) = Ok from ∧ asked_name (contents st) req dn to ∧
    good out.1 ∧ derived None (contents out.1) ∧ moved_graph from to (contents st) (contents out.1).
Proof using All.
  intros Hpl Hg Hkept Hna Hrb. cbv zeta. intros Hok.
  destruct (rename_request_ends contents ok sv plugins reason flat abandoned commit_err now subj st req Hpl Hg)
    as [[? _]|(dn & rdn & sup & Hdn & Hin & Hnr & Hrdn & (q & Hq & Hsq) & before & to & Hb & [Tl Tw Tt Tf (s & Hp & Hs & Hws & Hns & _ & Hsrc)] & Hend)]; [done|].
  set (st' := (handleModifyDN _ _ _ _ _ _ _ _ _).1) in *. clearbody st'. assert (Hwd : wf_dn dn) by (by eapply ParseDN_wf_aux).
  destruct (good_name contents ok sv st _ before Hg Hb) as (from & Hfrom & Hkey & _ & Hwf & Htf).
  assert (Hask : asked_name (contents st) req dn to) by (exists rdn, s, q; split_and!; first [done | congruence]).
  exists dn, before, from, to. do 4 (split; [done|]). pose proof (kp_unique _ Hkept) as Hu. pose proof (kp_named _ Hkept) as Hn. pose proof (Hu _ _ Hb) as Hub.
  destruct Hend as [[Hto Hend]|(st1 & after & Hg1 & Hren & Ha & Hend)].
  { assert (to = from) as -> by congruence.
    destruct (store_renamed_step now subj st st' before before before (FoldedKey dn)) as (st2 & a' & Hg2 & E2 & Hsa & Hda & Hrun);
      [done | done | done | by apply attributes_same_member | done|].
    apply (respelled_kept st st2 st' before a' from from (FoldedKey dn)); [done | done | done | | | done | | | done].
    - rewrite E2. by apply (shifted_self st from (FoldedKey dn) before).
    - intros d Hw. by apply relocate_same.
    - by rewrite E2, lookup_insert_eq.
    - unfold move_of. cbn [ev_Op ev_Before ev_After]. rewrite Hda, Hfrom. by rewrite (proj2 (beq_true _ _) eq_refl). }
  assert (Hren' : renamed from to (contents st) (contents st1)) by (by apply (renamed_key dn)).
  assert (Hpa : ParseDN (EDN after) = Ok to).
  { assert (Er : relocate from to from = to) by (unfold relocate; by rewrite (Rebase_root from to)).
    assert (Ha' : contents st1 !! FoldedKey to = Some (relocate_entry from to from before)).
    { apply Hren'. exists (FoldedKey dn), before, from. by rewrite Er. }
    assert (after = relocate_entry from to from before) as -> by congruence. rewrite <- Er at 2. by apply relocate_name. }
  assert (Hua : unique_names after).
  { apply Hren' in Ha as (k & e & d & Hk & _ & _ & ->). eapply attributes_same_member; [by eapply Hu | by apply relocate_attributes]. }
  destruct (store_renamed_step now subj st1 st' before after (rename_values sv after (leaf dn).1 (leaf dn).2 (leaf rdn).1 (leaf rdn).2 (DeleteOldRDN req)) (FoldedKey to))
    as (st2 & a' & Hg2 & E2 & Hsa & Hda & Hrun); [done | done | apply rename_values_dn | | done|].
  { apply rename_values_same_member; [done | eapply Hna; [|done]; left | eapply Hna; [|done]; right; left]. }
  destruct (decide (FoldedKey to = FoldedKey from)) as [Hsame|Hdiff].
  - apply (respelled_kept st st2 st' before a' from to (FoldedKey dn)); [done | done | done | | | done | | | done].
    + rewrite E2. by eapply renamed_shifted.
    + intros d Hw. by apply relocate_same.
    + by rewrite E2, <- Hkey, <- Hsame, lookup_insert_eq.
    + unfold move_of. cbn [ev_Op ev_Before ev_After]. rewrite Hda, Hfrom, Hpa. by rewrite Hsame, (proj2 (beq_true _ _) eq_refl).
  - apply (moved_kept st st2 st' (contents st1) before after a' from to); try done.
    + eapply child_outside; [done | exact Hp | | done | done]. apply key_fold in Hkey; [|done..].
      intros [Hm|Hm]; apply Hns; [left; congruence | right; by rewrite <- (under_fold from dn s s)].
    + by eapply Hn.
    + eapply child_inSuffix; [exact Hws | exact Hp|]. destruct Hsrc as [Hsrc|(k & e & Hk & He)]; [by eapply parent_inSuffix | by eapply Hn].
    + destruct Tf as [Tf|]; [congruence | done].
    + by rewrite Hkey.
    + apply repairable_reads_back; [done..|]. by eapply Hrb.
Qed.

(** ** Fixup *)

Lemma rfold_app {A E S} (f : S → A → res E S) (l1 l2 : list A) (s s1 s2 : S) :
  rfold f s l1 = Ok s1 → rfold f s1 l2 = Ok s2 → rfold f s (l1 ++ l2) = Ok s2.
Proof using Type.
  revert s. induction l1 as [|a l1 IH]; intros s; cbn [rfold app]; [by intros [= ->]|]. intros (s' & -> & H)%bind_ok H2. cbn. by apply (IH s').
Qed.

Definition parsed_name (e : Entry) : option DN := res_opt (ParseDN (EDN e)).

Lemma fixup_entries (idx : groupIndex) (es : list Entry) (st : St) :
  rfold (fixup_entry p idx) st es = rfold (recompute p idx) st (omap parsed_name es).
Proof using Type.
  revert st. induction es as [|e es IH]; intros st; [done|]. cbn [rfold omap list_omap].
  assert (Hf : fixup_entry p idx st e = match parsed_name e with Some d => recompute p idx st d | None => Ok st end).
  { unfold fixup_entry, parsed_name. by destruct (ParseDN (EDN e)). }
  rewrite Hf. destruct (parsed_name e) as [d|]; cbn [rfold mbind res_bind]; [|apply IH]. destruct (recompute p idx st d); [apply IH | done].
Qed.

(** Scope after scope, every managed entry is recomputed. *)
Lemma fixup_scopes (idx : groupIndex) (m : gmap bytes Entry) (ss : list DN) (st st' : St) :
  faithful_index p None m idx → (∀ k e, m !! k = Some e → ∃ d, ParseDN (EDN e) = Ok d ∧ EDN e = String d) →
  good st → all_unique (contents st) → (∀ s, s ∈ ss → s ∈ mo_scopes p) →
  rfold (λ st suf, entries ← lift (subtree_or_none (ut_read st) suf); rfold (fixup_entry p idx) st entries) st ss = Ok st' →
  ∃ ds, rfold (recompute p idx) st ds = Ok st' ∧
    ∀ k e d s, s ∈ ss → contents st !! k = Some e → ParseDN (EDN e) = Ok d → moved s d → k ∈ FoldedKey <$> ds.
Proof using CL SL UL flat scopes_managed scopes_wf.
  intros Hidx Hnames. revert st. induction ss as [|s ss IH]; intros st Hg Hu Hss; cbn [rfold].
  { intros [= ->]. exists []. split; [done|]. by intros k e d s ?%not_elem_of_nil. }
  intros (st1 & H1 & H)%bind_ok. assert (Hs : s ∈ mo_scopes p) by (apply Hss; by left).
  destruct (subtree_entries contents ok sv flat st s Hg (scopes_wf s Hs)) as (l & Hl & _ & Hin); [by apply (scope_inSuffix sv p (λ s, proj1 (scopes_managed s)))|].
  rewrite Hl in H1. cbn [lift mbind res_bind] in H1. rewrite fixup_entries in H1.
  destruct (recompute_all contents ok sv p None m idx Hidx Hnames _ st st1 Hg Hu H1) as [Hg1 Hre].
  destruct (IH st1) as (ds & Hds & Hall); [done | by eapply rederived_unique | intros; apply Hss; by right | done|].
  exists (omap parsed_name l ++ ds). split; [by eapply rfold_app|]. intros k e d s' Hs' Hk Hd Hm. rewrite fmap_app, elem_of_app.
  destruct (good_name contents ok sv st k e Hg Hk) as (d' & Hd' & Hkd & _). assert (d' = d) as -> by congruence.
  apply elem_of_cons in Hs' as [->|Hs']; [left | right].
  - apply list_elem_of_fmap. exists d. split; [done|]. apply list_elem_of_omap. exists e. split; [apply Hin; by exists k, d|]. unfold parsed_name. by rewrite Hd.
  - specialize (Hre k). rewrite Hk in Hre. destruct (contents st1 !! k) as [e1|] eqn:E1; [|done]. destruct Hre as (Hse & _).
    apply (Hall k e1 d s'); [done | done | by rewrite (se_dn _ _ Hse) | done].
Qed.

Lemma fixup_derived (st st' : St) :
  good st → all_unique (contents st) → mo_fixup p st = Ok st' →
  good st' ∧ derived None (contents st') ∧
  (∀ k, match contents st !! k, contents st' !! k with Some e, Some e' => same_entry e e' | None, None => True | _, _ => False end) ∧
  ∀ y g, lists None (contents st') y g ↔ lists None (contents st) y g.
Proof using CL SL UL flat scopes_managed scopes_wf.
  intros Hg Hu H. unfold mo_fixup in H. apply bind_ok in H as (idx & Hidx & H).
  destruct (indexGroups_spec contents ok sv flat p (λ s, proj1 (scopes_managed s)) scopes_wf st None Hg) as (idx' & Hidx' & Hf). assert (idx' = idx) as -> by congruence.
  assert (Hnames : ∀ k e, contents st !! k = Some e → ∃ d, ParseDN (EDN e) = Ok d ∧ EDN e = String d).
  { intros k e Hk. destruct (good_name contents ok sv st k e Hg Hk) as (d & ? & _ & ? & _). by exists d. }
  destruct (fixup_scopes idx (contents st) (mo_scopes p) st st' Hf Hnames Hg Hu) as (ds & Hds & Hall); [done..|].
  destruct (recompute_all contents ok sv p None (contents st) idx Hf Hnames ds st st' Hg Hu Hds) as [Hg' Hre]. split_and!; [done| | |].
  - eapply rederived_derived; [exact Hre|]. intros k e d Hk Hd (s & Hs & Hm) Hks. exfalso. apply Hks. by eapply (Hall k e d s).
  - intros k. specialize (Hre k). destruct (contents st !! k), (contents st' !! k); try done. apply Hre.
  - intros y g. symmetry. by eapply rederived_lists.
Qed.
End requests.
