(* ===== verification/PluginSystem.v ===== *)
(** The plugins over the persistent store, and what a directory with groups can rely on:
    [memberOf] is derived from the groups after every write, references follow deletes
    and renames, and the fixup derives everything afresh. *)

From stdpp Require Import sorting.
From S2P Require Import Prelude GoStrings GoText DN DNFacts Message RenameFacts Ber StoreCodec Attr Schema Matching FilterEval StoreIface Bolt Aci Server Base64 Paging PagingFacts Synthetic Search SearchFacts Write FakeStore WriteOps WriteFacts TreeFacts GoTime PwHash Password PasswordFacts Credentials Store StoreWrite StoreFacts StoreWalk StoreRename StoreRefine StoreOpen StoreEqual StoreSystem MemberOf MemberOfSpec MemberOfWrites RefInt PluginFacts PluginWrites.
Local Open Scope nat_scope.

(** * The persistent store under the plugins *)

#[export] Instance store_subtree_laws {U : Unicode} {UL : UnicodeLaws U} {US : UnicodeSpaces U} {BL : BoltLib} {BLL : BoltLaws BL}
    (ctx : nat → bool) (calm : ∀ n, ctx n = false) : SubtreeLaws (store_tx ctx) contents store_ok.
Proof.
  constructor. intros db b Hok Hw Hr. pose proof (rooted_linked db Hok b Hr) as Hl. cbn.
  destruct (contents db !! FoldedKey b) as [root|] eqn:Hroot.
  - destruct (Subtree_aux db Hok ctx calm b root Hw Hl Hroot) as (l & Hs & Hp). exists l. split; [done|].
    apply node_contents in Hroot as (n & d & N); [|done]. pose proof (node_folds _ _ _ _ _ N) as Hk. pose proof (node_wf _ _ _ _ _ N) as Hwd.
    split; [rewrite Hp; eapply (subtree_nodup db Hok); [done|]; by rewrite (node_name_of _ _ _ _ _ N)|].
    intros e. rewrite Hp, elem_of_cons, (below_of_elem db Hok). split.
    + intros [->|(k & n' & d' & N' & Hu)].
      * exists (FoldedKey b), d. split_and!; [apply node_contents; [done|]; by exists n, d | apply (node_name _ _ _ _ _ N) | left; by apply key_fold].
      * exists k, d'. split_and!; [apply node_contents; [done|]; by exists n', d' | apply (node_name _ _ _ _ _ N') | by right].
    + intros (k & d' & He & Hd' & [Hf|Hu]).
      * left. apply node_contents in He as (n' & d'' & N'); [|done]. assert (d'' = d') as -> by (pose proof (node_name _ _ _ _ _ N'); congruence).
        assert (Ek : k = FoldedKey b) by (rewrite <- (node_folds _ _ _ _ _ N'); apply key_fold; [by eapply node_wf | done..]). subst k.
        by destruct (node_det _ _ _ _ _ _ _ _ Hok N N') as (_ & -> & _).
      * right. apply node_contents in He as (n' & d'' & N'); [|done]. assert (d'' = d') as -> by (pose proof (node_name _ _ _ _ _ N'); congruence).
        by exists k, n', d'.
  - unfold store_Subtree, alive. rewrite calm. apply contents_none in Hroot; [|done]. cbn. by rewrite Hroot.
Qed.

(** * A directory with groups *)

(** A boolean test of every entry of a directory. *)
Lemma every_entry {A} (f : bytes → A → bool) (m : gmap bytes A) :
  forallb (λ kv : bytes * A, f kv.1 kv.2) (map_to_list m) = true → ∀ k e, m !! k = Some e → f k e = true.
Proof.
  rewrite forallb_forall. intros H k e Hk. apply (H (k, e)). by apply list_elem_of_In, elem_of_map_to_list.
Qed.

(** The names of the sample, the suffix first: two units, a group of the second, a group
    of that group, and a group that lists it with a bit string. *)
Definition group_attrs (cn member : bytes) : list Attribute :=
  [MkAttribute (B "objectClass") [B "top"; B "groupOfNames"]; MkAttribute (B "cn") [cn]; MkAttribute (B "member") [member]].

Definition unique_attrs (cn member : bytes) : list Attribute :=
  [MkAttribute (B "objectClass") [B "top"; B "groupOfUniqueNames"]; MkAttribute (B "cn") [cn]; MkAttribute (B "uniqueMember") [member]].

Definition club_calls : list write_call := sample_call <$>
  [AddOf (B "cn=g,dc=test") (group_attrs (B "g") (B "OU=c,ou=b,dc=test"));
   AddOf (B "cn=h,dc=test") (group_attrs (B "h") (B "cn=g,dc=test"));
   AddOf (B "cn=u,dc=test") (unique_attrs (B "u") (B "ou=c,ou=b,dc=test#'01'B"))].

Definition memberof_p : MemberOfPlugin := MkMemberOf (the_dn (B "dc=test")) [] true.

Definition refint_p : RefIntPlugin := MkRefInt (the_dn (B "dc=test")) [].

Definition listed (m : gmap bytes DN) : list bytes := (map_to_list m).*1.

Definition toy_plugins : list (DB (BL := toy_bolt) → WriteEvent → res write_err (DB (BL := toy_bolt))) :=
  [mo_AfterWrite (U := ascii_unicode) (UT := toy_tx) listed memberof_p; ri_AfterWrite (U := ascii_unicode) (UT := toy_tx) refint_p].

(** The groups are added with no plugins at work, so nothing is derived yet. *)
Definition bare_club : DB (BL := toy_bolt) :=
  foldl (handle_write (U := ascii_unicode) (L := toy_ber) (UT := toy_tx) sample_sv [] (λ _, [])) filled_db club_calls.

Definition club : DB (BL := toy_bolt) := (mo_Fixup (U := ascii_unicode) (UT := toy_tx) None memberof_p bare_club).1.

(** The entries that are in groups, by key, with their [memberOf] values. *)
Definition memberships_shown (db : DB (BL := toy_bolt)) : list (bytes * list bytes) :=
  filter (λ kv, kv.2 ≠ []) ((λ kv : bytes * Entry, (kv.1, Values (U := ascii_unicode) kv.2 (B "memberOf"))) <$> map_to_list (contents (BL := toy_bolt) db)).

Example club_bare : memberships_shown bare_club = [].
Proof. vm_compute. reflexivity. Qed.

Example club_shown : memberships_shown club =
  [(B "cn=g,dc=test", [B "cn=h,dc=test"]); (B "ou=c,ou=b,dc=test", [B "cn=g,dc=test"; B "cn=h,dc=test"; B "cn=u,dc=test"])].
Proof. vm_compute. reflexivity. Qed.

(** How the plugins are set up: both with the managed suffixes, which are not nested,
    and the visits of a map reach each key once. *)
Record configured {U : Unicode} (sv : Server) (order : gmap bytes DN → list bytes) (p : MemberOfPlugin) (r : RefIntPlugin) : Prop := {
  cf_flat : flat_suffixes sv;
  cf_same : ri_scopes r = mo_scopes p;
  cf_managed : ∀ s, s ∈ mo_scopes p ↔ s ∈ suffixes sv;
  cf_wf : ∀ s, s ∈ mo_scopes p → wf_dn s;
  cf_distinct : NoDup (FoldedKey <$> mo_scopes p);
  cf_order : ∀ m, order m ≡ₚ (map_to_list m).*1;
}.

Lemma toy_configured : configured (U := ascii_unicode) sample_sv listed memberof_p refint_p.
Proof.
  split; [exact sample_flat | reflexivity | | | |].
  - intros s. reflexivity.
  - intros s ->%list_elem_of_singleton. apply (ParseDN_wf_aux (UL := ascii_unicode_laws) (B "dc=test")). vm_compute. reflexivity.
  - apply NoDup_singleton.
  - intros m. reflexivity.
Qed.

Abbreviation toy_laws := (store_laws (UL := ascii_unicode_laws) (US := ascii_unicode_spaces) (BLL := toy_bolt_laws) never eq_refl).
Abbreviation toy_subtree := (store_subtree_laws (UL := ascii_unicode_laws) (US := ascii_unicode_spaces) (BLL := toy_bolt_laws) never (λ _, eq_refl)).
Abbreviation toy_contents := (contents (BL := toy_bolt)).
Abbreviation toy_good := (good (U := ascii_unicode) toy_contents toy_store_ok sample_sv).

(** Attribute names that differ, tested. *)
Fixpoint unique_check (l : list Attribute) : bool :=
  match l with
  | [] => true
  | a :: l => forallb (λ b, negb (equal_fold (U := ascii_unicode) (Name a) (Name b))) l && unique_check l
  end.

Lemma unique_check_sound (e : Entry) : unique_check (Attributes e) = true → unique_names (U := ascii_unicode) e.
Proof.
  unfold unique_names. induction (Attributes e) as [|a l IH]; [constructor|]. cbn. intros [Ha Hl]%andb_true_iff. constructor; [by apply IH|].
  apply Forall_forall. intros b Hb%list_elem_of_In. rewrite forallb_forall in Ha. by apply negb_true_iff, Ha.
Qed.

Lemma plain_add (n : bytes) (attrs : list Attribute) (d : DN) :
  ParseDN (U := ascii_unicode) n = Ok d → forallb (λ r, bool_decide (last (rdn_value r) ≠ Some c_tab)) (rdns d) = true →
  plain_request (U := ascii_unicode) (AddOf n attrs).
Proof.
  intros Hd H d' Hd'. assert (d' = d) as -> by congruence. unfold no_tab_end. apply Forall_forall. intros r Hr%list_elem_of_In.
  rewrite forallb_forall in H. specialize (H r Hr). by apply bool_decide_eq_true in H.
Qed.

Lemma bare_good : toy_good bare_club.
Proof.
  apply (writes_keep_order (UL := ascii_unicode_laws) toy_contents toy_store_ok (CL := toy_laws) sample_sv []).
  - exact sample_flat.
  - constructor.
  - constructor; [|constructor; [|constructor; [|constructor]]]; (eapply plain_add; [vm_compute; reflexivity | vm_compute; reflexivity]).
  - exact filled_ok.
Qed.

Lemma bare_unique : all_unique (U := ascii_unicode) (toy_contents bare_club).
Proof.
  intros k e Hk. apply unique_check_sound. revert k e Hk. apply (every_entry (λ _ e, unique_check (Attributes e))). vm_compute. reflexivity.
Qed.

Lemma club_runs : mo_Fixup (U := ascii_unicode) (UT := toy_tx) None memberof_p bare_club = (club, None).
Proof.
  assert (H : (mo_Fixup (U := ascii_unicode) (UT := toy_tx) None memberof_p bare_club).2 = None) by (vm_compute; reflexivity).
  rewrite <- H. apply surjective_pairing.
Qed.

(** The same entries, up to [memberOf] and object classes. *)
Definition same_but_memberOf {U : Unicode} (m m' : gmap bytes Entry) : Prop :=
  ∀ k, match m !! k, m' !! k with Some e, Some e' => same_entry e e' | None, None => True | _, _ => False end.

Lemma Fixup_aux {U : Unicode} {UL : UnicodeLaws U} {St : Type} {UT : UpdateTx St} (contents : St → gmap bytes Entry) (ok : St → Prop)
    {CL : UpdateTxLaws UT contents ok} {SL : SubtreeLaws UT contents ok} (sv : Server) (order : gmap bytes DN → list bytes)
    (p : MemberOfPlugin) (r : RefIntPlugin) (st st' : St) :
  configured sv order p r → good contents ok sv st → all_unique (contents st) → mo_Fixup None p st = (st', None) →
  good contents ok sv st' ∧ derived p None (contents st') ∧
  same_but_memberOf (contents st) (contents st').
Proof.
  intros [F S M W D O] Hg Hu H. unfold mo_Fixup, Update in H. destruct (mo_fixup p st) as [x|] eqn:E; [|done]. injection H as ->.
  destruct (fixup_derived contents ok sv F p M W st st' Hg Hu E) as (? & ? & ? & _). by split_and!.
Qed.

Lemma club_fixed : toy_good club ∧ derived (U := ascii_unicode) memberof_p None (toy_contents club) ∧
  same_but_memberOf (U := ascii_unicode) (toy_contents bare_club) (toy_contents club).
Proof.
  exact (Fixup_aux (UL := ascii_unicode_laws) toy_contents toy_store_ok (CL := toy_laws) (SL := toy_subtree) sample_sv listed memberof_p refint_p
    bare_club club toy_configured bare_good bare_unique club_runs).
Qed.

Lemma same_unique {U : Unicode} (m m' : gmap bytes Entry) : same_but_memberOf m m' → all_unique m'.
Proof. intros H k e Hk. specialize (H k). rewrite Hk in H. destruct (m !! k); [|done]. apply (se_unique _ _ H). Qed.

(** Tests of the names of entries and of members. *)
Definition named_check {U : Unicode} (sv : Server) (e : Entry) : bool :=
  match ParseDN (EDN e) with Ok d => inSuffix sv d | Err _ => true end.

Definition spelled_check {U : Unicode} (p : MemberOfPlugin) (e : Entry) : bool := forallb (mo_inScope p) (memberDNs e).

Lemma kept_check {U : Unicode} (sv : Server) (p : MemberOfPlugin) (m : gmap bytes Entry) :
  all_unique m → derived p None m → forallb (λ kv : bytes * Entry, named_check sv kv.2 && spelled_check p kv.2) (map_to_list m) = true → kept sv p m.
Proof.
  intros Hu Hd H. pose proof (every_entry (λ _ e, named_check sv e && spelled_check p e) m H) as Hc. split; [done | | | done].
  - intros k e d Hk Hp. apply Hc, andb_true_iff in Hk as [Hk _]. unfold named_check in Hk. by rewrite Hp in Hk.
  - intros k e x (Hk & _) Hx _. apply Hc, andb_true_iff in Hk as [_ Hk]. unfold spelled_check in Hk. rewrite forallb_forall in Hk. by apply Hk, list_elem_of_In.
Qed.

Lemma club_kept : kept (U := ascii_unicode) sample_sv memberof_p (toy_contents club).
Proof.
  apply (kept_check (U := ascii_unicode) sample_sv memberof_p (toy_contents club)).
  - exact (same_unique (U := ascii_unicode) (toy_contents bare_club) (toy_contents club) (proj2 (proj2 club_fixed))).
  - exact (proj1 (proj2 club_fixed)).
  - vm_compute. reflexivity.
Qed.

(** * Properties *)

(** The plugins of the engine: the password policy, MemberOf and referential integrity. *)
Inductive shipped {U : Unicode} {St : Type} {UT : UpdateTx St} (order : gmap bytes DN → list bytes) (p : MemberOfPlugin) (r : RefIntPlugin) :
    (St → WriteEvent → res write_err St) → Prop :=
| shipped_policy (policy : PasswordPolicy) (hasher : PasswordHasher) (now : Z) : shipped order p r (pwpolicy policy hasher now)
| shipped_memberOf : shipped order p r (mo_AfterWrite order p)
| shipped_refint : shipped order p r (ri_AfterWrite r).

Lemma shipped_keeps_tree {U : Unicode} {UL : UnicodeLaws U} {St : Type} {UT : UpdateTx St} (contents : St → gmap bytes Entry) (ok : St → Prop)
    {CL : UpdateTxLaws UT contents ok} {SL : SubtreeLaws UT contents ok} (sv : Server) (order : gmap bytes DN → list bytes)
    (p : MemberOfPlugin) (r : RefIntPlugin) (plugin : St → WriteEvent → res write_err St) :
  configured sv order p r → shipped order p r plugin → tree_plugin contents ok sv plugin.
Proof.
  intros [F S M W D O] []; [by apply (engine_keeps_tree contents ok) | by apply (memberof_keeps_tree contents ok sv) | by apply (refint_keeps_tree contents ok sv F p r)].
Qed.

(** C2.  The directory stays consistent: from a file that does not exist, over managed
    suffixes that are not nested, with any of the engine's plugins in any order, any
    sequence of plain Add, Modify, Delete and ModifyDN requests handled against the
    persistent store, whoever sends them and whether or not they succeed, leaves every
    bucket consistent with the entries and every entry below a stored parent, so
    [VerifyIndexes] finds nothing to report.  A request is plain if the names it gives end
    no value in a tab and the two foldings of names agree about a new superior
    ([plain_request]); [DNFacts.tab_value_not_stable] and [TreeFacts.move_into_subtree]
    are what the others can do. *)
Theorem history_consistent {U : Unicode} {UL : UnicodeLaws U} {US : UnicodeSpaces U} {BL : BoltLib} {BLL : BoltLaws BL} {L : BerLib}
    (ctx : nat → bool) (sv : Server) (order : gmap bytes DN → list bytes) (p : MemberOfPlugin) (r : RefIntPlugin)
    (plugins : list (DB → WriteEvent → res write_err DB)) (reason : schema_violation → bytes) (cs : list write_call) :
  (∀ n, ctx n = false) → configured sv order p r → Forall (shipped (UT := store_tx ctx) order p r) plugins →
  Forall (λ c, plain_request (wc_request c)) cs →
  ∃ db, Open no_file = Ok db ∧
    let db' := foldl (handle_write (UT := store_tx ctx) sv plugins reason) db cs in
    store_ok db' ∧ tree_ok sv (contents db') ∧ VerifyIndexes db' = Ok ().
Proof.
  intros Hctx Hcf Hps. apply history_aux; [done | apply Hcf|]. eapply Forall_impl; [exact Hps|]. intros pl.
  by apply (shipped_keeps_tree contents store_ok (CL := store_laws ctx (Hctx 0)) (SL := store_subtree_laws ctx Hctx)).
Qed.

(** Two units, groups of three kinds, a policy and both plugins. *)
Definition all_plugins : list (DB (BL := toy_bolt) → WriteEvent → res write_err (DB (BL := toy_bolt))) :=
  pwpolicy (U := ascii_unicode) (UT := toy_tx) strict_policy toy_hasher 0%Z :: toy_plugins.

Definition all_calls : list write_call := sample_call (AddOf (B "dc=test") (Attributes suffix_entry)) :: sample_calls ++ club_calls.

Lemma all_shipped : Forall (shipped (U := ascii_unicode) (UT := toy_tx) listed memberof_p refint_p) all_plugins.
Proof. repeat constructor. Qed.

Lemma club_calls_plain : Forall (λ c, plain_request (U := ascii_unicode) (wc_request c)) club_calls.
Proof. repeat constructor; (eapply plain_add; [vm_compute; reflexivity | vm_compute; reflexivity]). Qed.

Lemma all_calls_plain : Forall (λ c, plain_request (U := ascii_unicode) (wc_request c)) all_calls.
Proof.
  constructor; [eapply plain_add; [vm_compute; reflexivity | vm_compute; reflexivity]|]. apply Forall_app. split; [exact sample_plain | exact club_calls_plain].
Qed.

Lemma history_consistent_witness :
  ∃ db, Open (U := ascii_unicode) (BL := toy_bolt) no_file = Ok db ∧
    let db' := foldl (handle_write (U := ascii_unicode) (L := toy_ber) (UT := toy_tx) sample_sv all_plugins (λ _, [])) db all_calls in
    toy_store_ok db' ∧ tree_ok (U := ascii_unicode) sample_sv (contents (BL := toy_bolt) db') ∧
    VerifyIndexes (U := ascii_unicode) (BL := toy_bolt) db' = Ok ().
Proof.
  exact (history_consistent (U := ascii_unicode) (UL := ascii_unicode_laws) (US := ascii_unicode_spaces) (BL := toy_bolt) (BLL := toy_bolt_laws)
    (L := toy_ber) never sample_sv listed memberof_p refint_p all_plugins (λ _, []) all_calls (λ _, eq_refl) toy_configured all_shipped all_calls_plain).
Defined.

(** C15.  The fixup derives [memberOf] afresh: whatever the values were, when it commits,
    every managed entry's [memberOf] names exactly the groups that list it, through other
    groups too where nesting is on, and of every entry nothing but [memberOf] and the
    object classes has changed. *)
Theorem Fixup_derives {U : Unicode} {UL : UnicodeLaws U} {St : Type} {UT : UpdateTx St} (contents : St → gmap bytes Entry) (ok : St → Prop)
    {CL : UpdateTxLaws UT contents ok} {SL : SubtreeLaws UT contents ok} (sv : Server) (order : gmap bytes DN → list bytes)
    (p : MemberOfPlugin) (r : RefIntPlugin) (st st' : St) :
  configured sv order p r → good contents ok sv st → all_unique (contents st) → mo_Fixup None p st = (st', None) →
  good contents ok sv st' ∧ derived p None (contents st') ∧
  same_but_memberOf (contents st) (contents st').
Proof. by apply (Fixup_aux contents ok sv order p r). Qed.

Lemma Fixup_derives_witness : derived (U := ascii_unicode) memberof_p None (toy_contents club).
Proof.
  exact (proj1 (proj2 (Fixup_derives (UL := ascii_unicode_laws) toy_contents toy_store_ok (CL := toy_laws) (SL := toy_subtree) sample_sv listed memberof_p refint_p
    bare_club club toy_configured bare_good bare_unique club_runs))).
Defined.

(** C12.  [memberOf] stays derived: when a write changed one entry, deleted one or moved a
    subtree of a directory whose [memberOf] values were derived from its groups, they are
    again once the MemberOf and referential integrity plugins have run.  What [written]
    asks of the write: groups name covered members by a name spelled as the suffix is; the
    write leaves the [memberOf] of an entry that stays alone, and an entry it adds has
    none and is listed by no group yet; the two comparisons of names, [EqualFold] and
    the folded key, agree about members and a deleted name; and the names a move rewrites
    print back ([repairable]).  Outside these the code loses track, as
    [respelled_member_missed], [listed_before_added], [dotted_left_dangling] and
    [hash_renamed_lost] show. *)
Theorem memberOf_derived {U : Unicode} {UL : UnicodeLaws U} {St : Type} {UT : UpdateTx St} (contents : St → gmap bytes Entry) (ok : St → Prop)
    {CL : UpdateTxLaws UT contents ok} {SL : SubtreeLaws UT contents ok} (sv : Server) (order : gmap bytes DN → list bytes)
    (p : MemberOfPlugin) (r : RefIntPlugin) (m0 : gmap bytes Entry) (st st' : St) (ev : WriteEvent) :
  configured sv order p r → tree_ok sv m0 → spelled p None m0 → derived p None m0 →
  good contents ok sv st → all_unique (contents st) → written sv p r m0 ev (contents st) →
  runPlugins [mo_AfterWrite order p; ri_AfterWrite r] st ev = Ok st' →
  good contents ok sv st' ∧ derived p None (contents st').
Proof. intros [F S M W D O] Ht Hs Hd Hg Hu Hw H. by apply (written_derived contents ok sv F order p r S M W D O m0 st st' ev). Qed.

(** C13.  A delete through the server takes the entry's name out of every group, in a
    directory the plugins have kept ([kept]: [memberOf] is derived, entries and covered
    members are spelled below a suffix as it is configured) and where no member is equal
    to the deleted name under one of [EqualFold] and the folded key only ([agrees_on],
    without which [dotted_left_dangling]): on success the entry is gone, the other entries
    list and are listed as before and nobody lists the deleted one, and [memberOf] is
    derived from what is left. *)
Theorem delete_follows {U : Unicode} {UL : UnicodeLaws U} {L : BerLib} {St : Type} {UT : UpdateTx St} (contents : St → gmap bytes Entry) (ok : St → Prop)
    {CL : UpdateTxLaws UT contents ok} {SL : SubtreeLaws UT contents ok} (sv : Server) (order : gmap bytes DN → list bytes)
    (p : MemberOfPlugin) (r : RefIntPlugin) (reason : schema_violation → bytes) (abandoned : bool) (commit_err : option store_err)
    (subj : Subject) (dn : bytes) (st : St) :
  configured sv order p r → good contents ok sv st → kept sv p (contents st) →
  (∀ d e gone, ParseDN dn = Ok d → contents st !! FoldedKey d = Some e → ParseDN (EDN e) = Ok gone → agrees_on gone (contents st)) →
  let out := handleDelete sv [mo_AfterWrite order p; ri_AfterWrite r] reason abandoned commit_err subj st dn in
  out.2.2 = ResultSuccess →
  ∃ d e, ParseDN dn = Ok d ∧ contents st !! FoldedKey d = Some e ∧ good contents ok sv out.1 ∧ derived p None (contents out.1) ∧
    contents out.1 !! FoldedKey d = None ∧
    ∀ y g, lists p None (contents out.1) y g ↔ lists p None (contents st) y g ∧ y ≠ FoldedKey d ∧ g ≠ FoldedKey d.
Proof. intros [F S M W D O]. by apply delete_request. Qed.

(** C14.  A rename through the server carries the memberships along: on success the graph
    of the groups is what it was with the move applied to both ends of every edge, for the
    renamed entry and everything below it, members and unique members alike, and
    [memberOf] is derived from it.  The directory is one the plugins have kept ([kept]),
    the naming attributes are none the plugins read, and the names are such that printing
    does not lose them ([plain_request], [repairable]): no value ends in a tab, the
    foldings agree on a new superior, and a name written into a unique member has a hash
    sign at most at the start of a value, without which [hash_renamed_lost]. *)
Theorem rename_follows {U : Unicode} {UL : UnicodeLaws U} {L : BerLib} {St : Type} {UT : UpdateTx St} (contents : St → gmap bytes Entry) (ok : St → Prop)
    {CL : UpdateTxLaws UT contents ok} {SL : SubtreeLaws UT contents ok} (sv : Server) (order : gmap bytes DN → list bytes)
    (p : MemberOfPlugin) (r : RefIntPlugin) (reason : schema_violation → bytes) (abandoned : bool) (commit_err : option store_err)
    (now : bytes) (subj : Subject) (st : St) (req : ModifyDNRequest) :
  configured sv order p r → plain_request (RenameOf req) → good contents ok sv st → kept sv p (contents st) →
  (∀ d s, s ∈ [MDN req; NewRDN req] → ParseDN s = Ok d → plain_attr (leaf d).1) →
  (∀ dn from e to, ParseDN (MDN req) = Ok dn → contents st !! FoldedKey dn = Some e → ParseDN (EDN e) = Ok from → asked_name (contents st) req dn to →
     wf_dn to → no_tab_end to → repairable from to (contents st)) →
  let out := handleModifyDN sv [mo_AfterWrite order p; ri_AfterWrite r] reason abandoned commit_err now subj st req in
  out.2.2 = ResultSuccess →
  ∃ dn e from to, ParseDN (MDN req) = Ok dn ∧ contents st !! FoldedKey dn = Some e ∧ ParseDN (EDN e) = Ok from ∧ asked_name (contents st) req dn to ∧
    good contents ok sv out.1 ∧ derived p None (contents out.1) ∧ moved_graph p from to (contents st) (contents out.1).
Proof. intros [F S M W D O]. by apply rename_request. Qed.

(** The first group is changed, to what it was. *)
Definition club_group : Entry := default suffix_entry (toy_contents club !! B "cn=g,dc=test").

Definition club_event : WriteEvent := MkWriteEvent WriteModify (Some club_group) (Some club_group).

Definition club_after : DB (BL := toy_bolt) := default club (res_opt (runPlugins toy_plugins club club_event)).

Lemma club_group_there : toy_contents club !! B "cn=g,dc=test" = Some club_group.
Proof. vm_compute. reflexivity. Qed.

Lemma ok_default {A E} (r : res E A) (a : A) : (match r with Ok _ => true | Err _ => false end) = true → r = Ok (default a (res_opt r)).
Proof. by destruct r. Qed.

(** A Modify that leaves an entry as it was. *)
Lemma unchanged_written {U : Unicode} (sv : Server) (p : MemberOfPlugin) (r : RefIntPlugin) (m : gmap bytes Entry) (k : bytes) (e : Entry) :
  m !! k = Some e → spelled p None m → written sv p r m (MkWriteEvent WriteModify (Some e) (Some e)) m.
Proof.
  intros Hk Hs. apply (written_entry sv p r m _ m k); [done | | done]. split; [done | | | |].
  - intros g _. destruct (m !! g); [unfold alike; by split_and! | done].
  - intros e' He. left. split; [done|]. cbn. congruence.
  - intros e' He. right. split; [done|]. cbn. congruence.
  - intros e' He. by rewrite He.
Qed.

Lemma memberOf_derived_witness : derived (U := ascii_unicode) memberof_p None (toy_contents club_after).
Proof.
  exact (proj2 (memberOf_derived (UL := ascii_unicode_laws) toy_contents toy_store_ok (CL := toy_laws) (SL := toy_subtree) sample_sv listed memberof_p refint_p
    (toy_contents club) club club_after club_event toy_configured (proj2 (proj1 club_fixed)) (kp_spelled _ _ _ club_kept) (kp_derived _ _ _ club_kept)
    (proj1 club_fixed) (kp_unique _ _ _ club_kept)
    (unchanged_written (U := ascii_unicode) sample_sv memberof_p refint_p _ _ _ club_group_there (kp_spelled _ _ _ club_kept))
    (ok_default (runPlugins toy_plugins club club_event) club ltac:(vm_compute; reflexivity)))).
Defined.

(** The unit in the group is deleted. *)
Definition club_deleted : DB (BL := toy_bolt) * (list response * Z) :=
  handleDelete (U := ascii_unicode) (UT := toy_tx) sample_sv toy_plugins (λ _, []) false None (MkSubject (MkDN []) false true) club (B "ou=C,ou=b,dc=test").

Example club_deleted_shown :
  memberships_shown club_deleted.1 = [(B "cn=g,dc=test", [B "cn=h,dc=test"])] ∧
  option_map (λ e, Values (U := ascii_unicode) e (B "member")) (toy_contents club_deleted.1 !! B "cn=g,dc=test") = Some [].
Proof. vm_compute. split; reflexivity. Qed.

(** Where the two notions of a name agree, tested. *)
Definition agrees_check {U : Unicode} (gone : DN) (e : Entry) : bool :=
  let same x := match x with Some x => Bool.eqb (EqualFold x gone) (FoldedKey x =b? FoldedKey gone)%ldap | None => true end in
  forallb (λ v, same (dnFromValue v false)) (Values e (B "member")) && forallb (λ v, same (dnFromValue v true)) (Values e (B "uniqueMember")).

Lemma agrees_check_sound {U : Unicode} (gone : DN) (m : gmap bytes Entry) :
  forallb (λ kv : bytes * Entry, agrees_check gone kv.2) (map_to_list m) = true → agrees_on gone m.
Proof.
  intros H k e w u x Hk _ Hw Hx. pose proof (every_entry (λ _ e, agrees_check gone e) m H k e Hk) as Hc. unfold agrees_check in Hc.
  apply andb_true_iff in Hc as [H1 H2]. rewrite forallb_forall in H1, H2. unfold member_value in Hw. apply list_elem_of_In in Hw.
  assert (Hs : Bool.eqb (EqualFold x gone) (FoldedKey x =b? FoldedKey gone)%ldap = true).
  { destruct u; [specialize (H2 w Hw) | specialize (H1 w Hw)]; by rewrite Hx in *. }
  apply Bool.eqb_prop in Hs. rewrite Hs. apply beq_true.
Qed.

Lemma delete_follows_witness :
  ∃ d e, ParseDN (U := ascii_unicode) (B "ou=C,ou=b,dc=test") = Ok d ∧ toy_contents club !! FoldedKey (U := ascii_unicode) d = Some e ∧
    toy_good club_deleted.1 ∧ derived (U := ascii_unicode) memberof_p None (toy_contents club_deleted.1) ∧
    toy_contents club_deleted.1 !! FoldedKey (U := ascii_unicode) d = None ∧
    ∀ y g, lists (U := ascii_unicode) memberof_p None (toy_contents club_deleted.1) y g ↔
      lists (U := ascii_unicode) memberof_p None (toy_contents club) y g ∧ y ≠ FoldedKey (U := ascii_unicode) d ∧ g ≠ FoldedKey (U := ascii_unicode) d.
Proof.
  refine (delete_follows (UL := ascii_unicode_laws) toy_contents toy_store_ok (CL := toy_laws) (SL := toy_subtree) sample_sv listed memberof_p refint_p
    (λ _, []) false None (MkSubject (MkDN []) false true) (B "ou=C,ou=b,dc=test") club toy_configured (proj1 club_fixed) club_kept _ _).
  - intros d e gone Hd He Hgone. vm_compute in Hd. injection Hd as <-. vm_compute in He. injection He as <-. vm_compute in Hgone. injection Hgone as <-.
    apply agrees_check_sound. vm_compute. reflexivity.
  - vm_compute. reflexivity.
Defined.

(** The unit above it is renamed: what is below it moves along, and the group follows. *)
Definition club_request : ModifyDNRequest := MkModifyDNRequest (B "ou=b,dc=test") (B "ou=z") true [].

Definition club_renamed : DB (BL := toy_bolt) * (list response * Z) :=
  handleModifyDN (U := ascii_unicode) (UT := toy_tx) sample_sv toy_plugins (λ _, []) false None (B "now") (MkSubject (MkDN []) false true) club club_request.

Example club_renamed_shown :
  memberships_shown club_renamed.1 = [(B "ou=c,ou=z,dc=test", [B "cn=g,dc=test"; B "cn=h,dc=test"; B "cn=u,dc=test"]); (B "cn=g,dc=test", [B "cn=h,dc=test"])] ∧
  option_map (λ e, Values (U := ascii_unicode) e (B "member")) (toy_contents club_renamed.1 !! B "cn=g,dc=test") = Some [B "ou=c,ou=z,dc=test"] ∧
  option_map (λ e, Values (U := ascii_unicode) e (B "uniqueMember")) (toy_contents club_renamed.1 !! B "cn=u,dc=test") = Some [B "ou=c,ou=z,dc=test#'01'B"].
Proof. vm_compute. split_and!; reflexivity. Qed.

(** Names that print back, tested. *)
Definition hash_check (d : DN) : bool := forallb (λ q, bool_decide (c_hash ∉ tail (rdn_value q))) (rdns d).

Definition parsed_check {U : Unicode} (f : DN → bool) (u : bool) (v : bytes) : bool := match dnFromValue v u with Some x => f x | None => true end.

Lemma hash_check_safe (d : DN) : hash_check d = true → hash_safe d.
Proof. exact (rdns_check (λ q, c_hash ∉ tail (rdn_value q)) (rdns d)). Qed.

Lemma repairable_check {U : Unicode} (from to : DN) (m : gmap bytes Entry) :
  hash_safe to →
  forallb (λ kv : bytes * Entry, forallb (parsed_check tab_check false) (Values kv.2 (B "member")) &&
    forallb (parsed_check (λ x, tab_check x && hash_check x) true) (Values kv.2 (B "uniqueMember"))) (map_to_list m) = true → repairable from to m.
Proof.
  intros Hto H k e w u x Hk _ Hw Hx _.
  apply (every_entry (λ _ e, forallb (parsed_check tab_check false) (Values e (B "member")) && forallb _ (Values e (B "uniqueMember"))) m H) in Hk.
  apply andb_true_iff in Hk as [H1 H2]. rewrite forallb_forall in H1, H2. apply list_elem_of_In in Hw. unfold parsed_check in *.
  destruct u; [specialize (H2 w Hw) | specialize (H1 w Hw)]; rewrite Hx in *.
  - apply andb_true_iff in H2 as [Ht Hh]. split; [by apply tab_check_safe|]. intros _. split; [by apply hash_check_safe | done].
  - split; [by apply tab_check_safe | done].
Qed.

(** The name the unit gets has no hash sign, wherever it is spelled below. *)
Lemma club_target (from dn to : DN) :
  ParseDN (U := ascii_unicode) (B "ou=b,dc=test") = Ok dn → asked_name (U := ascii_unicode) (toy_contents club) club_request dn to → hash_safe to.
Proof.
  intros Hdn (rdn & s & sup & Hr & Hl & Hp & _ & Hs & _). vm_compute in Hr. injection Hr as <-. vm_compute in Hdn. injection Hdn as <-.
  assert (Hsafe : hash_safe s).
  { destruct Hs as [Hs|(k & e & Hk & He)]; [vm_compute in Hs; injection Hs as <-; apply hash_check_safe; vm_compute; reflexivity|].
    assert (Hc : match ParseDN (U := ascii_unicode) (EDN e) with Ok d => hash_check d | Err _ => true end = true).
    { revert k e Hk He. intros k e Hk _. revert k e Hk.
      apply (every_entry (λ _ e, match ParseDN (U := ascii_unicode) (EDN e) with Ok d => hash_check d | Err _ => true end)). vm_compute. reflexivity. }
    rewrite He in Hc. by apply hash_check_safe. }
  apply parent_rdns in Hp as (q & Eq). unfold hash_safe. rewrite Eq. constructor; [|exact Hsafe].
  unfold Leaf in Hl. rewrite Eq in Hl. injection Hl as _ ->. vm_compute. by apply not_elem_of_nil.
Qed.

Lemma club_request_plain : plain_request (U := ascii_unicode) (RenameOf club_request).
Proof.
  split.
  - assert (Ht : ∀ d, forallb (λ r, bool_decide (last (rdn_value r) ≠ Some c_tab)) (rdns d) = true → no_tab_end d).
    { intros d H. unfold no_tab_end. apply Forall_forall. intros r Hr%list_elem_of_In. rewrite forallb_forall in H. specialize (H r Hr). by apply bool_decide_eq_true in H. }
    intros s d Hs Hd. apply Ht.
    repeat (apply elem_of_cons in Hs as [->|Hs]; [vm_compute in Hd; first [discriminate | injection Hd as <-; vm_compute; reflexivity]|]). by apply not_elem_of_nil in Hs.
  - intros dn sup _ Hs. vm_compute in Hs. discriminate.
Qed.

Lemma rename_follows_witness :
  ∃ dn e from to, ParseDN (U := ascii_unicode) (B "ou=b,dc=test") = Ok dn ∧ toy_contents club !! FoldedKey (U := ascii_unicode) dn = Some e ∧
    ParseDN (U := ascii_unicode) (EDN e) = Ok from ∧ asked_name (U := ascii_unicode) (toy_contents club) club_request dn to ∧
    toy_good club_renamed.1 ∧ derived (U := ascii_unicode) memberof_p None (toy_contents club_renamed.1) ∧
    moved_graph (U := ascii_unicode) memberof_p from to (toy_contents club) (toy_contents club_renamed.1).
Proof.
  refine (rename_follows (UL := ascii_unicode_laws) toy_contents toy_store_ok (CL := toy_laws) (SL := toy_subtree) sample_sv listed memberof_p refint_p
    (λ _, []) false None (B "now") (MkSubject (MkDN []) false true) club club_request toy_configured club_request_plain (proj1 club_fixed) club_kept _ _ _).
  - intros d s Hs Hd. assert (Hl : (leaf d).1 = B "ou").
    { repeat (apply elem_of_cons in Hs as [->|Hs]; [vm_compute in Hd; injection Hd as <-; reflexivity|]). by apply not_elem_of_nil in Hs. }
    rewrite Hl. repeat constructor.
  - intros dn from e to Hdn _ _ Hask _ _. apply repairable_check; [by apply (club_target from dn to) | vm_compute; reflexivity].
  - vm_compute. reflexivity.
Defined.

(** * Where the plugins and the directory disagree *)

Definition run_calls (db : DB (BL := toy_bolt)) (cs : list write_call) : DB (BL := toy_bolt) :=
  foldl (handle_write (U := ascii_unicode) (L := toy_ber) (UT := toy_tx) sample_sv toy_plugins (λ _, [])) db cs.

Definition fixed (db : DB (BL := toy_bolt)) : DB (BL := toy_bolt) := (mo_Fixup (U := ascii_unicode) (UT := toy_tx) None memberof_p db).1.

(** A member spelled otherwise than the suffix is not in scope of a write, but names the
    same entry to the index: only the fixup derives its [memberOf]. *)
Definition respelled_member : DB (BL := toy_bolt) :=
  run_calls filled_db (sample_call <$> [AddOf (B "cn=g,dc=test") (group_attrs (B "g") (B "ou=c,ou=b,dc=TEST"))]).

Example respelled_member_missed :
  memberships_shown respelled_member = [] ∧ memberships_shown (fixed respelled_member) = [(B "ou=c,ou=b,dc=test", [B "cn=g,dc=test"])].
Proof. vm_compute. split; reflexivity. Qed.

(** A [uniqueMember] is rewritten without escaping the hash sign that starts its bit
    string: after a rename to a name with one, the value names another entry. *)
Definition hash_renamed : DB (BL := toy_bolt) :=
  run_calls filled_db (sample_call <$>
    [AddOf (B "cn=g,dc=test") (unique_attrs (B "g") (B "ou=c,ou=b,dc=test"));
     RenameOf (MkModifyDNRequest (B "ou=c,ou=b,dc=test") (B "ou=x#1") true [])]).

Example hash_renamed_lost :
  memberships_shown hash_renamed = [(B "ou=x#1,ou=b,dc=test", [B "cn=g,dc=test"])] ∧
  option_map (λ e, FoldedKey (U := ascii_unicode) <$> memberDNs (U := ascii_unicode) e) (toy_contents hash_renamed !! B "cn=g,dc=test") = Some [B "ou=x"] ∧
  memberships_shown (fixed hash_renamed) = [].
Proof. vm_compute. split_and!; reflexivity. Qed.

(** An entry that a group lists before it is there has no [memberOf] when it is added. *)
Example listed_before_added :
  let db := run_calls filled_db (sample_call <$>
    [AddOf (B "cn=g,dc=test") (group_attrs (B "g") (B "ou=a,dc=test"));
     AddOf (B "ou=a,dc=test") [MkAttribute (B "objectClass") [B "top"; B "organizationalUnit"]; MkAttribute (B "ou") [B "a"]]]) in
  memberships_shown db = [] ∧ memberships_shown (fixed db) = [(B "ou=a,dc=test", [B "cn=g,dc=test"])].
Proof. vm_compute. split; reflexivity. Qed.

(** A delete compares names by [EqualFold], the directory by their keys: with U+0130,
    whose lower case is [i] but which does not fold to it, a member that names the
    deleted entry stays. *)
Definition dotted_member : bytes := B "ou=" ++ [Byte.xc4; Byte.xb0] ++ B ",dc=test".

Definition dotted_store : gmap bytes Entry := <[B "cn=g,dc=test" := MkEntry (B "cn=g,dc=test") (group_attrs (B "g") dotted_member)]> i_store.

Definition dotted_deleted : gmap bytes Entry :=
  (handleDelete (U := dotted_i) (UT := fake_tx (U := dotted_i)) sample_sv [ri_AfterWrite (U := dotted_i) (UT := fake_tx (U := dotted_i)) refint_p]
     (λ _, []) false None (MkSubject (MkDN []) false true) dotted_store (B "ou=i,dc=test")).1.

Example dotted_left_dangling :
  dotted_deleted !! B "ou=i,dc=test" = None ∧
  option_map (λ e, (Values (U := dotted_i) e (B "member"), FoldedKey (U := dotted_i) <$> memberDNs (U := dotted_i) e)) (dotted_deleted !! B "cn=g,dc=test")
    = Some ([dotted_member], [B "ou=i,dc=test"]).
Proof. vm_compute. split; reflexivity. Qed.
