(* ===== verification/Gate.v ===== *)
(** The reset gate: [src/internal/reset/gate.go].

    One value guards the directory while a soft reset runs.  Ordinary operations are
    admitted for their whole lifetime; [Begin] closes admission, [WaitIdle] waits until
    what was admitted is done, [Advance] and [Finish] or [Abort] move on.  Each method
    is one critical section of the gate's mutex and one function here.

    The channel [drained] is an identifier; the gate remembers which of its channels
    are closed.  Times are numbers of a clock the methods are given, absent for the
    zero time.  The telemetry hook is the list of what it was told. *)

From stdpp Require Import fin_sets relations.
From S2P Require Import Prelude GoStrings.
Local Open Scope Z_scope.

(** [State], with the empty string of a zero gate. *)
Inductive State : Type := Unset | Ready | PreparingReset | Resetting | Verifying | Failed.

#[export] Instance State_eq_dec : EqDecision State.
Proof. solve_decision. Defined.

Definition state_name (s : State) : bytes :=
  match s with
  | Unset => []
  | Ready => B "Ready"
  | PreparingReset => B "PreparingReset"
  | Resetting => B "Resetting"
  | Verifying => B "Verifying"
  | Failed => B "Failed"
  end.

Record Counts : Type := MkCounts {
  Deleted : Z;
  Users : Z;
  Groups : Z;
  Extra : Z;
}.

Definition no_counts : Counts := MkCounts 0 0 0 0.

(** [Operation]: the current or last reset. *)
Record Operation : Type := MkOperation {
  op_Phase : bytes;
  op_State : State;
  op_Counts : Counts;
  op_ExpectedRevision : bytes;
  op_AppliedRevision : bytes;
  op_InventoryChecksum : bytes;
  op_Error : bytes;
  op_Recovery : bytes;
  op_StartedAt : option Z;
  op_FinishedAt : option Z;
}.

(** The zero value. *)
Definition no_operation : Operation := MkOperation [] Unset no_counts [] [] [] [] [] None None.

(** An operation that only has a state and when it began. *)
Definition operation_in (s : State) (started : option Z) : Operation :=
  MkOperation (state_name s) s no_counts [] [] [] [] [] started None.

Definition RecoveryInstructions : bytes :=
  B "soft reset did not restore the compiled baseline; run labldap-bootstrap apply with lifecycle.startupMode reset, then restart control".

(** [Token]: a generation of [Begin]. *)
Record Token : Type := MkToken {
  tok_gen : Z;
  tok_previous : State;
}.

(** What the telemetry hook is told. *)
Inductive metric : Type :=
  | ObserveReset (success : bool)
  | SetResetInProgress (v : bool).

Record Gate : Type := MkGate {
  g_state : State;
  g_gen : Z;
  g_metrics : option (list metric);
  g_cur : Operation;
  g_active : Z;
  g_drained : option nat;
  g_last : Operation;
  (** The channels made so far are the numbers below; those closed. *)
  g_channels : nat;
  g_closed : gset nat;
}.

Definition NewGate : Gate := MkGate Ready 0 None no_operation 0 None no_operation 0 ∅.

(** The refusals, and the error of a context that is done. *)
Inductive gate_err : Type :=
  | InProgressErr
  | FailedErr
  | BusyErr
  | StaleErr
  | InvalidTransition (from to : State)
  | CtxErr.

#[export] Instance gate_err_eq_dec : EqDecision gate_err.
Proof. solve_decision. Defined.

Definition stateOrReady (g : Gate) : State :=
  match g_state g with
  | Unset => Ready
  | s => s
  end.

Definition running (s : State) : bool :=
  match s with
  | PreparingReset | Resetting | Verifying => true
  | _ => false
  end.

(** [syncMetricsLocked]. *)
Definition syncMetrics (g : Gate) : Gate :=
  match g_metrics g with
  | None => g
  | Some out => MkGate (g_state g) (g_gen g) (Some (out ++ [SetResetInProgress (running (stateOrReady g))])) (g_cur g) (g_active g)
      (g_drained g) (g_last g) (g_channels g) (g_closed g)
  end.

Definition observe (m : metric) (g : Gate) : Gate :=
  match g_metrics g with
  | None => g
  | Some out => MkGate (g_state g) (g_gen g) (Some (out ++ [m])) (g_cur g) (g_active g) (g_drained g) (g_last g) (g_channels g) (g_closed g)
  end.

(** The gate in another state, with its operations. *)
Definition moved_to (s : State) (gen : Z) (cur last : Operation) (g : Gate) : Gate :=
  MkGate s gen (g_metrics g) cur (g_active g) (g_drained g) last (g_channels g) (g_closed g).

Definition SetMetrics (g : Gate) : Gate :=
  MkGate (g_state g) (g_gen g) (Some []) (g_cur g) (g_active g) (g_drained g) (g_last g) (g_channels g) (g_closed g).

(** [Set], a hook of the tests. *)
Definition Set_state (s : State) (g : Gate) : Gate := syncMetrics (moved_to s (g_gen g) (g_cur g) (g_last g) g).

(** * Asking *)

Definition Allow (g : Gate) : res gate_err () :=
  match stateOrReady g with
  | Ready => Ok ()
  | Failed => Err FailedErr
  | _ => Err InProgressErr
  end.

Definition AllowRead (g : Gate) : res gate_err () :=
  match stateOrReady g with
  | Ready | Failed => Ok ()
  | _ => Err InProgressErr
  end.

Definition InProgress (g : Gate) : bool := running (stateOrReady g).

(** [Snapshot]; a zero operation is one whose state is unset. *)
Definition Snapshot (g : Gate) : Operation :=
  let st := stateOrReady g in
  if running st && negb (bool_decide (op_State (g_cur g) = Unset)) then g_cur g
  else if negb (bool_decide (op_State (g_cur g) = Unset)) then g_cur g
  else if negb (bool_decide (op_State (g_last g) = Unset)) then g_last g
  else MkOperation (state_name st) st no_counts [] [] [] [] [] None None.

(** * The reset *)

Definition stale (g : Gate) (tok : Token) : bool := (tok_gen tok =? 0) || negb (tok_gen tok =? g_gen g).

(** [g.gen++] on a [uint64]. *)
Definition next_gen (n : Z) : Z := (n + 1) `mod` 2^64.

Definition Begin (now : Z) (g : Gate) : Gate * res gate_err Token :=
  match stateOrReady g with
  | (Ready | Failed) as st =>
    let last := if negb (bool_decide (op_State (g_cur g) = Unset)) && negb (bool_decide (op_State (g_cur g) = Ready)) then g_cur g else g_last g in
    let gen := next_gen (g_gen g) in
    (syncMetrics (moved_to PreparingReset gen (operation_in PreparingReset (Some now)) last g), Ok (MkToken gen st))
  | _ => (g, Err BusyErr)
  end.

Definition validTransition (from to : State) : bool :=
  if bool_decide (from = to) then true
  else
    match from with
    | Ready | Failed => bool_decide (to = PreparingReset)
    | PreparingReset => bool_decide (to = Resetting) || bool_decide (to = Ready) || bool_decide (to = Failed)
    | Resetting => bool_decide (to = Verifying) || bool_decide (to = Failed)
    | Verifying => bool_decide (to = Ready) || bool_decide (to = Failed)
    | Unset => false
    end.

Definition with_phase (s : State) (op : Operation) : Operation :=
  MkOperation (state_name s) s (op_Counts op) (op_ExpectedRevision op) (op_AppliedRevision op) (op_InventoryChecksum op)
    (op_Error op) (op_Recovery op) (op_StartedAt op) (op_FinishedAt op).

Definition Advance (tok : Token) (to : State) (g : Gate) : Gate * res gate_err () :=
  if stale g tok then (g, Err StaleErr)
  else
    let from := stateOrReady g in
    if negb (validTransition from to) then (g, Err (InvalidTransition from to))
    else (syncMetrics (moved_to to (g_gen g) (with_phase to (g_cur g)) (g_last g) g), Ok ()).

(** What [Finish] records of the operation it is given. *)
Definition finished (now : Z) (ok : bool) (cur op : Operation) : Operation :=
  let started := match op_StartedAt op with None => op_StartedAt cur | t => t end in
  if ok then
    MkOperation (state_name Ready) Ready (op_Counts op) (op_ExpectedRevision op) (op_AppliedRevision op) (op_InventoryChecksum op)
      (op_Error op) (op_Recovery op) started (Some now)
  else
    MkOperation (if beq (op_Phase op) [] then state_name Failed else op_Phase op) Failed (op_Counts op) (op_ExpectedRevision op)
      (op_AppliedRevision op) (op_InventoryChecksum op) (op_Error op)
      (if beq (op_Recovery op) [] then RecoveryInstructions else op_Recovery op) started (Some now).

Definition Finish (now : Z) (tok : Token) (ok : bool) (op : Operation) (g : Gate) : Gate :=
  if stale g tok then g
  else
    let op := finished now ok (g_cur g) op in
    syncMetrics (observe (ObserveReset ok) (moved_to (if ok then Ready else Failed) (g_gen g) op op g)).

Definition Update (tok : Token) (fn : Operation → Operation) (g : Gate) : Gate :=
  if stale g tok then g else moved_to (g_state g) (g_gen g) (fn (g_cur g)) (g_last g) g.

(** [MarkFailed]: a running reset is left alone. *)
Definition MarkFailed (now : Z) (reason : bytes) (g : Gate) : Gate :=
  if running (stateOrReady g) then g
  else
    let op := MkOperation (state_name Failed) Failed no_counts [] [] [] reason RecoveryInstructions (Some now) None in
    syncMetrics (moved_to Failed (g_gen g) op op g).

Definition Abort (tok : Token) (g : Gate) : Gate :=
  if stale g tok || negb (bool_decide (g_state g = PreparingReset)) then g
  else
    let cur := if bool_decide (tok_previous tok = Failed) then g_last g else operation_in Ready None in
    syncMetrics (moved_to (tok_previous tok) (g_gen g) cur (g_last g) g).

(** * Admission *)

Definition with_active (n : Z) (drained : option nat) (channels : nat) (closed : gset nat) (g : Gate) : Gate :=
  MkGate (g_state g) (g_gen g) (g_metrics g) (g_cur g) n drained (g_last g) channels closed.

(** Whether an operation is admitted in a state. *)
Definition admits (read : bool) (st : State) : bool :=
  match st with
  | Ready => true
  | Failed => read
  | _ => false
  end.

(** [acquire]: [read] for a reader, [done] when the context is done.  The first of the
    active operations makes a channel. *)
Definition acquire (read done : bool) (g : Gate) : Gate * res gate_err () :=
  if done then (g, Err CtxErr)
  else
    let st := stateOrReady g in
    if negb (admits read st) then (g, Err (if bool_decide (st = Failed) then FailedErr else InProgressErr))
    else if g_active g =? 0 then (with_active (g_active g + 1) (Some (g_channels g)) (S (g_channels g)) (g_closed g) g, Ok ())
    else (with_active (g_active g + 1) (g_drained g) (g_channels g) (g_closed g) g, Ok ()).

Definition AcquireWrite : bool → Gate → Gate * res gate_err () := acquire false.

Definition AcquireRead : bool → Gate → Gate * res gate_err () := acquire true.

(** The function [acquire] returns, the first time it is called: the last of the active
    operations closes the channel.  Closing no channel or one that is closed panics. *)
Definition release (g : Gate) : option Gate :=
  let n := g_active g - 1 in
  if negb (n =? 0) then Some (with_active n (g_drained g) (g_channels g) (g_closed g) g)
  else
    match g_drained g with
    | None => None
    | Some c => if bool_decide (c ∈ g_closed g) then None else Some (with_active n (g_drained g) (g_channels g) ({[c]} ∪ g_closed g) g)
    end.

(** The critical section of [WaitIdle]: refused, nothing to wait for, or a channel to
    wait on. *)
Inductive idle : Type :=
  | IdleErr (e : gate_err)
  | IdleNow
  | IdleWait (c : option nat).

Definition WaitIdle (done : bool) (tok : Token) (g : Gate) : idle :=
  if done then IdleErr CtxErr
  else if stale g tok || negb (bool_decide (g_state g = PreparingReset)) then IdleErr BusyErr
  else if g_active g =? 0 then IdleNow
  else IdleWait (g_drained g).

(** Whether the wait is over because the channel is closed. *)
Definition is_drained (c : option nat) (g : Gate) : bool :=
  match c with
  | Some c => bool_decide (c ∈ g_closed g)
  | None => false
  end.

(** [resetMutated] of [app/reset.go]: the states of a reset that may have changed the
    directory. *)
Definition resetMutated (s : State) : bool :=
  match s with
  | Resetting | Verifying | Failed => true
  | _ => false
  end.

(** Operations and resets at the gate: the methods of [src/internal/reset/gate.go] as
    their callers interleave them.

    [hooks.acquireWrite] and [acquireRead] ([src/internal/app/services.go]) hold an
    admission for the lifetime of an operation; [Reset.Start] and [run]
    ([src/internal/app/reset.go]) take the gate through a reset.  A step is one critical
    section of the gate, or a choice of the environment.  In any interleaving a reset
    that mutates the directory is alone, and nobody is ever stuck. *)

(** Where a call of [Start] is, with its token. *)
Inductive stage : Type :=
  | Begun (tok : Token)
  | Waiting (tok : Token) (c : option nat)
  | Refused (tok : Token)
  | Planning (tok : Token)
  | Mutating (tok : Token)
  | Checking (tok : Token)
  | Erring (tok : Token)
  | Aborting (tok : Token)
  | Failing (tok : Token).

Record world : Type := MkWorld {
  w_gate : Gate;
  (** The operations admitted and not done: whether each reads. *)
  w_ops : gmap nat bool;
  w_resets : gmap nat stage;
}.

Definition fresh_world : world := MkWorld NewGate ∅ ∅.

Inductive step : world → world → Prop :=
  | op_admitted g g' ops rs i read :
      ops !! i = None → acquire read false g = (g', Ok ()) → step (MkWorld g ops rs) (MkWorld g' (<[i := read]> ops) rs)
  | op_refused g g' ops rs read done e :
      acquire read done g = (g', Err e) → step (MkWorld g ops rs) (MkWorld g' ops rs)
  | op_done g g' ops rs i read :
      ops !! i = Some read → release g = Some g' → step (MkWorld g ops rs) (MkWorld g' (delete i ops) rs)
  | reset_begins g g' ops rs j now tok :
      rs !! j = None → Begin now g = (g', Ok tok) → step (MkWorld g ops rs) (MkWorld g' ops (<[j := Begun tok]> rs))
  | reset_busy g g' ops rs now e :
      Begin now g = (g', Err e) → step (MkWorld g ops rs) (MkWorld g' ops rs)
  | reset_idle g ops rs j tok :
      rs !! j = Some (Begun tok) → WaitIdle false tok g = IdleNow → step (MkWorld g ops rs) (MkWorld g ops (<[j := Planning tok]> rs))
  | reset_waits g ops rs j tok c :
      rs !! j = Some (Begun tok) → WaitIdle false tok g = IdleWait c → step (MkWorld g ops rs) (MkWorld g ops (<[j := Waiting tok c]> rs))
  | reset_refused g ops rs j tok done e :
      rs !! j = Some (Begun tok) → WaitIdle done tok g = IdleErr e → step (MkWorld g ops rs) (MkWorld g ops (<[j := Refused tok]> rs))
  | reset_wakes g ops rs j tok c :
      rs !! j = Some (Waiting tok c) → is_drained c g = true → step (MkWorld g ops rs) (MkWorld g ops (<[j := Planning tok]> rs))
  | reset_cancelled g ops rs j tok c :
      rs !! j = Some (Waiting tok c) → step (MkWorld g ops rs) (MkWorld g ops (<[j := Refused tok]> rs))
  | reset_gives_up g ops rs j tok :
      rs !! j = Some (Refused tok) → step (MkWorld g ops rs) (MkWorld (Abort tok g) ops (delete j rs))
  | reset_plans g ops rs j tok fn :
      rs !! j = Some (Planning tok) → step (MkWorld g ops rs) (MkWorld (Update tok fn g) ops rs)
  | reset_mutates g g' ops rs j tok :
      rs !! j = Some (Planning tok) → Advance tok Resetting g = (g', Ok ()) → step (MkWorld g ops rs) (MkWorld g' ops (<[j := Mutating tok]> rs))
  | reset_checks g g' ops rs j tok :
      rs !! j = Some (Mutating tok) → Advance tok Verifying g = (g', Ok ()) → step (MkWorld g ops rs) (MkWorld g' ops (<[j := Checking tok]> rs))
  | reset_fails g ops rs j tok :
      rs !! j = Some (Planning tok) ∨ rs !! j = Some (Mutating tok) ∨ rs !! j = Some (Checking tok) →
      step (MkWorld g ops rs) (MkWorld g ops (<[j := Erring tok]> rs))
  | reset_succeeds g ops rs j tok now op :
      rs !! j = Some (Checking tok) → step (MkWorld g ops rs) (MkWorld (Finish now tok true op g) ops (delete j rs))
  | reset_judged g ops rs j tok :
      rs !! j = Some (Erring tok) →
      step (MkWorld g ops rs) (MkWorld g ops (<[j := if resetMutated (stateOrReady g) then Failing tok else Aborting tok]> rs))
  | reset_aborts g ops rs j tok :
      rs !! j = Some (Aborting tok) → step (MkWorld g ops rs) (MkWorld (Abort tok g) ops (delete j rs))
  | reset_failed g ops rs j tok now op :
      rs !! j = Some (Failing tok) → step (MkWorld g ops rs) (MkWorld (Finish now tok false op g) ops (delete j rs))
  | marked_failed g ops rs now reason : step (MkWorld g ops rs) (MkWorld (MarkFailed now reason g) ops rs).

(** * The invariant *)

Definition stage_token (s : stage) : Token :=
  match s with
  | Begun t | Waiting t _ | Refused t | Planning t | Mutating t | Checking t | Erring t | Aborting t | Failing t => t
  end.

(** The state of the gate a stage goes with. *)
Definition stage_state (s : stage) (st : State) : Prop :=
  match s with
  | Begun _ | Waiting _ _ | Refused _ | Planning _ | Aborting _ => st = PreparingReset
  | Mutating _ => st = Resetting
  | Checking _ => st = Verifying
  | Erring _ => running st = true
  | Failing _ => st = Resetting ∨ st = Verifying
  end.

(** The stages after the wait. *)
Definition alone (s : stage) : bool :=
  match s with
  | Begun _ | Waiting _ _ | Refused _ => false
  | _ => true
  end.

(** What a call of [Start] may count on. *)
Record owns (g : Gate) (ops : gmap nat bool) (s : stage) : Prop := {
  ow_token : tok_gen (stage_token s) = g_gen g;
  ow_nonzero : g_gen g ≠ 0;
  ow_previous : tok_previous (stage_token s) = Ready ∨ tok_previous (stage_token s) = Failed;
  ow_state : stage_state s (g_state g);
  ow_alone : alone s = true → ops = ∅;
  ow_waits : ∀ t c, s = Waiting t c → c = g_drained g ∧ c ≠ None;
}.

(** At most one reset, and the gate is its. *)
Inductive resets_ok (g : Gate) (ops : gmap nat bool) : gmap nat stage → Prop :=
  | no_reset : running (g_state g) = false → resets_ok g ops ∅
  | one_reset j s : owns g ops s → resets_ok g ops {[j := s]}.

Record gate_ok (n : Z) (w : world) : Prop := {
  gk_gen : 0 ≤ g_gen (w_gate w) ≤ n;
  gk_set : g_state (w_gate w) ≠ Unset;
  gk_active : g_active (w_gate w) = Z.of_nat (size (w_ops w));
  gk_open : w_ops w ≠ ∅ → ∃ c, g_drained (w_gate w) = Some c ∧ c ∉ g_closed (w_gate w);
  gk_shut : w_ops w = ∅ → g_drained (w_gate w) = None ∨ ∃ c, g_drained (w_gate w) = Some c ∧ c ∈ g_closed (w_gate w);
  gk_channels : ∀ c, g_drained (w_gate w) = Some c ∨ c ∈ g_closed (w_gate w) → (c < g_channels (w_gate w))%nat;
  gk_resets : resets_ok (w_gate w) (w_ops w) (w_resets w);
}.

Lemma fresh_gate_ok : gate_ok 0 fresh_world.
Proof.
  split; cbn; try done.
  - by left.
  - intros c [?|?]; [done | set_solver].
  - by constructor.
Qed.

(** What [moved_to] and the telemetry leave alone. *)
Record same_admission (g g' : Gate) : Prop := {
  sa_active : g_active g' = g_active g;
  sa_drained : g_drained g' = g_drained g;
  sa_channels : g_channels g' = g_channels g;
  sa_closed : g_closed g' = g_closed g;
}.

Lemma same_admission_trans (a b c : Gate) : same_admission a b → same_admission b c → same_admission a c.
Proof. intros [] []. split; congruence. Qed.

Lemma sync_same (g : Gate) : same_admission g (syncMetrics g) ∧ g_state (syncMetrics g) = g_state g ∧ g_gen (syncMetrics g) = g_gen g.
Proof. unfold syncMetrics. destruct (g_metrics g); by split. Qed.

Lemma observe_same (m : metric) (g : Gate) : same_admission g (observe m g) ∧ g_state (observe m g) = g_state g ∧ g_gen (observe m g) = g_gen g.
Proof. unfold observe. destruct (g_metrics g); by split. Qed.

(** A critical section that only moves the state. *)
Lemma moved_ok (n : Z) (g g' : Gate) (ops : gmap nat bool) (rs rs' : gmap nat stage) :
  gate_ok n (MkWorld g ops rs) → same_admission g g' → 0 ≤ g_gen g' ≤ n → g_state g' ≠ Unset → resets_ok g' ops rs' → gate_ok n (MkWorld g' ops rs').
Proof.
  intros [_ _ Ha Ho Hs Hc _] [A D C L] Hg Hne Hr. cbn in *. split; cbn; [done | done | congruence | | | | done].
  - intros ?. rewrite D, L. by apply Ho.
  - intros ?. rewrite D, L. by apply Hs.
  - intros c. rewrite D, L, C. apply Hc.
Qed.

Lemma the_reset (g : Gate) (ops : gmap nat bool) (rs : gmap nat stage) (j : nat) (s : stage) :
  resets_ok g ops rs → rs !! j = Some s → rs = {[j := s]} ∧ owns g ops s.
Proof. intros [?|j' s' Ho] Hj; [done |]. apply lookup_singleton_Some in Hj as [-> ->]. done. Qed.

Lemma restaged (g g' : Gate) (ops ops' : gmap nat bool) (rs : gmap nat stage) (j : nat) (s s' : stage) :
  resets_ok g ops rs → rs !! j = Some s → owns g' ops' s' → resets_ok g' ops' (<[j := s']> rs).
Proof. intros Hr Hj Ho. destruct (the_reset _ _ _ _ _ Hr Hj) as [-> _]. rewrite insert_singleton_eq. by constructor. Qed.

Lemma reset_over (g g' : Gate) (ops ops' : gmap nat bool) (rs : gmap nat stage) (j : nat) (s : stage) :
  resets_ok g ops rs → rs !! j = Some s → running (g_state g') = false → resets_ok g' ops' (delete j rs).
Proof. intros Hr Hj Ho. destruct (the_reset _ _ _ _ _ Hr Hj) as [-> _]. rewrite delete_singleton_eq. by constructor. Qed.

Lemma no_running (g : Gate) (ops : gmap nat bool) (rs : gmap nat stage) :
  resets_ok g ops rs → running (g_state g) = false → rs = ∅.
Proof.
  intros [?|j s [_ _ _ Hs _ _]] Hr; [done |]. exfalso. destruct s; cbn in Hs; try destruct Hs as [Hs|Hs]; rewrite Hs in Hr; done.
Qed.

Lemma stateOrReady_set (g : Gate) : g_state g ≠ Unset → stateOrReady g = g_state g.
Proof. unfold stateOrReady. by destruct (g_state g). Qed.

(** The owner's token is not stale. *)
Lemma owner_fresh (g : Gate) (ops : gmap nat bool) (s : stage) : owns g ops s → stale g (stage_token s) = false.
Proof. intros [Ht Hn _ _ _ _]. unfold stale. rewrite Ht, (proj2 (Z.eqb_neq _ _) Hn), Z.eqb_refl. done. Qed.

(** * Each critical section *)

Lemma begin_cases (now : Z) (g g' : Gate) (r : res gate_err Token) :
  g_state g ≠ Unset → Begin now g = (g', r) →
  (∃ tok, r = Ok tok ∧ running (g_state g) = false ∧ same_admission g g' ∧ g_state g' = PreparingReset ∧ g_gen g' = next_gen (g_gen g) ∧
    tok = MkToken (next_gen (g_gen g)) (g_state g)) ∨
  (r = Err BusyErr ∧ running (g_state g) = true ∧ g' = g).
Proof.
  intros Hs. unfold Begin. rewrite stateOrReady_set by done.
  destruct (g_state g) eqn:E; [done | | | | |]; intros [= <- <-]; [left | by right | by right | by right | left].
  all: edestruct sync_same as (Hsame & Hst & Hgen); eexists; split_and!; [done | done | | rewrite Hst; done | rewrite Hgen; done | done];
    eapply same_admission_trans; [| exact Hsame]; done.
Qed.

Lemma advance_cases (tok : Token) (to : State) (g g' : Gate) (u : ()) :
  g_state g ≠ Unset → Advance tok to g = (g', Ok u) →
  validTransition (g_state g) to = true ∧ same_admission g g' ∧ g_state g' = to ∧ g_gen g' = g_gen g.
Proof.
  intros Hs. unfold Advance. rewrite stateOrReady_set by done. destruct (stale g tok); [done |].
  destruct (validTransition (g_state g) to); [| done]. intros [= <-].
  edestruct sync_same as (Hsame & Hst & Hgen). split_and!; [done | | rewrite Hst; done | rewrite Hgen; done].
  eapply same_admission_trans; [| exact Hsame]; done.
Qed.

Lemma update_same (tok : Token) (fn : Operation → Operation) (g : Gate) :
  same_admission g (Update tok fn g) ∧ g_state (Update tok fn g) = g_state g ∧ g_gen (Update tok fn g) = g_gen g.
Proof. unfold Update. destruct (stale g tok); by split. Qed.

Lemma abort_cases (tok : Token) (g : Gate) :
  same_admission g (Abort tok g) ∧ g_gen (Abort tok g) = g_gen g ∧
  (stale g tok = false → g_state g = PreparingReset → g_state (Abort tok g) = tok_previous tok).
Proof.
  unfold Abort. destruct (stale g tok) eqn:E; cbn [orb]; [by split_and! |]. case_bool_decide as Hp; cbn [negb]; [| by split_and!].
  edestruct sync_same as (Hsame & Hst & Hgen). split_and!; [| rewrite Hgen; done | intros; rewrite Hst; done].
  eapply same_admission_trans; [| exact Hsame]; done.
Qed.

Lemma gate_finish_cases (now : Z) (tok : Token) (ok : bool) (op : Operation) (g : Gate) :
  same_admission g (Finish now tok ok op g) ∧ g_gen (Finish now tok ok op g) = g_gen g ∧
  (stale g tok = false → g_state (Finish now tok ok op g) = if ok then Ready else Failed).
Proof.
  unfold Finish. destruct (stale g tok) eqn:E; [by split_and! |].
  edestruct sync_same as (Hsame & Hst & Hgen). edestruct observe_same as (Hsame' & Hst' & Hgen').
  split_and!; [| rewrite Hgen, Hgen'; done | intros; rewrite Hst, Hst'; done].
  eapply same_admission_trans; [| exact Hsame]. eapply same_admission_trans; [| exact Hsame']. done.
Qed.

Lemma mark_cases (now : Z) (reason : bytes) (g : Gate) :
  g_state g ≠ Unset →
  same_admission g (MarkFailed now reason g) ∧ g_gen (MarkFailed now reason g) = g_gen g ∧
  (if running (g_state g) then MarkFailed now reason g = g else g_state (MarkFailed now reason g) = Failed).
Proof.
  intros Hs. unfold MarkFailed. rewrite stateOrReady_set by done. destruct (running (g_state g)) eqn:E; [by split_and! |].
  edestruct sync_same as (Hsame & Hst & Hgen). split_and!; [| rewrite Hgen; done | rewrite Hst; done].
  eapply same_admission_trans; [| exact Hsame]. done.
Qed.

Lemma wait_idle_now (tok : Token) (g : Gate) : WaitIdle false tok g = IdleNow → g_state g = PreparingReset ∧ g_active g = 0.
Proof.
  unfold WaitIdle. destruct (stale g tok); cbn [orb]; [done |]. case_bool_decide; cbn [negb]; [| done].
  destruct (Z.eqb_spec (g_active g) 0); done.
Qed.

Lemma wait_idle_wait (tok : Token) (c : option nat) (g : Gate) : WaitIdle false tok g = IdleWait c → g_active g ≠ 0 ∧ c = g_drained g.
Proof.
  unfold WaitIdle. destruct (stale g tok); cbn [orb]; [done |]. case_bool_decide; cbn [negb]; [| done].
  destruct (Z.eqb_spec (g_active g) 0); [done |]. by intros [= ->].
Qed.

Lemma acquire_ok (n : Z) (g g' : Gate) (ops : gmap nat bool) (rs : gmap nat stage) (i : nat) (read : bool) (u : ()) :
  gate_ok n (MkWorld g ops rs) → ops !! i = None → acquire read false g = (g', Ok u) → gate_ok n (MkWorld g' (<[i := read]> ops) rs).
Proof.
  intros [Hg Hne Ha Ho Hs Hc Hr] Hi. cbn in *. unfold acquire. rewrite stateOrReady_set by done.
  destruct (admits read (g_state g)) eqn:Ead; cbn [negb]; [| done].
  assert (Hrs : rs = ∅) by (eapply no_running; [done |]; destruct (g_state g); done).
  assert (Hnr : running (g_state g) = false) by (destruct (g_state g); done).
  assert (Hne' : <[i := read]> ops ≠ ∅) by apply insert_non_empty.
  subst rs. destruct (Z.eqb_spec (g_active g) 0) as [H0|H0]; intros [= <-]; split; cbn; try done; try by constructor.
  - rewrite map_size_insert_None by done. lia.
  - intros _. eexists. split; [done |]. intros Hin. specialize (Hc _ (or_intror Hin)). lia.
  - intros c [[= <-]|Hin]; [lia |]. specialize (Hc _ (or_intror Hin)). lia.
  - rewrite map_size_insert_None by done. lia.
  - intros _. apply Ho. intros ->. rewrite map_size_empty in Ha. done.
Qed.

(** Closing the channel never panics. *)
Lemma release_some (n : Z) (g : Gate) (ops : gmap nat bool) (rs : gmap nat stage) (i : nat) (read : bool) :
  gate_ok n (MkWorld g ops rs) → ops !! i = Some read →
  ∃ g', release g = Some g' ∧ gate_ok n (MkWorld g' (delete i ops) rs) ∧ g_state g' = g_state g ∧ g_gen g' = g_gen g.
Proof.
  intros [Hg Hne Ha Ho Hs Hc Hr] Hi. cbn in *. unfold release.
  assert (Hnz : ops ≠ ∅) by (intros ->; done). destruct (Ho Hnz) as (c & Hd & Hcl).
  assert (Hsz : size ops = S (size (delete i ops))) by (rewrite map_size_delete_Some by eauto; pose proof (proj2 (map_size_non_empty_iff ops) Hnz); lia).
  assert (Hr' : ∀ g', g_state g' = g_state g → g_gen g' = g_gen g → g_drained g' = g_drained g → resets_ok g' (delete i ops) rs).
  { intros g' E1 E2 E3. destruct Hr as [Hr|j s [O1 O2 O3 O4 O5 O6]]; constructor; [congruence |].
    split; rewrite ?E1, ?E2, ?E3; try done. intros Hal. by rewrite (O5 Hal), delete_empty. }
  destruct (Z.eqb_spec (g_active g - 1) 0) as [H0|H0]; cbn [negb].
  - assert (Hdel : delete i ops = ∅) by (apply map_size_empty_inv; lia).
    rewrite Hd, bool_decide_false by done. eexists. split_and!; [done | | done | done].
    split; cbn; try done; [lia | right; exists c; set_solver | | by apply Hr'].
    intros c' [[= <-]|Hin]; [apply Hc; by left |]. apply elem_of_union in Hin as [Hin%elem_of_singleton|Hin]; [subst; apply Hc; by left | apply Hc; by right].
  - eexists. split_and!; [done | | done | done]. split; cbn; try done; [lia | | | by apply Hr'].
    + intros _. by apply Ho.
    + intros Hdel. rewrite Hdel, map_size_empty in Hsz. lia.
Qed.

Lemma gate_ok_le (n m : Z) (w : world) : n ≤ m → gate_ok n w → gate_ok m w.
Proof. intros Hle [H1 H2 H3 H4 H5 H6 H7]. split; try done. lia. Qed.

(** A reset that goes on to another stage. *)
Lemma stage_moved (n : Z) (g g' : Gate) (ops : gmap nat bool) (rs : gmap nat stage) (j : nat) (s s' : stage) :
  gate_ok n (MkWorld g ops rs) → rs !! j = Some s → same_admission g g' → g_gen g' = g_gen g → g_state g' ≠ Unset →
  stage_token s' = stage_token s → stage_state s' (g_state g') → (alone s' = true → ops = ∅) →
  (∀ t c, s' = Waiting t c → c = g_drained g' ∧ c ≠ None) → gate_ok n (MkWorld g' ops (<[j := s']> rs)).
Proof.
  intros Hok Hj Hsame Hgen Hne Htok Hst Hal Hw. pose proof (gk_resets _ _ Hok) as Hr. cbn in Hr.
  destruct (the_reset _ _ _ _ _ Hr Hj) as [_ [O1 O2 O3 O4 O5 O6]].
  eapply moved_ok; [done | done | rewrite Hgen; apply (gk_gen _ _ Hok) | done |]. eapply restaged; [done | done |].
  split; rewrite ?Htok, ?Hgen; done.
Qed.

(** A reset that is over. *)
Lemma stage_over (n : Z) (g g' : Gate) (ops : gmap nat bool) (rs : gmap nat stage) (j : nat) (s : stage) :
  gate_ok n (MkWorld g ops rs) → rs !! j = Some s → same_admission g g' → g_gen g' = g_gen g → g_state g' = Ready ∨ g_state g' = Failed →
  gate_ok n (MkWorld g' ops (delete j rs)).
Proof.
  intros Hok Hj Hsame Hgen Hne. pose proof (gk_resets _ _ Hok) as Hr. cbn in Hr.
  eapply moved_ok; [done | done | rewrite Hgen; apply (gk_gen _ _ Hok) | by destruct Hne as [-> | ->] |].
  eapply reset_over; [done | done |]. by destruct Hne as [-> | ->].
Qed.

(** What the owner of a stage knows. *)
Lemma stage_owns (n : Z) (g : Gate) (ops : gmap nat bool) (rs : gmap nat stage) (j : nat) (s : stage) :
  gate_ok n (MkWorld g ops rs) → rs !! j = Some s → owns g ops s.
Proof. intros Hok Hj. eapply the_reset; [apply (gk_resets _ _ Hok) | done]. Qed.

Lemma abort_over (n : Z) (g : Gate) (ops : gmap nat bool) (rs : gmap nat stage) (j : nat) (s : stage) :
  gate_ok n (MkWorld g ops rs) → rs !! j = Some s → g_state g = PreparingReset →
  gate_ok n (MkWorld (Abort (stage_token s) g) ops (delete j rs)).
Proof.
  intros Hok Hj Hst. pose proof (stage_owns _ _ _ _ _ _ Hok Hj) as Ho. destruct (abort_cases (stage_token s) g) as (Hsame & Hgen & Hto).
  eapply stage_over; [done | done | done | done |]. rewrite Hto by (try done; by eapply owner_fresh). apply (ow_previous _ _ _ Ho).
Qed.

Lemma finish_over (n now : Z) (ok : bool) (op : Operation) (g : Gate) (ops : gmap nat bool) (rs : gmap nat stage) (j : nat) (s : stage) :
  gate_ok n (MkWorld g ops rs) → rs !! j = Some s → gate_ok n (MkWorld (Finish now (stage_token s) ok op g) ops (delete j rs)).
Proof.
  intros Hok Hj. pose proof (stage_owns _ _ _ _ _ _ Hok Hj) as Ho. destruct (gate_finish_cases now (stage_token s) ok op g) as (Hsame & Hgen & Hto).
  eapply stage_over; [done | done | done | done |]. rewrite Hto by (by eapply owner_fresh). destruct ok; [by left | by right].
Qed.

Lemma begin_ok (n now : Z) (g g' : Gate) (ops : gmap nat bool) (rs : gmap nat stage) (j : nat) (tok : Token) :
  n + 1 < 2^64 → gate_ok n (MkWorld g ops rs) → Begin now g = (g', Ok tok) → gate_ok (n + 1) (MkWorld g' ops (<[j := Begun tok]> rs)).
Proof.
  intros Hn Hok HB. pose proof (gk_gen _ _ Hok) as Hg. cbn in Hg. pose proof (gk_set _ _ Hok) as Hset. cbn in Hset.
  destruct (begin_cases _ _ _ _ Hset HB) as [(t & [= <-] & Hnr & Hsame & Hst & Hgen & Htok) | (? & _)]; [| done].
  assert (Hnext : next_gen (g_gen g) = g_gen g + 1) by (unfold next_gen; apply Z.mod_small; lia).
  assert (rs = ∅) as -> by (eapply no_running; [apply (gk_resets _ _ Hok) | done]).
  eapply moved_ok; [eapply (gate_ok_le n); [lia | exact Hok] | done | lia | rewrite Hst; done |].
  constructor. rewrite Htok. split; cbn; rewrite ?Hst, ?Hgen; try done; [lia |].
  destruct (g_state g); try done; auto.
Qed.

Theorem gate_step_ok (n : Z) (w w' : world) : n + 1 < 2^64 → gate_ok n w → step w w' → gate_ok (n + 1) w'.
Proof.
  intros Hn Hok Hstep.
  assert (Hset : g_state (w_gate w) ≠ Unset) by apply (gk_set _ _ Hok).
  destruct Hstep as [g g' ops rs i read Hi Hacq|g g' ops rs read done e Hacq|g g' ops rs i read Hi Hrel|g g' ops rs j now tok Hj HB|
    g g' ops rs now e HB|g ops rs j tok Hj Hw|g ops rs j tok c Hj Hw|g ops rs j tok done e Hj Hw|g ops rs j tok c Hj Hd|g ops rs j tok c Hj|
    g ops rs j tok Hj|g ops rs j tok fn Hj|g g' ops rs j tok Hj HA|g g' ops rs j tok Hj HA|g ops rs j tok Hj|g ops rs j tok now op Hj|
    g ops rs j tok Hj|g ops rs j tok Hj|g ops rs j tok now op Hj|g ops rs now reason].
  all: try (match goal with |- gate_ok _ (MkWorld _ _ (<[_ := Begun _]> _)) => fail 1 | _ => eapply (gate_ok_le n); [lia |] end); cbn in Hset.
  - by eapply acquire_ok.
  - assert (g' = g) as ->; [| done]. revert Hacq. unfold acquire. destruct done; [congruence |].
    destruct (admits _ _); cbn [negb]; [destruct (_ =? _) | destruct (bool_decide _)]; congruence.
  - destruct (release_some _ _ _ _ _ _ Hok Hi) as (g1 & Hg1 & Hok' & _). congruence.
  - by eapply begin_ok.
  - destruct (begin_cases _ _ _ _ Hset HB) as [(? & ? & _) | (_ & _ & ->)]; done.
  - destruct (wait_idle_now _ _ Hw) as [Hst Hact]. eapply stage_moved; try done.
    intros _. pose proof (gk_active _ _ Hok) as Ha. cbn in Ha. apply map_size_empty_inv. lia.
  - destruct (wait_idle_wait _ _ _ Hw) as [Hact ->]. eapply stage_moved; try done; [apply (stage_owns _ _ _ _ _ _ Hok Hj) |].
    intros t c [= _ <-]. split; [done |]. pose proof (gk_active _ _ Hok) as Ha. cbn in Ha.
    destruct (gk_open _ _ Hok) as (c & Hc & _); cbn in *; [intros ->; rewrite map_size_empty in Ha; done | congruence].
  - eapply stage_moved; try done. apply (stage_owns _ _ _ _ _ _ Hok Hj).
  - pose proof (stage_owns _ _ _ _ _ _ Hok Hj) as Ho. eapply stage_moved; try done; [apply Ho |]. intros _.
    destruct (ow_waits _ _ _ Ho _ _ eq_refl) as [-> _]. destruct (decide (ops = ∅)) as [?|Hnz]; [done | exfalso].
    destruct (gk_open _ _ Hok Hnz) as (c & Hc & Hcl). cbn in *. rewrite Hc in Hd. cbn in Hd. by apply bool_decide_eq_true in Hd.
  - eapply stage_moved; try done. apply (stage_owns _ _ _ _ _ _ Hok Hj).
  - apply (abort_over _ _ _ _ _ _ Hok Hj). apply (stage_owns _ _ _ _ _ _ Hok Hj).
  - destruct (update_same tok fn g) as (Hsame & Hst & Hgen). rewrite <- (insert_id rs j (Planning tok)) by done.
    pose proof (stage_owns _ _ _ _ _ _ Hok Hj) as Ho. eapply stage_moved; rewrite ?Hst; try done; apply Ho.
  - destruct (advance_cases _ _ _ _ _ Hset HA) as (_ & Hsame & Hst & Hgen). pose proof (stage_owns _ _ _ _ _ _ Hok Hj) as Ho.
    eapply stage_moved; rewrite ?Hst; try done. intros _. by apply Ho.
  - destruct (advance_cases _ _ _ _ _ Hset HA) as (_ & Hsame & Hst & Hgen). pose proof (stage_owns _ _ _ _ _ _ Hok Hj) as Ho.
    eapply stage_moved; rewrite ?Hst; try done. intros _. by apply Ho.
  - destruct Hj as [Hj|[Hj|Hj]]; pose proof (stage_owns _ _ _ _ _ _ Hok Hj) as Ho; eapply stage_moved; try done;
      try (intros _; by apply Ho); pose proof (ow_state _ _ _ Ho) as Hs; cbn in Hs; cbn; rewrite Hs; done.
  - by apply (finish_over _ _ true op _ _ _ _ _ Hok Hj).
  - pose proof (stage_owns _ _ _ _ _ _ Hok Hj) as Ho. pose proof (ow_state _ _ _ Ho) as Hs. cbn in Hs.
    rewrite stateOrReady_set by done. destruct (g_state g) eqn:E; try done; cbn; eapply stage_moved; try done; cbn; rewrite ?E; auto; try done; try (intros _; by apply Ho).
  - apply (abort_over _ _ _ _ _ _ Hok Hj). apply (stage_owns _ _ _ _ _ _ Hok Hj).
  - by apply (finish_over _ _ false op _ _ _ _ _ Hok Hj).
  - destruct (mark_cases now reason g Hset) as (Hsame & Hgen & Hm). destruct (running (g_state g)) eqn:E; [by rewrite Hm |].
    pose proof (gk_resets _ _ Hok) as Hr. cbn in Hr. assert (rs = ∅) as -> by (by eapply no_running).
    eapply moved_ok; [done | done | rewrite Hgen; apply (gk_gen _ _ Hok) | rewrite Hm; done | constructor; by rewrite Hm].
Qed.

(** * The world goes on *)

Lemma reached_ok (n : nat) (w : world) : Z.of_nat n < 2^64 → nsteps step n fresh_world w → gate_ok (Z.of_nat n) w.
Proof.
  intros Hn Hsteps. assert (Hall : ∀ m (w0 : world) (k : Z), nsteps step m w0 w → k + Z.of_nat m < 2^64 → gate_ok k w0 → gate_ok (k + Z.of_nat m) w).
  { clear. induction m as [|m IH]; intros w0 k Hs Hk Hok; inversion Hs as [|? ? w1 ? H1 Hrest]; subst; [by rewrite Z.add_0_r |].
    replace (k + Z.of_nat (S m)) with (k + 1 + Z.of_nat m) by lia. eapply IH; [done | lia |]. eapply gate_step_ok; [lia | done | done]. }
  exact (Hall n fresh_world 0 Hsteps ltac:(lia) fresh_gate_ok).
Qed.

(** Everything admitted can end. *)
Lemma drain_all (n : Z) (rs : gmap nat stage) (ops : gmap nat bool) : ∀ g,
  gate_ok n (MkWorld g ops rs) →
  ∃ g', rtc step (MkWorld g ops rs) (MkWorld g' ∅ rs) ∧ gate_ok n (MkWorld g' ∅ rs).
Proof.
  remember (size ops) as k eqn:Hk. revert ops Hk. induction k as [|k IH]; intros ops Hk g Hok.
  - rewrite (map_size_empty_inv ops) in Hok |- * by done. exists g. split; [apply rtc_refl | done].
  - destruct (map_choose ops) as (i & read & Hi); [intros ->; by rewrite map_size_empty in Hk |].
    destruct (release_some _ _ _ _ _ _ Hok Hi) as (g1 & Hrel & Hok1 & _).
    destruct (IH (delete i ops)) with (g := g1) as (g' & Hpath & Hok'); [rewrite map_size_delete_Some by eauto; lia | done |].
    exists g'. split; [| done]. eapply rtc_l; [| exact Hpath]. by eapply op_done.
Qed.

Lemma advance_ok (tok : Token) (to : State) (g : Gate) :
  stale g tok = false → g_state g ≠ Unset → validTransition (g_state g) to = true → ∃ g', Advance tok to g = (g', Ok ()).
Proof. intros Hst Hs Hv. unfold Advance. rewrite stateOrReady_set, Hst, Hv by done. cbn. eauto. Qed.

Definition over (w : world) : Prop := w_ops w = ∅ ∧ w_resets w = ∅.

(** A step, and then a path. *)
Lemma onward (n : Z) (w w' : world) (P : world → Prop) :
  n + 1 < 2^64 → gate_ok n w → step w w' → (gate_ok (n + 1) w' → ∃ v, rtc step w' v ∧ P v) → ∃ v, rtc step w v ∧ P v.
Proof. intros Hn Hok Hs Hnext. destruct (Hnext (gate_step_ok _ _ _ Hn Hok Hs)) as (v & Hp & HP). exists v. split; [by eapply rtc_l | done]. Qed.

Definition settled (w : world) : Prop := over w ∧ ∃ n, gate_ok n w.

Lemma now_settled (n : Z) (g : Gate) : gate_ok n (MkWorld g ∅ ∅) → ∃ v, rtc step (MkWorld g ∅ ∅) v ∧ settled v.
Proof. intros Hok. eexists. split; [apply rtc_refl |]. split; [done | eauto]. Qed.

(** The last step of a reset. *)
Lemma last_step (n : Z) (g g' : Gate) (j : nat) (s : stage) :
  n + 1 < 2^64 → gate_ok n (MkWorld g ∅ {[j := s]}) → step (MkWorld g ∅ {[j := s]}) (MkWorld g' ∅ (delete j {[j := s]})) →
  ∃ v, rtc step (MkWorld g ∅ {[j := s]}) v ∧ settled v.
Proof. intros Hn Hok Hs. eapply onward; [done | done | exact Hs |]. rewrite delete_singleton_eq. apply now_settled. Qed.

(** A step of the only reset to another stage. *)
Lemma next_stage (n : Z) (g g' : Gate) (j : nat) (s s' : stage) :
  n + 1 < 2^64 → gate_ok n (MkWorld g ∅ {[j := s]}) → step (MkWorld g ∅ {[j := s]}) (MkWorld g' ∅ (<[j := s']> {[j := s]})) →
  (gate_ok (n + 1) (MkWorld g' ∅ {[j := s']}) → ∃ v, rtc step (MkWorld g' ∅ {[j := s']}) v ∧ settled v) →
  ∃ v, rtc step (MkWorld g ∅ {[j := s]}) v ∧ settled v.
Proof. intros Hn Hok Hs Hnext. eapply onward; [done | done | exact Hs |]. by rewrite insert_singleton_eq. Qed.

Lemma only (j : nat) (s : stage) : ({[j := s]} : gmap nat stage) !! j = Some s.
Proof. apply lookup_singleton_eq. Qed.

(** Advancing is not refused to the owner. *)
Lemma owner_advances (n : Z) (g : Gate) (j : nat) (s : stage) (to : State) :
  gate_ok n (MkWorld g ∅ {[j := s]}) → validTransition (g_state g) to = true → ∃ g', Advance (stage_token s) to g = (g', Ok ()).
Proof.
  intros Hok Hv. apply advance_ok; [| apply (gk_set _ _ Hok) | done]. eapply owner_fresh. by apply (stage_owns _ _ _ _ _ _ Hok (only j s)).
Qed.

Section alone.
Context (j : nat) (tok : Token).

Lemma checking_ends (n : Z) (g : Gate) :
  n + 1 < 2^64 → gate_ok n (MkWorld g ∅ {[j := Checking tok]}) → ∃ v, rtc step (MkWorld g ∅ {[j := Checking tok]}) v ∧ settled v.
Proof. intros Hn Hok. eapply last_step; [done | done |]. eapply (reset_succeeds _ _ _ _ _ 0 no_operation), only. Qed.

Lemma mutating_ends (n : Z) (g : Gate) :
  n + 2 < 2^64 → gate_ok n (MkWorld g ∅ {[j := Mutating tok]}) → ∃ v, rtc step (MkWorld g ∅ {[j := Mutating tok]}) v ∧ settled v.
Proof.
  intros Hn Hok. pose proof (ow_state _ _ _ (stage_owns _ _ _ _ _ _ Hok (only _ _))) as Hst.
  destruct (owner_advances _ _ _ _ Verifying Hok) as (g' & HA); [by rewrite Hst |].
  eapply next_stage; [| done | eapply reset_checks; [apply only | exact HA] |]; [lia |]. apply checking_ends. lia.
Qed.

Lemma planning_ends (n : Z) (g : Gate) :
  n + 3 < 2^64 → gate_ok n (MkWorld g ∅ {[j := Planning tok]}) → ∃ v, rtc step (MkWorld g ∅ {[j := Planning tok]}) v ∧ settled v.
Proof.
  intros Hn Hok. pose proof (ow_state _ _ _ (stage_owns _ _ _ _ _ _ Hok (only _ _))) as Hst.
  destruct (owner_advances _ _ _ _ Resetting Hok) as (g' & HA); [by rewrite Hst |].
  eapply next_stage; [| done | eapply reset_mutates; [apply only | exact HA] |]; [lia |]. apply mutating_ends. lia.
Qed.

Lemma aborting_ends (n : Z) (g : Gate) :
  n + 1 < 2^64 → gate_ok n (MkWorld g ∅ {[j := Aborting tok]}) → ∃ v, rtc step (MkWorld g ∅ {[j := Aborting tok]}) v ∧ settled v.
Proof. intros Hn Hok. eapply last_step; [done | done |]. eapply reset_aborts, only. Qed.

Lemma failing_ends (n : Z) (g : Gate) :
  n + 1 < 2^64 → gate_ok n (MkWorld g ∅ {[j := Failing tok]}) → ∃ v, rtc step (MkWorld g ∅ {[j := Failing tok]}) v ∧ settled v.
Proof. intros Hn Hok. eapply last_step; [done | done |]. eapply (reset_failed _ _ _ _ _ 0 no_operation), only. Qed.

Lemma erring_ends (n : Z) (g : Gate) :
  n + 2 < 2^64 → gate_ok n (MkWorld g ∅ {[j := Erring tok]}) → ∃ v, rtc step (MkWorld g ∅ {[j := Erring tok]}) v ∧ settled v.
Proof.
  intros Hn Hok. eapply next_stage; [| done | eapply reset_judged, only |]; [lia |].
  destruct (resetMutated (stateOrReady g)); [apply failing_ends | apply aborting_ends]; lia.
Qed.

(** The turn of a reset that waits. *)
Lemma turn_comes (n : Z) (g : Gate) (s : stage) :
  gate_ok n (MkWorld g ∅ {[j := s]}) → s = Begun tok ∨ (∃ c, s = Waiting tok c) →
  step (MkWorld g ∅ {[j := s]}) (MkWorld g ∅ (<[j := Planning tok]> {[j := s]})).
Proof.
  intros Hok [-> | (c & ->)]; pose proof (stage_owns _ _ _ _ _ _ Hok (only _ _)) as Ho.
  - apply reset_idle; [apply only |]. unfold WaitIdle. rewrite (owner_fresh _ _ _ Ho : stale g tok = false), (ow_state _ _ _ Ho : g_state g = _).
    pose proof (gk_active _ _ Hok) as Ha. cbn in Ha. rewrite map_size_empty in Ha. by rewrite Ha.
  - eapply reset_wakes; [apply only |]. destruct (ow_waits _ _ _ Ho _ _ eq_refl) as [-> Hn0].
    destruct (gk_shut _ _ Hok eq_refl) as [?|(c & Hc & Hin)]; [done |]. cbn in Hc. rewrite Hc. cbn. by apply bool_decide_eq_true.
Qed.

Lemma refused_ends (n : Z) (g : Gate) :
  n + 1 < 2^64 → gate_ok n (MkWorld g ∅ {[j := Refused tok]}) → ∃ v, rtc step (MkWorld g ∅ {[j := Refused tok]}) v ∧ settled v.
Proof. intros Hn Hok. eapply last_step; [done | done |]. eapply reset_gives_up, only. Qed.
End alone.

Lemma reset_ends (n : Z) (g : Gate) (rs : gmap nat stage) :
  n + 4 < 2^64 → gate_ok n (MkWorld g ∅ rs) → ∃ v, rtc step (MkWorld g ∅ rs) v ∧ settled v.
Proof.
  intros Hn Hok. pose proof (gk_resets _ _ Hok) as Hr. cbn in Hr. destruct Hr as [_|j s Ho]; [by eapply now_settled |].
  destruct s as [tok|tok c|tok|tok|tok|tok|tok|tok|tok].
  - eapply next_stage; [| done | eapply turn_comes; [done | by left] |]; [lia |]. apply planning_ends. lia.
  - eapply next_stage; [| done | eapply turn_comes; [done | eauto] |]; [lia |]. apply planning_ends. lia.
  - eapply refused_ends; [| done]. lia.
  - eapply planning_ends; [| done]. lia.
  - eapply mutating_ends; [| done]. lia.
  - eapply checking_ends; [| done]. lia.
  - eapply erring_ends; [| done]. lia.
  - eapply aborting_ends; [| done]. lia.
  - eapply failing_ends; [| done]. lia.
Qed.

(** * What holds of every interleaving *)

(** C30.  A reset is alone with the directory.  In whatever order operations are admitted
    and end, resets begin, wait, are cancelled, go on, fail and are aborted, and the gate
    is marked failed: once a call of [Start] is past [WaitIdle], no operation is under
    way and none is admitted, reads included, no other reset is anywhere between its
    [Begin] and its end, and the gate is in the state the call last put it in. *)
Theorem reset_alone (n : nat) (w : world) (j : nat) (s : stage) :
  Z.of_nat n < 2^63 → nsteps step n fresh_world w → w_resets w !! j = Some s → alone s = true →
  w_ops w = ∅ ∧ (∀ j' s', w_resets w !! j' = Some s' → j' = j ∧ s' = s) ∧ stage_state s (g_state (w_gate w)) ∧
  (∀ read, acquire read false (w_gate w) = (w_gate w, Err InProgressErr)) ∧ (∀ now, Begin now (w_gate w) = (w_gate w, Err BusyErr)).
Proof.
  intros Hn Hsteps Hj Hal. assert (Hok : gate_ok (Z.of_nat n) w) by (apply reached_ok; [lia | done]). destruct w as [g ops rs]. cbn in *.
  pose proof (stage_owns _ _ _ _ _ _ Hok Hj) as Ho. pose proof (gk_resets _ _ Hok) as Hr. cbn in Hr.
  destruct (the_reset _ _ _ _ _ Hr Hj) as [-> _]. pose proof (ow_state _ _ _ Ho) as Hst.
  assert (Hrun : running (stateOrReady g) = true) by (destruct s; cbn in Hst; try destruct Hst as [Hst|Hst]; unfold stateOrReady; first [by rewrite Hst | by destruct (g_state g)]).
  split_and!; [by apply Ho | | done | |].
  - intros j' s' Hj'. apply lookup_singleton_Some in Hj' as [? ?]. done.
  - intros read. unfold acquire. by destruct (stateOrReady g), read.
  - intros now. unfold Begin. by destruct (stateOrReady g).
Qed.

(** C31.  Nobody is stuck at the gate.  In every reachable situation ending an operation
    works, that is, does not close a channel twice; a reset that waits for admitted
    operations holds a channel that is closed when they have ended, so the wake-up is
    never lost; and there is a way on in which every operation and every reset ends and
    admission is open again, to everyone or, after a failed reset, to readers. *)
Theorem gate_goes_on (n : nat) (w : world) :
  Z.of_nat n < 2^63 → nsteps step n fresh_world w →
  (∀ i read, w_ops w !! i = Some read → release (w_gate w) ≠ None) ∧
  (∀ j tok c, w_resets w !! j = Some (Waiting tok c) → w_ops w = ∅ → is_drained c (w_gate w) = true) ∧
  ∃ v, rtc step w v ∧ w_ops v = ∅ ∧ w_resets v = ∅ ∧ (acquire true false (w_gate v)).2 = Ok () ∧
    (g_state (w_gate v) = Ready ∨ g_state (w_gate v) = Failed).
Proof.
  intros Hn Hsteps. assert (Hok : gate_ok (Z.of_nat n) w) by (apply reached_ok; [lia | done]). destruct w as [g ops rs]. cbn. split_and!.
  - intros i read Hi. destruct (release_some _ _ _ _ _ _ Hok Hi) as (g' & -> & _). done.
  - intros j tok c Hj ->. pose proof (stage_owns _ _ _ _ _ _ Hok Hj) as Ho. destruct (ow_waits _ _ _ Ho _ _ eq_refl) as [-> Hn0].
    destruct (gk_shut _ _ Hok eq_refl) as [?|(c & Hc & Hin)]; [done |]. cbn in Hc. rewrite Hc. cbn. by apply bool_decide_eq_true.
  - destruct (drain_all _ _ _ _ Hok) as (g1 & Hp1 & Hok1). assert (Hn4 : Z.of_nat n + 4 < 2^64) by lia.
    destruct (reset_ends _ _ _ Hn4 Hok1) as ([g2 ops2 rs2] & Hp2 & [Ho Hr] & m & Hok2).
    cbn in Ho, Hr. subst. exists (MkWorld g2 ∅ ∅). cbn. split; [by etrans |]. split; [done |]. split; [done |].
    pose proof (gk_resets _ _ Hok2) as Hres. pose proof (gk_set _ _ Hok2) as Hset. cbn in Hres, Hset.
    assert (Hnr : running (g_state g2) = false) by by inversion Hres.
    unfold acquire. rewrite stateOrReady_set by done. destruct (g_state g2); try done; cbn; destruct (_ =? _); cbn; auto.
Qed.

(** * Witnesses *)

(** A write, a reset that begins and waits for it, the write's end, and the reset's
    turn. *)
Definition open_gate : Gate := (acquire false false NewGate).1.

Definition closing_gate : Gate := (Begin 7 open_gate).1.

Definition idle_gate : Gate := match release closing_gate with Some g => g | None => closing_gate end.

Definition resetting_gate : Gate := (Advance (MkToken 1 Ready) Resetting idle_gate).1.

Lemma arrives (n : nat) (w w' v u : world) : step w w' → w' = v → nsteps step n v u → nsteps step (S n) w u.
Proof. intros Hs -> Hn. by eapply nsteps_l. Qed.

Definition first_token : Token := MkToken 1 Ready.

Definition waiting_world : world := MkWorld closing_gate {[0%nat := false]} {[5%nat := Waiting first_token (Some 0%nat)]}.

Definition mutating_world : world := MkWorld resetting_gate ∅ {[5%nat := Mutating first_token]}.

Lemma waiting_reached : nsteps step 3 fresh_world waiting_world.
Proof.
  eapply (arrives _ _ _ (MkWorld open_gate {[0%nat := false]} ∅)); [apply (op_admitted NewGate open_gate ∅ ∅ 0%nat false); vm_compute; reflexivity | reflexivity |].
  eapply (arrives _ _ _ (MkWorld closing_gate {[0%nat := false]} {[5%nat := Begun first_token]}));
    [apply (reset_begins open_gate closing_gate _ ∅ 5%nat 7 first_token); vm_compute; reflexivity | reflexivity |].
  eapply (arrives _ _ _ waiting_world); [apply (reset_waits _ _ _ 5%nat first_token (Some 0%nat)); vm_compute; reflexivity | reflexivity | apply nsteps_O].
Qed.

Lemma mutating_reached : nsteps step 6 fresh_world mutating_world.
Proof.
  eapply (nsteps_trans 3 3); [exact waiting_reached |].
  eapply (arrives _ _ _ (MkWorld idle_gate ∅ {[5%nat := Waiting first_token (Some 0%nat)]}));
    [apply (op_done closing_gate idle_gate _ _ 0%nat false); vm_compute; reflexivity | reflexivity |].
  eapply (arrives _ _ _ (MkWorld idle_gate ∅ {[5%nat := Planning first_token]}));
    [apply (reset_wakes _ _ _ 5%nat first_token (Some 0%nat)); vm_compute; reflexivity | reflexivity |].
  eapply (arrives _ _ _ mutating_world); [apply (reset_mutates idle_gate resetting_gate _ _ 5%nat first_token); vm_compute; reflexivity | reflexivity | apply nsteps_O].
Qed.

Lemma reset_alone_witness : g_state resetting_gate = Resetting ∧ acquire true false resetting_gate = (resetting_gate, Err InProgressErr).
Proof.
  destruct (reset_alone 6 _ 5%nat (Mutating first_token) ltac:(reflexivity) mutating_reached ltac:(reflexivity) ltac:(reflexivity)) as (_ & _ & Hs & Ha & _).
  split; [exact Hs | exact (Ha true)].
Defined.

Lemma gate_goes_on_witness :
  release closing_gate ≠ None ∧
  ∃ v, rtc step waiting_world v ∧ w_ops v = ∅ ∧ w_resets v = ∅.
Proof.
  destruct (gate_goes_on 3 _ ltac:(reflexivity) waiting_reached) as (Hr & _ & v & Hp & Ho & Hv & _).
  split; [exact (Hr 0%nat false eq_refl) | exists v; exact (conj Hp (conj Ho Hv))].
Defined.
