(* ===== verification/ResetPlan.v ===== *)
(** What a soft reset deletes: [src/internal/reset/plan.go], and the comparison of
    [src/internal/reset/verify.go] that judges what is left.

    The plan is computed from an inventory of the live directory and the compiled
    geometry; it never touches the directory.  Sets of folded names are finite sets.
    [sort.SliceStable] is insertion sort; so is [sort.Slice], whose order of equal
    elements is unspecified but whose use here never meets equal elements
    ([ResetPlan.co_distinct]). *)

From stdpp Require Import fin_sets sorting.
From S2P Require Import Prelude GoStrings DN DNFacts Schema Gate.
Local Open Scope Z_scope.

(** [directory.ManagedInventory]. *)
Record ManagedInventory : Type := MkInventory {
  inv_Users : list bytes;
  inv_Groups : list bytes;
  inv_Extra : list bytes;
  inv_Preserve : list bytes;
}.

Inductive Kind : Type := KindGroup | KindUser | KindExtra.

#[export] Instance Kind_eq_dec : EqDecision Kind.
Proof. solve_decision. Defined.

Record DeleteStep : Type := MkStep {
  ds_DN : bytes;
  ds_Kind : Kind;
  ds_Depth : nat;
}.

Record Plan : Type := MkPlan {
  Deletes : list DeleteStep;
  Preserve : list bytes;
  plan_Users : list bytes;
  plan_Groups : list bytes;
  plan_Extra : list bytes;
  plan_Counts : Counts;
}.

Record PlanConfig : Type := MkPlanConfig {
  PeopleDN : bytes;
  GroupsDN : bytes;
  AdditionalSuffixes : list bytes;
  Suffix : bytes;
  RuntimeDN : bytes;
  MarkerDN : bytes;
  ConfiguredUsers : list bytes;
  ConfiguredGroups : list bytes;
}.

(** [sort.SliceStable]. *)
Fixpoint insert_before {A} (less : A → A → bool) (x : A) (l : list A) : list A :=
  match l with
  | [] => [x]
  | y :: l' => if less y x then y :: insert_before less x l' else x :: l
  end.

Definition stable_sort {A} (less : A → A → bool) (l : list A) : list A := foldr (insert_before less) [] l.

(** Go's [<] on strings. *)
Definition str_less (a b : bytes) : bool := compare a b <? 0.

Section plan.
Context {U : Unicode}.

(** * Names *)

Definition canonicalDN (dn : bytes) : bytes :=
  match ParseDN dn with
  | Err _ => trim_space dn
  | Ok d => String d
  end.

Definition dnKey (dn : bytes) : bytes := to_lower (canonicalDN dn).

Definition managedKey (dn : bytes) : option bytes :=
  let s := trim_space dn in
  if beq s [] then None else Some (dnKey s).

Definition dnSet (l : list bytes) : gset bytes := list_to_set (omap managedKey l).

Definition underContainer (dn container : bytes) : bool :=
  match ParseDN dn with
  | Err _ => false
  | Ok got =>
    match ParseDN container with
    | Err _ => false
    | Ok par => IsDescendantOf got par
    end
  end.

Definition underManagedContainers (dn : bytes) (cfg : PlanConfig) : bool :=
  if underContainer dn (PeopleDN cfg) || underContainer dn (GroupsDN cfg) then true
  else existsb (underContainer dn) (AdditionalSuffixes cfg).

Definition isGroupDN (dn : bytes) (cfg : PlanConfig) : bool := underContainer dn (GroupsDN cfg).

Definition isUserDN (dn : bytes) (cfg : PlanConfig) : bool := underContainer dn (PeopleDN cfg).

(** [strings.Count(dn, ",") + 1] of a name that does not parse. *)
Definition dnDepth (dn : bytes) : nat :=
  match ParseDN dn with
  | Err _ => length (filter (λ b, b = c_comma) dn) + 1
  | Ok d => Depth d
  end.

Definition preserveSet (inv : ManagedInventory) (cfg : PlanConfig) : gset bytes :=
  dnSet ([RuntimeDN cfg; PeopleDN cfg; GroupsDN cfg; MarkerDN cfg; Suffix cfg] ++ AdditionalSuffixes cfg ++ inv_Preserve inv).

(** [uniqueDN]. *)
Fixpoint unique_go (seen : gset bytes) (l : list bytes) : list bytes :=
  match l with
  | [] => []
  | s :: l' =>
    if bool_decide (dnKey s ∈ seen) then unique_go seen l'
    else canonicalDN s :: unique_go ({[dnKey s]} ∪ seen) l'
  end.

Definition uniqueDN (l : list bytes) : list bytes := unique_go ∅ l.

Definition sortCI (l : list bytes) : list bytes := stable_sort (λ a b, str_less (to_lower a) (to_lower b)) l.

(** * The plan *)

(** What [addLive] has collected. *)
Record live : Type := MkLive {
  lv_seen : gset bytes;
  lv_users : list bytes;
  lv_groups : list bytes;
  lv_extra : list bytes;
}.

Definition addLive (preserve : gset bytes) (cfg : PlanConfig) (hint : Kind) (l : live) (dn : bytes) : live :=
  match managedKey dn with
  | None => l
  | Some key =>
    if negb (underManagedContainers dn cfg) then l
    else if bool_decide (key ∈ lv_seen l) then l
    else if bool_decide (key ∈ preserve) then l
    else
      let seen := {[key]} ∪ lv_seen l in
      if bool_decide (hint = KindGroup) || isGroupDN dn cfg then MkLive seen (lv_users l) (lv_groups l ++ [canonicalDN dn]) (lv_extra l)
      else if bool_decide (hint = KindUser) || isUserDN dn cfg then MkLive seen (lv_users l ++ [canonicalDN dn]) (lv_groups l) (lv_extra l)
      else MkLive seen (lv_users l) (lv_groups l) (lv_extra l ++ [canonicalDN dn])
  end.

(** The three loops of [BuildPlan] over the inventory. *)
Definition collect (preserve : gset bytes) (inv : ManagedInventory) (cfg : PlanConfig) : live :=
  foldl (addLive preserve cfg KindExtra)
    (foldl (addLive preserve cfg KindGroup) (foldl (addLive preserve cfg KindUser) (MkLive ∅ [] [] []) (inv_Users inv)) (inv_Groups inv))
    (inv_Extra inv).

Definition push (preserve : gset bytes) (cfg : PlanConfig) (kind : Kind) (dns : list bytes) : list DeleteStep :=
  omap (λ dn,
    if negb (underManagedContainers dn cfg) then None
    else if bool_decide (dnKey dn ∈ preserve) then None
    else Some (MkStep (canonicalDN dn) kind (dnDepth dn))) dns.

Definition kindPri (k : Kind) : Z :=
  match k with
  | KindGroup => 0
  | KindExtra => 1
  | KindUser => 2
  end.

(** Deeper first, then by kind, then by name. *)
Definition step_less (a b : DeleteStep) : bool :=
  if negb (ds_Depth a =? ds_Depth b)%nat then (ds_Depth b <? ds_Depth a)%nat
  else if negb (kindPri (ds_Kind a) =? kindPri (ds_Kind b)) then kindPri (ds_Kind a) <? kindPri (ds_Kind b)
  else str_less (to_lower (ds_DN a)) (to_lower (ds_DN b)).

Definition configured_in (configured : gset bytes) (dn : bytes) : bool := bool_decide (dnKey dn ∈ configured).

Definition BuildPlan (inv : ManagedInventory) (cfg : PlanConfig) : Plan :=
  let preserve := preserveSet inv cfg in
  let configured := dnSet (ConfiguredUsers cfg ++ ConfiguredGroups cfg) in
  let l := collect preserve inv cfg in
  let keepUsers := filter (λ dn, configured_in configured dn = true) (lv_users l) in
  let extraUsers := filter (λ dn, configured_in configured dn = false) (lv_users l) in
  let keepGroups := filter (λ dn, configured_in configured dn = true) (lv_groups l) in
  let extraGroups := filter (λ dn, configured_in configured dn = false) (lv_groups l) in
  let extra := uniqueDN (sortCI (lv_extra l ++ extraUsers ++ extraGroups)) in
  let steps := stable_sort step_less (push preserve cfg KindExtra extra ++ push preserve cfg KindGroup keepGroups ++ push preserve cfg KindUser keepUsers) in
  MkPlan steps (sort_by id (elements preserve)) keepUsers keepGroups extra
    (MkCounts (Z.of_nat (length steps)) (Z.of_nat (length keepUsers)) (Z.of_nat (length keepGroups)) (Z.of_nat (length extra))).
End plan.

(** * The verdict *)

Record Verdict : Type := MkVerdict {
  ver_OK : bool;
  ver_ExpectedRevision : bytes;
  ver_AppliedRevision : bytes;
  ver_InventoryChecksum : bytes;
  ver_WantChecksum : bytes;
  ver_Reason : bytes;
}.

Section verdict.
Context {U : Unicode}.

Definition Compare (expectedRev markerSerial liveChecksum wantChecksum : bytes) (extras missing : Z) : Verdict :=
  let e := trim_space expectedRev in
  let a := trim_space markerSerial in
  let i := trim_space liveChecksum in
  let w := trim_space wantChecksum in
  let refuse := MkVerdict false e a i w in
  if beq e [] then refuse (B "expected directory revision is empty")
  else if beq a [] then refuse (B "bootstrap marker serialNumber is missing")
  else if negb (beq e a) then refuse (B "compiled directory revision does not match marker serialNumber")
  else if 0 <? extras then refuse (B "runtime-only entries remain under managed containers")
  else if 0 <? missing then refuse (B "compiled baseline objects are missing")
  else if beq w [] || beq i [] then refuse (B "inventory checksum is unavailable")
  else if negb (beq i w) then refuse (B "live inventory checksum does not match compiled baseline")
  else MkVerdict true e a i w [].

(** [ObjectSnap] and the normal form [Checksum] digests.  Members whose names differ
    only in case keep the order they came in, which [sort.Slice] does not promise. *)
Record ObjectSnap : Type := MkSnap {
  sn_DN : bytes;
  sn_Kind : bytes;
  sn_Members : list bytes;
}.

Definition norm_members (ms : list bytes) : list bytes :=
  sortCI (filter (λ m, m ≠ []) (canonicalDN <$> ms)).

Definition norm_snap (o : ObjectSnap) : option ObjectSnap :=
  let dn := canonicalDN (sn_DN o) in
  if beq dn [] then None else Some (MkSnap dn (to_lower (trim_space (sn_Kind o))) (norm_members (sn_Members o))).

Definition snap_less (a b : ObjectSnap) : bool :=
  if negb (beq (sn_Kind a) (sn_Kind b)) then str_less (sn_Kind a) (sn_Kind b)
  else str_less (to_lower (sn_DN a)) (to_lower (sn_DN b)).

Definition normal_form (l : list ObjectSnap) : list ObjectSnap := stable_sort snap_less (omap norm_snap l).
End verdict.

(** What the plan of a soft reset is: every live entry strictly under a managed
    container that is not preserved, once, deepest first. *)

(** * Stable sorting *)

Section stable.
Context {A : Type} (less : A → A → bool).

Lemma insert_before_perm (x : A) (l : list A) : insert_before less x l ≡ₚ x :: l.
Proof. induction l as [|y l IH]; cbn; [done |]. destruct (less y x); [| done]. rewrite IH. apply Permutation_swap. Qed.

Lemma stable_sort_perm (l : list A) : stable_sort less l ≡ₚ l.
Proof. induction l as [|x l IH]; cbn; [done |]. by rewrite insert_before_perm, IH. Qed.

(** A measure the order never decreases. *)
Context (R : relation A) `{!Transitive R} (Hl : ∀ x y, less x y = true → R x y) (Hr : ∀ x y, less y x = false → R x y).

Lemma insert_before_ordered (x : A) (m : list A) : StronglySorted R m → StronglySorted R (insert_before less x m).
Proof.
  induction m as [|y m IHm]; intros Hs; cbn; [by repeat constructor |]. inversion Hs as [|? ? Hs' Hall]; subst. destruct (less y x) eqn:E.
  - constructor; [by apply IHm |]. rewrite insert_before_perm. constructor; [by apply Hl | done].
  - constructor; [done |]. constructor; [by apply Hr |]. eapply Forall_impl; [exact Hall |]. intros z Hz. etrans; [by apply Hr | done].
Qed.

Lemma stable_sort_ordered (l : list A) : StronglySorted R (stable_sort less l).
Proof. induction l as [|x l IH]; [constructor |]. by apply insert_before_ordered. Qed.
End stable.

Lemma ordered_lookup {A} (R : relation A) (l : list A) (i j : nat) (x y : A) :
  StronglySorted R l → (i < j)%nat → l !! i = Some x → l !! j = Some y → R x y.
Proof.
  intros Hs. revert i j. induction Hs as [|z l Hs IH Hall]; intros [|i] [|j] Hij Hi Hj; try done; try lia.
  - injection Hi as ->. rewrite Forall_forall in Hall. by eapply Hall, list_elem_of_lookup_2.
  - eapply (IH i j); [lia | done | done].
Qed.

Section facts.
Context {U : Unicode} {UL : UnicodeLaws U}.

(** A name as the directory prints it: no white space around it and no value that ends
    in a tab, which does not survive printing ([DNFacts.tab_value_not_stable]). *)
Definition tidy (dn : bytes) : Prop := trim_space dn = dn ∧ ∀ d, ParseDN dn = Ok d → no_tab_end d.

Lemma canonical_stable (dn : bytes) (d : DN) : tidy dn → ParseDN dn = Ok d → canonicalDN dn = String d ∧ ParseDN (canonicalDN dn) = Ok d.
Proof.
  intros [_ Ht] Hp. assert (Hc : canonicalDN dn = String d) by (unfold canonicalDN; by rewrite Hp).
  split; [done |]. rewrite Hc. apply ParseDN_String_aux; [by eapply ParseDN_wf_aux | by apply Ht].
Qed.

Lemma under_parses (dn c : bytes) : underContainer dn c = true → ∃ d, ParseDN dn = Ok d.
Proof. unfold underContainer. destruct (ParseDN dn); [eauto | done]. Qed.

Lemma managed_parses (dn : bytes) (cfg : PlanConfig) : underManagedContainers dn cfg = true → ∃ d, ParseDN dn = Ok d.
Proof.
  unfold underManagedContainers. destruct (_ || _) eqn:E.
  - intros _. apply orb_true_iff in E as [E|E]; by eapply under_parses.
  - intros (c & _ & Hc)%existsb_exists. by eapply under_parses.
Qed.

(** What only depends on the parsed name. *)
Lemma under_same (dn dn' : bytes) (d : DN) (c : bytes) : ParseDN dn = Ok d → ParseDN dn' = Ok d → underContainer dn c = underContainer dn' c.
Proof. unfold underContainer. by intros -> ->. Qed.

Lemma managed_same (dn dn' : bytes) (d : DN) (cfg : PlanConfig) :
  ParseDN dn = Ok d → ParseDN dn' = Ok d → underManagedContainers dn cfg = underManagedContainers dn' cfg.
Proof.
  intros H H'. unfold underManagedContainers. rewrite !(under_same dn dn' d) by done. destruct (_ || _); [done |].
  induction (AdditionalSuffixes cfg) as [|c l IH]; [done |]. cbn [existsb]. by rewrite (under_same dn dn' d), IH by done.
Qed.

(** * The live entries *)

Definition lv_all (l : live) : list bytes := lv_users l ++ lv_groups l ++ lv_extra l.

Context (preserve : gset bytes) (cfg : PlanConfig).

(** What a reset deletes of an inventory. *)
Definition deletable (dn : bytes) : Prop := underManagedContainers dn cfg = true ∧ dnKey dn ∉ preserve.

(** A canonical name of something deletable. *)
Definition canonical (c : bytes) : Prop := canonicalDN c = c ∧ deletable c.

Lemma deletable_canonical (dn : bytes) : tidy dn → deletable dn → canonical (canonicalDN dn).
Proof.
  intros Ht [Hm Hk]. destruct (managed_parses _ _ Hm) as [d Hd]. destruct (canonical_stable _ _ Ht Hd) as [Hc Hp].
  assert (Hcc : canonicalDN (canonicalDN dn) = canonicalDN dn) by (unfold canonicalDN at 1; by rewrite Hp).
  split; [done |]. split; [by rewrite <- (managed_same dn _ d) | unfold dnKey; by rewrite Hcc].
Qed.

Lemma managedKey_tidy (dn : bytes) : tidy dn → underManagedContainers dn cfg = true → managedKey dn = Some (dnKey dn).
Proof.
  intros [Ht _] Hm. unfold managedKey. rewrite Ht. destruct (beq dn []) eqn:E; [| done].
  apply beq_true in E as ->. by destruct (managed_parses _ _ Hm) as [d Hd].
Qed.

Record collected (raws : list bytes) (l : live) : Prop := {
  co_seen : ∀ k, k ∈ lv_seen l ↔ k ∈ to_lower <$> lv_all l;
  co_distinct : NoDup (to_lower <$> lv_all l);
  co_sound : ∀ c, c ∈ lv_all l → canonical c ∧ ∃ dn, dn ∈ raws ∧ deletable dn ∧ c = canonicalDN dn;
  co_complete : ∀ dn, dn ∈ raws → deletable dn → dnKey dn ∈ lv_seen l;
}.

Lemma nothing_collected : collected [] (MkLive ∅ [] [] []).
Proof. split; cbn; [set_solver | constructor | set_solver | set_solver]. Qed.

(** Whichever list the name goes to. *)
Lemma collected_new (raws : list bytes) (l l' : live) (dn : bytes) :
  collected raws l → tidy dn → deletable dn → dnKey dn ∉ lv_seen l →
  lv_seen l' = {[dnKey dn]} ∪ lv_seen l → lv_all l' ≡ₚ canonicalDN dn :: lv_all l → collected (raws ++ [dn]) l'.
Proof.
  intros [H1 H2 H3 H4] Ht Hd Hn Hs Ha. split.
  - intros k. rewrite Hs, Ha, elem_of_union, elem_of_singleton, H1, fmap_cons, elem_of_cons. done.
  - rewrite Ha, fmap_cons, NoDup_cons. split; [by rewrite <- H1 | done].
  - intros c. rewrite Ha, elem_of_cons. intros [-> | Hc].
    + split; [by apply deletable_canonical |]. exists dn. split; [set_solver | done].
    + destruct (H3 c Hc) as (Hcan & dn' & Hin & Hdel & ->). split; [done |]. exists dn'. split; [set_solver | done].
  - intros dn' [Hin | ->%list_elem_of_singleton]%elem_of_app Hdel; rewrite Hs; [apply elem_of_union_r; by apply H4 | set_solver].
Qed.

Lemma collected_old (raws : list bytes) (l : live) (dn : bytes) :
  collected raws l → (deletable dn → dnKey dn ∈ lv_seen l) → collected (raws ++ [dn]) l.
Proof.
  intros [H1 H2 H3 H4] Hd. split; [done | done | |].
  - intros c Hc. destruct (H3 c Hc) as (Hcan & dn' & Hin & Hdel & ->). split; [done |]. exists dn'. split; [set_solver | done].
  - intros dn' [Hin | ->%list_elem_of_singleton]%elem_of_app Hdel; [by apply H4 | by apply Hd].
Qed.

Lemma addLive_collected (hint : Kind) (raws : list bytes) (l : live) (dn : bytes) :
  collected raws l → tidy dn → collected (raws ++ [dn]) (addLive preserve cfg hint l dn).
Proof.
  intros Hl Ht. unfold addLive. destruct (underManagedContainers dn cfg) eqn:Em.
  2: { destruct (managedKey dn); cbn [negb]; apply collected_old; try done; intros [? _]; congruence. }
  rewrite (managedKey_tidy dn) by done. cbn [negb]. case_bool_decide as Hs; [by apply collected_old |].
  case_bool_decide as Hp; [apply collected_old; [done | by intros [_ ?]] |].
  destruct (_ || _); [| destruct (_ || _)]; (eapply collected_new; [done | done | done | done | reflexivity |]); unfold lv_all; cbn [lv_users lv_groups lv_extra];
    solve_Permutation.
Qed.

Lemma addLive_all (hint : Kind) (xs raws : list bytes) (l : live) :
  collected raws l → Forall tidy xs → collected (raws ++ xs) (foldl (addLive preserve cfg hint) l xs).
Proof.
  revert raws l. induction xs as [|x xs IH]; intros raws l Hl Hx; [by rewrite app_nil_r |]. apply Forall_cons in Hx as [Hx Hxs].
  cbn [foldl]. replace (raws ++ x :: xs) with ((raws ++ [x]) ++ xs) by by rewrite <- (assoc_L (++)).
  apply IH; [by apply addLive_collected | done].
Qed.

Definition inventoried (inv : ManagedInventory) : list bytes := inv_Users inv ++ inv_Groups inv ++ inv_Extra inv.

Lemma collect_collected (inv : ManagedInventory) : Forall tidy (inventoried inv) → collected (inventoried inv) (collect preserve inv cfg).
Proof.
  intros [Hu [Hg He]%Forall_app]%Forall_app. unfold inventoried, collect. rewrite (assoc_L (++)).
  apply addLive_all; [| done]. apply addLive_all; [| done]. exact (addLive_all KindUser _ [] _ nothing_collected Hu).
Qed.

(** * The steps *)

Lemma unique_same (seen : gset bytes) (l : list bytes) :
  Forall canonical l → NoDup (to_lower <$> l) → (∀ c, c ∈ l → to_lower c ∉ seen) → unique_go seen l = l.
Proof.
  revert seen. induction l as [|c l IH]; intros seen Hc Hn Hs; cbn; [done |]. apply Forall_cons in Hc as [[Hc _] Hl].
  rewrite fmap_cons in Hn. apply NoDup_cons in Hn as [Hx Hn]. assert (Hk : dnKey c = to_lower c) by (unfold dnKey; by rewrite Hc).
  rewrite Hk, bool_decide_false by (apply Hs; set_solver). rewrite Hc. f_equal. apply IH; [done | done |].
  intros c' Hc' [Heq%elem_of_singleton | Hin]%elem_of_union; [| by apply (Hs c'); [set_solver |]].
  apply Hx. rewrite <- Heq. by apply list_elem_of_fmap_2.
Qed.

Definition step_of (k : Kind) (c : bytes) : DeleteStep := MkStep c k (dnDepth c).

Lemma push_all (k : Kind) (l : list bytes) : Forall canonical l → push preserve cfg k l = step_of k <$> l.
Proof.
  induction 1 as [|c l [Hc [Hm Hp]] Hl IH]; [done |]. unfold push in *. cbn. rewrite Hm, bool_decide_false by done. cbn [negb].
  by rewrite IH, Hc.
Qed.
End facts.

(** Splitting by a test. *)
Lemma filter_split {A} (f : A → bool) (l : list A) : filter (λ x, f x = true) l ++ filter (λ x, f x = false) l ≡ₚ l.
Proof.
  induction l as [|x l IH]; [done |]. destruct (f x) eqn:E.
  - rewrite filter_cons_True, filter_cons_False by congruence. cbn. by rewrite IH.
  - rewrite filter_cons_False, filter_cons_True by congruence. by rewrite <- Permutation_middle, IH.
Qed.

Section steps.
Context {U : Unicode} {UL : UnicodeLaws U}.

(** The steps before they are put in order. *)
Lemma built_steps (inv : ManagedInventory) (cfg : PlanConfig) :
  Forall tidy (inventoried inv) →
  let l := collect (preserveSet inv cfg) inv cfg in
  let p := BuildPlan inv cfg in
  ds_DN <$> Deletes p ≡ₚ lv_all l ∧ StronglySorted (λ a b, (ds_Depth b ≤ ds_Depth a)%nat) (Deletes p) ∧
  Forall (λ s, ds_Depth s = dnDepth (ds_DN s)) (Deletes p) ∧
  (length (Deletes p) = length (plan_Users p) + length (plan_Groups p) + length (plan_Extra p))%nat ∧
  plan_Users p ⊆ lv_users l ∧ plan_Groups p ⊆ lv_groups l.
Proof.
  intros Ht l p. pose proof (collect_collected (preserveSet inv cfg) cfg inv Ht) as [_ Hnd Hs _]. fold l in Hnd, Hs.
  set (f := configured_in (dnSet (ConfiguredUsers cfg ++ ConfiguredGroups cfg))).
  set (ku := filter (λ dn, f dn = true) (lv_users l)). set (eu := filter (λ dn, f dn = false) (lv_users l)).
  set (kg := filter (λ dn, f dn = true) (lv_groups l)). set (eg := filter (λ dn, f dn = false) (lv_groups l)).
  set (ex := sortCI (lv_extra l ++ eu ++ eg)).
  assert (Hex : ex ≡ₚ lv_extra l ++ eu ++ eg) by apply stable_sort_perm.
  assert (Hall : ex ++ kg ++ ku ≡ₚ lv_all l).
  { rewrite Hex. unfold lv_all. rewrite <- (filter_split f (lv_users l)) at 1. rewrite <- (filter_split f (lv_groups l)) at 1.
    fold ku eu kg eg. solve_Permutation. }
  assert (Hcan : Forall (canonical (preserveSet inv cfg) cfg) (ex ++ kg ++ ku)).
  { rewrite Hall. apply Forall_forall. intros c Hc. by apply (Hs c). }
  rewrite <- Hall in Hnd. rewrite fmap_app in Hnd. apply Forall_app in Hcan as [Hcex [Hckg Hcku]%Forall_app].
  apply NoDup_app in Hnd as (Hndex & _).
  assert (Hun : uniqueDN ex = ex) by (apply (unique_same (preserveSet inv cfg) cfg); [done | done | set_solver]).
  assert (Hst : Deletes p ≡ₚ (step_of KindExtra <$> ex) ++ (step_of KindGroup <$> kg) ++ (step_of KindUser <$> ku)).
  { unfold p, BuildPlan. cbn [Deletes]. rewrite stable_sort_perm. fold l f ku kg eu eg ex. by rewrite Hun, !(push_all (preserveSet inv cfg) cfg). }
  split_and!.
  - rewrite Hst, !fmap_app, <- !list_fmap_compose. change (ds_DN ∘ step_of _) with (@id bytes). by rewrite !list_fmap_id.
  - apply stable_sort_ordered; [intros ???; lia | |]; intros x y; unfold step_less; destruct (Nat.eqb_spec (ds_Depth x) (ds_Depth y)); cbn [negb];
      destruct (Nat.eqb_spec (ds_Depth y) (ds_Depth x)); cbn [negb]; try lia; rewrite ?Nat.ltb_lt, ?Nat.ltb_ge; lia.
  - rewrite Hst, !Forall_app, !Forall_fmap. split_and!; by apply Forall_forall.
  - rewrite Hst. unfold p, BuildPlan. cbn [plan_Users plan_Groups plan_Extra]. fold l f ku kg eu eg ex. rewrite Hun, !length_app, !length_fmap. lia.
  - unfold p, BuildPlan. cbn [plan_Users]. intros x Hx. by apply list_elem_of_filter in Hx as [_ ?].
  - unfold p, BuildPlan. cbn [plan_Groups]. intros x Hx. by apply list_elem_of_filter in Hx as [_ ?].
Qed.

Lemma kept_names (inv : ManagedInventory) (cfg : PlanConfig) (x k : bytes) :
  x ∈ [RuntimeDN cfg; PeopleDN cfg; GroupsDN cfg; MarkerDN cfg; Suffix cfg] ++ AdditionalSuffixes cfg ++ inv_Preserve inv →
  managedKey x = Some k → k ∈ preserveSet inv cfg.
Proof. intros Hx Hk. unfold preserveSet, dnSet. apply elem_of_list_to_set, list_elem_of_omap. by exists x. Qed.

(** Nothing at the depth of a name or above it is under it. *)
Lemma not_under (dn c : bytes) : (dnDepth dn ≤ dnDepth c)%nat → underContainer dn c = false.
Proof.
  intros Hle. unfold underContainer, dnDepth in *. destruct (ParseDN dn) as [d|]; [| done]. destruct (ParseDN c) as [a|]; [| done].
  unfold IsDescendantOf, Depth in *. by rewrite (proj2 (Nat.leb_le _ _) Hle), orb_true_r.
Qed.

(** C38.  The plan of a soft reset, of any inventory whose names are spelled without white
    space around them and without a value that ends in a tab ([tidy]; such a value does
    not survive printing, and the plan then deletes another entry than the inventoried
    one: [tab_deletes_another]).  Every step deletes an inventoried entry strictly under a
    managed container, never the runtime account, a container, the marker, a suffix or
    another preserved name, whatever its spelling; every inventoried entry under a managed
    container that is not preserved has a step; no name has two; no step comes before one
    for something under it; and every step is counted once, as a user, a group or an
    extra.  What is under a container is decided as the plan decides it, by spelling
    ([respelled_survives]). *)
Theorem plan_spec (inv : ManagedInventory) (cfg : PlanConfig) :
  Forall tidy (inventoried inv) →
  (∀ s, s ∈ Deletes (BuildPlan inv cfg) →
     underManagedContainers (ds_DN s) cfg = true ∧ (∃ dn, dn ∈ inventoried inv ∧ ds_DN s = canonicalDN dn) ∧
     ∀ x, x ∈ [RuntimeDN cfg; PeopleDN cfg; GroupsDN cfg; MarkerDN cfg; Suffix cfg] ++ AdditionalSuffixes cfg ++ inv_Preserve inv →
       managedKey x ≠ Some (dnKey (ds_DN s))) ∧
  (∀ dn, dn ∈ inventoried inv → underManagedContainers dn cfg = true → dnKey dn ∉ preserveSet inv cfg →
     ∃ s, s ∈ Deletes (BuildPlan inv cfg) ∧ dnKey (ds_DN s) = dnKey dn) ∧
  NoDup ((λ s, dnKey (ds_DN s)) <$> Deletes (BuildPlan inv cfg)) ∧
  (∀ i j s t, (i < j)%nat → Deletes (BuildPlan inv cfg) !! i = Some s → Deletes (BuildPlan inv cfg) !! j = Some t →
     underContainer (ds_DN t) (ds_DN s) = false) ∧
  Deleted (plan_Counts (BuildPlan inv cfg)) =
    Users (plan_Counts (BuildPlan inv cfg)) + Groups (plan_Counts (BuildPlan inv cfg)) + Extra (plan_Counts (BuildPlan inv cfg)).
Proof.
  intros Ht. pose proof (collect_collected (preserveSet inv cfg) cfg inv Ht) as [Hseen Hnd Hs Hc].
  destruct (built_steps inv cfg Ht) as (Hperm & Hsort & Hdepth & Hlen & _).
  assert (Hin : ∀ s, s ∈ Deletes (BuildPlan inv cfg) → ds_DN s ∈ lv_all (collect (preserveSet inv cfg) inv cfg)).
  { intros s Hin. rewrite <- Hperm. by apply list_elem_of_fmap_2. }
  assert (Hkey : ∀ s, s ∈ Deletes (BuildPlan inv cfg) → dnKey (ds_DN s) = to_lower (ds_DN s)).
  { intros s Hin'. destruct (Hs _ (Hin s Hin')) as [[Hcan _] _]. unfold dnKey. by rewrite Hcan. }
  split_and!.
  - intros s Hin'. destruct (Hs _ (Hin s Hin')) as ((_ & Hm & Hk) & dn & Hdn & _ & Heq).
    split; [done |]. split; [by exists dn |]. intros x Hx Hkx. by apply Hk, (kept_names inv cfg x).
  - intros dn Hdn Hm Hk. assert (Hsn : dnKey dn ∈ to_lower <$> lv_all (collect (preserveSet inv cfg) inv cfg)) by (apply Hseen, Hc; done).
    rewrite <- Hperm, <- list_fmap_compose in Hsn. apply list_elem_of_fmap in Hsn as (s & Heq & Hin').
    exists s. split; [done |]. by rewrite Hkey.
  - rewrite <- Hperm, <- list_fmap_compose in Hnd. rewrite (list_fmap_ext _ (to_lower ∘ ds_DN)); [done |].
    intros i s Hi. cbn. by eapply Hkey, list_elem_of_lookup_2.
  - intros i j s t Hij Hi Hj. apply not_under. rewrite Forall_forall in Hdepth.
    rewrite <- !Hdepth by (by eapply list_elem_of_lookup_2). exact (ordered_lookup _ _ i j s t Hsort Hij Hi Hj).
  - unfold BuildPlan in *. cbn [plan_Counts Deleted Users Groups Extra Deletes plan_Users plan_Groups plan_Extra] in *. lia.
Qed.
End steps.

(** * Witnesses *)

Definition lab_config : PlanConfig :=
  MkPlanConfig (B "ou=people,dc=lab") (B "ou=groups,dc=lab") [B "dc=extra"] (B "dc=lab") (B "uid=control,dc=lab") (B "cn=marker,dc=lab")
    [B "uid=ada,ou=people,dc=lab"] [B "cn=staff,ou=groups,dc=lab"].

Definition lab_inventory : ManagedInventory :=
  MkInventory [B "UID=ada, ou=people,dc=lab"; B "uid=eve,ou=people,dc=lab"; B "uid=control,dc=lab"] [B "cn=Staff,ou=groups,dc=lab"]
    [B "cn=key,uid=eve,ou=people,dc=lab"; B "ou=people,dc=lab"; B "cn=note,dc=extra"] [B "dc=lab"].

Definition tidyb (dn : bytes) : bool :=
  bool_decide (trim_space dn = dn) &&
  match ParseDN (U := ascii_unicode) dn with
  | Ok d => forallb (λ r, negb (bool_decide (last (rdn_value r) = Some c_tab))) (rdns d)
  | Err _ => true
  end.

Lemma tidyb_tidy (dn : bytes) : tidyb dn = true → tidy (U := ascii_unicode) dn.
Proof.
  intros [Ht%bool_decide_eq_true Hp]%andb_true_iff. split; [done |]. intros d Hd. rewrite Hd in Hp.
  rewrite forallb_forall in Hp. apply Forall_forall. intros r Hr. specialize (Hp r (proj1 (list_elem_of_In _ _) Hr)).
  by apply negb_true_iff, bool_decide_eq_false in Hp.
Qed.

Lemma lab_tidy : Forall (tidy (U := ascii_unicode)) (inventoried lab_inventory).
Proof. apply Forall_forall. intros dn Hdn. apply tidyb_tidy. revert dn Hdn. apply Forall_forall. repeat constructor. Qed.

(** The plan of the example, and that its first step is not preserved. *)
Lemma plan_spec_witness :
  ds_DN <$> Deletes (BuildPlan (U := ascii_unicode) lab_inventory lab_config) =
    [B "cn=key,uid=eve,ou=people,dc=lab"; B "cn=Staff,ou=groups,dc=lab"; B "uid=eve,ou=people,dc=lab"; B "uid=ada,ou=people,dc=lab"; B "cn=note,dc=extra"] ∧
  NoDup ((λ s, dnKey (U := ascii_unicode) (ds_DN s)) <$> Deletes (BuildPlan (U := ascii_unicode) lab_inventory lab_config)).
Proof.
  split; [vm_compute; reflexivity |].
  exact (proj1 (proj2 (proj2 (plan_spec (U := ascii_unicode) (UL := ascii_unicode_laws) lab_inventory lab_config lab_tidy)))).
Defined.

(** A value that ends in a tab is printed as it is and trimmed when it is read again: of a
    directory that holds the one entry, the plan deletes another. *)
Lemma tab_deletes_another :
  let dn := B "uid=a\09,ou=people,dc=lab" in
  ds_DN <$> Deletes (BuildPlan (U := ascii_unicode) (MkInventory [dn] [] [] []) lab_config) = [B "uid=a,ou=people,dc=lab"] ∧
  match ParseDN (U := ascii_unicode) dn, ParseDN (U := ascii_unicode) (B "uid=a,ou=people,dc=lab") with
  | Ok d, Ok d' => EqualFold (U := ascii_unicode) d d' = false
  | _, _ => False
  end.
Proof. split; vm_compute; reflexivity. Qed.

(** A divergence: an entry whose name spells its container in another case is under the
    container for the directory, which folds names, but not for the plan: a soft reset
    leaves it, and the verification, which counts the extras of another plan, does not
    see it. *)
Lemma respelled_survives :
  let dn := B "uid=mallory,ou=People,dc=lab" in
  (match ParseDN (U := ascii_unicode) dn, ParseDN (U := ascii_unicode) (PeopleDN lab_config) with
   | Ok d, Ok c => match DN.Parent d with Some p => EqualFold (U := ascii_unicode) p c | None => false end
   | _, _ => false
   end) = true ∧
  Deletes (BuildPlan (U := ascii_unicode) (MkInventory [dn] [] [] []) lab_config) = [] ∧
  plan_Extra (BuildPlan (U := ascii_unicode) (MkInventory [dn] [] [] []) lab_config) = [].
Proof. split_and!; vm_compute; reflexivity. Qed.
