(* ===== verification/ResetRun.v ===== *)
(** A soft reset: [Reset.Start] of [src/internal/app/reset.go] and what it calls, over
    the gate of [Gate], the plan of [ResetPlan] and the failure point of
    [src/internal/reset/inject.go].

    The directory, its repositories and the rest of the environment are an
    interface: every call may change the environment, the clock and the network
    included.  [Start] runs the reset without its caller's cancellation
    ([context.WithoutCancel]), so the checks of the context inside [run] never fire and
    are left out.  Of an error the model keeps the code of its field and its public
    message. *)

From stdpp Require Import fin_sets.
From S2P Require Import Prelude GoStrings DN Gate ResetPlan.
Local Open Scope Z_scope.

(** [apperr.Error]; an error of another kind has neither. *)
Record apperr : Type := MkErr {
  err_field : bytes;
  err_public : bytes;
}.

(** [config.ResolvedSecret], the configured users and groups. *)
Record ResolvedSecret : Type := MkSecret {
  sec_Path : bytes;
  sec_Value : bytes;
  sec_Digest : bytes;
}.

Record NormalizedUser : Type := MkNUser {
  nu_ID : bytes;
  nu_UID : bytes;
  nu_DN : bytes;
  nu_Enabled : bool;
  nu_Password : option ResolvedSecret;
  nu_Attributes : list (bytes * bytes);
}.

Record MemberRef : Type := MkMember {
  mr_Kind : bytes;
  mr_ID : bytes;
  mr_DN : bytes;
}.

Record NormalizedGroup : Type := MkNGroup {
  ng_ID : bytes;
  ng_DN : bytes;
  ng_Members : list MemberRef;
}.

(** [directory.UserSpec] as [upsertUser] fills it. *)
Record UserSpec : Type := MkUserSpec {
  us_ID : bytes;
  us_UID : bytes;
  us_Enabled : bool;
  us_Password : bytes;
  us_Attributes : option (gmap bytes bytes);
}.

(** What a reset reads of a user and a group: the name, the members, the revision. *)
Record live_user : Type := MkLiveUser {
  lu_DN : bytes;
  lu_Revision : bytes;
}.

Record live_group : Type := MkLiveGroup {
  lg_DN : bytes;
  lg_Members : list MemberRef;
  lg_Revision : bytes;
}.

(** The directory and the rest of what a reset calls. *)
Class ResetEnv (D : Type) : Type := {
  authorize : D → D * option apperr;
  rateLimit : D → D * option apperr;
  record : bytes → bytes → bytes → D → D;
  now : D → D * Z;
  Resolve : bytes → bytes → D → D * res apperr ResolvedSecret;
  dir_Inventory : D → D * res apperr ManagedInventory;
  ReadMarker : D → D * res apperr bytes;
  BindTest : bytes → bytes → D → D * res apperr bytes;
  users_Get : bytes → D → D * res apperr live_user;
  groups_Get : bytes → D → D * res apperr live_group;
  DeleteManaged : bytes → D → D * option apperr;
  users_Add : UserSpec → D → D * option apperr;
  users_Modify : bytes → bool → option (gmap bytes bytes) → bytes → D → D * option apperr;
  users_SetPassword : bytes → bytes → bytes → D → D * option apperr;
  groups_Add : bytes → list MemberRef → D → D * option apperr;
  groups_ReplaceMembers : bytes → list MemberRef → bytes → D → D * option apperr;
  fixup : D → D * option apperr;
  sha256_hex : bytes → bytes;
  (** The digest of the JSON of normalised objects. *)
  digest : list ObjectSnap → bytes;
}.

(** The fields of [Reset]; the gate is in the state, and whether an optional
    collaborator is there a flag. *)
Record ResetSpec : Type := MkReset {
  r_soft : bool;
  r_name : bytes;
  r_expected : bytes;
  r_plan : PlanConfig;
  r_seedU : list NormalizedUser;
  r_seedG : list NormalizedGroup;
  r_has_dir : bool;
  r_has_repos : bool;
  r_has_marker : bool;
  r_has_bind : bool;
  r_has_secrets : bool;
  r_has_fixup : bool;
}.

Record ResetRequest : Type := MkResetRequest {
  rq_Name : bytes;
  rq_ExpectedRevision : bytes;
}.

Record ResetStatus : Type := MkStatus {
  st_Phase : bytes;
  st_State : bytes;
  st_Counts : Counts;
  st_ExpectedRevision : bytes;
  st_AppliedRevision : bytes;
  st_InventoryChecksum : bytes;
  st_Error : bytes;
  st_Recovery : bytes;
}.

Definition statusFrom (op : Operation) : ResetStatus :=
  MkStatus (op_Phase op) (state_name (op_State op)) (op_Counts op) (op_ExpectedRevision op) (op_AppliedRevision op)
    (op_InventoryChecksum op) (op_Error op) (op_Recovery op).

Definition publicResetErr (e : apperr) : bytes :=
  if beq (err_public e) [] then B "reset failed" else err_public e.

Definition FieldConflict : bytes := B "conflict".

(** The phases the failure point names. *)
Definition PhaseDeleteGroups : bytes := B "delete.groups".
Definition PhaseDeleteUsers : bytes := B "delete.users".
Definition PhaseDeleteExtra : bytes := B "delete.extra".
Definition PhaseReapplyUsers : bytes := B "reapply.users".
Definition PhaseReapplyGroups : bytes := B "reapply.groups".
Definition PhaseVerify : bytes := B "verify".

(** The errors of the gate. *)
Definition gate_apperr (e : gate_err) : apperr :=
  match e with
  | InProgressErr => MkErr (B "reset_in_progress") (B "reset in progress")
  | FailedErr => MkErr (B "reset_failed") (B "soft reset did not finish")
  | BusyErr => MkErr (B "conflict") (B "reset already in progress")
  | StaleErr => MkErr (B "stale") (B "reset token is stale")
  | InvalidTransition _ _ => MkErr (B "invalid_transition") (B "invalid reset transition")
  | CtxErr => MkErr [] []
  end.

(** * Calls that may fail *)

Section run.
Context {U : Unicode} {D : Type} {RE : ResetEnv D}.

(** The gate, the environment, the point where the injector trips. *)
Record rstate : Type := MkRState {
  rs_gate : Gate;
  rs_dir : D;
  rs_point : bytes;
}.

Definition RM (A : Type) : Type := rstate → rstate * res apperr A.

#[local] Instance rm_ret : MRet RM := λ A a s, (s, Ok a).

#[local] Instance rm_bind : MBind RM := λ A C f m s,
  match m s with
  | (s', Ok a) => f a s'
  | (s', Err e) => (s', Err e)
  end.

Definition raise {A} (e : apperr) : RM A := λ s, (s, Err e).

(** The error of a call as a value. *)
Definition attempt {A} (m : RM A) : RM (res apperr A) := λ s, let '(s', r) := m s in (s', Ok r).

Definition call {A} (f : D → D * res apperr A) : RM A := λ s, let '(d, r) := f (rs_dir s) in (MkRState (rs_gate s) d (rs_point s), r).

Definition effect (f : D → D * option apperr) : RM () := λ s,
  let '(d, e) := f (rs_dir s) in (MkRState (rs_gate s) d (rs_point s), match e with None => Ok () | Some e => Err e end).

Definition at_gate {A} (f : Gate → Gate * res gate_err A) : RM A := λ s,
  let '(g, r) := f (rs_gate s) in (MkRState g (rs_dir s) (rs_point s), match r with Ok a => Ok a | Err e => Err (gate_apperr e) end).

(** [for _, x := range l] with an early return. *)
Fixpoint each {A} (f : A → RM ()) (l : list A) : RM () :=
  match l with
  | [] => mret ()
  | x :: l' => _ ← f x; each f l'
  end.

(** [Injector.Set]. *)
Definition Set_point (phase : bytes) (s : rstate) : rstate := MkRState (rs_gate s) (rs_dir s) phase.

(** [Injector.Trip]: the point trips once. *)
Definition Trip (phase : bytes) : RM () := λ s,
  if beq (rs_point s) [] || negb (beq (rs_point s) phase) then (s, Ok ())
  else (MkRState (rs_gate s) (rs_dir s) [], Err (MkErr (B "injected") (B "injected reset failure"))).

(** * Deleting and applying again *)

Definition delete_phase (k : Kind) : bytes :=
  match k with
  | KindGroup => PhaseDeleteGroups
  | KindUser => PhaseDeleteUsers
  | KindExtra => PhaseDeleteExtra
  end.

Definition delete_step (step : DeleteStep) : RM () :=
  _ ← Trip (delete_phase (ds_Kind step)); effect (DeleteManaged (ds_DN step)).

Definition executeDeletes (plan : Plan) : RM () := each delete_step (Deletes plan).

Definition attrMap (l : list (bytes * bytes)) : option (gmap bytes bytes) :=
  match l with
  | [] => None
  | _ => Some (foldl (λ m '(k, v), <[k := v]> m) ∅ l)
  end.

Definition seedUserID (u : NormalizedUser) : bytes := if beq (nu_UID u) [] then nu_ID u else nu_UID u.

Definition user_password (u : NormalizedUser) : bytes :=
  match nu_Password u with
  | None => []
  | Some s => sec_Value s
  end.

Definition upsertUser (u : NormalizedUser) : RM () :=
  let spec := MkUserSpec (nu_ID u) (nu_UID u) (nu_Enabled u) (user_password u) (attrMap (nu_Attributes u)) in
  added ← attempt (effect (users_Add spec));
  match added with
  | Ok _ => mret ()
  | Err e =>
    if negb (beq (err_field e) FieldConflict) then raise e
    else
      got ← call (users_Get (seedUserID u));
      _ ← effect (users_Modify (seedUserID u) (us_Enabled spec) (us_Attributes spec) (lu_Revision got));
      fresh ← call (users_Get (seedUserID u));
      effect (users_SetPassword (seedUserID u) (user_password u) (lu_Revision fresh))
  end.

Definition upsertGroup (g : NormalizedGroup) : RM () :=
  added ← attempt (effect (groups_Add (ng_ID g) (ng_Members g)));
  match added with
  | Ok _ => mret ()
  | Err e =>
    if negb (beq (err_field e) FieldConflict) then raise e
    else
      got ← call (groups_Get (ng_ID g));
      effect (groups_ReplaceMembers (ng_ID g) (ng_Members g) (lg_Revision got))
  end.

Definition reapply (cfg : ResetSpec) (seeds : list NormalizedUser) : RM () :=
  if negb (r_has_repos cfg) then raise (MkErr (B "unavailable") (B "reset repositories are not configured"))
  else
    _ ← Trip PhaseReapplyUsers;
    _ ← each upsertUser seeds;
    _ ← Trip PhaseReapplyGroups;
    each upsertGroup (r_seedG cfg).

(** * Verifying *)

Definition user_kind : bytes := B "user".
Definition group_kind : bytes := B "group".

Definition wantSnaps (cfg : ResetSpec) : list ObjectSnap :=
  ((λ u, MkSnap (nu_DN u) user_kind []) <$> r_seedU cfg) ++ ((λ g, MkSnap (ng_DN g) group_kind (mr_DN <$> ng_Members g)) <$> r_seedG cfg).

(** [compiled]: the last member of an identifier names it. *)
Definition compiled_dn (ms : list MemberRef) (id : bytes) : bytes :=
  foldl (λ dn m, if beq (mr_ID m) id then mr_DN m else dn) [] ms.

Definition or_else (dn other : bytes) : bytes := if beq dn [] then other else dn.

Definition live_member (cfg : ResetSpec) (g : NormalizedGroup) (m : MemberRef) : bytes :=
  let dn := or_else (mr_DN m) (compiled_dn (ng_Members g) (mr_ID m)) in
  if beq dn [] && negb (beq (mr_ID m) []) && negb (beq (PeopleDN (r_plan cfg)) []) then B "uid=" ++ mr_ID m ++ B "," ++ PeopleDN (r_plan cfg)
  else dn.

(** What one call of [liveSnaps] found of an object: nothing counts as missing. *)
Definition user_snap (u : NormalizedUser) : RM (option ObjectSnap) :=
  got ← attempt (call (users_Get (seedUserID u)));
  mret (match got with
        | Err _ => None
        | Ok l => Some (MkSnap (or_else (lu_DN l) (nu_DN u)) user_kind [])
        end).

Definition group_snap (cfg : ResetSpec) (g : NormalizedGroup) : RM (option ObjectSnap) :=
  got ← attempt (call (groups_Get (ng_ID g)));
  mret (match got with
        | Err _ => None
        | Ok l => Some (MkSnap (or_else (lg_DN l) (ng_DN g)) group_kind (filter (λ dn, dn ≠ []) (live_member cfg g <$> lg_Members l)))
        end).

Fixpoint collect_snaps {A} (f : A → RM (option ObjectSnap)) (l : list A) : RM (list ObjectSnap * Z) :=
  match l with
  | [] => mret ([], 0)
  | x :: l' =>
    o ← f x;
    '(snaps, missing) ← collect_snaps f l';
    mret (match o with Some s => (s :: snaps, missing) | None => (snaps, missing + 1) end)
  end.

Definition liveSnaps (cfg : ResetSpec) : RM (list ObjectSnap * Z) :=
  '(us, mu) ← collect_snaps user_snap (r_seedU cfg);
  '(gs, mg) ← collect_snaps (group_snap cfg) (r_seedG cfg);
  mret (us ++ gs, mu + mg).

Definition Checksum (l : list ObjectSnap) : bytes := digest (normal_form l).

Definition bind_seed (u : NormalizedUser) : RM () :=
  match nu_Enabled u, nu_Password u with
  | true, Some pw =>
    outcome ← call (BindTest (nu_UID u) (sec_Value pw));
    if beq outcome (B "success") then mret () else raise (MkErr (B "bind_failed") (B "reset verification failed"))
  | _, _ => mret ()
  end.

Definition bindCheck (cfg : ResetSpec) (seeds : list NormalizedUser) : RM () :=
  if r_has_bind cfg then each bind_seed seeds else mret ().

(** A call whose error comes with a status; [gate.Current] is the status of most. *)
Definition RS : Type := rstate → rstate * (ResetStatus * option apperr).

Definition or_status {A} (st : rstate → ResetStatus) (m : RM A) (k : A → RS) : RS := λ s,
  match m s with
  | (s', Ok a) => k a s'
  | (s', Err e) => (s', (st s', Some e))
  end.

Definition current_status (s : rstate) : ResetStatus := statusFrom (g_cur (rs_gate s)).

Definition Status (s : rstate) : ResetStatus := statusFrom (Snapshot (rs_gate s)).

Definition verdict_status (counts : Counts) (ver : Verdict) (phase : State) (error recovery : bytes) : ResetStatus :=
  MkStatus (state_name phase) (state_name phase) counts (ver_ExpectedRevision ver) (ver_AppliedRevision ver) (ver_InventoryChecksum ver) error recovery.

Definition verify (cfg : ResetSpec) (seeds : list NormalizedUser) (counts : Counts) : RS :=
  or_status current_status (Trip PhaseVerify) (λ _,
  or_status current_status (if r_has_marker cfg then call ReadMarker else mret []) (λ markerSerial,
  or_status current_status (call dir_Inventory) (λ inv,
  or_status current_status (liveSnaps cfg) (λ '(live, missing),
  let ver := Compare (r_expected cfg) markerSerial (Checksum live) (Checksum (wantSnaps cfg)) (Z.of_nat (length (plan_Extra (BuildPlan inv (r_plan cfg))))) missing in
  if negb (ver_OK ver) then
    λ s, (s, (verdict_status counts ver Verifying (ver_Reason ver) RecoveryInstructions, Some (MkErr (B "verify_failed") (B "reset verification failed"))))
  else λ s,
    match bindCheck cfg seeds s with
    | (s', Err e) => (s', (verdict_status counts ver Verifying (publicResetErr e) RecoveryInstructions, Some e))
    | (s', Ok _) => (s', (verdict_status counts ver Ready [] [], None))
    end)))).

(** * The run *)

Definition record_plan (cfg : ResetSpec) (plan : Plan) (op : Operation) : Operation :=
  MkOperation (op_Phase op) (op_State op) (plan_Counts plan) (r_expected cfg) (op_AppliedRevision op) (op_InventoryChecksum op)
    (op_Error op) (op_Recovery op) (op_StartedAt op) (op_FinishedAt op).

Definition update_gate (f : Gate → Gate) : RM () := λ s, (MkRState (f (rs_gate s)) (rs_dir s) (rs_point s), Ok ()).

Definition run (cfg : ResetSpec) (tok : Token) (seeds : list NormalizedUser) : RS :=
  if negb (r_has_dir cfg) then λ s, (s, (Status s, Some (MkErr (B "unavailable") (B "reset inventory is not configured"))))
  else
    or_status Status (call dir_Inventory) (λ inv,
    let plan := BuildPlan inv (r_plan cfg) in
    or_status Status (update_gate (Update tok (record_plan cfg plan))) (λ _,
    or_status Status (at_gate (Advance tok Resetting)) (λ _,
    or_status current_status (executeDeletes plan) (λ _,
    or_status current_status (reapply cfg seeds) (λ _,
    or_status current_status (if r_has_fixup cfg then effect fixup else mret ()) (λ _,
    or_status current_status (at_gate (Advance tok Verifying)) (λ _,
    verify cfg seeds (plan_Counts plan)))))))).

(** * Start *)

Definition AuditSuccess : bytes := B "success".
Definition AuditFailure : bytes := B "failure".

(** [hooks.record] of this operation. *)
Definition audited (result before after : bytes) : rstate → rstate := λ s,
  MkRState (rs_gate s) (record result before after (rs_dir s)) (rs_point s).

(** The caller's context and what the operations admitted before do to the gate while
    the call waits for them. *)
Record caller : Type := MkCaller {
  ctx_done : bool;
  ctx_done_waiting : bool;
  ctx_cancelled : bool;
  ctx_settle : Gate → Gate;
}.

Definition set_gate (g : Gate) (s : rstate) : rstate := MkRState g (rs_dir s) (rs_point s).

(** [gate.WaitIdle]. *)
Definition wait_idle (c : caller) (tok : Token) (s : rstate) : rstate * option apperr :=
  match WaitIdle (ctx_done_waiting c) tok (rs_gate s) with
  | IdleErr e => (s, Some (gate_apperr e))
  | IdleNow => (s, None)
  | IdleWait _ => (set_gate (ctx_settle c (rs_gate s)) s, if ctx_cancelled c then Some (gate_apperr CtxErr) else None)
  end.

Definition seed_owner (u : NormalizedUser) : bytes := B "spec.users[" ++ nu_ID u ++ B "].passwordFile".

Definition with_password (pw : ResolvedSecret) (u : NormalizedUser) : NormalizedUser :=
  MkNUser (nu_ID u) (nu_UID u) (nu_DN u) (nu_Enabled u) (Some pw) (nu_Attributes u).

Definition secret_unreadable : apperr := MkErr (B "secret_unreadable") (B "secret file unreadable").

Definition reload_seed (cfg : ResetSpec) (u : NormalizedUser) : RM NormalizedUser :=
  match nu_Password u with
  | None => raise secret_unreadable
  | Some pw =>
    if r_has_secrets cfg && negb (beq (sec_Path pw) []) then
      sec ← call (Resolve (seed_owner u) (sec_Path pw));
      let want := if beq (sec_Digest pw) [] then sha256_hex (sec_Value pw) else sec_Digest pw in
      if negb (beq (sec_Digest sec) want) then raise (MkErr (B "conflict") (B "seed password changed since configuration was compiled"))
      else mret (with_password sec u)
    else if beq (sec_Value pw) [] then raise secret_unreadable
    else mret u
  end.

Fixpoint reload_all (cfg : ResetSpec) (l : list NormalizedUser) : RM (list NormalizedUser) :=
  match l with
  | [] => mret []
  | u :: l' => v ← reload_seed cfg u; vs ← reload_all cfg l'; mret (v :: vs)
  end.

Definition reloadSeeds (cfg : ResetSpec) : RM (list NormalizedUser) := reload_all cfg (r_seedU cfg).

(** The clock, read before a critical section. *)
Definition at_time {A} (f : Z → Gate → Gate * res gate_err A) : RM A := λ s,
  let '(d, t) := now (rs_dir s) in at_gate (f t) (MkRState (rs_gate s) d (rs_point s)).

Definition finish (tok : Token) (ok : bool) (op : Operation) (s : rstate) : rstate :=
  let '(d, t) := now (rs_dir s) in MkRState (Finish t tok ok op (rs_gate s)) d (rs_point s).

Definition failed_operation (cfg : ResetSpec) (st : ResetStatus) (e : apperr) : Operation :=
  MkOperation (st_Phase st) Unset (st_Counts st) (r_expected cfg) (st_AppliedRevision st) [] (publicResetErr e) RecoveryInstructions None None.

Definition done_operation (st : ResetStatus) : Operation :=
  MkOperation [] Unset (st_Counts st) (st_ExpectedRevision st) (st_AppliedRevision st) (st_InventoryChecksum st) [] [] None None.

(** An answer with the status of the moment. *)
Definition answer (e : option apperr) (s : rstate) : rstate * (ResetStatus * option apperr) := (s, (Status s, e)).

(** From the token to the answer. *)
Definition reset_with (cfg : ResetSpec) (c : caller) (tok : Token) (seeds : list NormalizedUser) (s : rstate) : rstate * (ResetStatus * option apperr) :=
  match wait_idle c tok s with
  | (s, Some e) => answer (Some e) (audited AuditFailure (r_expected cfg) [] (set_gate (Abort tok (rs_gate s)) s))
  | (s, None) =>
    match run cfg tok seeds s with
    | (s, (st, Some e)) =>
      if negb (resetMutated (stateOrReady (rs_gate s)))
      then answer (Some e) (audited AuditFailure (r_expected cfg) [] (set_gate (Abort tok (rs_gate s)) s))
      else answer (Some e) (audited AuditFailure (r_expected cfg) [] (finish tok false (failed_operation cfg st e) s))
    | (s, (st, None)) => answer None (audited AuditSuccess (r_expected cfg) (st_AppliedRevision st) (finish tok true (done_operation st) s))
    end
  end.

(** What the request is refused for before anything is read. *)
Definition refused_request (cfg : ResetSpec) (req : ResetRequest) : option (apperr * bool) :=
  if negb (r_soft cfg) then Some (MkErr (B "disabled") (B "soft reset is disabled"), true)
  else if beq (trim_space (rq_Name req)) [] then Some (MkErr (B "required") (B "scenario name is required"), false)
  else if negb (beq (rq_Name req) (r_name cfg)) then Some (MkErr (B "confirmation") (B "scenario confirmation does not match"), true)
  else if beq (trim_space (rq_ExpectedRevision req)) [] then Some (MkErr (B "required") (B "expected revision is required"), false)
  else if negb (beq (rq_ExpectedRevision req) (r_expected cfg)) then Some (MkErr (B "conflict") (B "expected revision does not match"), true)
  else None.

Definition no_status : ResetStatus := MkStatus [] [] no_counts [] [] [] [] [].

Definition Start (cfg : ResetSpec) (c : caller) (req : ResetRequest) : RS := λ s,
  match effect authorize s with
  | (s, Err e) => (s, (no_status, Some e))
  | (s, Ok _) =>
    match refused_request cfg req with
    | Some (e, true) => answer (Some e) (audited AuditFailure [] [] s)
    | Some (e, false) => answer (Some e) s
    | None =>
      match effect rateLimit s with
      | (s, Err e) => answer (Some e) s
      | (s, Ok _) =>
        match reloadSeeds cfg s with
        | (s, Err e) => answer (Some e) (audited AuditFailure [] [] s)
        | (s, Ok seeds) =>
          if ctx_done c then answer (Some (gate_apperr CtxErr)) s
          else
            match at_time Begin s with
            | (s, Err e) => answer (Some e) (audited AuditFailure [] [] s)
            | (s, Ok tok) => reset_with cfg c tok seeds s
            end
        end
      end
    end
  end.

(** * The check when the process starts *)

Definition FieldNotFound : bytes := B "not_found".

Definition no_repos : apperr := MkErr (B "unavailable") (B "reset repositories are not configured").

(** The first loop of [compiledPresent] that does not answer [true]. *)
Fixpoint all_present {A} (cfg : ResetSpec) (get : A → RM ()) (l : list A) : RM bool :=
  match l with
  | [] => mret true
  | x :: l' =>
    if negb (r_has_repos cfg) then raise no_repos
    else
      r ← attempt (get x);
      match r with
      | Ok _ => all_present cfg get l'
      | Err e => if beq (err_field e) FieldNotFound then mret false else raise e
      end
  end.

Definition get_user (u : NormalizedUser) : RM () := _ ← call (users_Get (seedUserID u)); mret ().
Definition get_group (g : NormalizedGroup) : RM () := _ ← call (groups_Get (ng_ID g)); mret ().

Definition compiledPresent (cfg : ResetSpec) : RM bool :=
  us ← all_present cfg get_user (r_seedU cfg);
  if negb us then mret false else all_present cfg get_group (r_seedG cfg).

(** A call that failed counts as present. *)
Definition BaselinePresent (cfg : ResetSpec) (s : rstate) : rstate * bool :=
  match compiledPresent cfg s with
  | (s', Ok ok) => (s', ok)
  | (s', Err _) => (s', true)
  end.

Definition inspectReason (cfg : ResetSpec) : RM bytes :=
  ok ← compiledPresent cfg;
  if negb ok then mret (B "compiled baseline objects are missing")
  else if negb (r_has_dir cfg) then mret []
  else
    _ ← call dir_Inventory;
    markerSerial ← (if r_has_marker cfg then call ReadMarker else mret (r_expected cfg));
    '(live, missing) ← liveSnaps cfg;
    let ver := Compare (r_expected cfg) markerSerial (Checksum live) (Checksum (wantSnaps cfg)) 0 missing in
    mret (if ver_OK ver then [] else ver_Reason ver).

Definition with_recovery (st : ResetStatus) : ResetStatus :=
  if beq (st_Recovery st) [] then
    MkStatus (st_Phase st) (st_State st) (st_Counts st) (st_ExpectedRevision st) (st_AppliedRevision st) (st_InventoryChecksum st) (st_Error st) RecoveryInstructions
  else st.

Definition Inspect (cfg : ResetSpec) (s : rstate) : rstate * ResetStatus :=
  match inspectReason cfg s with
  | (s, Err _) => (s, Status s)
  | (s, Ok reason) =>
    if beq reason [] then (s, Status s)
    else
      let '(d, t) := now (rs_dir s) in
      let s := MkRState (MarkFailed t reason (rs_gate s)) d (rs_point s) in
      (s, with_recovery (Status s))
  end.
End run.

(** What a soft reset leaves behind.

    A reset that fails before it deletes leaves the directory and the gate as they were;
    one that fails later leaves the gate [Failed], having deleted a prefix of its plan
    and applied the baseline only if it deleted all of it; one that succeeds deleted the
    whole plan, applied the baseline again and then verified that it and nothing else is
    there. *)

(** * What was done to the directory *)

Inductive deed : Type :=
  | Deleted_entry (dn : bytes)
  | Added_user (u : UserSpec)
  | Modified_user (id : bytes)
  | Set_password (id : bytes)
  | Added_group (id : bytes)
  | Replaced_members (id : bytes)
  | Fixed_up.

Definition is_delete (x : deed) : bool := match x with Deleted_entry _ => true | _ => false end.

Section facts.
Context {U : Unicode} {D : Type} {RE : ResetEnv D}.

(** A call that only reads. *)
Inductive reads : D → D → Prop :=
  | read_authorize d : reads d (authorize d).1
  | read_rate d : reads d (rateLimit d).1
  | read_audit r b a d : reads d (record r b a d)
  | read_clock d : reads d (now d).1
  | read_secret o p d : reads d (Resolve o p d).1
  | read_inventory d : reads d (dir_Inventory d).1
  | read_marker d : reads d (ReadMarker d).1
  | read_bind u p d : reads d (BindTest u p d).1
  | read_user i d : reads d (users_Get i d).1
  | read_group i d : reads d (groups_Get i d).1.

Inductive does : deed → D → D → Prop :=
  | does_delete dn d : does (Deleted_entry dn) d (DeleteManaged dn d).1
  | does_add u d : does (Added_user u) d (users_Add u d).1
  | does_modify i e a r d : does (Modified_user i) d (users_Modify i e a r d).1
  | does_password i p r d : does (Set_password i) d (users_SetPassword i p r d).1
  | does_group i m d : does (Added_group i) d (groups_Add i m d).1
  | does_members i m r d : does (Replaced_members i) d (groups_ReplaceMembers i m r d).1
  | does_fixup d : does Fixed_up d (fixup d).1.

(** The calls that may write, in order, between two states of the environment. *)
Inductive wrote : list deed → D → D → Prop :=
  | wrote_nil d : wrote [] d d
  | wrote_read d d' d'' xs : reads d d' → wrote xs d' d'' → wrote xs d d''
  | wrote_deed x d d' d'' xs : does x d d' → wrote xs d' d'' → wrote (x :: xs) d d''.

Lemma wrote_app (xs ys : list deed) (d d' d'' : D) : wrote xs d d' → wrote ys d' d'' → wrote (xs ++ ys) d d''.
Proof. induction 1; intros Hy; [done | by eapply wrote_read; eauto | by eapply wrote_deed; eauto]. Qed.

Lemma wrote_one (x : deed) (d d' : D) : does x d d' → wrote [x] d d'.
Proof. intros. eapply wrote_deed; [done | constructor]. Qed.

Lemma wrote_quiet (d d' : D) : reads d d' → wrote [] d d'.
Proof. intros. eapply wrote_read; [done | constructor]. Qed.

(** * Computations that leave the gate alone *)

Definition quiet {A} (P : deed → Prop) (m : RM A) : Prop :=
  ∀ s s' r, m s = (s', r) → rs_gate s' = rs_gate s ∧ ∃ xs, wrote xs (rs_dir s) (rs_dir s') ∧ Forall P xs.

Lemma quiet_ret {A} (P : deed → Prop) (a : A) : quiet P (mret (MRet := rm_ret) a).
Proof. intros s s' r [= <- <-]. split; [done |]. exists []. by split; [constructor |]. Qed.

Lemma quiet_raise {A} (P : deed → Prop) (e : apperr) : quiet P (raise (A := A) e).
Proof. intros s s' r [= <- <-]. split; [done |]. exists []. by split; [constructor |]. Qed.

Lemma quiet_bind {A C} (P : deed → Prop) (m : RM A) (f : A → RM C) :
  quiet P m → (∀ a, quiet P (f a)) → quiet P (mbind (MBind := rm_bind) f m).
Proof.
  intros Hm Hf s s' r. unfold mbind, rm_bind. destruct (m s) as [s1 [a|e]] eqn:E; destruct (Hm _ _ _ E) as (Hg & xs & Hw & Hx).
  - intros H. destruct (Hf a _ _ _ H) as (Hg' & ys & Hw' & Hy). split; [congruence |]. exists (xs ++ ys).
    split; [by eapply wrote_app | by apply Forall_app].
  - intros [= <- <-]. eauto.
Qed.

Lemma quiet_attempt {A} (P : deed → Prop) (m : RM A) : quiet P m → quiet P (attempt m).
Proof. intros Hm s s' r. unfold attempt. destruct (m s) as [s1 r1] eqn:E. intros [= <- <-]. by eapply Hm. Qed.

Lemma quiet_call {A} (P : deed → Prop) (f : D → D * res apperr A) : (∀ d, reads d (f d).1) → quiet P (call f).
Proof.
  intros Hf s s' r. unfold call. specialize (Hf (rs_dir s)). destruct (f (rs_dir s)) as [d1 r1]. intros [= <- <-].
  split; [done |]. exists []. split; [by apply wrote_quiet | done].
Qed.

Lemma quiet_effect (P : deed → Prop) (x : deed) (f : D → D * option apperr) : (∀ d, does x d (f d).1) → P x → quiet P (effect f).
Proof.
  intros Hf Hx s s' r. unfold effect. specialize (Hf (rs_dir s)). destruct (f (rs_dir s)) as [d1 r1]. intros [= <- <-].
  split; [done |]. exists [x]. split; [by apply wrote_one | by constructor].
Qed.

Lemma quiet_look (P : deed → Prop) (f : D → D * option apperr) : (∀ d, reads d (f d).1) → quiet P (effect f).
Proof.
  intros Hf s s' r. unfold effect. specialize (Hf (rs_dir s)). destruct (f (rs_dir s)) as [d1 r1]. intros [= <- <-].
  split; [done |]. exists []. split; [by apply wrote_quiet | done].
Qed.

Lemma quiet_trip (P : deed → Prop) (ph : bytes) : quiet P (Trip ph).
Proof. intros s s' r. unfold Trip. destruct (_ || _); intros [= <- <-]; (split; [done |]); exists []; (split; [constructor | done]). Qed.

Lemma quiet_each {A} (P : deed → Prop) (f : A → RM ()) (l : list A) : (∀ x, quiet P (f x)) → quiet P (each f l).
Proof. intros Hf. induction l as [|x l IH]; cbn [each]; [apply quiet_ret | apply quiet_bind; [done | by intros _]]. Qed.


Definition no_deed (x : deed) : Prop := False.

Definition rebuilds (x : deed) : Prop := is_delete x = false.

(** A deed that is not a deletion. *)
Local Ltac rewrites := eapply quiet_effect; [intros; constructor | done].

Lemma upsertUser_quiet (u : NormalizedUser) : quiet rebuilds (upsertUser u).
Proof.
  unfold upsertUser. apply quiet_bind; [apply quiet_attempt; rewrites |].
  intros [?|e]; [apply quiet_ret |]. destruct (negb _); [apply quiet_raise |].
  apply quiet_bind; [apply quiet_call; constructor |]. intros got.
  apply quiet_bind; [rewrites |]. intros _.
  apply quiet_bind; [apply quiet_call; constructor |]. intros fresh.
  rewrites.
Qed.

Lemma upsertGroup_quiet (g : NormalizedGroup) : quiet rebuilds (upsertGroup g).
Proof.
  unfold upsertGroup. apply quiet_bind; [apply quiet_attempt; rewrites |].
  intros [?|e]; [apply quiet_ret |]. destruct (negb _); [apply quiet_raise |].
  apply quiet_bind; [apply quiet_call; constructor |]. intros got.
  rewrites.
Qed.

Lemma reapply_quiet (cfg : ResetSpec) (seeds : list NormalizedUser) : quiet rebuilds (reapply cfg seeds).
Proof.
  unfold reapply. destruct (negb _); [apply quiet_raise |].
  apply quiet_bind; [apply quiet_trip |]. intros _. apply quiet_bind; [apply quiet_each, upsertUser_quiet |]. intros _.
  apply quiet_bind; [apply quiet_trip |]. intros _. apply quiet_each, upsertGroup_quiet.
Qed.

Lemma collect_snaps_quiet {A} (P : deed → Prop) (f : A → RM (option ObjectSnap)) (l : list A) : (∀ x, quiet P (f x)) → quiet P (collect_snaps f l).
Proof.
  intros Hf. induction l as [|x l IH]; cbn [collect_snaps]; [apply quiet_ret |].
  apply quiet_bind; [done |]. intros o. apply quiet_bind; [done |]. intros [snaps missing]. apply quiet_ret.
Qed.

Lemma liveSnaps_quiet (P : deed → Prop) (cfg : ResetSpec) : quiet P (liveSnaps cfg).
Proof.
  unfold liveSnaps. apply quiet_bind.
  - apply collect_snaps_quiet. intros u. apply quiet_bind; [apply quiet_attempt, quiet_call; constructor |]. intros r. apply quiet_ret.
  - intros [us mu]. apply quiet_bind; [| intros [gs mg]; apply quiet_ret]. apply collect_snaps_quiet. intros g.
    apply quiet_bind; [apply quiet_attempt, quiet_call; constructor |]. intros r. apply quiet_ret.
Qed.

Lemma bindCheck_quiet (P : deed → Prop) (cfg : ResetSpec) (seeds : list NormalizedUser) : quiet P (bindCheck cfg seeds).
Proof.
  unfold bindCheck. destruct (r_has_bind cfg); [| apply quiet_ret]. apply quiet_each. intros u. unfold bind_seed.
  destruct (nu_Enabled u); [| apply quiet_ret]. destruct (nu_Password u); [| apply quiet_ret].
  apply quiet_bind; [apply quiet_call; constructor |]. intros o. destruct (beq _ _); [apply quiet_ret | apply quiet_raise].
Qed.

Lemma reloadSeeds_quiet (P : deed → Prop) (cfg : ResetSpec) : quiet P (reloadSeeds cfg).
Proof.
  unfold reloadSeeds. induction (r_seedU cfg) as [|u l IH]; cbn [reload_all]; [apply quiet_ret |].
  apply quiet_bind; [| intros v; apply quiet_bind; [done | intros vs; apply quiet_ret]]. unfold reload_seed.
  destruct (nu_Password u) as [pw|]; [| apply quiet_raise]. destruct (_ && _).
  - apply quiet_bind; [apply quiet_call; constructor |]. intros sec. destruct (negb _); [apply quiet_raise | apply quiet_ret].
  - destruct (beq _ _); [apply quiet_raise | apply quiet_ret].
Qed.

(** A computation of which nothing is a deed. *)
Lemma quiet_reads {A} (m : RM A) (s s' : rstate (D := D)) (r : res apperr A) :
  quiet no_deed m → m s = (s', r) → rs_gate s' = rs_gate s ∧ wrote [] (rs_dir s) (rs_dir s').
Proof. intros Hm H. destruct (Hm _ _ _ H) as (Hg & xs & Hw & Hx). split; [done |]. destruct xs; [done | by inversion Hx]. Qed.

(** * Deleting *)

Lemma executeDeletes_spec (l : list DeleteStep) (s s' : rstate (D := D)) (r : res apperr ()) :
  each delete_step l s = (s', r) →
  rs_gate s' = rs_gate s ∧ ∃ dns, dns `prefix_of` (ds_DN <$> l) ∧ wrote (Deleted_entry <$> dns) (rs_dir s) (rs_dir s') ∧ (r = Ok () → dns = ds_DN <$> l).
Proof.
  revert s. induction l as [|x l IH]; intros s; cbn [each].
  - intros [= <- <-]. split; [done |]. exists []. split_and!; [done | constructor | done].
  - unfold mbind, rm_bind, delete_step at 1. unfold mbind, rm_bind. destruct (Trip _ s) as [s1 [[]|e]] eqn:ET.
    2: { intros [= <- <-]. destruct (quiet_reads _ _ _ _ (quiet_trip _ _) ET) as [Hg Hw]. split; [done |]. exists [].
         split_and!; [apply prefix_nil | done | done]. }
    destruct (quiet_reads _ _ _ _ (quiet_trip _ _) ET) as [Hg Hw]. unfold effect. pose proof (does_delete (ds_DN x) (rs_dir s1)) as Hd.
    destruct (DeleteManaged _ (rs_dir s1)) as [d2 [e|]]; cbn [fst] in Hd.
    + intros [= <- <-]. split; [done |]. exists [ds_DN x]. split_and!; [by apply prefix_cons, prefix_nil | | done].
      exact (wrote_app [] [_] _ _ _ Hw (wrote_one _ _ _ Hd)).
    + intros H. destruct (IH _ H) as (Hg' & dns & Hp & Hw' & Hall). cbn [rs_gate rs_dir] in *. split; [congruence |]. exists (ds_DN x :: dns).
      split_and!; [by apply prefix_cons | | intros Hr; cbn; by rewrite (Hall Hr)].
      exact (wrote_app [] (_ :: _) _ _ _ Hw (wrote_deed _ _ _ _ _ Hd Hw')).
Qed.

(** * Calls that come with a status *)

Lemma or_status_inv {A} (st : rstate (D := D) → ResetStatus) (m : RM A) (k : A → RS (D := D)) (s s' : rstate (D := D)) (a : ResetStatus * option apperr) :
  or_status st m k s = (s', a) →
  (∃ e, m s = (s', Err e) ∧ a = (st s', Some e)) ∨ (∃ s1 x, m s = (s1, Ok x) ∧ k x s1 = (s', a)).
Proof. unfold or_status. destruct (m s) as [s1 [x|e]]; [eauto | intros [= <- <-]; eauto]. Qed.

(** The configured objects as a verification that found nothing wrong reads them. *)
Definition baseline_objects (cfg : ResetSpec) : list ObjectSnap :=
  ((λ u, MkSnap (nu_DN u) (B "user") []) <$> r_seedU cfg) ++ ((λ g, MkSnap (ng_DN g) (B "group") (mr_DN <$> ng_Members g)) <$> r_seedG cfg).

Definition baseline_sum (cfg : ResetSpec) : bytes := trim_space (digest (normal_form (baseline_objects cfg))).

(** What the status of a success says. *)
Definition reported (cfg : ResetSpec) (st : ResetStatus) : Prop :=
  st_AppliedRevision st = trim_space (r_expected cfg) ∧ st_InventoryChecksum st = baseline_sum cfg.

Lemma Compare_ok (e a i w : bytes) (x m : Z) :
  ver_OK (Compare e a i w x m) = true →
  trim_space e ≠ [] ∧ trim_space a = trim_space e ∧ x ≤ 0 ∧ m ≤ 0 ∧ trim_space i = trim_space w ∧ trim_space w ≠ [].
Proof.
  unfold Compare. destruct (beq (trim_space e) []) eqn:E1; [done |]. destruct (beq (trim_space a) []) eqn:E2; [done |].
  destruct (beq (trim_space e) (trim_space a)) eqn:E3; cbn [negb]; [| done]. destruct (Z.ltb_spec 0 x); [done |]. destruct (Z.ltb_spec 0 m); [done |].
  destruct (beq (trim_space w) []) eqn:E4; cbn [orb]; [done |]. destruct (beq (trim_space i) []) eqn:E5; [done |].
  destruct (beq (trim_space i) (trim_space w)) eqn:E6; cbn [negb]; [| done]. intros _.
  apply beq_true in E3, E6. apply beq_false in E1, E4. split_and!; try done; lia.
Qed.

Lemma Compare_fields (e a i w : bytes) (x m : Z) :
  ver_ExpectedRevision (Compare e a i w x m) = trim_space e ∧ ver_AppliedRevision (Compare e a i w x m) = trim_space a ∧
  ver_InventoryChecksum (Compare e a i w x m) = trim_space i.
Proof. unfold Compare. repeat case_match; done. Qed.

Lemma call_inv {A} (f : D → D * res apperr A) (s s' : rstate (D := D)) (r : res apperr A) :
  call f s = (s', r) → f (rs_dir s) = (rs_dir s', r) ∧ rs_gate s' = rs_gate s.
Proof. unfold call. destruct (f (rs_dir s)). by intros [= <- <-]. Qed.

Lemma verify_spec (cfg : ResetSpec) (seeds : list NormalizedUser) (counts : Counts) (s s' : rstate (D := D)) (st : ResetStatus) (e : option apperr) :
  verify cfg seeds counts s = (s', (st, e)) →
  rs_gate s' = rs_gate s ∧ wrote [] (rs_dir s) (rs_dir s') ∧ (e = None → reported cfg st).
Proof.
  unfold verify. intros H.
  apply or_status_inv in H as [(e1 & Hm & [= -> ->]) | (s1 & [] & H1 & H)]; [destruct (quiet_reads _ _ _ _ (quiet_trip _ _) Hm); done |].
  destruct (quiet_reads _ _ _ _ (quiet_trip _ _) H1) as [Hg1 Hw1]. clear H1.
  assert (HM : quiet no_deed (if r_has_marker cfg then call ReadMarker else mret (MRet := rm_ret) [])).
  { destruct (r_has_marker cfg); [apply quiet_call; constructor | apply quiet_ret]. }
  apply or_status_inv in H as [(e1 & Hm & [= -> ->]) | (s2 & marker & H2 & H)].
  { destruct (quiet_reads _ _ _ _ HM Hm) as [Hg Hw]. split_and!; [congruence | exact (wrote_app [] [] _ _ _ Hw1 Hw) | done]. }
  destruct (quiet_reads _ _ _ _ HM H2) as [Hg2 Hw2]. pose proof (wrote_app [] [] _ _ _ Hw1 Hw2) as Hw12. cbn in Hw12.
  assert (HI : quiet no_deed (call dir_Inventory)) by (apply quiet_call; constructor).
  apply or_status_inv in H as [(e1 & Hm & [= -> ->]) | (s3 & inv & H3 & H)].
  { destruct (quiet_reads _ _ _ _ HI Hm) as [Hg Hw]. split_and!; [congruence | exact (wrote_app [] [] _ _ _ Hw12 Hw) | done]. }
  destruct (quiet_reads _ _ _ _ HI H3) as [Hg3 Hw3]. pose proof (wrote_app [] [] _ _ _ Hw12 Hw3) as Hw13. cbn in Hw13.
  apply call_inv in H3 as [HInv _].
  apply or_status_inv in H as [(e1 & Hm & [= -> ->]) | (s4 & [snaps missing] & H4 & H)].
  { destruct (quiet_reads _ _ _ _ (liveSnaps_quiet _ cfg) Hm) as [Hg Hw]. split_and!; [congruence | exact (wrote_app [] [] _ _ _ Hw13 Hw) | done]. }
  destruct (quiet_reads _ _ _ _ (liveSnaps_quiet _ cfg) H4) as [Hg4 Hw4]. pose proof (wrote_app [] [] _ _ _ Hw13 Hw4) as Hw14. cbn in Hw14.
  revert H. destruct (Compare_fields (r_expected cfg) marker (Checksum snaps) (Checksum (wantSnaps cfg))
    (Z.of_nat (length (plan_Extra (BuildPlan inv (r_plan cfg))))) missing) as (_ & Ha & Hi).
  pose proof (Compare_ok (r_expected cfg) marker (Checksum snaps) (Checksum (wantSnaps cfg))
    (Z.of_nat (length (plan_Extra (BuildPlan inv (r_plan cfg))))) missing) as Hok.
  set (ver := Compare _ _ _ _ _ _) in *. clearbody ver. destruct (ver_OK ver); cbn [negb].
  2: { intros [= <- <- <-]. split_and!; [congruence | done | done]. }
  destruct (bindCheck cfg seeds s4) as [s5 [[]|e5]] eqn:H5; destruct (quiet_reads _ _ _ _ (bindCheck_quiet _ cfg seeds) H5) as [Hg5 Hw5];
    intros [= <- <- <-]; (split_and!; [congruence | exact (wrote_app [] [] _ _ _ Hw14 Hw5) |]); [| done].
  intros _. destruct (Hok eq_refl) as (_ & Hae & _ & _ & Hiw & _). unfold reported, verdict_status. cbn [st_AppliedRevision st_InventoryChecksum].
  rewrite Ha, Hi. by split.
Qed.

(** * The run under a token *)

Definition held (tok : Token) (g : Gate) (st : State) : Prop := g_state g = st ∧ stale g tok = false.

Lemma advance_held (tok : Token) (from to : State) (s : rstate (D := D)) :
  held tok (rs_gate s) from → from ≠ Unset → validTransition from to = true →
  ∃ g, at_gate (Advance tok to) s = (set_gate g s, Ok ()) ∧ held tok g to.
Proof.
  intros [Hst Hs] Hne Hv. destruct (advance_ok tok to (rs_gate s)) as (g & HA); [done | by rewrite Hst | by rewrite Hst |].
  exists g. unfold at_gate. rewrite HA. split; [done |]. destruct (advance_cases tok to (rs_gate s) g tt) as (_ & _ & Hto & Hgen); [by rewrite Hst | done |].
  split; [done |]. unfold stale in *. by rewrite Hgen.
Qed.

(** What was done by a reset that went as far as deleting: a prefix of the plan of an
    inventory read before, and more only if it was all of it. *)
Definition staged (cfg : ResetSpec) (whole : bool) (xs : list deed) (d d' : D) : Prop :=
  ∃ d1 d2 inv dns rest,
    wrote [] d d1 ∧ dir_Inventory d1 = (d2, Ok inv) ∧ wrote xs d2 d' ∧ xs = (Deleted_entry <$> dns) ++ rest ∧
    dns `prefix_of` (ds_DN <$> Deletes (BuildPlan inv (r_plan cfg))) ∧ Forall rebuilds rest ∧
    (rest ≠ [] ∨ whole = true → dns = ds_DN <$> Deletes (BuildPlan inv (r_plan cfg))).

Lemma staged_more (cfg : ResetSpec) (w : bool) (xs : list deed) (d d' d'' : D) :
  staged cfg w xs d d' → wrote [] d' d'' → staged cfg w xs d d''.
Proof.
  intros (d1 & d2 & inv & dns & rest & H1 & H2 & H3 & H4 & H5 & H6 & H7) Hw. exists d1, d2, inv, dns, rest. split_and!; try done.
  rewrite <- (app_nil_r xs). by eapply wrote_app.
Qed.

(** Deeds of the second half. *)
Lemma staged_rest (cfg : ResetSpec) (xs ys : list deed) (d d' d'' : D) :
  staged cfg true xs d d' → wrote ys d' d'' → Forall rebuilds ys → staged cfg true (xs ++ ys) d d''.
Proof.
  intros (d1 & d2 & inv & dns & rest & H1 & H2 & H3 & H4 & H5 & H6 & H7) Hw Hy. exists d1, d2, inv, dns, (rest ++ ys).
  split_and!; try done; [by eapply wrote_app | by rewrite H4, (assoc_L (++)) | by apply Forall_app | intros _; apply H7; by right].
Qed.

Lemma update_held (tok : Token) (fn : Operation → Operation) (g : Gate) (st : State) : held tok g st → held tok (Update tok fn g) st.
Proof. intros [Hst Hs]. destruct (update_same tok fn g) as (_ & E1 & E2). split; [congruence |]. unfold stale in *. by rewrite E2. Qed.

Definition run_outcome (cfg : ResetSpec) (tok : Token) (s s' : rstate (D := D)) (st : ResetStatus) (e : option apperr) : Prop :=
  match e with
  | Some _ =>
    (wrote [] (rs_dir s) (rs_dir s') ∧ held tok (rs_gate s') PreparingReset) ∨
    (∃ w xs, staged cfg w xs (rs_dir s) (rs_dir s') ∧ (held tok (rs_gate s') Resetting ∨ held tok (rs_gate s') Verifying))
  | None => held tok (rs_gate s') Verifying ∧ reported cfg st
  end.

(** From the moment the gate says [Resetting]. *)
Lemma rebuild_spec (cfg : ResetSpec) (tok : Token) (seeds : list NormalizedUser) (counts : Counts) (s0 s s' : rstate (D := D)) (xs : list deed) (st : ResetStatus) (e : option apperr) :
  staged cfg true xs (rs_dir s0) (rs_dir s) → held tok (rs_gate s) Resetting →
  or_status current_status (reapply cfg seeds) (λ _,
    or_status current_status (if r_has_fixup cfg then effect fixup else mret (MRet := rm_ret) ()) (λ _,
    or_status current_status (at_gate (Advance tok Verifying)) (λ _, verify cfg seeds counts))) s = (s', (st, e)) →
  run_outcome cfg tok s0 s' st e.
Proof.
  intros Hst Hh H.
  assert (HF : quiet rebuilds (if r_has_fixup cfg then effect fixup else mret (MRet := rm_ret) ())) by (destruct (r_has_fixup cfg); [rewrites | apply quiet_ret]).
  apply or_status_inv in H as [(e1 & Hm & [= -> ->]) | (s1 & [] & H1 & H)].
  { destruct (reapply_quiet cfg seeds _ _ _ Hm) as (Hg & ys & Hw & Hy). right. exists true, (xs ++ ys).
    split; [by eapply staged_rest | left; by rewrite Hg]. }
  destruct (reapply_quiet cfg seeds _ _ _ H1) as (Hg1 & ys & Hw & Hy). pose proof (staged_rest _ _ _ _ _ _ Hst Hw Hy) as Hst1.
  apply or_status_inv in H as [(e1 & Hm & [= -> ->]) | (s2 & [] & H2 & H)].
  { destruct (HF _ _ _ Hm) as (Hg & zs & Hw2 & Hz). right. exists true, ((xs ++ ys) ++ zs).
    split; [by eapply staged_rest | left; rewrite Hg; by rewrite Hg1]. }
  destruct (HF _ _ _ H2) as (Hg2 & zs & Hw2 & Hz). pose proof (staged_rest _ _ _ _ _ _ Hst1 Hw2 Hz) as Hst2.
  rewrite <- Hg1, <- Hg2 in Hh. destruct (advance_held tok Resetting Verifying s2 Hh) as (g & HA & Hv); [done | done |].
  apply or_status_inv in H as [(e1 & Hm & _) | (s3 & [] & H3 & H)]; [by rewrite HA in Hm |].
  rewrite HA in H3. injection H3 as <-. destruct (verify_spec _ _ _ _ _ _ _ H) as (Hg4 & Hw4 & Hc). cbn [set_gate rs_gate rs_dir] in *.
  destruct e as [e|]; cbn.
  - right. exists true, ((xs ++ ys) ++ zs). split; [by eapply staged_more | right; by rewrite Hg4].
  - split; [by rewrite Hg4 | by apply Hc].
Qed.

Lemma run_spec (cfg : ResetSpec) (tok : Token) (seeds : list NormalizedUser) (s s' : rstate (D := D)) (st : ResetStatus) (e : option apperr) :
  held tok (rs_gate s) PreparingReset → run cfg tok seeds s = (s', (st, e)) → run_outcome cfg tok s s' st e.
Proof.
  intros Hh. unfold run. destruct (negb (r_has_dir cfg)); [intros [= <- <- <-]; left; split; [constructor | done] |]. intros H.
  assert (HI : quiet no_deed (call dir_Inventory)) by (apply quiet_call; constructor).
  apply or_status_inv in H as [(e1 & Hm & [= -> ->]) | (s1 & inv & H1 & H)].
  { destruct (quiet_reads _ _ _ _ HI Hm) as [Hg Hw]. left. split; [done | by rewrite Hg]. }
  apply call_inv in H1 as [HInv Hg1]. apply or_status_inv in H as [(e1 & Hm & _) | (s2 & [] & H2 & H)]; [done |]. injection H2 as <-.
  rewrite <- Hg1 in Hh. apply (update_held _ (record_plan cfg (BuildPlan inv (r_plan cfg)))) in Hh.
  match type of H with or_status _ _ _ ?x = _ => destruct (advance_held tok PreparingReset Resetting x Hh) as (g & HA & Hv); [done | done |] end.
  apply or_status_inv in H as [(e1 & Hm & _) | (s3 & [] & H3 & H)]; [by rewrite HA in Hm |]. rewrite HA in H3. injection H3 as <-.
  apply or_status_inv in H as [(e1 & Hm & [= -> ->]) | (s4 & [] & H4 & H)]; apply executeDeletes_spec in Hm || apply executeDeletes_spec in H4;
    cbn [set_gate rs_gate rs_dir] in *.
  - destruct Hm as (Hg & dns & Hp & Hw & _). right. exists false, (Deleted_entry <$> dns). split; [| left; by rewrite Hg].
    exists (rs_dir s), (rs_dir s1), inv, dns, []. rewrite app_nil_r. split_and!; try done; [constructor | by intros [?|?]].
  - destruct H4 as (Hg & dns & Hp & Hw & Hall). eapply rebuild_spec; [| by rewrite Hg | exact H].
    exists (rs_dir s), (rs_dir s1), inv, dns, []. rewrite app_nil_r. split_and!; try done; [constructor | intros _; by apply Hall].
Qed.

(** * The answer *)

Lemma finish_status (t : Z) (tok : Token) (ok : bool) (op : Operation) (g : Gate) :
  stale g tok = false → Snapshot (Finish t tok ok op g) = finished t ok (g_cur g) op.
Proof.
  intros Hs. unfold Finish. rewrite Hs. unfold syncMetrics, observe, moved_to. cbn [g_metrics].
  destruct (g_metrics g); cbn [g_metrics]; unfold Snapshot, stateOrReady; cbn [g_state g_cur]; destruct ok; cbn; done.
Qed.

(** What [Start] may leave, from a gate that was in state [p]. *)
Definition start_outcome (cfg : ResetSpec) (p : State) (d : D) (s' : rstate (D := D)) (st : ResetStatus) (e : option apperr) : Prop :=
  match e with
  | Some e =>
    (wrote [] d (rs_dir s') ∧ g_state (rs_gate s') = p) ∨
    (g_state (rs_gate s') = Failed ∧ st_Error st = publicResetErr e ∧ st_Recovery st = RecoveryInstructions ∧
     ∃ w xs, staged cfg w xs d (rs_dir s'))
  | None =>
    g_state (rs_gate s') = Ready ∧ st_State st = B "Ready" ∧ st_Error st = [] ∧ reported cfg st
  end.

Lemma audited_same (a b c : bytes) (s : rstate (D := D)) :
  rs_gate (audited a b c s) = rs_gate s ∧ wrote [] (rs_dir s) (rs_dir (audited a b c s)).
Proof. split; [done |]. apply wrote_quiet. constructor. Qed.

Lemma finish_inv (tok : Token) (ok : bool) (op : Operation) (s : rstate (D := D)) :
  ∃ t, rs_gate (finish tok ok op s) = Finish t tok ok op (rs_gate s) ∧ wrote [] (rs_dir s) (rs_dir (finish tok ok op s)).
Proof.
  unfold finish. pose proof (read_clock (rs_dir s)) as Hr. destruct (now (rs_dir s)) as [d t]. exists t. split; [done |]. by apply wrote_quiet.
Qed.

Lemma aborted (cfg : ResetSpec) (tok : Token) (e : apperr) (d : D) (s s' : rstate (D := D)) (st : ResetStatus) (x : option apperr) :
  held tok (rs_gate s) PreparingReset → wrote [] d (rs_dir s) →
  answer (Some e) (audited AuditFailure (r_expected cfg) [] (set_gate (Abort tok (rs_gate s)) s)) = (s', (st, x)) →
  start_outcome cfg (tok_previous tok) d s' st x.
Proof.
  intros [Hst Hs] Hw [= <- <- <-]. left. split.
  - exact (wrote_app [] [] _ _ _ Hw (proj2 (audited_same _ _ _ _))).
  - cbn. destruct (abort_cases tok (rs_gate s)) as (_ & _ & Ha). by apply Ha.
Qed.

Lemma ended_badly (cfg : ResetSpec) (tok : Token) (e : apperr) (d : D) (w : bool) (xs : list deed) (s s' : rstate (D := D)) (st0 st : ResetStatus) (x : option apperr) :
  stale (rs_gate s) tok = false → staged cfg w xs d (rs_dir s) →
  answer (Some e) (audited AuditFailure (r_expected cfg) [] (finish tok false (failed_operation cfg st0 e) s)) = (s', (st, x)) →
  start_outcome cfg (tok_previous tok) d s' st x.
Proof.
  intros Hs Hst [= <- <- <-]. right. destruct (finish_inv tok false (failed_operation cfg st0 e) s) as (t & Hg & Hw). unfold Status.
  cbn [audited rs_gate rs_dir]. rewrite Hg, finish_status by done. destruct (gate_finish_cases t tok false (failed_operation cfg st0 e) (rs_gate s)) as (_ & _ & Hf).
  split_and!; [by apply Hf | done | done |]. exists w, xs. eapply staged_more; [eapply staged_more; [done | exact Hw] |]. apply wrote_quiet. constructor.
Qed.

Lemma ended_well (cfg : ResetSpec) (tok : Token) (d : D) (s s' : rstate (D := D)) (st0 st : ResetStatus) (x : option apperr) (a b : bytes) :
  stale (rs_gate s) tok = false → reported cfg st0 →
  answer None (audited AuditSuccess a b (finish tok true (done_operation st0) s)) = (s', (st, x)) →
  start_outcome cfg (tok_previous tok) d s' st x.
Proof.
  intros Hs Hc [= <- <- <-]. destruct (finish_inv tok true (done_operation st0) s) as (t & Hg & Hw). unfold start_outcome, Status.
  cbn [audited rs_gate rs_dir]. rewrite Hg, finish_status by done. destruct (gate_finish_cases t tok true (done_operation st0) (rs_gate s)) as (_ & _ & Hf).
  split_and!; [by apply Hf | done | done | exact Hc].
Qed.

(** The operations the call waits for neither move the gate nor begin a reset. *)
Definition settles (c : caller) : Prop := ∀ g, g_state (ctx_settle c g) = g_state g ∧ g_gen (ctx_settle c g) = g_gen g.

Lemma wait_idle_held (c : caller) (tok : Token) (s s' : rstate (D := D)) (e : option apperr) :
  settles c → held tok (rs_gate s) PreparingReset → wait_idle c tok s = (s', e) → held tok (rs_gate s') PreparingReset ∧ rs_dir s' = rs_dir s.
Proof.
  intros Hc [Hst Hs]. unfold wait_idle. destruct (WaitIdle _ _ _); intros [= <- <-]; [done | done |].
  cbn. split; [| done]. destruct (Hc (rs_gate s)) as [E1 E2]. split; [by rewrite E1 | unfold stale in *; by rewrite E2].
Qed.

Lemma reset_with_spec (cfg : ResetSpec) (c : caller) (tok : Token) (seeds : list NormalizedUser) (s s' : rstate (D := D)) (st : ResetStatus) (e : option apperr) :
  settles c → held tok (rs_gate s) PreparingReset → reset_with cfg c tok seeds s = (s', (st, e)) →
  start_outcome cfg (tok_previous tok) (rs_dir s) s' st e.
Proof.
  intros Hc Hh. unfold reset_with. destruct (wait_idle c tok s) as [s1 e1] eqn:E1. destruct (wait_idle_held _ _ _ _ _ Hc Hh E1) as [Hh1 Hd1].
  rewrite <- Hd1. destruct e1 as [e1|]; [apply aborted; [done | constructor] |].
  destruct (run cfg tok seeds s1) as [s2 [st2 e2]] eqn:E2. pose proof (run_spec _ _ _ _ _ _ _ Hh1 E2) as Ho. destruct e2 as [e2|]; cbn in Ho.
  - destruct Ho as [[Hw Hh2] | (w & xs & Hst & Hh2)].
    + rewrite stateOrReady_set, (proj1 Hh2) by (rewrite (proj1 Hh2); done). by apply aborted.
    + destruct Hh2 as [[Hst2 Hs2]|[Hst2 Hs2]]; rewrite stateOrReady_set, Hst2 by (rewrite Hst2; done); cbn; by eapply ended_badly.
  - destruct Ho as [[Hst2 Hs2] Hck]. by eapply ended_well.
Qed.

Lemma wrote_start (cfg : ResetSpec) (p : State) (d d1 : D) (s' : rstate (D := D)) (st : ResetStatus) (e : option apperr) :
  wrote [] d d1 → start_outcome cfg p d1 s' st e → start_outcome cfg p d s' st e.
Proof.
  assert (Hs : ∀ w xs x, wrote [] d d1 → staged cfg w xs d1 x → staged cfg w xs d x).
  { intros w xs x Hw (d2 & d3 & inv & dns & rest & H1 & H). exists d2, d3, inv, dns, rest. split; [exact (wrote_app [] [] _ _ _ Hw H1) | done]. }
  intros Hw. destruct e as [e|]; cbn.
  - intros [[H1 H2]|(H1 & H2 & H3 & w & xs & H4)]; [left | right]; [split; [exact (wrote_app [] [] _ _ _ Hw H1) | done] |].
    split_and!; [done | done | done |]. exists w, xs. by apply Hs.
  - done.
Qed.

(** An answer before [Begin]. *)
Lemma refused (cfg : ResetSpec) (p : State) (e : apperr) (d : D) (s s' : rstate (D := D)) (st : ResetStatus) (x : option apperr) :
  wrote [] d (rs_dir s) → g_state (rs_gate s) = p → answer (Some e) s = (s', (st, x)) → start_outcome cfg p d s' st x.
Proof. intros Hw Hp [= <- <- <-]. by left. Qed.

Lemma begin_held (s s' : rstate (D := D)) (r : res apperr Token) :
  g_state (rs_gate s) ≠ Unset → 0 ≤ g_gen (rs_gate s) < 2^64 - 1 → at_time Begin s = (s', r) →
  wrote [] (rs_dir s) (rs_dir s') ∧
  match r with
  | Ok tok => held tok (rs_gate s') PreparingReset ∧ tok_previous tok = g_state (rs_gate s)
  | Err _ => rs_gate s' = rs_gate s
  end.
Proof.
  intros Hne Hgen. unfold at_time. pose proof (read_clock (rs_dir s)) as Hr. destruct (now (rs_dir s)) as [d t]. cbn [fst] in Hr.
  unfold at_gate. cbn [rs_gate rs_dir]. destruct (Begin t (rs_gate s)) as [g r1] eqn:EB.
  destruct (begin_cases _ _ _ _ Hne EB) as [(tok & -> & Hnr & Hsame & Hst & Hg & ->) | (-> & _ & ->)]; intros [= <- <-]; cbn.
  - split; [by apply wrote_quiet |]. split; [| done]. split; [done |]. unfold stale. cbn. rewrite Hg. unfold next_gen.
    rewrite Z.mod_small, Z.eqb_refl by lia. destruct (Z.eqb_spec (g_gen (rs_gate s) + 1) 0); [lia | done].
  - split; [by apply wrote_quiet | done].
Qed.

Lemma Start_outcome_aux (cfg : ResetSpec) (c : caller) (req : ResetRequest) (s s' : rstate (D := D)) (st : ResetStatus) (e : option apperr) :
  settles c → g_state (rs_gate s) ≠ Unset → 0 ≤ g_gen (rs_gate s) < 2^64 - 1 → Start cfg c req s = (s', (st, e)) →
  start_outcome cfg (g_state (rs_gate s)) (rs_dir s) s' st e.
Proof.
  intros Hc Hne Hgen. unfold Start. destruct (effect authorize s) as [s1 r1] eqn:E1.
  assert (HA : quiet no_deed (effect authorize)) by (apply quiet_look; constructor). destruct (quiet_reads _ _ _ _ HA E1) as [Hg1 Hw1]. clear HA E1.
  destruct r1 as [[]|e1]; [| intros [= <- <- <-]; left; split; [done | by rewrite Hg1]].
  destruct (refused_request cfg req) as [[e2 []]|].
  { apply refused; [exact (wrote_app [] [] _ _ _ Hw1 (proj2 (audited_same _ _ _ _))) | cbn; by rewrite Hg1]. }
  { apply refused; [done | by rewrite Hg1]. }
  destruct (effect rateLimit s1) as [s2 r2] eqn:E2.
  assert (HA : quiet no_deed (effect rateLimit)) by (apply quiet_look; constructor). destruct (quiet_reads _ _ _ _ HA E2) as [Hg2 Hw2]. clear HA E2.
  pose proof (wrote_app [] [] _ _ _ Hw1 Hw2) as Hw12. cbn in Hw12. rewrite Hg1 in Hg2.
  destruct r2 as [[]|e2]; [| apply refused; [done | by rewrite Hg2]].
  destruct (reloadSeeds cfg s2) as [s3 r3] eqn:E3. destruct (quiet_reads _ _ _ _ (reloadSeeds_quiet _ cfg) E3) as [Hg3 Hw3]. clear E3.
  pose proof (wrote_app [] [] _ _ _ Hw12 Hw3) as Hw13. cbn in Hw13. rewrite Hg2 in Hg3.
  destruct r3 as [seeds|e3].
  2: { apply refused; [exact (wrote_app [] [] _ _ _ Hw13 (proj2 (audited_same _ _ _ _))) | cbn; by rewrite Hg3]. }
  destruct (ctx_done c); [apply refused; [done | by rewrite Hg3] |].
  destruct (at_time Begin s3) as [s4 r4] eqn:E4. destruct (begin_held s3 s4 r4) as [Hw4 Hr4]; [by rewrite Hg3 | by rewrite Hg3 | done |].
  pose proof (wrote_app [] [] _ _ _ Hw13 Hw4) as Hw14. cbn in Hw14. destruct r4 as [tok|e4].
  - destruct Hr4 as [Hh Hp]. rewrite <- Hg3, <- Hp. intros H. eapply wrote_start; [exact Hw14 |]. by eapply reset_with_spec.
  - apply refused; [exact (wrote_app [] [] _ _ _ Hw14 (proj2 (audited_same _ _ _ _))) | cbn; by rewrite Hr4, Hg3].
Qed.
End facts.

Section inspect.
Context {U : Unicode} {D : Type} {RE : ResetEnv D}.

Lemma all_present_quiet {A} (P : deed → Prop) (cfg : ResetSpec) (get : A → RM (D := D) ()) (l : list A) :
  (∀ x, quiet P (get x)) → quiet P (all_present cfg get l).
Proof.
  intros Hg. induction l as [|x l IH]; cbn [all_present]; [apply quiet_ret |]. destruct (negb _); [apply quiet_raise |].
  apply quiet_bind; [by apply quiet_attempt |]. intros [?|e]; [done |]. destruct (beq _ _); [apply quiet_ret | apply quiet_raise].
Qed.

Lemma inspectReason_quiet (P : deed → Prop) (cfg : ResetSpec) : quiet P (inspectReason cfg).
Proof.
  unfold inspectReason, compiledPresent. apply quiet_bind.
  - apply quiet_bind; [apply all_present_quiet; intros u; apply quiet_bind; [apply quiet_call; constructor | intros _; apply quiet_ret] |].
    intros us. destruct (negb us); [apply quiet_ret |].
    apply all_present_quiet; intros g; apply quiet_bind; [apply quiet_call; constructor | intros _; apply quiet_ret].
  - intros ok. destruct (negb ok); [apply quiet_ret |]. destruct (negb (r_has_dir cfg)); [apply quiet_ret |].
    apply quiet_bind; [apply quiet_call; constructor |]. intros _.
    apply quiet_bind; [destruct (r_has_marker cfg); [apply quiet_call; constructor | apply quiet_ret] |]. intros marker.
    apply quiet_bind; [apply liveSnaps_quiet |]. intros [live missing]. apply quiet_ret.
Qed.

(** The check at the start writes nothing, and moves the gate only to [Failed]. *)
Lemma Inspect_reads (cfg : ResetSpec) (s s' : rstate (D := D)) (st : ResetStatus) :
  g_state (rs_gate s) ≠ Unset → Inspect cfg s = (s', st) →
  wrote [] (rs_dir s) (rs_dir s') ∧ (g_state (rs_gate s') = g_state (rs_gate s) ∨ g_state (rs_gate s') = Failed).
Proof.
  intros Hne. unfold Inspect. destruct (inspectReason cfg s) as [s1 r1] eqn:E1.
  destruct (quiet_reads _ _ _ _ (inspectReason_quiet _ cfg) E1) as [Hg1 Hw1].
  destruct r1 as [reason|e]; [| intros [= <- <-]; split; [done | left; by rewrite Hg1]].
  destruct (beq reason []); [intros [= <- <-]; split; [done | left; by rewrite Hg1] |].
  pose proof (read_clock (rs_dir s1)) as Hr. destruct (now (rs_dir s1)) as [d t]. cbn [fst] in Hr. intros [= <- <-]. cbn. split.
  - exact (wrote_app [] [] _ _ _ Hw1 (wrote_quiet _ _ Hr)).
  - rewrite <- Hg1 in Hne. destruct (mark_cases t reason (rs_gate s1) Hne) as (_ & _ & Hm). destruct (running _); [left; by rewrite Hm, Hg1 | by right].
Qed.
End inspect.

(** * What a success did

    Told by the calls of the environment alone, in their order, so that nothing of it can
    be left out. *)

(** One call per element, each from the state the one before left. *)
Inductive chain {A D : Type} (R : A → D → D → Prop) : list A → D → D → Prop :=
  | chain_nil d : chain R [] d d
  | chain_cons x l d d1 d2 : R x d d1 → chain R l d1 d2 → chain R (x :: l) d d2.

(** The same with what each call found. *)
Inductive chain2 {A C D : Type} (R : A → C → D → D → Prop) : list A → list C → D → D → Prop :=
  | chain2_nil d : chain2 R [] [] d d
  | chain2_cons x y l k d d1 d2 : R x y d d1 → chain2 R l k d1 d2 → chain2 R (x :: l) (y :: k) d d2.

Section success.
Context {U : Unicode} {D : Type} {RE : ResetEnv D}.

#[local] Existing Instance rm_bind.
#[local] Existing Instance rm_ret.

(** A seed as it is used: the configured user with the password that was compiled, or one
    read again with the same digest. *)
Definition reloaded (u v : NormalizedUser) : Prop :=
  nu_ID v = nu_ID u ∧ nu_UID v = nu_UID u ∧ nu_DN v = nu_DN u ∧ nu_Enabled v = nu_Enabled u ∧ nu_Attributes v = nu_Attributes u ∧
  ∃ pw sec, nu_Password u = Some pw ∧ nu_Password v = Some sec ∧
    (sec = pw ∨ sec_Digest sec = if beq (sec_Digest pw) [] then sha256_hex (sec_Value pw) else sec_Digest pw).

(** The directory took the deletion. *)
Definition deleted (dn : bytes) (d d' : D) : Prop := DeleteManaged dn d = (d', None).

(** The user was added, or was there and was given its state, attributes and password. *)
Inductive put_user (u : NormalizedUser) : D → D → Prop :=
  | put_user_new d d' :
      users_Add (MkUserSpec (nu_ID u) (nu_UID u) (nu_Enabled u) (user_password u) (attrMap (nu_Attributes u))) d = (d', None) → put_user u d d'
  | put_user_there d d1 d2 d3 d4 d5 e l l' :
      users_Add (MkUserSpec (nu_ID u) (nu_UID u) (nu_Enabled u) (user_password u) (attrMap (nu_Attributes u))) d = (d1, Some e) → err_field e = B "conflict" →
      users_Get (seedUserID u) d1 = (d2, Ok l) →
      users_Modify (seedUserID u) (nu_Enabled u) (attrMap (nu_Attributes u)) (lu_Revision l) d2 = (d3, None) →
      users_Get (seedUserID u) d3 = (d4, Ok l') →
      users_SetPassword (seedUserID u) (user_password u) (lu_Revision l') d4 = (d5, None) → put_user u d d5.

(** The group was added, or was there and was given its members. *)
Inductive put_group (g : NormalizedGroup) : D → D → Prop :=
  | put_group_new d d' : groups_Add (ng_ID g) (ng_Members g) d = (d', None) → put_group g d d'
  | put_group_there d d1 d2 d3 e l :
      groups_Add (ng_ID g) (ng_Members g) d = (d1, Some e) → err_field e = B "conflict" →
      groups_Get (ng_ID g) d1 = (d2, Ok l) → groups_ReplaceMembers (ng_ID g) (ng_Members g) (lg_Revision l) d2 = (d3, None) → put_group g d d3.

(** The object was read, and this is what it looks like. *)
Definition seen_user (u : NormalizedUser) (o : ObjectSnap) (d d' : D) : Prop :=
  ∃ l, users_Get (seedUserID u) d = (d', Ok l) ∧ o = MkSnap (or_else (lu_DN l) (nu_DN u)) (B "user") [].

Definition seen_group (cfg : ResetSpec) (g : NormalizedGroup) (o : ObjectSnap) (d d' : D) : Prop :=
  ∃ l, groups_Get (ng_ID g) d = (d', Ok l) ∧
    o = MkSnap (or_else (lg_DN l) (ng_DN g)) (B "group") (filter (λ dn, dn ≠ []) (live_member cfg g <$> lg_Members l)).

(** An enabled user can log in with its seed. *)
Definition binds (u : NormalizedUser) (d d' : D) : Prop :=
  match nu_Enabled u, nu_Password u with
  | true, Some pw => BindTest (nu_UID u) (sec_Value pw) d = (d', Ok (B "success"))
  | _, _ => d' = d
  end.

(** The baseline was applied between two states. *)
Definition baseline_applied (cfg : ResetSpec) (seeds : list NormalizedUser) (d d' : D) : Prop :=
  ∃ d1 d2, chain put_user seeds d d1 ∧ chain put_group (r_seedG cfg) d1 d2 ∧ if r_has_fixup cfg then fixup d2 = (d', None) else d' = d2.

(** It was read back and found to be the baseline and nothing else. *)
Definition baseline_verified (cfg : ResetSpec) (seeds : list NormalizedUser) (d d' : D) : Prop :=
  ∃ d1 d2 d3 d4 serial inv us gs,
    r_has_marker cfg = true ∧ ReadMarker d = (d1, Ok serial) ∧ trim_space serial = trim_space (r_expected cfg) ∧ trim_space serial ≠ [] ∧
    dir_Inventory d1 = (d2, Ok inv) ∧ plan_Extra (BuildPlan inv (r_plan cfg)) = [] ∧
    chain2 seen_user (r_seedU cfg) us d2 d3 ∧ chain2 (seen_group cfg) (r_seedG cfg) gs d3 d4 ∧
    trim_space (digest (normal_form (us ++ gs))) = baseline_sum cfg ∧ baseline_sum cfg ≠ [] ∧
    if r_has_bind cfg then chain binds seeds d4 d' else d' = d4.

(** Everything a successful reset did, but for what only reads before and after. *)
Definition completed (cfg : ResetSpec) (d d' : D) : Prop :=
  ∃ seeds d0 d1 d2 d3 d4 inv,
    Forall2 reloaded (r_seedU cfg) seeds ∧ wrote [] d d0 ∧
    dir_Inventory d0 = (d1, Ok inv) ∧ chain deleted (ds_DN <$> Deletes (BuildPlan inv (r_plan cfg))) d1 d2 ∧
    baseline_applied cfg seeds d2 d3 ∧ baseline_verified cfg seeds d3 d4 ∧ wrote [] d4 d'.

(** * Inverting successes *)

Lemma bind_success {A C} (m : RM A) (f : A → RM C) (s s' : rstate (D := D)) (c : C) :
  mbind f m s = (s', Ok c) → ∃ s1 a, m s = (s1, Ok a) ∧ f a s1 = (s', Ok c).
Proof. unfold mbind, rm_bind. destruct (m s) as [s1 [a|e]]; [eauto | done]. Qed.

Lemma trip_success (ph : bytes) (s s' : rstate (D := D)) (x : ()) : Trip ph s = (s', Ok x) → s' = s.
Proof. unfold Trip. destruct (_ || _); [by intros [= <-] | done]. Qed.

Lemma effect_inv (f : D → D * option apperr) (s s' : rstate (D := D)) (r : res apperr ()) :
  effect f s = (s', r) → f (rs_dir s) = (rs_dir s', match r with Ok _ => None | Err e => Some e end).
Proof. unfold effect. destruct (f (rs_dir s)) as [d [e|]]; by intros [= <- <-]. Qed.

Lemma attempt_success {A} (m : RM A) (s s' : rstate (D := D)) (r : res apperr A) : attempt m s = (s', Ok r) → m s = (s', r).
Proof. unfold attempt. destruct (m s). by intros [= <- <-]. Qed.

Lemma each_chain {A} (R : A → D → D → Prop) (f : A → RM ()) (l : list A) :
  (∀ x s s' r, f x s = (s', Ok r) → R x (rs_dir s) (rs_dir s')) → ∀ (s s' : rstate (D := D)) r, each f l s = (s', Ok r) → chain R l (rs_dir s) (rs_dir s').
Proof.
  intros Hf. induction l as [|x l IH]; intros s s' r; cbn [each].
  - intros [= <- _]. constructor.
  - intros (s1 & [] & H1 & H2)%bind_success. econstructor; [by eapply Hf | by eapply IH].
Qed.

Lemma deletes_success (plan : Plan) (s s' : rstate (D := D)) (r : ()) :
  executeDeletes plan s = (s', Ok r) → chain deleted (ds_DN <$> Deletes plan) (rs_dir s) (rs_dir s').
Proof.
  intros H. unfold executeDeletes in H. apply (each_chain (λ x, deleted (ds_DN x))) in H.
  - clear -H. induction H; cbn [fmap list_fmap]; [constructor | by econstructor].
  - intros x s1 s2 [] (s3 & [] & ->%trip_success & H2%effect_inv)%bind_success. exact H2.
Qed.

Lemma upsertUser_success (u : NormalizedUser) (s s' : rstate (D := D)) (r : ()) : upsertUser u s = (s', Ok r) → put_user u (rs_dir s) (rs_dir s').
Proof.
  unfold upsertUser. cbn zeta. intros (s1 & a & H1%attempt_success%effect_inv & H)%bind_success. destruct a as [[]|e].
  - injection H as <- _. by apply put_user_new.
  - destruct (beq (err_field e) FieldConflict) eqn:E; cbn [negb] in H; [| done]. apply beq_true in E.
    apply bind_success in H as (s2 & l & [H2 _]%call_inv & H). apply bind_success in H as (s3 & [] & H3%effect_inv & H).
    apply bind_success in H as (s4 & l' & [H4 _]%call_inv & H%effect_inv). by eapply put_user_there.
Qed.

Lemma upsertGroup_success (g : NormalizedGroup) (s s' : rstate (D := D)) (r : ()) : upsertGroup g s = (s', Ok r) → put_group g (rs_dir s) (rs_dir s').
Proof.
  unfold upsertGroup. intros (s1 & a & H1%attempt_success%effect_inv & H)%bind_success. destruct a as [[]|e].
  - injection H as <- _. by apply put_group_new.
  - destruct (beq (err_field e) FieldConflict) eqn:E; cbn [negb] in H; [| done]. apply beq_true in E.
    apply bind_success in H as (s2 & l & [H2 _]%call_inv & H%effect_inv). by eapply put_group_there.
Qed.

Lemma reapply_success (cfg : ResetSpec) (seeds : list NormalizedUser) (s s' : rstate (D := D)) (r : ()) :
  reapply cfg seeds s = (s', Ok r) → ∃ d, chain put_user seeds (rs_dir s) d ∧ chain put_group (r_seedG cfg) d (rs_dir s').
Proof.
  unfold reapply. destruct (negb (r_has_repos cfg)); [done|]. intros (s1 & [] & ->%trip_success & H)%bind_success.
  apply bind_success in H as (s2 & [] & H2 & H). apply bind_success in H as (s3 & [] & ->%trip_success & H). exists (rs_dir s2).
  split; [eapply each_chain; [apply upsertUser_success | exact H2] | eapply each_chain; [apply upsertGroup_success | exact H]].
Qed.

(** If nothing is missing, everything was read. *)
Lemma collect_success {A} (R : A → ObjectSnap → D → D → Prop) (f : A → RM (option ObjectSnap)) (l : list A) :
  (∀ x s s' o, f x s = (s', Ok (Some o)) → R x o (rs_dir s) (rs_dir s')) →
  ∀ (s s' : rstate (D := D)) snaps missing, collect_snaps f l s = (s', Ok (snaps, missing)) →
    0 ≤ missing ∧ (missing ≤ 0 → chain2 R l snaps (rs_dir s) (rs_dir s')).
Proof.
  intros Hf. induction l as [|x l IH]; intros s s' snaps missing; cbn [collect_snaps].
  - intros [= <- <- <-]. split; [done | constructor].
  - intros (s1 & o & H1 & H)%bind_success. apply bind_success in H as (s2 & [sn mi] & H2 & H). apply IH in H2 as [Hm Hc].
    destruct o as [o|]; injection H as <- <- <-; (split; [lia|]); intros Hle; [| lia]. econstructor; [by apply Hf | by apply Hc].
Qed.

Lemma liveSnaps_success (cfg : ResetSpec) (s s' : rstate (D := D)) (snaps : list ObjectSnap) (missing : Z) :
  liveSnaps cfg s = (s', Ok (snaps, missing)) → missing ≤ 0 →
  ∃ d us gs, chain2 seen_user (r_seedU cfg) us (rs_dir s) d ∧ chain2 (seen_group cfg) (r_seedG cfg) gs d (rs_dir s') ∧ snaps = us ++ gs.
Proof.
  unfold liveSnaps. intros (s1 & [us mu] & H1 & H)%bind_success Hle. apply bind_success in H as (s2 & [gs mg] & H2 & H). injection H as <- <- <-.
  apply (collect_success seen_user) in H1 as [Hu H1]; [apply (collect_success (seen_group cfg)) in H2 as [Hg H2]|].
  - exists (rs_dir s1), us, gs. split_and!; [apply H1; lia | apply H2; lia | done].
  - intros g t t' o (t1 & a & Ha%attempt_success & Ho)%bind_success. destruct a as [l|]; [| done]. injection Ho as <- <-.
    apply call_inv in Ha as [Ha _]. by exists l.
  - intros u t t' o (t1 & a & Ha%attempt_success & Ho)%bind_success. destruct a as [l|]; [| done]. injection Ho as <- <-.
    apply call_inv in Ha as [Ha _]. by exists l.
Qed.

Lemma bindCheck_success (cfg : ResetSpec) (seeds : list NormalizedUser) (s s' : rstate (D := D)) (r : ()) :
  bindCheck cfg seeds s = (s', Ok r) → if r_has_bind cfg then chain binds seeds (rs_dir s) (rs_dir s') else rs_dir s' = rs_dir s.
Proof.
  unfold bindCheck. destruct (r_has_bind cfg); [| by intros [= <- _]]. apply each_chain. intros u t t' x. unfold bind_seed, binds.
  destruct (nu_Enabled u); [| by intros [= <- _]]. destruct (nu_Password u) as [pw|]; [| by intros [= <- _]].
  intros (t1 & o & [H1 _]%call_inv & H)%bind_success. destruct (beq o (B "success")) eqn:E; [| done]. apply beq_true in E as ->. by injection H as <- _.
Qed.

Lemma or_status_ok {A} (st : rstate (D := D) → ResetStatus) (m : RM A) (k : A → RS (D := D)) (s s' : rstate (D := D)) (x : ResetStatus) :
  or_status st m k s = (s', (x, None)) → ∃ s1 a, m s = (s1, Ok a) ∧ k a s1 = (s', (x, None)).
Proof. intros [(e & _ & H)|H]%or_status_inv; [by injection H | done]. Qed.

Lemma verify_success (cfg : ResetSpec) (seeds : list NormalizedUser) (counts : Counts) (s s' : rstate (D := D)) (st : ResetStatus) :
  verify cfg seeds counts s = (s', (st, None)) → baseline_verified cfg seeds (rs_dir s) (rs_dir s').
Proof.
  unfold verify. intros (s1 & [] & ->%trip_success & H)%or_status_ok. apply or_status_ok in H as (s2 & serial & H2 & H).
  apply or_status_ok in H as (s3 & inv & [H3 _]%call_inv & H). apply or_status_ok in H as (s4 & [snaps missing] & H4 & H). cbn zeta in H.
  pose proof (Compare_ok (r_expected cfg) serial (Checksum snaps) (Checksum (wantSnaps cfg))
    (Z.of_nat (length (plan_Extra (BuildPlan inv (r_plan cfg))))) missing) as Hok.
  destruct (ver_OK (Compare _ _ _ _ _ _)) in H, Hok; cbn [negb] in H; [| done]. destruct (Hok eq_refl) as (He & Hs & Hx & Hm & Hi & Hw).
  destruct (bindCheck cfg seeds s4) as [s5 [[]|e]] eqn:H5; [| done]. injection H as <- _.
  destruct (r_has_marker cfg) eqn:Em; [| exfalso; injection H2 as <- <-; by apply He].
  apply call_inv in H2 as [H2 _]. apply (liveSnaps_success cfg) in H4 as (d & us & gs & Hu & Hg & ->); [| done].
  exists (rs_dir s2), (rs_dir s3), d, (rs_dir s4), serial, inv, us, gs. split_and!; try done.
  - congruence.
  - apply nil_length_inv. lia.
  - by eapply bindCheck_success.
Qed.

Lemma run_success (cfg : ResetSpec) (tok : Token) (seeds : list NormalizedUser) (s s' : rstate (D := D)) (st : ResetStatus) :
  run cfg tok seeds s = (s', (st, None)) →
  ∃ d1 d2 d3 inv, dir_Inventory (rs_dir s) = (d1, Ok inv) ∧ chain deleted (ds_DN <$> Deletes (BuildPlan inv (r_plan cfg))) d1 d2 ∧
    baseline_applied cfg seeds d2 d3 ∧ baseline_verified cfg seeds d3 (rs_dir s').
Proof.
  unfold run. destruct (negb (r_has_dir cfg)); [done|]. intros (s1 & inv & [H1 _]%call_inv & H)%or_status_ok. cbn zeta in H.
  apply or_status_ok in H as (s2 & [] & H2 & H). injection H2 as <-. apply or_status_ok in H as (s3 & [] & H3 & H).
  assert (E3 : rs_dir s3 = rs_dir s1) by (unfold at_gate in H3; cbn [rs_gate rs_dir] in H3; destruct (Advance _ _ _); by injection H3 as <- _).
  apply or_status_ok in H as (s4 & [] & H4%deletes_success & H). apply or_status_ok in H as (s5 & [] & (d & Hu & Hg)%reapply_success & H).
  apply or_status_ok in H as (s6 & [] & H6 & H). apply or_status_ok in H as (s7 & [] & H7 & H).
  assert (E7 : rs_dir s7 = rs_dir s6) by (unfold at_gate in H7; destruct (Advance _ _ _); by injection H7 as <- _).
  apply verify_success in H. rewrite E7 in H. rewrite E3 in H4. exists (rs_dir s1), (rs_dir s4), (rs_dir s6), inv. split_and!; try done.
  exists d, (rs_dir s5). split_and!; [done..|]. destruct (r_has_fixup cfg); [exact (effect_inv _ _ _ _ H6) | by injection H6 as <-].
Qed.

Lemma reload_success (cfg : ResetSpec) (l : list NormalizedUser) (s s' : rstate (D := D)) (vs : list NormalizedUser) :
  reload_all cfg l s = (s', Ok vs) → Forall2 reloaded l vs.
Proof.
  revert s s' vs. induction l as [|u l IH]; intros s s' vs; cbn [reload_all]; [by intros [= _ <-]; constructor|].
  intros (s1 & v & H1 & H)%bind_success. apply bind_success in H as (s2 & ws & H2%IH & H). injection H as _ <-. constructor; [| done].
  unfold reload_seed in H1. destruct (nu_Password u) as [pw|] eqn:Ep; [| done]. destruct (_ && _).
  - apply bind_success in H1 as (s3 & sec & _ & H1). cbn zeta in H1. destruct (beq (sec_Digest sec) _) eqn:E in H1; cbn [negb] in H1; [| done].
    apply beq_true in E. injection H1 as _ <-. unfold reloaded, with_password. cbn. split_and!; [done..|]. exists pw, sec. auto.
  - destruct (beq (sec_Value pw) []); [done|]. injection H1 as _ <-. unfold reloaded. split_and!; [done..|]. exists pw, pw. auto.
Qed.

Lemma wait_idle_dir (c : caller) (tok : Token) (s s' : rstate (D := D)) (e : option apperr) : wait_idle c tok s = (s', e) → rs_dir s' = rs_dir s.
Proof. unfold wait_idle. destruct (WaitIdle _ _ _); by intros [= <- <-]. Qed.

Lemma Start_success (cfg : ResetSpec) (c : caller) (req : ResetRequest) (s s' : rstate (D := D)) (st : ResetStatus) :
  Start cfg c req s = (s', (st, None)) → completed cfg (rs_dir s) (rs_dir s').
Proof.
  unfold Start. destruct (effect authorize s) as [s1 [[]|]] eqn:E1; [| done]. destruct (refused_request cfg req) as [[? []]|]; [done..|].
  destruct (effect rateLimit s1) as [s2 [[]|]] eqn:E2; [| done]. destruct (reloadSeeds cfg s2) as [s3 [seeds|]] eqn:E3; [| done].
  destruct (ctx_done c); [done|]. destruct (at_time Begin s3) as [s4 [tok|]] eqn:E4; [| done].
  assert (HA : quiet no_deed (effect authorize)) by (apply quiet_look; constructor). destruct (quiet_reads _ _ _ _ HA E1) as [_ Hw1].
  assert (HR : quiet no_deed (effect rateLimit)) by (apply quiet_look; constructor). destruct (quiet_reads _ _ _ _ HR E2) as [_ Hw2].
  destruct (quiet_reads _ _ _ _ (reloadSeeds_quiet _ cfg) E3) as [_ Hw3].
  assert (Hw4 : wrote [] (rs_dir s3) (rs_dir s4)).
  { unfold at_time in E4. pose proof (read_clock (rs_dir s3)) as Hr. destruct (now (rs_dir s3)) as [d t]. unfold at_gate in E4. cbn [rs_gate rs_dir] in E4.
    destruct (Begin t (rs_gate s3)). injection E4 as <- _. by apply wrote_quiet. }
  unfold reset_with. destruct (wait_idle c tok s4) as [s5 [e5|]] eqn:E5; [done|]. pose proof (wait_idle_dir _ _ _ _ _ E5) as Hd5.
  destruct (run cfg tok seeds s5) as [s6 [st6 [e6|]]] eqn:E6; [by destruct (negb _)|]. intros [= <- _].
  apply run_success in E6 as (d1 & d2 & d3 & inv & Hi & Hdel & Ha & Hv). rewrite Hd5 in Hi.
  exists seeds, (rs_dir s4), d1, d2, d3, (rs_dir s6), inv. split_and!; try done.
  - by eapply reload_success.
  - exact (wrote_app [] [] _ _ _ Hw1 (wrote_app [] [] _ _ _ Hw2 (wrote_app [] [] _ _ _ Hw3 Hw4))).
  - destruct (finish_inv tok true (done_operation st6) s6) as (t & _ & Hw). exact (wrote_app [] [] _ _ _ Hw (wrote_quiet _ _ (read_audit _ _ _ _))).
Qed.
End success.

(** C39.  What a call of [Start] leaves.  From a gate in any state, for any behaviour of
    the directory, the clock, the audit log and the operations waited for (which neither
    move the gate nor begin a reset), and fewer than 2^64 resets before:
    an error comes with the gate in the state it was found in and nothing that may write
    called, or with a failed gate, its status naming the error and the recovery, after
    a prefix of the deletions planned from an inventory read under the token, in the
    plan's order, and after anything else only if that prefix is the whole plan;
    an answer without error comes with a ready gate and the compiled revision and
    checksum in its status, after calls of the directory that all succeeded ([completed]):
    every deletion of the plan in its order; every configured user, then every group,
    added or, where it was there, given its state; the repair of the memberships, where
    there is one; and then a verification that read the marker with the compiled revision,
    an inventory with no extra entry, every configured user and group with the checksum
    of the configured ones, and, where binds are checked, bound as every enabled user. *)
Theorem Start_outcome {U : Unicode} {D : Type} {RE : ResetEnv D} (cfg : ResetSpec) (c : caller) (req : ResetRequest)
    (s s' : rstate (D := D)) (st : ResetStatus) (e : option apperr) :
  settles c → g_state (rs_gate s) ≠ Unset → 0 ≤ g_gen (rs_gate s) < 2^64 - 1 → Start cfg c req s = (s', (st, e)) →
  start_outcome cfg (g_state (rs_gate s)) (rs_dir s) s' st e ∧ (e = None → completed cfg (rs_dir s) (rs_dir s')).
Proof.
  intros Hc Hne Hgen H. split; [by apply (Start_outcome_aux cfg c req)|]. intros ->. by eapply Start_success.
Qed.

(** * A directory that is a list of names *)

Definition toy_user (id : bytes) : bytes := B "uid=" ++ id ++ B ",ou=people,dc=lab".
Definition toy_group (id : bytes) : bytes := B "cn=" ++ id ++ B ",ou=groups,dc=lab".

Definition toy_get {A} (dn : bytes) (a : A) (d : list bytes) : list bytes * res apperr A :=
  (d, if bool_decide (dn ∈ d) then Ok a else Err (MkErr (B "not_found") (B "entry not found"))).

Definition toy_add (dn : bytes) (d : list bytes) : list bytes * option apperr :=
  if bool_decide (dn ∈ d) then (d, Some (MkErr FieldConflict (B "exists"))) else (d ++ [dn], None).

Definition toy_env : ResetEnv (list bytes) := {|
  authorize := λ d, (d, None);
  rateLimit := λ d, (d, None);
  record := λ _ _ _ d, d;
  now := λ d, (d, 7);
  Resolve := λ _ _ d, (d, Err (MkErr [] []));
  dir_Inventory := λ d, (d, Ok (MkInventory d [] [] []));
  ReadMarker := λ d, (d, Ok (B "r1"));
  BindTest := λ _ _ d, (d, Ok (B "success"));
  users_Get := λ id, toy_get (toy_user id) (MkLiveUser (toy_user id) (B "1"));
  groups_Get := λ id, toy_get (toy_group id) (MkLiveGroup (toy_group id) [MkMember [] (B "ada") (toy_user (B "ada"))] (B "1"));
  DeleteManaged := λ dn d, (filter (λ x, x ≠ dn) d, None);
  users_Add := λ u, toy_add (toy_user (us_UID u));
  users_Modify := λ _ _ _ _ d, (d, None);
  users_SetPassword := λ _ _ _ d, (d, None);
  groups_Add := λ id _, toy_add (toy_group id);
  groups_ReplaceMembers := λ _ _ _ d, (d, None);
  fixup := λ d, (d, None);
  sha256_hex := id;
  digest := λ l, concat (sn_DN <$> l);
|}.

Definition toy_spec : ResetSpec :=
  MkReset true (B "demo") (B "r1")
    (MkPlanConfig (B "ou=people,dc=lab") (B "ou=groups,dc=lab") [] (B "dc=lab") (B "uid=control,dc=lab") [] [toy_user (B "ada")] [toy_group (B "staff")])
    [MkNUser (B "ada") (B "ada") (toy_user (B "ada")) true (Some (MkSecret [] (B "secret") [])) []]
    [MkNGroup (B "staff") (toy_group (B "staff")) [MkMember [] (B "ada") (toy_user (B "ada"))]]
    true true true true false true.

Definition toy_call : caller := MkCaller false false false id.

Definition toy_start (point : bytes) : rstate (D := list bytes) * (ResetStatus * option apperr) :=
  Start (U := ascii_unicode) (RE := toy_env) toy_spec toy_call (MkResetRequest (B "demo") (B "r1"))
    (MkRState NewGate [toy_user (B "ada"); toy_user (B "eve"); toy_group (B "staff")] point).

(** The reset of a directory with a stranger, and one whose deletion of users fails. *)
Lemma Start_outcome_witness :
  (rs_dir (toy_start []).1 = [toy_user (B "ada"); toy_group (B "staff")] ∧ g_state (rs_gate (toy_start []).1) = Ready) ∧
  (rs_dir (toy_start PhaseDeleteUsers).1 = [toy_user (B "ada")] ∧ g_state (rs_gate (toy_start PhaseDeleteUsers).1) = Failed) ∧
  completed (U := ascii_unicode) (RE := toy_env) toy_spec [toy_user (B "ada"); toy_user (B "eve"); toy_group (B "staff")] (rs_dir (toy_start []).1).
Proof.
  split; [vm_compute; split; reflexivity |]. split; [vm_compute; split; reflexivity |].
  exact (proj2 (Start_outcome (U := ascii_unicode) (RE := toy_env) toy_spec toy_call (MkResetRequest (B "demo") (B "r1"))
    (MkRState NewGate [toy_user (B "ada"); toy_user (B "eve"); toy_group (B "staff")] []) (toy_start []).1 (toy_start []).2.1 None
    ltac:(intros g; split; reflexivity) ltac:(discriminate) ltac:(split; [discriminate | reflexivity]) ltac:(vm_compute; reflexivity)) eq_refl).
Defined.
