(* ===== verification/Vocab389.v ===== *)
(** The attribute vocabulary of the 389 server: [src/internal/schema389/schema389.go].

    The embedded file [attributetypes.txt] is data, a parameter here; its reader and the
    two questions asked about it are modelled.  The ACI parser and the ACL compiler use
    them to refuse attribute names that server would refuse. *)

From stdpp Require Import fin_sets.
From S2P Require Import Prelude GoStrings GoText Attr.

(** The embedded file. *)
Class Vocabulary : Type := { attributeTypesFile : bytes }.

(** [known] and [primary]. *)
Record vocabulary : Type := MkVocabulary {
  v_known : gmap bytes ();
  v_primary : gmap bytes bytes;
}.

Section vocabulary.
Context {U : Unicode}.

(** One field of a line that has a name in its second place, or not. *)
Definition load_field (fields : list bytes) (v : vocabulary) (f : bytes) : vocabulary :=
  MkVocabulary (<[to_lower f := ()]> (v_known v))
    (match fields with
     | _ :: name :: _ => <[to_lower f := name]> (v_primary v)
     | _ => v_primary v
     end).

Definition load_line (v : vocabulary) (line : bytes) : vocabulary :=
  let line := trim_space line in
  if beq line [] || has_prefix line (B "#") then v
  else let fields := Fields line in foldl (load_field fields) v fields.

(** [load]; the line that names the image starts with a hash too. *)
Definition load (text : bytes) : vocabulary := foldl load_line (MkVocabulary ∅ ∅) (split_byte x0a text).

Context {V : Vocabulary}.

Definition base_of (desc : bytes) : bytes := (cut_byte semicolon desc).1.1.

Definition Known (desc : bytes) : bool :=
  bool_decide (is_Some (v_known (load attributeTypesFile) !! to_lower (trim_space (base_of desc)))).

Definition Primary (desc : bytes) : bytes :=
  let desc := trim_space desc in
  let '(base, opts, hasOpts) := cut_byte semicolon desc in
  match v_primary (load attributeTypesFile) !! to_lower (trim_space base) with
  | None => desc
  | Some name => if hasOpts then name ++ B ";" ++ opts else name
  end.
End vocabulary.
