(* ===== verification/AciText.v ===== *)
(** The text of an ACI: the lexer and the recursive-descent parser of
    [src/internal/ldapserver/aci_parse_a.go].

    An error is its octet offset and which rule failed; the phrases of the source are
    constructors.  The lexer walks the text once; [skip] counts the octets that belong
    to the token just read. *)

From S2P Require Import Prelude GoStrings DN Aci Vocab389.

Definition MaxACITextBytesA : Z := 64 * 1024.
Definition aciMaxPermsA : nat := 16.
Definition aciMaxAttrsA : nat := 64.
Definition aciMaxIDLenA : nat := 128.

(** * Tokens *)

Inductive aciTokKindA : Type :=
  | aciTokEOF | aciTokLParen | aciTokRParen | aciTokSemi | aciTokComma | aciTokEquals | aciTokBang | aciTokWord | aciTokQString.

#[export] Instance aciTokKindA_eq_dec : EqDecision aciTokKindA.
Proof. solve_decision. Defined.

Record aciTokenA : Type := MkTok {
  tk_kind : aciTokKindA;
  tk_text : bytes;
  tk_pos : nat;
}.

(** The phrases of [ACIParseErrorA]. *)
Inductive aci_reason : Type :=
  | EmptyText | TextTooLong
  | NotUTF8 | DanglingEscape | InvalidEscape | TruncatedEscape | NulByte | Unterminated
  | Expected (want found : aciTokKindA)
  | TooManyClauses | DuplicateClause | UnknownClause | MissingTarget | MissingBody
  | NotLDAPURL | InvalidDN
  | TooManyAttrs | InvalidAttr | UnknownAttr
  | UnsupportedVersion | NotAcl | EmptyName | NameTooLong | NameControl
  | UnknownAction | UnknownPermission | TooManyPerms
  | UnknownBindRule | EmptySubject.

Record aci_err : Type := MkAciErr {
  Offset : nat;
  Reason : aci_reason;
}.

Definition aciErrA {A} (off : nat) (r : aci_reason) : res aci_err A := Err (MkAciErr off r).

Definition c_quote : byte := x22.
Definition c_lparen : byte := x28.
Definition c_rparen : byte := x29.
Definition c_semi : byte := x3b.
Definition c_bang : byte := x21.

Definition aciIsSpaceA (c : byte) : bool := bool_decide (c ∈ [x20; x09; x0d; x0a]).

Definition aciIsDelimA (c : byte) : bool :=
  aciIsSpaceA c || bool_decide (c ∈ [c_lparen; c_rparen; c_semi; c_comma; c_equals; c_bang; c_quote]).

(** [aciHexValA]; the digits are those of [DN.hex_val]. *)
Definition aciHexValA : byte → option Z := hex_val.

(** The quoted string that opened at [start], from its octet at [i]: the value, the
    offset after the closing quote. *)
Fixpoint aciLexQStringA (start i : nat) (b : bytes) (s : bytes) : res aci_err (bytes * nat) :=
  match s with
  | [] => aciErrA start Unterminated
  | c :: t =>
    if bool_decide (c = c_quote) then
      if valid_utf8 b then Ok (b, S i) else aciErrA start NotUTF8
    else if bool_decide (c = c_backslash) then
      match t with
      | [] => aciErrA i DanglingEscape
      | n :: t' =>
        if bool_decide (n = c_backslash) || bool_decide (n = c_quote) then aciLexQStringA start (2 + i) (b ++ [n]) t'
        else
          match aciHexValA n with
          | None => aciErrA i InvalidEscape
          | Some hi =>
            match t' with
            | [] => aciErrA i TruncatedEscape
            | m :: t'' =>
              match aciHexValA m with
              | None => aciErrA i TruncatedEscape
              | Some lo =>
                let v := zb (Z.lor (Z.shiftl hi 4) lo) in
                if bool_decide (v = x00) then aciErrA i NulByte
                else aciLexQStringA start (3 + i) (b ++ [v]) t''
              end
            end
          end
      end
    else aciLexQStringA start (S i) (b ++ [c]) t
  end.

(** The octets of a word. *)
Fixpoint word_of (s : bytes) : bytes :=
  match s with
  | [] => []
  | c :: t => if aciIsDelimA c then [] else c :: word_of t
  end.

(** The tokens of one octet. *)
Definition punctuation (c : byte) : option aciTokKindA :=
  if bool_decide (c = c_lparen) then Some aciTokLParen
  else if bool_decide (c = c_rparen) then Some aciTokRParen
  else if bool_decide (c = c_semi) then Some aciTokSemi
  else if bool_decide (c = c_comma) then Some aciTokComma
  else if bool_decide (c = c_equals) then Some aciTokEquals
  else if bool_decide (c = c_bang) then Some aciTokBang
  else None.

Fixpoint lex_from (skip i : nat) (s : bytes) : res aci_err (list aciTokenA) :=
  match s with
  | [] => Ok [MkTok aciTokEOF [] i]
  | c :: t =>
    match skip with
    | S k => lex_from k (S i) t
    | O =>
      if aciIsSpaceA c then lex_from 0 (S i) t
      else
        match punctuation c with
        | Some k => ts ← lex_from 0 (S i) t; Ok (MkTok k [] i :: ts)
        | None =>
          if bool_decide (c = c_quote) then
            '(v, next) ← aciLexQStringA i (S i) [] t;
            ts ← lex_from (next - S i) (S i) t; Ok (MkTok aciTokQString v i :: ts)
          else
            ts ← lex_from (length (word_of t)) (S i) t; Ok (MkTok aciTokWord (c :: word_of t) i :: ts)
        end
    end
  end.

Definition aciLexA (text : bytes) : res aci_err (list aciTokenA) := lex_from 0 0 text.

(** * The parser *)

Section parser.
Context {U : Unicode} {V : Vocabulary}.

(** The tokens not read; the last is the end of the input and stays. *)
Definition parser (A : Type) : Type := list aciTokenA → res aci_err (A * list aciTokenA).

Definition peek (ts : list aciTokenA) : aciTokenA :=
  match ts with
  | [] => MkTok aciTokEOF [] 0
  | t :: _ => t
  end.

Definition advance (ts : list aciTokenA) : list aciTokenA :=
  match ts with
  | [] => []
  | t :: ts' => if bool_decide (tk_kind t = aciTokEOF) then ts else ts'
  end.

Definition expect (kind : aciTokKindA) : parser aciTokenA := λ ts,
  let t := peek ts in
  if bool_decide (tk_kind t = kind) then Ok (t, advance ts) else aciErrA (tk_pos t) (Expected kind (tk_kind t)).

Definition ldap_prefix : bytes := B "ldap:///".

Definition aciLDAPRestA (v : bytes) (pos : nat) : res aci_err bytes :=
  if (length v <? length ldap_prefix)%nat || negb (equal_fold (take (length ldap_prefix) v) ldap_prefix) then aciErrA pos NotLDAPURL
  else Ok (drop (length ldap_prefix) v).

Definition parse_dn (rest : bytes) (pos : nat) : res aci_err DN :=
  match ParseDN rest with
  | Ok d => Ok d
  | Err _ => aciErrA pos InvalidDN
  end.

Definition parseTargetClauseA : parser DN := λ ts,
  '(_, ts) ← expect aciTokEquals ts;
  '(v, ts) ← expect aciTokQString ts;
  rest ← aciLDAPRestA (tk_text v) (tk_pos v);
  dn ← parse_dn rest (tk_pos v);
  '(_, ts) ← expect aciTokRParen ts;
  Ok (dn, ts).

Definition c_dash : byte := x2d.
Definition star : bytes := B "*".

Definition alpha (b : byte) : bool := is_alpha (bz b).
Definition alnum_dash (b : byte) : bool := is_alpha (bz b) || is_digit (bz b) || bool_decide (b = c_dash).

(** [aciAttrNameReA]. *)
Definition aciAttrNameReA (a : bytes) : bool :=
  beq a star ||
  match a with
  | [] => false
  | c :: t => alpha c && forallb (λ b, alnum_dash b || bool_decide (b = c_semi)) t
  end.

(** [aciAttrOIDReA]: dotted numbers, then options. *)
Definition aciAttrOIDReA (a : bytes) : bool :=
  match split_byte c_semi a with
  | [] => false
  | oid :: opts =>
    let arcs := split_byte x2e oid in
    (2 <=? length arcs)%nat && forallb (λ arc, negb (beq arc []) && forallb (λ b, is_digit (bz b)) arc) arcs && forallb (forallb alnum_dash) opts
  end.

(** [strings.Split(v, "||")]. *)
Fixpoint split_bars (s : bytes) : list bytes :=
  match s with
  | [] => [[]]
  | c :: t =>
    match t with
    | c' :: t' =>
      if bool_decide (c = x7c) && bool_decide (c' = x7c) then [] :: split_bars t'
      else match split_bars t with [] => [[c]] | p :: ps => (c :: p) :: ps end
    | [] => [[c]]
    end
  end.

(** One name of the list. *)
Definition attr_ok (pos : nat) (a : bytes) : res aci_err () :=
  if beq a star then Ok ()
  else if negb (aciAttrNameReA a) && negb (aciAttrOIDReA a) then aciErrA pos InvalidAttr
  else if negb (Known a) then aciErrA pos UnknownAttr
  else Ok ().

Definition attr_mode (negate : bool) (attrs : list bytes) : ACITargetAttrModeA * list bytes :=
  if bool_decide (star ∈ attrs) && negb negate then (ACITargetAttrAllA, [])
  else if negate then (ACITargetAttrDenyA, attrs)
  else (ACITargetAttrAllowA, attrs).

Definition parseTargetAttrClauseA : parser (ACITargetAttrModeA * list bytes) := λ ts,
  let negate := bool_decide (tk_kind (peek ts) = aciTokBang) in
  let ts := if negate then advance ts else ts in
  '(_, ts) ← expect aciTokEquals ts;
  '(v, ts) ← expect aciTokQString ts;
  let parts := trim_space <$> split_bars (tk_text v) in
  if (aciMaxAttrsA <? length parts)%nat then aciErrA (tk_pos v) TooManyAttrs
  else
    _ ← rmap (attr_ok (tk_pos v)) parts;
    '(_, ts) ← expect aciTokRParen ts;
    Ok (attr_mode negate parts, ts).

Definition aciPermsA (w : bytes) : option Permission :=
  if beq w (B "read") then Some PermRead
  else if beq w (B "search") then Some PermSearch
  else if beq w (B "compare") then Some PermCompare
  else if beq w (B "add") then Some PermAdd
  else if beq w (B "delete") then Some PermDelete
  else if beq w (B "write") then Some PermWrite
  else if beq w (B "moddn") then Some PermModDN
  else None.

(** The loop over the permissions; [room] more may follow. *)
Fixpoint perm_list (room : nat) (ts : list aciTokenA) : res aci_err (list Permission * list aciTokenA) :=
  '(w, ts) ← expect aciTokWord ts;
  match aciPermsA (to_lower (tk_text w)) with
  | None => aciErrA (tk_pos w) UnknownPermission
  | Some perm =>
    match room with
    | O => aciErrA (tk_pos w) TooManyPerms
    | S room =>
      if bool_decide (tk_kind (peek ts) = aciTokComma) then
        '(ps, ts) ← perm_list room (advance ts); Ok (perm :: ps, ts)
      else Ok ([perm], ts)
    end
  end.

Definition parsePermRuleA : parser (bool * list Permission) := λ ts,
  '(kw, ts) ← expect aciTokWord ts;
  deny ← (if beq (to_lower (tk_text kw)) (B "allow") then Ok false
          else if beq (to_lower (tk_text kw)) (B "deny") then Ok true
          else aciErrA (tk_pos kw) UnknownAction);
  '(_, ts) ← expect aciTokLParen ts;
  '(ps, ts) ← perm_list aciMaxPermsA ts;
  '(_, ts) ← expect aciTokRParen ts;
  Ok ((deny, ps), ts).

Definition no_dn : DN := MkDN [].

(** The subject of a bind rule that is a URL with this rest. *)
Definition group_subject (rest : bytes) (pos : nat) : res aci_err ACISubjectA :=
  if beq rest [] then aciErrA pos EmptySubject
  else dn ← parse_dn rest pos; Ok (MkACISubject ACISubjectGroupDNA dn).

Definition user_subject (rest : bytes) (pos : nat) : res aci_err ACISubjectA :=
  let k := to_lower rest in
  if beq k (B "all") then Ok (MkACISubject ACISubjectAllA no_dn)
  else if beq k (B "anyone") then Ok (MkACISubject ACISubjectAnyoneA no_dn)
  else if beq k (B "self") then Ok (MkACISubject ACISubjectSelfA no_dn)
  else if beq rest [] then aciErrA pos EmptySubject
  else dn ← parse_dn rest pos; Ok (MkACISubject ACISubjectUserDNA dn).

Definition parseSubjectA : parser ACISubjectA := λ ts,
  '(kw, ts) ← expect aciTokWord ts;
  group ← (if beq (to_lower (tk_text kw)) (B "userdn") then Ok false
           else if beq (to_lower (tk_text kw)) (B "groupdn") then Ok true
           else aciErrA (tk_pos kw) UnknownBindRule);
  '(_, ts) ← expect aciTokEquals ts;
  '(v, ts) ← expect aciTokQString ts;
  rest ← aciLDAPRestA (tk_text v) (tk_pos v);
  subj ← (if group : bool then group_subject rest (tk_pos v) else user_subject rest (tk_pos v));
  Ok (subj, ts).

Definition control (r : Z) : bool := (r <? 32)%Z || (r =? 127)%Z.

Definition name_ok (id : aciTokenA) : res aci_err () :=
  if beq (tk_text id) [] then aciErrA (tk_pos id) EmptyName
  else if (aciMaxIDLenA <? length (tk_text id))%nat then aciErrA (tk_pos id) NameTooLong
  else if existsb (λ p, control p.1) (runes (tk_text id)) then aciErrA (tk_pos id) NameControl
  else Ok ().

(** What the third clause says. *)
Record body : Type := MkBody {
  bd_ID : bytes;
  bd_Deny : bool;
  bd_Permissions : list Permission;
  bd_Subject : ACISubjectA;
}.

Definition parseBodyClauseA : parser body := λ ts,
  '(ver, ts) ← expect aciTokWord ts;
  _ ← (if beq (tk_text ver) (B "3.0") then Ok () else aciErrA (tk_pos ver) UnsupportedVersion);
  '(_, ts) ← expect aciTokSemi ts;
  '(kw, ts) ← expect aciTokWord ts;
  _ ← (if equal_fold (tk_text kw) (B "acl") then Ok () else aciErrA (tk_pos kw) NotAcl);
  '(id, ts) ← expect aciTokQString ts;
  _ ← name_ok id;
  '(_, ts) ← expect aciTokSemi ts;
  '((deny, ps), ts) ← parsePermRuleA ts;
  '(subj, ts) ← parseSubjectA ts;
  '(_, ts) ← expect aciTokSemi ts;
  '(_, ts) ← expect aciTokRParen ts;
  Ok (MkBody (tk_text id) deny ps subj, ts).

(** The clauses seen so far. *)
Record clauses : Type := MkClauses {
  cl_target : option DN;
  cl_attr : option (ACITargetAttrModeA * list bytes);
  cl_body : option body;
}.

Definition no_clauses : clauses := MkClauses None None None.

(** One turn of the loop of [ParseACITextA]. *)
Definition clause (c : clauses) (ts : list aciTokenA) : res aci_err (clauses * list aciTokenA) :=
  '(_, ts) ← expect aciTokLParen ts;
  '(kw, ts) ← expect aciTokWord ts;
  let k := to_lower (tk_text kw) in
  if beq k (B "target") then
    match cl_target c with
    | Some _ => aciErrA (tk_pos kw) DuplicateClause
    | None => '(dn, ts) ← parseTargetClauseA ts; Ok (MkClauses (Some dn) (cl_attr c) (cl_body c), ts)
    end
  else if beq k (B "targetattr") then
    match cl_attr c with
    | Some _ => aciErrA (tk_pos kw) DuplicateClause
    | None => '(a, ts) ← parseTargetAttrClauseA ts; Ok (MkClauses (cl_target c) (Some a) (cl_body c), ts)
    end
  else if beq k (B "version") then
    match cl_body c with
    | Some _ => aciErrA (tk_pos kw) DuplicateClause
    | None => '(b, ts) ← parseBodyClauseA ts; Ok (MkClauses (cl_target c) (cl_attr c) (Some b), ts)
    end
  else aciErrA (tk_pos kw) UnknownClause.

(** The loop; [unseen] kinds of clause may still come. *)
Fixpoint clause_loop (unseen : nat) (c : clauses) (ts : list aciTokenA) : res aci_err (clauses * list aciTokenA) :=
  if bool_decide (tk_kind (peek ts) = aciTokEOF) then Ok (c, ts)
  else
    match unseen with
    | O => aciErrA (tk_pos (peek ts)) TooManyClauses
    | S unseen => '(c, ts) ← clause c ts; clause_loop unseen c ts
    end.

Definition assembled (c : clauses) (pos : nat) : res aci_err ParsedACI :=
  match cl_target c, cl_body c with
  | None, _ => aciErrA pos MissingTarget
  | _, None => aciErrA pos MissingBody
  | Some dn, Some b =>
    let '(mode, attrs) := match cl_attr c with None => (ACITargetAttrNoneA, []) | Some a => a end in
    Ok (MkParsedACI (bd_ID b) dn mode attrs (bd_Deny b) (bd_Permissions b) (bd_Subject b))
  end.

Definition ParseACITextA (text : bytes) : res aci_err ParsedACI :=
  if beq text [] then aciErrA 0 EmptyText
  else if (MaxACITextBytesA <? blen text)%Z then aciErrA (Z.to_nat MaxACITextBytesA) TextTooLong
  else
    ts ← aciLexA text;
    '(c, ts) ← clause_loop 3 no_clauses ts;
    assembled c (tk_pos (peek ts)).
End parser.

(** The ACI parser accepts exactly its grammar.

    The grammar is stated on tokens, clause by clause, without the parser's control
    flow; each recursive-descent function is shown to recognise its part in both
    directions. *)

Section grammar.
Context {U : Unicode} {V : Vocabulary}.

Local Abbreviation kinds := (fmap (M := list) tk_kind).

(** * The grammar *)

(** An [ldap:///] URL and what follows the prefix. *)
Definition url (v rest : bytes) : Prop :=
  ∃ p, v = p ++ rest ∧ length p = length ldap_prefix ∧ equal_fold p ldap_prefix = true.

Definition target_syntax (dn : DN) (ts : list aciTokenA) : Prop :=
  ∃ e v r rest, ts = [e; v; r] ∧ kinds ts = [aciTokEquals; aciTokQString; aciTokRParen] ∧ url (tk_text v) rest ∧ ParseDN rest = Ok dn.

(** A name of a [targetattr] list. *)
Definition listed_attr (a : bytes) : Prop :=
  a = star ∨ (aciAttrNameReA a = true ∨ aciAttrOIDReA a = true) ∧ Known a = true.

Definition names_in (v : bytes) : list bytes := trim_space <$> split_bars v.

Definition attr_syntax (m : ACITargetAttrModeA * list bytes) (ts : list aciTokenA) : Prop :=
  ∃ bang e v r, ts = bang ++ [e; v; r] ∧ kinds [e; v; r] = [aciTokEquals; aciTokQString; aciTokRParen] ∧
    (kinds bang = [] ∨ kinds bang = [aciTokBang]) ∧
    (length (names_in (tk_text v)) ≤ aciMaxAttrsA)%nat ∧ Forall listed_attr (names_in (tk_text v)) ∧
    m = attr_mode (bool_decide (bang ≠ [])) (names_in (tk_text v)).

Definition perm_word (p : Permission) (t : aciTokenA) : Prop := tk_kind t = aciTokWord ∧ aciPermsA (to_lower (tk_text t)) = Some p.

(** Permissions with commas between them. *)
Inductive perms_syntax : list Permission → list aciTokenA → Prop :=
  | one_perm p t : perm_word p t → perms_syntax [p] [t]
  | more_perms p t c ps ts : perm_word p t → tk_kind c = aciTokComma → perms_syntax ps ts → perms_syntax (p :: ps) (t :: c :: ts).

Definition action (deny : bool) : bytes := if deny then B "deny" else B "allow".

Definition rule_syntax (r : bool * list Permission) (ts : list aciTokenA) : Prop :=
  ∃ w l pts c, ts = w :: l :: pts ++ [c] ∧ tk_kind w = aciTokWord ∧ to_lower (tk_text w) = action r.1 ∧ tk_kind l = aciTokLParen ∧
    perms_syntax r.2 pts ∧ (length r.2 ≤ aciMaxPermsA)%nat ∧ tk_kind c = aciTokRParen.

(** The bind rules: a group, one of three words, or a user. *)
Inductive subject_names : bytes → bytes → ACISubjectA → Prop :=
  | names_group rest dn : ParseDN rest = Ok dn → rest ≠ [] → subject_names (B "groupdn") rest (MkACISubject ACISubjectGroupDNA dn)
  | names_all rest : to_lower rest = B "all" → subject_names (B "userdn") rest (MkACISubject ACISubjectAllA no_dn)
  | names_anyone rest : to_lower rest = B "anyone" → subject_names (B "userdn") rest (MkACISubject ACISubjectAnyoneA no_dn)
  | names_self rest : to_lower rest = B "self" → subject_names (B "userdn") rest (MkACISubject ACISubjectSelfA no_dn)
  | names_user rest dn : ParseDN rest = Ok dn → rest ≠ [] → to_lower rest ∉ [B "all"; B "anyone"; B "self"] →
      subject_names (B "userdn") rest (MkACISubject ACISubjectUserDNA dn).

Definition subject_syntax (s : ACISubjectA) (ts : list aciTokenA) : Prop :=
  ∃ w e v rest, ts = [w; e; v] ∧ kinds ts = [aciTokWord; aciTokEquals; aciTokQString] ∧ url (tk_text v) rest ∧
    subject_names (to_lower (tk_text w)) rest s.

Definition acl_name (id : bytes) : Prop :=
  id ≠ [] ∧ (length id ≤ aciMaxIDLenA)%nat ∧ Forall (λ p, control p.1 = false) (runes id).

Definition body_syntax (b : body) (ts : list aciTokenA) : Prop :=
  ∃ ver s1 kw id s2 rts sts s3 r, ts = [ver; s1; kw; id; s2] ++ rts ++ sts ++ [s3; r] ∧
    kinds [ver; s1; kw; id; s2] = [aciTokWord; aciTokSemi; aciTokWord; aciTokQString; aciTokSemi] ∧
    tk_text ver = B "3.0" ∧ equal_fold (tk_text kw) (B "acl") = true ∧ acl_name (tk_text id) ∧ bd_ID b = tk_text id ∧
    rule_syntax (bd_Deny b, bd_Permissions b) rts ∧ subject_syntax (bd_Subject b) sts ∧
    kinds [s3; r] = [aciTokSemi; aciTokRParen].

(** A clause, among clauses that hold none of its kind yet. *)
Inductive clause_syntax : clauses → list aciTokenA → clauses → Prop :=
  | target_clause a b l w dn ts :
      kinds [l; w] = [aciTokLParen; aciTokWord] → to_lower (tk_text w) = B "target" → target_syntax dn ts →
      clause_syntax (MkClauses None a b) (l :: w :: ts) (MkClauses (Some dn) a b)
  | attr_clause d b l w m ts :
      kinds [l; w] = [aciTokLParen; aciTokWord] → to_lower (tk_text w) = B "targetattr" → attr_syntax m ts →
      clause_syntax (MkClauses d None b) (l :: w :: ts) (MkClauses d (Some m) b)
  | body_clause d a l w x ts :
      kinds [l; w] = [aciTokLParen; aciTokWord] → to_lower (tk_text w) = B "version" → body_syntax x ts →
      clause_syntax (MkClauses d a None) (l :: w :: ts) (MkClauses d a (Some x)).

(** Clauses in any order. *)
Inductive clauses_syntax : clauses → list aciTokenA → clauses → Prop :=
  | no_more c e : tk_kind e = aciTokEOF → clauses_syntax c [e] c
  | one_more c c' c'' ts ts' : clause_syntax c ts c' → clauses_syntax c' ts' c'' → clauses_syntax c (ts ++ ts') c''.

(** A whole ACI: a target and a body are required, a missing [targetattr] names no
    attribute. *)
Definition aci_syntax (ts : list aciTokenA) (p : ParsedACI) : Prop :=
  ∃ dn a b, clauses_syntax no_clauses ts (MkClauses (Some dn) a (Some b)) ∧
    p = MkParsedACI (bd_ID b) dn (default (ACITargetAttrNoneA, []) a).1 (default (ACITargetAttrNoneA, []) a).2 (bd_Deny b) (bd_Permissions b) (bd_Subject b).

(** * Every function recognises its part *)

Definition recognises {A} (p : parser A) (R : A → list aciTokenA → Prop) : Prop :=
  ∀ ts a ts', p ts = Ok (a, ts') ↔ ∃ pre, ts = pre ++ ts' ∧ R a pre.

Lemma expect_iff (k : aciTokKindA) (ts ts' : list aciTokenA) (t : aciTokenA) :
  k ≠ aciTokEOF → expect k ts = Ok (t, ts') ↔ ts = t :: ts' ∧ tk_kind t = k.
Proof.
  intros Hk. unfold expect, aciErrA. destruct ts as [|u ts]; cbn [peek advance].
  - rewrite bool_decide_false by done. split; [done | by intros [? _]].
  - case_bool_decide as E; [| split; [done | by intros [[= -> ->] ?]]]. rewrite bool_decide_false by congruence.
    split; [by intros [= <- <-] | by intros [[= -> ->] _]].
Qed.

Lemma expect_cons (k : aciTokKindA) (t : aciTokenA) (ts : list aciTokenA) : tk_kind t = k → k ≠ aciTokEOF → expect k (t :: ts) = Ok (t, ts).
Proof. intros. by apply expect_iff. Qed.

Lemma url_iff (v rest : bytes) (pos : nat) : aciLDAPRestA v pos = Ok rest ↔ url v rest.
Proof.
  unfold aciLDAPRestA, url, aciErrA. destruct (Nat.ltb_spec (length v) (length ldap_prefix)) as [Hl|Hl]; cbn [orb].
  - split; [done |]. intros (p & -> & Hp & _). rewrite length_app in Hl. lia.
  - destruct (equal_fold _ _) eqn:E; cbn [negb].
    + split; [intros [= <-] | intros (p & -> & Hp & _); f_equal; by rewrite drop_app_length'].
      exists (take (length ldap_prefix) v). rewrite take_drop, length_take. split_and!; [done | lia | done].
    + split; [done |]. intros (p & -> & Hp & Hf). rewrite take_app_length' in E by done. congruence.
Qed.

Lemma parse_dn_iff (rest : bytes) (pos : nat) (dn : DN) : parse_dn rest pos = Ok dn ↔ ParseDN rest = Ok dn.
Proof. unfold parse_dn, aciErrA. destruct (ParseDN rest); [naive_solver | by split]. Qed.

(** Reads the tokens a hypothesis says were expected. *)
Local Ltac tokens H :=
  repeat (let x := fresh "t" in let us := fresh "us" in let E := fresh "E" in let K := fresh "K" in
    apply bind_ok in H as ([x us] & E & H); apply expect_iff in E as [-> K]; [| done]).

(** Runs the parser on tokens of known kinds. *)
Local Ltac run_tokens := repeat (rewrite expect_cons by done; cbn [mbind res_bind]).

Lemma target_recognised : recognises parseTargetClauseA target_syntax.
Proof.
  intros ts dn ts'. unfold parseTargetClauseA. split.
  - intros H. tokens H. apply bind_ok in H as (rest & Hu & H). apply bind_ok in H as (d & Hd & H). tokens H. injection H as -> ->.
    eexists [_; _; _]. split; [reflexivity |]. exists t, t0, t1, rest. cbn. rewrite K, K0, K1. split_and!; [done | done | by eapply url_iff | by eapply parse_dn_iff].
  - intros (pre & -> & e & v & r & rest & -> & [= Ke Kv Kr] & Hu & Hd). cbn [app]. run_tokens.
    rewrite (proj2 (url_iff _ _ _) Hu). cbn [mbind res_bind]. rewrite (proj2 (parse_dn_iff _ _ _) Hd). cbn [mbind res_bind]. by run_tokens.
Qed.

Lemma attr_ok_iff (pos : nat) (a : bytes) : attr_ok pos a = Ok () ↔ listed_attr a.
Proof.
  unfold attr_ok, listed_attr, aciErrA. destruct (beq a star) eqn:E1.
  { apply beq_true in E1. naive_solver. }
  apply beq_false in E1. destruct (aciAttrNameReA a), (aciAttrOIDReA a), (Known a); cbn; naive_solver.
Qed.

Lemma attrs_ok_iff (pos : nat) (l : list bytes) (us : list ()) : rmap (attr_ok pos) l = Ok us → Forall listed_attr l.
Proof. intros H%rmap_ok. induction H as [|a [] l us Ha H IH]; [done |]. constructor; [by eapply attr_ok_iff | done]. Qed.

Lemma attrs_ok (pos : nat) (l : list bytes) : Forall listed_attr l → rmap (attr_ok pos) l = Ok ((λ _, ()) <$> l).
Proof. intros H. apply rmap_pure. eapply Forall_impl; [exact H |]. intros a Ha. by apply attr_ok_iff. Qed.

(** What follows the bang. *)
Definition attr_tail (negate : bool) : parser (ACITargetAttrModeA * list bytes) := λ ts,
  '(_, ts) ← expect aciTokEquals ts;
  '(v, ts) ← expect aciTokQString ts;
  let parts := names_in (tk_text v) in
  if (aciMaxAttrsA <? length parts)%nat then aciErrA (tk_pos v) TooManyAttrs
  else
    _ ← rmap (attr_ok (tk_pos v)) parts;
    '(_, ts) ← expect aciTokRParen ts;
    Ok (attr_mode negate parts, ts).

Lemma attr_tail_recognised (negate : bool) :
  recognises (attr_tail negate) (λ m ts, ∃ e v r, ts = [e; v; r] ∧ kinds [e; v; r] = [aciTokEquals; aciTokQString; aciTokRParen] ∧
    (length (names_in (tk_text v)) ≤ aciMaxAttrsA)%nat ∧ Forall listed_attr (names_in (tk_text v)) ∧ m = attr_mode negate (names_in (tk_text v))).
Proof.
  intros ts m ts'. unfold attr_tail. split.
  - intros H. tokens H. destruct (Nat.ltb_spec aciMaxAttrsA (length (names_in (tk_text t0)))); [done |].
    apply bind_ok in H as (us & Ha & H). tokens H. injection H as <- ->. eexists [_; _; _]. split; [reflexivity |].
    exists t, t0, t1. cbn [fmap list_fmap]. rewrite K, K0, K1. split_and!; [done | done | done | by eapply attrs_ok_iff | done].
  - intros (pre & -> & e & v & r & -> & [= Ke Kv Kr] & Hl & Ha & ->). cbn [app]. run_tokens.
    destruct (Nat.ltb_spec aciMaxAttrsA (length (names_in (tk_text v)))); [lia |]. rewrite attrs_ok by done. cbn [mbind res_bind]. by run_tokens.
Qed.

Lemma attr_recognised : recognises parseTargetAttrClauseA attr_syntax.
Proof.
  intros ts m ts'. transitivity (attr_tail (bool_decide (tk_kind (peek ts) = aciTokBang)) (if bool_decide (tk_kind (peek ts) = aciTokBang) then advance ts else ts) = Ok (m, ts')); [done |].
  rewrite (attr_tail_recognised _ _ _ _). destruct ts as [|b us]; cbn [peek tk_kind].
  { rewrite bool_decide_false by done. split.
    - intros (pre & Hpre & e & v & r & -> & _). done.
    - intros (pre & Hpre & bang & e & v & r & -> & _). by destruct bang. }
  case_bool_decide as Kb; cbn [advance].
  - rewrite bool_decide_false by congruence. split.
    + intros (pre & -> & e & v & r & -> & Hk & Hl & Ha & ->). exists ([b] ++ [e; v; r]). split; [done |].
      exists [b], e, v, r. cbn [fmap list_fmap] in *. rewrite Kb. split_and!; [done | done | by right | done | done | done].
    + intros (pre & Hpre & bang & e & v & r & -> & Hk & Hb & Hl & Ha & ->). destruct Hb as [Hb | Hb].
      * destruct bang; [| done]. injection Hpre as <- _. injection Hk as Hk _ _. congruence.
      * destruct bang as [|b' [|? ?]]; [done | | done]. injection Hpre as <- ->. exists [e; v; r]. split; [done |]. exists e, v, r.
        split_and!; [done | done | done | done | by rewrite bool_decide_true by done].
  - split.
    + intros (pre & Hpre & e & v & r & -> & Hk & Hl & Ha & ->). exists ([] ++ [e; v; r]). split; [done |]. exists [], e, v, r.
      split_and!; [done | done | by left | done | done | by rewrite bool_decide_false by (by intros [])].
    + intros (pre & Hpre & bang & e & v & r & -> & Hk & Hb & Hl & Ha & ->). destruct Hb as [Hb | Hb].
      * destruct bang; [| done]. exists [e; v; r]. split; [done |]. exists e, v, r. split_and!; done.
      * destruct bang as [|b' [|? ?]]; [done | | done]. injection Hpre as <- ->. injection Hb as Hb. congruence.
Qed.

Lemma perm_list_sound (room : nat) (ts ts' : list aciTokenA) (ps : list Permission) :
  perm_list room ts = Ok (ps, ts') → ∃ pre, ts = pre ++ ts' ∧ perms_syntax ps pre ∧ (length ps ≤ room)%nat.
Proof.
  revert ts ps. induction room as [|room IH]; intros ts ps H; cbn [perm_list] in H; tokens H;
    destruct (aciPermsA (to_lower (tk_text t))) as [p|] eqn:Ep; [done | done | | done].
  case_bool_decide as Kc.
  - destruct us as [|c us]; [done |]. cbn [peek advance] in *. rewrite bool_decide_false in H by congruence.
    apply bind_ok in H as ([ps' us'] & H & [= <- ->]). destruct (IH _ _ H) as (pre & -> & Hps & Hl).
    exists (t :: c :: pre). split_and!; [done | by constructor | cbn; lia].
  - injection H as <- ->. exists [t]. split_and!; [done | by constructor | cbn; lia].
Qed.

Lemma perm_list_complete (ps : list Permission) (pre : list aciTokenA) : perms_syntax ps pre → ∀ room ts',
  (length ps ≤ room)%nat → tk_kind (peek ts') ≠ aciTokComma → perm_list room (pre ++ ts') = Ok (ps, ts').
Proof.
  induction 1 as [p t [Kt Ht]|p t c ps pre [Kt Ht] Kc Hps IH]; intros room ts' Hl Hn; cbn [length] in Hl; (destruct room as [|room]; [lia |]);
    cbn [app perm_list]; rewrite expect_cons by done; cbn [mbind res_bind]; rewrite Ht.
  - by rewrite bool_decide_false by done.
  - cbn [peek]. rewrite bool_decide_true by done. cbn [advance]. rewrite bool_decide_false by congruence. rewrite IH; [done | lia | done].
Qed.

Lemma action_iff (w : bytes) (pos : nat) (deny : bool) :
  (if beq w (B "allow") then Ok false else if beq w (B "deny") then Ok true else aciErrA pos UnknownAction) = Ok deny ↔ w = action deny.
Proof.
  destruct (beq w (B "allow")) eqn:E1; [apply beq_true in E1 as ->; destruct deny; split; try done |].
  apply beq_false in E1. destruct (beq w (B "deny")) eqn:E2; [apply beq_true in E2 as ->; destruct deny; split; done |].
  apply beq_false in E2. destruct deny; split; try done; cbn; naive_solver.
Qed.

Lemma rule_recognised : recognises parsePermRuleA rule_syntax.
Proof.
  intros ts [deny ps] ts'. unfold parsePermRuleA. split.
  - intros H. tokens H. apply bind_ok in H as (d & Hd & H). apply action_iff in Hd. tokens H.
    apply bind_ok in H as ([ps' us2] & Hps & H). destruct (perm_list_sound _ _ _ _ Hps) as (pre & -> & Hsyn & Hlen). tokens H.
    injection H as -> -> ->. exists (t :: t0 :: pre ++ [t1]). split; [cbn; by rewrite <- (assoc_L (++)) |]. by exists t, t0, pre, t1.
  - intros (pre & -> & w & l & pts & c & -> & Kw & Hw & Kl & Hps & Hl & Kc). cbn [fst snd] in *. cbn [app]. rewrite <- (assoc_L (++)). run_tokens.
    rewrite (proj2 (action_iff _ _ deny) Hw). cbn [mbind res_bind]. run_tokens.
    rewrite (perm_list_complete _ _ Hps) by (try done; cbn; congruence). cbn [mbind res_bind app]. by run_tokens.
Qed.

Definition rule_word (group : bool) : bytes := if group then B "groupdn" else B "userdn".

Lemma rule_word_iff (w : bytes) (pos : nat) (group : bool) :
  (if beq w (B "userdn") then Ok false else if beq w (B "groupdn") then Ok true else aciErrA pos UnknownBindRule) = Ok group ↔ w = rule_word group.
Proof.
  destruct (beq w (B "userdn")) eqn:E1; [apply beq_true in E1 as ->; destruct group; split; try done |].
  apply beq_false in E1. destruct (beq w (B "groupdn")) eqn:E2; [apply beq_true in E2 as ->; destruct group; split; done |].
  apply beq_false in E2. destruct group; split; try done; cbn; naive_solver.
Qed.

Local Ltac subject_cases :=
  inversion 1; subst; try discriminate; try congruence; try reflexivity;
  try (exfalso; match goal with H : _ ∉ _ |- _ => apply H; rewrite !elem_of_cons; by auto end);
  try (exfalso; match goal with H1 : ?x = B _, H2 : ?x = B _ |- _ => rewrite H1 in H2; discriminate H2 end).

Lemma subject_iff (group : bool) (rest : bytes) (pos : nat) (s : ACISubjectA) :
  (if group then group_subject rest pos else user_subject rest pos) = Ok s ↔ subject_names (rule_word group) rest s.
Proof.
  destruct group; cbn [rule_word].
  - unfold group_subject, aciErrA. destruct (beq rest []) eqn:E.
    + apply beq_true in E as ->. split; [done | inversion 1; done].
    + apply beq_false in E. rewrite bind_ok. split.
      * intros (dn & Hd & [= <-]). constructor; [by eapply parse_dn_iff | done].
      * inversion 1; subst. exists dn. split; [by apply parse_dn_iff | done].
  - unfold user_subject, aciErrA. destruct (beq (to_lower rest) (B "all")) eqn:E1.
    { apply beq_true in E1. split; [intros [= <-]; by constructor |]. subject_cases. }
    apply beq_false in E1. destruct (beq (to_lower rest) (B "anyone")) eqn:E2.
    { apply beq_true in E2. split; [intros [= <-]; by constructor |]. subject_cases. }
    apply beq_false in E2. destruct (beq (to_lower rest) (B "self")) eqn:E3.
    { apply beq_true in E3. split; [intros [= <-]; by constructor |]. subject_cases. }
    apply beq_false in E3. destruct (beq rest []) eqn:E.
    + apply beq_true in E as ->. split; [done | inversion 1; subst; congruence].
    + apply beq_false in E. rewrite bind_ok. split.
      * intros (dn & Hd & [= <-]). constructor; [by eapply parse_dn_iff | done | set_solver].
      * subject_cases. exists dn. split; [by apply parse_dn_iff | done].
Qed.

Lemma subject_recognised : recognises parseSubjectA subject_syntax.
Proof.
  intros ts s ts'. unfold parseSubjectA. split.
  - intros H. tokens H. apply bind_ok in H as (g & Hg & H). apply rule_word_iff in Hg. tokens H.
    apply bind_ok in H as (rest & Hu & H). apply bind_ok in H as (subj & Hs & [= <- ->]). exists [t; t0; t1]. split; [done |].
    exists t, t0, t1, rest. cbn [fmap list_fmap]. rewrite K, K0, K1, Hg. split_and!; [done | done | by eapply url_iff | by eapply subject_iff].
  - intros (pre & -> & w & e & v & rest & -> & [= Kw Ke Kv] & Hu & Hs). cbn [app]. run_tokens.
    assert (Hg : ∃ g, to_lower (tk_text w) = rule_word g) by (inversion Hs; [by exists true | by exists false ..]). destruct Hg as [g Hg].
    rewrite (proj2 (rule_word_iff _ _ g) Hg). cbn [mbind res_bind]. run_tokens.
    rewrite (proj2 (url_iff _ _ _) Hu). cbn [mbind res_bind]. rewrite Hg in Hs. by rewrite (proj2 (subject_iff _ _ _ _) Hs).
Qed.

Lemma name_ok_iff (t : aciTokenA) (u : ()) : name_ok t = Ok u ↔ acl_name (tk_text t).
Proof.
  unfold name_ok, acl_name, aciErrA. destruct u. destruct (beq (tk_text t) []) eqn:E1; [apply beq_true in E1; naive_solver |]. apply beq_false in E1.
  destruct (Nat.ltb_spec aciMaxIDLenA (length (tk_text t))); [split; [done | intros (_ & ? & _); lia] |].
  destruct (existsb _ _) eqn:E2.
  - split; [done |]. intros (_ & _ & Hf). apply existsb_exists in E2 as (p & Hp & Hc). rewrite Forall_forall in Hf.
    rewrite (Hf p) in Hc; [done | by apply list_elem_of_In].
  - split; [| done]. intros _. split_and!; [done | done |]. apply Forall_forall. intros p Hp. apply not_true_iff_false. intros Hc.
    rewrite (proj2 (existsb_exists _ _)) in E2; [done |]. exists p. split; [by apply list_elem_of_In | done].
Qed.

Lemma body_recognised : recognises parseBodyClauseA body_syntax.
Proof.
  intros ts b ts'. unfold parseBodyClauseA. split.
  - intros H. tokens H. destruct (beq (tk_text t) (B "3.0")) eqn:Ev; [| done]. apply beq_true in Ev. cbn [mbind res_bind] in H.
    tokens H. destruct (equal_fold (tk_text t1) (B "acl")) eqn:Ea; [| done]. cbn [mbind res_bind] in H. tokens H.
    apply bind_ok in H as (u & Hn & H). apply name_ok_iff in Hn. tokens H.
    apply bind_ok in H as ([[deny ps] us1] & Hr & H). apply rule_recognised in Hr as (rts & -> & Hr).
    apply bind_ok in H as ([subj us2] & Hs & H). apply subject_recognised in Hs as (sts & -> & Hs). tokens H. injection H as <- ->.
    exists ([t; t0; t1; t2; t3] ++ rts ++ sts ++ [t4; t5]). split; [cbn; by rewrite <- !(assoc_L (++)) |].
    exists t, t0, t1, t2, t3, rts, sts, t4, t5. cbn [fmap list_fmap]. rewrite K, K0, K1, K2, K3, K4, K5. by split_and!.
  - intros (pre & -> & ver & s1 & kw & id & s2 & rts & sts & s3 & r & -> & [= K1 K2 K3 K4 K5] & Hv & Ha & Hn & Hid & Hr & Hs & [= K6 K7]).
    rewrite <- !(assoc_L (++)). cbn [app]. run_tokens. rewrite Hv, beq_refl. cbn [mbind res_bind]. run_tokens. rewrite Ha. cbn [mbind res_bind]. run_tokens.
    rewrite (proj2 (name_ok_iff _ tt) Hn). cbn [mbind res_bind]. run_tokens.
    rewrite (proj2 (rule_recognised _ _ _) (ex_intro _ rts (conj eq_refl Hr))). cbn [mbind res_bind].
    rewrite (proj2 (subject_recognised _ _ _) (ex_intro _ sts (conj eq_refl Hs))). cbn [mbind res_bind app]. run_tokens.
    destruct b. cbn in *. by subst.
Qed.

Lemma clause_iff (c c' : clauses) (ts ts' : list aciTokenA) :
  clause c ts = Ok (c', ts') ↔ ∃ pre, ts = pre ++ ts' ∧ clause_syntax c pre c'.
Proof.
  unfold clause. split.
  - intros H. tokens H. destruct (beq (to_lower (tk_text t0)) (B "target")) eqn:E1; [| destruct (beq (to_lower (tk_text t0)) (B "targetattr")) eqn:E2;
      [| destruct (beq (to_lower (tk_text t0)) (B "version")) eqn:E3; [| done]]].
    + apply beq_true in E1. destruct (cl_target c) eqn:Ec; [done |]. apply bind_ok in H as ([dn us2] & Hd & [= <- ->]).
      apply target_recognised in Hd as (pre & -> & Hd). exists (t :: t0 :: pre). split; [done |]. destruct c; cbn in *; subst.
      constructor; [cbn; congruence | done | done].
    + apply beq_true in E2. destruct (cl_attr c) eqn:Ec; [done |]. apply bind_ok in H as ([m us2] & Hd & [= <- ->]).
      apply attr_recognised in Hd as (pre & -> & Hd). exists (t :: t0 :: pre). split; [done |]. destruct c; cbn in *; subst.
      constructor; [cbn; congruence | done | done].
    + apply beq_true in E3. destruct (cl_body c) eqn:Ec; [done |]. apply bind_ok in H as ([b us2] & Hd & [= <- ->]).
      apply body_recognised in Hd as (pre & -> & Hd). exists (t :: t0 :: pre). split; [done |]. destruct c; cbn in *; subst.
      constructor; [cbn; congruence | done | done].
  - intros (pre & -> & Hc). destruct Hc as [a b l w dn ts [= Kl Kw] Hw Hd|d b l w m ts [= Kl Kw] Hw Hd|d a l w x ts [= Kl Kw] Hw Hd];
      cbn [app]; run_tokens; rewrite Hw; cbn [beq]; cbn [cl_target cl_attr cl_body].
    + by rewrite (proj2 (target_recognised _ _ _) (ex_intro _ ts (conj eq_refl Hd))).
    + by rewrite (proj2 (attr_recognised _ _ _) (ex_intro _ ts (conj eq_refl Hd))).
    + by rewrite (proj2 (body_recognised _ _ _) (ex_intro _ ts (conj eq_refl Hd))).
Qed.

(** * The end of the input *)

Definition no_eof (ts : list aciTokenA) : Prop := Forall (λ t, tk_kind t ≠ aciTokEOF) ts.

(** The end of the input is the last token and only that. *)
Fixpoint ended (ts : list aciTokenA) : Prop :=
  match ts with
  | [] => False
  | [t] => tk_kind t = aciTokEOF
  | t :: ts' => tk_kind t ≠ aciTokEOF ∧ ended ts'
  end.

Lemma kinds_no_eof (ts : list aciTokenA) (ks : list aciTokKindA) : kinds ts = ks → aciTokEOF ∉ ks → no_eof ts.
Proof. intros <- Hn. apply Forall_forall. intros t Ht Hk. apply Hn. rewrite <- Hk. by apply list_elem_of_fmap_2. Qed.

Lemma perms_no_eof (ps : list Permission) (ts : list aciTokenA) : perms_syntax ps ts → no_eof ts.
Proof. induction 1 as [p t [Kt _]|p t c ps ts [Kt _] Kc _ IH]; repeat constructor; try congruence. done. Qed.

Lemma body_no_eof (b : body) (ts : list aciTokenA) : body_syntax b ts → no_eof ts.
Proof.
  intros (ver & s1 & kw & id & s2 & rts & sts & s3 & r & -> & H1 & _ & _ & _ & _ & (w & l & pts & c & -> & Kw & _ & Kl & Hp & _ & Kc) &
    (w' & e & v & rest & -> & H2 & _) & H3).
  unfold no_eof. rewrite !Forall_app. split_and!; [by eapply kinds_no_eof; [exact H1 | set_solver] | | by eapply kinds_no_eof; [exact H2 | set_solver] |
    by eapply kinds_no_eof; [exact H3 | set_solver]].
  constructor; [congruence |]. constructor; [congruence |]. apply Forall_app. split; [by eapply perms_no_eof |]. by repeat constructor; rewrite Kc.
Qed.

Lemma clause_no_eof (c c' : clauses) (ts : list aciTokenA) : clause_syntax c ts c' → no_eof ts.
Proof.
  intros H. destruct H as [a b l w dn ts Hk _ (e & v & r & rest & -> & H & _)|d b l w m ts Hk _ (bang & e & v & r & -> & H & Hb & _)|d a l w x ts Hk _ Hx];
    change (no_eof ([l; w] ++ ?x)) with (no_eof ([l; w] ++ x)).
  - apply (kinds_no_eof ([l; w] ++ [e; v; r]) ([aciTokLParen; aciTokWord] ++ [aciTokEquals; aciTokQString; aciTokRParen])); [| set_solver].
    rewrite fmap_app. by rewrite Hk, H.
  - apply (Forall_app_2 _ [l; w]); [by eapply kinds_no_eof; [exact Hk | set_solver] |]. apply Forall_app. split; [| by eapply kinds_no_eof; [exact H | set_solver]].
    destruct Hb as [Hb|Hb]; eapply kinds_no_eof; [exact Hb | set_solver | exact Hb | set_solver].
  - apply (Forall_app_2 _ [l; w]); [by eapply kinds_no_eof; [exact Hk | set_solver] |]. by eapply body_no_eof.
Qed.

Lemma ended_drop (pre ts : list aciTokenA) : no_eof pre → ended (pre ++ ts) → ended ts.
Proof.
  induction 1 as [|t pre Ht Hp IH]; [done |]. cbn [app]. intros He. apply IH. cbn [ended] in He. destruct (pre ++ ts); [done | by destruct He].
Qed.

(** The kinds of clause that may still come. *)
Definition unseen_of (c : clauses) : nat :=
  (if cl_target c is Some _ then 0 else 1) + (if cl_attr c is Some _ then 0 else 1) + (if cl_body c is Some _ then 0 else 1).

Lemma clause_fewer (c c' : clauses) (ts : list aciTokenA) : clause_syntax c ts c' → unseen_of c = S (unseen_of c').
Proof. destruct 1; unfold unseen_of; cbn; lia. Qed.

Lemma clause_starts (c c' : clauses) (ts ts' : list aciTokenA) : clause_syntax c ts c' → tk_kind (peek (ts ++ ts')) = aciTokLParen.
Proof. by destruct 1 as [? ? ? ? ? ? [= H _]|? ? ? ? ? ? [= H _]|? ? ? ? ? ? [= H _]]. Qed.

Lemma loop_sound (n : nat) (c c' : clauses) (ts ts' : list aciTokenA) :
  ended ts → clause_loop n c ts = Ok (c', ts') → clauses_syntax c ts c'.
Proof.
  revert c ts. induction n as [|n IH]; intros c ts He; cbn [clause_loop]; case_bool_decide as Hk.
  1, 3: (intros [= -> ->]; destruct ts' as [|e [|? ?]]; [done | by constructor | by destruct He]).
  - done.
  - intros H. apply bind_ok in H as ([c1 us] & Hc & H). apply clause_iff in Hc as (pre & -> & Hc). eapply one_more; [exact Hc |].
    apply (IH _ _); [| done]. eapply ended_drop; [by eapply clause_no_eof | done].
Qed.

Lemma loop_complete (c c' : clauses) (ts : list aciTokenA) : clauses_syntax c ts c' → ∃ ts', clause_loop (unseen_of c) c ts = Ok (c', ts').
Proof.
  induction 1 as [c e Ke|c c1 c2 ts us Hc _ [ts' IH]].
  - exists [e]. destruct (unseen_of c); cbn [clause_loop peek]; by rewrite bool_decide_true by done.
  - exists ts'. rewrite (clause_fewer _ _ _ Hc). cbn [clause_loop]. rewrite (clause_starts _ _ _ _ Hc), bool_decide_false by done.
    rewrite (proj2 (clause_iff _ _ _ _) (ex_intro _ ts (conj eq_refl Hc))). exact IH.
Qed.
End grammar.

(** * The lexer *)

(** What a quoted string says: the two escapes of one octet, and hexadecimal pairs. *)
Inductive quotes : bytes → bytes → Prop :=
  | quotes_nil : quotes [] []
  | quotes_plain c s v : c ≠ c_quote → c ≠ c_backslash → quotes s v → quotes (c :: s) (c :: v)
  | quotes_same n s v : n = c_backslash ∨ n = c_quote → quotes s v → quotes (c_backslash :: n :: s) (n :: v)
  | quotes_hex n m hi lo s v :
      n ≠ c_backslash → n ≠ c_quote → aciHexValA n = Some hi → aciHexValA m = Some lo → zb (Z.lor (Z.shiftl hi 4) lo) ≠ x00 →
      quotes s v → quotes (c_backslash :: n :: m :: s) (zb (Z.lor (Z.shiftl hi 4) lo) :: v).

(** The text of a list of tokens, from an offset on. *)
Inductive spells : nat → bytes → list aciTokenA → Prop :=
  | spells_end i : spells i [] [MkTok aciTokEOF [] i]
  | spells_space i c s ts : aciIsSpaceA c = true → spells (S i) s ts → spells i (c :: s) ts
  | spells_punct i c k s ts : punctuation c = Some k → spells (S i) s ts → spells i (c :: s) (MkTok k [] i :: ts)
  | spells_string i body v s ts :
      quotes body v → valid_utf8 v = true → spells (S (S i + length body)) s ts →
      spells i (c_quote :: body ++ c_quote :: s) (MkTok aciTokQString v i :: ts)
  | spells_word i w s ts :
      w ≠ [] → Forall (λ c, aciIsDelimA c = false) w → match s with [] => True | c :: _ => aciIsDelimA c = true end →
      spells (i + length w) s ts → spells i (w ++ s) (MkTok aciTokWord w i :: ts).

Lemma lexq_complete (body w : bytes) : quotes body w → ∀ start i b t, valid_utf8 (b ++ w) = true →
  aciLexQStringA start i b (body ++ c_quote :: t) = Ok (b ++ w, S (i + length body)).
Proof.
  induction 1 as [|c s v Hq Hb _ IH|n s v Hn _ IH|n m hi lo s v Hn Hn' Hhi Hlo Hz _ IH]; intros start i b t Hv; cbn [app aciLexQStringA].
  - rewrite bool_decide_true by done. rewrite app_nil_r in *. rewrite Hv. f_equal. f_equal. cbn. lia.
  - rewrite !bool_decide_false by done. rewrite IH by (rewrite <- (assoc_L (++)); exact Hv). rewrite <- (assoc_L (++)). cbn. do 2 f_equal. lia.
  - rewrite bool_decide_false, bool_decide_true by done. assert (Hor : bool_decide (n = c_backslash) || bool_decide (n = c_quote) = true).
    { by destruct Hn as [-> | ->]. }
    rewrite Hor, IH by (rewrite <- (assoc_L (++)); exact Hv). rewrite <- (assoc_L (++)). cbn. do 2 f_equal. lia.
  - rewrite bool_decide_false, bool_decide_true by done. rewrite !bool_decide_false by done. cbn [orb]. rewrite Hhi, Hlo.
    rewrite bool_decide_false by done. rewrite IH by (rewrite <- (assoc_L (++)); exact Hv). rewrite <- (assoc_L (++)). cbn. do 2 f_equal. lia.
Qed.

Lemma lexq_sound (n : nat) : ∀ (start i : nat) (b s v : bytes) (next : nat), (length s ≤ n)%nat → aciLexQStringA start i b s = Ok (v, next) →
  ∃ body w t, s = body ++ c_quote :: t ∧ quotes body w ∧ v = b ++ w ∧ next = S (i + length body) ∧ valid_utf8 v = true.
Proof.
  induction n as [|n IH]; intros start i b s v next Hl; (destruct s as [|c s]; [done |]); cbn [length] in Hl; [lia |]. cbn [aciLexQStringA].
  case_bool_decide as Eq; [subst c; destruct (valid_utf8 b) eqn:Ev; [| done]; intros [= <- <-]; exists [], [], s;
    rewrite app_nil_r; split_and!; [done | constructor | done | cbn; lia | done] |].
  case_bool_decide as Eb; [subst c; destruct s as [|c s]; [done |] |].
  - destruct (bool_decide (c = c_backslash) || bool_decide (c = c_quote)) eqn:Ec.
    + intros H. assert (Hlen : (length s ≤ n)%nat) by (cbn in Hl; lia). destruct (IH _ _ _ _ _ _ Hlen H) as (body & w & t & -> & Hq & -> & -> & Hv).
      exists (c_backslash :: c :: body), (c :: w), t. rewrite <- (assoc_L (++)) in *. split_and!; [done | | done | cbn; lia | done].
      constructor; [| done]. apply orb_true_iff in Ec as [Ec|Ec]; apply bool_decide_eq_true in Ec; auto.
    + apply orb_false_iff in Ec as [Ec1%bool_decide_eq_false Ec2%bool_decide_eq_false].
      destruct (aciHexValA c) as [hi|] eqn:Ehi; [| done]. destruct s as [|m s]; [done |]. destruct (aciHexValA m) as [lo|] eqn:Elo; [| done].
      case_bool_decide as Ez; [done |]. intros H. assert (Hlen : (length s ≤ n)%nat) by (cbn in Hl; lia). destruct (IH _ _ _ _ _ _ Hlen H) as (body & w & t & -> & Hq & -> & -> & Hv).
      exists (c_backslash :: c :: m :: body), (zb (Z.lor (Z.shiftl hi 4) lo) :: w), t. rewrite <- (assoc_L (++)) in *.
      split_and!; [done | by constructor | done | cbn; lia | done].
  - intros H. assert (Hlen : (length s ≤ n)%nat) by lia. destruct (IH _ _ _ _ _ _ Hlen H) as (body & w & t & -> & Hq & -> & -> & Hv).
    exists (c :: body), (c :: w), t. rewrite <- (assoc_L (++)) in *. split_and!; [done | by constructor | done | cbn; lia | done].
Qed.

Lemma lexq_iff (start i : nat) (s v : bytes) (next : nat) :
  aciLexQStringA start i [] s = Ok (v, next) ↔
  ∃ body t, s = body ++ c_quote :: t ∧ quotes body v ∧ next = S (i + length body) ∧ valid_utf8 v = true.
Proof.
  split.
  - intros H. destruct (lexq_sound _ _ _ _ _ _ _ (le_n _) H) as (body & w & t & -> & Hq & -> & -> & Hv). by exists body, t.
  - intros (body & t & -> & Hq & -> & Hv). exact (lexq_complete _ _ Hq start i [] t Hv).
Qed.

Lemma lex_skip (k i : nat) (s : bytes) : (k ≤ length s)%nat → lex_from k i s = lex_from 0 (i + k) (drop k s).
Proof.
  revert i s. induction k as [|k IH]; intros i s Hl; [by rewrite Nat.add_0_r, drop_0 |].
  destruct s as [|c s]; cbn in Hl; [lia |]. cbn [lex_from drop]. rewrite IH by lia. f_equal. lia.
Qed.

Lemma word_of_spec (s : bytes) :
  Forall (λ c, aciIsDelimA c = false) (word_of s) ∧
  ∃ t, s = word_of s ++ t ∧ match t with [] => True | c :: _ => aciIsDelimA c = true end.
Proof.
  induction s as [|c s (IH & t & E & Ht)]; cbn [word_of]; [split; [constructor | by exists []] |].
  destruct (aciIsDelimA c) eqn:Ec; [split; [constructor | by exists (c :: s)] |].
  split; [by constructor |]. exists t. cbn [app]. by rewrite <- E.
Qed.

Lemma word_of_app (w t : bytes) :
  Forall (λ c, aciIsDelimA c = false) w → match t with [] => True | c :: _ => aciIsDelimA c = true end → word_of (w ++ t) = w.
Proof.
  intros Hw Ht. induction Hw as [|c w Hc _ IH]; cbn [app word_of].
  - destruct t as [|c t]; [done |]. cbn [word_of]. by rewrite Ht.
  - by rewrite Hc, IH.
Qed.

(** An octet that is not a delimiter starts a word. *)
Lemma nondelim (c : byte) : aciIsDelimA c = false → aciIsSpaceA c = false ∧ punctuation c = None ∧ c ≠ c_quote.
Proof.
  unfold aciIsDelimA. intros [Hs Hd%bool_decide_eq_false]%orb_false_iff. split; [done |].
  rewrite !not_elem_of_cons in Hd. unfold punctuation. rewrite !bool_decide_false by naive_solver. naive_solver.
Qed.

Lemma lex_complete (i : nat) (s : bytes) (ts : list aciTokenA) : spells i s ts → lex_from 0 i s = Ok ts.
Proof.
  induction 1 as [i|i c s ts Hc _ IH|i c k s ts Hc _ IH|i body v s ts Hq Hv _ IH|i w s ts Hw Hd Ht _ IH]; [done | | | |].
  - cbn [lex_from]. by rewrite Hc.
  - cbn [lex_from]. rewrite Hc. destruct (aciIsSpaceA c) eqn:Es; [| by rewrite IH].
    exfalso. apply bool_decide_eq_true in Es. revert Hc. rewrite !elem_of_cons in Es. by destruct Es as [-> |[-> |[-> |[-> |Es]]]]; [..| by apply not_elem_of_nil in Es].
  - cbn [lex_from]. change (aciIsSpaceA c_quote) with false. change (punctuation c_quote) with (@None aciTokKindA). cbn iota.
    rewrite bool_decide_true by done. rewrite (proj2 (lexq_iff i (S i) (body ++ c_quote :: s) v _)) by by exists body, s. cbn [mbind res_bind].
    rewrite lex_skip by (rewrite length_app; cbn; lia).
    replace (S (S i + length body) - S i)%nat with (length (body ++ [c_quote])) by (rewrite length_app; cbn; lia).
    replace (body ++ c_quote :: s) with ((body ++ [c_quote]) ++ s) by by rewrite <- (assoc_L (++)). rewrite drop_app_length.
    replace (S i + length (body ++ [c_quote]))%nat with (S (S i + length body)) by (rewrite length_app; cbn; lia). by rewrite IH.
  - destruct w as [|c w]; [done |]. apply Forall_cons in Hd as [Hc Hd]. destruct (nondelim c Hc) as (Hs & Hp & Hq). cbn [app lex_from].
    rewrite Hs, Hp, bool_decide_false, word_of_app by done. rewrite lex_skip by (rewrite length_app; lia). rewrite drop_app_length.
    replace (S i + length w)%nat with (i + length (c :: w))%nat by (cbn; lia). by rewrite IH.
Qed.

Lemma lex_sound (n : nat) : ∀ (i : nat) (s : bytes) (ts : list aciTokenA), (length s ≤ n)%nat → lex_from 0 i s = Ok ts → spells i s ts.
Proof.
  induction n as [|n IH]; intros i s ts Hl; (destruct s as [|c s]; [intros [= <-]; constructor |]); cbn [length] in Hl; [lia |].
  cbn [lex_from]. destruct (aciIsSpaceA c) eqn:Es; [intros H; apply spells_space; [done | apply IH; [lia | done]] |].
  destruct (punctuation c) as [k|] eqn:Ep.
  { intros H. apply bind_ok in H as (us & H & [= <-]). apply spells_punct; [done | apply IH; [lia | done]]. }
  case_bool_decide as Eq.
  - subst c. intros H. apply bind_ok in H as ([v next] & Hq & H). apply lexq_iff in Hq as (body & t & -> & Hq & -> & Hv).
    apply bind_ok in H as (us & H & [= <-]). rewrite lex_skip in H by (rewrite length_app; cbn; lia).
    replace (S (S i + length body) - S i)%nat with (length (body ++ [c_quote])) in H by (rewrite length_app; cbn; lia).
    replace (body ++ c_quote :: t) with ((body ++ [c_quote]) ++ t) in H by by rewrite <- (assoc_L (++)). rewrite drop_app_length in H.
    replace (S i + length (body ++ [c_quote]))%nat with (S (S i + length body)) in H by (rewrite length_app; cbn; lia).
    constructor; [done | done |]. apply IH; [rewrite length_app in Hl; cbn in Hl; lia | done].
  - intros H. apply bind_ok in H as (us & H & [= <-]). destruct (word_of_spec s) as (Hw & t & E & Ht).
    assert (Hc : aciIsDelimA c = false).
    { unfold aciIsDelimA. rewrite Es. cbn [orb]. apply bool_decide_eq_false. unfold punctuation in Ep. intros Hin. rewrite !elem_of_cons in Hin.
      repeat (case_bool_decide; [done |]). destruct Hin as [?|[?|[?|[?|[?|[?|[?|Hin]]]]]]]; try done. by apply not_elem_of_nil in Hin. }
    remember (word_of s) as w eqn:Ew. clear Ew. subst s. rewrite lex_skip in H by (rewrite length_app; lia). rewrite drop_app_length in H.
    change (c :: w ++ t) with ((c :: w) ++ t). constructor; [done | by constructor | done |].
    replace (i + length (c :: w))%nat with (S i + length w)%nat by (cbn; lia).
    apply IH; [| done]. rewrite length_app in Hl. lia.
Qed.

Lemma lex_iff (text : bytes) (ts : list aciTokenA) : aciLexA text = Ok ts ↔ spells 0 text ts.
Proof. split; [by apply (lex_sound (length text)) | apply lex_complete]. Qed.

Lemma spells_ended (i : nat) (s : bytes) (ts : list aciTokenA) : spells i s ts → ended ts.
Proof.
  assert (Hcons : ∀ t ts, tk_kind t ≠ aciTokEOF → ended ts → ended (t :: ts)) by (intros t [|u us]; [done | by split]).
  induction 1 as [i|i c s ts Hc _ IH|i c k s ts Hc _ IH|i body v s ts Hq Hv _ IH|i w s ts Hw Hd Ht _ IH]; [done | done | | |]; apply Hcons; try done.
  cbn. intros ->. revert Hc. unfold punctuation. repeat case_bool_decide; congruence.
Qed.

Lemma ParseACITextA_iff {U : Unicode} {V : Vocabulary} (text : bytes) (p : ParsedACI) :
  ParseACITextA text = Ok p ↔
  text ≠ [] ∧ (blen text ≤ MaxACITextBytesA)%Z ∧ ∃ ts, spells 0 text ts ∧ aci_syntax ts p.
Proof.
  unfold ParseACITextA, aciErrA. destruct (beq text []) eqn:Ee; [apply beq_true in Ee; naive_solver |]. apply beq_false in Ee.
  destruct (Z.ltb_spec MaxACITextBytesA (blen text)) as [Hlen|Hlen]; [split; [done | intros (_ & ? & _); lia] |]. split.
  - intros H. apply bind_ok in H as (ts & Hl & H). apply lex_iff in Hl. apply bind_ok in H as ([c us] & Hc & H). split_and!; [done | lia |].
    exists ts. split; [done |]. apply loop_sound in Hc; [| by eapply spells_ended]. revert H. unfold assembled, aciErrA.
    destruct c as [[dn|] a [b|]]; cbn [cl_target cl_body cl_attr]; try done. intros H. exists dn, a, b. split; [done |].
    destruct a as [[m l]|]; by injection H as <-.
  - intros (_ & _ & ts & Hl & dn & a & b & Hc & ->). apply lex_iff in Hl. rewrite Hl. cbn [mbind res_bind].
    apply loop_complete in Hc as [ts' Hc]. change (unseen_of no_clauses) with 3%nat in Hc. rewrite Hc. cbn [mbind res_bind].
    unfold assembled. cbn [cl_target cl_body cl_attr]. by destruct a as [[m l]|].
Qed.

(** C17.  The ACI parser is its grammar.  A text is read as a rule exactly if it is not
    empty and within 64 KiB, spells tokens with quoted strings of valid UTF-8 without
    NUL, and the tokens are clauses in any order, none twice: one target with a name,
    one body with the version, a name of at most 128 octets without control characters,
    one to sixteen permissions and one of the bind rules, and at most one [targetattr]
    with up to 64 known names; the rule is what the clauses say. *)
Theorem ParseACITextA_grammar {U : Unicode} {V : Vocabulary} (text : bytes) (p : ParsedACI) :
  ParseACITextA text = Ok p ↔
  text ≠ [] ∧ (blen text ≤ MaxACITextBytesA)%Z ∧ ∃ ts, spells 0 text ts ∧ aci_syntax ts p.
Proof. apply ParseACITextA_iff. Qed.
