(* ===== verification/AciCompile.v ===== *)
(** The access control compiler: [src/internal/config/acl.go], which turns the ACLs of a
    configuration, and the rules of the control plane's own account, into ACI texts.

    Of the configuration the model keeps what the compiler reads.  An error is the path
    and the code of its field. *)

From stdpp Require Import fin_sets.
From S2P Require Import Prelude GoStrings DN DNFacts Attr Aci Paging GoText Vocab389 AciText.

(** * Data *)

Record Target : Type := MkTarget {
  tgt_Kind : bytes;
  tgt_DN : bytes;
}.

Record Principal : Type := MkPrincipal {
  pr_Kind : bytes;
  pr_Ref : bytes;
}.

(** [v1alpha1.ACL]. *)
Record ACL : Type := MkACL {
  acl_ID : bytes;
  acl_Principal : Principal;
  acl_Target : Target;
  acl_Permissions : list bytes;
  acl_Allow : list bytes;
  acl_Deny : list bytes;
  acl_RawACI : bytes;
}.

(** [Normalized]: users and groups by identifier and name. *)
Record Normalized : Type := MkNormalized {
  n_Suffix : DN;
  n_AdditionalSuffixes : list DN;
  n_PeopleDN : DN;
  n_GroupsDN : DN;
  n_AllowRawACI : bool;
  n_RuntimeDN : bytes;
  n_Users : list (bytes * bytes);
  n_Groups : list (bytes * bytes);
  n_OperatorACLs : list ACL;
}.

Record NamedACI : Type := MkNamedACI {
  na_ID : bytes;
  na_Target : bytes;
  na_Text : bytes;
}.

Record cfg_err : Type := MkCfgErr {
  ce_Path : bytes;
  ce_Code : bytes;
}.

Definition cfgErr {A} (path code : bytes) : res cfg_err A := Err (MkCfgErr path code).

Section compile.
Context {U : Unicode} {V : Vocabulary}.

(** * Text *)

(** One rune of [aciEscape]. *)
Definition aci_escape1 (r : Z) : bytes :=
  if (r =? 92)%Z then B "\\"
  else if (r =? 34)%Z then [c_backslash; c_quote]
  else if (r =? 40)%Z then B "\28"
  else if (r =? 41)%Z then B "\29"
  else if (r =? 10)%Z || (r =? 13)%Z then B "\0a"
  else encode_rune r.

Definition aciEscape (s : bytes) : bytes := concat ((λ p, aci_escape1 p.1) <$> runes s).

Definition quoted (s : bytes) : bytes := [c_quote] ++ s ++ [c_quote].

Record aciBuilder : Type := MkBuilder {
  ab_name : bytes;
  ab_targetDN : bytes;
  ab_perms : list bytes;
  ab_allow : bytes;
  ab_deny : bytes;
  ab_who : bytes;
}.

Definition builder_target (b : aciBuilder) : bytes := B "(target=" ++ quoted (B "ldap:///" ++ aciEscape (ab_targetDN b)) ++ B ")".

Definition builder_attr (b : aciBuilder) : bytes :=
  if negb (beq (ab_deny b) []) then B "(targetattr!=" ++ quoted (ab_deny b) ++ B ")"
  else if negb (beq (ab_allow b) []) && negb (beq (ab_allow b) star) then B "(targetattr=" ++ quoted (ab_allow b) ++ B ")"
  else B "(targetattr=" ++ quoted star ++ B ")".

Definition builder_body (b : aciBuilder) : bytes :=
  B "(version 3.0; acl " ++ quoted (ab_name b) ++ B "; allow (" ++ join (B ",") (ab_perms b) ++ B ") " ++ ab_who b ++ B ";)".

(** [aciBuilder.String]. *)
Definition builder_String (b : aciBuilder) : bytes := builder_target b ++ builder_attr b ++ builder_body b.

Definition userdn (dn : bytes) : bytes := B "userdn=" ++ quoted (B "ldap:///" ++ aciEscape dn).
Definition groupdn (dn : bytes) : bytes := B "groupdn=" ++ quoted (B "ldap:///" ++ aciEscape dn).
Definition userdn_word (w : bytes) : bytes := B "userdn=" ++ quoted (B "ldap:///" ++ w).

(** * The account of the control plane *)

Definition labldap : bytes := B "labldap:".

Definition namedRuntime (id target who : bytes) (perms : list bytes) (allow deny : bytes) : NamedACI :=
  let who := if beq who [] then userdn_word (B "all") else who in
  MkNamedACI (labldap ++ id) target (builder_String (MkBuilder (labldap ++ id) target perms allow deny who)).

Definition reads : list bytes := [B "read"; B "search"; B "compare"].
Definition writes : list bytes := [B "add"; B "delete"; B "write"; B "read"; B "search"; B "compare"; B "moddn"].

Definition suffix_rules (who : bytes) (i : nat) (extra : DN) : list NamedACI :=
  let id := itoa (Z.of_nat i + 1) in
  let dn := String extra in
  [namedRuntime (B "runtime-addsuffix-" ++ id ++ B "-read") dn who reads star (B "userPassword");
   namedRuntime (B "runtime-addsuffix-" ++ id ++ B "-write") dn who writes star (B "aci");
   namedRuntime (B "runtime-addsuffix-" ++ id ++ B "-password") dn who [B "write"] (B "userPassword") []].

Definition managedRuntimeACIs (n : Normalized) : list NamedACI :=
  let who := userdn (n_RuntimeDN n) in
  [namedRuntime (B "runtime-suffix-read") (String (n_Suffix n)) who reads star (B "userPassword");
   namedRuntime (B "runtime-people-write") (String (n_PeopleDN n)) who writes star (B "aci");
   namedRuntime (B "runtime-groups-write") (String (n_GroupsDN n)) who writes star (B "aci");
   namedRuntime (B "runtime-password") (String (n_PeopleDN n)) who [B "write"] (B "userPassword") []]
  ++ concat (imap (suffix_rules who) (n_AdditionalSuffixes n)).

(** * An ACL of the configuration *)

(** The [cn=config] guard. *)
Definition rejectCNConfig (s : bytes) : res cfg_err () :=
  let refuse := cfgErr (B "spec.acls") (B "cn_config_grant") in
  if contains (to_lower (filter (λ b, b ≠ x20) s)) (B "cn=config") then refuse
  else
    match ParseDN s, ParseDN (B "cn=config") with
    | Ok d, Ok cfg => if Equal d cfg || IsDescendantOf cfg d then refuse else Ok ()
    | _, _ => Ok ()
    end.

Definition UnderManaged (n : Normalized) (d : DN) : bool := UnderAny d (n_Suffix n :: n_AdditionalSuffixes n).

Definition targetDN (t : Target) (n : Normalized) : res cfg_err bytes :=
  let k := tgt_Kind t in
  if beq k (B "suffix") || beq k [] then Ok (String (n_Suffix n))
  else if beq k (B "people") || beq k (B "users") then Ok (String (n_PeopleDN n))
  else if beq k (B "groups") then Ok (String (n_GroupsDN n))
  else if beq k (B "entry") || beq k (B "dn") then
    match ParseDN (tgt_DN t) with
    | Err _ => cfgErr (B "spec.acls.target.dn") (B "invalid_dn")
    | Ok d => if UnderManaged n d then Ok (String d) else cfgErr (B "spec.acls.target.dn") (B "outside_suffix")
    end
  else cfgErr (B "spec.acls.target.kind") (B "invalid_enum").

Definition principalWho (p : Principal) (n : Normalized) : res cfg_err bytes :=
  let k := pr_Kind p in
  if beq k (B "group") then
    match assoc (n_Groups n) (pr_Ref p) with
    | Some dn => Ok (groupdn dn)
    | None => cfgErr (B "spec.acls.principal.ref") (B "missing_ref")
    end
  else if beq k (B "user") then
    match assoc (n_Users n) (pr_Ref p) with
    | Some dn => Ok (userdn dn)
    | None => cfgErr (B "spec.acls.principal.ref") (B "missing_ref")
    end
  else if beq k (B "anyone") then Ok (userdn_word (B "anyone"))
  else cfgErr (B "spec.acls.principal.kind") (B "invalid_enum").

(** [aciPerms]. *)
Definition aciPerms (p : bytes) : option bytes :=
  if bool_decide (p ∈ [B "read"; B "search"; B "compare"; B "add"; B "delete"; B "write"]) then Some p else None.

Definition acl_path (a : ACL) (field : bytes) : bytes := B "spec.acls." ++ acl_ID a ++ field.

(** One name of an attribute list. *)
Definition dsl_name (path : bytes) (name : bytes) : res cfg_err () :=
  if negb (aciAttrNameReA name) then cfgErr path (B "invalid_attribute")
  else if bool_decide ([] ∈ match cut_byte c_semi name with (_, opts, true) => split_byte c_semi opts | _ => [] end) then cfgErr path (B "invalid_attribute")
  else if negb (beq name star) && negb (Known name) then cfgErr path (B "unknown_attribute")
  else Ok ().

Definition MaxACIAttrs : nat := 64.

(** [splitDSLAttr]. *)
Definition splitDSLAttr (name : bytes) : bytes * list bytes :=
  let '(base, rest, found) := cut_byte c_semi name in
  (CanonicalAttrType (Primary base), if negb (beq rest []) || found then split_byte c_semi rest else []).

Definition optionSubset (sub set : list bytes) : bool :=
  forallb (λ o, existsb (λ h, negb (beq o []) && equal_fold o h) set) sub.

(** [dedupFold]. *)
Fixpoint dedup_fold (seen : gset bytes) (names : list bytes) : list bytes :=
  match names with
  | [] => []
  | n :: names' =>
    if bool_decide (to_lower n ∈ seen) then dedup_fold seen names'
    else n :: dedup_fold ({[to_lower n]} ∪ seen) names'
  end.

Definition dedupFold (names : list bytes) : list bytes := dedup_fold ∅ names.

Definition bars : bytes := B " || ".

(** The names of a list as it is emitted. *)
Definition canonical_names (names : list bytes) : list bytes := dedupFold ((λ n, Primary (PrimaryAttrDescription n)) <$> names).

Definition join_names (path : bytes) (names : list bytes) : res cfg_err bytes :=
  if (MaxACIAttrs <? length (canonical_names names))%nat then cfgErr path (B "too_many_attributes")
  else Ok (join bars (canonical_names names)).

(** Whether a name of the allow list is dropped: a name of the deny list covers it. *)
Fixpoint dropped (path an : bytes) (deny : list bytes) : res cfg_err bool :=
  match deny with
  | [] => Ok false
  | dn :: deny' =>
    let '(aBase, aOpts) := splitDSLAttr an in
    let '(dBase, dOpts) := splitDSLAttr dn in
    if negb (equal_fold aBase dBase) then dropped path an deny'
    else if negb (optionSubset dOpts aOpts) then cfgErr path (B "invalid_attribute_filter")
    else _ ← dropped path an deny'; Ok true
  end.

Fixpoint kept_names (path : bytes) (deny allow : list bytes) : res cfg_err (list bytes) :=
  match allow with
  | [] => Ok []
  | an :: allow' =>
    drop ← dropped path an deny;
    rest ← kept_names path deny allow';
    Ok (if drop : bool then rest else an :: rest)
  end.

(** [dslTargetAttr]: the allow list and the deny list of the builder. *)
Definition dslTargetAttr (a : ACL) : res cfg_err (bytes * bytes) :=
  let pa := acl_path a (B ".attributes.allow") in
  let pd := acl_path a (B ".attributes.deny") in
  if (MaxACIAttrs <? length (acl_Allow a))%nat then cfgErr pa (B "too_many_attributes")
  else if (MaxACIAttrs <? length (acl_Deny a))%nat then cfgErr pd (B "too_many_attributes")
  else
    let allowAll := bool_decide (acl_Allow a = []) || bool_decide (star ∈ acl_Allow a) in
    if bool_decide (star ∈ acl_Deny a) then cfgErr pd (B "invalid_attribute_filter")
    else
      match acl_Deny a, allowAll with
      | [], true => Ok (star, [])
      | [], false => allow ← join_names pa (acl_Allow a); Ok (allow, [])
      | _, true => deny ← join_names pd (acl_Deny a); Ok ([], deny)
      | _, false =>
        kept ← kept_names pd (acl_Deny a) (acl_Allow a);
        if bool_decide (kept = []) then cfgErr pd (B "invalid_attribute_filter")
        else allow ← join_names pa kept; Ok (allow, [])
      end.

Definition acl_perms (a : ACL) : res cfg_err (list bytes) :=
  rmap (λ p, match aciPerms p with Some c => Ok c | None => cfgErr (acl_path a (B ".permissions")) (B "invalid_permission") end) (acl_Permissions a).

Definition emitACI (a : ACL) (n : Normalized) : res cfg_err (bytes * bytes) :=
  tgt ← targetDN (acl_Target a) n;
  _ ← rejectCNConfig tgt;
  if beq (pr_Kind (acl_Principal a)) (B "runtime") then cfgErr (acl_path a (B ".principal")) (B "cn_config_grant")
  else
    who ← principalWho (acl_Principal a) n;
    perms ← acl_perms a;
    if bool_decide (perms = []) then cfgErr (acl_path a (B ".permissions")) (B "required")
    else
      _ ← rmap (dsl_name (acl_path a (B ".attributes.allow"))) (acl_Allow a);
      _ ← rmap (dsl_name (acl_path a (B ".attributes.deny"))) (acl_Deny a);
      '(allow, deny) ← dslTargetAttr a;
      Ok (builder_String (MkBuilder (labldap ++ acl_ID a) tgt perms allow deny who), tgt).

(** [aciIDRe]. *)
Definition aciIDRe (id : bytes) : bool :=
  match id with
  | [] => false
  | c :: t => alpha c && (length t <=? 63)%nat && forallb (λ b, alnum_dash b || bool_decide (b = x5f)) t
  end.

(** One ACL of the configuration, not a duplicate. *)
Definition compile_acl (n : Normalized) (a : ACL) : res cfg_err NamedACI :=
  if negb (aciIDRe (acl_ID a)) then cfgErr (acl_path a []) (B "invalid_id")
  else if negb (beq (acl_RawACI a) []) then
    if negb (n_AllowRawACI n) then cfgErr (acl_path a (B ".rawACI")) (B "raw_aci_disabled")
    else
      _ ← rejectCNConfig (acl_RawACI a);
      Ok (MkNamedACI (labldap ++ acl_ID a) (String (n_Suffix n)) (acl_RawACI a))
  else
    '(text, tgt) ← emitACI a n;
    Ok (MkNamedACI (labldap ++ acl_ID a) tgt text).

(** The loop of [compileACIs]: the errors and the rules, in order. *)
Fixpoint compile_loop (n : Normalized) (seen : gset bytes) (acls : list ACL) : list cfg_err * list NamedACI :=
  match acls with
  | [] => ([], [])
  | a :: acls' =>
    let refused e := let '(es, ops) := compile_loop n seen acls' in (e :: es, ops) in
    if beq (acl_ID a) [] then refused (MkCfgErr (B "spec.acls") (B "required"))
    else if has_prefix (acl_ID a) (B "runtime-") then refused (MkCfgErr (acl_path a []) (B "runtime_aci_override"))
    else if bool_decide (acl_ID a ∈ seen) then refused (MkCfgErr (acl_path a []) (B "duplicate"))
    else
      let '(es, ops) := compile_loop n ({[acl_ID a]} ∪ seen) acls' in
      match compile_acl n a with
      | Err e => (e :: es, ops)
      | Ok op => (es, op :: ops)
      end
  end.

Definition compileACIs (n : Normalized) : res (list cfg_err) (list NamedACI) :=
  match compile_loop n ∅ (n_OperatorACLs n) with
  | ([], ops) => Ok (managedRuntimeACIs n ++ ops)
  | (es, _) => Err es
  end.
End compile.

(** What the access control compiler emits is what the engine reads.

    The texts of [aciBuilder.String] are spelled token by token; the parser, which is
    its grammar ([AciText]), reads from each the rule the configuration meant. *)

(** * Escaping *)

Lemma quotes_app (s t v w : bytes) : quotes s v → quotes t w → quotes (s ++ t) (v ++ w).
Proof. intros H Ht. induction H; cbn [app]; [done | by constructor ..]. Qed.

Lemma quotes_bytes (s : bytes) : c_quote ∉ s → c_backslash ∉ s → quotes s s.
Proof. induction s as [|c s IH]; intros Hq Hb; [constructor |]. constructor; [set_solver | set_solver |]. apply IH; set_solver. Qed.

Lemma high_plain (s : bytes) : Forall (λ b, (128 ≤ bz b)%Z) s → quotes s s.
Proof.
  intros H. rewrite Forall_forall in H. apply quotes_bytes; intros Hin; specialize (H _ Hin); vm_compute in H; by apply H.
Qed.

(** One rune, and what the lexer makes of its escape. *)
Lemma escape1_quotes (p : Z * bytes) : chunk_ok p → valid_chunk p = true → x0d ∉ p.2 → quotes (aci_escape1 p.1) p.2.
Proof.
  intros [(c & Hc & ->)|(Hr & _ & _ & Hh & He)] Hv Hcr; cbn [fst snd] in *.
  - unfold aci_escape1. change 92%Z with (bz c_backslash). change 34%Z with (bz c_quote). change 40%Z with (bz c_lparen).
    change 41%Z with (bz c_rparen). change 10%Z with (bz x0a). change 13%Z with (bz x0d). rewrite !bz_eqb.
    case_bool_decide as E1; [subst c; by apply (quotes_same c_backslash [] []); [left | constructor] |].
    case_bool_decide as E2; [subst c; by apply (quotes_same c_quote [] []); [right | constructor] |].
    case_bool_decide as E3; [subst c; by apply (quotes_hex x32 x38 2 8 [] []); [.. | constructor] |].
    case_bool_decide as E4; [subst c; by apply (quotes_hex x32 x39 2 9 [] []); [.. | constructor] |].
    case_bool_decide as E5; [subst c; by apply (quotes_hex x30 x61 0 10 [] []); [.. | constructor] |].
    rewrite bool_decide_false by set_solver. cbn [orb]. pose proof (Byte.to_N_bounded c) as Hb.
    rewrite encode_rune_ascii by (unfold bz in *; lia). rewrite zb_bz. constructor; [done | done | constructor].
  - unfold aci_escape1. rewrite !(proj2 (Z.eqb_neq _ _)) by lia. cbn [orb]. rewrite He by done. by apply high_plain.
Qed.

(** The escape of a string is read as the string, unless it holds a carriage return. *)
Lemma aciEscape_quotes (s : bytes) : valid_utf8 s = true → x0d ∉ s → quotes (aciEscape s) s.
Proof.
  intros Hv Hcr. unfold aciEscape. rewrite <- (runes_concat s) at 2. rewrite <- (runes_concat s) in Hcr. unfold valid_utf8 in Hv. revert Hv Hcr.
  induction (runes_chunks s) as [|p l Hp _ IH]; [constructor |]. cbn [forallb fmap list_fmap concat].
  intros [Hv1 Hv2]%andb_true_iff Hcr. rewrite elem_of_app in Hcr. apply quotes_app; [apply escape1_quotes; tauto | apply IH; tauto].
Qed.

(** * Spelling *)

Definition sym (t : aciTokenA) : aciTokKindA * bytes := (tk_kind t, tk_text t).

(** A text that spells tokens whatever follows. *)
Definition reads_as (s : bytes) (l : list (aciTokKindA * bytes)) : Prop :=
  ∀ i t ts, spells (i + length s) t ts → ∃ us, spells i (s ++ t) (us ++ ts) ∧ sym <$> us = l.

Lemma reads_nil : reads_as [] [].
Proof. intros i t ts H. exists []. rewrite Nat.add_0_r in H. done. Qed.

Lemma reads_app (s s' : bytes) (l l' : list (aciTokKindA * bytes)) : reads_as s l → reads_as s' l' → reads_as (s ++ s') (l ++ l').
Proof.
  intros H H' i t ts Ht. rewrite length_app, Nat.add_assoc in Ht. destruct (H' _ _ _ Ht) as (us' & Hs' & El').
  destruct (H _ _ _ Hs') as (us & Hs & El). exists (us ++ us'). rewrite <- !(assoc_L (++)), fmap_app, El, El'. done.
Qed.

Lemma reads_quoted (x v : bytes) : quotes x v → valid_utf8 v = true → reads_as (quoted x) [(aciTokQString, v)].
Proof.
  intros Hq Hv i t ts Ht. exists [MkTok aciTokQString v i]. split; [| done].
  replace (quoted x ++ t) with (c_quote :: x ++ c_quote :: t) by (unfold quoted; cbn; by rewrite <- (assoc_L (++))).
  cbn [app]. constructor; [done | done |]. unfold quoted in Ht. rewrite !length_app in Ht. cbn in Ht.
  by replace (S (S i + length x)) with (i + S (length x + 1))%nat by lia.
Qed.

Definition starts_delim (s : bytes) : Prop := match s with [] => False | c :: _ => aciIsDelimA c = true end.

(** A word and what follows it. *)
Lemma reads_word (w s : bytes) (l : list (aciTokKindA * bytes)) :
  w ≠ [] → Forall (λ c, aciIsDelimA c = false) w → starts_delim s → reads_as s l → reads_as (w ++ s) ((aciTokWord, w) :: l).
Proof.
  intros Hw Hd Hs H i t ts Ht. rewrite length_app, Nat.add_assoc in Ht. destruct (H _ _ _ Ht) as (us & Hsp & El).
  exists (MkTok aciTokWord w i :: us). split; [| cbn; by rewrite El]. rewrite <- (assoc_L (++)). cbn [app].
  constructor; [done | done | by destruct s | done].
Qed.

(** The tokens of a text without quotes. *)
Fixpoint literal (n : nat) (s : bytes) : list (aciTokKindA * bytes) :=
  match n, s with
  | S n, c :: t =>
    if aciIsSpaceA c then literal n t
    else
      match punctuation c with
      | Some k => (k, []) :: literal n t
      | None => (aciTokWord, c :: word_of t) :: literal n (drop (length (word_of t)) t)
      end
  | _, _ => []
  end.

Definition ends_delim (s : bytes) : bool :=
  match last s with
  | None => true
  | Some c => aciIsDelimA c
  end.

Lemma ends_delim_cons (c : byte) (s : bytes) : s ≠ [] → ends_delim (c :: s) = ends_delim s.
Proof. unfold ends_delim. destruct s as [|d s]; [done |]. by cbn [last]. Qed.

Lemma ends_delim_app (s t : bytes) : t ≠ [] → ends_delim (s ++ t) = ends_delim t.
Proof. intros Ht. induction s as [|c s IH]; [done |]. cbn [app]. rewrite ends_delim_cons; [done |]. by destruct s, t. Qed.

Lemma literal_reads (n : nat) : ∀ s, (length s ≤ n)%nat → c_quote ∉ s → ends_delim s = true → reads_as s (literal n s).
Proof.
  induction n as [|n IH]; intros s Hl Hq He; (destruct s as [|c s]; [apply reads_nil |]); cbn [length] in Hl; [lia |]. cbn [literal].
  assert (Hs : ends_delim s = true) by (destruct s; [done | by rewrite ends_delim_cons in He]).
  destruct (aciIsSpaceA c) eqn:Es.
  - intros i t ts Ht. destruct (IH s ltac:(lia) ltac:(set_solver) Hs (S i) t ts) as (us & H & El); [by replace (S i + length s)%nat with (i + length (c :: s))%nat by (cbn; lia) |].
    exists us. split; [by apply spells_space | done].
  - destruct (punctuation c) as [k|] eqn:Ep.
    + intros i t ts Ht. destruct (IH s ltac:(lia) ltac:(set_solver) Hs (S i) t ts) as (us & H & El); [by replace (S i + length s)%nat with (i + length (c :: s))%nat by (cbn; lia) |].
      exists (MkTok k [] i :: us). split; [by apply spells_punct | cbn; by rewrite El].
    + assert (Hc : aciIsDelimA c = false).
      { unfold aciIsDelimA. rewrite Es. cbn [orb]. apply bool_decide_eq_false. unfold punctuation in Ep. intros Hin. rewrite !elem_of_cons in Hin.
        repeat (case_bool_decide; [done |]). destruct Hin as [?|[?|[?|[?|[?|[?|[?|Hin]]]]]]]; try done; [set_solver | by apply not_elem_of_nil in Hin]. }
      destruct (word_of_spec s) as (Hw & t & E & Ht). remember (word_of s) as w eqn:Ew. clear Ew. subst s. rewrite drop_app_length.
      change (c :: w ++ t) with ((c :: w) ++ t) in *. destruct t as [|d t].
      { exfalso. rewrite app_nil_r in He. unfold ends_delim in He. assert (Hall : Forall (λ x, aciIsDelimA x = false) (c :: w)) by by constructor.
        destruct (last (c :: w)) as [x|] eqn:El; [| by apply last_None in El]. apply last_Some_elem_of in El. rewrite Forall_forall in Hall. rewrite Hall in He; done. }
      apply reads_word; [done | by constructor | done |]. apply IH; [rewrite length_app in Hl; lia | set_solver |]. by rewrite ends_delim_app in He.
Qed.

Lemma reads_literal (s : bytes) (l : list (aciTokKindA * bytes)) :
  bool_decide (c_quote ∉ s) && ends_delim s = true → literal (length s) s = l → reads_as s l.
Proof. intros [Hq%bool_decide_eq_true He]%andb_true_iff <-. by apply literal_reads. Qed.

(** Words with commas between them, and what follows. *)
Fixpoint comma_syms (ws : list bytes) : list (aciTokKindA * bytes) :=
  match ws with
  | [] => []
  | [w] => [(aciTokWord, w)]
  | w :: ws' => (aciTokWord, w) :: (aciTokComma, []) :: comma_syms ws'
  end.

Definition is_word (w : bytes) : Prop := w ≠ [] ∧ Forall (λ c, aciIsDelimA c = false) w.

Lemma reads_words (ws : list bytes) (s : bytes) (l : list (aciTokKindA * bytes)) :
  Forall is_word ws → starts_delim s → reads_as s l → reads_as (join (B ",") ws ++ s) (comma_syms ws ++ l).
Proof.
  intros Hws Hs H. induction Hws as [|w ws [Hw Hd] Hws IH]; [done |]. destruct ws as [|w' ws].
  - cbn [join comma_syms app]. by apply reads_word.
  - change (join (B ",") (w :: w' :: ws)) with (w ++ c_comma :: join (B ",") (w' :: ws)). rewrite <- (assoc_L (++)).
    apply reads_word; [done | done | done |]. change ((c_comma :: join (B ",") (w' :: ws)) ++ s) with ([c_comma] ++ (join (B ",") (w' :: ws) ++ s)).
    apply (reads_app [c_comma] _ [(aciTokComma, @nil byte)]); [by apply reads_literal | done].
Qed.

(** * The text of a builder *)

(** What a builder may hold to be read: quoted names without quotes or backslashes. *)
Definition bare (s : bytes) : Prop := valid_utf8 s = true ∧ (c_quote ∉ s) ∧ (c_backslash ∉ s).

(** A name that survives the escape. *)
Definition printable (s : bytes) : Prop := valid_utf8 s = true ∧ (x0d ∉ s).

Lemma reads_bare (s : bytes) : bare s → reads_as (quoted s) [(aciTokQString, s)].
Proof. intros (Hv & Hq & Hb). apply reads_quoted; [by apply quotes_bytes | done]. Qed.

Lemma valid_app (s t : bytes) : forallb is_ascii s = true → valid_utf8 t = true → valid_utf8 (s ++ t) = true.
Proof.
  intros Hs Ht. induction s as [|c s IH]; [done |]. cbn [forallb] in Hs. apply andb_true_iff in Hs as [Hc Hs]. cbn [app]. unfold valid_utf8.
  rewrite runes_ascii_cons by by apply is_ascii_true. cbn [forallb]. rewrite (IH Hs : forallb valid_chunk (runes (s ++ t)) = true), andb_true_r.
  apply is_ascii_true in Hc. unfold valid_chunk. cbn [fst]. rewrite (proj2 (Z.eqb_neq _ _)); [done |]. unfold rune_error. lia.
Qed.

Definition ldap_url (s : bytes) : bytes := ldap_prefix ++ s.

Lemma reads_url (s : bytes) : printable s → reads_as (quoted (B "ldap:///" ++ aciEscape s)) [(aciTokQString, ldap_url s)].
Proof.
  intros [Hv Hcr]. apply reads_quoted; [| by apply valid_app]. apply quotes_app; [apply quotes_bytes; vm_compute; set_solver | by apply aciEscape_quotes].
Qed.

(** The principal of a rule: its text, and the bind rule it spells. *)
Definition who_reads (who word value : bytes) : Prop :=
  reads_as who [(aciTokWord, word); (aciTokEquals, []); (aciTokQString, value)].

Lemma who_userdn (dn : bytes) : printable dn → who_reads (userdn dn) (B "userdn") (ldap_url dn).
Proof.
  intros H. unfold who_reads, userdn. apply (reads_app _ _ [(aciTokWord, B "userdn"); (aciTokEquals, [])] [(aciTokQString, ldap_url dn)]); [by apply reads_literal | by apply reads_url].
Qed.

Lemma who_groupdn (dn : bytes) : printable dn → who_reads (groupdn dn) (B "groupdn") (ldap_url dn).
Proof.
  intros H. unfold who_reads, groupdn. apply (reads_app _ _ [(aciTokWord, B "groupdn"); (aciTokEquals, [])] [(aciTokQString, ldap_url dn)]); [by apply reads_literal | by apply reads_url].
Qed.

Lemma who_word (w : bytes) : bare (ldap_prefix ++ w) → who_reads (userdn_word w) (B "userdn") (ldap_url w).
Proof.
  intros H. unfold who_reads, userdn_word. apply (reads_app _ _ [(aciTokWord, B "userdn"); (aciTokEquals, [])] [(aciTokQString, ldap_url w)]); [by apply reads_literal | by apply reads_bare].
Qed.

(** The attribute clause of a builder: negated or not, and its list. *)
Definition builder_names (b : aciBuilder) : bool * bytes :=
  if negb (beq (ab_deny b) []) then (true, ab_deny b)
  else if negb (beq (ab_allow b) []) && negb (beq (ab_allow b) star) then (false, ab_allow b)
  else (false, star).

Definition bang_syms (negate : bool) : list (aciTokKindA * bytes) := if negate then [(aciTokBang, [])] else [].

Definition builder_syms (b : aciBuilder) (word value : bytes) : list (aciTokKindA * bytes) :=
  [(aciTokLParen, []); (aciTokWord, B "target"); (aciTokEquals, []); (aciTokQString, ldap_url (ab_targetDN b)); (aciTokRParen, [])] ++
  ([(aciTokLParen, []); (aciTokWord, B "targetattr")] ++ bang_syms (builder_names b).1 ++ [(aciTokEquals, []); (aciTokQString, (builder_names b).2); (aciTokRParen, [])]) ++
  [(aciTokLParen, []); (aciTokWord, B "version"); (aciTokWord, B "3.0"); (aciTokSemi, []); (aciTokWord, B "acl"); (aciTokQString, ab_name b);
   (aciTokSemi, []); (aciTokWord, B "allow"); (aciTokLParen, [])] ++ comma_syms (ab_perms b) ++ [(aciTokRParen, [])] ++
  [(aciTokWord, word); (aciTokEquals, []); (aciTokQString, value)] ++ [(aciTokSemi, []); (aciTokRParen, [])].

Lemma builder_reads (b : aciBuilder) (word value : bytes) :
  printable (ab_targetDN b) → bare (builder_names b).2 → bare (ab_name b) → Forall is_word (ab_perms b) → who_reads (ab_who b) word value →
  reads_as (builder_String b) (builder_syms b word value).
Proof.
  intros Ht Ha Hn Hp Hw. unfold builder_String, builder_syms. apply reads_app.
  { unfold builder_target. apply (reads_app _ _ [(aciTokLParen, []); (aciTokWord, B "target"); (aciTokEquals, [])] [(aciTokQString, ldap_url (ab_targetDN b)); (aciTokRParen, [])]);
      [by apply reads_literal |]. apply (reads_app _ _ [_] [_]); [by apply reads_url | by apply reads_literal]. }
  apply reads_app.
  { unfold builder_attr, builder_names in *. destruct (negb (beq (ab_deny b) [])); [| destruct (negb (beq (ab_allow b) []) && negb (beq (ab_allow b) star))]; cbn [fst snd bang_syms app] in *.
    - apply (reads_app _ _ [(aciTokLParen, []); (aciTokWord, B "targetattr"); (aciTokBang, []); (aciTokEquals, [])] [(aciTokQString, ab_deny b); (aciTokRParen, [])]);
        [by apply reads_literal |]. apply (reads_app _ _ [_] [_]); [by apply reads_bare | by apply reads_literal].
    - apply (reads_app _ _ [(aciTokLParen, []); (aciTokWord, B "targetattr"); (aciTokEquals, [])] [(aciTokQString, ab_allow b); (aciTokRParen, [])]);
        [by apply reads_literal |]. apply (reads_app _ _ [_] [_]); [by apply reads_bare | by apply reads_literal].
    - apply (reads_app _ _ [(aciTokLParen, []); (aciTokWord, B "targetattr"); (aciTokEquals, [])] [(aciTokQString, star); (aciTokRParen, [])]);
        [by apply reads_literal |]. apply (reads_app _ _ [_] [_]); [by apply reads_bare | by apply reads_literal]. }
  unfold builder_body.
  apply (reads_app _ _ [(aciTokLParen, []); (aciTokWord, B "version"); (aciTokWord, B "3.0"); (aciTokSemi, []); (aciTokWord, B "acl")]
    ([(aciTokQString, ab_name b); (aciTokSemi, []); (aciTokWord, B "allow"); (aciTokLParen, [])] ++ _)); [by apply reads_literal |].
  apply (reads_app _ _ [(aciTokQString, ab_name b)] ([(aciTokSemi, []); (aciTokWord, B "allow"); (aciTokLParen, [])] ++ _)); [by apply reads_bare |].
  apply reads_app; [by apply reads_literal |]. apply reads_words; [done | done |].
  apply reads_app; [by apply reads_literal |]. apply reads_app; [done | by apply reads_literal].
Qed.

(** * The rule the text is read as *)

Section rule.
Context {U : Unicode} {UL : UnicodeLaws U} {V : Vocabulary}.

Lemma sym_inv (ts : list aciTokenA) (x : aciTokKindA * bytes) (l : list (aciTokKindA * bytes)) :
  sym <$> ts = x :: l → ∃ t us, ts = t :: us ∧ tk_kind t = x.1 ∧ tk_text t = x.2 ∧ sym <$> us = l.
Proof. destruct ts as [|t us]; [done |]. intros [= <- <-]. by exists t, us. Qed.

(** The permissions a list of words names. *)
Definition words_perms (ws : list bytes) (ps : list Permission) : Prop := Forall2 (λ w p, aciPermsA (to_lower w) = Some p) ws ps.

Lemma comma_perms (ws : list bytes) (ps : list Permission) (ts : list aciTokenA) :
  words_perms ws ps → ws ≠ [] → sym <$> ts = comma_syms ws → perms_syntax ps ts.
Proof.
  intros H. revert ts. induction H as [|w p ws ps Hw Hrest IH]; [done |]. intros ts _ Hts. destruct ws as [|w' ws].
  - apply Forall2_nil_inv_l in Hrest as ->. apply sym_inv in Hts as (t & us & -> & K & E & Hus). apply fmap_nil_inv in Hus as ->.
    constructor. split; [done | by rewrite E].
  - apply sym_inv in Hts as (t & us & -> & K & E & Hus). apply sym_inv in Hus as (c & us' & -> & Kc & _ & Hus').
    constructor; [split; [done | by rewrite E] | done |]. by apply IH.
Qed.

Lemma ldap_url_url (s : bytes) : url (ldap_url s) s.
Proof. exists ldap_prefix. split_and!; [done | done | apply fold_eq_refl]. Qed.

(** One step of reading a list of symbols back into tokens. *)
Local Ltac read_sym H :=
  let t := fresh "t" in let us := fresh "us" in let K := fresh "K" in let E := fresh "E" in
  apply sym_inv in H as (t & us & -> & K & E & H); cbn [fst snd] in K, E.

Lemma builder_syntax (b : aciBuilder) (word value rest : bytes) (d : DN) (ps : list Permission) (subj : ACISubjectA) (us : list aciTokenA) (n : nat) :
  ParseDN (ab_targetDN b) = Ok d →
  (length (names_in (builder_names b).2) ≤ aciMaxAttrsA)%nat → Forall listed_attr (names_in (builder_names b).2) →
  acl_name (ab_name b) → words_perms (ab_perms b) ps → ab_perms b ≠ [] → (length ps ≤ aciMaxPermsA)%nat →
  to_lower word = word → url value rest → subject_names word rest subj →
  sym <$> us = builder_syms b word value →
  aci_syntax (us ++ [MkTok aciTokEOF [] n])
    (MkParsedACI (ab_name b) d (attr_mode (builder_names b).1 (names_in (builder_names b).2)).1
       (attr_mode (builder_names b).1 (names_in (builder_names b).2)).2 false ps subj).
Proof.
  intros Hd Hal Ha Hn Hp Hpne Hpl Hword Hu Hs Hus. unfold builder_syms in Hus. destruct (builder_names b) as [neg names]. cbn [fst snd] in *.
  apply fmap_app_inv in Hus as (us1 & us' & H1 & Hus & ->). symmetry in Hus. apply fmap_app_inv in Hus as (us2 & us3 & H2 & H3 & ->).
  exists d, (Some (attr_mode neg (names_in names))), (MkBody (ab_name b) false ps subj). split; [| done].
  rewrite <- !(assoc_L (++)). eapply one_more; [| eapply one_more; [| eapply one_more; [| by constructor]]].
  - symmetry in H1. repeat read_sym H1. apply fmap_nil_inv in H1 as ->. constructor; [cbn; congruence | rewrite E0; by vm_compute |].
    exists t1, t2, t3, (ab_targetDN b). split_and!; [done | cbn; congruence | rewrite E2; apply ldap_url_url | done].
  - symmetry in H2. read_sym H2. read_sym H2. cbn [app] in H2. apply fmap_app_inv in H2 as (bs & vs & Hb & Hv & ->). symmetry in Hv. repeat read_sym Hv. apply fmap_nil_inv in Hv as ->.
    constructor; [cbn; congruence | rewrite E0; by vm_compute |].
    exists bs, t1, t2, t3. rewrite E2. split_and!; [done | cbn; congruence | | done | done |].
    + destruct neg; cbn in Hb; symmetry in Hb; [right; read_sym Hb; apply fmap_nil_inv in Hb as ->; cbn; congruence | left; by apply fmap_nil_inv in Hb as ->].
    + f_equal. symmetry. destruct neg; cbn in Hb; symmetry in Hb; [read_sym Hb; by apply bool_decide_true | apply fmap_nil_inv in Hb as ->; by apply bool_decide_false; intros []].
  - symmetry in H3. apply sym_inv in H3 as (l & us3' & -> & Kl & _ & H3). cbn [fst] in Kl. read_sym H3. read_sym H3. read_sym H3. read_sym H3. read_sym H3. read_sym H3. read_sym H3. read_sym H3.
    cbn [app] in H3. apply fmap_app_inv in H3 as (pts & us4 & Hpts & H4 & ->). symmetry in H4. read_sym H4. cbn [app] in H4.
    read_sym H4. read_sym H4. read_sym H4. read_sym H4. read_sym H4. apply fmap_nil_inv in H4 as ->.
    constructor; [cbn; congruence | rewrite E; by vm_compute |].
    exists t0, t1, t2, t3, t4, (t5 :: t6 :: pts ++ [t7]), [t8; t9; t10], t11, t12. cbn [bd_ID bd_Deny bd_Permissions bd_Subject].
    split_and!; [cbn; by rewrite <- !(assoc_L (++)) | cbn; congruence | done | rewrite E2; apply fold_eq_refl | by rewrite E3 | done | | | cbn; congruence].
    + exists t5, t6, pts, t7. rewrite E5. split_and!; [done | done | by vm_compute | done | by eapply comma_perms | done | done].
    + exists t8, t9, t10, rest. rewrite E8, E10, Hword. split_and!; [done | cbn; congruence | done | done].
Qed.
End rule.
