(* ===== verification/AciAttrs.v ===== *)
(** The attribute lists of the access control compiler.

    The names [dslTargetAttr] emits are names the parser accepts, split back as they
    were joined, and cover exactly the attributes the configuration's allow and deny
    lists leave, under laws that state facts of the embedded vocabulary. *)

From stdpp Require Import fin_sets.
From S2P Require Import Prelude GoStrings DN DNFacts Attr Matching Aci Paging PagingFacts WriteFacts PasswordFacts GoText Vocab389 AciText AciCompile.

(** * Names and their octets *)

Definition name_byte (b : byte) : bool := alnum_dash b || bool_decide (b = c_semi).

Definition plain_attr (n : bytes) : Prop := n ≠ [] ∧ Forall (λ b, name_byte b = true) n.

Lemma name_byte_facts (b : byte) : name_byte b = true →
  (bz b < 128)%Z ∧ is_space (bz b) = false ∧ b ≠ x7c ∧ b ≠ c_quote ∧ b ≠ c_backslash ∧ b ≠ x2a ∧ b ≠ x20.
Proof.
  assert (Hall : ∀ b, negb (name_byte b) || ((bz b <? 128)%Z && negb (is_space (bz b)) && bool_decide (b ∉ [x7c; c_quote; c_backslash; x2a; x20])) = true)
    by (intros c; destruct c; vm_compute; reflexivity).
  intros Hb. specialize (Hall b). rewrite Hb in Hall. cbn [negb orb] in Hall. apply andb_true_iff in Hall as [H1 H2%bool_decide_eq_true].
  apply andb_true_iff in H1 as [H1%Z.ltb_lt H3%negb_true_iff]. rewrite !not_elem_of_cons in H2. naive_solver.
Qed.

Lemma names_visible (n : bytes) : Forall (λ b, name_byte b = true) n → Forall visible n.
Proof. intros H. eapply Forall_impl; [exact H |]. intros b Hb. destruct (name_byte_facts b Hb) as (? & ? & _). done. Qed.

Lemma attr_name_plain (n : bytes) : aciAttrNameReA n = true → n = star ∨ plain_attr n.
Proof.
  unfold aciAttrNameReA. destruct (beq n star) eqn:E; [apply beq_true in E; by left |]. cbn [orb]. destruct n as [|c t]; [done |].
  intros [Hc Ht]%andb_true_iff. right. split; [done |]. constructor.
  - unfold name_byte, alnum_dash. unfold alpha in Hc. by rewrite Hc.
  - rewrite forallb_forall in Ht. apply Forall_forall. intros b Hb. apply Ht. by apply list_elem_of_In.
Qed.

(** * The list, joined and split *)

Lemma split_bars_plain (c : byte) (t : bytes) : c ≠ x7c → split_bars (c :: t) = match split_bars t with [] => [[c]] | p :: ps => (c :: p) :: ps end.
Proof. intros Hc. destruct t as [|c' t']; [done |]. cbn [split_bars]. by rewrite (bool_decide_false (c = x7c)) by done. Qed.

Lemma split_bars_app (w t : bytes) : x7c ∉ w → split_bars (w ++ t) = match split_bars t with [] => [w] | p :: ps => (w ++ p) :: ps end.
Proof.
  induction w as [|c w IH]; intros Hw; cbn [app].
  - destruct (split_bars t) as [|p ps] eqn:E; [| done]. exfalso. destruct t as [|c [|c' t]]; [done | done |]. cbn [split_bars] in E.
    destruct (_ && _); [done |]. by destruct (match t with | [] => _ | _ => _ end).
  - rewrite split_bars_plain by set_solver. rewrite IH by set_solver. by destruct (split_bars t).
Qed.

Lemma names_joined (names : list bytes) : names ≠ [] → Forall plain_attr names → names_in (join bars names) = names.
Proof.
  intros Hne Hn. unfold names_in.
  assert (Hgen : ∀ i, trim_space <$> split_bars (replicate i x20 ++ join bars names) = names).
  { induction Hn as [|n names [Hn0 Hn] Hns IH]; [done |]. intros i.
    assert (Hbar : x7c ∉ n) by (intros Hin; rewrite Forall_forall in Hn; by destruct (name_byte_facts _ (Hn _ Hin)) as (_ & _ & ? & _)).
    assert (Hpad : ∀ k, x7c ∉ replicate k x20) by (intros k [? _]%elem_of_replicate; done).
    assert (Hw : ∀ k m, x7c ∉ replicate k x20 ++ n ++ replicate m x20) by (intros k m; rewrite !elem_of_app; intros [?|[?|?]]; [by eapply Hpad | done | by eapply Hpad]).
    destruct names as [|m names].
    - cbn [join]. replace (replicate i x20 ++ n) with ((replicate i x20 ++ n ++ replicate 0 x20) ++ []) by (cbn; by rewrite !app_nil_r).
      rewrite split_bars_app by apply Hw. cbn [split_bars fmap list_fmap]. by rewrite app_nil_r, trim_pad by by apply names_visible.
    - replace (replicate i x20 ++ join bars (n :: m :: names))
        with ((replicate i x20 ++ n ++ replicate 1 x20) ++ x7c :: x7c :: (replicate 1 x20 ++ join bars (m :: names)))
        by (change (join bars (n :: m :: names)) with (n ++ (replicate 1 x20 ++ x7c :: x7c :: replicate 1 x20) ++ join bars (m :: names)); rewrite <- !(assoc_L (++)); done).
      rewrite split_bars_app by apply Hw.
      change (split_bars (x7c :: x7c :: replicate 1 x20 ++ join bars (m :: names))) with ([] :: split_bars (replicate 1 x20 ++ join bars (m :: names))).
      cbn [fmap list_fmap]. rewrite app_nil_r, trim_pad by by apply names_visible. f_equal. apply IH. done. }
  exact (Hgen 0%nat).
Qed.

Lemma join_bare (names : list bytes) : Forall plain_attr names → bare (join bars names).
Proof.
  intros Hn. assert (Hall : Forall (λ b, (bz b < 128)%Z ∧ b ≠ c_quote ∧ b ≠ c_backslash) (join bars names)).
  { apply join_forall; [repeat constructor; vm_compute; done |]. eapply Forall_impl; [exact Hn |]. intros n [_ Hb]. eapply Forall_impl; [exact Hb |].
    intros b Hb'. destruct (name_byte_facts b Hb') as (? & _ & _ & ? & ? & _). done. }
  split_and!.
  - unfold valid_utf8. rewrite runes_ascii by (eapply Forall_impl; [exact Hall | naive_solver]). apply forallb_forall. intros p Hp.
    apply list_elem_of_In, list_elem_of_fmap in Hp as (b & -> & Hb). rewrite Forall_forall in Hall. destruct (Hall b Hb) as [Hlt _].
    unfold valid_chunk. cbn [fst]. rewrite (proj2 (Z.eqb_neq _ _)); [done |]. unfold rune_error. lia.
  - intros Hin. rewrite Forall_forall in Hall. by destruct (Hall _ Hin) as (_ & ? & _).
  - intros Hin. rewrite Forall_forall in Hall. by destruct (Hall _ Hin) as (_ & _ & ?).
Qed.

(** * Names compared by their lower case *)

Section names.
Context {U : Unicode} {UL : UnicodeLaws U}.

Definition ascii (s : bytes) : Prop := forallb is_ascii s = true.

Lemma names_ascii (s : bytes) : Forall (λ b, name_byte b = true) s → ascii s.
Proof.
  intros H. apply forallb_forall. intros b Hb. apply list_elem_of_In in Hb. rewrite Forall_forall in H. apply is_ascii_true. by apply name_byte_facts, H.
Qed.

(** The lower case of an ASCII text. *)
Definition lows : bytes → bytes := fmap (M := list) byte_lower.

Lemma to_lower_ascii (s : bytes) : ascii s → to_lower s = lows s.
Proof. unfold to_lower. by intros ->. Qed.

Lemma lower_fold (s t : bytes) : ascii s → ascii t → to_lower s = to_lower t → equal_fold s t = true.
Proof.
  intros Hs Ht. rewrite !to_lower_ascii by done. unfold equal_fold. revert t Hs Ht.
  induction s as [|c s IH]; intros [|c' t] Hs Ht; [done | done | done |]. unfold ascii in Hs, Ht. cbn [forallb] in Hs, Ht.
  apply andb_prop in Hs as [Hc%is_ascii_true Hs], Ht as [Hc'%is_ascii_true Ht]. intros [= E Est]. rewrite !runes_ascii_cons by done.
  cbn [fold_eq fst]. pose proof (bz_range c). pose proof (bz_range c'). rewrite rune_fold_ascii by lia. rewrite (IH t Hs Ht Est), andb_true_r.
  apply Z.eqb_eq. unfold byte_lower in E. apply (f_equal bz) in E. unfold ascii_lower, in_range in *.
  destruct (65 <=? bz c)%Z eqn:E1, (bz c <=? 90)%Z eqn:E2, (65 <=? bz c')%Z eqn:E3, (bz c' <=? 90)%Z eqn:E4; cbn [andb] in *; rewrite !bz_zb_small in E by lia; lia.
Qed.

Lemma byte_lower_semi (c : byte) : byte_lower c = semicolon ↔ c = semicolon.
Proof.
  assert (Hall : ∀ b, bool_decide (byte_lower b = semicolon ↔ b = semicolon) = true) by (intros b; destruct b; vm_compute; reflexivity).
  exact (proj1 (bool_decide_eq_true _) (Hall c)).
Qed.

Lemma cut_lower (s : bytes) :
  cut_byte semicolon (lows s) = (lows (cut_byte semicolon s).1.1, lows (cut_byte semicolon s).1.2, (cut_byte semicolon s).2).
Proof.
  induction s as [|c s IH]; [done |]. change (lows (c :: s)) with (byte_lower c :: lows s). cbn [cut_byte]. pose proof (byte_lower_semi c) as Hc. case_bool_decide as E1; case_bool_decide as E2; try tauto.
rewrite IH. by destruct (cut_byte semicolon s) as [[? ?] ?].
Qed.

Lemma split_lower (s : bytes) : split_byte semicolon (lows s) = fmap (M := list) lows (split_byte semicolon s).
Proof.
  induction s as [|c s IH]; [done |]. change (lows (c :: s)) with (byte_lower c :: lows s). cbn [split_byte]. pose proof (byte_lower_semi c) as Hc. case_bool_decide as E1; case_bool_decide as E2; try tauto.
  - cbn [fmap list_fmap]. f_equal. exact IH.
  - rewrite IH. by destruct (split_byte semicolon s).
Qed.

Lemma cut_parts (s : bytes) (P : byte → Prop) : Forall P s → Forall P (cut_byte semicolon s).1.1 ∧ Forall P (cut_byte semicolon s).1.2.
Proof.
  induction 1 as [|c s Hc Hs [IH1 IH2]]; [done |]. cbn [cut_byte]. case_bool_decide; [done |].
  destruct (cut_byte semicolon s) as [[x y] f]. cbn [fst snd] in *. split; [by constructor | done].
Qed.

Lemma split_parts (s : bytes) (P : byte → Prop) : Forall P s → Forall (Forall P) (split_byte semicolon s).
Proof.
  induction 1 as [|c s Hc Hs IH]; [by repeat constructor |]. cbn [split_byte]. case_bool_decide; [by constructor |].
  destruct (split_byte semicolon s) as [|p ps]; [by repeat constructor |]. apply Forall_cons in IH as [Hp Hps]. by repeat constructor.
Qed.

(** Names with the same lower case cover the same attributes. *)
Lemma covers_lower (base : bytes) (opts : list bytes) (a a' : bytes) :
  plain_attr a → plain_attr a' → to_lower a = to_lower a' → aci_name_covers base opts a = aci_name_covers base opts a'.
Proof.
  intros [Hn Ha] [Hn' Ha'] E.
  assert (Hstar : ∀ x, Forall (λ b, name_byte b = true) x → (x =b? B "*")%ldap = false).
  { intros x Hx. apply beq_false. intros ->. by apply Forall_cons in Hx as [? _]. }
  unfold aci_name_covers. rewrite !Hstar by done. rewrite !to_lower_ascii in E by by apply names_ascii.
  pose proof (cut_lower a) as Hc. rewrite E, cut_lower in Hc. destruct (cut_parts a _ Ha) as [P1 P2]. destruct (cut_parts a' _ Ha') as [P1' P2'].
  destruct (cut_byte semicolon a) as [[n r] h], (cut_byte semicolon a') as [[n' r'] h']. cbn [fst snd] in *. injection Hc as En Er ->.
  assert (Hf : equal_fold n n' = true) by (apply lower_fold; rewrite ?to_lower_ascii; try done; by apply names_ascii).
  replace (equal_fold n base) with (equal_fold n' base).
  2: { apply eq_true_iff_eq. split; intros H; [by eapply equal_fold_trans | eapply equal_fold_trans; [rewrite equal_fold_sym; exact Hf | done]]. }
  destruct (equal_fold n' base), h; cbn [negb]; try done.
  assert (Hs : fmap (M := list) lows (split_byte semicolon r) = fmap (M := list) lows (split_byte semicolon r')) by (rewrite <- !split_lower; congruence).
  apply split_parts in P2, P2'. revert P2 P2' Hs. generalize (split_byte semicolon r) (split_byte semicolon r'). clear -UL opts.
  induction l as [|o l IH]; intros [|o' l']; [done | done | done |]. intros [Ho Hl]%Forall_cons [Ho' Hl']%Forall_cons [= Eo El].
  cbn [forallb]. f_equal; [| by apply IH].
  assert (Hf : equal_fold o o' = true) by (apply lower_fold; rewrite ?to_lower_ascii; try done; by apply names_ascii). f_equal.
  - f_equal. apply eq_true_iff_eq. rewrite !beq_true. split; intros ->; cbn in Eo; [symmetry in Eo |]; by apply fmap_nil_inv in Eo.
  - clear -UL Hf. induction opts as [|x opts IHo]; [done |]. cbn [existsb]. f_equal; [| done]. apply eq_true_iff_eq.
    split; intros H; (eapply equal_fold_trans; [| exact H]); [by rewrite equal_fold_sym | done].
Qed.
End names.

(** What an emitted [targetattr] clause covers.

    The laws of the vocabulary say what the compiler relies on: the name it emits for a
    known name is a known plain name of the same attribute type.  Under them the emitted
    list covers exactly the attributes the configuration's allow and deny lists leave. *)

Section emit.
Context {U : Unicode} {UL : UnicodeLaws U}.

(** A name without options. *)
Definition base_name (b : bytes) : Prop := plain_attr b ∧ aciAttrNameReA b = true ∧ semicolon ∉ b.

Class VocabularyLaws (V : Vocabulary) : Prop := {
  emitted_base : ∀ b, base_name b → Known b = true →
    let c := Primary (PrimaryAttrDescription b) in
    base_name c ∧ Known c = true ∧ to_lower c = to_lower (CanonicalAttrType (Primary b)) ∧ ascii (CanonicalAttrType (Primary b));
}.

Context {V : Vocabulary}.

(** A name the compiler lets through, other than the star. *)
Definition dsl_ok (n : bytes) : Prop :=
  n ≠ star ∧ aciAttrNameReA n = true ∧ Known n = true ∧
  ([] ∉ match cut_byte c_semi n with (_, opts, true) => split_byte c_semi opts | _ => [] end).

Lemma dsl_name_ok (path n : bytes) : dsl_name path n = Ok () → n = star ∨ dsl_ok n.
Proof.
  unfold dsl_name, cfgErr, dsl_ok. destruct (aciAttrNameReA n); [| done]. cbn [negb].
  destruct (bool_decide _) eqn:Eo; [done |]. apply bool_decide_eq_false in Eo. destruct (beq n star) eqn:Es; [apply beq_true in Es; by left |].
  apply beq_false in Es. cbn [negb andb]. destruct (Known n); [| done]. cbn. by right.
Qed.

(** ** The base of a name and its options *)

Definition options_of (n : bytes) : list bytes :=
  let '(_, rest, found) := cut_byte semicolon n in if found : bool then split_byte semicolon rest else [].

(** A name of the lists covers an attribute: the same type, with all its options. *)
Definition dsl_covers (base : bytes) (opts : list bytes) (n : bytes) : bool :=
  beq n star || (equal_fold (splitDSLAttr n).1 base && optionSubset (splitDSLAttr n).2 opts).

Lemma base_cut (b : bytes) (rest : bytes) : base_name b → cut_byte semicolon b = (b, [], false) ∧ cut_byte semicolon (b ++ B ";" ++ rest) = (b, rest, true).
Proof. intros (_ & _ & Hs). split; [| by apply cut_byte_app]. clear -Hs. induction b as [|c b IH]; [done |]. cbn [cut_byte]. rewrite bool_decide_false by set_solver. by rewrite IH by set_solver. Qed.

Lemma trim_plain (n : bytes) : Forall (λ b, name_byte b = true) n → trim_space n = n.
Proof. intros H. pose proof (trim_pad 0 0 n (names_visible n H)) as Ht. cbn [replicate app] in Ht. by rewrite app_nil_r in Ht. Qed.

(** A name is its base and, with a semicolon, its options. *)
Lemma name_parts (n : bytes) : n ≠ star → aciAttrNameReA n = true →
  ∃ b, base_name b ∧ ((n = b) ∨ ∃ rest, n = b ++ B ";" ++ rest ∧ Forall (λ c, name_byte c = true) rest).
Proof.
  intros Hn Hre. destruct (attr_name_plain n Hre) as [? | [Hne Hp]]; [done |].
  assert (Hbase : ∀ c t, c :: t = n ∨ (∃ r, c :: t ++ r = n) → semicolon ∉ c :: t → base_name (c :: t)).
  { intros c t Hct Hs. revert Hre Hp. unfold base_name, plain_attr, aciAttrNameReA.
    assert (Hsub : ∃ r, n = c :: t ++ r) by (destruct Hct as [<-|[r <-]]; [exists []; by rewrite app_nil_r | by exists r]). destruct Hsub as [r ->].
    rewrite (proj2 (beq_false (c :: t ++ r) star)) by done. cbn [orb]. intros [Hc Ht]%andb_true_iff Hp. apply Forall_cons in Hp as [Hcb Hp].
    rewrite forallb_app in Ht. apply andb_true_iff in Ht as [Ht _]. apply Forall_app in Hp as [Hp _]. rewrite Hc, Ht. cbn [andb].
    rewrite orb_true_r. split_and!; [done | by constructor | done | done]. }
  destruct (cut_byte semicolon n) as [[b rest] found] eqn:Ec. destruct found.
  - pose proof (cut_byte_true _ _ _ _ Ec) as En. pose proof (cut_byte_sep _ _ _ _ _ Ec) as Hs.
    assert (Hb : b ≠ []).
    { intros ->. cbn [app] in En. rewrite En in Hre. unfold aciAttrNameReA in Hre. rewrite (proj2 (beq_false _ star)) in Hre by done. by vm_compute in Hre. }
    destruct b as [|c t]; [done |]. exists (c :: t). split; [apply Hbase; [right; by exists (semicolon :: rest) | done] |]. right. exists rest. split; [done |].
    rewrite En in Hp. apply Forall_app in Hp as [_ Hp]. by apply Forall_cons in Hp as [_ Hp].
  - assert (Hns : semicolon ∉ n).
    { clear -Ec. revert b rest Ec. induction n as [|c n IH]; intros b rest Ec; [apply not_elem_of_nil |]. cbn [cut_byte] in Ec. case_bool_decide; [done |].
      destruct (cut_byte semicolon n) as [[x y] f] eqn:E. injection Ec as <- <- ->. apply not_elem_of_cons. split; [done | by eapply IH]. }
    exists n. split; [| by left]. destruct n as [|c t]; [done |]. apply Hbase; [by left | done].
Qed.

(** ** The name that is emitted *)

Definition with_options (b : bytes) (rest : option bytes) : bytes := match rest with None => b | Some r => b ++ B ";" ++ r end.

Definition options_plain (rest : option bytes) : Prop := match rest with None => True | Some r => Forall (λ c, name_byte c = true) r end.

Lemma with_cut (b : bytes) (rest : option bytes) : base_name b →
  cut_byte semicolon (with_options b rest) = match rest with None => (b, [], false) | Some r => (b, r, true) end.
Proof. intros Hb. destruct rest as [r|]; [by apply (base_cut b r) | by apply (base_cut b [])]. Qed.

Lemma with_plain (b : bytes) (rest : option bytes) : base_name b → options_plain rest →
  plain_attr (with_options b rest) ∧ aciAttrNameReA (with_options b rest) = true.
Proof.
  intros ([Hne Hp] & Hre & _) Hr. destruct rest as [r|]; [| done]. cbn [with_options options_plain] in *. split; [split|].
  - by destruct b.
  - apply Forall_app. split; [done |]. by constructor.
  - unfold aciAttrNameReA in *. destruct b as [|c t]; [done |]. destruct (beq (c :: t) star) eqn:E.
    + apply beq_true in E as [= -> ->]. by apply Forall_cons in Hp as [? _].
    + cbn [orb] in Hre. apply andb_true_iff in Hre as [Hc Ht]. cbn [app]. rewrite Hc. cbn [andb]. apply orb_true_iff. right. rewrite !forallb_app, Ht.
      cbn [andb]. apply forallb_forall. intros x Hx. rewrite Forall_forall in Hr. apply Hr. by apply list_elem_of_In.
Qed.

Lemma with_known (b : bytes) (rest : option bytes) : base_name b → Known (with_options b rest) = Known b.
Proof.
  intros Hb. unfold Known, base_of. rewrite (with_cut b rest Hb), (with_cut b None Hb : cut_byte semicolon b = _). by destruct rest.
Qed.

Lemma alias_bases : Forall (λ p, base_name (alias_primary p.2)) attributeNameAliases.
Proof. repeat constructor; try done; vm_compute; set_solver. Qed.

Lemma description_base (b : bytes) : base_name b → base_name (PrimaryAttrDescription b).
Proof.
  intros Hb. unfold PrimaryAttrDescription. rewrite trim_plain by apply Hb. rewrite (with_cut b None Hb : cut_byte semicolon b = _).
  destruct (assoc attributeNameAliases _) as [a|] eqn:Ea; [| done].
  pose proof alias_bases as Ht. clear -Ea Ht. induction attributeNameAliases as [|[k x] l IH]; [done |]. apply Forall_cons in Ht as [Hx Hl].
  cbn [assoc] in Ea. case_match; [by injection Ea as -> | by apply IH].
Qed.

Lemma description_with (b : bytes) (rest : option bytes) : base_name b → options_plain rest →
  PrimaryAttrDescription (with_options b rest) = with_options (PrimaryAttrDescription b) rest.
Proof.
  intros Hb Hr. unfold PrimaryAttrDescription. rewrite !trim_plain by (try apply Hb; by apply with_plain).
  rewrite (with_cut b rest Hb), (with_cut b None Hb : cut_byte semicolon b = _). destruct rest as [r|]; [| done]. rewrite trim_plain by apply Hb. by destruct (assoc _ _).
Qed.

Lemma primary_with (b : bytes) (rest : option bytes) : base_name b → options_plain rest →
  Primary (with_options b rest) = with_options (Primary b) rest.
Proof.
  intros Hb Hr. unfold Primary. rewrite !trim_plain by (try apply Hb; by apply with_plain).
  rewrite (with_cut b rest Hb), (with_cut b None Hb : cut_byte semicolon b = _). destruct rest as [r|]; [| done]. rewrite trim_plain by apply Hb. by destruct (_ !! _).
Qed.

Context {VL : VocabularyLaws V}.

(** The emitted name is listed by the grammar and covers what the configured one does. *)
Lemma emitted_covers (n : bytes) : dsl_ok n →
  let c := Primary (PrimaryAttrDescription n) in
  plain_attr c ∧ aciAttrNameReA c = true ∧ Known c = true ∧ ∀ base opts, aci_name_covers base opts c = dsl_covers base opts n.
Proof.
  intros (Hn & Hre & Hk & _). destruct (name_parts n Hn Hre) as (b & Hb & Hrest).
  assert (Hw : ∃ rest, n = with_options b rest ∧ options_plain rest) by (destruct Hrest as [->|(r & -> & Hr)]; [by exists None | by exists (Some r)]).
  destruct Hw as (rest & -> & Hr). clear Hrest. rewrite with_known in Hk by done. destruct (emitted_base b Hb Hk) as (Hc & Hck & El & Ha).
  cbn zeta. rewrite description_with, primary_with by (done || by apply description_base).
  set (c := Primary (PrimaryAttrDescription b)) in *. destruct (with_plain c rest Hc Hr) as [Hp Hre']. rewrite with_known by done. split_and!; try done.
  intros base opts. unfold aci_name_covers, dsl_covers, splitDSLAttr. change c_semi with semicolon. fold star. change (with_options c rest =b? star)%ldap with (beq (with_options c rest) star).
  assert (Hs : ∀ x, plain_attr x → beq x star = false) by (intros x [_ Hx]; apply beq_false; intros ->; by apply Forall_cons in Hx as [? _]).
  rewrite (proj2 (beq_false _ star) Hn), Hs by done. rewrite (with_cut c rest Hc), (with_cut b rest Hb). cbn [orb].
  assert (Hf : equal_fold c base = equal_fold (CanonicalAttrType (Primary b)) base).
  { assert (E : equal_fold c (CanonicalAttrType (Primary b)) = true) by (apply lower_fold; [apply names_ascii, Hc | done | done]).
    apply eq_true_iff_eq. split; intros H; (eapply equal_fold_trans; [| exact H]); [by rewrite equal_fold_sym | done]. }
  destruct rest as [r|]; cbn [fst snd]; rewrite Hf; destruct (equal_fold (CanonicalAttrType (Primary b)) base); cbn [negb andb orb]; try done.
  unfold optionSubset. rewrite orb_true_r. cbv iota.
  assert (Hx : ∀ o : bytes, negb (beq o []) && existsb (λ have, equal_fold o have) opts = existsb (λ h, negb (beq o []) && equal_fold o h) opts).
  { intros o. clear. destruct (beq o []); induction opts as [|x opts IH]; cbn [existsb negb andb orb] in *; try done; by rewrite <- IH. }
  induction (split_byte semicolon r) as [|o l IH]; [done |]. cbn [forallb]. rewrite IH. f_equal. apply Hx.
Qed.

(** ** Lists of names *)

Lemma dedup_fold_sub (names : list bytes) : ∀ seen n, n ∈ dedup_fold seen names → n ∈ names.
Proof.
  induction names as [|m names IH]; intros seen n; [done |]. cbn [dedup_fold]. rewrite !elem_of_cons. case_bool_decide; [right; by eapply IH |].
  intros [->|Hn]%elem_of_cons; [by left | right; by eapply IH].
Qed.

Lemma dedup_fold_rep (names : list bytes) : ∀ seen n, n ∈ names →
  to_lower n ∈ seen ∨ ∃ m, m ∈ dedup_fold seen names ∧ to_lower m = to_lower n.
Proof.
  induction names as [|x names IH]; intros seen n; [by intros ?%not_elem_of_nil |]. intros Hn. cbn [dedup_fold]. case_bool_decide as Ex.
  - apply elem_of_cons in Hn as [->|Hn]; [by left | by apply IH].
  - apply elem_of_cons in Hn as [->|Hn]; [right; exists x; split; [by left | done] |].
    destruct (IH ({[to_lower x]} ∪ seen) n Hn) as [[Hl%elem_of_singleton|Hl]%elem_of_union|(m & Hm & El)]; [| by left |].
    + right. exists x. split; [by left | done].
    + right. exists m. split; [by right | done].
Qed.

Lemma dedupFold_covers (base : bytes) (opts : list bytes) (l : list bytes) : Forall plain_attr l →
  existsb (aci_name_covers base opts) (dedupFold l) = existsb (aci_name_covers base opts) l.
Proof.
  intros Hl. rewrite Forall_forall in Hl. apply eq_true_iff_eq. rewrite !existsb_exists. setoid_rewrite <- list_elem_of_In. unfold dedupFold. split.
  - intros (n & Hn & Hc). exists n. split; [by eapply dedup_fold_sub | done].
  - intros (n & Hn & Hc). destruct (dedup_fold_rep l ∅ n Hn) as [?%not_elem_of_empty|(m & Hm & El)]; [done |]. exists m. split; [done |].
    rewrite (covers_lower base opts m n); [done | apply Hl; by eapply dedup_fold_sub | by apply Hl | done].
Qed.

(** The emitted form of a list. *)
Lemma canonical_covers (names : list bytes) : Forall dsl_ok names →
  let l := canonical_names names in
  Forall plain_attr l ∧ Forall listed_attr l ∧ (names ≠ [] → l ≠ []) ∧
  ∀ base opts, existsb (aci_name_covers base opts) l = existsb (dsl_covers base opts) names.
Proof.
  intros Hn. cbn zeta. unfold canonical_names. set (l := (λ n, Primary (PrimaryAttrDescription n)) <$> names).
  assert (Hl : ∀ c, c ∈ l → plain_attr c ∧ aciAttrNameReA c = true ∧ Known c = true).
  { intros c (n & -> & Hin)%list_elem_of_fmap. rewrite Forall_forall in Hn. destruct (emitted_covers n (Hn n Hin)) as (? & ? & ? & _). done. }
  split_and!.
  - apply Forall_forall. intros c Hc%dedup_fold_sub. by apply Hl.
  - apply Forall_forall. intros c Hc%dedup_fold_sub. right. destruct (Hl c Hc) as (_ & ? & ?). split; [by left | done].
  - unfold l. intros Hne E. destruct names as [|n names]; [done |]. unfold dedupFold in E. cbn [fmap list_fmap dedup_fold] in E. by rewrite bool_decide_false in E by set_solver.
  - intros base opts. rewrite dedupFold_covers by (apply Forall_forall; intros c Hc; by apply Hl). unfold l. clear -Hn VL UL. induction Hn as [|n names Hn _ IH]; [done |].
    cbn [fmap list_fmap existsb]. destruct (emitted_covers n Hn) as (_ & _ & _ & Hc). rewrite Hc. f_equal. exact IH.
Qed.

Lemma join_names_reads (path : bytes) (names : list bytes) (s : bytes) : names ≠ [] → Forall dsl_ok names → join_names path names = Ok s →
  bare s ∧ s ≠ [] ∧ s ≠ star ∧ (length (names_in s) ≤ aciMaxAttrsA)%nat ∧ Forall listed_attr (names_in s) ∧ (star ∉ names_in s) ∧
  ∀ base opts, existsb (aci_name_covers base opts) (names_in s) = existsb (dsl_covers base opts) names.
Proof.
  intros Hne Hn. unfold join_names, cfgErr. destruct (canonical_covers names Hn) as (Hp & Hl & Hne' & Hc). specialize (Hne' Hne).
  set (l := canonical_names names) in *. destruct (Nat.ltb_spec MaxACIAttrs (length l)) as [Hlen|Hlen]; [done |]. intros [= <-]. rewrite names_joined by done.
  assert (Hhead : ∃ c t, join bars l = c :: t ∧ (name_byte c = true)).
  { destruct l as [|n l']; [done |]. apply Forall_cons in Hp as [[Hn0 Hnb] _]. destruct n as [|c t]; [done |]. apply Forall_cons in Hnb as [Hcb _].
    destruct l' as [|m l']; [by exists c, t | by eexists c, _]. }
  destruct Hhead as (c & t & Ej & Hcb). split_and!.
  - by apply join_bare.
  - by rewrite Ej.
  - rewrite Ej. intros [= -> ->]. done.
  - exact Hlen.
  - done.
  - intros Hs. rewrite Forall_forall in Hp. destruct (Hp _ Hs) as [_ Hb]. by apply Forall_cons in Hb as [? _].
  - done.
Qed.

(** ** The names that are kept *)

Definition same_base (n m : bytes) : bool := equal_fold (splitDSLAttr n).1 (splitDSLAttr m).1.

Lemma dropped_spec (path an : bytes) (deny : list bytes) (b : bool) : dropped path an deny = Ok b →
  b = existsb (same_base an) deny ∧ Forall (λ dn, same_base an dn = true → optionSubset (splitDSLAttr dn).2 (splitDSLAttr an).2 = true) deny.
Proof.
  revert b. induction deny as [|dn deny IH]; intros b; cbn [dropped existsb]; [by intros [= <-] |]. unfold same_base at 1, cfgErr.
  destruct (splitDSLAttr an) as [ab ao] eqn:Ea, (splitDSLAttr dn) as [db do_] eqn:Ed. cbn [fst snd]. destruct (equal_fold ab db) eqn:Ef; cbn [negb orb].
  - destruct (optionSubset do_ ao) eqn:Es; cbn [negb]; [| done]. intros H. apply bind_ok in H as (x & Hx & [= <-]). destruct (IH x Hx) as [_ IHf]. split; [done |].
    constructor; [by rewrite Ed | done].
  - intros H. destruct (IH b H) as [-> IHf]. split; [done |]. constructor; [| done]. unfold same_base. rewrite Ea, Ed. cbn [fst]. by rewrite Ef.
Qed.

Lemma kept_names_spec (path : bytes) (deny allow kept : list bytes) : kept_names path deny allow = Ok kept →
  ∀ an, an ∈ allow →
    Forall (λ dn, same_base an dn = true → optionSubset (splitDSLAttr dn).2 (splitDSLAttr an).2 = true) deny ∧
    (an ∈ kept ↔ existsb (same_base an) deny = false).
Proof.
  revert kept. induction allow as [|x allow IH]; intros kept; cbn [kept_names]; [by intros _ ? ?%not_elem_of_nil |].
  intros H. apply bind_ok in H as (b & Hb & H). apply bind_ok in H as (rest & Hr & [= <-]). destruct (dropped_spec _ _ _ _ Hb) as [-> Hx].
  assert (Hin : ∀ an, an ∈ (if existsb (same_base x) deny then rest else x :: rest) ↔ (an = x ∧ existsb (same_base x) deny = false) ∨ an ∈ rest).
  { intros an. destruct (existsb (same_base x) deny); [naive_solver | rewrite elem_of_cons; naive_solver]. }
  assert (Hsub : ∀ an, an ∈ rest → existsb (same_base an) deny = false).
  { clear -Hr. revert rest Hr. induction allow as [|y allow IH]; intros rest; cbn [kept_names]; [by intros [= <-] ? ?%not_elem_of_nil |].
    intros H. apply bind_ok in H as (b & Hb & H). apply bind_ok in H as (rest' & Hr & [= <-]). destruct (dropped_spec _ _ _ _ Hb) as [-> _].
    intros an. destruct (existsb (same_base y) deny) eqn:E; [by apply IH |]. intros [->|Ha]%elem_of_cons; [done | by eapply IH]. }
  intros an Han. rewrite Hin. apply elem_of_cons in Han as [->|Han].
  - split; [done |]. split; [intros [[_ ?]|Hrest]; [done | by apply Hsub] | by left].
  - destruct (IH rest Hr an Han) as [Hf Hi]. split; [done |]. split; [intros [[-> ?]|?]; [done | by apply Hi] | intros ?; right; by apply Hi].
Qed.

Lemma kept_names_sub (path : bytes) (deny allow kept : list bytes) : kept_names path deny allow = Ok kept → ∀ an, an ∈ kept → an ∈ allow.
Proof.
  revert kept. induction allow as [|x allow IH]; intros kept; cbn [kept_names]; [by intros [= <-] |].
  intros H. apply bind_ok in H as (b & _ & H). apply bind_ok in H as (rest & Hr & [= <-]). intros an. rewrite elem_of_cons.
  destruct b; [right; by eapply IH |]. intros [->|?]%elem_of_cons; [by left | right; by eapply IH].
Qed.

Lemma optionSubset_trans (a b c : list bytes) : optionSubset a b = true → optionSubset b c = true → optionSubset a c = true.
Proof.
  unfold optionSubset. rewrite !forallb_forall. setoid_rewrite existsb_exists. intros Hab Hbc o Ho. destruct (Hab o Ho) as (h & Hh & [Hne He]%andb_true_iff).
  destruct (Hbc h Hh) as (k & Hk & [_ He']%andb_true_iff). exists k. split; [done |]. rewrite Hne. by eapply equal_fold_trans.
Qed.

(** What is kept of the allow list covers what the deny list leaves. *)
Lemma kept_covers (path : bytes) (deny allow kept : list bytes) (base : bytes) (opts : list bytes) :
  Forall dsl_ok allow → Forall dsl_ok deny → kept_names path deny allow = Ok kept →
  existsb (dsl_covers base opts) kept = existsb (dsl_covers base opts) allow && negb (existsb (dsl_covers base opts) deny).
Proof.
  intros Ha Hd Hk. rewrite Forall_forall in Ha, Hd.
  assert (Hcov : ∀ n, dsl_ok n → dsl_covers base opts n = true ↔ equal_fold (splitDSLAttr n).1 base = true ∧ optionSubset (splitDSLAttr n).2 opts = true).
  { intros n [Hs _]. unfold dsl_covers. rewrite (proj2 (beq_false _ _) Hs). cbn [orb]. by rewrite andb_true_iff. }
  apply eq_true_iff_eq. rewrite andb_true_iff, negb_true_iff, <- not_true_iff_false, !existsb_exists. setoid_rewrite <- list_elem_of_In. split.
  - intros (an & Hin & Hc). pose proof (kept_names_sub _ _ _ _ Hk an Hin) as Hal. split; [by exists an |]. intros (dn & Hdn & Hcd).
    apply (proj2 (kept_names_spec _ _ _ _ Hk an Hal)) in Hin. apply not_true_iff_false in Hin. apply Hin, existsb_exists. exists dn. split; [by apply list_elem_of_In |].
    apply Hcov in Hc as [Hc _], Hcd as [Hcd _]; [| by apply Hd | by apply Ha]. unfold same_base. eapply equal_fold_trans; [exact Hc | by rewrite equal_fold_sym].
  - intros [(an & Hal & Hc) Hno]. exists an. split; [| done]. destruct (kept_names_spec _ _ _ _ Hk an Hal) as [Hf Hi]. apply Hi, not_true_iff_false. intros Hs. apply Hno.
    apply existsb_exists in Hs as (dn & Hdn%list_elem_of_In & Hs). exists dn. split; [done |]. apply Hcov in Hc as [Hc Ho]; [| by apply Ha]. apply Hcov; [by apply Hd |]. split.
    + eapply equal_fold_trans; [| exact Hc]. by rewrite equal_fold_sym.
    + rewrite Forall_forall in Hf. eapply optionSubset_trans; [by apply Hf | done].
Qed.

(** * The clause *)

(** What the lists of an ACL say of an attribute. *)
Definition configured (a : ACL) (base : bytes) (opts : list bytes) : bool :=
  (bool_decide (acl_Allow a = []) || existsb (dsl_covers base opts) (acl_Allow a)) && negb (existsb (dsl_covers base opts) (acl_Deny a)).

(** A builder whose clause the grammar accepts, and what it covers. *)
Definition clause_covers (b : aciBuilder) (cover : bytes → list bytes → bool) : Prop :=
  let '(negate, v) := builder_names b in
  bare v ∧ (length (names_in v) ≤ aciMaxAttrsA)%nat ∧ Forall listed_attr (names_in v) ∧
  ∀ p base opts, (aci_AttrMode p, aci_Attrs p) = attr_mode negate (names_in v) → TargetsAttr p base opts = cover base opts.

Lemma star_clause (b : aciBuilder) : builder_names b = (false, star) → clause_covers b (λ _ _, true).
Proof.
  unfold clause_covers. intros ->. change (names_in star) with [star]. split_and!.
  - split_and!; [by vm_compute | |]; vm_compute; set_solver.
  - unfold aciMaxAttrsA. cbn. lia.
  - by repeat constructor.
  - intros p base opts. unfold attr_mode. rewrite bool_decide_true by (by left). cbn [negb andb]. unfold TargetsAttr. by intros [= -> _].
Qed.

Lemma joined_clause (b : aciBuilder) (negate : bool) (path : bytes) (names : list bytes) (s : bytes) :
  names ≠ [] → Forall dsl_ok names → join_names path names = Ok s → builder_names b = (negate, s) →
  clause_covers b (λ base opts, xorb negate (existsb (dsl_covers base opts) names)).
Proof.
  intros Hne Hok Hj. unfold clause_covers. intros ->. destruct (join_names_reads _ _ _ Hne Hok Hj) as (Hb & _ & _ & Hlen & Hl & Hs & Hc). split_and!; try done.
  intros p base opts. unfold attr_mode. rewrite bool_decide_false by done. cbn [andb]. unfold TargetsAttr, aciAttrInA.
  destruct negate; intros [= -> ->]; rewrite Hc; [by destruct (existsb _ _) | by destruct (existsb _ _)].
Qed.

Lemma clause_covers_ext (b : aciBuilder) (c c' : bytes → list bytes → bool) : (∀ base opts, c base opts = c' base opts) → clause_covers b c → clause_covers b c'.
Proof. unfold clause_covers. intros E. destruct (builder_names b) as [ng v]. intros (? & ? & ? & H). split_and!; try done. intros p base opts Hp. by rewrite (H p base opts Hp). Qed.

Lemma star_covers (l : list bytes) (base : bytes) (opts : list bytes) : star ∈ l → existsb (dsl_covers base opts) l = true.
Proof. intros H. apply existsb_exists. exists star. split; [by apply list_elem_of_In | done]. Qed.

Lemma starless (l : list bytes) : Forall (λ n, n = star ∨ dsl_ok n) l → star ∉ l → Forall dsl_ok l.
Proof. intros Hl Hs. rewrite Forall_forall in *. intros n Hn. by destruct (Hl n Hn) as [->|?]. Qed.

(** The clause the compiler writes for an ACL covers what its lists say. *)
Lemma dslTargetAttr_covers (a : ACL) (name tgt who : bytes) (perms : list bytes) (allow deny : bytes) :
  Forall (λ n, n = star ∨ dsl_ok n) (acl_Allow a) → Forall (λ n, n = star ∨ dsl_ok n) (acl_Deny a) → dslTargetAttr a = Ok (allow, deny) →
  clause_covers (MkBuilder name tgt perms allow deny who) (configured a).
Proof.
  intros Ha Hd. unfold dslTargetAttr, cfgErr. destruct (_ <? _)%nat; [done |]. destruct (_ <? _)%nat; [done |]. destruct (bool_decide (star ∈ acl_Deny a)) eqn:Esd; [done |].
  apply bool_decide_eq_false in Esd. apply starless in Hd; [| done].
  assert (Hall : bool_decide (acl_Allow a = []) || bool_decide (star ∈ acl_Allow a) = true → ∀ base opts, bool_decide (acl_Allow a = []) || existsb (dsl_covers base opts) (acl_Allow a) = true).
  { intros [->|H%bool_decide_eq_true]%orb_true_iff base opts; [done |]. by rewrite star_covers, orb_true_r. }
  assert (Hsome : bool_decide (acl_Allow a = []) || bool_decide (star ∈ acl_Allow a) = false → acl_Allow a ≠ [] ∧ Forall dsl_ok (acl_Allow a)).
  { intros [H%bool_decide_eq_false H']%orb_false_iff. split; [done |]. apply bool_decide_eq_false in H'. by apply starless. }
  assert (Hb : ∀ path l s, l ≠ [] → Forall dsl_ok l → join_names path l = Ok s → beq s [] = false ∧ beq s star = false).
  { intros path l s Hl Hok Hj. destruct (join_names_reads path l s Hl Hok Hj) as (_ & ? & ? & _). by rewrite !beq_false. }
  destruct (bool_decide (acl_Allow a = []) || _) eqn:Eall.
  - destruct (acl_Deny a) as [|d0 ds] eqn:Ed.
    + intros [= <- <-]. eapply clause_covers_ext; [| apply star_clause; reflexivity]. intros base opts. unfold configured. by rewrite Hall, Ed.
    + intros H. apply bind_ok in H as (s & Hj & [= <- <-]). destruct (Hb _ (d0 :: ds) s ltac:(done) Hd Hj) as [H1 H2].
      eapply clause_covers_ext; [| eapply (joined_clause _ true _ (d0 :: ds) s); [done | done | exact Hj | unfold builder_names; cbn [ab_deny]; by rewrite H1]].
      intros base opts. unfold configured. rewrite Hall, Ed by done. by destruct (existsb _ _).
  - destruct (Hsome eq_refl) as [Hne Hok]. destruct (acl_Deny a) as [|d0 ds] eqn:Ed.
    + intros H. apply bind_ok in H as (s & Hj & [= <- <-]). destruct (Hb _ _ s Hne Hok Hj) as [H1 H2].
      eapply clause_covers_ext; [| eapply (joined_clause _ false _ (acl_Allow a) s); [done | done | exact Hj | unfold builder_names; cbn [ab_deny ab_allow]; by rewrite H1, H2]].
      intros base opts. unfold configured. rewrite Ed, (bool_decide_false (acl_Allow a = [])) by done. cbn [existsb negb orb]. rewrite andb_true_r. by destruct (existsb _ _).
    + intros H. apply bind_ok in H as (kept & Hk & H). destruct (bool_decide (kept = [])) eqn:Ek; [done |]. apply bool_decide_eq_false in Ek.
      apply bind_ok in H as (s & Hj & [= <- <-]).
      assert (Hko : Forall dsl_ok kept) by (rewrite Forall_forall in *; intros n Hn; apply Hok; by eapply kept_names_sub).
      destruct (Hb _ _ s Ek Hko Hj) as [H1 H2].
      eapply clause_covers_ext; [| eapply (joined_clause _ false _ kept s); [done | done | exact Hj | unfold builder_names; cbn [ab_deny ab_allow]; by rewrite H1, H2]].
      intros base opts. unfold configured. rewrite (kept_covers _ _ _ _ base opts Hok Hd Hk), Ed, (bool_decide_false (acl_Allow a = [])) by done. cbn [orb]. by destruct (_ && _).
Qed.
End emit.
