(* ===== verification/Vocab389Data.v ===== *)
(** The embedded vocabulary, [src/internal/schema389/attributetypes.txt], line by line,
    and the proof that it obeys the laws the access control compiler relies on. *)

From stdpp Require Import fin_sets.
From S2P Require Import Prelude GoStrings GoText DN Attr Vocab389 AciText AciAttrs.

Definition attributetypes_lines : list bytes := B <$> [
  "# 389 DS attributeTypes (numeric OID or -oid placeholder, then NAME and aliases), read from the pinned image's cn=schema."%string;
  "# Output of oracle probe 17 (script in test/parity/testdata/filter-attr-oracle-probes.txt). Regenerate when deploy/docker/dirsrv.digest changes."%string;
  "# image quay.io/389ds/dirsrv@sha256:f2851654c5df545cd893d84bea8d08c28dc25f0930493fbfed1d8a6eacf657f7"%string;
  "# attributeTypes 1020"%string;
  "5.3.6.1.1.1.1.1 accessTo"%string;
  "1.3.6.1.4.1.11.1.3.2.1.3 accountInactivityLimit"%string;
  "2.16.840.1.113730.3.1.95 accountUnlockTime"%string;
  "1.3.6.1.4.1.11.1.3.2.1.2 acctPolicySubentry"%string;
  "2.16.840.1.113730.3.1.55 aci"%string;
  "2.16.840.1.113730.3.1.74 administratorContactInfo"%string;
  "2.16.840.1.113730.3.1.601 adminRole"%string;
  "2.16.840.1.113730.3.1.75 adminUrl"%string;
  "2.5.4.1 aliasedObjectName"%string;
  "allowWeakCipher-oid allowWeakCipher"%string;
  "2.16.840.1.113730.3.1.2332 allowWeakDHParam"%string;
  "1.3.6.1.4.1.1466.101.120.6 altServer"%string;
  "0.9.2342.19200300.100.1.37 associatedDomain"%string;
  "0.9.2342.19200300.100.1.38 associatedName"%string;
  "2.5.21.5 attributeTypes"%string;
  "0.9.2342.19200300.100.1.55 audio"%string;
  "2.5.4.38 authorityRevocationList"%string;
  "1.3.6.1.4.1.5322.17.2.1 authorizedService"%string;
  "2.16.840.1.113730.3.1.2101 autoMemberDefaultGroup"%string;
  "2.16.840.1.113730.3.1.2103 autoMemberDisabled"%string;
  "2.16.840.1.113730.3.1.2099 autoMemberExclusiveRegex"%string;
  "2.16.840.1.113730.3.1.2098 autoMemberFilter"%string;
  "2.16.840.1.113730.3.1.2102 autoMemberGroupingAttr"%string;
  "2.16.840.1.113730.3.1.2100 autoMemberInclusiveRegex"%string;
  "2.16.840.1.113730.3.1.2097 autoMemberScope"%string;
  "2.16.840.1.113730.3.1.2105 autoMemberTargetGroup"%string;
  "1.3.6.1.1.1.1.33 automountInformation"%string;
  "1.3.6.1.1.1.1.32 automountKey"%string;
  "1.3.6.1.1.1.1.31 automountMapName"%string;
  "2.16.840.1.113730.3.1.2386 availableSASLMechanisms"%string;
  "1.3.6.1.1.1.1.24 bootFile"%string;
  "1.3.6.1.1.1.1.23 bootParameter"%string;
  "0.9.2342.19200300.100.1.48 buildingName"%string;
  "2.5.4.15 businessCategory"%string;
  "2.5.4.6 c countryName"%string;
  "CACertExtractFile-oid CACertExtractFile"%string;
  "2.5.4.37 cACertificate"%string;
  "1.2.840.113556.1.4.481 calCalAdrURI"%string;
  "1.2.840.113556.1.4.478 calCalURI"%string;
  "1.2.840.113556.1.4.480 calCAPURI"%string;
  "1.2.840.113556.1.4.479 calFBURL"%string;
  "1.2.840.113556.1.4.485 calOtherCalAdrURIs"%string;
  "1.2.840.113556.1.4.482 calOtherCalURIs"%string;
  "1.2.840.113556.1.4.484 calOtherCAPURIs"%string;
  "1.2.840.113556.1.4.483 calOtherFBURLs"%string;
  "2.16.840.1.113730.3.1.1 carLicense"%string;
  "2.5.4.39 certificateRevocationList"%string;
  "2.16.840.1.113730.3.1.35 changeLog"%string;
  "2.16.840.1.113730.3.1.200 changeLogMaximumAge"%string;
  "2.16.840.1.113730.3.1.205 changeLogMaximumConcurrentWrites"%string;
  "2.16.840.1.113730.3.1.201 changeLogMaximumSize"%string;
  "2.16.840.1.113730.3.1.5 changeNumber"%string;
  "2.16.840.1.113730.3.1.8 changes"%string;
  "2.16.840.1.113730.3.1.77 changeTime"%string;
  "2.16.840.1.113730.3.1.7 changeType"%string;
  "2.16.840.1.113730.3.1.90 cirBeginORC"%string;
  "2.16.840.1.113730.3.1.85 cirBindCredentials"%string;
  "2.16.840.1.113730.3.1.82 cirBindDn"%string;
  "2.16.840.1.113730.3.1.80 cirHost"%string;
  "2.16.840.1.113730.3.1.86 cirLastUpdateApplied"%string;
  "2.16.840.1.113730.3.1.81 cirPort"%string;
  "2.16.840.1.113730.3.1.79 cirReplicaRoot"%string;
  "2.16.840.1.113730.3.1.89 cirSyncInterval"%string;
  "2.16.840.1.113730.3.1.88 cirUpdateFailedat"%string;
  "2.16.840.1.113730.3.1.87 cirUpdateSchedule"%string;
  "2.16.840.1.113730.3.1.83 cirUsePersistentSearch"%string;
  "2.16.840.1.113730.3.1.84 cirUseSsl"%string;
  "2.5.4.3 cn commonName"%string;
  "0.9.2342.19200300.100.1.43 co friendlycountryname"%string;
  "2.16.840.1.113730.3.1.2401 ConflictCSN"%string;
  "2.16.840.1.113730.3.1.2095 connection"%string;
  "2.16.840.1.113730.3.1.613 copiedFrom"%string;
  "2.16.840.1.113730.3.1.614 copyingFrom"%string;
  "2.16.840.1.113730.3.1.550 cosAttribute"%string;
  "2.16.840.1.113730.3.1.577 cosIndirectSpecifier"%string;
  "2.16.840.1.113730.3.1.569 cosPriority"%string;
  "2.16.840.1.113730.3.1.551 cosspecifier"%string;
  "2.16.840.1.113730.3.1.552 costargettree"%string;
  "2.16.840.1.113730.3.1.553 costemplatedn"%string;
  "2.5.18.1 createTimestamp"%string;
  "2.5.18.3 creatorsName"%string;
  "2.5.4.40 crossCertificatePair"%string;
  "0.9.2342.19200300.100.1.25 dc domaincomponent"%string;
  "2.16.840.1.113730.3.1.10 deleteOldRdn"%string;
  "2.5.4.53 deltaRevocationList"%string;
  "2.16.840.1.113730.3.1.2 departmentNumber"%string;
  "2.5.4.13 description"%string;
  "2.5.4.27 destinationIndicator"%string;
  "2.16.840.1.113730.3.1.241 displayName"%string;
  "2.5.4.49 distinguishedName dn"%string;
  "2.5.21.2 dITContentRules"%string;
  "0.9.2342.19200300.100.1.54 ditRedirect"%string;
  "2.5.21.1 dITStructureRules"%string;
  "2.5.4.54 dmdName"%string;
  "2.16.840.1.113730.3.1.2312 dnaExcludeScope"%string;
  "2.16.840.1.113730.3.1.2120 dnaFilter"%string;
  "2.16.840.1.113730.3.1.2126 dnaHostname"%string;
  "2.16.840.1.113730.3.1.2118 dnaInterval"%string;
  "2.16.840.1.113730.3.1.2119 dnaMagicRegen"%string;
  "2.16.840.1.113730.3.1.2122 dnaMaxValue"%string;
  "2.16.840.1.113730.3.1.2129 dnaNextRange"%string;
  "2.16.840.1.113730.3.1.2117 dnaNextValue"%string;
  "2.16.840.1.113730.3.1.2127 dnaPortNum"%string;
  "2.16.840.1.113730.3.1.2116 dnaPrefix"%string;
  "2.16.840.1.113730.3.1.2130 dnaRangeRequestTimeout"%string;
  "2.16.840.1.113730.3.1.2124 dnaRemainingValues"%string;
  "2.16.840.1.113730.3.1.2157 dnaRemoteBindCred"%string;
  "2.16.840.1.113730.3.1.2158 dnaRemoteBindDN"%string;
  "2.16.840.1.113730.3.1.2160 dnaRemoteBindMethod"%string;
  "2.16.840.1.113730.3.1.2159 dnaRemoteConnProtocol"%string;
  "2.16.840.1.113730.3.1.2121 dnaScope"%string;
  "2.16.840.1.113730.3.1.2128 dnaSecurePortNum"%string;
  "2.16.840.1.113730.3.1.2123 dnaSharedCfgDN"%string;
  "2.16.840.1.113730.3.1.2125 dnaThreshold"%string;
  "2.16.840.1.113730.3.1.2115 dnaType"%string;
  "2.16.840.1.113730.3.1.603 dncomp"%string;
  "2.5.4.46 dnQualifier"%string;
  "0.9.2342.19200300.100.1.14 documentAuthor"%string;
  "0.9.2342.19200300.100.1.11 documentIdentifier"%string;
  "0.9.2342.19200300.100.1.15 documentLocation"%string;
  "0.9.2342.19200300.100.1.56 documentPublisher"%string;
  "0.9.2342.19200300.100.1.12 documentTitle"%string;
  "0.9.2342.19200300.100.1.13 documentVersion"%string;
  "0.9.2342.19200300.100.1.5 drink favouriteDrink"%string;
  "2.16.840.1.113730.3.1.2391 dsEntryDN"%string;
  "2.16.840.1.113730.3.1.2141 dsOnlyMemberUid"%string;
  "1.3.6.1.4.1.5923.1.1.1.1 eduPersonAffiliation"%string;
  "1.3.6.1.4.1.5923.1.1.1.11 eduPersonAssurance"%string;
  "1.3.6.1.4.1.5923.1.1.1.7 eduPersonEntitlement"%string;
  "1.3.6.1.4.1.5923.1.1.1.2 eduPersonNickName"%string;
  "1.3.6.1.4.1.5923.1.1.1.16 eduPersonOrcid"%string;
  "1.3.6.1.4.1.5923.1.1.1.3 eduPersonOrgDN"%string;
  "1.3.6.1.4.1.5923.1.1.1.4 eduPersonOrgUnitDN"%string;
  "1.3.6.1.4.1.5923.1.1.1.5 eduPersonPrimaryAffiliation"%string;
  "1.3.6.1.4.1.5923.1.1.1.8 eduPersonPrimaryOrgUnitDN"%string;
  "1.3.6.1.4.1.5923.1.1.1.6 eduPersonPrincipalName"%string;
  "1.3.6.1.4.1.5923.1.1.1.12 eduPersonPrincipalNamePrior"%string;
  "1.3.6.1.4.1.5923.1.1.1.9 eduPersonScopedAffiliation"%string;
  "1.3.6.1.4.1.5923.1.1.1.10 eduPersonTargetedID"%string;
  "1.3.6.1.4.1.5923.1.1.1.13 eduPersonUniqueId"%string;
  "2.16.840.1.113730.3.1.3 employeeNumber"%string;
  "2.16.840.1.113730.3.1.4 employeeType"%string;
  "2.5.4.47 enhancedSearchGuide"%string;
  "2.16.840.1.113730.3.1.602 entrydn"%string;
  "2.16.840.1.113730.3.1.605 entryid"%string;
  "2.16.840.1.113730.3.1.2096 entryusn"%string;
  "1.3.6.1.1.16.4 entryUUID"%string;
  "2.5.4.23 facsimileTelephoneNumber fax"%string;
  "2.16.840.1.113730.3.1.206 filterInfo"%string;
  "1.3.6.1.4.1.6981.11.3.6 FTPDownloadBandwidth"%string;
  "1.3.6.1.4.1.6981.11.3.4 FTPDownloadRatio"%string;
  "1.3.6.1.4.1.6981.11.3.9 FTPgid"%string;
  "1.3.6.1.4.1.6981.11.3.1 FTPQuotaFiles"%string;
  "1.3.6.1.4.1.6981.11.3.2 FTPQuotaMBytes"%string;
  "1.3.6.1.4.1.6981.11.3.7 FTPStatus"%string;
  "1.3.6.1.4.1.6981.11.3.8 FTPuid"%string;
  "1.3.6.1.4.1.6981.11.3.5 FTPUploadBandwidth"%string;
  "1.3.6.1.4.1.6981.11.3.3 FTPUploadRatio"%string;
  "1.3.6.1.1.1.1.2 gecos"%string;
  "2.16.840.1.113730.3.1.612 generation"%string;
  "2.5.4.44 generationQualifier"%string;
  "1.3.6.1.1.1.1.1 gidNumber"%string;
  "2.5.4.42 givenName gn"%string;
  "2.5.21.10 governingStructureRule"%string;
  "2.5.18.9 hasSubordinates"%string;
  "1.3.6.1.1.1.1.3 homeDirectory"%string;
  "0.9.2342.19200300.100.1.20 homePhone homeTelephoneNumber"%string;
  "0.9.2342.19200300.100.1.39 homePostalAddress"%string;
  "0.9.2342.19200300.100.1.9 host"%string;
  "2.5.4.51 houseIdentifier"%string;
  "2.16.840.1.113730.3.1.690 inetDomainBaseDN"%string;
  "2.16.840.1.113730.3.1.691 inetDomainStatus"%string;
  "2.16.840.1.113730.3.1.694 inetSubscriberAccountId"%string;
  "2.16.840.1.113730.3.1.695 inetSubscriberChallenge"%string;
  "2.16.840.1.113730.3.1.696 inetSubscriberResponse"%string;
  "2.16.840.1.113730.3.1.693 inetUserHttpURL"%string;
  "2.16.840.1.113730.3.1.692 inetUserStatus"%string;
  "0.9.2342.19200300.100.1.4 info"%string;
  "2.5.4.43 initials"%string;
  "2.16.840.1.113730.3.1.73 installationTimeStamp"%string;
  "2.16.840.1.113730.3.1.2114 internalCreatorsName"%string;
  "2.16.840.1.113730.3.1.2113 internalModifiersName"%string;
  "2.5.4.25 internationalISDNNumber"%string;
  "1.3.6.1.1.1.1.19 ipHostNumber"%string;
  "1.3.6.1.1.1.1.21 ipNetmaskNumber"%string;
  "1.3.6.1.1.1.1.20 ipNetworkNumber"%string;
  "1.3.6.1.1.1.1.17 ipProtocolNumber"%string;
  "1.3.6.1.1.1.1.15 ipServicePort"%string;
  "1.3.6.1.1.1.1.16 ipServiceProtocol"%string;
  "2.16.840.1.113730.3.1.2085 isReplicated"%string;
  "1.3.6.1.4.1.42.2.27.4.1.6 javaClassName"%string;
  "1.3.6.1.4.1.42.2.27.4.1.13 javaClassNames"%string;
  "1.3.6.1.4.1.42.2.27.4.1.7 javaCodebase"%string;
  "1.3.6.1.4.1.42.2.27.4.1.12 javaDoc"%string;
  "1.3.6.1.4.1.42.2.27.4.1.10 javaFactory"%string;
  "1.3.6.1.4.1.42.2.27.4.1.11 javaReferenceAddress"%string;
  "1.3.6.1.4.1.42.2.27.4.1.8 javaSerializedData"%string;
  "0.9.2342.19200300.100.1.60 jpegPhoto"%string;
  "2.5.4.2 knowledgeInformation"%string;
  "2.5.4.7 l locality localityname"%string;
  "1.3.6.1.4.1.250.1.57 labeledURI labeledurl"%string;
  "2.16.840.1.113730.3.1.2394 lastLoginHistory"%string;
  "2.16.840.1.113730.3.1.2397 lastLoginHistorySize"%string;
  "2.16.840.1.113719.1.1.4.1.35 lastLoginTime"%string;
  "0.9.2342.19200300.100.1.24 lastModifiedBy"%string;
  "0.9.2342.19200300.100.1.23 lastModifiedTime"%string;
  "1.3.6.1.4.1.1466.101.120.17 ldapSchemas"%string;
  "1.3.6.1.4.1.1466.101.120.16 ldapSyntaxes"%string;
  "2.16.840.1.113730.3.1.2343 legalName"%string;
  "1.3.6.1.1.1.1.4 loginShell"%string;
  "1.3.6.1.1.1.1.22 macAddress"%string;
  "0.9.2342.19200300.100.1.3 mail rfc822mailbox"%string;
  "2.16.840.1.113730.3.1.12 mailAccessDomain"%string;
  "2.16.840.1.113730.3.1.13 mailAlternateAddress"%string;
  "2.16.840.1.113730.3.1.14 mailAutoReplyMode"%string;
  "2.16.840.1.113730.3.1.15 mailAutoReplyText"%string;
  "2.16.840.1.113730.3.1.16 mailDeliveryOption"%string;
  "2.16.840.1.113730.3.1.31 mailEnhancedUniqueMember"%string;
  "2.16.840.1.113730.3.1.17 mailForwardingAddress"%string;
  "2.16.840.1.113730.3.1.18 mailHost"%string;
  "2.16.840.1.113730.3.1.19 mailMessageStore"%string;
  "2.16.840.1.113730.3.1.20 mailProgramDeliveryInfo"%string;
  "2.16.840.1.113730.3.1.21 mailQuota"%string;
  "2.16.840.1.113730.3.1.24 mailRoutingAddress"%string;
  "2.16.840.1.113730.3.1.2362 managedBase"%string;
  "2.16.840.1.113730.3.1.2363 managedTemplate"%string;
  "0.9.2342.19200300.100.1.10 manager"%string;
  "2.5.21.4 matchingRules"%string;
  "2.5.21.8 matchingRuleUse"%string;
  "2.5.4.31 member"%string;
  "2.16.840.1.113730.3.1.199 memberCertificateDescription"%string;
  "1.3.6.1.1.1.1.13 memberNisNetgroup"%string;
  "1.2.840.113556.1.2.102 memberOf"%string;
  "1.3.6.1.1.1.1.12 memberUid"%string;
  "2.16.840.1.113730.3.1.198 memberURL"%string;
  "2.16.840.1.113730.3.1.2086 mepManagedBy"%string;
  "2.16.840.1.113730.3.1.2087 mepManagedEntry"%string;
  "2.16.840.1.113730.3.1.2089 mepMappedAttr"%string;
  "2.16.840.1.113730.3.1.2090 mepRDNAttr"%string;
  "2.16.840.1.113730.3.1.2088 mepStaticAttr"%string;
  "2.16.840.1.113730.3.1.781 mgrpAddHeader"%string;
  "2.16.840.1.113730.3.1.22 mgrpAllowedBroadcaster"%string;
  "2.16.840.1.113730.3.1.23 mgrpAllowedDomain"%string;
  "mgrpApprovePassword-oid mgrpApprovePassword"%string;
  "2.16.840.1.113730.3.1.788 mgrpBroadcasterPolicy"%string;
  "2.16.840.1.113730.3.1.25 mgrpDeliverTo"%string;
  "2.16.840.1.113730.3.1.26 mgrpErrorsTo"%string;
  "2.16.840.1.113730.3.1.33 mgrpModerator"%string;
  "2.16.840.1.113730.3.1.32 mgrpMsgMaxSize"%string;
  "2.16.840.1.113730.3.1.28 mgrpMsgRejectAction"%string;
  "2.16.840.1.113730.3.1.29 mgrpMsgRejectText"%string;
  "2.16.840.1.113730.3.1.789 mgrpNoDuplicateChecks"%string;
  "2.16.840.1.113730.3.1.801 mgrpRemoveHeader"%string;
  "2.16.840.1.113730.3.1.30 mgrpRFC822MailMember"%string;
  "0.9.2342.19200300.100.1.41 mobile mobileTelephoneNumber"%string;
  "2.5.18.4 modifiersName"%string;
  "2.5.18.2 modifyTimestamp"%string;
  "1.3.6.1.4.1.13769.4.1 mozillaCustom1"%string;
  "1.3.6.1.4.1.13769.4.2 mozillaCustom2"%string;
  "1.3.6.1.4.1.13769.4.3 mozillaCustom3"%string;
  "1.3.6.1.4.1.13769.4.4 mozillaCustom4"%string;
  "1.3.6.1.4.1.13769.3.6 mozillaHomeCountryName"%string;
  "1.3.6.1.4.1.13769.3.3 mozillaHomeLocalityName"%string;
  "1.3.6.1.4.1.13769.3.5 mozillaHomePostalCode"%string;
  "1.3.6.1.4.1.13769.3.4 mozillaHomeState"%string;
  "1.3.6.1.4.1.13769.3.1 mozillaHomeStreet"%string;
  "1.3.6.1.4.1.13769.3.2 mozillaHomeStreet2"%string;
  "1.3.6.1.4.1.13769.3.7 mozillaHomeUrl"%string;
  "1.3.6.1.4.1.13769.2.1 mozillaNickname xmozillanickname"%string;
  "1.3.6.1.4.1.13769.2.2 mozillaSecondEmail xmozillasecondemail"%string;
  "1.3.6.1.4.1.13769.2.3 mozillaUseHtmlMail xmozillausehtmlmail"%string;
  "1.3.6.1.4.1.13769.3.8 mozillaWorkStreet2"%string;
  "1.3.6.1.4.1.13769.3.9 mozillaWorkUrl"%string;
  "1.3.6.1.4.1.250.1.2 multiLineDescription"%string;
  "2.5.4.41 name"%string;
  "2.5.21.7 nameForms"%string;
  "1.3.6.1.4.1.1466.101.120.5 namingContexts"%string;
  "2.16.840.1.113730.3.1.812 netscapeReversiblePassword"%string;
  "2.16.840.1.113730.3.1.9 newRdn"%string;
  "2.16.840.1.113730.3.1.11 newSuperior"%string;
  "1.3.6.1.1.1.1.27 nisMapEntry"%string;
  "1.3.6.1.1.1.1.26 nisMapName"%string;
  "1.3.6.1.1.1.1.14 nisNetgroupTriple"%string;
  "2.16.840.1.113730.3.1.2244 nnslapd-threadnumber"%string;
  "nsAccessLog-oid nsAccessLog"%string;
  "2.16.840.1.113730.3.1.610 nsAccountLock"%string;
  "nsAdminAccessAddresses-oid nsAdminAccessAddresses"%string;
  "nsAdminAccessHosts-oid nsAdminAccessHosts"%string;
  "nsAdminAccountInfo-oid nsAdminAccountInfo"%string;
  "nsAdminCacheLifetime-oid nsAdminCacheLifetime"%string;
  "nsAdminCgiWaitPid-oid nsAdminCgiWaitPid"%string;
  "nsAdminDomainName-oid nsAdminDomainName"%string;
  "nsAdminEnableDSGW-oid nsAdminEnableDSGW"%string;
  "nsAdminEnableEnduser-oid nsAdminEnableEnduser"%string;
  "nsAdminEndUserHTMLIndex-oid nsAdminEndUserHTMLIndex"%string;
  "nsAdminGroupName-oid nsAdminGroupName"%string;
  "nsAdminOneACLDir-oid nsAdminOneACLDir"%string;
  "nsAdminSIEDN-oid nsAdminSIEDN"%string;
  "nsAdminUsers-oid nsAdminUsers"%string;
  "1.3.6.1.4.1.13769.2.4 nsAIMid nscpaimscreenname"%string;
  "2.16.840.1.113730.3.1.803 nsBackendSuffix"%string;
  "nsBaseDN-oid nsBaseDN"%string;
  "nsBindDN-oid nsBindDN"%string;
  "nsBindPassword-oid nsBindPassword"%string;
  "nsBuildNumber-oid nsBuildNumber"%string;
  "nsBuildSecurity-oid nsBuildSecurity"%string;
  "nsCertConfig-oid nsCertConfig"%string;
  "nsCertfile-oid nsCertfile"%string;
  "2.16.840.1.113730.3.1.2337 nsCertSubjectDN"%string;
  "nsClassname-oid nsClassname"%string;
  "nsConfigRoot-oid nsConfigRoot"%string;
  "2.16.840.1.113730.3.1.545 nscpEntryDN"%string;
  "nsDefaultAcceptLanguage-oid nsDefaultAcceptLanguage"%string;
  "nsDefaultObjectClass-oid nsDefaultObjectClass"%string;
  "nsDeleteclassname-oid nsDeleteclassname"%string;
  "nsDirectoryFailoverList-oid nsDirectoryFailoverList"%string;
  "nsDirectoryInfoRef-oid nsDirectoryInfoRef"%string;
  "nsDirectoryURL-oid nsDirectoryURL"%string;
  "nsDisplayName-oid nsDisplayName"%string;
  "2.16.840.1.113730.3.1.587 nsds50ruv"%string;
  "2.16.840.1.113730.3.1.609 nsds5BeginReplicaRefresh"%string;
  "2.16.840.1.113730.3.1.9999999 nsds5debugreplicatimeout"%string;
  "2.16.840.1.113730.3.1.607 nsDS5Flags"%string;
  "2.16.840.1.113730.3.1.973 nsds5ReplConflict"%string;
  "2.16.840.1.113730.3.1.2137 nsds5ReplicaAbortCleanRUV"%string;
  "2.16.840.1.113730.3.1.592 nsDS5ReplicaAutoReferral"%string;
  "2.16.840.1.113730.3.1.2155 nsds5ReplicaBackoffMax"%string;
  "2.16.840.1.113730.3.1.2154 nsds5ReplicaBackoffMin"%string;
  "2.16.840.1.113730.3.1.581 nsDS5ReplicaBindDN"%string;
  "2.16.840.1.113730.3.1.2338 nsDS5ReplicaBindDNGroup"%string;
  "2.16.840.1.113730.3.1.2336 nsDS5ReplicaBindDnGroupCheckInterval"%string;
  "2.16.840.1.113730.3.1.583 nsDS5ReplicaBindMethod"%string;
  "2.16.840.1.113730.3.1.2371 nsDS5ReplicaBootstrapBindDN"%string;
  "2.16.840.1.113730.3.1.2373 nsDS5ReplicaBootstrapBindMethod"%string;
  "2.16.840.1.113730.3.1.2372 nsDS5ReplicaBootstrapCredentials"%string;
  "2.16.840.1.113730.3.1.2374 nsDS5ReplicaBootstrapTransportInfo"%string;
  "2.16.840.1.113730.3.1.1097 nsds5replicaBusyWaitTime"%string;
  "2.16.840.1.113730.3.1.684 nsds5ReplicaChangeCount"%string;
  "2.16.840.1.113730.3.1.687 nsds5replicaChangesSentSinceStartup"%string;
  "2.16.840.1.113730.3.1.2135 nsds5ReplicaCleanRUV"%string;
  "2.16.840.1.113730.3.1.2136 nsds5ReplicaCleanRUVNotified"%string;
  "2.16.840.1.113730.3.1.582 nsDS5ReplicaCredentials"%string;
  "2.16.840.1.113730.3.1.2132 nsds5ReplicaEnabled"%string;
  "2.16.840.1.113730.3.1.2311 nsds5ReplicaFlowControlPause"%string;
  "2.16.840.1.113730.3.1.2310 nsds5ReplicaFlowControlWindow"%string;
  "2.16.840.1.113730.3.1.578 nsDS5ReplicaHost"%string;
  "2.16.840.1.113730.3.1.588 nsDS5ReplicaId"%string;
  "2.16.840.1.113730.3.1.2335 nsds5ReplicaIgnoreMissingChange"%string;
  "2.16.840.1.113730.3.1.2390 nsds5ReplicaKeepAliveUpdateInterval"%string;
  "2.16.840.1.113730.3.1.808 nsds5replicaLastInitEnd"%string;
  "2.16.840.1.113730.3.1.807 nsds5replicaLastInitStart"%string;
  "2.16.840.1.113730.3.1.809 nsds5replicaLastInitStatus"%string;
  "2.16.840.1.113730.3.1.2364 nsds5replicaLastInitStatusJSON"%string;
  "2.16.840.1.113730.3.1.686 nsds5replicaLastUpdateEnd"%string;
  "2.16.840.1.113730.3.1.685 nsds5replicaLastUpdateStart"%string;
  "2.16.840.1.113730.3.1.688 nsds5replicaLastUpdateStatus"%string;
  "2.16.840.1.113730.3.1.2365 nsds5replicaLastUpdateStatusJSON"%string;
  "2.16.840.1.113730.3.1.802 nsds5ReplicaLegacyConsumer"%string;
  "2.16.840.1.113730.3.1.590 nsDS5ReplicaName"%string;
  "2.16.840.1.113730.3.1.579 nsDS5ReplicaPort"%string;
  "2.16.840.1.113730.3.1.2309 nsds5ReplicaPreciseTombstonePurging"%string;
  "2.16.840.1.113730.3.1.2152 nsds5ReplicaProtocolTimeout"%string;
  "2.16.840.1.113730.3.1.682 nsds5ReplicaPurgeDelay"%string;
  "2.16.840.1.113730.3.1.591 nsDS5ReplicaReferral"%string;
  "2.16.840.1.113730.3.1.2333 nsds5ReplicaReleaseTimeout"%string;
  "2.16.840.1.113730.3.1.584 nsDS5ReplicaRoot"%string;
  "2.16.840.1.113730.3.1.1098 nsds5replicaSessionPauseTime"%string;
  "2.16.840.1.113730.3.1.2134 nsds5ReplicaStripAttrs"%string;
  "2.16.840.1.113730.3.1.585 nsDS5ReplicatedAttributeList"%string;
  "2.16.840.1.113730.3.1.594 nsDS5ReplicatedAttributeListTotal"%string;
  "2.16.840.1.113730.3.1.805 nsds5replicaTimeout"%string;
  "2.16.840.1.113730.3.1.683 nsds5ReplicaTombstonePurgeInterval"%string;
  "2.16.840.1.113730.3.1.580 nsDS5ReplicaTransportInfo"%string;
  "2.16.840.1.113730.3.1.589 nsDS5ReplicaType"%string;
  "2.16.840.1.113730.3.1.689 nsds5replicaUpdateInProgress"%string;
  "2.16.840.1.113730.3.1.586 nsDS5ReplicaUpdateSchedule"%string;
  "2.16.840.1.113730.3.1.2315 nsDS5ReplicaWaitForAsyncResults"%string;
  "2.16.840.1.113730.3.1.608 nsDS5Task"%string;
  "2.16.840.1.113730.3.1.1001 nsds7DirectoryReplicaSubtree"%string;
  "2.16.840.1.113730.3.1.1005 nsds7DirsyncCookie"%string;
  "2.16.840.1.113730.3.1.1003 nsds7NewWinGroupSyncEnabled"%string;
  "2.16.840.1.113730.3.1.1002 nsds7NewWinUserSyncEnabled"%string;
  "2.16.840.1.113730.3.1.1004 nsds7WindowsDomain"%string;
  "2.16.840.1.113730.3.1.1000 nsds7WindowsReplicaSubtree"%string;
  "2.16.840.1.113730.3.1.2063 nsEncryptionAlgorithm"%string;
  "nsErrorLog-oid nsErrorLog"%string;
  "nsExecRef-oid nsExecRef"%string;
  "nsExpirationDate-oid nsExpirationDate"%string;
  "nsGroupRDNComponent-oid nsGroupRDNComponent"%string;
  "nsHardwarePlatform-oid nsHardwarePlatform"%string;
  "nsHelpRef-oid nsHelpRef"%string;
  "nsHostLocation-oid nsHostLocation"%string;
  "2.16.840.1.113730.3.1.573 nsIdleTimeout"%string;
  "2.16.840.1.113730.3.1.2106 nsIDListScanLimit"%string;
  "2.16.840.1.113730.3.1.2161 nsIndexIDListScanLimit"%string;
  "2.16.840.1.113730.3.1.327 nsIndexType"%string;
  "nsInstalledLocation-oid nsInstalledLocation"%string;
  "nsJarfilename-oid nsJarfilename"%string;
  "nsKeyfile-oid nsKeyfile"%string;
  "nsLdapSchemaVersion-oid nsLdapSchemaVersion"%string;
  "2.16.840.1.113730.3.1.36 nsLicensedFor"%string;
  "2.16.840.1.113730.3.1.38 nsLicenseEndTime"%string;
  "2.16.840.1.113730.3.1.37 nsLicenseStartTime"%string;
  "nsLogSuppress-oid nsLogSuppress"%string;
  "2.16.840.1.113730.3.1.570 nsLookThroughLimit"%string;
  "2.16.840.1.113730.3.1.328 nsMatchingRule"%string;
  "nsmsgDisallowAccess-oid nsmsgDisallowAccess"%string;
  "nsmsgNumMsgQuota-oid nsmsgNumMsgQuota"%string;
  "nsNickName-oid nsNickName"%string;
  "nsNYR-oid nsNYR"%string;
  "nsOsVersion-oid nsOsVersion"%string;
  "2.16.840.1.113730.3.1.2109 nsPagedIDListScanLimit"%string;
  "2.16.840.1.113730.3.1.2108 nsPagedLookThroughLimit"%string;
  "2.16.840.1.113730.3.1.2107 nsPagedSizeLimit"%string;
  "2.16.840.1.113730.3.1.544 nsParentUniqueId"%string;
  "nsPidLog-oid nsPidLog"%string;
  "nsPreference-oid nsPreference"%string;
  "nsProductName-oid nsProductName"%string;
  "nsProductVersion-oid nsProductVersion"%string;
  "nsRevisionNumber-oid nsRevisionNumber"%string;
  "2.16.840.1.113730.3.1.574 nsRole"%string;
  "2.16.840.1.113730.3.1.575 nsRoleDN"%string;
  "2.16.840.1.113730.3.1.576 nsRoleFilter"%string;
  "2.16.840.1.113730.3.1.1101 nsRoleScopeDN"%string;
  "2.16.840.1.113730.3.1.2027 nsruvReplicaLastModified"%string;
  "1.3.6.1.4.1.7057.20.2 nsSaslauthId"%string;
  "2.16.840.1.113730.3.1.2065 nsSaslMapBaseDNTemplate"%string;
  "2.16.840.1.113730.3.1.2066 nsSaslMapFilterTemplate"%string;
  "2.16.840.1.113730.3.1.2142 nsSaslMapPriority"%string;
  "2.16.840.1.113730.3.1.2064 nsSaslMapRegexString"%string;
  "2.16.840.1.113730.3.1.804 nsSchemaCSN"%string;
  "nsSecureServerPort-oid nsSecureServerPort"%string;
  "nsSerialNumber-oid nsSerialNumber"%string;
  "nsServerAddress-oid nsServerAddress"%string;
  "nsServerCreationClassname-oid nsServerCreationClassname"%string;
  "nsServerID-oid nsServerID"%string;
  "nsServerMigrationClassname-oid nsServerMigrationClassname"%string;
  "nsServerPort-oid nsServerPort"%string;
  "nsServerSecurity-oid nsServerSecurity"%string;
  "2.16.840.1.113730.3.1.571 nsSizeLimit"%string;
  "2.16.840.1.113730.3.1.2251 nsslapd-accesscontrol"%string;
  "2.16.840.1.113730.3.1.2240 nsslapd-accesslog"%string;
  "2.16.840.1.113730.3.1.2170 nsslapd-accesslog-level"%string;
  "2.16.840.1.113730.3.1.2268 nsslapd-accesslog-list"%string;
  "2.16.840.1.113730.3.1.2257 nsslapd-accesslog-logbuffering"%string;
  "2.16.840.1.113730.3.1.2196 nsslapd-accesslog-logexpirationtime"%string;
  "2.16.840.1.113730.3.1.2199 nsslapd-accesslog-logexpirationtimeunit"%string;
  "2.16.840.1.113730.3.1.2202 nsslapd-accesslog-logging-enabled"%string;
  "2.16.840.1.113730.3.1.2190 nsslapd-accesslog-logmaxdiskspace"%string;
  "2.16.840.1.113730.3.1.2193 nsslapd-accesslog-logminfreediskspace"%string;
  "2.16.840.1.113730.3.1.2175 nsslapd-accesslog-logrotationsync-enabled"%string;
  "2.16.840.1.113730.3.1.2178 nsslapd-accesslog-logrotationsynchour"%string;
  "2.16.840.1.113730.3.1.2181 nsslapd-accesslog-logrotationsyncmin"%string;
  "2.16.840.1.113730.3.1.2184 nsslapd-accesslog-logrotationtime"%string;
  "2.16.840.1.113730.3.1.2187 nsslapd-accesslog-logrotationtimeunit"%string;
  "2.16.840.1.113730.3.1.2172 nsslapd-accesslog-maxlogsize"%string;
  "2.16.840.1.113730.3.1.2171 nsslapd-accesslog-maxlogsperdir"%string;
  "2.16.840.1.113730.3.1.2217 nsslapd-allow-anonymous-access"%string;
  "2.16.840.1.113730.3.1.2307 nsslapd-allow-hashed-passwords"%string;
  "2.16.840.1.113730.3.1.2215 nsslapd-allow-unauthenticated-binds"%string;
  "2.16.840.1.113730.3.1.2295 nsslapd-allowed-sasl-mechanisms"%string;
  "2.16.840.1.113730.3.1.2236 nsslapd-anonlimitsdn"%string;
  "2.16.840.1.113730.3.1.2261 nsslapd-attribute-name-exceptions"%string;
  "2.16.840.1.113730.3.1.2183 nsslapd-audit-logrotationsyncmin"%string;
  "2.16.840.1.113730.3.1.2327 nsslapd-auditfaillog"%string;
  "2.16.840.1.113730.3.1.2328 nsslapd-auditfaillog-list"%string;
  "2.16.840.1.113730.3.1.2323 nsslapd-auditfaillog-logexpirationtime"%string;
  "2.16.840.1.113730.3.1.2324 nsslapd-auditfaillog-logexpirationtimeunit"%string;
  "2.16.840.1.113730.3.1.2325 nsslapd-auditfaillog-logging-enabled"%string;
  "2.16.840.1.113730.3.1.2326 nsslapd-auditfaillog-logging-hide-unhashed-pw"%string;
  "2.16.840.1.113730.3.1.2321 nsslapd-auditfaillog-logmaxdiskspace"%string;
  "2.16.840.1.113730.3.1.2322 nsslapd-auditfaillog-logminfreediskspace"%string;
  "2.16.840.1.113730.3.1.2317 nsslapd-auditfaillog-logrotationsync-enabled"%string;
  "2.16.840.1.113730.3.1.2318 nsslapd-auditfaillog-logrotationsynchour"%string;
  "2.16.840.1.113730.3.1.2319 nsslapd-auditfaillog-logrotationtime"%string;
  "2.16.840.1.113730.3.1.2320 nsslapd-auditfaillog-logrotationtimeunit"%string;
  "2.16.840.1.113730.3.1.2316 nsslapd-auditfaillog-maxlogsize"%string;
  "2.16.840.1.113730.3.1.2210 nsslapd-auditlog"%string;
  "2.16.840.1.113730.3.1.2393 nsslapd-auditlog-display-attrs"%string;
  "2.16.840.1.113730.3.1.2270 nsslapd-auditlog-list"%string;
  "2.16.840.1.113730.3.1.2198 nsslapd-auditlog-logexpirationtime"%string;
  "2.16.840.1.113730.3.1.2201 nsslapd-auditlog-logexpirationtimeunit"%string;
  "2.16.840.1.113730.3.1.2204 nsslapd-auditlog-logging-enabled"%string;
  "2.16.840.1.113730.3.1.2205 nsslapd-auditlog-logging-hide-unhashed-pw"%string;
  "2.16.840.1.113730.3.1.2192 nsslapd-auditlog-logmaxdiskspace"%string;
  "2.16.840.1.113730.3.1.2195 nsslapd-auditlog-logminfreediskspace"%string;
  "2.16.840.1.113730.3.1.2177 nsslapd-auditlog-logrotationsync-enabled"%string;
  "2.16.840.1.113730.3.1.2180 nsslapd-auditlog-logrotationsynchour"%string;
  "2.16.840.1.113730.3.1.2186 nsslapd-auditlog-logrotationtime"%string;
  "2.16.840.1.113730.3.1.2189 nsslapd-auditlog-logrotationtimeunit"%string;
  "2.16.840.1.113730.3.1.2174 nsslapd-auditlog-maxlogsize"%string;
  "2.16.840.1.113730.3.1.2376 nsslapd-authenticateAsDN"%string;
  "2.16.840.1.113730.3.1.2280 nsslapd-bakdir"%string;
  "2.16.840.1.113730.3.1.2278 nsslapd-certdir"%string;
  "2.16.840.1.113730.3.1.2267 nsslapd-certmap-basedn"%string;
  "2.16.840.1.113730.3.1.2314 nsslapd-changelogcompactdb-interval"%string;
  "2.16.840.1.113730.3.1.2339 nsslapd-changelogdir"%string;
  "2.16.840.1.113730.3.1.2340 nsslapd-changelogmaxage"%string;
  "2.16.840.1.113730.3.1.2341 nsslapd-changelogmaxentries"%string;
  "2.16.840.1.113730.3.1.2093 nsslapd-changelogsuffix"%string;
  "2.16.840.1.113730.3.1.2313 nsslapd-changelogtrim-interval"%string;
  "2.16.840.1.113730.3.1.2273 nsslapd-config"%string;
  "2.16.840.1.113730.3.1.2299 nsslapd-connection-buffer"%string;
  "2.16.840.1.113730.3.1.2300 nsslapd-connection-nocanon"%string;
  "2.16.840.1.113730.3.1.2237 nsslapd-counters"%string;
  "2.16.840.1.113730.3.1.2258 nsslapd-csnlogging"%string;
  "2.16.840.1.113730.3.1.2288 nsslapd-defaultnamingcontext"%string;
  "2.16.840.1.113730.3.1.2289 nsslapd-disk-monitoring"%string;
  "2.16.840.1.113730.3.1.2291 nsslapd-disk-monitoring-grace-period"%string;
  "2.16.840.1.113730.3.1.2292 nsslapd-disk-monitoring-logging-critical"%string;
  "2.16.840.1.113730.3.1.2290 nsslapd-disk-monitoring-threshold"%string;
  "2.16.840.1.113730.3.1.2304 nsslapd-dynamic-plugins"%string;
  "2.16.840.1.113730.3.1.2211 nsslapd-dynamicconf"%string;
  "2.16.840.1.113730.3.1.2298 nsslapd-enable-turbo-mode"%string;
  "2.16.840.1.113730.3.1.2370 nsslapd-enable-upgrade-hash"%string;
  "2.16.840.1.113730.3.1.2353 nsslapd-encryptionalgorithm"%string;
  "2.16.840.1.113730.3.1.2266 nsslapd-enquote-sup-oc"%string;
  "2.16.840.1.113730.3.1.2241 nsslapd-errorlog"%string;
  "2.16.840.1.113730.3.1.2269 nsslapd-errorlog-list"%string;
  "2.16.840.1.113730.3.1.2197 nsslapd-errorlog-logexpirationtime"%string;
  "2.16.840.1.113730.3.1.2200 nsslapd-errorlog-logexpirationtimeunit"%string;
  "2.16.840.1.113730.3.1.2203 nsslapd-errorlog-logging-enabled"%string;
  "2.16.840.1.113730.3.1.2191 nsslapd-errorlog-logmaxdiskspace"%string;
  "2.16.840.1.113730.3.1.2194 nsslapd-errorlog-logminfreediskspace"%string;
  "2.16.840.1.113730.3.1.2176 nsslapd-errorlog-logrotationsync-enabled"%string;
  "2.16.840.1.113730.3.1.2179 nsslapd-errorlog-logrotationsynchour"%string;
  "2.16.840.1.113730.3.1.2182 nsslapd-errorlog-logrotationsyncmin"%string;
  "2.16.840.1.113730.3.1.2185 nsslapd-errorlog-logrotationtime"%string;
  "2.16.840.1.113730.3.1.2188 nsslapd-errorlog-logrotationtimeunit"%string;
  "2.16.840.1.113730.3.1.2173 nsslapd-errorlog-maxlogsize"%string;
  "2.16.840.1.113730.3.1.2368 nsslapd-filterrewriter"%string;
  "2.16.840.1.113730.3.1.2287 nsslapd-force-sasl-external"%string;
  "2.16.840.1.113730.3.1.2252 nsslapd-groupevalnestlevel"%string;
  "2.16.840.1.113730.3.1.2398 nsslapd-haproxy-trusted-ip"%string;
  "2.16.840.1.113730.3.1.2285 nsslapd-hash-filters"%string;
  "2.16.840.1.113730.3.1.2249 nsslapd-idletimeout"%string;
  "2.16.840.1.113730.3.1.2303 nsslapd-ignore-time-skew"%string;
  "2.16.840.1.113730.3.1.2296 nsslapd-ignore-virtual-attrs"%string;
  "2.16.840.1.113730.3.1.2274 nsslapd-instancedir"%string;
  "2.16.840.1.113730.3.1.2250 nsslapd-ioblocktimeout"%string;
  "2.16.840.1.113730.3.1.2230 nsslapd-ldapiautobind"%string;
  "2.16.840.1.113730.3.1.2092 nsslapd-ldapiautodnsuffix"%string;
  "2.16.840.1.113730.3.1.2235 nsslapd-ldapientrysearchbase"%string;
  "2.16.840.1.113730.3.1.2228 nsslapd-ldapifilepath"%string;
  "2.16.840.1.113730.3.1.2234 nsslapd-ldapigidnumbertype"%string;
  "2.16.840.1.113730.3.1.2229 nsslapd-ldapilisten"%string;
  "2.16.840.1.113730.3.1.2231 nsslapd-ldapimaprootdn"%string;
  "2.16.840.1.113730.3.1.2232 nsslapd-ldapimaptoentries"%string;
  "2.16.840.1.113730.3.1.2233 nsslapd-ldapiuidnumbertype"%string;
  "2.16.840.1.113730.3.1.2377 nsslapd-ldapiUsername"%string;
  "2.16.840.1.113730.3.1.2279 nsslapd-ldifdir"%string;
  "2.16.840.1.113730.3.1.2367 nsslapd-libPath"%string;
  "2.16.840.1.113730.3.1.2302 nsslapd-listen-backlog-size"%string;
  "2.16.840.1.113730.3.1.2226 nsslapd-listenhost"%string;
  "2.16.840.1.113730.3.1.2223 nsslapd-localhost"%string;
  "2.16.840.1.113730.3.1.2218 nsslapd-localssf"%string;
  "2.16.840.1.113730.3.1.2222 nsslapd-localuser"%string;
  "2.16.840.1.113730.3.1.2276 nsslapd-lockdir"%string;
  "2.16.840.1.113730.3.1.2330 nsslapd-logging-backend"%string;
  "2.16.840.1.113730.3.1.2331 nsslapd-logging-hr-timestamps-enabled"%string;
  "2.16.840.1.113730.3.1.2264 nsslapd-max-filter-nest-level"%string;
  "2.16.840.1.113730.3.1.2262 nsslapd-maxbersize"%string;
  "2.16.840.1.113730.3.1.2246 nsslapd-maxdescriptors"%string;
  "2.16.840.1.113730.3.1.2263 nsslapd-maxsasliosize"%string;
  "2.16.840.1.113730.3.1.2245 nsslapd-maxthreadsperconn"%string;
  "2.16.840.1.113730.3.1.2219 nsslapd-minssf"%string;
  "2.16.840.1.113730.3.1.2220 nsslapd-minssf-exclude-rootdse"%string;
  "2.16.840.1.113730.3.1.2305 nsslapd-moddn-aci"%string;
  "2.16.840.1.113730.3.1.2253 nsslapd-nagle"%string;
  "2.16.840.1.113730.3.1.2293 nsslapd-ndn-cache-enabled"%string;
  "2.16.840.1.113730.3.1.2294 nsslapd-ndn-cache-max-size"%string;
  "2.16.840.1.113730.3.1.2286 nsslapd-outbound-ldap-io-timeout"%string;
  "2.16.840.1.113730.3.1.2169 nsslapd-pagedsizelimit"%string;
  "2.16.840.1.113730.3.1.2094 nsslapd-parent-suffix"%string;
  "2.16.840.1.113730.3.1.2272 nsslapd-plugin-binddn-tracking"%string;
  "2.16.840.1.113730.3.1.2151 nsslapd-plugin-depends-on-type"%string;
  "2.16.840.1.113730.3.1.2301 nsslapd-plugin-logging"%string;
  "2.16.840.1.113730.3.1.2104 nsslapd-pluginConfigArea"%string;
  "2.16.840.1.113730.3.1.230 nsslapd-pluginDescription"%string;
  "2.16.840.1.113730.3.1.231 nsslapd-pluginEnabled"%string;
  "2.16.840.1.113730.3.1.227 nsslapd-pluginId"%string;
  "2.16.840.1.113730.3.1.225 nsslapd-pluginInitfunc"%string;
  "2.16.840.1.113730.3.1.224 nsslapd-pluginPath"%string;
  "2.16.840.1.113730.3.1.226 nsslapd-pluginType"%string;
  "2.16.840.1.113730.3.1.229 nsslapd-pluginVendor"%string;
  "2.16.840.1.113730.3.1.228 nsslapd-pluginVersion"%string;
  "2.16.840.1.113730.3.1.2224 nsslapd-port"%string;
  "2.16.840.1.113730.3.1.2254 nsslapd-pwpolicy-local"%string;
  "2.16.840.1.113730.3.1.2138 nsslapd-readonly"%string;
  "2.16.840.1.113730.3.1.2216 nsslapd-require-secure-binds"%string;
  "2.16.840.1.113730.3.1.2248 nsslapd-reservedescriptors"%string;
  "2.16.840.1.113730.3.1.2260 nsslapd-result-tweak"%string;
  "2.16.840.1.113730.3.1.2306 nsslapd-return-default-opattr"%string;
  "2.16.840.1.113730.3.1.2259 nsslapd-return-exact-case"%string;
  "2.16.840.1.113730.3.1.2392 nsslapd-return-original-entrydn"%string;
  "2.16.840.1.113730.3.1.2369 nsslapd-returnedAttrRewriter"%string;
  "2.16.840.1.113730.3.1.2271 nsslapd-rewrite-rfc1274"%string;
  "2.16.840.1.113730.3.1.2207 nsslapd-rootdn"%string;
  "2.16.840.1.113730.3.1.2208 nsslapd-rootdnpw"%string;
  "2.16.840.1.113730.3.1.2209 nsslapd-rootpwstoragescheme"%string;
  "2.16.840.1.113730.3.1.2282 nsslapd-rundir"%string;
  "2.16.840.1.113730.3.1.2143 nsslapd-sasl-mapping-fallback"%string;
  "2.16.840.1.113730.3.1.2156 nsslapd-sasl-max-buffer-size"%string;
  "2.16.840.1.113730.3.1.2281 nsslapd-saslpath"%string;
  "2.16.840.1.113730.3.1.2275 nsslapd-schemadir"%string;
  "2.16.840.1.113730.3.1.2297 nsslapd-search-return-original-type-switch"%string;
  "2.16.840.1.113730.3.1.2243 nsslapd-securelistenhost"%string;
  "2.16.840.1.113730.3.1.2242 nsslapd-securePort"%string;
  "2.16.840.1.113730.3.1.2238 nsslapd-security"%string;
  "2.16.840.1.113730.3.1.2227 nsslapd-snmp-index"%string;
  "2.16.840.1.113730.3.1.2284 nsslapd-ssl-check-hostname"%string;
  "2.16.840.1.113730.3.1.2239 nsslapd-SSL3ciphers"%string;
  "2.16.840.1.113730.3.1.2283 nsslapd-SSLclientAuth"%string;
  "2.16.840.1.113730.3.1.2091 nsslapd-suffix"%string;
  "2.16.840.1.113730.3.1.2214 nsslapd-svrtab"%string;
  "2.16.840.1.113730.3.1.2387 nsslapd-tcp-fin-timeout"%string;
  "2.16.840.1.113730.3.1.2388 nsslapd-tcp-keepalive-time"%string;
  "2.16.840.1.113730.3.1.2344 nsslapd-tls-check-crl"%string;
  "2.16.840.1.113730.3.1.2277 nsslapd-tmpdir"%string;
  "2.16.840.1.113730.3.1.2206 nsslapd-unhashed-pw-switch"%string;
  "2.16.840.1.113730.3.1.2213 nsslapd-userat"%string;
  "2.16.840.1.113730.3.1.2212 nsslapd-useroc"%string;
  "2.16.840.1.113730.3.1.2221 nsslapd-validate-cert"%string;
  "2.16.840.1.113730.3.1.2265 nsslapd-versionstring"%string;
  "2.16.840.1.113730.3.1.2225 nsslapd-workingdir"%string;
  "2.16.840.1.113730.3.1.235 nsSNMPContact"%string;
  "2.16.840.1.113730.3.1.236 nsSNMPDescription"%string;
  "2.16.840.1.113730.3.1.232 nsSNMPEnabled"%string;
  "2.16.840.1.113730.3.1.234 nsSNMPLocation"%string;
  "2.16.840.1.113730.3.1.237 nsSNMPMasterHost"%string;
  "2.16.840.1.113730.3.1.238 nsSNMPMasterPort"%string;
  "2.16.840.1.113730.3.1.593 nsSNMPName"%string;
  "2.16.840.1.113730.3.1.233 nsSNMPOrganization"%string;
  "2.16.840.1.113730.3.1.2342 nsSshPublicKey"%string;
  "nsSSL2-oid nsSSL2"%string;
  "nsSSL2Ciphers-oid nsSSL2Ciphers"%string;
  "nsSSL3-oid nsSSL3"%string;
  "nsSSL3Ciphers-oid nsSSL3Ciphers"%string;
  "nsSSL3SessionTimeout-oid nsSSL3SessionTimeout"%string;
  "nsSSLActivation-oid nsSSLActivation"%string;
  "nsSSLClientAuth-oid nsSSLClientAuth"%string;
  "nsSSLPersonalitySSL-oid nsSSLPersonalitySSL"%string;
  "nsSSLSessionTimeout-oid nsSSLSessionTimeout"%string;
  "nsSSLSupportedCiphers-oid nsSSLSupportedCiphers"%string;
  "nsSSLToken-oid nsSSLToken"%string;
  "2.16.840.1.113730.3.1.543 nsState"%string;
  "nsSuiteSpotUser-oid nsSuiteSpotUser"%string;
  "2.16.840.1.113730.3.1.2084 nsSymmetricKey"%string;
  "2.16.840.1.113730.3.1.407 nsSynchUniqueAttribute"%string;
  "2.16.840.1.113730.3.1.406 nsSynchUserIDFormat"%string;
  "2.16.840.1.113730.3.1.242 nsSystemIndex"%string;
  "2.16.840.1.113730.3.1.2359 nsTaskCreated"%string;
  "2.16.840.1.113730.3.1.2357 nsTaskCurrentItem"%string;
  "2.16.840.1.113730.3.1.2356 nsTaskExitCode"%string;
  "nsTaskLabel-oid nsTaskLabel"%string;
  "2.16.840.1.113730.3.1.2354 nsTaskLog"%string;
  "2.16.840.1.113730.3.1.2355 nsTaskStatus"%string;
  "2.16.840.1.113730.3.1.2358 nsTaskTotalItems"%string;
  "2.16.840.1.113730.3.1.2375 nsTaskWarning"%string;
  "2.16.840.1.113730.3.1.572 nsTimeLimit"%string;
  "nsTLS1-oid nsTLS1"%string;
  "nsTLS10-oid nsTLS10"%string;
  "nsTLS11-oid nsTLS11"%string;
  "nsTLS12-oid nsTLS12"%string;
  "nsTLSAllowClientRenegotiation-oid nsTLSAllowClientRenegotiation"%string;
  "2.16.840.1.113730.3.1.2308 nstombstonecsn"%string;
  "nsUniqueAttribute-oid nsUniqueAttribute"%string;
  "2.16.840.1.113730.3.1.542 nsUniqueId"%string;
  "nsUserIDFormat-oid nsUserIDFormat"%string;
  "nsUserRDNComponent-oid nsUserRDNComponent"%string;
  "2.16.840.1.113730.3.1.247 nsValueBin"%string;
  "2.16.840.1.113730.3.1.244 nsValueCES"%string;
  "2.16.840.1.113730.3.1.243 nsValueCIS"%string;
  "2.16.840.1.113730.3.1.250 nsValueDefault"%string;
  "2.16.840.1.113730.3.1.252 nsValueDescription"%string;
  "2.16.840.1.113730.3.1.248 nsValueDN"%string;
  "2.16.840.1.113730.3.1.251 nsValueFlags"%string;
  "2.16.840.1.113730.3.1.254 nsValueHelpURL"%string;
  "2.16.840.1.113730.3.1.246 nsValueInt"%string;
  "2.16.840.1.113730.3.1.253 nsValueSyntax"%string;
  "2.16.840.1.113730.3.1.245 nsValueTel"%string;
  "2.16.840.1.113730.3.1.249 nsValueType"%string;
  "nsVendor-oid nsVendor"%string;
  "nsViewConfiguration-oid nsViewConfiguration"%string;
  "2.16.840.1.113730.3.1.3023 nsViewFilter"%string;
  "nsWellKnownJarfiles-oid nsWellKnownJarfiles"%string;
  "2.16.840.1.113730.3.1.520 nswmExtendedUserPrefs"%string;
  "2.16.840.1.113730.3.1.536 ntGroupAttributes"%string;
  "2.16.840.1.113730.3.1.45 ntGroupCreateNewGroup"%string;
  "2.16.840.1.113730.3.1.46 ntGroupDeleteGroup"%string;
  "2.16.840.1.113730.3.1.44 ntGroupDomainId"%string;
  "2.16.840.1.113730.3.1.110 ntGroupId"%string;
  "2.16.840.1.113730.3.1.2112 ntGroupType"%string;
  "2.16.840.1.113730.3.1.111 ntUniqueId"%string;
  "2.16.840.1.113730.3.1.528 ntUserAcctExpires"%string;
  "2.16.840.1.113730.3.1.60 ntUserAuthFlags"%string;
  "2.16.840.1.113730.3.1.531 ntUserBadPwCount"%string;
  "2.16.840.1.113730.3.1.533 ntUserCodePage"%string;
  "2.16.840.1.113730.3.1.522 ntUserComment"%string;
  "2.16.840.1.113730.3.1.532 ntUserCountryCode"%string;
  "2.16.840.1.113730.3.1.42 ntUserCreateNewAccount"%string;
  "2.16.840.1.113730.3.1.43 ntUserDeleteAccount"%string;
  "2.16.840.1.113730.3.1.41 ntUserDomainId"%string;
  "2.16.840.1.113730.3.1.523 ntUserFlags"%string;
  "2.16.840.1.113730.3.1.521 ntUserHomeDir"%string;
  "2.16.840.1.113730.3.1.535 ntUserHomeDirDrive"%string;
  "2.16.840.1.113730.3.1.527 ntUserLastLogoff"%string;
  "2.16.840.1.113730.3.1.526 ntUserLastLogon"%string;
  "2.16.840.1.113730.3.1.530 ntUserLogonHours"%string;
  "2.16.840.1.113730.3.1.65 ntUserLogonServer"%string;
  "2.16.840.1.113730.3.1.529 ntUserMaxStorage"%string;
  "2.16.840.1.113730.3.1.2334 ntUserNtPassword"%string;
  "2.16.840.1.113730.3.1.64 ntUserNumLogons"%string;
  "2.16.840.1.113730.3.1.62 ntUserParms"%string;
  "2.16.840.1.113730.3.1.68 ntUserPasswordExpired"%string;
  "2.16.840.1.113730.3.1.534 ntUserPrimaryGroupId"%string;
  "2.16.840.1.113730.3.1.59 ntUserPriv"%string;
  "2.16.840.1.113730.3.1.67 ntUserProfile"%string;
  "2.16.840.1.113730.3.1.524 ntUserScriptPath"%string;
  "2.16.840.1.113730.3.1.66 ntUserUniqueId"%string;
  "2.16.840.1.113730.3.1.63 ntUserUnitsPerWeek"%string;
  "2.16.840.1.113730.3.1.61 ntUserUsrComment"%string;
  "2.16.840.1.113730.3.1.525 ntUserWorkstations"%string;
  "1.3.1.1.4.1.453.16.2.103 numSubordinates"%string;
  "2.5.4.10 o organizationname"%string;
  "2.5.4.0 objectClass"%string;
  "2.5.21.6 objectClasses"%string;
  "2.16.840.1.113730.3.1.215 oid"%string;
  "1.3.6.1.1.1.1.18 oncRpcNumber"%string;
  "2.16.840.1.113730.3.1.1100 oneWaySync"%string;
  "0.9.2342.19200300.100.1.45 organizationalStatus"%string;
  "2.16.840.1.113730.3.1.2361 originFilter"%string;
  "2.16.840.1.113730.3.1.2360 originScope"%string;
  "2.5.4.11 ou organizationalUnitName"%string;
  "2.5.4.32 owner"%string;
  "0.9.2342.19200300.100.1.42 pager pagerTelephoneNumber"%string;
  "2.16.840.1.113730.3.1.2068 pamExcludeSuffix"%string;
  "2.16.840.1.113730.3.1.2072 pamFallback"%string;
  "2.16.840.1.113730.3.1.2131 pamFilter"%string;
  "2.16.840.1.113730.3.1.2071 pamIDAttr"%string;
  "2.16.840.1.113730.3.1.2070 pamIDMapMethod"%string;
  "2.16.840.1.113730.3.1.2067 pamIncludeSuffix"%string;
  "2.16.840.1.113730.3.1.2069 pamMissingSuffix"%string;
  "2.16.840.1.113730.3.1.2073 pamSecure"%string;
  "2.16.840.1.113730.3.1.2074 pamService"%string;
  "2.16.840.1.113730.3.1.604 parentid"%string;
  "1.3.6.1.4.1.1466.101.120.41 parentOrganization"%string;
  "2.16.840.1.113730.3.1.2153 passwordAdminDN pwdAdminDN"%string;
  "2.16.840.1.113730.3.1.2395 passwordAdminSkipInfoUpdate pwdAdminSkipInfoUpdate"%string;
  "2.16.840.1.113730.3.1.214 passwordAllowChangeTime"%string;
  "2.16.840.1.113730.3.1.2352 passwordBadWords pwdBadWords"%string;
  "2.16.840.1.113730.3.1.102 passwordChange pwdAllowUserChange"%string;
  "2.16.840.1.113730.3.1.103 passwordCheckSyntax pwdCheckSyntax"%string;
  "2.16.840.1.113730.3.1.2349 passwordDictCheck pwdDictCheck"%string;
  "2.16.840.1.113730.3.1.2350 passwordDictPath pwdDictPath"%string;
  "2.16.840.1.113730.3.1.98 passwordExp"%string;
  "2.16.840.1.113730.3.1.91 passwordExpirationTime"%string;
  "2.16.840.1.113730.3.1.92 passwordExpWarned pwdExpirationWarned"%string;
  "2.16.840.1.113730.3.1.999 passwordGraceLimit pwdGraceLoginLimit pwdGraceAuthNLimit"%string;
  "2.16.840.1.113730.3.1.998 passwordGraceUserTime pwdGraceUserTime"%string;
  "2.16.840.1.113730.3.1.96 passwordHistory pwdHistory"%string;
  "2.16.840.1.113730.3.1.101 passwordInHistory pwdInHistory"%string;
  "2.16.840.1.113730.3.1.2255 passwordIsGlobalPolicy"%string;
  "2.16.840.1.113730.3.1.100 passwordKeepHistory"%string;
  "2.16.840.1.113730.3.1.2256 passwordLegacyPolicy"%string;
  "2.16.840.1.113730.3.1.105 passwordLockout pwdLockOut"%string;
  "2.16.840.1.113730.3.1.109 passwordLockoutDuration pwdLockoutDuration"%string;
  "2.16.840.1.113730.3.1.97 passwordMaxAge pwdMaxAge"%string;
  "2.16.840.1.113730.3.1.2348 passwordMaxClassChars pwdMaxClassChars"%string;
  "2.16.840.1.113730.3.1.106 passwordMaxFailure pwdMaxFailure"%string;
  "2.16.840.1.113730.3.1.2081 passwordMaxRepeats pwdMaxRepeats"%string;
  "2.16.840.1.113730.3.1.2347 passwordMaxSeqSets pwdMaxSeqSets"%string;
  "2.16.840.1.113730.3.1.2346 passwordMaxSequence pwdMaxSequence"%string;
  "2.16.840.1.113730.3.1.2080 passwordMin8bit pwdMin8bit"%string;
  "2.16.840.1.113730.3.1.222 passwordMinAge pwdMinAge"%string;
  "2.16.840.1.113730.3.1.2076 passwordMinAlphas pwdMinAlphas"%string;
  "2.16.840.1.113730.3.1.2082 passwordMinCategories pwdMinCategories"%string;
  "2.16.840.1.113730.3.1.2075 passwordMinDigits pwdMinDigits"%string;
  "2.16.840.1.113730.3.1.99 passwordMinLength pwdMinLength"%string;
  "2.16.840.1.113730.3.1.2078 passwordMinLowers pwdMinLowers"%string;
  "2.16.840.1.113730.3.1.2079 passwordMinSpecials pwdMinSpecials"%string;
  "2.16.840.1.113730.3.1.2083 passwordMinTokenLength pwdMinTokenLength"%string;
  "2.16.840.1.113730.3.1.2077 passwordMinUppers pwdMinUppers"%string;
  "2.16.840.1.113730.3.1.220 passwordMustChange pwdMustChange"%string;
  "2.16.840.1.113730.3.1.2345 passwordPalindrome pwdPalindrome"%string;
  "2.16.840.1.113730.3.1.107 passwordResetDuration"%string;
  "2.16.840.1.113730.3.1.223 passwordResetFailureCount pwdFailureCountInterval"%string;
  "2.16.840.1.113730.3.1.93 passwordRetryCount"%string;
  "2.16.840.1.113730.3.1.2329 passwordSendExpiringTime pwdSendExpiringTime"%string;
  "2.16.840.1.113730.3.1.221 passwordStorageScheme"%string;
  "2.16.840.1.113730.3.1.2383 passwordTPRDelayExpireAt"%string;
  "2.16.840.1.113730.3.1.2384 passwordTPRDelayValidFrom"%string;
  "2.16.840.1.113730.3.1.2382 passwordTPRMaxUse"%string;
  "2.16.840.1.113730.3.1.2140 passwordTrackUpdateTime"%string;
  "2.16.840.1.113730.3.1.108 passwordUnlock"%string;
  "2.16.840.1.113730.3.1.2351 passwordUserAttributes pwdUserAttributes"%string;
  "2.16.840.1.113730.3.1.104 passwordWarning pwdExpireWarning"%string;
  "0.9.2342.19200300.100.1.40 personalTitle"%string;
  "0.9.2342.19200300.100.1.7 photo"%string;
  "2.5.4.19 physicalDeliveryOfficeName"%string;
  "2.5.4.16 postalAddress"%string;
  "2.5.4.17 postalCode"%string;
  "2.5.4.18 postOfficeBox"%string;
  "2.5.4.28 preferredDeliveryMethod"%string;
  "2.16.840.1.113730.3.1.39 preferredLanguage"%string;
  "1.3.6.1.4.1.1466.101.120.42 preferredLocale"%string;
  "1.3.6.1.4.1.1466.101.120.43 preferredTimeZone"%string;
  "2.5.4.29 presentationAddress"%string;
  "1.3.18.0.2.4.1108 printer-aliases"%string;
  "1.3.18.0.2.4.1109 printer-charset-configured"%string;
  "1.3.18.0.2.4.1131 printer-charset-supported"%string;
  "1.3.18.0.2.4.1129 printer-color-supported"%string;
  "1.3.18.0.2.4.1128 printer-compression-supported"%string;
  "1.3.18.0.2.4.1118 printer-copies-supported"%string;
  "1.3.18.0.2.4.1112 printer-current-operator"%string;
  "1.3.18.0.2.4.1114 printer-delivery-orientation-supported"%string;
  "1.3.18.0.2.4.1130 printer-document-format-supported"%string;
  "1.3.18.0.2.4.1125 printer-finishings-supported"%string;
  "1.3.18.0.2.4.1137 printer-generated-natural-language-supported"%string;
  "1.3.18.0.2.4.1139 printer-info"%string;
  "1.3.18.0.2.4.1133 printer-ipp-versions-supported"%string;
  "1.3.18.0.2.4.1111 printer-job-k-octets-supported"%string;
  "1.3.18.0.2.4.1110 printer-job-priority-supported"%string;
  "1.3.18.0.2.4.1136 printer-location"%string;
  "1.3.18.0.2.4.1138 printer-make-and-model"%string;
  "1.3.18.0.2.4.1117 printer-media-local-supported"%string;
  "1.3.18.0.2.4.1122 printer-media-supported"%string;
  "1.3.18.0.2.4.1134 printer-more-info"%string;
  "1.3.18.0.2.4.1132 printer-multiple-document-jobs-supported"%string;
  "1.3.18.0.2.4.1135 printer-name"%string;
  "1.3.18.0.2.4.1119 printer-natural-language-configured"%string;
  "1.3.18.0.2.4.1124 printer-number-up-supported"%string;
  "1.3.18.0.2.4.1116 printer-output-features-supported"%string;
  "1.3.18.0.2.4.1127 printer-pages-per-minute"%string;
  "1.3.18.0.2.4.1126 printer-pages-per-minute-color"%string;
  "1.3.18.0.2.4.1120 printer-print-quality-supported"%string;
  "1.3.18.0.2.4.1121 printer-resolution-supported"%string;
  "1.3.18.0.2.4.1113 printer-service-person"%string;
  "1.3.18.0.2.4.1123 printer-sides-supported"%string;
  "1.3.18.0.2.4.1115 printer-stacking-order-supported"%string;
  "1.3.18.0.2.4.1140 printer-uri"%string;
  "1.3.18.0.2.4.1107 printer-xri-supported"%string;
  "2.5.4.48 protocolInformation"%string;
  "2.16.840.1.113730.3.1.997 pwdpolicysubentry"%string;
  "2.16.840.1.113730.3.1.2366 pwdReset"%string;
  "2.16.840.1.113730.3.1.2381 pwdTPRExpireAt"%string;
  "2.16.840.1.113730.3.1.2378 pwdTPRReset"%string;
  "2.16.840.1.113730.3.1.2379 pwdTPRUseCount"%string;
  "2.16.840.1.113730.3.1.2380 pwdTPRValidFrom"%string;
  "2.16.840.1.113730.3.1.2133 pwdUpdateTime"%string;
  "2.16.840.1.113730.3.1.34 ref"%string;
  "2.5.4.26 registeredAddress"%string;
  "2.16.840.1.113730.3.1.218 replicaAbandonedChanges"%string;
  "2.16.840.1.113730.3.1.50 replicaBeginOrc"%string;
  "2.16.840.1.113730.3.1.58 replicaBindDn"%string;
  "2.16.840.1.113730.3.1.53 replicaBindMethod"%string;
  "2.16.840.1.113730.3.1.217 replicaCFUpdated"%string;
  "2.16.840.1.113730.3.1.202 replicaCredentials"%string;
  "2.16.840.1.113730.3.1.203 replicaEntryFilter"%string;
  "2.16.840.1.113730.3.1.197 replicaHost"%string;
  "2.16.840.1.113730.3.1.408 replicaLastRelevantChange"%string;
  "2.16.840.1.113730.3.1.204 replicaNickName"%string;
  "2.16.840.1.113730.3.1.48 replicaPort"%string;
  "2.16.840.1.113730.3.1.57 replicaRoot"%string;
  "2.16.840.1.113730.3.1.240 replicatedattributelist"%string;
  "2.16.840.1.113730.3.1.49 replicaUpdateFailedAt"%string;
  "2.16.840.1.113730.3.1.51 replicaUpdateReplayed"%string;
  "2.16.840.1.113730.3.1.52 replicaUpdateSchedule"%string;
  "2.16.840.1.113730.3.1.54 replicaUseSSL"%string;
  "2.16.840.1.113730.3.1.94 retryCountResetTime"%string;
  "2.5.4.33 roleOccupant"%string;
  "0.9.2342.19200300.100.1.6 roomNumber"%string;
  "2.16.840.1.113730.3.1.2147 rootdn-allow-host"%string;
  "2.16.840.1.113730.3.1.2149 rootdn-allow-ip"%string;
  "2.16.840.1.113730.3.1.2145 rootdn-close-time"%string;
  "2.16.840.1.113730.3.1.2146 rootdn-days-allowed"%string;
  "2.16.840.1.113730.3.1.2148 rootdn-deny-host"%string;
  "2.16.840.1.113730.3.1.2150 rootdn-deny-ip"%string;
  "2.16.840.1.113730.3.1.2144 rootdn-open-time"%string;
  "1.3.6.1.4.1.2312.4.3.3.2 sabayonProfileName"%string;
  "1.3.6.1.4.1.2312.4.3.3.1 sabayonProfileURL"%string;
  "1.3.6.1.4.1.7165.2.1.26 sambaAcctFlags"%string;
  "1.3.6.1.4.1.7165.2.1.40 sambaAlgorithmicRidBase"%string;
  "1.3.6.1.4.1.7165.2.1.48 sambaBadPasswordCount"%string;
  "1.3.6.1.4.1.7165.2.1.49 sambaBadPasswordTime"%string;
  "1.3.6.1.4.1.7165.2.1.43 sambaBoolOption"%string;
  "1.3.6.1.4.1.7165.2.1.68 sambaClearTextPassword"%string;
  "1.3.6.1.4.1.7165.2.1.38 sambaDomainName"%string;
  "1.3.6.1.4.1.7165.2.1.74 sambaFlatName"%string;
  "1.3.6.1.4.1.7165.2.1.66 sambaForceLogoff"%string;
  "1.3.6.1.4.1.7165.2.1.19 sambaGroupType"%string;
  "1.3.6.1.4.1.7165.2.1.33 sambaHomeDrive"%string;
  "1.3.6.1.4.1.7165.2.1.37 sambaHomePath"%string;
  "1.3.6.1.4.1.7165.2.1.44 sambaIntegerOption"%string;
  "1.3.6.1.4.1.7165.2.1.32 sambaKickoffTime"%string;
  "1.3.6.1.4.1.7165.2.1.24 sambaLMPassword"%string;
  "1.3.6.1.4.1.7165.2.1.63 sambaLockoutDuration"%string;
  "1.3.6.1.4.1.7165.2.1.64 sambaLockoutObservationWindow"%string;
  "1.3.6.1.4.1.7165.2.1.65 sambaLockoutThreshold"%string;
  "1.3.6.1.4.1.7165.2.1.31 sambaLogoffTime"%string;
  "1.3.6.1.4.1.7165.2.1.55 sambaLogonHours"%string;
  "1.3.6.1.4.1.7165.2.1.34 sambaLogonScript"%string;
  "1.3.6.1.4.1.7165.2.1.30 sambaLogonTime"%string;
  "1.3.6.1.4.1.7165.2.1.60 sambaLogonToChgPwd"%string;
  "1.3.6.1.4.1.7165.2.1.61 sambaMaxPwdAge"%string;
  "1.3.6.1.4.1.7165.2.1.62 sambaMinPwdAge"%string;
  "1.3.6.1.4.1.7165.2.1.58 sambaMinPwdLength"%string;
  "1.3.6.1.4.1.7165.2.1.47 sambaMungedDial"%string;
  "1.3.6.1.4.1.7165.2.1.22 sambaNextGroupRid"%string;
  "1.3.6.1.4.1.7165.2.1.39 sambaNextRid"%string;
  "1.3.6.1.4.1.7165.2.1.21 sambaNextUserRid"%string;
  "1.3.6.1.4.1.7165.2.1.25 sambaNTPassword"%string;
  "1.3.6.1.4.1.7165.2.1.42 sambaOptionName"%string;
  "1.3.6.1.4.1.7165.2.1.54 sambaPasswordHistory"%string;
  "1.3.6.1.4.1.7165.2.1.69 sambaPreviousClearTextPassword"%string;
  "1.3.6.1.4.1.7165.2.1.23 sambaPrimaryGroupSID"%string;
  "1.3.6.1.4.1.7165.2.1.35 sambaProfilePath"%string;
  "1.3.6.1.4.1.7165.2.1.28 sambaPwdCanChange"%string;
  "1.3.6.1.4.1.7165.2.1.59 sambaPwdHistoryLength"%string;
  "1.3.6.1.4.1.7165.2.1.27 sambaPwdLastSet"%string;
  "1.3.6.1.4.1.7165.2.1.29 sambaPwdMustChange"%string;
  "1.3.6.1.4.1.7165.2.1.67 sambaRefuseMachinePwdChange"%string;
  "1.3.6.1.4.1.7165.2.1.77 sambaSecurityIdentifier"%string;
  "1.3.6.1.4.1.7165.2.1.41 sambaShareName"%string;
  "1.3.6.1.4.1.7165.2.1.20 sambaSID"%string;
  "1.3.6.1.4.1.7165.2.1.51 sambaSIDList"%string;
  "1.3.6.1.4.1.7165.2.1.46 sambaStringListOption"%string;
  "1.3.6.1.4.1.7165.2.1.45 sambaStringOption"%string;
  "1.3.6.1.4.1.7165.2.1.80 sambaSupportedEncryptionTypes"%string;
  "1.3.6.1.4.1.7165.2.1.71 sambaTrustAttributes"%string;
  "1.3.6.1.4.1.7165.2.1.76 sambaTrustAuthIncoming"%string;
  "1.3.6.1.4.1.7165.2.1.75 sambaTrustAuthOutgoing"%string;
  "1.3.6.1.4.1.7165.2.1.72 sambaTrustDirection"%string;
  "1.3.6.1.4.1.7165.2.1.53 sambaTrustFlags"%string;
  "1.3.6.1.4.1.7165.2.1.78 sambaTrustForestTrustInfo"%string;
  "1.3.6.1.4.1.7165.2.1.73 sambaTrustPartner"%string;
  "1.3.6.1.4.1.7165.2.1.79 sambaTrustPosixOffset"%string;
  "1.3.6.1.4.1.7165.2.1.70 sambaTrustType"%string;
  "1.3.6.1.4.1.7165.2.1.36 sambaUserWorkstations"%string;
  "2.16.840.1.113730.3.1.2167 schemaUpdateAttributeAccept"%string;
  "2.16.840.1.113730.3.1.2168 schemaUpdateAttributeReject"%string;
  "2.16.840.1.113730.3.1.2165 schemaUpdateObjectclassAccept"%string;
  "2.16.840.1.113730.3.1.2166 schemaUpdateObjectclassReject"%string;
  "2.5.4.14 searchGuide"%string;
  "0.9.2342.19200300.100.1.21 secretary"%string;
  "2.5.4.34 seeAlso"%string;
  "2.5.4.5 serialNumber"%string;
  "ServerCertExtractFile-oid ServerCertExtractFile"%string;
  "2.16.840.1.113730.3.1.76 serverHostName"%string;
  "ServerKeyExtractFile-oid ServerKeyExtractFile"%string;
  "2.16.840.1.113730.3.1.71 serverProductName"%string;
  "2.16.840.1.113730.3.1.70 serverRoot"%string;
  "2.16.840.1.113730.3.1.72 serverVersionNumber"%string;
  "1.3.6.1.1.1.1.10 shadowExpire"%string;
  "1.3.6.1.1.1.1.11 shadowFlag"%string;
  "1.3.6.1.1.1.1.9 shadowInactive"%string;
  "1.3.6.1.1.1.1.5 shadowLastChange"%string;
  "1.3.6.1.1.1.1.7 shadowMax"%string;
  "1.3.6.1.1.1.1.6 shadowMin"%string;
  "1.3.6.1.1.1.1.8 shadowWarning"%string;
  "2.5.4.4 sn surName"%string;
  "sslVersionMax-oid sslVersionMax"%string;
  "sslVersionMin-oid sslVersionMin"%string;
  "2.5.4.8 st stateOrProvinceName"%string;
  "2.5.4.9 street streetaddress"%string;
  "2.5.21.9 structuralObjectClass"%string;
  "2.5.18.10 subschemaSubentry"%string;
  "2.16.840.1.113730.3.1.69 subtreeACI"%string;
  "1.3.6.1.4.1.15953.9.1.3 sudoCommand"%string;
  "1.3.6.1.4.1.15953.9.1.2 sudoHost"%string;
  "1.3.6.1.4.1.15953.9.1.9 sudoNotAfter"%string;
  "1.3.6.1.4.1.15953.9.1.8 sudoNotBefore"%string;
  "1.3.6.1.4.1.15953.9.1.5 sudoOption"%string;
  "1.3.6.1.4.1.15953.9.1.10 sudoOrder"%string;
  "1.3.6.1.4.1.15953.9.1.4 sudoRunAs"%string;
  "1.3.6.1.4.1.15953.9.1.7 sudoRunAsGroup"%string;
  "1.3.6.1.4.1.15953.9.1.6 sudoRunAsUser"%string;
  "1.3.6.1.4.1.15953.9.1.1 sudoUser"%string;
  "2.5.4.52 supportedAlgorithms"%string;
  "2.5.4.30 supportedApplicationContext"%string;
  "1.3.6.1.4.1.1466.101.120.13 supportedControl"%string;
  "1.3.6.1.4.1.1466.101.120.7 supportedExtension"%string;
  "1.3.6.1.4.1.4203.1.3.5 supportedFeatures"%string;
  "1.3.6.1.4.1.1466.101.120.15 supportedLDAPVersion"%string;
  "1.3.6.1.4.1.1466.101.120.14 supportedSASLMechanisms"%string;
  "2.16.840.1.113730.3.1.6 targetDn"%string;
  "2.5.4.20 telephoneNumber"%string;
  "2.5.4.22 teletexTerminalIdentifier"%string;
  "2.5.4.21 telexNumber"%string;
  "2.5.4.12 title"%string;
  "2.16.840.1.113730.3.1.2111 tombstoneNumSubordinates"%string;
  "5.3.6.1.1.1.1.0 trustModel"%string;
  "1.3.6.1.4.1.250.1.60 ttl timeToLive"%string;
  "0.9.2342.19200300.100.1.1 uid userid"%string;
  "1.3.6.1.1.1.1.0 uidNumber"%string;
  "0.9.2342.19200300.100.1.44 uniqueIdentifier"%string;
  "2.5.4.50 uniqueMember"%string;
  "2.5.4.36 userCertificate"%string;
  "0.9.2342.19200300.100.1.8 userClass"%string;
  "2.5.4.35 userPassword"%string;
  "2.16.840.1.113730.3.1.216 userPKCS12"%string;
  "2.16.840.1.113730.3.1.40 userSMIMECertificate"%string;
  "2.16.840.1.113730.3.1.708 vacationenddate"%string;
  "2.16.840.1.113730.3.1.707 vacationstartdate"%string;
  "1.3.6.1.1.4 vendorName"%string;
  "1.3.6.1.1.5 vendorVersion"%string;
  "2.16.840.1.113730.3.1.207 vlvBase"%string;
  "2.16.840.1.113730.3.1.213 vlvEnabled"%string;
  "2.16.840.1.113730.3.1.209 vlvFilter"%string;
  "2.16.840.1.113730.3.1.208 vlvScope"%string;
  "2.16.840.1.113730.3.1.210 vlvSort"%string;
  "2.16.840.1.113730.3.1.219 vlvUses"%string;
  "2.16.840.1.113730.3.1.2162 winSyncDirectoryFilter"%string;
  "2.16.840.1.113730.3.1.2389 winSyncFlattenTree"%string;
  "2.16.840.1.113730.3.1.1099 winSyncInterval"%string;
  "2.16.840.1.113730.3.1.2139 winSyncMoveAction"%string;
  "2.16.840.1.113730.3.1.2164 winSyncSubtreePair"%string;
  "2.16.840.1.113730.3.1.2163 winSyncWindowsFilter"%string;
  "2.5.4.24 x121Address"%string;
  "2.5.4.45 x500UniqueIdentifier"%string;
  ""%string].

#[export] Instance embedded : Vocabulary := {| attributeTypesFile := join [x0a] attributetypes_lines |}.

Section laws.
Context {U : Unicode} {UL : UnicodeLaws U}.

(** The law, decided for one key of a vocabulary. *)
Definition primary_in (v : vocabulary) (k b : bytes) : bytes := default b (v_primary v !! k).

Definition emitted_in (v : vocabulary) (k : bytes) : bytes :=
  match assoc attributeNameAliases k with
  | Some a => primary_in v (to_lower (alias_primary a)) (alias_primary a)
  | None => primary_in v k []
  end.

Definition key_ok (v : vocabulary) (k : bytes) : bool :=
  let c := emitted_in v k in
  let t := CanonicalAttrType (primary_in v k []) in
  bool_decide (is_Some (v_primary v !! k)) && negb (beq c []) && forallb name_byte c && aciAttrNameReA c && bool_decide (semicolon ∉ c) &&
  bool_decide (is_Some (v_known v !! to_lower c)) && forallb is_ascii t && beq (to_lower c) (to_lower t).

Definition vocabulary_ok (v : vocabulary) : bool := forallb (λ p, key_ok v p.1) (map_to_list (v_known v)).

Lemma embedded_ok : vocabulary_ok (load attributeTypesFile) = true.
Proof. vm_compute. reflexivity. Qed.

Lemma Primary_in {V : Vocabulary} (b : bytes) : base_name b → Primary b = primary_in (load attributeTypesFile) (to_lower b) b.
Proof.
  intros Hb. unfold Primary, primary_in. rewrite !trim_plain by apply Hb. rewrite (with_cut b None Hb : cut_byte semicolon b = _).
  rewrite trim_plain by apply Hb. by destruct (_ !! _).
Qed.

Lemma Known_in {V : Vocabulary} (b : bytes) : base_name b → Known b = bool_decide (is_Some (v_known (load attributeTypesFile) !! to_lower b)).
Proof. intros Hb. unfold Known, base_of. rewrite (with_cut b None Hb : cut_byte semicolon b = _). cbn [fst]. by rewrite trim_plain by apply Hb. Qed.

Lemma checked_laws {V : Vocabulary} : vocabulary_ok (load attributeTypesFile) = true → VocabularyLaws V.
Proof.
  intros Hv. constructor. intros b Hb Hk. rewrite Known_in in Hk by done. apply bool_decide_eq_true in Hk as [[] Hk].
  apply elem_of_map_to_list, list_elem_of_In in Hk. unfold vocabulary_ok in Hv. rewrite forallb_forall in Hv. specialize (Hv _ Hk). cbn [fst] in Hv. clear Hk.
  unfold key_ok in Hv. repeat (apply andb_true_iff in Hv as [Hv ?]).
  repeat match goal with H : bool_decide _ = true |- _ => apply bool_decide_eq_true in H end.
  set (v := load attributeTypesFile) in *.
  assert (Ep : Primary b = primary_in v (to_lower b) []) by (rewrite Primary_in by done; fold v; unfold primary_in; by destruct Hv as [x ->]).
  assert (Ec : Primary (PrimaryAttrDescription b) = emitted_in v (to_lower b)).
  { rewrite Primary_in by by apply description_base. unfold emitted_in, PrimaryAttrDescription. rewrite trim_plain by apply Hb.
    rewrite (with_cut b None Hb : cut_byte semicolon b = _). rewrite trim_plain by apply Hb. destruct (assoc _ _) as [a|]; [done |].
    fold v. unfold primary_in. by destruct Hv as [x ->]. }
  cbn zeta. rewrite Ec, Ep. set (c := emitted_in v (to_lower b)) in *.
  assert (Hc : base_name c).
  { split_and!; [| done | done]. split; [by apply beq_false, negb_true_iff |]. apply Forall_forall. intros x Hx. by apply (proj1 (forallb_forall name_byte c)), list_elem_of_In. }
  split_and!; [done | rewrite Known_in by done; by apply bool_decide_eq_true | by apply beq_true | done].
Qed.

#[export] Instance embedded_laws : VocabularyLaws embedded := checked_laws embedded_ok.
End laws.
