(* ===== verification/AciRule.v ===== *)
(** The access control compiler and the engine's parser agree.

    The text compiled from an ACL of the configuration is read back by the parser as the
    rule the ACL asks for. *)

From stdpp Require Import fin_sets.
From S2P Require Import Prelude GoStrings GoText DN DNFacts Attr Aci Paging Vocab389 AciText AciCompile AciAttrs Vocab389Data.

Section rule.
Context {U : Unicode} {UL : UnicodeLaws U} {V : Vocabulary} {VL : VocabularyLaws V}.

(** The name of a user or a group of the configuration. *)
Definition names_dn (s : bytes) (d : DN) : Prop := ParseDN s = Ok d ∧ printable s ∧ s ≠ [] ∧ to_lower s ∉ [B "all"; B "anyone"; B "self"].

(** Whom a principal of the configuration stands for. *)
Inductive stands_for (n : Normalized) : Principal → ACISubjectA → Prop :=
  | for_group ref s d : assoc (n_Groups n) ref = Some s → names_dn s d → stands_for n (MkPrincipal (B "group") ref) (MkACISubject ACISubjectGroupDNA d)
  | for_user ref s d : assoc (n_Users n) ref = Some s → names_dn s d → stands_for n (MkPrincipal (B "user") ref) (MkACISubject ACISubjectUserDNA d)
  | for_anyone ref : stands_for n (MkPrincipal (B "anyone") ref) (MkACISubject ACISubjectAnyoneA no_dn).

Lemma principal_reads (n : Normalized) (pr : Principal) (subj : ACISubjectA) (who : bytes) :
  stands_for n pr subj → principalWho pr n = Ok who →
  ∃ word value rest, who_reads who word value ∧ to_lower word = word ∧ url value rest ∧ subject_names word rest subj.
Proof.
  intros Hs. destruct Hs as [ref s d Ha (Hd & Hp & Hne & Hw)|ref s d Ha (Hd & Hp & Hne & Hw)|ref]; unfold principalWho; cbn [pr_Kind pr_Ref].
  - change (beq (B "group") (B "group")) with true. cbv iota. rewrite Ha. intros [= <-]. exists (B "groupdn"), (ldap_url s), s.
    split_and!; [by apply who_groupdn | by vm_compute | apply ldap_url_url | by constructor].
  - change (beq (B "user") (B "group")) with false. change (beq (B "user") (B "user")) with true. cbv iota. rewrite Ha. intros [= <-]. exists (B "userdn"), (ldap_url s), s.
    split_and!; [by apply who_userdn | by vm_compute | apply ldap_url_url | by constructor].
  - change (beq (B "anyone") (B "group")) with false. change (beq (B "anyone") (B "user")) with false. change (beq (B "anyone") (B "anyone")) with true. cbv iota.
    intros [= <-]. exists (B "userdn"), (ldap_url (B "anyone")), (B "anyone").
    split_and!; [| by vm_compute | apply ldap_url_url | apply names_anyone; by vm_compute]. apply who_word. split_and!; [by vm_compute | |]; vm_compute; set_solver.
Qed.

(** ** The identifier *)

Lemma id_bytes (id : bytes) : aciIDRe id = true → (length (labldap ++ id) ≤ aciMaxIDLenA)%nat ∧
  Forall (λ b, (32 ≤ bz b < 127)%Z ∧ b ≠ c_quote ∧ b ≠ c_backslash) (labldap ++ id).
Proof.
  unfold aciIDRe. destruct id as [|c t]; [done |]. intros [[Hc Hl%Nat.leb_le]%andb_true_iff Ht]%andb_true_iff.
  assert (Hall : ∀ b, negb (alnum_dash b || bool_decide (b = x5f)) || ((32 <=? bz b)%Z && (bz b <? 127)%Z && bool_decide (b ∉ [c_quote; c_backslash])) = true)
    by (intros b; destruct b; vm_compute; reflexivity).
  assert (Hb : ∀ b, alnum_dash b || bool_decide (b = x5f) = true → (32 ≤ bz b < 127)%Z ∧ b ≠ c_quote ∧ b ≠ c_backslash).
  { intros b Hb. specialize (Hall b). rewrite Hb in Hall. cbn [negb orb] in Hall. apply andb_true_iff in Hall as [[H1%Z.leb_le H2%Z.ltb_lt]%andb_true_iff H3%bool_decide_eq_true].
    rewrite !not_elem_of_cons in H3. naive_solver. }
  split; [rewrite length_app; unfold aciMaxIDLenA; cbn in *; lia |]. apply Forall_app. split; [repeat constructor; by vm_compute |]. constructor.
  - apply Hb. unfold alnum_dash. unfold alpha in Hc. by rewrite Hc.
  - apply Forall_forall. intros b Hin%list_elem_of_In. rewrite forallb_forall in Ht. by apply Hb, Ht.
Qed.

Lemma id_name (id : bytes) : aciIDRe id = true → acl_name (labldap ++ id) ∧ bare (labldap ++ id).
Proof.
  intros H. destruct (id_bytes id H) as [Hl Hb]. set (s := labldap ++ id) in *.
  assert (Hr : runes s = ascii_runes s) by (apply runes_ascii; eapply Forall_impl; [exact Hb |]; intros b (? & _); cbn in *; lia).
  rewrite Forall_forall in Hb. split; split_and!.
  - by unfold s, labldap.
  - done.
  - rewrite Hr. apply Forall_forall. intros p (b & -> & Hin)%list_elem_of_fmap. destruct (Hb b Hin) as [? _]. unfold control. cbn [fst].
    rewrite (proj2 (Z.ltb_ge _ _)), (proj2 (Z.eqb_neq _ _)) by lia. done.
  - unfold valid_utf8. rewrite Hr. apply forallb_forall. intros p Hp%list_elem_of_In. apply list_elem_of_fmap in Hp as (b & -> & Hin). destruct (Hb b Hin) as [? _].
    unfold valid_chunk. cbn [fst]. rewrite (proj2 (Z.eqb_neq _ _)); [done |]. unfold rune_error. lia.
  - intros Hin. by destruct (Hb _ Hin) as (_ & ? & _).
  - intros Hin. by destruct (Hb _ Hin) as (_ & _ & ?).
Qed.

(** ** The permissions *)

Lemma aciPerms_word (w c : bytes) : aciPerms w = Some c → c = w ∧ is_word w ∧ (to_lower w = w) ∧ ∃ q, aciPermsA w = Some q.
Proof.
  unfold aciPerms. destruct (bool_decide _) eqn:E; [| done]. apply bool_decide_eq_true in E. intros [= <-]. split; [done |].
  repeat (apply elem_of_cons in E as [->|E]; [split_and!; [split; [done | repeat constructor; by vm_compute] | by vm_compute | by eexists] |]). by apply not_elem_of_nil in E.
Qed.

Definition perms_named (ws : list bytes) (ps : list Permission) : Prop := Forall2 (λ w q, aciPermsA w = Some q) ws ps.

Lemma acl_perms_words (a : ACL) (perms : list bytes) : acl_perms a = Ok perms →
  perms = acl_Permissions a ∧ Forall is_word perms ∧ ∃ ps, perms_named (acl_Permissions a) ps ∧ words_perms perms ps.
Proof.
  unfold acl_perms, cfgErr. intros H%rmap_ok. induction H as [|w c ws cs Hc H IH].
  { split_and!; [done | done |]. exists []. split; constructor. }
  destruct (aciPerms w) as [c'|] eqn:E; [| done]. injection Hc as ->. destruct (aciPerms_word w c E) as (-> & Hw & Hl & q & Hq). destruct IH as (-> & Hws & ps & Hp & Hp').
  split_and!; [done | by constructor |]. exists (q :: ps). split; constructor; try done. by rewrite Hl.
Qed.

Lemma dsl_names_ok (path : bytes) (l : list bytes) (us : list ()) : rmap (dsl_name path) l = Ok us → Forall (λ n, n = star ∨ dsl_ok n) l.
Proof. intros H%rmap_ok. induction H as [|n [] l us Hn H IH]; [done |]. constructor; [by eapply dsl_name_ok | done]. Qed.

(** ** A whole configuration *)

(** An ACL that compiles to a rule of its own. *)
Definition own_rule (n : Normalized) (a : ACL) (op : NamedACI) : Prop :=
  acl_ID a ≠ [] ∧ has_prefix (acl_ID a) (B "runtime-") = false ∧ compile_acl n a = Ok op.

Lemma compile_loop_ok (n : Normalized) (acls : list ACL) (seen : gset bytes) (ops : list NamedACI) :
  compile_loop n seen acls = ([], ops) ↔ NoDup (acl_ID <$> acls) ∧ Forall (λ a, acl_ID a ∉ seen) acls ∧ Forall2 (own_rule n) acls ops.
Proof.
  revert seen ops. induction acls as [|a acls IH]; intros seen ops; cbn [compile_loop fmap list_fmap].
  { split; [intros [= <-]; repeat constructor | by intros (_ & _ & ->%Forall2_nil_inv_l)]. }
  unfold own_rule. destruct (beq (acl_ID a) []) eqn:E1.
  { apply beq_true in E1. destruct (compile_loop n seen acls). split; [done |]. intros (_ & _ & H). inversion H as [|? ? ? ? (? & _)]; by subst. }
  apply beq_false in E1. destruct (has_prefix _ _) eqn:E2.
  { destruct (compile_loop n seen acls). split; [done |]. intros (_ & _ & H). inversion H as [|? ? ? ? (_ & ? & _)]; subst. congruence. }
  case_bool_decide as E3.
  { destruct (compile_loop n seen acls). split; [done |]. by intros (_ & [? _]%Forall_cons & _). }
  destruct (compile_loop n _ acls) as [es ops'] eqn:El. specialize (IH ({[acl_ID a]} ∪ seen)). rewrite El in IH.
  assert (Hseen : Forall (λ x, acl_ID x ∉ {[acl_ID a]} ∪ seen) acls ↔ (acl_ID a ∉ acl_ID <$> acls) ∧ Forall (λ x, acl_ID x ∉ seen) acls).
  { rewrite !Forall_forall. split.
    - intros H. split; [| intros x Hx; specialize (H x Hx); set_solver]. intros (x & Ex & Hx)%list_elem_of_fmap. specialize (H x Hx). rewrite Ex in H. set_solver.
    - intros [Hn H] x Hx [Hi%elem_of_singleton|Hi]%elem_of_union; [| by apply (H x)]. apply Hn. rewrite <- Hi. by apply list_elem_of_fmap_2. }
  destruct (compile_acl n a) as [op|e] eqn:Ec.
  - split.
    + intros [= -> <-]. destruct (proj1 (IH ops') eq_refl) as (Hd & Hs & Hf). apply Hseen in Hs as [Hn Hs]. split_and!; by constructor.
    + intros ([Hn Hd]%NoDup_cons & [_ Hs]%Forall_cons & Hf). inversion Hf as [|? ? ? ? (_ & _ & Ho) Hf']; subst. rewrite Ec in Ho. injection Ho as ->.
      assert (Hx : (es, ops') = ([], l')) by (apply IH; split_and!; [done | by apply Hseen | done]). by injection Hx as -> ->.
  - split; [done |]. intros (_ & _ & H). inversion H as [|? ? ? ? (_ & _ & ?)]; subst. congruence.
Qed.

(** The rules of a configuration that compiles: those of the control plane's own account,
    then one per ACL, in order; it compiles if no two ACLs share an identifier, none
    claims the prefix of the control plane, and each compiles by itself. *)
Theorem compileACIs_ok (n : Normalized) (ops : list NamedACI) :
  compileACIs n = Ok ops ↔
  NoDup (acl_ID <$> n_OperatorACLs n) ∧ ∃ own, ops = managedRuntimeACIs n ++ own ∧ Forall2 (own_rule n) (n_OperatorACLs n) own.
Proof.
  unfold compileACIs. destruct (compile_loop n ∅ (n_OperatorACLs n)) as [es own] eqn:El. split.
  - destruct es; [| done]. intros [= <-]. apply compile_loop_ok in El as (Hd & _ & Hf). split; [done |]. by exists own.
  - intros (Hd & own' & -> & Hf). assert (Hx : compile_loop n ∅ (n_OperatorACLs n) = ([], own')).
    { apply compile_loop_ok. split_and!; [done | apply Forall_forall; intros a _; apply not_elem_of_empty | done]. }
    rewrite El in Hx. by injection Hx as -> ->.
Qed.

(** C16.  What the configuration asks for is what the engine enforces.  An ACL of the
    configuration that compiles, for a principal and a target whose names parse, with at
    most sixteen permissions and within the bound on the text, is read back by the
    engine's parser as an allow rule with its identifier, its target, its permissions in
    order and its principal, covering exactly the attribute descriptions its allow list
    names and its deny list does not. *)
Theorem compiled_rule_read (n : Normalized) (a : ACL) (op : NamedACI) (d : DN) (subj : ACISubjectA) :
  compile_acl n a = Ok op → acl_RawACI a = [] → stands_for n (acl_Principal a) subj →
  ParseDN (na_Target op) = Ok d → printable (na_Target op) →
  (length (acl_Permissions a) ≤ aciMaxPermsA)%nat → (blen (na_Text op) ≤ MaxACITextBytesA)%Z →
  targetDN (acl_Target a) n = Ok (na_Target op) ∧
  ∃ p, ParseACITextA (na_Text op) = Ok p ∧
    aci_ID p = labldap ++ acl_ID a ∧ aci_TargetDN p = d ∧ aci_Deny p = false ∧ perms_named (acl_Permissions a) (aci_Permissions p) ∧
    aci_Subject p = subj ∧ ∀ base opts, TargetsAttr p base opts = configured a base opts.
Proof.
  unfold compile_acl, cfgErr. intros H Hraw. destruct (aciIDRe (acl_ID a)) eqn:Eid; [| done]. rewrite Hraw in H. change (negb (beq [] [])) with false in H. cbn [negb] in H.
  apply bind_ok in H as ([text tgt] & He & [= <-]). cbn [na_Target na_Text]. intros Hsub Hd Hpr Hlen Htext.
  unfold emitACI, cfgErr in He. apply bind_ok in He as (tgt' & Ht & He). apply bind_ok in He as (u & _ & He). destruct (beq _ (B "runtime")); [done |].
  apply bind_ok in He as (who & Hwho & He). apply bind_ok in He as (perms & Hperms & He). destruct (bool_decide (perms = [])) eqn:Epe; [done |]. apply bool_decide_eq_false in Epe.
  apply bind_ok in He as (u1 & Hna & He). apply bind_ok in He as (u2 & Hnd & He). apply bind_ok in He as ([allow deny] & Hattr & [= <- <-]).
  split; [done |]. destruct (principal_reads n _ subj who Hsub Hwho) as (word & value & rest & Hreads & Hword & Hurl & Hnames).
  destruct (acl_perms_words a perms Hperms) as (Epm & Hwords & ps & Hps & Hwp). destruct (id_name (acl_ID a) Eid) as [Hname Hbare].
  set (b := MkBuilder (labldap ++ acl_ID a) tgt' perms allow deny who) in *.
  assert (Hcov : clause_covers b (configured a)) by (apply dslTargetAttr_covers; [by eapply dsl_names_ok | by eapply dsl_names_ok | done]).
  unfold clause_covers in Hcov. destruct (builder_names b) as [ng v] eqn:Eb. destruct Hcov as (Hvb & Hvl & Hvn & Hvc).
  assert (Hr : reads_as (builder_String b) (builder_syms b word value)) by (apply builder_reads; rewrite ?Eb; done).
  destruct (Hr 0%nat [] _ (spells_end _)) as (us & Hsp & Hsym). rewrite app_nil_r in Hsp.
  assert (Hsyn := builder_syntax b word value rest d ps subj us (0 + length (builder_String b))). rewrite Eb in Hsyn. cbn [fst snd] in Hsyn.
  specialize (Hsyn Hd Hvl Hvn Hname Hwp Epe). rewrite <- (Forall2_length _ _ _ Hps) in Hsyn. specialize (Hsyn Hlen Hword Hurl Hnames Hsym).
  eexists. split; [apply ParseACITextA_iff; split_and!; [by destruct (builder_target b) eqn:E | done | by eexists]|].
  cbn [aci_ID aci_TargetDN aci_Deny aci_Permissions aci_Subject]. split_and!; try done. intros base opts. apply Hvc. cbn [aci_AttrMode aci_Attrs]. by destruct (attr_mode _ _).
Qed.
End rule.

(** * A configuration *)

Section sample.
#[local] Existing Instance ascii_unicode.

(** Three lines of the embedded file. *)
Definition few_lines : Vocabulary :=
  {| attributeTypesFile := join [x0a] [B "# attributes"; B "0.9.2342.19200300.100.1.1 uid userid"; B "0.9.2342.19200300.100.1.3 mail rfc822mailbox"; B "2.5.4.35 userPassword"; []] |}.

Lemma few_lines_laws : @VocabularyLaws ascii_unicode few_lines.
Proof. apply (checked_laws (V := few_lines)). vm_compute. reflexivity. Qed.

Definition base_rdn : list rdn := [Rdn (B "dc") (B "test")].

Definition sample_cfg : Normalized :=
  MkNormalized (MkDN base_rdn) [] (MkDN (Rdn (B "ou") (B "people") :: base_rdn)) (MkDN (Rdn (B "ou") (B "groups") :: base_rdn)) false
    (B "uid=app,dc=test") [] [(B "ops", B "cn=ops,ou=groups,dc=test")] [].

(** Operators may read user identifiers and addresses, and not the password. *)
Definition sample_acl (perms : list bytes) (tgt : Target) : ACL :=
  MkACL (B "ops-read") (MkPrincipal (B "group") (B "ops")) tgt perms [B "userid"; B "mail;lang-en"; B "userPassword"] [B "userPassword"] [].

Definition sample_people : ACL := sample_acl [B "read"; B "search"] (MkTarget (B "people") []).

Definition compiled (a : ACL) : NamedACI :=
  match compile_acl (V := few_lines) sample_cfg a with Ok op => op | Err _ => MkNamedACI [] [] [] end.

Definition ops_dn : DN := MkDN (Rdn (B "cn") (B "ops") :: Rdn (B "ou") (B "groups") :: base_rdn).

Lemma compiled_rule_read_witness :
  targetDN (acl_Target sample_people) sample_cfg = Ok (na_Target (compiled sample_people)) ∧
  ∃ p, ParseACITextA (V := few_lines) (na_Text (compiled sample_people)) = Ok p ∧
    aci_ID p = labldap ++ acl_ID sample_people ∧ aci_TargetDN p = MkDN (Rdn (B "ou") (B "people") :: base_rdn) ∧ aci_Deny p = false ∧
    perms_named (acl_Permissions sample_people) (aci_Permissions p) ∧ aci_Subject p = MkACISubject ACISubjectGroupDNA ops_dn ∧
    ∀ base opts, TargetsAttr p base opts = configured (V := few_lines) sample_people base opts.
Proof.
  apply (compiled_rule_read (UL := ascii_unicode_laws) (V := few_lines) (VL := few_lines_laws) sample_cfg sample_people (compiled sample_people)).
  - vm_compute. reflexivity.
  - reflexivity.
  - apply (for_group sample_cfg (B "ops") (B "cn=ops,ou=groups,dc=test")); [vm_compute; reflexivity |].
    split; [vm_compute; reflexivity |]. split; [split; [vm_compute; reflexivity | apply (bool_decide_unpack _); vm_compute; exact I] |].
    split; [discriminate | apply (bool_decide_unpack _); vm_compute; exact I].
  - vm_compute. reflexivity.
  - split; [vm_compute; reflexivity | apply (bool_decide_unpack _); vm_compute; exact I].
  - apply (bool_decide_unpack _). vm_compute. exact I.
  - apply (bool_decide_unpack _). vm_compute. exact I.
Defined.

(** A permission listed seventeen times compiles; the engine refuses the text. *)
Theorem seventeen_permissions :
  is_ok (compile_acl (V := few_lines) sample_cfg (sample_acl (replicate 17 (B "read")) (MkTarget (B "people") []))) = true ∧
  is_ok (ParseACITextA (V := few_lines) (na_Text (compiled (sample_acl (replicate 17 (B "read")) (MkTarget (B "people") []))))) = false.
Proof. split; vm_compute; reflexivity. Qed.

(** A target with a carriage return becomes a rule for the name with a line feed. *)
Definition cr_target : bytes := B "cn=a" ++ [x0d] ++ B "b,dc=test".

Theorem carriage_return_retargeted :
  let op := compiled (sample_acl [B "read"] (MkTarget (B "entry") cr_target)) in
  na_Target op = cr_target ∧
  (aci_TargetDN <$> ParseACITextA (V := few_lines) (na_Text op)) = Ok (MkDN (Rdn (B "cn") (B "a" ++ [x0a] ++ B "b") :: base_rdn)) ∧
  ParseDN cr_target = Ok (MkDN (Rdn (B "cn") (B "a" ++ [x0d] ++ B "b") :: base_rdn)).
Proof. cbn zeta. split_and!; vm_compute; reflexivity. Qed.
End sample.
