(* ===== verification/Ring.v ===== *)
(** The audit ring: [src/internal/audit/ring.go], the events and queries of
    [src/internal/audit/event.go].

    The clock is an argument of the operations that read it; the lock makes each of them
    one step.  A time is a number of nanoseconds since the epoch, as in [GoTime]. *)

From stdpp Require Import sorting.
From S2P Require Import Prelude GoStrings GoTime.
Local Open Scope Z_scope.

(** * Data *)

Record Event : Type := MkEvent {
  ev_Time : Z;
  ev_RequestID : bytes;
  ev_Actor : bytes;
  ev_Action : bytes;
  ev_Target : bytes;
  ev_Result : bytes;
  ev_Before : bytes;
  ev_After : bytes;
  ev_Seq : Z;
}.

(** The zero value of [time.Time], the first instant of year 1, and of [Event]. *)
Definition zero_time : Z := - epoch_days * day_seconds * nano.

Definition no_event : Event := MkEvent zero_time [] [] [] [] [] [] [] 0.

Record ListQuery : Type := MkListQuery {
  q_Action : bytes;
  q_Actor : bytes;
  q_PageSize : Z;
  q_AfterSeq : Z;
}.

Record Page : Type := MkPage {
  pg_Items : list Event;
  pg_NextSeq : Z;
  pg_HasMore : bool;
}.

Record Ring : Type := MkRing {
  r_buf : list Event;
  r_next : nat;
  r_size : nat;
  r_cap : nat;
  r_seq : Z;
  r_ttl : Z;
}.

Definition DefaultCapacity : Z := 4096.
Definition DefaultTTL : Z := 24 * 3600 * nano.

Definition NewRing (capacity : Z) : Ring :=
  let capacity := if capacity <=? 0 then DefaultCapacity else capacity in
  let n := Z.to_nat capacity in
  MkRing (replicate n no_event) 0 0 n 0 DefaultTTL.

Definition SetTTL (d : Z) (r : Ring) : Ring :=
  if 0 <? d then MkRing (r_buf r) (r_next r) (r_size r) (r_cap r) (r_seq r) d else r.

(** * Writing *)

Definition with_seq (ev : Event) (t seq : Z) : Event :=
  MkEvent t (ev_RequestID ev) (ev_Actor ev) (ev_Action ev) (ev_Target ev) (ev_Result ev) (ev_Before ev) (ev_After ev) seq.

(** [uint64] increment. *)
Definition succ64 (n : Z) : Z := (n + 1) mod 2^64.

Definition Emit (now : Z) (ev : Event) (r : Ring) : Ring :=
  let t := if ev_Time ev =? zero_time then now else ev_Time ev in
  let seq := succ64 (r_seq r) in
  let ev := with_seq ev t seq in
  if (r_cap r =? 0)%nat then MkRing (r_buf r) (r_next r) (r_size r) (r_cap r) seq (r_ttl r)
  else if (r_size r <? r_cap r)%nat then
    MkRing (<[r_size r := ev]> (r_buf r)) (r_next r) (S (r_size r)) (r_cap r) seq (r_ttl r)
  else
    MkRing (<[r_next r := ev]> (r_buf r)) (S (r_next r) mod r_cap r)%nat (r_size r) (r_cap r) seq (r_ttl r).

(** * Reading *)

(** [snapshotLocked]: the retained events, oldest first. *)
Definition snapshot (r : Ring) : list Event :=
  if (r_size r =? 0)%nat then []
  else if (r_size r <? r_cap r)%nat then take (r_size r) (r_buf r)
  else drop (r_next r) (r_buf r) ++ take (r_next r) (r_buf r).

(** [filterEvents]. *)
Definition event_matches (q : ListQuery) (ev : Event) : bool :=
  negb (negb (beq (q_Action q) []) && negb (beq (ev_Action ev) (q_Action q))) &&
  negb (negb (beq (q_Actor q) []) && negb (beq (ev_Actor ev) (q_Actor q))) &&
  negb (negb (q_AfterSeq q =? 0) && (q_AfterSeq q <=? ev_Seq ev)).

Definition filterEvents (l : list Event) (q : ListQuery) : list Event := filter (λ ev, event_matches q ev = true) l.

Definition page_limit (q : ListQuery) : Z := if q_PageSize q <=? 0 then 50 else q_PageSize q.

Definition paginate (l : list Event) (q : ListQuery) : Page :=
  let l := reverse l in
  if Z.of_nat (length l) <=? page_limit q then MkPage l 0 false
  else
    let page := take (Z.to_nat (page_limit q)) l in
    MkPage page (default 0 (ev_Seq <$> last page)) true.

(** [Ring.List]. *)
Definition Ring_List (now : Z) (q : ListQuery) (r : Ring) : Page :=
  let cutoff := now - r_ttl r in
  paginate (filterEvents (filter (λ ev, (ev_Time ev <? cutoff) = false) (snapshot r)) q) q.

(** The audit ring keeps the last events, and its pages list them once each. *)

(** * What has been emitted *)

(** An emission: the clock and the event. *)
Abbreviation emission := (Z * Event)%type.

Definition emit_all (r : Ring) (l : list emission) : Ring := foldl (λ r x, Emit x.1 x.2 r) r l.

(** The events as they are stored, numbered from [n + 1]. *)
Fixpoint numbered (n : Z) (l : list emission) : list Event :=
  match l with
  | [] => []
  | x :: l' => with_seq x.2 (if ev_Time x.2 =? zero_time then x.1 else ev_Time x.2) (succ64 n) :: numbered (succ64 n) l'
  end.

(** The last [n] elements of a list. *)
Definition lastn {A} (n : nat) (l : list A) : list A := drop (length l - n) l.

(** * The ring holds the last events *)

(** A ring and all the events it was given. *)
Definition holds (r : Ring) (h : list Event) : Prop :=
  (0 < r_cap r)%nat ∧ length (r_buf r) = r_cap r ∧ r_size r = Nat.min (length h) (r_cap r) ∧
  r_next r = (if (length h <? r_cap r)%nat then 0 else (length h) mod r_cap r)%nat ∧
  snapshot r = lastn (r_cap r) h.

Lemma lastn_all {A} (n : nat) (l : list A) : (length l ≤ n)%nat → lastn n l = l.
Proof. intros H. unfold lastn. by replace (length l - n)%nat with 0%nat by lia. Qed.

Lemma lastn_snoc {A} (n : nat) (l : list A) (x : A) : (0 < n ≤ length l)%nat → lastn n (l ++ [x]) = drop 1 (lastn n l) ++ [x].
Proof.
  intros H. unfold lastn. rewrite length_app. cbn [length]. rewrite drop_drop, drop_app_le by lia. f_equal. f_equal. lia.
Qed.

Lemma NewRing_holds (c : Z) : holds (NewRing c) [].
Proof.
  unfold holds, NewRing, DefaultCapacity. set (n := Z.to_nat _). assert (0 < n)%nat by (unfold n; case_match; lia).
  cbn [r_cap r_buf r_size r_next length]. rewrite length_replicate. split_and!; [done | done | lia | | done].
  by rewrite (proj2 (Nat.ltb_lt _ _)).
Qed.

Lemma Emit_holds (r : Ring) (h : list Event) (now : Z) (ev : Event) :
  holds r h → holds (Emit now ev r) (h ++ [with_seq ev (if ev_Time ev =? zero_time then now else ev_Time ev) (succ64 (r_seq r))]).
Proof.
  intros (Hc & Hl & Hs & Hn & Hsn). unfold Emit. set (x := with_seq _ _ _). rewrite (proj2 (Nat.eqb_neq _ _)) by lia.
  unfold snapshot in Hsn. destruct (Nat.ltb_spec (length h) (r_cap r)) as [Hh|Hh].
  - rewrite Nat.min_l in Hs by lia. rewrite Hs in *. rewrite lastn_all in Hsn by lia. rewrite (proj2 (Nat.ltb_lt _ _)) in Hsn by done.
    rewrite (proj2 (Nat.ltb_lt _ _)) by done. unfold holds, snapshot. cbn [r_cap r_buf r_size r_next]. rewrite length_insert, length_app. cbn [length].
    assert (Htake : take (S (length h)) (<[length h := x]> (r_buf r)) = h ++ [x]).
    { rewrite (take_S_r _ _ x) by (apply list_lookup_insert_eq; lia). rewrite take_insert_ge by lia. f_equal.
      destruct (Nat.eqb_spec (length h) 0) as [E|E]; [| done]. rewrite E. by destruct h. }
    split_and!; [done | done | lia | | ].
    + destruct (Nat.ltb_spec (length h + 1) (r_cap r)); [done |]. rewrite Hn. replace (length h + 1)%nat with (r_cap r) by lia. by rewrite Nat.Div0.mod_same.
    + destruct (Nat.ltb_spec (S (length h)) (r_cap r)) as [Hlt|Hge].
      * by rewrite Htake, lastn_all by (rewrite length_app; cbn; lia).
      * rewrite Hn, lastn_all by (rewrite length_app; cbn; lia). cbn [Nat.eqb]. rewrite drop_0, take_0, app_nil_r. rewrite <- Htake. symmetry. apply take_ge. rewrite length_insert. lia.
  - rewrite Nat.min_r in Hs by lia. rewrite Hs in *. rewrite Nat.ltb_irrefl in *. rewrite (proj2 (Nat.eqb_neq _ _)) in Hsn by lia.
    assert (Hlt : (r_next r < r_cap r)%nat) by (rewrite Hn; apply Nat.mod_upper_bound; lia).
    unfold holds, snapshot. cbn [r_cap r_buf r_size r_next]. rewrite length_insert, length_app, Nat.ltb_irrefl. cbn [length].
    assert (Hnext : (S (r_next r) mod r_cap r = (length h + 1) mod r_cap r)%nat).
    { rewrite Hn. replace (S (length h mod r_cap r))%nat with (length h mod r_cap r + 1)%nat by lia. by rewrite Nat.Div0.add_mod_idemp_l. }
    rewrite (proj2 (Nat.eqb_neq _ _)) by lia. rewrite (proj2 (Nat.ltb_ge (length h + 1) _)) by lia.
    split_and!; [done | done | lia | done |]. rewrite lastn_snoc, <- Hsn by lia.
    destruct (lookup_lt_is_Some_2 (r_buf r) (r_next r)) as [y Hy]; [lia |]. rewrite (drop_S _ y (r_next r) Hy). cbn [app]. rewrite skipn_cons. rewrite drop_0.
    rewrite insert_take_drop by lia.
    assert (Htl : length (take (r_next r) (r_buf r)) = r_next r) by (rewrite length_take; lia).
    destruct (Nat.eqb_spec (S (r_next r)) (r_cap r)) as [E|E].
    + rewrite E, Nat.Div0.mod_same, drop_0, take_0, app_nil_r. by rewrite drop_ge by lia.
    + rewrite Nat.mod_small by lia. change (x :: drop (S (r_next r)) (r_buf r)) with ([x] ++ drop (S (r_next r)) (r_buf r)). rewrite (assoc_L (++)).
      rewrite drop_app_length', take_app_length' by (rewrite length_app, Htl; cbn; lia). by rewrite (assoc_L (++)).
Qed.

Lemma Emit_seq (r : Ring) (now : Z) (ev : Event) : r_seq (Emit now ev r) = succ64 (r_seq r) ∧ r_cap (Emit now ev r) = r_cap r ∧ r_ttl (Emit now ev r) = r_ttl r.
Proof. unfold Emit. by repeat case_match. Qed.

Lemma emit_all_holds (l : list emission) : ∀ r h, holds r h → holds (emit_all r l) (h ++ numbered (r_seq r) l).
Proof.
  induction l as [|[now ev] l IH]; intros r h H; [by rewrite app_nil_r |]. cbn [emit_all foldl fst snd numbered].
  specialize (IH _ _ (Emit_holds r h now ev H)). destruct (Emit_seq r now ev) as (Es & _ & _). rewrite Es, <- (assoc_L (++)) in IH. exact IH.
Qed.

Lemma emit_all_ring (l : list emission) : ∀ r, r_cap (emit_all r l) = r_cap r ∧ r_ttl (emit_all r l) = r_ttl r.
Proof.
  induction l as [|[now ev] l IH]; intros r; [done |]. change (emit_all r ((now, ev) :: l)) with (emit_all (Emit now ev r) l). destruct (IH (Emit now ev r)) as [-> ->].
  by destruct (Emit_seq r now ev) as (_ & -> & ->).
Qed.

(** * The pages *)

(** The events a query asks for, newest first. *)
Definition asked (now : Z) (q : ListQuery) (ttl : Z) (ev : Event) : bool :=
  negb (ev_Time ev <? now - ttl) && (beq (q_Action q) [] || beq (ev_Action ev) (q_Action q)) && (beq (q_Actor q) [] || beq (ev_Actor ev) (q_Actor q)).

Definition wanted (now : Z) (q : ListQuery) (r : Ring) : list Event := filter (λ ev, asked now q (r_ttl r) ev = true) (reverse (snapshot r)).

Definition from_seq (s : Z) (q : ListQuery) : ListQuery := MkListQuery (q_Action q) (q_Actor q) (q_PageSize q) s.

(** The client: it asks for the first page, then follows the sequence numbers. *)
Fixpoint pages (fuel : nat) (now : Z) (q : ListQuery) (r : Ring) (s : Z) : list Event :=
  match fuel with
  | O => []
  | S fuel =>
    let p := Ring_List now (from_seq s q) r in
    pg_Items p ++ if pg_HasMore p then pages fuel now q r (pg_NextSeq p) else []
  end.

Definition older (s : Z) (ev : Event) : bool := (s =? 0) || (ev_Seq ev <? s).

(** One page: the first of the events asked for that are older than the cursor. *)
Lemma Ring_List_page (now : Z) (q : ListQuery) (r : Ring) (s : Z) :
  let l := filter (λ ev, older s ev = true) (wanted now q r) in
  let n := Z.to_nat (page_limit q) in
  pg_Items (Ring_List now (from_seq s q) r) = take n l ∧ pg_HasMore (Ring_List now (from_seq s q) r) = bool_decide (n < length l)%nat ∧
  ((n < length l)%nat → pg_NextSeq (Ring_List now (from_seq s q) r) = default 0 (ev_Seq <$> last (take n l))).
Proof.
  cbn zeta. unfold Ring_List, filterEvents, paginate. change (page_limit (from_seq s q)) with (page_limit q).
  assert (El : reverse (filter (λ ev, event_matches (from_seq s q) ev = true) (filter (λ ev, (ev_Time ev <? now - r_ttl r) = false) (snapshot r)))
    = filter (λ ev, older s ev = true) (wanted now q r)).
  { unfold wanted. rewrite !filter_reverse. f_equal. rewrite !list_filter_filter. apply list_filter_iff. intros ev. unfold event_matches, asked, older, from_seq.
    cbn [q_Action q_Actor q_AfterSeq]. rewrite !andb_true_iff, !negb_true_iff, !andb_false_iff, !orb_true_iff, !negb_false_iff, Z.leb_gt, Z.ltb_lt. tauto. }
  rewrite El. set (l := filter _ (wanted _ _ _)). assert (Hp : 0 < page_limit q) by (unfold page_limit; destruct (Z.leb_spec (q_PageSize q) 0); lia).
  destruct (Z.leb_spec (Z.of_nat (length l)) (page_limit q)) as [Hle|Hgt]; cbn [pg_Items pg_HasMore pg_NextSeq].
  - split_and!; [by rewrite take_ge by lia | by rewrite bool_decide_false by lia | lia].
  - split_and!; [done | by rewrite bool_decide_true by lia | done].
Qed.

(** ** The numbers of the events *)

Definition newer (x y : Event) : Prop := ev_Seq y < ev_Seq x.

Lemma numbered_seqs (l : list emission) : ∀ n, 0 ≤ n → n + Z.of_nat (length l) < 2^64 →
  StronglySorted (λ x y, ev_Seq x < ev_Seq y) (numbered n l) ∧ Forall (λ x, n < ev_Seq x) (numbered n l).
Proof.
  induction l as [|x l IH]; intros n Hn Hl; [by split; constructor |]. cbn [numbered length] in *.
  assert (Es : succ64 n = n + 1) by (unfold succ64; rewrite Z.mod_small; lia). rewrite Es. destruct (IH (n + 1)) as [Hs Hf]; [lia | lia |].
  split; constructor; cbn [with_seq ev_Seq]; [done | exact Hf | lia |]. eapply Forall_impl; [exact Hf |]. intros y. cbn. lia.
Qed.

Lemma sorted_drop {A} (R : A → A → Prop) (n : nat) (l : list A) : StronglySorted R l → StronglySorted R (drop n l).
Proof. revert n. induction l as [|x l IH]; intros [|n] H; [done .. | |]; [done |]. apply StronglySorted_inv in H as [H _]. by apply IH. Qed.

Lemma sorted_filter {A} (R : A → A → Prop) (P : A → Prop) `{∀ x, Decision (P x)} (l : list A) : StronglySorted R l → StronglySorted R (filter P l).
Proof.
  induction 1 as [|x l Hl IH Hx]; [constructor |]. rewrite filter_cons. case_decide; [| done]. constructor; [done |].
  rewrite Forall_forall in *. intros y [_ Hy]%list_elem_of_filter. by apply Hx.
Qed.

Lemma sorted_reverse {A} (R : A → A → Prop) (l : list A) : StronglySorted R l → StronglySorted (λ x y, R y x) (reverse l).
Proof.
  induction 1 as [|x l Hl IH Hx]; [constructor |]. rewrite reverse_cons. apply StronglySorted_app_2; [| done | by repeat constructor].
  intros y z Hy ->%list_elem_of_singleton. rewrite elem_of_reverse in Hy. rewrite Forall_forall in Hx. by apply Hx.
Qed.

(** Below an element of a list that descends is what follows it. *)
Lemma filter_below (l : list Event) (i : nat) (x : Event) : StronglySorted newer l → l !! i = Some x →
  filter (λ ev, (ev_Seq ev <? ev_Seq x) = true) l = drop (S i) l.
Proof.
  intros Hs. revert i. induction Hs as [|y l Hl IH Hy]; intros i Hi; [done |]. rewrite Forall_forall in Hy. rewrite filter_cons. destruct i as [|i].
  - injection Hi as ->. rewrite decide_False by (rewrite Z.ltb_irrefl; done). cbn [drop]. rewrite drop_0. apply filter_keep.
    apply Forall_forall. intros z Hz. apply Z.ltb_lt. by apply Hy.
  - cbn in Hi. pose proof (Hy x (list_elem_of_lookup_2 _ _ _ Hi)) as Hlt. unfold newer in Hlt. rewrite decide_False by (rewrite Z.ltb_lt; lia). by apply IH.
Qed.

(** Everything the pages list from a cursor that stands after [j] of the events. *)
Lemma pages_from (now : Z) (q : ListQuery) (r : Ring) (fuel : nat) : ∀ (s : Z) (j : nat),
  StronglySorted newer (wanted now q r) → Forall (λ ev, 0 < ev_Seq ev) (wanted now q r) →
  filter (λ ev, older s ev = true) (wanted now q r) = drop j (wanted now q r) →
  (length (wanted now q r) < fuel + j)%nat → pages fuel now q r s = drop j (wanted now q r).
Proof.
  induction fuel as [|fuel IH]; intros s j Hs Hpos Hf Hl; cbn [pages]; [by rewrite drop_ge by lia |].
  destruct (Ring_List_page now q r s) as (Hi & Hm & Hn). rewrite Hf in *. set (W := wanted now q r) in *. set (n := Z.to_nat (page_limit q)) in *.
  assert (Hn0 : (0 < n)%nat) by (unfold n, page_limit; case_match; lia). rewrite Hi, Hm. case_bool_decide as Hlt; [| by rewrite app_nil_r, take_ge by lia].
  rewrite (Hn Hlt). rewrite length_drop in Hlt.
  destruct (lookup_lt_is_Some_2 W (j + n - 1)) as [x Hx]; [lia |].
  assert (Elast : last (take n (drop j W)) = Some x).
  { rewrite last_lookup, length_take, length_drop, Nat.min_l by lia. rewrite lookup_take_lt by lia. rewrite lookup_drop. rewrite <- Hx. f_equal. lia. }
  rewrite Elast. change (default 0 (ev_Seq <$> Some x)) with (ev_Seq x). rewrite (IH _ (j + n)%nat); [| done | done | | lia].
  - rewrite <- (take_drop n (drop j W)) at 2. by rewrite drop_drop.
  - rewrite Forall_forall in Hpos. pose proof (Hpos x (list_elem_of_lookup_2 _ _ _ Hx)) as Hx0. cbn beta in Hx0.
    replace (j + n)%nat with (S (j + n - 1)) by lia. rewrite <- (filter_below W _ x Hs Hx). apply list_filter_iff. intros ev. unfold older.
    by rewrite (proj2 (Z.eqb_neq _ _)) by lia.
Qed.

(** C37.  The audit trail.  After any events, fewer than 2^64 of them, the ring holds the
    last ones, as many as its capacity; a client that asks for a page and follows the
    cursors is given every one of them that is young enough and matches its query, the
    newest first, each exactly once, whatever the page size. *)
Theorem audit_trail (c : Z) (l : list emission) (now : Z) (q : ListQuery) (fuel : nat) :
  let r := emit_all (NewRing c) l in
  Z.of_nat (length l) < 2^64 → (r_cap r < fuel)%nat →
  snapshot r = lastn (r_cap r) (numbered 0 l) ∧
  pages fuel now q r 0 = filter (λ ev, asked now q (r_ttl r) ev = true) (reverse (lastn (r_cap r) (numbered 0 l))).
Proof.
  cbn zeta. intros Hl Hfuel. pose proof (emit_all_holds l _ _ (NewRing_holds c)) as H. cbn [app] in H. change (r_seq (NewRing c)) with 0 in H.
  set (r := emit_all (NewRing c) l) in *. destruct H as (_ & _ & _ & _ & Hsn). split; [done |]. rewrite <- Hsn. change (filter _ (reverse (snapshot r))) with (wanted now q r).
  destruct (numbered_seqs l 0) as [Hs Hpos]; [lia | lia |].
  assert (Hsort : StronglySorted newer (wanted now q r)) by (apply sorted_filter, sorted_reverse; rewrite Hsn; by apply sorted_drop).
  assert (Hp : Forall (λ ev, 0 < ev_Seq ev) (wanted now q r)).
  { rewrite Forall_forall in *. intros ev [_ He]%list_elem_of_filter. apply Hpos. rewrite elem_of_reverse, Hsn in He. unfold lastn in He. rewrite <- (take_drop (length (numbered 0 l) - r_cap r) (numbered 0 l)), elem_of_app. by right. }
  rewrite (pages_from now q r fuel 0 0); [done | done | done | by rewrite filter_keep by by apply Forall_forall | ].
  assert (length (wanted now q r) ≤ length (snapshot r))%nat by (unfold wanted; etrans; [apply length_filter | by rewrite length_reverse]).
  rewrite Hsn in H. unfold lastn in H. rewrite length_drop in H. lia.
Qed.

(** Three events in a ring of two, one of them too old, read one by one. *)
Definition sample_event (t : Z) (who : bytes) : Event := MkEvent t [] who (B "reset") [] (B "success") [] [] 0.

Lemma audit_trail_witness :
  snapshot (emit_all (NewRing 2) [(5, sample_event zero_time (B "a")); (6, sample_event 7 (B "b")); (8, sample_event 9 (B "a"))])
    = lastn 2 (numbered 0 [(5, sample_event zero_time (B "a")); (6, sample_event 7 (B "b")); (8, sample_event 9 (B "a"))]) ∧
  pages 3 10 (MkListQuery [] [] 1 0) (emit_all (NewRing 2) [(5, sample_event zero_time (B "a")); (6, sample_event 7 (B "b")); (8, sample_event 9 (B "a"))]) 0
    = filter (λ ev, asked 10 (MkListQuery [] [] 1 0) DefaultTTL ev = true)
        (reverse (lastn 2 (numbered 0 [(5, sample_event zero_time (B "a")); (6, sample_event 7 (B "b")); (8, sample_event 9 (B "a"))]))).
Proof.
  apply (audit_trail 2 [(5, sample_event zero_time (B "a")); (6, sample_event 7 (B "b")); (8, sample_event 9 (B "a"))] 10 (MkListQuery [] [] 1 0) 3);
    apply (bool_decide_unpack _); vm_compute; exact I.
Defined.
