(* ===== verification/Auth.v ===== *)
(** Tokens, sessions and scopes of the control plane: [src/internal/auth].

    SHA-256 and [url.Parse] are arguments.  The random source is an argument of the
    operations that draw from it, [None] where it fails; the clock too.  The mutex of the
    store makes each method one step.  Go walks a map in an order of its own: the walk
    here is one of the orders, and no statement depends on which. *)

From S2P Require Import Prelude GoStrings GoTime Paging.
Local Open Scope Z_scope.

(** [sha256.Sum256] and what [OriginAllowed] reads of [url.Parse], scheme and host. *)
Class AuthLib : Type := {
  DigestSecret : bytes → bytes;
  url_Parse : bytes → option (bytes * bytes);
}.

Definition EqualDigest (a b : bytes) : bool := beq a b.

(** The errors of the package: a path and a code. *)
Record auth_err : Type := MkAuthErr {
  ae_Path : bytes;
  ae_Code : bytes;
}.

(** * Scopes *)

Abbreviation ScopeSet := (list bytes).

Definition Has (s : ScopeSet) (scope : bytes) : bool := existsb (λ x, beq x scope) s.

(** [Require]: nothing, or the error. *)
Definition Require_scope (scopes : ScopeSet) (required : bytes) : option auth_err :=
  if beq required [] then None
  else if Has scopes required then None
  else Some (MkAuthErr (B "scope") (B "forbidden")).

Record Principal : Type := MkPrincipal {
  pr_Kind : bytes;
  pr_ID : bytes;
  pr_Scopes : ScopeSet;
}.

Definition KindToken : bytes := B "token".
Definition KindSession : bytes := B "session".

Section auth.
Context {AL : AuthLib}.

(** * Tokens *)

Record Token : Type := MkToken {
  tk_ID : bytes;
  tk_Scopes : list bytes;
  tk_Secret : bytes;
}.

Record storedToken : Type := MkStored {
  st_id : bytes;
  st_scopes : ScopeSet;
  st_digest : bytes;
}.

Abbreviation Registry := (list storedToken).

(** The loop of [NewRegistry] over the tokens from the [i]th. *)
Fixpoint new_registry (i : nat) (seenID seenDigest : gset bytes) (tokens : list Token) : res auth_err Registry :=
  match tokens with
  | [] => Ok []
  | t :: tokens' =>
    let path field := B "tokens[" ++ itoa (Z.of_nat i) ++ B "]." ++ field in
    let d := DigestSecret (tk_Secret t) in
    if beq (tk_ID t) [] then Err (MkAuthErr (path (B "id")) (B "required"))
    else if bool_decide (tk_ID t ∈ seenID) then Err (MkAuthErr (path (B "id")) (B "duplicate"))
    else if beq (tk_Secret t) [] then Err (MkAuthErr (path (B "secret")) (B "secret_empty"))
    else if bool_decide (d ∈ seenDigest) then Err (MkAuthErr (path (B "secret")) (B "duplicate_value"))
    else
      rest ← new_registry (S i) ({[tk_ID t]} ∪ seenID) ({[d]} ∪ seenDigest) tokens';
      Ok (MkStored (tk_ID t) (tk_Scopes t) d :: rest)
  end.

Definition NewRegistry (tokens : list Token) : res auth_err Registry := new_registry 0 ∅ ∅ tokens.

(** The loop of [Registry.Lookup]: [found] and [idx]. *)
Definition match_token (digest : bytes) (st : Z * Z) (it : nat * storedToken) : Z * Z :=
  let '(found, idx) := st in
  let '(i, t) := it in
  let eq := if EqualDigest (st_digest t) digest then 1 else 0 in
  (Z.lor found eq, idx * (1 - eq) + Z.of_nat i * eq).

Definition Registry_Lookup (r : Registry) (presented : bytes) : option Principal :=
  let '(found, idx) := foldl (match_token (DigestSecret presented)) (0, 0) (imap pair r) in
  if negb (found =? 1) then None
  else t ← r !! Z.to_nat idx; Some (MkPrincipal KindToken (st_id t) (st_scopes t)).

(** * Headers *)

Context {U : Unicode}.

(** [ParseBearer]: the secret, whether there is one, whether the header is malformed. *)
Definition ParseBearer (header : bytes) : bytes * bool * bool :=
  if beq header [] then ([], false, false)
  else
    let '(scheme, rest, found) := cut_byte x20 header in
    if negb found || negb (equal_fold scheme (B "Bearer")) then ([], false, true)
    else
      let secret := trim_space rest in
      if beq secret [] || existsb (λ b, bool_decide (b ∈ [x20; x09])) secret then ([], false, true)
      else (secret, true, false).

(** What the program reads of a request. *)
Record Request : Type := MkRequest {
  rq_Method : bytes;
  rq_Path : bytes;
  rq_Host : bytes;
  rq_TLS : bool;
  rq_Authorization : bytes;
  rq_Origin : bytes;
  rq_CSRF : bytes;
  rq_Cookie : option bytes;
}.

Definition sameOrigin (r : Request) (scheme host : bytes) : bool :=
  equal_fold scheme (if rq_TLS r then B "https" else B "http") && equal_fold host (rq_Host r).

Definition slash : byte := x2f.

Definition OriginAllowed (r : Request) (origin : bytes) (allowed : list bytes) : bool :=
  let origin := trim_space origin in
  if beq origin [] || equal_fold origin (B "null") then false
  else
    match url_Parse origin with
    | None => false
    | Some (scheme, host) =>
      if beq scheme [] || beq host [] then false
      else if sameOrigin r scheme host then true
      else existsb (λ a, negb (beq a (B "*")) && equal_fold (trim_right [slash] a) (trim_right [slash] origin)) allowed
    end.

Definition RequestOrigin (r : Request) : bytes := trim_space (rq_Origin r).

Definition UnsafeMethod (m : bytes) : bool := bool_decide (m ∈ [B "POST"; B "PUT"; B "PATCH"; B "DELETE"]).

(** * Sessions *)

Record SessionConfig : Type := MkSessionConfig {
  Idle : Z;
  Absolute : Z;
  Max : Z;
}.

Definition minute : Z := 60 * nano.

Record Session : Type := MkSession {
  ss_ID : bytes;
  ss_TokenID : bytes;
  ss_Scopes : ScopeSet;
  ss_CreatedAt : Z;
  ss_LastSeen : Z;
}.

Record record : Type := MkRecord {
  rec_public : Session;
  rec_csrf : bytes;
  rec_cookie : bytes;
  rec_createdAt : Z;
  rec_lastSeen : Z;
}.

Record Store : Type := MkStore {
  s_sessions : gmap bytes record;
  s_cfg : SessionConfig;
}.

Definition NewStore (cfg : SessionConfig) : Store :=
  MkStore ∅ (MkSessionConfig
    (if Idle cfg <=? 0 then 30 * minute else Idle cfg)
    (if Absolute cfg <=? 0 then 8 * 60 * minute else Absolute cfg)
    (if Max cfg <=? 0 then 64 else Max cfg)).

Definition with_sessions (m : gmap bytes record) (s : Store) : Store := MkStore m (s_cfg s).

Definition expired (s : Store) (rec : record) (now : Z) : bool :=
  if Idle (s_cfg s) <? Sub now (rec_lastSeen rec) then true
  else Absolute (s_cfg s) <? Sub now (rec_createdAt rec).

Definition expireLocked (now : Z) (s : Store) : Store :=
  with_sessions (filter (λ p, expired s p.2 now = false) (s_sessions s)) s.

(** The walk of [evictOldestLocked]. *)
Definition oldest (best : option (bytes * Z)) (p : bytes * record) : option (bytes * Z) :=
  match best with
  | None => Some (p.1, rec_lastSeen p.2)
  | Some (_, t) => if rec_lastSeen p.2 <? t then Some (p.1, rec_lastSeen p.2) else best
  end.

Definition evictOldestLocked (s : Store) : Store :=
  match foldl oldest None (map_to_list (s_sessions s)) with
  | Some (k, _) => if beq k [] then s else with_sessions (delete k (s_sessions s)) s
  | None => s
  end.

Definition hex_digit (v : Z) : byte := zb (if v <? 10 then 48 + v else 87 + v).

(** [hex.EncodeToString]. *)
Definition hex_encode (s : bytes) : bytes := concat ((λ b, [hex_digit (bz b / 16); hex_digit (bz b mod 16)]) <$> s).

Definition randomHex (draw : option bytes) : res auth_err bytes :=
  match draw with
  | None => Err (MkAuthErr [] (B "auth"))
  | Some b => Ok (hex_encode b)
  end.

(** The three draws of [Create]. *)
Record draws : Type := MkDraws {
  dr_cookie : option bytes;
  dr_csrf : option bytes;
  dr_id : option bytes;
}.

Definition Create (now : Z) (dr : draws) (tokenID : bytes) (scopes : ScopeSet) (s : Store) : res auth_err (bytes * bytes * Session) * Store :=
  match (cookie ← randomHex (dr_cookie dr); csrf ← randomHex (dr_csrf dr); id ← randomHex (dr_id dr); Ok (cookie, csrf, id)) with
  | Err e => (Err e, s)
  | Ok (cookie, csrf, id) =>
    let public := MkSession id tokenID scopes now now in
    let s := expireLocked now s in
    let s := if Max (s_cfg s) <=? Z.of_nat (size (s_sessions s)) then evictOldestLocked s else s in
    (Ok (cookie, csrf, public), with_sessions (<[cookie := MkRecord public csrf cookie now now]> (s_sessions s)) s)
  end.

Definition Delete (cookie : bytes) (s : Store) : Store :=
  if beq cookie [] then s else with_sessions (delete cookie (s_sessions s)) s.

Definition Rotate (now : Z) (dr : draws) (old tokenID : bytes) (scopes : ScopeSet) (s : Store) : res auth_err (bytes * bytes * Session) * Store :=
  Create now dr tokenID scopes (if negb (beq old []) then Delete old s else s).

Definition touched (now : Z) (rec : record) : record :=
  let p := rec_public rec in
  MkRecord (MkSession (ss_ID p) (ss_TokenID p) (ss_Scopes p) (ss_CreatedAt p) now) (rec_csrf rec) (rec_cookie rec) (rec_createdAt rec) now.

Definition Store_Lookup (now : Z) (cookie : bytes) (s : Store) : option (Session * bytes) * Store :=
  if beq cookie [] then (None, s)
  else
    match s_sessions s !! cookie with
    | None => (None, s)
    | Some rec =>
      if expired s rec now then (None, with_sessions (delete cookie (s_sessions s)) s)
      else (Some (rec_public (touched now rec), rec_csrf rec), with_sessions (<[cookie := touched now rec]> (s_sessions s)) s)
    end.

Definition ValidCSRF (cookie presented : bytes) (s : Store) : bool :=
  if beq cookie [] || beq presented [] then false
  else
    match s_sessions s !! cookie with
    | None => false
    | Some rec => EqualDigest (DigestSecret (rec_csrf rec)) (DigestSecret presented)
    end.

Definition Count (now : Z) (s : Store) : nat * Store :=
  let s := expireLocked now s in (size (s_sessions s), s).

Definition ExpiresAt (s : Store) (sess : Session) : Z :=
  let idle := ss_LastSeen sess + Idle (s_cfg s) in
  let abs := ss_CreatedAt sess + Absolute (s_cfg s) in
  if idle <? abs then idle else abs.
End auth.
