(* ===== verification/HttpAuth.v ===== *)
(** Who a request of the control plane acts for: the middleware of
    [src/internal/api/middleware.go] and the session handlers of
    [src/internal/api/session.go].

    A request takes several steps under the store's mutex; between two of them the other
    requests change the store, by a function that is an argument here.  Each step reads
    the clock by itself. *)

From stdpp Require Import fin_sets fin_maps.
From S2P Require Import Prelude GoStrings Paging GoTime Auth.
Local Open Scope Z_scope.

Section http.
Context {AL : AuthLib} {U : Unicode}.

(** What the middleware reads of [Server]; the store is the state, [None] where none is
    configured. *)
Record ServerAuth : Type := MkServerAuth {
  srv_registry : option (list storedToken);
  srv_allowedOrigins : list bytes;
}.

Context (srv : ServerAuth).

Definition lookupToken (secret : bytes) : option Principal :=
  match srv_registry srv with
  | None => None
  | Some r => Registry_Lookup r secret
  end.

Definition session_principal (sess : Session) : Principal := MkPrincipal KindSession (ss_ID sess) (ss_Scopes sess).

(** [authenticate]: the principal put in the context. *)
Definition authenticate (now : Z) (r : Request) (st : option Store) : option Principal * option Store :=
  let '(secret, ok, malformed) := ParseBearer (rq_Authorization r) in
  if malformed : bool then (None, st)
  else if ok : bool then (lookupToken secret, st)
  else
    match rq_Cookie r, st with
    | Some c, Some s =>
      if beq c [] then (None, st)
      else let '(found, s) := Store_Lookup now c s in ((λ x, session_principal x.1) <$> found, Some s)
    | _, _ => (None, st)
    end.

Definition hasSessionCookie (now : Z) (r : Request) (st : option Store) : bool * option Store :=
  match rq_Cookie r, st with
  | Some c, Some s =>
    if beq c [] then (false, st)
    else let '(found, s) := Store_Lookup now c s in (bool_decide (is_Some found), Some s)
  | _, _ => (false, st)
  end.

Definition needsCSRF (r : Request) : bool :=
  if negb (UnsafeMethod (rq_Method r)) then false
  else negb (beq (rq_Method r) (B "POST") && beq (rq_Path r) (B "/api/v1/session")).

(** What [requireCookieCSRF] checks of a request whose cookie names a session. *)
Definition csrf_check (r : Request) (st : option Store) : option auth_err :=
  if negb (OriginAllowed r (RequestOrigin r) (srv_allowedOrigins srv)) then Some (MkAuthErr (B "origin") (B "forbidden"))
  else
    match rq_Cookie r with
    | None => Some (MkAuthErr [] (B "auth"))
    | Some c =>
      match st with
      | Some s => if ValidCSRF c (rq_CSRF r) s then None else Some (MkAuthErr (B "csrf") (B "forbidden"))
      | None => Some (MkAuthErr (B "csrf") (B "forbidden"))
      end
    end.

(** [requireCookieCSRF], with what others do between its two steps. *)
Definition requireCookieCSRF (now : Z) (others : option Store → option Store) (r : Request) (st : option Store) : option auth_err * option Store :=
  let '(has, st) := hasSessionCookie now r st in
  if negb has then (None, st)
  else let st := others st in (csrf_check r st, st).

(** [authMiddleware]: the principal the handler is called with, or the refusal. *)
Definition authMiddleware (now1 now2 : Z) (others1 others2 : option Store → option Store) (r : Request) (st : option Store) :
    res auth_err (option Principal) * option Store :=
  let '(p, st) := authenticate now1 r st in
  if needsCSRF r then
    let '(e, st) := requireCookieCSRF now2 others2 r (others1 st) in
    (match e with Some e => Err e | None => Ok p end, st)
  else (Ok p, st).

(** * The session handlers *)

Inductive session_reply : Type :=
  | Unauthorized
  | Unavailable
  | Failed (e : auth_err)
  | Created (cookie csrf : bytes)
  | View (sess : Session) (expiresAt : Z)
  | Gone.

(** [handleCreateSession], the body decoded. *)
Definition handleCreateSession (now : Z) (dr : draws) (token : bytes) (r : Request) (st : option Store) : session_reply * option Store :=
  if beq (trim_space token) [] then (Unauthorized, st)
  else
    match lookupToken token with
    | None => (Unauthorized, st)
    | Some p =>
      match st with
      | None => (Unavailable, st)
      | Some s =>
        match Rotate now dr (default [] (rq_Cookie r)) (pr_ID p) (pr_Scopes p) s with
        | (Err e, s) => (Failed e, Some s)
        | (Ok (cookie, csrf, _), s) => (Created cookie csrf, Some s)
        end
      end
    end.

Definition handleGetSession (now : Z) (r : Request) (st : option Store) : session_reply * option Store :=
  match rq_Cookie r, st with
  | Some c, Some s =>
    match Store_Lookup now c s with
    | (None, s) => (Unauthorized, Some s)
    | (Some (sess, _), s) => (View sess (ExpiresAt s sess), Some s)
    end
  | _, _ => (Unauthorized, st)
  end.

Definition handleDeleteSession (now : Z) (r : Request) (st : option Store) : session_reply * option Store :=
  match rq_Cookie r, st with
  | Some c, Some s =>
    match Store_Lookup now c s with
    | (None, s) => (Unauthorized, Some s)
    | (Some _, s) => (Gone, Some (Delete c s))
    end
  | _, _ => (Unauthorized, st)
  end.
End http.

(** Tokens and sessions: a token is found by its secret, the session table is bounded and
    holds nothing that was not issued, and a cookie alone changes nothing. *)

(** * The registry *)

Section registry.
Context {AL : AuthLib}.

Definition stored (t : Token) : storedToken := MkStored (tk_ID t) (tk_Scopes t) (DigestSecret (tk_Secret t)).

Lemma new_registry_ok (ts : list Token) : ∀ i ids ds r, new_registry i ids ds ts = Ok r →
  r = stored <$> ts ∧ NoDup (st_digest <$> r) ∧ Forall (λ t, st_digest t ∉ ds) r ∧ NoDup (st_id <$> r) ∧ Forall (λ t, st_id t ∉ ids) r.
Proof.
  induction ts as [|t ts IH]; intros i ids ds r; cbn [new_registry]; [intros [= <-]; repeat constructor |].
  repeat (case_match; [done |]). repeat match goal with H : bool_decide _ = false |- _ => apply bool_decide_eq_false in H end.
  intros H3. apply bind_ok in H3 as (rest & Hr & [= <-]). destruct (IH _ _ _ _ Hr) as (-> & Hd & Hds & Hi & His).
  assert (Hsub : ∀ (f : storedToken → bytes) (x : bytes) (s : gset bytes) (l : list storedToken), Forall (λ t, f t ∉ {[x]} ∪ s) l → (x ∉ f <$> l) ∧ Forall (λ t, f t ∉ s) l).
  { clear. intros f x s l Hl. rewrite Forall_forall in Hl. split.
    - intros (y & -> & Hy)%list_elem_of_fmap. specialize (Hl y Hy). set_solver.
    - apply Forall_forall. intros y Hy. specialize (Hl y Hy). set_solver. }
  destruct (Hsub _ _ _ _ Hds) as [Hd1 Hd2], (Hsub _ _ _ _ His) as [Hi1 Hi2].
  split_and!; [done | by constructor | by constructor | by constructor | by constructor].
Qed.

(** The walk of [Lookup] over digests that differ. *)
Lemma visit_spec (d : bytes) (r : list storedToken) : ∀ k found idx, NoDup (st_digest <$> r) → (found = 0 ∨ found = 1) →
  foldl (match_token d) (found, idx) (imap (λ j t, ((k + j)%nat, t)) r) =
  match list_find (λ t, st_digest t = d) r with
  | Some (j, _) => (1, Z.of_nat (k + j))
  | None => (found, idx)
  end.
Proof.
  induction r as [|t r IH]; intros k found idx Hn Hf; [done |]. cbn [fmap list_fmap] in Hn. apply NoDup_cons in Hn as [Ht Hn].
  cbn [imap foldl match_token list_find]. rewrite (imap_ext _ (λ j u, ((S k + j)%nat, u))) by (intros; cbn; f_equal; lia). rewrite Nat.add_0_r.
  unfold EqualDigest. destruct (decide (st_digest t = d)) as [E|E].
  - rewrite (proj2 (beq_true _ _) E). rewrite IH by (done || (right; by destruct Hf as [->| ->])).
    assert (En : list_find (λ u, st_digest u = d) r = None).
    { apply list_find_None, Forall_forall. intros u Hu Eu. apply Ht. rewrite E, <- Eu. by apply list_elem_of_fmap_2. }
    rewrite En. f_equal; [by destruct Hf as [->| ->] | lia].
  - rewrite (proj2 (beq_false _ _) E). rewrite Z.lor_0_r. rewrite IH by done. destruct (list_find _ r) as [[j u]|]; cbn [fmap option_fmap option_map]; [change (prod_map S id (j, u)) with (S j, u); by rewrite Nat.add_succ_comm | f_equal; lia].
Qed.

(** A presented secret stands for the one token whose secret has its digest. *)
Theorem Registry_Lookup_spec (ts : list Token) (r : list storedToken) (presented : bytes) (p : Principal) :
  NewRegistry ts = Ok r →
  Registry_Lookup r presented = Some p ↔
  ∃ t, t ∈ ts ∧ DigestSecret (tk_Secret t) = DigestSecret presented ∧ p = MkPrincipal KindToken (tk_ID t) (tk_Scopes t).
Proof.
  intros H. destruct (new_registry_ok _ _ _ _ _ H) as (-> & Hd & _). unfold Registry_Lookup. set (r := stored <$> ts) in *.
  rewrite (imap_ext pair (λ j t, ((0 + j)%nat, t))) by done. rewrite visit_spec by (done || by left).
  destruct (list_find (λ t, st_digest t = DigestSecret presented) r) as [[j u]|] eqn:Ef.
  - apply list_find_Some in Ef as (Hj & Eu & _). change (negb (1 =? 1)) with false. cbv iota. rewrite Nat2Z.id. cbn [Nat.add]. rewrite Hj. cbn [mbind option_bind].
    unfold r in Hj. apply list_lookup_fmap_Some in Hj as (t & -> & Ht). split.
    + intros [= <-]. exists t. split_and!; [by eapply list_elem_of_lookup_2 | done | done].
    + intros (t' & Ht' & Ed & ->). apply list_elem_of_lookup in Ht' as [j' Ht']. f_equal.
      assert (Ej : j' = j).
      { apply (NoDup_lookup _ j' j (DigestSecret presented) Hd); unfold r; rewrite !list_lookup_fmap, ?Ht', ?Ht; cbn in *; congruence. }
      subst j'. rewrite Ht in Ht'. by injection Ht' as ->.
  - change (negb (0 =? 1)) with true. cbv iota. split; [done |]. intros (t & Ht & Ed & _). apply list_find_None in Ef. rewrite Forall_forall in Ef.
    exfalso. apply (Ef (stored t)); [by apply list_elem_of_fmap_2 | done].
Qed.
End registry.

(** * The session table *)

Section sessions.
Context {AL : AuthLib}.

(** What is asked of a store; [Rotate] is a deletion and a creation. *)
Inductive op : Type :=
  | OCreate (now : Z) (cookie csrf id : bytes) (tokenID : bytes) (scopes : list bytes)
  | OLookup (now : Z) (cookie : bytes)
  | ODelete (cookie : bytes)
  | OCount (now : Z).

(** What happened, as far as the owner of a cookie can tell. *)
Inductive event : Type :=
  | EvCreate (now : Z) (tokenID : bytes) (scopes : list bytes) (cookie csrf id : bytes)
  | EvUse (now : Z) (cookie : bytes)
  | EvDelete (cookie : bytes).

Definition drawn (cookie csrf id : bytes) : draws := MkDraws (Some cookie) (Some csrf) (Some id).

(** One operation, the newest event first. *)
Definition step (sh : Store * list event) (o : op) : Store * list event :=
  let '(s, h) := sh in
  match o with
  | OCreate now cookie csrf id tok scopes =>
    ((Create now (drawn cookie csrf id) tok scopes s).2, EvCreate now tok scopes (hex_encode cookie) (hex_encode csrf) (hex_encode id) :: h)
  | OLookup now c => let '(x, s) := Store_Lookup now c s in (s, match x with Some _ => EvUse now c :: h | None => h end)
  | ODelete c => (Delete c s, EvDelete c :: h)
  | OCount now => ((Count now s).2, h)
  end.

Definition run (cfg : SessionConfig) (ops : list op) : Store * list event := foldl step (NewStore cfg, []) ops.

(** The session a cookie was issued for, if it was and nobody deleted it since. *)
Fixpoint issued (h : list event) (c : bytes) : option record :=
  match h with
  | [] => None
  | EvCreate now tok scopes c' csrf id :: h' => if beq c' c then Some (MkRecord (MkSession id tok scopes now now) csrf c' now now) else issued h' c
  | EvUse now c' :: h' => if beq c' c then touched now <$> issued h' c else issued h' c
  | EvDelete c' :: h' => if beq c' c then None else issued h' c
  end.

Definition bounded (s : Store) : Prop := Z.of_nat (size (s_sessions s)) ≤ Max (s_cfg s) ∧ 0 < Max (s_cfg s) ∧ s_sessions s !! [] = None.

Definition explained (s : Store) (h : list event) : Prop := ∀ c rec, s_sessions s !! c = Some rec → issued h c = Some rec.

Definition draws_ok (o : op) : Prop := match o with OCreate _ cookie _ _ _ _ => cookie ≠ [] | _ => True end.

Lemma expireLocked_sub (now : Z) (s : Store) : s_sessions (expireLocked now s) ⊆ s_sessions s.
Proof. apply map_filter_subseteq. Qed.

Lemma sub_bounded (s s' : Store) : s_cfg s' = s_cfg s → s_sessions s' ⊆ s_sessions s → bounded s → bounded s'.
Proof.
  intros Ec Hsub (Hs & Hm & H0). unfold bounded. rewrite Ec. split_and!; [| done |].
  - pose proof (map_subseteq_size _ _ Hsub). lia.
  - destruct (s_sessions s' !! []) as [x|] eqn:E; [| done]. by rewrite (lookup_weaken _ _ _ _ E Hsub) in H0.
Qed.

Lemma oldest_some (l : list (bytes * record)) : ∀ best, (best ≠ None ∨ l ≠ []) →
  ∃ k t, foldl oldest best l = Some (k, t) ∧ (best = Some (k, t) ∨ ∃ rec, (k, rec) ∈ l ∧ t = rec_lastSeen rec).
Proof.
  induction l as [|p l IH]; intros best Hb; cbn [foldl]; [destruct best as [[k t]|]; [exists k, t; split; [done | by left] | naive_solver] |].
  destruct (IH (oldest best p)) as (k & t & E & Hkt).
  { left. unfold oldest. destruct best as [[k t]|]; [by case_match | done]. }
  exists k, t. split; [done |]. assert (Hp : oldest best p = best ∨ oldest best p = Some (p.1, rec_lastSeen p.2)) by (unfold oldest; destruct best as [[? ?]|]; [case_match |]; tauto).
  destruct Hkt as [E'|(rec & Hin & ->)]; [| right; exists rec; split; [by right | done]].
  destruct Hp as [Hp|Hp]; rewrite Hp in E'; [by left |]. injection E' as <- <-. right. exists p.2. split; [destruct p; by left | done].
Qed.

(** A full table loses one session. *)
Lemma evict_spec (s : Store) : s_sessions s !! [] = None → s_sessions s ≠ ∅ →
  ∃ k, is_Some (s_sessions s !! k) ∧ evictOldestLocked s = with_sessions (delete k (s_sessions s)) s.
Proof.
  intros H0 Hne. unfold evictOldestLocked. destruct (oldest_some (map_to_list (s_sessions s)) None) as (k & t & E & Hkt).
  { right. by rewrite map_to_list_empty_iff. }
  destruct Hkt as [?|(rec & Hin%elem_of_map_to_list & ->)]; [done |]. rewrite E. rewrite (proj2 (beq_false k [])) by (intros ->; congruence). by exists k.
Qed.

Lemma hex_encode_nonempty (s : bytes) : s ≠ [] → hex_encode s ≠ [].
Proof. by destruct s. Qed.

Lemma make_room (s : Store) : bounded s →
  let s' := if Max (s_cfg s) <=? Z.of_nat (size (s_sessions s)) then evictOldestLocked s else s in
  s_cfg s' = s_cfg s ∧ s_sessions s' ⊆ s_sessions s ∧ Z.of_nat (size (s_sessions s')) < Max (s_cfg s).
Proof.
  intros (Hs & Hm & H0). destruct (Z.leb_spec (Max (s_cfg s)) (Z.of_nat (size (s_sessions s)))) as [Hge|Hlt]; [| done].
  destruct (evict_spec s H0) as (k & Hk & ->); [intros E; rewrite E, map_size_empty in Hge; lia |]. cbn [with_sessions s_cfg s_sessions].
  split_and!; [done | apply delete_subseteq |]. destruct Hk as [x Hk]. rewrite map_size_delete, Hk.
  assert (size (s_sessions s) ≠ 0%nat) by (intros E%map_size_empty_inv; rewrite E in Hk; by apply lookup_empty_Some in Hk). lia.
Qed.

Lemma Create_inv (now : Z) (cookie csrf id tok : bytes) (scopes : list bytes) (s : Store) (h : list event) :
  cookie ≠ [] → bounded s → explained s h →
  let x := Create now (drawn cookie csrf id) tok scopes s in
  bounded x.2 ∧ explained x.2 (EvCreate now tok scopes (hex_encode cookie) (hex_encode csrf) (hex_encode id) :: h) ∧ s_cfg x.2 = s_cfg s.
Proof.
  intros Hc Hb He. cbn zeta. unfold Create, drawn, randomHex. cbn [dr_cookie dr_csrf dr_id mbind res_bind snd].
  assert (Hb1 : bounded (expireLocked now s)) by (eapply sub_bounded; [| apply expireLocked_sub | done]; done).
  pose proof (make_room _ Hb1) as (Ec & Hsub & Hsz). cbn zeta in *. set (s2 := if Max _ <=? _ then _ else _) in *.
  assert (Hsub2 : s_sessions s2 ⊆ s_sessions s) by (etrans; [exact Hsub | apply expireLocked_sub]).
  change (s_cfg (expireLocked now s)) with (s_cfg s) in *.
  split_and!; [| | cbn [with_sessions s_cfg]; by rewrite Ec].
  - unfold bounded. cbn [with_sessions s_cfg s_sessions]. rewrite Ec. split_and!; [| apply Hb |].
    + rewrite map_size_insert. destruct (s_sessions s2 !! hex_encode cookie); cbn; lia.
    + rewrite lookup_insert_ne by by apply hex_encode_nonempty. destruct (s_sessions s2 !! []) as [x|] eqn:E; [| done].
      pose proof (lookup_weaken _ _ _ _ E Hsub2) as E'. destruct Hb as (_ & _ & H0). congruence.
  - intros c rec. cbn [with_sessions s_sessions issued]. destruct (beq (hex_encode cookie) c) eqn:E.
    + apply beq_true in E. subst c. rewrite lookup_insert_eq. by intros [= <-].
    + apply beq_false in E. rewrite lookup_insert_ne by done. intros Hr. apply He. by eapply lookup_weaken.
Qed.

Lemma Lookup_cases (now : Z) (c : bytes) (s : Store) :
  Store_Lookup now c s = (None, s) ∨
  (∃ rec, s_sessions s !! c = Some rec ∧ expired s rec now = true ∧ Store_Lookup now c s = (None, with_sessions (delete c (s_sessions s)) s)) ∨
  (∃ rec, c ≠ [] ∧ s_sessions s !! c = Some rec ∧ expired s rec now = false ∧
     Store_Lookup now c s = (Some (rec_public (touched now rec), rec_csrf rec), with_sessions (<[c := touched now rec]> (s_sessions s)) s)).
Proof.
  unfold Store_Lookup. destruct (beq c []) eqn:Ec; [by left |]. apply beq_false in Ec. destruct (s_sessions s !! c) as [rec|] eqn:E; [| by left].
  destruct (expired s rec now) eqn:Ee; [right; left; by exists rec | right; right; by exists rec].
Qed.

Lemma step_inv (sh : Store * list event) (o : op) : draws_ok o → bounded sh.1 ∧ explained sh.1 sh.2 →
  bounded (step sh o).1 ∧ explained (step sh o).1 (step sh o).2 ∧ s_cfg (step sh o).1 = s_cfg sh.1.
Proof.
  destruct sh as [s h]. cbn [fst snd]. intros Hd [Hb He]. destruct o as [now cookie csrf id tok scopes|now c|c|now]; cbn [step fst snd].
  - by apply Create_inv.
  - destruct (Lookup_cases now c s) as [->|[(rec & _ & _ & ->)|(rec & Hc & Hr & _ & ->)]]; cbn [fst snd]; [done | |].
    + split_and!; [eapply sub_bounded; [| | exact Hb]; [done | apply delete_subseteq] | | done]. intros c' rec'. cbn [with_sessions s_sessions].
      intros [_ H]%lookup_delete_Some. by apply He.
    + split_and!; [| | done].
      * destruct Hb as (Hs & Hm & H0). unfold bounded. cbn [with_sessions s_cfg s_sessions]. rewrite map_size_insert, Hr, lookup_insert_ne by done. done.
      * intros c' rec'. cbn [with_sessions s_sessions issued]. destruct (beq c c') eqn:E.
        -- apply beq_true in E. subst c'. rewrite lookup_insert_eq. intros [= <-]. by rewrite (He _ _ Hr).
        -- apply beq_false in E. rewrite lookup_insert_ne by done. apply He.
  - unfold Delete. destruct (beq c []) eqn:Ec.
    + apply beq_true in Ec. subst c. split_and!; [done | | done]. intros c' rec' Hr. cbn [issued]. rewrite (proj2 (beq_false [] c')); [by apply He |].
      intros <-. destruct Hb as (_ & _ & H0). congruence.
    + split_and!; [eapply sub_bounded; [| | exact Hb]; [done | apply delete_subseteq] | | done]. intros c' rec'. cbn [with_sessions s_sessions issued].
      intros [Hne H]%lookup_delete_Some. rewrite (proj2 (beq_false c c')) by done. by apply He.
  - unfold Count. cbn [snd]. split_and!; [eapply sub_bounded; [| apply expireLocked_sub | exact Hb]; done | | done].
    intros c rec Hr. apply He. eapply lookup_weaken; [exact Hr | apply expireLocked_sub].
Qed.

Lemma run_inv (cfg : SessionConfig) (ops : list op) : Forall draws_ok ops →
  bounded (run cfg ops).1 ∧ explained (run cfg ops).1 (run cfg ops).2 ∧ s_cfg (run cfg ops).1 = s_cfg (NewStore cfg).
Proof.
  intros Hd. unfold run.
  assert (Hgen : ∀ sh, bounded sh.1 ∧ explained sh.1 sh.2 →
    bounded (foldl step sh ops).1 ∧ explained (foldl step sh ops).1 (foldl step sh ops).2 ∧ s_cfg (foldl step sh ops).1 = s_cfg sh.1).
  { induction Hd as [|o ops Ho _ IH]; intros sh H; [by destruct H |]. cbn [foldl]. destruct (step_inv sh o Ho H) as (Hb & He & Ec).
    destruct (IH (step sh o)) as (? & ? & Ec'); [done |]. by rewrite Ec'. }
  apply (Hgen (NewStore cfg, [])). split; [| intros c rec H; change (s_sessions (NewStore cfg, []).1) with (∅ : gmap bytes record) in H; by apply lookup_empty_Some in H].
  unfold bounded, NewStore. cbn [fst s_sessions s_cfg Max]. rewrite map_size_empty. split_and!; [| | by rewrite lookup_empty]; destruct (Z.leb_spec (Max cfg) 0); lia.
Qed.

(** C36.  The sessions of the console.  After any creations, uses, deletions and counts,
    the table holds no more sessions than its bound, whichever order it is walked in when
    it is full; and a cookie that is accepted was issued by the creation that names its
    token, scopes and CSRF secret, has not been deleted since, was issued no longer ago
    than the absolute limit, and was last used no longer ago than the idle limit. *)
Theorem accepted_sessions (cfg : SessionConfig) (ops : list op) (now : Z) (c : bytes) (sess : Session) (csrf : bytes) :
  Forall draws_ok ops →
  Z.of_nat (size (s_sessions (run cfg ops).1)) ≤ Max (s_cfg (NewStore cfg)) ∧
  ((Store_Lookup now c (run cfg ops).1).1 = Some (sess, csrf) →
   ∃ rec, issued (run cfg ops).2 c = Some rec ∧ sess = rec_public (touched now rec) ∧ csrf = rec_csrf rec ∧
     Sub now (rec_createdAt rec) ≤ Absolute (s_cfg (NewStore cfg)) ∧ Sub now (rec_lastSeen rec) ≤ Idle (s_cfg (NewStore cfg))).
Proof.
  intros Hd. destruct (run_inv cfg ops Hd) as (Hb & He & Ec). set (s := (run cfg ops).1) in *. set (h := (run cfg ops).2) in *.
  destruct Hb as (Hs & _ & _). rewrite Ec in Hs. split; [done |].
  destruct (Lookup_cases now c s) as [->|[(rec & _ & _ & ->)|(rec & _ & Hr & Hx & ->)]]; cbn [fst]; [done | done |]. intros [= <- <-].
  exists rec. unfold expired in Hx. rewrite Ec in Hx. destruct (Z.ltb_spec (Idle (s_cfg (NewStore cfg))) (Sub now (rec_lastSeen rec))) as [|Hi]; [done |].
  apply Z.ltb_ge in Hx. split_and!; [by apply He | done | done | done | done].
Qed.
End sessions.

(** Two sessions where one fits: the first is gone, the second is used. *)
Definition toy_auth : AuthLib := {| DigestSecret := λ s, s; url_Parse := λ s, Some (B "http", s) |}.

Definition few : SessionConfig := MkSessionConfig 10 100 1.

Definition two_logins : list op :=
  [OCreate 1 (B "a") (B "x") (B "1") (B "admin") [B "read"]; OCreate 2 (B "b") (B "y") (B "2") (B "ops") [B "write"]; OLookup 9 (hex_encode (B "b"))].

Lemma accepted_sessions_witness :
  Z.of_nat (size (s_sessions (run few two_logins).1)) ≤ Max (s_cfg (NewStore few)) ∧
  ((Store_Lookup 15 (hex_encode (B "b")) (run few two_logins).1).1 = Some (MkSession (hex_encode (B "2")) (B "ops") [B "write"] 2 15, hex_encode (B "y")) →
   ∃ rec, issued (run few two_logins).2 (hex_encode (B "b")) = Some rec ∧
     MkSession (hex_encode (B "2")) (B "ops") [B "write"] 2 15 = rec_public (touched 15 rec) ∧ hex_encode (B "y") = rec_csrf rec ∧
     Sub 15 (rec_createdAt rec) ≤ Absolute (s_cfg (NewStore few)) ∧ Sub 15 (rec_lastSeen rec) ≤ Idle (s_cfg (NewStore few))).
Proof.
  apply (accepted_sessions few two_logins 15 (hex_encode (B "b")) (MkSession (hex_encode (B "2")) (B "ops") [B "write"] 2 15) (hex_encode (B "y"))).
  repeat constructor; discriminate.
Defined.

Example two_logins_used :
  (Store_Lookup 15 (hex_encode (B "b")) (run few two_logins).1).1 = Some (MkSession (hex_encode (B "2")) (B "ops") [B "write"] 2 15, hex_encode (B "y")) ∧
  (Store_Lookup 15 (hex_encode (B "a")) (run few two_logins).1).1 = None.
Proof. split; vm_compute; reflexivity. Qed.

(** * Requests *)

Section requests.
Context {AL : AuthLib} {U : Unicode}.

Lemma token_kind (r : list storedToken) (secret : bytes) (p : Principal) : Registry_Lookup r secret = Some p → pr_Kind p = KindToken.
Proof. unfold Registry_Lookup. destruct (foldl _ _ _) as [found idx]. destruct (negb _); [done |]. destruct (r !! _); [| done]. by intros [= <-]. Qed.

(** What other requests do to the store meanwhile. *)
Definition meanwhile (ops : list op) : option Store → option Store := fmap (λ s, (foldl step (s, []) ops).1).

(** No session is created under this cookie: cookies are drawn at random. *)
Definition spares (c : bytes) (o : op) : Prop := match o with OCreate _ cookie _ _ _ _ => hex_encode cookie ≠ c | _ => True end.

(** The cookie names a session when it is looked up. *)
Definition live (now : Z) (c : bytes) (st : option Store) : Prop := ∃ s x, st = Some s ∧ (Store_Lookup now c s).1 = Some x.

(** If a store has a session for the cookie, it has the secret it had. *)
Definition same_secret (c : bytes) (s s' : Store) : Prop :=
  ∀ rec', s_sessions s' !! c = Some rec' → ∃ rec, s_sessions s !! c = Some rec ∧ rec_csrf rec = rec_csrf rec'.

Lemma same_secret_sub (c : bytes) (s s' : Store) : s_sessions s' ⊆ s_sessions s → same_secret c s s'.
Proof. intros Hs rec' H. exists rec'. split; [by eapply lookup_weaken | done]. Qed.

Lemma same_secret_trans (c : bytes) (s1 s2 s3 : Store) : same_secret c s1 s2 → same_secret c s2 s3 → same_secret c s1 s3.
Proof. intros H1 H2 rec (rec2 & (rec1 & ? & <-)%H1 & <-)%H2. by exists rec1. Qed.

Lemma Lookup_same_secret (now : Z) (c c' : bytes) (s : Store) : same_secret c s (Store_Lookup now c' s).2.
Proof.
  destruct (Lookup_cases now c' s) as [->|[(rec & _ & _ & ->)|(rec & _ & Hr & _ & ->)]]; cbn [snd].
  - by apply same_secret_sub.
  - apply same_secret_sub, delete_subseteq.
  - intros rec'. cbn [with_sessions s_sessions]. intros [[<- <-]|[_ H]]%lookup_insert_Some; [by exists rec | by exists rec'].
Qed.

Lemma evict_sub (s : Store) : s_sessions (evictOldestLocked s) ⊆ s_sessions s.
Proof.
  unfold evictOldestLocked. destruct (foldl oldest None _) as [[k t]|]; [| done]. destruct (beq k []); [done | apply delete_subseteq].
Qed.

Lemma step_same_secret (c : bytes) (s : Store) (h : list event) (o : op) : spares c o → same_secret c s (step (s, h) o).1.
Proof.
  intros Hc. destruct o as [now cookie csrf id tok scopes|now c'|c'|now]; cbn [step].
  - cbn [fst]. intros rec'. unfold Create, drawn, randomHex. cbn [dr_cookie dr_csrf dr_id mbind res_bind snd with_sessions s_sessions].
    rewrite lookup_insert_ne by done. apply same_secret_sub. case_match; [etrans; [apply evict_sub|] |]; apply expireLocked_sub.
  - pose proof (Lookup_same_secret now c c' s) as H. by destruct (Store_Lookup now c' s).
  - cbn [fst]. apply same_secret_sub. unfold Delete. case_match; [done | apply delete_subseteq].
  - apply same_secret_sub, expireLocked_sub.
Qed.

Lemma steps_same_secret (c : bytes) (ops : list op) : ∀ s h, Forall (spares c) ops → same_secret c s (foldl step (s, h) ops).1.
Proof.
  induction ops as [|o ops IH]; intros s h H; [by apply same_secret_sub|]. apply Forall_cons in H as [Ho H]. cbn [foldl].
  pose proof (step_same_secret c s h o Ho) as Hs. destruct (step (s, h) o) as [s' h']. eapply same_secret_trans; [exact Hs | by apply IH].
Qed.

(** C34.  A cookie alone changes nothing.  A request to change something (a POST, PUT, PATCH
    or DELETE other than the exchange of a token for a session) that is served as a session
    has no [Authorization] header and a cookie that names a live session, the one it is
    served as.  Other requests may create, use, count and delete sessions before and after
    the check looks the session up for the second time; no session but the request's own
    is created under its cookie.  If at that second lookup the session is still live, the
    request's origin is allowed and it presents the secret the session was created with.
    If the session ended between the two lookups, it expired or another request deleted it,
    the request is served unchecked: [expiry_skips_csrf]. *)
Theorem session_request_checked (srv : ServerAuth) (now1 now2 : Z) (ops1 ops2 : list op) (r : Request) (s : Store) (st' : option Store) (p : Principal) :
  rq_Method r ∈ [B "POST"; B "PUT"; B "PATCH"; B "DELETE"] → (rq_Method r = B "POST" → rq_Path r ≠ B "/api/v1/session") →
  (∀ c, rq_Cookie r = Some c → Forall (spares c) (ops1 ++ ops2)) →
  authMiddleware srv now1 now2 (meanwhile ops1) (meanwhile ops2) r (Some s) = (Ok (Some p), st') → pr_Kind p = KindSession →
  rq_Authorization r = [] ∧
  ∃ c sess csrf, rq_Cookie r = Some c ∧ (Store_Lookup now1 c s).1 = Some (sess, csrf) ∧ p = session_principal sess ∧
    (live now2 c (meanwhile ops1 (Some (Store_Lookup now1 c s).2)) →
     OriginAllowed r (RequestOrigin r) (srv_allowedOrigins srv) = true ∧ DigestSecret csrf = DigestSecret (rq_CSRF r)).
Proof.
  intros Hm Hp Hsp H Hk. assert (Hn : needsCSRF r = true).
  { unfold needsCSRF, UnsafeMethod. rewrite bool_decide_true by done. cbn [negb]. destruct (beq (rq_Method r) (B "POST")) eqn:E; [|done].
    apply beq_true in E. by rewrite (proj2 (beq_false _ _) (Hp E)). }
  unfold authMiddleware in H. destruct (authenticate srv now1 r (Some s)) as [q st1] eqn:Ea. rewrite Hn in H.
  destruct (requireCookieCSRF srv now2 (meanwhile ops2) r (meanwhile ops1 st1)) as [e st2] eqn:Er. destruct e; [done |]. injection H as -> <-.
  unfold authenticate, ParseBearer in Ea. destruct (beq (rq_Authorization r) []) eqn:Eauth.
  2: { exfalso. destruct (cut_byte x20 _) as [[scheme rest] found]. destruct (negb found || _); [done |]. destruct (_ || _); [done |]. injection Ea as Ep _.
       unfold lookupToken in Ep. destruct (srv_registry srv); [| done]. apply token_kind in Ep. rewrite Hk in Ep. by vm_compute in Ep. }
  apply beq_true in Eauth. split; [done |]. destruct (rq_Cookie r) as [c|] eqn:Ec; [| done].
  destruct (beq c []) eqn:Ece; [done |]. destruct (Store_Lookup now1 c s) as [[[sess csrf]|] s1] eqn:El; [| done]. injection Ea as <- <-.
  exists c, sess, csrf. rewrite El. cbn [fst snd]. split_and!; [done..|]. intros (s2 & x & E2 & Hx).
  specialize (Hsp c eq_refl). apply Forall_app in Hsp as [Hsp1 Hsp2].
  assert (H2 : same_secret c s1 s2) by (cbn [meanwhile fmap option_fmap option_map] in E2; injection E2 as <-; by apply steps_same_secret).
  unfold requireCookieCSRF, hasSessionCookie in Er. rewrite E2, Ec, Ece in Er.
  pose proof (Lookup_same_secret now2 c c s2) as H3. destruct (Store_Lookup now2 c s2) as [found s3]. cbn [fst snd] in Hx, H3. subst found.
  rewrite bool_decide_true in Er by done. cbn [negb] in Er. injection Er as Er _. unfold csrf_check in Er. destruct (OriginAllowed r _ _); [| done].
  rewrite Ec in Er. cbn [negb meanwhile fmap option_fmap option_map] in Er. split; [done|].
  destruct (ValidCSRF c (rq_CSRF r) _) eqn:Ev in Er; [| done]. unfold ValidCSRF in Ev. destruct (beq c [] || beq (rq_CSRF r) []); [done |].
  destruct (s_sessions (foldl step (s3, []) ops2).1 !! c) as [rec|] eqn:E4; [| done]. apply beq_true in Ev. rewrite <- Ev.
  apply (steps_same_secret c ops2 s3 [] Hsp2) in E4 as (rec3 & (rec2 & (rec1 & E1 & <-)%H2 & <-)%H3 & <-).
  destruct (Lookup_cases now1 c s) as [E|[(rec0 & _ & _ & E)|(rec0 & _ & _ & _ & E)]]; rewrite El in E; [done..|]. injection E as -> -> ->.
  cbn [with_sessions s_sessions] in E1. rewrite lookup_insert_eq in E1. by injection E1 as <-.
Qed.
End requests.

(** A request of the console to its own origin, and one from elsewhere without a secret. *)
Definition console_request (origin csrf : bytes) (cookie : bytes) : Request :=
  MkRequest (B "POST") (B "/api/v1/users") (B "lab") false [] origin csrf (Some cookie).

Definition no_tokens : ServerAuth := MkServerAuth None [].

Definition logged_in : Store := (run (MkSessionConfig 1000 100 4) [OCreate 1 (B "b") (B "y") (B "2") (B "ops") [B "write"]]).1.

Definition served (now1 now2 : Z) (ops1 ops2 : list op) (r : Request) : res auth_err (option Principal) * option Store :=
  authMiddleware (AL := toy_auth) (U := ascii_unicode) no_tokens now1 now2 (meanwhile ops1) (meanwhile ops2) r (Some logged_in).

Definition ops_principal : Principal := MkPrincipal KindSession (hex_encode (B "2")) [B "write"].

Definition sample_request : Request := console_request (B "lab") (hex_encode (B "y")) (hex_encode (B "b")).

(** Somebody else logs in, and looks at a session that is not there. *)
Definition others_before : list op := [OCreate 5 (B "c") (B "z") (B "3") (B "ops") [B "read"]; OCount 5].

Definition others_after : list op := [OLookup 6 (B "none"); ODelete (hex_encode (B "c"))].

Lemma session_request_checked_witness :
  rq_Authorization sample_request = [] ∧
  ∃ c sess csrf, rq_Cookie sample_request = Some c ∧ (Store_Lookup 5 c logged_in).1 = Some (sess, csrf) ∧ ops_principal = session_principal sess ∧
    OriginAllowed (AL := toy_auth) (U := ascii_unicode) sample_request (RequestOrigin sample_request) (srv_allowedOrigins no_tokens) = true ∧
    DigestSecret (AuthLib := toy_auth) csrf = DigestSecret (AuthLib := toy_auth) (rq_CSRF sample_request).
Proof.
  destruct (session_request_checked (AL := toy_auth) (U := ascii_unicode) no_tokens 5 6 others_before others_after sample_request logged_in
    (served 5 6 others_before others_after sample_request).2 ops_principal) as (Ha & c & sess & csrf & Hc & Hl & Hp & Hcheck).
  - vm_compute. left.
  - intros _. vm_compute. discriminate.
  - intros c [= <-]. repeat constructor; vm_compute; discriminate.
  - vm_compute. reflexivity.
  - vm_compute. reflexivity.
  - split; [exact Ha|]. exists c, sess, csrf. split; [exact Hc|]. split; [exact Hl|]. split; [exact Hp|]. apply Hcheck. injection Hc as <-.
    eexists _, _. split; vm_compute; reflexivity.
Defined.

(** Without the secret it is refused; but if the session reaches its limit between the two
    lookups of one request, the request is served as the session with no check at all. *)
Theorem expiry_skips_csrf :
  is_ok (served 5 6 [] [] (console_request (B "elsewhere") [] (hex_encode (B "b")))).1 = false ∧
  (served 101 102 [] [] (console_request (B "elsewhere") [] (hex_encode (B "b")))).1 = Ok (Some ops_principal).
Proof. split; vm_compute; reflexivity. Qed.
