(* ===== verification/Ldif.v ===== *)
(** The LDIF export: [src/internal/directory/ldif.go], its encoder and the reader that
    goes with it.

    The writer is an argument: what a write leaves, how many octets it took and whether
    it failed.  [Done] of a context is an argument of [WriteEntry]. *)

From S2P Require Import Prelude GoStrings Attr Schema Base64 GoText.
Local Open Scope Z_scope.

Definition ldifLineWidth : nat := 76.
Definition ldifVersionLine : bytes := B "version: 1".
Definition LDIFCompleteMark : bytes := B "# labldap: export complete".

(** * Data *)

Record AttrKV : Type := MkAttrKV {
  kv_Name : bytes;
  kv_Value : bytes;
}.

Record SearchEntry : Type := MkSearchEntry {
  se_DN : bytes;
  se_Attributes : list AttrKV;
}.

Record ExportOptions : Type := MkExportOptions {
  OmitSecrets : bool;
  MaxEntries : Z;
  MaxBytes : Z;
}.

(** [io.Writer]: the octets taken and the error of a write. *)
Class IoWriter (W : Type) : Type := { io_Write : bytes → W → W * Z * option bytes }.

(** [bytes.Buffer]. *)
Definition buffer : IoWriter bytes := {| io_Write := λ s w, (w ++ s, blen s, None) |}.

Inductive export_err : Type :=
  | EncoderClosed
  | ContextErr
  | EntryLimit
  | ByteLimit
  | WriteErr (e : bytes)
  | ShortWrite.

Record Encoder (W : Type) : Type := MkEncoder {
  en_w : W;
  en_opts : ExportOptions;
  en_wrote : Z;
  en_entries : Z;
  en_header : bool;
  en_closed : bool;
}.
Arguments MkEncoder {W}.
Arguments en_w {W}.
Arguments en_opts {W}.
Arguments en_wrote {W}.
Arguments en_entries {W}.
Arguments en_header {W}.
Arguments en_closed {W}.

Section ldif.
Context {U : Unicode}.

(** * Encoding an entry *)

Definition SecretAttr (name : bytes) : bool :=
  let n := CanonicalAttrType name in
  if bool_decide (n ∈ [B "userpassword"; B "authpassword"; B "nsmultiplexorbindcred"; B "nsmultiplexorcredentials"; B "nsds5replicacredentials"; B "userpkcs12"]) then true
  else contains n (B "password") || has_prefix n (B "nsslapd-rootpw").

Record exportAttr : Type := MkExportAttr {
  ea_name : bytes;
  ea_values : list bytes;
}.

(** The append to the group of a name, a new group at the end if there is none. *)
Fixpoint add_value (name value : bytes) (out : list exportAttr) : list exportAttr :=
  match out with
  | [] => [MkExportAttr name [value]]
  | g :: out' => if beq (ea_name g) name then MkExportAttr (ea_name g) (ea_values g ++ [value]) :: out' else g :: add_value name value out'
  end.

Definition group_attr (omitSecrets : bool) (out : list exportAttr) (a : AttrKV) : list exportAttr :=
  let name := to_lower (trim_space (kv_Name a)) in
  if beq name [] || beq name (B "dn") then out
  else if omitSecrets && SecretAttr name then out
  else add_value name (kv_Value a) out.

Definition groupExportAttrs (attrs : list AttrKV) (omitSecrets : bool) : list exportAttr :=
  (λ g, MkExportAttr (ea_name g) (sort_by id (ea_values g))) <$> sort_by ea_name (foldl (group_attr omitSecrets) [] attrs).

Definition safeChar (c : byte) : bool := negb (bool_decide (c ∈ [x00; x0a; x0d])) && (bz c <=? 127).

Definition safeInitChar (c : byte) : bool := negb (bool_decide (c ∈ [x00; x0a; x0d; x20; x3a; x3c])) && (bz c <=? 127).

Definition needsBase64 (v : bytes) : bool :=
  match v with
  | [] => false
  | c :: t => if bool_decide (last v = Some x20) then true else negb (safeInitChar c) || negb (forallb safeChar t)
  end.

Definition encodeLDIFPair (name value : bytes) : bytes :=
  if needsBase64 value then name ++ B ":: " ++ std_encode value else name ++ B ": " ++ value.

(** The loop of [writeFolded]; each turn takes an octet at least. *)
Fixpoint fold_loop (fuel : nat) (first : bool) (rest : bytes) : bytes :=
  match fuel, rest with
  | S fuel, _ :: _ =>
    let width := if first then ldifLineWidth else (ldifLineWidth - 1)%nat in
    (if first then [] else [x0a; x20]) ++
    (if (length rest <=? width)%nat then rest else take width rest ++ fold_loop fuel false (drop width rest))
  | _, _ => []
  end.

Definition writeFolded (line : bytes) : bytes := fold_loop (length line) true line ++ [x0a].

Definition group_lines (g : exportAttr) : list bytes := encodeLDIFPair (ea_name g) <$> ea_values g.

Definition encodeLDIFEntry (ent : SearchEntry) (omitSecrets : bool) : bytes :=
  writeFolded (encodeLDIFPair (B "dn") (se_DN ent)) ++
  concat (writeFolded <$> concat (group_lines <$> groupExportAttrs (se_Attributes ent) omitSecrets)) ++ [x0a].

(** * The encoder *)

Section writer.
Context {W : Type} {IW : IoWriter W}.

Definition NewEncoder (w : W) (opts : ExportOptions) : Encoder W := MkEncoder w opts 0 0 false false.

Definition over_bytes (e : Encoder W) (s : bytes) : bool := (0 <? MaxBytes (en_opts e)) && (MaxBytes (en_opts e) <? en_wrote e + blen s).

Definition writeRaw (s : bytes) (e : Encoder W) : option export_err * Encoder W :=
  if over_bytes e s then (Some ByteLimit, e)
  else
    let '(w, n, err) := io_Write s (en_w e) in
    let e := MkEncoder w (en_opts e) (en_wrote e + n) (en_entries e) (en_header e) (en_closed e) in
    match err with
    | Some x => (Some (WriteErr x), e)
    | None => if n =? blen s then (None, e) else (Some ShortWrite, e)
    end.

Definition header_text (omitSecrets : bool) : bytes :=
  ldifVersionLine ++ [x0a] ++ B "# labldap export" ++ [x0a] ++ (if omitSecrets then B "# omitSecrets: true" ++ [x0a] else []) ++ [x0a].

Definition ensureHeader (e : Encoder W) : option export_err * Encoder W :=
  if en_header e then (None, e)
  else
    match writeRaw (header_text (OmitSecrets (en_opts e))) e with
    | (Some err, e) => (Some err, e)
    | (None, e) => (None, MkEncoder (en_w e) (en_opts e) (en_wrote e) (en_entries e) true (en_closed e))
    end.

Definition WriteEntry (ctx_done : bool) (ent : SearchEntry) (e : Encoder W) : option export_err * Encoder W :=
  if en_closed e then (Some EncoderClosed, e)
  else if ctx_done then (Some ContextErr, e)
  else
    match ensureHeader e with
    | (Some err, e) => (Some err, e)
    | (None, e) =>
      if (0 <? MaxEntries (en_opts e)) && (MaxEntries (en_opts e) <? en_entries e + 1) then (Some EntryLimit, e)
      else
        let block := encodeLDIFEntry ent (OmitSecrets (en_opts e)) in
        if over_bytes e block then (Some ByteLimit, e)
        else
          match writeRaw block e with
          | (Some err, e) => (Some err, e)
          | (None, e) => (None, MkEncoder (en_w e) (en_opts e) (en_wrote e) (en_entries e + 1) (en_header e) (en_closed e))
          end
    end.

Definition Close (e : Encoder W) : option export_err * Encoder W :=
  if en_closed e then (None, e)
  else
    match ensureHeader e with
    | (Some err, e) => (Some err, e)
    | (None, e) =>
      let line := LDIFCompleteMark ++ [x0a] in
      if over_bytes e line then (Some ByteLimit, e)
      else
        match writeRaw line e with
        | (Some err, e) => (Some err, e)
        | (None, e) => (None, MkEncoder (en_w e) (en_opts e) (en_wrote e) (en_entries e) (en_header e) true)
        end
    end.
End writer.

(** * Reading *)

(** [bytes.ReplaceAll(raw, "\r\n", "\n")]. *)
Fixpoint crlf (s : bytes) : bytes :=
  match s with
  | [] => []
  | c :: t =>
    match t with
    | d :: t' => if bool_decide (c = x0d) && bool_decide (d = x0a) then x0a :: crlf t' else c :: crlf t
    | [] => [c]
    end
  end.

Fixpoint unfoldLDIF (s : bytes) : bytes :=
  match s with
  | [] => []
  | c :: t =>
    match t with
    | d :: t' => if bool_decide (c = x0a) && bool_decide (d = x20) then unfoldLDIF t' else c :: unfoldLDIF t
    | [] => [c]
    end
  end.

Definition line_name (s : bytes) : bytes := to_lower (trim_space s).

(** [strings.Index(line, sep)], if it is not the first octet. *)
Definition after_name (line sep : bytes) : option nat :=
  match index line sep with
  | Some (S i) => Some (S i)
  | _ => None
  end.

Definition splitLDIFLine (line : bytes) : option (bytes * bytes) :=
  match after_name line (B ":: ") with
  | Some i => value ← std_decode (trim_space (drop (i + 3) line)); Some (line_name (take i line), value)
  | None =>
    match after_name line (B ": ") with
    | Some i => Some (line_name (take i line), drop (i + 2) line)
    | None =>
      match after_name line (B ":") with
      | Some i => Some (line_name (take i line), [])
      | None => None
      end
    end
  end.

(** The state of the loop of [ParseLDIF]; the entry being read, if [have]. *)
Record reading : Type := MkReading {
  rd_out : list SearchEntry;
  rd_cur : option SearchEntry;
}.

Definition flush (r : reading) : reading :=
  match rd_cur r with
  | None => r
  | Some e => MkReading (rd_out r ++ [e]) None
  end.

Definition read_line (r : reading) (line : bytes) : reading :=
  if beq line [] then flush r
  else if has_prefix line (B "#") then r
  else if has_prefix (to_lower line) (B "version:") then r
  else
    match splitLDIFLine line with
    | None => r
    | Some (name, value) =>
      if beq name (B "dn") then MkReading (rd_out (flush r)) (Some (MkSearchEntry value []))
      else
        match rd_cur r with
        | None => r
        | Some e => MkReading (rd_out r) (Some (MkSearchEntry (se_DN e) (se_Attributes e ++ [MkAttrKV name value])))
        end
    end.

Definition ParseLDIF (raw : bytes) : list SearchEntry :=
  rd_out (flush (foldl read_line (MkReading [] None) (split_byte x0a (unfoldLDIF (crlf raw))))).
End ldif.

(** The LDIF export is read back as the entries it was made of.

    Lines are folded and unfolded, names and values joined and split; the reader looks for
    the first colon pair anywhere in a line, so a value that holds one is the exception. *)

(** * Folding *)

Definition no_newline (s : bytes) : Prop := x0a ∉ s.

Lemma unfold_cons (c : byte) (s : bytes) : c ≠ x0a → unfoldLDIF (c :: s) = c :: unfoldLDIF s.
Proof.
  intros Hc. destruct s as [|d u]; [done |].
  change (unfoldLDIF (c :: d :: u)) with (if bool_decide (c = x0a) && bool_decide (d = x20) then unfoldLDIF u else c :: unfoldLDIF (d :: u)).
  by rewrite (bool_decide_false (c = x0a)).
Qed.

Lemma unfold_line (s t : bytes) : no_newline s → unfoldLDIF (s ++ t) = s ++ unfoldLDIF t.
Proof.
  induction s as [|c s IH]; intros Hs; [done |]. apply not_elem_of_cons in Hs as [Hc Hs]. cbn [app]. rewrite unfold_cons by done. f_equal. by apply IH.
Qed.

Lemma unfold_loop (fuel : nat) : ∀ (first : bool) (rest t : bytes), (length rest ≤ fuel)%nat → no_newline rest →
  unfoldLDIF (fold_loop fuel first rest ++ t) = rest ++ unfoldLDIF t.
Proof.
  induction fuel as [|fuel IH]; intros first rest t Hl Hn; (destruct rest as [|c rest]; [done |]); cbn [length] in Hl; [lia |].
  cbn [fold_loop]. set (w := if first then ldifLineWidth else (ldifLineWidth - 1)%nat). assert (Hw : (0 < w)%nat) by (unfold w, ldifLineWidth; destruct first; lia).
  set (s := c :: rest) in *.
  assert (Hskip : ∀ u, unfoldLDIF ((if first then [] else [x0a; x20]) ++ u) = unfoldLDIF u) by (intros u; by destruct first).
  rewrite <- (assoc_L (++)), Hskip. destruct (Nat.leb_spec (length s) w) as [Hle|Hgt]; [by apply unfold_line |].
  assert (Htd : no_newline (take w s) ∧ no_newline (drop w s)).
  { unfold no_newline in *. rewrite <- (take_drop w s), elem_of_app in Hn. tauto. }
  destruct Htd as [Ht Hd]. rewrite <- (assoc_L (++)), unfold_line by done. rewrite IH; [| rewrite length_drop; unfold s in *; cbn [length] in *; lia | done].
  by rewrite (assoc_L (++)), take_drop.
Qed.

Lemma unfold_folded (line t : bytes) : no_newline line → unfoldLDIF (writeFolded line ++ t) = line ++ unfoldLDIF ([x0a] ++ t).
Proof. intros H. unfold writeFolded. rewrite <- (assoc_L (++)). by apply unfold_loop. Qed.

(** ** The width of a line *)

Definition narrow (s : bytes) : Prop := Forall (λ l, (length l ≤ ldifLineWidth)%nat) (split_byte x0a s).

Lemma split_app (s t : bytes) : split_byte x0a (s ++ [x0a] ++ t) = split_byte x0a s ++ split_byte x0a t.
Proof.
  induction s as [|c s IH]; [done |]. cbn [app split_byte] in *. case_bool_decide; [by rewrite IH |]. rewrite IH.
  destruct (split_byte x0a s) as [|p ps] eqn:E; [| done]. exfalso. clear -E. destruct s as [|d s]; [done |]. cbn [split_byte] in E. case_bool_decide; [done |]. by destruct (split_byte x0a s).
Qed.

Lemma split_plain (s : bytes) : no_newline s → split_byte x0a s = [s].
Proof.
  induction s as [|c s IH]; intros Hs; [done |]. apply not_elem_of_cons in Hs as [Hc Hs]. cbn [split_byte]. rewrite bool_decide_false by done. by rewrite IH.
Qed.

Lemma narrow_app (s t : bytes) : narrow s → narrow t → narrow (s ++ [x0a] ++ t).
Proof. intros Hs Ht. unfold narrow. rewrite split_app. apply Forall_app. done. Qed.

Lemma fold_narrow (fuel : nat) : ∀ (first : bool) (rest : bytes), (length rest ≤ fuel)%nat → no_newline rest → rest ≠ [] →
  if first then narrow (fold_loop fuel true rest) else ∃ v, fold_loop fuel false rest = x0a :: v ∧ narrow v.
Proof.
  induction fuel as [|fuel IH]; intros first rest Hl Hn Hne; (destruct rest as [|c rest]; [done |]); [cbn in Hl; lia |].
  set (w := if first then ldifLineWidth else (ldifLineWidth - 1)%nat). set (s := c :: rest) in *.
  assert (Hw : (0 < w ≤ ldifLineWidth)%nat ∧ (first = false → S w ≤ ldifLineWidth)%nat)
    by (unfold w, ldifLineWidth; destruct first; (split; [lia | first [by intros ? | intros _; lia]])).
  set (body := if (length s <=? w)%nat then s else take w s ++ fold_loop fuel false (drop w s)).
  assert (Hbody : ∃ l u, body = l ++ u ∧ no_newline l ∧ (length l ≤ w)%nat ∧ (u = [] ∨ ∃ v, u = x0a :: v ∧ narrow v)).
  { unfold body. destruct (Nat.leb_spec (length s) w) as [Hle|Hgt]; [exists s, []; rewrite app_nil_r; split_and!; [done | done | done | by left] |].
    assert (Htd : no_newline (take w s) ∧ no_newline (drop w s)) by (unfold no_newline in *; rewrite <- (take_drop w s), elem_of_app in Hn; tauto).
    destruct Htd as [Ht Hd]. exists (take w s), (fold_loop fuel false (drop w s)). split_and!; [done | done | rewrite length_take; lia |]. right.
    apply (IH false (drop w s)); [rewrite length_drop; lia | done |]. intros Ed. apply (f_equal length) in Ed. rewrite length_drop in Ed. change (length (@nil byte)) with 0%nat in Ed. lia. }
  destruct Hbody as (l & u & Eb & Hl1 & Hlw & Hu).
  assert (Hnar : ∀ p, no_newline p → (length (p ++ l) ≤ ldifLineWidth)%nat → narrow (p ++ body)).
  { intros p Hp Hpl. rewrite Eb. assert (Hpn : no_newline (p ++ l)) by (unfold no_newline in *; rewrite elem_of_app; tauto).
    assert (Hpw : narrow (p ++ l)) by (unfold narrow; rewrite split_plain by done; by apply Forall_singleton).
    rewrite (assoc_L (++)). destruct Hu as [->|(v & -> & Hv)]; [by rewrite app_nil_r |]. by apply (narrow_app (p ++ l) v). }
  destruct first.
  - change (fold_loop (S fuel) true s) with ([] ++ body). apply Hnar; [apply not_elem_of_nil | cbn [app]; lia].
  - exists (x20 :: body). split; [done |]. apply (Hnar [x20]); [unfold no_newline; by rewrite list_elem_of_singleton |].
    destruct Hw as [_ Hw]. specialize (Hw eq_refl). cbn [length app]. lia.
Qed.

Lemma folded_narrow (line t : bytes) : no_newline line → narrow t → narrow (writeFolded line ++ t).
Proof.
  intros Hl Ht. unfold writeFolded. rewrite <- (assoc_L (++)). apply narrow_app; [| done]. destruct (decide (line = [])) as [->|Hne]; [repeat constructor; cbn; lia |].
  by apply (fold_narrow (length line) true line).
Qed.

(** * Lines *)

Section lines.
Context {U : Unicode} {UL : UnicodeLaws U}.

(** A name as the encoder writes it, that the reader takes for one. *)
Definition field_byte (b : byte) : Prop := 33 ≤ bz b < 127 ∧ b ≠ x3a ∧ byte_lower b = b.

Definition field_name (n : bytes) : Prop := n ≠ [] ∧ Forall field_byte n ∧ head n ≠ Some x23 ∧ n ≠ B "version".

(** A value that holds no colon pair, unless it is written in base 64. *)
Definition readable_value (v : bytes) : Prop := needsBase64 v = true ∨ index v (B ":: ") = None.

Lemma std_chars_visible (s : bytes) : Forall (λ b, 33 ≤ bz b < 127) (std_encode s).
Proof.
  assert (Hc : ∀ v, 0 ≤ v < 64 → 33 ≤ bz (std_char v) < 127).
  { intros v Hv. assert (H : forallb (λ n, bool_decide (33 ≤ bz (std_char (Z.of_nat n)) < 127)) (List.seq 0 64) = true) by (vm_compute; reflexivity).
    rewrite forallb_forall in H. specialize (H (Z.to_nat v)). rewrite Z2Nat.id in H by lia. eapply bool_decide_eq_true_1, H, in_seq. lia. }
  assert (Hs : ∀ l, Forall (λ v, 0 ≤ v < 64) l → Forall (λ b, 33 ≤ bz b < 127) (std_char <$> l)).
  { intros l Hl. rewrite Forall_fmap. eapply Forall_impl; [exact Hl |]. exact Hc. }
  assert (Hp : 33 ≤ bz pad < 127) by (apply (bool_decide_unpack _); by vm_compute).
  induction s as [|a|a b|a b c s IH] using triple_ind; cbn [std_encode]; [by constructor | | |]; apply Forall_app; (split; [apply Hs, sextets_range |]).
  - constructor; [exact Hp |]. by constructor.
  - by constructor.
  - exact IH.
Qed.

Lemma safe_value (v : bytes) : needsBase64 v = false → Forall (λ b, bz b < 128 ∧ b ≠ x0a ∧ b ≠ x0d) v ∧ head v ≠ Some x3a.
Proof.
  unfold needsBase64. destruct v as [|c t]; [done |]. destruct (bool_decide _); [done |]. intros [Hc%negb_false_iff Ht%negb_false_iff]%orb_false_iff.
  assert (Hsafe : ∀ b, safeChar b = true → bz b < 128 ∧ b ≠ x0a ∧ b ≠ x0d).
  { intros b [Hb%negb_true_iff Hz%Z.leb_le]%andb_true_iff. apply bool_decide_eq_false in Hb. rewrite !not_elem_of_cons in Hb. split; [lia | tauto]. }
  unfold safeInitChar in Hc. apply andb_true_iff in Hc as [Hc%negb_true_iff Hz%Z.leb_le]. apply bool_decide_eq_false in Hc. rewrite !not_elem_of_cons in Hc. split.
  - constructor; [split; [lia | tauto] |]. apply Forall_forall. intros b Hb. apply Hsafe. rewrite forallb_forall in Ht. by apply Ht, list_elem_of_In.
  - cbn. intros [= ->]. tauto.
Qed.

(** What a line of the export is made of. *)
Definition text_byte (b : byte) : Prop := bz b < 128 ∧ b ≠ x0a ∧ b ≠ x0d.

Lemma pair_text (n v : bytes) : Forall field_byte n → Forall text_byte (encodeLDIFPair n v).
Proof.
  intros Hn. assert (Hvis : ∀ b, 33 ≤ bz b < 127 → text_byte b) by (intros b Hb; split_and!; [lia | intros ->; change (bz x0a) with 10 in Hb; lia | intros ->; change (bz x0d) with 13 in Hb; lia]).
  assert (Hf : Forall text_byte n) by (eapply Forall_impl; [exact Hn |]; intros b (Hb & _); by apply Hvis).
  assert (Hl : ∀ s, s ∈ [B ":: "; B ": "] → Forall text_byte s).
  { intros s Hs. repeat (apply elem_of_cons in Hs as [->|Hs]; [repeat constructor; vm_compute; done |]). by apply not_elem_of_nil in Hs. }
  unfold encodeLDIFPair. destruct (needsBase64 v) eqn:E; (apply Forall_app; split; [done |]; apply Forall_app; split; [apply Hl; set_solver |]).
  - eapply Forall_impl; [apply std_chars_visible |]. exact Hvis.
  - by apply safe_value.
Qed.

(** ** Names found again *)

Lemma index_skip (c : byte) (n a s : bytes) : c ∉ a → index (a ++ s) (c :: n) = Nat.add (length a) <$> index s (c :: n).
Proof.
  induction a as [|b a IH]; intros Ha; cbn [app length]; [by destruct (index s (c :: n)) |]. apply not_elem_of_cons in Ha as [Hb Ha].
  cbn [index has_prefix]. rewrite (bool_decide_false (c = b)) by done. cbn [andb]. rewrite IH by done. by destruct (index s (c :: n)).
Qed.

Lemma index_here (p s : bytes) : p ≠ [] → index (p ++ s) p = Some 0%nat.
Proof.
  intros Hp. assert (H : ∀ q, has_prefix (q ++ s) q = true) by (induction q as [|b q IH]; [by destruct s |]; cbn [app has_prefix]; by rewrite bool_decide_true, IH).
  specialize (H p). destruct (p ++ s) eqn:E; cbn [index]; by rewrite H.
Qed.

Lemma name_found (n : bytes) : Forall field_byte n → line_name n = n ∧ (x3a ∉ n).
Proof.
  intros H. assert (Hv : Forall visible n).
  { eapply Forall_impl; [exact H |]. intros b (Hb & _). split; [lia |]. unfold is_space, in_range. repeat (apply orb_false_iff; split); try (apply andb_false_iff; rewrite ?Z.leb_gt; lia); apply Z.eqb_neq; lia. }
  split; [| intros Hin; rewrite Forall_forall in H; by destruct (H _ Hin) as (_ & ? & _)].
  unfold line_name. pose proof (trim_pad 0 0 n Hv) as Ht. cbn [replicate app] in Ht. rewrite app_nil_r in Ht. rewrite Ht. unfold to_lower.
  rewrite (proj2 (forallb_forall is_ascii n)).
  - clear -H. induction H as [|b n (_ & _ & Hb) _ IH]; [done |]. cbn [fmap list_fmap]. by rewrite Hb, IH.
  - intros b Hb%list_elem_of_In. rewrite Forall_forall in Hv. apply is_ascii_true. by destruct (Hv b Hb).
Qed.

Lemma split_pair (n v : bytes) : n ≠ [] → Forall field_byte n → readable_value v → splitLDIFLine (encodeLDIFPair n v) = Some (n, v).
Proof.
  intros Hne Hn Hv. destruct (name_found n Hn) as [Hname Hcolon]. unfold splitLDIFLine, encodeLDIFPair, after_name.
  assert (Hlen : ∃ k, length n = S k) by (destruct n as [|c t]; [done | by exists (length t)]). destruct Hlen as [k Hk].
  destruct (needsBase64 v) eqn:E.
  - change (B ":: ") with (x3a :: B ": ") at 2. rewrite index_skip by done. change (x3a :: B ": ") with (B ":: "). rewrite index_here by done.
    cbn [fmap option_fmap option_map]. rewrite Nat.add_0_r, Hk, <- Hk. rewrite take_app_length, Hname.
    assert (Hd : drop (length n + 3) (n ++ B ":: " ++ std_encode v) = std_encode v).
    { rewrite (assoc_L (++)). by rewrite drop_app_length' by (rewrite length_app; done). }
    rewrite Hd. assert (Ht : trim_space (std_encode v) = std_encode v).
    { pose proof (trim_pad 0 0 (std_encode v)) as Ht. cbn [replicate app] in Ht. rewrite app_nil_r in Ht. apply Ht. eapply Forall_impl; [apply std_chars_visible |].
      intros b Hb. cbn beta in Hb. split; [lia |]. unfold is_space, in_range. repeat (apply orb_false_iff; split); try (apply andb_false_iff; rewrite ?Z.leb_gt; lia); apply Z.eqb_neq; lia. }
    rewrite Ht, std_roundtrip. done.
  - destruct Hv as [?|Hv]; [congruence |]. destruct (safe_value v E) as [_ Hh].
    assert (Hnone : index (n ++ B ": " ++ v) (B ":: ") = None).
    { change (B ":: ") with (x3a :: B ": "). rewrite index_skip by done. change (B ": " ++ v) with (x3a :: x20 :: v).
      change (index (x3a :: x20 :: v) (x3a :: B ": ")) with (S <$> (S <$> index v (B ":: "))). by rewrite Hv. }
    rewrite Hnone. change (index (n ++ B ": " ++ v) (B ": ")) with (index (n ++ B ": " ++ v) (x3a :: B " ")). rewrite index_skip by done.
    change (x3a :: B " ") with (B ": "). rewrite index_here by done. cbn [fmap option_fmap option_map]. rewrite Nat.add_0_r, Hk, <- Hk. rewrite take_app_length, Hname.
    rewrite (assoc_L (++)). by rewrite drop_app_length' by (rewrite length_app; done).
Qed.

(** ** A line is read as its pair *)

Lemma prefix_split (s p : bytes) : has_prefix s p = true → ∃ t, s = p ++ t.
Proof.
  revert s. induction p as [|b p IH]; intros s; [intros _; by exists s |]. destruct s as [|c s]; [done |]. cbn [has_prefix].
  intros [->%bool_decide_eq_true Hs]%andb_true_iff. destruct (IH s Hs) as [t ->]. by exists t.
Qed.

Lemma pair_not_version (n v : bytes) : field_name n → has_prefix (to_lower (encodeLDIFPair n v)) (B "version:") = false.
Proof.
  intros (Hne & Hn & _ & Hver). apply not_true_iff_false. intros H. apply Hver. destruct (name_found n Hn) as [_ Hcolon].
  pose proof (pair_text n v Hn) as Ht. unfold to_lower in H. rewrite (proj2 (forallb_forall is_ascii (encodeLDIFPair n v))) in H.
  2: { intros b Hb%list_elem_of_In. rewrite Forall_forall in Ht. apply is_ascii_true. by destruct (Ht b Hb). }
  assert (Hx : ∃ r, encodeLDIFPair n v = n ++ x3a :: r) by (unfold encodeLDIFPair; case_match; by eexists). destruct Hx as [r Ex]. rewrite Ex, fmap_app in H.
  assert (En : byte_lower <$> n = n) by (clear -Hn; induction Hn as [|b n (_ & _ & Hb) _ IH]; [done |]; cbn [fmap list_fmap]; by rewrite Hb, IH).
  change (fmap (M := list) byte_lower n) with (byte_lower <$> n) in H. rewrite En in H. apply prefix_split in H as [t Et].
  change (byte_lower <$> x3a :: r) with (x3a :: (byte_lower <$> r)) in Et. change (B "version:" ++ t) with (B "version" ++ x3a :: t) in Et.
  clear -Et Hcolon. assert (Hv : x3a ∉ B "version") by (vm_compute; set_solver). revert Et Hcolon Hv. generalize (B "version"). generalize (byte_lower <$> r).
  induction n as [|b n IH]; intros r' [|c m]; [done | | |]; cbn [app]; intros [= E1 E2]; rewrite ?not_elem_of_cons.
  - subst c. tauto.
  - subst b. tauto.
  - intros [_ Hn] [_ Hm]. subst c. f_equal. by eapply IH.
Qed.

Definition read_pair (r : reading) (n v : bytes) : reading :=
  if beq n (B "dn") then MkReading (rd_out (flush r)) (Some (MkSearchEntry v []))
  else
    match rd_cur r with
    | None => r
    | Some e => MkReading (rd_out r) (Some (MkSearchEntry (se_DN e) (se_Attributes e ++ [MkAttrKV n v])))
    end.

Lemma read_line_pair (r : reading) (n v : bytes) : field_name n → readable_value v → read_line r (encodeLDIFPair n v) = read_pair r n v.
Proof.
  intros Hn Hv. unfold read_line. rewrite pair_not_version by done. destruct Hn as (Hne & Hf & Hh & Hver).
  assert (Hx : ∃ c t, encodeLDIFPair n v = c :: t ∧ c ≠ x23) by (destruct n as [|c t]; [done |]; exists c; unfold encodeLDIFPair; case_match; eexists; (split; [reflexivity | by intros ->])).
  destruct Hx as (c & t & Ex & Hc). rewrite (proj2 (beq_false _ [])) by by rewrite Ex. rewrite split_pair by done.
  assert (Hp : has_prefix (encodeLDIFPair n v) (B "#") = false) by (rewrite Ex; cbn; by rewrite bool_decide_false). by rewrite Hp.
Qed.
End lines.

(** * Entries *)

Section entries.
Context {U : Unicode} {UL : UnicodeLaws U}.

(** The attributes as they are exported. *)
Definition group_pairs (g : exportAttr) : list AttrKV := MkAttrKV (ea_name g) <$> ea_values g.

Definition exported (omitSecrets : bool) (ent : SearchEntry) : SearchEntry :=
  MkSearchEntry (se_DN ent) (concat (group_pairs <$> groupExportAttrs (se_Attributes ent) omitSecrets)).

Definition skipped (omitSecrets : bool) (n : bytes) : bool := beq n [] || beq n (B "dn") || (omitSecrets && SecretAttr n).

(** Names and values the reader takes for what they are. *)
Definition readable_attr (omitSecrets : bool) (a : AttrKV) : Prop :=
  skipped omitSecrets (line_name (kv_Name a)) = true ∨ field_name (line_name (kv_Name a)) ∧ readable_value (kv_Value a).

Definition readable (omitSecrets : bool) (ent : SearchEntry) : Prop :=
  readable_value (se_DN ent) ∧ Forall (readable_attr omitSecrets) (se_Attributes ent).

(** ** Grouping *)

Lemma add_value_pairs (n v : bytes) (out : list exportAttr) (kv : AttrKV) :
  kv ∈ concat (group_pairs <$> add_value n v out) ↔ kv = MkAttrKV n v ∨ kv ∈ concat (group_pairs <$> out).
Proof.
  induction out as [|g out IH]; cbn [add_value fmap list_fmap concat].
  - unfold group_pairs. cbn. rewrite !elem_of_cons. pose proof (not_elem_of_nil kv). tauto.
  - destruct (beq (ea_name g) n) eqn:E; cbn [fmap list_fmap concat]; rewrite !elem_of_app.
    + apply beq_true in E. unfold group_pairs at 1. cbn [ea_name ea_values]. rewrite fmap_app, elem_of_app, E. cbn [fmap list_fmap]. rewrite list_elem_of_singleton.
      unfold group_pairs at 2. rewrite E. tauto.
    + rewrite IH. tauto.
Qed.

Lemma group_attr_pairs (omit : bool) (out : list exportAttr) (a kv : AttrKV) :
  kv ∈ concat (group_pairs <$> group_attr omit out a) ↔
  (skipped omit (line_name (kv_Name a)) = false ∧ kv = MkAttrKV (line_name (kv_Name a)) (kv_Value a)) ∨ kv ∈ concat (group_pairs <$> out).
Proof.
  unfold group_attr, skipped. fold (line_name (kv_Name a)). set (n := line_name (kv_Name a)). destruct (beq n [] || beq n (B "dn")); cbn [orb]; [naive_solver |].
  destruct (omit && SecretAttr n); [naive_solver |]. rewrite add_value_pairs. naive_solver.
Qed.

Lemma sorted_pairs (l : list exportAttr) (kv : AttrKV) :
  kv ∈ concat (group_pairs <$> ((λ g, MkExportAttr (ea_name g) (sort_by id (ea_values g))) <$> sort_by ea_name l)) ↔ kv ∈ concat (group_pairs <$> l).
Proof.
  rewrite !elem_of_concat. setoid_rewrite list_elem_of_fmap. split.
  - intros (ps & Hkv & g' & -> & Hg'). apply list_elem_of_fmap in Hg' as (g & -> & Hg%sort_by_elem). exists (group_pairs g). split; [| by exists g].
    unfold group_pairs in *. cbn [ea_name ea_values] in Hkv. apply list_elem_of_fmap in Hkv as (v & -> & Hv%sort_by_elem). by apply list_elem_of_fmap_2.
  - intros (ps & Hkv & g & -> & Hg). exists (group_pairs (MkExportAttr (ea_name g) (sort_by id (ea_values g)))). split.
    + unfold group_pairs in *. cbn [ea_name ea_values]. apply list_elem_of_fmap in Hkv as (v & -> & Hv). apply list_elem_of_fmap_2. by apply sort_by_elem.
    + exists (MkExportAttr (ea_name g) (sort_by id (ea_values g))). split; [done |]. apply list_elem_of_fmap. exists g. split; [done |]. by apply sort_by_elem.
Qed.

(** What is exported of an entry: every attribute that is not skipped, under its name in
    lower case. *)
Lemma exported_attrs (omit : bool) (ent : SearchEntry) (kv : AttrKV) :
  kv ∈ se_Attributes (exported omit ent) ↔
  ∃ a, a ∈ se_Attributes ent ∧ skipped omit (line_name (kv_Name a)) = false ∧ kv = MkAttrKV (line_name (kv_Name a)) (kv_Value a).
Proof.
  unfold exported. cbn [se_Attributes]. unfold groupExportAttrs. rewrite sorted_pairs.
  assert (Hgen : ∀ l out, kv ∈ concat (group_pairs <$> foldl (group_attr omit) out l) ↔
    (∃ a, a ∈ l ∧ skipped omit (line_name (kv_Name a)) = false ∧ kv = MkAttrKV (line_name (kv_Name a)) (kv_Value a)) ∨ kv ∈ concat (group_pairs <$> out)).
  { induction l as [|a l IH]; intros out; cbn [foldl]; [pose proof (λ x : AttrKV, not_elem_of_nil x); naive_solver |].
    rewrite IH, group_attr_pairs. setoid_rewrite elem_of_cons. naive_solver. }
  rewrite Hgen. cbn [fmap list_fmap concat]. pose proof (not_elem_of_nil kv). tauto.
Qed.

(** ** Reading an entry *)

Definition pair_lines (l : list AttrKV) : list bytes := (λ kv, encodeLDIFPair (kv_Name kv) (kv_Value kv)) <$> l.

Definition entry_lines (omit : bool) (ent : SearchEntry) : list bytes :=
  encodeLDIFPair (B "dn") (se_DN ent) :: pair_lines (se_Attributes (exported omit ent)).

Lemma encode_lines (omit : bool) (ent : SearchEntry) : encodeLDIFEntry ent omit = concat (writeFolded <$> entry_lines omit ent ++ [[]]).
Proof.
  unfold encodeLDIFEntry, entry_lines. rewrite fmap_app. cbn [fmap list_fmap]. rewrite concat_app. cbn [concat]. rewrite app_nil_r.
  change (writeFolded []) with [x0a]. rewrite <- (assoc_L (++)). f_equal. f_equal. f_equal. f_equal. unfold exported, pair_lines. cbn [se_Attributes].
  induction (groupExportAttrs (se_Attributes ent) omit) as [|g l IH]; [done |]. cbn [fmap list_fmap concat]. rewrite fmap_app, <- IH. f_equal.
  unfold group_lines, group_pairs. rewrite <- list_fmap_compose. done.
Qed.

Definition readable_pair (kv : AttrKV) : Prop := field_name (kv_Name kv) ∧ readable_value (kv_Value kv) ∧ kv_Name kv ≠ B "dn".

Lemma exported_readable (omit : bool) (ent : SearchEntry) : readable omit ent → Forall readable_pair (se_Attributes (exported omit ent)).
Proof.
  intros [_ Ha]. rewrite Forall_forall in *. intros kv (a & Hin & Hs & ->)%exported_attrs. destruct (Ha a Hin) as [Hs'|[Hf Hv]]; [congruence |].
  unfold readable_pair. cbn [kv_Name kv_Value]. split_and!; [done | done |]. intros E. unfold skipped in Hs. rewrite E in Hs. by vm_compute in Hs.
Qed.

Lemma dn_field : field_name (B "dn").
Proof. split_and!; [done | repeat constructor; done | done | by vm_compute]. Qed.

Lemma read_pairs (out : list SearchEntry) (dn : bytes) (l : list AttrKV) : ∀ before, Forall readable_pair l →
  foldl read_line (MkReading out (Some (MkSearchEntry dn before))) (pair_lines l) = MkReading out (Some (MkSearchEntry dn (before ++ l))).
Proof.
  induction l as [|[n v] l IH]; intros before H; [by rewrite app_nil_r |]. apply Forall_cons in H as [(Hf & Hv & Hd) H]. cbn [kv_Name kv_Value] in *.
  unfold pair_lines. cbn [fmap list_fmap foldl kv_Name kv_Value]. rewrite read_line_pair by done. unfold read_pair. rewrite (proj2 (beq_false n _)) by done.
  cbn [rd_cur rd_out se_DN se_Attributes]. fold (pair_lines l). rewrite IH by done. by rewrite <- (assoc_L (++)).
Qed.

Lemma read_entry (omit : bool) (ent : SearchEntry) (out : list SearchEntry) : readable omit ent →
  foldl read_line (MkReading out None) (entry_lines omit ent ++ [[]]) = MkReading (out ++ [exported omit ent]) None.
Proof.
  intros H. rewrite foldl_app. unfold entry_lines. cbn [foldl]. rewrite read_line_pair by (apply dn_field || apply H).
  change (read_pair (MkReading out None) (B "dn") (se_DN ent)) with (MkReading out (Some (MkSearchEntry (se_DN ent) []))).
  rewrite read_pairs by by apply exported_readable. done.
Qed.

Lemma entry_lines_text (omit : bool) (ent : SearchEntry) : readable omit ent →
  Forall (λ l, Forall text_byte l ∧ head l ≠ Some x20) (entry_lines omit ent ++ [[]]).
Proof.
  intros H. assert (Hp : ∀ n v, field_name n → Forall text_byte (encodeLDIFPair n v) ∧ head (encodeLDIFPair n v) ≠ Some x20).
  { intros n v (Hne & Hf & _). split; [by apply pair_text |]. destruct n as [|c t]; [done |]. apply Forall_cons in Hf as [(Hc & _) _].
    unfold encodeLDIFPair. case_match; cbn [app head]; intros [= ->]; change (bz x20) with 32 in Hc; lia. }
  apply Forall_app. split; [| repeat constructor; done]. constructor; [apply Hp, dn_field |]. unfold pair_lines. rewrite Forall_fmap.
  eapply Forall_impl; [by apply exported_readable |]. intros kv (Hf & _). by apply Hp.
Qed.
End entries.

(** * The whole text *)

Section text.
Context {U : Unicode} {UL : UnicodeLaws U}.

Definition text_line (l : bytes) : Prop := Forall text_byte l ∧ head l ≠ Some x20.

Definition header_lines (omit : bool) : list bytes := [ldifVersionLine; B "# labldap export"] ++ (if omit then [B "# omitSecrets: true"] else []) ++ [[]].

Definition export_lines (omit : bool) (ents : list SearchEntry) : list bytes :=
  header_lines omit ++ concat ((λ ent, entry_lines omit ent ++ [[]]) <$> ents) ++ [LDIFCompleteMark].

Definition export_text (omit : bool) (ents : list SearchEntry) : bytes :=
  header_text omit ++ concat ((λ ent, encodeLDIFEntry ent omit) <$> ents) ++ LDIFCompleteMark ++ [x0a].

Lemma export_text_lines (omit : bool) (ents : list SearchEntry) : export_text omit ents = concat (writeFolded <$> export_lines omit ents).
Proof.
  unfold export_text, export_lines. rewrite !fmap_app, !concat_app. f_equal; [by destruct omit |]. f_equal.
  induction ents as [|ent ents IH]; [done |]. cbn [fmap list_fmap concat]. rewrite fmap_app, concat_app, <- IH, encode_lines. done.
Qed.

Lemma text_line_newline (l : bytes) : text_line l → no_newline l.
Proof. intros [H _] Hin. rewrite Forall_forall in H. by destruct (H _ Hin) as (_ & ? & _). Qed.

Lemma export_lines_text (omit : bool) (ents : list SearchEntry) : Forall (readable omit) ents → Forall text_line (export_lines omit ents).
Proof.
  intros H. assert (Hlit : ∀ l, l ∈ [ldifVersionLine; B "# labldap export"; B "# omitSecrets: true"; []; LDIFCompleteMark] → text_line l).
  { intros l Hl. repeat (apply elem_of_cons in Hl as [->|Hl]; [split; [repeat constructor; vm_compute; done | done] |]). by apply not_elem_of_nil in Hl. }
  unfold export_lines, header_lines. rewrite !Forall_app. split_and!.
  - apply Forall_forall. intros l Hl. apply Hlit. set_solver.
  - apply Forall_forall. intros l Hl. apply Hlit. destruct omit; set_solver.
  - apply Forall_forall. intros l Hl. apply Hlit. set_solver.
  - induction H as [|ent ents He _ IH]; [by constructor |]. cbn [fmap list_fmap concat]. apply Forall_app. split; [by apply entry_lines_text | exact IH].
  - apply Forall_singleton, Hlit. set_solver.
Qed.

Lemma folded_bytes (fuel : nat) (P : byte → Prop) : P x0a → P x20 → ∀ first rest, Forall P rest → Forall P (fold_loop fuel first rest).
Proof.
  intros Hn Hs. induction fuel as [|fuel IH]; intros first rest H; (destruct rest as [|c rest]; [constructor |]); [constructor |]. cbn [fold_loop]. apply Forall_app. split.
  - destruct first; by repeat constructor.
  - case_match; [done |]. apply Forall_app. split; [by apply Forall_take | apply IH; by apply Forall_drop].
Qed.

Lemma lines_no_cr (lines : list bytes) : Forall text_line lines → x0d ∉ concat (writeFolded <$> lines).
Proof.
  intros H (l & Hin & Hl)%elem_of_concat. apply list_elem_of_fmap in Hl as (line & -> & Hline). rewrite Forall_forall in H. destruct (H line Hline) as [Ht _].
  assert (Hw : Forall (λ b, b ≠ x0d) (writeFolded line)).
  { unfold writeFolded. apply Forall_app. split; [| by repeat constructor]. apply folded_bytes; [done | done |]. eapply Forall_impl; [exact Ht |]. by intros b (_ & _ & ?). }
  rewrite Forall_forall in Hw. by apply (Hw x0d).
Qed.

Lemma crlf_id (s : bytes) : x0d ∉ s → crlf s = s.
Proof.
  induction s as [|c s IH]; intros H; [done |]. apply not_elem_of_cons in H as [Hc Hs]. destruct s as [|d s]; [done |].
  change (crlf (c :: d :: s)) with (if bool_decide (c = x0d) && bool_decide (d = x0a) then x0a :: crlf s else c :: crlf (d :: s)).
  rewrite (bool_decide_false (c = x0d)) by done. cbn [andb]. by rewrite IH.
Qed.

Lemma unfold_lines (lines : list bytes) : Forall text_line lines → unfoldLDIF (concat (writeFolded <$> lines)) = concat ((λ l, l ++ [x0a]) <$> lines).
Proof.
  induction 1 as [|l lines Hl H IH]; [done |]. cbn [fmap list_fmap concat]. rewrite unfold_folded by by apply text_line_newline. rewrite <- (assoc_L (++)). f_equal. rewrite <- IH. clear IH.
  assert (Hh : head (concat (writeFolded <$> lines)) ≠ Some x20).
  { destruct H as [|l' lines [_ Hl'] _]; [done |]. cbn [fmap list_fmap concat]. unfold writeFolded. destruct l' as [|c t]; [done |]. cbn [length fold_loop app].
    destruct (_ <=? _)%nat; [exact Hl' |]. exact Hl'. }
  destruct (concat (writeFolded <$> lines)) as [|d u]; [done |].
  change (unfoldLDIF ([x0a] ++ d :: u)) with (if bool_decide (x0a = x0a) && bool_decide (d = x20) then unfoldLDIF u else x0a :: unfoldLDIF (d :: u)).
  rewrite (bool_decide_false (d = x20)) by (intros ->; by apply Hh). by rewrite andb_false_r.
Qed.

Lemma split_lines (lines : list bytes) : Forall text_line lines → split_byte x0a (concat ((λ l, l ++ [x0a]) <$> lines)) = lines ++ [[]].
Proof.
  induction 1 as [|l lines Hl H IH]; [done |]. cbn [fmap list_fmap concat]. rewrite <- (assoc_L (++)), split_app, IH, split_plain by by apply text_line_newline. done.
Qed.

Lemma header_read (omit : bool) (r : reading) : rd_cur r = None → foldl read_line r (header_lines omit) = r.
Proof. destruct r as [out cur]. cbn [rd_cur]. intros ->. by destruct omit. Qed.

Lemma parse_export (omit : bool) (ents : list SearchEntry) : Forall (readable omit) ents → ParseLDIF (export_text omit ents) = exported omit <$> ents.
Proof.
  intros H. pose proof (export_lines_text omit ents H) as Ht. unfold ParseLDIF. rewrite export_text_lines, crlf_id by by apply lines_no_cr.
  rewrite unfold_lines, split_lines by done. unfold export_lines. rewrite !foldl_app, header_read by done.
  assert (He : ∀ out, foldl read_line (MkReading out None) (concat ((λ ent, entry_lines omit ent ++ [[]]) <$> ents)) = MkReading (out ++ (exported omit <$> ents)) None).
  { clear Ht. induction H as [|ent ents He _ IH]; intros out; [by rewrite app_nil_r |]. cbn [fmap list_fmap concat]. rewrite foldl_app, read_entry by done. rewrite IH. by rewrite <- (assoc_L (++)). }
  rewrite He. done.
Qed.

Lemma export_narrow (omit : bool) (ents : list SearchEntry) : Forall (readable omit) ents → narrow (export_text omit ents).
Proof.
  intros H. pose proof (export_lines_text omit ents H) as Ht. rewrite export_text_lines. induction Ht as [|l lines Hl _ IH]; [repeat constructor; cbn; lia |].
  cbn [fmap list_fmap concat]. apply folded_narrow; [by apply text_line_newline | exact IH].
Qed.

(** * The encoder *)

#[local] Existing Instance buffer.

(** Every entry, then the trailer, until one fails. *)
Fixpoint export (ents : list SearchEntry) (e : Encoder bytes) : option export_err * Encoder bytes :=
  match ents with
  | [] => Close e
  | ent :: ents' =>
    match WriteEntry false ent e with
    | (Some err, e) => (Some err, e)
    | (None, e) => export ents' e
    end
  end.

(** What has been written is counted and within the limits. *)
Definition within (opts : ExportOptions) (e : Encoder bytes) : Prop :=
  en_opts e = opts ∧ en_wrote e = blen (en_w e) ∧ (0 < MaxBytes opts → en_wrote e ≤ MaxBytes opts) ∧ (0 < MaxEntries opts → en_entries e ≤ MaxEntries opts).

Section limits.
Context (opts : ExportOptions).

Lemma writeRaw_buffer (s : bytes) (e e' : Encoder bytes) (r : option export_err) : writeRaw s e = (r, e') → within opts e →
  within opts e' ∧ match r with
  | None => e' = MkEncoder (en_w e ++ s) (en_opts e) (en_wrote e + blen s) (en_entries e) (en_header e) (en_closed e)
  | Some _ => e' = e
  end.
Proof.
  unfold writeRaw. destruct (over_bytes e s) eqn:Eo; [by intros [= <- <-] |]. cbn [io_Write buffer]. rewrite Z.eqb_refl. intros [= <- <-] (Ho & Hw & Hb & He). split; [| done].
  unfold within. cbn [en_wrote en_w en_opts en_entries]. split_and!; [done | rewrite Hw; unfold blen; rewrite length_app; lia | | done].
  intros Hm. unfold over_bytes in Eo. rewrite Ho in Eo. apply andb_false_iff in Eo as [Eo%Z.ltb_ge|Eo%Z.ltb_ge]; lia.
Qed.

(** The header, if it is still to come. *)
Definition pending (e : Encoder bytes) : bytes := if en_header e then [] else header_text (OmitSecrets opts).

Lemma header_buffer (e e' : Encoder bytes) (r : option export_err) : ensureHeader e = (r, e') → within opts e →
  within opts e' ∧ (r = None → en_w e' = en_w e ++ pending e ∧ en_entries e' = en_entries e ∧ en_header e' = true ∧ en_closed e' = en_closed e).
Proof.
  unfold ensureHeader, pending. destruct (en_header e) eqn:Eh; [intros [= <- <-] H; by rewrite app_nil_r |].
  intros H Hw. pose proof Hw as (Ho & _). rewrite Ho in H. destruct (writeRaw _ e) as [[err|] e1] eqn:Ew; injection H as <- <-; destruct (writeRaw_buffer _ _ _ _ Ew Hw) as [Hw1 ->]; [done |].
  split; [exact Hw1 | done].
Qed.

Lemma WriteEntry_buffer (ent : SearchEntry) (e e' : Encoder bytes) (r : option export_err) : WriteEntry false ent e = (r, e') → within opts e →
  within opts e' ∧ (r = None → en_w e' = en_w e ++ pending e ++ encodeLDIFEntry ent (OmitSecrets opts) ∧ en_entries e' = en_entries e + 1 ∧ en_header e' = true ∧ en_closed e' = false).
Proof.
  unfold WriteEntry. destruct (en_closed e) eqn:Ec; [by intros [= <- <-] |]. destruct (ensureHeader e) as [[err|] e1] eqn:Eh; intros H Hw; destruct (header_buffer _ _ _ Eh Hw) as [Hw1 Hx].
  { by injection H as <- <-. }
  destruct (Hx eq_refl) as (E1 & E2 & E3 & E4). pose proof Hw1 as (Ho & _). rewrite Ho in H. destruct ((0 <? MaxEntries _) && _) eqn:Em; [by injection H as <- <- |].
  destruct (over_bytes e1 _); [by injection H as <- <- |].
  destruct (writeRaw _ e1) as [[err|] e2] eqn:Ew; injection H as <- <-; destruct (writeRaw_buffer _ _ _ _ Ew Hw1) as [Hw2 ->]; [done |].
  cbn [en_w en_entries en_header en_closed en_opts en_wrote] in *. rewrite E1, E2, E3, E4, Ec. split; [| by rewrite (assoc_L (++))].
  destruct Hw2 as (_ & Hw2 & Hb2 & _). cbn [en_w en_wrote] in *. unfold within. cbn [en_wrote en_w en_opts en_entries]. rewrite <- E1. split_and!; [done | done | done |].
  intros Hm. rewrite E2 in Em. apply andb_false_iff in Em as [Em%Z.ltb_ge|Em%Z.ltb_ge]; lia.
Qed.

Lemma export_buffer (ents : list SearchEntry) : ∀ e e' r, export ents e = (r, e') → en_closed e = false → within opts e →
  within opts e' ∧ (r = None → en_w e' = en_w e ++ pending e ++ concat ((λ ent, encodeLDIFEntry ent (OmitSecrets opts)) <$> ents) ++ LDIFCompleteMark ++ [x0a] ∧
    en_entries e' = en_entries e + Z.of_nat (length ents) ∧ en_closed e' = true).
Proof.
  induction ents as [|ent ents IH]; intros e e' r H Hc Hw; cbn [export] in H.
  - unfold Close in H. rewrite Hc in H. destruct (ensureHeader e) as [[err|] e1] eqn:Eh; destruct (header_buffer _ _ _ Eh Hw) as [Hw1 Hx]; [by injection H as <- <- |].
    destruct (Hx eq_refl) as (E1 & E2 & _ & _). destruct (over_bytes e1 _); [by injection H as <- <- |].
    destruct (writeRaw _ e1) as [[err|] e2] eqn:Ew; injection H as <- <-; destruct (writeRaw_buffer _ _ _ _ Ew Hw1) as [Hw2 ->]; [done |].
    split; [exact Hw2 |]. intros _. cbn [en_w en_opts en_entries en_closed fmap list_fmap concat app length]. rewrite E1, E2, <- (assoc_L (++)). split_and!; [done | lia | done].
  - destruct (WriteEntry false ent e) as [[err|] e1] eqn:Ew; destruct (WriteEntry_buffer _ _ _ _ Ew Hw) as [Hw1 Hx]; [by injection H as <- <- |].
    destruct (Hx eq_refl) as (E1 & E2 & E3 & E4). destruct (IH e1 e' r H E4 Hw1) as [Hw' Hr]. split; [done |]. intros ->. destruct (Hr eq_refl) as (F1 & F2 & F3).
    unfold pending in F1 at 1. rewrite E3 in F1. rewrite F1, F2, F3, E1, E2. cbn [fmap list_fmap concat length app]. rewrite <- !(assoc_L (++)). split_and!; [done | lia | done].
Qed.
End limits.

(** C35.  An export can be read back.  Every export stays within its limits, also one that
    fails; and one that succeeds, of entries with attribute names the reader takes for
    names and values without a colon pair unless written in base 64, is read back as its
    entries in order, each with the attributes that are not secret (when secrets are
    omitted), under their names in lower case, none missing and none added; it has no line
    over 76 octets. *)
Theorem export_roundtrip (opts : ExportOptions) (ents : list SearchEntry) (r : option export_err) (e : Encoder bytes) :
  export ents (NewEncoder [] opts) = (r, e) →
  en_wrote e = blen (en_w e) ∧ (0 < MaxBytes opts → blen (en_w e) ≤ MaxBytes opts) ∧ (0 < MaxEntries opts → en_entries e ≤ MaxEntries opts) ∧
  (r = None → Forall (readable (OmitSecrets opts)) ents →
   ParseLDIF (en_w e) = exported (OmitSecrets opts) <$> ents ∧ narrow (en_w e) ∧
   ∀ ent kv, ent ∈ ents → kv ∈ se_Attributes (exported (OmitSecrets opts) ent) ↔
     ∃ a, a ∈ se_Attributes ent ∧ skipped (OmitSecrets opts) (line_name (kv_Name a)) = false ∧ kv = MkAttrKV (line_name (kv_Name a)) (kv_Value a)).
Proof.
  intros H. assert (Hw0 : within opts (NewEncoder [] opts)) by (unfold within, NewEncoder; cbn [en_opts en_wrote en_w en_entries]; split_and!; done || lia).
  destruct (export_buffer opts ents _ _ _ H eq_refl Hw0) as [(Ho & Hw & Hb & He) Hr]. split_and!; [done | by rewrite <- Hw | done |].
  intros Er Hread. destruct (Hr Er) as (Et & _ & _). change (en_w (NewEncoder [] opts) ++ pending opts (NewEncoder [] opts) ++ ?x) with (header_text (OmitSecrets opts) ++ x) in Et.
  change (en_w e = export_text (OmitSecrets opts) ents) in Et. rewrite Et. split_and!; [by apply parse_export | by apply export_narrow |]. intros ent kv _. apply exported_attrs.
Qed.
End text.

(** * A sample *)

Section sample.
#[local] Existing Instance ascii_unicode.
#[local] Existing Instance buffer.

Definition sample_entry : SearchEntry :=
  MkSearchEntry (B "uid=ann,dc=test")
    [MkAttrKV (B "CN") (B "Ann "); MkAttrKV (B "userPassword") (B "secret"); MkAttrKV (B "description") (repeat x61 100); MkAttrKV (B "cn") (B "Ann: A")].

Definition sample_opts : ExportOptions := MkExportOptions true 5 1000.

Definition sample_export : Encoder bytes := (export [sample_entry] (NewEncoder [] sample_opts)).2.

Lemma export_roundtrip_witness :
  en_wrote sample_export = blen (en_w sample_export) ∧ (0 < MaxBytes sample_opts → blen (en_w sample_export) ≤ MaxBytes sample_opts) ∧
  (0 < MaxEntries sample_opts → en_entries sample_export ≤ MaxEntries sample_opts) ∧
  (@None export_err = None → Forall (readable (OmitSecrets sample_opts)) [sample_entry] →
   ParseLDIF (en_w sample_export) = exported (OmitSecrets sample_opts) <$> [sample_entry] ∧ narrow (en_w sample_export) ∧
   ∀ ent kv, ent ∈ [sample_entry] → kv ∈ se_Attributes (exported (OmitSecrets sample_opts) ent) ↔
     ∃ a, a ∈ se_Attributes ent ∧ skipped (OmitSecrets sample_opts) (line_name (kv_Name a)) = false ∧ kv = MkAttrKV (line_name (kv_Name a)) (kv_Value a)).
Proof.
  apply (export_roundtrip (UL := ascii_unicode_laws) sample_opts [sample_entry] None sample_export). vm_compute. reflexivity.
Defined.

Example sample_read : ParseLDIF (en_w sample_export) =
  [MkSearchEntry (B "uid=ann,dc=test") [MkAttrKV (B "cn") (B "Ann "); MkAttrKV (B "cn") (B "Ann: A"); MkAttrKV (B "description") (repeat x61 100)]].
Proof. vm_compute. reflexivity. Qed.

(** A value with a colon pair is not read back, nor is an attribute named version. *)
Theorem colon_pair_lost :
  let e := MkSearchEntry (B "dc=test") [MkAttrKV (B "cn") (B "a:: b!"); MkAttrKV (B "version") (B "1")] in
  ParseLDIF (en_w (export [e] (NewEncoder [] sample_opts)).2) = [MkSearchEntry (B "dc=test") []].
Proof. vm_compute. reflexivity. Qed.
End sample.
