(* ===== verification/Scenario.v ===== *)
(** The configuration document: its data ([src/internal/config/v1alpha1/file.go]), its
    defaults and the checks of its settings ([settings.go]), and the allowed hosts
    ([hosts.go]).

    The document is the one the YAML library has decoded; it is modelled as far as these
    functions and the compiler ([Baseline]) read it, and [Convert] copies it field by
    field into its internal form, so that the two are one here.  An error is its fields, each a path
    and a code.  [time.ParseDuration] (whose fractions are floating point), [net.ParseIP]
    and [net.SplitHostPort] are arguments. *)

From stdpp Require Import fin_sets.
From S2P Require Import Prelude GoStrings DN Paging AciCompile.
Local Open Scope Z_scope.

Class ConfigLib : Type := {
  SplitHostPort : bytes → option (bytes * bytes);
  ParseIP : bytes → bool;
  ParseDuration : bytes → option Z;
}.

(** * The document *)

Record Directory : Type := MkDirectory {
  d_Engine : bytes;
  d_Suffix : bytes;
  d_AdditionalSuffixes : list bytes;
  d_PeopleRDN : bytes;
  d_GroupsRDN : bytes;
  d_NestedGroups : bool;
  d_AllowRawACI : bool;
}.

Record Lifecycle : Type := MkLifecycle {
  lc_StorageMode : bytes;
  lc_StartupMode : bytes;
  lc_SoftReset : option bool;
}.

Record PortSpec : Type := MkPortSpec {
  ps_Enabled : bool;
  ps_Port : Z;
}.

Record Transport : Type := MkTransport {
  tr_InsecureLabMode : bool;
  tr_LDAP : PortSpec;
  tr_LDAPS : PortSpec;
  tr_StartTLS : bool;
  tr_AllowCleartextBind : bool;
}.

Record Management : Type := MkManagement {
  mg_Listen : bytes;
  mg_AllowedHosts : list bytes;
  mg_TLSMode : bytes;
  mg_IdleTimeout : bytes;
  mg_AbsoluteTimeout : bytes;
  mg_MaxSessions : Z;
  mg_Metrics : option bool;
  mg_MCP : option bool;
}.

Record Limits : Type := MkLimits {
  lim_RequestTimeout : bytes;
  lim_ShutdownTimeout : bytes;
  lim_MaxRequestBodyBytes : Z;
  lim_PageSizeDefault : Z;
  lim_PageSizeMax : Z;
  lim_ExportMaxEntries : Z;
  lim_ExportMaxBytes : Z;
  lim_LDAPPoolSize : Z;
}.

Record RuntimeAccount : Type := MkRuntimeAccount {
  ra_ID : bytes;
  ra_PasswordFile : bytes;
}.

Record User : Type := MkUser {
  u_ID : bytes;
  u_UID : bytes;
  u_RDN : bytes;
  u_DN : bytes;
  u_PasswordFile : bytes;
  u_Enabled : option bool;
  u_Attributes : gmap bytes bytes;
}.

Record Member : Type := MkMemberIn {
  m_User : bytes;
  m_Group : bytes;
}.

Record Group : Type := MkGroup {
  g_ID : bytes;
  g_Members : list Member;
}.

Record Lockout : Type := MkLockout {
  lk_Enabled : bool;
  lk_MaxFailures : Z;
  lk_LockoutDuration : bytes;
}.

Record PasswordPolicy : Type := MkPasswordPolicy {
  pp_MinLength : Z;
  pp_HistoryCount : Z;
  pp_MaxAge : bytes;
  pp_WarningAge : bytes;
  pp_Lockout : Lockout;
  pp_StorageScheme : bytes;
}.

Record Token : Type := MkTokenIn {
  t_ID : bytes;
  t_SecretFile : bytes;
  t_Scopes : list bytes;
}.

Record File : Type := MkFile {
  f_Name : bytes;
  f_Directory : Directory;
  f_Lifecycle : Lifecycle;
  f_Transport : Transport;
  f_Management : Management;
  f_Limits : Limits;
  f_RuntimeAccount : RuntimeAccount;
  f_Users : list User;
  f_Groups : list Group;
  f_PasswordPolicy : PasswordPolicy;
  f_ACLs : list ACL;
  f_Tokens : list Token;
}.

Definition Engines : list bytes := [B "389ds"; B "native"].
Definition StorageModes : list bytes := [B "ephemeral"; B "persistent"].
Definition StartupModes : list bytes := [B "validate"; B "merge"; B "reset"].
Definition TLSModes : list bytes := [B "generated"; B "files"; B "disabled"].

(** * Errors *)

(** [apperr.Error], by its fields. *)
Abbreviation config_err := (list cfg_err).

Definition fieldErr (path code : bytes) : config_err := [MkCfgErr path code].

Definition joinConfig (acc : list config_err) : option config_err :=
  match acc with
  | [] => None
  | _ => Some (concat acc)
  end.

(** [if b { acc = append(acc, fieldErr(path, code)) }] *)
Definition flag (b : bool) (path code : bytes) : list config_err := if b then [fieldErr path code] else [].

Definition at_index (path : bytes) (i : nat) : bytes := path ++ B "[" ++ itoa (Z.of_nat i) ++ B "]".

(** * Defaults *)

Definition or_default (s d : bytes) : bytes := if beq s [] then d else s.
Definition or_number (n d : Z) : Z := if n =? 0 then d else n.
Definition or_true (b : option bool) : option bool := Some (default true b).

Definition default_directory (d : Directory) : Directory :=
  MkDirectory (or_default (d_Engine d) (B "native")) (d_Suffix d) (d_AdditionalSuffixes d)
    (or_default (d_PeopleRDN d) (B "ou=people")) (or_default (d_GroupsRDN d) (B "ou=groups")) (d_NestedGroups d) (d_AllowRawACI d).

Definition default_transport (t : Transport) : Transport :=
  let secure := negb (ps_Enabled (tr_LDAP t)) && negb (ps_Enabled (tr_LDAPS t)) && negb (tr_StartTLS t) in
  MkTransport (tr_InsecureLabMode t)
    (MkPortSpec (ps_Enabled (tr_LDAP t)) (or_number (ps_Port (tr_LDAP t)) 3389))
    (MkPortSpec (secure || ps_Enabled (tr_LDAPS t)) (or_number (ps_Port (tr_LDAPS t)) 3636))
    (tr_StartTLS t) (tr_AllowCleartextBind t).

Definition default_management (m : Management) : Management :=
  MkManagement (or_default (mg_Listen m) (B "127.0.0.1:8443")) (mg_AllowedHosts m) (or_default (mg_TLSMode m) (B "generated"))
    (or_default (mg_IdleTimeout m) (B "30m")) (or_default (mg_AbsoluteTimeout m) (B "8h")) (or_number (mg_MaxSessions m) 64)
    (or_true (mg_Metrics m)) (or_true (mg_MCP m)).

Definition default_limits (l : Limits) : Limits :=
  MkLimits (or_default (lim_RequestTimeout l) (B "30s")) (or_default (lim_ShutdownTimeout l) (B "15s"))
    (or_number (lim_MaxRequestBodyBytes l) (2^20)) (or_number (lim_PageSizeDefault l) 50) (or_number (lim_PageSizeMax l) 500)
    (or_number (lim_ExportMaxEntries l) 20000) (or_number (lim_ExportMaxBytes l) 67108864) (or_number (lim_LDAPPoolSize l) 16).

Definition applyDefaults (f : File) : File :=
  MkFile (f_Name f) (default_directory (f_Directory f))
    (MkLifecycle (or_default (lc_StorageMode (f_Lifecycle f)) (B "ephemeral")) (or_default (lc_StartupMode (f_Lifecycle f)) (B "merge"))
      (or_true (lc_SoftReset (f_Lifecycle f))))
    (default_transport (f_Transport f)) (default_management (f_Management f)) (default_limits (f_Limits f))
    (f_RuntimeAccount f) (f_Users f) (f_Groups f) (f_PasswordPolicy f) (f_ACLs f) (f_Tokens f).

Section scenario.
Context {U : Unicode} {CL : ConfigLib}.

(** * Allowed hosts *)

(** [strings.ContainsAny]. *)
Definition contains_any (s set : bytes) : bool := existsb (λ b, bool_decide (b ∈ set)) s.

Definition SplitHostList (raw : bytes) : list bytes :=
  let raw := trim_space raw in
  if beq raw [] then [] else trim_space <$> split_byte x2c raw.

(** The loops of [UnionAllowedHosts]. *)
Fixpoint union_hosts (seen : gset bytes) (l : list bytes) : list bytes :=
  match l with
  | [] => []
  | h :: l' =>
    let h := trim_space h in
    if beq h [] then union_hosts seen l'
    else if bool_decide (to_lower h ∈ seen) then union_hosts seen l'
    else h :: union_hosts ({[to_lower h]} ∪ seen) l'
  end.

Definition UnionAllowedHosts (lists : list (list bytes)) : list bytes := union_hosts ∅ (concat lists).

Definition splitAllowedHost (s : bytes) : option (bytes * option bytes) :=
  if has_prefix s (B "[") then
    match index s (B "]") with
    | None | Some O => None
    | Some (S k) =>
      let host := take k (drop 1 s) in
      let rest := drop (S (S k)) s in
      if beq rest [] then Some (host, None)
      else if negb (has_prefix rest (B ":")) || beq rest (B ":") then None
      else Some (host, Some (drop 1 rest))
    end
  else
    match SplitHostPort s with
    | Some (h, p) => Some (h, Some p)
    | None =>
      if contains s (B ":") then if ParseIP s then Some (s, None) else None
      else Some (s, None)
    end.

Definition validTCPPort (port : bytes) : bool :=
  match atoi port with
  | Some n => (1 <=? n) && (n <=? 65535)
  | None => false
  end.

Definition host_char (b : byte) : bool :=
  in_range 97 122 (bz b) || in_range 65 90 (bz b) || in_range 48 57 (bz b) || bool_decide (b = x2d).

Definition valid_label (label : bytes) : bool :=
  negb ((length label =? 0)%nat || (63 <? length label)%nat) &&
  negb (bool_decide (head label = Some x2d) || bool_decide (last label = Some x2d)) &&
  forallb host_char label.

Definition validDNSName (s : bytes) : bool :=
  if (length s =? 0)%nat || (253 <? length s)%nat then false
  else
    let s := if has_suffix s (B ".") then take (length s - 1) s else s in
    forallb valid_label (split_byte x2e s).

Definition validHostNameOrIP (host : bytes) : bool :=
  let host := trim_space host in
  if beq host [] || contains host (B "*") then false
  else if ParseIP host then true
  else validDNSName host.

(** The code of [validateAllowedHost], [None] for a host that is accepted. *)
Definition validateAllowedHost (raw : bytes) : option bytes :=
  let s := trim_space raw in
  if beq s [] then Some (B "empty")
  else if beq s (B "*") then Some (B "wildcard")
  else if contains s (B "://") then Some (B "invalid_host")
  else if contains_any s [x2f; x3f; x23; x40; x20; x09; x0d; x0a] then Some (B "invalid_host")
  else
    match splitAllowedHost s with
    | None => Some (B "invalid_host")
    | Some (host, port) =>
      if match port with Some p => negb (validTCPPort p) | None => false end then Some (B "invalid_host")
      else if negb (validHostNameOrIP host) then Some (B "invalid_host")
      else None
    end.

Definition checkAllowedHosts (basePath : bytes) (hosts : list bytes) : list config_err :=
  concat (imap (λ i h, match validateAllowedHost h with Some code => [fieldErr (at_index basePath i) code] | None => [] end) hosts).

Definition AllowedHostsEnv : bytes := B "LABLDAP_MANAGEMENT_ALLOWED_HOSTS".

Definition with_hosts (hosts : list bytes) (f : File) : File :=
  let m := f_Management f in
  MkFile (f_Name f) (f_Directory f) (f_Lifecycle f) (f_Transport f)
    (MkManagement (mg_Listen m) hosts (mg_TLSMode m) (mg_IdleTimeout m) (mg_AbsoluteTimeout m) (mg_MaxSessions m) (mg_Metrics m) (mg_MCP m))
    (f_Limits f) (f_RuntimeAccount f) (f_Users f) (f_Groups f) (f_PasswordPolicy f) (f_ACLs f) (f_Tokens f).

(** [env] is the variable's value, [extra] the hosts of the command line. *)
Definition applyAllowedHostSources (env : bytes) (extra : list bytes) (f : File) : res config_err File :=
  let envItems := SplitHostList env in
  let hosts := mg_AllowedHosts (f_Management f) in
  match joinConfig (checkAllowedHosts (B "spec.management.allowedHosts") hosts ++ checkAllowedHosts AllowedHostsEnv envItems ++
                    checkAllowedHosts (B "--management-allowed-host") extra) with
  | Some e => Err e
  | None => Ok (with_hosts (UnionAllowedHosts [hosts; envItems; extra]) f)
  end.

(** * Settings *)

Definition checkPort (path : bytes) (port : Z) : list config_err := flag ((port <? 1) || (65535 <? port)) path (B "invalid_port").

Definition checkDuration (path raw : bytes) : list config_err :=
  if beq raw [] then [] else flag (bool_decide (ParseDuration raw = None)) path (B "invalid_duration").

Definition checkPositive (path : bytes) (n : Z) : list config_err := flag (n <? 0) path (B "invalid_limit").

Definition maxAdditionalSuffixes : nat := 16.

Definition suffix_path : bytes := B "spec.directory.additionalSuffixes".

(** The inner loop: how [d] clashes with the first suffix it clashes with. *)
Fixpoint clash (d : DN) (parsed : list DN) : option bytes :=
  match parsed with
  | [] => None
  | other :: parsed' =>
    if EqualFold d other then Some (B "duplicate")
    else if IsDescendantOf d other || IsDescendantOf other d then Some (B "nested_suffix")
    else clash d parsed'
  end.

Fixpoint check_suffixes (seen : gset bytes) (parsed : list DN) (extra : list bytes) : list config_err :=
  match extra with
  | [] => []
  | raw :: extra' =>
    if beq (trim_space raw) [] then fieldErr suffix_path (B "invalid_dn") :: check_suffixes seen parsed extra'
    else
      match ParseDN raw with
      | Err _ => fieldErr suffix_path (B "invalid_dn") :: check_suffixes seen parsed extra'
      | Ok d =>
        if bool_decide (FoldedKey d ∈ seen) then fieldErr suffix_path (B "duplicate") :: check_suffixes seen parsed extra'
        else
          let seen := {[FoldedKey d]} ∪ seen in
          match clash d parsed with
          | Some code => fieldErr suffix_path code :: check_suffixes seen parsed extra'
          | None => check_suffixes seen (parsed ++ [d]) extra'
          end
      end
  end.

Definition checkAdditionalSuffixes (primary : bytes) (extra : list bytes) : list config_err :=
  if (length extra =? 0)%nat then []
  else if (maxAdditionalSuffixes <? length extra)%nat then [fieldErr suffix_path (B "invalid_limit")]
  else
    let parsed := if beq primary [] then [] else match ParseDN primary with Ok p => [p] | Err _ => [] end in
    check_suffixes ∅ parsed extra.

Definition one_of (v : bytes) (xs : list bytes) : bool := bool_decide (v ∈ xs).

Definition check_directory (f : File) : list config_err :=
  let d := f_Directory f in
  flag (beq (f_Name f) []) (B "metadata.name") (B "required") ++
  flag (negb (one_of (d_Engine d) Engines)) (B "spec.directory.engine") (B "invalid_enum") ++
  (if beq (d_Suffix d) [] then [fieldErr (B "spec.directory.suffix") (B "required")]
   else flag (negb (is_ok (ParseDN (d_Suffix d)))) (B "spec.directory.suffix") (B "invalid_dn")) ++
  checkAdditionalSuffixes (d_Suffix d) (d_AdditionalSuffixes d) ++
  flag (negb (one_of (lc_StorageMode (f_Lifecycle f)) StorageModes)) (B "spec.lifecycle.storageMode") (B "invalid_enum") ++
  flag (negb (one_of (lc_StartupMode (f_Lifecycle f)) StartupModes)) (B "spec.lifecycle.startupMode") (B "invalid_enum").

Definition check_transport (f : File) : list config_err :=
  let tr := f_Transport f in
  let mg := f_Management f in
  flag (negb (tr_InsecureLabMode tr) && negb (ps_Enabled (tr_LDAPS tr) || tr_StartTLS tr)) (B "spec.transport") (B "insecure") ++
  flag (tr_AllowCleartextBind tr && negb (tr_InsecureLabMode tr)) (B "spec.transport.allowCleartextBind") (B "insecure") ++
  flag (beq (mg_TLSMode mg) (B "disabled") && negb (tr_InsecureLabMode tr)) (B "spec.management.tls.mode") (B "insecure") ++
  flag (negb (one_of (mg_TLSMode mg) TLSModes)) (B "spec.management.tls.mode") (B "invalid_enum") ++
  flag (bool_decide (SplitHostPort (mg_Listen mg) = None)) (B "spec.management.listen") (B "invalid_address") ++
  checkAllowedHosts (B "spec.management.allowedHosts") (mg_AllowedHosts mg) ++
  checkPort (B "spec.transport.ldap.port") (ps_Port (tr_LDAP tr)) ++
  checkPort (B "spec.transport.ldaps.port") (ps_Port (tr_LDAPS tr)) ++
  checkDuration (B "spec.management.session.idleTimeout") (mg_IdleTimeout mg) ++
  checkDuration (B "spec.management.session.absoluteTimeout") (mg_AbsoluteTimeout mg).

Definition check_limits (f : File) : list config_err :=
  let l := f_Limits f in
  checkDuration (B "spec.limits.requestTimeout") (lim_RequestTimeout l) ++
  checkPositive (B "spec.limits.pageSizeDefault") (lim_PageSizeDefault l) ++
  checkPositive (B "spec.limits.pageSizeMax") (lim_PageSizeMax l) ++
  flag ((lim_PageSizeMax l <? lim_PageSizeDefault l) && (0 <? lim_PageSizeMax l)) (B "spec.limits.pageSizeDefault") (B "invalid_limit") ++
  flag (beq (ra_PasswordFile (f_RuntimeAccount f)) []) (B "spec.runtimeAccount.passwordFile") (B "required").

Definition validateSettings (f : File) : option config_err := joinConfig (check_directory f ++ check_transport f ++ check_limits f).

(** [Load], from the decoded document on. *)
Definition Load (env : bytes) (extra : list bytes) (f : File) : res config_err File :=
  f ← applyAllowedHostSources env extra (applyDefaults f);
  match validateSettings f with
  | Some e => Err e
  | None => Ok f
  end.

Inductive LoadCaller : Type := CallerUnspecified | CallerBootstrap | CallerControl | CallerCLI.

Definition requireUserSeeds (f : File) (caller : LoadCaller) : bool :=
  default true (lc_SoftReset (f_Lifecycle f)) || match caller with CallerBootstrap => true | _ => false end.

Definition warnPersistentReset (f : File) : bool :=
  beq (lc_StorageMode (f_Lifecycle f)) (B "persistent") && beq (lc_StartupMode (f_Lifecycle f)) (B "reset").
End scenario.
