(* ===== verification/GroupGraph.v ===== *)
(** The groups of a configuration: [src/internal/config/group.go].

    [detectCycles] colours the membership graph depth first.  Go walks a map in an order
    of its own; [order] is that order, and the verdict does not depend on it
    ([GroupGraph.detectCycles_cycle]).  The walk is recursive; its fuel is one for every node
    that is still white, which is enough ([GroupGraph.walk_spec]). *)

From stdpp Require Import fin_sets relations.
From S2P Require Import Prelude GoStrings DN DNFacts Schema Paging GoText Bolt Gate ResetPlan ResetRun AciCompile Scenario.
Local Open Scope Z_scope.

(** * Cycles *)

(** A node without a colour is white. *)
Inductive colour : Type := Gray | Black.

Abbreviation colours := (gmap bytes colour).
Abbreviation graph := (gmap bytes (list bytes)).

Definition succs (adj : graph) (n : bytes) : list bytes := default [] (adj !! n).

(** The loop over the successors of a node. *)
Fixpoint walk_list (walk : bytes → colours → bool * colours) (ms : list bytes) (col : colours) : bool * colours :=
  match ms with
  | [] => (false, col)
  | m :: ms' =>
    match col !! m with
    | Some Gray => (true, col)
    | Some Black => walk_list walk ms' col
    | None => let '(cycle, col) := walk m col in if cycle : bool then (true, col) else walk_list walk ms' col
    end
  end.

Fixpoint walk (fuel : nat) (adj : graph) (n : bytes) (col : colours) : bool * colours :=
  match fuel with
  | O => (true, col)
  | S fuel =>
    let '(cycle, col) := walk_list (walk fuel adj) (succs adj n) (<[n := Gray]> col) in
    if cycle : bool then (true, col) else (false, <[n := Black]> col)
  end.

Definition nodes (adj : graph) : gset bytes := dom adj ∪ list_to_set (concat (map_to_list adj).*2).

Fixpoint detect (adj : graph) (order : list bytes) (col : colours) : bool :=
  match order with
  | [] => false
  | n :: order' =>
    match col !! n with
    | None => let '(cycle, col) := walk (S (size (nodes adj))) adj n col in if cycle : bool then true else detect adj order' col
    | Some _ => detect adj order' col
    end
  end.

Definition detectCycles (order : list bytes) (adj : graph) : list config_err :=
  flag (detect adj order ∅) (B "spec.groups") (B "cycle").

(** * Groups *)

(** The first loop: the identifiers. *)
Fixpoint group_ids (i : nat) (seen : gset bytes) (gs : list Group) : list config_err * gset bytes :=
  match gs with
  | [] => ([], seen)
  | g :: gs' =>
    let path := at_index (B "spec.groups") i ++ B ".id" in
    if beq (g_ID g) [] then let '(es, ids) := group_ids (S i) seen gs' in (fieldErr path (B "required") :: es, ids)
    else if bool_decide (g_ID g ∈ seen) then let '(es, ids) := group_ids (S i) seen gs' in (fieldErr path (B "duplicate") :: es, ids)
    else group_ids (S i) ({[g_ID g]} ∪ seen) gs'
  end.

Record gathered : Type := MkGathered {
  ga_errs : list config_err;
  ga_seen : gset bytes;
  ga_members : list MemberRef;
  ga_edges : list bytes;
}.

Section groups.
Context {U : Unicode}.
Context (users : gmap bytes NormalizedUser) (groupIDs : gset bytes) (nested : bool).

Definition with_err (e : config_err) (st : gathered) : gathered := MkGathered (ga_errs st ++ [e]) (ga_seen st) (ga_members st) (ga_edges st).

(** One turn of the loop over the members. *)
Definition gather (path : bytes) (st : gathered) (jm : nat * Member) : gathered :=
  let '(j, m) := jm in
  let mp := at_index (path ++ B ".members") j in
  if negb (beq (m_User m) []) && negb (beq (m_Group m) []) then with_err (fieldErr mp (B "invalid_member")) st
  else if negb (beq (m_User m) []) then
    match users !! m_User m with
    | None => with_err (fieldErr (mp ++ B ".user") (B "missing_ref")) st
    | Some u =>
      let key := B "user:" ++ m_User m in
      if bool_decide (key ∈ ga_seen st) then st
      else MkGathered (ga_errs st) ({[key]} ∪ ga_seen st) (ga_members st ++ [MkMember (B "user") (m_User m) (nu_DN u)]) (ga_edges st)
    end
  else if negb (beq (m_Group m) []) then
    if negb nested then with_err (fieldErr (mp ++ B ".group") (B "nested_disabled")) st
    else if negb (bool_decide (m_Group m ∈ groupIDs)) then with_err (fieldErr (mp ++ B ".group") (B "missing_ref")) st
    else
      let key := B "group:" ++ m_Group m in
      if bool_decide (key ∈ ga_seen st) then st
      else MkGathered (ga_errs st) ({[key]} ∪ ga_seen st) (ga_members st ++ [MkMember (B "group") (m_Group m) []]) (ga_edges st ++ [m_Group m])
  else with_err (fieldErr mp (B "invalid_member")) st.

Definition no_gathered : gathered := MkGathered [] ∅ [] [].

Definition gather_all (path : bytes) (ms : list Member) : gathered := foldl (gather path) no_gathered (imap pair ms).

(** [adj[g.ID] = append(adj[g.ID], ...)], once for every edge. *)
Definition add_edges (id : bytes) (edges : list bytes) (adj : graph) : graph :=
  if (length edges =? 0)%nat then adj else <[id := succs adj id ++ edges]> adj.

(** The second loop: the errors, the graph and the groups. *)
Fixpoint group_loop (groupsDN : DN) (i : nat) (gs : list Group) (adj : graph) : list config_err * graph * list NormalizedGroup :=
  match gs with
  | [] => ([], adj, [])
  | g :: gs' =>
    let path := at_index (B "spec.groups") i in
    if beq (g_ID g) [] then group_loop groupsDN (S i) gs' adj
    else if (length (g_Members g) =? 0)%nat then
      let '(es, adj, out) := group_loop groupsDN (S i) gs' adj in (fieldErr (path ++ B ".members") (B "empty_group") :: es, adj, out)
    else
      match BuildRDN (B "cn") (g_ID g) with
      | Err _ => let '(es, adj, out) := group_loop groupsDN (S i) gs' adj in (fieldErr (path ++ B ".id") (B "invalid_rdn") :: es, adj, out)
      | Ok rdn =>
        let ga := gather_all path (g_Members g) in
        let '(es, adj, out) := group_loop groupsDN (S i) gs' (add_edges (g_ID g) (ga_edges ga) adj) in
        (ga_errs ga ++ es, adj, MkNGroup (g_ID g) (rdn ++ B "," ++ String groupsDN) (ga_members ga) :: out)
      end
  end.
End groups.

(** The nested groups' names, filled in once all groups exist. *)
Definition fill_member (byID : gmap bytes bytes) (m : MemberRef) : MemberRef :=
  if beq (mr_Kind m) (B "group") then MkMember (mr_Kind m) (mr_ID m) (default [] (byID !! mr_ID m)) else m.

Definition fill_group (byID : gmap bytes bytes) (g : NormalizedGroup) : NormalizedGroup :=
  MkNGroup (ng_ID g) (ng_DN g) (fill_member byID <$> ng_Members g).

(** A Go map filled in order: the last value of a key stays. *)
Definition last_wins {A} (l : list (bytes * A)) : gmap bytes A := foldl (λ m p, <[p.1 := p.2]> m) ∅ l.

Definition member_less (a b : MemberRef) : bool :=
  if negb (beq (mr_Kind a) (mr_Kind b)) then str_less (mr_Kind a) (mr_Kind b) else str_less (mr_ID a) (mr_ID b).

Definition sortGroups (gs : list NormalizedGroup) : list NormalizedGroup :=
  (λ g, MkNGroup (ng_ID g) (ng_DN g) (stable_sort member_less (ng_Members g))) <$> sort_by ng_ID gs.

Definition normalizeGroups {U : Unicode} (order : graph → list bytes) (groups : list Group) (users : list NormalizedUser) (groupsDN : DN) (nested : bool) :
    res config_err (list NormalizedGroup) :=
  let userByID := last_wins ((λ u, (nu_ID u, u)) <$> users) in
  let '(es1, groupIDs) := group_ids 0 ∅ groups in
  let '(es2, adj, out) := group_loop userByID groupIDs nested groupsDN 0 groups ∅ in
  let byID := last_wins ((λ g, (ng_ID g, ng_DN g)) <$> out) in
  match joinConfig (es1 ++ es2 ++ detectCycles (order adj) adj) with
  | Some e => Err e
  | None => Ok (sortGroups (fill_group byID <$> out))
  end.

(** Facts of the groups of a configuration: the walk finds exactly the cycles of the
    membership graph, and the groups a configuration normalises to are those it lists,
    with members that exist and no cycle. *)

(** * Cycles *)

Definition edge (adj : graph) (n m : bytes) : Prop := m ∈ succs adj n.

Definition cyclic (adj : graph) : Prop := ∃ n, tc (edge adj) n n.

Lemma tc_inv (R : relation bytes) (x z : bytes) : tc R x z → ∃ y, R x y ∧ rtc R y z.
Proof. intros H. destruct H as [x y H | x y z H Hr]; exists y; split; [done | apply rtc_refl | done | by apply tc_rtc]. Qed.

Lemma succs_dom (adj : graph) (n m : bytes) : edge adj n m → n ∈ dom adj.
Proof. unfold edge, succs. intros H. apply elem_of_dom. destruct (adj !! n); [by eexists | cbn in H; set_solver]. Qed.

Lemma succs_nodes (adj : graph) (n m : bytes) : edge adj n m → m ∈ nodes adj.
Proof.
  unfold edge, succs, nodes. intros H. apply elem_of_union_r, elem_of_list_to_set. destruct (adj !! n) as [l|] eqn:E; [| cbn in H; set_solver].
  cbn in H. apply elem_of_concat. exists l. split; [done |]. apply list_elem_of_fmap. exists (n, l). split; [done | by apply elem_of_map_to_list].
Qed.

Section cycles.
Context (adj : graph).

(** Black nodes lead to black nodes only, and none is on a cycle. *)
Record explored (col : colours) : Prop := MkExplored {
  explored_closed : ∀ n m, col !! n = Some Black → edge adj n m → col !! m = Some Black;
  explored_settled : ∀ n, col !! n = Some Black → ¬ tc (edge adj) n n;
}.

Definition grays_reach (col : colours) (n : bytes) : Prop := ∀ g, col !! g = Some Gray → rtc (edge adj) g n.

Record grown (col col' : colours) : Prop := MkGrown {
  grown_keeps : col ⊆ col';
  grown_grays : ∀ k, col' !! k = Some Gray → col !! k = Some Gray;
}.

Definition white (col : colours) : nat := size (nodes adj ∖ dom col).

Lemma done_rtc (col : colours) (n m : bytes) : explored col → col !! n = Some Black → rtc (edge adj) n m → col !! m = Some Black.
Proof. intros H Hn Hr. induction Hr as [| a b c Hab _ IH]; [done |]. by apply IH, (explored_closed _ H a). Qed.

Lemma grown_refl (col : colours) : grown col col.
Proof. by split. Qed.

Lemma grown_trans (a b c : colours) : grown a b → grown b c → grown a c.
Proof. intros [H1 H2] [H3 H4]. split; [by etrans | auto]. Qed.

Lemma grown_white (col col' : colours) : grown col col' → (white col' ≤ white col)%nat.
Proof. intros [H _]. unfold white. apply subseteq_size. apply subseteq_dom in H. set_solver. Qed.

Lemma white_gray (col : colours) (n : bytes) : n ∈ nodes adj → col !! n = None → (white (<[n := Gray]> col) < white col)%nat.
Proof.
  intros Hn Hc. unfold white. apply subset_size. rewrite dom_insert. apply not_elem_of_dom in Hc. split; [set_solver |].
  intros H. specialize (H n). set_solver.
Qed.

(** What a visit of the white node [n] comes to. *)
Definition visited (n : bytes) (col : colours) (r : bool * colours) : Prop :=
  if r.1 then cyclic adj else explored r.2 ∧ grown col r.2 ∧ r.2 !! n = Some Black.

Lemma walk_list_spec (w : bytes → colours → bool * colours) (fuel : nat) (n : bytes) :
  (∀ m col, m ∈ nodes adj → col !! m = None → (white col ≤ fuel)%nat → explored col → grays_reach col m → visited m col (w m col)) →
  ∀ ms col, (∀ m, m ∈ ms → edge adj n m) → (white col ≤ fuel)%nat → explored col → grays_reach col n →
  let r := walk_list w ms col in
  if r.1 then cyclic adj else explored r.2 ∧ grown col r.2 ∧ ∀ m, m ∈ ms → r.2 !! m = Some Black.
Proof.
  intros Hw. induction ms as [|m ms IH]; intros col Hms Hf Hd Hg; cbn.
  { split_and!; [done | apply grown_refl | set_solver]. }
  assert (Hm : edge adj n m) by (apply Hms; left). assert (Hms' : ∀ k, k ∈ ms → edge adj n k) by (intros k Hk; apply Hms; by right).
  destruct (col !! m) as [[]|] eqn:Em.
  - exists n. eapply tc_rtc_r; [by apply tc_once | by apply Hg].
  - specialize (IH col Hms' Hf Hd Hg). cbn in IH. destruct (walk_list w ms col) as [[] col']; [done |].
    destruct IH as (H1 & H2 & H3). split_and!; [done | done |]. intros k [-> | Hk]%elem_of_cons; [|auto]. cbn. eapply lookup_weaken; [done | apply H2].
  - specialize (Hw m col (succs_nodes _ _ _ Hm) Em Hf Hd). destruct (w m col) as [c col1] eqn:E1. unfold visited in Hw. cbn in Hw.
    assert (Hr : grays_reach col m) by (intros g H; eapply rtc_r; [by apply Hg | done]). specialize (Hw Hr).
    destruct c; [done |]. destruct Hw as (Hd1 & Hg1 & Hb).
    assert (Hgr : grays_reach col1 n) by (intros g H; apply Hg, (grown_grays _ _ Hg1), H).
    pose proof (grown_white _ _ Hg1). specialize (IH col1 Hms' ltac:(lia) Hd1 Hgr). cbn in IH. destruct (walk_list w ms col1) as [[] col']; [done |].
    destruct IH as (H1 & H2 & H3). split_and!; [done | by eapply grown_trans |]. intros k [-> | Hk]%elem_of_cons; [|auto]. cbn. eapply lookup_weaken; [done | apply H2].
Qed.

(** A walk from a white node ends, whatever it meets, and its verdict is right. *)
Lemma walk_spec (fuel : nat) : ∀ n col,
  n ∈ nodes adj → col !! n = None → (white col ≤ fuel)%nat → explored col → grays_reach col n → visited n col (walk fuel adj n col).
Proof.
  induction fuel as [|fuel IH]; intros n col Hn Hc Hf Hd Hg.
  { pose proof (white_gray col n Hn Hc). lia. }
  cbn [walk]. pose proof (white_gray col n Hn Hc) as Hw. set (col1 := <[n := Gray]> col) in *.
  assert (Hblack : ∀ k, col1 !! k = Some Black ↔ col !! k = Some Black).
  { intros k. unfold col1. destruct (decide (k = n)) as [->|]; [rewrite lookup_insert_eq, Hc; naive_solver | by rewrite lookup_insert_ne]. }
  assert (Hd1 : explored col1).
  { split; [intros a b Ha Hab; apply Hblack; apply Hblack in Ha; by apply (explored_closed _ Hd a) | intros a Ha; apply Hblack in Ha; by apply (explored_settled _ Hd)]. }
  assert (Hg1 : grays_reach col1 n).
  { intros g. unfold col1. destruct (decide (g = n)) as [->|]; [intros _; apply rtc_refl | rewrite lookup_insert_ne by done; apply Hg]. }
  pose proof (walk_list_spec (walk fuel adj) fuel n IH (succs adj n) col1 (λ m H, H) ltac:(lia) Hd1 Hg1) as Hl. cbn in Hl.
  destruct (walk_list (walk fuel adj) (succs adj n) col1) as [[] col2]; unfold visited; cbn; [done |]. cbn in Hl. destruct Hl as (Hd2 & Hg2 & Hs).
  assert (Hgray : col2 !! n = Some Gray) by (eapply lookup_weaken; [apply lookup_insert_eq | apply Hg2]).
  assert (Hb : ∀ k, col2 !! k = Some Black → <[n := Black]> col2 !! k = Some Black).
  { intros k Hk. destruct (decide (k = n)) as [->|]; [apply lookup_insert_eq | by rewrite lookup_insert_ne]. }
  split_and!; [split | split | apply lookup_insert_eq].
  - intros a b Ha Hab. apply Hb. destruct (decide (a = n)) as [->|]; [by apply Hs |]. rewrite lookup_insert_ne in Ha by done. by apply (explored_closed _ Hd2 a).
  - intros a Ha. destruct (decide (a = n)) as [->|].
    + intros [m [Hm Hr]]%tc_inv. pose proof (done_rtc col2 m n Hd2 (Hs m Hm) Hr). congruence.
    + rewrite lookup_insert_ne in Ha by done. by apply (explored_settled _ Hd2).
  - apply map_subseteq_spec. intros k c Hk. assert (k ≠ n) by congruence. rewrite lookup_insert_ne by done.
    eapply lookup_weaken; [| apply Hg2]. unfold col1. by rewrite lookup_insert_ne.
  - intros k Hk. destruct (decide (k = n)) as [->|]; [rewrite lookup_insert_eq in Hk; done |]. rewrite lookup_insert_ne in Hk by done.
    apply (grown_grays _ _ Hg2) in Hk. unfold col1 in Hk. by rewrite lookup_insert_ne in Hk.
Qed.

Lemma detect_spec (order : list bytes) : ∀ col,
  (∀ n, n ∈ order → n ∈ nodes adj) → explored col → (∀ g, col !! g ≠ Some Gray) →
  if detect adj order col then cyclic adj else ∃ col', explored col' ∧ col ⊆ col' ∧ ∀ n, n ∈ order → col' !! n = Some Black.
Proof.
  induction order as [|n order IH]; intros col Ho Hd Hg; cbn -[walk].
  { exists col. split_and!; [done | done | set_solver]. }
  assert (Ho' : ∀ k, k ∈ order → k ∈ nodes adj) by (intros k Hk; apply Ho; by right).
  destruct (col !! n) as [c|] eqn:En.
  - specialize (IH col Ho' Hd Hg). destruct (detect adj order col); [done |]. destruct IH as (col' & H1 & H2 & H3).
    exists col'. split_and!; [done | done |]. intros k [-> | Hk]%elem_of_cons; [|auto]. destruct c; [by destruct (Hg n) | by eapply lookup_weaken].
  - assert (Hn : n ∈ nodes adj) by (apply Ho; left).
    assert (Hf : (white col ≤ S (size (nodes adj)))%nat) by (unfold white; pose proof (subseteq_size (nodes adj ∖ dom col) (nodes adj) ltac:(set_solver)); lia).
    pose proof (walk_spec _ n col Hn En Hf Hd ltac:(intros g H; by destruct (Hg g))) as Hv.
    destruct (walk _ adj n col) as [[] col1]; unfold visited in Hv; cbn in Hv; [done |]. destruct Hv as (Hd1 & Hg1 & Hb).
    assert (Hg' : ∀ g, col1 !! g ≠ Some Gray) by (intros g H; apply (Hg g), (grown_grays _ _ Hg1), H).
    specialize (IH col1 Ho' Hd1 Hg'). destruct (detect adj order col1); [done |]. destruct IH as (col' & H1 & H2 & H3).
    exists col'. split_and!; [done | etrans; [apply Hg1 | done] |]. intros k [-> | Hk]%elem_of_cons; [by eapply lookup_weaken | auto].
Qed.
End cycles.

Lemma detect_cyclic (adj : graph) (order : list bytes) :
  (∀ n, n ∈ order ↔ n ∈ dom adj) → detect adj order ∅ = true ↔ cyclic adj.
Proof.
  intros Ho. assert (H : explored adj ∅) by (split; intros ? ? **; simplify_map_eq).
  pose proof (detect_spec adj order ∅ ltac:(intros n Hn; apply elem_of_union_l, Ho, Hn) H ltac:(intros g; by rewrite lookup_empty)) as Hs.
  destruct (detect adj order ∅); [done |]. split; [done |]. intros [n Hn]. destruct Hs as (col & Hd & _ & Hb).
  destruct (tc_inv _ _ _ Hn) as (m & Hm & _). destruct (explored_settled _ _ Hd n (Hb n (proj2 (Ho n) (succs_dom _ _ _ Hm))) Hn).
Qed.

(** * Members *)

(** The reference a member of the configuration stands for, if it is in order. *)
Definition ref_of (users : gmap bytes NormalizedUser) (ids : gset bytes) (nested : bool) (m : Member) : option MemberRef :=
  if beq (m_User m) [] then
    if beq (m_Group m) [] then None
    else if nested && bool_decide (m_Group m ∈ ids) then Some (MkMember (B "group") (m_Group m) []) else None
  else if beq (m_Group m) [] then (λ u, MkMember (B "user") (m_User m) (nu_DN u)) <$> users !! m_User m
  else None.

Definition ref_key (r : MemberRef) : bytes := mr_Kind r ++ B ":" ++ mr_ID r.

Definition group_refs (l : list MemberRef) : list bytes := mr_ID <$> filter (λ r, mr_Kind r = B "group") l.

(** The first of the references with one key. *)
Fixpoint firsts (seen : gset bytes) (l : list MemberRef) : list MemberRef :=
  match l with
  | [] => []
  | r :: l' => if bool_decide (ref_key r ∈ seen) then firsts seen l' else r :: firsts ({[ref_key r]} ∪ seen) l'
  end.

Lemma firsts_elem (l : list MemberRef) : ∀ seen r, (∀ a b, a ∈ l → b ∈ l → ref_key a = ref_key b → a = b) → r ∈ firsts seen l ↔ r ∈ l ∧ ref_key r ∉ seen.
Proof.
  induction l as [|a l IH]; intros seen r Hk; cbn; [set_solver |].
  assert (Hk' : ∀ x y, x ∈ l → y ∈ l → ref_key x = ref_key y → x = y) by (intros x y Hx Hy; apply Hk; by right).
  case_bool_decide as Ha; [rewrite IH by done; set_solver |]. rewrite elem_of_cons, IH by done. split.
  - intros [-> | [H1 H2]]; [split; [left | done] | split; [by right | set_solver]].
  - intros [[-> | H1]%elem_of_cons H2]; [by left |]. destruct (decide (ref_key r = ref_key a)) as [He|Hne].
    + left. apply Hk; [by right | left | done].
    + right. split; [done |]. set_solver.
Qed.

Lemma firsts_nodup (l : list MemberRef) : ∀ seen, NoDup (ref_key <$> firsts seen l) ∧ ∀ r, r ∈ firsts seen l → ref_key r ∉ seen.
Proof.
  induction l as [|a l IH]; intros seen; cbn; [split; [constructor | set_solver] |]. case_bool_decide as Ha; [apply IH |].
  destruct (IH ({[ref_key a]} ∪ seen)) as [H1 H2]. split.
  - cbn. constructor; [| done]. intros (r & E & Hr)%list_elem_of_fmap. apply H2 in Hr. set_solver.
  - intros r [-> | Hr]%elem_of_cons; [done |]. apply H2 in Hr. set_solver.
Qed.

Section members.
Context {U : Unicode} (users : gmap bytes NormalizedUser) (ids : gset bytes) (nested : bool).

Abbreviation ref := (ref_of users ids nested).

Definition refs (ms : list Member) : list MemberRef := firsts ∅ (omap ref ms).

Lemma ref_key_inj (m m' : Member) (r r' : MemberRef) : ref m = Some r → ref m' = Some r' → ref_key r = ref_key r' → r = r'.
Proof.
  unfold ref_of. intros H H' E. destruct (beq (m_User m) []), (beq (m_User m') []), (beq (m_Group m) []), (beq (m_Group m') []); try done;
    repeat match goal with
           | H : (if ?b then _ else _) = Some _ |- _ => destruct b; [|done]
           | H : _ <$> ?o = Some _ |- _ => destruct o eqn:?; [|done]; cbn in H
           end; simplify_eq; cbn in E; simplify_eq; try done.
  all: congruence.
Qed.

Lemma refs_elem (ms : list Member) (r : MemberRef) : r ∈ refs ms ↔ ∃ m, m ∈ ms ∧ ref m = Some r.
Proof.
  unfold refs. rewrite firsts_elem.
  - rewrite list_elem_of_omap. set_solver.
  - intros a b (m & _ & Ha)%list_elem_of_omap (m' & _ & Hb)%list_elem_of_omap. by eapply ref_key_inj.
Qed.

Lemma gather_eq (path : bytes) (st : gathered) (j : nat) (m : Member) :
  match ref m with
  | None => ∃ e, gather users ids nested path st (j, m) = with_err e st
  | Some r => gather users ids nested path st (j, m) =
      if bool_decide (ref_key r ∈ ga_seen st) then st
      else MkGathered (ga_errs st) ({[ref_key r]} ∪ ga_seen st) (ga_members st ++ [r]) (ga_edges st ++ group_refs [r])
  end.
Proof.
  unfold ref_of, gather. destruct (beq (m_User m) []) eqn:Eu, (beq (m_Group m) []) eqn:Eg; cbn [negb andb]; try (by eexists).
  - destruct nested; cbn [negb andb]; [| by eexists]. destruct (bool_decide (m_Group m ∈ ids)); cbn [negb]; [| by eexists].
    change (ref_key (MkMember (B "group") (m_Group m) [])) with (B "group:" ++ m_Group m). done.
  - destruct (users !! m_User m) as [u|]; cbn [fmap option_fmap option_map]; [| by eexists].
    change (ref_key (MkMember (B "user") (m_User m) (nu_DN u))) with (B "user:" ++ m_User m). unfold group_refs. rewrite filter_cons_False by done. cbn [filter list_filter fmap list_fmap]. rewrite app_nil_r. done.
Qed.

Lemma gather_fold (path : bytes) (l : list (nat * Member)) : ∀ st,
  let st' := foldl (gather users ids nested path) st l in
  (ga_errs st' = [] ↔ ga_errs st = [] ∧ ∀ jm, jm ∈ l → is_Some (ref jm.2)) ∧
  ga_members st' = ga_members st ++ firsts (ga_seen st) (omap ref l.*2) ∧
  ga_edges st' = ga_edges st ++ group_refs (firsts (ga_seen st) (omap ref l.*2)).
Proof.
  induction l as [|[j m] l IH]; intros st; cbn -[gather].
  { rewrite !app_nil_r. split_and!; [set_solver | done | done]. }
  pose proof (gather_eq path st j m) as He. destruct (IH (gather users ids nested path st (j, m))) as (H1 & H2 & H3).
  destruct (ref m) as [r|] eqn:Er.
  - cbn [firsts]. destruct (bool_decide (ref_key r ∈ ga_seen st)) eqn:Es; rewrite He in *; cbn [ga_errs ga_members ga_edges ga_seen] in *.
    + split_and!; [| done | done]. rewrite H1. split; (intros [Ha Hb]; split; [done |]); [intros jm [-> | ?]%elem_of_cons; [by exists r | auto] | intros jm ?; apply Hb; by right].
    + rewrite H2, H3, <- !app_assoc. split_and!; [| done |].
      * rewrite H1. split; (intros [Ha Hb]; split; [done |]); [intros jm [-> | ?]%elem_of_cons; [by exists r | auto] | intros jm ?; apply Hb; by right].
      * unfold group_refs. by rewrite <- fmap_app, <- filter_app.
  - destruct He as [e He]. rewrite He in *. cbn [with_err ga_errs ga_members ga_edges ga_seen] in *. split_and!; [| done | done]. rewrite H1. split.
    + intros [Ha _]. by apply app_eq_nil in Ha as [_ ?].
    + intros [_ Hb]. specialize (Hb (j, m)). cbn in Hb. rewrite Er in Hb. destruct Hb as [? ?]; [left | done].
Qed.

Lemma gather_all_spec (path : bytes) (ms : list Member) :
  let ga := gather_all users ids nested path ms in
  (ga_errs ga = [] ↔ ∀ m, m ∈ ms → is_Some (ref m)) ∧ ga_members ga = refs ms ∧ ga_edges ga = group_refs (refs ms).
Proof.
  pose proof (gather_fold path (imap pair ms) no_gathered) as (H1 & H2 & H3). unfold gather_all. cbn zeta in *.
  assert (E : (imap pair ms).*2 = ms) by (rewrite fmap_imap; by apply list_eq; intros i; rewrite list_lookup_imap; destruct (ms !! i)).
  rewrite E in *. split_and!; [| done | done]. rewrite H1. split.
  - intros [_ H] m Hm. rewrite <- E in Hm. apply list_elem_of_fmap in Hm as (jm & -> & Hjm). by apply H.
  - intros H. split; [done |]. intros [j m] Hjm. apply H. rewrite <- E. apply list_elem_of_fmap. by eexists.
Qed.
End members.

(** * Groups *)

Lemma group_ids_spec (gs : list Group) : ∀ i seen,
  let '(es, ids) := group_ids i seen gs in
  (es = [] ↔ Forall (λ g, g_ID g ≠ []) gs ∧ NoDup (g_ID <$> gs) ∧ ∀ g, g ∈ gs → g_ID g ∉ seen) ∧
  (es = [] → ∀ k, k ∈ ids ↔ k ∈ seen ∨ k ∈ g_ID <$> gs).
Proof.
  induction gs as [|g gs IH]; intros i seen; cbn.
  { split; [| set_solver]. split; [intros _; split_and!; [constructor | constructor | set_solver] | done]. }
  unfold beq. case_bool_decide as Hn.
  { destruct (group_ids (S i) seen gs). split; [| done]. split; [done |]. intros (H & _). by apply Forall_cons in H as [? _]. }
  case_bool_decide as Hs.
  { destruct (group_ids (S i) seen gs). split; [| done]. split; [done |]. intros (_ & _ & H). destruct (H g); [left | done]. }
  specialize (IH (S i) ({[g_ID g]} ∪ seen)). destruct (group_ids (S i) _ gs) as [es ids]. destruct IH as [H1 H2]. split.
  - rewrite H1, Forall_cons, NoDup_cons. split.
    + intros (Hf & Hd & Hx). split_and!; [done | done | | done |].
      * intros (g' & E & Hg')%list_elem_of_fmap. specialize (Hx g' Hg'). set_solver.
      * intros g' [-> | Hg']%elem_of_cons; [done |]. specialize (Hx g' Hg'). set_solver.
    + intros ((_ & Hf) & (Hd & Hd') & Hx). split_and!; [done | done |]. intros g' Hg'. apply not_elem_of_union. split; [| apply Hx; by right].
      intros E%elem_of_singleton. apply Hd. rewrite <- E. by apply list_elem_of_fmap_2.
  - intros He k. rewrite (H2 He), elem_of_cons. set_solver.
Qed.

Section loop.
Context {U : Unicode} {UL : UnicodeLaws U} (users : gmap bytes NormalizedUser) (ids : gset bytes) (nested : bool) (groupsDN : DN) (Hdn : rdns groupsDN ≠ []).

Definition below (attr value : bytes) (d : DN) : DN := MkDN (Rdn attr value :: rdns d).

(** A generated name is the name of an entry directly below its container. *)
Lemma generated_name (attr value r : bytes) (d : DN) :
  to_lower attr = attr → rdns d ≠ [] → BuildRDN attr value = Ok r → r ++ B "," ++ String d = String (below attr value d).
Proof.
  intros Ha Hd. unfold BuildRDN. destruct (validDNAttribute attr); cbn [negb]; [|done]. case_bool_decide; [done |]. intros [= <-].
  unfold below. rewrite String_cons, Ha by done. destruct (rdns d) eqn:E; [done |]. rewrite <- E. unfold rdn_string. cbn [rdn_attr rdn_value]. by destruct d.
Qed.

Definition normal (g : Group) : NormalizedGroup := MkNGroup (g_ID g) (String (below (B "cn") (g_ID g) groupsDN)) (refs users ids nested (g_Members g)).

Definition admitted (g : Group) : Prop :=
  g_Members g ≠ [] ∧ (x00 ∉ g_ID g) ∧ ∀ m, m ∈ g_Members g → is_Some (ref_of users ids nested m).

Lemma add_edges_succs (id : bytes) (edges : list bytes) (adj : graph) (n m : bytes) :
  m ∈ succs (add_edges id edges adj) n ↔ m ∈ succs adj n ∨ (n = id ∧ m ∈ edges).
Proof.
  unfold add_edges. destruct edges as [|e edges]; [cbn; set_solver |]. cbn [length Nat.eqb]. unfold succs at 1.
  destruct (decide (n = id)) as [->|Hn]; [rewrite lookup_insert_eq; cbn [default]; set_solver | rewrite lookup_insert_ne by done; set_solver].
Qed.
Lemma group_loop_spec (gs : list Group) : ∀ i adj, Forall (λ g, g_ID g ≠ []) gs →
  let '(es, adj', out) := group_loop users ids nested groupsDN i gs adj in
  (es = [] ↔ ∀ g, g ∈ gs → admitted g) ∧
  (es = [] → out = normal <$> gs ∧
     ∀ n m, m ∈ succs adj' n ↔ m ∈ succs adj n ∨ ∃ g, g ∈ gs ∧ g_ID g = n ∧ m ∈ group_refs (refs users ids nested (g_Members g))).
Proof using UL Hdn.
  induction gs as [|g gs IH]; intros i adj Hne; cbn [group_loop fmap list_fmap].
  { split; [set_solver |]. intros _. split; [done | set_solver]. }
  apply Forall_cons in Hne as [Hg Hne]. unfold beq. rewrite bool_decide_false by done.
  assert (Hbad : ∀ e i adj, ¬ admitted g →
    let '(es, adj', out) := (let '(es, adj', out) := group_loop users ids nested groupsDN i gs adj in (e :: es, adj', out)) in
    (es = [] ↔ ∀ g', g' ∈ g :: gs → admitted g') ∧ (es = [] → out = normal g :: (normal <$> gs) ∧
     ∀ n m, m ∈ succs adj' n ↔ m ∈ succs adj n ∨ ∃ g', g' ∈ g :: gs ∧ g_ID g' = n ∧ m ∈ group_refs (refs users ids nested (g_Members g')))).
  { intros e i' adj' Hb. destruct (group_loop users ids nested groupsDN i' gs adj') as [[es ad] out]. split; [| done]. split; [done |].
    intros H. destruct Hb. apply H. left. }
  destruct (Nat.eqb_spec (length (g_Members g)) 0) as [Hm|Hm].
  { pose proof (Hbad (fieldErr (at_index (B "spec.groups") i ++ B ".members") (B "empty_group")) (S i) adj ltac:(intros (H & _); apply H; by apply nil_length_inv)) as H.
    destruct (group_loop users ids nested groupsDN (S i) gs adj) as [[es ad] out]. exact H. }
  destruct (BuildRDN (B "cn") (g_ID g)) as [rdn|e0] eqn:Er.
  2: { pose proof (Hbad (fieldErr (at_index (B "spec.groups") i ++ B ".id") (B "invalid_rdn")) (S i) adj) as H.
       destruct (group_loop users ids nested groupsDN (S i) gs adj) as [[es ad] out]. apply H. intros (_ & Hn & _). unfold BuildRDN in Er.
       change (negb (validDNAttribute (B "cn"))) with false in Er. cbn in Er. by rewrite bool_decide_false in Er. }
  destruct (gather_all_spec users ids nested (at_index (B "spec.groups") i) (g_Members g)) as (G1 & G2 & G3).
  set (ga := gather_all users ids nested (at_index (B "spec.groups") i) (g_Members g)) in *.
  specialize (IH (S i) (add_edges (g_ID g) (ga_edges ga) adj) Hne). destruct (group_loop users ids nested groupsDN (S i) gs _) as [[es ad] out].
  destruct IH as [H1 H2]. pose proof (generated_name (B "cn") (g_ID g) rdn groupsDN ltac:(reflexivity) Hdn Er) as Hname.
  assert (Hnul : x00 ∉ g_ID g).
  { unfold BuildRDN in Er. change (negb (validDNAttribute (B "cn"))) with false in Er. cbn in Er. by case_bool_decide. }
  split.
  - split.
    + intros [E1 E2]%app_eq_nil g' [-> | Hg']%elem_of_cons; [| by apply H1].
      split_and!; [intros E; by rewrite E in Hm | done | by apply G1].
    + intros H. assert (E1 : ga_errs ga = []) by (apply G1, (H g); left). assert (E2 : es = []) by (apply H1; intros g' Hg'; apply H; by right).
      by rewrite E1, E2.
  - intros [E1 E2]%app_eq_nil. destruct (H2 E2) as [-> H3]. split.
    + unfold normal at 2. rewrite <- Hname, <- G2. done.
    + intros n m. rewrite H3, add_edges_succs, G3. set_solver.
Qed.
End loop.

Lemma last_wins_fold {A} (l : list (bytes * A)) : ∀ m : gmap bytes A, NoDup l.*1 →
  ∀ k v, foldl (λ (m : gmap bytes A) p, <[p.1 := p.2]> m) m l !! k = Some v ↔ (k, v) ∈ l ∨ ((k ∉ l.*1) ∧ m !! k = Some v).
Proof.
  induction l as [|[k0 v0] l IH]; intros m Hd k v; cbn [foldl fmap list_fmap fst snd] in *; [set_solver |].
  apply NoDup_cons in Hd as [Hn Hd]. rewrite IH, !elem_of_cons by done. destruct (decide (k = k0)) as [->|Hk].
  - rewrite lookup_insert_eq. split; [intros [H | [_ [= ->]]]; [by left; right | by left; left] |].
    intros [[[= ->] | H] | [H _]]; [by right | by left | destruct H; by left].
  - rewrite lookup_insert_ne by done. split; [intros [H | [H1 H2]]; [by left; right | right; split; [intros [? | ?]; done | done]] |].
    intros [[[= ? ?] | H] | [H1 H2]]; [done | by left | right; split; [intros ?; apply H1; by right | done]].
Qed.

Lemma last_wins_lookup {A} (l : list (bytes * A)) (k : bytes) (v : A) : NoDup l.*1 → last_wins l !! k = Some v ↔ (k, v) ∈ l.
Proof. intros Hd. unfold last_wins. rewrite last_wins_fold, lookup_empty by done. naive_solver. Qed.

Lemma keyed_elem {A} (key : A → bytes) {C} (val : A → C) (l : list A) (k : bytes) (v : C) :
  (k, v) ∈ ((λ a, (key a, val a)) <$> l) ↔ ∃ a, a ∈ l ∧ key a = k ∧ val a = v.
Proof. rewrite list_elem_of_fmap. split; [intros (a & [= -> ->] & H); by exists a | intros (a & H & <- & <-); by exists a]. Qed.

Lemma keyed_keys {A} (key : A → bytes) {C} (val : A → C) (l : list A) : ((λ a, (key a, val a)) <$> l).*1 = key <$> l.
Proof. by rewrite <- list_fmap_compose. Qed.

(** * What the configuration says *)

(** A member names a user of the configuration or, where nesting is on, a group of it. *)
Definition well_placed (users : list NormalizedUser) (nested : bool) (gs : list Group) (m : Member) : Prop :=
  (m_User m ≠ [] ∧ m_Group m = [] ∧ m_User m ∈ nu_ID <$> users) ∨
  (m_User m = [] ∧ m_Group m ≠ [] ∧ nested = true ∧ m_Group m ∈ g_ID <$> gs).

(** The group [a] lists the group [b]. *)
Definition includes (gs : list Group) (a b : bytes) : Prop := ∃ g m, g ∈ gs ∧ g_ID g = a ∧ m ∈ g_Members g ∧ m_User m = [] ∧ m_Group m = b.

Record consistent (users : list NormalizedUser) (nested : bool) (gs : list Group) : Prop := MkConsistent {
  cg_named : Forall (λ g, g_ID g ≠ [] ∧ (x00 ∉ g_ID g)) gs;
  cg_unique : NoDup (g_ID <$> gs);
  cg_members : ∀ g, g ∈ gs → g_Members g ≠ [] ∧ ∀ m, m ∈ g_Members g → well_placed users nested gs m;
  cg_acyclic : ∀ a, ¬ tc (includes gs) a a;
}.

(** The reference a member becomes. *)
Definition means (users : list NormalizedUser) (groupsDN : DN) (m : Member) (r : MemberRef) : Prop :=
  (m_User m ≠ [] ∧ ∃ u, u ∈ users ∧ nu_ID u = m_User m ∧ r = MkMember (B "user") (m_User m) (nu_DN u)) ∨
  (m_User m = [] ∧ r = MkMember (B "group") (m_Group m) (String (below (B "cn") (m_Group m) groupsDN))).

Lemma tc_ext (R S : relation bytes) (a b : bytes) : (∀ x y, R x y ↔ S x y) → tc R a b ↔ tc S a b.
Proof.
  intros H. split; intros Ht; induction Ht as [x y Hxy | x y z Hxy _ IH]; [apply tc_once | eapply tc_l; [| done] | apply tc_once | eapply tc_l; [| done]]; by apply H.
Qed.

Section normalise.
Context {U : Unicode} {UL : UnicodeLaws U} (users : list NormalizedUser) (nested : bool) (groupsDN : DN).
Context (Hu : NoDup (nu_ID <$> users)) (Hdn : rdns groupsDN ≠ []).

Abbreviation by_id := (last_wins ((λ u, (nu_ID u, u)) <$> users)).

Lemma user_lookup (k : bytes) (u : NormalizedUser) : by_id !! k = Some u ↔ u ∈ users ∧ nu_ID u = k.
Proof using Hu. rewrite last_wins_lookup by (by rewrite keyed_keys). rewrite keyed_elem. naive_solver. Qed.

Lemma ref_well_placed (gs : list Group) (ids : gset bytes) (m : Member) :
  (∀ k, k ∈ ids ↔ k ∈ g_ID <$> gs) → is_Some (ref_of by_id ids nested m) ↔ well_placed users nested gs m.
Proof using Hu.
  intros Hids. unfold ref_of, well_placed, beq. case_bool_decide as Eu; case_bool_decide as Eg.
  - split; [intros [? ?]; done | naive_solver].
  - destruct nested; cbn [andb]; [case_bool_decide as Ei; rewrite Hids in Ei |]; (split; [intros [? ?] | intros [|]]; naive_solver).
  - split.
    + intros [r Hr]. destruct (by_id !! m_User m) as [u|] eqn:E; [|done]. apply user_lookup in E as [Hin Hid]. left. split_and!; [done | done |].
      rewrite <- Hid. by apply list_elem_of_fmap_2.
    + intros [(_ & _ & (u & E & Hin)%list_elem_of_fmap) | [? _]]; [| done]. rewrite (proj2 (user_lookup (m_User m) u) (conj Hin (eq_sym E))). by eexists.
  - split; [intros [? ?]; done | naive_solver].
Qed.

Lemma ref_kind (ids : gset bytes) (m : Member) (r : MemberRef) : ref_of by_id ids nested m = Some r →
  (m_User m ≠ [] ∧ ∃ u, u ∈ users ∧ nu_ID u = m_User m ∧ r = MkMember (B "user") (m_User m) (nu_DN u)) ∨
  (m_User m = [] ∧ m_Group m ∈ ids ∧ r = MkMember (B "group") (m_Group m) []).
Proof using Hu.
  unfold ref_of, beq. case_bool_decide; case_bool_decide; try done.
  - destruct (nested && bool_decide (m_Group m ∈ ids)) eqn:E; [| done]. apply andb_true_iff in E as [_ E%bool_decide_eq_true]. intros [= <-]. by right.
  - destruct (by_id !! m_User m) as [u|] eqn:E; [|done]. intros [= <-]. apply user_lookup in E as [Hin Hid]. left. split; [done | by exists u].
Qed.

Lemma edges_include (gs : list Group) (ids : gset bytes) (a b : bytes) :
  (∀ g m, g ∈ gs → m ∈ g_Members g → is_Some (ref_of by_id ids nested m)) →
  (∃ g, g ∈ gs ∧ g_ID g = a ∧ b ∈ group_refs (refs by_id ids nested (g_Members g))) ↔ includes gs a b.
Proof using Hu.
  intros Hok. unfold includes, group_refs. split.
  - intros (g & Hg & Ha & (r & -> & [Hk Hr]%list_elem_of_filter)%list_elem_of_fmap). apply refs_elem in Hr as (m & Hm & Hr).
    exists g, m. destruct (ref_kind _ _ _ Hr) as [(_ & u & _ & _ & ->) | (Hu' & _ & ->)]; [done |]. done.
  - intros (g & m & Hg & Ha & Hm & Hu' & <-). exists g. split_and!; [done | done |]. destruct (Hok g m Hg Hm) as [r Hr].
    destruct (ref_kind _ _ _ Hr) as [(? & _) | (_ & _ & ->)]; [done |].
    apply list_elem_of_fmap. exists (MkMember (B "group") (m_Group m) []). split; [done |]. apply list_elem_of_filter. split; [done |].
    apply refs_elem. by exists m.
Qed.

(** Once the names are filled in, a reference is what the member means. *)
Lemma fill_means (ids : gset bytes) (names : gmap bytes bytes) (m : Member) (r r' : MemberRef) :
  (∀ k, k ∈ ids → names !! k = Some (String (below (B "cn") k groupsDN))) →
  ref_of by_id ids nested m = Some r → means users groupsDN m r' ↔ r' = fill_member names r.
Proof using Hu.
  intros Hn Hr. destruct (ref_kind ids m r Hr) as [(Hm & u & Hin & Hid & ->) | (Hm & Hin & ->)].
  - change (fill_member names (MkMember (B "user") (m_User m) (nu_DN u))) with (MkMember (B "user") (m_User m) (nu_DN u)). split.
    + intros [(_ & u' & Hin' & Hid' & ->) | [? _]]; [| done].
      assert (Some u = Some u') as [= ->]; [| done]. rewrite <- (proj2 (user_lookup (m_User m) u) (conj Hin Hid)). by apply user_lookup.
    + intros ->. left. split; [done | by exists u].
  - unfold fill_member. cbn [mr_Kind mr_ID]. change (beq (B "group") (B "group")) with true. cbv iota. rewrite (Hn _ Hin). cbn [default]. split.
    + intros [[? _] | [_ ->]]; done.
    + intros ->. by right.
Qed.

Definition result (ids : gset bytes) (names : gmap bytes bytes) (g : Group) : NormalizedGroup :=
  MkNGroup (g_ID g) (String (below (B "cn") (g_ID g) groupsDN)) (stable_sort member_less (fill_member names <$> refs by_id ids nested (g_Members g))).

Lemma result_members (ids : gset bytes) (names : gmap bytes bytes) (g : Group) :
  (∀ k, k ∈ ids → names !! k = Some (String (below (B "cn") k groupsDN))) →
  (∀ m, m ∈ g_Members g → is_Some (ref_of by_id ids nested m)) →
  NoDup (ng_Members (result ids names g)) ∧ ∀ r, r ∈ ng_Members (result ids names g) ↔ ∃ m, m ∈ g_Members g ∧ means users groupsDN m r.
Proof using Hu.
  intros Hn Hok. cbn [result ng_Members]. rewrite stable_sort_perm. split.
  - apply NoDup_fmap_1 with (f := ref_key). rewrite <- list_fmap_compose.
    replace ((ref_key ∘ fill_member names) <$> refs by_id ids nested (g_Members g)) with (ref_key <$> refs by_id ids nested (g_Members g)); [apply firsts_nodup |].
    apply list_fmap_ext. intros i r _. unfold compose, fill_member. by destruct (beq (mr_Kind r) (B "group")).
  - intros r'. setoid_rewrite stable_sort_perm. rewrite list_elem_of_fmap. split.
    + intros (r & -> & (m & Hm & Hr)%refs_elem). exists m. split; [done |]. by apply (fill_means ids names m r).
    + intros (m & Hm & Hr'). destruct (Hok m Hm) as [r Hr]. exists r. split; [by apply (fill_means ids names m r r') | apply refs_elem; by exists m].
Qed.

Context (order : graph → list bytes) (Hord : ∀ adj n, n ∈ order adj ↔ n ∈ dom adj).

Lemma normalizeGroups_aux (gs : list Group) :
  match normalizeGroups order gs users groupsDN nested with
  | Err _ => ¬ consistent users nested gs
  | Ok out => consistent users nested gs ∧ ng_ID <$> out ≡ₚ g_ID <$> gs ∧
      ∃ ids names, (∀ k, k ∈ ids → names !! k = Some (String (below (B "cn") k groupsDN))) ∧
        (∀ g m, g ∈ gs → m ∈ g_Members g → is_Some (ref_of by_id ids nested m)) ∧ out ≡ₚ result ids names <$> gs
  end.
Proof using UL Hu Hdn Hord.
  unfold normalizeGroups. pose proof (group_ids_spec gs 0 ∅) as Hids. destruct (group_ids 0 ∅ gs) as [es1 ids]. destruct Hids as [H1 H1'].
  destruct (group_loop by_id ids nested groupsDN 0 gs ∅) as [[es2 adj] out] eqn:El.
  assert (Hcase : es1 = [] → es2 = [] → detectCycles (order adj) adj = [] ↔ ∀ a, ¬ tc (includes gs) a a).
  { intros E1 E2. destruct (proj1 H1 E1) as (Hne & _ & _). pose proof (group_loop_spec by_id ids nested groupsDN Hdn gs 0 ∅ Hne) as Hl. rewrite El in Hl. destruct Hl as [Ha Hb].
    destruct (Hb E2) as [_ Hadj]. unfold detectCycles. assert (Hc : cyclic adj ↔ ∃ a, tc (includes gs) a a).
    { unfold cyclic. f_equiv. intros a. apply tc_ext. intros x y. unfold edge. rewrite Hadj, <- (edges_include gs ids x y).
      - split; [intros [H | H]; [unfold succs in H; rewrite lookup_empty in H; cbn in H; set_solver | done] | by right].
      - intros g m Hg Hm. by apply (proj1 Ha E2 g Hg). }
    rewrite <- (detect_cyclic adj (order adj)) in Hc by apply Hord. destruct (detect adj (order adj) ∅); cbn [flag].
    - split; [done |]. intros H. destruct (proj1 Hc eq_refl) as [a Ht]. by destruct (H a).
    - split; [| done]. intros _ a Ht. assert (false = true) by (apply Hc; by exists a). done. }
  destruct (decide (es1 = [])) as [E1|E1].
  2: { replace (joinConfig _) with (Some (concat (es1 ++ es2 ++ detectCycles (order adj) adj))) by (by destruct es1). intros Hc. apply E1, H1.
       split_and!; [eapply Forall_impl; [apply (cg_named _ _ _ Hc) | naive_solver] | apply Hc | set_solver]. }
  destruct (proj1 H1 E1) as (Hne & Hnd & _). pose proof (group_loop_spec by_id ids nested groupsDN Hdn gs 0 ∅ Hne) as Hl. rewrite El in Hl. destruct Hl as [Ha Hb].
  assert (Hids : ∀ k, k ∈ ids ↔ k ∈ g_ID <$> gs) by (intros k; rewrite (H1' E1); set_solver).
  assert (Hcons : (∀ g, g ∈ gs → admitted by_id ids nested g) ∧ (∀ a, ¬ tc (includes gs) a a) ↔ consistent users nested gs).
  { split.
    - intros [Had Hac]. split; [| done | | done].
      + apply Forall_forall. intros g Hg. rewrite Forall_forall in Hne. split; [by apply Hne | by apply Had].
      + intros g Hg. destruct (Had g Hg) as (Hm & _ & Hr). split; [done |]. intros m Hin. by apply (ref_well_placed gs ids m Hids), Hr.
    - intros Hc. split; [| apply Hc]. intros g Hg. destruct (cg_members _ _ _ Hc g Hg) as [Hm Hr]. pose proof (cg_named _ _ _ Hc) as Hn. rewrite Forall_forall in Hn.
      split_and!; [done | by apply Hn |]. intros m Hin. by apply (ref_well_placed gs ids m Hids), Hr. }
  destruct (decide (es2 = [])) as [E2|E2].
  2: { replace (joinConfig _) with (Some (concat (es1 ++ es2 ++ detectCycles (order adj) adj))) by (rewrite E1; by destruct es2). intros Hc.
       apply E2, Ha. intros g Hg. by apply Hcons. }
  specialize (Hcase E1 E2). rewrite E1, E2. cbn [app]. destruct (Hb E2) as [-> _]. destruct (detectCycles (order adj) adj) as [|e es]; cbn [joinConfig].
  2: { intros Hc. assert (Hac : ∀ a, ¬ tc (includes gs) a a) by apply Hc. apply Hcase in Hac. done. }
  set (names := last_wins _).
  assert (Hout : sortGroups (fill_group names <$> (normal by_id ids nested groupsDN <$> gs)) ≡ₚ result ids names <$> gs).
  { unfold sortGroups. rewrite sort_by_perm. rewrite <- !list_fmap_compose. done. }
  split_and!.
  - apply Hcons. split; [by apply Ha | by apply Hcase].
  - rewrite Hout, <- list_fmap_compose. done.
  - exists ids, names. split_and!; [| intros g m Hg Hm; by apply (proj1 Ha E2 g Hg) | done].
    intros k Hk. unfold names. apply Hids, list_elem_of_fmap in Hk as (g & -> & Hg). apply last_wins_lookup.
    + by rewrite keyed_keys, <- list_fmap_compose.
    + apply keyed_elem. exists (normal by_id ids nested groupsDN g). split_and!; [by apply list_elem_of_fmap_2 | done | done].
Qed.

(** What a group of the configuration becomes. *)
Record group_from (g : Group) (ng : NormalizedGroup) : Prop := MkGroupFrom {
  gf_ID : ng_ID ng = g_ID g;
  gf_DN : ng_DN ng = String (below (B "cn") (g_ID g) groupsDN);
  gf_once : NoDup (ng_Members ng);
  gf_members : ∀ r, r ∈ ng_Members ng ↔ ∃ m, m ∈ g_Members g ∧ means users groupsDN m r;
}.

Lemma normalizeGroups_iff (gs : list Group) : is_ok (normalizeGroups order gs users groupsDN nested) = true ↔ consistent users nested gs.
Proof using UL Hu Hdn Hord.
  pose proof (normalizeGroups_aux gs) as H. destruct (normalizeGroups order gs users groupsDN nested); cbn [is_ok]; naive_solver.
Qed.

Lemma normalizeGroups_result (gs : list Group) (out : list NormalizedGroup) :
  normalizeGroups order gs users groupsDN nested = Ok out → ∃ l, out ≡ₚ l ∧ Forall2 group_from gs l.
Proof using UL Hu Hdn Hord.
  pose proof (normalizeGroups_aux gs) as H. intros E. rewrite E in H. destruct H as (_ & _ & ids & names & Hn & Hok & Hp).
  exists (result ids names <$> gs). split; [done |]. apply Forall2_fmap_r, Forall2_same_length_lookup. split; [done |].
  intros i g g' Hg Hg'. assert (g' = g) as -> by congruence.
  destruct (result_members ids names g Hn) as [H1 H2]; [intros m; apply Hok; by eapply list_elem_of_lookup_2 |]. by split.
Qed.
End normalise.

(** * The groups of a configuration *)

(** C33.  The groups a configuration may have.  Groups are accepted exactly if every one
    has an identifier of its own without a NUL and at least one member, every member names
    a user, or, where nesting is enabled, a group, of the configuration, and no group
    contains itself, through any chain of groups, whatever order the graph is walked in;
    and they become the groups listed, under their names below the container, each with
    the names its members stand for, once. *)
Theorem groups_checked {U : Unicode} {UL : UnicodeLaws U} (order : graph → list bytes) (gs : list Group) (users : list NormalizedUser) (groupsDN : DN) (nested : bool) :
  (∀ adj n, n ∈ order adj ↔ n ∈ dom adj) → NoDup (nu_ID <$> users) → rdns groupsDN ≠ [] →
  (is_ok (normalizeGroups order gs users groupsDN nested) = true ↔ consistent users nested gs) ∧
  ∀ out, normalizeGroups order gs users groupsDN nested = Ok out → ∃ l, out ≡ₚ l ∧ Forall2 (group_from users groupsDN) gs l.
Proof.
  intros Ho Hu Hdn. split; [by apply normalizeGroups_iff | intros out; by apply (normalizeGroups_result users nested groupsDN Hu Hdn order Ho)].
Qed.

Definition keys_of (adj : graph) : list bytes := (map_to_list adj).*1.

Lemma keys_of_dom (adj : graph) (n : bytes) : n ∈ keys_of adj ↔ n ∈ dom adj.
Proof.
  unfold keys_of. rewrite elem_of_dom, list_elem_of_fmap. split; [intros ([k v] & -> & H%elem_of_map_to_list); by exists v |].
  intros [v H]. exists (n, v). split; [done | by apply elem_of_map_to_list].
Qed.

Definition sample_people : list NormalizedUser := [MkNUser (B "ada") (B "ada") (B "uid=ada,ou=people,dc=test") true None []].

Definition sample_groups_dn : DN := MkDN [Rdn (B "ou") (B "groups"); Rdn (B "dc") (B "test")].

Definition sample_groups : list Group :=
  [MkGroup (B "all") [MkMemberIn [] (B "staff"); MkMemberIn (B "ada") []]; MkGroup (B "staff") [MkMemberIn (B "ada") []; MkMemberIn (B "ada") []]].

Definition looped_groups : list Group := sample_groups ++ [MkGroup (B "x") [MkMemberIn [] (B "y")]; MkGroup (B "y") [MkMemberIn [] (B "all"); MkMemberIn [] (B "x")]].

#[local] Existing Instance ascii_unicode.
#[local] Existing Instance ascii_unicode_laws.

Lemma groups_checked_witness :
  consistent sample_people true sample_groups ∧ ¬ consistent sample_people true looped_groups ∧ ¬ consistent sample_people false sample_groups.
Proof.
  assert (Hdn : rdns sample_groups_dn ≠ []) by done. assert (Hu : NoDup (nu_ID <$> sample_people)) by (repeat constructor; set_solver).
  pose proof (λ gs nested, groups_checked keys_of gs sample_people sample_groups_dn nested keys_of_dom Hu Hdn) as H. split_and!.
  - apply (H sample_groups true). vm_compute. reflexivity.
  - intros Hc. apply (H looped_groups true) in Hc. vm_compute in Hc. discriminate.
  - intros Hc. apply (H sample_groups false) in Hc. vm_compute in Hc. discriminate.
Defined.
