(* ===== verification/Baseline.v ===== *)
(** The offline compiler of configurations: users ([src/internal/config/user.go]), the
    password policy ([policy.go]), tokens ([token.go]), [normalizeAll] and [Compile]
    ([compile.go]) and the plans ([plan.go]).

    The resolver of secrets is an interface, absent for a compilation without secrets; an
    error of it may have no fields.  The object classes of a user are the constant
    [RequiredUserObjectClasses] and left out of its record.  The revisions, hashes of the
    result, are not modelled. *)

From stdpp Require Import fin_sets relations sorting.
From S2P Require Import Prelude GoStrings DN DNFacts Attr Schema Matching Paging PagingFacts PwHash GoText Bolt Gate ResetPlan ResetRun Vocab389 AciCompile AciAttrs Scenario GroupGraph.
Local Open Scope Z_scope.

Definition Resolver : Type := bytes → bytes → res config_err ResolvedSecret.

Section baseline.
Context {U : Unicode} {CL : ConfigLib}.

(** * Attribute names of a user *)

Definition name_less (a b : bytes) : bool :=
  if negb (beq (to_lower a) (to_lower b)) then str_less (to_lower a) (to_lower b) else str_less a b.

Definition SortAttrNamesForDuplicates (names : list bytes) : list bytes := stable_sort name_less names.

Definition AttrDuplicateKey (name : bytes) : bytes :=
  let '(_, opts, ok) := cut_byte semicolon (CanonicalAttr name) in
  if negb ok then CanonicalAttrType name
  else CanonicalAttrType name ++ B ";" ++ join (B ";") (sort_by id (split_byte semicolon opts)).

(** The loop over the names in duplicate order: the errors and the names kept. *)
Fixpoint keep_names (path : bytes) (seen : gset bytes) (names : list bytes) : list config_err * list bytes :=
  match names with
  | [] => ([], [])
  | name :: names' =>
    let at_name := path ++ B ".attributes." ++ name in
    if ForbiddenUserWriteAttr name then
      let '(es, kept) := keep_names path seen names' in (fieldErr at_name (B "forbidden_attribute") :: es, kept)
    else if bool_decide (AttrDuplicateKey name ∈ seen) then
      let '(es, kept) := keep_names path seen names' in (fieldErr at_name (B "duplicate_attribute") :: es, kept)
    else
      let '(es, kept) := keep_names path ({[AttrDuplicateKey name]} ∪ seen) names' in (es, name :: kept)
  end.

Definition sorted_names (attrs : gmap bytes bytes) : list bytes := sort_by id (map_to_list attrs).*1.

Definition stored_name (name : bytes) : bytes := CanonicalAttr (PrimaryAttrDescription name).

(** The attributes of a user, in the order of [sortUsers]. *)
Definition user_attributes (attrs : gmap bytes bytes) (kept : list bytes) : list (bytes * bytes) :=
  sort_by fst ((λ name, (stored_name name, default [] (attrs !! name))) <$> filter (λ name, name ∈ kept) (sorted_names attrs)).

(** * Users *)

Definition no_spaces (s : bytes) : bytes := filter (λ b, b ≠ x20) s.

(** The checks of a given RDN and a given DN against the generated ones. *)
Definition rdn_check (path : bytes) (u : User) (rdn : bytes) : list config_err :=
  if negb (beq (u_RDN u) []) && negb (beq (to_lower (no_spaces (u_RDN u))) (to_lower rdn)) then
    [fieldErr (path ++ B ".rdn") (B "identity_mismatch"); fieldErr (path ++ B ".id") (B "identity_mismatch")]
  else [].

Definition dn_matches (gen given : bytes) : bool :=
  match ParseDN gen, ParseDN given with
  | Ok want, Ok got => Equal want got
  | _, _ => false
  end.

Definition dn_check (path : bytes) (u : User) (gen : bytes) : list config_err :=
  if negb (beq (u_DN u) []) && negb (dn_matches gen (u_DN u)) then
    [fieldErr (path ++ B ".dn") (B "identity_mismatch"); fieldErr (path ++ B ".id") (B "identity_mismatch")]
  else [].

Definition user_secret (resolver : option Resolver) (requireSeeds : bool) (path : bytes) (u : User) : list config_err * option ResolvedSecret :=
  if negb requireSeeds then ([], None)
  else if beq (u_PasswordFile u) [] then ([fieldErr (path ++ B ".passwordFile") (B "required")], None)
  else
    match resolver with
    | None => ([], None)
    | Some resolve =>
      match resolve (path ++ B ".passwordFile") (u_PasswordFile u) with
      | Err e => ([e], None)
      | Ok sec => ([], Some sec)
      end
    end.

Definition user_uid (u : User) : bytes := if beq (u_UID u) [] then u_ID u else u_UID u.

(** A turn of the loop, past the check of the identifier. *)
Definition normalize_user (peopleDN : DN) (resolver : option Resolver) (requireSeeds : bool) (path : bytes) (u : User) : list config_err * option NormalizedUser :=
  match BuildRDN (B "uid") (user_uid u) with
  | Err _ => ([fieldErr (path ++ B ".uid") (B "invalid_rdn")], None)
  | Ok rdn =>
    let gen := rdn ++ B "," ++ String peopleDN in
    let '(es, kept) := keep_names path ∅ (SortAttrNamesForDuplicates (sorted_names (u_Attributes u))) in
    let '(es', secret) := user_secret resolver requireSeeds path u in
    (rdn_check path u rdn ++ dn_check path u gen ++ es ++ es',
     Some (MkNUser (u_ID u) (user_uid u) gen (default true (u_Enabled u)) secret (user_attributes (u_Attributes u) kept)))
  end.

Fixpoint user_loop (peopleDN : DN) (resolver : option Resolver) (requireSeeds : bool) (i : nat) (seen : gset bytes) (us : list User) :
    list config_err * list NormalizedUser :=
  match us with
  | [] => ([], [])
  | u :: us' =>
    let path := at_index (B "spec.users") i in
    if beq (u_ID u) [] then
      let '(es, out) := user_loop peopleDN resolver requireSeeds (S i) seen us' in (fieldErr (path ++ B ".id") (B "required") :: es, out)
    else if bool_decide (u_ID u ∈ seen) then
      let '(es, out) := user_loop peopleDN resolver requireSeeds (S i) seen us' in (fieldErr (path ++ B ".id") (B "duplicate") :: es, out)
    else
      let '(es, nu) := normalize_user peopleDN resolver requireSeeds path u in
      let '(es', out) := user_loop peopleDN resolver requireSeeds (S i) ({[u_ID u]} ∪ seen) us' in
      (es ++ es', option_list nu ++ out)
  end.

Definition normalizeUsers (users : list User) (peopleDN : DN) (resolver : option Resolver) (requireSeeds : bool) : res config_err (list NormalizedUser) :=
  let '(acc, out) := user_loop peopleDN resolver requireSeeds 0 ∅ users in
  match joinConfig acc with
  | Some e => Err e
  | None => Ok (sort_by nu_ID out)
  end.

(** * Password policy *)

Record NormalizedPolicy : Type := MkPolicy {
  np_MinLength : Z;
  np_HistoryCount : Z;
  np_MaxAge : Z;
  np_WarningAge : Z;
  np_LockoutEnabled : bool;
  np_MaxFailures : Z;
  np_LockoutDuration : Z;
  np_StorageScheme : bytes;
}.

(** An age: none for a zero or a blank; the errors, and the duration the parser returns, zero with an error. *)
Definition age (path raw : bytes) : list config_err * Z :=
  if one_of raw [[]; B "0s"; B "0"] then ([], 0)
  else
    match ParseDuration raw with
    | Some d => ([], d)
    | None => ([fieldErr path (B "invalid_duration")], 0)
    end.

Definition policy_scheme (scheme : bytes) : bytes :=
  let scheme := if beq scheme [] then B "PBKDF2-SHA256" else scheme in
  if beq scheme (B "PBKDF2_SHA256") then B "PBKDF2-SHA256" else scheme.

Definition lockout_check (lk : Lockout) : list config_err * Z :=
  if negb (lk_Enabled lk) then ([], 0)
  else
    let failures := flag (lk_MaxFailures lk <=? 0) (B "spec.passwordPolicy.lockout.maxFailures") (B "required") in
    let path := B "spec.passwordPolicy.lockout.lockoutDuration" in
    if beq (lk_LockoutDuration lk) [] then (failures ++ [fieldErr path (B "required")], 0)
    else
      match ParseDuration (lk_LockoutDuration lk) with
      | Some d => if d <=? 0 then (failures ++ [fieldErr path (B "invalid_duration")], 0) else (failures, d)
      | None => (failures ++ [fieldErr path (B "invalid_duration")], 0)
      end.

Definition normalizePolicy (p : PasswordPolicy) : res config_err NormalizedPolicy :=
  let scheme := policy_scheme (pp_StorageScheme p) in
  let '(es1, maxAge) := age (B "spec.passwordPolicy.maxAge") (pp_MaxAge p) in
  let '(es2, warn) := age (B "spec.passwordPolicy.warningAge") (pp_WarningAge p) in
  let '(es3, lockout) := lockout_check (pp_Lockout p) in
  match joinConfig (flag (negb (one_of scheme [B "PBKDF2-SHA256"; B "SSHA512"])) (B "spec.passwordPolicy.storageScheme") (B "unsupported_scheme") ++
                    es1 ++ es2 ++ flag ((0 <? maxAge) && (maxAge <? warn)) (B "spec.passwordPolicy.warningAge") (B "invalid_policy") ++ es3) with
  | Some e => Err e
  | None => Ok (MkPolicy (pp_MinLength p) (pp_HistoryCount p) maxAge warn (lk_Enabled (pp_Lockout p)) (lk_MaxFailures (pp_Lockout p)) lockout scheme)
  end.

(** * Tokens *)

Definition Scopes : list bytes :=
  [B "directory:read"; B "directory:write"; B "directory:password"; B "lab:reset"; B "lab:export"; B "schema:read"; B "audit:read"].

Definition knownScope (s : bytes) : bool := existsb (λ k, beq k s) Scopes.

Record NormalizedToken : Type := MkNToken {
  nt_ID : bytes;
  nt_Scopes : list bytes;
  nt_Secret : option ResolvedSecret;
}.

Fixpoint token_scopes (path : bytes) (seen : gset bytes) (l : list bytes) : list config_err * list bytes :=
  match l with
  | [] => ([], [])
  | s :: l' =>
    if negb (knownScope s) then let '(es, out) := token_scopes path seen l' in (fieldErr (path ++ B ".scopes") (B "unknown_scope") :: es, out)
    else if bool_decide (s ∈ seen) then token_scopes path seen l'
    else let '(es, out) := token_scopes path ({[s]} ∪ seen) l' in (es, s :: out)
  end.

(** The secret of a token and the digests seen. *)
Definition token_secret (resolver : option Resolver) (path : bytes) (digests : gset bytes) (file : bytes) : list config_err * option ResolvedSecret * gset bytes :=
  match resolver with
  | None => ([], None, digests)
  | Some resolve =>
    match resolve (path ++ B ".secretFile") file with
    | Err e => ([e], None, digests)
    | Ok sec =>
      if bool_decide (sec_Digest sec ∈ digests) then ([fieldErr (path ++ B ".secretFile") (B "duplicate_value")], Some sec, digests)
      else ([], Some sec, {[sec_Digest sec]} ∪ digests)
    end
  end.

Fixpoint token_loop (resolver : option Resolver) (i : nat) (seen digests : gset bytes) (ts : list Token) : list config_err * list NormalizedToken :=
  match ts with
  | [] => ([], [])
  | t :: ts' =>
    let path := at_index (B "spec.tokens") i in
    if beq (t_ID t) [] then
      let '(es, out) := token_loop resolver (S i) seen digests ts' in (fieldErr (path ++ B ".id") (B "required") :: es, out)
    else if bool_decide (t_ID t ∈ seen) then
      let '(es, out) := token_loop resolver (S i) seen digests ts' in (fieldErr (path ++ B ".id") (B "duplicate") :: es, out)
    else
      let seen := {[t_ID t]} ∪ seen in
      if beq (t_SecretFile t) [] then
        let '(es, out) := token_loop resolver (S i) seen digests ts' in (fieldErr (path ++ B ".secretFile") (B "required") :: es, out)
      else
        let '(es1, scopes) := token_scopes path ∅ (t_Scopes t) in
        let '(es2, secret, digests) := token_secret resolver path digests (t_SecretFile t) in
        let '(es, out) := token_loop resolver (S i) seen digests ts' in
        (es1 ++ es2 ++ es, MkNToken (t_ID t) scopes secret :: out)
  end.

Definition normalizeTokens (ts : list Token) (resolver : option Resolver) : res config_err (list NormalizedToken) :=
  let '(acc, out) := token_loop resolver 0 ∅ ∅ ts in
  match joinConfig acc with
  | Some e => Err e
  | None => Ok out
  end.

(** * The normalised configuration *)

Record Baseline : Type := MkBaseline {
  b_Engine : bytes;
  b_Suffix : DN;
  b_AdditionalSuffixes : list DN;
  b_PeopleDN : DN;
  b_GroupsDN : DN;
  b_NestedGroups : bool;
  b_AllowRawACI : bool;
  b_SoftReset : bool;
  b_StorageMode : bytes;
  b_StartupMode : bytes;
  b_Name : bytes;
  b_RuntimeID : bytes;
  b_RuntimeDN : bytes;
  b_RuntimePassword : option ResolvedSecret;
  b_Users : list NormalizedUser;
  b_Groups : list NormalizedGroup;
  b_Policy : NormalizedPolicy;
  b_Tokens : list NormalizedToken;
  b_OperatorACLs : list ACL;
}.

Definition lift_dn {A} (e : config_err) (r : res field_err A) : res config_err A :=
  match r with
  | Ok a => Ok a
  | Err _ => Err e
  end.

Definition normalizeAdditionalSuffixes (raw : list bytes) : res config_err (list DN) :=
  ds ← rmap (λ s, lift_dn (fieldErr suffix_path (B "invalid_dn")) (ParseDN s)) raw;
  Ok (sort_by FoldedKey ds).

Definition normalizeAll (order : graph → list bytes) (resolver : option Resolver) (caller : LoadCaller) (f : File) : res config_err Baseline :=
  let d := f_Directory f in
  let soft := default true (lc_SoftReset (f_Lifecycle f)) in
  suffix ← lift_dn (fieldErr (B "dn") (B "invalid_dn")) (ParseDN (d_Suffix d));
  peopleDN ← lift_dn (fieldErr (B "spec.directory.peopleRDN") (B "invalid_dn")) (ParseDN (d_PeopleRDN d ++ B "," ++ d_Suffix d));
  groupsDN ← lift_dn (fieldErr (B "spec.directory.groupsRDN") (B "invalid_dn")) (ParseDN (d_GroupsRDN d ++ B "," ++ d_Suffix d));
  users ← normalizeUsers (f_Users f) peopleDN resolver (requireUserSeeds f caller);
  groups ← normalizeGroups order (f_Groups f) users groupsDN (d_NestedGroups d);
  policy ← normalizePolicy (f_PasswordPolicy f);
  tokens ← normalizeTokens (f_Tokens f) resolver;
  let rtID := or_default (ra_ID (f_RuntimeAccount f)) (B "labldap-runtime") in
  rtRDN ← lift_dn (fieldErr (B "rdn") (B "invalid_rdn")) (BuildRDN (B "uid") rtID);
  additional ← normalizeAdditionalSuffixes (d_AdditionalSuffixes d);
  let file := ra_PasswordFile (f_RuntimeAccount f) in
  password ← match resolver with
             | Some resolve => if negb (beq file []) then Some <$> resolve (B "spec.runtimeAccount.passwordFile") file else Ok None
             | None => Ok None
             end;
  Ok (MkBaseline (d_Engine d) suffix additional peopleDN groupsDN (d_NestedGroups d) (d_AllowRawACI d) soft
        (lc_StorageMode (f_Lifecycle f)) (lc_StartupMode (f_Lifecycle f)) (f_Name f)
        rtID (rtRDN ++ B "," ++ String peopleDN) password users groups policy tokens (f_ACLs f)).

(** What the compiler of access control reads of it. *)
Definition normalized (b : Baseline) : Normalized :=
  MkNormalized (b_Suffix b) (b_AdditionalSuffixes b) (b_PeopleDN b) (b_GroupsDN b) (b_AllowRawACI b) (b_RuntimeDN b)
    ((λ u, (nu_ID u, nu_DN u)) <$> b_Users b) ((λ g, (ng_ID g, ng_DN g)) <$> b_Groups b) (b_OperatorACLs b).

Definition ManagedSuffixes (b : Baseline) : list DN := b_Suffix b :: b_AdditionalSuffixes b.

(** * Plans *)

Record EnginePlan : Type := MkEnginePlan {
  ep_Engine : bytes;
  ep_Suffix : bytes;
  ep_BackendName : bytes;
  ep_AdditionalBackends : list (bytes * bytes);
  ep_PasswordPolicy : NormalizedPolicy;
  ep_Plugins : list bytes;
}.

Record DataOp : Type := MkDataOp {
  do_Kind : bytes;
  do_ID : bytes;
  do_DN : bytes;
}.

Record DataPlan : Type := MkDataPlan {
  dp_Creates : list DataOp;
  dp_Deletes : list DataOp;
  dp_Preserve : list bytes;
  dp_ServiceAccount : bytes;
  dp_Marker : bytes;
  dp_Users : list bytes;
  dp_Groups : list bytes;
  dp_ACIs : list NamedACI;
}.

Definition additionalBackendName (i : nat) : bytes := B "labldap" ++ itoa (Z.of_nat i).

Definition buildEnginePlan (n : Baseline) : EnginePlan :=
  MkEnginePlan (b_Engine n) (String (b_Suffix n)) (B "userroot")
    (imap (λ i s, (additionalBackendName (i + 1), String s)) (b_AdditionalSuffixes n))
    (b_Policy n) [B "memberof"; B "referint"; B "account-disable"].

Definition RequireAvailableEngine (engine : bytes) : bool := one_of engine [B "389ds"; B "native"].

Definition marker_dn (n : Baseline) : bytes := B "cn=labldap-baseline," ++ String (b_Suffix n).

Definition plan_creates (n : Baseline) : list DataOp :=
  [MkDataOp (B "container") (B "suffix") (String (b_Suffix n));
   MkDataOp (B "container") (B "people") (String (b_PeopleDN n));
   MkDataOp (B "container") (B "groups") (String (b_GroupsDN n));
   MkDataOp (B "account") (b_RuntimeID n) (b_RuntimeDN n)] ++
  imap (λ i s, MkDataOp (B "container") (B "additional-suffix-" ++ itoa (Z.of_nat (i + 1))) (String s)) (b_AdditionalSuffixes n) ++
  ((λ u, MkDataOp (B "user") (nu_ID u) (nu_DN u)) <$> b_Users n) ++
  ((λ g, MkDataOp (B "group") (ng_ID g) (ng_DN g)) <$> b_Groups n) ++
  [MkDataOp (B "marker") (B "baseline") (marker_dn n)].

Definition buildDataPlan (n : Baseline) (acis : list NamedACI) : DataPlan :=
  MkDataPlan (plan_creates n) (reverse (plan_creates n))
    (sort_by id [b_RuntimeDN n; String (b_PeopleDN n); String (b_GroupsDN n); marker_dn n])
    (b_RuntimeDN n) (marker_dn n) (nu_DN <$> b_Users n) (ng_DN <$> b_Groups n) acis.

Record Compiled : Type := MkCompiled {
  c_Public : File;
  c_Normalized : Baseline;
  c_Engine : EnginePlan;
  c_Data : DataPlan;
  c_Warning : bool;
}.

(** [Compile], from the decoded document on. *)
Definition Compile {V : Vocabulary} (order : graph → list bytes) (env : bytes) (extra : list bytes) (resolver : option Resolver) (caller : LoadCaller)
    (f : File) : res config_err Compiled :=
  f ← Load env extra f;
  n ← normalizeAll order resolver caller f;
  acis ← compileACIs (normalized n);
  Ok (MkCompiled f n (buildEnginePlan n) (buildDataPlan n acis) (warnPersistentReset f)).
End baseline.

(** What a compiled configuration is: users under their container with attributes they
    may have, groups of users and groups that exist without a cycle, tokens that differ,
    managed suffixes apart from each other. *)

Lemma nodup_inj {A B} (f : A → B) (l : list A) (x y : A) : NoDup (f <$> l) → x ∈ l → y ∈ l → f x = f y → x = y.
Proof.
  intros Hd (i & Hi)%list_elem_of_lookup (j & Hj)%list_elem_of_lookup E.
  assert (i = j) as ->; [| congruence]. apply (NoDup_lookup (f <$> l) i j (f x)); [done | |]; rewrite list_lookup_fmap; [by rewrite Hi | by rewrite Hj, E].
Qed.

(** * Attribute names *)

Section names.
Context {U : Unicode} {UL : UnicodeLaws U}.

Lemma assoc_elem {A} (l : list (bytes * A)) (k : bytes) (a : A) : assoc l k = Some a → (k, a) ∈ l.
Proof.
  induction l as [|[k' a'] l IH]; cbn [assoc]; [done |]. unfold beq. case_bool_decide as E; [intros [= ->]; subst; left | intros H; right; by apply IH].
Qed.

(** A descriptor of the alias table resolves to its type, once and for all. *)
Definition alias_ok (p : bytes * attrAlias) : Prop :=
  lows (alias_primary p.2) = alias_typ p.2 ∧ (semicolon ∉ alias_primary p.2) ∧ Forall visible (alias_primary p.2) ∧
  assoc protectedAttributeOIDs p.1 = None ∧ assoc protectedAttributeOIDs (alias_typ p.2) = None ∧ assoc attributeNameAliases (alias_typ p.2) = None.

Lemma aliases_ok (k : bytes) (a : attrAlias) : assoc attributeNameAliases k = Some a → alias_ok (k, a).
Proof.
  intros H%assoc_elem. revert H. generalize (k, a). apply Forall_forall. unfold attributeNameAliases.
  repeat (apply Forall_cons; split; [unfold alias_ok; split_and!; [vm_compute; reflexivity | vm_compute; intros H; set_solver | repeat constructor; vm_compute; reflexivity | vm_compute; reflexivity..] |]).
  constructor.
Qed.

Lemma visible_ascii (s : bytes) : Forall visible s → ascii s.
Proof. intros H. apply forallb_forall. intros b Hb%list_elem_of_In. rewrite Forall_forall in H. destruct (H b Hb) as [Hlt _]. apply Z.ltb_lt, Hlt. Qed.

Lemma visible_lower (b : byte) : visible b → visible (byte_lower b).
Proof. unfold visible. by destruct b; vm_compute. Qed.

Lemma visible_lows (s : bytes) : Forall visible s → Forall visible (lows s).
Proof. intros H. unfold lows. rewrite Forall_fmap. eapply Forall_impl; [exact H |]. apply visible_lower. Qed.

Lemma lows_idem (s : bytes) : lows (lows s) = lows s.
Proof. unfold lows. rewrite <- list_fmap_compose. apply list_fmap_ext. intros i b _. by destruct b; vm_compute. Qed.

Lemma canonical_visible (s : bytes) : Forall visible s → CanonicalAttr s = lows s.
Proof.
  intros H. unfold CanonicalAttr. pose proof (trim_pad 0 0 s H) as E. cbn [replicate app] in E. rewrite app_nil_r in E. rewrite E. by apply to_lower_ascii, visible_ascii.
Qed.

Lemma cut_lows (s : bytes) : cut_byte semicolon (lows s) = let '(a, b, ok) := cut_byte semicolon s in (lows a, lows b, ok).
Proof.
  induction s as [|c s IH]; [done |]. unfold lows in *. cbn [fmap list_fmap cut_byte]. rewrite IH. destruct (cut_byte semicolon s) as [[a b] ok].
  pose proof (byte_lower_semi c). destruct (decide (c = semicolon)) as [->|Hc]; [done |].
  rewrite !bool_decide_false by tauto. done.
Qed.

Lemma cut_elem (s a b : bytes) (ok : bool) (c : byte) : cut_byte semicolon s = (a, b, ok) → c ∈ a ∨ c ∈ b → c ∈ s.
Proof.
  revert a b ok. induction s as [|d s IH]; intros a b ok; cbn [cut_byte]; [intros [= <- <- _]; set_solver |].
  destruct (cut_byte semicolon s) as [[a' b'] ok'] eqn:E. case_bool_decide; intros [= <- <- <-]; [set_solver |]. intros [[-> | Hc]%elem_of_cons | Hc]; [left | right | right]; eauto.
Qed.

Lemma cut_visible (s a b : bytes) (ok : bool) : Forall visible s → cut_byte semicolon s = (a, b, ok) → Forall visible a ∧ Forall visible b.
Proof. rewrite !Forall_forall. intros Hs Hc. split; intros c Hin; apply Hs; eapply cut_elem; eauto. Qed.

Lemma cut_none (s a b : bytes) : cut_byte semicolon s = (a, b, false) → a = s ∧ b = [].
Proof.
  revert a b. induction s as [|c s IH]; intros a b; cbn [cut_byte]; [intros [= <- <-]; done |].
  destruct (cut_byte semicolon s) as [[a' b'] ok'] eqn:E. case_bool_decide; [done |]. intros [= <- <- ->]. by destruct (IH a' b' eq_refl) as [-> ->].
Qed.

Lemma cut_no_options (s : bytes) : semicolon ∉ s → cut_byte semicolon s = (s, [], false).
Proof.
  destruct (cut_byte semicolon s) as [[a b] []] eqn:E; [| by destruct (cut_none s a b E) as [-> ->]].
  intros H. apply cut_byte_true in E as ->. set_solver.
Qed.

Lemma lows_semi (s : bytes) : semicolon ∈ lows s ↔ semicolon ∈ s.
Proof.
  unfold lows. rewrite list_elem_of_fmap. split; [intros (c & E & Hc); by rewrite <- (proj1 (byte_lower_semi c) (eq_sym E)) | intros H; by exists semicolon].
Qed.

(** The type a lower-case base stands for. *)
Definition resolve_base (base : bytes) : bytes :=
  default (default base (alias_typ <$> assoc attributeNameAliases base)) (assoc protectedAttributeOIDs base).

Lemma canonical_type (name base opts : bytes) (ok : bool) :
  Forall visible name → cut_byte semicolon name = (base, opts, ok) → CanonicalAttrType name = resolve_base (lows base).
Proof.
  intros Hv Hc. unfold CanonicalAttrType, resolve_base. rewrite canonical_visible, cut_lows, Hc by done. cbn [fst].
  destruct (assoc protectedAttributeOIDs (lows base)); [done |]. by destruct (assoc attributeNameAliases (lows base)).
Qed.

(** What is stored of a name: its second descriptor replaced, in lower case. *)
Lemma stored_shape (name base opts : bytes) (ok : bool) : Forall visible name → cut_byte semicolon name = (base, opts, ok) →
  stored_name name = match assoc attributeNameAliases (lows base) with
                     | None => lows name
                     | Some a => alias_typ a ++ (if ok then B ";" ++ lows opts else [])
                     end.
Proof.
  intros Hv Hc. destruct (cut_visible _ _ _ _ Hv Hc) as [Hb Ho].
  assert (Ht : ∀ s, Forall visible s → trim_space s = s) by (intros s Hs; pose proof (trim_pad 0 0 s Hs) as E; cbn [replicate app] in E; by rewrite app_nil_r in E).
  unfold stored_name, PrimaryAttrDescription. rewrite (Ht name), Hc, (Ht base), to_lower_ascii by (try apply visible_ascii; done).
  destruct (assoc attributeNameAliases (lows base)) as [a|] eqn:Ea; [| by apply canonical_visible].
  destruct (aliases_ok _ _ Ea) as (H1 & _ & H3 & _). cbn [snd] in H1, H3. destruct ok.
  - rewrite canonical_visible by (rewrite !Forall_app; split_and!; [done | repeat constructor; vm_compute; done | done]).
    unfold lows in *. rewrite !fmap_app, H1. done.
  - rewrite canonical_visible, app_nil_r by done. done.
Qed.

Lemma cut_rest (name base opts : bytes) : cut_byte semicolon name = (base, opts, true) → name = base ++ semicolon :: opts ∧ semicolon ∉ base.
Proof. intros H. split; [by apply cut_byte_true in H | by eapply cut_byte_sep]. Qed.

(** A stored name stands for the attribute the configuration named. *)
Lemma stored_faithful (name : bytes) : Forall visible name →
  Forall visible (stored_name name) ∧ CanonicalAttr (stored_name name) = stored_name name ∧
  CanonicalAttrType (stored_name name) = CanonicalAttrType name ∧ AttrDuplicateKey (stored_name name) = AttrDuplicateKey name.
Proof.
  intros Hv. destruct (cut_byte semicolon name) as [[base opts] ok] eqn:Hc. destruct (cut_visible _ _ _ _ Hv Hc) as [Hb Ho].
  pose proof (stored_shape name base opts ok Hv Hc) as Hs. pose proof (canonical_type name base opts ok Hv Hc) as Ht.
  assert (Hcut : ∃ base', cut_byte semicolon (stored_name name) = (base', lows opts, ok) ∧ resolve_base (lows base') = resolve_base (lows base) ∧
                          Forall visible (stored_name name) ∧ lows (stored_name name) = stored_name name).
  { destruct (assoc attributeNameAliases (lows base)) as [a|] eqn:Ea; rewrite Hs.
    - destruct (aliases_ok _ _ Ea) as (H1 & H2 & H3 & H4 & H5 & H6). cbn [fst snd] in *. exists (alias_typ a).
      assert (Hn : semicolon ∉ alias_typ a) by (rewrite <- H1; by rewrite lows_semi).
      assert (Hvt : Forall visible (alias_typ a)) by (rewrite <- H1; by apply visible_lows).
      assert (Hl : lows (alias_typ a) = alias_typ a) by (rewrite <- H1; apply lows_idem).
      split_and!.
      + destruct ok; [by apply cut_byte_app |]. rewrite app_nil_r, cut_no_options by done. by destruct (cut_none _ _ _ Hc) as [_ ->].
      + unfold resolve_base. by rewrite Hl, H4, H5, H6, Ea.
      + apply Forall_app. split; [done |]. destruct ok; [| constructor]. apply Forall_app. split; [repeat constructor; vm_compute; done | by apply visible_lows].
      + unfold lows in *. rewrite fmap_app, Hl. f_equal. destruct ok; [| done]. rewrite fmap_app. f_equal. apply lows_idem.
    - exists (lows base). rewrite cut_lows, Hc. split_and!; [done | by rewrite lows_idem | by apply visible_lows | apply lows_idem]. }
  destruct Hcut as (base' & H1 & H2 & H3 & H4).
  assert (Hcan : CanonicalAttr (stored_name name) = stored_name name) by by rewrite canonical_visible.
  assert (Htype : CanonicalAttrType (stored_name name) = CanonicalAttrType name) by (rewrite (canonical_type _ _ _ _ H3 H1), Ht; done).
  split_and!; [done | done | done |]. unfold AttrDuplicateKey. rewrite Hcan, H1, Htype, canonical_visible, cut_lows, Hc by done. done.
Qed.

Lemma stored_allowed (name : bytes) : Forall visible name → ForbiddenUserWriteAttr name = false → ForbiddenUserWriteAttr (stored_name name) = false.
Proof.
  intros Hv. destruct (stored_faithful name Hv) as (_ & Hcan & Ht & _). unfold ForbiddenUserWriteAttr, ForbiddenUserAttr. rewrite Ht, Hcan.
  destruct (if starts_digit _ then true else _); [done |]. destruct (beq (CanonicalAttrType name) (B "objectclass")); [done |].
  case_bool_decide as Hp; [| done]. unfold beq. rewrite !negb_false_iff, !bool_decide_eq_true, canonical_visible by done. intros Hl.
  assert (Hsemi : semicolon ∉ name) by (rewrite <- lows_semi, Hl; set_unfold in Hp; destruct Hp as [-> | [-> | [-> | []]]]; vm_compute; set_solver).
  pose proof (stored_shape name name [] false Hv (cut_no_options _ Hsemi)) as Hs. rewrite Hs. rewrite Hl in *.
  set_unfold in Hp. destruct Hp as [-> | [-> | [-> | []]]]; done.
Qed.
End names.

(** * Users *)

Section users.
Context {U : Unicode} {UL : UnicodeLaws U}.

Lemma keep_names_spec (path : bytes) (names : list bytes) : ∀ seen,
  let '(es, kept) := keep_names path seen names in
  (es = [] ↔ Forall (λ n, ForbiddenUserWriteAttr n = false) names ∧ NoDup (AttrDuplicateKey <$> names) ∧ ∀ n, n ∈ names → AttrDuplicateKey n ∉ seen) ∧
  (es = [] → kept = names).
Proof.
  induction names as [|n names IH]; intros seen; cbn [keep_names fmap list_fmap].
  { split; [| done]. split; [intros _; split_and!; [constructor | constructor | set_solver] | done]. }
  destruct (ForbiddenUserWriteAttr n) eqn:Ef.
  { destruct (keep_names path seen names). split; [| done]. split; [done |]. intros (H & _). apply Forall_cons in H as [? _]. congruence. }
  case_bool_decide as Hs.
  { destruct (keep_names path seen names). split; [| done]. split; [done |]. intros (_ & _ & H). destruct (H n); [left | done]. }
  specialize (IH ({[AttrDuplicateKey n]} ∪ seen)). destruct (keep_names path _ names) as [es kept]. destruct IH as [H1 H2]. split.
  - rewrite H1, Forall_cons, NoDup_cons. split.
    + intros (Hf & Hd & Hx). split_and!; [done | done | | done |].
      * intros (n' & E & Hn')%list_elem_of_fmap. specialize (Hx n' Hn'). set_solver.
      * intros n' [-> | Hn']%elem_of_cons; [done |]. specialize (Hx n' Hn'). set_solver.
    + intros ((_ & Hf) & (Hd & Hd') & Hx). split_and!; [done | done |]. intros n' Hn'. apply not_elem_of_union. split; [| apply Hx; by right].
      intros E%elem_of_singleton. apply Hd. rewrite <- E. by apply list_elem_of_fmap_2.
  - intros He. by rewrite H2.
Qed.

(** The attributes a user may be given. *)
Definition attributes_ok (attrs : gmap bytes bytes) : Prop :=
  (∀ n v, attrs !! n = Some v → ForbiddenUserWriteAttr n = false) ∧
  ∀ n n' v v', attrs !! n = Some v → attrs !! n' = Some v' → AttrDuplicateKey n = AttrDuplicateKey n' → n = n'.

Lemma sorted_names_elem (attrs : gmap bytes bytes) (n : bytes) : n ∈ sorted_names attrs ↔ is_Some (attrs !! n).
Proof.
  unfold sorted_names. rewrite sort_by_elem, list_elem_of_fmap. split.
  - intros ([k v] & -> & H%elem_of_map_to_list). by exists v.
  - intros [v H]. exists (n, v). split; [done | by apply elem_of_map_to_list].
Qed.

Lemma sorted_names_nodup (attrs : gmap bytes bytes) : NoDup (sorted_names attrs).
Proof. unfold sorted_names. rewrite sort_by_perm. apply NoDup_fst_map_to_list. Qed.

Lemma names_accepted (path : bytes) (attrs : gmap bytes bytes) :
  let '(es, kept) := keep_names path ∅ (SortAttrNamesForDuplicates (sorted_names attrs)) in
  es = [] → attributes_ok attrs ∧ user_attributes attrs kept ≡ₚ (λ p, (stored_name p.1, p.2)) <$> map_to_list attrs.
Proof.
  pose proof (keep_names_spec path (SortAttrNamesForDuplicates (sorted_names attrs)) ∅) as H.
  assert (Hp : SortAttrNamesForDuplicates (sorted_names attrs) ≡ₚ sorted_names attrs) by apply stable_sort_perm.
  destruct (keep_names path ∅ _) as [es kept]. destruct H as [H1 H2]. intros He. destruct (proj1 H1 He) as (Hf & Hd & _). specialize (H2 He).
  rewrite Hp in Hf, Hd. split; [split |].
  - intros n v Hn. rewrite Forall_forall in Hf. apply Hf, sorted_names_elem. by exists v.
  - intros n n' v v' Hn Hn' E. apply (nodup_inj AttrDuplicateKey (sorted_names attrs)); [done | apply sorted_names_elem; by eexists.. | done].
  - unfold user_attributes. rewrite sort_by_perm, H2. rewrite filter_keep.
    + unfold sorted_names. rewrite sort_by_perm, <- list_fmap_compose. erewrite list_fmap_ext; [reflexivity |]. intros i [n v] Hin. unfold compose. cbn [fst snd]. f_equal.
      apply list_elem_of_lookup_2, elem_of_map_to_list in Hin. by rewrite Hin.
    + apply Forall_forall. intros n Hn. by rewrite Hp.
Qed.

(** What a user of the configuration becomes. *)
Record user_from (people : DN) (resolver : option Resolver) (seeds : bool) (u : User) (nu : NormalizedUser) : Prop := MkUserFrom {
  uf_ID : nu_ID nu = u_ID u;
  uf_UID : nu_UID nu = user_uid u;
  uf_DN : nu_DN nu = String (below (B "uid") (user_uid u) people);
  uf_given : u_DN u ≠ [] → ∃ d, ParseDN (u_DN u) = Ok d ∧ ParseDN (nu_DN nu) = Ok d;
  uf_enabled : nu_Enabled nu = default true (u_Enabled u);
  uf_allowed : attributes_ok (u_Attributes u);
  uf_attributes : nu_Attributes nu ≡ₚ (λ p, (stored_name p.1, p.2)) <$> map_to_list (u_Attributes u);
  uf_seed : seeds = true → u_PasswordFile u ≠ [] ∧
    ∀ resolve, resolver = Some resolve → ∃ owner sec, resolve owner (u_PasswordFile u) = Ok sec ∧ nu_Password nu = Some sec;
}.

Lemma normalize_user_spec (people : DN) (resolver : option Resolver) (seeds : bool) (path : bytes) (u : User) (nu : option NormalizedUser) :
  rdns people ≠ [] → normalize_user people resolver seeds path u = ([], nu) → ∃ v, nu = Some v ∧ user_from people resolver seeds u v.
Proof using UL.
  intros Hp. unfold normalize_user. destruct (BuildRDN (B "uid") (user_uid u)) as [rdn|] eqn:Er; [| done].
  pose proof (generated_name (B "uid") (user_uid u) rdn people ltac:(reflexivity) Hp Er) as Hname.
  pose proof (names_accepted path (u_Attributes u)) as Hn. destruct (keep_names path ∅ _) as [es kept]. destruct (user_secret resolver seeds path u) as [es' secret] eqn:Es.
  intros [= H <-]. apply app_eq_nil in H as [_ H]. apply app_eq_nil in H as [Hd H]. apply app_eq_nil in H as [He He']. destruct (Hn He) as [Ha Hperm].
  eexists. split; [done |]. split; cbn [nu_ID nu_UID nu_DN nu_Enabled nu_Attributes nu_Password]; [done | done | done | | done | done | done |].
  - intros Hg. unfold dn_check in Hd. unfold beq in Hd. rewrite bool_decide_false in Hd by done. cbn [negb andb] in Hd.
    destruct (dn_matches _ _) eqn:Em in Hd; [| done]. unfold dn_matches in Em.
    destruct (ParseDN (rdn ++ _)) as [d|] eqn:E1 in Em; [| done]. destruct (ParseDN (u_DN u)) as [d'|] eqn:E2 in Em; [| done].
    apply Equal_iff in Em as ->. by exists d'.
  - intros ->. unfold user_secret in Es. cbn [negb] in Es. unfold beq in Es. case_bool_decide; [by simplify_eq |]. split; [done |].
    intros resolve ->. destruct (resolve _ _) as [sec|] eqn:E; simplify_eq. eexists _, _. split; [exact E | done].
Qed.

Lemma user_loop_spec (people : DN) (resolver : option Resolver) (seeds : bool) (us : list User) : rdns people ≠ [] → ∀ i seen,
  let '(es, out) := user_loop people resolver seeds i seen us in
  es = [] → Forall2 (user_from people resolver seeds) us out ∧ Forall (λ u, u_ID u ≠ []) us ∧ NoDup (u_ID <$> us) ∧ ∀ u, u ∈ us → u_ID u ∉ seen.
Proof using UL.
  intros Hp. induction us as [|u us IH]; intros i seen; cbn [user_loop fmap list_fmap].
  { intros _. split_and!; [constructor | constructor | constructor | set_solver]. }
  unfold beq. case_bool_decide as Hn; [by destruct (user_loop people resolver seeds (S i) seen us) |].
  case_bool_decide as Hs; [by destruct (user_loop people resolver seeds (S i) seen us) |].
  destruct (normalize_user people resolver seeds (at_index (B "spec.users") i) u) as [es nu] eqn:En.
  specialize (IH (S i) ({[u_ID u]} ∪ seen)). destruct (user_loop people resolver seeds (S i) _ us) as [es' out].
  intros [-> ->]%app_eq_nil. destruct (normalize_user_spec _ _ _ _ _ _ Hp En) as (v & -> & Hv). destruct (IH eq_refl) as (H1 & H2 & H3 & H4). split_and!.
  - by constructor.
  - by constructor.
  - constructor; [| done]. intros (u' & E & Hu')%list_elem_of_fmap. specialize (H4 u' Hu'). set_solver.
  - intros u' [-> | Hu']%elem_of_cons; [done |]. specialize (H4 u' Hu'). set_solver.
Qed.

Lemma normalizeUsers_aux (people : DN) (resolver : option Resolver) (seeds : bool) (us : list User) (out : list NormalizedUser) :
  rdns people ≠ [] → normalizeUsers us people resolver seeds = Ok out →
  Forall (λ u, u_ID u ≠ []) us ∧ NoDup (u_ID <$> us) ∧ ∃ l, out ≡ₚ l ∧ Forall2 (user_from people resolver seeds) us l.
Proof using UL.
  intros Hp. unfold normalizeUsers. pose proof (user_loop_spec people resolver seeds us Hp 0 ∅) as H.
  destruct (user_loop people resolver seeds 0 ∅ us) as [[|e acc] l]; [| done]. cbn [joinConfig]. intros [= <-]. destruct (H eq_refl) as (H1 & H2 & H3 & _).
  split_and!; [done | done |]. exists l. split; [apply sort_by_perm | done].
Qed.

Lemma users_ids (people : DN) (resolver : option Resolver) (seeds : bool) (us : list User) (l : list NormalizedUser) :
  Forall2 (user_from people resolver seeds) us l → nu_ID <$> l = u_ID <$> us.
Proof. induction 1 as [|u v us l H _ IH]; [done |]. rewrite !fmap_cons, IH. f_equal. apply H. Qed.
End users.

(** * Tokens *)

Record token_from (resolver : option Resolver) (t : Token) (nt : NormalizedToken) : Prop := MkTokenFrom {
  tf_ID : nt_ID nt = t_ID t;
  tf_file : t_SecretFile t ≠ [];
  tf_known : ∀ s, s ∈ t_Scopes t → s ∈ Scopes;
  tf_once : NoDup (nt_Scopes nt);
  tf_scopes : ∀ s, s ∈ nt_Scopes nt ↔ s ∈ t_Scopes t;
  tf_secret : ∀ resolve, resolver = Some resolve → ∃ owner sec, resolve owner (t_SecretFile t) = Ok sec ∧ nt_Secret nt = Some sec;
}.

Definition digests (l : list NormalizedToken) : list bytes := sec_Digest <$> omap nt_Secret l.

Lemma token_scopes_spec (path : bytes) (l : list bytes) : ∀ seen,
  let '(es, out) := token_scopes path seen l in
  es = [] → (∀ s, s ∈ l → s ∈ Scopes) ∧ NoDup out ∧ ∀ s, s ∈ out ↔ s ∈ l ∧ s ∉ seen.
Proof.
  induction l as [|s l IH]; intros seen; cbn [token_scopes]; [intros _; split_and!; [set_solver | constructor | set_solver] |].
  destruct (knownScope s) eqn:Ek; cbn [negb]; [| by destruct (token_scopes path seen l)].
  assert (Hs : s ∈ Scopes). { unfold knownScope in Ek. apply existsb_exists in Ek as (k & Hk & E). apply list_elem_of_In in Hk. unfold beq in E. apply bool_decide_eq_true in E. by subst. }
  case_bool_decide as Hin.
  - specialize (IH seen). destruct (token_scopes path seen l) as [es out]. intros He. destruct (IH He) as (H1 & H2 & H3). split_and!; [| done |].
    + intros s' [-> | Hs']%elem_of_cons; auto.
    + intros s'. rewrite H3. set_solver.
  - specialize (IH ({[s]} ∪ seen)). destruct (token_scopes path _ l) as [es out]. intros He. destruct (IH He) as (H1 & H2 & H3). split_and!.
    + intros s' [-> | Hs']%elem_of_cons; auto.
    + constructor; [| done]. rewrite H3. set_solver.
    + intros s'. rewrite elem_of_cons, H3. split; [set_solver |]. intros [[-> | Hs']%elem_of_cons Hn]; [by left |]. destruct (decide (s' = s)); [by left | right; set_solver].
Qed.

Lemma token_loop_spec (resolver : option Resolver) (ts : list Token) : ∀ i seen seenD,
  let '(es, out) := token_loop resolver i seen seenD ts in
  es = [] → Forall2 (token_from resolver) ts out ∧ Forall (λ t, t_ID t ≠ []) ts ∧ NoDup (t_ID <$> ts) ∧ (∀ t, t ∈ ts → t_ID t ∉ seen) ∧
            NoDup (digests out) ∧ ∀ d, d ∈ digests out → d ∉ seenD.
Proof.
  induction ts as [|t ts IH]; intros i seen seenD; cbn [token_loop fmap list_fmap].
  { intros _. split_and!; [constructor | constructor | constructor | set_solver | constructor | set_solver]. }
  unfold beq. case_bool_decide as Hn; [by destruct (token_loop resolver (S i) seen seenD ts) |].
  case_bool_decide as Hs; [by destruct (token_loop resolver (S i) seen seenD ts) |].
  case_bool_decide as Hf; [by destruct (token_loop resolver (S i) ({[t_ID t]} ∪ seen) seenD ts) |].
  pose proof (token_scopes_spec (at_index (B "spec.tokens") i) (t_Scopes t) ∅) as Hsc. destruct (token_scopes _ ∅ (t_Scopes t)) as [es1 scopes].
  destruct (token_secret resolver (at_index (B "spec.tokens") i) seenD (t_SecretFile t)) as [[es2 secret] seenD'] eqn:Et.
  specialize (IH (S i) ({[t_ID t]} ∪ seen) seenD'). destruct (token_loop resolver (S i) _ seenD' ts) as [es out].
  intros H. apply app_eq_nil in H as [-> H]. apply app_eq_nil in H as [-> ->]. destruct (IH eq_refl) as (H1 & H2 & H3 & H4 & H5 & H6). destruct (Hsc eq_refl) as (S1 & S2 & S3).
  assert (Hsec : (∀ resolve, resolver = Some resolve → ∃ owner sec, resolve owner (t_SecretFile t) = Ok sec ∧ secret = Some sec) ∧
    match secret with Some sec => (sec_Digest sec ∉ seenD) ∧ seenD' = {[sec_Digest sec]} ∪ seenD | None => seenD' = seenD end).
  { unfold token_secret in Et. destruct resolver as [resolve|]; [| by simplify_eq]. destruct (resolve _ _) as [sec|] eqn:E; [| done].
    case_bool_decide; simplify_eq. split; [| done]. intros r [= <-]. eexists _, _. split; [exact E | done]. }
  destruct Hsec as [Hr Hd]. split_and!.
  - constructor; [| done]. split; cbn [nt_ID nt_Scopes nt_Secret]; [done | done | done | done | | done]. intros s. rewrite S3. set_solver.
  - by constructor.
  - constructor; [| done]. intros (t' & E & Ht')%list_elem_of_fmap. specialize (H4 t' Ht'). set_solver.
  - intros t' [-> | Ht']%elem_of_cons; [done |]. specialize (H4 t' Ht'). set_solver.
  - unfold digests in *. cbn [omap list_omap nt_Secret]. destruct secret as [sec|]; [| done]. destruct Hd as [Hd ->]. rewrite fmap_cons. constructor; [| done].
    intros Hin. specialize (H6 _ Hin). set_solver.
  - unfold digests in *. cbn [omap list_omap nt_Secret]. destruct secret as [sec|]; [| by subst]. destruct Hd as [Hd ->]. rewrite fmap_cons.
    intros d [-> | Hin]%elem_of_cons; [done |]. specialize (H6 _ Hin). set_solver.
Qed.

Lemma normalizeTokens_aux (resolver : option Resolver) (ts : list Token) (out : list NormalizedToken) :
  normalizeTokens ts resolver = Ok out →
  Forall2 (token_from resolver) ts out ∧ Forall (λ t, t_ID t ≠ []) ts ∧ NoDup (t_ID <$> ts) ∧ NoDup (digests out).
Proof.
  unfold normalizeTokens. pose proof (token_loop_spec resolver ts 0 ∅ ∅) as H. destruct (token_loop resolver 0 ∅ ∅ ts) as [[|e acc] l]; [| done].
  cbn [joinConfig]. intros [= <-]. destruct (H eq_refl) as (H1 & H2 & H3 & _ & H5 & _). done.
Qed.

(** * Managed suffixes *)

Section suffixes.
Context {U : Unicode} {UL : UnicodeLaws U}.

(** Two suffixes that neither equal nor contain each other, as the checks compare names. *)
Definition apart (a b : DN) : Prop :=
  EqualFold a b = false ∧ EqualFold b a = false ∧ IsDescendantOf a b = false ∧ IsDescendantOf b a = false.

Abbreviation pairwise := (StronglySorted apart).

#[export] Instance apart_sym : Symmetric apart.
Proof. unfold Symmetric, apart. tauto. Qed.

Lemma pairwise_perm (l l' : list DN) : l ≡ₚ l' → pairwise l → pairwise l'.
Proof.
  induction 1 as [| x l l' Hp IH | x y l | l1 l2 l3 _ IH1 _ IH2]; [done | | | auto].
  - intros H. inversion H as [|? ? Hs Hf]; subst. constructor; [auto |]. by rewrite <- Hp.
  - intros H. inversion H as [|? ? Hs Hf]; subst. inversion Hs as [|? ? Hs' Hf']; subst. apply Forall_cons in Hf as [Hxy Hf].
    constructor; [by constructor | constructor; [by symmetry | done]].
Qed.

Lemma pairwise_snoc (l : list DN) (d : DN) : pairwise l → Forall (apart d) l → pairwise (l ++ [d]).
Proof.
  intros Hl Hd. eapply pairwise_perm; [apply (Permutation_app_comm [d] l) |]. by constructor.
Qed.

Lemma clash_none (d : DN) (parsed : list DN) : clash d parsed = None → Forall (apart d) parsed.
Proof using UL.
  induction parsed as [|o parsed IH]; cbn [clash]; [constructor |]. destruct (EqualFold d o) eqn:Ee; [done |].
  destruct (IsDescendantOf d o) eqn:E1; [done |]. destruct (IsDescendantOf o d) eqn:E2; [done |]. intros H. constructor; [| auto].
  unfold apart. split_and!; [done | | done | done]. destruct (EqualFold o d) eqn:E; [| done]. apply EqualFold_sym in E. congruence.
Qed.

Lemma check_suffixes_spec (extra : list bytes) : ∀ seen parsed, check_suffixes seen parsed extra = [] → pairwise parsed →
  ∃ ds, rmap (E := config_err) (λ s, lift_dn (fieldErr suffix_path (B "invalid_dn")) (ParseDN s)) extra = Ok ds ∧ pairwise (parsed ++ ds).
Proof using UL.
  induction extra as [|raw extra IH]; intros seen parsed; cbn [check_suffixes rmap]; [intros _ H; exists []; by rewrite app_nil_r |].
  destruct (beq (trim_space raw) []); [done |]. destruct (ParseDN raw) as [d|]; [| done]. case_bool_decide as Hseen; [done |].
  destruct (clash d parsed) eqn:Ec; [done |]. intros H Hp. destruct (IH _ _ H) as (ds & Hds & Hpw); [apply pairwise_snoc; [done | by apply clash_none] |].
  exists (d :: ds). cbn [lift_dn mbind res_bind]. rewrite Hds. split; [done |]. by rewrite <- app_assoc in Hpw.
Qed.

Lemma suffixes_apart (primary : bytes) (p : DN) (extra : list bytes) (ds : list DN) :
  primary ≠ [] → ParseDN primary = Ok p → checkAdditionalSuffixes primary extra = [] → normalizeAdditionalSuffixes extra = Ok ds → pairwise (p :: ds).
Proof using UL.
  intros Hn Hp. unfold checkAdditionalSuffixes, normalizeAdditionalSuffixes. destruct extra as [|raw extra]; cbn [length Nat.eqb].
  { intros _ [= <-]. repeat constructor. }
  destruct (maxAdditionalSuffixes <? _)%nat; [done |]. unfold beq. rewrite bool_decide_false, Hp by done. intros H.
  destruct (check_suffixes_spec _ _ _ H) as (l & Hl & Hpw); [repeat constructor |]. rewrite Hl. cbn [mbind res_bind]. intros [= <-].
  eapply pairwise_perm; [| exact Hpw]. cbn [app]. apply Permutation_skip. symmetry. apply sort_by_perm.
Qed.
End suffixes.
