(* ===== verification/CompileFacts.v ===== *)
(** The compiler of configurations: what it accepts is a baseline that hangs together,
    what it plans, and where its checks have holes. *)

From stdpp Require Import fin_sets relations sorting.
From S2P Require Import Prelude GoStrings GoText DN DNFacts Attr Schema Matching Bolt Gate ResetPlan ResetRun Paging Vocab389 AciText AciCompile AciAttrs Scenario GroupGraph Baseline.
Local Open Scope Z_scope.

Lemma joinConfig_none (acc : list config_err) : joinConfig acc = None ↔ acc = [].
Proof. by destruct acc. Qed.

Section compile.
Context {U : Unicode} {UL : UnicodeLaws U} {CL : ConfigLib}.

(** * What is compiled *)

Lemma Load_spec (env : bytes) (extra : list bytes) (f f' : File) : Load env extra f = Ok f' →
  f_Users f' = f_Users f ∧ f_Groups f' = f_Groups f ∧ f_Tokens f' = f_Tokens f ∧ f_ACLs f' = f_ACLs f ∧
  d_NestedGroups (f_Directory f') = d_NestedGroups (f_Directory f) ∧ lc_SoftReset (f_Lifecycle f') = Some (default true (lc_SoftReset (f_Lifecycle f))) ∧
  validateSettings f' = None.
Proof.
  unfold Load, applyAllowedHostSources. destruct (joinConfig _); [done |]. cbn [mbind res_bind].
  destruct (validateSettings _) eqn:Ev; [done |]. intros [= <-]. done.
Qed.

Lemma settings_suffixes (f : File) : validateSettings f = None →
  d_Suffix (f_Directory f) ≠ [] ∧ checkAdditionalSuffixes (d_Suffix (f_Directory f)) (d_AdditionalSuffixes (f_Directory f)) = [].
Proof.
  unfold validateSettings. rewrite joinConfig_none. intros H. apply app_eq_nil in H as [H _]. unfold check_directory in H.
  apply app_eq_nil in H as [_ H]. apply app_eq_nil in H as [_ H]. apply app_eq_nil in H as [Hs H]. apply app_eq_nil in H as [Ha _].
  split; [| done]. intros E. by rewrite E in Hs.
Qed.

(** The parts of a normalised configuration, each from its own source. *)
Record parts (order : graph → list bytes) (resolver : option Resolver) (caller : LoadCaller) (f : File) (b : Baseline) : Prop := MkParts {
  pt_suffix : ParseDN (d_Suffix (f_Directory f)) = Ok (b_Suffix b);
  pt_additional : normalizeAdditionalSuffixes (d_AdditionalSuffixes (f_Directory f)) = Ok (b_AdditionalSuffixes b);
  pt_people : ParseDN (d_PeopleRDN (f_Directory f) ++ B "," ++ d_Suffix (f_Directory f)) = Ok (b_PeopleDN b);
  pt_groups_dn : ParseDN (d_GroupsRDN (f_Directory f) ++ B "," ++ d_Suffix (f_Directory f)) = Ok (b_GroupsDN b);
  pt_users : normalizeUsers (f_Users f) (b_PeopleDN b) resolver (requireUserSeeds f caller) = Ok (b_Users b);
  pt_groups : normalizeGroups order (f_Groups f) (b_Users b) (b_GroupsDN b) (d_NestedGroups (f_Directory f)) = Ok (b_Groups b);
  pt_tokens : normalizeTokens (f_Tokens f) resolver = Ok (b_Tokens b);
  pt_runtime : ∃ rdn, BuildRDN (B "uid") (b_RuntimeID b) = Ok rdn ∧ b_RuntimeDN b = rdn ++ B "," ++ String (b_PeopleDN b);
  pt_nested : b_NestedGroups b = d_NestedGroups (f_Directory f);
  pt_soft : b_SoftReset b = default true (lc_SoftReset (f_Lifecycle f));
  pt_acls : b_OperatorACLs b = f_ACLs f;
}.

Lemma lifted_dn_ok {A} (e : config_err) (r : res field_err A) (a : A) : lift_dn e r = Ok a → r = Ok a.
Proof. destruct r; [by intros [= ->] | done]. Qed.

Lemma res_bind_ok {E A C} (m : res E A) (k : A → res E C) (c : C) : (a ← m; k a) = Ok c → ∃ a, m = Ok a ∧ k a = Ok c.
Proof. destruct m; [by eexists | done]. Qed.

Ltac open_binds :=
  repeat match goal with
         | H : mbind _ _ = Ok _ |- _ => apply res_bind_ok in H as (? & ? & H)
         | H : lift_dn _ _ = Ok _ |- _ => apply lifted_dn_ok in H
         end.

Lemma normalizeAll_parts (order : graph → list bytes) (resolver : option Resolver) (caller : LoadCaller) (f : File) (b : Baseline) :
  normalizeAll order resolver caller f = Ok b → parts order resolver caller f b.
Proof. unfold normalizeAll. intros H. open_binds. simplify_eq. split; try done. by eexists. Qed.
End compile.

(** * The baseline *)

(** Names without white space or octets beyond ASCII. *)
Definition plain_names (attrs : gmap bytes bytes) : Prop := ∀ n v, attrs !! n = Some v → Forall visible n.

(** The attributes of a user are ones it may have, each once. *)
Definition attributes_clean {U : Unicode} (nu : NormalizedUser) : Prop :=
  Forall (λ n, ForbiddenUserWriteAttr n = false ∧ CanonicalAttr n = n) (nu_Attributes nu).*1 ∧ NoDup (AttrDuplicateKey <$> (nu_Attributes nu).*1).

Record baseline_ok {U : Unicode} (f : File) (resolver : option Resolver) (caller : LoadCaller) (b : Baseline) : Prop := MkBaselineOk {
  bo_suffixes : StronglySorted apart (ManagedSuffixes b);
  bo_users : Forall (λ u, u_ID u ≠ []) (f_Users f) ∧ NoDup (u_ID <$> f_Users f) ∧
    ∃ l, b_Users b ≡ₚ l ∧ Forall2 (user_from (b_PeopleDN b) resolver (b_SoftReset b || match caller with CallerBootstrap => true | _ => false end)) (f_Users f) l;
  bo_attributes : Forall (λ u, plain_names (u_Attributes u)) (f_Users f) → Forall attributes_clean (b_Users b);
  bo_consistent : consistent (b_Users b) (b_NestedGroups b) (f_Groups f);
  bo_groups : ∃ l, b_Groups b ≡ₚ l ∧ Forall2 (group_from (b_Users b) (b_GroupsDN b)) (f_Groups f) l;
  bo_tokens : Forall (λ t, t_ID t ≠ []) (f_Tokens f) ∧ NoDup (t_ID <$> f_Tokens f) ∧ NoDup (digests (b_Tokens b)) ∧
    Forall2 (token_from resolver) (f_Tokens f) (b_Tokens b);
  bo_seeds : b_SoftReset b = true → is_Some resolver → Forall (λ nu, is_Some (nu_Password nu)) (b_Users b);
}.

(** Something of this name is created before the given place. *)
Definition created_before (creates : list DataOp) (i : nat) (d : DN) : Prop :=
  ∃ j op, (j < i)%nat ∧ creates !! j = Some op ∧ do_DN op = String d.

(** The names of what the plan creates: every suffix, the two containers, the runtime
    account, the marker, every user and every group. *)
Definition planned_names (b : Baseline) : list bytes :=
  (String <$> ManagedSuffixes b) ++ [String (b_PeopleDN b); String (b_GroupsDN b); b_RuntimeDN b; marker_dn b] ++
  (nu_DN <$> b_Users b) ++ (ng_DN <$> b_Groups b).

(** These are created, once each; everything but the suffixes is a child of something
    created before it, or a container and created after the suffix. *)
Definition creates_ordered (b : Baseline) (creates : list DataOp) : Prop :=
  do_DN <$> creates ≡ₚ planned_names b ∧
  ∀ i op, creates !! i = Some op →
    do_DN op ∈ String <$> ManagedSuffixes b ∨
    (∃ a v d, do_DN op = String (below a v d) ∧ created_before creates i d) ∨
    do_DN op ∈ [String (b_PeopleDN b); String (b_GroupsDN b)] ∧ created_before creates i (b_Suffix b).

Section baseline.
Context {U : Unicode} {UL : UnicodeLaws U} {CL : ConfigLib}.

Lemma users_clean (people : DN) (resolver : option Resolver) (seeds : bool) (u : User) (nu : NormalizedUser) :
  user_from people resolver seeds u nu → plain_names (u_Attributes u) → attributes_clean nu.
Proof using UL.
  intros Hf Hv. destruct (uf_allowed _ _ _ _ _ Hf) as [Ha Hi]. unfold attributes_clean. rewrite (uf_attributes _ _ _ _ _ Hf).
  assert (E : ((λ p : bytes * bytes, (stored_name p.1, p.2)) <$> map_to_list (u_Attributes u)).*1 = stored_name <$> (map_to_list (u_Attributes u)).*1) by (by rewrite <- !list_fmap_compose).
  rewrite E. split.
  - apply Forall_fmap, Forall_fmap, Forall_forall. intros [n v] Hin%elem_of_map_to_list. cbn. split; [apply stored_allowed; [by eapply Hv | by eapply Ha] | apply stored_faithful; by eapply Hv].
  - rewrite <- list_fmap_compose. apply NoDup_fmap_2_strong; [| apply NoDup_fst_map_to_list].
    intros n n' ([? v] & -> & Hn%elem_of_map_to_list)%list_elem_of_fmap ([? v'] & -> & Hn'%elem_of_map_to_list)%list_elem_of_fmap. cbn.
    destruct (stored_faithful _ (Hv _ _ Hn)) as (_ & _ & _ & ->). destruct (stored_faithful _ (Hv _ _ Hn')) as (_ & _ & _ & ->). by eapply Hi.
Qed.

Lemma Forall2_perm_forall {A C} (R : A → C → Prop) (P : C → Prop) (l : list A) (k m : list C) :
  m ≡ₚ k → Forall2 R l k → (∀ x y, x ∈ l → R x y → P y) → Forall P m.
Proof.
  intros -> H Hp. apply Forall_forall. intros y Hy. apply list_elem_of_lookup in Hy as [i Hi].
  destruct (Forall2_lookup_r _ _ _ _ _ H Hi) as (x & Hx & Hr). eapply Hp; [by eapply list_elem_of_lookup_2 | done].
Qed.

Lemma parts_ok (order : graph → list bytes) (resolver : option Resolver) (caller : LoadCaller) (f f' : File) (b : Baseline) (env : bytes) (extra : list bytes) :
  (∀ adj n, n ∈ order adj ↔ n ∈ dom adj) → Load env extra f = Ok f' → parts order resolver caller f' b → baseline_ok f resolver caller b.
Proof using UL.
  intros Ho Hl Hp. destruct (Load_spec _ _ _ _ Hl) as (Eu & Eg & Et & _ & _ & Es & Hv). destruct (settings_suffixes _ Hv) as [Hs Ha].
  assert (Hpeople : rdns (b_PeopleDN b) ≠ []) by (apply (ParseDN_wf_aux _ _ (pt_people _ _ _ _ _ Hp))).
  assert (Hgroups : rdns (b_GroupsDN b) ≠ []) by (apply (ParseDN_wf_aux _ _ (pt_groups_dn _ _ _ _ _ Hp))).
  pose proof (pt_users _ _ _ _ _ Hp) as Hu. apply (normalizeUsers_aux _ _ _ _ _ Hpeople) in Hu as (U1 & U2 & l & Hperm & Hf2). rewrite Eu in *.
  assert (Hseeds : requireUserSeeds f' caller = b_SoftReset b || match caller with CallerBootstrap => true | _ => false end).
  { unfold requireUserSeeds. rewrite (pt_soft _ _ _ _ _ Hp). done. }
  rewrite Hseeds in Hf2.
  assert (Hnd : NoDup (nu_ID <$> b_Users b)) by (rewrite Hperm, (users_ids _ _ _ _ _ Hf2); done).
  pose proof (normalizeTokens_aux _ _ _ (pt_tokens _ _ _ _ _ Hp)) as (T1 & T2 & T3 & T4). rewrite Et in *.
  pose proof (pt_groups _ _ _ _ _ Hp) as Hg. rewrite Eg in Hg. rewrite <- (pt_nested _ _ _ _ _ Hp) in Hg.
  split.
  - exact (suffixes_apart _ _ _ _ Hs (pt_suffix _ _ _ _ _ Hp) Ha (pt_additional _ _ _ _ _ Hp)).
  - split_and!; [done | done | by exists l].
  - intros Hplain. rewrite Forall_forall in Hplain. eapply Forall2_perm_forall; [exact Hperm | exact Hf2 |]. intros u nu Hin Hr. eapply users_clean; [exact Hr | by apply Hplain].
  - apply (normalizeGroups_iff _ _ (b_GroupsDN b) Hnd Hgroups order Ho). by rewrite Hg.
  - by apply (normalizeGroups_result _ _ _ Hnd Hgroups order Ho) in Hg.
  - done.
  - intros Hsoft [r Hr]. eapply Forall2_perm_forall; [exact Hperm | exact Hf2 |]. intros u nu _ Hfrom.
    destruct (uf_seed _ _ _ _ _ Hfrom) as [_ H]; [by rewrite Hsoft |]. destruct (H r Hr) as (_ & sec & _ & E). by rewrite E.
Qed.

(** What the plan creates after the runtime account. *)
Definition plan_tail (n : Baseline) : list DataOp :=
  imap (λ i s, MkDataOp (B "container") (B "additional-suffix-" ++ itoa (Z.of_nat (i + 1))) (String s)) (b_AdditionalSuffixes n) ++
  ((λ u, MkDataOp (B "user") (nu_ID u) (nu_DN u)) <$> b_Users n) ++
  ((λ g, MkDataOp (B "group") (ng_ID g) (ng_DN g)) <$> b_Groups n) ++
  [MkDataOp (B "marker") (B "baseline") (marker_dn n)].

Lemma plan_names (b : Baseline) : do_DN <$> plan_creates b ≡ₚ planned_names b.
Proof using Type.
  unfold plan_creates, planned_names, ManagedSuffixes. rewrite !fmap_app, fmap_imap, <- !list_fmap_compose. cbn [fmap list_fmap do_DN app].
  assert (E : imap (λ n, do_DN ∘ (λ s, MkDataOp (B "container") (B "additional-suffix-" ++ itoa (Z.of_nat (n + 1))) (String s))) (b_AdditionalSuffixes b) = String <$> b_AdditionalSuffixes b)
    by (by rewrite imap_const || (rewrite <- imap_const; apply imap_ext; done)).
  rewrite E. change (do_DN ∘ (λ u, MkDataOp (B "user") (nu_ID u) (nu_DN u))) with nu_DN.
  change (do_DN ∘ (λ g, MkDataOp (B "group") (ng_ID g) (ng_DN g))) with ng_DN. solve_Permutation.
Qed.

Lemma creates_parts (order : graph → list bytes) (resolver : option Resolver) (caller : LoadCaller) (f : File) (b : Baseline) (users : list User) (l : list NormalizedUser) (k : list NormalizedGroup) seeds gs :
  parts order resolver caller f b → b_Users b ≡ₚ l → Forall2 (user_from (b_PeopleDN b) resolver seeds) users l →
  b_Groups b ≡ₚ k → Forall2 (group_from (b_Users b) (b_GroupsDN b)) gs k → creates_ordered b (plan_creates b).
Proof using UL.
  intros Hp Hu Hf Hg Hf'. split; [apply plan_names|].
  assert (Hpeople : rdns (b_PeopleDN b) ≠ []) by (apply (ParseDN_wf_aux _ _ (pt_people _ _ _ _ _ Hp))).
  assert (Hsuffix : rdns (b_Suffix b) ≠ []) by (apply (ParseDN_wf_aux _ _ (pt_suffix _ _ _ _ _ Hp))).
  assert (Users : Forall (λ nu, ∃ v, nu_DN nu = String (below (B "uid") v (b_PeopleDN b))) (b_Users b)).
  { eapply Forall2_perm_forall; [exact Hu | exact Hf |]. intros u nu _ H. eexists. apply H. }
  assert (Groups : Forall (λ ng, ∃ v, ng_DN ng = String (below (B "cn") v (b_GroupsDN b))) (b_Groups b)).
  { eapply Forall2_perm_forall; [exact Hg | exact Hf' |]. intros g ng _ H. eexists. apply H. }
  rewrite Forall_forall in Users. rewrite Forall_forall in Groups.
  assert (C : ∀ i, created_before (plan_creates b) (S i) (b_Suffix b)) by (intros i; eexists 0%nat, _; split_and!; [lia | reflexivity | reflexivity]).
  assert (Cp : ∀ i, created_before (plan_creates b) (S (S i)) (b_PeopleDN b)) by (intros i; eexists 1%nat, _; split_and!; [lia | reflexivity | reflexivity]).
  assert (Cg : ∀ i, created_before (plan_creates b) (S (S (S i))) (b_GroupsDN b)) by (intros i; eexists 2%nat, _; split_and!; [lia | reflexivity | reflexivity]).
  intros i op H. destruct i as [|[|[|[|i]]]].
  - injection H as <-. left. left.
  - injection H as <-. right; right. split; [left | apply C].
  - injection H as <-. right; right. split; [right; left | apply C].
  - injection H as <-. right; left. destruct (pt_runtime _ _ _ _ _ Hp) as (rdn & Hr & E). exists (B "uid"), (b_RuntimeID b), (b_PeopleDN b).
    split; [| apply Cp]. cbn [do_DN]. rewrite E. by apply generated_name.
  - change (plan_creates b !! S (S (S (S i)))) with (plan_tail b !! i) in H. unfold plan_tail in H.
    apply lookup_app_Some in H as [H | [_ H]].
    { left. rewrite list_lookup_imap in H. destruct (b_AdditionalSuffixes b !! i) as [s|] eqn:Es; [|done]. injection H as <-. cbn [do_DN].
      apply list_elem_of_fmap. exists s. split; [done |]. unfold ManagedSuffixes. apply list_elem_of_lookup_2 in Es. set_solver. }
    right; left. apply lookup_app_Some in H as [H | [_ H]]; [| apply lookup_app_Some in H as [H | [_ H]]].
    + apply list_lookup_fmap_Some in H as (nu & -> & Hnu). apply list_elem_of_lookup_2 in Hnu. destruct (Users nu Hnu) as [v Hv].
      exists (B "uid"), v, (b_PeopleDN b). split; [exact Hv | apply Cp].
    + apply list_lookup_fmap_Some in H as (ng & -> & Hng). apply list_elem_of_lookup_2 in Hng. destruct (Groups ng Hng) as [v Hv].
      exists (B "cn"), v, (b_GroupsDN b). split; [exact Hv | apply Cg].
    + apply list_lookup_singleton_Some in H as [_ <-]. exists (B "cn"), (B "labldap-baseline"), (b_Suffix b). split; [| apply C].
      cbn [do_DN]. unfold marker_dn, below. rewrite String_cons by done. by destruct (b_Suffix b).
Qed.
End baseline.

(** C32.  A compiled configuration hangs together.  Its managed suffixes neither equal nor
    contain each other as the compiler compares names, that is by their spelling (one may
    lie below another in another case: [nested_suffix_respelled]); its users have
    identifiers of their own, names directly below the people container which agree with
    the names the document gives, exactly the attributes it lists, none of them forbidden
    or listed twice under another spelling (for plain names), and, where a soft reset is
    enabled, their passwords; its groups have members that exist and no cycle; its tokens
    have known scopes, identifiers and secrets of their own.  The plan carries the
    compiled access rules and creates every suffix, the two containers, the runtime
    account, the marker, every user and every group, each once: the containers after the
    suffix, and each account, user, group and the marker after the entry it is a child
    of.  It deletes in the opposite order.  That the containers lie below the suffix is
    not promised ([people_outside]). *)
Theorem compiled_baseline {U : Unicode} {UL : UnicodeLaws U} {CL : ConfigLib} {V : Vocabulary} (order : graph → list bytes) (env : bytes) (extra : list bytes)
    (resolver : option Resolver) (caller : LoadCaller) (f : File) (c : Compiled) :
  (∀ adj n, n ∈ order adj ↔ n ∈ dom adj) → Compile order env extra resolver caller f = Ok c →
  baseline_ok f resolver caller (c_Normalized c) ∧
  compileACIs (normalized (c_Normalized c)) = Ok (dp_ACIs (c_Data c)) ∧
  creates_ordered (c_Normalized c) (dp_Creates (c_Data c)) ∧ dp_Deletes (c_Data c) = reverse (dp_Creates (c_Data c)).
Proof.
  intros Ho. unfold Compile. intros (f' & Hl & H)%res_bind_ok. apply res_bind_ok in H as (b & Hb & H). apply res_bind_ok in H as (acis & Ha & H). injection H as <-.
  cbn [c_Normalized c_Data]. apply normalizeAll_parts in Hb. pose proof (parts_ok order resolver caller f f' b env extra Ho Hl Hb) as Hok.
  destruct (bo_users _ _ _ _ Hok) as (_ & _ & l & Hu & Hf). destruct (bo_groups _ _ _ _ Hok) as (k & Hg & Hf').
  split_and!; [done | done | | done]. exact (creates_parts _ _ _ _ _ _ _ _ _ _ Hb Hu Hf Hg Hf').
Qed.

(** * A configuration *)

#[local] Existing Instance ascii_unicode.
#[local] Existing Instance ascii_unicode_laws.

(** Host and port at the colon, no IP addresses, whole seconds, minutes and hours of two digits at most. *)
#[local] Instance toy_config : ConfigLib := {|
  SplitHostPort := λ s, let '(h, p, ok) := cut_byte x3a s in if ok : bool then Some (h, p) else None;
  ParseIP := λ _, false;
  ParseDuration := λ s,
    let unit := if has_suffix s (B "h") then 3600 else if has_suffix s (B "m") then 60 else 1 in
    n ← atoi (take (length s - 1) s); Some (n * unit * GoTime.nano);
|}.

#[local] Instance no_vocabulary : Vocabulary := {| attributeTypesFile := [] |}.

Definition toy_resolver : Resolver := λ owner path, if beq path [] then Err [MkCfgErr owner (B "secret_unreadable")] else Ok (MkSecret path path path).

Definition sample_file (suffixes : list bytes) (people : bytes) (users : list User) (groups : list Group) : File :=
  MkFile (B "lab") (MkDirectory [] (B "dc=test") suffixes people [] true false) (MkLifecycle [] [] None)
    (MkTransport false (MkPortSpec false 0) (MkPortSpec true 0) false false)
    (MkManagement [] [B "lab.example"] [] [] [] 0 None None) (MkLimits [] [] 0 0 0 0 0 0) (MkRuntimeAccount [] (B "rt"))
    users groups (MkPasswordPolicy 8 3 (B "24h") [] (MkLockout true 5 (B "15m")) []) []
    [MkTokenIn (B "admin") (B "t1") [B "directory:read"; B "lab:reset"]; MkTokenIn (B "view") (B "t2") [B "directory:read"; B "directory:read"]].

Definition ada : User := MkUser (B "ada") [] (B "uid = ada") (B "uid=ada, ou=people, dc=test") (B "p1") None {[B "GN" := B "Ada"; B "mail" := B "a@test"]}.

Definition bob : User := MkUser (B "bob") (B "robert") [] [] (B "p2") (Some false) ∅.

Definition compile_sample (f : File) : res config_err Compiled := Compile keys_of (B "one.example, two.example") [] (Some toy_resolver) CallerBootstrap f.

Definition sample : File := sample_file [B "o=other"] [] [ada; bob] sample_groups.

Definition sample_compiled : Compiled :=
  match compile_sample sample with
  | Ok c => c
  | Err _ => MkCompiled sample (MkBaseline [] (MkDN []) [] (MkDN []) (MkDN []) false false false [] [] [] [] [] None [] [] (MkPolicy 0 0 0 0 false 0 0 []) [] [])
               (MkEnginePlan [] [] [] [] (MkPolicy 0 0 0 0 false 0 0 []) []) (MkDataPlan [] [] [] [] [] [] [] []) false
  end.

Lemma sample_compiles : compile_sample sample = Ok sample_compiled.
Proof. vm_compute. reflexivity. Qed.

Lemma compiled_baseline_witness :
  (baseline_ok sample (Some toy_resolver) CallerBootstrap (c_Normalized sample_compiled) ∧
   creates_ordered (c_Normalized sample_compiled) (dp_Creates (c_Data sample_compiled))) ∧
  nu_Attributes <$> b_Users (c_Normalized sample_compiled) = [[(B "givenname", B "Ada"); (B "mail", B "a@test")]; []].
Proof.
  split; [| vm_compute; reflexivity].
  pose proof (compiled_baseline keys_of (B "one.example, two.example") [] (Some toy_resolver) CallerBootstrap sample sample_compiled keys_of_dom sample_compiles) as H.
  exact (conj (proj1 H) (proj1 (proj2 (proj2 H)))).
Defined.

(** * Holes in the checks *)

Definition compiles (f : File) (P : Baseline → Prop) : Prop := ∃ c, compile_sample f = Ok c ∧ P (c_Normalized c).

Lemma compiles_ok (f : File) (P : Baseline → Prop) :
  match compile_sample f with Ok c => P (c_Normalized c) | Err _ => False end → compiles f P.
Proof. unfold compiles. destruct (compile_sample f) as [c|]; [by exists c | done]. Qed.

(** Only the identifiers of users are compared: two users with one uid, or one with the
    uid of the runtime account, are compiled to entries of one name. *)
Lemma one_name_twice :
  compiles (sample_file [] [] [ada; MkUser (B "ada2") (B "ada") [] [] (B "p2") None ∅] sample_groups)
    (λ b, nu_DN <$> b_Users b = [B "uid=ada,ou=people,dc=test"; B "uid=ada,ou=people,dc=test"]) ∧
  compiles (sample_file [] [] [MkUser (B "labldap-runtime") [] [] [] (B "p2") None ∅] [])
    (λ b, nu_DN <$> b_Users b = [b_RuntimeDN b]).
Proof. split; apply compiles_ok; vm_compute; reflexivity. Qed.

(** Nesting is decided by spelling, while the directory folds names: a suffix below
    another one passes if it spells that one in another case. *)
Lemma nested_suffix_respelled :
  compiles (sample_file [B "ou=sub,dc=TEST"] [] [] [])
    (λ b, FoldedKey <$> b_AdditionalSuffixes b = [B "ou=sub," ++ FoldedKey (b_Suffix b)]).
Proof. apply compiles_ok. vm_compute. reflexivity. Qed.

(** A container that ends in a backslash escapes the comma that joins it to the suffix:
    users are put outside of every managed suffix. *)
Lemma people_outside :
  compiles (sample_file [] (B "ou=people" ++ [c_backslash]) [bob] []) (λ b, UnderAny (b_PeopleDN b) (ManagedSuffixes b) = false).
Proof. apply compiles_ok. vm_compute. reflexivity. Qed.

(** A space before the options hides a second descriptor from the check, not from the
    name that is stored: a user is given cn with an option, which the check refuses. *)
Lemma hidden_alias :
  ForbiddenUserWriteAttr (B "commonName;x") = true ∧ ForbiddenUserWriteAttr (B "commonName ;x") = false ∧
  stored_name (B "commonName ;x") = B "cn;x" ∧ ForbiddenUserWriteAttr (B "cn;x") = true.
Proof. by vm_compute. Qed.
